(* ===== verification/_CoqProject ===== *)
-Q . S2P
Prelude.v
Features.v
State.v
Ir.v
Alu.v
Memory.v
PageTrack.v
Interp.v
IntegerSpec.v
StringOps.v
Control.v
CodeMap.v
HostFloat.v
F80.v
F80Round.v
F80Spec.v
F80Conv.v
F80Trans.v
X87.v
X87Spec.v
X87Exc.v
X87Image.v
X87Arm.v
Aes.v
AesSpec.v
Sha.v
VecOps.v
VecFloat.v
VecMem.v
VecCpu.v
VecArm.v
VecOp.v
VecRange.v
VecSafe.v
VecAtomic.v
VecTotal.v
VecLane.v
VecRun.v
VecMmio.v
VecGap.v
Block.v
Frame.v
Walk.v
Lift.v
Elide.v
ElideSpec.v
Cache.v
LiftSpec.v
Vm.v
Evolve.v
Toy.v
Raise.v
VmSpec.v
RunSpec.v
Refine.v
Dispatch.v
Cover.v
Insn.v
LiftInt.v
LiftCtl.v
LiftVec.v
LiftInsn.v
InsnSpec.v
LowerInt.v
LowerVec.v
LowerSpec.v
Sample.v
Whole.v
LowerSem.v
LowerAlu.v
LowerExact.v
LowerGap.v
