(* ===== verification/Prelude.v ===== *)
(** * x86jit: a shallow embedding of the recompiler's core

    x86jit runs x86 guests.  A lifter decodes guest code into an intermediate
    representation (IR), blocks of IR are run by an interpreter or compiled with Cranelift,
    and a dispatcher runs blocks against a guest memory, a CPU state and a translation
    cache, leaving to the embedder on system calls, faults and device accesses.  This
    library models that path: the CPU state and the memory, the lowering of every
    instruction, every interpreter arm, the software floating point, the translation cache
    and the run loop, and the protocols that keep cached translations coherent with a guest
    that modifies its own code.  Names follow the sources, under x86jit-core/src
    unless said otherwise.

    ** Files and what they model

    State and memory:
    - [Prelude]: fixed-width integers ([wrap], [to_signed], [in_width]), little-endian
      bytes, lists indexed by [Z], the shared tactics and hints.
    - [Features] (features.rs): the guest feature set, its presets, the CPUID leaves and
      XCR0 projected from it.
    - [State] (state.rs): [CpuState], lazily computed PF and AF, FLAGS images,
      sub-register and masked vector writes, the table of answered device transfers.
    - [Memory] (memory.rs): backings, regions, map/unmap/reprotect, scalar, wide and
      atomic accesses, code-page tags and watched ranges.  [View] is the abstract memory
      (what kind of region holds an address, which byte it has) the operations refine.
    - [PageTrack] (memory.rs, x86jit-cranelift/src/codegen/mod.rs): the store barrier of
      compiled code, and the compare-and-swap loop of the code watermark as a step
      relation over any number of threads.

    The interpreter:
    - [Ir], [Block] (ir.rs, exit.rs): exits, operands, the ops of a block; the vector ops
      are under the one constructor [Vector].
    - [Alu] (interp/mod.rs): the pure integer helpers of the arms.
    - [Interp], [IntegerSpec] (interp/integer.rs, vm.rs): the machine monad, one
      definition per integer arm, the completions of device accesses, and what the arms
      compute.
    - [StringOps] (interp/mod.rs, interp/control.rs): the one string loop over both
      implementors of the trait [StrMem], here a class with laws.
    - [Control] (interp/control.rs): jumps, calls, far transfers, real-mode stack and
      interrupts.
    - [HostFloat]: Rust's [f32]/[f64] operators on bit patterns.
    - [F80], [F80Round], [F80Spec], [F80Conv], [F80Trans] (f80.rs): the 80-bit floats,
      the theory of correct rounding over the reals, and the theorems.
    - [X87], [X87Spec], [X87Exc], [X87Image], [X87Arm] (x87.rs, interp/control.rs,
      x86jit-cranelift/src/lib.rs): every x87 operation over both memory back ends,
      exceptions, the saved images, the interpreter arms and the compiled code's helpers.
    - [Aes], [AesSpec], [Sha] (aes.rs, gfni.rs, pclmul.rs, sha.rs).
    - [VecOps], [VecFloat], [VecMem], [VecCpu], [VecArm], [VecOp] (interp/vector.rs,
      interp/mod.rs, ir.rs): the SSE/AVX/AVX-512 operations: functions on lanes, floating
      point and half precision, register and memory access, the register forms shared with
      compiled code, the arms, and the constructors with their dispatch.
    - [VecRange], [VecSafe], [VecAtomic], [VecTotal]: widths, the register-file invariant,
      the rules of fault atomicity, and the theorems over all vector ops.
    - [VecLane], [VecRun], [VecMmio]: element-by-element meaning, masked loads on both
      memories, loads from devices.  [VecGap]: where the vector arms break the rules.
    - [Frame], [Walk] (interp/mod.rs): what each family of arms leaves alone; the walk over
      a block of every op and its retirement bookkeeping.

    Translation:
    - [Lift] (lift/mod.rs): the decode loop, single-instruction blocks, the real-mode
      decode policy, superblock regions, the dead-flag pass.  iced-x86 is the class [Iced];
      the lowering of one instruction is the class [InsnLifter], [None] when it panics.
    - [Elide], [ElideSpec]: the dead-flag pass against the block it rewrites.
    - [LiftSpec]: what lifting guarantees against [LifterLaws], the promises of a decoder
      and a lowering.
    - [Insn], [LiftInt], [LiftCtl], [LiftVec], [LiftInsn] (lift/mod.rs, lift/integer.rs,
      lift/control.rs, lift/vector.rs): the lowering itself, one definition per function,
      over the accessors of iced-x86's instruction (class [InsnView]) in the monad [L] of
      pushed ops and the temporary counter, where an assertion that fails is [None].
    - [InsnSpec], [LowerInt], [LowerVec], [LowerSpec]: every lowering emits well-formed ops
      and fails no assertion, from [IcedLaws]; so it keeps [LifterLaws], but for the three
      forms [covered] excludes.
    - [LowerSem], [LowerAlu], [LowerExact]: a logic of triples over [L], and with it what
      the emitted ops compute.  [LowerGap]: where a lowering departs from the instruction.
    - [Toy], [Sample]: small decoders that keep the laws, for the examples.

    The dispatcher:
    - [Cache] (cache.rs, vm.rs): the translation cache and the steps of the
      self-modifying-code protocol.  [CodeMap] (codemap.rs): host PC to guest RIP.
    - [Vm] (vm.rs, jit_abi.rs): a machine and its virtual CPU, lookup with inline and
      background tier-up, the run loop with its fast cache, device resumption, interrupt
      delivery, block linking and indirect-target slots; backends are instances of the
      class [Backend].
    - [Evolve], [Raise]: what a block does to the memory, where it raises an exception.
    - [VmSpec], [RunSpec]: runs do not panic and end, against [BackendLaws].
    - [Refine]: the run loop against a machine without a cache.
    - [Dispatch]: regions, interrupts, real-mode aliasing.
    - [Cover], [Whole]: which instructions a run fetches, and the run loop over the lowering
      itself.

    ** How code becomes definitions

    A Rust integer of width [w] is a [Z]; every operation that can leave the width is
    written with its wrap-around.  A Rust array is a list whose length is part of the
    well-formedness of its owner.  An arm is a function of the monad [M] over the CPU
    state, the memory and the block's temporaries; [None] is a panic (a failed assertion,
    an index out of range, an overflow where overflow is checked) or undefined behaviour,
    so the theorems that something returns [Some] are the absence of both.  The exception is
    [F80], whose shifts are on unbounded integers.  Traps are values ([Result], [Exit]).
    Float values are bit patterns.  Traits are classes ([StrMem], [FpMem], [CodeTags],
    [Backend]) with their laws, and the host's mathematics library is a parameter (class
    [Libm]).

    ** What the theorems show

    - A guest program runs: from the bytes of a program to an exit, decoding, lowering,
      caching and interpreting compose without a panic and end within the budget
      ([Whole.guest_program_runs]); the loop is a machine that translates what is in memory
      now ([Refine.run_refines]); forming a region ends ([Dispatch.region_formation_ends]);
      a queued interrupt is delivered exactly when it may be
      ([Dispatch.irq_delivered_when_ready]).
    - Lowered instructions compute what the instruction does: effective addresses, the
      two-operand arithmetic, conditional moves, the stack ([LowerExact]); the dead-flag
      pass changes nothing a block shows at its end ([ElideSpec.dead_flags_preserved]).
    - No well-formed block panics and the machine stays well formed
      ([Walk.block_never_panics], [VecTotal.vector_op_total], [X87Spec.x87_refines]).
    - Faults are precise: RIP is on the faulting instruction with nothing of a vector
      instruction done ([Walk.memory_faults_precise], [VecTotal.vector_fault_atomic]),
      string instructions restart ([StringOps.string_restart]), and device accesses
      resume ([IntegerSpec.mmio_trap_and_resume], [VecMmio.device_load_completes]).
    - The memory refines its abstract view under every reachable configuration
      ([Memory]), and the two back ends agree on what walks memory
      ([StringOps.string_backends_agree], [X87Arm.x87_backends_agree],
      [VecRun.masked_load_exact] on both memories).
    - A cached translation is current wherever no invalidation is on the way, but for two
      windows the protocol leaves open ([Cache.smc_coherent], [Cache.lift_insert_race]);
      a stale tier-up is never published; concurrent taggings never lose a code page from
      the watermark ([PageTrack.watermark_interleaving_sound]).
    - Arithmetic is exact: integer flags and division, 80-bit floats correctly rounded
      while the result is in the normal range, packed operations lane by lane, AES and SHA
      against their standards.
    - Where the code departs from its documentation or from the architecture, a theorem
      next to the property shows it on a concrete machine ([Whole.pop_rsp_asserts],
      [Dispatch.irq_lost_on_fault], [F80Spec.tiny_product_flushed], [VecGap], [LowerGap]
      and others).

    ** Bounds and fuel

    The string loop runs on fuel RCX + 1, which [StringOps.string_run_total] shows to be
    enough; the decode loop on the length of the fetched bytes + 1, as every instruction
    takes at least one; the region walk on [max_blocks] + 1, one step per block; a lookup
    on two turns, of which the first answers when no other virtual CPU invalidates; a run with a budget of [b] blocks on
    [b] + 1 turns, which [RunSpec] shows to be enough; the integer square root and the
    series of [F80Trans] on the fixed counts of the source; [VecMmio.drive] on the number
    of device transfers of the load, at most eight.  Loops over lanes and elements are
    structural over their count.

    ** What is not modelled

    iced-x86 is external: its decoder and the accessors of an instruction are parameters
    (classes [Iced] and [InsnView]), what is relied on of them is [IcedLaws], and the small
    decoder of [Sample] shows that these laws can hold.  Three forms are outside [covered]
    because the code panics or may panic on them: [valign] by more than its buffer, a 32-byte horizontal
    float op with its second source in memory, and [pop] to memory addressed by the stack
    pointer.  The Cranelift code generator builds code through an external library: compiled
    code is the method [call_block] of a [Backend], and only the store barrier and the
    helpers compiled code calls for x87, strings and vector memory are modelled.  One
    virtual CPU is run at a time: the interleavings of several are the subject of [Cache]
    and [PageTrack] only.  The ELF loader reads images through the external parser goblin;
    it, the lockstep debugger, the disassembler and the tests are not modelled. *)

From stdpp Require Export base list gmap numbers.
From Stdlib Require Export ZArith Lia Bool Btauto.

#[global] Open Scope Z_scope.

(** ** Fixed-width integers

    A Rust [u<w>] is a [Z] in [[0, 2^w)]; every operation of the source that can
    leave that range is written with its wrap-around.  A Rust [i<w>] is a [Z] in
    [[-2^(w-1), 2^(w-1))], obtained with [to_signed]. *)

(** [x as u<w>] *)
Definition wrap (w x : Z) : Z := x mod 2 ^ w.

(** [x as i<w>] *)
Definition to_signed (w x : Z) : Z :=
  let r := wrap w x in if r <? 2 ^ (w - 1) then r else r - 2 ^ w.

Definition in_width (w x : Z) : Prop := 0 <= x < 2 ^ w.

Definition wrapping_add (w a b : Z) : Z := wrap w (a + b).
Definition wrapping_sub (w a b : Z) : Z := wrap w (a - b).
Definition wrapping_mul (w a b : Z) : Z := wrap w (a * b).
Definition wrapping_neg (w a : Z) : Z := wrap w (- a).
Definition unot (w a : Z) : Z := wrap w (Z.lnot a).
Definition checked_add (w a b : Z) : option Z :=
  if a + b <? 2 ^ w then Some (a + b) else None.
Definition saturating_add (w a b : Z) : Z := Z.min (a + b) (2 ^ w - 1).
Definition saturating_sub (a b : Z) : Z := Z.max (a - b) 0.
Definition div_ceil (a b : Z) : Z := (a + b - 1) / b.

(** Rust's wrapping shifts reduce the count modulo the width. *)
Definition wrapping_shl (w a n : Z) : Z := wrap w (Z.shiftl a (n mod w)).
Definition wrapping_shr (w a n : Z) : Z := Z.shiftr a (n mod w).
Definition rotate_left (w a n : Z) : Z :=
  wrap w (Z.lor (Z.shiftl a (n mod w)) (Z.shiftr a (w - n mod w))).
Definition rotate_right (w a n : Z) : Z :=
  wrap w (Z.lor (Z.shiftr a (n mod w)) (Z.shiftl a (w - n mod w))).

(** [bool as u<w>] *)
Definition b2z (b : bool) : Z := if b then 1 else 0.

(** [x & m != 0] *)
Definition test (x m : Z) : bool := negb (Z.land x m =? 0).

Fixpoint pos_count_ones (p : positive) : Z :=
  match p with
  | xH => 1
  | xO q => pos_count_ones q
  | xI q => 1 + pos_count_ones q
  end.

Definition count_ones (x : Z) : Z :=
  match x with Zpos p => pos_count_ones p | _ => 0 end.

Fixpoint pos_trailing_zeros (p : positive) : Z :=
  match p with xO q => 1 + pos_trailing_zeros q | _ => 0 end.

Definition trailing_zeros (w x : Z) : Z :=
  match x with Zpos p => pos_trailing_zeros p | _ => w end.

Definition leading_zeros (w x : Z) : Z :=
  if x =? 0 then w else w - 1 - Z.log2 x.

(** ** Little-endian byte strings *)

Fixpoint to_le_bytes (n : nat) (x : Z) : list Z :=
  match n with
  | O => []
  | S n' => wrap 8 x :: to_le_bytes n' (Z.shiftr x 8)
  end.

Fixpoint from_le_bytes (bs : list Z) : Z :=
  match bs with
  | [] => 0
  | b :: bs' => Z.lor b (Z.shiftl (from_le_bytes bs') 8)
  end.

Definition swap_bytes (n : nat) (x : Z) : Z := from_le_bytes (rev (to_le_bytes n x)).

(** [lo, lo+1, ..., lo+n-1] *)
Fixpoint zseq (lo : Z) (n : nat) : list Z :=
  match n with O => [] | S n' => lo :: zseq (lo + 1) n' end.

(** Rust's [l[i]] with a [usize] index kept as [Z]: out of range is [None]. *)
Definition nthZ {A} (l : list A) (i : Z) : option A :=
  if i <? 0 then None else l !! Z.to_nat i.
Definition updZ {A} (l : list A) (i : Z) (x : A) : option (list A) :=
  if (0 <=? i) && (i <? Z.of_nat (length l)) then Some (<[Z.to_nat i := x]> l) else None.

(** Rust's [Result]; a [panic!] or an out-of-bounds raw access is [None] around it. *)
Inductive Result (A E : Type) : Type :=
  | Ok (a : A)
  | Err (e : E).
Arguments Ok {A E} a.
Arguments Err {A E} e.

(** ** Automation *)

Create HintDb width.
Create Rewrite HintDb zbits.

#[export] Hint Rewrite Z.land_spec Z.lor_spec Z.lxor_spec Z.testbit_0_l
  Bool.andb_false_r Bool.andb_false_l Bool.andb_true_r Bool.andb_true_l
  Bool.orb_false_r Bool.orb_false_l Bool.orb_true_r Bool.orb_true_l
  Bool.xorb_false_r Bool.xorb_false_l : zbits.
#[export] Hint Rewrite Z.shiftr_spec Z.shiftl_spec Z.lnot_spec Z.testbit_ones_nonneg
  Z.testbit_mod_pow2 Z.bits_m1 using lia : zbits.

(** Decide a boolean comparison by cases, turning it into a linear fact. *)
Ltac zcase :=
  match goal with
  | |- context [?a <? ?b] => destruct (Z.ltb_spec a b)
  | |- context [?a <=? ?b] => destruct (Z.leb_spec a b)
  | |- context [?a =? ?b] => destruct (Z.eqb_spec a b)
  end.

Ltac zneg :=
  match goal with
  | |- context [Z.testbit ?a ?i] => rewrite (Z.testbit_neg_r a i) by lia
  end.

(** Prove an equality of integers bit by bit. *)
Ltac zbits_core :=
  repeat (autorewrite with zbits; try lia; try zneg; try zcase);
  try (f_equal; lia); try btauto.
Ltac zbits :=
  apply Z.bits_inj'; intros ?i ?Hi; zbits_core.

(** Take apart every [match] on the way to the goal. *)
Ltac cases :=
  repeat (match goal with
          | |- context [match ?x with _ => _ end] => destruct x eqn:?; simplify_eq/=
          end; try done).

(** ** Width lemmas *)

Lemma pow2_pos w : 0 <= w -> 0 < 2 ^ w.
Proof. intros. apply Z.pow_pos_nonneg; lia. Qed.

Lemma pow2_split a b : 0 <= a -> 0 <= b -> 2 ^ (a + b) = 2 ^ a * 2 ^ b.
Proof. intros. by apply Z.pow_add_r. Qed.

Lemma pow2_half w : 1 <= w -> 2 ^ w = 2 * 2 ^ (w - 1).
Proof. intros. replace w with (1 + (w - 1)) at 1 by lia. rewrite pow2_split; lia. Qed.

Lemma wrap_range w x : 0 <= w -> in_width w (wrap w x).
Proof. intros. apply Z.mod_pos_bound, pow2_pos. done. Qed.

Lemma wrap_small w x : in_width w x -> wrap w x = x.
Proof. apply Z.mod_small. Qed.

Lemma wrap_wrap w x : 0 <= w -> wrap w (wrap w x) = wrap w x.
Proof. intros. by apply wrap_small, wrap_range. Qed.

Lemma wrap_ones w x : 0 <= w -> Z.land x (Z.ones w) = wrap w x.
Proof. apply Z.land_ones. Qed.

Lemma wrap_testbit w x i : 0 <= w -> Z.testbit (wrap w x) i = (i <? w) && Z.testbit x i.
Proof. apply Z.testbit_mod_pow2. Qed.

Lemma wrap_add_l w a b : 0 <= w -> wrap w (wrap w a + b) = wrap w (a + b).
Proof. intros. apply Zplus_mod_idemp_l. Qed.

Lemma wrap_add_r w a b : 0 <= w -> wrap w (a + wrap w b) = wrap w (a + b).
Proof. intros. apply Zplus_mod_idemp_r. Qed.

Lemma wrap_sub_l w a b : 0 <= w -> wrap w (wrap w a - b) = wrap w (a - b).
Proof. intros. apply Zminus_mod_idemp_l. Qed.

Lemma wrap_sub_r w a b : 0 <= w -> wrap w (a - wrap w b) = wrap w (a - b).
Proof. intros. apply Zminus_mod_idemp_r. Qed.

Lemma wrap_wrap_le w v x : 0 <= w <= v -> wrap w (wrap v x) = wrap w x.
Proof. intros. unfold wrap. zbits. Qed.

Lemma in_width_mono w v x : 0 <= w <= v -> in_width w x -> in_width v x.
Proof. unfold in_width. intros ? ?. assert (2 ^ w <= 2 ^ v) by (apply Z.pow_le_mono_r; lia). lia. Qed.

(** A value fits in [w] bits exactly when no bit at or above [w] is set. *)
Lemma in_width_bits w x :
  0 <= w -> 0 <= x -> (forall i, w <= i -> Z.testbit x i = false) -> in_width w x.
Proof.
  intros Hw Hx Hb. split; [done|].
  assert (x = wrap w x) as ->; [|by apply wrap_range].
  apply Z.bits_inj'. intros i Hi. rewrite wrap_testbit by done.
  destruct (Z.ltb_spec i w); [done|]. by rewrite Hb.
Qed.

Lemma in_width_high w x i : in_width w x -> 0 <= w -> w <= i -> Z.testbit x i = false.
Proof.
  intros Hx Hw Hi. rewrite <- (wrap_small w x Hx), wrap_testbit by done.
  destruct (Z.ltb_spec i w); [lia|done].
Qed.

Lemma in_width_nonneg w x : in_width w x -> 0 <= x.
Proof. unfold in_width; lia. Qed.

Lemma in_width_land w x y : 0 <= w -> in_width w x -> 0 <= y -> in_width w (Z.land x y).
Proof.
  intros Hw Hx Hy. apply in_width_bits; [done| |].
  - apply Z.land_nonneg. left. by eapply in_width_nonneg.
  - intros i Hi. by rewrite Z.land_spec, (in_width_high w x) by done.
Qed.

Lemma in_width_lor w x y : 0 <= w -> in_width w x -> in_width w y -> in_width w (Z.lor x y).
Proof.
  intros Hw Hx Hy. apply in_width_bits; [done| |].
  - apply Z.lor_nonneg. split; by eapply in_width_nonneg.
  - intros i Hi. by rewrite Z.lor_spec, (in_width_high w x), (in_width_high w y) by done.
Qed.

Lemma in_width_lxor w x y : 0 <= w -> in_width w x -> in_width w y -> in_width w (Z.lxor x y).
Proof.
  intros Hw Hx Hy. apply in_width_bits; [done| |].
  - apply Z.lxor_nonneg. split; intros; by eapply in_width_nonneg.
  - intros i Hi. by rewrite Z.lxor_spec, (in_width_high w x), (in_width_high w y) by done.
Qed.

Lemma in_width_shiftr w x n : 0 <= w -> 0 <= n -> in_width w x -> in_width w (Z.shiftr x n).
Proof.
  intros Hw Hn Hx. apply in_width_bits; [done| |].
  - apply Z.shiftr_nonneg. by eapply in_width_nonneg.
  - intros i Hi. rewrite Z.shiftr_spec by lia. apply (in_width_high w); [done|done|lia].
Qed.

Lemma lor_shifted n x y : 0 <= n -> in_width n y -> Z.lor (Z.shiftl x n) y = x * 2 ^ n + y.
Proof.
  intros Hn Hy. rewrite <- Z.shiftl_mul_pow2 by done. symmetry. apply Z.add_nocarry_lor.
  apply Z.bits_inj'. intros i Hi. rewrite Z.land_spec, Z.shiftl_spec, Z.testbit_0_l by done.
  destruct (Z.ltb_spec i n).
  - by rewrite Z.testbit_neg_r by lia.
  - by rewrite (in_width_high n y), andb_false_r by done.
Qed.

Lemma in_width_b2z w b : 1 <= w -> in_width w (b2z b).
Proof. intros. assert (2 <= 2 ^ w) by (rewrite pow2_half by lia; pose proof (pow2_pos (w - 1)); lia). destruct b; unfold in_width; simpl; lia. Qed.

#[export] Hint Resolve wrap_range in_width_land in_width_lor in_width_lxor in_width_shiftr
  in_width_b2z in_width_nonneg : width.
#[export] Hint Extern 1 (0 <= _) => lia : width.
#[export] Hint Extern 1 (1 <= _) => lia : width.

(** ** Signed reinterpretation *)

Lemma to_signed_range w x : 1 <= w -> - 2 ^ (w - 1) <= to_signed w x < 2 ^ (w - 1).
Proof.
  intros Hw. unfold to_signed. pose proof (wrap_range w x ltac:(lia)) as [? ?].
  pose proof (pow2_half w Hw). pose proof (pow2_pos (w - 1)).
  destruct (Z.ltb_spec (wrap w x) (2 ^ (w - 1))); lia.
Qed.

Lemma to_signed_wrap w x : 0 <= w -> to_signed w (wrap w x) = to_signed w x.
Proof. intros. unfold to_signed. by rewrite wrap_wrap. Qed.

Lemma wrap_to_signed w x : 0 <= w -> wrap w (to_signed w x) = wrap w x.
Proof.
  intros. unfold to_signed. destruct (_ <? _); [by apply wrap_wrap|].
  unfold wrap at 1. rewrite <- (Z_mod_plus_full _ 1). rewrite Z.mul_1_l, Z.sub_add.
  by apply wrap_wrap.
Qed.

(** Sign bit and sign of the reinterpretation. *)
Lemma to_signed_neg w x : 1 <= w -> (to_signed w x <? 0) = Z.testbit x (w - 1).
Proof.
  intros Hw. unfold to_signed. pose proof (wrap_range w x ltac:(lia)) as [? ?].
  pose proof (pow2_half w Hw).
  replace (Z.testbit x (w - 1)) with (Z.testbit (wrap w x) (w - 1))
    by (rewrite wrap_testbit by lia; destruct (Z.ltb_spec (w - 1) w); [done|lia]).
  rewrite Z.testbit_eqb by lia.
  destruct (Z.ltb_spec (wrap w x) (2 ^ (w - 1))).
  - rewrite Z.div_small by lia. destruct (Z.ltb_spec (wrap w x) 0); [lia|done].
  - replace (wrap w x / 2 ^ (w - 1)) with 1.
    + destruct (Z.ltb_spec (wrap w x - 2 ^ w) 0); [done|lia].
    + apply (Z.div_unique _ _ 1 (wrap w x - 2 ^ (w - 1))); lia.
Qed.

Lemma to_signed_unique w x y :
  1 <= w -> - 2 ^ (w - 1) <= y < 2 ^ (w - 1) -> wrap w y = wrap w x -> to_signed w x = y.
Proof.
  intros Hw Hy He. unfold to_signed. rewrite <- He.
  pose proof (pow2_half w Hw). pose proof (pow2_pos (w - 1)).
  destruct (Z.ltb_spec y 0).
  - assert (wrap w y = y + 2 ^ w) as ->.
    { unfold wrap. symmetry. apply (Z.mod_unique _ _ (-1)); lia. }
    destruct (Z.ltb_spec (y + 2 ^ w) (2 ^ (w - 1))); lia.
  - rewrite wrap_small by (unfold in_width; lia).
    destruct (Z.ltb_spec y (2 ^ (w - 1))); lia.
Qed.

(** ** Testing a single bit *)

Lemma test_pow2 x i : 0 <= i -> test x (2 ^ i) = Z.testbit x i.
Proof.
  intros Hi. unfold test. destruct (Z.testbit x i) eqn:E.
  - destruct (Z.eqb_spec (Z.land x (2 ^ i)) 0) as [H|]; [|done].
    assert (Z.testbit (Z.land x (2 ^ i)) i = false) as F by (rewrite H; apply Z.testbit_0_l).
    by rewrite Z.land_spec, E, Z.pow2_bits_true in F.
  - replace (Z.land x (2 ^ i)) with 0; [done|]. symmetry. apply Z.bits_inj'. intros n Hn.
    rewrite Z.land_spec, Z.testbit_0_l. destruct (decide (i = n)) as [->|].
    + by rewrite E.
    + by rewrite Z.pow2_bits_false, andb_false_r.
Qed.

Lemma test_one x : test x 1 = Z.odd x.
Proof. change 1 with (2 ^ 0). rewrite test_pow2 by lia. by rewrite Z.bit0_odd. Qed.

Lemma b2z_testbit b i : Z.testbit (b2z b) i = b && (i =? 0).
Proof.
  destruct b; simpl; [|apply Z.testbit_0_l].
  destruct (Z.eqb_spec i 0) as [->|]; [done|].
  destruct (Z.ltb_spec i 0); [by apply Z.testbit_neg_r|].
  change 1 with (2 ^ 0). by apply Z.pow2_bits_false.
Qed.
#[export] Hint Rewrite b2z_testbit : zbits.

(** ** Bytes *)

Lemma length_to_le_bytes n x : length (to_le_bytes n x) = n.
Proof. revert x; induction n; intros; simpl; f_equal; auto. Qed.

Lemma to_le_bytes_range n x : Forall (in_width 8) (to_le_bytes n x).
Proof. revert x; induction n; intros; simpl; constructor; auto with width. Qed.

Lemma from_to_le_bytes n x : from_le_bytes (to_le_bytes n x) = wrap (8 * Z.of_nat n) x.
Proof.
  revert x. induction n as [|n IH]; intros x.
  - simpl. unfold wrap. by rewrite Z.mod_1_r.
  - cbn [to_le_bytes from_le_bytes]. rewrite IH. unfold wrap.
    replace (8 * Z.of_nat (S n)) with (8 * Z.of_nat n + 8) by lia. zbits.
Qed.

Lemma from_le_bytes_range bs :
  Forall (in_width 8) bs -> in_width (8 * Z.of_nat (length bs)) (from_le_bytes bs).
Proof.
  induction 1 as [|b bs Hb _ IH]; [unfold in_width; simpl; lia|].
  cbn [from_le_bytes length]. replace (8 * Z.of_nat (S (length bs))) with (8 * Z.of_nat (length bs) + 8) by lia.
  apply in_width_bits; [lia| |].
  - apply Z.lor_nonneg. split; [by eapply in_width_nonneg|].
    apply Z.shiftl_nonneg. by eapply in_width_nonneg.
  - intros i Hi. rewrite Z.lor_spec, Z.shiftl_spec by lia.
    rewrite (in_width_high _ _ _ Hb), (in_width_high _ _ _ IH) by lia. done.
Qed.

Lemma to_from_le_bytes bs :
  Forall (in_width 8) bs -> to_le_bytes (length bs) (from_le_bytes bs) = bs.
Proof.
  induction 1 as [|b bs Hb Hbs IH]; [done|]. cbn [from_le_bytes length to_le_bytes].
  assert (Hr : 0 <= from_le_bytes bs) by (eapply in_width_nonneg, from_le_bytes_range; done).
  f_equal.
  - rewrite <- (wrap_small 8 b Hb) at 2. unfold wrap. zbits.
  - etransitivity; [|exact IH]. f_equal. apply Z.bits_inj'. intros i Hi.
    rewrite Z.shiftr_spec, Z.lor_spec, Z.shiftl_spec by lia.
    rewrite (in_width_high _ _ _ Hb) by lia. simpl. f_equal. lia.
Qed.

(** ** Index arithmetic *)

Lemma zseq_elem lo n x : x ∈ zseq lo n <-> lo <= x < lo + Z.of_nat n.
Proof.
  revert lo. induction n as [|n IH]; intros lo; simpl.
  - rewrite elem_of_nil. lia.
  - rewrite elem_of_cons, IH. lia.
Qed.

Lemma foldl_inv {A B} (P : A -> Prop) (f : A -> B -> A) l a :
  (forall a b, P a -> P (f a b)) -> P a -> P (foldl f a l).
Proof. intros Hf. revert a. induction l as [|b l IH]; intros a Ha; simpl; auto. Qed.

Lemma foldl_inv_in {A B} (P : A -> Prop) (f : A -> B -> A) l a :
  (forall a b, b ∈ l -> P a -> P (f a b)) -> P a -> P (foldl f a l).
Proof.
  revert a. induction l as [|b l IH]; intros a Hf Ha; [done|]. cbn. apply IH; [|apply Hf; [left|done]].
  intros a' b' Hb. apply Hf. by right.
Qed.

Lemma length_zseq lo n : length (zseq lo n) = n.
Proof. revert lo. induction n; intros; simpl; f_equal; auto. Qed.

Lemma NoDup_zseq lo n : NoDup (zseq lo n).
Proof.
  revert lo. induction n as [|n IH]; intros lo; cbn; constructor; [|apply IH].
  rewrite zseq_elem. lia.
Qed.

Lemma zseq_snoc lo n : zseq lo (S n) = zseq lo n ++ [lo + Z.of_nat n].
Proof.
  revert lo. induction n as [|n IH]; intros lo; [cbn; f_equal; lia|].
  change (zseq lo (S (S n))) with (lo :: zseq (lo + 1) (S n)). rewrite IH. cbn [app zseq]. do 3 f_equal. lia.
Qed.

Lemma foldl_ext_in {A B} (f g : A -> B -> A) l a : (forall a b, b ∈ l -> f a b = g a b) -> foldl f a l = foldl g a l.
Proof.
  revert a. induction l as [|b l IH]; intros a H; [done|]. cbn [foldl]. rewrite H by left. apply IH. intros. apply H. by right.
Qed.

Lemma zseq_app lo n m : zseq lo (n + m) = zseq lo n ++ zseq (lo + Z.of_nat n) m.
Proof.
  revert lo. induction n as [|n IH]; intros lo; [cbn; f_equal; lia|]. cbn [Nat.add zseq app]. rewrite IH. do 3 f_equal. lia.
Qed.

Lemma nthZ_Some {A} (l : list A) i x :
  nthZ l i = Some x <-> 0 <= i /\ l !! Z.to_nat i = Some x.
Proof. unfold nthZ. destruct (Z.ltb_spec i 0); naive_solver lia. Qed.

Lemma updZ_Some {A} (l l' : list A) i x :
  updZ l i x = Some l' <-> 0 <= i < Z.of_nat (length l) /\ l' = <[Z.to_nat i := x]> l.
Proof.
  unfold updZ. destruct (Z.leb_spec 0 i), (Z.ltb_spec i (Z.of_nat (length l))); simpl; naive_solver lia.
Qed.

Lemma updZ_length {A} (l l' : list A) i x : updZ l i x = Some l' -> length l' = length l.
Proof. intros [_ ->]%updZ_Some. apply length_insert. Qed.

Lemma updZ_lookup {A} (l l' : list A) i x j :
  updZ l i x = Some l' -> nthZ l' j = if i =? j then Some x else nthZ l j.
Proof.
  intros [Hi ->]%updZ_Some. unfold nthZ. destruct (Z.ltb_spec j 0).
  - destruct (Z.eqb_spec i j); [lia|done].
  - destruct (Z.eqb_spec i j) as [->|].
    + apply list_lookup_insert_eq. lia.
    + apply list_lookup_insert_ne. lia.
Qed.

Lemma existsb_pointwise {A} (f g : A -> bool) l : (forall x, f x = g x) -> existsb f l = existsb g l.
Proof. intros H. induction l as [|x l IH]; simpl; [done|]. by rewrite H, IH. Qed.

Lemma existsb_eqb q l : existsb (Z.eqb q) l = bool_decide (q ∈ l).
Proof.
  destruct (bool_decide_reflect (q ∈ l)) as [H|H].
  - apply existsb_exists. exists q. split; [by apply list_elem_of_In|apply Z.eqb_refl].
  - apply not_true_iff_false. intros (x & Hx & E%Z.eqb_eq)%existsb_exists. subst x.
    apply H. by apply list_elem_of_In.
Qed.

(** ** Rotates bit by bit *)

Lemma rotate_left_bit w v n i : 0 < w -> in_width w v -> 0 <= i < w ->
  Z.testbit (rotate_left w v n) i = Z.testbit v ((i - n) mod w).
Proof.
  intros Hw Hv Hi. unfold rotate_left. pose proof (Z.mod_pos_bound n w Hw) as Hm.
  rewrite wrap_testbit, Z.lor_spec, Z.shiftl_spec, Z.shiftr_spec by lia.
  destruct (Z.ltb_spec i w); [|lia]. cbn [andb].
  assert (E : (i - n) mod w = (i - n mod w) mod w) by (by rewrite Zminus_mod_idemp_r).
  rewrite E. set (k := n mod w) in *. destruct (Z.ltb_spec i k).
  - rewrite Z.testbit_neg_r by lia.
    replace ((i - k) mod w) with (i + (w - k)) by (apply (Z.mod_unique _ _ (-1)); lia). done.
  - rewrite (Z.mod_small (i - k)) by lia. rewrite (in_width_high w v (i + (w - k))) by (done || lia).
    by rewrite orb_false_r.
Qed.

Lemma rotate_right_bit w v n i : 0 < w -> in_width w v -> 0 <= i < w ->
  Z.testbit (rotate_right w v n) i = Z.testbit v ((i + n) mod w).
Proof.
  intros Hw Hv Hi. unfold rotate_right. pose proof (Z.mod_pos_bound n w Hw) as Hm.
  rewrite wrap_testbit, Z.lor_spec, Z.shiftl_spec, Z.shiftr_spec by lia.
  destruct (Z.ltb_spec i w); [|lia]. cbn [andb].
  assert (E : (i + n) mod w = (i + n mod w) mod w) by (by rewrite Zplus_mod_idemp_r).
  rewrite E. set (k := n mod w) in *. destruct (Z.ltb_spec (i + k) w).
  - rewrite (Z.testbit_neg_r _ (i - (w - k))) by lia. rewrite Z.mod_small by lia. by rewrite orb_false_r.
  - rewrite (in_width_high w v (i + k)) by (done || lia). simpl.
    replace ((i + k) mod w) with (i - (w - k)) by (apply (Z.mod_unique _ _ 1); lia). done.
Qed.
