(* ===== verification/Features.v ===== *)
(** * Guest CPU feature set (x86jit-core/src/features.rs)

    [GuestCpuFeatures] is a [u64] bitset over [Feature]; the CPUID leaves and XCR0
    are projections of it.  The theorems show that the bitset operations are the
    set operations, that the presets form a chain, and that each projected
    register carries exactly the documented bits. *)

From S2P Require Import Prelude.

Inductive Feature : Type :=
  | Sse | Sse2 | Mmx
  | Sse3 | Ssse3 | Sse41 | Sse42 | Popcnt | Cx16
  | Movbe | Avx | Avx2 | Bmi1 | Bmi2 | Fma | F16c | Lzcnt
  | Xsave | Osxsave
  | Avx512f | Avx512bw | Avx512dq | Avx512vl | Avx512cd
  | Aes | Pclmul | Sha | Gfni.

#[global] Instance Feature_eq_dec : EqDecision Feature.
Proof. solve_decision. Defined.

(** The [#[repr(u8)]] discriminant. *)
Definition discriminant (f : Feature) : Z :=
  match f with
  | Sse => 0 | Sse2 => 1 | Mmx => 2
  | Sse3 => 3 | Ssse3 => 4 | Sse41 => 5 | Sse42 => 6 | Popcnt => 7 | Cx16 => 8
  | Movbe => 9 | Avx => 10 | Avx2 => 11 | Bmi1 => 12 | Bmi2 => 13 | Fma => 14
  | F16c => 15 | Lzcnt => 16
  | Xsave => 17 | Osxsave => 18
  | Avx512f => 19 | Avx512bw => 20 | Avx512dq => 21 | Avx512vl => 22 | Avx512cd => 23
  | Aes => 24 | Pclmul => 25 | Sha => 26 | Gfni => 27
  end.

Definition feature_bit (f : Feature) : Z := wrap 64 (Z.shiftl 1 (discriminant f)).

Definition GuestCpuFeatures : Type := Z.

Definition empty_features : GuestCpuFeatures := 0.

(** The [while i < fs.len()] loop of the source. *)
Fixpoint with_all (s : GuestCpuFeatures) (fs : list Feature) : GuestCpuFeatures :=
  match fs with
  | [] => s
  | f :: fs' => with_all (Z.lor s (feature_bit f)) fs'
  end.

Definition from_slice (fs : list Feature) : GuestCpuFeatures := with_all empty_features fs.

Definition with_feature (s : GuestCpuFeatures) (f : Feature) : GuestCpuFeatures :=
  Z.lor s (feature_bit f).
Definition without_feature (s : GuestCpuFeatures) (f : Feature) : GuestCpuFeatures :=
  Z.land s (unot 64 (feature_bit f)).
Definition has (s : GuestCpuFeatures) (f : Feature) : bool := test s (feature_bit f).

Definition baseline : GuestCpuFeatures := from_slice [Mmx; Sse; Sse2].
Definition v2 : GuestCpuFeatures :=
  with_all baseline [Sse3; Ssse3; Sse41; Sse42; Popcnt; Cx16; Movbe; Aes; Pclmul].
Definition v3 : GuestCpuFeatures :=
  with_all v2 [Avx; Avx2; Bmi1; Bmi2; Fma; F16c; Lzcnt; Xsave; Osxsave].
Definition v4 : GuestCpuFeatures :=
  with_all v3 [Avx512f; Avx512bw; Avx512dq; Avx512vl; Avx512cd; Sha; Gfni].
Definition stable : GuestCpuFeatures :=
  from_slice [Sse; Sse2; Mmx; Sse3; Ssse3; Popcnt; Xsave; Osxsave; Avx; Avx2].

Definition if_has (s : GuestCpuFeatures) (f : Feature) (bit : Z) : Z :=
  if has s f then Z.shiftl 1 bit else 0.

(** A left-nested [|] chain. *)
Definition lors (xs : list Z) : Z :=
  match xs with [] => 0 | x :: xs' => fold_left Z.lor xs' x end.

Definition leaf1_ecx (s : GuestCpuFeatures) : Z :=
  lors [if_has s Sse3 0; if_has s Pclmul 1; if_has s Ssse3 9; if_has s Fma 12;
        if_has s Cx16 13; if_has s Sse41 19; if_has s Sse42 20; if_has s Movbe 22;
        if_has s Popcnt 23; if_has s Aes 25; if_has s Xsave 26; if_has s Osxsave 27;
        if_has s Avx 28; if_has s F16c 29].

(** FPU, TSC, CX8, CMOV and FXSR are always on. *)
Definition leaf1_edx_baseline : Z :=
  lors [Z.shiftl 1 0; Z.shiftl 1 4; Z.shiftl 1 8; Z.shiftl 1 15; Z.shiftl 1 24].
Definition leaf1_edx (s : GuestCpuFeatures) : Z :=
  lors [leaf1_edx_baseline; if_has s Mmx 23; if_has s Sse 25; if_has s Sse2 26].

Definition leaf7_ebx (s : GuestCpuFeatures) : Z :=
  lors [if_has s Bmi1 3; if_has s Avx2 5; if_has s Bmi2 8; if_has s Avx512f 16;
        if_has s Avx512dq 17; if_has s Sha 29; if_has s Avx512cd 28;
        if_has s Avx512bw 30; if_has s Avx512vl 31].

Definition leaf7_ecx (s : GuestCpuFeatures) : Z := if_has s Gfni 8.

Definition ext_leaf1_ecx (s : GuestCpuFeatures) : Z :=
  Z.lor (Z.shiftl 1 0) (if_has s Lzcnt 5).

Definition xcr0 (s : GuestCpuFeatures) : Z :=
  let x := 3 in
  let x := if has s Avx then Z.lor x 4 else x in
  if has s Avx512f then Z.lor x 224 else x.

(** ** Specification: the documented CPUID bit positions *)

Inductive leaf_reg := Leaf1Ecx | Leaf1Edx | Leaf7Ebx | Leaf7Ecx | ExtLeaf1Ecx.

#[global] Instance leaf_reg_eq_dec : EqDecision leaf_reg.
Proof. solve_decision. Defined.

(** What a CPUID bit position reports: a feature, a constant one, or nothing. *)
Inductive bit_meaning := Reports (f : Feature) | AlwaysOn | Reserved.

(** SDM Vol 2A, CPUID, Tables 3-8, 3-10, 3-11; AMD64 APM Vol 3 for [8000_0001]. *)
Definition cpuid_table (r : leaf_reg) (i : Z) : bit_meaning :=
  match r, i with
  | Leaf1Ecx, 0 => Reports Sse3 | Leaf1Ecx, 1 => Reports Pclmul
  | Leaf1Ecx, 9 => Reports Ssse3 | Leaf1Ecx, 12 => Reports Fma
  | Leaf1Ecx, 13 => Reports Cx16 | Leaf1Ecx, 19 => Reports Sse41
  | Leaf1Ecx, 20 => Reports Sse42 | Leaf1Ecx, 22 => Reports Movbe
  | Leaf1Ecx, 23 => Reports Popcnt | Leaf1Ecx, 25 => Reports Aes
  | Leaf1Ecx, 26 => Reports Xsave | Leaf1Ecx, 27 => Reports Osxsave
  | Leaf1Ecx, 28 => Reports Avx | Leaf1Ecx, 29 => Reports F16c
  | Leaf1Edx, 0 => AlwaysOn | Leaf1Edx, 4 => AlwaysOn | Leaf1Edx, 8 => AlwaysOn
  | Leaf1Edx, 15 => AlwaysOn | Leaf1Edx, 24 => AlwaysOn
  | Leaf1Edx, 23 => Reports Mmx | Leaf1Edx, 25 => Reports Sse | Leaf1Edx, 26 => Reports Sse2
  | Leaf7Ebx, 3 => Reports Bmi1 | Leaf7Ebx, 5 => Reports Avx2 | Leaf7Ebx, 8 => Reports Bmi2
  | Leaf7Ebx, 16 => Reports Avx512f | Leaf7Ebx, 17 => Reports Avx512dq
  | Leaf7Ebx, 28 => Reports Avx512cd | Leaf7Ebx, 29 => Reports Sha
  | Leaf7Ebx, 30 => Reports Avx512bw | Leaf7Ebx, 31 => Reports Avx512vl
  | Leaf7Ecx, 8 => Reports Gfni
  | ExtLeaf1Ecx, 0 => AlwaysOn | ExtLeaf1Ecx, 5 => Reports Lzcnt
  | _, _ => Reserved
  end.

Definition leaf_value (r : leaf_reg) (s : GuestCpuFeatures) : Z :=
  match r with
  | Leaf1Ecx => leaf1_ecx s | Leaf1Edx => leaf1_edx s
  | Leaf7Ebx => leaf7_ebx s | Leaf7Ecx => leaf7_ecx s
  | ExtLeaf1Ecx => ext_leaf1_ecx s
  end.

(** Architectural prerequisites: [requires f g] when a CPU with [f] must have [g]. *)
Definition requires (f g : Feature) : bool :=
  match f, g with
  | Sse2, Sse | Sse3, Sse2 | Ssse3, Sse3 | Sse41, Ssse3 | Sse42, Sse41 => true
  | Osxsave, Xsave | Avx, Osxsave | Avx2, Avx | Fma, Avx | F16c, Avx => true
  | Avx512f, Avx2 | Avx512bw, Avx512f | Avx512dq, Avx512f => true
  | Avx512vl, Avx512f | Avx512cd, Avx512f => true
  | Aes, Sse2 | Pclmul, Sse2 | Sha, Sse2 | Gfni, Sse2 => true
  | _, _ => false
  end.

Definition all_features : list Feature :=
  [Sse; Sse2; Mmx; Sse3; Ssse3; Sse41; Sse42; Popcnt; Cx16; Movbe; Avx; Avx2; Bmi1; Bmi2;
   Fma; F16c; Lzcnt; Xsave; Osxsave; Avx512f; Avx512bw; Avx512dq; Avx512vl; Avx512cd;
   Aes; Pclmul; Sha; Gfni].

Definition preset_closed (p : GuestCpuFeatures) : bool :=
  forallb (fun f => forallb (fun g =>
    implb (requires f g) (implb (has p f) (has p g))) all_features) all_features.

(** ** Lemmas *)

Lemma all_features_all f : In f all_features.
Proof. destruct f; simpl; tauto. Qed.

Lemma discriminant_inj f g : discriminant f = discriminant g -> f = g.
Proof. destruct f, g; simpl; congruence. Qed.

Lemma discriminant_range f : 0 <= discriminant f < 28.
Proof. destruct f; simpl; lia. Qed.

Lemma feature_bit_pow2 f : feature_bit f = 2 ^ discriminant f.
Proof. destruct f; reflexivity. Qed.

Lemma has_testbit s f : has s f = Z.testbit s (discriminant f).
Proof.
  unfold has. rewrite feature_bit_pow2. apply test_pow2.
  pose proof (discriminant_range f). lia.
Qed.

Lemma feature_bit_testbit f i : 0 <= i ->
  Z.testbit (feature_bit f) i = (discriminant f =? i).
Proof.
  intros Hi. rewrite feature_bit_pow2. pose proof (discriminant_range f).
  destruct (Z.eqb_spec (discriminant f) i) as [<-|].
  - by apply Z.pow2_bits_true.
  - by apply Z.pow2_bits_false.
Qed.

Lemma discriminant_eqb f g : (discriminant f =? discriminant g) = bool_decide (f = g).
Proof.
  case_bool_decide as E; [subst; apply Z.eqb_refl|].
  destruct (Z.eqb_spec (discriminant f) (discriminant g)) as [H|]; [|done].
  by apply discriminant_inj in H.
Qed.

Lemma has_spec_lors s f n i : 0 <= n -> 0 <= i ->
  Z.testbit (if_has s f n) i = has s f && (n =? i).
Proof.
  intros Hn Hi. unfold if_has. destruct (has s f); simpl; [|apply Z.testbit_0_l].
  rewrite Z.shiftl_1_l. destruct (Z.eqb_spec n i) as [->|].
  - by apply Z.pow2_bits_true.
  - by apply Z.pow2_bits_false.
Qed.

Lemma lors_testbit xs i : Z.testbit (lors xs) i = existsb (fun x => Z.testbit x i) xs.
Proof.
  destruct xs as [|x xs]; [apply Z.testbit_0_l|]. simpl.
  revert x. induction xs as [|y xs IH]; intros x; simpl; [by rewrite orb_false_r|].
  by rewrite IH, Z.lor_spec, orb_assoc.
Qed.

Lemma if_has_high s f n i : 0 <= n < 32 -> 32 <= i -> Z.testbit (if_has s f n) i = false.
Proof.
  intros. rewrite has_spec_lors by lia. destruct (Z.eqb_spec n i); [lia|]. apply andb_false_r.
Qed.

Lemma leaf_value_high r s i : 32 <= i -> Z.testbit (leaf_value r s) i = false.
Proof.
  intros Hi. destruct r; simpl;
    unfold leaf1_ecx, leaf1_edx, leaf7_ebx, leaf7_ecx, ext_leaf1_ecx;
    rewrite ?lors_testbit, ?Z.lor_spec; simpl; rewrite ?if_has_high by lia; try done.
  - rewrite !orb_false_r. apply Z.bits_above_log2; [done|].
    by apply Z.lt_le_trans with (m := 32).
  - rewrite orb_false_r. apply Z.bits_above_log2; [done|].
    by apply Z.lt_le_trans with (m := 32).
Qed.

(** Every position below 32, as a decidable list. *)
Lemma below32 i (P : Z -> Prop) : Forall P (zseq 0 32) -> 0 <= i < 32 -> P i.
Proof. intros HP Hi. rewrite Forall_forall in HP. apply HP, list_elem_of_In, zseq_elem. simpl. lia. Qed.

(** ** Theorems *)

(** [with]/[without]/[has] are insertion, removal and membership of a set of
    features: adding or removing one feature changes the answer for that feature
    only, whatever else the bitset holds. *)
Theorem features_are_a_set (s : GuestCpuFeatures) (f g : Feature) :
  has (with_feature s f) g = bool_decide (f = g) || has s g /\
  has (without_feature s f) g = negb (bool_decide (f = g)) && has s g /\
  has empty_features g = false.
Proof.
  pose proof (discriminant_range g). pose proof (discriminant_range f).
  rewrite !has_testbit. unfold with_feature, without_feature, unot. split_and!.
  - rewrite Z.lor_spec, feature_bit_testbit, discriminant_eqb by lia. apply orb_comm.
  - rewrite Z.land_spec, wrap_testbit, Z.lnot_spec, feature_bit_testbit, discriminant_eqb by lia.
    destruct (Z.ltb_spec (discriminant g) 64); [|lia]. apply andb_comm.
  - apply Z.testbit_0_l.
Qed.

(** The presets form a chain baseline <= v2 <= v3 <= v4 with the default preset
    inside v3, and every preset is closed under the architectural prerequisites:
    no preset advertises a feature without the features whose instructions or
    saved state it builds on. *)
Theorem presets_well_formed (f g : Feature) :
  (has baseline f = true -> has v2 f = true) /\
  (has v2 f = true -> has v3 f = true) /\
  (has v3 f = true -> has v4 f = true) /\
  (has stable f = true -> has v3 f = true) /\
  Forall (fun p => requires f g = true -> has p f = true -> has p g = true)
    [baseline; v2; v3; v4; stable].
Proof.
  assert (H : forall p q, forallb (fun f => implb (has p f) (has q f)) all_features = true ->
    has p f = true -> has q f = true).
  { intros p q Hc Hp. rewrite forallb_forall in Hc. specialize (Hc f (all_features_all f)).
    by rewrite Hp in Hc. }
  split_and!; try (apply H; vm_compute; reflexivity).
  assert (G : forall p, preset_closed p = true ->
    requires f g = true -> has p f = true -> has p g = true).
  { intros p Hc Hr Hp. unfold preset_closed in Hc. rewrite forallb_forall in Hc.
    specialize (Hc f (all_features_all f)). rewrite forallb_forall in Hc.
    specialize (Hc g (all_features_all g)). by rewrite Hr, Hp in Hc. }
  repeat constructor; apply G; vm_compute; reflexivity.
Qed.

(** Each CPUID register the projections build carries, at every bit position,
    exactly what the architecture documents for that position: the presence of the
    one feature assigned to it, a constant 1 for the always-on scalar baseline, and
    0 for every other bit, for every feature set. *)
Theorem cpuid_projection_exact (r : leaf_reg) (s : GuestCpuFeatures) (i : Z) : 0 <= i ->
  Z.testbit (leaf_value r s) i =
  match cpuid_table r i with
  | Reports f => has s f
  | AlwaysOn => true
  | Reserved => false
  end.
Proof.
  intros Hi. destruct (Z.ltb_spec i 32).
  - revert i Hi H. intros i Hi H.
    apply (below32 i (fun i => Z.testbit (leaf_value r s) i =
      match cpuid_table r i with Reports f => has s f | AlwaysOn => true | Reserved => false end));
      [|lia].
    destruct r; simpl;
      unfold leaf1_ecx, leaf1_edx, leaf7_ebx, leaf7_ecx, ext_leaf1_ecx;
      repeat constructor; rewrite ?lors_testbit, ?Z.lor_spec; cbn [existsb];
      rewrite ?has_spec_lors by lia; simpl; rewrite ?andb_false_r, ?andb_true_r; simpl;
      rewrite ?orb_false_r; reflexivity.
  - rewrite leaf_value_high by lia.
    destruct r; destruct i as [|p|p]; try lia; repeat (destruct p as [p|p|]; try lia; try done).
Qed.

Lemma cpuid_projection_exact_witness :
  Z.testbit (leaf_value Leaf1Ecx v2) 25 = true /\ Z.testbit (leaf_value Leaf1Ecx v3) 28 = true.
Proof.
  split; [rewrite (cpuid_projection_exact Leaf1Ecx v2 25)|rewrite (cpuid_projection_exact Leaf1Ecx v3 28)];
    first [lia | reflexivity].
Defined.
