(* ===== verification/State.v ===== *)
(** * Guest CPU state (x86jit-core/src/state.rs)

    Registers, flags and the pending-completion fields of [CpuState], with every
    operation of state.rs that changes them.  PF and AF are stored as sources, so
    the architectural equality of two [Flags] is the coarser [flags_eqb]; the
    observers are proved to respect it.

    Fixed-size Rust arrays are lists whose length is part of [cpu_wf]; a [panic!]
    or [unreachable!] of the source is [None]. *)

From S2P Require Import Prelude Features.

(** ** Named registers *)

Inductive Reg : Type :=
  | Rax | Rbx | Rcx | Rdx | Rsi | Rdi | Rbp | Rsp
  | R8 | R9 | R10 | R11 | R12 | R13 | R14 | R15
  | Rip | FsBase | GsBase
  | Cs | Ds | Es | Ss.

#[global] Instance Reg_eq_dec : EqDecision Reg.
Proof. solve_decision. Defined.

Definition GPR_BY_INDEX : list Reg :=
  [Rax; Rcx; Rdx; Rbx; Rsp; Rbp; Rsi; Rdi; R8; R9; R10; R11; R12; R13; R14; R15].

(** [None] is the out-of-range panic. *)
Definition from_gpr_index (index : nat) : option Reg := GPR_BY_INDEX !! index.

Definition gpr_index (r : Reg) : option nat :=
  match r with
  | Rax => Some 0%nat | Rcx => Some 1%nat | Rdx => Some 2%nat | Rbx => Some 3%nat
  | Rsp => Some 4%nat | Rbp => Some 5%nat | Rsi => Some 6%nat | Rdi => Some 7%nat
  | R8 => Some 8%nat | R9 => Some 9%nat | R10 => Some 10%nat | R11 => Some 11%nat
  | R12 => Some 12%nat | R13 => Some 13%nat | R14 => Some 14%nat | R15 => Some 15%nat
  | Rip | FsBase | GsBase => None
  | Cs | Ds | Es | Ss => None
  end.

(** ** Flags *)

Record Flags : Type := mkFlags {
  cf : bool;
  pf_src : Z;
  af_src : Z;
  zf : bool;
  sf : bool;
  of_ : bool;
  df : bool;
  if_ : bool;
}.

Definition set_cf (f : Flags) (v : bool) : Flags :=
  mkFlags v (pf_src f) (af_src f) (zf f) (sf f) (of_ f) (df f) (if_ f).
Definition set_pf_src (f : Flags) (v : Z) : Flags :=
  mkFlags (cf f) v (af_src f) (zf f) (sf f) (of_ f) (df f) (if_ f).
Definition set_af_src (f : Flags) (v : Z) : Flags :=
  mkFlags (cf f) (pf_src f) v (zf f) (sf f) (of_ f) (df f) (if_ f).
Definition set_zf (f : Flags) (v : bool) : Flags :=
  mkFlags (cf f) (pf_src f) (af_src f) v (sf f) (of_ f) (df f) (if_ f).
Definition set_sf (f : Flags) (v : bool) : Flags :=
  mkFlags (cf f) (pf_src f) (af_src f) (zf f) v (of_ f) (df f) (if_ f).
Definition set_of_ (f : Flags) (v : bool) : Flags :=
  mkFlags (cf f) (pf_src f) (af_src f) (zf f) (sf f) v (df f) (if_ f).
Definition set_df (f : Flags) (v : bool) : Flags :=
  mkFlags (cf f) (pf_src f) (af_src f) (zf f) (sf f) (of_ f) v (if_ f).
Definition set_if_ (f : Flags) (v : bool) : Flags :=
  mkFlags (cf f) (pf_src f) (af_src f) (zf f) (sf f) (of_ f) (df f) v.

Definition PF_SRC_ZERO : Z := 1.
Definition PF_SRC_ONE : Z := 0.
Definition AF_SRC_ONE : Z := 16.
Definition AF_SRC_ZERO : Z := 0.

Definition pf (f : Flags) : bool := count_ones (pf_src f) mod 2 =? 0.
Definition set_pf (f : Flags) (v : bool) : Flags :=
  set_pf_src f (if v then PF_SRC_ONE else PF_SRC_ZERO).
Definition af (f : Flags) : bool := test (af_src f) 16.
Definition set_af (f : Flags) (v : bool) : Flags :=
  set_af_src f (if v then AF_SRC_ONE else AF_SRC_ZERO).

(** [impl PartialEq for Flags] *)
Definition flags_eqb (a b : Flags) : bool :=
  eqb (cf a) (cf b) && eqb (zf a) (zf b) && eqb (sf a) (sf b) && eqb (of_ a) (of_ b) &&
  eqb (df a) (df b) && eqb (if_ a) (if_ b) && eqb (pf a) (pf b) && eqb (af a) (af b).

Definition default_flags : Flags :=
  mkFlags false PF_SRC_ZERO AF_SRC_ZERO false false false false false.

Definition to_rflags (f : Flags) : Z :=
  lors [b2z (cf f); Z.shiftl 1 1; Z.shiftl (b2z (pf f)) 2; Z.shiftl (b2z (af f)) 4;
        Z.shiftl (b2z (zf f)) 6; Z.shiftl (b2z (sf f)) 7; Z.shiftl (b2z (df f)) 10;
        Z.shiftl (b2z (of_ f)) 11].

Definition to_flags16 (f : Flags) : Z :=
  lors [b2z (cf f); Z.shiftl 1 1; Z.shiftl (b2z (pf f)) 2; Z.shiftl (b2z (af f)) 4;
        Z.shiftl (b2z (zf f)) 6; Z.shiftl (b2z (sf f)) 7; Z.shiftl (b2z (if_ f)) 9;
        Z.shiftl (b2z (df f)) 10; Z.shiftl (b2z (of_ f)) 11].

Definition set_flags16 (f : Flags) (image : Z) : Flags :=
  let f := set_cf f (test image (Z.shiftl 1 0)) in
  let f := set_pf f (test image (Z.shiftl 1 2)) in
  let f := set_af f (test image (Z.shiftl 1 4)) in
  let f := set_zf f (test image (Z.shiftl 1 6)) in
  let f := set_sf f (test image (Z.shiftl 1 7)) in
  let f := set_if_ f (test image (Z.shiftl 1 9)) in
  let f := set_df f (test image (Z.shiftl 1 10)) in
  set_of_ f (test image (Z.shiftl 1 11)).

(** ** The register file *)

Inductive X87Precision : Type := Fast | Extended.

Record CpuState : Type := mkCpu {
  gpr : list Z;  (* 16 x u64, x86 encoding order *)
  rip : Z;
  fs_base : Z;
  gs_base : Z;
  flags : Flags;
  xmm : list Z;  (* 32 x u128 *)
  ymm_hi : list Z;  (* 32 x u128 *)
  zmm_hi : list (Z * Z);  (* 32 x [u128; 2] *)
  kmask : list Z;  (* 8 x u64 *)
  fpr : list (list Z);  (* 8 x [u8; 10] *)
  fpu_top : Z;
  fpu_cw : Z;
  fpu_pad : Z;
  pending_mmio : option Z;
  pending_mmio_write : bool;
  pending_port_in : option Z;
  features : GuestCpuFeatures;
  x87_precision : X87Precision;
  cs : Z;  (* u16 *)
  ds : Z;
  es : Z;
  ss : Z;
  fpu_empty : Z;  (* u8 *)
  fpu_sw : Z;
  fpu_env_tail : list Z;  (* 16 x u8 *)
  mmio_parts : list (Z * Z);  (* 8 x (u64, u64) *)
  mmio_parts_len : Z;
  mmio_parts_rip : Z;
}.


Definition set_gpr (c : CpuState) (v : list Z) : CpuState :=
  mkCpu v (rip c) (fs_base c) (gs_base c) (flags c) (xmm c) (ymm_hi c) (zmm_hi c) (kmask c)
    (fpr c) (fpu_top c) (fpu_cw c) (fpu_pad c) (pending_mmio c) (pending_mmio_write c)
    (pending_port_in c) (features c) (x87_precision c) (cs c) (ds c) (es c) (ss c)
    (fpu_empty c) (fpu_sw c) (fpu_env_tail c) (mmio_parts c) (mmio_parts_len c)
    (mmio_parts_rip c).
Definition set_rip (c : CpuState) (v : Z) : CpuState :=
  mkCpu (gpr c) v (fs_base c) (gs_base c) (flags c) (xmm c) (ymm_hi c) (zmm_hi c) (kmask c)
    (fpr c) (fpu_top c) (fpu_cw c) (fpu_pad c) (pending_mmio c) (pending_mmio_write c)
    (pending_port_in c) (features c) (x87_precision c) (cs c) (ds c) (es c) (ss c)
    (fpu_empty c) (fpu_sw c) (fpu_env_tail c) (mmio_parts c) (mmio_parts_len c)
    (mmio_parts_rip c).
Definition set_fs_base (c : CpuState) (v : Z) : CpuState :=
  mkCpu (gpr c) (rip c) v (gs_base c) (flags c) (xmm c) (ymm_hi c) (zmm_hi c) (kmask c) (fpr
    c) (fpu_top c) (fpu_cw c) (fpu_pad c) (pending_mmio c) (pending_mmio_write c)
    (pending_port_in c) (features c) (x87_precision c) (cs c) (ds c) (es c) (ss c)
    (fpu_empty c) (fpu_sw c) (fpu_env_tail c) (mmio_parts c) (mmio_parts_len c)
    (mmio_parts_rip c).
Definition set_gs_base (c : CpuState) (v : Z) : CpuState :=
  mkCpu (gpr c) (rip c) (fs_base c) v (flags c) (xmm c) (ymm_hi c) (zmm_hi c) (kmask c) (fpr
    c) (fpu_top c) (fpu_cw c) (fpu_pad c) (pending_mmio c) (pending_mmio_write c)
    (pending_port_in c) (features c) (x87_precision c) (cs c) (ds c) (es c) (ss c)
    (fpu_empty c) (fpu_sw c) (fpu_env_tail c) (mmio_parts c) (mmio_parts_len c)
    (mmio_parts_rip c).
Definition set_flags (c : CpuState) (v : Flags) : CpuState :=
  mkCpu (gpr c) (rip c) (fs_base c) (gs_base c) v (xmm c) (ymm_hi c) (zmm_hi c) (kmask c)
    (fpr c) (fpu_top c) (fpu_cw c) (fpu_pad c) (pending_mmio c) (pending_mmio_write c)
    (pending_port_in c) (features c) (x87_precision c) (cs c) (ds c) (es c) (ss c)
    (fpu_empty c) (fpu_sw c) (fpu_env_tail c) (mmio_parts c) (mmio_parts_len c)
    (mmio_parts_rip c).
Definition set_xmm (c : CpuState) (v : list Z) : CpuState :=
  mkCpu (gpr c) (rip c) (fs_base c) (gs_base c) (flags c) v (ymm_hi c) (zmm_hi c) (kmask c)
    (fpr c) (fpu_top c) (fpu_cw c) (fpu_pad c) (pending_mmio c) (pending_mmio_write c)
    (pending_port_in c) (features c) (x87_precision c) (cs c) (ds c) (es c) (ss c)
    (fpu_empty c) (fpu_sw c) (fpu_env_tail c) (mmio_parts c) (mmio_parts_len c)
    (mmio_parts_rip c).
Definition set_ymm_hi (c : CpuState) (v : list Z) : CpuState :=
  mkCpu (gpr c) (rip c) (fs_base c) (gs_base c) (flags c) (xmm c) v (zmm_hi c) (kmask c)
    (fpr c) (fpu_top c) (fpu_cw c) (fpu_pad c) (pending_mmio c) (pending_mmio_write c)
    (pending_port_in c) (features c) (x87_precision c) (cs c) (ds c) (es c) (ss c)
    (fpu_empty c) (fpu_sw c) (fpu_env_tail c) (mmio_parts c) (mmio_parts_len c)
    (mmio_parts_rip c).
Definition set_zmm_hi (c : CpuState) (v : list (Z * Z)) : CpuState :=
  mkCpu (gpr c) (rip c) (fs_base c) (gs_base c) (flags c) (xmm c) (ymm_hi c) v (kmask c)
    (fpr c) (fpu_top c) (fpu_cw c) (fpu_pad c) (pending_mmio c) (pending_mmio_write c)
    (pending_port_in c) (features c) (x87_precision c) (cs c) (ds c) (es c) (ss c)
    (fpu_empty c) (fpu_sw c) (fpu_env_tail c) (mmio_parts c) (mmio_parts_len c)
    (mmio_parts_rip c).
Definition set_kmask (c : CpuState) (v : list Z) : CpuState :=
  mkCpu (gpr c) (rip c) (fs_base c) (gs_base c) (flags c) (xmm c) (ymm_hi c) (zmm_hi c) v
    (fpr c) (fpu_top c) (fpu_cw c) (fpu_pad c) (pending_mmio c) (pending_mmio_write c)
    (pending_port_in c) (features c) (x87_precision c) (cs c) (ds c) (es c) (ss c)
    (fpu_empty c) (fpu_sw c) (fpu_env_tail c) (mmio_parts c) (mmio_parts_len c)
    (mmio_parts_rip c).
Definition set_fpr (c : CpuState) (v : list (list Z)) : CpuState :=
  mkCpu (gpr c) (rip c) (fs_base c) (gs_base c) (flags c) (xmm c) (ymm_hi c) (zmm_hi c)
    (kmask c) v (fpu_top c) (fpu_cw c) (fpu_pad c) (pending_mmio c) (pending_mmio_write c)
    (pending_port_in c) (features c) (x87_precision c) (cs c) (ds c) (es c) (ss c)
    (fpu_empty c) (fpu_sw c) (fpu_env_tail c) (mmio_parts c) (mmio_parts_len c)
    (mmio_parts_rip c).
Definition set_fpu_top (c : CpuState) (v : Z) : CpuState :=
  mkCpu (gpr c) (rip c) (fs_base c) (gs_base c) (flags c) (xmm c) (ymm_hi c) (zmm_hi c)
    (kmask c) (fpr c) v (fpu_cw c) (fpu_pad c) (pending_mmio c) (pending_mmio_write c)
    (pending_port_in c) (features c) (x87_precision c) (cs c) (ds c) (es c) (ss c)
    (fpu_empty c) (fpu_sw c) (fpu_env_tail c) (mmio_parts c) (mmio_parts_len c)
    (mmio_parts_rip c).
Definition set_fpu_cw (c : CpuState) (v : Z) : CpuState :=
  mkCpu (gpr c) (rip c) (fs_base c) (gs_base c) (flags c) (xmm c) (ymm_hi c) (zmm_hi c)
    (kmask c) (fpr c) (fpu_top c) v (fpu_pad c) (pending_mmio c) (pending_mmio_write c)
    (pending_port_in c) (features c) (x87_precision c) (cs c) (ds c) (es c) (ss c)
    (fpu_empty c) (fpu_sw c) (fpu_env_tail c) (mmio_parts c) (mmio_parts_len c)
    (mmio_parts_rip c).
Definition set_pending_mmio (c : CpuState) (v : option Z) : CpuState :=
  mkCpu (gpr c) (rip c) (fs_base c) (gs_base c) (flags c) (xmm c) (ymm_hi c) (zmm_hi c)
    (kmask c) (fpr c) (fpu_top c) (fpu_cw c) (fpu_pad c) v (pending_mmio_write c)
    (pending_port_in c) (features c) (x87_precision c) (cs c) (ds c) (es c) (ss c)
    (fpu_empty c) (fpu_sw c) (fpu_env_tail c) (mmio_parts c) (mmio_parts_len c)
    (mmio_parts_rip c).
Definition set_pending_mmio_write (c : CpuState) (v : bool) : CpuState :=
  mkCpu (gpr c) (rip c) (fs_base c) (gs_base c) (flags c) (xmm c) (ymm_hi c) (zmm_hi c)
    (kmask c) (fpr c) (fpu_top c) (fpu_cw c) (fpu_pad c) (pending_mmio c) v (pending_port_in
    c) (features c) (x87_precision c) (cs c) (ds c) (es c) (ss c) (fpu_empty c) (fpu_sw c)
    (fpu_env_tail c) (mmio_parts c) (mmio_parts_len c) (mmio_parts_rip c).
Definition set_pending_port_in (c : CpuState) (v : option Z) : CpuState :=
  mkCpu (gpr c) (rip c) (fs_base c) (gs_base c) (flags c) (xmm c) (ymm_hi c) (zmm_hi c)
    (kmask c) (fpr c) (fpu_top c) (fpu_cw c) (fpu_pad c) (pending_mmio c)
    (pending_mmio_write c) v (features c) (x87_precision c) (cs c) (ds c) (es c) (ss c)
    (fpu_empty c) (fpu_sw c) (fpu_env_tail c) (mmio_parts c) (mmio_parts_len c)
    (mmio_parts_rip c).
Definition set_cs (c : CpuState) (v : Z) : CpuState :=
  mkCpu (gpr c) (rip c) (fs_base c) (gs_base c) (flags c) (xmm c) (ymm_hi c) (zmm_hi c)
    (kmask c) (fpr c) (fpu_top c) (fpu_cw c) (fpu_pad c) (pending_mmio c)
    (pending_mmio_write c) (pending_port_in c) (features c) (x87_precision c) v (ds c) (es
    c) (ss c) (fpu_empty c) (fpu_sw c) (fpu_env_tail c) (mmio_parts c) (mmio_parts_len c)
    (mmio_parts_rip c).
Definition set_ds (c : CpuState) (v : Z) : CpuState :=
  mkCpu (gpr c) (rip c) (fs_base c) (gs_base c) (flags c) (xmm c) (ymm_hi c) (zmm_hi c)
    (kmask c) (fpr c) (fpu_top c) (fpu_cw c) (fpu_pad c) (pending_mmio c)
    (pending_mmio_write c) (pending_port_in c) (features c) (x87_precision c) (cs c) v (es
    c) (ss c) (fpu_empty c) (fpu_sw c) (fpu_env_tail c) (mmio_parts c) (mmio_parts_len c)
    (mmio_parts_rip c).
Definition set_es (c : CpuState) (v : Z) : CpuState :=
  mkCpu (gpr c) (rip c) (fs_base c) (gs_base c) (flags c) (xmm c) (ymm_hi c) (zmm_hi c)
    (kmask c) (fpr c) (fpu_top c) (fpu_cw c) (fpu_pad c) (pending_mmio c)
    (pending_mmio_write c) (pending_port_in c) (features c) (x87_precision c) (cs c) (ds c)
    v (ss c) (fpu_empty c) (fpu_sw c) (fpu_env_tail c) (mmio_parts c) (mmio_parts_len c)
    (mmio_parts_rip c).
Definition set_ss (c : CpuState) (v : Z) : CpuState :=
  mkCpu (gpr c) (rip c) (fs_base c) (gs_base c) (flags c) (xmm c) (ymm_hi c) (zmm_hi c)
    (kmask c) (fpr c) (fpu_top c) (fpu_cw c) (fpu_pad c) (pending_mmio c)
    (pending_mmio_write c) (pending_port_in c) (features c) (x87_precision c) (cs c) (ds c)
    (es c) v (fpu_empty c) (fpu_sw c) (fpu_env_tail c) (mmio_parts c) (mmio_parts_len c)
    (mmio_parts_rip c).
Definition set_fpu_empty (c : CpuState) (v : Z) : CpuState :=
  mkCpu (gpr c) (rip c) (fs_base c) (gs_base c) (flags c) (xmm c) (ymm_hi c) (zmm_hi c)
    (kmask c) (fpr c) (fpu_top c) (fpu_cw c) (fpu_pad c) (pending_mmio c)
    (pending_mmio_write c) (pending_port_in c) (features c) (x87_precision c) (cs c) (ds c)
    (es c) (ss c) v (fpu_sw c) (fpu_env_tail c) (mmio_parts c) (mmio_parts_len c)
    (mmio_parts_rip c).
Definition set_fpu_sw (c : CpuState) (v : Z) : CpuState :=
  mkCpu (gpr c) (rip c) (fs_base c) (gs_base c) (flags c) (xmm c) (ymm_hi c) (zmm_hi c)
    (kmask c) (fpr c) (fpu_top c) (fpu_cw c) (fpu_pad c) (pending_mmio c)
    (pending_mmio_write c) (pending_port_in c) (features c) (x87_precision c) (cs c) (ds c)
    (es c) (ss c) (fpu_empty c) v (fpu_env_tail c) (mmio_parts c) (mmio_parts_len c)
    (mmio_parts_rip c).
Definition set_fpu_env_tail (c : CpuState) (v : list Z) : CpuState :=
  mkCpu (gpr c) (rip c) (fs_base c) (gs_base c) (flags c) (xmm c) (ymm_hi c) (zmm_hi c)
    (kmask c) (fpr c) (fpu_top c) (fpu_cw c) (fpu_pad c) (pending_mmio c)
    (pending_mmio_write c) (pending_port_in c) (features c) (x87_precision c) (cs c) (ds c)
    (es c) (ss c) (fpu_empty c) (fpu_sw c) v (mmio_parts c) (mmio_parts_len c)
    (mmio_parts_rip c).
Definition set_mmio_parts (c : CpuState) (v : list (Z * Z)) : CpuState :=
  mkCpu (gpr c) (rip c) (fs_base c) (gs_base c) (flags c) (xmm c) (ymm_hi c) (zmm_hi c)
    (kmask c) (fpr c) (fpu_top c) (fpu_cw c) (fpu_pad c) (pending_mmio c)
    (pending_mmio_write c) (pending_port_in c) (features c) (x87_precision c) (cs c) (ds c)
    (es c) (ss c) (fpu_empty c) (fpu_sw c) (fpu_env_tail c) v (mmio_parts_len c)
    (mmio_parts_rip c).
Definition set_mmio_parts_len (c : CpuState) (v : Z) : CpuState :=
  mkCpu (gpr c) (rip c) (fs_base c) (gs_base c) (flags c) (xmm c) (ymm_hi c) (zmm_hi c)
    (kmask c) (fpr c) (fpu_top c) (fpu_cw c) (fpu_pad c) (pending_mmio c)
    (pending_mmio_write c) (pending_port_in c) (features c) (x87_precision c) (cs c) (ds c)
    (es c) (ss c) (fpu_empty c) (fpu_sw c) (fpu_env_tail c) (mmio_parts c) v (mmio_parts_rip
    c).
Definition set_mmio_parts_rip (c : CpuState) (v : Z) : CpuState :=
  mkCpu (gpr c) (rip c) (fs_base c) (gs_base c) (flags c) (xmm c) (ymm_hi c) (zmm_hi c)
    (kmask c) (fpr c) (fpu_top c) (fpu_cw c) (fpu_pad c) (pending_mmio c)
    (pending_mmio_write c) (pending_port_in c) (features c) (x87_precision c) (cs c) (ds c)
    (es c) (ss c) (fpu_empty c) (fpu_sw c) (fpu_env_tail c) (mmio_parts c) (mmio_parts_len
    c) v.

(** [Ctl::RESET.0] of f80.rs. *)
Definition CTL_RESET : Z := 895.

Definition default_cpu : CpuState :=
  mkCpu (replicate 16 0) 0 0 0 default_flags
    (replicate 32 0) (replicate 32 0) (replicate 32 (0, 0)) (replicate 8 0)
    (replicate 8 (replicate 10 0)) 0 CTL_RESET 0
    None false None stable Fast 0 0 0 0 255 0 (replicate 16 0)
    (replicate 8 (0, 0)) 0 0.

(** [cpu.gpr[i]] for an index fixed by the code; the arrays have static length. *)
Definition get_gpr (c : CpuState) (i : nat) : Z := nth i (gpr c) 0.
Definition put_gpr (c : CpuState) (i : nat) (v : Z) : CpuState :=
  set_gpr c (<[i := v]> (gpr c)).

(** *** MMIO sub-transfers *)

Definition mmio_part (c : CpuState) (at_rip addr : Z) : option Z :=
  if negb (mmio_parts_rip c =? at_rip) then None
  else
    match list_find (fun p => p.1 = addr)
            (take (Z.to_nat (mmio_parts_len c)) (mmio_parts c)) with
    | Some (_, p) => Some p.2
    | None => None
    end.

Definition record_mmio_part (c : CpuState) (at_rip addr value : Z) : CpuState :=
  let c := if negb (mmio_parts_rip c =? at_rip)
           then set_mmio_parts_len (set_mmio_parts_rip c at_rip) 0 else c in
  match mmio_part c at_rip addr with
  | Some _ => c
  | None =>
      match mmio_parts c !! Z.to_nat (mmio_parts_len c) with
      | Some _ =>
          set_mmio_parts_len
            (set_mmio_parts c (<[Z.to_nat (mmio_parts_len c) := (addr, value)]> (mmio_parts c)))
            (mmio_parts_len c + 1)
      | None => c
      end
  end.

Definition clear_mmio_parts (c : CpuState) : CpuState :=
  set_mmio_parts_rip (set_mmio_parts_len c 0) 0.

(** *** Vector registers *)

Definition vec_lanes (c : CpuState) (reg : nat) : list Z :=
  [nth reg (xmm c) 0; nth reg (ymm_hi c) 0;
   (nth reg (zmm_hi c) (0, 0)).1; (nth reg (zmm_hi c) (0, 0)).2].

Definition lane (v : list Z) (i : nat) : Z := nth i v 0.

Definition set_vec (c : CpuState) (reg : nat) (v : list Z) (bytes : Z) : CpuState :=
  let c := set_xmm c (<[reg := lane v 0]> (xmm c)) in
  let c := set_ymm_hi c (<[reg := if 32 <=? bytes then lane v 1 else 0]> (ymm_hi c)) in
  set_zmm_hi c (<[reg := if 64 <=? bytes then (lane v 2, lane v 3) else (0, 0)]> (zmm_hi c)).

Definition set_vec_low (c : CpuState) (reg : nat) (v : list Z) (bytes : Z) : CpuState :=
  let c := set_xmm c (<[reg := lane v 0]> (xmm c)) in
  let c := if 32 <=? bytes then set_ymm_hi c (<[reg := lane v 1]> (ymm_hi c)) else c in
  if 64 <=? bytes then set_zmm_hi c (<[reg := (lane v 2, lane v 3)]> (zmm_hi c)) else c.

(** The inner [for j in 0..per_chunk] loop: [e] is the running element index. *)
Fixpoint mask_chunk (n : nat) (j e kmask_ new old bits lane_mask acc : Z) : Z * Z :=
  match n with
  | O => (acc, e)
  | S n' =>
      let sh := j * bits in
      let src := if negb (Z.land (Z.shiftr kmask_ e) 1 =? 0) then new else old in
      let acc := Z.lor acc (wrap 128 (Z.shiftl (Z.land (Z.shiftr src sh) lane_mask) sh)) in
      mask_chunk n' (j + 1) (e + 1) kmask_ new old bits lane_mask acc
  end.

(** The outer loop over the four 128-bit slots, stopping at [chunks]. *)
Fixpoint mask_chunks (slots : nat) (chunk chunks e kmask_ : Z) (newval old : list Z)
    (per_chunk bits lane_mask : Z) : list Z :=
  match slots with
  | O => []
  | S slots' =>
      if chunks <=? chunk then replicate slots 0
      else
        let '(acc, e') := mask_chunk (Z.to_nat per_chunk) 0 e kmask_
          (lane newval (Z.to_nat chunk)) (lane old (Z.to_nat chunk)) bits lane_mask 0 in
        acc :: mask_chunks slots' (chunk + 1) chunks e' kmask_ newval old per_chunk bits lane_mask
  end.

Definition write_masked (c : CpuState) (reg : nat) (newval : list Z) (k : nat) (elem : Z)
    (zeroing : bool) (bytes : Z) : CpuState :=
  let kmask_ := nth k (kmask c) 0 in
  let old := if zeroing then replicate 4 0 else vec_lanes c reg in
  let bits := elem * 8 in
  let lane_mask := if 128 <=? bits then Z.ones 128 else Z.shiftl 1 bits - 1 in
  let per_chunk := 128 / bits in
  let chunks := bytes / 16 in
  set_vec c reg (mask_chunks 4 0 chunks 0 kmask_ newval old per_chunk bits lane_mask) bytes.

(** *** Sub-register writes *)

(** [None] is the [unreachable!] on a bad size. *)
Definition write_gpr (c : CpuState) (index : nat) (val size : Z) : option CpuState :=
  let cur := get_gpr c index in
  let put v := Some (put_gpr c index v) in
  if size =? 8 then put val
  else if size =? 4 then put (Z.land val 0xFFFFFFFF)
  else if size =? 2 then put (Z.lor (Z.land cur (unot 64 0xFFFF)) (Z.land val 0xFFFF))
  else if size =? 1 then put (Z.lor (Z.land cur (unot 64 0xFF)) (Z.land val 0xFF))
  else None.

(** ** Well-formedness: every field within its Rust type *)

Record cpu_wf (c : CpuState) : Prop := {
  wf_gpr_len : length (gpr c) = 16%nat;
  wf_gpr : Forall (in_width 64) (gpr c);
  wf_rip : in_width 64 (rip c);
  wf_fs : in_width 64 (fs_base c);
  wf_gs : in_width 64 (gs_base c);
  wf_pf_src : in_width 8 (pf_src (flags c));
  wf_af_src : in_width 8 (af_src (flags c));
  wf_cs : in_width 16 (cs c);
  wf_ds : in_width 16 (ds c);
  wf_es : in_width 16 (es c);
  wf_ss : in_width 16 (ss c);
  wf_pending : forall v, pending_mmio c = Some v -> in_width 64 v;
  wf_xmm : length (xmm c) = 32%nat;
  wf_ymm : length (ymm_hi c) = 32%nat;
  wf_zmm : length (zmm_hi c) = 32%nat;
  wf_parts_len : length (mmio_parts c) = 8%nat;
  wf_parts_bound : 0 <= mmio_parts_len c <= 8;
}.

(** ** Architectural equality of flags *)

Definition flags_eq (a b : Flags) : Prop := flags_eqb a b = true.

Lemma flags_eq_iff a b : flags_eq a b <->
  cf a = cf b /\ zf a = zf b /\ sf a = sf b /\ of_ a = of_ b /\ df a = df b /\
  if_ a = if_ b /\ pf a = pf b /\ af a = af b.
Proof.
  unfold flags_eq, flags_eqb. rewrite !andb_true_iff, !eqb_true_iff. tauto.
Qed.

#[global] Instance flags_eq_equiv : Equivalence flags_eq.
Proof.
  split; repeat intro; rewrite flags_eq_iff in *; naive_solver congruence.
Qed.

Ltac flags_morphism :=
  let H := fresh in intros ? ? H; rewrite flags_eq_iff in H; naive_solver.

#[global] Instance cf_proper : Proper (flags_eq ==> eq) cf.
Proof. flags_morphism. Qed.
#[global] Instance zf_proper : Proper (flags_eq ==> eq) zf.
Proof. flags_morphism. Qed.
#[global] Instance sf_proper : Proper (flags_eq ==> eq) sf.
Proof. flags_morphism. Qed.
#[global] Instance of_proper : Proper (flags_eq ==> eq) of_.
Proof. flags_morphism. Qed.
#[global] Instance df_proper : Proper (flags_eq ==> eq) df.
Proof. flags_morphism. Qed.
#[global] Instance if_proper : Proper (flags_eq ==> eq) if_.
Proof. flags_morphism. Qed.
#[global] Instance pf_proper : Proper (flags_eq ==> eq) pf.
Proof. flags_morphism. Qed.
#[global] Instance af_proper : Proper (flags_eq ==> eq) af.
Proof. flags_morphism. Qed.

#[global] Instance to_rflags_proper : Proper (flags_eq ==> eq) to_rflags.
Proof.
  intros a b (E1 & E2 & E3 & E4 & E5 & E6 & E7 & E8)%flags_eq_iff. unfold to_rflags.
  by rewrite E1, E2, E3, E4, E5, ?E6, E7, E8.
Qed.
#[global] Instance to_flags16_proper : Proper (flags_eq ==> eq) to_flags16.
Proof.
  intros a b (E1 & E2 & E3 & E4 & E5 & E6 & E7 & E8)%flags_eq_iff. unfold to_flags16.
  by rewrite E1, E2, E3, E4, E5, ?E6, E7, E8.
Qed.

Lemma pf_set_pf f v : pf (set_pf f v) = v.
Proof. by destruct v. Qed.
Lemma af_set_af f v : af (set_af f v) = v.
Proof. by destruct v. Qed.
Lemma af_set_pf f v : af (set_pf f v) = af f.
Proof. done. Qed.
Lemma pf_set_af f v : pf (set_af f v) = pf f.
Proof. done. Qed.

(** ** Bit images *)

Lemma shifted_flag_bit b n i : 0 <= n -> 0 <= i ->
  Z.testbit (Z.shiftl (b2z b) n) i = b && (i =? n).
Proof.
  intros. rewrite Z.shiftl_spec, b2z_testbit by lia. f_equal.
  destruct (Z.eqb_spec (i - n) 0), (Z.eqb_spec i n); (done || lia).
Qed.

Lemma shifted_one_bit n i : 0 <= n -> 0 <= i -> Z.testbit (Z.shiftl 1 n) i = (i =? n).
Proof. intros. by apply (shifted_flag_bit true). Qed.

Lemma to_flags16_bits f i : 0 <= i ->
  Z.testbit (to_flags16 f) i =
  existsb (fun '(b, n) => b && (i =? n))
    [(cf f, 0); (true, 1); (pf f, 2); (af f, 4); (zf f, 6); (sf f, 7); (if_ f, 9);
     (df f, 10); (of_ f, 11)].
Proof.
  intros Hi. unfold to_flags16. rewrite lors_testbit. cbn [existsb].
  rewrite b2z_testbit, shifted_one_bit, !shifted_flag_bit by lia. simpl. btauto.
Qed.

Lemma test_to_flags16 f n : 0 <= n -> test (to_flags16 f) (Z.shiftl 1 n) =
  existsb (fun '(b, m) => b && (n =? m))
    [(cf f, 0); (true, 1); (pf f, 2); (af f, 4); (zf f, 6); (sf f, 7); (if_ f, 9);
     (df f, 10); (of_ f, 11)].
Proof.
  intros Hn. rewrite Z.shiftl_1_l, test_pow2 by done. by apply to_flags16_bits.
Qed.

Lemma to_flags16_range f : in_width 16 (to_flags16 f).
Proof.
  unfold to_flags16, lors, fold_left. destruct f as [[] p a [] [] [] [] []]; simpl;
    destruct (pf _), (af _); vm_compute; split; congruence.
Qed.

Lemma set_flags16_to_flags16 f g : flags_eq (set_flags16 g (to_flags16 f)) f.
Proof.
  rewrite flags_eq_iff. unfold set_flags16. rewrite !test_to_flags16 by lia.
  cbn -[pf af set_pf set_af]. rewrite !andb_true_r, !andb_false_r, !orb_false_r. simpl.
  rewrite ?orb_false_r. destruct (pf f) eqn:?, (af f) eqn:?; simpl; split_and!; done.
Qed.

(** ** Registers *)

Lemma gpr_index_lt r i : gpr_index r = Some i -> (i < 16)%nat.
Proof. destruct r; simpl; intros; simplify_eq; lia. Qed.

Lemma get_put_gpr c i j v : length (gpr c) = 16%nat -> (i < 16)%nat ->
  get_gpr (put_gpr c i v) j = if decide (i = j) then v else get_gpr c j.
Proof.
  intros Hl Hi. unfold get_gpr, put_gpr. cbn [gpr set_gpr].
  rewrite !nth_lookup. case_decide as E.
  - subst. rewrite list_lookup_insert_eq by lia. done.
  - by rewrite list_lookup_insert_ne.
Qed.

Lemma get_gpr_range c i : cpu_wf c -> in_width 64 (get_gpr c i).
Proof.
  intros Hc. unfold get_gpr. rewrite nth_lookup. destruct (gpr c !! i) eqn:E; simpl.
  - eapply Forall_lookup_1; [apply Hc|done].
  - unfold in_width. lia.
Qed.

Lemma gprs_insert_wf c i v : cpu_wf c -> in_width 64 v -> cpu_wf (put_gpr c i v).
Proof.
  intros Hc Hv. destruct Hc. split; try done; cbn [gpr put_gpr set_gpr].
  - by rewrite length_insert.
  - by apply Forall_insert.
Qed.

(** Merging the low [n] bits of [v] into [c]. *)
Lemma merge_low_bits n c v i : 0 <= n <= 64 -> 0 <= i < 64 ->
  Z.testbit (Z.lor (Z.land c (unot 64 (Z.ones n))) (Z.land v (Z.ones n))) i =
  if i <? n then Z.testbit v i else Z.testbit c i.
Proof.
  intros Hn Hi. unfold unot. rewrite Z.lor_spec, !Z.land_spec, wrap_testbit, Z.lnot_spec by lia.
  rewrite Z.testbit_ones_nonneg by lia.
  destruct (Z.ltb_spec i n), (Z.ltb_spec i 64); try lia; simpl; btauto.
Qed.

Lemma merge_low_range n c v : 0 <= n <= 64 -> in_width 64 c ->
  in_width 64 (Z.lor (Z.land c (unot 64 (Z.ones n))) (Z.land v (Z.ones n))).
Proof.
  intros Hn Hc. apply in_width_lor; [lia| |].
  - apply in_width_land; [lia|done|]. unfold unot. eapply in_width_nonneg, wrap_range. lia.
  - rewrite wrap_ones by lia. apply (in_width_mono n); [lia|]. apply wrap_range; lia.
Qed.
#[export] Hint Resolve merge_low_range get_gpr_range to_flags16_range : width.

(** ** MMIO sub-transfers *)

(** The table holds exactly the answers [l] for the instruction at [r]. *)
Definition parts_are (c : CpuState) (r : Z) (l : list (Z * Z)) : Prop :=
  mmio_parts_rip c = r /\ mmio_parts_len c = Z.of_nat (length l) /\
  take (length l) (mmio_parts c) = l.

Lemma list_find_map (l : list (Z * Z)) a : NoDup l.*1 ->
  match list_find (fun p => p.1 = a) l with Some (_, p) => Some p.2 | None => None end =
  (list_to_map l : gmap Z Z) !! a.
Proof.
  induction l as [|[k v] l IH]; intros Hnd; [done|]. rewrite fmap_cons, list.NoDup_cons in Hnd.
  destruct Hnd as [_ Hnd]. cbn [list_find list_to_map foldr fst snd].
  destruct (decide (k = a)) as [->|].
  - by rewrite lookup_insert_eq.
  - rewrite lookup_insert_ne by done. rewrite <- IH by done.
    by destruct (list_find _ l) as [[? ?]|].
Qed.

Lemma parts_are_lookup c r l a : parts_are c r l -> NoDup l.*1 ->
  mmio_part c r a = (list_to_map l : gmap Z Z) !! a.
Proof.
  intros (Hr & Hn & Ht) Hnd. unfold mmio_part. rewrite Hr, Z.eqb_refl, Hn, Nat2Z.id, Ht.
  by apply list_find_map.
Qed.

Lemma parts_are_record c r l a v :
  parts_are c r l -> NoDup l.*1 -> a ∉ l.*1 -> length (mmio_parts c) = 8%nat -> (length l < 8)%nat ->
  parts_are (record_mmio_part c r a v) r (l ++ [(a, v)]).
Proof.
  intros Hp Hnd Ha H8 Hl. pose proof (parts_are_lookup c r l a Hp Hnd) as Hlook.
  rewrite not_elem_of_list_to_map_1 in Hlook by done.
  destruct Hp as (Hr & Hn & Ht). unfold record_mmio_part. rewrite Hr, Z.eqb_refl. simpl.
  rewrite Hlook, Hn, Nat2Z.id.
  destruct (lookup_lt_is_Some_2 (mmio_parts c) (length l)) as [x ->]; [lia|].
  split_and!; cbn.
  - done.
  - rewrite length_app. simpl. lia.
  - rewrite length_app. simpl. rewrite Nat.add_1_r.
    rewrite (take_S_r _ _ (a, v)) by (apply list_lookup_insert_eq; lia).
    by rewrite take_insert_ge, Ht by lia.
Qed.

Lemma record_length c r a v : length (mmio_parts (record_mmio_part c r a v)) = length (mmio_parts c).
Proof.
  unfold record_mmio_part. destruct (negb _); cases; cbn; by rewrite ?length_insert.
Qed.

Lemma record_all c r l0 l :
  parts_are c r l0 -> NoDup (l0 ++ l).*1 -> length (mmio_parts c) = 8%nat ->
  (length (l0 ++ l) <= 8)%nat ->
  parts_are (foldl (fun c p => record_mmio_part c r p.1 p.2) c l) r (l0 ++ l).
Proof.
  revert c l0. induction l as [|[a v] l IH]; intros c l0 Hp Hnd H8 Hl; [by rewrite app_nil_r|].
  cbn [foldl fst snd]. rewrite length_app in Hl. simpl in Hl.
  rewrite fmap_app, fmap_cons, list.NoDup_app in Hnd. destruct Hnd as (Hnd0 & Hdis & Hnd1).
  rewrite (cons_middle (a, v) l0 l), app_assoc. apply IH.
  - apply parts_are_record; try done; [|lia]. intros Hin. apply (Hdis a Hin). by left.
  - rewrite fmap_app, list.NoDup_app, fmap_app. rewrite list.NoDup_cons in Hnd1. destruct Hnd1 as [Hna Hnd1].
    split_and!; [|set_solver|done]. apply list.NoDup_app. split_and!; [done|set_solver|].
    apply NoDup_singleton.
  - by rewrite record_length.
  - rewrite !length_app. simpl. lia.
Qed.

(** Recording for a fresh instruction starts from an empty table. *)
Lemma record_fresh c r a v : mmio_parts_rip c <> r \/ mmio_parts_len c = 0 ->
  record_mmio_part c r a v =
  record_mmio_part (set_mmio_parts_len (set_mmio_parts_rip c r) 0) r a v.
Proof.
  intros Hf. unfold record_mmio_part. cbn [mmio_parts_rip set_mmio_parts_len set_mmio_parts_rip].
  rewrite Z.eqb_refl. cbn [negb]. destruct (Z.eqb_spec (mmio_parts_rip c) r) as [E|]; [|done].
  destruct Hf as [|Hf]; [done|]. cbn [negb].
  replace (set_mmio_parts_len (set_mmio_parts_rip c r) 0) with c; [done|].
  destruct c; cbn in *; by subst.
Qed.

(** ** Masked vector writes *)

(** Bit [b] of a 512-bit register held as four 128-bit lanes. *)
Definition vbit (v : list Z) (b : Z) : bool := Z.testbit (lane v (Z.to_nat (b / 128))) (b mod 128).

Lemma mask_chunk_snd n j e k new old bits lm acc :
  (mask_chunk n j e k new old bits lm acc).2 = e + Z.of_nat n.
Proof.
  revert j e acc. induction n as [|n IH]; intros; cbn [mask_chunk]; simpl snd; [lia|].
  rewrite IH. lia.
Qed.

Lemma bit_test k e : 0 <= e -> negb (Z.land (Z.shiftr k e) 1 =? 0) = Z.testbit k e.
Proof.
  intros. change (test (Z.shiftr k e) 1 = Z.testbit k e). rewrite test_one.
  by rewrite <- Z.bit0_odd, Z.shiftr_spec by lia.
Qed.

Lemma mask_chunk_bit n j e k new old bits acc b :
  0 < bits -> 0 <= j -> 0 <= e -> 0 <= b < 128 ->
  Z.testbit (mask_chunk n j e k new old bits (Z.ones bits) acc).1 b =
  Z.testbit acc b ||
  ((j <=? b / bits) && (b / bits <? j + Z.of_nat n) &&
   Z.testbit (if Z.testbit k (e + (b / bits - j)) then new else old) b).
Proof.
  intros Hb. revert j e acc. induction n as [|n IH]; intros j e acc Hj He Hr; cbn [mask_chunk].
  - destruct (Z.leb_spec j (b / bits)), (Z.ltb_spec (b / bits) (j + Z.of_nat 0)); try lia; simpl; btauto.
  - rewrite IH by lia. rewrite Z.lor_spec, wrap_testbit, bit_test by lia.
    destruct (Z.ltb_spec b 128); [|lia]. cbn [andb].
    rewrite Z.shiftl_spec, Z.land_spec by lia.
    pose proof (Z.div_mod b bits ltac:(lia)) as Hdm.
    pose proof (Z.mod_pos_bound b bits Hb) as Hm.
    set (q := b / bits) in *. set (r := b mod bits) in *.
    assert (Hlt : b - j * bits < 0 <-> q < j) by nia.
    assert (Hge : bits <= b - j * bits <-> j < q) by nia.
    destruct (Z.leb_spec (j + 1) q), (Z.leb_spec j q), (Z.ltb_spec q (j + 1 + Z.of_nat n)),
      (Z.ltb_spec q (j + Z.of_nat (S n))); try lia; cbn [andb].
    + rewrite (Z.testbit_ones_nonneg bits) by lia.
      destruct (Z.ltb_spec (b - j * bits) bits); [lia|]. rewrite andb_false_r, orb_false_r.
      do 2 f_equal. by replace (e + 1 + (q - (j + 1))) with (e + (q - j)) by lia.
    + rewrite (Z.testbit_ones_nonneg bits) by lia.
      destruct (Z.ltb_spec (b - j * bits) bits); [lia|]. by rewrite andb_false_r, !orb_false_r.
    + assert (q = j) by lia. rewrite (Z.testbit_ones_nonneg bits) by lia.
      destruct (Z.ltb_spec (b - j * bits) bits); [|lia]. rewrite andb_true_r, orb_false_r.
      rewrite Z.shiftr_spec by lia. f_equal.
      replace (e + (q - j)) with e by lia. f_equal. lia.
    + rewrite (Z.testbit_neg_r _ (b - j * bits)) by lia. simpl. by rewrite !orb_false_r.
Qed.

Lemma mask_chunks_nth ch n c0 chunks e k newval old per bits :
  (ch < n)%nat -> 0 <= c0 -> c0 + Z.of_nat ch < chunks -> 0 <= per ->
  lane (mask_chunks n c0 chunks e k newval old per bits (Z.ones bits)) ch =
  (mask_chunk (Z.to_nat per) 0 (e + Z.of_nat ch * per) k
     (lane newval (Z.to_nat (c0 + Z.of_nat ch))) (lane old (Z.to_nat (c0 + Z.of_nat ch)))
     bits (Z.ones bits) 0).1.
Proof.
  revert n c0 e. induction ch as [|ch IH]; intros [|n] c0 e Hn H0 Hc Hp; try lia;
    cbn [mask_chunks]; destruct (Z.leb_spec chunks c0); try lia.
  - destruct (mask_chunk _ _ _ _ _ _ _ _ _) as [acc e'] eqn:E. cbn [lane nth].
    rewrite Z.mul_0_l, !Z.add_0_r. by rewrite E.
  - destruct (mask_chunk _ _ _ _ _ _ _ _ _) as [acc e'] eqn:E.
    pose proof (mask_chunk_snd (Z.to_nat per) 0 e k (lane newval (Z.to_nat c0))
      (lane old (Z.to_nat c0)) bits (Z.ones bits) 0) as Hs. rewrite E in Hs. cbn [snd] in Hs.
    change (lane (acc :: ?l) (S ch)) with (lane l ch). rewrite IH by lia. f_equal. f_equal; [lia|..].
    all: do 2 f_equal; lia.
Qed.

Definition valid_elem (elem : Z) : Prop := elem = 1 \/ elem = 2 \/ elem = 4 \/ elem = 8.
Definition valid_vec (bytes : Z) : Prop := bytes = 16 \/ bytes = 32 \/ bytes = 64.

Lemma lane_set_vec c reg v bytes i : cpu_wf c -> (reg < 32)%nat -> valid_vec bytes -> (i < 4)%nat ->
  lane (vec_lanes (set_vec c reg v bytes) reg) i = if Z.of_nat i <? bytes / 16 then lane v i else 0.
Proof.
  intros Hc Hr Hv Hi. destruct Hc. unfold vec_lanes, set_vec.
  cbn [xmm ymm_hi zmm_hi set_xmm set_ymm_hi set_zmm_hi]. rewrite !nth_lookup.
  rewrite !list_lookup_insert_eq by lia.
  destruct Hv as [->|[->| ->]]; destruct i as [|[|[|[|i]]]]; (reflexivity || lia).
Qed.

Lemma lane_set_vec_other c reg reg' v bytes : reg <> reg' ->
  vec_lanes (set_vec c reg v bytes) reg' = vec_lanes c reg'.
Proof.
  intros Hne. unfold vec_lanes, set_vec.
  cbn [xmm ymm_hi zmm_hi set_xmm set_ymm_hi set_zmm_hi]. rewrite !nth_lookup.
  by rewrite !list_lookup_insert_ne.
Qed.

Lemma lane_mask_ones elem : valid_elem elem ->
  (if 128 <=? elem * 8 then Z.ones 128 else Z.shiftl 1 (elem * 8) - 1) = Z.ones (elem * 8).
Proof. intros [->|[->|[->| ->]]]; reflexivity. Qed.

Lemma default_cpu_wf : cpu_wf default_cpu.
Proof.
  assert (Z0 : forall w, 0 <= w -> in_width w 0) by (intros; split; [lia|by apply pow2_pos]).
  split; cbn; try reflexivity; try (apply Z0; lia); try done; try lia.
  repeat (constructor; [apply Z0; lia|]). constructor.
Qed.

(** ** Theorems *)

(** Restoring a pushed real-mode FLAGS image gives back the flags it was taken
    from: [set_flags16] after [to_flags16] yields flags architecturally equal to
    the original (IF included), whatever flags were live before. *)
Theorem flags16_round_trip (f g : Flags) : flags_eq (set_flags16 g (to_flags16 f)) f.
Proof. apply set_flags16_to_flags16. Qed.

(** A sub-register write follows the x86 rule: it panics exactly when the size is
    not 1, 2, 4 or 8; otherwise the low [8*size] bits of the slot come from the
    value, the bits above are zero for a 4-byte write and preserved for a 1- or
    2-byte write, every other register is untouched, and the state stays
    well-formed. *)
Theorem write_gpr_subregister (c : CpuState) (i : nat) (v size : Z) :
  cpu_wf c -> (i < 16)%nat -> in_width 64 v ->
  match write_gpr c i v size with
  | None => ~ valid_elem size
  | Some c' =>
      valid_elem size /\ cpu_wf c' /\
      (forall b, 0 <= b < 64 -> Z.testbit (get_gpr c' i) b =
         if b <? 8 * size then Z.testbit v b
         else if size =? 4 then false else Z.testbit (get_gpr c i) b) /\
      (forall j, j <> i -> get_gpr c' j = get_gpr c j)
  end.
Proof.
  intros Hc Hi Hv. unfold write_gpr, valid_elem.
  assert (Hlen : length (gpr c) = 16%nat) by apply Hc.
  assert (K : forall x, in_width 64 x -> forall P : Z -> Prop, P x ->
    cpu_wf (put_gpr c i x) /\ P (get_gpr (put_gpr c i x) i) /\
    (forall j, j <> i -> get_gpr (put_gpr c i x) j = get_gpr c j)).
  { intros x Hx P HP. split_and!.
    - by apply gprs_insert_wf.
    - rewrite get_put_gpr by done. by rewrite decide_True.
    - intros j Hj. rewrite get_put_gpr by done. by rewrite decide_False. }
  pose proof (get_gpr_range c i Hc) as Hcur.
  change 0xFFFF with (Z.ones 16). change 0xFF with (Z.ones 8). change 0xFFFFFFFF with (Z.ones 32).
  destruct (Z.eqb_spec size 8) as [->|]; [|destruct (Z.eqb_spec size 4) as [->|];
    [|destruct (Z.eqb_spec size 2) as [->|]; [|destruct (Z.eqb_spec size 1) as [->|]]]].
  - split; [lia|]. apply (K v Hv (fun x => forall b, 0 <= b < 64 -> Z.testbit x b = _)).
    intros b Hb. by destruct (Z.ltb_spec b (8 * 8)); [|lia].
  - split; [lia|].
    apply (K _ (in_width_land 64 v (Z.ones 32) ltac:(lia) Hv ltac:(done))
      (fun x => forall b, 0 <= b < 64 -> Z.testbit x b = _)).
    intros b Hb. rewrite Z.land_spec, Z.testbit_ones_nonneg by lia. change (8 * 4) with 32.
    destruct (b <? 32); simpl; btauto.
  - split; [lia|].
    apply (K _ (merge_low_range 16 _ v ltac:(lia) Hcur) (fun x => forall b, 0 <= b < 64 -> Z.testbit x b = _)).
    intros b Hb. by apply merge_low_bits.
  - split; [lia|].
    apply (K _ (merge_low_range 8 _ v ltac:(lia) Hcur) (fun x => forall b, 0 <= b < 64 -> Z.testbit x b = _)).
    intros b Hb. by apply merge_low_bits.
  - lia.
Qed.

(** MMIO sub-transfers converge.  When the embedder answers up to eight distinct
    transfers of one instruction, the retried instruction finds every one of those
    answers (and no others) under its own RIP, a different RIP finds none, and the
    table never outgrows its eight slots. *)
Theorem mmio_parts_converge (c : CpuState) (r : Z) (l : list (Z * Z)) :
  cpu_wf c -> mmio_parts_rip c <> r \/ mmio_parts_len c = 0 ->
  l <> [] -> NoDup l.*1 -> (length l <= 8)%nat ->
  let c' := foldl (fun c p => record_mmio_part c r p.1 p.2) c l in
  (forall a, mmio_part c' r a = (list_to_map l : gmap Z Z) !! a) /\
  (forall r' a, r' <> r -> mmio_part c' r' a = None) /\
  mmio_parts_len c' = Z.of_nat (length l).
Proof.
  intros Hc Hf Hne Hnd Hl c'.
  assert (Hp : parts_are c' r l).
  { unfold c'. destruct l as [|[a v] l]; [done|]. cbn [foldl fst snd]. rewrite record_fresh by done.
    apply (record_all (set_mmio_parts_len (set_mmio_parts_rip c r) 0) r [] ((a, v) :: l));
      [by split_and!|done|apply Hc|done]. }
  split_and!.
  - intros a. by apply parts_are_lookup.
  - intros r' a Hr'. unfold mmio_part. destruct Hp as (-> & _). by destruct (Z.eqb_spec r r').
  - apply Hp.
Qed.

Lemma mmio_parts_converge_witness :
  mmio_part (foldl (fun c p => record_mmio_part c 7 p.1 p.2) default_cpu [(16, 1); (24, 2)]) 7 24 = Some 2.
Proof.
  apply (mmio_parts_converge default_cpu 7 [(16, 1); (24, 2)]).
  - apply default_cpu_wf.
  - by right.
  - done.
  - apply (bool_decide_unpack _). vm_compute. exact I.
  - simpl. lia.
Defined.

(** An AVX-512 masked write is exact bit by bit: inside the operand width a bit
    comes from the new value where its element's opmask bit is set, and otherwise
    is zero (zeroing) or the old bit (merging); every bit above the operand width
    is cleared; other vector registers are untouched. *)
Theorem write_masked_exact (c : CpuState) (reg k : nat) (newval : list Z) (elem bytes : Z) (zeroing : bool) :
  cpu_wf c -> (reg < 32)%nat -> valid_elem elem -> valid_vec bytes ->
  let c' := write_masked c reg newval k elem zeroing bytes in
  (forall b, 0 <= b < 512 ->
     vbit (vec_lanes c' reg) b =
     if b <? 8 * bytes then
       if Z.testbit (nth k (kmask c) 0) (b / (8 * elem)) then vbit newval b
       else if zeroing then false else vbit (vec_lanes c reg) b
     else false) /\
  (forall reg', reg' <> reg -> vec_lanes c' reg' = vec_lanes c reg').
Proof.
  intros Hc Hr He Hv c'. split; [|intros; by apply lane_set_vec_other].
  intros b Hb. unfold c', write_masked. rewrite lane_mask_ones by done.
  unfold vbit at 1. pose proof (Z.div_mod b 128 ltac:(lia)) as Hdm.
  pose proof (Z.mod_pos_bound b 128 ltac:(lia)) as Hm.
  assert (Hq : 0 <= b / 128 < 4) by lia.
  rewrite lane_set_vec by (done || lia). rewrite Z2Nat.id by lia.
  assert (Hin : (b / 128 <? bytes / 16) = (b <? 8 * bytes)).
  { destruct Hv as [->|[->| ->]]; vm_compute (_ / 16);
      [destruct (Z.ltb_spec (b / 128) 1), (Z.ltb_spec b (8 * 16))
      |destruct (Z.ltb_spec (b / 128) 2), (Z.ltb_spec b (8 * 32))
      |destruct (Z.ltb_spec (b / 128) 4), (Z.ltb_spec b (8 * 64))]; (done || lia). }
  rewrite Hin. destruct (Z.ltb_spec b (8 * bytes)) as [Hlt|]; [|apply Z.testbit_0_l].
  apply Z.ltb_lt in Hin. assert (He8 : 0 < elem <= 8) by (destruct He as [->|[->|[->| ->]]]; lia).
  rewrite mask_chunks_nth by (try apply Z.div_pos; lia).
  rewrite Z.add_0_l, Z2Nat.id by lia.
  assert (Hper : 128 = 128 / (elem * 8) * (elem * 8))
    by (destruct He as [->|[->|[->| ->]]]; reflexivity).
  set (per := 128 / (elem * 8)) in *. assert (0 < per) by nia.
  rewrite mask_chunk_bit by nia. rewrite Z.testbit_0_l. cbn [orb].
  assert (Hi : 0 <= b mod 128 / (elem * 8) < per)
    by (split; [apply Z.div_pos; lia|apply Z.div_lt_upper_bound; lia]).
  destruct (Z.leb_spec 0 (b mod 128 / (elem * 8))); [|lia].
  destruct (Z.ltb_spec (b mod 128 / (elem * 8)) (0 + Z.of_nat (Z.to_nat per))); [|lia].
  cbn [andb].
  replace (b / (8 * elem)) with (0 + b / 128 * per + (b mod 128 / (elem * 8) - 0)).
  2: { rewrite (Z.mul_comm 8). symmetry. rewrite Hdm at 1.
       replace (128 * (b / 128) + b mod 128) with (b mod 128 + b / 128 * per * (elem * 8)) by nia.
       rewrite Z.div_add by lia. lia. }
  destruct (Z.testbit (nth k (kmask c) 0) _); [done|]. destruct zeroing; [|done].
  rewrite Z.add_0_l.
  destruct (Z.to_nat (b / 128)) as [|[|[|[|[|?]]]]]; apply Z.testbit_0_l.
Qed.

Lemma write_masked_exact_witness :
  vbit (vec_lanes (write_masked default_cpu 3 [255; 0; 0; 0] 1 4 true 16) 3) 5 = false.
Proof.
  destruct (write_masked_exact default_cpu 3 1 [255; 0; 0; 0] 4 16 true) as [H _].
  - apply default_cpu_wf.
  - lia.
  - unfold valid_elem. lia.
  - unfold valid_vec. lia.
  - rewrite H by lia. reflexivity.
Defined.

Lemma write_gpr_subregister_witness :
  exists c', write_gpr default_cpu 0 0x1234 1 = Some c' /\ Z.testbit (get_gpr c' 0) 2 = true /\ cpu_wf c'.
Proof.
  pose proof (write_gpr_subregister default_cpu 0 0x1234 1 default_cpu_wf ltac:(lia) ltac:(split; lia)) as H.
  destruct (write_gpr default_cpu 0 0x1234 1) as [c'|] eqn:E; [|discriminate E].
  exists c'. destruct H as (_ & Hw & Hb & _). split; [done|]. split; [|done].
  rewrite Hb by lia. reflexivity.
Defined.
