(* ===== verification/Ir.v ===== *)
(** * Exit reasons and operands of the IR (x86jit-core/src/exit.rs, ir.rs)

    The reasons [run] returns, and the operands and operation enumerations the ops of a
    block are made of. *)

From S2P Require Import Prelude State.

(** ** exit.rs *)

Inductive AccessKind : Type := Read | Write | Execute.
Inductive PortDir : Type := In_ | Out.

Inductive Exit : Type :=
  | ESyscall
  | EHlt
  | UnmappedMemory (addr : Z) (access : AccessKind)
  | MmioRead (addr size : Z)
  | MmioWrite (addr size value : Z)
  | UnknownInstruction (addr : Z) (bytes : list Z) (len : Z)
  | EException (addr vector : Z)
  | EPortIo (port size : Z) (dir : PortDir) (value : Z)
  | BudgetExhausted.

Inductive StepResult : Type :=
  | Continue
  | SExit (e : Exit).

(** ** Operands *)

(** A block-local temporary: an index into the interpreter's [temps]. *)
Notation Temp := nat.

Inductive Val : Type :=
  | TempV (t : Temp)
  | Imm (i : Z).

Inductive MemOrder : Type := OrderNone | Release | Acquire.

Inductive Cond : Type :=
  | Eq | Ne | Below | BelowEq | Above | AboveEq
  | Less | LessEq | Greater | GreaterEq
  | Sign | NoSign | Overflow | NoOverflow | Parity | NoParity.

(** [FlagMask(u8)]: CF=1, PF=2, AF=4, ZF=8, SF=16, OF=32. *)
Definition FlagMask : Type := Z.
Definition FM_NONE : FlagMask := 0.
Definition FM_ALL : FlagMask := 63.
Definition FM_ALL_BUT_CF : FlagMask := 62.
Definition FM_SHIFT : FlagMask := 59.
Definition FM_CF_OF : FlagMask := 33.
Definition fm_is_none (m : FlagMask) : bool := m =? 0.

Inductive BitScanOp : Type := Bsf | Bsr | Tzcnt | Lzcnt.

Inductive BmiOp : Type := Andn | Blsi | Blsr | Blsmsk | Bextr | Bzhi | Pdep | Pext.
Definition writes_flags (op : BmiOp) : bool :=
  match op with Pdep | Pext => false | _ => true end.

Inductive BtOp : Type := BtTest | BtSet | BtReset | BtComplement.

Inductive RmwOp : Type := RmwAdd | RmwSub | RmwRsub | RmwAnd | RmwOr | RmwXor | RmwXchg.

Inductive StrOp : Type := Movs | Stos | Scas | Cmps | Lods.
Inductive RepKind : Type := RepNone | Rep | Repe | Repne.
Inductive BcdKind : Type := Daa | Das | Aaa | Aas | Aam (base : Z) | Aad (base : Z).
Inductive LoopKind : Type := Loop | Loope | Loopne | Jcxz.
