(* ===== verification/Alu.v ===== *)
(** * ALU results, flags and conditions (x86jit-core/src/interp/mod.rs)

    The pure arithmetic helpers the interpreter's integer arms call.  Each is
    proved equal to its mathematical meaning: sums and differences with their six
    flags, the 16 jcc conditions after a compare, products, quotients, rotates and
    the bit-manipulation operations. *)

From S2P Require Import Prelude Features State Ir.

Record AluResult : Type := mkAlu {
  r_res : Z;
  r_cf : bool; r_pf : bool; r_af : bool; r_zf : bool; r_sf : bool; r_of : bool;
}.

Definition mask (size : Z) : Z :=
  if 8 <=? size then 2 ^ 64 - 1 else Z.shiftl 1 (size * 8) - 1.
Definition shift_mask (size : Z) : Z := if size =? 8 then 63 else 31.
Definition sign_bit (size : Z) : Z := wrap 64 (Z.shiftl 1 (size * 8 - 1)).

Definition parity (v : Z) : bool := count_ones (wrap 8 v) mod 2 =? 0.

Definition sign_extend (v from : Z) : Z :=
  if 8 <=? from then v
  else
    let bits := from * 8 in
    let shift := 64 - bits in
    wrap 64 (Z.shiftr (to_signed 64 (wrap 64 (Z.shiftl v shift))) shift).

Definition sign_extend_128 (v bits : Z) : Z :=
  if 128 <=? bits then to_signed 128 v
  else
    let shift := 128 - bits in
    Z.shiftr (to_signed 128 (wrap 128 (Z.shiftl v shift))) shift.

Definition alu_add (a b carry_in size : Z) : AluResult :=
  let m := mask size in
  let a := Z.land a m in
  let b := Z.land b m in
  let wide := wrap 128 (a + b + carry_in) in
  let res := Z.land (wrap 64 wide) m in
  let sb := sign_bit size in
  {| r_res := res;
     r_cf := test (Z.shiftr wide (size * 8)) 1;
     r_pf := parity res;
     r_af := test (Z.land a 15 + Z.land b 15 + carry_in) 16;
     r_zf := res =? 0;
     r_sf := test res sb;
     r_of := test (Z.land (unot 64 (Z.lxor a b)) (Z.lxor a res)) sb |}.

Definition alu_sub (a b borrow_in size : Z) : AluResult :=
  let m := mask size in
  let a := Z.land a m in
  let b := Z.land b m in
  let wide := wrapping_sub 128 (wrapping_sub 128 a b) borrow_in in
  let res := Z.land (wrap 64 wide) m in
  let sb := sign_bit size in
  {| r_res := res;
     r_cf := a <? b + borrow_in;
     r_pf := parity res;
     r_af := Z.land a 15 <? Z.land b 15 + borrow_in;
     r_zf := res =? 0;
     r_sf := test res sb;
     r_of := test (Z.land (Z.lxor a b) (Z.lxor a res)) sb |}.

Definition alu_logic (res size : Z) : AluResult :=
  let res := Z.land res (mask size) in
  {| r_res := res; r_cf := false; r_pf := parity res; r_af := false;
     r_zf := res =? 0; r_sf := test res (sign_bit size); r_of := false |}.

Definition shift_result (res size : Z) (carry ovf : bool) : AluResult :=
  {| r_res := res; r_cf := carry; r_pf := parity res; r_af := false;
     r_zf := res =? 0; r_sf := test res (sign_bit size); r_of := ovf |}.

Definition cf_of (res : Z) (carry ovf : bool) : AluResult :=
  {| r_res := res; r_cf := carry; r_pf := false; r_af := false;
     r_zf := false; r_sf := false; r_of := ovf |}.

Definition rotl (v cnt size : Z) : Z :=
  if size =? 1 then rotate_left 8 (wrap 8 v) cnt
  else if size =? 2 then rotate_left 16 (wrap 16 v) cnt
  else if size =? 4 then rotate_left 32 (wrap 32 v) cnt
  else rotate_left 64 v cnt.

Definition rotr (v cnt size : Z) : Z :=
  if size =? 1 then rotate_right 8 (wrap 8 v) cnt
  else if size =? 2 then rotate_right 16 (wrap 16 v) cnt
  else if size =? 4 then rotate_right 32 (wrap 32 v) cnt
  else rotate_right 64 v cnt.

(** The [for _ in 0..cnt] loops of the rotates through carry. *)
Fixpoint rcl (cnt : nat) (v : Z) (cf : bool) (size : Z) : Z * bool :=
  match cnt with
  | O => (v, cf)
  | S cnt' =>
      let msb := test (Z.shiftr v (size * 8 - 1)) 1 in
      rcl cnt' (Z.land (Z.lor (wrap 64 (Z.shiftl v 1)) (b2z cf)) (mask size)) msb size
  end.

Fixpoint rcr (cnt : nat) (v : Z) (cf : bool) (size : Z) : Z * bool :=
  match cnt with
  | O => (v, cf)
  | S cnt' =>
      let lsb := test v 1 in
      rcr cnt' (Z.lor (Z.shiftr v 1) (wrap 64 (Z.shiftl (b2z cf) (size * 8 - 1)))) lsb size
  end.

(** [apply]: commit the flags selected by the mask. *)
Definition apply_flags (f : Flags) (m : FlagMask) (r : AluResult) : Flags :=
  if fm_is_none m then f
  else
    let f := if test m 1 then set_cf f (r_cf r) else f in
    let f := if test m 2 then set_pf f (r_pf r) else f in
    let f := if test m 4 then set_af f (r_af r) else f in
    let f := if test m 8 then set_zf f (r_zf r) else f in
    let f := if test m 16 then set_sf f (r_sf r) else f in
    if test m 32 then set_of_ f (r_of r) else f.

Definition eval_cond (c : Cond) (f : Flags) : bool :=
  match c with
  | Eq => zf f
  | Ne => negb (zf f)
  | Below => cf f
  | AboveEq => negb (cf f)
  | BelowEq => cf f || zf f
  | Above => negb (cf f) && negb (zf f)
  | Less => negb (eqb (sf f) (of_ f))
  | GreaterEq => eqb (sf f) (of_ f)
  | LessEq => negb (eqb (sf f) (of_ f)) || zf f
  | Greater => eqb (sf f) (of_ f) && negb (zf f)
  | Sign => sf f
  | NoSign => negb (sf f)
  | Overflow => of_ f
  | NoOverflow => negb (of_ f)
  | Parity => pf f
  | NoParity => negb (pf f)
  end.

(** [i128::checked_div] / [checked_rem]: [None] on zero and on [MIN / -1]. *)
Definition checked_div_i128 (a b : Z) : option Z :=
  if b =? 0 then None
  else if (a =? - 2 ^ 127) && (b =? -1) then None else Some (Z.quot a b).
Definition checked_rem_i128 (a b : Z) : option Z :=
  if b =? 0 then None
  else if (a =? - 2 ^ 127) && (b =? -1) then None else Some (Z.rem a b).

Definition divide (hi lo divisor size : Z) (signed : bool) : option (Z * Z) :=
  let m := mask size in
  let n := size * 8 in
  let d := Z.land divisor m in
  if d =? 0 then None
  else
    let dividend := Z.lor (wrap 128 (Z.shiftl (Z.land hi m) n)) (Z.land lo m) in
    if signed then
      let dv := to_signed 64 (sign_extend d size) in
      let sd := sign_extend_128 dividend (2 * n) in
      match checked_div_i128 sd dv, checked_rem_i128 sd dv with
      | Some q, Some r =>
          let lim := Z.shiftl 1 (n - 1) in
          if (q <? - lim) || (lim <=? q) then None
          else Some (Z.land (wrap 64 q) m, Z.land (wrap 64 r) m)
      | _, _ => None
      end
    else
      let q := dividend / d in
      let r := dividend mod d in
      if m <? q then None else Some (wrap 64 q, wrap 64 r).

Fixpoint pdep_loop (n : nat) (i k av bv r : Z) : Z :=
  match n with
  | O => r
  | S n' =>
      if test (Z.shiftr bv i) 1
      then pdep_loop n' (i + 1) (k + 1) av bv (Z.lor r (Z.shiftl (Z.land (Z.shiftr av k) 1) i))
      else pdep_loop n' (i + 1) k av bv r
  end.

Fixpoint pext_loop (n : nat) (i k av bv r : Z) : Z :=
  match n with
  | O => r
  | S n' =>
      if test (Z.shiftr bv i) 1
      then pext_loop n' (i + 1) (k + 1) av bv (Z.lor r (Z.shiftl (Z.land (Z.shiftr av i) 1) k))
      else pext_loop n' (i + 1) k av bv r
  end.

Definition bmi_result (a b size : Z) (op : BmiOp) : Z * bool :=
  let m := mask size in
  let bits := size * 8 in
  let av := Z.land a m in
  let bv := Z.land b m in
  match op with
  | Andn => (Z.land (Z.land (unot 64 av) bv) m, false)
  | Blsi => (Z.land (Z.land av (wrapping_neg 64 av)) m, negb (av =? 0))
  | Blsr => (Z.land (Z.land av (wrapping_sub 64 av 1)) m, av =? 0)
  | Blsmsk => (Z.land (Z.lxor av (wrapping_sub 64 av 1)) m, av =? 0)
  | Bextr =>
      let start := Z.land bv 255 in
      let len := Z.land (Z.shiftr bv 8) 255 in
      let shifted := if 64 <=? start then 0 else Z.shiftr av start in
      let r := if 64 <=? len then shifted else Z.land shifted (Z.shiftl 1 len - 1) in
      (Z.land r m, false)
  | Bzhi =>
      let idx := Z.land bv 255 in
      let r := if bits <=? idx then av else Z.land av (Z.shiftl 1 idx - 1) in
      (Z.land r m, bits - 1 <? idx)
  | Pdep => (Z.land (pdep_loop (Z.to_nat bits) 0 0 av bv 0) m, false)
  | Pext => (Z.land (pext_loop (Z.to_nat bits) 0 0 av bv 0) m, false)
  end.

(** One step of the inner CRC loop, then [n] of them. *)
Definition crc_bit (crc : Z) : Z :=
  let m := wrapping_neg 32 (Z.land crc 1) in
  Z.lxor (Z.shiftr crc 1) (Z.land 0x82F63B78 m).
Fixpoint crc_bits (n : nat) (crc : Z) : Z :=
  match n with O => crc | S n' => crc_bits n' (crc_bit crc) end.
(** [for _ in 0..8] *)
Definition crc_byte (crc : Z) : Z := crc_bits 8 crc.
(** [for i in 0..bytes] *)
Definition crc32c (crc src bytes : Z) : Z :=
  foldl (fun crc i => crc_byte (Z.lxor crc (Z.land (Z.shiftr src (i * 8)) 255))) crc
    (zseq 0 (Z.to_nat bytes)).

Definition mask_bits (size : Z) : Z :=
  if 8 <=? size then 2 ^ 64 - 1 else Z.shiftl 1 (size * 8) - 1.

Definition apply_rmw (old src : Z) (op : RmwOp) (size : Z) : Z :=
  let r := match op with
           | RmwAdd => wrapping_add 64 old src
           | RmwSub => wrapping_sub 64 old src
           | RmwRsub => wrapping_sub 64 src old
           | RmwAnd => Z.land old src
           | RmwOr => Z.lor old src
           | RmwXor => Z.lxor old src
           | RmwXchg => src
           end in
  Z.land r (mask_bits size).

(** ** Widths *)

Notation bits_of size := (8 * size).

Lemma valid_elem_range size : valid_elem size -> 1 <= size <= 8.
Proof. unfold valid_elem. lia. Qed.

Lemma mask_ones size : valid_elem size -> mask size = Z.ones (bits_of size).
Proof. intros [->|[->|[->| ->]]]; reflexivity. Qed.

Lemma mask_bits_mask size : mask_bits size = mask size.
Proof. reflexivity. Qed.

Lemma land_mask x size : valid_elem size -> Z.land x (mask size) = wrap (bits_of size) x.
Proof. intros Hs. rewrite mask_ones by done. apply wrap_ones. apply valid_elem_range in Hs. lia. Qed.

Lemma sign_bit_pow size : valid_elem size -> sign_bit size = 2 ^ (bits_of size - 1).
Proof. intros [->|[->|[->| ->]]]; reflexivity. Qed.

Lemma test_sign_bit x size : valid_elem size -> test x (sign_bit size) = Z.testbit x (bits_of size - 1).
Proof. intros Hs. rewrite sign_bit_pow by done. apply test_pow2. apply valid_elem_range in Hs. lia. Qed.

Lemma test_shifted x n : 0 <= n -> test (Z.shiftr x n) 1 = Z.testbit x n.
Proof. intros. rewrite test_one, <- Z.bit0_odd, Z.shiftr_spec by lia. done. Qed.

(** ** Reference results *)

Definition fits_signed (n x : Z) : bool := (- 2 ^ (n - 1) <=? x) && (x <? 2 ^ (n - 1)).

(** [n]-bit addition with carry, from the integers alone. *)
Definition add_spec (n a b c : Z) : AluResult :=
  let res := wrap n (a + b + c) in
  {| r_res := res;
     r_cf := 2 ^ n <=? wrap n a + wrap n b + c;
     r_pf := parity res;
     r_af := 16 <=? a mod 16 + b mod 16 + c;
     r_zf := res =? 0;
     r_sf := to_signed n (a + b + c) <? 0;
     r_of := negb (fits_signed n (to_signed n a + to_signed n b + c)) |}.

(** [n]-bit subtraction with borrow. *)
Definition sub_spec (n a b c : Z) : AluResult :=
  let res := wrap n (a - b - c) in
  {| r_res := res;
     r_cf := wrap n a - wrap n b - c <? 0;
     r_pf := parity res;
     r_af := a mod 16 - b mod 16 - c <? 0;
     r_zf := res =? 0;
     r_sf := to_signed n (a - b - c) <? 0;
     r_of := negb (fits_signed n (to_signed n a - to_signed n b - c)) |}.

(** What each condition means for the comparison of [a] with [b]. *)
Definition cond_spec (n : Z) (c : Cond) (a b : Z) : bool :=
  match c with
  | Eq => wrap n a =? wrap n b
  | Ne => negb (wrap n a =? wrap n b)
  | Below => wrap n a <? wrap n b
  | AboveEq => wrap n b <=? wrap n a
  | BelowEq => wrap n a <=? wrap n b
  | Above => wrap n b <? wrap n a
  | Less => to_signed n a <? to_signed n b
  | GreaterEq => to_signed n b <=? to_signed n a
  | LessEq => to_signed n a <=? to_signed n b
  | Greater => to_signed n b <? to_signed n a
  | Sign => to_signed n (a - b) <? 0
  | NoSign => negb (to_signed n (a - b) <? 0)
  | Overflow => negb (fits_signed n (to_signed n a - to_signed n b))
  | NoOverflow => fits_signed n (to_signed n a - to_signed n b)
  | Parity => parity (wrap n (a - b))
  | NoParity => negb (parity (wrap n (a - b)))
  end.

Definition divide_spec (n hi lo divisor : Z) (signed : bool) : option (Z * Z) :=
  let dividend := wrap n hi * 2 ^ n + wrap n lo in
  if wrap n divisor =? 0 then None
  else if signed then
    let x := to_signed (2 * n) dividend in
    let d := to_signed n divisor in
    if fits_signed n (Z.quot x d) then Some (wrap n (Z.quot x d), wrap n (Z.rem x d)) else None
  else
    let d := wrap n divisor in
    if dividend / d <? 2 ^ n then Some (dividend / d, dividend mod d) else None.

(** ** Low nibble and single-bit facts *)

Lemma land15 x : Z.land x 15 = x mod 16.
Proof. change 15 with (Z.ones 4). by rewrite Z.land_ones. Qed.

Lemma wrap_mod16 n x : 4 <= n -> wrap n x mod 16 = x mod 16.
Proof. intros. change 16 with (2 ^ 4). apply (wrap_wrap_le 4 n). lia. Qed.

Lemma nibble_carry_test x : 0 <= x < 32 -> test x 16 = (16 <=? x).
Proof.
  intros. change 16 with (2 ^ 4) at 1. rewrite test_pow2 by lia. rewrite Z.testbit_eqb by lia.
  change (2 ^ 4) with 16. destruct (Z.leb_spec 16 x).
  - replace (x / 16) with 1 by (apply (Z.div_unique _ _ 1 (x - 16)); lia). done.
  - by rewrite Z.div_small by lia.
Qed.

Lemma carry_out_test n x : 0 <= n -> 0 <= x < 2 * 2 ^ n -> Z.testbit x n = (2 ^ n <=? x).
Proof.
  intros Hn Hx. rewrite Z.testbit_eqb by lia. destruct (Z.leb_spec (2 ^ n) x).
  - replace (x / 2 ^ n) with 1 by (apply (Z.div_unique _ _ 1 (x - 2 ^ n)); lia). done.
  - by rewrite Z.div_small by lia.
Qed.

(** [to_signed] of a value at most one period away from its range. *)
Lemma to_signed_near n s : 1 <= n -> - 2 ^ n <= s < 2 ^ n ->
  to_signed n s = if s <? - 2 ^ (n - 1) then s + 2 ^ n
                  else if 2 ^ (n - 1) <=? s then s - 2 ^ n else s.
Proof.
  intros Hn Hs. pose proof (pow2_half n Hn). pose proof (pow2_pos (n - 1)).
  apply to_signed_unique; [done| |].
  - destruct (Z.ltb_spec s (- 2 ^ (n - 1))), (Z.leb_spec (2 ^ (n - 1)) s); lia.
  - destruct (_ <? _); [|destruct (_ <=? _); [|done]]; unfold wrap.
    + rewrite <- (Z_mod_plus_full s 1). f_equal; lia.
    + rewrite <- (Z_mod_plus_full s (-1)). f_equal; lia.
Qed.

Lemma wrap_sum n a b c : 0 <= n -> wrap n (wrap n a + wrap n b + c) = wrap n (a + b + c).
Proof.
  intros. rewrite <- Z.add_assoc, wrap_add_l by done.
  replace (a + (wrap n b + c)) with (a + c + wrap n b) by lia. rewrite wrap_add_r by done.
  f_equal; lia.
Qed.

Lemma wrap_diff n a b c : 0 <= n -> wrap n (wrap n a - wrap n b - c) = wrap n (a - b - c).
Proof.
  intros. replace (wrap n a - wrap n b - c) with (wrap n a - (wrap n b + c)) by lia.
  rewrite wrap_sub_l by done. replace (a - (wrap n b + c)) with (a - c - wrap n b) by lia.
  rewrite wrap_sub_r by done. f_equal; lia.
Qed.

Lemma wrap_to_signed_sum n a b c : 1 <= n ->
  to_signed n (a + b + c) = to_signed n (to_signed n a + to_signed n b + c).
Proof.
  intros. rewrite <- to_signed_wrap by lia. rewrite <- wrap_sum by lia.
  rewrite <- (wrap_to_signed n a), <- (wrap_to_signed n b) by lia.
  rewrite wrap_sum by lia. by rewrite to_signed_wrap by lia.
Qed.

Lemma wrap_to_signed_diff n a b c : 1 <= n ->
  to_signed n (a - b - c) = to_signed n (to_signed n a - to_signed n b - c).
Proof.
  intros. rewrite <- to_signed_wrap by lia. rewrite <- wrap_diff by lia.
  rewrite <- (wrap_to_signed n a), <- (wrap_to_signed n b) by lia.
  rewrite wrap_diff by lia. by rewrite to_signed_wrap by lia.
Qed.

(** The sign-bit formulas for signed overflow. *)
Lemma overflow_add n a b c : 1 <= n -> 0 <= c <= 1 ->
  let s := to_signed n (a + b + c) in
  negb (xorb (to_signed n a <? 0) (to_signed n b <? 0)) && xorb (to_signed n a <? 0) (s <? 0) =
  negb (fits_signed n (to_signed n a + to_signed n b + c)).
Proof.
  intros Hn Hc s. unfold s. rewrite wrap_to_signed_sum by done.
  pose proof (to_signed_range n a Hn). pose proof (to_signed_range n b Hn).
  pose proof (pow2_half n Hn). pose proof (pow2_pos (n - 1)).
  rewrite (to_signed_near n (to_signed n a + to_signed n b + c)) by lia. unfold fits_signed.
  set (A := to_signed n a) in *. set (B := to_signed n b) in *. set (h := 2 ^ (n - 1)) in *.
  destruct (Z.ltb_spec (A + B + c) (- h)), (Z.leb_spec h (A + B + c)), (Z.ltb_spec A 0),
    (Z.ltb_spec B 0), (Z.leb_spec (- h) (A + B + c)), (Z.ltb_spec (A + B + c) h); try lia;
    simpl; repeat zcase; try done; try lia.
Qed.

Lemma overflow_sub n a b c : 1 <= n -> 0 <= c <= 1 ->
  let s := to_signed n (a - b - c) in
  xorb (to_signed n a <? 0) (to_signed n b <? 0) && xorb (to_signed n a <? 0) (s <? 0) =
  negb (fits_signed n (to_signed n a - to_signed n b - c)).
Proof.
  intros Hn Hc s. unfold s. rewrite wrap_to_signed_diff by done.
  pose proof (to_signed_range n a Hn). pose proof (to_signed_range n b Hn).
  pose proof (pow2_half n Hn). pose proof (pow2_pos (n - 1)).
  rewrite (to_signed_near n (to_signed n a - to_signed n b - c)) by lia. unfold fits_signed.
  set (A := to_signed n a) in *. set (B := to_signed n b) in *. set (h := 2 ^ (n - 1)) in *.
  destruct (Z.ltb_spec (A - B - c) (- h)), (Z.leb_spec h (A - B - c)), (Z.ltb_spec A 0),
    (Z.ltb_spec B 0), (Z.leb_spec (- h) (A - B - c)), (Z.ltb_spec (A - B - c) h); try lia;
    simpl; repeat zcase; try done; try lia.
Qed.

(** The sign bit of the masked operands and result, as signs of integers. *)
Lemma sign_of n x : 1 <= n -> Z.testbit x (n - 1) = (to_signed n x <? 0).
Proof. intros. by rewrite to_signed_neg. Qed.

Lemma sign_of_wrap n x : 1 <= n -> Z.testbit (wrap n x) (n - 1) = (to_signed n x <? 0).
Proof. intros. rewrite sign_of by done. by rewrite to_signed_wrap by lia. Qed.

Lemma size_bits size : valid_elem size -> 8 <= bits_of size <= 64.
Proof. intros ?%valid_elem_range. lia. Qed.

Lemma alu_add_spec a b c size : valid_elem size -> 0 <= c <= 1 ->
  alu_add a b c size = add_spec (bits_of size) a b c.
Proof.
  intros Hs Hc. pose proof (size_bits size Hs) as Hn. unfold alu_add, add_spec.
  rewrite !land_mask, !test_sign_bit by done.
  set (n := bits_of size) in *. replace (size * 8) with n by (unfold n; lia).
  pose proof (wrap_range n a ltac:(lia)) as Ha. pose proof (wrap_range n b ltac:(lia)) as Hb.
  assert (H64 : 2 ^ n <= 2 ^ 64) by (apply Z.pow_le_mono_r; lia).
  assert (2 ^ 64 * 4 <= 2 ^ 128) by (vm_compute; congruence).
  unfold in_width in Ha, Hb. rewrite (wrap_small 128) by (unfold in_width; lia).
  rewrite (wrap_wrap_le n 64) by lia. rewrite wrap_sum by lia. f_equal.
  - rewrite test_shifted by lia. apply carry_out_test; lia.
  - rewrite !land15, !wrap_mod16 by lia. pose proof (Z.mod_pos_bound a 16 ltac:(lia)).
    pose proof (Z.mod_pos_bound b 16 ltac:(lia)). apply nibble_carry_test. lia.
  - apply sign_of_wrap. lia.
  - unfold unot. rewrite Z.land_spec, wrap_testbit, Z.lnot_spec, !Z.lxor_spec by lia.
    rewrite !sign_of_wrap by lia. destruct (Z.ltb_spec (n - 1) 64); [|lia].
    cbn [andb]. apply overflow_add; lia.
Qed.

Lemma alu_sub_spec a b c size : valid_elem size -> 0 <= c <= 1 ->
  alu_sub a b c size = sub_spec (bits_of size) a b c.
Proof.
  intros Hs Hc. pose proof (size_bits size Hs) as Hn. unfold alu_sub, sub_spec, wrapping_sub.
  rewrite !land_mask, !test_sign_bit by done. set (n := bits_of size) in *.
  pose proof (wrap_range n a ltac:(lia)) as Ha. pose proof (wrap_range n b ltac:(lia)) as Hb.
  unfold in_width in Ha, Hb.
  assert (Hr : wrap n (wrap 64 (wrap 128 (wrap 128 (wrap n a - wrap n b) - c))) = wrap n (a - b - c)).
  { rewrite wrap_sub_l by lia. rewrite (wrap_wrap_le 64 128), (wrap_wrap_le n 64) by lia.
    apply wrap_diff. lia. }
  rewrite Hr. f_equal.
  - destruct (Z.ltb_spec (wrap n a) (wrap n b + c)), (Z.ltb_spec (wrap n a - wrap n b - c) 0);
      (done || lia).
  - rewrite !land15, !wrap_mod16 by lia.
    destruct (Z.ltb_spec (a mod 16) (b mod 16 + c)), (Z.ltb_spec (a mod 16 - b mod 16 - c) 0);
      (done || lia).
  - apply sign_of_wrap. lia.
  - rewrite Z.land_spec, !Z.lxor_spec, !sign_of_wrap by lia. apply overflow_sub; lia.
Qed.

(** ** Committing flags *)

Lemma apply_all f r : flags_eq (apply_flags f FM_ALL r)
  (set_cf (set_pf (set_af (set_zf (set_sf (set_of_ f (r_of r)) (r_sf r)) (r_zf r)) (r_af r)) (r_pf r)) (r_cf r)).
Proof. apply flags_eq_iff. cbn -[pf af set_pf set_af]. by destruct (r_pf r), (r_af r). Qed.

#[global] Instance eval_cond_proper c : Proper (flags_eq ==> eq) (eval_cond c).
Proof.
  intros f g (E1 & E2 & E3 & E4 & E5 & E6 & E7 & E8)%flags_eq_iff.
  destruct c; simpl; congruence.
Qed.

Lemma diff_zero n a b : 0 <= n -> (wrap n (a - b) =? 0) = (wrap n a =? wrap n b).
Proof.
  intros Hn. pose proof (wrap_range n a Hn) as Ha. pose proof (wrap_range n b Hn) as Hb.
  pose proof (wrap_diff n a b 0 Hn) as Hd. rewrite !Z.sub_0_r in Hd. unfold in_width in *.
  destruct (Z.eqb_spec (wrap n a) (wrap n b)) as [E|E].
  - rewrite <- Hd, E, Z.sub_diag. unfold wrap. by rewrite Z.mod_0_l by (pose proof (pow2_pos n); lia).
  - destruct (Z.eqb_spec (wrap n (a - b)) 0) as [E0|]; [|done]. rewrite <- Hd in E0.
    unfold wrap at 1 in E0. apply Z.mod_divide in E0; [|pose proof (pow2_pos n); lia].
    destruct E0 as [k Hk]. exfalso. assert (k = 0) by nia. lia.
Qed.

Lemma to_signed_eqb n a b : 1 <= n -> (to_signed n a =? to_signed n b) = (wrap n a =? wrap n b).
Proof.
  intros Hn. destruct (Z.eqb_spec (wrap n a) (wrap n b)) as [E|E].
  - rewrite <- to_signed_wrap, E, to_signed_wrap by lia. apply Z.eqb_refl.
  - destruct (Z.eqb_spec (to_signed n a) (to_signed n b)) as [F|]; [|done].
    rewrite <- (wrap_to_signed n a), F, wrap_to_signed in E by lia. done.
Qed.

(** SF differs from OF exactly when the signed comparison is "less". *)
Lemma sf_of_less n a b : 1 <= n ->
  negb (eqb (to_signed n (a - b) <? 0) (negb (fits_signed n (to_signed n a - to_signed n b)))) =
  (to_signed n a <? to_signed n b).
Proof.
  intros Hn. pose proof (wrap_to_signed_diff n a b 0 Hn) as E. rewrite !Z.sub_0_r in E. rewrite E.
  pose proof (to_signed_range n a Hn). pose proof (to_signed_range n b Hn).
  pose proof (pow2_half n Hn). pose proof (pow2_pos (n - 1)).
  rewrite (to_signed_near n (to_signed n a - to_signed n b)) by lia. unfold fits_signed.
  set (A := to_signed n a) in *. set (B := to_signed n b) in *. set (h := 2 ^ (n - 1)) in *.
  destruct (Z.ltb_spec (A - B) (- h)), (Z.leb_spec h (A - B)), (Z.ltb_spec A B),
    (Z.leb_spec (- h) (A - B)), (Z.ltb_spec (A - B) h); try lia; simpl; repeat zcase; try done; lia.
Qed.

(** ** Carry out of bit 3 and the AF source *)

Lemma testbit4 x : Z.testbit x 4 = Z.odd (x / 16).
Proof. rewrite <- Z.bit0_odd. change 16 with (2 ^ 4). by rewrite Z.div_pow2_bits by lia. Qed.

Lemma add_bit4 a b c : 0 <= c <= 1 ->
  xorb (xorb (Z.testbit a 4) (Z.testbit b 4)) (Z.testbit (a + b + c) 4) = (16 <=? a mod 16 + b mod 16 + c).
Proof.
  intros Hc. rewrite !testbit4. pose proof (Z.mod_pos_bound a 16 ltac:(lia)).
  pose proof (Z.mod_pos_bound b 16 ltac:(lia)).
  assert (Hq : (a + b + c) / 16 = a / 16 + b / 16 + (a mod 16 + b mod 16 + c) / 16).
  { rewrite (Z.div_mod a 16) at 1 by lia. rewrite (Z.div_mod b 16) at 1 by lia.
    replace (16 * (a / 16) + a mod 16 + (16 * (b / 16) + b mod 16) + c)
      with (a mod 16 + b mod 16 + c + (a / 16 + b / 16) * 16) by lia.
    rewrite Z.div_add by lia. lia. }
  rewrite Hq, !Z.odd_add. destruct (Z.leb_spec 16 (a mod 16 + b mod 16 + c)).
  - replace ((a mod 16 + b mod 16 + c) / 16) with 1
      by (apply (Z.div_unique _ _ 1 (a mod 16 + b mod 16 + c - 16)); lia).
    simpl. btauto.
  - rewrite (Z.div_small (a mod 16 + b mod 16 + c)) by lia. simpl. btauto.
Qed.

Lemma sub_bit4 a b c : 0 <= c <= 1 ->
  xorb (xorb (Z.testbit a 4) (Z.testbit b 4)) (Z.testbit (a - b - c) 4) = (a mod 16 - b mod 16 - c <? 0).
Proof.
  intros Hc. rewrite !testbit4. pose proof (Z.mod_pos_bound a 16 ltac:(lia)).
  pose proof (Z.mod_pos_bound b 16 ltac:(lia)).
  assert (Hq : (a - b - c) / 16 = a / 16 - b / 16 + (a mod 16 - b mod 16 - c) / 16).
  { rewrite (Z.div_mod a 16) at 1 by lia. rewrite (Z.div_mod b 16) at 1 by lia.
    replace (16 * (a / 16) + a mod 16 - (16 * (b / 16) + b mod 16) - c)
      with (a mod 16 - b mod 16 - c + (a / 16 - b / 16) * 16) by lia.
    rewrite Z.div_add by lia. lia. }
  rewrite Hq, Z.odd_add, Z.odd_sub. destruct (Z.ltb_spec (a mod 16 - b mod 16 - c) 0).
  - replace ((a mod 16 - b mod 16 - c) / 16) with (-1)
      by (apply (Z.div_unique _ _ (-1) (a mod 16 - b mod 16 - c + 16)); lia).
    simpl. btauto.
  - rewrite (Z.div_small (a mod 16 - b mod 16 - c)) by lia. simpl. btauto.
Qed.

(** ** Sign extension *)

Lemma to_signed_shift w s v : 1 <= w -> 0 <= s -> to_signed (w + s) (v * 2 ^ s) = to_signed w v * 2 ^ s.
Proof.
  intros Hw Hs. pose proof (to_signed_range w v Hw). pose proof (pow2_pos s Hs).
  apply to_signed_unique; [lia| |].
  - replace (w + s - 1) with (w - 1 + s) by lia. rewrite pow2_split by lia. nia.
  - unfold wrap. rewrite pow2_split by lia.
    rewrite !Z.mul_mod_distr_r by (pose proof (pow2_pos w); lia). f_equal.
    apply (wrap_to_signed w). lia.
Qed.

Lemma sign_extend_spec v from : valid_elem from -> in_width 64 v ->
  sign_extend v from = wrap 64 (to_signed (bits_of from) v).
Proof.
  intros Hf Hv. pose proof (size_bits from Hf). unfold sign_extend. destruct (Z.leb_spec 8 from).
  - replace (bits_of from) with 64 by lia. rewrite wrap_to_signed by lia. by rewrite wrap_small.
  - f_equal. rewrite to_signed_wrap by lia. rewrite Z.shiftl_mul_pow2 by lia.
    replace 64 with (bits_of from + (64 - from * 8)) at 1 by lia. rewrite to_signed_shift by lia.
    rewrite Z.shiftr_div_pow2 by lia. apply Z.div_mul. pose proof (pow2_pos (64 - from * 8)). lia.
Qed.

Lemma sign_extend_128_spec v bits : 1 <= bits -> sign_extend_128 v bits = to_signed (Z.min bits 128) v.
Proof.
  intros Hb. unfold sign_extend_128. destruct (Z.leb_spec 128 bits); [by rewrite Z.min_r by lia|].
  rewrite Z.min_l by lia. rewrite to_signed_wrap, Z.shiftl_mul_pow2 by lia.
  replace 128 with (bits + (128 - bits)) at 1 by lia. rewrite to_signed_shift by lia.
  rewrite Z.shiftr_div_pow2 by lia. apply Z.div_mul. pose proof (pow2_pos (128 - bits)). lia.
Qed.

(** ** Division *)

Lemma dividend_spec hi lo size : valid_elem size ->
  Z.lor (wrap 128 (Z.shiftl (Z.land hi (mask size)) (size * 8))) (Z.land lo (mask size)) =
  wrap (bits_of size) hi * 2 ^ bits_of size + wrap (bits_of size) lo.
Proof.
  intros Hs. pose proof (size_bits size Hs). rewrite !land_mask by done.
  replace (size * 8) with (bits_of size) by lia.
  pose proof (wrap_range (bits_of size) hi ltac:(lia)) as Hh.
  rewrite (wrap_small 128).
  - apply lor_shifted; [lia|]. apply wrap_range. lia.
  - unfold in_width in *. rewrite Z.shiftl_mul_pow2 by lia.
    assert (2 ^ bits_of size * 2 ^ bits_of size <= 2 ^ 128)
      by (rewrite <- pow2_split by lia; apply Z.pow_le_mono_r; lia).
    pose proof (pow2_pos (bits_of size)). nia.
Qed.

Lemma to_signed_id n x : 1 <= n -> - 2 ^ (n - 1) <= x < 2 ^ (n - 1) -> to_signed n x = x.
Proof. intros. by apply to_signed_unique. Qed.

Lemma divisor_signed d size : valid_elem size ->
  to_signed 64 (sign_extend (Z.land d (mask size)) size) = to_signed (bits_of size) d.
Proof.
  intros Hs. pose proof (size_bits size Hs). rewrite land_mask by done.
  rewrite sign_extend_spec; [|done|].
  - rewrite !to_signed_wrap by lia. pose proof (to_signed_range (bits_of size) d ltac:(lia)).
    assert (2 ^ (bits_of size - 1) <= 2 ^ (64 - 1)) by (apply Z.pow_le_mono_r; lia).
    apply to_signed_id; lia.
  - apply (in_width_mono (bits_of size)); [lia|]. apply wrap_range; lia.
Qed.

Lemma to_signed_zero n x : 1 <= n -> wrap n x <> 0 -> to_signed n x <> 0.
Proof. intros Hn Hx E. apply Hx. rewrite <- wrap_to_signed, E by lia. apply Z.mod_0_l. pose proof (pow2_pos n). lia. Qed.

Lemma divide_exact hi lo d size signed : valid_elem size ->
  divide hi lo d size signed = divide_spec (bits_of size) hi lo d signed.
Proof.
  intros Hs. pose proof (size_bits size Hs) as Hn. unfold divide, divide_spec.
  rewrite dividend_spec by done. rewrite divisor_signed by done. rewrite land_mask by done.
  destruct (Z.eqb_spec (wrap (bits_of size) d) 0) as [|Hd]; [done|].
  set (n := bits_of size) in *. set (D := wrap n hi * 2 ^ n + wrap n lo).
  replace (size * 8) with n by (unfold n; lia). destruct signed.
  - rewrite sign_extend_128_spec by lia. rewrite Z.min_l by lia.
    pose proof (to_signed_zero n d ltac:(lia) Hd) as Hnz.
    unfold checked_div_i128, checked_rem_i128. destruct (Z.eqb_spec (to_signed n d) 0); [done|].
    rewrite Z.shiftl_1_l by lia.
    destruct (Z.eqb_spec (to_signed (2 * n) D) (- 2 ^ 127)) as [E|];
      [destruct (Z.eqb_spec (to_signed n d) (-1)) as [E'|]|]; simpl andb; cbn [andb]; cbv beta iota.
    + rewrite E, E'. unfold fits_signed.
      assert (2 ^ (n - 1) <= 2 ^ 63) by (apply Z.pow_le_mono_r; lia).
      change (Z.quot (- 2 ^ 127) (-1)) with (2 ^ 127).
      destruct (Z.ltb_spec (2 ^ 127) (2 ^ (n - 1))); [lia|]. by rewrite andb_false_r.
    + unfold fits_signed. rewrite !land_mask by done. fold n. rewrite !(wrap_wrap_le n 64) by lia.
      repeat zcase; simpl; (done || lia).
    + unfold fits_signed. rewrite !land_mask by done. fold n. rewrite !(wrap_wrap_le n 64) by lia.
      repeat zcase; simpl; (done || lia).
  - pose proof (wrap_range n hi ltac:(lia)) as Hh. pose proof (wrap_range n lo ltac:(lia)) as Hl.
    pose proof (wrap_range n d ltac:(lia)) as Hdr. unfold in_width in *.
    rewrite mask_ones by done. fold n. rewrite Z.ones_equiv.
    pose proof (Z.mod_pos_bound D (wrap n d) ltac:(lia)).
    assert (H64 : 2 ^ n <= 2 ^ 64) by (apply Z.pow_le_mono_r; lia).
    assert (0 <= D / wrap n d) by (apply Z.div_pos; unfold D; nia).
    destruct (Z.ltb_spec (Z.pred (2 ^ n)) (D / wrap n d)), (Z.ltb_spec (D / wrap n d) (2 ^ n)); try lia; [done|].
    by rewrite !(wrap_small 64) by (unfold in_width; lia).
Qed.

(** ** Rotates *)

Lemma rotl_bits v cnt size : valid_elem size -> in_width (bits_of size) v ->
  rotl v cnt size = rotate_left (bits_of size) v cnt /\ rotr v cnt size = rotate_right (bits_of size) v cnt.
Proof.
  intros [->|[->|[->| ->]]] Hv; unfold rotl, rotr; simpl in *; rewrite ?wrap_small by exact Hv; done.
Qed.

(** The (n+1)-bit ring CF:v of the rotates through carry. *)
Definition ring_bit (n v : Z) (cf : bool) (i : Z) : bool := if i =? n then cf else Z.testbit v i.

Lemma rcl_step n v cf i : 1 <= n <= 64 -> in_width n v -> 0 <= i <= n ->
  let msb := Z.testbit v (n - 1) in
  ring_bit n (Z.land (Z.lor (wrap 64 (Z.shiftl v 1)) (b2z cf)) (Z.ones n)) msb i =
  ring_bit n v cf ((i - 1) mod (n + 1)).
Proof.
  intros Hn Hv Hi. unfold ring_bit.
  destruct (Z.eqb_spec i 0) as [->|].
  - replace ((0 - 1) mod (n + 1)) with n by (apply (Z.mod_unique _ _ (-1)); lia).
    rewrite Z.eqb_refl. destruct (Z.eqb_spec 0 n); [lia|].
    rewrite Z.land_spec, Z.lor_spec, wrap_testbit, Z.shiftl_spec, b2z_testbit by lia.
    rewrite Z.testbit_ones_nonneg by lia. destruct (Z.ltb_spec 0 n); [|lia].
    rewrite (Z.testbit_neg_r v (0 - 1)) by lia. simpl. btauto.
  - rewrite Z.mod_small by lia. destruct (Z.eqb_spec (i - 1) n); [lia|].
    destruct (Z.eqb_spec i n) as [->|]; [done|].
    rewrite Z.land_spec, Z.lor_spec, wrap_testbit, Z.shiftl_spec, b2z_testbit by lia.
    rewrite Z.testbit_ones_nonneg by lia.
    destruct (Z.ltb_spec i n), (Z.ltb_spec i 64), (Z.eqb_spec i 0); try lia. simpl. btauto.
Qed.

Lemma rcr_step n v cf i : 1 <= n <= 64 -> in_width n v -> 0 <= i <= n ->
  let lsb := Z.testbit v 0 in
  ring_bit n (Z.lor (Z.shiftr v 1) (wrap 64 (Z.shiftl (b2z cf) (n - 1)))) lsb i =
  ring_bit n v cf ((i + 1) mod (n + 1)).
Proof.
  intros Hn Hv Hi. unfold ring_bit. destruct (Z.eqb_spec i n) as [->|].
  - rewrite Z.mod_same by lia. destruct (Z.eqb_spec 0 n); [lia|done].
  - rewrite (Z.mod_small (i + 1)) by lia.
    rewrite Z.lor_spec, wrap_testbit, Z.shiftl_spec, Z.shiftr_spec, b2z_testbit by lia.
    destruct (Z.ltb_spec i 64); [|lia]. cbn [andb].
    destruct (Z.eqb_spec (i + 1) n), (Z.eqb_spec (i - (n - 1)) 0); try lia.
    + rewrite (in_width_high n v (i + 1)) by (done || lia). by rewrite andb_true_r.
    + by rewrite andb_false_r, orb_false_r.
Qed.

Lemma rcl_ring cnt v cf size i : valid_elem size -> in_width (bits_of size) v -> 0 <= i <= bits_of size ->
  let n := bits_of size in
  in_width n (rcl cnt v cf size).1 /\
  ring_bit n (rcl cnt v cf size).1 (rcl cnt v cf size).2 i = ring_bit n v cf ((i - Z.of_nat cnt) mod (n + 1)).
Proof.
  intros Hs. pose proof (size_bits size Hs) as Hn. cbv zeta. revert v cf i.
  induction cnt as [|cnt IH]; intros v cf i Hv Hi; cbn [rcl].
  - split; [done|]. by rewrite Z.sub_0_r, Z.mod_small by lia.
  - rewrite test_shifted, mask_ones by (done || lia). replace (size * 8) with (bits_of size) by lia.
    destruct (IH (Z.land (Z.lor (wrap 64 (Z.shiftl v 1)) (b2z cf)) (Z.ones (bits_of size)))
      (Z.testbit v (bits_of size - 1)) i) as [IH1 IH2]; [|done|].
    { rewrite wrap_ones by lia. apply wrap_range. lia. }
    split; [exact IH1|]. rewrite IH2. rewrite rcl_step; [|lia|done|].
    + f_equal. rewrite Zminus_mod_idemp_l. f_equal. lia.
    + pose proof (Z.mod_pos_bound (i - Z.of_nat cnt) (bits_of size + 1)). lia.
Qed.

Lemma rcr_ring cnt v cf size i : valid_elem size -> in_width (bits_of size) v -> 0 <= i <= bits_of size ->
  let n := bits_of size in
  in_width n (rcr cnt v cf size).1 /\
  ring_bit n (rcr cnt v cf size).1 (rcr cnt v cf size).2 i = ring_bit n v cf ((i + Z.of_nat cnt) mod (n + 1)).
Proof.
  intros Hs. pose proof (size_bits size Hs) as Hn. cbv zeta. revert v cf i.
  induction cnt as [|cnt IH]; intros v cf i Hv Hi; cbn [rcr].
  - split; [done|]. by rewrite Z.add_0_r, Z.mod_small by lia.
  - rewrite test_one, <- Z.bit0_odd. replace (size * 8) with (bits_of size) by lia.
    destruct (IH (Z.lor (Z.shiftr v 1) (wrap 64 (Z.shiftl (b2z cf) (bits_of size - 1))))
      (Z.testbit v 0) i) as [IH1 IH2]; [|done|].
    { apply in_width_bits; [lia| |].
      - apply Z.lor_nonneg. split; [apply Z.shiftr_nonneg; by eapply in_width_nonneg|].
        eapply in_width_nonneg, wrap_range. lia.
      - intros j Hj. rewrite Z.lor_spec, Z.shiftr_spec, wrap_testbit, Z.shiftl_spec, b2z_testbit by lia.
        rewrite (in_width_high (bits_of size) v) by (done || lia).
        destruct (Z.eqb_spec (j - (bits_of size - 1)) 0); [lia|]. by rewrite !andb_false_r. }
    split; [exact IH1|]. rewrite IH2. rewrite rcr_step; [|lia|done|].
    + f_equal. rewrite Zplus_mod_idemp_l. f_equal. lia.
    + pose proof (Z.mod_pos_bound (i + Z.of_nat cnt) (bits_of size + 1)). lia.
Qed.

(** ** Bit deposit and extract *)

(** Set bits of [bv] among positions [i .. i+n-1]. *)
Fixpoint ones_in (n : nat) (i bv : Z) : Z :=
  match n with O => 0 | S n' => b2z (Z.testbit bv i) + ones_in n' (i + 1) bv end.

Lemma ones_in_range n i bv : 0 <= ones_in n i bv <= Z.of_nat n.
Proof. revert i. induction n as [|n IH]; intros i; cbn [ones_in]; [lia|]. specialize (IH (i + 1)). destruct (Z.testbit bv i); simpl b2z; lia. Qed.

Lemma land1_b2z x i : 0 <= i -> Z.land (Z.shiftr x i) 1 = b2z (Z.testbit x i).
Proof.
  intros Hi. change 1 with (Z.ones 1). rewrite Z.land_ones by lia. change (2 ^ 1) with 2.
  rewrite <- Z.bit0_mod, Z.shiftr_spec, Z.add_0_l by lia. by destruct (Z.testbit x i).
Qed.

Lemma pdep_loop_bit n i k av bv r j : 0 <= i -> 0 <= k -> 0 <= j ->
  Z.testbit (pdep_loop n i k av bv r) j =
  Z.testbit r j ||
  ((i <=? j) && (j <? i + Z.of_nat n) && Z.testbit bv j &&
   Z.testbit av (k + ones_in (Z.to_nat (j - i)) i bv)).
Proof.
  intros Hi Hk Hj. revert i k r Hi Hk. induction n as [|n IH]; intros i k r Hi Hk; cbn [pdep_loop].
  - destruct (Z.leb_spec i j), (Z.ltb_spec j (i + Z.of_nat 0)); try lia; simpl; btauto.
  - rewrite test_shifted by done. destruct (Z.testbit bv i) eqn:Eb.
    + rewrite IH, Z.lor_spec, land1_b2z, Z.shiftl_spec, b2z_testbit by lia.
      destruct (Z.eqb_spec (j - i) 0).
      * assert (j = i) as -> by lia. rewrite Z.sub_diag. simpl ones_in. rewrite Z.add_0_r, Eb.
        destruct (Z.leb_spec (i + 1) i), (Z.leb_spec i i), (Z.ltb_spec i (i + Z.of_nat (S n))); try lia.
        simpl. btauto.
      * rewrite andb_false_r, orb_false_r. f_equal.
        destruct (Z.leb_spec (i + 1) j), (Z.leb_spec i j); try lia; simpl.
        replace (j <? i + 1 + Z.of_nat n) with (j <? i + Z.of_nat (S n)) by (f_equal; lia). f_equal.
        replace (Z.to_nat (j - i)) with (S (Z.to_nat (j - (i + 1)))) by lia.
        cbn [ones_in]. rewrite Eb. f_equal. simpl b2z. lia.
    + rewrite IH by lia. f_equal. destruct (Z.eqb_spec j i) as [->|].
      * rewrite Eb, !andb_false_r. done.
      * destruct (Z.leb_spec (i + 1) j), (Z.leb_spec i j); try lia; simpl.
        replace (j <? i + 1 + Z.of_nat n) with (j <? i + Z.of_nat (S n)) by (f_equal; lia). f_equal.
        replace (Z.to_nat (j - i)) with (S (Z.to_nat (j - (i + 1)))) by lia.
        cbn [ones_in]. by rewrite Eb.
Qed.

Lemma pext_loop_of_pdep n i k av bv d r : 0 <= i -> 0 <= k ->
  (forall j, i <= j < i + Z.of_nat n -> Z.testbit bv j = true ->
     Z.testbit d j = Z.testbit av (k + ones_in (Z.to_nat (j - i)) i bv)) ->
  pext_loop n i k d bv r = Z.lor r (Z.shiftl (wrap (ones_in n i bv) (Z.shiftr av k)) k).
Proof.
  revert i k r. induction n as [|n IH]; intros i k r Hi Hk Hd; cbn [pext_loop ones_in].
  - unfold wrap. by rewrite Z.mod_1_r, Z.shiftl_0_l, Z.lor_0_r.
  - assert (Hs : forall j, i + 1 <= j < i + 1 + Z.of_nat n ->
      ones_in (Z.to_nat (j - i)) i bv = b2z (Z.testbit bv i) + ones_in (Z.to_nat (j - (i + 1))) (i + 1) bv).
    { intros j Hj. by replace (Z.to_nat (j - i)) with (S (Z.to_nat (j - (i + 1)))) by lia. }
    pose proof (ones_in_range n (i + 1) bv). rewrite test_shifted by done.
    destruct (Z.testbit bv i) eqn:Eb; cbn [b2z] in *.
    + rewrite IH by (try lia; intros j Hj Hb; rewrite Hd, Hs by (done || lia); f_equal; lia).
      rewrite land1_b2z by lia. rewrite (Hd i) by (done || lia). rewrite Z.sub_diag. simpl ones_in.
      rewrite Z.add_0_r. apply Z.bits_inj'. intros j Hj.
      rewrite !Z.lor_spec, !Z.shiftl_spec, b2z_testbit by lia. rewrite <- orb_assoc. f_equal.
      rewrite !wrap_testbit by lia.
      destruct (Z.eqb_spec (j - k) 0); [|destruct (Z.ltb_spec j k)].
      * replace j with k by lia. rewrite (Z.testbit_neg_r _ (k - (k + 1))) by lia.
        rewrite Z.sub_diag, !Z.shiftr_spec by lia.
        destruct (Z.ltb_spec 0 (1 + ones_in n (i + 1) bv)); [|lia].
        rewrite andb_false_r, orb_false_r, andb_true_r. done.
      * rewrite !(Z.testbit_neg_r _ (j - _)) by lia. btauto.
      * rewrite !Z.shiftr_spec by lia. rewrite andb_false_r. simpl.
        replace (j - (k + 1) <? ones_in n (i + 1) bv) with (j - k <? 1 + ones_in n (i + 1) bv)
          by (repeat zcase; (done || lia)).
        do 2 f_equal. lia.
    + rewrite IH by (try lia; intros j Hj Hb; rewrite Hd, Hs by (done || lia); f_equal; lia). done.
Qed.

Lemma ones_in_shift n i x : 0 <= i -> ones_in n (i + 1) x = ones_in n i (Z.shiftr x 1).
Proof.
  revert i. induction n as [|n IH]; intros i Hi; cbn [ones_in]; [done|].
  by rewrite Z.shiftr_spec, IH by lia.
Qed.

Lemma count_ones_step x : 0 <= x -> count_ones x = b2z (Z.odd x) + count_ones (Z.shiftr x 1).
Proof. intros. destruct x as [|[p|p|]|]; simpl; lia. Qed.

Lemma ones_in_count n x : in_width (Z.of_nat n) x -> ones_in n 0 x = count_ones x.
Proof.
  revert x. induction n as [|n IH]; intros x [H0 H1]; cbn [ones_in].
  - simpl in H1. by replace x with 0 by lia.
  - rewrite (ones_in_shift n 0) by lia. rewrite Z.bit0_odd, (count_ones_step x) by done. f_equal.
    apply IH. rewrite Z.shiftr_div_pow2 by lia. change (2 ^ 1) with 2.
    rewrite Nat2Z.inj_succ, Z.pow_succ_r in H1 by lia.
    split; [by apply Z.div_pos|by apply Z.div_lt_upper_bound].
Qed.

(** ** Theorems *)

(** C38: at every operand width, [alu_add] and [alu_sub] compute the modular sum and
    difference (with carry/borrow) and all six flags exactly: CF is the unsigned
    carry/borrow, OF is signed overflow, AF the carry/borrow out of bit 3, SF the
    sign, ZF the zero test and PF the parity of the low byte of the result. *)
Theorem alu_add_sub_exact (a b c size : Z) : valid_elem size -> 0 <= c <= 1 ->
  alu_add a b c size = add_spec (bits_of size) a b c /\
  alu_sub a b c size = sub_spec (bits_of size) a b c.
Proof. intros. split; [by apply alu_add_spec|by apply alu_sub_spec]. Qed.

Lemma alu_add_sub_exact_witness : alu_add 255 1 0 1 = add_spec 8 255 1 0.
Proof. apply (alu_add_sub_exact 255 1 0 1); [unfold valid_elem; lia|lia]. Defined.

(** After a compare ([alu_sub] with all flags committed) each of the sixteen jcc
    conditions decides exactly the relation it names between the operands: the
    unsigned order for b/be/a/ae, the signed order for l/le/g/ge, equality for e/ne,
    and sign, overflow and parity of the difference. *)
Theorem compare_conditions (f : Flags) (a b size : Z) (cond : Cond) : valid_elem size ->
  eval_cond cond (apply_flags f FM_ALL (alu_sub a b 0 size)) = cond_spec (bits_of size) cond a b.
Proof.
  intros Hs. pose proof (size_bits size Hs) as Hn. set (n := bits_of size) in *.
  rewrite (eval_cond_proper cond _ _ (apply_all f _)), alu_sub_spec by (done || lia). fold n.
  pose proof (sf_of_less n a b ltac:(lia)) as Hless.
  pose proof (diff_zero n a b ltac:(lia)) as Hz.
  pose proof (to_signed_eqb n a b ltac:(lia)) as Hse.
  match goal with |- eval_cond _ ?g = _ => set (F := g) end.
  assert (Hcf : cf F = (wrap n a <? wrap n b)) by (cbn; repeat zcase; (done || lia)).
  assert (Hzf : zf F = (wrap n a =? wrap n b)) by (cbn; by rewrite Z.sub_0_r).
  assert (Hsf : sf F = (to_signed n (a - b) <? 0)) by (cbn; by rewrite Z.sub_0_r).
  assert (Hof : of_ F = negb (fits_signed n (to_signed n a - to_signed n b)))
    by (cbn; by rewrite Z.sub_0_r).
  assert (Hpf : pf F = parity (wrap n (a - b))).
  { rewrite <- (Z.sub_0_r (a - b)). apply (pf_set_pf _ (parity _)). }
  assert (Hge : eqb (sf F) (of_ F) = negb (to_signed n a <? to_signed n b))
    by (rewrite Hsf, Hof, <- Hless; by rewrite negb_involutive).
  clearbody F. destruct cond; cbn [eval_cond cond_spec];
    rewrite ?Hge, ?Hcf, ?Hzf, ?Hsf, ?Hof, ?Hpf, ?negb_involutive, <- ?Hse; try done;
    repeat zcase; (done || lia).
Qed.

Lemma compare_conditions_witness :
  eval_cond Less (apply_flags default_flags FM_ALL (alu_sub 0x80 1 0 1)) = true.
Proof. rewrite (compare_conditions default_flags 0x80 1 1 Less); [reflexivity|unfold valid_elem; lia]. Defined.

(** The deferred AF encoding is right: bit 4 of [a ^ b ^ result], the byte the
    compiled code stores as the AF source, equals the AF that [alu_add] and
    [alu_sub] compute, with any carry- or borrow-in. *)
Theorem af_source_encoding (a b c size : Z) : valid_elem size -> 0 <= c <= 1 ->
  Z.testbit (Z.lxor (Z.lxor a b) (r_res (alu_add a b c size))) 4 = r_af (alu_add a b c size) /\
  Z.testbit (Z.lxor (Z.lxor a b) (r_res (alu_sub a b c size))) 4 = r_af (alu_sub a b c size).
Proof.
  intros Hs Hc. pose proof (size_bits size Hs). rewrite alu_add_spec, alu_sub_spec by done.
  cbn [r_res r_af add_spec sub_spec]. rewrite !Z.lxor_spec, !wrap_testbit by lia.
  destruct (Z.ltb_spec 4 (bits_of size)); [|lia]. cbn [andb].
  split; [by apply add_bit4|by apply sub_bit4].
Qed.

Lemma af_source_encoding_witness :
  Z.testbit (Z.lxor (Z.lxor 9 8) (r_res (alu_add 9 8 0 4))) 4 = true.
Proof. rewrite (proj1 (af_source_encoding 9 8 0 4 ltac:(unfold valid_elem; lia) ltac:(lia))). reflexivity. Defined.

(** C39: [divide] is exact division of the double-width dividend: it reports #DE
    ([None]) exactly for a zero divisor or a quotient that does not fit the operand
    (including [i128::MIN / -1]), and otherwise returns the truncated quotient and
    the remainder, signed or unsigned. *)
Theorem divide_correct (hi lo d size : Z) (signed : bool) : valid_elem size ->
  divide hi lo d size signed = divide_spec (bits_of size) hi lo d signed.
Proof. apply divide_exact. Qed.

Lemma divide_correct_witness :
  divide 0x8000000000000000 0 (2 ^ 64 - 1) 8 true = None /\ divide 0 100 7 8 false = Some (14, 2).
Proof.
  split; [rewrite (divide_correct _ _ _ 8 true)|rewrite (divide_correct _ _ _ 8 false)];
    first [unfold valid_elem; lia | reflexivity].
Defined.

(** [rotl]/[rotr] move bit [i] to [i+cnt]/[i-cnt] modulo the operand width, and
    undo each other. *)
Theorem rotates_exact (v cnt size : Z) : valid_elem size -> in_width (bits_of size) v ->
  (forall i, 0 <= i < bits_of size ->
     Z.testbit (rotl v cnt size) i = Z.testbit v ((i - cnt) mod bits_of size) /\
     Z.testbit (rotr v cnt size) i = Z.testbit v ((i + cnt) mod bits_of size)) /\
  rotr (rotl v cnt size) cnt size = v.
Proof.
  intros Hs Hv. pose proof (size_bits size Hs).
  destruct (rotl_bits v cnt size Hs Hv) as [El Er]. split.
  - intros i Hi. rewrite El, Er. by rewrite rotate_left_bit, rotate_right_bit by (done || lia).
  - assert (Hl : in_width (bits_of size) (rotl v cnt size)) by (rewrite El; apply wrap_range; lia).
    destruct (rotl_bits _ cnt size Hs Hl) as [_ ->]. rewrite El. rewrite El in Hl.
    apply Z.bits_inj'. intros i Hi. destruct (Z.ltb_spec i (bits_of size)).
    + rewrite rotate_right_bit by (done || lia).
      rewrite rotate_left_bit by (try done; try lia; apply Z.mod_pos_bound; lia).
      rewrite Zminus_mod_idemp_l. rewrite Z.mod_small by lia. f_equal. lia.
    + rewrite (in_width_high _ v) by (done || lia).
      apply (in_width_high (bits_of size)); [apply wrap_range; lia|lia|lia].
Qed.

Lemma rotates_exact_witness : rotr (rotl 0x81 3 1) 3 1 = 0x81.
Proof. apply (rotates_exact 0x81 3 1); [unfold valid_elem; lia|split; vm_compute; congruence]. Defined.

(** [rcl]/[rcr] rotate the (n+1)-bit ring made of the operand with CF above it,
    for every count: bit [i] of the new ring is bit [i -/+ cnt] of the old one. *)
Theorem rotates_through_carry (cnt : nat) (v size : Z) (cf : bool) (i : Z) :
  valid_elem size -> in_width (bits_of size) v -> 0 <= i <= bits_of size ->
  let n := bits_of size in
  ring_bit n (rcl cnt v cf size).1 (rcl cnt v cf size).2 i = ring_bit n v cf ((i - Z.of_nat cnt) mod (n + 1)) /\
  ring_bit n (rcr cnt v cf size).1 (rcr cnt v cf size).2 i = ring_bit n v cf ((i + Z.of_nat cnt) mod (n + 1)).
Proof. intros. split; [by apply rcl_ring|by apply rcr_ring]. Qed.

Lemma rotates_through_carry_witness : ring_bit 8 (rcl 1 0x80 false 1).1 (rcl 1 0x80 false 1).2 8 = true.
Proof.
  etransitivity; [apply (rotates_through_carry 1 0x80 1 false 8)|reflexivity].
  - unfold valid_elem; lia.
  - split; vm_compute; congruence.
  - lia.
Defined.

(** [pext] undoes [pdep]: extracting through the mask what was deposited through
    the same mask gives back the low bits of the source, as many as the mask has
    set bits. *)
Theorem pext_pdep_round_trip (a b size : Z) : valid_elem size ->
  (bmi_result (bmi_result a b size Pdep).1 b size Pext).1 = wrap (count_ones (wrap (bits_of size) b)) a.
Proof.
  intros Hs. pose proof (size_bits size Hs) as Hn. cbn [bmi_result fst].
  rewrite !land_mask by done. replace (size * 8) with (bits_of size) by lia.
  set (n := bits_of size) in *. set (bv := wrap n b). set (av := wrap n a).
  assert (Hbv : in_width n bv) by (apply wrap_range; lia).
  pose proof (ones_in_range (Z.to_nat n) 0 bv) as Hc. rewrite Z2Nat.id in Hc by lia.
  rewrite (pext_loop_of_pdep (Z.to_nat n) 0 0 av bv); [|lia|lia|].
  - rewrite Z.lor_0_l, Z.shiftl_0_r, Z.shiftr_0_r.
    rewrite ones_in_count in * by (rewrite Z2Nat.id by lia; done).
    rewrite (wrap_small n) by (apply (in_width_mono (count_ones bv)); [lia|apply wrap_range; lia]).
    unfold av. apply wrap_wrap_le. lia.
  - intros j Hj Hb. rewrite Z2Nat.id in Hj by lia. rewrite !wrap_testbit by lia.
    rewrite pdep_loop_bit, Z.testbit_0_l, Hb by lia. rewrite Z2Nat.id by lia.
    by destruct (Z.ltb_spec j n), (Z.leb_spec 0 j), (Z.ltb_spec j (0 + n)); try lia.
Qed.

Lemma pext_pdep_round_trip_witness : (bmi_result (bmi_result 5 0xF0 4 Pdep).1 0xF0 4 Pext).1 = 5.
Proof. rewrite (pext_pdep_round_trip 5 0xF0 4); [reflexivity|unfold valid_elem; lia]. Defined.
