(* ===== verification/Memory.v ===== *)
(** * Guest memory (x86jit-core/src/memory.rs)

    Region tags over one backing buffer, scalar and atomic accesses, and the two
    page-tracking facilities a store feeds: the self-modifying-code (SMC) table with
    its watermark, and the embedder's watched data ranges.

    [None] stands for a panic, an unchecked index or a raw pointer leaving the
    backing buffer (undefined behaviour in the source).  The [SAFETY] comments of the
    source become the theorem that a well-formed memory never reaches it.

    Each function is one atomic step on the shared [Memory]; the compare-and-swap loop
    of [widen_code_range] is taken apart in PageTrack.v. *)

From S2P Require Import Prelude Features State Ir Alu.

(** ** Data *)

Inductive MemoryModel : Type :=
  | Flat (size : Z)
  | Reserved (span : Z)
  | SoftMmu.

(** [Owner]: who frees the buffer; a host mapping may carry a guard-page hook. *)
Inductive Owner : Type :=
  | Boxed
  | Host (protect_hook : bool).

(** The bytes are kept by backing offset; an absent key is a zero byte.
    [b_protect_calls] records the calls of the embedder's [protect] hook in order. *)
Record Backing : Type := mkBacking {
  b_ptr : Z;
  b_len : Z;
  b_guest_base : Z;
  b_owner : Owner;
  b_bytes : gmap Z Z;
  b_protect_calls : list (Z * Z * bool);
}.

Inductive Prot : Type := R | RW | RX | RWX.
Inductive RegionKind : Type := Ram | TrapRegion | Rom.
Inductive MemTrap : Type := Unmapped | Mmio.
Inductive MapError : Type := Overlap | OutOfBounds | BadAlign.
Inductive MemError : Type := MemUnmapped | Protection.

#[global] Instance RegionKind_eq_dec : EqDecision RegionKind.
Proof. solve_decision. Defined.

Record Region : Type := mkMemRegion {
  start : Z;
  size : Z;
  prot : Prot;
  kind : RegionKind;
}.

(** [watch], [dirty]: page bitsets, 64 pages per word; [words]: the sorted
    [BTreeSet] of word indices holding a watched page. *)
Record WatchPages : Type := mkWatch {
  w_watch : list Z;
  w_dirty : list Z;
  w_words : list Z;
  w_count : Z;
}.

Record Memory : Type := mkMemory {
  model : MemoryModel;
  backing : Backing;
  regions : list Region;
  code_page : list Z;
  code_range : Z;
  dirty : list Z;
  dirty_flag : bool;
  watch : WatchPages;
  m_guest_base : Z;
  last_region : nat;
}.

Definition set_model (m : Memory) (v : MemoryModel) : Memory :=
  mkMemory v (backing m) (regions m) (code_page m) (code_range m) (dirty m) (dirty_flag m)
    (watch m) (m_guest_base m) (last_region m).
Definition set_backing (m : Memory) (v : Backing) : Memory :=
  mkMemory (model m) v (regions m) (code_page m) (code_range m) (dirty m) (dirty_flag m)
    (watch m) (m_guest_base m) (last_region m).
Definition set_regions (m : Memory) (v : list Region) : Memory :=
  mkMemory (model m) (backing m) v (code_page m) (code_range m) (dirty m) (dirty_flag m)
    (watch m) (m_guest_base m) (last_region m).
Definition set_code_page (m : Memory) (v : list Z) : Memory :=
  mkMemory (model m) (backing m) (regions m) v (code_range m) (dirty m) (dirty_flag m)
    (watch m) (m_guest_base m) (last_region m).
Definition set_code_range (m : Memory) (v : Z) : Memory :=
  mkMemory (model m) (backing m) (regions m) (code_page m) v (dirty m) (dirty_flag m) (watch
    m) (m_guest_base m) (last_region m).
Definition set_dirty (m : Memory) (v : list Z) : Memory :=
  mkMemory (model m) (backing m) (regions m) (code_page m) (code_range m) v (dirty_flag m)
    (watch m) (m_guest_base m) (last_region m).
Definition set_dirty_flag (m : Memory) (v : bool) : Memory :=
  mkMemory (model m) (backing m) (regions m) (code_page m) (code_range m) (dirty m) v (watch
    m) (m_guest_base m) (last_region m).
Definition set_watch (m : Memory) (v : WatchPages) : Memory :=
  mkMemory (model m) (backing m) (regions m) (code_page m) (code_range m) (dirty m)
    (dirty_flag m) v (m_guest_base m) (last_region m).
Definition set_m_guest_base (m : Memory) (v : Z) : Memory :=
  mkMemory (model m) (backing m) (regions m) (code_page m) (code_range m) (dirty m)
    (dirty_flag m) (watch m) v (last_region m).
Definition set_last_region (m : Memory) (v : nat) : Memory :=
  mkMemory (model m) (backing m) (regions m) (code_page m) (code_range m) (dirty m)
    (dirty_flag m) (watch m) (m_guest_base m) v.

Definition CODE_PAGE_BITS : Z := 12.
Definition CODE_PAGE_SIZE : Z := 4096.
Definition MAX_TRACKED_SPAN : Z := Z.shiftl (2 ^ 32 - 1) CODE_PAGE_BITS.
Definition HOST_PAGE : Z := 4096.

(** ** Backing buffer *)

Definition get_byte (bs : gmap Z Z) (i : Z) : Z := default 0 (bs !! i).
Definition load_bytes (bs : gmap Z Z) (off : Z) (n : nat) : list Z :=
  get_byte bs <$> zseq off n.
Fixpoint store_bytes (bs : gmap Z Z) (off : Z) (l : list Z) : gmap Z Z :=
  match l with
  | [] => bs
  | b :: l' => store_bytes (<[off := b]> bs) (off + 1) l'
  end.

Definition set_bytes (b : Backing) (bs : gmap Z Z) : Backing :=
  mkBacking (b_ptr b) (b_len b) (b_guest_base b) (b_owner b) bs (b_protect_calls b).

(** [Backing::boxed] of a zero-filled buffer; [ptr] is where the allocator put it. *)
Definition boxed (ptr len : Z) (bs : gmap Z Z) : Backing := mkBacking ptr len 0 Boxed bs [].

Definition is_host (b : Backing) : bool :=
  match b_owner b with Host _ => true | Boxed => false end.

(** [&backing[lo..hi]]: out of range panics. *)
Definition as_slice_range (b : Backing) (lo hi : Z) : option (list Z) :=
  if (0 <=? lo) && (lo <=? hi) && (hi <=? b_len b)
  then Some (load_bytes (b_bytes b) lo (Z.to_nat (hi - lo))) else None.

(** [copy_in]: the range must lie inside the backing. *)
Definition copy_in (b : Backing) (off : Z) (l : list Z) : option Backing :=
  if (0 <=? off) && (off + Z.of_nat (length l) <=? b_len b)
  then Some (set_bytes b (store_bytes (b_bytes b) off l)) else None.

Definition protect (b : Backing) (off len : Z) (accessible : bool) : Backing :=
  match b_owner b with
  | Host true =>
      mkBacking (b_ptr b) (b_len b) (b_guest_base b) (b_owner b) (b_bytes b)
        (b_protect_calls b ++ [(off, len, accessible)])
  | _ => b
  end.

(** *** Raw accesses through [ptr + off] *)

Definition raw_read (b : Backing) (off n : Z) : option Z :=
  if (0 <=? off) && (off + n <=? b_len b)
  then Some (from_le_bytes (load_bytes (b_bytes b) off (Z.to_nat n))) else None.
Definition raw_write (b : Backing) (off val n : Z) : option Backing :=
  if (0 <=? off) && (off + n <=? b_len b)
  then Some (set_bytes b (store_bytes (b_bytes b) off (to_le_bytes (Z.to_nat n) val)))
  else None.

(** [ptr as usize % n == 0] *)
Definition aligned (b : Backing) (off n : Z) : bool := (b_ptr b + off) mod n =? 0.

(** An 8-byte stack buffer is filled: a larger size would overrun it. *)
Definition plain_read (b : Backing) (off size : Z) : option Z :=
  if size <=? 8 then raw_read b off size else None.
Definition plain_write (b : Backing) (off val size : Z) : option Backing :=
  if size <=? 8 then raw_write b off val size else None.

Definition atomic_load_le (b : Backing) (off size : Z) : option Z :=
  if size =? 1 then raw_read b off 1
  else if (size =? 2) && aligned b off 2 then raw_read b off 2
  else if (size =? 4) && aligned b off 4 then raw_read b off 4
  else if (size =? 8) && aligned b off 8 then raw_read b off 8
  else plain_read b off size.

Definition atomic_store_le (b : Backing) (off val size : Z) : option Backing :=
  if size =? 1 then raw_write b off (wrap 8 val) 1
  else if (size =? 2) && aligned b off 2 then raw_write b off (wrap 16 val) 2
  else if (size =? 4) && aligned b off 4 then raw_write b off (wrap 32 val) 4
  else if (size =? 8) && aligned b off 8 then raw_write b off val 8
  else plain_write b off val size.

(** The [u<w>] host atomics of the [rmw!] macro: [fetch_add] and friends wrap at the
    access width.  The reverse-subtract CAS loop commits [s - cur] for the [cur] it
    observed. *)
Definition host_fetch (w old s : Z) (op : RmwOp) : Z :=
  match op with
  | RmwAdd => wrapping_add w old s
  | RmwSub => wrapping_sub w old s
  | RmwRsub => wrapping_sub w s old
  | RmwAnd => Z.land old s
  | RmwOr => Z.lor old s
  | RmwXor => Z.lxor old s
  | RmwXchg => s
  end.

(** One instance of [rmw!]: [n] is [size_of::<$int>()]. *)
Definition rmw_at (b : Backing) (off src size n : Z) (op : RmwOp) : option (Z * Backing) :=
  if aligned b off n then
    old ← raw_read b off n;
    b' ← raw_write b off (host_fetch (8 * n) old (wrap (8 * n) src) op) n;
    Some (old, b')
  else
    old ← plain_read b off size;
    b' ← plain_write b off (apply_rmw old src op size) size;
    Some (old, b').

Definition atomic_rmw_raw (b : Backing) (off src size : Z) (op : RmwOp) : option (Z * Backing) :=
  if size =? 1 then rmw_at b off src size 1 op
  else if size =? 2 then rmw_at b off src size 2 op
  else if size =? 4 then rmw_at b off src size 4 op
  else rmw_at b off src size 8 op.

Definition cas_at (b : Backing) (off expected src size n : Z) : option (Z * Backing) :=
  if aligned b off n then
    old ← raw_read b off n;
    if old =? wrap (8 * n) expected
    then b' ← raw_write b off (wrap (8 * n) src) n; Some (old, b')
    else Some (old, b)
  else
    old ← plain_read b off size;
    if old =? expected then b' ← plain_write b off src size; Some (old, b')
    else Some (old, b).

Definition atomic_cas_raw (b : Backing) (off expected src size : Z) : option (Z * Backing) :=
  if size =? 1 then cas_at b off expected src size 1
  else if size =? 2 then cas_at b off expected src size 2
  else if size =? 4 then cas_at b off expected src size 4
  else cas_at b off expected src size 8.

(** ** Page bitsets *)

(** The pages [[addr, addr+len)] touches, as the ascending list of their indices. *)
Definition code_page_range (addr len : Z) : list Z :=
  let last := saturating_add 64 addr (Z.max len 1 - 1) in
  let lo := Z.shiftr addr CODE_PAGE_BITS in
  zseq lo (Z.to_nat (Z.shiftr last CODE_PAGE_BITS - lo + 1)).

Definition word_bit (page : Z) : Z * Z :=
  (Z.shiftr page 6, wrap 64 (Z.shiftl 1 (Z.land page 63))).

Definition zeroed_words (words : Z) : list Z := replicate (Z.to_nat words) 0.

(** [t.get(w).is_some_and(|x| x & m != 0)] *)
Definition bit_get (t : list Z) (page : Z) : bool :=
  let (w, m) := word_bit page in
  match nthZ t w with Some x => test x m | None => false end.
(** [fetch_or(m)] / [fetch_and(!m)] on the word of a page; out of range no-ops. *)
Definition bit_set (t : list Z) (page : Z) : list Z :=
  let (w, m) := word_bit page in
  match nthZ t w with
  | Some x => <[Z.to_nat w := Z.lor x m]> t
  | None => t
  end.
Definition bit_clear (t : list Z) (page : Z) : list Z :=
  let (w, m) := word_bit page in
  match nthZ t w with
  | Some x => <[Z.to_nat w := Z.land x (unot 64 m)]> t
  | None => t
  end.

(** [BTreeSet::insert] / [remove] on the sorted element list. *)
Fixpoint btree_insert (x : Z) (l : list Z) : list Z :=
  match l with
  | [] => [x]
  | y :: l' => if x <? y then x :: l else if x =? y then l else y :: btree_insert x l'
  end.
Definition btree_remove (x : Z) (l : list Z) : list Z := filter (fun y => y <> x) l.

(** *** [WatchPages] *)

Definition watch_new (span : Z) : WatchPages :=
  let pages := div_ceil span CODE_PAGE_SIZE in
  let words := div_ceil pages 64 in
  mkWatch (zeroed_words words) (zeroed_words words) [] 0.

Definition is_watched (w : WatchPages) (page : Z) : bool := bit_get (w_watch w) page.

Definition mark_dirty (w : WatchPages) (page : Z) : WatchPages :=
  let (i, m) := word_bit page in
  match nthZ (w_dirty w) i with
  | Some x =>
      if Z.land x m =? 0
      then mkWatch (w_watch w) (<[Z.to_nat i := Z.lor x m]> (w_dirty w)) (w_words w) (w_count w)
      else w
  | None => w
  end.

Definition watch_page (w : WatchPages) (page : Z) : WatchPages :=
  let (i, m) := word_bit page in
  match nthZ (w_watch w) i with
  | None => w
  | Some x =>
      let watch' := <[Z.to_nat i := Z.lor x m]> (w_watch w) in
      if Z.land x m =? 0
      then mkWatch watch' (w_dirty w) (btree_insert i (w_words w)) (wrapping_add 64 (w_count w) 1)
      else mkWatch watch' (w_dirty w) (w_words w) (w_count w)
  end.

Definition unwatch_page (w : WatchPages) (page : Z) : option WatchPages :=
  let (i, m) := word_bit page in
  match nthZ (w_watch w) i with
  | None => Some w
  | Some x =>
      let x' := Z.land x (unot 64 m) in
      let watch' := <[Z.to_nat i := x']> (w_watch w) in
      if negb (Z.land x m =? 0) then
        d ← nthZ (w_dirty w) i;
        let dirty' := <[Z.to_nat i := Z.land d (unot 64 m)]> (w_dirty w) in
        let words' := if x' =? 0 then btree_remove i (w_words w) else w_words w in
        Some (mkWatch watch' dirty' words' (wrapping_sub 64 (w_count w) 1))
      else Some (mkWatch watch' (w_dirty w) (w_words w) (w_count w))
  end.

(** [while bits != 0]: the lowest set bit is reported and cleared. A 64-bit word has
    at most 64 of them. *)
Fixpoint drain_word (fuel : nat) (w bits : Z) : list Z :=
  match fuel with
  | O => []
  | S fuel' =>
      if bits =? 0 then []
      else Z.lor (Z.shiftl w 6) (trailing_zeros 64 bits) :: drain_word fuel' w (Z.land bits (bits - 1))
  end.

Fixpoint drain_words (ws : list Z) (d : list Z) : option (list Z * list Z) :=
  match ws with
  | [] => Some ([], d)
  | w :: ws' =>
      bits ← nthZ d w;
      '(pages, d') ← drain_words ws' (<[Z.to_nat w := 0]> d);
      Some (drain_word 64 w bits ++ pages, d')
  end.

Definition watch_take_dirty (w : WatchPages) : option (list Z * WatchPages) :=
  if w_count w =? 0 then Some ([], w)
  else
    '(pages, d) ← drain_words (w_words w) (w_dirty w);
    Some (pages, mkWatch (w_watch w) d (w_words w) (w_count w)).

(** ** Construction *)

Definition fresh_code_pages (span : Z) : option (list Z) :=
  if span <=? MAX_TRACKED_SPAN
  then Some (zeroed_words (div_ceil (div_ceil span CODE_PAGE_SIZE) 64))
  else None.

Definition from_backing (mo : MemoryModel) (b : Backing) : option Memory :=
  let guest_base := b_guest_base b in
  let top := saturating_add 64 guest_base (b_len b) in
  cp ← fresh_code_pages top;
  Some (mkMemory mo b [] cp 0 [] false (watch_new top) guest_base 0).

(** [ptr] is the address the allocator returns for the zeroed buffer. *)
Definition new (ptr : Z) (mo : MemoryModel) : option Memory :=
  match mo with
  | Flat sz | Reserved sz => from_backing mo (boxed ptr sz ∅)
  | SoftMmu => from_backing mo (boxed ptr 0 ∅)
  end.

Definition model_span (mo : MemoryModel) : Z :=
  match mo with Flat sz | Reserved sz => sz | SoftMmu => 0 end.

Definition from_host_ram (mo : MemoryModel) (ram : Backing) : option Memory :=
  let span := model_span mo in
  if negb (b_guest_base ram <=? span) then None
  else
    let extent := span - b_guest_base ram in
    if negb (extent <=? b_len ram) then None
    else from_backing mo ram.

Definition mem_size (m : Memory) : Z := model_span (model m).

(** [r.start + r.size as u64]: a release-build sum wraps. *)
Definition region_end (r : Region) : Z := wrap 64 (start r + size r).

Fixpoint copy_regions (rs : list Region) (src : Backing) (child : Backing) : option Backing :=
  match rs with
  | [] => Some child
  | r :: rs' =>
      let s := start r in
      let e := region_end r in
      bytes ← as_slice_range src s e;
      child' ← copy_in child s bytes;
      copy_regions rs' src child'
  end.

Definition deep_copy (m : Memory) (ptr : Z) : option (option Memory) :=
  if negb (m_guest_base m =? 0) then Some None
  else
    match model m, b_owner (backing m) with
    | Reserved _, Host _ => Some None
    | Reserved span, Boxed | Flat span, Host _ =>
        child ← copy_regions (regions m) (backing m) (boxed ptr span ∅);
        m' ← from_backing (model m) child;
        Some (Some (set_regions m' (regions m)))
    | _, _ =>
        m' ← from_backing (model m) (boxed ptr (b_len (backing m)) (b_bytes (backing m)));
        Some (Some (set_regions m' (regions m)))
    end.

(** ** Self-modifying-code tracking *)

(** One turn of the [widen_code_range] loop on the value it loaded: [None] returns
    without a store, [Some packed] is the value it tries to swap in. *)
Definition widen_next (cur p : Z) : option Z :=
  let lo := Z.shiftr cur 32 in
  let len := Z.land cur 0xffffffff in
  if negb (len =? 0) && (wrapping_sub 64 p lo <? len) then None
  else
    let (want_lo, want_hi) :=
      if len =? 0 then (p, p) else (lo + 1, lo + len - 1) in
    let new_lo := Z.min want_lo p in
    let new_hi := Z.max want_hi p in
    let packed := Z.lor (wrap 64 (Z.shiftl (saturating_sub new_lo 1) 32)) (new_hi - new_lo + 2) in
    if packed =? cur then None else Some packed.

(** Run alone, the compare-and-swap succeeds on the value just loaded. *)
Definition widen_code_range (m : Memory) (p : Z) : Memory :=
  match widen_next (code_range m) p with
  | Some packed => set_code_range m packed
  | None => m
  end.

Definition mark_code_page (m : Memory) (page : Z) : Memory :=
  let (w, _) := word_bit page in
  match nthZ (code_page m) w with
  | Some _ => widen_code_range (set_code_page m (bit_set (code_page m) page)) page
  | None => m
  end.

Definition mark_code (m : Memory) (addr len : Z) : Memory :=
  foldl mark_code_page m (code_page_range addr len).

Definition clear_code_page (m : Memory) (page : Z) : Memory :=
  set_code_page m (bit_clear (code_page m) page).

Definition clear_all_code_pages (m : Memory) : Memory :=
  set_code_page m ((fun _ => 0) <$> code_page m).

Definition is_code_page (m : Memory) (p : Z) : bool := bit_get (code_page m) p.

Definition note_write_page (watched : bool) (m : Memory) (page : Z) : Memory :=
  let m :=
    if is_code_page m page
    then set_dirty_flag (set_dirty m (dirty m ++ [page])) true else m in
  if watched && is_watched (watch m) page then set_watch m (mark_dirty (watch m) page) else m.

Definition note_write (m : Memory) (addr len : Z) : Memory :=
  let watched := negb (w_count (watch m) =? 0) in
  foldl (note_write_page watched) m (code_page_range addr len).

Definition has_dirty_code (m : Memory) : bool := dirty_flag m.

Definition take_dirty_code (m : Memory) : list Z * Memory :=
  if negb (dirty_flag m) then ([], m)
  else (dirty m, set_dirty (set_dirty_flag m false) []).

(** ** Watched data ranges *)

Definition watch_bits_cover_size (m : Memory) : bool :=
  let top_page := Z.shiftr (saturating_sub (mem_size m) 1) CODE_PAGE_BITS in
  Z.shiftr top_page 6 <? Z.of_nat (length (w_watch (watch m))).

Definition watch_range (m : Memory) (addr sz : Z) : Memory :=
  set_watch m (foldl watch_page (watch m) (code_page_range addr sz)).

Fixpoint unwatch_pages (w : WatchPages) (pages : list Z) : option WatchPages :=
  match pages with
  | [] => Some w
  | p :: ps => w' ← unwatch_page w p; unwatch_pages w' ps
  end.

Definition unwatch_range (m : Memory) (addr sz : Z) : option Memory :=
  w ← unwatch_pages (watch m) (code_page_range addr sz);
  Some (set_watch m w).

(** The coalescing loop; [out] is kept reversed, its head is [out.last_mut()]. *)
Definition coalesce_step (out : list (Z * Z)) (p : Z) : list (Z * Z) :=
  let start := wrap 64 (Z.shiftl p CODE_PAGE_BITS) in
  match out with
  | (a, l) :: out' =>
      if start =? wrapping_add 64 a l
      then (a, wrapping_add 64 l CODE_PAGE_SIZE) :: out'
      else (start, CODE_PAGE_SIZE) :: out
  | [] => [(start, CODE_PAGE_SIZE)]
  end.

Definition take_dirty_ranges (m : Memory) : option (list (Z * Z) * Memory) :=
  '(pages, w) ← watch_take_dirty (watch m);
  Some (rev (foldl coalesce_step [] pages), set_watch m w).

(** ** Regions *)

Definition highest_mapped_below (m : Memory) (limit : Z) : Z :=
  foldr Z.max 0 ((fun r => Z.min (region_end r) limit) <$>
                   filter (fun r => start r < limit) (regions m)).

(** [r.start <= addr && end <= r.start + r.size] *)
Definition contains (addr e : Z) (r : Region) : bool :=
  (start r <=? addr) && (e <=? region_end r).

Definition region_for (m : Memory) (addr len : Z) : option Region :=
  e ← checked_add 64 addr len;
  p ← list_find (fun r => contains addr e r = true) (regions m);
  Some p.2.

Definition host_off (m : Memory) (addr : Z) : Z := wrapping_sub 64 addr (m_guest_base m).

Definition host_ram_ptr (m : Memory) (addr len : Z) : option Z :=
  match region_for m addr len with
  | Some r =>
      match kind r with
      | Ram => if is_host (backing m) then Some (b_ptr (backing m) + host_off m addr) else None
      | _ => None
      end
  | None => None
  end.

Definition trap_window (m : Memory) : option (Z * Z) :=
  let (lo, hi) :=
    foldl (fun acc r =>
             match kind r with
             | TrapRegion => (Z.min acc.1 (start r), Z.max acc.2 (saturating_add 64 (start r) (size r)))
             | _ => acc
             end) (2 ^ 64 - 1, 0) (regions m) in
  if lo <? hi then Some (lo, hi) else None.

(** The page-by-page closing loop of [reprotect]; [n] counts the pages in
    [[page, hi)]. *)
Fixpoint reprotect_close (n : nat) (page cap base : Z) (rs : list Region) (b : Backing) : Backing :=
  match n with
  | O => b
  | S n' =>
      let pend := Z.min (page + HOST_PAGE) cap in
      let shared := existsb (fun r =>
        let rlo := saturating_sub (start r) base in
        let rhi := saturating_sub (region_end r) base in
        (rlo <? pend) && (page <? rhi)) rs in
      let b := if negb shared && (page <? pend) then protect b page (pend - page) false else b in
      reprotect_close n' (page + HOST_PAGE) cap base rs b
  end.

Definition reprotect (m : Memory) (st sz : Z) (accessible : bool) : Memory :=
  let b := backing m in
  let cap := b_len b in
  let base := m_guest_base m in
  let ostart := saturating_sub st base in
  let oend := Z.min (saturating_sub (saturating_add 64 st sz) base) cap in
  let lo := ostart / HOST_PAGE * HOST_PAGE in
  let hi := div_ceil oend HOST_PAGE * HOST_PAGE in
  if hi <=? lo then m
  else if accessible then set_backing m (protect b lo (Z.min hi cap - lo) true)
  else set_backing m (reprotect_close (Z.to_nat ((hi - lo) / HOST_PAGE)) lo cap base (regions m) b).

(** [None] is the [todo!] of the unimplemented [SoftMmu] model. *)
Definition map (m : Memory) (guest_addr sz : Z) (pr : Prot) (kd : RegionKind)
    : option (Result unit MapError * Memory) :=
  match model m with
  | Flat total | Reserved total =>
      Some
        (if guest_addr <? m_guest_base m then (Err OutOfBounds, m)
         else
           match checked_add 64 guest_addr sz with
           | None => (Err OutOfBounds, m)
           | Some e =>
               if total <? e then (Err OutOfBounds, m)
               else if existsb (fun r => (guest_addr <? region_end r) && (start r <? e)) (regions m)
               then (Err Overlap, m)
               else
                 let m := set_regions m (regions m ++ [mkMemRegion guest_addr sz pr kd]) in
                 (Ok tt, reprotect m guest_addr sz true)
           end)
  | SoftMmu => None
  end.

Definition unmap (m : Memory) (guest_addr sz : Z) : Result unit MapError * Memory :=
  match list_find (fun r => start r = guest_addr /\ size r = sz) (regions m) with
  | Some (pos, _) =>
      let m := set_regions m (delete pos (regions m)) in
      (Ok tt, reprotect m guest_addr sz false)
  | None => (Err OutOfBounds, m)
  end.

(** ** Wide and host-side accesses *)

Definition write_bytes (m : Memory) (guest_addr : Z) (bytes : list Z)
    : option (Result unit MemError * Memory) :=
  match region_for m guest_addr (Z.of_nat (length bytes)) with
  | None => Some (Err MemUnmapped, m)
  | Some _ =>
      b ← copy_in (backing m) (host_off m guest_addr) bytes;
      Some (Ok tt, note_write (set_backing m b) guest_addr (Z.of_nat (length bytes)))
  end.

Definition read_bytes (m : Memory) (guest_addr len : Z) : option (Result (list Z) MemError) :=
  match region_for m guest_addr len with
  | None => Some (Err MemUnmapped)
  | Some _ =>
      let st := host_off m guest_addr in
      l ← as_slice_range (backing m) st (st + len);
      Some (Ok l)
  end.

Definition read_ram_guest (m : Memory) (addr len : Z) : option (option (list Z)) :=
  match region_for m addr len with
  | Some r =>
      match kind r with
      | Ram | Rom =>
          let st := host_off m addr in
          l ← as_slice_range (backing m) st (st + len);
          Some (Some l)
      | TrapRegion => Some None
      end
  | None => Some None
  end.

Definition write_ram_guest (m : Memory) (addr : Z) (bytes : list Z) : option (bool * Memory) :=
  match region_for m addr (Z.of_nat (length bytes)) with
  | Some r =>
      match kind r with
      | Rom => Some (true, m)
      | Ram =>
          b ← copy_in (backing m) (host_off m addr) bytes;
          Some (true, note_write (set_backing m b) addr (Z.of_nat (length bytes)))
      | TrapRegion => Some (false, m)
      end
  | None => Some (false, m)
  end.

(** ** Scalar and atomic accesses *)

(** The [last_region] hint is tried first and refreshed by a scan that hits. *)
Definition region_at (m : Memory) (addr sz : Z) : Result Region MemTrap * Memory :=
  match checked_add 64 addr sz with
  | None => (Err Unmapped, m)
  | Some e =>
      let scan :=
        match list_find (fun r => contains addr e r = true) (regions m) with
        | Some (i, r) => (Ok r, set_last_region m i)
        | None => (Err Unmapped, m)
        end in
      match regions m !! last_region m with
      | Some r => if contains addr e r then (Ok r, m) else scan
      | None => scan
      end
  end.

Definition probe_write (m : Memory) (addr sz : Z) : Result unit MemTrap * Memory :=
  match region_at m addr sz with
  | (Ok r, m) => match kind r with TrapRegion => (Err Mmio, m) | _ => (Ok tt, m) end
  | (Err t, m) => (Err t, m)
  end.

Definition read (m : Memory) (addr sz : Z) : option (Result Z MemTrap * Memory) :=
  match region_at m addr sz with
  | (Err t, m) => Some (Err t, m)
  | (Ok r, m) =>
      match kind r with
      | TrapRegion => Some (Err Mmio, m)
      | _ => v ← atomic_load_le (backing m) (host_off m addr) sz; Some (Ok v, m)
      end
  end.

Definition code_slice (m : Memory) (addr max_len : Z) : option (Result (list Z) MemTrap) :=
  match list_find (fun r => start r <= addr /\ addr < region_end r) (regions m) with
  | None => Some (Err Unmapped)
  | Some (_, r) =>
      let e := Z.min (saturating_add 64 addr max_len) (region_end r) in
      l ← as_slice_range (backing m) (host_off m addr) (host_off m e);
      Some (Ok l)
  end.

Definition write (m : Memory) (addr val sz : Z) : option (Result unit MemTrap * Memory) :=
  match region_at m addr sz with
  | (Err t, m) => Some (Err t, m)
  | (Ok r, m) =>
      match kind r with
      | TrapRegion => Some (Err Mmio, m)
      | Rom => Some (Ok tt, m)
      | Ram =>
          b ← atomic_store_le (backing m) (host_off m addr) val sz;
          Some (Ok tt, note_write (set_backing m b) addr sz)
      end
  end.

Definition atomic_rmw (m : Memory) (addr src sz : Z) (op : RmwOp)
    : option (Result Z MemTrap * Memory) :=
  match region_at m addr sz with
  | (Err t, m) => Some (Err t, m)
  | (Ok r, m) =>
      match kind r with
      | TrapRegion => Some (Err Mmio, m)
      | Rom =>
          v ← atomic_load_le (backing m) (host_off m addr) sz;
          Some (Ok (Z.land v (mask_bits sz)), m)
      | Ram =>
          '(old, b) ← atomic_rmw_raw (backing m) (host_off m addr) src sz op;
          Some (Ok (Z.land old (mask_bits sz)), note_write (set_backing m b) addr sz)
      end
  end.

Definition atomic_cas (m : Memory) (addr expected src sz : Z)
    : option (Result Z MemTrap * Memory) :=
  match region_at m addr sz with
  | (Err t, m) => Some (Err t, m)
  | (Ok r, m) =>
      match kind r with
      | TrapRegion => Some (Err Mmio, m)
      | Rom =>
          v ← atomic_load_le (backing m) (host_off m addr) sz;
          Some (Ok (Z.land v (mask_bits sz)), m)
      | Ram =>
          '(old, b) ← atomic_cas_raw (backing m) (host_off m addr)
                        (Z.land expected (mask_bits sz)) src sz;
          Some (Ok (Z.land old (mask_bits sz)), note_write (set_backing m b) addr sz)
      end
  end.

(** ** Bytes *)

Lemma get_store_bytes bs off l i :
  get_byte (store_bytes bs off l) i =
    if (off <=? i) && (i <? off + Z.of_nat (length l))
    then nth (Z.to_nat (i - off)) l 0 else get_byte bs i.
Proof.
  revert bs off. induction l as [|b l IH]; intros bs off; cbn [store_bytes length].
  - destruct (Z.leb_spec off i), (Z.ltb_spec i (off + Z.of_nat 0)); (done || lia).
  - rewrite IH. unfold get_byte at 1.
    destruct (Z.leb_spec (off + 1) i), (Z.ltb_spec i (off + 1 + Z.of_nat (length l))),
      (Z.leb_spec off i), (Z.ltb_spec i (off + Z.of_nat (S (length l)))); try lia; simpl.
    + replace (Z.to_nat (i - off)) with (S (Z.to_nat (i - (off + 1)))) by lia. done.
    + rewrite lookup_insert_ne by lia. done.
    + replace i with off by lia. rewrite lookup_insert_eq, Z.sub_diag. done.
    + rewrite lookup_insert_ne by lia. done.
Qed.

Lemma length_load_bytes bs off n : length (load_bytes bs off n) = n.
Proof.
  unfold load_bytes. rewrite length_fmap. revert off. induction n; intros; simpl; f_equal; auto.
Qed.

Lemma lookup_zseq lo n i : (i < n)%nat -> zseq lo n !! i = Some (lo + Z.of_nat i).
Proof.
  revert lo i. induction n as [|n IH]; intros lo [|i] Hi; simpl; try lia.
  - by rewrite Z.add_0_r.
  - rewrite IH by lia. f_equal. lia.
Qed.

Lemma load_bytes_ext bs bs' off n :
  (forall i, off <= i < off + Z.of_nat n -> get_byte bs i = get_byte bs' i) ->
  load_bytes bs off n = load_bytes bs' off n.
Proof.
  intros H. unfold load_bytes. apply list_fmap_ext. intros k i Hk.
  apply H, zseq_elem. by apply list_elem_of_lookup_2 in Hk.
Qed.

Lemma load_store_same bs off l : load_bytes (store_bytes bs off l) off (length l) = l.
Proof.
  apply list_eq_same_length with (n := length l); [done|by rewrite length_load_bytes|].
  intros i x y Hi Hx Hy. unfold load_bytes in Hx.
  rewrite list_lookup_fmap, lookup_zseq in Hx by done. simplify_eq/=.
  rewrite get_store_bytes. destruct (Z.leb_spec off (off + Z.of_nat i)),
    (Z.ltb_spec (off + Z.of_nat i) (off + Z.of_nat (length l))); try lia. simpl.
  replace (Z.to_nat (off + Z.of_nat i - off)) with i by lia. by apply nth_lookup_Some.
Qed.

Definition bytes_wf (bs : gmap Z Z) : Prop := forall i, in_width 8 (get_byte bs i).

Lemma bytes_wf_empty : bytes_wf ∅.
Proof. intros i. unfold get_byte. rewrite lookup_empty. unfold in_width. simpl. lia. Qed.

Lemma bytes_wf_store bs off l : bytes_wf bs -> Forall (in_width 8) l -> bytes_wf (store_bytes bs off l).
Proof.
  intros Hb Hl i. rewrite get_store_bytes. destruct (_ && _) eqn:E; [|apply Hb].
  apply andb_true_iff in E as [E1 E2]. apply Z.leb_le in E1. apply Z.ltb_lt in E2.
  eapply Forall_forall; [exact Hl|]. apply nth_In. lia.
Qed.

Lemma load_bytes_wf bs off n : bytes_wf bs -> Forall (in_width 8) (load_bytes bs off n).
Proof. intros H. apply Forall_fmap, Forall_forall. intros. apply H. Qed.

(** ** Raw accesses *)

Definition in_backing (b : Backing) (off n : Z) : Prop := 0 <= off /\ off + n <= b_len b.

(** The little-endian value of [n] bytes at a backing offset. *)
Definition le_at (b : Backing) (off n : Z) : Z :=
  from_le_bytes (load_bytes (b_bytes b) off (Z.to_nat n)).
Definition put_le (b : Backing) (off val n : Z) : Backing :=
  set_bytes b (store_bytes (b_bytes b) off (to_le_bytes (Z.to_nat n) val)).

Lemma raw_read_in b off n : in_backing b off n -> raw_read b off n = Some (le_at b off n).
Proof. intros [? ?]. unfold raw_read. destruct (Z.leb_spec 0 off), (Z.leb_spec (off + n) (b_len b)); (done || lia). Qed.

Lemma raw_write_in b off v n : in_backing b off n -> raw_write b off v n = Some (put_le b off v n).
Proof. intros [? ?]. unfold raw_write. destruct (Z.leb_spec 0 off), (Z.leb_spec (off + n) (b_len b)); (done || lia). Qed.

Lemma to_le_bytes_wrap n x : to_le_bytes n (wrap (8 * Z.of_nat n) x) = to_le_bytes n x.
Proof.
  revert x. induction n as [|n IH]; intros x; [done|]. cbn [to_le_bytes].
  replace (8 * Z.of_nat (S n)) with (8 * Z.of_nat n + 8) by lia. f_equal.
  - apply wrap_wrap_le. lia.
  - rewrite <- (IH (Z.shiftr x 8)). f_equal. unfold wrap. zbits.
Qed.

Lemma put_le_wrap b off v n : 0 <= n -> put_le b off (wrap (8 * n) v) n = put_le b off v n.
Proof.
  intros. unfold put_le. replace (8 * n) with (8 * Z.of_nat (Z.to_nat n)) by lia.
  by rewrite to_le_bytes_wrap.
Qed.

Lemma le_at_range b off n : 0 <= n -> bytes_wf (b_bytes b) -> in_width (8 * n) (le_at b off n).
Proof.
  intros Hn Hb. pose proof (from_le_bytes_range _ (load_bytes_wf _ off (Z.to_nat n) Hb)) as H.
  rewrite length_load_bytes, Z2Nat.id in H by done. exact H.
Qed.

Lemma atomic_load_in b off n : valid_elem n -> in_backing b off n ->
  atomic_load_le b off n = Some (le_at b off n).
Proof.
  intros Hv Hb. unfold atomic_load_le, plain_read.
  destruct Hv as [->|[->|[->| ->]]]; simpl; try destruct (aligned _ _ _); by apply raw_read_in.
Qed.

Lemma atomic_store_in b off v n : valid_elem n -> in_backing b off n ->
  atomic_store_le b off v n = Some (put_le b off v n).
Proof.
  intros Hv Hb. unfold atomic_store_le, plain_write.
  destruct Hv as [->|[->|[->| ->]]]; simpl; try destruct (aligned _ _ _);
    rewrite raw_write_in by done; try done; f_equal.
  - apply (put_le_wrap b off v 1). lia.
  - apply (put_le_wrap b off v 2). lia.
  - apply (put_le_wrap b off v 4). lia.
Qed.

(** What a read-modify-write stores, from the integers. *)
Definition rmw_spec (n old src : Z) (op : RmwOp) : Z :=
  wrap (8 * n) match op with
    | RmwAdd => old + src | RmwSub => old - src | RmwRsub => src - old
    | RmwAnd => Z.land old src | RmwOr => Z.lor old src | RmwXor => Z.lxor old src
    | RmwXchg => src
    end.

Lemma host_fetch_spec n old src op : 0 <= n -> in_width (8 * n) old ->
  host_fetch (8 * n) old (wrap (8 * n) src) op = rmw_spec n old src op.
Proof.
  intros Hn Ho. rewrite <- (wrap_small _ _ Ho). unfold rmw_spec.
  destruct op; simpl; unfold wrapping_add, wrapping_sub.
  all: rewrite ?wrap_wrap, ?wrap_add_l, ?wrap_add_r, ?wrap_sub_l, ?wrap_sub_r by lia; try done.
  all: unfold wrap; zbits.
Qed.

Lemma apply_rmw_spec n old src op : valid_elem n -> apply_rmw old src op n = rmw_spec n old src op.
Proof.
  intros Hv. unfold apply_rmw. rewrite mask_bits_mask, land_mask by done.
  apply valid_elem_range in Hv. unfold rmw_spec, wrapping_add, wrapping_sub.
  destruct op; try done; apply wrap_wrap_le; lia.
Qed.

Lemma rmw_at_in b off src n op : valid_elem n -> bytes_wf (b_bytes b) -> in_backing b off n ->
  rmw_at b off src n n op =
    Some (le_at b off n, put_le b off (rmw_spec n (le_at b off n) src op) n).
Proof.
  intros Hv Hw Hb. pose proof (valid_elem_range n Hv).
  pose proof (le_at_range b off n ltac:(lia) Hw).
  unfold rmw_at, plain_read, plain_write. destruct (Z.leb_spec n 8); [|lia].
  rewrite raw_read_in by done. destruct (aligned b off n); simpl;
    rewrite raw_write_in by done; simpl; do 3 f_equal.
  - apply host_fetch_spec; [lia|done].
  - by apply apply_rmw_spec.
Qed.

Lemma atomic_rmw_in b off src n op : valid_elem n -> bytes_wf (b_bytes b) -> in_backing b off n ->
  atomic_rmw_raw b off src n op =
    Some (le_at b off n, put_le b off (rmw_spec n (le_at b off n) src op) n).
Proof.
  intros Hv Hw Hb. rewrite <- (rmw_at_in b off src n op) by done. unfold atomic_rmw_raw.
  by destruct Hv as [->|[->|[->| ->]]].
Qed.

Lemma cas_at_in b off expected src n : valid_elem n -> bytes_wf (b_bytes b) -> in_backing b off n ->
  in_width (8 * n) expected ->
  cas_at b off expected src n n =
    Some (le_at b off n, if le_at b off n =? expected then put_le b off src n else b).
Proof.
  intros Hv Hw Hb He. pose proof (valid_elem_range n Hv).
  unfold cas_at, plain_read, plain_write. destruct (Z.leb_spec n 8); [|lia].
  rewrite raw_read_in by done. destruct (aligned b off n); simpl.
  - rewrite (wrap_small (8 * n) expected) by done. destruct (_ =? _); [|done].
    rewrite raw_write_in, put_le_wrap by (done || lia). done.
  - destruct (_ =? _); [|done]. by rewrite raw_write_in.
Qed.

Lemma atomic_cas_in b off expected src n : valid_elem n -> bytes_wf (b_bytes b) -> in_backing b off n ->
  in_width (8 * n) expected ->
  atomic_cas_raw b off expected src n =
    Some (le_at b off n, if le_at b off n =? expected then put_le b off src n else b).
Proof.
  intros Hv Hw Hb He. rewrite <- (cas_at_in b off expected src n) by done. unfold atomic_cas_raw.
  by destruct Hv as [->|[->|[->| ->]]].
Qed.

(** ** The region invariant *)

Definition region_ok (mo : MemoryModel) (base : Z) (r : Region) : Prop :=
  base <= start r /\ 0 <= size r /\ start r + size r <= model_span mo.
Definition disjoint (r1 r2 : Region) : Prop :=
  start r1 + size r1 <= start r2 \/ start r2 + size r2 <= start r1.

Definition pairwise_disjoint (rs : list Region) : Prop :=
  forall i j r1 r2, rs !! i = Some r1 -> rs !! j = Some r2 -> i <> j -> disjoint r1 r2.

(** Regions lie inside the guest space, pairwise disjoint; the backing reaches the end
    of the guest space and its top is within the tracked span. *)
Record space_wf (mo : MemoryModel) (b : Backing) (rs : list Region) (base : Z) : Prop := {
  wf_base : 0 <= base <= model_span mo;
  wf_extent : model_span mo - base <= b_len b;
  wf_top : base + b_len b <= MAX_TRACKED_SPAN;
  wf_bytes : bytes_wf (b_bytes b);
  wf_regions : Forall (region_ok mo base) rs;
  wf_disjoint : pairwise_disjoint rs;
}.

Definition mem_wf (m : Memory) : Prop :=
  space_wf (model m) (backing m) (regions m) (m_guest_base m).

Lemma region_ok_of mo b rs base r : space_wf mo b rs base -> r ∈ rs -> region_ok mo base r.
Proof. intros H Hr. pose proof (wf_regions _ _ _ _ H) as F. rewrite list.Forall_forall in F. auto. Qed.

Lemma span_bound mo b rs base : space_wf mo b rs base -> model_span mo < 2 ^ 64.
Proof.
  intros H. pose proof (wf_extent _ _ _ _ H). pose proof (wf_top _ _ _ _ H).
  change MAX_TRACKED_SPAN with 17592186040320 in *. lia.
Qed.

Lemma region_end_ok mo b rs base r : space_wf mo b rs base -> r ∈ rs ->
  region_end r = start r + size r.
Proof.
  intros H Hr. destruct (region_ok_of _ _ _ _ _ H Hr) as (? & ? & ?).
  pose proof (wf_base _ _ _ _ H). pose proof (span_bound _ _ _ _ H).
  apply wrap_small. unfold in_width. lia.
Qed.

Lemma contains_spec mo b rs base r a e : space_wf mo b rs base -> r ∈ rs ->
  contains a e r = true <-> start r <= a /\ e <= start r + size r.
Proof.
  intros H Hr. unfold contains. rewrite (region_end_ok _ _ _ _ _ H Hr).
  rewrite andb_true_iff, !Z.leb_le. done.
Qed.

(** A non-empty range has at most one region around it. *)
Lemma contains_unique mo b rs base i j r1 r2 a e : space_wf mo b rs base -> a < e ->
  rs !! i = Some r1 -> rs !! j = Some r2 ->
  contains a e r1 = true -> contains a e r2 = true -> i = j.
Proof.
  intros H Hae Hi Hj. rewrite !(contains_spec mo b rs base) by eauto using list_elem_of_lookup_2.
  intros ? ?. destruct (decide (i = j)) as [|Hne]; [done|].
  destruct (wf_disjoint _ _ _ _ H _ _ _ _ Hi Hj Hne); lia.
Qed.

Lemma list_find_Some_iff {A} (P : A -> Prop) `{forall x, Decision (P x)} (l : list A) i x :
  list_find P l = Some (i, x) <->
  l !! i = Some x /\ P x /\ forall j y, l !! j = Some y -> (j < i)%nat -> ~ P y.
Proof. apply list_find_Some. Qed.

(** ** Region lookup *)

Lemma region_for_Some m a n r : mem_wf m -> region_for m a n = Some r ->
  r ∈ regions m /\ start r <= a /\ a + n <= start r + size r.
Proof.
  intros Hm. unfold region_for, checked_add. destruct (_ <? _); simpl; [|done].
  destruct (list_find _ _) as [[i r']|] eqn:E; simpl; [|done]. intros [= ->].
  apply list_find_Some_iff in E as (Hi & Hc & _). apply list_elem_of_lookup_2 in Hi.
  split; [done|]. by apply (contains_spec _ _ _ _ _ _ _ Hm Hi).
Qed.

Lemma region_for_intro m a n r : mem_wf m -> 0 < n -> r ∈ regions m ->
  start r <= a -> a + n <= start r + size r -> region_for m a n = Some r.
Proof.
  intros Hm Hn Hr Hs He. pose proof (span_bound _ _ _ _ Hm).
  destruct (region_ok_of _ _ _ _ _ Hm Hr) as (? & ? & ?).
  unfold region_for, checked_add. destruct (Z.ltb_spec (a + n) (2 ^ 64)); [|lia]. simpl.
  pose proof (proj2 (contains_spec _ _ _ _ r a (a + n) Hm Hr) (conj Hs He)) as Hc.
  destruct (list_find _ _) as [[i r']|] eqn:E; simpl.
  - apply list_find_Some_iff in E as (Hi & Hc' & _).
    apply list_elem_of_lookup in Hr as [j Hj].
    assert (i = j) as -> by (eapply contains_unique; [exact Hm| |exact Hi|exact Hj|done|done]; lia).
    congruence.
  - apply list_find_None in E. rewrite list.Forall_forall in E. by destruct (E r Hr).
Qed.

(** The hint never changes the answer. *)
Lemma region_at_for m a n : mem_wf m -> 0 < n ->
  (region_at m a n).1 = match region_for m a n with Some r => Ok r | None => Err Unmapped end.
Proof.
  intros Hm Hn. unfold region_at, region_for. destruct (checked_add 64 a n) as [e|] eqn:Ee; [|done].
  assert (a < e). { unfold checked_add in Ee. destruct (_ <? _); simplify_eq. lia. }
  simpl. destruct (list_find _ _) as [[i r]|] eqn:E; simpl; destruct (regions m !! last_region m) as [h|] eqn:Eh.
  - destruct (contains a e h) eqn:Ec; [|done]. apply list_find_Some_iff in E as (Hi & Hc & _).
    assert (last_region m = i) as <- by (eapply contains_unique; [exact Hm| |exact Eh|exact Hi|done|done]; lia).
    simpl. congruence.
  - done.
  - destruct (contains a e h) eqn:Ec; [|done]. apply list_find_None in E.
    rewrite list.Forall_forall in E. by destruct (E h (list_elem_of_lookup_2 _ _ _ Eh)).
  - done.
Qed.

Lemma region_at_mem m a n : exists i, (region_at m a n).2 = set_last_region m i.
Proof.
  assert (Hid : m = set_last_region m (last_region m)) by (by destruct m).
  unfold region_at. destruct (checked_add 64 a n); [|eauto].
  destruct (list_find _ _) as [[i r]|]; destruct (regions m !! last_region m) as [h|];
    try destruct (contains _ _ h); simpl; eauto.
Qed.

Lemma host_off_in m a n r : mem_wf m -> 0 <= n -> r ∈ regions m ->
  start r <= a -> a + n <= start r + size r ->
  host_off m a = a - m_guest_base m /\ in_backing (backing m) (host_off m a) n.
Proof.
  intros Hm Hn Hr Hs He. destruct (region_ok_of _ _ _ _ _ Hm Hr) as (? & ? & ?).
  pose proof (span_bound _ _ _ _ Hm). pose proof (wf_base _ _ _ _ Hm). pose proof (wf_extent _ _ _ _ Hm).
  assert (E : host_off m a = a - m_guest_base m) by (apply wrap_small; unfold in_width; lia).
  split; [done|]. rewrite E. split; lia.
Qed.

Lemma region_for_host m a n r : mem_wf m -> 0 <= n -> region_for m a n = Some r ->
  host_off m a = a - m_guest_base m /\ in_backing (backing m) (host_off m a) n.
Proof.
  intros Hm Hn H. destruct (region_for_Some m a n r Hm H) as (Hr & ? & ?). by eapply host_off_in.
Qed.

(** ** What a store leaves alone *)

Lemma note_write_page_space watched m p :
  let m' := note_write_page watched m p in
  model m' = model m /\ backing m' = backing m /\ regions m' = regions m /\
  m_guest_base m' = m_guest_base m /\ code_page m' = code_page m /\ code_range m' = code_range m.
Proof. unfold note_write_page. by destruct (is_code_page m p), (watched && _). Qed.

Lemma note_write_space m a n :
  let m' := note_write m a n in
  model m' = model m /\ backing m' = backing m /\ regions m' = regions m /\
  m_guest_base m' = m_guest_base m /\ code_page m' = code_page m /\ code_range m' = code_range m.
Proof.
  unfold note_write. generalize (negb (w_count (watch m) =? 0)) as w. intros w.
  generalize (code_page_range a n) as ps. intros ps. revert m.
  induction ps as [|p ps IH]; intros m; [by repeat split|]. simpl.
  destruct (IH (note_write_page w m p)) as (-> & -> & -> & -> & -> & ->).
  apply note_write_page_space.
Qed.

Lemma mem_wf_note m a n : mem_wf m -> mem_wf (note_write m a n).
Proof.
  unfold mem_wf. by destruct (note_write_space m a n) as (-> & -> & -> & -> & _ & _).
Qed.

(** ** The guest's view

    What guest code can observe of a memory: the kind of the region around a range and
    the byte at an address. *)

Record View : Type := mkView {
  v_kind : Z -> Z -> option RegionKind;
  v_byte : Z -> Z;
}.

Definition view_eq (g g' : View) : Prop :=
  (forall a n, v_kind g a n = v_kind g' a n) /\ (forall a, v_byte g a = v_byte g' a).

#[global] Instance view_eq_equivalence : Equivalence view_eq.
Proof.
  split.
  - done.
  - intros g g' [? ?]. by split.
  - intros g g' g'' [H1 H2] [H3 H4]. split; intros; [by rewrite H1|by rewrite H2].
Qed.

Definition view (m : Memory) : View :=
  mkView (fun a n => kind <$> region_for m a n)
         (fun a => get_byte (b_bytes (backing m)) (a - m_guest_base m)).

Definition v_le (g : View) (a n : Z) : Z := from_le_bytes (v_byte g <$> zseq a (Z.to_nat n)).

Definition v_store (g : View) (a : Z) (l : list Z) : View :=
  mkView (v_kind g)
    (fun x => if (a <=? x) && (x <? a + Z.of_nat (length l)) then nth (Z.to_nat (x - a)) l 0 else v_byte g x).
Definition v_put (g : View) (a v n : Z) : View := v_store g a (to_le_bytes (Z.to_nat n) v).

(** The contract of the guest accesses, on views. *)
Definition g_read (g : View) (a n : Z) : Result Z MemTrap :=
  match v_kind g a n with
  | None => Err Unmapped
  | Some TrapRegion => Err Mmio
  | Some _ => Ok (v_le g a n)
  end.
Definition g_write (g : View) (a v n : Z) : Result unit MemTrap * View :=
  match v_kind g a n with
  | None => (Err Unmapped, g)
  | Some TrapRegion => (Err Mmio, g)
  | Some Rom => (Ok tt, g)
  | Some Ram => (Ok tt, v_put g a v n)
  end.
(** A read-modify-write whose new value is [upd old] ([None]: no store). *)
Definition g_rmw (g : View) (a n : Z) (upd : Z -> option Z) : Result Z MemTrap * View :=
  match v_kind g a n with
  | None => (Err Unmapped, g)
  | Some TrapRegion => (Err Mmio, g)
  | Some Rom => (Ok (v_le g a n), g)
  | Some Ram =>
      (Ok (v_le g a n),
       match upd (v_le g a n) with Some v => v_put g a v n | None => g end)
  end.

#[global] Instance v_le_proper : Proper (view_eq ==> eq ==> eq ==> eq) v_le.
Proof.
  intros g g' [_ H] a ? <- n ? <-. unfold v_le. f_equal. apply list_fmap_ext. intros. apply H.
Qed.
#[global] Instance g_read_proper : Proper (view_eq ==> eq ==> eq ==> eq) g_read.
Proof.
  intros g g' H a ? <- n ? <-. unfold g_read. rewrite <- (proj1 H a n), (v_le_proper g g' H a a eq_refl n n eq_refl). done.
Qed.

Lemma v_le_at m a n r : mem_wf m -> 0 <= n -> region_for m a n = Some r ->
  le_at (backing m) (host_off m a) n = v_le (view m) a n.
Proof.
  intros Hm Hn Hr. destruct (region_for_host m a n r Hm Hn Hr) as [-> _].
  unfold le_at, v_le, load_bytes. f_equal. simpl. clear.
  generalize (Z.to_nat n) as k. intros k. revert a. induction k as [|k IH]; intros a; simpl; [done|].
  f_equal. replace (a - m_guest_base m + 1) with (a + 1 - m_guest_base m) by lia. apply IH.
Qed.

Lemma region_for_ext m m' a n : regions m' = regions m -> region_for m' a n = region_for m a n.
Proof. unfold region_for. by intros ->. Qed.

(** Storing bytes at a mapped address is a store in the view, and keeps the invariant. *)
Lemma store_view m a l r : mem_wf m -> Forall (in_width 8) l ->
  region_for m a (Z.of_nat (length l)) = Some r ->
  let b := set_bytes (backing m) (store_bytes (b_bytes (backing m)) (host_off m a) l) in
  let m' := note_write (set_backing m b) a (Z.of_nat (length l)) in
  mem_wf m' /\ view_eq (view m') (v_store (view m) a l).
Proof.
  intros Hm Hl Hr b m'. destruct (region_for_host m a _ r Hm (Zle_0_nat _) Hr) as [Ho [Hb1 Hb2]].
  destruct (note_write_space (set_backing m b) a (Z.of_nat (length l))) as (E1 & E2 & E3 & E4 & _ & _).
  fold m' in E1, E2, E3, E4. cbn [model backing regions m_guest_base set_backing] in *. split.
  - unfold mem_wf. rewrite E1, E2, E3, E4. destruct Hm as [? ? ? ? ? ?].
    split; try done. by apply bytes_wf_store.
  - split; cbn [view v_kind v_store v_byte].
    + intros x n. by rewrite (region_for_ext m).
    + intros x. rewrite E2, E4. cbn [b_bytes b set_bytes]. rewrite get_store_bytes, Ho.
      replace (x - m_guest_base m - (a - m_guest_base m)) with (x - a) by lia.
      repeat zcase; (done || lia).
Qed.

Lemma put_view m a v n r : mem_wf m -> 0 <= n -> region_for m a n = Some r ->
  let m' := note_write (set_backing m (put_le (backing m) (host_off m a) v n)) a n in
  mem_wf m' /\ view_eq (view m') (v_put (view m) a v n).
Proof.
  intros Hm Hn Hr. pose proof (store_view m a (to_le_bytes (Z.to_nat n) v) r Hm) as H.
  rewrite length_to_le_bytes, Z2Nat.id in H by done. apply H; [apply to_le_bytes_range|done].
Qed.

Lemma mem_wf_hint m i : mem_wf m -> mem_wf (set_last_region m i).
Proof. done. Qed.
Lemma view_hint m i : view_eq (view (set_last_region m i)) (view m).
Proof. done. Qed.

(** ** The accesses against the view *)

(** One statement for the four scalar accesses: the answer comes from [region_for], and
    only the hint moves. *)
Lemma region_at_spec m a n : mem_wf m -> 0 < n -> exists m',
  region_at m a n = (match region_for m' a n with Some r => Ok r | None => Err Unmapped end, m') /\
  mem_wf m' /\ view m = view m'.
Proof.
  intros Hm Hn. destruct (region_at_mem m a n) as [i Hi]. exists (set_last_region m i).
  split; [|by split].
  change (region_for (set_last_region m i) a n) with (region_for m a n).
  rewrite <- (region_at_for m a n Hm Hn), <- Hi. by destruct (region_at m a n).
Qed.

(** [post]: the memory after an access is well formed and shows the view [g]. *)
Definition shows (m : Memory) (g : View) : Prop := mem_wf m /\ view_eq (view m) g.

Lemma shows_same m : mem_wf m -> shows m (view m).
Proof. by split. Qed.

Lemma shows_note m a n : mem_wf m -> shows (note_write (set_backing m (backing m)) a n) (view m).
Proof.
  intros Hm. destruct (note_write_space (set_backing m (backing m)) a n) as (E1 & E2 & E3 & E4 & _ & _).
  split.
  - unfold mem_wf. by rewrite E1, E2, E3, E4.
  - split; cbn [view v_kind v_byte]; intros; [by rewrite (region_for_ext m)|by rewrite E2, E4].
Qed.

Lemma read_refines m a n : mem_wf m -> valid_elem n ->
  exists m', read m a n = Some (g_read (view m) a n, m') /\ shows m' (view m).
Proof.
  intros Hm Hn. pose proof (valid_elem_range n Hn).
  unfold read, g_read. destruct (region_at_spec m a n Hm ltac:(lia)) as (m1 & E & Hm1 & Hv1).
  rewrite E, Hv1. clear Hm E Hv1 m. rename Hm1 into Hm, m1 into m. cbn [view v_kind].
  exists m. split; [|by apply shows_same].
  destruct (region_for m a n) as [r|] eqn:Er; [|done]. cbn [fmap option_fmap option_map].
  destruct (region_for_host m a n r Hm ltac:(lia) Er) as [_ Hin].
  destruct (kind r); try done;
    rewrite (atomic_load_in (backing m) (host_off m a) n Hn Hin);
    rewrite (v_le_at m a n r) by (done || lia); done.
Qed.

Lemma write_refines m a v n : mem_wf m -> valid_elem n ->
  exists m', write m a v n = Some ((g_write (view m) a v n).1, m') /\ shows m' (g_write (view m) a v n).2.
Proof.
  intros Hm Hn. pose proof (valid_elem_range n Hn).
  unfold write, g_write. destruct (region_at_spec m a n Hm ltac:(lia)) as (m1 & E & Hm1 & Hv1).
  rewrite E, Hv1. clear Hm E Hv1 m. rename Hm1 into Hm, m1 into m. cbn [view v_kind].
  destruct (region_for m a n) as [r|] eqn:Er; cbn [fmap option_fmap option_map];
    [|eexists; split; [done|by apply shows_same]].
  destruct (region_for_host m a n r Hm ltac:(lia) Er) as [_ Hin].
  destruct (kind r); [|eexists; split; [done|by apply shows_same]..].
  rewrite (atomic_store_in (backing m) (host_off m a) v n Hn Hin). eexists. split; [done|].
  apply (put_view m a v n r); [done|lia|done].
Qed.

Lemma rmw_refines m a src n op : mem_wf m -> valid_elem n ->
  let g := g_rmw (view m) a n (fun old => Some (rmw_spec n old src op)) in
  exists m', atomic_rmw m a src n op = Some (g.1, m') /\ shows m' g.2.
Proof.
  intros Hm Hn. pose proof (valid_elem_range n Hn).
  unfold atomic_rmw, g_rmw. destruct (region_at_spec m a n Hm ltac:(lia)) as (m1 & E & Hm1 & Hv1).
  rewrite E, Hv1. clear Hm E Hv1 m. rename Hm1 into Hm, m1 into m. cbn [view v_kind].
  destruct (region_for m a n) as [r|] eqn:Er; cbn [fmap option_fmap option_map];
    [|eexists; split; [done|by apply shows_same]].
  destruct (region_for_host m a n r Hm ltac:(lia) Er) as [_ Hin].
  pose proof (le_at_range (backing m) (host_off m a) n ltac:(lia) (wf_bytes _ _ _ _ Hm)) as Hw.
  pose proof (v_le_at m a n r Hm ltac:(lia) Er) as Hv.
  destruct (kind r); [| |]; cbn [fst snd].
  - rewrite (atomic_rmw_in (backing m) (host_off m a) src n op Hn (wf_bytes _ _ _ _ Hm) Hin).
    cbn [mbind option_bind]. rewrite mask_bits_mask, land_mask, wrap_small, Hv by done.
    eexists. split; [done|]. apply (put_view m a _ n r); [done|lia|done].
  - eexists; split; [done|by apply shows_same].
  - rewrite (atomic_load_in (backing m) (host_off m a) n Hn Hin). cbn [mbind option_bind].
    rewrite mask_bits_mask, land_mask, wrap_small, Hv by done.
    eexists; split; [done|by apply shows_same].
Qed.

Lemma cas_refines m a expected src n : mem_wf m -> valid_elem n ->
  let g := g_rmw (view m) a n (fun old => if old =? wrap (8 * n) expected then Some src else None) in
  exists m', atomic_cas m a expected src n = Some (g.1, m') /\ shows m' g.2.
Proof.
  intros Hm Hn. pose proof (valid_elem_range n Hn).
  unfold atomic_cas, g_rmw. destruct (region_at_spec m a n Hm ltac:(lia)) as (m1 & E & Hm1 & Hv1).
  rewrite E, Hv1. clear Hm E Hv1 m. rename Hm1 into Hm, m1 into m. cbn [view v_kind].
  destruct (region_for m a n) as [r|] eqn:Er; cbn [fmap option_fmap option_map];
    [|eexists; split; [done|by apply shows_same]].
  destruct (region_for_host m a n r Hm ltac:(lia) Er) as [_ Hin].
  pose proof (le_at_range (backing m) (host_off m a) n ltac:(lia) (wf_bytes _ _ _ _ Hm)) as Hw.
  pose proof (v_le_at m a n r Hm ltac:(lia) Er) as Hv.
  destruct (kind r); cbn [fst snd].
  - rewrite mask_bits_mask, !land_mask by done.
    rewrite (atomic_cas_in (backing m) (host_off m a) (wrap (8 * n) expected) src n Hn
      (wf_bytes _ _ _ _ Hm) Hin) by (apply wrap_range; lia).
    cbn [mbind option_bind]. rewrite land_mask, wrap_small, Hv by done.
    eexists. split; [done|]. destruct (_ =? _).
    + apply (put_view m a _ n r); [done|lia|done].
    + by apply shows_note.
  - eexists; split; [done|by apply shows_same].
  - rewrite (atomic_load_in (backing m) (host_off m a) n Hn Hin). cbn [mbind option_bind].
    rewrite mask_bits_mask, land_mask, wrap_small, Hv by done.
    eexists; split; [done|by apply shows_same].
Qed.

(** ** Wide and host-side accesses *)

Lemma slice_in b off n : in_backing b off n -> 0 <= n ->
  as_slice_range b off (off + n) = Some (load_bytes (b_bytes b) off (Z.to_nat n)).
Proof.
  intros [? ?] ?. unfold as_slice_range.
  destruct (Z.leb_spec 0 off), (Z.leb_spec off (off + n)), (Z.leb_spec (off + n) (b_len b)); try lia.
  simpl. do 3 f_equal. lia.
Qed.

Lemma copy_in_in b off l : in_backing b off (Z.of_nat (length l)) ->
  copy_in b off l = Some (set_bytes b (store_bytes (b_bytes b) off l)).
Proof.
  intros [? ?]. unfold copy_in.
  destruct (Z.leb_spec 0 off), (Z.leb_spec (off + Z.of_nat (length l)) (b_len b)); (done || lia).
Qed.

(** The bytes of a guest range. *)
Definition v_bytes (g : View) (a n : Z) : list Z := v_byte g <$> zseq a (Z.to_nat n).

Lemma load_view m a n : host_off m a = a - m_guest_base m ->
  load_bytes (b_bytes (backing m)) (host_off m a) n = v_byte (view m) <$> zseq a n.
Proof.
  intros ->. unfold load_bytes. cbn [view v_byte]. revert a.
  induction n as [|n IH]; intros a; simpl; [done|]. f_equal.
  replace (a - m_guest_base m + 1) with (a + 1 - m_guest_base m) by lia. apply IH.
Qed.

Definition g_read_bytes (g : View) (a n : Z) : Result (list Z) MemError :=
  match v_kind g a n with None => Err MemUnmapped | Some _ => Ok (v_bytes g a n) end.
Definition g_read_ram (g : View) (a n : Z) : option (list Z) :=
  match v_kind g a n with Some Ram | Some Rom => Some (v_bytes g a n) | _ => None end.
Definition g_write_bytes (g : View) (a : Z) (l : list Z) : Result unit MemError * View :=
  match v_kind g a (Z.of_nat (length l)) with
  | None => (Err MemUnmapped, g)
  | Some _ => (Ok tt, v_store g a l)
  end.
Definition g_write_ram (g : View) (a : Z) (l : list Z) : bool * View :=
  match v_kind g a (Z.of_nat (length l)) with
  | Some Ram => (true, v_store g a l)
  | Some Rom => (true, g)
  | _ => (false, g)
  end.

Lemma read_bytes_refines m a n : mem_wf m -> 0 <= n ->
  read_bytes m a n = Some (g_read_bytes (view m) a n) /\
  read_ram_guest m a n = Some (g_read_ram (view m) a n).
Proof.
  intros Hm Hn. unfold read_bytes, read_ram_guest, g_read_bytes, g_read_ram. cbn [view v_kind].
  destruct (region_for m a n) as [r|] eqn:Er; [|done]. cbn [fmap option_fmap option_map].
  destruct (region_for_host m a n r Hm Hn Er) as [Ho Hin].
  rewrite (slice_in _ _ _ Hin Hn), load_view by done. split; [done|]. by destruct (kind r).
Qed.

Lemma write_bytes_refines m a l : mem_wf m -> Forall (in_width 8) l ->
  exists m', write_bytes m a l = Some ((g_write_bytes (view m) a l).1, m') /\
             shows m' (g_write_bytes (view m) a l).2.
Proof.
  intros Hm Hl. unfold write_bytes, g_write_bytes. cbn [view v_kind].
  destruct (region_for m a _) as [r|] eqn:Er; cbn [fmap option_fmap option_map];
    [|eexists; split; [done|by apply shows_same]].
  destruct (region_for_host m a _ r Hm (Zle_0_nat _) Er) as [_ Hin].
  rewrite (copy_in_in _ _ _ Hin). eexists. split; [done|]. by apply (store_view m a l r).
Qed.

Lemma write_ram_refines m a l : mem_wf m -> Forall (in_width 8) l ->
  exists m', write_ram_guest m a l = Some ((g_write_ram (view m) a l).1, m') /\
             shows m' (g_write_ram (view m) a l).2.
Proof.
  intros Hm Hl. unfold write_ram_guest, g_write_ram. cbn [view v_kind].
  destruct (region_for m a _) as [r|] eqn:Er; cbn [fmap option_fmap option_map];
    [|eexists; split; [done|by apply shows_same]].
  destruct (region_for_host m a _ r Hm (Zle_0_nat _) Er) as [_ Hin].
  destruct (kind r); [|eexists; split; [done|by apply shows_same]..].
  rewrite (copy_in_in _ _ _ Hin). eexists. split; [done|]. by apply (store_view m a l r).
Qed.

(** ** Mapping *)

Lemma protect_same b off n acc :
  b_len (protect b off n acc) = b_len b /\ b_bytes (protect b off n acc) = b_bytes b /\
  b_owner (protect b off n acc) = b_owner b.
Proof. unfold protect. destruct (b_owner b) as [|[|]] eqn:E; simpl; repeat split; congruence. Qed.

Lemma reprotect_close_same n page cap base rs b :
  b_len (reprotect_close n page cap base rs b) = b_len b /\
  b_bytes (reprotect_close n page cap base rs b) = b_bytes b /\
  b_owner (reprotect_close n page cap base rs b) = b_owner b.
Proof.
  revert page b. induction n as [|n IH]; intros page b; cbn [reprotect_close]; [done|].
  set (c := negb _ && _). destruct (IH (page + HOST_PAGE)
    (if c then protect b page (Z.min (page + HOST_PAGE) cap - page) false else b)) as (-> & -> & ->).
  destruct c; [apply protect_same|done].
Qed.

Lemma reprotect_same m st sz acc :
  let m' := reprotect m st sz acc in
  model m' = model m /\ regions m' = regions m /\ m_guest_base m' = m_guest_base m /\
  b_len (backing m') = b_len (backing m) /\ b_bytes (backing m') = b_bytes (backing m) /\
  b_owner (backing m') = b_owner (backing m).
Proof.
  unfold reprotect. destruct (_ <=? _); [done|]. destruct acc; cbn [set_backing model regions m_guest_base backing];
    repeat split; try apply protect_same; apply reprotect_close_same.
Qed.

Lemma space_wf_backing mo b b' rs base : b_len b' = b_len b -> b_bytes b' = b_bytes b ->
  space_wf mo b rs base -> space_wf mo b' rs base.
Proof. intros E1 E2 [? ? ? ? ? ?]. by split; rewrite ?E1, ?E2. Qed.

Lemma mem_wf_reprotect m st sz acc : mem_wf m -> mem_wf (reprotect m st sz acc).
Proof.
  intros Hm. destruct (reprotect_same m st sz acc) as (E1 & E2 & E3 & E4 & E5 & _).
  unfold mem_wf. rewrite E1, E2, E3. by apply (space_wf_backing _ (backing m)).
Qed.

Lemma pairwise_snoc rs r : pairwise_disjoint rs -> (forall r', r' ∈ rs -> disjoint r' r) ->
  pairwise_disjoint (rs ++ [r]).
Proof.
  intros Hp Hr i j r1 r2 Hi Hj Hne.
  apply lookup_snoc_Some in Hi as [[Hi Hi']|[-> <-]]; apply lookup_snoc_Some in Hj as [[Hj Hj']|[-> <-]].
  - by eapply Hp.
  - by eapply Hr, list_elem_of_lookup_2.
  - destruct (Hr r2 (list_elem_of_lookup_2 _ _ _ Hj')); [by right|by left].
  - done.
Qed.

Lemma pairwise_delete rs k : pairwise_disjoint rs -> pairwise_disjoint (delete k rs).
Proof.
  intros Hp i j r1 r2 Hi Hj Hne. rewrite list_lookup_delete in Hi, Hj.
  apply (Hp _ _ _ _ Hi Hj). repeat case_decide; lia.
Qed.

(** When [map] accepts a range. *)
Definition mappable (m : Memory) (a sz : Z) : Prop :=
  m_guest_base m <= a /\ a + sz <= mem_size m /\
  forall r, r ∈ regions m -> disjoint r (mkMemRegion a sz R Ram).

Definition add_region (m : Memory) (r : Region) : Memory :=
  reprotect (set_regions m (regions m ++ [r])) (start r) (size r) true.

Lemma map_accepts m a sz pr kd : mem_wf m -> model m <> SoftMmu -> in_width 64 sz -> mappable m a sz ->
  map m a sz pr kd = Some (Ok tt, add_region m (mkMemRegion a sz pr kd)).
Proof.
  intros Hm Hs Hsz (H1 & H2 & H3). pose proof (span_bound _ _ _ _ Hm). unfold mem_size in H2.
  pose proof (wf_base _ _ _ _ Hm). unfold map.
  assert (E : existsb (fun r => (a <? region_end r) && (start r <? a + sz)) (regions m) = false).
  { apply not_true_iff_false. intros (r & Hr & Hc)%existsb_exists. apply list_elem_of_In in Hr.
    rewrite (region_end_ok _ _ _ _ _ Hm Hr) in Hc. apply andb_true_iff in Hc as [Hc1%Z.ltb_lt Hc2%Z.ltb_lt].
    destruct (H3 r Hr); simpl in *; lia. }
  destruct (model m); simpl in *; try done;
    destruct (Z.ltb_spec a (m_guest_base m)); try lia;
    unfold checked_add; destruct (Z.ltb_spec (a + sz) (2 ^ 64)); try lia;
    (destruct (Z.ltb_spec size0 (a + sz)) || destruct (Z.ltb_spec span (a + sz))); try lia; by rewrite E.
Qed.

Lemma map_rejects m a sz pr kd : mem_wf m -> model m <> SoftMmu -> in_width 64 a -> in_width 64 sz ->
  ~ mappable m a sz -> exists e, map m a sz pr kd = Some (Err e, m).
Proof.
  intros Hm Hs Ha Hsz Hn. unfold map.
  assert (E : forall total, total = mem_size m -> m_guest_base m <= a -> a + sz <= total ->
    existsb (fun r => (a <? region_end r) && (start r <? a + sz)) (regions m) = true).
  { intros total -> H1 H2. apply not_false_iff_true. intros Hf. apply Hn. split; [done|]. split; [done|].
    intros r Hr. rewrite <- not_true_iff_false, existsb_exists in Hf.
    rewrite list_elem_of_In in Hr. pose proof Hr as Hr'. rewrite <- list_elem_of_In in Hr'.
    destruct (Z.ltb_spec a (start r + size r)) as [L|L]; [|by left].
    destruct (Z.ltb_spec (start r) (a + sz)) as [L'|L']; [|by right].
    destruct Hf. exists r. split; [done|]. rewrite (region_end_ok _ _ _ _ _ Hm Hr').
    by rewrite andb_true_iff, !Z.ltb_lt. }
  unfold mem_size in E. destruct (model m) as [total|total|]; [| |done];
    (destruct (Z.ltb_spec a (m_guest_base m)); [eauto|]; unfold checked_add;
     destruct (Z.ltb_spec (a + sz) (2 ^ 64)); [|eauto];
     destruct (Z.ltb_spec total (a + sz)); [eauto|]; rewrite (E total) by (done || lia); eauto).
Qed.

Lemma mem_wf_add m r : mem_wf m -> 0 <= size r -> mappable m (start r) (size r) -> mem_wf (add_region m r).
Proof.
  intros Hm Hr (H1 & H2 & H3). apply mem_wf_reprotect. destruct Hm as [? ? ? ? Hrs Hd].
  split; try done; cbn [set_regions regions model backing m_guest_base].
  - apply Forall_app. split; [done|]. by repeat constructor.
  - by apply pairwise_snoc.
Qed.

Lemma mem_wf_unmap m a sz : mem_wf m -> mem_wf (unmap m a sz).2.
Proof.
  intros Hm. unfold unmap. destruct (list_find _ _) as [[k r]|]; [|done]. apply mem_wf_reprotect.
  destruct Hm as [? ? ? ? Hrs Hd]. split; try done; cbn [set_regions regions model backing m_guest_base].
  - by apply Forall_delete.
  - by apply pairwise_delete.
Qed.

Lemma from_backing_wf mo b m : from_backing mo b = Some m ->
  0 <= b_guest_base b <= model_span mo -> model_span mo - b_guest_base b <= b_len b ->
  bytes_wf (b_bytes b) -> mem_wf m.
Proof.
  unfold from_backing, fresh_code_pages. destruct (Z.leb_spec (saturating_add 64 (b_guest_base b) (b_len b)) MAX_TRACKED_SPAN);
    cbn [mbind option_bind]; [|done]. intros [= <-] ? ? ?.
  split; cbn [model backing regions m_guest_base]; try done.
  unfold saturating_add in *. change MAX_TRACKED_SPAN with 17592186040320 in *. lia.
Qed.

(** ** Guard pages

    The embedder's hook starts from a fully inaccessible mapping; replaying the
    recorded calls gives the state of each host page. *)

Definition covers (c : Z * Z * bool) (p : Z) : bool :=
  (c.1.1 / HOST_PAGE <=? p) && (p * HOST_PAGE <? c.1.1 + c.1.2).
Definition page_open (calls : list (Z * Z * bool)) (p : Z) : bool :=
  foldl (fun acc c => if covers c p then c.2 else acc) false calls.

(** A region touches host page [p] of the mapping. *)
Definition touches (base cap : Z) (r : Region) (p : Z) : Prop :=
  start r - base < Z.min (p * HOST_PAGE + HOST_PAGE) cap /\ p * HOST_PAGE < start r + size r - base.

Definition guard_ok (m : Memory) : Prop :=
  Forall (fun r => 0 < size r) (regions m) /\
  forall p, 0 <= p -> p * HOST_PAGE < b_len (backing m) ->
    page_open (b_protect_calls (backing m)) p = true <->
    exists r, r ∈ regions m /\ touches (m_guest_base m) (b_len (backing m)) r p.

Lemma protect_open b off n acc p : b_owner b = Host true ->
  page_open (b_protect_calls (protect b off n acc)) p =
    if covers (off, n, acc) p then acc else page_open (b_protect_calls b) p.
Proof. intros E. unfold protect, page_open. rewrite E. simpl. by rewrite foldl_snoc. Qed.

Definition shared_page (rs : list Region) (base cap page : Z) : bool :=
  existsb (fun r => (saturating_sub (start r) base <? Z.min (page + HOST_PAGE) cap) &&
                    (page <? saturating_sub (region_end r) base)) rs.

Lemma reprotect_close_open n k cap base rs b p : b_owner b = Host true ->
  p * HOST_PAGE < cap ->
  page_open (b_protect_calls (reprotect_close n (k * HOST_PAGE) cap base rs b)) p =
    if (k <=? p) && (p <? k + Z.of_nat n) && negb (shared_page rs base cap (p * HOST_PAGE))
    then false else page_open (b_protect_calls b) p.
Proof.
  intros Ho Hp. unfold HOST_PAGE in *. revert k b Ho. induction n as [|n IH]; intros k b Ho; cbn [reprotect_close].
  - destruct (Z.leb_spec k p), (Z.ltb_spec p (k + Z.of_nat 0)); (done || lia).
  - fold (shared_page rs base cap (k * 4096)). unfold HOST_PAGE.
    set (b1 := if _ : bool then _ else b). replace (k * 4096 + 4096) with ((k + 1) * 4096) by lia.
    assert (Ho1 : b_owner b1 = Host true) by (unfold b1; destruct (_ && _); [by rewrite (proj2 (proj2 (protect_same _ _ _ _)))|done]).
    rewrite (IH (k + 1) b1 Ho1).
    assert (E1 : page_open (b_protect_calls b1) p =
      if (k =? p) && negb (shared_page rs base cap (p * 4096)) then false else page_open (b_protect_calls b) p).
    { unfold b1. destruct (negb (shared_page rs base cap (k * 4096)) && _) eqn:E.
      - rewrite protect_open by done. unfold covers, HOST_PAGE. cbn [fst snd].
        rewrite Z.div_mul by lia. apply andb_true_iff in E as [E _].
        destruct (Z.eqb_spec k p) as [->|]; [rewrite E|]; repeat zcase; (done || lia).
      - destruct (Z.eqb_spec k p) as [->|]; [|done]. simpl.
        destruct (Z.ltb_spec (p * 4096) (Z.min (p * 4096 + 4096) cap)); [|lia].
        rewrite andb_true_r in E. by rewrite E. }
    rewrite E1. destruct (Z.leb_spec (k + 1) p), (Z.leb_spec k p), (Z.ltb_spec p (k + 1 + Z.of_nat n)),
      (Z.ltb_spec p (k + Z.of_nat (S n))), (Z.eqb_spec k p); try lia; simpl; by destruct (negb _).
Qed.

Lemma shared_page_spec mo b rs base cap p : space_wf mo b rs base -> 0 <= p ->
  p * HOST_PAGE < cap ->
  shared_page rs base cap (p * HOST_PAGE) = true <-> exists r, r ∈ rs /\ touches base cap r p.
Proof.
  intros H Hp Hc. unfold shared_page, touches. rewrite existsb_exists. unfold HOST_PAGE in *.
  split; intros (r & Hr & Hx); exists r; [rewrite <- list_elem_of_In in Hr|];
    (split; [try done; by rewrite <- list_elem_of_In|]);
    destruct (region_ok_of _ _ _ _ _ H Hr) as (? & ? & ?);
    rewrite (region_end_ok _ _ _ _ _ H Hr) in *; unfold saturating_sub in *;
    rewrite andb_true_iff, !Z.ltb_lt in *; lia.
Qed.

(** The host pages [reprotect] works on are those the region touches. *)
Lemma reprotect_pages mo b rs base r p : space_wf mo b rs base -> region_ok mo base r -> 0 < size r ->
  0 <= p -> p * HOST_PAGE < b_len b ->
  let oend := Z.min (saturating_sub (saturating_add 64 (start r) (size r)) base) (b_len b) in
  oend = start r + size r - base /\ saturating_sub (start r) base = start r - base /\
  (touches base (b_len b) r p <-> (start r - base) / HOST_PAGE <= p < div_ceil oend HOST_PAGE).
Proof.
  intros H (H1 & H2 & H3) Hs Hp Hc oend. pose proof (span_bound _ _ _ _ H).
  pose proof (wf_extent _ _ _ _ H). pose proof (wf_base _ _ _ _ H).
  assert (E : oend = start r + size r - base)
    by (unfold oend, saturating_sub, saturating_add; lia).
  rewrite E. split; [done|]. split; [unfold saturating_sub; lia|].
  unfold touches, div_ceil, HOST_PAGE in *. split; intros; Z.div_mod_to_equations; lia.
Qed.

Lemma guard_ok_add m r : mem_wf m -> b_owner (backing m) = Host true -> 0 < size r ->
  mappable m (start r) (size r) -> guard_ok m -> guard_ok (add_region m r).
Proof.
  intros Hm Ho Hs Hmap [Hpos Hg].
  assert (Hr : region_ok (model m) (m_guest_base m) r) by (destruct Hmap as (? & ? & _); repeat split; [done|lia|done]).
  unfold add_region. set (m1 := set_regions m (regions m ++ [r])).
  destruct (reprotect_same m1 (start r) (size r) true) as (E1 & E2 & E3 & E4 & _ & _).
  unfold guard_ok. rewrite E2, E3, E4. cbn [m1 set_regions regions m_guest_base backing].
  split; [apply Forall_app; by repeat constructor|].
  intros p Hp Hc. destruct (reprotect_pages _ _ _ _ r p Hm Hr Hs Hp Hc) as (Eo & Es & Et).
  assert (Hopen : page_open (b_protect_calls (backing (reprotect m1 (start r) (size r) true))) p = true <->
    touches (m_guest_base m) (b_len (backing m)) r p \/ page_open (b_protect_calls (backing m)) p = true).
  { unfold reprotect. cbn [m1 set_regions backing m_guest_base]. rewrite Es. rewrite Eo in *. rewrite Et.
    set (lo := (start r - m_guest_base m) / HOST_PAGE) in *.
    set (hi := div_ceil (start r + size r - m_guest_base m) HOST_PAGE) in *.
    unfold HOST_PAGE in *. destruct (Z.leb_spec (hi * 4096) (lo * 4096)).
    - cbn [set_regions backing]. intuition lia.
    - cbn [set_backing backing]. rewrite protect_open by done. unfold covers, HOST_PAGE. cbn [fst snd].
      rewrite Z.div_mul by lia.
      destruct (Z.leb_spec lo p), (Z.ltb_spec (p * 4096) (lo * 4096 + (Z.min (hi * 4096) (b_len (backing m)) - lo * 4096)));
        simpl; intuition lia. }
  rewrite Hopen, (Hg p Hp Hc). split.
  - intros [?|(r' & ? & ?)]; [exists r|exists r']; rewrite elem_of_app, list_elem_of_singleton; tauto.
  - intros (r' & [?| ->%list_elem_of_singleton]%elem_of_app & ?); [right; by exists r'|by left].
Qed.

Lemma elem_of_delete_ne (rs : list Region) k r0 r : rs !! k = Some r0 ->
  r ∈ rs -> r = r0 \/ r ∈ delete k rs.
Proof.
  intros Hk Hr. rewrite (delete_Permutation rs k r0 Hk) in Hr. by apply elem_of_cons in Hr.
Qed.

Lemma elem_of_delete_sub (rs : list Region) k r0 r : rs !! k = Some r0 -> r ∈ delete k rs -> r ∈ rs.
Proof. intros Hk Hr. rewrite (delete_Permutation rs k r0 Hk). by apply elem_of_cons; right. Qed.

Lemma guard_ok_unmap m a sz : mem_wf m -> b_owner (backing m) = Host true ->
  guard_ok m -> guard_ok (unmap m a sz).2.
Proof.
  intros Hm Ho [Hpos Hg]. pose proof (mem_wf_unmap m a sz Hm) as Hm'.
  unfold unmap in *. destruct (list_find _ _) as [[k r]|] eqn:Ek; [|done].
  apply list_find_Some_iff in Ek as (Hk & [<- <-] & _). cbn [snd] in *.
  set (m1 := set_regions m (delete k (regions m))) in *.
  destruct (reprotect_same m1 (start r) (size r) false) as (E1 & E2 & E3 & E4 & _ & _).
  unfold mem_wf in Hm'. rewrite E1, E2, E3 in Hm'. cbn [m1 set_regions regions m_guest_base model] in Hm'.
  unfold guard_ok. rewrite E2, E3, E4. cbn [m1 set_regions regions m_guest_base backing].
  split; [by apply Forall_delete|]. intros p Hp Hc.
  pose proof (list_elem_of_lookup_2 _ _ _ Hk) as Hin.
  pose proof (region_ok_of _ _ _ _ _ Hm Hin) as Hr.
  assert (Hs : 0 < size r) by (rewrite list.Forall_forall in Hpos; auto).
  destruct (reprotect_pages _ _ _ _ r p Hm Hr Hs Hp Hc) as (Eo & Es & Et).
  assert (Hclose : page_open (b_protect_calls (backing (reprotect m1 (start r) (size r) false))) p =
    if bool_decide (touches (m_guest_base m) (b_len (backing m)) r p) &&
       negb (shared_page (delete k (regions m)) (m_guest_base m) (b_len (backing m)) (p * HOST_PAGE))
    then false else page_open (b_protect_calls (backing m)) p).
  { unfold reprotect. cbn [m1 set_regions backing m_guest_base regions]. rewrite Es. rewrite Eo in *.
    set (lo := (start r - m_guest_base m) / HOST_PAGE) in *.
    set (hi := div_ceil (start r + size r - m_guest_base m) HOST_PAGE) in *.
    rewrite (bool_decide_ext _ _ Et). unfold HOST_PAGE in *. destruct (Z.leb_spec (hi * 4096) (lo * 4096)).
    - rewrite bool_decide_eq_false_2 by lia. done.
    - cbn [set_backing backing]. rewrite (reprotect_close_open _ lo) by done.
      replace ((hi * 4096 - lo * 4096) / 4096) with (hi - lo) by (rewrite <- Z.mul_sub_distr_r, Z.div_mul; lia).
      rewrite Z2Nat.id by lia. unfold HOST_PAGE. destruct (Z.leb_spec lo p), (Z.ltb_spec p (lo + (hi - lo)));
        [rewrite bool_decide_eq_true_2 by lia|rewrite bool_decide_eq_false_2 by lia..]; done. }
  pose proof (shared_page_spec _ _ _ _ _ p Hm' Hp Hc) as Hsh.
  specialize (Hg p Hp Hc). rewrite Hclose, <- Hsh.
  destruct (bool_decide_reflect (touches (m_guest_base m) (b_len (backing m)) r p));
    destruct (shared_page _ _ _ _) eqn:Esh; simpl; try done.
  - split; [done|]. intros _. apply Hg. destruct (proj1 Hsh eq_refl) as (r' & ? & ?).
    exists r'. split; [by eapply elem_of_delete_sub|done].
  - split; [done|]. intros _. apply Hg. destruct (proj1 Hsh eq_refl) as (r' & ? & ?).
    exists r'. split; [by eapply elem_of_delete_sub|done].
  - split; [|done]. rewrite Hg. intros (r' & Hr' & Ht).
    destruct (elem_of_delete_ne _ _ _ _ Hk Hr') as [->|]; [done|]. apply Hsh. eauto.
Qed.

(** ** Reachable memories *)

Inductive reach : Memory -> Prop :=
  | reach_new ptr mo m : 0 <= model_span mo -> new ptr mo = Some m -> reach m
  | reach_host mo ram m : 0 <= b_guest_base ram -> bytes_wf (b_bytes ram) -> b_protect_calls ram = [] ->
      from_host_ram mo ram = Some m -> reach m
  | reach_map m a sz pr kd res m' : reach m -> in_width 64 a -> 0 < sz < 2 ^ 64 ->
      map m a sz pr kd = Some (res, m') -> reach m'
  | reach_unmap m a sz : reach m -> reach (unmap m a sz).2
  | reach_write m a v n res m' : reach m -> valid_elem n -> write m a v n = Some (res, m') -> reach m'
  | reach_load m a l res m' : reach m -> Forall (in_width 8) l ->
      write_bytes m a l = Some (res, m') -> reach m'.

Definition space_inv (m : Memory) : Prop :=
  mem_wf m /\ (b_owner (backing m) = Host true -> guard_ok m).

Lemma note_write_guard m a n : guard_ok m -> guard_ok (note_write m a n).
Proof.
  unfold guard_ok. by destruct (note_write_space m a n) as (_ & -> & -> & -> & _ & _).
Qed.

Lemma guard_ok_same m m' : regions m' = regions m -> m_guest_base m' = m_guest_base m ->
  b_len (backing m') = b_len (backing m) -> b_protect_calls (backing m') = b_protect_calls (backing m) ->
  guard_ok m -> guard_ok m'.
Proof. unfold guard_ok. by intros -> -> -> ->. Qed.

Lemma raw_write_same b off v n b' : raw_write b off v n = Some b' ->
  b_len b' = b_len b /\ b_protect_calls b' = b_protect_calls b /\ b_owner b' = b_owner b.
Proof. unfold raw_write. destruct (_ && _); [|done]. by intros [= <-]. Qed.

Lemma atomic_store_same b off v n b' : atomic_store_le b off v n = Some b' ->
  b_len b' = b_len b /\ b_protect_calls b' = b_protect_calls b /\ b_owner b' = b_owner b.
Proof.
  unfold atomic_store_le, plain_write. intros H.
  repeat (match type of H with context [if ?c then _ else _] => destruct c end);
    first [discriminate H|exact (raw_write_same _ _ _ _ _ H)].
Qed.

Lemma write_guard m a v n res m' : write m a v n = Some (res, m') ->
  b_owner (backing m') = b_owner (backing m) /\ (guard_ok m -> guard_ok m').
Proof.
  unfold write. destruct (region_at m a n) as [r m1] eqn:E.
  pose proof (region_at_mem m a n) as [i Hi]. rewrite E in Hi. cbn [snd] in Hi. subst m1.
  destruct r as [r|]; [destruct (kind r)|]; try (intros [= <- <-]; done).
  destruct (atomic_store_le _ _ _ _) as [b|] eqn:Eb; cbn [mbind option_bind]; [|done]. intros [= <- <-].
  apply atomic_store_same in Eb as (E1 & E2 & E3).
  set (m1 := set_backing _ b). rewrite (proj1 (proj2 (note_write_space m1 a n))). split; [done|].
  intros Hg. apply note_write_guard. by apply (guard_ok_same m).
Qed.

Lemma write_bytes_guard m a l res m' : write_bytes m a l = Some (res, m') ->
  b_owner (backing m') = b_owner (backing m) /\ (guard_ok m -> guard_ok m').
Proof.
  unfold write_bytes. destruct (region_for m a _); [|by intros [= <- <-]].
  unfold copy_in. destruct (_ && _); cbn [mbind option_bind]; [|done]. intros [= <- <-].
  set (m1 := set_backing _ _). rewrite (proj1 (proj2 (note_write_space m1 a _))). split; [done|].
  intros Hg. apply note_write_guard. by apply (guard_ok_same m).
Qed.

Lemma new_space ptr mo m : 0 <= model_span mo -> new ptr mo = Some m -> space_inv m.
Proof.
  intros Hs Hn.
  assert (Hn' : from_backing mo (boxed ptr (model_span mo) ∅) = Some m) by (by destruct mo).
  pose proof Hn' as Hw. apply from_backing_wf in Hw; [|cbn [boxed b_guest_base b_len]; lia..|apply bytes_wf_empty].
  split; [done|]. unfold from_backing in Hn'. destruct (fresh_code_pages _); cbn [mbind option_bind] in Hn'; simplify_eq. done.
Qed.

Lemma host_space mo ram m : 0 <= b_guest_base ram -> bytes_wf (b_bytes ram) -> b_protect_calls ram = [] ->
  from_host_ram mo ram = Some m -> space_inv m.
Proof.
  intros Hb Hw Hc. unfold from_host_ram. destruct (Z.leb_spec (b_guest_base ram) (model_span mo)); [|done].
  destruct (Z.leb_spec (model_span mo - b_guest_base ram) (b_len ram)); [|done]. cbn [negb]. intros Hn.
  pose proof Hn as Hwf. apply from_backing_wf in Hwf; [|done..]. split; [done|]. intros _.
  unfold from_backing in Hn. destruct (fresh_code_pages _); cbn [mbind option_bind] in Hn; simplify_eq.
  split; [constructor|]. cbn [backing regions]. rewrite Hc. intros p _ _. split; [done|].
  intros (r & Hr & _). by apply elem_of_nil in Hr.
Qed.

Lemma map_total m a sz : mem_wf m -> in_width 64 a -> 0 < sz < 2 ^ 64 ->
  mappable m a sz \/ ~ mappable m a sz.
Proof.
  intros _ _ _. unfold mappable.
  destruct (decide (m_guest_base m <= a)); [|tauto]. destruct (decide (a + sz <= mem_size m)); [|tauto].
  destruct (decide (Forall (fun r => disjoint r (mkMemRegion a sz R Ram)) (regions m))) as [H|H];
    rewrite list.Forall_forall in H; tauto.
Qed.

Lemma unmap_owner m a sz : b_owner (backing (unmap m a sz).2) = b_owner (backing m).
Proof.
  unfold unmap. destruct (list_find _ _) as [[k r]|]; [|done]. cbn [snd].
  by rewrite (proj2 (proj2 (proj2 (proj2 (proj2 (reprotect_same _ _ _ _)))))).
Qed.

(** A region just appended is the one [unmap] removes. *)
Lemma unmap_last m m' a sz pr kd : mappable m a sz -> 0 < sz ->
  regions m' = regions m ++ [mkMemRegion a sz pr kd] ->
  (unmap m' a sz).1 = Ok tt /\ regions (unmap m' a sz).2 = regions m.
Proof.
  intros (_ & _ & Hd) Hsz Er. unfold unmap. rewrite Er.
  assert (E : list_find (fun r => start r = a /\ size r = sz) (regions m ++ [mkMemRegion a sz pr kd]) =
    Some (length (regions m), mkMemRegion a sz pr kd)).
  { apply list_find_Some_iff. split; [by apply list_lookup_middle|]. split; [done|].
    intros j r Hj Hlt [? ?]. rewrite lookup_app_l in Hj by done.
    destruct (Hd r (list_elem_of_lookup_2 _ _ _ Hj)); simpl in *; lia. }
  rewrite E. split; [done|]. cbn [snd].
  rewrite (proj1 (proj2 (reprotect_same _ _ _ _))). cbn [set_regions regions]. by rewrite delete_middle, app_nil_r.
Qed.

Lemma reach_space_inv m : reach m -> space_inv m.
Proof.
  induction 1 as [ptr mo m ? ?|mo ram m ? ? ? ?|m a sz pr kd res m' _ [Hw Hg] Ha Hsz Hmap|m a sz _ [Hw Hg]
    |m a v n res m' _ [Hw Hg] Hn Hwr|m a l res m' _ [Hw Hg] Hl Hwr].
  - by eapply new_space.
  - by eapply host_space.
  - assert (Hns : model m <> SoftMmu) by (intros E; unfold map in Hmap; by rewrite E in Hmap).
    destruct (map_total m a sz Hw Ha Hsz) as [Hok|Hbad].
    + rewrite (map_accepts m a sz pr kd Hw Hns ltac:(unfold in_width; lia) Hok) in Hmap. simplify_eq.
      split; [apply mem_wf_add; (done || simpl; lia)|]. intros Ho.
      unfold add_region in Ho. rewrite (proj2 (proj2 (proj2 (proj2 (proj2 (reprotect_same _ _ _ _)))))) in Ho.
      apply guard_ok_add; try done; [simpl; lia|auto].
    + destruct (map_rejects m a sz pr kd Hw Hns Ha ltac:(unfold in_width; lia) Hbad) as [e He].
      rewrite He in Hmap. by simplify_eq.
  - split; [by apply mem_wf_unmap|]. intros Ho. rewrite unmap_owner in Ho. apply guard_ok_unmap; auto.
  - destruct (write_guard _ _ _ _ _ _ Hwr) as [Eo Hg'].
    destruct (write_refines m a v n Hw Hn) as (m1 & E & Hs). rewrite E in Hwr. simplify_eq.
    split; [apply Hs|]. rewrite Eo. auto.
  - destruct (write_bytes_guard _ _ _ _ _ Hwr) as [Eo Hg'].
    destruct (write_bytes_refines m a l Hw Hl) as (m1 & E & Hs). rewrite E in Hwr. simplify_eq.
    split; [apply Hs|]. rewrite Eo. auto.
Qed.

(** A host-backed space of four pages with a guard hook, one RAM, one ROM and one
    trapped region; the RAM and ROM regions share a host page. *)
Definition ex_ram : Backing := mkBacking 4096 16384 0 (Host true) ∅ [].
Definition ex_empty : Memory :=
  mkMemory (Flat 16384) ex_ram [] [0] 0 [] false (mkWatch [0] [0] [] 0) 0 0.
Definition map_ok (m : Memory) (a sz : Z) (pr : Prot) (kd : RegionKind) : Memory :=
  match map m a sz pr kd with Some (_, m') => m' | None => m end.
Definition ex_mem : Memory :=
  map_ok (map_ok (map_ok ex_empty 0 5000 RW Ram) 5000 1000 RX Rom) 8192 4096 RW TrapRegion.

Lemma map_ok_reach m a sz pr kd : in_width 64 a -> 0 < sz < 2 ^ 64 -> reach m -> reach (map_ok m a sz pr kd).
Proof.
  intros Ha Hsz Hm. unfold map_ok. destruct (map m a sz pr kd) as [[res m']|] eqn:E; [|done].
  by eapply reach_map.
Qed.

Lemma ex_mem_reach : reach ex_mem.
Proof.
  repeat (apply map_ok_reach; [split; lia|lia|]).
  apply (reach_host (Flat 16384) ex_ram); [done|apply bytes_wf_empty|done|reflexivity].
Qed.

Lemma ex_mem_wf : mem_wf ex_mem.
Proof. apply reach_space_inv, ex_mem_reach. Qed.

(** A memory with one region. *)
Lemma one_region_kind m r a n : regions m = [r] ->
  v_kind (view m) a n = if (a + n <? 2 ^ 64) && contains a (a + n) r then Some (kind r) else None.
Proof.
  intros E. cbn [view v_kind]. unfold region_for, checked_add. rewrite E.
  destruct (a + n <? 2 ^ 64); [|done]. cbn [mbind option_bind list_find andb].
  case_decide as Ec; destruct (contains a (a + n) r); try done; by destruct Ec.
Qed.

(** ** Forking *)

Lemma copy_regions_spec rs src child : Forall (fun r => 0 <= start r /\ 0 <= size r /\
    start r + size r <= b_len src /\ start r + size r <= b_len child /\ region_end r = start r + size r) rs ->
  bytes_wf (b_bytes src) -> bytes_wf (b_bytes child) ->
  exists c, copy_regions rs src child = Some c /\ b_len c = b_len child /\
    b_guest_base c = b_guest_base child /\ bytes_wf (b_bytes c) /\
    forall x, get_byte (b_bytes c) x = get_byte (b_bytes src) x \/
      ((forall r, r ∈ rs -> ~ start r <= x < start r + size r) /\
       get_byte (b_bytes c) x = get_byte (b_bytes child) x).
Proof.
  intros Hrs Hs. revert child Hrs. induction rs as [|r rs IH]; intros child Hrs Hc; cbn [copy_regions].
  - exists child. do 4 (split; [done|]). intros x. right. split; [|done]. intros r Hr. by apply elem_of_nil in Hr.
  - inversion Hrs as [|? ? (H1 & H2 & H3 & H4 & H5) Hrs']; subst. rewrite H5.
    rewrite (slice_in src (start r) (size r)) by (done || split; lia). cbn [mbind option_bind].
    set (l := load_bytes _ _ _).
    assert (Hl : Z.of_nat (length l) = size r) by (unfold l; rewrite length_load_bytes; lia).
    rewrite copy_in_in by (rewrite Hl; split; lia). cbn [mbind option_bind].
    set (child' := set_bytes child _).
    assert (Hc' : bytes_wf (b_bytes child')) by (apply bytes_wf_store; [done|by apply load_bytes_wf]).
    destruct (IH child' Hrs' Hc') as (c & E & E1 & E2 & E3 & E4).
    exists c. split; [exact E|]. split; [done|]. split; [done|]. split; [done|]. intros x.
    destruct (E4 x) as [?|[Hout ->]]; [by left|]. unfold child'. cbn [set_bytes b_bytes].
    rewrite get_store_bytes, Hl. destruct (Z.leb_spec (start r) x), (Z.ltb_spec x (start r + size r)); cbn [andb].
    + left. unfold l. rewrite (nth_lookup_Some _ (Z.to_nat (x - start r)) 0 (get_byte (b_bytes src) x)); [done|].
      unfold load_bytes. rewrite list_lookup_fmap, lookup_zseq by lia. simpl. do 2 f_equal. lia.
    + right. split; [|done]. intros r' [->|Hr']%elem_of_cons; [lia|by apply Hout].
    + right. split; [|done]. intros r' [->|Hr']%elem_of_cons; [lia|by apply Hout].
    + right. split; [|done]. intros r' [->|Hr']%elem_of_cons; [lia|by apply Hout].
Qed.

Lemma from_backing_ok mo b : b_guest_base b = 0 -> b_len b <= MAX_TRACKED_SPAN ->
  exists m, from_backing mo b = Some m /\ backing m = b /\ model m = mo /\ m_guest_base m = 0 /\
    dirty m = [] /\ code_range m = 0.
Proof.
  intros Hb Hl. unfold from_backing, fresh_code_pages. rewrite Hb.
  destruct (Z.leb_spec (saturating_add 64 0 (b_len b)) MAX_TRACKED_SPAN) as [|H]; [|unfold saturating_add in H; lia].
  cbn [mbind option_bind]. eexists. split; [done|]. done.
Qed.

(** The post-condition of a fork, for a child built over the bytes of [b]. *)
Lemma deep_copy_child m b : mem_wf m -> m_guest_base m = 0 -> b_guest_base b = 0 ->
  b_len b = mem_size m -> bytes_wf (b_bytes b) ->
  (forall r x, r ∈ regions m -> start r <= x < start r + size r ->
     get_byte (b_bytes b) x = get_byte (b_bytes (backing m)) x) ->
  exists c, from_backing (model m) b = Some c /\
    let c := set_regions c (regions m) in
    mem_wf c /\ regions c = regions m /\ dirty c = [] /\ code_range c = 0 /\
    forall r x, r ∈ regions m -> start r <= x < start r + size r ->
      v_byte (view c) x = v_byte (view m) x.
Proof.
  intros Hm H0 Hb Hl Hw Hx. pose proof (wf_top _ _ _ _ Hm). pose proof (wf_extent _ _ _ _ Hm). unfold mem_size in Hl.
  destruct (from_backing_ok (model m) b Hb ltac:(lia)) as (c & E & E1 & E2 & E3 & E4 & E5).
  exists c. split; [done|]. cbn zeta. cbn [set_regions regions dirty code_range]. split; [|split; [done|split; [done|split; [done|]]]].
  - unfold mem_wf. cbn [set_regions regions model backing m_guest_base]. rewrite E1, E2, E3.
    destruct Hm as [? ? ? ? ? ?]. rewrite H0 in *. split; try done; lia.
  - intros r x Hr Hin. cbn [view v_byte set_regions backing m_guest_base]. rewrite E1, E3, H0, !Z.sub_0_r. by apply (Hx r).
Qed.

Lemma deep_copy_boxed m ptr : mem_wf m -> m_guest_base m = 0 -> b_len (backing m) = mem_size m ->
  exists c, (m' ← from_backing (model m) (boxed ptr (b_len (backing m)) (b_bytes (backing m)));
             Some (Some (set_regions m' (regions m)))) = Some c /\
    match c with
    | None => is_host (backing m) = true
    | Some c => mem_wf c /\ regions c = regions m /\ dirty c = [] /\ code_range c = 0 /\
        forall r x, r ∈ regions m -> start r <= x < start r + size r ->
          v_byte (view c) x = v_byte (view m) x
    end.
Proof.
  intros Hm H0 Hl.
  destruct (deep_copy_child m (boxed ptr (b_len (backing m)) (b_bytes (backing m)))) as (c & E & H); try done.
  - by apply wf_bytes in Hm.
  - rewrite E. cbn [mbind option_bind]. eexists. split; [done|]. exact H.
Qed.

Lemma deep_copy_regions m ptr span : mem_wf m -> m_guest_base m = 0 ->
  model m = Flat span \/ model m = Reserved span ->
  exists c, (child ← copy_regions (regions m) (backing m) (boxed ptr span ∅);
             m' ← from_backing (model m) child;
             Some (Some (set_regions m' (regions m)))) = Some c /\
    match c with
    | None => is_host (backing m) = true
    | Some c => mem_wf c /\ regions c = regions m /\ dirty c = [] /\ code_range c = 0 /\
        forall r x, r ∈ regions m -> start r <= x < start r + size r ->
          v_byte (view c) x = v_byte (view m) x
    end.
Proof.
  intros Hm H0 Hmo. assert (Hsp : model_span (model m) = span) by (by destruct Hmo as [-> | ->]).
  destruct (copy_regions_spec (regions m) (backing m) (boxed ptr span ∅)) as (b & E & E1 & E2 & E3 & E4).
  - apply list.Forall_forall. intros r Hr. destruct (region_ok_of _ _ _ _ _ Hm Hr) as (? & ? & ?).
    pose proof (wf_base _ _ _ _ Hm). pose proof (wf_extent _ _ _ _ Hm).
    rewrite (region_end_ok _ _ _ _ _ Hm Hr). cbn [boxed b_len]. lia.
  - by apply wf_bytes in Hm.
  - apply bytes_wf_empty.
  - destruct (deep_copy_child m b) as (c & Ec & H); try done.
    + rewrite E1. by symmetry.
    + intros r x Hr Hx. destruct (E4 x) as [?|[Hout _]]; [done|]. by destruct (Hout r Hr).
    + rewrite E. cbn [mbind option_bind]. rewrite Ec. cbn [mbind option_bind]. eexists. split; [done|]. exact H.
Qed.

(** ** Theorems *)

(** C8: every memory the embedder and the guest can build by creating, mapping, unmapping,
    loading and storing keeps its regions pairwise disjoint, inside the guest space and
    backed, and — when the host mapping carries a guard-page hook — a host page is
    accessible exactly when some mapped region touches it, pages shared between a
    removed region and a surviving one included. *)
Theorem reachable_space_invariant (m : Memory) : reach m ->
  mem_wf m /\ (b_owner (backing m) = Host true -> guard_ok m).
Proof. apply reach_space_inv. Qed.

Lemma reachable_space_invariant_witness :
  page_open (b_protect_calls (backing (unmap ex_mem 0 5000).2)) 1 = true.
Proof.
  destruct (reachable_space_invariant (unmap ex_mem 0 5000).2 (reach_unmap _ _ _ ex_mem_reach)) as [_ H].
  apply H; [reflexivity|lia|vm_compute; reflexivity|].
  exists (mkMemRegion 5000 1000 RX Rom). split; [|split; vm_compute; reflexivity].
  apply list_elem_of_lookup_2 with 0%nat. reflexivity.
Defined.

(** [map] accepts a range exactly when it lies in the guest space and meets no mapped
    region; it then only appends the tag.  A refused [map] changes nothing.  Unmapping
    the region just mapped restores the region list. *)
Theorem map_exact (m : Memory) (a sz : Z) (pr : Prot) (kd : RegionKind) :
  mem_wf m -> model m <> SoftMmu -> in_width 64 a -> 0 < sz < 2 ^ 64 ->
  exists res m', map m a sz pr kd = Some (res, m') /\
    (res = Ok tt <-> mappable m a sz) /\
    regions m' = (match res with Ok _ => regions m ++ [mkMemRegion a sz pr kd] | Err _ => regions m end) /\
    (res = Ok tt -> (unmap m' a sz).1 = Ok tt /\ regions (unmap m' a sz).2 = regions m).
Proof.
  intros Hm Hns Ha Hsz. destruct (map_total m a sz Hm Ha Hsz) as [Hok|Hbad].
  - exists (Ok tt), (add_region m (mkMemRegion a sz pr kd)).
    split; [apply map_accepts; try done; unfold in_width; lia|]. split; [done|].
    destruct (reprotect_same (set_regions m (regions m ++ [mkMemRegion a sz pr kd])) a sz true) as (_ & Er & _).
    change (regions (add_region m (mkMemRegion a sz pr kd)) = regions m ++ [mkMemRegion a sz pr kd]) in Er.
    split; [exact Er|]. intros _. exact (unmap_last m _ a sz pr kd Hok (proj1 Hsz) Er).
  - destruct (map_rejects m a sz pr kd Hm Hns Ha ltac:(unfold in_width; lia) Hbad) as [e He].
    exists (Err e), m. by repeat split.
Qed.

Lemma map_exact_witness : exists res m', map ex_mem 6000 100 RW Ram = Some (res, m') /\
  (res = Ok tt <-> mappable ex_mem 6000 100) /\
  regions m' = (match res with Ok _ => regions ex_mem ++ [mkMemRegion 6000 100 RW Ram] | Err _ => regions ex_mem end) /\
  (res = Ok tt -> (unmap m' 6000 100).1 = Ok tt /\ regions (unmap m' 6000 100).2 = regions ex_mem).
Proof. apply (map_exact ex_mem 6000 100 RW Ram); [apply ex_mem_wf|done|split; lia|lia]. Defined.

(** C7: on a well-formed memory a scalar read or write never panics nor leaves the backing
    buffer, whatever the address, the host alignment and the last-region hint; it answers
    exactly as the guest's view prescribes (Unmapped, Mmio, the little-endian value, a
    store of exactly [n] bytes into RAM, a dropped store into ROM) and leaves a
    well-formed memory showing the prescribed view. *)
Theorem scalar_access_refines (m : Memory) (a v n : Z) : mem_wf m -> valid_elem n ->
  (exists m', read m a n = Some (g_read (view m) a n, m') /\ shows m' (view m)) /\
  (exists m', write m a v n = Some ((g_write (view m) a v n).1, m') /\
              shows m' (g_write (view m) a v n).2).
Proof. intros Hm Hn. split; [by apply read_refines|by apply write_refines]. Qed.

Lemma scalar_access_refines_witness :
  exists m', write ex_mem 100 0x1234 2 = Some (Ok tt, m') /\ shows m' (v_put (view ex_mem) 100 0x1234 2).
Proof. apply (scalar_access_refines ex_mem 100 0x1234 2 ex_mem_wf). unfold valid_elem; lia. Defined.

(** C36: [atomic_rmw] and [atomic_cas] return the old value and store what the operation
    prescribes, at the access width, on the host-atomic path and on the misaligned
    fallback alike; on ROM they return the value and store nothing. *)
Theorem atomic_access_refines (m : Memory) (a expected src n : Z) (op : RmwOp) :
  mem_wf m -> valid_elem n ->
  let rmw := g_rmw (view m) a n (fun old => Some (rmw_spec n old src op)) in
  let cas := g_rmw (view m) a n (fun old => if old =? wrap (8 * n) expected then Some src else None) in
  (exists m', atomic_rmw m a src n op = Some (rmw.1, m') /\ shows m' rmw.2) /\
  (exists m', atomic_cas m a expected src n = Some (cas.1, m') /\ shows m' cas.2).
Proof. intros Hm Hn. split; [by apply rmw_refines|by apply cas_refines]. Qed.

Lemma atomic_access_refines_witness :
  exists m', atomic_rmw ex_mem 101 7 4 RmwSub = Some (Ok 0, m') /\ shows m' (v_put (view ex_mem) 101 (2 ^ 32 - 7) 4).
Proof. apply (atomic_access_refines ex_mem 101 0 7 4 RmwSub ex_mem_wf). unfold valid_elem; lia. Defined.

(** The wide accesses (loader, embedder, x87) never panic on a well-formed memory and
    move exactly the bytes of the range, [write_bytes] into any mapped region and
    [write_ram_guest] into RAM only, dropping it on ROM. *)
Theorem wide_access_refines (m : Memory) (a n : Z) (l : list Z) :
  mem_wf m -> 0 <= n -> Forall (in_width 8) l ->
  read_bytes m a n = Some (g_read_bytes (view m) a n) /\
  read_ram_guest m a n = Some (g_read_ram (view m) a n) /\
  (exists m', write_bytes m a l = Some ((g_write_bytes (view m) a l).1, m') /\
              shows m' (g_write_bytes (view m) a l).2) /\
  (exists m', write_ram_guest m a l = Some ((g_write_ram (view m) a l).1, m') /\
              shows m' (g_write_ram (view m) a l).2).
Proof.
  intros Hm Hn Hl. destruct (read_bytes_refines m a n Hm Hn) as [H1 H2].
  split; [done|]. split; [done|]. split; [by apply write_bytes_refines|by apply write_ram_refines].
Qed.

Lemma wide_access_refines_witness :
  exists m', write_ram_guest ex_mem 5000 [1; 2] = Some (true, m') /\ shows m' (view ex_mem).
Proof.
  apply (wide_access_refines ex_mem 5000 0 [1; 2]); [apply ex_mem_wf|lia|].
  repeat constructor; unfold in_width; lia.
Defined.

(** [deep_copy] of a well-formed zero-based memory never panics; unless it declines
    (a host-backed [Reserved] span), the child has the same regions, every mapped byte of
    the parent, and clean SMC state. *)
Theorem deep_copy_faithful (m : Memory) (ptr : Z) : mem_wf m -> m_guest_base m = 0 ->
  model m <> SoftMmu -> (is_host (backing m) = false -> b_len (backing m) = mem_size m) ->
  exists c, deep_copy m ptr = Some c /\
    match c with
    | None => is_host (backing m) = true
    | Some c => mem_wf c /\ regions c = regions m /\ dirty c = [] /\ code_range c = 0 /\
        forall r x, r ∈ regions m -> start r <= x < start r + size r ->
          v_byte (view c) x = v_byte (view m) x
    end.
Proof.
  intros Hm Hb Hns Hlen. unfold deep_copy. rewrite Hb. cbn [Z.eqb negb].
  destruct (model m) as [span|span|] eqn:Em; [| |done]; destruct (b_owner (backing m)) as [|hook] eqn:Eo.
  - rewrite <- Em. apply (deep_copy_boxed m ptr Hm Hb). apply Hlen. unfold is_host. by rewrite Eo.
  - rewrite <- Em. apply (deep_copy_regions m ptr span Hm Hb (or_introl Em)).
  - rewrite <- Em. apply (deep_copy_regions m ptr span Hm Hb (or_intror Em)).
  - exists None. unfold is_host. by rewrite Eo.
Qed.

Lemma deep_copy_faithful_witness : exists c, deep_copy ex_mem 0 = Some (Some c) /\ regions c = regions ex_mem.
Proof.
  destruct (deep_copy_faithful ex_mem 0 ex_mem_wf ltac:(vm_compute; reflexivity)
    ltac:(vm_compute; discriminate) ltac:(vm_compute; discriminate)) as ([c|] & E & H).
  - exists c. exact (conj E (proj1 (proj2 H))).
  - apply (f_equal (fun o => match o with Some (Some _) => true | _ => false end)) in E.
    vm_compute in E. discriminate E.
Defined.
