(* ===== verification/PageTrack.v ===== *)
(** * Page tracking: SMC watermark and watched ranges
      (x86jit-core/src/memory.rs, x86jit-cranelift/src/codegen/mod.rs)

    Two facilities see every guest store: the self-modifying-code table, whose packed
    watermark generated code tests inline, and the embedder's watched data ranges.
    This file models the inline test of [note_store] and the compare-and-swap loop of
    [widen_code_range] as a step relation over any number of threads, and proves what
    the two facilities guarantee. *)

From S2P Require Import Prelude Features State Ir Alu Memory.
From Stdlib Require Import Sorting.Sorted.

(** ** The inlined store barrier *)

(** The watermark test on the page of the store's first byte. *)
Definition code_gate (cr addr : Z) : bool :=
  let store_page := Z.shiftr addr CODE_PAGE_BITS in
  let code_lo := Z.shiftr cr 32 in
  let code_len := wrap 32 cr in
  wrapping_sub 64 store_page code_lo <? code_len.

(** [note_store]: whether generated code calls the helper, then the call.  The watch
    bitmap is indexed without a bounds check: [None] is the out-of-bounds load. *)
Definition note_store (m : Memory) (addr n : Z) : option Memory :=
  if code_gate (code_range m) addr then Some (note_write m addr n)
  else if negb (w_count (watch m) =? 0) then
    let page := Z.shiftr addr CODE_PAGE_BITS in
    word ← nthZ (w_watch (watch m)) (Z.shiftr page 6);
    let hit := Z.land (Z.shiftr word (Z.land page 63)) 1 in
    let off_in_page := Z.land addr (CODE_PAGE_SIZE - 1) in
    let crosses := b2z (CODE_PAGE_SIZE <? off_in_page + n) in
    if negb (Z.lor hit crosses =? 0) then Some (note_write m addr n) else Some m
  else Some m.

(** ** The watermark loop under interleaving *)

(** One thread inside [widen_code_range(p)]: before its load, holding the value it
    loaded, and returned. *)
Inductive Widener : Type :=
  | WStart (p : Z)
  | WLoaded (p cur : Z)
  | WDone (p : Z).

(** The shared watermark and the threads. *)
Definition WState : Type := Z * list Widener.

Inductive wstep : WState -> WState -> Prop :=
  | w_load cr ts i p : ts !! i = Some (WStart p) ->
      wstep (cr, ts) (cr, <[i := WLoaded p cr]> ts)
  | w_return cr ts i p cur : ts !! i = Some (WLoaded p cur) -> widen_next cur p = None ->
      wstep (cr, ts) (cr, <[i := WDone p]> ts)
  | w_cas_ok cr ts i p packed : ts !! i = Some (WLoaded p cr) -> widen_next cr p = Some packed ->
      wstep (cr, ts) (packed, <[i := WDone p]> ts)
  | w_cas_fail cr ts i p cur packed : ts !! i = Some (WLoaded p cur) -> widen_next cur p = Some packed ->
      wstep (cr, ts) (cr, <[i := WLoaded p cr]> ts).

(** ** Watermark arithmetic *)

Definition wlo (cr : Z) : Z := Z.shiftr cr 32.
Definition wlen (cr : Z) : Z := wrap 32 cr.

(** The highest page for which the packed length cannot overflow into [lo]. *)
Definition PMAX : Z := 2 ^ 32 - 3.

Definition wm_ok (cr : Z) : Prop :=
  0 <= cr /\ wlo cr + wlen cr <= PMAX + 2 /\ (1 <= wlo cr -> wlo cr + wlen cr <= PMAX + 1).

(** Page [p] passes the inline test. *)
Definition covered (cr p : Z) : Prop := wlo cr <= p < wlo cr + wlen cr.

Lemma wlen_range cr : 0 <= wlen cr < 2 ^ 32.
Proof. apply (wrap_range 32). lia. Qed.

Lemma wlo_range cr : 0 <= cr -> 0 <= wlo cr.
Proof. intros. by apply Z.shiftr_nonneg. Qed.

Lemma land32 x : Z.land x 0xffffffff = wrap 32 x.
Proof. change 0xffffffff with (Z.ones 32). by apply wrap_ones. Qed.

Lemma pack_decode lo len : 0 <= lo < 2 ^ 32 -> 0 <= len < 2 ^ 32 ->
  let cr := Z.lor (wrap 64 (Z.shiftl lo 32)) len in wlo cr = lo /\ wlen cr = len /\ 0 <= cr.
Proof.
  intros Hlo Hlen. cbn zeta. assert (E : wrap 64 (Z.shiftl lo 32) = Z.shiftl lo 32).
  { apply wrap_small. rewrite Z.shiftl_mul_pow2 by lia. split; [lia|].
    change (2 ^ 64) with (2 ^ 32 * 2 ^ 32). apply Z.mul_lt_mono_pos_r; lia. }
  rewrite E. split; [|split].
  - unfold wlo. apply Z.bits_inj'. intros i Hi. rewrite Z.shiftr_spec, Z.lor_spec, Z.shiftl_spec by lia.
    rewrite (in_width_high 32 len) by (done || lia). rewrite orb_false_r. f_equal. lia.
  - unfold wlen. apply Z.bits_inj'. intros i Hi. rewrite wrap_testbit, Z.lor_spec, Z.shiftl_spec by lia.
    destruct (Z.ltb_spec i 32); cbn [andb].
    + by rewrite Z.testbit_neg_r by lia.
    + by rewrite (in_width_high 32 len) by (done || lia).
  - apply Z.lor_nonneg. split; [|lia]. apply Z.shiftl_nonneg. lia.
Qed.

Lemma gate_covered cr p : wm_ok cr -> 0 <= p < 2 ^ 64 ->
  (wrapping_sub 64 p (wlo cr) <? wlen cr) = true <-> covered cr p.
Proof.
  intros (H1 & H2 & _) Hp. pose proof (wlen_range cr). pose proof (wlo_range cr H1).
  rewrite Z.ltb_lt. unfold covered, wrapping_sub, PMAX in *. destruct (Z.ltb_spec p (wlo cr)).
  - unfold wrap. replace ((p - wlo cr) mod 2 ^ 64) with (p - wlo cr + 2 ^ 64); [lia|].
    apply (Z.mod_unique _ _ (-1)); lia.
  - rewrite wrap_small by (unfold in_width; lia). lia.
Qed.

Definition wm_le (a b : Z) : Prop := forall q, covered a q -> covered b q.

#[global] Instance wm_le_preorder : PreOrder wm_le.
Proof. split; [by intros ? ?|]. intros a b c H1 H2 q Hq. auto. Qed.

(** A turn of the loop either finds the page covered or proposes a range that covers it
    and everything covered before. *)
Lemma widen_next_spec cr p : wm_ok cr -> 0 <= p <= PMAX ->
  match widen_next cr p with
  | None => covered cr p
  | Some packed => wm_ok packed /\ wm_le cr packed /\ covered packed p
  end.
Proof.
  intros Hcr Hp. pose proof Hcr as (H1 & H2 & H3). pose proof (wlen_range cr). pose proof (wlo_range cr H1).
  unfold widen_next. rewrite land32. fold (wlo cr) (wlen cr).
  assert (Hp64 : 0 <= p < 2 ^ 64) by (unfold PMAX in *; lia).
  destruct (negb (wlen cr =? 0) && _) eqn:E.
  { apply andb_true_iff in E as [_ E]. by apply gate_covered in E. }
  assert (Hnc : ~ covered cr p).
  { intros Hc. assert (wlen cr <> 0) by (unfold covered in Hc; lia).
    apply gate_covered in Hc; [|done..]. rewrite Hc, andb_true_r in E. destruct (Z.eqb_spec (wlen cr) 0); done. }
  unfold PMAX in *. destruct (Z.eqb_spec (wlen cr) 0) as [E0|E0].
  - rewrite Z.min_id, Z.max_id. replace (p - p + 2) with 2 by lia.
    destruct (pack_decode (saturating_sub p 1) 2) as (D1 & D2 & D3); [unfold saturating_sub; lia|lia|].
    set (packed := Z.lor _ _) in *. destruct (Z.eqb_spec packed cr); [subst; lia|].
    unfold wm_ok, wm_le, covered, PMAX. rewrite D1, D2. unfold saturating_sub. repeat split; try lia.
  - unfold covered in Hnc.
    destruct (pack_decode (saturating_sub (Z.min (wlo cr + 1) p) 1)
      (Z.max (wlo cr + wlen cr - 1) p - Z.min (wlo cr + 1) p + 2)) as (D1 & D2 & D3); [unfold saturating_sub; lia|lia|].
    set (packed := Z.lor _ _) in *. destruct (Z.eqb_spec packed cr) as [Ep|].
    + rewrite Ep in D1, D2. unfold covered, saturating_sub in *. lia.
    + unfold wm_ok, wm_le, covered, PMAX. rewrite D1, D2. unfold saturating_sub. repeat split; try lia.
Qed.

(** *** Interleavings *)

Definition page_of (t : Widener) : Z := match t with WStart p | WLoaded p _ | WDone p => p end.

Definition thread_ok (cr : Z) (t : Widener) : Prop :=
  0 <= page_of t <= PMAX /\
  match t with
  | WStart _ => True
  | WLoaded _ cur => wm_ok cur /\ wm_le cur cr
  | WDone p => covered cr p
  end.

Definition wstate_ok (s : WState) : Prop := wm_ok s.1 /\ Forall (thread_ok s.1) s.2.

Lemma thread_ok_mono cr cr' t : wm_le cr cr' -> thread_ok cr t -> thread_ok cr' t.
Proof.
  intros Hle [Hp Ht]. split; [done|]. destruct t; [done| |by apply Hle].
  destruct Ht as [? ?]. split; [done|by etransitivity].
Qed.

Lemma wstep_ok s s' : wstep s s' -> wstate_ok s -> wm_le s.1 s'.1 /\ wstate_ok s'.
Proof.
  intros Hs [Hc Ht].
  assert (Hget : forall cr ts i t, Forall (thread_ok cr) ts -> ts !! i = Some t -> thread_ok cr t)
    by (intros; by eapply Forall_lookup_1).
  destruct Hs as [cr ts i p Hi|cr ts i p cur Hi Hn|cr ts i p packed Hi Hn|cr ts i p cur packed Hi Hn];
    cbn [fst snd] in *; destruct (Hget _ _ _ _ Ht Hi) as [Hp Hx]; cbn [page_of] in Hp.
  - split; [done|]. split; [done|]. apply Forall_insert; [done|]. split; [done|]. split; [done|reflexivity].
  - split; [done|]. split; [done|]. apply Forall_insert; [done|]. split; [done|]. apply Hx.
    pose proof (widen_next_spec cur p (proj1 Hx) Hp) as H. by rewrite Hn in H.
  - pose proof (widen_next_spec cr p Hc Hp) as H. rewrite Hn in H. destruct H as (? & ? & ?).
    split; [done|]. split; [done|]. apply Forall_insert; [|done].
    eapply list.Forall_impl; [exact Ht|]. intros t. by apply thread_ok_mono.
  - split; [done|]. split; [done|]. apply Forall_insert; [done|]. split; [done|]. split; [done|reflexivity].
Qed.

Lemma wsteps_ok s s' : rtc wstep s s' -> wstate_ok s -> wm_le s.1 s'.1 /\ wstate_ok s'.
Proof.
  induction 1 as [s|s s1 s2 Hs _ IH]; intros Hok; [done|].
  destruct (wstep_ok _ _ Hs Hok) as [H1 H2]. destruct (IH H2) as [H3 H4].
  split; [by etransitivity|done].
Qed.

(** ** Bitsets *)

Definition words_ok (t : list Z) : Prop := Forall (in_width 64) t.

Lemma word_bit_eq p : 0 <= p -> word_bit p = (p / 64, 2 ^ (p mod 64)).
Proof.
  intros Hp. unfold word_bit. f_equal.
  - by rewrite Z.shiftr_div_pow2.
  - change 63 with (Z.ones 6). rewrite Z.land_ones, Z.shiftl_1_l by lia. change (2 ^ 6) with 64. apply wrap_small.
    pose proof (Z.mod_pos_bound p 64 ltac:(lia)). split; [pose proof (pow2_pos (p mod 64)); lia|].
    apply Z.pow_lt_mono_r; lia.
Qed.

Lemma page_split p q : 0 <= p -> 0 <= q -> p = q <-> p / 64 = q / 64 /\ p mod 64 = q mod 64.
Proof. intros. split; [by intros ->|]. intros [? ?]. Z.div_mod_to_equations. lia. Qed.

Definition in_table (t : list Z) (p : Z) : Prop := 0 <= p < 64 * Z.of_nat (length t).

Lemma nthZ_word t p : in_table t p -> exists x, nthZ t (p / 64) = Some x /\ t !! Z.to_nat (p / 64) = Some x.
Proof.
  intros [Hp1 Hp2]. assert (0 <= p / 64 < Z.of_nat (length t)) by (Z.div_mod_to_equations; lia).
  unfold nthZ. destruct (Z.ltb_spec (p / 64) 0); [lia|].
  destruct (lookup_lt_is_Some_2 t (Z.to_nat (p / 64))) as [x Hx]; [lia|]. rewrite Hx. eauto.
Qed.

Lemma nthZ_out t p : 0 <= p -> ~ in_table t p -> nthZ t (p / 64) = None.
Proof.
  intros Hp Hn. assert (Z.of_nat (length t) <= p / 64) by (unfold in_table in Hn; Z.div_mod_to_equations; lia).
  unfold nthZ. destruct (Z.ltb_spec (p / 64) 0); [lia|]. apply lookup_ge_None_2. lia.
Qed.

(** The bit of page [p], zero outside the table. *)
Lemma bit_get_eq t p : 0 <= p ->
  bit_get t p = match t !! Z.to_nat (p / 64) with Some x => Z.testbit x (p mod 64) | None => false end.
Proof.
  intros Hp. unfold bit_get. rewrite word_bit_eq by done. unfold nthZ.
  assert (0 <= p / 64) by (Z.div_mod_to_equations; lia). destruct (Z.ltb_spec (p / 64) 0); [lia|].
  destruct (t !! _); [|done]. apply test_pow2. Z.div_mod_to_equations; lia.
Qed.

Lemma bit_insert t p q x y : 0 <= p -> 0 <= q -> t !! Z.to_nat (p / 64) = Some x ->
  bit_get (<[Z.to_nat (p / 64) := y]> t) q =
    if q / 64 =? p / 64 then Z.testbit y (q mod 64) else bit_get t q.
Proof.
  intros Hp Hq Hx. rewrite !bit_get_eq by done.
  assert (0 <= p / 64 /\ 0 <= q / 64) by (Z.div_mod_to_equations; lia).
  destruct (Z.eqb_spec (q / 64) (p / 64)) as [->|].
  - rewrite list_lookup_insert_eq by (by eapply lookup_lt_Some). done.
  - rewrite list_lookup_insert_ne by lia. done.
Qed.

Lemma testbit_lor_pow x k j : 0 <= k -> 0 <= j -> Z.testbit (Z.lor x (2 ^ k)) j = (j =? k) || Z.testbit x j.
Proof.
  intros. rewrite Z.lor_spec, Z.pow2_bits_eqb by lia. rewrite Z.eqb_sym. apply orb_comm.
Qed.
Lemma testbit_clear_pow x k j : 0 <= k -> 0 <= j < 64 ->
  Z.testbit (Z.land x (unot 64 (2 ^ k))) j = negb (j =? k) && Z.testbit x j.
Proof.
  intros. unfold unot. rewrite Z.land_spec, wrap_testbit, Z.lnot_spec, Z.pow2_bits_eqb by lia.
  destruct (Z.ltb_spec j 64); [|lia]. rewrite (Z.eqb_sym k). cbn [andb]. apply andb_comm.
Qed.

Lemma bit_set_get t p q : 0 <= p -> 0 <= q -> in_table t p ->
  bit_get (bit_set t p) q = (q =? p) || bit_get t q.
Proof.
  intros Hp Hq Ht. unfold bit_set. rewrite word_bit_eq by done.
  destruct (nthZ_word t p Ht) as (x & -> & Hx). rewrite (bit_insert t p q x) by done.
  pose proof (page_split q p Hq Hp) as Hsp.
  destruct (Z.eqb_spec (q / 64) (p / 64)) as [E|E].
  - rewrite testbit_lor_pow by (Z.div_mod_to_equations; lia). rewrite (bit_get_eq t q) by done. rewrite E, Hx.
    f_equal. destruct (Z.eqb_spec (q mod 64) (p mod 64)), (Z.eqb_spec q p); tauto.
  - destruct (Z.eqb_spec q p); [tauto|done].
Qed.

Lemma bit_clear_get t p q : 0 <= p -> 0 <= q ->
  bit_get (bit_clear t p) q = negb (q =? p) && bit_get t q.
Proof.
  intros Hp Hq. unfold bit_clear. rewrite word_bit_eq by done.
  destruct (decide (in_table t p)) as [Ht|Ht].
  - destruct (nthZ_word t p Ht) as (x & -> & Hx). rewrite (bit_insert t p q x) by done.
    pose proof (page_split q p Hq Hp) as Hsp.
    destruct (Z.eqb_spec (q / 64) (p / 64)) as [E|E].
    + rewrite testbit_clear_pow by (Z.div_mod_to_equations; lia). rewrite (bit_get_eq t q) by done. rewrite E, Hx.
      f_equal. destruct (Z.eqb_spec (q mod 64) (p mod 64)), (Z.eqb_spec q p); tauto.
    + destruct (Z.eqb_spec q p); [tauto|done].
  - rewrite nthZ_out by done. destruct (Z.eqb_spec q p) as [->|]; [|done].
    unfold bit_get. rewrite word_bit_eq by done. by rewrite nthZ_out.
Qed.

Lemma bit_set_length t p : length (bit_set t p) = length t.
Proof. unfold bit_set. destruct (word_bit p), (nthZ t _); [apply length_insert|done]. Qed.
Lemma bit_clear_length t p : length (bit_clear t p) = length t.
Proof. unfold bit_clear. destruct (word_bit p), (nthZ t _); [apply length_insert|done]. Qed.
Lemma bit_get_in t p : 0 <= p -> bit_get t p = true -> in_table t p.
Proof.
  intros Hp H. destruct (decide (in_table t p)) as [|Hn]; [done|].
  unfold bit_get in H. rewrite word_bit_eq in H by done. by rewrite nthZ_out in H.
Qed.

(** ** Self-modifying-code invariant *)

(** The code table reaches only pages the watermark can pack, and every tagged page
    passes the inline test. *)
Record smc_ok (m : Memory) : Prop := {
  smc_table : 64 * Z.of_nat (length (code_page m)) <= PMAX + 1;
  smc_range : wm_ok (code_range m);
  smc_covered : forall p, 0 <= p -> is_code_page m p = true -> covered (code_range m) p;
}.

Lemma code_page_range_nonneg a n p : 0 <= a -> p ∈ code_page_range a n -> 0 <= p.
Proof.
  intros Ha Hp. unfold code_page_range in Hp. apply zseq_elem in Hp.
  assert (0 <= Z.shiftr a CODE_PAGE_BITS) by (by apply Z.shiftr_nonneg). lia.
Qed.

Lemma mark_code_page_smc m p : 0 <= p -> smc_ok m ->
  let m' := mark_code_page m p in
  smc_ok m' /\ length (code_page m') = length (code_page m) /\
  (forall q, 0 <= q -> is_code_page m q = true -> is_code_page m' q = true) /\
  (in_table (code_page m) p -> is_code_page m' p = true) /\
  (forall q, 0 <= q -> is_code_page m' q = true -> q = p \/ is_code_page m q = true).
Proof.
  intros Hp [Ht Hr Hc]. unfold mark_code_page. rewrite word_bit_eq by done.
  destruct (decide (in_table (code_page m) p)) as [Hin|Hout].
  - destruct (nthZ_word _ _ Hin) as (x & -> & _). set (m1 := set_code_page m _).
    assert (Hcp : code_page (widen_code_range m1 p) = bit_set (code_page m) p)
      by (unfold widen_code_range; by destruct (widen_next _ _)).
    pose proof (widen_next_spec (code_range m) p Hr ltac:(destruct Hin; lia)) as Hw.
    assert (Hbits : forall q, 0 <= q -> is_code_page (widen_code_range m1 p) q = (q =? p) || is_code_page m q).
    { intros q Hq. unfold is_code_page. rewrite Hcp. by apply bit_set_get. }
    cbn zeta. rewrite Hcp, bit_set_length.
    split; [|split; [done|split; [|split]]].
    + assert (Hle : wm_ok (code_range (widen_code_range m1 p)) /\
        wm_le (code_range m) (code_range (widen_code_range m1 p)) /\ covered (code_range (widen_code_range m1 p)) p).
      { unfold widen_code_range, m1. cbn [code_range set_code_page].
        destruct (widen_next (code_range m) p); cbn [code_range set_code_range]; [done|].
        split; [done|]. split; [done|]. done. }
      destruct Hle as (H1 & H2 & H3). split; [by rewrite Hcp, bit_set_length|done|].
      intros q Hq. rewrite Hbits by done. destruct (Z.eqb_spec q p) as [->|]; [done|]. intros. by apply H2, Hc.
    + intros q Hq Hcq. by rewrite Hbits, Hcq, orb_true_r.
    + intros _. by rewrite Hbits, Z.eqb_refl.
    + intros q Hq. rewrite Hbits by done. destruct (Z.eqb_spec q p); [by left|by right].
  - rewrite nthZ_out by done. cbn zeta. split; [by split|]. split; [done|]. split; [done|]. split; [done|]. by right.
Qed.

Lemma mark_code_smc m a n : 0 <= a -> smc_ok m ->
  let m' := mark_code m a n in
  smc_ok m' /\
  (forall p, p ∈ code_page_range a n -> in_table (code_page m) p -> is_code_page m' p = true) /\
  (forall q, 0 <= q -> is_code_page m' q = true <->
     is_code_page m q = true \/ (q ∈ code_page_range a n /\ in_table (code_page m) q)).
Proof.
  intros Ha. unfold mark_code. pose proof (fun p => code_page_range_nonneg a n p Ha) as Hpos.
  revert m Hpos. generalize (code_page_range a n) as ps.
  induction ps as [|p ps IH]; intros m Hpos Hm; cbn [foldl].
  { split; [done|]. split; [by intros p ?%elem_of_nil|]. intros q _.
    split; [by left|]. intros [?|[?%elem_of_nil _]]; done. }
  assert (Hp : 0 <= p) by (apply Hpos; by constructor).
  destruct (mark_code_page_smc m p Hp Hm) as (Hm' & Hlen & Hmono & Hset & Hback).
  destruct (IH (mark_code_page m p)) as (H1 & H2 & H3); [intros q ?; apply Hpos; by constructor|done|].
  assert (Hit : forall q, in_table (code_page (mark_code_page m p)) q <-> in_table (code_page m) q)
    by (intros q; unfold in_table; by rewrite Hlen).
  assert (H : forall q, 0 <= q -> is_code_page (foldl mark_code_page (mark_code_page m p) ps) q = true <->
     is_code_page m q = true \/ (q ∈ p :: ps /\ in_table (code_page m) q)).
  { intros q Hq. rewrite H3, Hit, elem_of_cons by done. split.
    - intros [Hx|[? ?]]; [|tauto]. destruct (Hback q Hq Hx) as [->|]; [|by left].
      destruct (decide (in_table (code_page m) p)) as [|Hn]; [tauto|]. left.
      destruct (decide (in_table (code_page (mark_code_page m p)) p)) as [Hi|Hi]; [by apply Hit in Hi|].
      destruct Hi. by apply bit_get_in.
    - intros [Hx|[[->|?] ?]]; [by left; apply Hmono|by left; apply Hset|by right]. }
  split; [done|]. split; [|done].
  intros q Hq Hi. apply H; [by apply Hpos|]. by right.
Qed.

(** ** What [note_write] records *)

Lemma note_write_noop m a n :
  (forall p, p ∈ code_page_range a n -> is_code_page m p = false /\
     (w_count (watch m) <> 0 -> is_watched (watch m) p = false)) ->
  note_write m a n = m.
Proof.
  unfold note_write. destruct (Z.eqb_spec (w_count (watch m)) 0) as [E|E]; cbn [negb];
    induction (code_page_range a n) as [|p ps IH]; intros H; cbn [foldl]; try done;
    destruct (H p ltac:(by constructor)) as [Hc Hw]; unfold note_write_page at 2; rewrite Hc; cbn [andb];
    try rewrite (Hw E); apply IH; intros; apply H; by constructor.
Qed.

(** [q] is one of the pages of the store. *)
Definition touched (a n q : Z) : bool := existsb (Z.eqb q) (code_page_range a n).

Lemma mark_dirty_get w p q : 0 <= p -> 0 <= q -> length (w_dirty w) = length (w_watch w) ->
  is_watched w p = true ->
  bit_get (w_dirty (mark_dirty w p)) q = (q =? p) || bit_get (w_dirty w) q.
Proof.
  intros Hp Hq Hl Hw. apply bit_get_in in Hw as Hin; [|done]. unfold in_table in Hin. rewrite <- Hl in Hin.
  unfold mark_dirty. rewrite word_bit_eq by done. destruct (nthZ_word (w_dirty w) p Hin) as (x & E & Hx).
  rewrite E. change (Z.land x (2 ^ (p mod 64)) =? 0) with (Z.land x (2 ^ (p mod 64)) =? 0).
  destruct (Z.land x (2 ^ (p mod 64)) =? 0) eqn:Ez; cbn [w_dirty].
  - rewrite <- (bit_set_get (w_dirty w) p q Hp Hq Hin). unfold bit_set. rewrite word_bit_eq, E by done. done.
  - destruct (Z.eqb_spec q p) as [->|]; [|done]. rewrite bit_get_eq, Hx by done. rewrite <- test_pow2 by (Z.div_mod_to_equations; lia).
    unfold test. by rewrite Ez.
Qed.

Lemma mark_dirty_same w p : w_watch (mark_dirty w p) = w_watch w /\ w_words (mark_dirty w p) = w_words w /\
  w_count (mark_dirty w p) = w_count w /\ length (w_dirty (mark_dirty w p)) = length (w_dirty w).
Proof.
  unfold mark_dirty. destruct (word_bit p) as [i x]. destruct (nthZ (w_dirty w) i); [|done].
  destruct (_ =? 0); [|done]. cbn [w_watch w_words w_count w_dirty]. by rewrite length_insert.
Qed.

(** The effect of the page loop, for any list of pages. *)
Lemma note_pages_spec w ps m : Forall (fun p => 0 <= p) ps ->
  length (w_dirty (watch m)) = length (w_watch (watch m)) ->
  let m' := foldl (note_write_page w) m ps in
  code_page m' = code_page m /\ code_range m' = code_range m /\
  dirty m' = dirty m ++ filter (fun p => is_code_page m p = true) ps /\
  dirty_flag m' = dirty_flag m || existsb (is_code_page m) ps /\
  w_watch (watch m') = w_watch (watch m) /\ w_words (watch m') = w_words (watch m) /\
  w_count (watch m') = w_count (watch m) /\
  length (w_dirty (watch m')) = length (w_dirty (watch m)) /\
  forall q, 0 <= q -> bit_get (w_dirty (watch m')) q =
    bit_get (w_dirty (watch m)) q || (w && existsb (Z.eqb q) ps && is_watched (watch m) q).
Proof.
  intros Hps. revert m. induction Hps as [|p ps Hp Hps IH]; intros m Hl; cbn [foldl existsb].
  - cbn zeta. rewrite app_nil_r, orb_false_r. do 8 (split; [done|]). intros q _. by rewrite andb_false_r, orb_false_r.
  - set (m1 := note_write_page w m p).
    assert (E : code_page m1 = code_page m /\ code_range m1 = code_range m /\
      dirty m1 = dirty m ++ (if is_code_page m p then [p] else []) /\
      dirty_flag m1 = dirty_flag m || is_code_page m p /\
      watch m1 = if w && is_watched (watch m) p then mark_dirty (watch m) p else watch m).
    { unfold m1, note_write_page. destruct (is_code_page m p);
        cbn [watch set_dirty_flag set_dirty]; destruct (w && is_watched (watch m) p);
        rewrite ?orb_true_r, ?orb_false_r, ?app_nil_r; done. }
    destruct E as (E1 & E2 & E3 & E4 & E5).
    assert (Ew : w_watch (watch m1) = w_watch (watch m) /\ w_words (watch m1) = w_words (watch m) /\
      w_count (watch m1) = w_count (watch m) /\ length (w_dirty (watch m1)) = length (w_dirty (watch m))).
    { rewrite E5. destruct (w && _); [apply mark_dirty_same|done]. }
    destruct Ew as (W1 & W2 & W3 & W4).
    destruct (IH m1 ltac:(by rewrite W1, W4)) as (F1 & F2 & F3 & F4 & F5 & F6 & F7 & F8 & F9).
    assert (Hcode : forall q, is_code_page m1 q = is_code_page m q) by (intros; unfold is_code_page; by rewrite E1).
    assert (Hwat : forall q, is_watched (watch m1) q = is_watched (watch m) q) by (intros; unfold is_watched; by rewrite W1).
    cbn zeta. rewrite F1, F2, F3, F4, F5, F6, F7, F8, E1, E2, E3, E4, W1, W2, W3, W4.
    split; [done|]. split; [done|]. split.
    { rewrite filter_cons. rewrite <- (app_assoc (dirty m)). f_equal.
      rewrite (list_filter_iff (fun p => is_code_page m1 p = true) (fun p => is_code_page m p = true))
        by (intros q; by rewrite Hcode).
      destruct (is_code_page m p) eqn:Ec; case_decide; congruence || done. }
    split.
    { rewrite (existsb_pointwise _ _ ps Hcode). by rewrite orb_assoc. }
    do 4 (split; [done|]). intros q Hq. rewrite F9, Hwat, E5 by done.
    destruct w; cbn [andb].
    + destruct (is_watched (watch m) p) eqn:Ep; cbn [andb].
      * rewrite mark_dirty_get by done. destruct (Z.eqb_spec q p) as [->|]; [|done].
        rewrite Ep. cbn [orb]. by rewrite orb_true_r.
      * destruct (Z.eqb_spec q p) as [->|]; [|done]. rewrite Ep. by rewrite !andb_false_r.
    + done.
Qed.

(** ** The inline barrier against the precise one *)

Lemma page_shift a : Z.shiftr a CODE_PAGE_BITS = a / 4096.
Proof. unfold CODE_PAGE_BITS. by rewrite Z.shiftr_div_pow2. Qed.

Lemma code_page_range_eq a n : 0 <= a -> 0 < n -> a + n <= 2 ^ 64 ->
  code_page_range a n = zseq (a / 4096) (Z.to_nat ((a + n - 1) / 4096 - a / 4096 + 1)).
Proof.
  intros Ha Hn Hl. unfold code_page_range, saturating_add. rewrite !page_shift.
  do 3 f_equal. f_equal. f_equal. lia.
Qed.

Lemma store_pages a n q : 0 <= a -> 0 < n <= 4096 -> a + n <= 2 ^ 64 ->
  q ∈ code_page_range a n -> q = a / 4096 \/ (q = a / 4096 + 1 /\ 4096 < a mod 4096 + n).
Proof.
  intros Ha Hn Hl. rewrite code_page_range_eq, zseq_elem by lia. intros. Z.div_mod_to_equations. lia.
Qed.

Lemma gate_page cr a : code_gate cr a = (wrapping_sub 64 (a / 4096) (wlo cr) <? wlen cr).
Proof. unfold code_gate. by rewrite page_shift. Qed.

Lemma probe_hit t p x : 0 <= p -> nthZ t (Z.shiftr p 6) = Some x ->
  Z.land (Z.shiftr x (Z.land p 63)) 1 = b2z (bit_get t p).
Proof.
  intros Hp Hx. unfold bit_get. rewrite word_bit_eq by done. rewrite Z.shiftr_div_pow2 in Hx by lia.
  change (2 ^ 6) with 64 in Hx. rewrite Hx. change 63 with (Z.ones 6). rewrite Z.land_ones by lia.
  change (2 ^ 6) with 64. assert (0 <= p mod 64) by (Z.div_mod_to_equations; lia).
  rewrite test_pow2 by done. apply Z.bits_inj'. intros i Hi.
  rewrite Z.land_spec, Z.shiftr_spec, b2z_testbit by lia. change 1 with (2 ^ 0). rewrite Z.pow2_bits_eqb by lia.
  rewrite (Z.eqb_sym 0 i). destruct (Z.eqb_spec i 0) as [->|]; [by rewrite Z.add_0_l|by rewrite !andb_false_r].
Qed.

Lemma note_store_exact m a n : smc_ok m -> 0 <= a -> 0 < n <= 64 -> a + n <= 2 ^ 64 ->
  nthZ (w_watch (watch m)) (Z.shiftr (a / 4096) 6) <> None ->
  (a mod 4096 + n <= 4096 \/ is_code_page m (a / 4096 + 1) = false) ->
  note_store m a n = Some (note_write m a n).
Proof.
  intros Hm Ha Hn Hl Ht Hcross. unfold note_store. rewrite gate_page, page_shift.
  assert (Hp : 0 <= a / 4096 < 2 ^ 64) by (Z.div_mod_to_equations; lia).
  destruct (_ <? _) eqn:Eg; [done|].
  assert (Hc : forall p, p ∈ code_page_range a n -> is_code_page m p = false).
  { intros p Hin. destruct (is_code_page m p) eqn:Ec; [|done].
    destruct (store_pages a n p Ha ltac:(lia) Hl Hin) as [->|[-> Hx]].
    - apply smc_covered in Ec; [|done|lia]. apply gate_covered in Ec; [congruence|apply Hm|done].
    - destruct Hcross; [lia|congruence]. }
  destruct (Z.eqb_spec (w_count (watch m)) 0) as [E0|E0]; cbn [negb].
  { f_equal. symmetry. apply note_write_noop. intros p Hin. split; [by apply Hc|done]. }
  destruct (nthZ _ _) as [x|] eqn:Ex; [|done]. cbn [mbind option_bind].
  rewrite (probe_hit _ _ _ (proj1 Hp) Ex).
  change (Z.land a (CODE_PAGE_SIZE - 1)) with (Z.land a (Z.ones 12)). rewrite Z.land_ones by lia.
  change (2 ^ 12) with 4096. change CODE_PAGE_SIZE with 4096.
  destruct (bit_get (w_watch (watch m)) (a / 4096)) eqn:Eb; [by destruct (Z.ltb_spec 4096 (a mod 4096 + n))|].
  destruct (Z.ltb_spec 4096 (a mod 4096 + n)) as [|Hle]; [reflexivity|]. cbn [b2z].
  change (negb (Z.lor 0 0 =? 0)) with false. cbn match. f_equal. symmetry. apply note_write_noop.
  intros p Hin. split; [by apply Hc|]. intros _.
  destruct (store_pages a n p Ha ltac:(lia) Hl Hin) as [->|[_ ?]]; [exact Eb|lia].
Qed.

(** ** Sorted page lists *)

Lemma zseq_sorted lo n : StronglySorted Z.lt (zseq lo n).
Proof.
  revert lo. induction n as [|n IH]; intros lo; simpl; constructor; [apply IH|].
  apply list.Forall_forall. intros x Hx%zseq_elem. lia.
Qed.

Lemma sorted_nodup l : StronglySorted Z.lt l -> NoDup l.
Proof.
  induction 1 as [|x l _ IH Hx]; [by apply list.NoDup_nil|]. apply list.NoDup_cons. split; [|done].
  intros Hin. rewrite list.Forall_forall in Hx. specialize (Hx x Hin). lia.
Qed.

Lemma sorted_filter (P : Z -> Prop) `{forall x, Decision (P x)} l :
  StronglySorted Z.lt l -> StronglySorted Z.lt (filter P l).
Proof.
  induction 1 as [|x l Hs IH Hx]; [constructor|]. rewrite filter_cons. case_decide; [|done].
  constructor; [done|]. apply list.Forall_forall. intros y [_ Hy]%list_elem_of_filter.
  rewrite list.Forall_forall in Hx. auto.
Qed.

Lemma sorted_app l k : StronglySorted Z.lt l -> StronglySorted Z.lt k ->
  (forall x y, x ∈ l -> y ∈ k -> x < y) -> StronglySorted Z.lt (l ++ k).
Proof.
  induction 1 as [|x l Hs IH Hx]; intros Hk Hlk; [done|]. simpl. constructor.
  - apply IH; [done|]. intros. apply Hlk; [by constructor|done].
  - apply Forall_app. split; [done|]. apply list.Forall_forall. intros y Hy. apply Hlk; [by constructor|done].
Qed.

(** Two ascending lists with the same elements are the same list. *)
Lemma sorted_unique l k : StronglySorted Z.lt l -> StronglySorted Z.lt k ->
  (forall x, x ∈ l <-> x ∈ k) -> l = k.
Proof.
  intros Hl. revert k. induction Hl as [|x l Hl IH Hx]; intros k Hk H.
  - destruct k as [|y k]; [done|]. pose proof (proj2 (H y) ltac:(constructor)) as Hc. by apply elem_of_nil in Hc.
  - destruct Hk as [|y k Hk Hy]; [pose proof (proj1 (H x) ltac:(constructor)) as Hc; by apply elem_of_nil in Hc|].
    rewrite list.Forall_forall in Hx, Hy.
    assert (x = y) as <-.
    { pose proof (proj1 (H x) ltac:(constructor)) as [|Hxk]%elem_of_cons; [done|].
      pose proof (proj2 (H y) ltac:(constructor)) as [|Hyl]%elem_of_cons; [done|].
      specialize (Hx y Hyl). specialize (Hy x Hxk). lia. }
    f_equal. apply IH; [done|]. intros z. specialize (H z). rewrite !elem_of_cons in H. split; intros Hz.
    + destruct (proj1 H (or_intror Hz)) as [->|]; [specialize (Hx x Hz); lia|done].
    + destruct (proj2 H (or_intror Hz)) as [->|]; [specialize (Hy x Hz); lia|done].
Qed.

Lemma btree_insert_elem x l y : y ∈ btree_insert x l <-> y = x \/ y ∈ l.
Proof.
  induction l as [|z l IH]; simpl; [by rewrite list_elem_of_singleton, elem_of_nil; intuition|].
  destruct (Z.ltb_spec x z); [by rewrite elem_of_cons|].
  destruct (Z.eqb_spec x z) as [->|]; rewrite ?elem_of_cons, ?IH; intuition.
Qed.

Lemma btree_insert_sorted x l : StronglySorted Z.lt l -> StronglySorted Z.lt (btree_insert x l).
Proof.
  induction 1 as [|z l Hs IH Hz]; simpl; [by repeat constructor|].
  rewrite list.Forall_forall in Hz. destruct (Z.ltb_spec x z).
  - constructor; [by constructor; [|apply list.Forall_forall]|].
    apply list.Forall_forall. intros y [->|Hy]%elem_of_cons; [done|]. specialize (Hz y Hy). lia.
  - destruct (Z.eqb_spec x z); [by constructor; [|apply list.Forall_forall]|].
    constructor; [done|]. apply list.Forall_forall. intros y [->|Hy]%btree_insert_elem; [lia|auto].
Qed.

Lemma btree_remove_elem x l y : y ∈ btree_remove x l <-> y <> x /\ y ∈ l.
Proof. unfold btree_remove. by rewrite list_elem_of_filter. Qed.

Lemma filter_ext_in (P Q : Z -> Prop) `{forall x, Decision (P x)} `{forall x, Decision (Q x)} (l : list Z) :
  (forall q, q ∈ l -> P q <-> Q q) -> filter P l = filter Q l.
Proof.
  induction l as [|x l IH]; intros H'; [done|]. rewrite !filter_cons.
  rewrite IH by (intros q Hq; apply H'; by constructor). apply decide_ext, H'. constructor.
Qed.

Lemma filter_length_add (P Q : Z -> Prop) `{forall x, Decision (P x)} `{forall x, Decision (Q x)} (l : list Z) p :
  NoDup l -> p ∈ l -> ~ P p -> (forall q, q ∈ l -> Q q <-> q = p \/ P q) ->
  length (filter Q l) = S (length (filter P l)).
Proof.
  intros Hn Hp HP HQ. revert Hp HQ. induction Hn as [|x l Hx Hn IH]; intros Hp HQ; [by apply elem_of_nil in Hp|].
  rewrite !filter_cons. pose proof (HQ x ltac:(constructor)) as Hqx.
  destruct (decide (x = p)) as [->|Hne].
  - rewrite decide_True by tauto. rewrite decide_False by done. cbn [length]. f_equal.
    f_equal. apply filter_ext_in. intros q Hq. rewrite HQ by (by constructor).
    split; [intros [->|]; [by destruct Hx|done]|by right].
  - apply elem_of_cons in Hp as [?|Hp]; [congruence|].
    specialize (IH Hp ltac:(intros q Hq; apply HQ; by constructor)).
    destruct (decide (P x)); [rewrite decide_True by tauto|rewrite decide_False by tauto]; cbn [length]; lia.
Qed.

(** ** Draining a word *)

Lemma lor_add k h r : 0 <= k -> in_width k r -> Z.lor (h * 2 ^ k) r = h * 2 ^ k + r.
Proof.
  intros Hk Hr. rewrite <- Z.shiftl_mul_pow2 by done. symmetry. rewrite <- Z.lxor_lor; [apply Z.add_nocarry_lxor|];
    apply Z.bits_inj'; intros i Hi; rewrite Z.land_spec, Z.testbit_0_l, Z.shiftl_spec by done;
    (destruct (Z.ltb_spec i k); [by rewrite Z.testbit_neg_r by lia|by rewrite (in_width_high k r), andb_false_r by done]).
Qed.

Lemma trailing_zeros_lowest w bits i : 0 <= i -> 0 < bits -> Z.testbit bits i = true ->
  (forall j, 0 <= j < i -> Z.testbit bits j = false) -> trailing_zeros w bits = i.
Proof.
  intros Hi Hb. destruct bits as [|p|]; try lia. cbn [trailing_zeros]. clear Hb. revert i Hi.
  induction p as [p IH|p IH|]; intros i Hi Ht Hl; cbn [pos_trailing_zeros].
  - destruct (Z.eqb_spec i 0) as [->|]; [done|]. specialize (Hl 0 ltac:(lia)). done.
  - destruct (Z.eqb_spec i 0) as [->|]; [done|].
    rewrite (IH (i - 1)); [lia|lia| |].
    + rewrite <- Ht. change (Z.pos p~0) with (2 * Z.pos p). replace i with (Z.succ (i - 1)) at 2 by lia.
      by rewrite Z.testbit_even_succ by lia.
    + intros j Hj. rewrite <- (Hl (Z.succ j)) by lia. change (Z.pos p~0) with (2 * Z.pos p).
      by rewrite Z.testbit_even_succ by lia.
  - destruct (Z.eqb_spec i 0) as [->|]; [done|]. by specialize (Hl 0 ltac:(lia)).
Qed.

Lemma testbit_high h k r j : 0 <= k -> 0 <= r < 2 ^ k -> k <= j ->
  Z.testbit (h * 2 ^ k + r) j = Z.testbit h (j - k).
Proof.
  intros Hk Hr Hj. replace j with (j - k + k) at 1 by lia. rewrite <- Z.shiftr_spec by lia.
  rewrite Z.shiftr_div_pow2 by done. rewrite Z.div_add_l by lia. rewrite (Z.div_small r) by done.
  by rewrite Z.add_0_r.
Qed.

Lemma clear_lowest bits i j : 0 <= i -> 0 <= j -> 0 < bits -> Z.testbit bits i = true ->
  (forall k, 0 <= k < i -> Z.testbit bits k = false) ->
  Z.testbit (Z.land bits (bits - 1)) j = Z.testbit bits j && negb (j =? i).
Proof.
  intros Hi Hj Hb Ht Hl. set (h := Z.shiftr bits (i + 1)).
  assert (E : bits = h * 2 ^ (i + 1) + 2 ^ i).
  { assert (Elow : wrap (i + 1) bits = 2 ^ i).
    { apply Z.bits_inj'. intros k Hk. rewrite wrap_testbit, Z.pow2_bits_eqb by lia.
      destruct (Z.eqb_spec i k) as [->|]; [destruct (Z.ltb_spec k (k + 1)); [done|lia]|].
      destruct (Z.ltb_spec k (i + 1)); [|done]. apply Hl. lia. }
    rewrite <- Elow. unfold h, wrap. rewrite Z.shiftr_div_pow2 by lia.
    pose proof (Z.div_mod bits (2 ^ (i + 1)) ltac:(pose proof (pow2_pos (i + 1)); lia)). lia. }
  pose proof (pow2_pos i Hi) as Hpi. pose proof (pow2_half (i + 1) ltac:(lia)) as Hhalf.
  replace (i + 1 - 1) with i in Hhalf by lia. rewrite Z.land_spec.
  destruct (Z.eqb_spec j i) as [->|Hne].
  - replace (bits - 1) with (h * 2 ^ (i + 1) + (2 ^ i - 1)) by lia. rewrite andb_false_r. apply andb_false_intro2.
    rewrite Z.testbit_eqb by done. replace ((h * 2 ^ (i + 1) + (2 ^ i - 1)) / 2 ^ i) with (h * 2).
    + rewrite Z.mod_mul by lia. done.
    + symmetry. rewrite Hhalf. replace (h * (2 * 2 ^ i) + (2 ^ i - 1)) with (h * 2 * 2 ^ i + (2 ^ i - 1)) by lia.
      rewrite Z.div_add_l by lia. rewrite Z.div_small by lia. lia.
  - rewrite andb_true_r. destruct (Z.ltb_spec j i); [by rewrite Hl|].
    replace (bits - 1) with (h * 2 ^ (i + 1) + (2 ^ i - 1)) by lia.
    rewrite (testbit_high h (i + 1) (2 ^ i - 1)) by lia.
    assert (Eb : Z.testbit bits j = Z.testbit h (j - (i + 1))) by (rewrite E at 1; apply testbit_high; lia).
    rewrite Eb. apply andb_diag.
Qed.

Lemma drain_word_from n fuel w bits i : 0 <= w -> 0 <= i -> i + Z.of_nat n = 64 -> (n <= fuel)%nat ->
  in_width 64 bits -> (forall k, 0 <= k < i -> Z.testbit bits k = false) ->
  drain_word fuel w bits = (fun k => w * 64 + k) <$> filter (fun k => Z.testbit bits k = true) (zseq i n).
Proof.
  intros Hw. revert fuel bits i. induction n as [|n IH]; intros fuel bits i Hi Hn Hf Hb Hl; cbn [zseq].
  - assert (bits = 0) as ->.
    { apply Z.bits_inj'. intros k Hk. rewrite Z.testbit_0_l. destruct (Z.ltb_spec k i); [by apply Hl|].
      apply (in_width_high 64); (done || lia). }
    by destruct fuel.
  - destruct (Z.testbit bits i) eqn:Et.
    + assert (0 < bits). { destruct (Z.eqb_spec bits 0) as [->|]; [by rewrite Z.testbit_0_l in Et|destruct Hb; lia]. }
      destruct fuel as [|fuel]; [lia|]. cbn [drain_word]. destruct (Z.eqb_spec bits 0); [lia|].
      rewrite (trailing_zeros_lowest 64 bits i) by done.
      rewrite (IH fuel _ (i + 1)); [|lia|lia|lia| |].
      * rewrite filter_cons_True by done. cbn [fmap list_fmap]. f_equal.
        -- rewrite Z.shiftl_mul_pow2 by lia. change (2 ^ 6) with 64.
           apply (lor_add 6 w i); [lia|split; [done|change (2 ^ 6) with 64; lia]].
        -- f_equal. apply filter_ext_in. intros k Hk%zseq_elem. rewrite (clear_lowest bits i) by (done || lia).
           destruct (Z.eqb_spec k i); [lia|]. by rewrite andb_true_r.
      * apply (in_width_land 64); [lia|done|lia].
      * intros k Hk. rewrite (clear_lowest bits i) by (done || lia).
        destruct (Z.eqb_spec k i); [by rewrite andb_false_r|]. by rewrite Hl by lia.
    + rewrite filter_cons_False by congruence. apply (IH fuel bits (i + 1)); try lia; [done|].
      intros k Hk. destruct (Z.eqb_spec k i) as [->|]; [done|]. apply Hl. lia.
Qed.

Lemma drain_word_spec w bits : 0 <= w -> in_width 64 bits ->
  StronglySorted Z.lt (drain_word 64 w bits) /\
  forall p, p ∈ drain_word 64 w bits <-> 0 <= p /\ p / 64 = w /\ Z.testbit bits (p mod 64) = true.
Proof.
  intros Hw Hb. rewrite (drain_word_from 64 64 w bits 0) by (done || lia). split.
  - assert (Hs : StronglySorted Z.lt (filter (fun k => Z.testbit bits k = true) (zseq 0 64)))
      by (apply sorted_filter, zseq_sorted).
    induction Hs as [|x l Hs IH Hx]; cbn [fmap list_fmap]; constructor; [done|].
    apply Forall_fmap. eapply list.Forall_impl; [exact Hx|]. intros y Hy. simpl. lia.
  - intros p. rewrite list_elem_of_fmap. split.
    + intros (k & -> & [Hk Hr]%list_elem_of_filter). apply zseq_elem in Hr.
      replace ((w * 64 + k) / 64) with w by (Z.div_mod_to_equations; lia).
      replace ((w * 64 + k) mod 64) with k by (Z.div_mod_to_equations; lia). split; [lia|done].
    + intros (Hp & <- & Ht). exists (p mod 64). split; [Z.div_mod_to_equations; lia|].
      apply list_elem_of_filter. split; [done|]. apply zseq_elem. Z.div_mod_to_equations; lia.
Qed.

Lemma drain_words_spec ws d : StronglySorted Z.lt ws -> words_ok d ->
  Forall (fun w => 0 <= w < Z.of_nat (length d)) ws ->
  exists pages d', drain_words ws d = Some (pages, d') /\
    StronglySorted Z.lt pages /\ length d' = length d /\ words_ok d' /\
    (forall p, p ∈ pages <-> 0 <= p /\ p / 64 ∈ ws /\ bit_get d p = true) /\
    (forall p, 0 <= p -> bit_get d' p = true <-> bit_get d p = true /\ p / 64 ∉ ws).
Proof.
  intros Hs. revert d. induction Hs as [|w ws Hs IH Hw]; intros d Hd Hr; cbn [drain_words].
  - exists [], d. split; [done|]. split; [constructor|]. split; [done|]. split; [done|]. split.
    + intros p. rewrite !elem_of_nil. tauto.
    + intros p Hp. rewrite elem_of_nil. tauto.
  - inversion Hr as [|? ? Hw0 Hr']; subst.
    assert (Hk : w * 64 / 64 = w) by (rewrite Z.div_mul; lia).
    destruct (nthZ_word d (w * 64) ltac:(unfold in_table; lia)) as (x & E & Hx). rewrite Hk in E, Hx.
    rewrite E. cbn [mbind option_bind].
    assert (Hxw : in_width 64 x) by (by eapply Forall_lookup_1).
    set (d1 := <[Z.to_nat w := 0]> d).
    assert (Hd1 : words_ok d1) by (apply Forall_insert; [done|unfold in_width; lia]).
    destruct (IH d1 Hd1) as (pages & d' & E1 & E2 & E3 & E4 & E5 & E6).
    { unfold d1. by rewrite length_insert. }
    rewrite E1. cbn [mbind option_bind].
    assert (Hb1 : forall p, 0 <= p -> bit_get d1 p = negb (p / 64 =? w) && bit_get d p).
    { intros p Hp. unfold d1. pose proof (bit_insert d (w * 64) p x 0 ltac:(lia) Hp) as Hbi.
      rewrite Hk in Hbi. rewrite Hbi by done. destruct (_ =? _); [apply Z.testbit_0_l|done]. }
    destruct (drain_word_spec w x ltac:(lia) Hxw) as [W1 W2].
    assert (Hw2 : forall p, p ∈ drain_word 64 w x <-> 0 <= p /\ p / 64 = w /\ bit_get d p = true).
    { intros p. rewrite W2. split; intros (Hp & Hq & Ht); (split; [done|split; [done|]]);
        rewrite bit_get_eq, Hq, Hx in * by done; done. }
    rewrite list.Forall_forall in Hw.
    exists (drain_word 64 w x ++ pages), d'. split; [done|].
    split; [|split; [by rewrite E3; apply length_insert|split; [done|split]]].
    + apply sorted_app; [done|done|]. intros p q (? & Hpw & _)%Hw2 (? & Hq & _)%E5. specialize (Hw _ Hq).
      Z.div_mod_to_equations; lia.
    + intros p. rewrite elem_of_app, Hw2, E5, elem_of_cons.
      destruct (decide (0 <= p)) as [Hp|]; [|tauto]. rewrite Hb1 by done.
      destruct (Z.eqb_spec (p / 64) w) as [Ew|]; cbn [negb andb]; [|tauto].
      rewrite Ew. split; [intros [?|(_ & _ & ?)]; [tauto|done]|tauto].
    + intros p Hp. rewrite E6, Hb1, elem_of_cons by done.
      destruct (Z.eqb_spec (p / 64) w); cbn [negb andb]; [|tauto]. split; [intros [? _]; done|tauto].
Qed.

(** ** The watch invariant *)

(** All page indices of a table. *)
Definition pages_of (t : list Z) : list Z := zseq 0 (64 * length t).

Lemma pages_of_elem t p : p ∈ pages_of t <-> in_table t p.
Proof. unfold pages_of. rewrite zseq_elem. unfold in_table. lia. Qed.

Definition watched_pages (w : WatchPages) : list Z :=
  filter (fun p => is_watched w p = true) (pages_of (w_watch w)).

Record watch_ok (w : WatchPages) : Prop := {
  wk_len : length (w_dirty w) = length (w_watch w);
  wk_watch : words_ok (w_watch w);
  wk_dirty : words_ok (w_dirty w);
  wk_sub : forall p, 0 <= p -> bit_get (w_dirty w) p = true -> is_watched w p = true;
  wk_sorted : StronglySorted Z.lt (w_words w);
  wk_words : forall i, i ∈ w_words w <-> exists p, 0 <= p /\ p / 64 = i /\ is_watched w p = true;
  wk_count : w_count w = Z.of_nat (length (watched_pages w));
  wk_small : 64 * Z.of_nat (length (w_watch w)) < 2 ^ 64;
}.

Lemma watched_count_bound w : Z.of_nat (length (watched_pages w)) <= 64 * Z.of_nat (length (w_watch w)).
Proof.
  unfold watched_pages. pose proof (length_filter (fun p => is_watched w p = true) (pages_of (w_watch w))).
  assert (length (pages_of (w_watch w)) = (64 * length (w_watch w))%nat).
  { unfold pages_of. generalize (64 * length (w_watch w))%nat as n. intros n. generalize 0 as lo.
    induction n; intros; simpl; f_equal; auto. }
  lia.
Qed.

Lemma word_ok_set t p x : words_ok t -> 0 <= p -> in_width 64 x ->
  words_ok (<[Z.to_nat (p / 64) := Z.lor x (2 ^ (p mod 64))]> t).
Proof.
  intros Ht Hp Hx. apply Forall_insert; [done|]. apply in_width_lor; [lia|done|].
  assert (0 <= p mod 64 < 64) by (Z.div_mod_to_equations; lia).
  split; [pose proof (pow2_pos (p mod 64)); lia|apply Z.pow_lt_mono_r; lia].
Qed.

Lemma word_ok_clear t i x m : words_ok t -> in_width 64 x -> words_ok (<[i := Z.land x (unot 64 m)]> t).
Proof.
  intros Ht Hx. apply Forall_insert; [done|]. apply in_width_land; [lia|done|].
  apply (wrap_range 64). lia.
Qed.

(** One page more is watched. *)
Lemma watched_count_add w w' p : length (w_watch w') = length (w_watch w) -> in_table (w_watch w) p ->
  is_watched w p = false -> (forall q, 0 <= q -> is_watched w' q = (q =? p) || is_watched w q) ->
  Z.of_nat (length (watched_pages w')) = Z.of_nat (length (watched_pages w)) + 1.
Proof.
  intros Hl Hin Hp Hq. unfold watched_pages, pages_of. rewrite Hl.
  rewrite (filter_length_add (fun q => is_watched w q = true) _ _ p); [lia| | |congruence|].
  - apply sorted_nodup, zseq_sorted.
  - by apply (pages_of_elem (w_watch w)).
  - intros q [Hq0 _]%(pages_of_elem (w_watch w)). rewrite Hq by done.
    destruct (Z.eqb_spec q p); cbn [orb]; intuition.
Qed.

Lemma watched_count_same w w' : length (w_watch w') = length (w_watch w) ->
  (forall q, 0 <= q -> is_watched w' q = is_watched w q) ->
  length (watched_pages w') = length (watched_pages w).
Proof.
  intros Hl Hq. unfold watched_pages, pages_of. rewrite Hl. f_equal. apply filter_ext_in.
  intros q [Hq0 _]%(pages_of_elem (w_watch w)). by rewrite Hq.
Qed.

(** Watching a page that is already watched changes nothing observable. *)
Lemma watch_ok_same w w' : watch_ok w -> length (w_watch w') = length (w_watch w) ->
  words_ok (w_watch w') -> (forall q, 0 <= q -> is_watched w' q = is_watched w q) ->
  w_dirty w' = w_dirty w -> w_words w' = w_words w -> w_count w' = w_count w -> watch_ok w'.
Proof.
  intros Hw Hl Hok Hq Hd Hws Hc. split; rewrite ?Hl, ?Hd, ?Hws, ?Hc; try apply Hw; try done.
  - intros p Hp Hpd. rewrite Hq by done. by apply (wk_sub w Hw).
  - intros i. rewrite (wk_words w Hw).
    split; intros (q & Hq0 & Hqi & Hqw); exists q; (split; [done|split; [done|]]); [by rewrite Hq|by rewrite <- Hq].
  - rewrite (wk_count w Hw). by rewrite (watched_count_same w w').
Qed.

(** The word update of [watch_page] on the bits. *)
Lemma watch_word w p x : 0 <= p -> in_table (w_watch w) p -> nthZ (w_watch w) (p / 64) = Some x ->
  is_watched w p = negb (Z.land x (2 ^ (p mod 64)) =? 0) /\
  (forall q, 0 <= q -> bit_get (<[Z.to_nat (p / 64) := Z.lor x (2 ^ (p mod 64))]> (w_watch w)) q =
     (q =? p) || is_watched w q) /\
  (forall q, 0 <= q -> bit_get (<[Z.to_nat (p / 64) := Z.land x (unot 64 (2 ^ (p mod 64)))]> (w_watch w)) q =
     negb (q =? p) && is_watched w q).
Proof.
  intros Hp Hin E. unfold is_watched. split; [|split].
  - unfold bit_get. by rewrite word_bit_eq, E.
  - intros q Hq. rewrite <- (bit_set_get (w_watch w) p q Hp Hq Hin). unfold bit_set. by rewrite word_bit_eq, E.
  - intros q Hq. rewrite <- (bit_clear_get (w_watch w) p q Hp Hq). unfold bit_clear. by rewrite word_bit_eq, E.
Qed.

Lemma watch_page_ok w p : watch_ok w -> 0 <= p ->
  watch_ok (watch_page w p) /\
  (forall q, 0 <= q -> is_watched (watch_page w p) q = ((q =? p) && bool_decide (in_table (w_watch w) p)) || is_watched w q) /\
  w_dirty (watch_page w p) = w_dirty w /\ length (w_watch (watch_page w p)) = length (w_watch w).
Proof.
  intros Hw Hp. unfold watch_page. rewrite word_bit_eq by done.
  destruct (decide (in_table (w_watch w) p)) as [Hin|Hout].
  2:{ rewrite nthZ_out by done. rewrite bool_decide_eq_false_2 by done. split; [done|]. split; [|done].
      intros q _. by rewrite andb_false_r. }
  rewrite bool_decide_eq_true_2 by done. destruct (nthZ_word _ _ Hin) as (x & E & Hx). rewrite E.
  assert (Hxw : in_width 64 x) by (eapply Forall_lookup_1; [apply (wk_watch w Hw)|done]).
  destruct (watch_word w p x Hp Hin E) as (Hbit & Hset & _).
  pose proof (word_ok_set (w_watch w) p x (wk_watch w Hw) Hp Hxw) as Hok.
  set (watch' := <[_ := _]> (w_watch w)) in *.
  assert (Hlen : length watch' = length (w_watch w)) by apply length_insert.
  destruct (Z.land x _ =? 0) eqn:Ez; cbn [negb] in Hbit; (split; [|split; [|split]]); try done;
    try (intros q Hq; rewrite andb_true_r; by apply Hset).
  - set (w' := mkWatch watch' _ _ _). pose proof (wk_small w Hw). pose proof (wk_count w Hw) as Hwc.
    pose proof (watched_count_add w w' p Hlen Hin Hbit Hset) as Hcnt. pose proof (watched_count_bound w') as Hb.
    split; cbn [w' w_watch w_dirty w_words w_count]; rewrite ?Hlen; try apply Hw; try done.
    + intros q Hq Hd. unfold is_watched. cbn [w' w_watch]. rewrite Hset by done. by rewrite (wk_sub w Hw q Hq Hd), orb_true_r.
    + apply btree_insert_sorted, Hw.
    + intros i. rewrite btree_insert_elem, (wk_words w Hw). unfold is_watched at 2. cbn [w' w_watch]. split.
      * intros [->|(q & Hq & Hqi & Hqw)]; [exists p|exists q]; (split; [done|split; [done|]]); rewrite Hset by done;
          [by rewrite Z.eqb_refl|by rewrite Hqw, orb_true_r].
      * intros (q & Hq & Hqi & Hqw). rewrite Hset in Hqw by done. destruct (Z.eqb_spec q p) as [->|]; [by left|].
        right. by exists q.
    + cbn [w' w_watch] in Hb. rewrite Hlen in Hb. rewrite Hcnt, Hwc in *.
      apply wrap_small. unfold in_width. lia.
  - apply (watch_ok_same w); try done. intros q Hq. unfold is_watched at 1. cbn [w_watch]. rewrite Hset by done.
    destruct (Z.eqb_spec q p) as [->|]; [by rewrite Hbit|done].
Qed.

(** Removing a watched page, with its word dropped from the scan list when it empties. *)
Lemma unwatch_ok w w' p x : watch_ok w -> 0 <= p -> in_table (w_watch w) p -> is_watched w p = true ->
  nthZ (w_watch w) (p / 64) = Some x -> in_width 64 x ->
  length (w_watch w') = length (w_watch w) -> words_ok (w_watch w') ->
  (forall q, 0 <= q -> is_watched w' q = negb (q =? p) && is_watched w q) ->
  length (w_dirty w') = length (w_dirty w) -> words_ok (w_dirty w') ->
  (forall q, 0 <= q -> bit_get (w_dirty w') q = negb (q =? p) && bit_get (w_dirty w) q) ->
  w_words w' = (if Z.land x (unot 64 (2 ^ (p mod 64))) =? 0 then btree_remove (p / 64) (w_words w) else w_words w) ->
  w_count w' = wrapping_sub 64 (w_count w) 1 -> watch_ok w'.
Proof.
  intros Hw Hp Hin Hbit E Hxw Hlen Hok Hq Hdl Hdok Hdb Hws Hc.
  assert (Hcnt : Z.of_nat (length (watched_pages w)) = Z.of_nat (length (watched_pages w')) + 1).
  { apply (watched_count_add w' w p); [done|by unfold in_table; rewrite Hlen|by rewrite Hq, Z.eqb_refl|].
    intros q Hq0. rewrite Hq by done. destruct (Z.eqb_spec q p) as [->|]; [by rewrite Hbit|done]. }
  assert (Hrest : Z.land x (unot 64 (2 ^ (p mod 64))) = 0 <-> forall q, 0 <= q -> q / 64 = p / 64 -> is_watched w' q = false).
  { assert (Hb : forall k, 0 <= k < 64 -> Z.testbit (Z.land x (unot 64 (2 ^ (p mod 64)))) k = is_watched w' (64 * (p / 64) + k)).
    { intros k Hk. rewrite testbit_clear_pow by (Z.div_mod_to_equations; lia). rewrite Hq by (Z.div_mod_to_equations; lia).
      unfold is_watched. rewrite bit_get_eq by (Z.div_mod_to_equations; lia).
      replace ((64 * (p / 64) + k) / 64) with (p / 64) by (Z.div_mod_to_equations; lia).
      replace ((64 * (p / 64) + k) mod 64) with k by (Z.div_mod_to_equations; lia).
      apply nthZ_Some in E as [_ ->]. f_equal. f_equal.
      destruct (Z.eqb_spec k (p mod 64)), (Z.eqb_spec (64 * (p / 64) + k) p); (done || Z.div_mod_to_equations; lia). }
    split.
    - intros H0 q Hq0 Hqp. replace q with (64 * (p / 64) + q mod 64) by (Z.div_mod_to_equations; lia).
      rewrite <- Hb by (Z.div_mod_to_equations; lia). by rewrite H0, Z.testbit_0_l.
    - intros H0. apply Z.bits_inj'. intros k Hk. rewrite Z.testbit_0_l. destruct (Z.ltb_spec k 64).
      + rewrite Hb by lia. apply H0; Z.div_mod_to_equations; lia.
      + rewrite Z.land_spec, (in_width_high 64 x) by (done || lia). done. }
  pose proof (wk_small w Hw). pose proof (wk_count w Hw). pose proof (watched_count_bound w).
  split; rewrite ?Hlen, ?Hdl; try apply Hw; try done.
  - intros q Hq0. rewrite Hdb, Hq by done. destruct (q =? p); [done|]. apply (wk_sub w Hw q Hq0).
  - rewrite Hws. destruct (_ =? _); [apply sorted_filter, Hw|apply Hw].
  - intros i. assert (Hi : (exists q, 0 <= q /\ q / 64 = i /\ is_watched w' q = true) <->
      i ∈ w_words w /\ (i = p / 64 -> Z.land x (unot 64 (2 ^ (p mod 64))) <> 0)).
    { rewrite (wk_words w Hw), Hrest. split.
      - intros (q & Hq0 & Hqi & Hqw). split.
        + exists q. rewrite Hq in Hqw by done. apply andb_true_iff in Hqw as [_ ?]. done.
        + intros -> Hall. rewrite (Hall q Hq0) in Hqw by done. done.
      - intros [(q & Hq0 & Hqi & Hqw) Hne]. destruct (decide (i = p / 64)) as [Hip|Hip].
        + destruct (decide (Exists (fun k => is_watched w' k = true) (zseq (64 * i) 64))) as [Hex|Hex].
          * apply Exists_exists in Hex as (k & Hk%list_elem_of_In%zseq_elem & Hkw). exists k.
            split; [Z.div_mod_to_equations; lia|]. split; [Z.div_mod_to_equations; lia|done].
          * destruct (Hne Hip). intros k Hk Hki. destruct (is_watched w' k) eqn:Ek; [|done]. destruct Hex.
            apply Exists_exists. exists k. split; [|done]. apply list_elem_of_In, zseq_elem. Z.div_mod_to_equations; lia.
        + exists q. split; [done|]. split; [done|]. rewrite Hq by done. destruct (Z.eqb_spec q p) as [->|]; [congruence|done]. }
    rewrite Hi, Hws. destruct (Z.eqb_spec (Z.land x (unot 64 (2 ^ (p mod 64)))) 0); rewrite ?btree_remove_elem; tauto.
  - rewrite Hc. unfold wrapping_sub. rewrite wrap_small by (unfold in_width; lia). lia.
Qed.

Lemma unwatch_page_ok w p : watch_ok w -> 0 <= p -> exists w', unwatch_page w p = Some w' /\
  watch_ok w' /\ (forall q, 0 <= q -> is_watched w' q = negb (q =? p) && is_watched w q) /\
  (forall q, 0 <= q -> bit_get (w_dirty w') q = negb (q =? p) && bit_get (w_dirty w) q).
Proof.
  intros Hw Hp. unfold unwatch_page. rewrite word_bit_eq by done.
  assert (Hsub : is_watched w p = false -> bit_get (w_dirty w) p = false).
  { intros Hf. destruct (bit_get (w_dirty w) p) eqn:Ed; [|done]. apply (wk_sub w Hw p Hp) in Ed. congruence. }
  assert (Hid : is_watched w p = false ->
    (forall q, 0 <= q -> is_watched w q = negb (q =? p) && is_watched w q) /\
    (forall q, 0 <= q -> bit_get (w_dirty w) q = negb (q =? p) && bit_get (w_dirty w) q)).
  { intros Hf. split; intros q Hq; destruct (Z.eqb_spec q p) as [->|]; try done. by apply Hsub. }
  destruct (decide (in_table (w_watch w) p)) as [Hin|Hout].
  2:{ rewrite nthZ_out by done. exists w. split; [done|]. split; [done|]. apply Hid.
      destruct (is_watched w p) eqn:Ef; [|done]. by apply bit_get_in in Ef. }
  destruct (nthZ_word _ _ Hin) as (x & E & Hx). rewrite E.
  assert (Hxw : in_width 64 x) by (eapply Forall_lookup_1; [apply (wk_watch w Hw)|done]).
  destruct (watch_word w p x Hp Hin E) as (Hbit & _ & Hclr).
  pose proof (word_ok_clear (w_watch w) (Z.to_nat (p / 64)) x (2 ^ (p mod 64)) (wk_watch w Hw) Hxw) as Hok.
  set (watch' := <[_ := _]> (w_watch w)) in *.
  assert (Hlen : length watch' = length (w_watch w)) by apply length_insert.
  rewrite <- Hbit. destruct (is_watched w p) eqn:Ew.
  - assert (Hin' : in_table (w_dirty w) p) by (unfold in_table; by rewrite (wk_len w Hw)).
    destruct (nthZ_word _ _ Hin') as (d & Ed & Hd). rewrite Ed. cbn [mbind option_bind].
    eexists. split; [done|]. set (w' := mkWatch watch' _ _ _).
    assert (Hdb : forall q, 0 <= q -> bit_get (w_dirty w') q = negb (q =? p) && bit_get (w_dirty w) q).
    { intros q Hq. rewrite <- (bit_clear_get (w_dirty w) p q Hp Hq). unfold bit_clear. by rewrite word_bit_eq, Ed. }
    split; [|done]. apply (unwatch_ok w w' p x); try done; [apply length_insert|].
    apply word_ok_clear; [apply Hw|]. eapply Forall_lookup_1; [apply (wk_dirty w Hw)|done].
  - eexists. split; [done|]. split; [|split; [exact Hclr|by apply Hid]].
    apply (watch_ok_same w); try done. intros q Hq. unfold is_watched at 1. cbn [w_watch]. rewrite Hclr by done.
    destruct (Z.eqb_spec q p) as [->|]; [by rewrite Ew|done].
Qed.

Lemma watched_count_pos w p : watch_ok w -> 0 <= p -> is_watched w p = true -> w_count w <> 0.
Proof.
  intros Hw Hp H. rewrite (wk_count w Hw). assert (Hin : p ∈ watched_pages w).
  { apply list_elem_of_filter. split; [done|]. apply pages_of_elem. by apply bit_get_in. }
  destruct (watched_pages w); [by apply elem_of_nil in Hin|]. simpl. lia.
Qed.

Lemma take_dirty_ok w : watch_ok w -> exists pages w', watch_take_dirty w = Some (pages, w') /\
  watch_ok w' /\ StronglySorted Z.lt pages /\
  (forall p, p ∈ pages <-> 0 <= p /\ bit_get (w_dirty w) p = true) /\
  (forall p, 0 <= p -> is_watched w' p = is_watched w p /\ bit_get (w_dirty w') p = false).
Proof.
  intros Hw. unfold watch_take_dirty. destruct (Z.eqb_spec (w_count w) 0) as [E0|E0].
  - assert (Hnone : forall p, 0 <= p -> bit_get (w_dirty w) p = false).
    { intros p Hp. destruct (bit_get (w_dirty w) p) eqn:Ed; [|done].
      by destruct (watched_count_pos w p Hw Hp (wk_sub w Hw p Hp Ed)). }
    exists [], w. split; [done|]. split; [done|]. split; [constructor|]. split; [|auto].
    intros p. rewrite elem_of_nil. split; [done|]. intros [Hp Hd]. by rewrite Hnone in Hd.
  - assert (Hws : forall i, i ∈ w_words w -> 0 <= i < Z.of_nat (length (w_dirty w))).
    { intros i (q & Hq & <- & Hqw)%(wk_words w Hw). apply bit_get_in in Hqw; [|done].
      unfold in_table in Hqw. rewrite (wk_len w Hw). Z.div_mod_to_equations; lia. }
    destruct (drain_words_spec (w_words w) (w_dirty w)) as (pages & d & E & H1 & H2 & H3 & H4 & H5).
    { apply Hw. } { apply Hw. } { by apply list.Forall_forall. }
    assert (Hword : forall p, 0 <= p -> bit_get (w_dirty w) p = true -> p / 64 ∈ w_words w).
    { intros p Hp Hd. apply (wk_words w Hw). exists p. split; [done|]. split; [done|]. by apply (wk_sub w Hw). }
    assert (Hclean : forall p, 0 <= p -> bit_get d p = false).
    { intros p Hp. destruct (bit_get d p) eqn:Ed; [|done]. apply H5 in Ed as [Hd Hn]; [|done]. by destruct Hn; apply Hword. }
    rewrite E. cbn [mbind option_bind]. exists pages, (mkWatch (w_watch w) d (w_words w) (w_count w)).
    split; [done|]. split.
    + split; cbn [w_watch w_dirty w_words w_count]; try apply Hw; try done.
      * by rewrite H2, (wk_len w Hw).
      * intros p Hp Hd. by rewrite Hclean in Hd.
    + split; [done|]. split; [|intros p Hp; split; [done|by apply Hclean]].
      intros p. rewrite H4. split; [tauto|]. intros [Hp Hd]. auto.
Qed.

(** ** Coalescing *)

Definition in_range (p : Z) (r : Z * Z) : Prop := r.1 <= p * 4096 < r.1 + r.2.

Record coalesced (out : list (Z * Z)) (pages : list Z) : Prop := {
  co_cover : forall p, p ∈ pages <-> Exists (in_range p) out;
  co_align : Forall (fun r => 0 <= r.1 /\ 0 < r.2 /\ r.1 mod 4096 = 0 /\ r.2 mod 4096 = 0 /\ r.1 + r.2 < 2 ^ 64) out;
  co_gap : StronglySorted (fun r r' => r'.1 + r'.2 < r.1) out;
}.

Lemma coalesce_step_ok out pages p : coalesced out pages -> 0 <= p -> p * 4096 + 4096 < 2 ^ 64 ->
  (forall q, q ∈ pages -> q < p) -> coalesced (coalesce_step out p) (pages ++ [p]).
Proof.
  intros Hco Hp Hb Hlt. unfold coalesce_step, CODE_PAGE_SIZE, CODE_PAGE_BITS.
  assert (Es : wrap 64 (Z.shiftl p 12) = p * 4096) by (rewrite Z.shiftl_mul_pow2 by lia; apply wrap_small; unfold in_width; lia).
  rewrite Es.
  assert (Hnew : forall out', (forall q, q ∈ pages <-> Exists (in_range q) out') ->
    forall q, q ∈ pages ++ [p] <-> in_range q (p * 4096, 4096) \/ Exists (in_range q) out').
  { intros out' Hc q. rewrite elem_of_app, list_elem_of_singleton, Hc. unfold in_range. cbn [fst snd].
    split; [intros [?| ->]; [by right|left; lia]|intros [?|?]; [right; lia|by left]]. }
  destruct out as [|[a l] out].
  { split; [|repeat constructor; simpl; (lia || Z.div_mod_to_equations; lia)|by repeat constructor].
    intros q. rewrite (Hnew []) by apply Hco. by rewrite Exists_cons. }
  destruct Hco as [Hc Ha Hg]. inversion Ha as [|? ? (A1 & A2 & A3 & A4 & A5) Ha']; subst. cbn [fst snd] in *.
  inversion Hg as [|? ? Hg' Hgh]; subst. unfold wrapping_add. rewrite (wrap_small 64 (a + l)) by (unfold in_width; lia).
  assert (Hend : a + l <= p * 4096).
  { assert ((a + l) / 4096 - 1 ∈ pages) as Hq%Hlt; [|Z.div_mod_to_equations; lia].
    apply Hc. constructor. unfold in_range. cbn [fst snd]. Z.div_mod_to_equations; lia. }
  destruct (Z.eqb_spec (p * 4096) (a + l)) as [Ee|Ee].
  - rewrite (wrap_small 64 (l + 4096)) by (unfold in_width; lia). split.
    + intros q. rewrite elem_of_app, list_elem_of_singleton, Hc, !Exists_cons. unfold in_range. cbn [fst snd].
      split; [intros [[?|?]| ->]|intros [?|?]]; try tauto; try (left; lia).
      destruct (Z.ltb_spec (q * 4096) (a + l)); [left; left; lia|right; lia].
    + constructor; [|done]. cbn [fst snd]. Z.div_mod_to_equations; lia.
    + constructor; [done|]. eapply list.Forall_impl; [exact Hgh|]. intros r Hr. exact Hr.
  - split.
    + intros q. rewrite (Hnew ((a, l) :: out)) by done. symmetry. apply Exists_cons.
    + constructor; [|done]. cbn [fst snd]. split; [lia|]. split; [lia|]. split; [Z.div_mod_to_equations; lia|]. split; [done|lia].
    + constructor; [done|]. constructor; [cbn [fst snd]; lia|]. eapply list.Forall_impl; [exact Hgh|].
      intros [a' l'] Hr. cbn [fst snd] in *. lia.
Qed.

Lemma coalesce_ok pages : StronglySorted Z.lt pages ->
  Forall (fun p => 0 <= p /\ p * 4096 + 4096 < 2 ^ 64) pages ->
  coalesced (foldl coalesce_step [] pages) pages.
Proof.
  intros Hs Hb. change pages with ([] ++ pages) at 2.
  assert (Hco : coalesced [] []) by (split; [|constructor..]; intros p; rewrite elem_of_nil, Exists_nil; done).
  assert (Hpre : forall q x, q ∈ ([] : list Z) -> x ∈ pages -> q < x) by (by intros q x ?%elem_of_nil).
  revert Hco Hpre. generalize (@nil (Z * Z)) as out. generalize (@nil Z) as pre.
  induction Hs as [|p pages Hs IH Hp]; intros pre out Hco Hpre; [by rewrite app_nil_r|].
  inversion Hb as [|? ? [Hp0 Hpb] Hb']; subst. rewrite list.Forall_forall in Hp. cbn [foldl].
  replace (pre ++ p :: pages) with ((pre ++ [p]) ++ pages) by (by rewrite <- app_assoc).
  apply (IH Hb'); [|].
  - apply coalesce_step_ok; try done. intros q Hq. apply Hpre; [done|constructor].
  - intros q x [Hq| ->%list_elem_of_singleton]%elem_of_app Hx; [apply Hpre; [done|by constructor]|auto].
Qed.

Lemma note_dirty_ok c ps m : words_ok (w_dirty (watch m)) -> Forall (fun p => 0 <= p) ps ->
  words_ok (w_dirty (watch (foldl (note_write_page c) m ps))).
Proof.
  intros Hd Hps. revert m Hd. induction Hps as [|p ps Hp _ IH]; intros m Hd; [done|]. cbn [foldl]. apply IH.
  unfold note_write_page. destruct (is_code_page m p); cbn [watch set_dirty_flag set_dirty];
    (destruct (c && is_watched (watch m) p); [|done]); cbn [watch set_watch]; unfold mark_dirty;
    rewrite word_bit_eq by done; destruct (nthZ _ _) as [x|] eqn:Ex; try done;
    (destruct (_ =? _); [|done]); cbn [w_dirty]; (apply word_ok_set; [done|done|]);
    apply nthZ_Some in Ex as [_ Ex]; by eapply Forall_lookup_1.
Qed.

Lemma note_write_watch m a n : watch_ok (watch m) -> 0 <= a ->
  let w := watch (note_write m a n) in
  watch_ok w /\ (forall p, 0 <= p -> is_watched w p = is_watched (watch m) p) /\
  (forall p, 0 <= p -> bit_get (w_dirty w) p =
     bit_get (w_dirty (watch m)) p || (existsb (Z.eqb p) (code_page_range a n) && is_watched (watch m) p)) /\
  length (watched_pages w) = length (watched_pages (watch m)).
Proof.
  intros Hw Ha. unfold note_write. set (c := negb _).
  destruct (note_pages_spec c (code_page_range a n) m) as (_ & _ & _ & _ & F5 & F6 & F7 & F8 & F9).
  { apply list.Forall_forall. intros p. by apply code_page_range_nonneg. }
  { apply Hw. }
  set (w := watch (foldl _ m _)) in *. cbn zeta.
  assert (Hwat : forall p, is_watched w p = is_watched (watch m) p) by (intros; unfold is_watched; by rewrite F5).
  assert (Hd : forall p, 0 <= p -> bit_get (w_dirty w) p =
     bit_get (w_dirty (watch m)) p || (existsb (Z.eqb p) (code_page_range a n) && is_watched (watch m) p)).
  { intros p Hp. rewrite F9 by done. f_equal. rewrite <- andb_assoc. unfold c.
    destruct (Z.eqb_spec (w_count (watch m)) 0) as [E0|]; [|done]. cbn [negb andb].
    destruct (is_watched (watch m) p) eqn:Ep; [|by rewrite andb_false_r].
    by destruct (watched_count_pos (watch m) p Hw Hp Ep). }
  assert (Hcnt : length (watched_pages w) = length (watched_pages (watch m)))
    by (apply watched_count_same; [by rewrite F5|intros; apply Hwat]).
  split; [|split; [by intros; apply Hwat|by split]].
  split; rewrite ?F5, ?F6, ?F7, ?F8, ?Hcnt; try apply Hw.
  - apply note_dirty_ok; [apply Hw|]. apply list.Forall_forall. intros p. by apply code_page_range_nonneg.
  - intros p Hp. rewrite Hd, Hwat by done. intros [Hx|[_ ?]%andb_true_iff]%orb_true_iff; [|done]. by apply (wk_sub _ Hw).
  - intros i. rewrite (wk_words _ Hw). split; intros (q & ? & ? & ?); exists q; by rewrite ?Hwat in *.
Qed.

Lemma take_dirty_len w pages w' : watch_take_dirty w = Some (pages, w') -> length (w_watch w') = length (w_watch w).
Proof.
  unfold watch_take_dirty. destruct (_ =? _); [by intros [= <- <-]|].
  destruct (drain_words _ _) as [[? ?]|]; cbn [mbind option_bind]; [|done]. by intros [= <- <-].
Qed.

Lemma exists_rev_iff {A} (P : A -> Prop) l : Exists P (rev l) <-> Exists P l.
Proof.
  rewrite !List.Exists_exists. split; intros (x & Hx & ?); exists x; split; try done;
    [by apply in_rev|by rewrite <- in_rev].
Qed.

Lemma rev_sorted (out : list (Z * Z)) : StronglySorted (fun r r' => r'.1 + r'.2 < r.1) out ->
  StronglySorted (fun r r' => r.1 + r.2 < r'.1) (rev out).
Proof.
  assert (Hsnoc : forall (l : list (Z * Z)) x, StronglySorted (fun r r' => r.1 + r.2 < r'.1) l ->
    Forall (fun r => r.1 + r.2 < x.1) l -> StronglySorted (fun r r' => r.1 + r.2 < r'.1) (l ++ [x])).
  { induction 1 as [|y l Hs IH Hy]; intros Hx; simpl; [by repeat constructor|].
    inversion Hx; subst. constructor; [by apply IH|]. apply Forall_app. split; [done|]. by repeat constructor. }
  induction 1 as [|x l Hs IH Hx]; simpl; [constructor|]. apply Hsnoc; [done|].
  apply list.Forall_forall. intros r Hr%list_elem_of_In%in_rev%list_elem_of_In.
  rewrite list.Forall_forall in Hx. by apply Hx.
Qed.

Lemma watch_pages_ok ps w : watch_ok w -> Forall (fun p => 0 <= p) ps ->
  watch_ok (foldl watch_page w ps) /\
  (forall q, 0 <= q -> is_watched (foldl watch_page w ps) q = true <->
     is_watched w q = true \/ (q ∈ ps /\ in_table (w_watch w) q)) /\
  length (w_watch (foldl watch_page w ps)) = length (w_watch w).
Proof.
  intros Hw Hps. revert w Hw. induction Hps as [|p ps Hp _ IH]; intros w Hw; cbn [foldl].
  - split; [done|]. split; [|done]. intros q _. rewrite elem_of_nil. tauto.
  - destruct (watch_page_ok w p Hw Hp) as (H1 & H2 & _ & H4). destruct (IH _ H1) as (I1 & I2 & I3).
    split; [done|]. split; [|congruence]. intros q Hq. rewrite I2, H2, elem_of_cons by done. unfold in_table. rewrite H4.
    rewrite orb_true_iff, andb_true_iff, Z.eqb_eq, bool_decide_eq_true. unfold in_table.
    destruct (decide (q = p)) as [->|]; tauto.
Qed.

Lemma unwatch_pages_ok ps w : watch_ok w -> Forall (fun p => 0 <= p) ps ->
  exists w', unwatch_pages w ps = Some w' /\ watch_ok w' /\
  forall q, 0 <= q -> (is_watched w' q = true <-> is_watched w q = true /\ q ∉ ps) /\
    (bit_get (w_dirty w') q = true <-> bit_get (w_dirty w) q = true /\ q ∉ ps).
Proof.
  intros Hw Hps. revert w Hw. induction Hps as [|p ps Hp _ IH]; intros w Hw; cbn [unwatch_pages].
  - exists w. split; [done|]. split; [done|]. intros q _. rewrite elem_of_nil. tauto.
  - destruct (unwatch_page_ok w p Hw Hp) as (w1 & -> & H1 & H2 & H3). cbn [mbind option_bind].
    destruct (IH _ H1) as (w' & E & I1 & I2). exists w'. split; [done|]. split; [done|]. intros q Hq.
    rewrite elem_of_cons. destruct (I2 q Hq) as [-> ->]. rewrite H2, H3, !andb_true_iff, negb_true_iff, Z.eqb_neq by done.
    tauto.
Qed.

Lemma watch_range_ok m a n : watch_ok (watch m) -> 0 <= a -> watch_ok (watch (watch_range m a n)).
Proof.
  intros Hw Ha. apply watch_pages_ok; [done|]. apply list.Forall_forall. intros p. by apply code_page_range_nonneg.
Qed.

Lemma bit_get_zero k p : 0 <= p -> bit_get (zeroed_words k) p = false.
Proof.
  intros Hp. rewrite bit_get_eq by done. destruct (_ !! _) as [x|] eqn:E; [|done].
  apply lookup_replicate in E as [-> _]. apply Z.testbit_0_l.
Qed.

Lemma ex_mem_watch : watch_ok (watch ex_mem).
Proof.
  change (watch ex_mem) with (mkWatch (zeroed_words 1) (zeroed_words 1) [] 0).
  split; cbn [w_watch w_dirty w_words w_count]; try done.
  - repeat constructor; vm_compute; discriminate.
  - repeat constructor; vm_compute; discriminate.
  - constructor.
  - intros i. rewrite elem_of_nil. split; [done|]. intros (q & Hq & _ & H). unfold is_watched in H.
    cbn [w_watch] in H. by rewrite bit_get_zero in H.
Qed.

(** ** Theorems *)

(** C19: the compare-and-swap loop of [widen_code_range], run by any number of threads under
    any interleaving (weak swaps may fail spuriously): once a thread's call for page [p]
    has returned, [p] passes the inline store test, and the set of pages that pass only
    grows.  The pages are bounded so that the packed length cannot overflow. *)
Theorem watermark_interleaving_sound (cr cr' : Z) (ps : list Z) (ts : list Widener) (a : Z) :
  wm_ok cr -> Forall (fun p => 0 <= p <= PMAX) ps -> rtc wstep (cr, WStart <$> ps) (cr', ts) ->
  in_width 64 a ->
  (WDone (a / 4096) ∈ ts -> code_gate cr' a = true) /\
  (code_gate cr a = true -> code_gate cr' a = true).
Proof.
  intros Hcr Hps Hsteps Ha. destruct (wsteps_ok _ _ Hsteps) as [Hle [Hcr' Hts]].
  { split; [done|]. apply Forall_fmap. eapply list.Forall_impl; [exact Hps|]. intros p Hp. by split. }
  cbn [fst snd] in *. assert (Hp : 0 <= a / 4096 < 2 ^ 64) by (destruct Ha; Z.div_mod_to_equations; lia).
  rewrite !gate_page, !gate_covered by done. split; [|apply Hle].
  intros Hd. rewrite list.Forall_forall in Hts. apply (Hts _ Hd).
Qed.

Lemma watermark_interleaving_sound_witness : code_gate (widen_code_range ex_mem 2).(code_range) 8192 = true.
Proof.
  refine (proj1 (watermark_interleaving_sound 0 _ [2] [WDone 2] 8192 _ _ _ _) _).
  - unfold wm_ok. vm_compute. intuition discriminate.
  - repeat constructor; vm_compute; discriminate.
  - apply (rtc_l _ _ (0, [WLoaded 2 0])); [by apply (w_load 0 [WStart 2] 0)|].
    apply rtc_once. apply (w_cas_ok 0 [WLoaded 2 0] 0 2); reflexivity.
  - vm_compute. intuition discriminate.
  - constructor.
Defined.

(** [mark_code] tags exactly the pages of the block that the table covers, keeps every
    tag it had, and keeps the invariant that every tagged page passes the inline test. *)
Theorem mark_code_exact (m : Memory) (a n : Z) : smc_ok m -> 0 <= a ->
  smc_ok (mark_code m a n) /\
  forall q, 0 <= q -> is_code_page (mark_code m a n) q = true <->
    is_code_page m q = true \/ (q ∈ code_page_range a n /\ in_table (code_page m) q).
Proof. intros Hm Ha. by destruct (mark_code_smc m a n Ha Hm) as (? & _ & ?). Qed.

Lemma ex_mem_smc : smc_ok ex_mem.
Proof.
  split.
  - vm_compute. discriminate.
  - unfold wm_ok. vm_compute. intuition discriminate.
  - intros p Hp H. exfalso. unfold is_code_page in H. rewrite bit_get_eq in H by done.
    change (code_page ex_mem) with [0] in H. destruct (Z.to_nat (p / 64)) as [|[|k]]; cbn in H; try done.
    by rewrite Z.testbit_0_l in H.
Qed.

Lemma mark_code_exact_witness : is_code_page (mark_code ex_mem 4090 10) 1 = true.
Proof.
  apply (mark_code_exact ex_mem 4090 10 ex_mem_smc); [lia|lia|]. right.
  split; [apply list_elem_of_lookup_2 with 1%nat; reflexivity|vm_compute; intuition discriminate].
Defined.

(** C24: an inlined JIT store reports to both facilities exactly as the interpreter's
    [note_write] does, for any store of at most 64 bytes that stays inside one page or
    whose second page holds no translated code. *)
Theorem inline_barrier_exact (m : Memory) (a n : Z) : smc_ok m -> 0 <= a -> 0 < n <= 64 -> a + n <= 2 ^ 64 ->
  nthZ (w_watch (watch m)) (Z.shiftr (a / 4096) 6) <> None ->
  (a mod 4096 + n <= 4096 \/ is_code_page m (a / 4096 + 1) = false) ->
  note_store m a n = Some (note_write m a n).
Proof. apply note_store_exact. Qed.

Lemma inline_barrier_exact_witness :
  note_store (mark_code ex_mem 4090 10) 4096 8 = Some (note_write (mark_code ex_mem 4090 10) 4096 8).
Proof.
  apply (inline_barrier_exact (mark_code ex_mem 4090 10) 4096 8);
    [by apply mark_code_smc; [|apply ex_mem_smc]|lia|lia|lia|vm_compute; discriminate|left; vm_compute; discriminate].
Defined.

(** A JIT store that starts in an untagged page and spills into a translated page that
    was tagged AFTER a page directly above it is not reported, although [note_write] would
    record it: the early return of [widen_code_range] accepts the skewed lower page as
    covered, so the range is never lowered by the page the spill test relies on. *)
Theorem straddling_store_missed :
  let m := mark_code (mark_code ex_mem 8192 16) 4096 16 in
  is_code_page m 1 = true /\ note_store m 4092 8 = Some m /\ dirty m = [] /\
  dirty (note_write m 4092 8) = [1].
Proof. vm_compute. repeat split. Qed.

(** At the largest span [fresh_code_pages] admits, tagging the top page and then page 0
    overflows the packed length into [lo], and the watermark becomes empty: neither page
    passes the inline test. *)
Theorem watermark_overflow_at_max_span :
  exists c1 c2, widen_next 0 (2 ^ 32 - 2) = Some c1 /\ widen_next c1 0 = Some c2 /\
    code_gate c2 0 = false /\ code_gate c2 ((2 ^ 32 - 2) * 4096) = false /\
    (2 ^ 32 - 2) * 4096 < MAX_TRACKED_SPAN.
Proof. exists ((2 ^ 32 - 3) * 2 ^ 32 + 2), (2 ^ 32). vm_compute. repeat split. Qed.

(** A store is never lost by the watch facility: draining after [note_write] reports,
    as ascending, non-adjacent, page-aligned ranges, exactly the watched pages that were
    dirty or that the store touched, and leaves nothing dirty.  Every watched page is
    counted once. *)
Theorem watched_store_reported (m : Memory) (a n : Z) : watch_ok (watch m) -> 0 <= a ->
  Z.of_nat (length (w_watch (watch m))) < 2 ^ 45 ->
  exists rs m', take_dirty_ranges (note_write m a n) = Some (rs, m') /\
    (forall p, 0 <= p -> Exists (in_range p) rs <->
       is_watched (watch m) p = true /\ (bit_get (w_dirty (watch m)) p = true \/ p ∈ code_page_range a n)) /\
    StronglySorted (fun r r' => r.1 + r.2 < r'.1) rs /\
    (forall p, 0 <= p -> is_watched (watch m') p = is_watched (watch m) p /\ bit_get (w_dirty (watch m')) p = false) /\
    watch_ok (watch m') /\ w_count (watch m') = Z.of_nat (length (watched_pages (watch m))).
Proof.
  intros Hw Ha Hlen. destruct (note_write_watch m a n Hw Ha) as (Hw1 & Hwat & Hdirty & Hc).
  destruct (take_dirty_ok (watch (note_write m a n)) Hw1) as (pages & w' & E & Hw' & Hs & Hp & Hclean).
  unfold take_dirty_ranges. rewrite E. cbn [mbind option_bind]. eexists _, _. split; [done|].
  assert (Hb : Forall (fun p => 0 <= p /\ p * 4096 + 4096 < 2 ^ 64) pages).
  { apply list.Forall_forall. intros p [Hp0 Hd]%Hp. split; [done|].
    apply (wk_sub _ Hw1 p Hp0) in Hd. rewrite Hwat in Hd by done. apply bit_get_in in Hd as [_ ?]; [|done]. lia. }
  destruct (coalesce_ok pages Hs Hb) as [C1 _ C3]. split; [|split; [|split; [|split]]].
  - intros p Hp0. rewrite exists_rev_iff, <- C1, Hp, Hdirty by done. rewrite orb_true_iff, andb_true_iff, existsb_eqb, bool_decide_eq_true.
    split; [|tauto]. intros [_ [Hd|[? ?]]]; [|tauto]. split; [by apply (wk_sub _ Hw)|by left].
  - by apply rev_sorted.
  - intros p Hp0. cbn [watch set_watch]. destruct (Hclean p Hp0) as [-> ->]. by rewrite Hwat.
  - exact Hw'.
  - cbn [watch set_watch]. rewrite (wk_count _ Hw'). f_equal. rewrite <- Hc. apply watched_count_same.
    + by apply take_dirty_len in E.
    + intros q Hq. by destruct (Hclean q Hq).
Qed.

Lemma watched_store_reported_witness : exists rs m',
  take_dirty_ranges (note_write (watch_range ex_mem 4000 200) 4090 4) = Some (rs, m') /\ Exists (in_range 0) rs.
Proof.
  destruct (watched_store_reported (watch_range ex_mem 4000 200) 4090 4) as (rs & m' & E & H & _).
  - apply watch_range_ok; [apply ex_mem_watch|lia].
  - lia.
  - vm_compute. reflexivity.
  - exists rs, m'. split; [exact E|]. apply H; [lia|]. split; [reflexivity|].
    right. apply list_elem_of_lookup_2 with 0%nat. reflexivity.
Defined.

(** [watch_range] and [unwatch_range] add and remove exactly the pages of the range, keep
    the page count and the scan list exact, and drop the pending dirty bits of what is
    unwatched; [unwatch_range] never panics. *)
Theorem watch_ranges_exact (m : Memory) (a n : Z) : watch_ok (watch m) -> 0 <= a ->
  (watch_ok (watch (watch_range m a n)) /\
   forall q, 0 <= q -> is_watched (watch (watch_range m a n)) q = true <->
     is_watched (watch m) q = true \/ (q ∈ code_page_range a n /\ in_table (w_watch (watch m)) q)) /\
  (exists m', unwatch_range m a n = Some m' /\ watch_ok (watch m') /\
   forall q, 0 <= q ->
     (is_watched (watch m') q = true <-> is_watched (watch m) q = true /\ q ∉ code_page_range a n) /\
     (bit_get (w_dirty (watch m')) q = true <-> bit_get (w_dirty (watch m)) q = true /\ q ∉ code_page_range a n)).
Proof.
  intros Hw Ha. assert (Hps : Forall (fun p => 0 <= p) (code_page_range a n))
    by (apply list.Forall_forall; intros p; by apply code_page_range_nonneg).
  split.
  - destruct (watch_pages_ok (code_page_range a n) (watch m) Hw Hps) as (H1 & H2 & _). by split.
  - destruct (unwatch_pages_ok (code_page_range a n) (watch m) Hw Hps) as (w' & E & H1 & H2).
    unfold unwatch_range. rewrite E. cbn [mbind option_bind]. by eexists.
Qed.

Lemma watch_ranges_exact_witness : is_watched (watch (watch_range ex_mem 4000 200)) 1 = true.
Proof.
  destruct (watch_ranges_exact ex_mem 4000 200 ex_mem_watch) as [[_ H] _]; [lia|].
  apply H; [lia|]. right. split; [apply list_elem_of_lookup_2 with 1%nat; reflexivity|].
  vm_compute. intuition discriminate.
Defined.
