(* ===== verification/Interp.v ===== *)
(** * The interpreter's machine and integer arms (x86jit-core/src/interp/integer.rs)

    The interpreter runs an IR op on [&mut CpuState], the shared [&Memory] and the
    block's [temps].  That triple is the state of a small monad; [None] is a panic (a
    [temps] index out of range, an [unreachable!]) or undefined behaviour in memory.
    One definition per [exec_*] arm, returning [None] to continue with the next op or
    [Some r] to leave the block. *)

From S2P Require Import Prelude Features State Ir Alu Memory.

(** ** The machine monad *)

Record mach : Type := mkMach {
  m_cpu : CpuState;
  m_mem : Memory;
  m_temps : list Z;
}.

Definition M (A : Type) : Type := mach -> option (A * mach).

#[global] Instance M_ret : MRet M := fun A a s => Some (a, s).
#[global] Instance M_bind : MBind M := fun A B f c s =>
  match c s with Some (a, s') => f a s' | None => None end.

(** Every arm returns a [Continue]/[Exit] to leave the block with, or nothing. *)
Definition Arm : Type := M (option StepResult).
Definition next : Arm := mret None.
Definition leave (r : StepResult) : Arm := mret (Some r).

(** An arithmetic overflow of a shift, where overflow is checked. *)
Definition panic {A} : M A := fun _ => None.

Definition get_cpu : M CpuState := fun s => Some (m_cpu s, s).
Definition upd_cpu (f : CpuState -> CpuState) : M unit :=
  fun s => Some (tt, mkMach (f (m_cpu s)) (m_mem s) (m_temps s)).
Definition upd_flags (f : Flags -> Flags) : M unit :=
  upd_cpu (fun c => set_flags c (f (flags c))).
(** A panic inside a [CpuState] method. *)
Definition try_cpu (f : CpuState -> option CpuState) : M unit :=
  fun s => match f (m_cpu s) with
           | Some c => Some (tt, mkMach c (m_mem s) (m_temps s))
           | None => None
           end.

(** [temps[t] = v] *)
Definition set_temp (t : Temp) (v : Z) : M unit := fun s =>
  match m_temps s !! t with
  | Some _ => Some (tt, mkMach (m_cpu s) (m_mem s) (<[t := v]> (m_temps s)))
  | None => None
  end.

Definition read_val (v : Val) : M Z := fun s =>
  match v with
  | TempV t => match m_temps s !! t with Some x => Some (x, s) | None => None end
  | Imm i => Some (i, s)
  end.

(** A call on the shared memory. *)
Definition on_mem {A} (f : Memory -> option (A * Memory)) : M A := fun s =>
  match f (m_mem s) with
  | Some (a, m) => Some (a, mkMach (m_cpu s) m (m_temps s))
  | None => None
  end.

(** ** Registers and traps (interp/mod.rs) *)

Definition read_reg (c : CpuState) (r : Reg) : Z :=
  match gpr_index r with
  | Some i => get_gpr c i
  | None =>
      match r with
      | Rip => rip c
      | FsBase => fs_base c
      | GsBase => gs_base c
      | Cs => cs c
      | Ds => ds c
      | Es => es c
      | _ => ss c
      end
  end.

Definition write_reg (c : CpuState) (r : Reg) (v size : Z) : option CpuState :=
  match gpr_index r with
  | Some i => write_gpr c i v size
  | None =>
      Some match r with
           | Rip => set_rip c v
           | FsBase => set_fs_base c v
           | GsBase => set_gs_base c v
           | Cs => set_cs c (wrap 16 v)
           | Ds => set_ds c (wrap 16 v)
           | Es => set_es c (wrap 16 v)
           | _ => set_ss c (wrap 16 v)
           end
  end.

Definition trap_exit (t : MemTrap) (addr size : Z) (access : AccessKind) (value : Z) : Exit :=
  match t, access with
  | Unmapped, _ => UnmappedMemory addr access
  | Mmio, Read => MmioRead addr size
  | Mmio, _ => MmioWrite addr size value
  end.

Definition trap_out (cur_addr : Z) (t : MemTrap) (addr size : Z) (access : AccessKind) (value : Z)
    : M StepResult :=
  upd_cpu (fun c => set_rip c cur_addr);;
  mret (SExit (trap_exit t addr size access value)).

(** [apply(&mut cpu.flags, set_flags, &r)] *)
Definition apply (m : FlagMask) (r : AluResult) : M unit := upd_flags (fun f => apply_flags f m r).

Definition RAX : nat := 0.
Definition RCX : nat := 1.
Definition RDX : nat := 2.
Definition RBX : nat := 3.
Definition RSP : nat := 4.
Definition RBP : nat := 5.
Definition RSI : nat := 6.
Definition RDI : nat := 7.
Definition R11_ : nat := 11.

(** ** integer.rs *)

Definition exec_read_reg (dst : Temp) (reg : Reg) : Arm :=
  c ← get_cpu;
  set_temp dst (read_reg c reg);; next.

Definition exec_write_reg (reg : Reg) (src : Val) (size : Z) : Arm :=
  v ← read_val src;
  try_cpu (fun c => write_reg c reg v size);; next.

Definition exec_add (dst : Temp) (a b : Val) (size : Z) (set_flags : FlagMask) : Arm :=
  av ← read_val a; bv ← read_val b;
  let r := alu_add av bv 0 size in
  set_temp dst (r_res r);; apply set_flags r;; next.

Definition exec_adc (dst : Temp) (a b : Val) (size : Z) (set_flags : FlagMask) : Arm :=
  cpu ← get_cpu;
  let c := b2z (cf (flags cpu)) in
  av ← read_val a; bv ← read_val b;
  let r := alu_add av bv c size in
  set_temp dst (r_res r);; apply set_flags r;; next.

Definition exec_sub (dst : Temp) (a b : Val) (size : Z) (set_flags : FlagMask) : Arm :=
  av ← read_val a; bv ← read_val b;
  let r := alu_sub av bv 0 size in
  set_temp dst (r_res r);; apply set_flags r;; next.

Definition exec_sbb (dst : Temp) (a b : Val) (size : Z) (set_flags : FlagMask) : Arm :=
  cpu ← get_cpu;
  let c := b2z (cf (flags cpu)) in
  av ← read_val a; bv ← read_val b;
  let r := alu_sub av bv c size in
  set_temp dst (r_res r);; apply set_flags r;; next.

Definition exec_and (dst : Temp) (a b : Val) (size : Z) (set_flags : FlagMask) : Arm :=
  av ← read_val a; bv ← read_val b;
  let r := alu_logic (Z.land av bv) size in
  set_temp dst (r_res r);; apply set_flags r;; next.

Definition exec_or (dst : Temp) (a b : Val) (size : Z) (set_flags : FlagMask) : Arm :=
  av ← read_val a; bv ← read_val b;
  let r := alu_logic (Z.lor av bv) size in
  set_temp dst (r_res r);; apply set_flags r;; next.

Definition exec_xor (dst : Temp) (a b : Val) (size : Z) (set_flags : FlagMask) : Arm :=
  av ← read_val a; bv ← read_val b;
  let r := alu_logic (Z.lxor av bv) size in
  set_temp dst (r_res r);; apply set_flags r;; next.

Definition exec_shl (dst : Temp) (a b : Val) (size : Z) (set_flags : FlagMask) : Arm :=
  av ← read_val a; let vm := Z.land av (mask size) in
  bv ← read_val b; let cnt := Z.land bv (shift_mask size) in
  let res := Z.land (wrapping_shl 64 vm cnt) (mask size) in
  set_temp dst res;;
  if negb (fm_is_none set_flags) && negb (cnt =? 0) then
    let n := size * 8 in
    let cf := (cnt <=? n) && test (Z.shiftr vm (n - cnt)) 1 in
    let ovf := xorb (test res (sign_bit size)) cf in
    apply set_flags (shift_result res size cf ovf);; next
  else next.

Definition exec_shr (dst : Temp) (a b : Val) (size : Z) (set_flags : FlagMask) : Arm :=
  av ← read_val a; let vm := Z.land av (mask size) in
  bv ← read_val b; let cnt := Z.land bv (shift_mask size) in
  let res := wrapping_shr 64 vm cnt in
  set_temp dst res;;
  if negb (fm_is_none set_flags) && negb (cnt =? 0) then
    let cf := test (Z.shiftr vm (cnt - 1)) 1 in
    let ovf := test vm (sign_bit size) in
    apply set_flags (shift_result res size cf ovf);; next
  else next.

Definition exec_double_shift (dst : Temp) (a b count : Val) (size : Z) (left_ : bool)
    (set_flags : FlagMask) : Arm :=
  let n := size * 8 in
  av0 ← read_val a; let av := Z.land av0 (mask size) in
  bv0 ← read_val b; let bv := Z.land bv0 (mask size) in
  cv ← read_val count; let cnt := Z.land cv (shift_mask size) in
  if cnt =? 0 then set_temp dst av;; next
  else
    let '(res, cf) :=
      if left_ then
        let lo := wrapping_shl 64 av cnt in
        let hi := if cnt <? n then Z.shiftr bv (n - cnt) else 0 in
        let cf := (cnt <=? n) && test (Z.shiftr av (n - cnt)) 1 in
        (Z.land (Z.lor lo hi) (mask size), cf)
      else
        let lo := Z.shiftr av cnt in
        let hi := if cnt <? n then wrapping_shl 64 bv (n - cnt) else 0 in
        let cf := test (Z.shiftr av (cnt - 1)) 1 in
        (Z.land (Z.lor lo hi) (mask size), cf) in
    set_temp dst res;;
    if negb (fm_is_none set_flags) then
      let ovf := xorb (test res (sign_bit size)) (test av (sign_bit size)) in
      apply set_flags (shift_result res size cf ovf);; next
    else next.

Definition exec_sar (dst : Temp) (a b : Val) (size : Z) (set_flags : FlagMask) : Arm :=
  av ← read_val a; let vm := Z.land av (mask size) in
  bv ← read_val b; let cnt := Z.land bv (shift_mask size) in
  let res := Z.land (wrap 64 (Z.shiftr (to_signed 64 (sign_extend vm size)) cnt)) (mask size) in
  set_temp dst res;;
  if negb (fm_is_none set_flags) && negb (cnt =? 0) then
    let cf := test (Z.shiftr (sign_extend vm size) (cnt - 1)) 1 in
    apply set_flags (shift_result res size cf false);; next
  else next.

(** An extension of no bytes would shift by the width of the word. *)
Definition exec_sext (dst : Temp) (a : Val) (from : Z) : Arm :=
  av ← read_val a;
  if from <=? 0 then panic else set_temp dst (sign_extend av from);; next.

Definition exec_bswap (dst : Temp) (a : Val) (size : Z) : Arm :=
  v ← read_val a;
  set_temp dst (if size =? 8 then swap_bytes 8 v
                else if size =? 2 then swap_bytes 2 (wrap 16 v)
                else swap_bytes 4 (wrap 32 v));; next.

Definition exec_rol (dst : Temp) (a b : Val) (size : Z) (set_flags : FlagMask) : Arm :=
  av ← read_val a; let vm := Z.land av (mask size) in
  bv ← read_val b; let cnt := Z.land bv (shift_mask size) in
  let res := rotl vm cnt size in
  set_temp dst res;;
  if negb (fm_is_none set_flags) && negb (cnt =? 0) then
    let cf := test res 1 in
    let ovf := xorb (test res (sign_bit size)) cf in
    apply set_flags (cf_of res cf ovf);; next
  else next.

Definition exec_ror (dst : Temp) (a b : Val) (size : Z) (set_flags : FlagMask) : Arm :=
  av ← read_val a; let vm := Z.land av (mask size) in
  bv ← read_val b; let cnt := Z.land bv (shift_mask size) in
  let res := rotr vm cnt size in
  set_temp dst res;;
  if negb (fm_is_none set_flags) && negb (cnt =? 0) then
    let n := size * 8 in
    let cf := test res (sign_bit size) in
    let ovf := xorb cf (test (Z.shiftr res (n - 2)) 1) in
    apply set_flags (cf_of res cf ovf);; next
  else next.

Definition exec_rcl (dst : Temp) (a b : Val) (size : Z) (set_flags : FlagMask) : Arm :=
  av ← read_val a; let vm := Z.land av (mask size) in
  let bits := size * 8 in
  bv ← read_val b; let cnt := Z.land (wrap 32 bv) (shift_mask size) mod (bits + 1) in
  c ← get_cpu;
  let '(res, cf) := rcl (Z.to_nat cnt) vm (cf (flags c)) size in
  set_temp dst res;;
  if negb (fm_is_none set_flags) && negb (cnt =? 0) then
    let ovf := xorb cf (test res (sign_bit size)) in
    apply set_flags (cf_of res cf ovf);; next
  else next.

Definition exec_rcr (dst : Temp) (a b : Val) (size : Z) (set_flags : FlagMask) : Arm :=
  av ← read_val a; let vm := Z.land av (mask size) in
  let bits := size * 8 in
  bv ← read_val b; let cnt := Z.land (wrap 32 bv) (shift_mask size) mod (bits + 1) in
  c ← get_cpu;
  let '(res, cf) := rcr (Z.to_nat cnt) vm (cf (flags c)) size in
  set_temp dst res;;
  if negb (fm_is_none set_flags) && negb (cnt =? 0) then
    let n := size * 8 in
    let ovf := xorb (test res (sign_bit size)) (test (Z.shiftr res (n - 2)) 1) in
    apply set_flags (cf_of res cf ovf);; next
  else next.

(** The widening product of [exec_mul]: low half, high half, overflow. *)
Definition mul_wide (va vb size : Z) (signed : bool) : Z * Z * bool :=
  let m := mask size in
  let n := size * 8 in
  if signed then
    let p := to_signed 64 (sign_extend va size) * to_signed 64 (sign_extend vb size) in
    let lo_v := Z.land (wrap 64 p) m in
    let hi_v := Z.land (wrap 64 (Z.shiftr p n)) m in
    (lo_v, hi_v, negb (p =? to_signed 64 (sign_extend lo_v size)))
  else
    let p := va * vb in
    let lo_v := Z.land (wrap 64 p) m in
    let hi_v := Z.land (wrap 64 (Z.shiftr p n)) m in
    (lo_v, hi_v, negb (hi_v =? 0)).

Definition exec_mul (lo hi : Temp) (a b : Val) (size : Z) (signed : bool) (set_flags : FlagMask) : Arm :=
  let m := mask size in
  av ← read_val a; bv ← read_val b;
  let va := Z.land av m in let vb := Z.land bv m in
  let '(lo_v, hi_v, overflow) := mul_wide va vb size signed in
  set_temp lo lo_v;; set_temp hi hi_v;;
  if negb (fm_is_none set_flags) then apply set_flags (cf_of lo_v overflow overflow);; next else next.

Definition exec_div (cur_addr : Z) (quot rem : Temp) (hi lo divisor : Val) (size : Z) (signed : bool) : Arm :=
  hv ← read_val hi; lv ← read_val lo; dv ← read_val divisor;
  match divide hv lv dv size signed with
  | Some (q, r) => set_temp quot q;; set_temp rem r;; next
  | None =>
      upd_cpu (fun c => set_rip c cur_addr);;
      leave (SExit (EException cur_addr 0))
  end.

Definition exec_get_cond (dst : Temp) (cond : Cond) : Arm :=
  c ← get_cpu; set_temp dst (b2z (eval_cond cond (flags c)));; next.

Definition exec_load (cur_addr : Z) (dst : Temp) (addr : Val) (size : Z) : Arm :=
  a ← read_val addr;
  c ← get_cpu;
  match pending_mmio c with
  | Some v =>
      upd_cpu (fun c => set_pending_mmio c None);;
      set_temp dst (Z.land v (mask size));; next
  | None =>
      r ← on_mem (fun m => read m a size);
      match r with
      | Ok v => set_temp dst v;; next
      | Err t => s ← trap_out cur_addr t a size Read 0; leave s
      end
  end.

Definition exec_store (cur_addr : Z) (addr src : Val) (size : Z) : Arm :=
  a ← read_val addr; v ← read_val src;
  r ← on_mem (fun m => write m a v size);
  match r with
  | Ok _ => next
  | Err t =>
      c ← get_cpu;
      match t, pending_mmio_write c with
      | Mmio, true => upd_cpu (fun c => set_pending_mmio_write c false);; next
      | _, _ => s ← trap_out cur_addr t a size Write v; leave s
      end
  end.

Definition exec_atomic_rmw (cur_addr : Z) (old : Temp) (addr src : Val) (size : Z) (op : RmwOp) : Arm :=
  a ← read_val addr; s ← read_val src;
  r ← on_mem (fun m => atomic_rmw m a s size op);
  match r with
  | Ok prev => set_temp old prev;; next
  | Err t => x ← trap_out cur_addr t a size Write s; leave x
  end.

Definition exec_atomic_cas (cur_addr : Z) (old : Temp) (addr expected src : Val) (size : Z) : Arm :=
  a ← read_val addr; exp ← read_val expected; s ← read_val src;
  r ← on_mem (fun m => atomic_cas m a exp s size);
  match r with
  | Ok prev => set_temp old prev;; next
  | Err t => x ← trap_out cur_addr t a size Write s; leave x
  end.

Definition bt_apply (op : BtOp) (av m : Z) : Z :=
  match op with
  | BtTest => av
  | BtSet => Z.lor av m
  | BtReset => Z.land av (unot 64 m)
  | BtComplement => Z.lxor av m
  end.

Definition exec_bt (result : Temp) (a bit : Val) (size : Z) (op : BtOp) : Arm :=
  av ← read_val a;
  bv ← read_val bit; let b := Z.land bv (size * 8 - 1) in
  upd_flags (fun f => set_cf f (test (Z.shiftr av b) 1));;
  let m := Z.shiftl 1 b in
  set_temp result (Z.land (bt_apply op av m) (mask size));; next.

(** [cpuid_run]: leaf in EAX; the subleaf is not consulted. *)
Definition cpuid_regs (f : GuestCpuFeatures) (leaf : Z) : Z * Z * Z * Z :=
  if leaf =? 0x0 then (0x7, 0x756e6547, 0x6c65746e, 0x49656e69)
  else if leaf =? 0x1 then (0x000306c3, 0, leaf1_ecx f, leaf1_edx f)
  else if leaf =? 0x7 then (0, leaf7_ebx f, leaf7_ecx f, 0)
  else if leaf =? 0x80000000 then (0x80000001, 0, 0, 0)
  else if leaf =? 0x80000001 then (0, 0, ext_leaf1_ecx f, Z.lor (Z.shiftl 1 11) (Z.shiftl 1 29))
  else (0, 0, 0, 0).

Definition cpuid_run (c : CpuState) : option CpuState :=
  let '(eax, ebx, ecx, edx) := cpuid_regs (features c) (wrap 32 (get_gpr c RAX)) in
  c ← write_gpr c RAX eax 4;
  c ← write_gpr c RBX ebx 4;
  c ← write_gpr c RCX ecx 4;
  write_gpr c RDX edx 4.

Definition xgetbv_run (c : CpuState) : option CpuState :=
  c ← write_gpr c RAX (xcr0 (features c)) 4;
  write_gpr c RDX 0 4.

Definition exec_cpuid : Arm := try_cpu cpuid_run;; next.
Definition exec_xgetbv : Arm := try_cpu xgetbv_run;; next.

Definition exec_popcnt (dst : Temp) (src : Val) (size : Z) : Arm :=
  v ← read_val src; let s := Z.land v (mask size) in
  set_temp dst (count_ones s);;
  upd_flags (fun f =>
    let f := set_zf f (s =? 0) in
    let f := set_cf f false in
    let f := set_of_ f false in
    let f := set_sf f false in
    set_pf (set_af f false) false);; next.

(** A ninth byte would be shifted out of the source word. *)
Definition exec_crc32 (dst : Temp) (crc src : Val) (bytes : Z) : Arm :=
  cv ← read_val crc; s ← read_val src;
  if 8 <? bytes then panic else set_temp dst (crc32c (wrap 32 cv) s bytes);; next.

Definition exec_bmi (dst : Temp) (a b : Val) (size : Z) (op : BmiOp) : Arm :=
  av ← read_val a; bv ← read_val b;
  let '(r, c) := bmi_result av bv size op in
  (if writes_flags op then
     let bits := size * 8 in
     upd_flags (fun f => set_of_ (set_sf (set_zf (set_cf f c) (r =? 0)) (test (Z.shiftr r (bits - 1)) 1)) false)
   else mret tt);;
  set_temp dst r;; next.

(** The result of a bit scan and the flags it sets; [old] is the destination kept by
    [bsf]/[bsr] of zero. *)
Definition bit_scan_result (op : BitScanOp) (s old size : Z) (f : Flags) : Z * Flags :=
  let bits := size * 8 in
  match op with
  | Bsf => if s =? 0 then (Z.land old (mask size), set_zf f true)
           else (trailing_zeros 64 s, set_zf f false)
  | Bsr => if s =? 0 then (Z.land old (mask size), set_zf f true)
           else (63 - leading_zeros 64 s, set_zf f false)
  | Tzcnt =>
      let r := if s =? 0 then bits else trailing_zeros 64 s in
      (r, set_zf (set_cf f (s =? 0)) (r =? 0))
  | Lzcnt =>
      let r := leading_zeros 64 s - (64 - bits) in
      (r, set_zf (set_cf f (s =? 0)) (r =? 0))
  end.

Definition exec_bit_scan (dst : Temp) (src old : Val) (size : Z) (op : BitScanOp) : Arm :=
  v ← read_val src; let s := Z.land v (mask size) in
  o ← (match op with
       | Bsf | Bsr => if s =? 0 then read_val old else mret 0
       | _ => mret 0
       end);
  c ← get_cpu;
  let '(r, f) := bit_scan_result op s o size (flags c) in
  upd_flags (fun _ => f);;
  set_temp dst r;; next.

(** *** Decimal adjusts *)

(** AL and the flags after [daa]/[das]. *)
Definition bcd_adjust (sub : bool) (al : Z) (f : Flags) : Z * Flags :=
  let old_al := al in
  let old_cf := cf f in
  let f := set_cf f false in
  let '(new_al, f) :=
    if (9 <? Z.land al 0x0F) || af f then
      let r := if sub then wrapping_sub 8 al 6 else wrapping_add 8 al 6 in
      let carry := if sub then al <? 6 else 256 <=? al + 6 in
      (r, set_af (set_cf f (old_cf || carry)) true)
    else (al, set_af f false) in
  let '(new_al, f) :=
    if (0x99 <? old_al) || old_cf then
      ((if sub then wrapping_sub 8 new_al 0x60 else wrapping_add 8 new_al 0x60), set_cf f true)
    else (new_al, f) in
  let f := set_sf f (test new_al 0x80) in
  let f := set_zf f (new_al =? 0) in
  let f := set_pf f (parity new_al) in
  (new_al, set_of_ f false).

(** AX and the flags after [aaa]/[aas]. *)
Definition ascii_adjust (sub : bool) (ax : Z) (f : Flags) : Z * Flags :=
  let al := Z.land ax 0xFF in
  let '(ax, f) :=
    if (9 <? Z.land al 0x0F) || af f then
      ((if sub then wrapping_sub 16 ax 0x106 else wrapping_add 16 ax 0x106), set_cf (set_af f true) true)
    else (ax, set_cf (set_af f false) false) in
  (Z.land ax 0xFF0F, f).

Definition bcd_result_flags (new_al : Z) (f : Flags) : Flags :=
  set_pf (set_zf (set_sf f (test new_al 0x80)) (new_al =? 0)) (parity new_al).

Definition exec_bcd (cur_addr : Z) (kind : BcdKind) : Arm :=
  c ← get_cpu;
  let rax := get_gpr c RAX in
  let al := Z.land rax 0xFF in
  let adjust sub :=
    let '(new_al, f) := bcd_adjust sub al (flags c) in
    upd_cpu (fun c => set_flags (put_gpr c RAX (Z.lor (Z.land rax (unot 64 0xFF)) new_al)) f);; next in
  let ascii sub :=
    let '(ax, f) := ascii_adjust sub (Z.land rax 0xFFFF) (flags c) in
    upd_cpu (fun c => set_flags (put_gpr c RAX (Z.lor (Z.land rax (unot 64 0xFFFF)) ax)) f);; next in
  match kind with
  | Daa => adjust false
  | Das => adjust true
  | Aaa => ascii false
  | Aas => ascii true
  | Aam base =>
      if base =? 0 then
        upd_cpu (fun c => set_rip c cur_addr);;
        leave (SExit (EException cur_addr 0))
      else
        let ah := al / base in
        let new_al := al mod base in
        upd_cpu (fun c =>
          set_flags (put_gpr c RAX (Z.lor (Z.lor (Z.land rax (unot 64 0xFFFF)) (Z.shiftl ah 8)) new_al))
            (bcd_result_flags new_al (flags c)));; next
  | Aad base =>
      let ah := Z.land (Z.shiftr rax 8) 0xFF in
      let new_al := wrapping_add 8 al (wrapping_mul 8 ah base) in
      upd_cpu (fun c =>
        set_flags (put_gpr c RAX (Z.lor (Z.land rax (unot 64 0xFFFF)) new_al))
          (bcd_result_flags new_al (flags c)));; next
  end.

(** ** Well-formed machines

    [safe n c Q]: from any machine with well-formed registers, memory and [n] 64-bit
    temporaries, [c] returns (no panic, no undefined behaviour), leaves a well-formed
    machine and its result satisfies [Q]. *)

Record mach_ok (n : nat) (s : mach) : Prop := {
  ok_cpu : cpu_wf (m_cpu s);
  ok_mem : mem_wf (m_mem s);
  ok_temps : length (m_temps s) = n;
  ok_temp_vals : Forall (in_width 64) (m_temps s);
}.

Definition val_ok (n : nat) (v : Val) : Prop :=
  match v with TempV t => (t < n)%nat | Imm i => in_width 64 i end.

Definition safe {A} (n : nat) (c : M A) (Q : A -> Prop) : Prop :=
  forall s, mach_ok n s -> exists a s', c s = Some (a, s') /\ mach_ok n s' /\ Q a.

Definition any {A} (_ : A) : Prop := True.

Section Safe.
Context (n : nat).

Lemma safe_ret {A} (a : A) (Q : A -> Prop) : Q a -> safe n (mret a) Q.
Proof. intros Ha s Hs. by exists a, s. Qed.

Lemma safe_bind {A B} (c : M A) (f : A -> M B) (P : A -> Prop) (Q : B -> Prop) :
  safe n c P -> (forall a, P a -> safe n (f a) Q) -> safe n (c ≫= f) Q.
Proof.
  intros Hc Hf s Hs. destruct (Hc s Hs) as (a & s1 & E & Hs1 & Ha).
  destruct (Hf a Ha s1 Hs1) as (b & s2 & E2 & Hs2 & Hb). exists b, s2.
  split; [|done]. unfold mbind, M_bind. by rewrite E.
Qed.

Lemma safe_weaken {A} (c : M A) (P Q : A -> Prop) :
  (forall a, P a -> Q a) -> safe n c P -> safe n c Q.
Proof. intros H Hc s Hs. destruct (Hc s Hs) as (a & s1 & E & Hs1 & Ha). exists a, s1. auto. Qed.

Lemma safe_next : safe n next any.
Proof. by apply safe_ret. Qed.
Lemma safe_leave r : safe n (leave r) any.
Proof. by apply safe_ret. Qed.

Lemma safe_get_cpu : safe n get_cpu cpu_wf.
Proof. intros s Hs. exists (m_cpu s), s. split; [done|]. split; [done|apply Hs]. Qed.

Lemma safe_upd_cpu f : (forall c, cpu_wf c -> cpu_wf (f c)) -> safe n (upd_cpu f) any.
Proof. intros H s [? ? ? ?]. eexists _, _. split; [done|]. split; [|done]. split; simpl; auto. Qed.

Lemma safe_try_cpu f : (forall c, cpu_wf c -> exists c', f c = Some c' /\ cpu_wf c') -> safe n (try_cpu f) any.
Proof.
  intros H s [Hc ? ? ?]. destruct (H _ Hc) as (c' & E & Hc'). unfold try_cpu. rewrite E.
  eexists _, _. split; [done|]. split; [|done]. by split.
Qed.

Lemma safe_set_temp t v : (t < n)%nat -> in_width 64 v -> safe n (set_temp t v) any.
Proof.
  intros Ht Hv s [? ? Hl ?]. unfold set_temp. destruct (lookup_lt_is_Some_2 (m_temps s) t) as [x ->]; [lia|].
  eexists _, _. split; [done|]. split; [|done]. split; simpl; try done; [by rewrite length_insert|by apply Forall_insert].
Qed.

Lemma safe_read_val v : val_ok n v -> safe n (read_val v) (in_width 64).
Proof.
  intros Hv s Hs. destruct v as [t|i]; cbn [val_ok read_val] in *; [|by exists i, s].
  destruct (lookup_lt_is_Some_2 (m_temps s) t) as [x E]; [rewrite (ok_temps _ _ Hs); lia|]. rewrite E.
  exists x, s. split; [done|]. split; [done|]. eapply Forall_lookup_1; [exact (ok_temp_vals _ _ Hs)|exact E].
Qed.

Lemma safe_on_mem {A} (f : Memory -> option (A * Memory)) (Q : A -> Prop) :
  (forall m, mem_wf m -> exists a m', f m = Some (a, m') /\ mem_wf m' /\ Q a) -> safe n (on_mem f) Q.
Proof.
  intros H s [? Hm ? ?]. destruct (H _ Hm) as (a & m' & E & Hm' & Ha). unfold on_mem. rewrite E.
  eexists _, _. split; [done|]. split; [|done]. by split.
Qed.
End Safe.

(** *** Flags and registers stay within their types *)

Lemma cpu_wf_flags c f : cpu_wf c -> in_width 8 (pf_src f) -> in_width 8 (af_src f) -> cpu_wf (set_flags c f).
Proof. intros [? ? ? ? ? ? ? ? ? ? ? ? ? ? ? ? ?] ? ?. by split. Qed.

Definition flags_wf (f : Flags) : Prop := in_width 8 (pf_src f) /\ in_width 8 (af_src f).

Lemma cpu_flags_wf c : cpu_wf c -> flags_wf (flags c).
Proof. intros H. split; apply H. Qed.

Lemma flags_wf_pf f v : flags_wf f -> flags_wf (set_pf f v).
Proof. intros [? ?]. split; [|done]. destruct v; split; vm_compute; congruence. Qed.
Lemma flags_wf_af f v : flags_wf f -> flags_wf (set_af f v).
Proof. intros [? ?]. split; [done|]. destruct v; split; vm_compute; congruence. Qed.
Lemma flags_wf_cf f v : flags_wf f -> flags_wf (set_cf f v).
Proof. done. Qed.
Lemma flags_wf_zf f v : flags_wf f -> flags_wf (set_zf f v).
Proof. done. Qed.
Lemma flags_wf_sf f v : flags_wf f -> flags_wf (set_sf f v).
Proof. done. Qed.
Lemma flags_wf_of f v : flags_wf f -> flags_wf (set_of_ f v).
Proof. done. Qed.
Lemma flags_wf_df f v : flags_wf f -> flags_wf (set_df f v).
Proof. done. Qed.
Lemma flags_wf_if f v : flags_wf f -> flags_wf (set_if_ f v).
Proof. done. Qed.

Create HintDb safe.
#[export] Hint Resolve flags_wf_pf flags_wf_af flags_wf_cf flags_wf_zf flags_wf_sf flags_wf_of
  flags_wf_df flags_wf_if cpu_flags_wf : safe.

Lemma flags_wf_apply f m r : flags_wf f -> flags_wf (apply_flags f m r).
Proof.
  intros H. unfold apply_flags. destruct (fm_is_none m); [done|].
  repeat match goal with |- context [if ?c then _ else _] => destruct c end; auto 10 with safe.
Qed.
Lemma flags_wf_16 f i : flags_wf f -> flags_wf (set_flags16 f i).
Proof. intros H. unfold set_flags16. auto 20 with safe. Qed.
#[export] Hint Resolve flags_wf_apply flags_wf_16 : safe.

Lemma cpu_wf_set_flags c f : cpu_wf c -> flags_wf f -> cpu_wf (set_flags c f).
Proof. intros ? [? ?]. by apply cpu_wf_flags. Qed.
Lemma cpu_wf_rip c v : cpu_wf c -> in_width 64 v -> cpu_wf (set_rip c v).
Proof. intros [? ? ? ? ? ? ? ? ? ? ? ? ? ? ? ? ?] ?. by split. Qed.
Lemma cpu_wf_fs c v : cpu_wf c -> in_width 64 v -> cpu_wf (set_fs_base c v).
Proof. intros [? ? ? ? ? ? ? ? ? ? ? ? ? ? ? ? ?] ?. by split. Qed.
Lemma cpu_wf_gs c v : cpu_wf c -> in_width 64 v -> cpu_wf (set_gs_base c v).
Proof. intros [? ? ? ? ? ? ? ? ? ? ? ? ? ? ? ? ?] ?. by split. Qed.
Lemma cpu_wf_cs c v : cpu_wf c -> in_width 16 v -> cpu_wf (set_cs c v).
Proof. intros [? ? ? ? ? ? ? ? ? ? ? ? ? ? ? ? ?] ?. by split. Qed.
Lemma cpu_wf_ds c v : cpu_wf c -> in_width 16 v -> cpu_wf (set_ds c v).
Proof. intros [? ? ? ? ? ? ? ? ? ? ? ? ? ? ? ? ?] ?. by split. Qed.
Lemma cpu_wf_es c v : cpu_wf c -> in_width 16 v -> cpu_wf (set_es c v).
Proof. intros [? ? ? ? ? ? ? ? ? ? ? ? ? ? ? ? ?] ?. by split. Qed.
Lemma cpu_wf_ss c v : cpu_wf c -> in_width 16 v -> cpu_wf (set_ss c v).
Proof. intros [? ? ? ? ? ? ? ? ? ? ? ? ? ? ? ? ?] ?. by split. Qed.
Lemma cpu_wf_pending c : cpu_wf c -> cpu_wf (set_pending_mmio c None).
Proof. intros [? ? ? ? ? ? ? ? ? ? ? ? ? ? ? ? ?]. by split. Qed.
Lemma cpu_wf_pending_write c v : cpu_wf c -> cpu_wf (set_pending_mmio_write c v).
Proof. intros [? ? ? ? ? ? ? ? ? ? ? ? ? ? ? ? ?]. by split. Qed.
Lemma cpu_wf_port_in c v : cpu_wf c -> cpu_wf (set_pending_port_in c v).
Proof. intros [? ? ? ? ? ? ? ? ? ? ? ? ? ? ? ? ?]. by split. Qed.
#[export] Hint Resolve cpu_wf_set_flags cpu_wf_rip cpu_wf_fs cpu_wf_gs cpu_wf_cs cpu_wf_ds cpu_wf_es
  cpu_wf_ss cpu_wf_pending cpu_wf_pending_write cpu_wf_port_in gprs_insert_wf : safe.

Lemma write_gpr_ok c i v size : cpu_wf c -> valid_elem size -> in_width 64 v ->
  exists c', write_gpr c i v size = Some c' /\ cpu_wf c'.
Proof.
  intros Hc Hs Hv. pose proof (get_gpr_range c i Hc).
  unfold write_gpr. destruct Hs as [->|[->|[->| ->]]]; cbn [Z.eqb Pos.eqb]; eexists; (split; [done|]);
    apply gprs_insert_wf; try done.
  - by apply (merge_low_range 8).
  - by apply (merge_low_range 16).
  - apply in_width_land; [lia|done|lia].
Qed.

Lemma write_reg_ok c r v size : cpu_wf c -> valid_elem size -> in_width 64 v ->
  exists c', write_reg c r v size = Some c' /\ cpu_wf c'.
Proof.
  intros Hc Hs Hv. unfold write_reg. destruct (gpr_index r); [by apply write_gpr_ok|].
  eexists. split; [done|]. destruct r; auto with safe width.
Qed.

Lemma read_reg_range c r : cpu_wf c -> in_width 64 (read_reg c r).
Proof.
  intros Hc. unfold read_reg. destruct (gpr_index r); [by apply get_gpr_range|].
  destruct r; first [exact (wf_rip c Hc)|exact (wf_fs c Hc)|exact (wf_gs c Hc)
    |apply (in_width_mono 16 64); [lia|];
     first [exact (wf_cs c Hc)|exact (wf_ds c Hc)|exact (wf_es c Hc)|exact (wf_ss c Hc)]].
Qed.

(** *** Memory calls *)

Definition ok_width (r : Result Z MemTrap) : Prop := forall v, r = Ok v -> in_width 64 v.

Lemma v_le_range m a n : mem_wf m -> valid_elem n -> in_width 64 (v_le (view m) a n).
Proof.
  intros Hm Hn. pose proof (valid_elem_range n Hn). apply (in_width_mono (8 * n)); [lia|].
  unfold v_le. assert (Hb : Forall (in_width 8) (v_byte (view m) <$> zseq a (Z.to_nat n))).
  { apply Forall_fmap, list.Forall_forall. intros x _. apply (wf_bytes _ _ _ _ Hm). }
  apply from_le_bytes_range in Hb. rewrite length_fmap, length_zseq, Z2Nat.id in Hb by lia. exact Hb.
Qed.

Section SafeMem.
Context (n : nat).

Lemma safe_read a size : valid_elem size -> safe n (on_mem (fun m => read m a size)) ok_width.
Proof.
  intros Hs. apply safe_on_mem. intros m Hm. destruct (read_refines m a size Hm Hs) as (m' & E & Hm' & _).
  eexists _, m'. split; [exact E|]. split; [done|]. unfold g_read. intros v Hv.
  destruct (v_kind _ _ _) as [[]|]; simplify_eq; by apply v_le_range.
Qed.

Lemma safe_write a v size : valid_elem size -> safe n (on_mem (fun m => write m a v size)) any.
Proof.
  intros Hs. apply safe_on_mem. intros m Hm. destruct (write_refines m a v size Hm Hs) as (m' & E & Hm' & _).
  eexists _, m'. split; [exact E|]. by split.
Qed.

Lemma safe_rmw a v size op : valid_elem size -> safe n (on_mem (fun m => atomic_rmw m a v size op)) ok_width.
Proof.
  intros Hs. apply safe_on_mem. intros m Hm. destruct (rmw_refines m a v size op Hm Hs) as (m' & E & Hm' & _).
  eexists _, m'. split; [exact E|]. split; [done|]. unfold g_rmw. intros x Hx.
  destruct (v_kind _ _ _) as [[]|]; simplify_eq/=; by apply v_le_range.
Qed.

Lemma safe_cas a e v size : valid_elem size -> safe n (on_mem (fun m => atomic_cas m a e v size)) ok_width.
Proof.
  intros Hs. apply safe_on_mem. intros m Hm. destruct (cas_refines m a e v size Hm Hs) as (m' & E & Hm' & _).
  eexists _, m'. split; [exact E|]. split; [done|]. unfold g_rmw. intros x Hx.
  destruct (v_kind _ _ _) as [[]|]; simplify_eq/=; by apply v_le_range.
Qed.

Lemma safe_trap_out a t addr size k v : in_width 64 a -> safe n (trap_out a t addr size k v) any.
Proof.
  intros Ha. unfold trap_out. apply (safe_bind n _ _ any); [|intros; by apply safe_ret].
  apply safe_upd_cpu. auto with safe.
Qed.

Lemma safe_apply m r : safe n (apply m r) any.
Proof. apply safe_upd_cpu. intros. auto with safe. Qed.
Lemma safe_upd_flags f : (forall g, flags_wf g -> flags_wf (f g)) -> safe n (upd_flags f) any.
Proof. intros H. apply safe_upd_cpu. intros. auto with safe. Qed.
End SafeMem.

(** *** Ranges of the arithmetic results *)

Lemma land_mask_range x size : valid_elem size -> in_width 64 (Z.land x (mask size)).
Proof.
  intros Hs. rewrite land_mask by done. pose proof (size_bits size Hs).
  apply (in_width_mono (8 * size)); [lia|]. apply wrap_range. lia.
Qed.

Lemma rot_range v cnt size : in_width 64 (rotl v cnt size) /\ in_width 64 (rotr v cnt size).
Proof.
  unfold rotl, rotr. split; repeat (match goal with |- context [if ?c then _ else _] => destruct c end);
    unfold rotate_left, rotate_right;
    first [apply wrap_range; lia|eapply in_width_mono; [|apply wrap_range; lia]; lia].
Qed.

Lemma rcl_range cnt v c size : valid_elem size -> in_width 64 v -> in_width 64 (rcl cnt v c size).1.
Proof.
  intros Hs. revert v c. induction cnt as [|cnt IH]; intros v c Hv; cbn [rcl]; [done|].
  apply IH. by apply land_mask_range.
Qed.
Lemma rcr_range cnt v c size : in_width 64 v -> in_width 64 (rcr cnt v c size).1.
Proof.
  revert v c. induction cnt as [|cnt IH]; intros v c Hv; cbn [rcr]; [done|].
  apply IH. auto with width.
Qed.

Lemma mul_wide_range va vb size signed : valid_elem size ->
  in_width 64 (mul_wide va vb size signed).1.1 /\ in_width 64 (mul_wide va vb size signed).1.2.
Proof. intros Hs. unfold mul_wide. destruct signed; split; by apply land_mask_range. Qed.

Lemma divide_range hi lo d size signed q r : valid_elem size ->
  divide hi lo d size signed = Some (q, r) -> in_width 64 q /\ in_width 64 r.
Proof.
  intros Hs. rewrite divide_exact by done. pose proof (size_bits size Hs) as Hn.
  set (k := bits_of size) in *. unfold divide_spec.
  assert (Hw : forall x, in_width 64 (wrap k x))
    by (intros; apply (in_width_mono k); [lia|apply wrap_range; lia]).
  pose proof (wrap_range k d ltac:(lia)) as [Hd0 Hd1]. pose proof (wrap_range k hi ltac:(lia)) as [? _].
  pose proof (wrap_range k lo ltac:(lia)) as [? _]. pose proof (pow2_pos k ltac:(lia)).
  destruct (Z.eqb_spec (wrap k d) 0); [done|]. destruct signed.
  - destruct (fits_signed k _); [|done]. intros [= <- <-]. split; apply Hw.
  - set (dv := wrap k hi * 2 ^ k + wrap k lo). destruct (Z.ltb_spec (dv / wrap k d) (2 ^ k)) as [Hq|]; [|done].
    intros [= <- <-]. assert (0 <= dv) by (unfold dv; nia).
    split; apply (in_width_mono k); try lia; split; try done.
    + apply Z.div_pos; lia.
    + apply Z.mod_pos_bound; lia.
    + pose proof (Z.mod_pos_bound dv (wrap k d) ltac:(lia)). lia.
Qed.

Lemma sign_extend_range v from : in_width 64 v -> in_width 64 (sign_extend v from).
Proof. intros Hv. unfold sign_extend. destruct (_ <=? _); [done|]. apply wrap_range. lia. Qed.

Lemma swap_bytes_range n x : in_width (8 * Z.of_nat n) (swap_bytes n x).
Proof.
  unfold swap_bytes. pose proof (from_le_bytes_range (rev (to_le_bytes n x))) as H.
  rewrite length_rev, length_to_le_bytes in H. apply H. apply Forall_rev, to_le_bytes_range.
Qed.

Lemma count_ones_range x : in_width 64 x -> in_width 64 (count_ones x).
Proof.
  intros Hx. rewrite <- (ones_in_count 64 x) by exact Hx. pose proof (ones_in_range 64 0 x). unfold in_width. lia.
Qed.

Lemma crc_bit_range c : in_width 32 c -> in_width 32 (crc_bit c).
Proof.
  intros Hc. unfold crc_bit. apply in_width_lxor; [lia|apply in_width_shiftr; [lia|lia|done]|].
  apply in_width_land; [lia|unfold in_width; lia|]. apply (wrap_range 32). lia.
Qed.
Lemma crc_bits_range k c : in_width 32 c -> in_width 32 (crc_bits k c).
Proof. revert c. induction k; intros c Hc; cbn [crc_bits]; [done|]. by apply IHk, crc_bit_range. Qed.
Lemma crc_byte_range c : in_width 32 c -> in_width 32 (crc_byte c).
Proof. exact (crc_bits_range 8 c). Qed.
Lemma crc_mix_range c x : in_width 32 c -> 0 <= x -> in_width 32 (Z.lxor c (Z.land x 255)).
Proof.
  intros Hc Hx. apply in_width_lxor; [lia|done|]. rewrite Z.land_comm.
  apply in_width_land; [lia|unfold in_width; lia|done].
Qed.
Lemma crc32c_range c s bytes : in_width 32 c -> in_width 64 s -> in_width 32 (crc32c c s bytes).
Proof.
  intros Hc Hs. unfold crc32c. apply foldl_inv; [|done]. intros a i Ha.
  apply crc_byte_range, crc_mix_range; [done|]. apply Z.shiftr_nonneg, Hs.
Qed.

Lemma bmi_range a b size op : valid_elem size -> in_width 64 (bmi_result a b size op).1.
Proof. intros Hs. destruct op; cbn [bmi_result fst]; by apply land_mask_range. Qed.

Lemma trailing_zeros_range x : in_width 64 x -> 0 <= trailing_zeros 64 x <= 64.
Proof.
  intros [Hx0 Hx]. destruct x as [|p|p]; simpl; [lia| |lia].
  assert (Hp : forall k : nat, forall p, Z.pos p < 2 ^ Z.of_nat k -> 0 <= pos_trailing_zeros p <= Z.of_nat k).
  { intros k. induction k as [|k IH]; intros [q|q|] Hq; simpl pos_trailing_zeros; try lia.
    rewrite Nat2Z.inj_succ, Z.pow_succ_r in Hq by lia. specialize (IH q). lia. }
  by apply (Hp 64%nat).
Qed.

Lemma leading_zeros_range x : in_width 64 x -> 0 < x -> 0 <= leading_zeros 64 x <= 63.
Proof.
  intros [_ Hx] Hp. unfold leading_zeros. destruct (Z.eqb_spec x 0); [lia|].
  pose proof (Z.log2_nonneg x). pose proof (proj1 (Z.log2_lt_pow2 x 64 Hp) Hx). lia.
Qed.

Lemma bit_scan_range op v old size f : valid_elem size -> in_width 64 v -> flags_wf f ->
  in_width 64 (bit_scan_result op (Z.land v (mask size)) old size f).1 /\
  flags_wf (bit_scan_result op (Z.land v (mask size)) old size f).2.
Proof.
  intros Hs Hv Hf. pose proof (size_bits size Hs). rewrite land_mask by done.
  set (s := wrap (8 * size) v). assert (Hsw : in_width (8 * size) s) by (apply wrap_range; lia).
  assert (Hs64 : in_width 64 s) by (apply (in_width_mono (8 * size)); [lia|done]).
  pose proof (trailing_zeros_range s Hs64) as Ht. unfold bit_scan_result.
  destruct op; destruct (Z.eqb_spec s 0) as [E|E]; cbn [fst snd]; split; auto with safe;
    try (by apply land_mask_range); try (unfold in_width; lia).
  - pose proof (leading_zeros_range s Hs64 ltac:(destruct Hsw; lia)). unfold in_width. lia.
  - rewrite E. cbn. unfold in_width. lia.
  - assert (0 < s) by (destruct Hsw; lia). pose proof (leading_zeros_range s Hs64 H0).
    assert (Hl : Z.log2 s < 8 * size) by (apply Z.log2_lt_pow2; [done|apply Hsw]).
    unfold leading_zeros in *. destruct (Z.eqb_spec s 0); [lia|]. unfold in_width. lia.
Qed.

(** *** Safety of the integer arms *)

Lemma alu_add_range x y c size : valid_elem size -> in_width 64 (r_res (alu_add x y c size)).
Proof. apply land_mask_range. Qed.
Lemma alu_sub_range x y c size : valid_elem size -> in_width 64 (r_res (alu_sub x y c size)).
Proof. apply land_mask_range. Qed.
Lemma alu_logic_range x size : valid_elem size -> in_width 64 (r_res (alu_logic x size)).
Proof. apply land_mask_range. Qed.
Lemma rotl_range v cnt size : in_width 64 (rotl v cnt size).
Proof. apply rot_range. Qed.
Lemma rotr_range v cnt size : in_width 64 (rotr v cnt size).
Proof. apply rot_range. Qed.
Lemma wrapping_shr_range v cnt : in_width 64 v -> in_width 64 (wrapping_shr 64 v cnt).
Proof. intros. apply in_width_shiftr; [lia|apply Z.mod_pos_bound; lia|done]. Qed.
Lemma popcnt_range v size : valid_elem size -> in_width 64 (count_ones (Z.land v (mask size))).
Proof. intros. by apply count_ones_range, land_mask_range. Qed.
Lemma crc_value_range c s bytes : in_width 64 s -> in_width 64 (crc32c (wrap 32 c) s bytes).
Proof. intros. apply (in_width_mono 32); [lia|]. apply crc32c_range; auto with width. Qed.
Lemma bswap_range v size : in_width 64 v ->
  in_width 64 (if size =? 8 then swap_bytes 8 v
               else if size =? 2 then swap_bytes 2 (wrap 16 v) else swap_bytes 4 (wrap 32 v)).
Proof.
  intros. destruct (_ =? 8); [apply (swap_bytes_range 8)|].
  destruct (_ =? 2); (eapply in_width_mono; [|apply swap_bytes_range]; lia).
Qed.
Lemma ok_width_Ok r v : ok_width r -> r = Ok v -> in_width 64 v.
Proof. intros H. apply H. Qed.
Lemma pending_range c v : cpu_wf c -> pending_mmio c = Some v -> in_width 64 v.
Proof. intros H. apply H. Qed.
#[export] Hint Resolve alu_add_range alu_sub_range alu_logic_range rotl_range rotr_range wrapping_shr_range
  popcnt_range crc_value_range bswap_range : safe.
#[export] Hint Extern 2 (in_width 64 _) => eapply ok_width_Ok; eassumption : safe.

#[export] Hint Resolve safe_get_cpu safe_read_val safe_set_temp safe_apply safe_upd_flags safe_upd_cpu
  safe_read safe_write safe_rmw safe_cas safe_trap_out safe_next safe_leave safe_ret
  land_mask_range read_reg_range sign_extend_range rcl_range rcr_range : safe.
#[export] Hint Extern 1 (in_width _ _) => solve [auto with width] : safe.
#[export] Hint Extern 1 (any _) => exact I : safe.

(** Walk down an arm, discharging each primitive with the [safe] database. *)
Ltac arm :=
  cbn beta zeta;
  lazymatch goal with
  | |- safe _ (mbind _ (mbind _ _)) _ => eapply safe_bind; [arm|intros ? ?; arm]
  | |- safe _ (mbind _ (if _ then _ else _)) _ => eapply safe_bind; [arm|intros ? ?; arm]
  | |- safe _ (mbind _ (match _ with _ => _ end)) _ => eapply safe_bind; [arm|intros ? ?; arm]
  | |- safe _ (mbind _ _) _ => eapply safe_bind; [solve [eauto with safe]|intros ? ?; arm]
  | |- safe _ (if ?c then _ else _) _ => destruct c eqn:?; arm
  | |- safe _ (match ?x with _ => _ end) _ => destruct x eqn:?; arm
  | |- safe _ (let '(_, _) := ?x in _) _ => destruct x eqn:?; arm
  | |- safe _ _ _ => eauto with safe
  | |- _ => idtac
  end.

Section IntegerSafe.
Context (n : nat).

Lemma exec_add_safe dst a b size fm : (dst < n)%nat -> val_ok n a -> val_ok n b -> valid_elem size ->
  safe n (exec_add dst a b size fm) any.
Proof. intros. unfold exec_add. arm. Qed.
Lemma exec_adc_safe dst a b size fm : (dst < n)%nat -> val_ok n a -> val_ok n b -> valid_elem size ->
  safe n (exec_adc dst a b size fm) any.
Proof. intros. unfold exec_adc. arm. Qed.
Lemma exec_sub_safe dst a b size fm : (dst < n)%nat -> val_ok n a -> val_ok n b -> valid_elem size ->
  safe n (exec_sub dst a b size fm) any.
Proof. intros. unfold exec_sub. arm. Qed.
Lemma exec_sbb_safe dst a b size fm : (dst < n)%nat -> val_ok n a -> val_ok n b -> valid_elem size ->
  safe n (exec_sbb dst a b size fm) any.
Proof. intros. unfold exec_sbb. arm. Qed.
Lemma exec_and_safe dst a b size fm : (dst < n)%nat -> val_ok n a -> val_ok n b -> valid_elem size ->
  safe n (exec_and dst a b size fm) any.
Proof. intros. unfold exec_and. arm. Qed.
Lemma exec_or_safe dst a b size fm : (dst < n)%nat -> val_ok n a -> val_ok n b -> valid_elem size ->
  safe n (exec_or dst a b size fm) any.
Proof. intros. unfold exec_or. arm. Qed.
Lemma exec_xor_safe dst a b size fm : (dst < n)%nat -> val_ok n a -> val_ok n b -> valid_elem size ->
  safe n (exec_xor dst a b size fm) any.
Proof. intros. unfold exec_xor. arm. Qed.
Lemma exec_shl_safe dst a b size fm : (dst < n)%nat -> val_ok n a -> val_ok n b -> valid_elem size ->
  safe n (exec_shl dst a b size fm) any.
Proof. intros. unfold exec_shl. arm. Qed.
Lemma exec_shr_safe dst a b size fm : (dst < n)%nat -> val_ok n a -> val_ok n b -> valid_elem size ->
  safe n (exec_shr dst a b size fm) any.
Proof. intros. unfold exec_shr. arm. Qed.
Lemma exec_sar_safe dst a b size fm : (dst < n)%nat -> val_ok n a -> val_ok n b -> valid_elem size ->
  safe n (exec_sar dst a b size fm) any.
Proof. intros. unfold exec_sar. arm. Qed.
Lemma exec_rol_safe dst a b size fm : (dst < n)%nat -> val_ok n a -> val_ok n b -> valid_elem size ->
  safe n (exec_rol dst a b size fm) any.
Proof. intros. unfold exec_rol. arm. Qed.
Lemma exec_ror_safe dst a b size fm : (dst < n)%nat -> val_ok n a -> val_ok n b -> valid_elem size ->
  safe n (exec_ror dst a b size fm) any.
Proof. intros. unfold exec_ror. arm. Qed.
Lemma exec_rcl_safe dst a b size fm : (dst < n)%nat -> val_ok n a -> val_ok n b -> valid_elem size ->
  safe n (exec_rcl dst a b size fm) any.
Proof.
  intros. unfold exec_rcl. do 3 (eapply safe_bind; [eauto with safe|intros ? ?; cbn zeta]).
  match goal with |- context [rcl ?k ?v ?c ?sz] =>
    assert (Hr : in_width 64 (rcl k v c sz).1) by eauto with safe; destruct (rcl k v c sz) as [res co] end.
  cbn [fst] in Hr. arm.
Qed.
Lemma exec_rcr_safe dst a b size fm : (dst < n)%nat -> val_ok n a -> val_ok n b -> valid_elem size ->
  safe n (exec_rcr dst a b size fm) any.
Proof.
  intros. unfold exec_rcr. do 3 (eapply safe_bind; [eauto with safe|intros ? ?; cbn zeta]).
  match goal with |- context [rcr ?k ?v ?c ?sz] =>
    assert (Hr : in_width 64 (rcr k v c sz).1) by eauto with safe; destruct (rcr k v c sz) as [res co] end.
  cbn [fst] in Hr. arm.
Qed.

Lemma exec_read_reg_safe dst r : (dst < n)%nat -> safe n (exec_read_reg dst r) any.
Proof. intros. unfold exec_read_reg. arm. Qed.
Lemma exec_write_reg_safe r src size : val_ok n src -> valid_elem size -> safe n (exec_write_reg r src size) any.
Proof.
  intros. unfold exec_write_reg. eapply safe_bind; [eauto with safe|]. intros v Hv.
  eapply safe_bind; [|intros; apply safe_next]. apply safe_try_cpu. intros c Hc. by apply write_reg_ok.
Qed.
Lemma exec_double_shift_safe dst a b cnt size l fm : (dst < n)%nat -> val_ok n a -> val_ok n b ->
  val_ok n cnt -> valid_elem size -> safe n (exec_double_shift dst a b cnt size l fm) any.
Proof. intros. unfold exec_double_shift. destruct l; arm. Qed.
Lemma exec_sext_safe dst a from : (dst < n)%nat -> val_ok n a -> 1 <= from -> safe n (exec_sext dst a from) any.
Proof. intros. unfold exec_sext. rewrite (proj2 (Z.leb_gt from 0)) by lia. arm. Qed.
Lemma exec_bswap_safe dst a size : (dst < n)%nat -> val_ok n a -> safe n (exec_bswap dst a size) any.
Proof. intros. unfold exec_bswap. arm. Qed.
Lemma exec_mul_safe lo hi a b size sg fm : (lo < n)%nat -> (hi < n)%nat -> val_ok n a -> val_ok n b ->
  valid_elem size -> safe n (exec_mul lo hi a b size sg fm) any.
Proof.
  intros. unfold exec_mul. eapply safe_bind; [eauto with safe|]. intros av Hav.
  eapply safe_bind; [eauto with safe|]. intros bv Hbv.
  pose proof (mul_wide_range (Z.land av (mask size)) (Z.land bv (mask size)) size sg ltac:(done)) as [Hl Hh].
  destruct (mul_wide _ _ _ _) as [[lo_v hi_v] ovf]. cbn [fst snd] in Hl, Hh. arm.
Qed.
Lemma exec_div_safe ca q r hi lo d size sg : in_width 64 ca -> (q < n)%nat -> (r < n)%nat -> val_ok n hi ->
  val_ok n lo -> val_ok n d -> valid_elem size -> safe n (exec_div ca q r hi lo d size sg) any.
Proof.
  intros. unfold exec_div. do 3 (eapply safe_bind; [eauto with safe|intros ? ?]).
  destruct (divide _ _ _ _ _) as [[qv rv]|] eqn:E; [apply divide_range in E as [? ?]; [|done]|]; arm.
Qed.
Lemma exec_get_cond_safe dst c : (dst < n)%nat -> safe n (exec_get_cond dst c) any.
Proof. intros. unfold exec_get_cond. arm. Qed.
Lemma exec_load_safe ca dst a size : in_width 64 ca -> (dst < n)%nat -> val_ok n a -> valid_elem size ->
  safe n (exec_load ca dst a size) any.
Proof. intros. unfold exec_load. arm. Qed.
Lemma exec_store_safe ca a v size : in_width 64 ca -> val_ok n a -> val_ok n v -> valid_elem size ->
  safe n (exec_store ca a v size) any.
Proof. intros. unfold exec_store. arm. Qed.
Lemma exec_atomic_rmw_safe ca old a v size op : in_width 64 ca -> (old < n)%nat -> val_ok n a -> val_ok n v ->
  valid_elem size -> safe n (exec_atomic_rmw ca old a v size op) any.
Proof. intros. unfold exec_atomic_rmw. arm. Qed.
Lemma exec_atomic_cas_safe ca old a e v size : in_width 64 ca -> (old < n)%nat -> val_ok n a -> val_ok n e ->
  val_ok n v -> valid_elem size -> safe n (exec_atomic_cas ca old a e v size) any.
Proof. intros. unfold exec_atomic_cas. arm. Qed.
Lemma exec_bt_safe r a b size op : (r < n)%nat -> val_ok n a -> val_ok n b -> valid_elem size ->
  safe n (exec_bt r a b size op) any.
Proof. intros. unfold exec_bt. arm. Qed.
Lemma exec_popcnt_safe dst a size : (dst < n)%nat -> val_ok n a -> valid_elem size ->
  safe n (exec_popcnt dst a size) any.
Proof. intros. unfold exec_popcnt. arm. Qed.
Lemma exec_crc32_safe dst c a bytes : (dst < n)%nat -> val_ok n c -> val_ok n a -> bytes <= 8 ->
  safe n (exec_crc32 dst c a bytes) any.
Proof. intros. unfold exec_crc32. rewrite (proj2 (Z.ltb_ge 8 bytes)) by lia. arm. Qed.
Lemma exec_bmi_safe dst a b size op : (dst < n)%nat -> val_ok n a -> val_ok n b -> valid_elem size ->
  safe n (exec_bmi dst a b size op) any.
Proof.
  intros. unfold exec_bmi. do 2 (eapply safe_bind; [eauto with safe|intros ? ?]).
  match goal with |- context [bmi_result ?x ?y _ _] => pose proof (bmi_range x y size op ltac:(done)) as Hr;
    destruct (bmi_result x y size op) as [r c] end. cbn [fst] in Hr. arm.
Qed.
Lemma exec_bit_scan_safe dst src old size op : (dst < n)%nat -> val_ok n src -> val_ok n old -> valid_elem size ->
  safe n (exec_bit_scan dst src old size op) any.
Proof.
  intros. unfold exec_bit_scan. eapply safe_bind; [eauto with safe|]. intros v Hv.
  eapply (safe_bind n _ _ (in_width 64)).
  { destruct op; try (apply safe_ret; unfold in_width; lia);
      (destruct (_ =? 0); [by apply safe_read_val|apply safe_ret; unfold in_width; lia]). }
  intros o Ho. eapply safe_bind; [eauto with safe|]. intros c Hc.
  pose proof (bit_scan_range op v o size (flags c) ltac:(done) Hv (cpu_flags_wf c Hc)) as [Hr Hf].
  cbn zeta. destruct (bit_scan_result _ _ _ _ _) as [r f]. cbn [fst snd] in Hr, Hf. arm.
Qed.
End IntegerSafe.

(** *** cpuid and the decimal adjusts *)

Lemma write_gpr_4_ok c i v : cpu_wf c -> exists c', write_gpr c i v 4 = Some c' /\ cpu_wf c'.
Proof.
  intros Hc. unfold write_gpr. cbn [Z.eqb Pos.eqb]. eexists. split; [done|]. apply gprs_insert_wf; [done|].
  change 0xFFFFFFFF with (Z.ones 32). rewrite Z.land_ones by lia.
  apply (in_width_mono 32); [lia|]. apply (wrap_range 32). lia.
Qed.

Lemma cpuid_run_ok c : cpu_wf c -> exists c', cpuid_run c = Some c' /\ cpu_wf c'.
Proof.
  intros Hc. unfold cpuid_run. destruct (cpuid_regs _ _) as [[[eax ebx] ecx] edx].
  destruct (write_gpr_4_ok c RAX eax Hc) as (c1 & -> & H1). cbn [mbind option_bind].
  destruct (write_gpr_4_ok c1 RBX ebx H1) as (c2 & -> & H2). cbn [mbind option_bind].
  destruct (write_gpr_4_ok c2 RCX ecx H2) as (c3 & -> & H3). cbn [mbind option_bind].
  by apply write_gpr_4_ok.
Qed.

Lemma xgetbv_run_ok c : cpu_wf c -> exists c', xgetbv_run c = Some c' /\ cpu_wf c'.
Proof.
  intros Hc. unfold xgetbv_run. destruct (write_gpr_4_ok c RAX (xcr0 (features c)) Hc) as (c1 & -> & H1).
  cbn [mbind option_bind]. by apply write_gpr_4_ok.
Qed.

Lemma land_ff_range x : in_width 8 (Z.land x 0xFF).
Proof. change 0xFF with (Z.ones 8). rewrite Z.land_ones by lia. apply (wrap_range 8). lia. Qed.

Lemma bcd_adjust_range sub al f : in_width 8 al -> flags_wf f ->
  in_width 8 (bcd_adjust sub al f).1 /\ flags_wf (bcd_adjust sub al f).2.
Proof.
  intros Hal Hf. unfold bcd_adjust. destruct (_ || af _); destruct (_ || cf f); cbn [fst snd];
    (split; [|auto 20 with safe]); destruct sub; unfold wrapping_add, wrapping_sub; auto with width.
Qed.

Lemma ascii_adjust_range sub ax f : in_width 16 ax -> flags_wf f ->
  in_width 16 (ascii_adjust sub ax f).1 /\ flags_wf (ascii_adjust sub ax f).2.
Proof.
  intros Hax Hf. unfold ascii_adjust. destruct (_ || af _); cbn [fst snd]; (split; [|auto 20 with safe]);
    (apply in_width_land; [lia| |lia]); destruct sub; unfold wrapping_add, wrapping_sub; auto with width.
Qed.

(** The low byte or word of a register replaced. *)
Lemma replace_low_range rax m v w : in_width 64 rax -> 0 <= w <= 64 -> in_width w v ->
  in_width 64 (Z.lor (Z.land rax (unot 64 m)) v).
Proof.
  intros Hr Hw Hv. apply in_width_lor; [lia| |by apply (in_width_mono w)].
  apply in_width_land; [lia|done|]. apply (wrap_range 64). lia.
Qed.

Section BcdSafe.
Context (n : nat).

Lemma exec_cpuid_safe : safe n exec_cpuid any.
Proof. unfold exec_cpuid. eapply safe_bind; [apply safe_try_cpu, cpuid_run_ok|intros; apply safe_next]. Qed.
Lemma exec_xgetbv_safe : safe n exec_xgetbv any.
Proof. unfold exec_xgetbv. eapply safe_bind; [apply safe_try_cpu, xgetbv_run_ok|intros; apply safe_next]. Qed.

Lemma exec_bcd_safe ca kind : in_width 64 ca ->
  match kind with Aam b | Aad b => in_width 8 b | _ => True end ->
  safe n (exec_bcd ca kind) any.
Proof.
  intros Hca Hb. unfold exec_bcd. eapply safe_bind; [apply safe_get_cpu|]. intros c Hc. cbn zeta.
  pose proof (get_gpr_range c RAX Hc) as Hrax. pose proof (land_ff_range (get_gpr c RAX)) as Hal.
  assert (Hax : in_width 16 (Z.land (get_gpr c RAX) 0xFFFF))
    by (change 0xFFFF with (Z.ones 16); rewrite Z.land_ones by lia; apply (wrap_range 16); lia).
  assert (Hadj : forall sub, safe n (let '(new_al, f) := bcd_adjust sub (Z.land (get_gpr c RAX) 0xFF) (flags c) in
    upd_cpu (fun c' => set_flags (put_gpr c' RAX (Z.lor (Z.land (get_gpr c RAX) (unot 64 0xFF)) new_al)) f);; next) any).
  { intros sub. destruct (bcd_adjust_range sub _ _ Hal (cpu_flags_wf c Hc)) as [H1 H2].
    destruct (bcd_adjust _ _ _) as [na f]. cbn [fst snd] in *. pose proof (replace_low_range _ 0xFF na 8 Hrax ltac:(lia) H1). arm. }
  assert (Hasc : forall sub, safe n (let '(ax, f) := ascii_adjust sub (Z.land (get_gpr c RAX) 0xFFFF) (flags c) in
    upd_cpu (fun c' => set_flags (put_gpr c' RAX (Z.lor (Z.land (get_gpr c RAX) (unot 64 0xFFFF)) ax)) f);; next) any).
  { intros sub. destruct (ascii_adjust_range sub _ _ Hax (cpu_flags_wf c Hc)) as [H1 H2].
    destruct (ascii_adjust _ _ _) as [na f]. cbn [fst snd] in *. pose proof (replace_low_range _ 0xFFFF na 16 Hrax ltac:(lia) H1). arm. }
  destruct kind as [| | | |base|base]; try apply Hadj; try apply Hasc.
  - destruct (Z.eqb_spec base 0); [arm|]. destruct Hal as [Hal0 Hal1]. destruct Hb as [Hb0 Hb1].
    assert (0 <= Z.land (get_gpr c RAX) 0xFF / base < 256) by (split; [apply Z.div_pos; lia|apply Z.div_lt_upper_bound; nia]).
    assert (Hm : in_width 8 (Z.land (get_gpr c RAX) 0xFF mod base))
      by (pose proof (Z.mod_pos_bound (Z.land (get_gpr c RAX) 0xFF) base ltac:(lia)); unfold in_width; lia).
    assert (in_width 64 (Z.lor (Z.lor (Z.land (get_gpr c RAX) (unot 64 0xFFFF)) (Z.shiftl (Z.land (get_gpr c RAX) 0xFF / base) 8))
      (Z.land (get_gpr c RAX) 0xFF mod base))).
    { apply in_width_lor; [lia| |by apply (in_width_mono 8)]. apply (replace_low_range _ _ _ 16); [done|lia|].
      rewrite Z.shiftl_mul_pow2 by lia. unfold in_width. lia. }
    unfold bcd_result_flags. eapply safe_bind; [|intros; apply safe_next]. apply safe_upd_cpu. intros c' Hc'. auto 10 with safe.
  - assert (in_width 64 (Z.lor (Z.land (get_gpr c RAX) (unot 64 0xFFFF))
      (wrapping_add 8 (Z.land (get_gpr c RAX) 0xFF) (wrapping_mul 8 (Z.land (Z.shiftr (get_gpr c RAX) 8) 0xFF) base)))).
    { apply (replace_low_range _ _ _ 8); [done|lia|]. apply (wrap_range 8). lia. }
    unfold bcd_result_flags. eapply safe_bind; [|intros; apply safe_next]. apply safe_upd_cpu. intros c' Hc'. auto 10 with safe.
Qed.
End BcdSafe.
