(* ===== verification/IntegerSpec.v ===== *)
(** * What the integer arms compute (x86jit-core/src/interp/integer.rs)

    The functional behaviour of the [exec_*] arms of Interp.v against the integers:
    shifts and double shifts with their carry, widening products, bit scans, the
    decimal adjusts, and the trap/resume protocol of loads and stores. *)

From S2P Require Import Prelude Features State Ir Alu Memory PageTrack Interp.

(** ** Running an arm *)

Definition val_of (s : mach) (v : Val) : option Z :=
  match v with TempV t => m_temps s !! t | Imm i => Some i end.

Lemma read_val_run s v x : val_of s v = Some x -> read_val v s = Some (x, s).
Proof. destruct v; simpl; [by intros ->|by intros [= ->]]. Qed.

(** The state after [temps[t] = v]. *)
Definition with_temp (s : mach) (t : Temp) (v : Z) : mach :=
  mkMach (m_cpu s) (m_mem s) (<[t := v]> (m_temps s)).
Definition with_flags (s : mach) (f : Flags) : mach :=
  mkMach (set_flags (m_cpu s) f) (m_mem s) (m_temps s).

Lemma set_temp_run s t v : (t < length (m_temps s))%nat -> set_temp t v s = Some (tt, with_temp s t v).
Proof. intros Ht. unfold set_temp. by destruct (lookup_lt_is_Some_2 (m_temps s) t Ht) as [x ->]. Qed.

Lemma bind_run {A B} (c : M A) (f : A -> M B) s a s' : c s = Some (a, s') -> (c ≫= f) s = f a s'.
Proof. intros E. unfold mbind, M_bind. by rewrite E. Qed.

(** The result [res] in [dst], and [r]'s flags committed when [upd] says so. *)
Definition commit (s : mach) (dst : Temp) (res : Z) (upd : bool) (fm : FlagMask) (r : AluResult) : mach :=
  let s := with_temp s dst res in
  if upd then with_flags s (apply_flags (flags (m_cpu s)) fm r) else s.

(** ** Shifts *)

Inductive ShiftKind : Type := KShl | KShr | KSar.

(** The [n]-bit shift of [v] by [k] and the last bit shifted out. *)
Definition shift_spec (n : Z) (kd : ShiftKind) (v k : Z) : Z * bool :=
  match kd with
  | KShl => (wrap n (v * 2 ^ k), Z.testbit (v * 2 ^ k) n)
  | KShr => (v / 2 ^ k, Z.testbit v (k - 1))
  | KSar => (wrap n (to_signed n v / 2 ^ k), Z.testbit (to_signed n v) (k - 1))
  end.

(** OF by the count-one rule: sign change, original sign, clear. *)
Definition shift_of (n : Z) (kd : ShiftKind) (v res : Z) (cf : bool) : bool :=
  match kd with
  | KShl => xorb (Z.testbit res (n - 1)) cf
  | KShr => Z.testbit v (n - 1)
  | KSar => false
  end.

Definition exec_shift (kd : ShiftKind) : Temp -> Val -> Val -> Z -> FlagMask -> Arm :=
  match kd with KShl => exec_shl | KShr => exec_shr | KSar => exec_sar end.

Definition count_bits (size : Z) : Z := if size =? 8 then 6 else 5.

Lemma shift_count y size : Z.land y (shift_mask size) = y mod 2 ^ count_bits size.
Proof.
  unfold shift_mask, count_bits. destruct (size =? 8).
  - change 63 with (Z.ones 6). apply Z.land_ones. lia.
  - change 31 with (Z.ones 5). apply Z.land_ones. lia.
Qed.

Lemma shift_count_range y size : 0 <= y mod 2 ^ count_bits size < 64.
Proof.
  unfold count_bits. destruct (size =? 8); [change (2 ^ 6) with 64|change (2 ^ 5) with 32]; Z.div_mod_to_equations; lia.
Qed.

Lemma wrap_wrapping_shl n v k : 0 <= n <= 64 -> 0 <= k < 64 ->
  wrap n (wrapping_shl 64 v k) = wrap n (v * 2 ^ k).
Proof.
  intros Hn Hk. unfold wrapping_shl. rewrite Z.mod_small, wrap_wrap_le, Z.shiftl_mul_pow2 by lia. done.
Qed.

Lemma shifted_out v k n : 0 <= k -> 0 <= n -> 0 <= v ->
  ((k <=? n) && Z.testbit v (n - k)) = Z.testbit (v * 2 ^ k) n.
Proof.
  intros Hk Hn Hv. rewrite <- Z.shiftl_mul_pow2, Z.shiftl_spec by lia.
  destruct (Z.leb_spec k n); [done|]. by rewrite Z.testbit_neg_r by lia.
Qed.

Lemma sar_value n v k size : valid_elem size -> n = bits_of size -> in_width n v -> 0 <= k < 64 ->
  wrap n (wrap 64 (Z.shiftr (to_signed 64 (sign_extend v size)) k)) = wrap n (to_signed n v / 2 ^ k).
Proof.
  intros Hs -> Hv Hk. pose proof (size_bits size Hs). rewrite wrap_wrap_le by lia.
  rewrite sign_extend_spec by (done || by apply (in_width_mono (bits_of size)); [lia|]).
  rewrite to_signed_wrap by lia.
  pose proof (to_signed_range (bits_of size) v ltac:(lia)).
  assert (2 ^ (bits_of size - 1) <= 2 ^ (64 - 1)) by (apply Z.pow_le_mono_r; lia).
  rewrite to_signed_id by lia. by rewrite Z.shiftr_div_pow2 by lia.
Qed.

Lemma sar_carry n v k size : valid_elem size -> n = bits_of size -> in_width n v -> 1 <= k <= 63 ->
  Z.testbit (sign_extend v size) (k - 1) = Z.testbit (to_signed n v) (k - 1).
Proof.
  intros Hs -> Hv Hk. pose proof (size_bits size Hs).
  rewrite sign_extend_spec by (done || by apply (in_width_mono (bits_of size)); [lia|]).
  rewrite wrap_testbit by lia. destruct (Z.ltb_spec (k - 1) 64); [done|lia].
Qed.

Lemma exec_shift_run kd s dst a b size fm x y : valid_elem size -> (dst < length (m_temps s))%nat ->
  val_of s a = Some x -> val_of s b = Some y ->
  let n := bits_of size in
  let v := wrap n x in
  let k := y mod 2 ^ count_bits size in
  let '(res, cf) := shift_spec n kd v k in
  exec_shift kd dst a b size fm s =
    Some (None, commit s dst res (negb (fm_is_none fm) && negb (k =? 0)) fm
                  (shift_result res size cf (shift_of n kd v res cf))).
Proof.
  intros Hs Hd Ha Hb n v k. pose proof (size_bits size Hs) as Hn. fold n in Hn.
  pose proof (shift_count_range y size) as Hk. fold k in Hk.
  assert (Hv : in_width n v) by (apply wrap_range; lia). pose proof (proj1 Hv).
  replace (size * 8) with n in * by lia.
  destruct kd; cbn [shift_spec shift_of exec_shift]; unfold exec_shl, exec_shr, exec_sar;
    rewrite (bind_run _ _ _ _ _ (read_val_run s a x Ha)); cbn zeta;
    rewrite (bind_run _ _ _ _ _ (read_val_run s b y Hb)); cbn zeta;
    rewrite shift_count, !land_mask by done; fold n v k; replace (size * 8) with n by lia.
  - rewrite wrap_wrapping_shl by lia.
    rewrite (bind_run _ _ _ _ _ (set_temp_run s dst _ Hd)). unfold commit.
    destruct (_ && negb (k =? 0)) eqn:E; [|done].
    unfold apply, upd_flags, upd_cpu, next, mret, M_ret, mbind, M_bind. cbn [m_cpu with_temp].
    do 5 f_equal. rewrite test_sign_bit by done. fold n.
    destruct (Z.leb_spec k n).
    + rewrite test_shifted by lia. rewrite <- (shifted_out v k n) by lia. destruct (Z.leb_spec k n); [done|lia].
    + rewrite <- (shifted_out v k n) by lia. destruct (Z.leb_spec k n); [lia|done].
  - unfold wrapping_shr. rewrite (Z.mod_small k) by lia. rewrite Z.shiftr_div_pow2 by lia.
    rewrite (bind_run _ _ _ _ _ (set_temp_run s dst _ Hd)). unfold commit.
    destruct (_ && negb (k =? 0)) eqn:E; [|done].
    apply andb_true_iff in E as [_ E]. apply negb_true_iff, Z.eqb_neq in E.
    unfold apply, upd_flags, upd_cpu, next, mret, M_ret, mbind, M_bind. cbn [m_cpu with_temp].
    rewrite test_sign_bit by done. rewrite test_shifted by lia. done.
  - rewrite (sar_value n v k size) by (done || lia).
    rewrite (bind_run _ _ _ _ _ (set_temp_run s dst _ Hd)). unfold commit.
    destruct (_ && negb (k =? 0)) eqn:E; [|done].
    apply andb_true_iff in E as [_ E]. apply negb_true_iff, Z.eqb_neq in E.
    unfold apply, upd_flags, upd_cpu, next, mret, M_ret, mbind, M_bind. cbn [m_cpu with_temp].
    rewrite test_shifted by lia. rewrite (sar_carry n v k size) by (done || lia). done.
Qed.

(** ** Double shifts *)

(** [shld]/[shrd] of [v] filled from [w], for [0 < k <= n], as the SDM defines them. *)
Definition double_spec (n : Z) (left_ : bool) (v w k : Z) : Z * bool :=
  if left_ then (wrap n ((v * 2 ^ n + w) / 2 ^ (n - k)), Z.testbit v (n - k))
  else (wrap n ((w * 2 ^ n + v) / 2 ^ k), Z.testbit v (k - 1)).

Lemma double_left n v w k : 0 < n <= 64 -> in_width n v -> in_width n w -> 0 < k < n ->
  wrap n (Z.lor (wrapping_shl 64 v k) (Z.shiftr w (n - k))) = wrap n ((v * 2 ^ n + w) / 2 ^ (n - k)).
Proof.
  intros Hn Hv Hw Hk. rewrite <- (lor_shifted n v w) by (done || lia). rewrite <- Z.shiftr_div_pow2 by lia.
  unfold wrapping_shl. rewrite Z.mod_small by lia. apply Z.bits_inj'. intros i Hi.
  rewrite !wrap_testbit by lia. destruct (Z.ltb_spec i n); [|done]. cbn [andb].
  rewrite Z.shiftr_spec, !Z.lor_spec, wrap_testbit, !Z.shiftl_spec by lia.
  destruct (Z.ltb_spec i 64); [|lia]. cbn [andb]. f_equal; [f_equal; lia|]. by rewrite Z.shiftr_spec by lia.
Qed.

Lemma double_right n v w k : 0 < n <= 64 -> in_width n v -> in_width n w -> 0 < k < n ->
  wrap n (Z.lor (Z.shiftr v k) (wrapping_shl 64 w (n - k))) = wrap n ((w * 2 ^ n + v) / 2 ^ k).
Proof.
  intros Hn Hv Hw Hk. rewrite <- (lor_shifted n w v) by (done || lia). rewrite <- Z.shiftr_div_pow2 by lia.
  unfold wrapping_shl. rewrite Z.mod_small by lia. apply Z.bits_inj'. intros i Hi.
  rewrite !wrap_testbit by lia. destruct (Z.ltb_spec i n); [|done]. cbn [andb].
  rewrite Z.shiftr_spec, !Z.lor_spec, wrap_testbit, !Z.shiftl_spec, Z.shiftr_spec by lia.
  destruct (Z.ltb_spec i 64); [|lia]. cbn [andb]. rewrite orb_comm. f_equal. f_equal. lia.
Qed.

Lemma exec_double_shift_pos s dst a b count size left_ fm x y c : valid_elem size ->
  (dst < length (m_temps s))%nat -> val_of s a = Some x -> val_of s b = Some y -> val_of s count = Some c ->
  let n := bits_of size in
  let v := wrap n x in let w := wrap n y in
  let k := c mod 2 ^ count_bits size in
  0 < k < n ->
  let '(res, cf) := double_spec n left_ v w k in
  exec_double_shift dst a b count size left_ fm s =
    Some (None, commit s dst res (negb (fm_is_none fm)) fm
                  (shift_result res size cf (xorb (Z.testbit res (n - 1)) (Z.testbit v (n - 1))))).
Proof.
  intros Hs Hd Ha Hb Hc n v w k Hk. pose proof (size_bits size Hs) as Hn. fold n in Hn.
  assert (Hv : in_width n v) by (apply wrap_range; lia). assert (Hw : in_width n w) by (apply wrap_range; lia).
  unfold exec_double_shift, double_spec. cbn zeta.
  rewrite (bind_run _ _ _ _ _ (read_val_run s a x Ha)), (bind_run _ _ _ _ _ (read_val_run s b y Hb)),
    (bind_run _ _ _ _ _ (read_val_run s count c Hc)), shift_count. fold k.
  replace (size * 8) with n by lia. destruct (Z.eqb_spec k 0); [lia|].
  rewrite !land_mask by done. fold n v w. destruct (Z.ltb_spec k n); [|lia]. destruct (Z.leb_spec k n); [|lia].
  destruct left_; cbn [andb].
  - rewrite double_left by (done || lia). rewrite (bind_run _ _ _ _ _ (set_temp_run s dst _ Hd)).
    unfold commit. destruct (fm_is_none fm); [done|]. rewrite test_shifted, !test_sign_bit by (done || lia). done.
  - rewrite double_right by (done || lia). rewrite (bind_run _ _ _ _ _ (set_temp_run s dst _ Hd)).
    unfold commit. destruct (fm_is_none fm); [done|]. rewrite test_shifted, !test_sign_bit by (done || lia). done.
Qed.

(** ** Products *)

Definition mul_spec (n x y : Z) (signed : bool) : Z * Z * bool :=
  let conv v := if signed then to_signed n v else wrap n v in
  let p := conv x * conv y in
  (wrap n p, wrap n (p / 2 ^ n), negb (if signed then fits_signed n p else p <? 2 ^ n)).

Lemma to_signed_small_fits n p : 1 <= n -> (p =? to_signed n p) = fits_signed n p.
Proof.
  intros Hn. unfold fits_signed. pose proof (to_signed_range n p Hn).
  destruct (Z.leb_spec (- 2 ^ (n - 1)) p), (Z.ltb_spec p (2 ^ (n - 1))); cbn [andb];
    destruct (Z.eqb_spec p (to_signed n p)) as [E|E]; try done; try lia.
  destruct E. symmetry. apply to_signed_id; lia.
Qed.

Lemma sext_signed v size : valid_elem size -> in_width (bits_of size) v ->
  to_signed 64 (sign_extend v size) = to_signed (bits_of size) v.
Proof.
  intros Hs Hv. pose proof (size_bits size Hs).
  rewrite sign_extend_spec by (done || by apply (in_width_mono (bits_of size)); [lia|]).
  rewrite to_signed_wrap by lia. pose proof (to_signed_range (bits_of size) v ltac:(lia)).
  assert (2 ^ (bits_of size - 1) <= 2 ^ (64 - 1)) by (apply Z.pow_le_mono_r; lia).
  apply to_signed_id; lia.
Qed.

Lemma mul_wide_exact x y size signed : valid_elem size ->
  mul_wide (wrap (bits_of size) x) (wrap (bits_of size) y) size signed = mul_spec (bits_of size) x y signed.
Proof.
  intros Hs. pose proof (size_bits size Hs) as Hn. set (n := bits_of size) in *.
  assert (Hx : in_width n (wrap n x)) by (apply wrap_range; lia).
  assert (Hy : in_width n (wrap n y)) by (apply wrap_range; lia).
  unfold mul_wide, mul_spec. replace (size * 8) with n by lia. rewrite !land_mask by done. fold n.
  destruct signed.
  - rewrite !sext_signed by done. fold n. rewrite !to_signed_wrap by lia.
    set (p := to_signed n x * to_signed n y). rewrite !wrap_wrap_le, Z.shiftr_div_pow2 by lia.
    f_equal. f_equal. rewrite sext_signed by (done || (apply wrap_range; lia)). fold n.
    rewrite to_signed_wrap by lia. apply to_signed_small_fits. lia.
  - set (p := wrap n x * wrap n y). rewrite !wrap_wrap_le, Z.shiftr_div_pow2 by lia. f_equal. f_equal.
    assert (Hp : 0 <= p < 2 ^ n * 2 ^ n) by (unfold p; destruct Hx, Hy; nia).
    pose proof (pow2_pos n ltac:(lia)). rewrite wrap_small by (split; [apply Z.div_pos; lia|apply Z.div_lt_upper_bound; lia]).
    destruct (Z.ltb_spec p (2 ^ n)).
    + by rewrite Z.div_small by lia.
    + destruct (Z.eqb_spec (p / 2 ^ n) 0) as [E|]; [|done]. apply Z.div_small_iff in E; lia.
Qed.

(** ** Bit scans *)

(** [r] is the lowest (highest) set bit of [s]. *)
Definition lowest_bit (s r : Z) : Prop := Z.testbit s r = true /\ forall j, 0 <= j < r -> Z.testbit s j = false.
Definition highest_bit (s r : Z) : Prop := Z.testbit s r = true /\ forall j, r < j -> Z.testbit s j = false.

Lemma trailing_zeros_spec s : 0 < s -> 0 <= trailing_zeros 64 s /\ lowest_bit s (trailing_zeros 64 s).
Proof.
  intros Hs. destruct s as [|p|p]; try lia. clear Hs. cbn [trailing_zeros]. unfold lowest_bit.
  induction p as [p IH|p IH|]; cbn [pos_trailing_zeros].
  - split; [lia|]. split; [done|]. intros; lia.
  - destruct IH as (H0 & H1 & H2). split; [lia|]. change (Z.pos p~0) with (2 * Z.pos p). split.
    + replace (1 + pos_trailing_zeros p) with (Z.succ (pos_trailing_zeros p)) by lia. by rewrite Z.testbit_even_succ.
    + intros j Hj. destruct (Z.eqb_spec j 0) as [->|]; [apply Z.testbit_even_0|].
      replace j with (Z.succ (j - 1)) by lia. rewrite Z.testbit_even_succ by lia. apply H2. lia.
  - split; [lia|]. split; [done|]. intros; lia.
Qed.

Lemma log2_highest s : 0 < s -> highest_bit s (Z.log2 s).
Proof.
  intros Hs. split; [by apply Z.bit_log2|]. intros j Hj. apply Z.bits_above_log2; lia.
Qed.

(** The contract of the four scans on the masked source [s] of [n] bits. *)
Definition bit_scan_ok (op : BitScanOp) (n s old : Z) (f : Flags) (r : Z) (g : Flags) : Prop :=
  match op with
  | Bsf => if s =? 0 then r = wrap n old /\ g = set_zf f true
           else lowest_bit s r /\ g = set_zf f false
  | Bsr => if s =? 0 then r = wrap n old /\ g = set_zf f true
           else highest_bit s r /\ g = set_zf f false
  | Tzcnt => g = set_zf (set_cf f (s =? 0)) (r =? 0) /\ (if s =? 0 then r = n else lowest_bit s r)
  | Lzcnt => g = set_zf (set_cf f (s =? 0)) (r =? 0) /\ (if s =? 0 then r = n else highest_bit s (n - 1 - r))
  end.

Lemma bit_scan_correct op v old size f : valid_elem size ->
  let s := wrap (bits_of size) v in
  let '(r, g) := bit_scan_result op s old size f in bit_scan_ok op (bits_of size) s old f r g.
Proof.
  intros Hs s. pose proof (size_bits size Hs). assert (Hw : in_width (bits_of size) s) by (apply wrap_range; lia).
  assert (Hpos : s <> 0 -> 0 < s) by (destruct Hw; lia).
  unfold bit_scan_result, bit_scan_ok, leading_zeros. rewrite land_mask by done.
  replace (size * 8) with (bits_of size) by lia.
  destruct op; destruct (Z.eqb_spec s 0) as [E|E]; (split || idtac); try done; try (by rewrite E);
    try (by apply trailing_zeros_spec, Hpos); try lia.
  - replace (63 - (64 - 1 - Z.log2 s)) with (Z.log2 s) by lia. by apply log2_highest, Hpos.
  - replace (bits_of size - 1 - (64 - 1 - Z.log2 s - (64 - bits_of size))) with (Z.log2 s) by lia.
    by apply log2_highest, Hpos.
Qed.

(** ** Decimal adjusts *)

(** Packed decimal: two digits in a byte. *)
Definition bcd (x : Z) : Z := 16 * (x / 10) + x mod 10.

(** The sum (difference) of two packed-decimal bytes with carry (borrow), as the ALU
    leaves it before the adjust. *)
Definition bcd_alu (sub : bool) (a b : Z) (c : bool) : AluResult :=
  (if sub then alu_sub else alu_add) (bcd a) (bcd b) (b2z c) 1.
Definition bcd_value (sub : bool) (a b : Z) (c : bool) : Z :=
  if sub then a - b - b2z c else a + b + b2z c.

(** The adjust adds (subtracts) 6 and 0x60 as its two conditions say. *)
Lemma bcd_adjust_value sub al f : in_width 8 al ->
  let lo := (9 <? al mod 16) || af f in
  let hi := (0x99 <? al) || cf f in
  let d := (if lo then 6 else 0) + (if hi then 0x60 else 0) in
  (bcd_adjust sub al f).1 = wrap 8 (if sub then al - d else al + d) /\
  cf (bcd_adjust sub al f).2 = hi || (lo && (if sub then al <? 6 else 256 <=? al + 6)).
Proof.
  intros Hal lo hi d. unfold bcd_adjust. change 0x0F with (Z.ones 4). rewrite Z.land_ones by lia.
  change (2 ^ 4) with 16. replace (af (set_cf f false)) with (af f) by done. fold lo hi. subst d.
  assert (Hcf : hi = false -> cf f = false) by (unfold hi; destruct (cf f); [rewrite orb_true_r|]; done).
  destruct lo; destruct hi; cbn [fst snd cf set_cf set_af set_sf set_zf set_pf set_of_ set_pf_src set_af_src orb andb]; try (specialize (Hcf eq_refl));
    try rewrite Hcf; (split; [|by destruct sub]); destruct sub; unfold wrapping_add, wrapping_sub; rewrite ?wrap_add_l, ?wrap_sub_l by lia;
    try (f_equal; lia); symmetry; rewrite ?Z.sub_0_r, ?Z.add_0_r; apply wrap_small; unfold in_width in *; lia.
Qed.

Lemma bcd_range x : 0 <= x < 100 -> in_width 8 (bcd x).
Proof. intros Hx. unfold bcd, in_width. change (2 ^ 8) with 256. Z.div_mod_to_equations. lia. Qed.

Lemma digits x : 0 <= x < 100 -> exists h l, x = 10 * h + l /\ 0 <= h < 10 /\ 0 <= l < 10 /\ bcd x = 16 * h + l.
Proof. intros Hx. exists (x / 10), (x mod 10). unfold bcd. Z.div_mod_to_equations. lia. Qed.

Lemma bcd_of h l : 0 <= l < 10 -> bcd (10 * h + l) = 16 * h + l.
Proof. intros Hl. unfold bcd. Z.div_mod_to_equations. lia. Qed.

(** The adjust corrects a binary result whose digits differ by (add to) [d] and [e]. *)
Definition digit_check (sub : bool) (d e : Z) : bool :=
  let t := 16 * d + e in let v := 10 * d + e in
  let lo := (9 <? wrap 8 t mod 16) || (if sub then e <? 0 else 16 <=? e) in
  let hi := (0x99 <? wrap 8 t) || (if sub then t <? 0 else 256 <=? t) in
  let x := (if lo then 6 else 0) + (if hi then 0x60 else 0) in
  (wrap 8 (if sub then wrap 8 t - x else wrap 8 t + x) =? bcd (v mod 100)) &&
  Bool.eqb (hi || (lo && (if sub then wrap 8 t <? 6 else 256 <=? wrap 8 t + 6)))
    (negb ((0 <=? v) && (v <? 100))).

Lemma digit_check_all :
  forallb (fun d => forallb (digit_check true d) (zseq (-10) 20)) (zseq (-9) 19) &&
  forallb (fun d => forallb (digit_check false d) (zseq 0 20)) (zseq 0 19) = true.
Proof. vm_compute. reflexivity. Qed.

Lemma digit_check_true (sub : bool) (d e : Z) :
  (if sub then -9 <= d <= 9 /\ -10 <= e <= 9 else 0 <= d <= 18 /\ 0 <= e <= 19) -> digit_check sub d e = true.
Proof.
  intros H. pose proof digit_check_all as [H1 H2]%andb_true_iff. rewrite forallb_forall in H1, H2.
  destruct sub; [specialize (H1 d ltac:(apply list_elem_of_In, zseq_elem; lia)); rewrite forallb_forall in H1; apply H1
    |specialize (H2 d ltac:(apply list_elem_of_In, zseq_elem; lia)); rewrite forallb_forall in H2; apply H2];
    apply list_elem_of_In, zseq_elem; lia.
Qed.

(** Decimal addition and subtraction, digit by digit. *)
Lemma bcd_sum_exact sub a b c f : 0 <= a < 100 -> 0 <= b < 100 ->
  let r := bcd_alu sub a b c in let v := bcd_value sub a b c in
  cf f = r_cf r -> af f = r_af r ->
  (bcd_adjust sub (r_res r) f).1 = bcd (v mod 100) /\
  cf (bcd_adjust sub (r_res r) f).2 = negb ((0 <=? v) && (v <? 100)).
Proof.
  intros Ha Hb r v Hcf Haf. assert (H1 : valid_elem 1) by (unfold valid_elem; lia).
  assert (Hc : 0 <= b2z c <= 1) by (destruct c; cbn; lia).
  assert (Hr : in_width 8 (r_res r)).
  { unfold r, bcd_alu. destruct sub; [rewrite alu_sub_spec by done|rewrite alu_add_spec by done]; by apply (wrap_range 8). }
  destruct (bcd_adjust_value sub (r_res r) f Hr) as [-> ->]. rewrite Hcf, Haf. clear Hcf Haf f Hr.
  destruct (digits a Ha) as (ah & al & Ea & Hah & Hal & Ba), (digits b Hb) as (bh & bl & Eb & Hbh & Hbl & Bb).
  assert (Hm : forall k, 0 <= k < 10 -> (16 * ah + k) mod 16 = k /\ (16 * bh + k) mod 16 = k)
    by (intros; Z.div_mod_to_equations; lia).
  unfold r, v, bcd_alu, bcd_value. set (cc := b2z c) in *. clearbody cc. clear r v.
  destruct sub; [rewrite alu_sub_spec by done|rewrite alu_add_spec by done]; change (bits_of 1) with 8;
    cbn [add_spec sub_spec r_res r_cf r_af];
    rewrite !(wrap_small 8 (bcd _)) by (by apply bcd_range); rewrite Ba, Bb;
    rewrite (proj1 (Hm al Hal)), (proj2 (Hm bl Hbl)); subst a b; clear Hm Ba Bb Ha Hb.
  - pose proof (digit_check_true true (ah - bh) (al - bl - cc) ltac:(cbv iota; lia)) as Hk. unfold digit_check in Hk.
    replace (16 * (ah - bh) + (al - bl - cc)) with (16 * ah + al - (16 * bh + bl) - cc) in Hk by lia.
    replace (10 * (ah - bh) + (al - bl - cc)) with (10 * ah + al - (10 * bh + bl) - cc) in Hk by lia.
    by apply andb_true_iff in Hk as [Hv1%Z.eqb_eq Hv2%eqb_prop].
  - pose proof (digit_check_true false (ah + bh) (al + bl + cc) ltac:(cbv iota; lia)) as Hk. unfold digit_check in Hk.
    replace (16 * (ah + bh) + (al + bl + cc)) with (16 * ah + al + (16 * bh + bl) + cc) in Hk by lia.
    replace (10 * (ah + bh) + (al + bl + cc)) with (10 * ah + al + (10 * bh + bl) + cc) in Hk by lia.
    by apply andb_true_iff in Hk as [Hv1%Z.eqb_eq Hv2%eqb_prop].
Qed.

(** The low byte (word) of a register replaced. *)
Lemma low_replaced w m rax v : 0 <= w <= 64 -> m = Z.ones w -> in_width 64 rax -> in_width w v ->
  wrap w (Z.lor (Z.land rax (unot 64 m)) v) = v /\
  Z.shiftr (Z.lor (Z.land rax (unot 64 m)) v) w = Z.shiftr rax w.
Proof.
  intros Hw -> Hr Hv. unfold unot. split; apply Z.bits_inj'; intros i Hi.
  - rewrite wrap_testbit, Z.lor_spec, Z.land_spec, wrap_testbit, Z.lnot_spec by lia.
    destruct (Z.ltb_spec i w).
    + rewrite Z.ones_spec_low by lia. cbn [negb]. by rewrite !andb_false_r.
    + by rewrite (in_width_high w v) by (done || lia).
  - rewrite !Z.shiftr_spec, Z.lor_spec, Z.land_spec, wrap_testbit by lia.
    rewrite Z.lnot_spec, Z.ones_spec_high by lia. rewrite (in_width_high w v) by (done || lia).
    rewrite orb_false_r. destruct (Z.ltb_spec (i + w) 64); cbn [negb andb]; [by rewrite andb_true_r|].
    by rewrite (in_width_high 64 rax) by (done || lia).
Qed.

(** ** Completing a trapped access (vm.rs, [Vcpu]) *)

Definition complete_mmio_read (c : CpuState) (value : Z) : CpuState := set_pending_mmio c (Some value).
Definition complete_mmio_write (c : CpuState) : CpuState := set_pending_mmio_write c true.
Definition complete_port_in (c : CpuState) (value : Z) : option CpuState :=
  match pending_port_in c with
  | Some size => write_gpr (set_pending_port_in c None) RAX value size
  | None => Some c
  end.

Definition on_cpu (s : mach) (f : CpuState -> CpuState) : mach := mkMach (f (m_cpu s)) (m_mem s) (m_temps s).

Lemma pending_read_roundtrip c w : pending_mmio c = None -> set_pending_mmio (set_pending_mmio c (Some w)) None = c.
Proof. destruct c. cbn. by intros ->. Qed.
Lemma pending_write_roundtrip c : pending_mmio_write c = false ->
  set_pending_mmio_write (set_pending_mmio_write c true) false = c.
Proof. destruct c. cbn. by intros ->. Qed.

Lemma load_traps s ca dst addr size a t m' : val_of s addr = Some a -> pending_mmio (m_cpu s) = None ->
  read (m_mem s) a size = Some (Err t, m') ->
  exec_load ca dst addr size s =
    Some (Some (SExit (trap_exit t a size Read 0)), mkMach (set_rip (m_cpu s) ca) m' (m_temps s)).
Proof.
  intros Ha Hp Hr. unfold exec_load. rewrite (bind_run _ _ _ _ _ (read_val_run s addr a Ha)).
  unfold mbind, M_bind, get_cpu. rewrite Hp. unfold on_mem. by rewrite Hr.
Qed.

Lemma store_traps s ca addr src size a v t m' : val_of s addr = Some a -> val_of s src = Some v ->
  pending_mmio_write (m_cpu s) = false -> write (m_mem s) a v size = Some (Err t, m') ->
  exec_store ca addr src size s =
    Some (Some (SExit (trap_exit t a size Write v)), mkMach (set_rip (m_cpu s) ca) m' (m_temps s)).
Proof.
  intros Ha Hv Hp Hr. unfold exec_store. rewrite (bind_run _ _ _ _ _ (read_val_run s addr a Ha)).
  rewrite (bind_run _ _ _ _ _ (read_val_run s src v Hv)).
  unfold mbind, M_bind, on_mem. rewrite Hr. cbn [get_cpu]. unfold get_cpu. cbn [m_cpu]. rewrite Hp. by destruct t.
Qed.

(** ** Theorems *)

(** A machine on the example memory, with [t0 = 0x8001], [t1 = 0x21], [t2 = 8192]. *)
Definition ex_mach : mach := mkMach default_cpu ex_mem [0x8001; 0x21; 8192].

Lemma ex_mach_ok : mach_ok 3 ex_mach.
Proof.
  split; [apply default_cpu_wf|apply ex_mem_wf|done|]. repeat constructor; lia.
Qed.

(** [shl], [shr] and [sar] of an n-bit operand compute, for every masked count
    (counts past the operand width included), multiplication by [2^k] modulo [2^n],
    unsigned division and signed floor division by [2^k]; CF is the last bit shifted
    out, OF follows the count-one rule, and a masked count of zero leaves all flags. *)
Theorem shifts_exact (kd : ShiftKind) (s : mach) (dst : Temp) (a b : Val) (size : Z) (fm : FlagMask) (x y : Z) :
  valid_elem size -> (dst < length (m_temps s))%nat -> val_of s a = Some x -> val_of s b = Some y ->
  let n := bits_of size in
  let v := wrap n x in
  let k := y mod 2 ^ count_bits size in
  let '(res, cf) := shift_spec n kd v k in
  exec_shift kd dst a b size fm s =
    Some (None, commit s dst res (negb (fm_is_none fm) && negb (k =? 0)) fm
                  (shift_result res size cf (shift_of n kd v res cf))).
Proof. apply exec_shift_run. Qed.

Lemma shifts_exact_witness :
  exec_shl 2 (TempV 0) (TempV 1) 2 FM_SHIFT ex_mach =
    Some (None, commit ex_mach 2 2 true FM_SHIFT (shift_result 2 2 true true)).
Proof.
  assert (H : valid_elem 2) by (unfold valid_elem; lia).
  exact (shifts_exact KShl ex_mach 2 (TempV 0) (TempV 1) 2 FM_SHIFT 0x8001 0x21 H
    ltac:(cbn; lia) eq_refl eq_refl).
Defined.

(** [shld]/[shrd] with a masked count below the operand width return the n-bit
    window of the 2n-bit concatenation with the source, CF the last bit shifted out of
    the destination and OF its sign change; a masked count of zero returns the
    destination and leaves the flags alone. *)
Theorem double_shifts_exact (s : mach) (dst : Temp) (a b count : Val) (size : Z) (left_ : bool) (fm : FlagMask)
    (x y c : Z) :
  valid_elem size -> (dst < length (m_temps s))%nat ->
  val_of s a = Some x -> val_of s b = Some y -> val_of s count = Some c ->
  let n := bits_of size in
  let v := wrap n x in let w := wrap n y in
  let k := c mod 2 ^ count_bits size in
  k < n ->
  exec_double_shift dst a b count size left_ fm s =
    Some (None,
      if k =? 0 then with_temp s dst v
      else let '(res, cf) := double_spec n left_ v w k in
           commit s dst res (negb (fm_is_none fm)) fm
             (shift_result res size cf (xorb (Z.testbit res (n - 1)) (Z.testbit v (n - 1))))).
Proof.
  intros Hs Hd Ha Hb Hc n v w k Hk. pose proof (shift_count_range c size) as Hk0. fold k in Hk0.
  destruct (Z.eqb_spec k 0) as [E|E].
  - unfold exec_double_shift. rewrite (bind_run _ _ _ _ _ (read_val_run s a x Ha)), (bind_run _ _ _ _ _ (read_val_run s b y Hb)),
      (bind_run _ _ _ _ _ (read_val_run s count c Hc)), shift_count. fold k. rewrite E. cbn [Z.eqb].
    rewrite (bind_run _ _ _ _ _ (set_temp_run s dst _ Hd)), land_mask by done. done.
  - pose proof (exec_double_shift_pos s dst a b count size left_ fm x y c Hs Hd Ha Hb Hc) as H.
    cbn zeta in H. fold n v w k in H. specialize (H ltac:(lia)). destruct (double_spec _ _ _ _ _) as [res cf]. exact H.
Qed.

Lemma double_shifts_exact_witness :
  exec_double_shift 2 (TempV 0) (TempV 1) (Imm 4) 2 true FM_NONE ex_mach =
    Some (None, with_temp ex_mach 2 0x0010).
Proof.
  assert (H : valid_elem 2) by (unfold valid_elem; lia).
  exact (double_shifts_exact ex_mach 2 (TempV 0) (TempV 1) (Imm 4) 2 true FM_NONE 0x8001 0x21 4 H
    ltac:(cbn; lia) eq_refl eq_refl eq_refl ltac:(vm_compute; reflexivity)).
Defined.

(** The one count the 16-bit double shifts get wrong: a count of 16 is within the
    operand size, so [shld]/[shrd] must deliver the source operand, and the interpreter
    delivers zero. *)
Theorem double_shift_full_count (s : mach) (dst : Temp) (x y : Z) (left_ : bool) :
  (double_spec 16 left_ (wrap 16 x) (wrap 16 y) 16).1 = wrap 16 y /\
  ((dst < length (m_temps s))%nat ->
   exec_double_shift dst (Imm x) (Imm y) (Imm 16) 2 left_ FM_NONE s = Some (None, with_temp s dst 0)).
Proof.
  assert (Hx : in_width 16 (wrap 16 x)) by (apply wrap_range; lia).
  assert (Hy : in_width 16 (wrap 16 y)) by (apply wrap_range; lia). split.
  - unfold double_spec. destruct left_; cbn [fst].
    + rewrite Z.sub_diag, Z.pow_0_r, Z.div_1_r, Z.add_comm. unfold wrap. rewrite Z.mod_add by lia. by apply wrap_wrap.
    + rewrite Z.add_comm, Z.div_add, Z.div_small by (done || lia). rewrite Z.add_0_l. by apply wrap_small.
  - intros Hd. assert (H2 : valid_elem 2) by (unfold valid_elem; lia). unfold exec_double_shift.
    rewrite (bind_run _ _ _ _ _ (read_val_run s (Imm x) x eq_refl)), (bind_run _ _ _ _ _ (read_val_run s (Imm y) y eq_refl)),
      (bind_run _ _ _ _ _ (read_val_run s (Imm 16) 16 eq_refl)). cbn zeta. change (Z.land 16 (shift_mask 2)) with 16.
    change (16 =? 0) with false. change (16 <? 2 * 8) with false. cbn iota. rewrite !land_mask by done. change (bits_of 2) with 16.
    assert (E1 : wrap 16 (Z.lor (wrapping_shl 64 (wrap 16 x) 16) 0) = 0).
    { rewrite Z.lor_0_r, wrap_wrapping_shl by lia. unfold wrap. apply Z.mod_mul. lia. }
    assert (E2 : wrap 16 (Z.lor (Z.shiftr (wrap 16 x) 16) 0) = 0).
    { rewrite Z.lor_0_r, Z.shiftr_div_pow2, Z.div_small by (done || lia). done. }
    destruct left_; rewrite ?E1, ?E2; by rewrite (bind_run _ _ _ _ _ (set_temp_run s dst 0 Hd)).
Qed.

Lemma double_shift_full_count_witness :
  (double_spec 16 true (wrap 16 0x1234) (wrap 16 0xABCD) 16).1 = 0xABCD /\
  exec_double_shift 0 (Imm 0x1234) (Imm 0xABCD) (Imm 16) 2 true FM_NONE ex_mach = Some (None, with_temp ex_mach 0 0).
Proof.
  destruct (double_shift_full_count ex_mach 0 0x1234 0xABCD true) as [H1 H2].
  split; [exact H1|exact (H2 ltac:(cbn; lia))].
Defined.

(** [mul]/[imul] leave the low and high n-bit halves of the mathematical product of
    the (un)signed operands, and CF and OF report exactly that the product does not fit
    in the low half. *)
Theorem multiply_exact (s : mach) (lo hi : Temp) (a b : Val) (size : Z) (signed : bool) (fm : FlagMask) (x y : Z) :
  valid_elem size -> (lo < length (m_temps s))%nat -> (hi < length (m_temps s))%nat ->
  val_of s a = Some x -> val_of s b = Some y ->
  let '(l, h, overflow) := mul_spec (bits_of size) x y signed in
  exec_mul lo hi a b size signed fm s =
    Some (None, commit (with_temp s lo l) hi h (negb (fm_is_none fm)) fm (cf_of l overflow overflow)).
Proof.
  intros Hs Hl Hh Ha Hb. pose proof (mul_wide_exact x y size signed Hs) as E.
  destruct (mul_spec _ _ _ _) as [[l h] ovf]. unfold exec_mul.
  rewrite (bind_run _ _ _ _ _ (read_val_run s a x Ha)), (bind_run _ _ _ _ _ (read_val_run s b y Hb)). cbn zeta.
  rewrite !land_mask, E by done. rewrite (bind_run _ _ _ _ _ (set_temp_run s lo l Hl)).
  rewrite (bind_run _ _ _ _ _ (set_temp_run (with_temp s lo l) hi h ltac:(by cbn [m_temps with_temp]; rewrite length_insert))).
  unfold commit. by destruct (fm_is_none fm).
Qed.

Lemma multiply_exact_witness :
  exec_mul 0 1 (TempV 0) (Imm 0xFFFF) 2 true FM_NONE ex_mach =
    Some (None, with_temp (with_temp ex_mach 0 0x7FFF) 1 0).
Proof.
  assert (H : valid_elem 2) by (unfold valid_elem; lia).
  exact (multiply_exact ex_mach 0 1 (TempV 0) (Imm 0xFFFF) 2 true FM_NONE 0x8001 0xFFFF H
    ltac:(cbn; lia) ltac:(cbn; lia) eq_refl eq_refl).
Defined.

(** [bsf]/[tzcnt] find the lowest and [bsr]/[lzcnt] the highest set bit of the n-bit
    source; a zero source keeps the destination and sets ZF ([bsf]/[bsr]) or returns n
    and sets CF ([tzcnt]/[lzcnt]). *)
Theorem bit_scan_exact (s : mach) (dst : Temp) (src old : Val) (size : Z) (op : BitScanOp) (v o : Z) :
  valid_elem size -> (dst < length (m_temps s))%nat -> val_of s src = Some v -> val_of s old = Some o ->
  exists r f, exec_bit_scan dst src old size op s = Some (None, with_temp (with_flags s f) dst r) /\
    bit_scan_ok op (bits_of size) (wrap (bits_of size) v) o (flags (m_cpu s)) r f.
Proof.
  intros Hs Hd Hv Ho. set (w := wrap (bits_of size) v).
  set (old' := match op with Bsf | Bsr => if w =? 0 then o else 0 | _ => 0 end).
  pose proof (bit_scan_correct op v o size (flags (m_cpu s)) Hs) as Hok. cbn zeta in Hok. fold w in Hok.
  assert (E : bit_scan_result op w old' size (flags (m_cpu s)) = bit_scan_result op w o size (flags (m_cpu s))).
  { unfold bit_scan_result, old'. destruct op; by destruct (w =? 0). }
  destruct (bit_scan_result op w o size _) as [r f] eqn:Er. exists r, f. split; [|exact Hok].
  unfold exec_bit_scan. rewrite (bind_run _ _ _ _ _ (read_val_run s src v Hv)). cbn zeta. rewrite land_mask by done. fold w.
  rewrite (bind_run _ _ s old' s).
  2:{ unfold old'. destruct op; try done; destruct (w =? 0); try done; by apply read_val_run. }
  rewrite (bind_run _ _ s (m_cpu s) s) by done. rewrite E.
  rewrite (bind_run _ _ s tt (with_flags s f)) by done.
  by rewrite (bind_run _ _ _ _ _ (set_temp_run (with_flags s f) dst r Hd)).
Qed.

Lemma bit_scan_exact_witness : exists r f,
  exec_bit_scan 2 (TempV 0) (TempV 1) 2 Bsr ex_mach = Some (None, with_temp (with_flags ex_mach f) 2 r) /\
  bit_scan_ok Bsr 16 0x8001 0x21 default_flags r f.
Proof.
  assert (H : valid_elem 2) by (unfold valid_elem; lia).
  exact (bit_scan_exact ex_mach 2 (TempV 0) (TempV 1) 2 Bsr 0x8001 0x21 H ltac:(cbn; lia) eq_refl eq_refl).
Defined.

(** Decimal arithmetic: after an 8-bit [add]/[adc] ([sub]/[sbb]) of two packed-decimal
    bytes, [daa] ([das]) leaves in AL the packed decimal of the sum (difference) modulo
    100 and in CF the decimal carry (borrow); the rest of RAX is untouched. *)
Theorem decimal_adjust_exact (s : mach) (ca : Z) (sub : bool) (a b : Z) (c : bool) (f : Flags) :
  cpu_wf (m_cpu s) -> 0 <= a < 100 -> 0 <= b < 100 ->
  wrap 8 (get_gpr (m_cpu s) RAX) = r_res (bcd_alu sub a b c) ->
  flags (m_cpu s) = apply_flags f FM_ALL (bcd_alu sub a b c) ->
  let v := bcd_value sub a b c in
  exists s', exec_bcd ca (if sub then Das else Daa) s = Some (None, s') /\
    wrap 8 (get_gpr (m_cpu s') RAX) = bcd (v mod 100) /\
    Z.shiftr (get_gpr (m_cpu s') RAX) 8 = Z.shiftr (get_gpr (m_cpu s) RAX) 8 /\
    cf (flags (m_cpu s')) = negb ((0 <=? v) && (v <? 100)).
Proof.
  intros Hc Ha Hb Hal Hf v. set (r := bcd_alu sub a b c) in *.
  assert (Hcf : cf (flags (m_cpu s)) = r_cf r /\ af (flags (m_cpu s)) = r_af r).
  { rewrite Hf. pose proof (apply_all f r) as (Ecf & _ & _ & _ & _ & _ & Epf & Eaf)%flags_eq_iff. rewrite Ecf. split; [done|].
    rewrite Eaf. by destruct (r_af r). }
  destruct Hcf as [Hcf Haf].
  destruct (bcd_sum_exact sub a b c (flags (m_cpu s)) Ha Hb Hcf Haf) as [E1 E2]. fold r v in E1, E2.
  assert (Hr8 : in_width 8 (r_res r)) by (rewrite <- Hal; apply wrap_range; lia).
  destruct (bcd_adjust_range sub (r_res r) (flags (m_cpu s)) Hr8 (cpu_flags_wf _ Hc)) as [Hr _]. rewrite E1 in Hr.
  destruct (low_replaced 8 0xFF (get_gpr (m_cpu s) RAX) _ ltac:(lia) eq_refl (get_gpr_range _ _ Hc) Hr) as [L1 L2].
  unfold exec_bcd. rewrite (bind_run _ _ s (m_cpu s) s) by done. cbn zeta.
  change 0xFF with (Z.ones 8). rewrite Z.land_ones by lia. fold (wrap 8 (get_gpr (m_cpu s) RAX)). rewrite Hal.
  change (Z.ones 8) with 0xFF.
  destruct sub; destruct (bcd_adjust _ _ (flags (m_cpu s))) as [al' g']; cbn [fst snd] in E1, E2; rewrite E1 in *;
    (eexists; split; [done|]); cbn [m_cpu]; change (get_gpr (set_flags ?x _) RAX) with (get_gpr x RAX);
    rewrite get_put_gpr by (apply Hc || (cbv; lia)); cbn [decide]; cbn [flags set_flags];
    (split; [exact L1|]; split; [exact L2|exact E2]).
Qed.

(** 47 + 38 + 1 = 86 in packed decimal. *)
Definition ex_bcd : mach :=
  on_cpu ex_mach (fun c => set_flags (put_gpr c RAX (r_res (bcd_alu false 47 38 true)))
    (apply_flags default_flags FM_ALL (bcd_alu false 47 38 true))).

Lemma decimal_adjust_exact_witness : exists s', exec_bcd 0x1000 Daa ex_bcd = Some (None, s') /\
  wrap 8 (get_gpr (m_cpu s') RAX) = 0x86 /\
  Z.shiftr (get_gpr (m_cpu s') RAX) 8 = Z.shiftr (get_gpr (m_cpu ex_bcd) RAX) 8 /\
  cf (flags (m_cpu s')) = false.
Proof.
  apply (decimal_adjust_exact ex_bcd 0x1000 false 47 38 true default_flags); [|lia|lia|vm_compute; reflexivity|reflexivity].
  apply cpu_wf_set_flags; [apply gprs_insert_wf; [apply default_cpu_wf|]|apply flags_wf_apply];
    vm_compute; repeat split; congruence.
Defined.

(** C34: a load or store that hits a trapped region leaves the block with the MMIO exit,
    RIP on the faulting instruction and nothing else changed; after the embedder
    completes the access, re-executing the same op consumes the completion exactly once
    (the load delivers the supplied value at the operand width, the store does nothing),
    touches no memory and continues. *)
Theorem mmio_trap_and_resume (n : nat) (s : mach) (ca : Z) (dst : Temp) (addr src : Val) (size a v w : Z) :
  mach_ok n s -> valid_elem size -> (dst < n)%nat -> val_of s addr = Some a -> val_of s src = Some v ->
  v_kind (view (m_mem s)) a size = Some TrapRegion ->
  pending_mmio (m_cpu s) = None -> pending_mmio_write (m_cpu s) = false ->
  (exists m1, shows m1 (view (m_mem s)) /\
     let s1 := mkMach (set_rip (m_cpu s) ca) m1 (m_temps s) in
     exec_load ca dst addr size s = Some (Some (SExit (MmioRead a size)), s1) /\
     exec_load ca dst addr size (on_cpu s1 (fun c => complete_mmio_read c w)) =
       Some (None, with_temp s1 dst (wrap (bits_of size) w))) /\
  (exists m1 m2, shows m1 (view (m_mem s)) /\ shows m2 (view (m_mem s)) /\
     let s1 := mkMach (set_rip (m_cpu s) ca) m1 (m_temps s) in
     exec_store ca addr src size s = Some (Some (SExit (MmioWrite a size v)), s1) /\
     exec_store ca addr src size (on_cpu s1 complete_mmio_write) =
       Some (None, mkMach (m_cpu s1) m2 (m_temps s1))).
Proof.
  intros Hs He Hd Ha Hv Hk Hp Hpw. pose proof (ok_temps _ _ Hs) as Hl. split.
  - destruct (read_refines _ a size (ok_mem _ _ Hs) He) as (m1 & E & Hm1).
    exists m1. split; [done|]. cbn zeta. unfold g_read in E. rewrite Hk in E. split.
    + by rewrite (load_traps s ca dst addr size a _ _ Ha Hp E).
    + unfold exec_load. rewrite (bind_run _ _ _ a _ (read_val_run (on_cpu (mkMach (set_rip (m_cpu s) ca) m1 (m_temps s)) _) addr a Ha)).
      unfold mbind at 1, M_bind, get_cpu. cbn [m_cpu on_cpu complete_mmio_read pending_mmio set_pending_mmio].
      unfold mbind at 1, upd_cpu, M_bind. cbn [m_cpu on_cpu m_mem m_temps complete_mmio_read].
      unfold complete_mmio_read. rewrite pending_read_roundtrip by done.
      rewrite (bind_run _ _ _ _ _ (set_temp_run (mkMach _ m1 (m_temps s)) dst _ ltac:(cbn [m_temps]; by rewrite Hl))).
      by rewrite land_mask by done.
  - destruct (write_refines _ a v size (ok_mem _ _ Hs) He) as (m1 & E & Hm1).
    unfold g_write in E, Hm1. rewrite Hk in E, Hm1. cbn [fst snd] in E, Hm1.
    destruct (write_refines m1 a v size (proj1 Hm1) He) as (m2 & E2 & Hm2).
    unfold g_write in E2, Hm2. rewrite (proj1 (proj2 Hm1) a size), Hk in E2, Hm2. cbn [fst snd] in E2, Hm2.
    exists m1, m2. split; [done|]. split; [destruct Hm2; split; [done|]; etransitivity; [eassumption|apply Hm1]|].
    cbn zeta. split; [by rewrite (store_traps s ca addr src size a v _ _ Ha Hv Hpw E)|].
    unfold exec_store. rewrite (bind_run _ _ _ a _ (read_val_run (on_cpu (mkMach (set_rip (m_cpu s) ca) m1 (m_temps s)) _) addr a Ha)).
    rewrite (bind_run _ _ _ v _ (read_val_run (on_cpu (mkMach (set_rip (m_cpu s) ca) m1 (m_temps s)) _) src v Hv)).
    unfold mbind at 1, M_bind, on_mem. cbn [m_mem on_cpu]. rewrite E2.
    unfold mbind, M_bind, get_cpu, upd_cpu, next, mret, M_ret, complete_mmio_write.
    cbn [m_cpu on_cpu pending_mmio_write set_pending_mmio_write m_mem m_temps].
    by rewrite pending_write_roundtrip.
Qed.

Lemma mmio_trap_and_resume_witness : exists m1, shows m1 (view ex_mem) /\
  let s1 := mkMach (set_rip default_cpu 0x1000) m1 [0x8001; 0x21; 8192] in
  exec_load 0x1000 0 (TempV 2) 4 ex_mach = Some (Some (SExit (MmioRead 8192 4)), s1) /\
  exec_load 0x1000 0 (TempV 2) 4 (on_cpu s1 (fun c => complete_mmio_read c 0x1DEADBEEF)) =
    Some (None, with_temp s1 0 0xDEADBEEF).
Proof.
  assert (H : valid_elem 4) by (unfold valid_elem; lia).
  exact (proj1 (mmio_trap_and_resume 3 ex_mach 0x1000 0 (TempV 2) (TempV 1) 4 8192 0x21 0x1DEADBEEF
    ex_mach_ok H ltac:(lia) eq_refl eq_refl ltac:(vm_compute; reflexivity) eq_refl eq_refl)).
Defined.
