(* ===== verification/StringOps.v ===== *)
(** * String operations (x86jit-core/src/interp/mod.rs, [string_run])

    One implementation of [movs]/[stos]/[lods]/[scas]/[cmps] with their repeat prefixes
    serves the interpreter (over [Memory]) and the compiled code (over a raw view of the
    buffer).  The [StrMem] trait is a class; its laws state what the loop needs of an
    implementor, relative to a guest [View], and both implementors discharge them.  A
    [View] is itself an implementor: running the loop on it is the specification the
    two refine. *)

From S2P Require Import Prelude Features State Ir Alu Memory Interp IntegerSpec.

(** ** The trait and its implementors *)

Class StrMem (T : Type) : Type := {
  sload : T -> Z -> Z -> option (Result Z MemTrap * T);
  sstore : T -> Z -> Z -> Z -> option (Result unit MemTrap * T);
}.

#[global] Instance memory_str : StrMem Memory := {
  sload m addr elem := read m addr elem;
  sstore m addr val elem := write m addr val elem;
}.

(** [base] points at guest [guest_base]; the buffer is the bytes it reaches. *)
Record RawStrMem : Type := mkRaw {
  rs_bytes : gmap Z Z;
  rs_size : Z;
  rs_guest_base : Z;
}.

Definition raw_off (r : RawStrMem) (addr elem : Z) : option Z :=
  end_ ← checked_add 64 addr elem;
  if (addr <? rs_guest_base r) || (rs_size r <? end_) then None
  else Some (addr - rs_guest_base r).

(** The eight-byte stack buffer bounds [elem]. *)
Definition raw_sload (r : RawStrMem) (addr elem : Z) : option (Result Z MemTrap * RawStrMem) :=
  match raw_off r addr elem with
  | None => Some (Err Unmapped, r)
  | Some off =>
      if 8 <? elem then None
      else Some (Ok (from_le_bytes (load_bytes (rs_bytes r) off (Z.to_nat elem))), r)
  end.

Definition raw_sstore (r : RawStrMem) (addr val elem : Z) : option (Result unit MemTrap * RawStrMem) :=
  match raw_off r addr elem with
  | None => Some (Err Unmapped, r)
  | Some off =>
      if 8 <? elem then None
      else Some (Ok tt, mkRaw (store_bytes (rs_bytes r) off (to_le_bytes (Z.to_nat elem) val))
                          (rs_size r) (rs_guest_base r))
  end.

#[global] Instance raw_str : StrMem RawStrMem := { sload := raw_sload; sstore := raw_sstore }.

#[global] Instance view_str : StrMem View := {
  sload g addr elem := Some (g_read g addr elem, g);
  sstore g addr val elem := Some ((g_write g addr val elem).1, (g_write g addr val elem).2);
}.

(** ** The loop *)

Record StrFault : Type := mkFault {
  sf_addr : Z;
  sf_write : bool;
  sf_trap : MemTrap;
  sf_value : Z;
  sf_elem : Z;
}.

(** The fault, and the CPU with RIP back on the instruction. *)
Definition str_trap (c : CpuState) (cur_addr addr : Z) (wr : bool) (t : MemTrap) (value elem : Z)
    : option StrFault * CpuState :=
  (Some (mkFault addr wr t value elem), set_rip c cur_addr).

Definition addr_mask (addr_bits : Z) : Z :=
  if addr_bits =? 16 then 0xFFFF else if addr_bits =? 32 then 0xFFFFFFFF else 2 ^ 64 - 1.

(** Add [d] within the address width: 32-bit writes zero-extend, others merge. *)
Definition bump (addr_bits d reg : Z) : Z :=
  let amask := addr_mask addr_bits in
  let lo := Z.land (wrapping_add 64 (Z.land reg amask) d) amask in
  if addr_bits =? 32 then lo else Z.lor (Z.land reg (unot 64 amask)) lo.

Definition str_step (c : CpuState) (elem : Z) : Z := if df (flags c) then wrapping_neg 64 elem else elem.

Definition bump_gpr (addr_bits d : Z) (i : nat) (c : CpuState) : CpuState :=
  put_gpr c i (bump addr_bits d (get_gpr c i)).

Section Run.
Context {T : Type} `{StrMem T}.
Context (op : StrOp) (elem : Z) (rep : RepKind) (cur_addr addr_bits src_base dst_base step : Z).

Definition src_lin (reg : Z) : Z := wrapping_add 64 src_base (Z.land reg (addr_mask addr_bits)).
Definition dst_lin (reg : Z) : Z := wrapping_add 64 dst_base (Z.land reg (addr_mask addr_bits)).

(** One element: the body of the loop's [match op]. *)
Definition str_body (c : CpuState) (mem : T) : option (option StrFault * CpuState * T) :=
  let advance := bump_gpr addr_bits step in
  match op with
  | Movs =>
      let sa := src_lin (get_gpr c RSI) in
      let da := dst_lin (get_gpr c RDI) in
      '(r, mem) ← sload mem sa elem;
      match r with
      | Err t => Some (str_trap c cur_addr sa false t 0 elem, mem)
      | Ok v =>
          '(w, mem) ← sstore mem da v elem;
          match w with
          | Err t => Some (str_trap c cur_addr da true t v elem, mem)
          | Ok _ => Some (None, advance RDI (advance RSI c), mem)
          end
      end
  | Stos =>
      let da := dst_lin (get_gpr c RDI) in
      let v := Z.land (get_gpr c RAX) (mask elem) in
      '(w, mem) ← sstore mem da v elem;
      match w with
      | Err t => Some (str_trap c cur_addr da true t v elem, mem)
      | Ok _ => Some (None, advance RDI c, mem)
      end
  | Lods =>
      let sa := src_lin (get_gpr c RSI) in
      '(r, mem) ← sload mem sa elem;
      match r with
      | Err t => Some (str_trap c cur_addr sa false t 0 elem, mem)
      | Ok v =>
          c ← write_gpr c RAX v elem;
          Some (None, advance RSI c, mem)
      end
  | Scas =>
      let da := dst_lin (get_gpr c RDI) in
      '(r, mem) ← sload mem da elem;
      match r with
      | Err t => Some (str_trap c cur_addr da false t 0 elem, mem)
      | Ok b =>
          let r := alu_sub (Z.land (get_gpr c RAX) (mask elem)) b 0 elem in
          let c := set_flags c (apply_flags (flags c) FM_ALL r) in
          Some (None, advance RDI c, mem)
      end
  | Cmps =>
      let sa := src_lin (get_gpr c RSI) in
      let da := dst_lin (get_gpr c RDI) in
      '(r, mem) ← sload mem sa elem;
      match r with
      | Err t => Some (str_trap c cur_addr sa false t 0 elem, mem)
      | Ok a =>
          '(r, mem) ← sload mem da elem;
          match r with
          | Err t => Some (str_trap c cur_addr da false t 0 elem, mem)
          | Ok b =>
              let r := alu_sub a b 0 elem in
              let c := set_flags c (apply_flags (flags c) FM_ALL r) in
              Some (None, advance RDI (advance RSI c), mem)
          end
      end
  end.

(** [!matches!(rep, None) && RCX & amask == 0] *)
Definition str_done (c : CpuState) : bool :=
  match rep with RepNone => false | _ => Z.land (get_gpr c RCX) (addr_mask addr_bits) =? 0 end.

(** The counter and whether the loop goes round again, after a completed element. *)
Definition str_after (c : CpuState) : bool * CpuState :=
  let dec := bump_gpr addr_bits (wrapping_neg 64 1) RCX in
  match rep with
  | RepNone => (false, c)
  | Rep => (true, dec c)
  | Repe => let c := dec c in (zf (flags c), c)
  | Repne => let c := dec c in (negb (zf (flags c)), c)
  end.

Fixpoint str_loop (fuel : nat) (c : CpuState) (mem : T) : option (option StrFault * CpuState * T) :=
  match fuel with
  | O => None
  | S fuel =>
      if str_done c then Some (None, c, mem)
      else
        '(f, c, mem) ← str_body c mem;
        match f with
        | Some f => Some (Some f, c, mem)
        | None =>
            let '(again, c) := str_after c in
            if again then str_loop fuel c mem else Some (None, c, mem)
        end
  end.
End Run.

(** Iterations that always suffice: the masked counter plus the final test. *)
Definition str_fuel (rep : RepKind) (addr_bits rcx : Z) : nat :=
  match rep with RepNone => 1 | _ => S (Z.to_nat (Z.land rcx (addr_mask addr_bits))) end.

Definition string_run_impl {T} `{StrMem T} (c : CpuState) (mem : T) (op : StrOp) (elem : Z) (rep : RepKind)
    (cur_addr addr_bits src_base dst_base : Z) : option (option StrFault * CpuState * T) :=
  str_loop op elem rep cur_addr addr_bits src_base dst_base (str_step c elem)
    (str_fuel rep addr_bits (get_gpr c RCX)) c mem.

Definition string_run {T} `{StrMem T} (c : CpuState) (mem : T) (op : StrOp) (elem : Z) (rep : RepKind)
    (cur_addr addr_bits seg_base : Z) : option (option StrFault * CpuState * T) :=
  string_run_impl c mem op elem rep cur_addr addr_bits seg_base 0.

Definition str_fault_exit (f : StrFault) : Exit :=
  trap_exit (sf_trap f) (sf_addr f) (sf_elem f) (if sf_write f then Write else Read) (sf_value f).

(** ** The IR arms (interp/control.rs) *)

Definition run_str (run : CpuState -> Memory -> option (option StrFault * CpuState * Memory)) : Arm :=
  fun s =>
    match run (m_cpu s) (m_mem s) with
    | Some (f, c, m) =>
        Some (match f with Some f => Some (SExit (str_fault_exit f)) | None => None end,
              mkMach c m (m_temps s))
    | None => None
    end.

Definition exec_rep_string (cur_addr : Z) (op : StrOp) (elem : Z) (rep : RepKind) (addr_bits : Z)
    (seg_base : Val) : Arm :=
  seg ← read_val seg_base;
  run_str (fun c m => string_run c m op elem rep cur_addr addr_bits seg).

Definition exec_rep_string_real (cur_addr : Z) (op : StrOp) (elem : Z) (rep : RepKind)
    (ds_base es_base : Val) : Arm :=
  ds ← read_val ds_base; es ← read_val es_base;
  run_str (fun c m => string_run_impl c m op elem rep cur_addr 16 ds es).

(** ** Laws of an implementor *)

Class StrMemLaws (T : Type) `{StrMem T} : Type := {
  sm_shows : T -> View -> Prop;
  sload_law m g a n : sm_shows m g -> valid_elem n ->
    exists m', sload m a n = Some (g_read g a n, m') /\ sm_shows m' g;
  sstore_law m g a v n : sm_shows m g -> valid_elem n ->
    exists m', sstore m a v n = Some ((g_write g a v n).1, m') /\ sm_shows m' (g_write g a v n).2;
}.

#[global] Instance g_write_proper : Proper (view_eq ==> eq ==> eq ==> eq ==> prod_relation eq view_eq) g_write.
Proof.
  intros g g' H a ? <- v ? <- n ? <-. unfold g_write. rewrite <- (proj1 H a n).
  destruct (v_kind g a n) as [[]|]; split; try done. destruct H as [H1 H2].
  split; cbn [v_put v_store v_kind v_byte fst snd]; intros; [apply H1|]. by rewrite H2.
Qed.

#[global] Program Instance memory_str_laws : StrMemLaws Memory := { sm_shows := shows }.
Next Obligation.
  intros m g a n [Hm Hg] Hn. destruct (read_refines m a n Hm Hn) as (m' & E & Hm' & Hg').
  exists m'. split; [|split; [done|by etransitivity]]. cbn. by rewrite E, Hg.
Qed.
Next Obligation.
  intros m g a v n [Hm Hg] Hn. destruct (write_refines m a v n Hm Hn) as (m' & E & Hm' & Hg').
  destruct (g_write_proper _ _ Hg a a eq_refl v v eq_refl n n eq_refl) as [E1 E2]. exists m'.
  split; [cbn; by rewrite E, E1|split; [done|by etransitivity]].
Qed.

(** What the compiled string helper sees: RAM on the whole span, nothing outside. *)
Definition raw_view (r : RawStrMem) : View :=
  mkView (fun a n => if (rs_guest_base r <=? a) && (a + n <=? rs_size r) then Some Ram else None)
         (fun a => get_byte (rs_bytes r) (a - rs_guest_base r)).

Record raw_wf (r : RawStrMem) : Prop := {
  raw_base : 0 <= rs_guest_base r;
  raw_size : in_width 64 (rs_size r);
  raw_bytes : bytes_wf (rs_bytes r);
}.

Definition raw_shows (r : RawStrMem) (g : View) : Prop := raw_wf r /\ view_eq (raw_view r) g.

Lemma raw_off_spec r a n : raw_wf r -> 0 < n ->
  raw_off r a n = match v_kind (raw_view r) a n with Some _ => Some (a - rs_guest_base r) | None => None end.
Proof.
  intros [H0 [H1 H2] _] Hn. unfold raw_off, checked_add. cbn [raw_view v_kind].
  destruct (Z.ltb_spec (a + n) (2 ^ 64)); cbn [mbind option_bind]; repeat zcase; (done || lia).
Qed.

#[global] Program Instance raw_str_laws : StrMemLaws RawStrMem := { sm_shows := raw_shows }.
Next Obligation.
  intros r g a n [Hr Hg] Hn. pose proof (valid_elem_range n Hn). exists r. split; [|done]. cbn. unfold raw_sload.
  rewrite raw_off_spec by (done || lia). rewrite <- Hg. unfold g_read. cbn [raw_view v_kind].
  destruct (_ && _); [|done]. destruct (Z.ltb_spec 8 n); [lia|]. do 3 f_equal.
  unfold v_le, load_bytes. f_equal. cbn [v_byte raw_view]. clear. generalize (Z.to_nat n) as k. intros k.
  revert a. induction k as [|k IH]; intros a; simpl; [done|]. f_equal. rewrite <- IH.
  by replace (a + 1 - rs_guest_base r) with (a - rs_guest_base r + 1) by lia.
Qed.
Next Obligation.
  intros r g a v n [Hr Hg] Hn. pose proof (valid_elem_range n Hn).
  destruct (g_write_proper _ _ Hg a a eq_refl v v eq_refl n n eq_refl) as [E1 E2]. cbn. unfold raw_sstore.
  rewrite raw_off_spec by (done || lia). rewrite <- E1. unfold g_write in *. cbn [raw_view v_kind] in *.
  destruct (_ && _); cbn [fst snd] in *; [|by exists r].
  destruct (Z.ltb_spec 8 n); [lia|]. eexists. split; [done|]. split.
  - destruct Hr. split; [done|done|]. apply bytes_wf_store; [done|]. apply to_le_bytes_range.
  - etransitivity; [|exact E2]. split; cbn [raw_view v_kind v_byte v_put v_store rs_size rs_guest_base rs_bytes]; intros; [done|].
    rewrite get_store_bytes. replace (a0 - rs_guest_base r - (a - rs_guest_base r)) with (a0 - a) by lia.
    repeat zcase; (done || lia).
Qed.

#[global] Program Instance view_str_laws : StrMemLaws View := { sm_shows := view_eq }.
Next Obligation. intros m g a n Hg Hn. exists m. split; [|done]. cbn. by rewrite (g_read_proper _ _ Hg a a eq_refl n n eq_refl). Qed.
Next Obligation.
  intros m g a v n Hg Hn. destruct (g_write_proper _ _ Hg a a eq_refl v v eq_refl n n eq_refl) as [E1 E2].
  eexists. split; [cbn; by rewrite E1|done].
Qed.

(** ** The loop refines the loop on views *)

Definition view_wf (g : View) : Prop := forall a, in_width 8 (v_byte g a).

Lemma view_wf_write g a v n : view_wf g -> view_wf (g_write g a v n).2.
Proof.
  intros Hg x. unfold g_write. destruct (v_kind g a n) as [[]|]; cbn [snd]; try apply Hg.
  cbn [v_put v_store v_byte]. destruct (_ && _) eqn:E; [|apply Hg].
  apply andb_true_iff in E as [E1%Z.leb_le E2%Z.ltb_lt].
  eapply Forall_forall; [apply (to_le_bytes_range (Z.to_nat n) v)|]. apply nth_In. lia.
Qed.

Lemma view_le_range g a n : view_wf g -> valid_elem n -> in_width 64 (v_le g a n).
Proof.
  intros Hg Hn. pose proof (valid_elem_range n Hn). apply (in_width_mono (8 * n)); [lia|].
  unfold v_le. assert (Hb : Forall (in_width 8) (v_byte g <$> zseq a (Z.to_nat n))).
  { apply Forall_fmap, list.Forall_forall. intros x _. apply Hg. }
  apply from_le_bytes_range in Hb. rewrite length_fmap, length_zseq, Z2Nat.id in Hb by lia. exact Hb.
Qed.

Lemma g_read_range g a n v : view_wf g -> valid_elem n -> g_read g a n = Ok v -> in_width 64 v.
Proof.
  intros Hg Hn. unfold g_read. destruct (v_kind g a n) as [[]|]; intros [= <-]; by apply view_le_range.
Qed.

Lemma addr_mask_ones b : exists w, 0 < w <= 64 /\ addr_mask b = Z.ones w /\ (b =? 32 = true -> w = 32).
Proof.
  unfold addr_mask. destruct (Z.eqb_spec b 16) as [->|]; [exists 16; vm_compute; intuition congruence|].
  destruct (Z.eqb_spec b 32) as [->|]; [exists 32; vm_compute; intuition congruence|].
  exists 64. split; [lia|]. split; [done|]. intros; congruence.
Qed.

Lemma bump_range b d r : in_width 64 r -> in_width 64 (bump b d r).
Proof.
  intros Hr. unfold bump. destruct (addr_mask_ones b) as (w & Hw & -> & _).
  assert (Hlo : forall x, in_width 64 (Z.land x (Z.ones w))).
  { intros x. rewrite Z.land_ones by lia. apply (in_width_mono w); [lia|]. apply wrap_range. lia. }
  destruct (b =? 32); [apply Hlo|]. apply in_width_lor; [lia| |apply Hlo].
  apply in_width_land; [lia|done|]. apply (wrap_range 64). lia.
Qed.

(** Within the address width, [bump] adds [d] modulo [2^w]. *)
Lemma bump_low b d r w : 0 <= w <= 64 -> addr_mask b = Z.ones w ->
  Z.land (bump b d r) (Z.ones w) = wrap w (wrap w r + d).
Proof.
  intros Hw Em. unfold bump, wrapping_add, unot. rewrite Em, (Z.land_ones r) by lia. fold (wrap w r).
  rewrite (Z.land_ones (wrap 64 _)) by lia. fold (wrap w (wrap 64 (wrap w r + d))). rewrite wrap_wrap_le by lia.
  destruct (b =? 32); rewrite Z.land_ones by lia.
  - apply wrap_wrap. lia.
  - apply Z.bits_inj'. intros i Hi. fold (wrap w (Z.lor (Z.land r (wrap 64 (Z.lnot (Z.ones w)))) (wrap w (wrap w r + d)))).
    rewrite !wrap_testbit, Z.lor_spec, Z.land_spec, !wrap_testbit, Z.lnot_spec by lia.
    destruct (Z.ltb_spec i w); [|done]. rewrite Z.ones_spec_low by lia. cbn [negb andb]. by rewrite !andb_false_r.
Qed.

(** Outcomes related: the same fault and CPU, and a memory that shows the view. *)
Definition ref_out {T} `{StrMemLaws T} (o : option (option StrFault * CpuState * T))
    (o' : option (option StrFault * CpuState * View)) : Prop :=
  match o, o' with
  | Some (f, c, m), Some (f', c', g) => f = f' /\ c = c' /\ sm_shows m g
  | None, None => True
  | _, _ => False
  end.

Section Refine.
Context {T : Type} `{StrMemLaws T}.
Context (op : StrOp) (elem : Z) (rep : RepKind) (ca ab sb db step : Z).
Hypothesis Helem : valid_elem elem.

Ltac mem_step :=
  match goal with
  | Hs : sm_shows ?m ?g |- context [sload ?m ?a ?n] =>
      let m' := fresh "m'" in let E := fresh "E" in let Hs' := fresh "Hs'" in
      destruct (sload_law m g a n Hs Helem) as (m' & E & Hs'); rewrite E; clear E;
      change (sload g a n) with (Some (g_read g a n, g))
  | Hs : sm_shows ?m ?g |- context [sstore ?m ?a ?v ?n] =>
      let m' := fresh "m'" in let E := fresh "E" in let Hs' := fresh "Hs'" in
      destruct (sstore_law m g a v n Hs Helem) as (m' & E & Hs'); rewrite E; clear E;
      change (sstore g a v n) with (Some ((g_write g a v n).1, (g_write g a v n).2))
  end; cbn [mbind option_bind].

Lemma str_body_refines c m g : sm_shows m g ->
  ref_out (str_body op elem ca ab sb db step c m) (str_body op elem ca ab sb db step c g).
Proof.
  intros Hs. unfold str_body. destruct op; mem_step.
  - destruct (g_read g _ _); [|by cbn]. mem_step. by destruct (g_write g _ _ _).1.
  - by destruct (g_write g _ _ _).1.
  - destruct (g_read g _ _); [|by cbn]. by cbn.
  - destruct (g_read g _ _); [|by cbn]. mem_step. by destruct (g_read g _ _).
  - destruct (g_read g _ _); [|by cbn]. destruct (write_gpr _ _ _ _); by cbn.
Qed.

Lemma str_loop_refines k c m g : sm_shows m g ->
  ref_out (str_loop op elem rep ca ab sb db step k c m) (str_loop op elem rep ca ab sb db step k c g).
Proof.
  revert c m g. induction k as [|k IH]; intros c m g Hs; cbn [str_loop]; [done|].
  destruct (str_done rep ab c); [done|]. pose proof (str_body_refines c m g Hs) as Hb.
  destruct (str_body _ _ _ _ _ _ _ c m) as [[[f c1] m1]|], (str_body _ _ _ _ _ _ _ c g) as [[[f' c2] g1]|];
    cbn [ref_out] in Hb; try done. destruct Hb as (<- & <- & Hs1). cbn [mbind option_bind].
  destruct f; [done|]. destruct (str_after rep ab c1) as [[] c2]; [by apply IH|done].
Qed.
End Refine.

(** ** Totality *)

Section Total.
Context (op : StrOp) (elem : Z) (rep : RepKind) (ca ab sb db step : Z).
Hypothesis Helem : valid_elem elem.
Hypothesis Hca : in_width 64 ca.

Definition out_wf (o : option (option StrFault * CpuState * View)) : Prop :=
  exists f c g, o = Some (f, c, g) /\ cpu_wf c /\ view_wf g.

Lemma bump_gpr_wf d i c : cpu_wf c -> cpu_wf (bump_gpr ab d i c).
Proof. intros Hc. unfold bump_gpr. apply gprs_insert_wf; [done|]. by apply bump_range, get_gpr_range. Qed.

Lemma str_trap_wf c a w t v e g : cpu_wf c -> view_wf g -> out_wf (Some (str_trap c ca a w t v e, g)).
Proof. intros. eexists _, _, _. split; [done|]. auto with safe. Qed.

Lemma str_ok_wf c g : cpu_wf c -> view_wf g -> out_wf (Some (None, c, g)).
Proof. intros. by eexists _, _, _. Qed.

Lemma str_body_wf c g : cpu_wf c -> view_wf g -> out_wf (str_body op elem ca ab sb db step c g).
Proof.
  intros Hc Hg. unfold str_body, sload, sstore, view_str.
  pose proof (fun a v => view_wf_write g a v elem Hg) as Hw.
  destruct op; cbn [mbind option_bind].
  - destruct (g_read g _ _); [|by apply str_trap_wf].
    destruct (g_write g _ _ _).1; [apply str_ok_wf; [by do 2 apply bump_gpr_wf|done]|by apply str_trap_wf].
  - destruct (g_write g _ _ _).1; [apply str_ok_wf; [by apply bump_gpr_wf|done]|by apply str_trap_wf].
  - destruct (g_read g _ _); [|by apply str_trap_wf].
    apply str_ok_wf; [|done]. apply bump_gpr_wf. auto with safe.
  - destruct (g_read g _ _); [|by apply str_trap_wf]. destruct (g_read g _ _); [|by apply str_trap_wf].
    apply str_ok_wf; [|done]. do 2 apply bump_gpr_wf. auto with safe.
  - destruct (g_read g _ _) as [v|t] eqn:E; [|by apply str_trap_wf]. apply g_read_range in E; [|done..].
    destruct (write_gpr_ok c RAX v elem Hc Helem E) as (c' & -> & Hc'). cbn [mbind option_bind].
    apply str_ok_wf; [by apply bump_gpr_wf|done].
Qed.

(** The counter in the address width. *)
Definition counter (c : CpuState) : Z := Z.land (get_gpr c RCX) (addr_mask ab).

Lemma counter_range c : 0 <= counter c.
Proof. unfold counter. destruct (addr_mask_ones ab) as (w & Hw & -> & _). rewrite Z.land_ones by lia. apply wrap_range. lia. Qed.

Lemma get_bump d i j c : cpu_wf c -> (i < 16)%nat ->
  get_gpr (bump_gpr ab d i c) j = if decide (i = j) then bump ab d (get_gpr c i) else get_gpr c j.
Proof. intros Hc Hi. unfold bump_gpr. by rewrite get_put_gpr by (apply Hc || done). Qed.

Lemma counter_dec c : cpu_wf c -> counter c <> 0 ->
  counter (bump_gpr ab (wrapping_neg 64 1) RCX c) = counter c - 1.
Proof.
  intros Hc Hn. pose proof (counter_range c) as H0. unfold counter in *.
  rewrite get_bump by (done || (cbv; lia)). cbn [decide]. destruct (decide (RCX = RCX)); [|done].
  destruct (addr_mask_ones ab) as (w & Hw & Em & _). rewrite Em, bump_low by (done || lia).
  rewrite Em, Z.land_ones in Hn, H0 by lia. fold (wrap w (get_gpr c RCX)) in Hn, H0.
  rewrite Z.land_ones by lia. fold (wrap w (get_gpr c RCX)).
  replace (wrapping_neg 64 1) with (2 ^ 64 - 1) by done.
  replace (2 ^ 64) with (2 ^ (64 - w) * 2 ^ w) by (rewrite <- Z.pow_add_r by lia; f_equal; lia).
  replace (wrap w (get_gpr c RCX) + (2 ^ (64 - w) * 2 ^ w - 1)) with (wrap w (get_gpr c RCX) - 1 + 2 ^ (64 - w) * 2 ^ w) by lia.
  unfold wrap at 1. rewrite Z.mod_add by (pose proof (pow2_pos w); lia). apply wrap_small.
  pose proof (wrap_range w (get_gpr c RCX) ltac:(lia)) as [? ?]. unfold in_width. lia.
Qed.
Lemma write_gpr_other c i j v n c' : cpu_wf c -> (i < 16)%nat -> i <> j ->
  write_gpr c i v n = Some c' -> get_gpr c' j = get_gpr c j.
Proof.
  intros Hc Hi Hj. unfold write_gpr. repeat (destruct (_ =? _); [intros [= <-]; rewrite get_put_gpr by (apply Hc || done); by case_decide|]).
  done.
Qed.

(** A completed element leaves RCX alone. *)
Lemma str_body_counter c g c' g' : cpu_wf c -> view_wf g ->
  str_body op elem ca ab sb db step c g = Some (None, c', g') -> get_gpr c' RCX = get_gpr c RCX.
Proof.
  intros Hc Hg. unfold str_body, sload, sstore, view_str, str_trap.
  assert (H16 : (RSI < 16 /\ RDI < 16 /\ RAX < 16)%nat) by (cbv; lia). destruct H16 as (? & ? & ?).
  assert (Hf : forall r, cpu_wf (set_flags c (apply_flags (flags c) FM_ALL r))) by (intros; auto with safe).
  destruct op; cbn [mbind option_bind];
    repeat match goal with
    | |- context [g_read g ?a ?n] => let v := fresh "v" in destruct (g_read g a n) as [v|?] eqn:?; try done
    | |- context [(g_write g ?a ?v ?n).1] => destruct (g_write g a v n).1; try done
    end;
    try (intros [= <- <-]; rewrite ?get_bump by (auto using bump_gpr_wf); by repeat case_decide).
  destruct (write_gpr c RAX _ elem) as [c1|] eqn:E; [|done]. cbn [mbind option_bind]. intros [= <- <-].
  destruct (write_gpr_ok c RAX v elem Hc Helem ltac:(by eapply g_read_range)) as (c2 & E2 & Hc2).
  rewrite E in E2. injection E2 as <-. rewrite get_bump by done. case_decide; [done|].
  by apply (write_gpr_other c RAX RCX v elem).
Qed.

Lemma str_after_wf c : cpu_wf c -> cpu_wf (str_after rep ab c).2.
Proof. intros. unfold str_after. destruct rep; cbn [snd]; auto using bump_gpr_wf. Qed.

Lemma str_after_counter c : cpu_wf c -> (str_after rep ab c).1 = true -> counter c <> 0 ->
  rep <> RepNone /\ counter (str_after rep ab c).2 = counter c - 1.
Proof.
  intros Hc. unfold str_after. destruct rep; cbn [fst snd]; intros H0 H1; try done;
    (split; [done|by apply counter_dec]).
Qed.

(** Enough fuel gives a result. *)
Lemma str_loop_total k c g : cpu_wf c -> view_wf g -> (str_fuel rep ab (get_gpr c RCX) <= k)%nat ->
  out_wf (str_loop op elem rep ca ab sb db step k c g).
Proof.
  revert c g. induction k as [|k IH]; intros c g Hc Hg Hk; [destruct rep; cbn in Hk; lia|].
  cbn [str_loop]. destruct (str_done rep ab c) eqn:Ed; [by apply str_ok_wf|].
  destruct (str_body_wf c g Hc Hg) as (f & c1 & g1 & E & Hc1 & Hg1). pose proof E as Eb. rewrite E. cbn [mbind option_bind].
  destruct f; [by eexists _, _, _|].
  destruct (str_after rep ab c1) as [again c2] eqn:Ea.
  assert (Hc2 : cpu_wf c2) by (pose proof (str_after_wf c1 Hc1) as H; by rewrite Ea in H).
  destruct again; [|by apply str_ok_wf].
  assert (Ecx : counter c1 = counter c) by (unfold counter; by rewrite (str_body_counter c g c1 g1)).
  assert (Hn0 : rep <> RepNone -> counter c <> 0).
  { intros Hr. unfold str_done in Ed. destruct rep; try done; by apply Z.eqb_neq in Ed. }
  assert (Hr : rep <> RepNone) by (intros Hr; unfold str_after in Ea; rewrite Hr in Ea; done).
  pose proof (str_after_counter c1 Hc1) as Hdec. rewrite Ea in Hdec. cbn [fst snd] in Hdec.
  destruct (Hdec eq_refl) as [_ Hd]; [rewrite Ecx; auto|].
  assert (Hfuel : forall x, str_fuel rep ab (get_gpr x RCX) = S (Z.to_nat (counter x)))
    by (intros; unfold str_fuel, counter; by destruct rep).
  rewrite Hfuel in Hk. pose proof (counter_range c). specialize (Hn0 Hr).
  apply (IH c2 g1 Hc2 Hg1). rewrite Hfuel, Hd, Ecx. lia.
Qed.
End Total.

(** More fuel does not change a result. *)
Lemma str_loop_mono {T} `{StrMem T} op elem rep ca ab sb db step k k' c (m : T) r :
  str_loop op elem rep ca ab sb db step k c m = Some r -> (k <= k')%nat ->
  str_loop op elem rep ca ab sb db step k' c m = Some r.
Proof.
  revert k' c m. induction k as [|k IH]; intros [|k'] c m E Hk; try (done || lia). cbn [str_loop] in *.
  destruct (str_done rep ab c); [done|]. destruct (str_body _ _ _ _ _ _ _ c m) as [[[f c1] m1]|]; [|done].
  cbn [mbind option_bind] in *. destruct f; [done|]. destruct (str_after rep ab c1) as [[] c2]; [|done].
  apply IH; [done|lia].
Qed.

(** The whole run, over any implementor: it returns, independently of the fuel, and
    agrees with the run on the view. *)
Lemma string_run_refines {T} `{StrMemLaws T} c (m : T) g op elem rep ca ab sb db :
  valid_elem elem -> in_width 64 ca -> cpu_wf c -> view_wf g -> sm_shows m g ->
  exists f c' m' g', string_run_impl c g op elem rep ca ab sb db = Some (f, c', g') /\
    string_run_impl c m op elem rep ca ab sb db = Some (f, c', m') /\
    (forall k, (str_fuel rep ab (get_gpr c RCX) <= k)%nat ->
       str_loop op elem rep ca ab sb db (str_step c elem) k c m = Some (f, c', m')) /\
    cpu_wf c' /\ view_wf g' /\ sm_shows m' g'.
Proof.
  intros He Hca Hc Hg Hs. unfold string_run_impl. set (st := str_step c elem). set (k0 := str_fuel rep ab (get_gpr c RCX)).
  destruct (str_loop_total op elem rep ca ab sb db st He Hca k0 c g Hc Hg ltac:(done)) as (f & c' & g' & E & Hc' & Hg').
  pose proof (str_loop_refines op elem rep ca ab sb db st He k0 c m g Hs) as Hr. rewrite E in Hr.
  destruct (str_loop _ _ _ _ _ _ _ _ k0 c m) as [[[f1 c1] m1]|] eqn:Em; [|done]. destruct Hr as (-> & -> & Hm).
  exists f, c', m1, g'. split; [done|]. split; [done|]. split; [|done]. intros k Hk.
  by eapply str_loop_mono.
Qed.

(** ** Restart after a fault *)

(** [h] has the bytes of [g] and maps at least what [g] maps. *)
Definition sub_view (g h : View) : Prop :=
  (forall a, v_byte g a = v_byte h a) /\ (forall a n, v_kind g a n = v_kind h a n \/ v_kind g a n = None).

Lemma sub_view_le g h a n : sub_view g h -> v_le g a n = v_le h a n.
Proof. intros [H _]. unfold v_le. f_equal. apply list_fmap_ext. intros. apply H. Qed.

Lemma sub_view_read g h a n : sub_view g h -> g_read g a n = g_read h a n \/ g_read g a n = Err Unmapped.
Proof.
  intros Hs. unfold g_read. rewrite (sub_view_le g h) by done.
  destruct (proj2 Hs a n) as [->| ->]; auto.
Qed.

Lemma sub_view_write g h a v n : sub_view g h ->
  ((g_write g a v n).1 = (g_write h a v n).1 /\ sub_view (g_write g a v n).2 (g_write h a v n).2) \/
  g_write g a v n = (Err Unmapped, g).
Proof.
  intros Hs. unfold g_write. destruct (proj2 Hs a n) as [->| ->]; [|auto]. left.
  destruct (v_kind h a n) as [[]|]; try done. split; [done|]. destruct Hs as [Hb Hk].
  split; cbn [snd v_put v_store v_byte v_kind]; [|apply Hk]. intros x. by rewrite Hb.
Qed.

Lemma g_write_err g a v n t : (g_write g a v n).1 = Err t -> (g_write g a v n).2 = g.
Proof. unfold g_write. by destruct (v_kind g a n) as [[]|]. Qed.

Section Restart.
Context (op : StrOp) (elem : Z) (rep : RepKind) (ca ab sb db step : Z).
Notation body := (str_body op elem ca ab sb db step).
Notation loop := (str_loop op elem rep ca ab sb db step).

(** A fault leaves the element untouched: the memory is as before and the CPU differs
    only in RIP. *)
Lemma str_body_fault c g f c' (g' : View) : body c g = Some (Some f, c', g') -> c' = set_rip c ca /\ g' = g.
Proof.
  unfold str_body, sload, sstore, view_str, str_trap. destruct op; cbn [mbind option_bind];
    repeat match goal with
    | |- context [g_read g ?a ?n] => destruct (g_read g a n) eqn:?; try done
    | |- context [(g_write g ?a ?v ?n).1] => destruct (g_write g a v n).1 eqn:?; try done
    | H : (g_write g ?a ?v ?n).1 = Err _ |- _ => apply g_write_err in H; rewrite H
    | |- context [write_gpr ?c ?i ?v ?n] => destruct (write_gpr c i v n); try done
    end; cbn [mbind option_bind]; intros [= <- <- <-]; done.
Qed.

(** On a larger mapping the element does the same, or the fault was an unmapped page. *)
Lemma str_body_sub c g h : sub_view g h ->
  match body c g with
  | Some (None, c', g') => exists h', body c h = Some (None, c', h') /\ sub_view g' h'
  | Some (Some f, c', _) => sf_trap f = Unmapped \/ body c h = Some (Some f, c', h)
  | None => body c h = None
  end.
Proof.
  intros Hs. unfold str_body, sload, sstore, view_str, str_trap. destruct op; cbn [mbind option_bind];
    repeat match goal with
    | |- context [g_read g ?a ?n] =>
        destruct (sub_view_read g h a n Hs) as [->| ->]; [destruct (g_read h a n) eqn:?|by left]; cbn [mbind option_bind]
    | |- context [(g_write g ?a ?v ?n).1] =>
        let H1 := fresh in let H2 := fresh in
        destruct (sub_view_write g h a v n Hs) as [[H1 H2]|H1]; rewrite H1;
          [destruct (g_write h a v n).1 eqn:?|by left]
    | H : (g_write h ?a ?v ?n).1 = Err _ |- _ => apply g_write_err in H; rewrite H
    | |- context [write_gpr ?c ?i ?v ?n] => destruct (write_gpr c i v n); cbn [mbind option_bind]
    end; try done; try (by right); by eexists.
Qed.

Lemma g_write_kind g a v n x y : v_kind (g_write g a v n).2 x y = v_kind g x y.
Proof. unfold g_write. by destruct (v_kind g a n) as [[]|]. Qed.

(** The mapping never changes. *)
Lemma str_body_kind c (g : View) c' g' a n : body c g = Some (None, c', g') -> v_kind g' a n = v_kind g a n.
Proof.
  unfold str_body, sload, sstore, view_str, str_trap. destruct op; cbn [mbind option_bind];
    repeat match goal with
    | |- context [g_read g ?a ?n] => destruct (g_read g a n); try done
    | |- context [(g_write g ?a ?v ?n).1] => destruct (g_write g a v n).1; try done
    | |- context [write_gpr ?c ?i ?v ?n] => destruct (write_gpr c i v n); try done
    end; cbn [mbind option_bind]; intros [= <- <-]; done || apply g_write_kind.
Qed.

(** Nothing in the loop reads RIP. *)
Definition with_rip {T} (o : option (option StrFault * CpuState * T)) : option (option StrFault * CpuState * T) :=
  match o with Some (f, c, m) => Some (f, set_rip c ca, m) | None => None end.

Lemma str_body_rip c (g : View) : body (set_rip c ca) g = with_rip (body c g).
Proof.
  unfold str_body, sload, sstore, view_str, str_trap. destruct op; cbn [mbind option_bind];
    change (get_gpr (set_rip c ca)) with (get_gpr c);
    repeat match goal with
    | |- context [g_read g ?a ?n] => let v := fresh "v" in destruct (g_read g a n) as [v|?]
    | |- context [(g_write g ?a ?v ?n).1] => destruct (g_write g a v n).1
    end; try done.
  assert (E : write_gpr (set_rip c ca) RAX v elem = (fun c => set_rip c ca) <$> write_gpr c RAX v elem)
    by (unfold write_gpr; repeat (destruct (_ =? _); [done|]); done).
  rewrite E. by destruct (write_gpr c RAX v elem).
Qed.

Lemma str_after_rip c : str_after rep ab (set_rip c ca) = ((str_after rep ab c).1, set_rip (str_after rep ab c).2 ca).
Proof. unfold str_after. by destruct rep. Qed.

Lemma str_loop_rip k c (g : View) : loop k (set_rip c ca) g = with_rip (loop k c g).
Proof.
  revert c g. induction k as [|k IH]; intros c g; [done|]. cbn [str_loop].
  change (str_done rep ab (set_rip c ca)) with (str_done rep ab c). destruct (str_done rep ab c); [done|].
  rewrite str_body_rip. destruct (body c g) as [[[f c1] g1]|]; [|done]. cbn [with_rip mbind option_bind].
  destruct f; [done|]. rewrite str_after_rip. destruct (str_after rep ab c1) as [[] c2]; cbn [fst snd]; [apply IH|done].
Qed.

(** The flags an element writes never include DF. *)
Lemma str_body_df c (g : View) c' g' : body c g = Some (None, c', g') -> df (flags c') = df (flags c).
Proof.
  unfold str_body, sload, sstore, view_str, str_trap.
  assert (Hd : forall r, df (apply_flags (flags c) FM_ALL r) = df (flags c)).
  { intros r. pose proof (apply_all (flags c) r) as (_ & _ & _ & _ & -> & _)%flags_eq_iff. done. }
  destruct op; cbn [mbind option_bind];
    repeat match goal with
    | |- context [g_read g ?a ?n] => let v := fresh "v" in destruct (g_read g a n) as [v|?]; try done
    | |- context [(g_write g ?a ?v ?n).1] => destruct (g_write g a v n).1; try done
    end; try (intros [= <- <-]; first [done|apply Hd]).
  destruct (write_gpr c RAX v elem) as [c1|] eqn:E; [|done]. cbn [mbind option_bind]. intros [= <- <-].
  revert E. unfold write_gpr. repeat (destruct (_ =? _); [by intros [= <-]|]). done.
Qed.

Lemma str_after_df c : df (flags (str_after rep ab c).2) = df (flags c).
Proof. unfold str_after. by destruct rep. Qed.

(** A faulting run stopped between two elements of the run on the larger mapping. *)
Lemma str_loop_fault k c g h f c1 g1 : sub_view g h ->
  loop k c g = Some (Some f, c1, g1) -> sf_trap f = Unmapped ->
  exists k' c' h', (k' <= k)%nat /\ loop k c h = loop k' c' h' /\ c1 = set_rip c' ca /\ sub_view g1 h' /\
    df (flags c') = df (flags c) /\ (forall a n, v_kind h' a n = v_kind h a n).
Proof.
  revert c g h. induction k as [|k IH]; intros c g h Hs E Ht; [done|]. cbn [str_loop] in E.
  destruct (str_done rep ab c) eqn:Ed; [done|].
  pose proof (str_body_sub c g h Hs) as Hb. destruct (body c g) as [[[f1 c2] g2]|] eqn:Eb; [|done].
  cbn [mbind option_bind] in E. destruct f1 as [f1|].
  - injection E as -> -> ->. apply str_body_fault in Eb as [-> ->]. exists (S k), c, h. done.
  - destruct Hb as (h2 & Eh & Hs2). destruct (str_after rep ab c2) as [[] c3] eqn:Ea; [|done].
    destruct (IH c3 g2 h2 Hs2 E Ht) as (k' & c' & h' & Hk & El & Hc & Hs' & Hd & Hv). exists k', c', h'.
    pose proof (str_after_df c2) as Hd2. rewrite Ea in Hd2. apply str_body_df in Eb.
    split; [lia|]. split; [cbn [str_loop]; rewrite Ed, Eh; cbn [mbind option_bind]; rewrite Ea; exact El|].
    split; [done|]. split; [done|]. split; [cbn [snd] in Hd2; congruence|]. intros a n. rewrite Hv.
    exact (str_body_kind c h c2 h2 a n Eh).
Qed.
End Restart.

(** ** What repeated [stos] and [scas] compute, at the full address width *)

Lemma bump_64 d r : in_width 64 r -> bump 64 d r = wrap 64 (r + d).
Proof.
  intros Hr. unfold bump, wrapping_add. cbn [Z.eqb Pos.eqb]. change (addr_mask 64) with (Z.ones 64).
  change (unot 64 (Z.ones 64)) with 0. rewrite Z.land_0_r, Z.lor_0_l, !Z.land_ones by lia.
  fold (wrap 64 r). fold (wrap 64 (wrap 64 (wrap 64 r + d))). rewrite (wrap_small 64 r Hr), wrap_wrap by lia. done.
Qed.

Lemma dst_lin_64 r : in_width 64 r -> dst_lin 64 0 r = r.
Proof.
  intros Hr. unfold dst_lin, wrapping_add. change (addr_mask 64) with (Z.ones 64).
  rewrite Z.land_ones by lia. fold (wrap 64 r). by rewrite (wrap_small 64 r Hr), Z.add_0_l, wrap_small.
Qed.

(** The signed stride of the direction flag. *)
Definition stride (backward : bool) (elem : Z) : Z := if backward then - elem else elem.

Lemma str_step_stride c elem : valid_elem elem -> str_step c elem = wrap 64 (stride (df (flags c)) elem).
Proof.
  intros He. pose proof (valid_elem_range elem He). unfold str_step, stride. destruct (df _); [done|].
  symmetry. apply wrap_small. unfold in_width. lia.
Qed.

(** [x] lies in the [n] elements starting at [a] in the given direction. *)
Definition in_run (backward : bool) (elem a n x : Z) : bool :=
  if backward then (a - (n - 1) * elem <=? x) && (x <? a + elem)
  else (a <=? x) && (x <? a + n * elem).

Definition fill_byte (v elem a x : Z) : Z :=
  nth (Z.to_nat ((x - a) mod elem)) (to_le_bytes (Z.to_nat elem) v) 0.

Lemma fill_step bk elem v g a n x : 0 < elem -> 0 <= n ->
  (if in_run bk elem (a + stride bk elem) n x then fill_byte v elem (a + stride bk elem) x
   else v_byte (v_put g a v elem) x) =
  (if in_run bk elem a (n + 1) x then fill_byte v elem a x else v_byte g x).
Proof.
  intros He Hn. unfold fill_byte.
  replace ((x - (a + stride bk elem)) mod elem) with ((x - a) mod elem)
    by (unfold stride; destruct bk; [rewrite <- (Z.mod_add (x - a) 1 elem) by lia|rewrite <- (Z.mod_add (x - a) (-1) elem) by lia]; f_equal; lia).
  cbn [v_put v_store v_byte]. rewrite length_to_le_bytes, Z2Nat.id by lia.
  assert (Hnow : a <= x < a + elem -> (x - a) mod elem = x - a) by (intros; apply Z.mod_small; lia).
  unfold in_run, stride. destruct bk; repeat zcase; try done; try nia; by rewrite Hnow by lia.
Qed.

(** Elements [0..n) at [a], going in the direction, stay inside the address space. *)
Definition run_fits (bk : bool) (elem a n : Z) : Prop :=
  forall i, 0 <= i < n -> 0 <= a + stride bk elem * i /\ a + stride bk elem * i + elem <= 2 ^ 64.

Lemma run_fits_step bk elem a n : 0 < elem -> 0 <= n -> run_fits bk elem a (n + 1) ->
  run_fits bk elem (wrap 64 (a + stride bk elem)) n /\
  (0 < n -> wrap 64 (a + stride bk elem) = a + stride bk elem).
Proof.
  intros He Hn H.
  assert (E : 0 < n -> wrap 64 (a + stride bk elem) = a + stride bk elem).
  { intros Hp. apply wrap_small. specialize (H 1 ltac:(lia)). unfold in_width. lia. }
  split; [|done]. intros i Hi. rewrite E by lia. specialize (H (i + 1) ltac:(lia)). lia.
Qed.

(** Two CPUs that differ in the listed registers and flags only. *)
Definition same_gprs_but (l : list nat) (c c' : CpuState) : Prop :=
  forall j, j ∉ l -> get_gpr c' j = get_gpr c j.

Lemma str_after_rep c : cpu_wf c -> 0 < get_gpr c RCX ->
  let c' := bump_gpr 64 (wrapping_neg 64 1) RCX c in
  cpu_wf c' /\ get_gpr c' RCX = get_gpr c RCX - 1 /\ same_gprs_but [RCX] c c' /\ flags c' = flags c.
Proof.
  intros Hc Hp c'. split; [by apply bump_gpr_wf|]. unfold c'. split.
  - rewrite get_bump by (done || (cbv; lia)). destruct (decide (RCX = RCX)); [|done].
    pose proof (get_gpr_range c RCX Hc) as Hr. rewrite bump_64 by done.
    replace (wrapping_neg 64 1) with (-1 + 1 * 2 ^ 64) by done. unfold wrap.
    rewrite Z.add_assoc, Z.mod_add by lia. apply Z.mod_small. unfold in_width in Hr. lia.
  - split; [|done]. intros j Hj. rewrite get_bump by (done || (cbv; lia)). case_decide; [set_solver|done].
Qed.

Lemma bump_rdi c s : cpu_wf c ->
  let c' := bump_gpr 64 (wrap 64 s) RDI c in
  cpu_wf c' /\ get_gpr c' RDI = wrap 64 (get_gpr c RDI + s) /\ same_gprs_but [RDI] c c' /\ flags c' = flags c.
Proof.
  intros Hc c'. split; [by apply bump_gpr_wf|]. unfold c'. split.
  - rewrite get_bump by (done || (cbv; lia)). destruct (decide (RDI = RDI)); [|done].
    rewrite bump_64 by (by apply get_gpr_range). apply wrap_add_r. lia.
  - split; [|done]. intros j Hj. rewrite get_bump by (done || (cbv; lia)). case_decide; [set_solver|done].
Qed.

Section Repeat64.
Context (elem ca : Z) (bk : bool).
Hypothesis Helem : valid_elem elem.
Notation st := (wrap 64 (stride bk elem)).

Lemma in_run_empty a x : in_run bk elem a 0 x = false.
Proof. unfold in_run. destruct bk; repeat zcase; (done || lia). Qed.

Lemma fill_step_wrap v g a n x : 0 <= n -> run_fits bk elem a (n + 1) ->
  (if in_run bk elem (wrap 64 (a + stride bk elem)) n x then fill_byte v elem (wrap 64 (a + stride bk elem)) x
   else v_byte (v_put g a v elem) x) =
  (if in_run bk elem a (n + 1) x then fill_byte v elem a x else v_byte g x).
Proof.
  intros Hn Hf. pose proof (valid_elem_range elem Helem).
  destruct (run_fits_step bk elem a n ltac:(lia) Hn Hf) as [_ E]. rewrite <- fill_step by lia.
  destruct (Z.eqb_spec n 0) as [->|]; [by rewrite !in_run_empty|by rewrite E by lia].
Qed.

(** The outcome of [n] stores of the low bytes of RAX. *)
Definition stos_post (n : Z) (c : CpuState) (g : View) (c' : CpuState) (g' : View) : Prop :=
  get_gpr c' RCX = 0 /\ get_gpr c' RDI = wrap 64 (get_gpr c RDI + stride bk elem * n) /\
  same_gprs_but [RCX; RDI] c c' /\ flags c' = flags c /\ (forall a k, v_kind g' a k = v_kind g a k) /\
  forall x, v_byte g' x = if in_run bk elem (get_gpr c RDI) n x
                          then fill_byte (get_gpr c RAX) elem (get_gpr c RDI) x else v_byte g x.

Lemma stos_body c g : cpu_wf c -> v_kind g (get_gpr c RDI) elem = Some Ram ->
  str_body Stos elem ca 64 0 0 st c g =
    Some (None, bump_gpr 64 st RDI c, v_put g (get_gpr c RDI) (get_gpr c RAX) elem).
Proof.
  intros Hc Hk. cbn [str_body sstore view_str]. rewrite dst_lin_64 by (by apply get_gpr_range).
  unfold g_write. rewrite Hk. cbn [fst snd mbind option_bind]. rewrite land_mask by done.
  do 2 f_equal. unfold v_put. pose proof (valid_elem_range elem Helem).
  replace (8 * elem) with (8 * Z.of_nat (Z.to_nat elem)) by lia. by rewrite to_le_bytes_wrap.
Qed.

Lemma stos_loop (n : nat) c g : cpu_wf c -> get_gpr c RCX = Z.of_nat n ->
  run_fits bk elem (get_gpr c RDI) (Z.of_nat n) ->
  (forall i, 0 <= i < Z.of_nat n -> v_kind g (get_gpr c RDI + stride bk elem * i) elem = Some Ram) ->
  exists c' g', str_loop Stos elem Rep ca 64 0 0 st (S n) c g = Some (None, c', g') /\
    stos_post (Z.of_nat n) c g c' g'.
Proof.
  revert c g. induction n as [|n IH]; intros c g Hc Hn Hf Hk; cbn [str_loop].
  - unfold str_done. change (addr_mask 64) with (Z.ones 64). rewrite Hn. cbn [Z.land Z.eqb Z.of_nat].
    exists c, g. split; [done|]. split; [done|]. split; [rewrite Z.mul_0_r, Z.add_0_r; symmetry; by apply wrap_small, get_gpr_range|].
    split; [by intros j _|]. split; [done|]. split; [done|]. intros x. by rewrite in_run_empty.
  - pose proof (get_gpr_range c RCX Hc) as Hcx. pose proof (valid_elem_range elem Helem).
    unfold str_done. change (addr_mask 64) with (Z.ones 64). rewrite Z.land_ones by lia.
    fold (wrap 64 (get_gpr c RCX)). rewrite (wrap_small 64 _ Hcx). destruct (Z.eqb_spec (get_gpr c RCX) 0); [lia|].
    rewrite stos_body; [|done|by specialize (Hk 0 ltac:(lia)); rewrite Z.mul_0_r, Z.add_0_r in Hk].
    cbn [mbind option_bind str_after]. destruct (bump_rdi c (stride bk elem) Hc) as (Hc1 & E1 & G1 & F1).
    set (c1 := bump_gpr 64 st RDI c) in *. assert (E1c : get_gpr c1 RCX = get_gpr c RCX) by (apply G1; set_solver).
    destruct (str_after_rep c1 Hc1 ltac:(lia)) as (Hc2 & E2 & G2 & F2).
    set (c2 := bump_gpr 64 (wrapping_neg 64 1) RCX c1) in *.
    assert (E2d : get_gpr c2 RDI = wrap 64 (get_gpr c RDI + stride bk elem)) by (rewrite (G2 RDI) by set_solver; done).
    assert (E2a : get_gpr c2 RAX = get_gpr c RAX) by (rewrite (G2 RAX), (G1 RAX) by set_solver; done).
    replace (Z.of_nat (S n)) with (Z.of_nat n + 1) in * by lia.
    destruct (run_fits_step bk elem (get_gpr c RDI) (Z.of_nat n) ltac:(lia) ltac:(lia) Hf) as [Hf' Hw].
    destruct (IH c2 (v_put g (get_gpr c RDI) (get_gpr c RAX) elem)) as (c' & g' & El & P1 & P2 & P3 & P4 & P5 & P6);
      [done|lia|by rewrite E2d| |].
    { intros i Hi. rewrite E2d, Hw by lia. specialize (Hk (i + 1) ltac:(lia)).
      cbn [v_put v_store v_kind]. by replace (get_gpr c RDI + stride bk elem + stride bk elem * i)
        with (get_gpr c RDI + stride bk elem * (i + 1)) by lia. }
    exists c', g'. split; [exact El|]. split; [done|]. split; [|split; [|split; [congruence|split; [exact P5|]]]].
    + rewrite P2, E2d, wrap_add_l by lia. f_equal. lia.
    + intros j Hj. rewrite (P3 j), (G2 j), (G1 j) by set_solver. done.
    + intros x. rewrite P6, E2d, E2a. by apply fill_step_wrap; [lia|].
Qed.

(** Element [i] of the scanned run, and whether it stops the scan. *)
Definition scan_elem (g : View) (a i : Z) : Z := v_le g (a + stride bk elem * i) elem.
Definition scan_stops (stop : bool) (g : View) (a al i : Z) : bool := Bool.eqb (scan_elem g a i =? al) stop.

(** The outcome of scanning [n] elements for the first that stops. *)
Definition scan_post (stop : bool) (n : Z) (c : CpuState) (g : View) (c' : CpuState) : Prop :=
  let a := get_gpr c RDI in let al := wrap (8 * elem) (get_gpr c RAX) in
  exists k, 0 <= k <= n /\ get_gpr c' RCX = n - k /\ get_gpr c' RDI = wrap 64 (a + stride bk elem * k) /\
    same_gprs_but [RCX; RDI] c c' /\ (forall i, 0 <= i < k - 1 -> scan_stops stop g a al i = false) /\
    (k = 0 -> n = 0 /\ flags c' = flags c) /\
    (0 < k -> zf (flags c') = (scan_elem g a (k - 1) =? al) /\ (scan_stops stop g a al (k - 1) = false -> k = n)).

Definition scan_rep (stop : bool) : RepKind := if stop then Repne else Repe.

Lemma scas_body c g : cpu_wf c -> view_wf g -> g_read g (get_gpr c RDI) elem = Ok (v_le g (get_gpr c RDI) elem) ->
  exists f, str_body Scas elem ca 64 0 0 st c g = Some (None, bump_gpr 64 st RDI (set_flags c f), g) /\ flags_wf f /\
    zf f = (scan_elem g (get_gpr c RDI) 0 =? wrap (8 * elem) (get_gpr c RAX)).
Proof.
  intros Hc Hg Hr. cbn [str_body sload view_str]. rewrite dst_lin_64 by (by apply get_gpr_range).
  rewrite Hr. cbn [mbind option_bind]. eexists. split; [done|]. split; [auto with safe|].
  pose proof (size_bits elem Helem). rewrite land_mask, alu_sub_spec by (done || lia).
  pose proof (apply_all (flags c) (sub_spec (8 * elem) (wrap (8 * elem) (get_gpr c RAX)) (v_le g (get_gpr c RDI) elem) 0))
    as (_ & -> & _)%flags_eq_iff. cbn [zf set_cf set_pf set_af set_zf sub_spec r_zf set_pf_src set_af_src].
  rewrite Z.sub_0_r, diff_zero, wrap_wrap by lia. unfold scan_elem. rewrite Z.mul_0_r, Z.add_0_r, Z.eqb_sym. f_equal.
  apply wrap_small. unfold v_le. pose proof (valid_elem_range elem Helem).
  assert (Hb : Forall (in_width 8) (v_byte g <$> zseq (get_gpr c RDI) (Z.to_nat elem)))
    by (apply Forall_fmap, list.Forall_forall; intros x _; apply Hg).
  apply from_le_bytes_range in Hb. rewrite length_fmap, length_zseq, Z2Nat.id in Hb by lia. exact Hb.
Qed.

Lemma scan_shift g a i : 0 <= i -> scan_elem g (a + stride bk elem) i = scan_elem g a (i + 1).
Proof. intros. unfold scan_elem. f_equal. lia. Qed.

(** One more element in front of a scan that went on. *)
Lemma scan_post_step stop n c g c2 c' : 0 < n ->
  get_gpr c2 RDI = wrap 64 (get_gpr c RDI + stride bk elem) ->
  wrap 64 (get_gpr c RDI + stride bk elem) = get_gpr c RDI + stride bk elem ->
  get_gpr c2 RAX = get_gpr c RAX -> same_gprs_but [RCX; RDI] c c2 ->
  scan_stops stop g (get_gpr c RDI) (wrap (8 * elem) (get_gpr c RAX)) 0 = false ->
  scan_post stop n c2 g c' -> scan_post stop (n + 1) c g c'.
Proof.
  intros Hn Ed Ew Ea Hs H0 (k & Hk & P1 & P2 & P3 & P4 & P5 & P6). exists (k + 1).
  rewrite Ed, Ew, Ea in *. assert (0 < k) by (destruct (Z.eqb_spec k 0) as [E|]; [destruct (P5 E); lia|lia]).
  destruct (P6 ltac:(done)) as [P7 P8].
  replace (k + 1 - 1) with (k - 1 + 1) by lia. unfold scan_stops in *.
  rewrite <- (scan_shift g (get_gpr c RDI) (k - 1)) by lia.
  split; [lia|]. split; [lia|]. split; [rewrite P2; f_equal; lia|].
  split; [intros j Hj; rewrite (P3 j Hj); by apply Hs|]. split; [|split; [lia|intros _; split; [done|intros Hst; rewrite (P8 Hst); lia]]].
  intros i Hi. destruct (Z.eqb_spec i 0) as [->|]; [done|].
  replace i with (i - 1 + 1) by lia. rewrite <- (scan_shift g (get_gpr c RDI) (i - 1)) by lia. apply P4. lia.
Qed.

Lemma scas_loop stop (n : nat) c g : cpu_wf c -> view_wf g -> get_gpr c RCX = Z.of_nat n ->
  run_fits bk elem (get_gpr c RDI) (Z.of_nat n) ->
  (forall i, 0 <= i < Z.of_nat n -> g_read g (get_gpr c RDI + stride bk elem * i) elem = Ok (scan_elem g (get_gpr c RDI) i)) ->
  exists c', str_loop Scas elem (scan_rep stop) ca 64 0 0 st (S n) c g = Some (None, c', g) /\
    scan_post stop (Z.of_nat n) c g c'.
Proof.
  revert c. induction n as [|n IH]; intros c Hc Hg Hn Hf Hk; cbn [str_loop].
  - unfold str_done. change (addr_mask 64) with (Z.ones 64). rewrite Hn. cbn [Z.land Z.eqb Z.of_nat].
    exists c. split; [by destruct stop|]. exists 0. split; [lia|]. split; [lia|].
    split; [rewrite Z.mul_0_r, Z.add_0_r; symmetry; by apply wrap_small, get_gpr_range|]. split; [done|].
    split; [lia|]. split; [done|lia].
  - pose proof (get_gpr_range c RCX Hc) as Hcx. pose proof (valid_elem_range elem Helem).
    assert (Ed : str_done (scan_rep stop) 64 c = false).
    { unfold str_done. change (addr_mask 64) with (Z.ones 64). rewrite Z.land_ones by lia.
      fold (wrap 64 (get_gpr c RCX)). rewrite (wrap_small 64 _ Hcx). destruct stop; cbn [scan_rep]; zcase; (done || lia). }
    rewrite Ed. pose proof (Hk 0 ltac:(lia)) as H0. unfold scan_elem in H0. rewrite Z.mul_0_r, Z.add_0_r in H0.
    destruct (scas_body c g Hc Hg H0) as (f & -> & Hfw & Hz). cbn [mbind option_bind].
    set (cf_ := set_flags c f). assert (Hcf : cpu_wf cf_) by (by apply cpu_wf_set_flags).
    destruct (bump_rdi cf_ (stride bk elem) Hcf) as (Hc1 & E1 & G1 & F1). set (c1 := bump_gpr 64 st RDI cf_) in *.
    assert (E1c : get_gpr c1 RCX = get_gpr c RCX) by (apply G1; set_solver).
    destruct (str_after_rep c1 Hc1 ltac:(lia)) as (Hc2 & E2 & G2 & F2).
    set (c2 := bump_gpr 64 (wrapping_neg 64 1) RCX c1) in *.
    assert (Ea : str_after (scan_rep stop) 64 c1 = (negb (Bool.eqb (zf f) stop), c2)).
    { unfold str_after. fold c2. destruct stop; cbn [scan_rep]; rewrite F2, F1; cbn [flags cf_ set_flags]; by destruct (zf f). }
    rewrite Ea. assert (E2d : get_gpr c2 RDI = wrap 64 (get_gpr c RDI + stride bk elem)) by (rewrite (G2 RDI) by set_solver; done).
    assert (Gs : same_gprs_but [RCX; RDI] c c2) by (intros j Hj; rewrite (G2 j), (G1 j) by set_solver; done).
    replace (Z.of_nat (S n)) with (Z.of_nat n + 1) in * by lia.
    destruct (run_fits_step bk elem (get_gpr c RDI) (Z.of_nat n) ltac:(lia) ltac:(lia) Hf) as [Hf' Hw].
    assert (Hstop : n = 0%nat \/ Bool.eqb (zf f) stop = true -> scan_post stop (Z.of_nat n + 1) c g c2).
    { intros Hor. exists 1. split; [lia|]. split; [lia|]. split; [rewrite E2d; f_equal; lia|]. split; [done|].
      split; [lia|]. split; [lia|]. intros _. split; [rewrite F2, F1; exact Hz|].
      change (1 - 1) with 0. unfold scan_stops. rewrite <- Hz. destruct Hor as [->|Ht]; [done|congruence]. }
    destruct (Bool.eqb (zf f) stop) eqn:Est; cbn [negb]; [by exists c2; split; [|apply Hstop; right]|].
    destruct (IH c2) as (c' & El & Hp); [done|done|lia|by rewrite E2d| |].
    { intros i Hi. rewrite E2d, Hw by lia. rewrite scan_shift by lia.
      replace (get_gpr c RDI + stride bk elem + stride bk elem * i) with (get_gpr c RDI + stride bk elem * (i + 1)) by lia.
      apply Hk. lia. }
    exists c'. split; [exact El|]. destruct (Z.eqb_spec (Z.of_nat n) 0) as [Ez|Hpos].
    + assert (n = 0%nat) as -> by lia. cbn [str_loop] in El. unfold str_done in El. rewrite E2, E1c in El.
      replace (get_gpr c RCX - 1) with 0 in El by lia. cbn [Z.land Z.eqb] in El.
      assert (c' = c2) as -> by (destruct stop; cbn [scan_rep] in El; change (0 =? 0) with true in El; injection El; done). apply Hstop. by left.
    + apply (scan_post_step stop (Z.of_nat n) c g c2 c'); try done; [lia|by apply Hw; lia|by apply Gs; set_solver|].
      unfold scan_stops. by rewrite <- Hz.
Qed.
End Repeat64.

Lemma str_fuel_64 rep c : cpu_wf c -> rep <> RepNone ->
  str_fuel rep 64 (get_gpr c RCX) = S (Z.to_nat (get_gpr c RCX)).
Proof.
  intros Hc Hr. unfold str_fuel. change (addr_mask 64) with (Z.ones 64). rewrite Z.land_ones by lia.
  fold (wrap 64 (get_gpr c RCX)). rewrite wrap_small by (by apply get_gpr_range). by destruct rep.
Qed.

(** ** Safety of the arms *)

Lemma mem_view_wf m : mem_wf m -> view_wf (view m).
Proof. intros Hm a. apply (wf_bytes _ _ _ _ Hm). Qed.

Lemma run_str_safe n op elem rep ca ab sb db : valid_elem elem -> in_width 64 ca ->
  safe n (run_str (fun c m => string_run_impl c m op elem rep ca ab sb db)) any.
Proof.
  intros He Hca s Hs. destruct Hs as [Hc Hm Hl Ht]. unfold run_str.
  destruct (string_run_refines (H0 := memory_str_laws) (m_cpu s) (m_mem s) (view (m_mem s)) op elem rep ca ab sb db He Hca Hc
    (mem_view_wf _ Hm) (shows_same _ Hm)) as (f & c' & m' & g' & _ & -> & _ & Hc' & _ & Hm' & _).
  eexists _, _. split; [done|]. split; [|done]. by split.
Qed.

Lemma exec_rep_string_safe n ca op elem rep ab seg : in_width 64 ca -> valid_elem elem -> val_ok n seg ->
  safe n (exec_rep_string ca op elem rep ab seg) any.
Proof. intros. unfold exec_rep_string. eapply safe_bind; [by apply safe_read_val|]. intros. by apply run_str_safe. Qed.

Lemma exec_rep_string_real_safe n ca op elem rep ds es : in_width 64 ca -> valid_elem elem -> val_ok n ds ->
  val_ok n es -> safe n (exec_rep_string_real ca op elem rep ds es) any.
Proof.
  intros. unfold exec_rep_string_real. do 2 (eapply safe_bind; [by apply safe_read_val|intros]). by apply run_str_safe.
Qed.

(** ** Theorems *)

(** RDI = 16, RCX = 3, RAX = 0xBEEF, over the example memory. *)
Definition ex_str : CpuState :=
  put_gpr (put_gpr (put_gpr default_cpu RDI 16) RCX 3) RAX 0xBEEF.

Lemma ex_str_wf : cpu_wf ex_str.
Proof. repeat (apply gprs_insert_wf; [|unfold in_width; lia]). apply default_cpu_wf. Qed.

Lemma elem_2 : valid_elem 2.
Proof. unfold valid_elem. lia. Qed.

(** C13: every (repeated) string op returns: on any implementor of [StrMem], whatever the
    operation, prefix, direction and address size, the masked counter bounds the number
    of elements, more fuel changes nothing, and the fault, the registers and the bytes
    left are those of the run on the guest view. *)
Theorem string_run_total {T} {S : StrMem T} {L : StrMemLaws T} (c : CpuState) (m : T) (g : View) (op : StrOp)
    (elem : Z) (rep : RepKind) (ca ab sb db : Z) :
  valid_elem elem -> in_width 64 ca -> cpu_wf c -> view_wf g -> sm_shows m g ->
  exists f c' m' g', string_run_impl c g op elem rep ca ab sb db = Some (f, c', g') /\
    string_run_impl c m op elem rep ca ab sb db = Some (f, c', m') /\
    (forall k, (str_fuel rep ab (get_gpr c RCX) <= k)%nat ->
       str_loop op elem rep ca ab sb db (str_step c elem) k c m = Some (f, c', m')) /\
    cpu_wf c' /\ view_wf g' /\ sm_shows m' g'.
Proof. apply string_run_refines. Qed.

Lemma string_run_total_witness : exists f c' m',
  string_run_impl ex_str ex_mem Movs 2 Rep 0x1000 64 0 0 = Some (f, c', m') /\ cpu_wf c'.
Proof.
  destruct (string_run_total (L := memory_str_laws) ex_str ex_mem (view ex_mem) Movs 2 Rep 0x1000 64 0 0 elem_2 ltac:(unfold in_width; lia)
    ex_str_wf (mem_view_wf _ ex_mem_wf) (shows_same _ ex_mem_wf)) as (f & c' & m' & g' & _ & E & _ & H & _).
  exists f, c', m'. split; [exact E|exact H].
Defined.

(** C11: the interpreter and the compiled code agree on string ops: when the region-checked
    memory and the raw buffer show the same guest view, the runs end with the same
    fault (or none), the same registers and flags, and again the same view. *)
Theorem string_backends_agree (c : CpuState) (m : Memory) (r : RawStrMem) (g : View) (op : StrOp) (elem : Z)
    (rep : RepKind) (ca ab seg : Z) :
  valid_elem elem -> in_width 64 ca -> cpu_wf c -> view_wf g -> shows m g -> raw_shows r g ->
  exists f c' m' r' g', string_run c m op elem rep ca ab seg = Some (f, c', m') /\
    string_run c r op elem rep ca ab seg = Some (f, c', r') /\ shows m' g' /\ raw_shows r' g'.
Proof.
  intros He Hca Hc Hg Hm Hr.
  destruct (string_run_refines (H0 := memory_str_laws) c m g op elem rep ca ab seg 0 He Hca Hc Hg Hm) as (f & c' & m' & g' & E & Em & _ & _ & _ & Hm').
  destruct (string_run_refines (H0 := raw_str_laws) c r g op elem rep ca ab seg 0 He Hca Hc Hg Hr) as (f2 & c2 & r' & g2 & E2 & Er & _ & _ & _ & Hr').
  rewrite E in E2. injection E2 as <- <- <-. by exists f, c', m', r', g'.
Qed.

(** A memory that is one RAM region over its whole span, and the raw view of it. *)
Definition ex_flat : Memory := map_ok ex_empty 0 16384 RW Ram.
Definition ex_raw : RawStrMem := mkRaw ∅ 16384 0.

Lemma ex_flat_wf : mem_wf ex_flat.
Proof.
  apply reach_space_inv, map_ok_reach; [split; lia|lia|].
  apply (reach_host (Flat 16384) ex_ram); [done|apply bytes_wf_empty|done|reflexivity].
Qed.

Lemma ex_raw_shows : raw_shows ex_raw (view ex_flat).
Proof.
  split; [split; [done|unfold in_width; cbn; lia|apply bytes_wf_empty]|]. split; [|done].
  intros a n. rewrite (one_region_kind ex_flat (mkMemRegion 0 16384 RW Ram) a n eq_refl). unfold contains.
  change (region_end _) with 16384. cbn [raw_view v_kind ex_raw rs_guest_base rs_size start kind]. repeat zcase; (done || lia).
Qed.

Lemma string_backends_agree_witness : exists f c' m' r' g',
  string_run ex_str ex_flat Stos 2 Rep 0x1000 64 0 = Some (f, c', m') /\
  string_run ex_str ex_raw Stos 2 Rep 0x1000 64 0 = Some (f, c', r') /\ shows m' g' /\ raw_shows r' g'.
Proof.
  apply (string_backends_agree ex_str ex_flat ex_raw (view ex_flat) Stos 2 Rep 0x1000 64 0 elem_2
    ltac:(unfold in_width; lia) ex_str_wf (mem_view_wf _ ex_flat_wf) (shows_same _ ex_flat_wf) ex_raw_shows).
Defined.

(** [rep stos] writes exactly the run: with the elements inside RAM and the address
    space, the bytes of the run (upward, or downward under DF) become the low bytes of
    RAX repeated, every other byte, the mapping, the flags and the other registers are
    kept, RCX is zero and RDI has moved by the whole run. *)
Theorem rep_stos_exact (c : CpuState) (m : Memory) (elem ca : Z) :
  valid_elem elem -> in_width 64 ca -> cpu_wf c -> mem_wf m ->
  let bk := df (flags c) in let n := get_gpr c RCX in let a := get_gpr c RDI in
  run_fits bk elem a n ->
  (forall i, 0 <= i < n -> v_kind (view m) (a + stride bk elem * i) elem = Some Ram) ->
  exists c' m', string_run c m Stos elem Rep ca 64 0 = Some (None, c', m') /\ mem_wf m' /\
    stos_post elem bk n c (view m) c' (view m').
Proof.
  intros He Hca Hc Hm bk n a Hf Hk. pose proof (get_gpr_range c RCX Hc) as [Hn0 Hn1]. fold n in Hn0, Hn1.
  destruct (string_run_refines (H0 := memory_str_laws) c m (view m) Stos elem Rep ca 64 0 0 He Hca Hc
    (mem_view_wf _ Hm) (shows_same _ Hm)) as (f & c1 & m1 & g1 & Eg & Em & _ & _ & _ & Hm1 & Hv1).
  unfold string_run_impl in Eg. rewrite str_step_stride in Eg by done. fold bk in Eg.
  destruct (stos_loop elem ca bk He (Z.to_nat n) c (view m) Hc) as (c' & g' & El & Hp);
    rewrite ?Z2Nat.id in * by done; try done.
  rewrite str_fuel_64 in Eg by done. fold n in Eg. rewrite El in Eg. injection Eg as <- <- <-.
  exists c', m1. split; [exact Em|]. split; [done|]. destruct Hp as (P1 & P2 & P3 & P4 & P5 & P6).
  split; [done|]. split; [done|]. split; [done|]. split; [done|]. destruct Hv1 as [K B].
  split; [intros; rewrite K; apply P5|]. intros x. rewrite B. apply P6.
Qed.

Lemma rep_stos_exact_witness : exists c' m', string_run ex_str ex_mem Stos 2 Rep 0x1000 64 0 = Some (None, c', m') /\
  get_gpr c' RDI = 22 /\ v_byte (view m') 21 = 0xBE.
Proof.
  destruct (rep_stos_exact ex_str ex_mem 2 0x1000 elem_2 ltac:(unfold in_width; lia) ex_str_wf ex_mem_wf)
    as (c' & m' & E & _ & P1 & P2 & _ & _ & _ & P6).
  - intros i Hi. change (get_gpr ex_str RCX) with 3 in Hi. change (get_gpr ex_str RDI) with 16.
    change (stride _ 2) with 2. lia.
  - intros i Hi. change (get_gpr ex_str RCX) with 3 in Hi.
    assert (Hi' : i = 0 \/ i = 1 \/ i = 2) by lia. destruct Hi' as [->|[->| ->]]; vm_compute; reflexivity.
  - exists c', m'. split; [exact E|]. split; [rewrite P2; vm_compute; reflexivity|].
    rewrite P6. vm_compute. reflexivity.
Defined.

(** [repne scas] ([repe scas]) finds the first element equal to (different from) the
    accumulator: it stops after the k-th element where none before the last satisfied
    the stop condition, RCX and RDI count the k elements, ZF is the last comparison, and
    without a match the whole run was scanned. *)
Theorem rep_scas_exact (c : CpuState) (m : Memory) (stop : bool) (elem ca : Z) :
  valid_elem elem -> in_width 64 ca -> cpu_wf c -> mem_wf m ->
  let bk := df (flags c) in let n := get_gpr c RCX in let a := get_gpr c RDI in
  run_fits bk elem a n ->
  (forall i, 0 <= i < n -> v_kind (view m) (a + stride bk elem * i) elem = Some Ram \/
                          v_kind (view m) (a + stride bk elem * i) elem = Some Rom) ->
  exists c' m', string_run c m Scas elem (scan_rep stop) ca 64 0 = Some (None, c', m') /\ shows m' (view m) /\
    scan_post elem bk stop n c (view m) c'.
Proof.
  intros He Hca Hc Hm bk n a Hf Hk. pose proof (get_gpr_range c RCX Hc) as [Hn0 Hn1]. fold n in Hn0, Hn1.
  destruct (string_run_refines (H0 := memory_str_laws) c m (view m) Scas elem (scan_rep stop) ca 64 0 0 He Hca Hc
    (mem_view_wf _ Hm) (shows_same _ Hm)) as (f & c1 & m1 & g1 & Eg & Em & _ & _ & _ & Hm1).
  unfold string_run_impl in Eg. rewrite str_step_stride in Eg by done. fold bk in Eg.
  destruct (scas_loop elem ca bk He stop (Z.to_nat n) c (view m) Hc (mem_view_wf _ Hm)) as (c' & El & Hp);
    rewrite ?Z2Nat.id in * by done; try done.
  { intros i Hi. unfold g_read, scan_elem. fold a. by destruct (Hk i Hi) as [->| ->]. }
  rewrite str_fuel_64 in Eg by (done || by destruct stop). fold n in Eg. rewrite El in Eg. injection Eg as <- <- <-. by exists c', m1.
Qed.

Lemma rep_scas_exact_witness : exists c' m',
  string_run ex_str ex_mem Scas 2 Repne 0x1000 64 0 = Some (None, c', m') /\ shows m' (view ex_mem) /\
  scan_post 2 false true 3 ex_str (view ex_mem) c'.
Proof.
  apply (rep_scas_exact ex_str ex_mem true 2 0x1000 elem_2 ltac:(unfold in_width; lia) ex_str_wf ex_mem_wf).
  - intros i Hi. change (get_gpr ex_str RCX) with 3 in Hi. change (get_gpr ex_str RDI) with 16.
    change (stride _ 2) with 2. lia.
  - intros i Hi. change (get_gpr ex_str RCX) with 3 in Hi. left.
    assert (Hi' : i = 0 \/ i = 1 \/ i = 2) by lia. destruct Hi' as [->|[->| ->]]; vm_compute; reflexivity.
Defined.

(** C25: string ops restart where they stopped: when a run hits an unmapped page, RIP is on
    the instruction and the completed elements are committed; mapping the missing pages
    (without touching the bytes) and running again from the state left by the fault ends
    exactly as the run on the complete mapping would have. *)
Theorem string_restart (c : CpuState) (m full full1 : Memory) (op : StrOp) (elem : Z) (rep : RepKind) (ca ab seg : Z)
    (f : StrFault) (c1 : CpuState) (m1 : Memory) :
  valid_elem elem -> in_width 64 ca -> cpu_wf c -> mem_wf m -> mem_wf full -> sub_view (view m) (view full) ->
  string_run c m op elem rep ca ab seg = Some (Some f, c1, m1) -> sf_trap f = Unmapped ->
  shows full1 (mkView (v_kind (view full)) (v_byte (view m1))) ->
  rip c1 = ca /\
  exists r c2 m2 m2', string_run c full op elem rep ca ab seg = Some (r, c2, m2) /\
    string_run c1 full1 op elem rep ca ab seg = Some (r, set_rip c2 ca, m2') /\ view_eq (view m2') (view m2).
Proof.
  intros He Hca Hc Hm Hfull Hsub E Ht [Hm1' Hv1]. unfold string_run in *.
  destruct (string_run_refines (H0 := memory_str_laws) c m (view m) op elem rep ca ab seg 0 He Hca Hc
    (mem_view_wf _ Hm) (shows_same _ Hm)) as (f' & c1' & m1' & g1 & Eg & Em & _ & Hc1 & _ & Hm1 & Hg1).
  rewrite E in Em. injection Em as <- <- <-.
  destruct (string_run_refines (H0 := memory_str_laws) c full (view full) op elem rep ca ab seg 0 He Hca Hc
    (mem_view_wf _ Hfull) (shows_same _ Hfull)) as (r & c2 & m2 & g2 & Eg2 & Em2 & _ & _ & _ & Hm2 & Hg2).
  unfold string_run_impl in Eg, Eg2.
  destruct (str_loop_fault op elem rep ca ab seg 0 (str_step c elem) _ c (view m) (view full) f c1 g1 Hsub Eg Ht)
    as (k' & c' & h' & _ & El & -> & Hs' & Hd & Hk). split; [done|].
  rewrite El in Eg2. pose proof (str_loop_rip op elem rep ca ab seg 0 (str_step c elem) k' c' h') as Er.
  rewrite Eg2 in Er. cbn [with_rip] in Er.
  assert (Hh : view_eq (view full1) h').
  { etransitivity; [exact Hv1|]. split; cbn [v_kind v_byte]; intros; [by rewrite Hk|]. rewrite (proj2 Hg1). apply Hs'. }
  assert (Hhw : view_wf h') by (intros a; rewrite <- (proj2 Hh a); by apply mem_view_wf).
  destruct (string_run_refines (H0 := memory_str_laws) (set_rip c' ca) full1 h' op elem rep ca ab seg 0 He Hca Hc1
    Hhw (conj Hm1' Hh)) as (r3 & c3 & m3 & g3 & Eg3 & Em3 & _ & _ & _ & Hm3 & Hg3).
  unfold string_run_impl in Eg3.
  replace (str_step (set_rip c' ca) elem) with (str_step c elem) in Eg3 by (unfold str_step; cbn [flags set_rip]; by rewrite Hd).
  set (k3 := str_fuel rep ab _) in Eg3.
  apply (str_loop_mono _ _ _ _ _ _ _ _ _ (k' + k3)) in Er; [|lia].
  apply (str_loop_mono _ _ _ _ _ _ _ _ _ (k' + k3)) in Eg3; [|lia].
  rewrite Er in Eg3. injection Eg3 as <- <- <-.
  exists r, c2, m2, m3. split; [exact Em2|]. split; [exact Em3|]. etransitivity; [exact Hg3|by symmetry].
Qed.

(** A guest whose second page is not mapped yet, and the completed mapping; the run of
    three words starts two bytes below the boundary. *)
Definition ex_low : Memory := map_ok ex_empty 0 4096 RW Ram.
Definition ex_both : Memory := map_ok ex_empty 0 8192 RW Ram.
Definition ex_cross : CpuState := put_gpr ex_str RDI 4094.
Definition ex_stop : StrFault * CpuState * Memory :=
  match string_run ex_cross ex_low Stos 2 Rep 0x1000 64 0 with
  | Some (Some f, c, m) => (f, c, m)
  | _ => (mkFault 0 false Mmio 0 0, ex_cross, ex_low)
  end.
(** The completed mapping with the first word in place. *)
Definition ex_repaired : Memory :=
  match write ex_both 4094 0xBEEF 2 with Some (_, m) => m | None => ex_both end.

Lemma ex_mapped_wf n : 0 < n < 2 ^ 64 -> mem_wf (map_ok ex_empty 0 n RW Ram).
Proof.
  intros Hn. apply reach_space_inv, map_ok_reach; [split; lia|done|].
  apply (reach_host (Flat 16384) ex_ram); [done|apply bytes_wf_empty|done|reflexivity].
Qed.

Lemma ex_low_sub : sub_view (view ex_low) (view ex_both).
Proof.
  split; [done|]. intros a n. rewrite (one_region_kind ex_low (mkMemRegion 0 4096 RW Ram) a n eq_refl).
  rewrite (one_region_kind ex_both (mkMemRegion 0 8192 RW Ram) a n eq_refl). unfold contains.
  change (region_end (mkMemRegion 0 4096 RW Ram)) with 4096. change (region_end (mkMemRegion 0 8192 RW Ram)) with 8192.
  cbn [start kind]. repeat zcase; auto. lia.
Qed.

Lemma ex_repaired_shows : shows ex_repaired (mkView (v_kind (view ex_both)) (v_byte (view ex_stop.2))).
Proof.
  destruct (write_refines ex_both 4094 0xBEEF 2 (ex_mapped_wf 8192 ltac:(lia)) elem_2) as (m' & E & Hm & Hv).
  assert (ex_repaired = m') as -> by (unfold ex_repaired; by rewrite E). split; [done|].
  assert (Eb : b_bytes (backing ex_repaired) = b_bytes (backing ex_stop.2)) by (vm_compute; reflexivity).
  assert (Eg : m_guest_base ex_repaired = m_guest_base ex_stop.2) by (vm_compute; reflexivity).
  unfold ex_repaired in Eb, Eg. rewrite E in Eb, Eg. split.
  - intros a n. rewrite (proj1 Hv a n), g_write_kind. done.
  - intros a. cbn [v_byte view]. by rewrite Eb, Eg.
Qed.

Lemma string_restart_witness : rip ex_stop.1.2 = 0x1000 /\
  exists r c2 m2 m2', string_run ex_cross ex_both Stos 2 Rep 0x1000 64 0 = Some (r, c2, m2) /\
    string_run ex_stop.1.2 ex_repaired Stos 2 Rep 0x1000 64 0 = Some (r, set_rip c2 0x1000, m2') /\
    view_eq (view m2') (view m2).
Proof.
  apply (string_restart ex_cross ex_low ex_both ex_repaired Stos 2 Rep 0x1000 64 0 ex_stop.1.1 ex_stop.1.2 ex_stop.2
    elem_2 ltac:(unfold in_width; lia)); try (apply ex_mapped_wf; lia).
  - apply gprs_insert_wf; [apply ex_str_wf|unfold in_width; lia].
  - exact ex_low_sub.
  - vm_compute. reflexivity.
  - vm_compute. reflexivity.
  - exact ex_repaired_shows.
Defined.

(** An MMIO store of a string op never resumes: after the embedder acknowledges the
    [MmioWrite] exit, the re-executed [rep stos] ignores the acknowledgement, exits again
    with the same request, and leaves the acknowledgement pending. *)
Theorem string_mmio_never_resumes (n : nat) (s : mach) (elem ca a : Z) :
  mach_ok n s -> valid_elem elem -> in_width 64 ca -> a = get_gpr (m_cpu s) RDI -> 0 < get_gpr (m_cpu s) RCX ->
  v_kind (view (m_mem s)) a elem = Some TrapRegion ->
  let e := Some (SExit (MmioWrite a elem (wrap (8 * elem) (get_gpr (m_cpu s) RAX)))) in
  let op := exec_rep_string ca Stos elem Rep 64 (Imm 0) in
  exists s1 s2, op s = Some (e, s1) /\ op (on_cpu s1 complete_mmio_write) = Some (e, s2) /\
    pending_mmio_write (m_cpu s2) = true.
Proof.
  intros Hs He Hca -> Hcx Hk e op.
  assert (Hrun : forall s', mach_ok n s' -> get_gpr (m_cpu s') = get_gpr (m_cpu s) ->
    v_kind (view (m_mem s')) (get_gpr (m_cpu s) RDI) elem = Some TrapRegion ->
    exists m', op s' = Some (e, mkMach (set_rip (m_cpu s') ca) m' (m_temps s')) /\ shows m' (view (m_mem s'))).
  { intros s' Hs' Eg Hk'. pose proof (ok_cpu _ _ Hs') as Hc.
    destruct (string_run_refines (H0 := memory_str_laws) (m_cpu s') (m_mem s') (view (m_mem s')) Stos elem Rep ca 64 0 0 He Hca Hc
      (mem_view_wf _ (ok_mem _ _ Hs')) (shows_same _ (ok_mem _ _ Hs'))) as (f & c1 & m1 & g1 & Eg1 & Em & _ & _ & _ & Hm1).
    unfold string_run_impl in Eg1. rewrite str_fuel_64 in Eg1 by done. cbn [str_loop] in Eg1.
    assert (Ed : str_done Rep 64 (m_cpu s') = false).
    { unfold str_done. change (addr_mask 64) with (Z.ones 64). rewrite Z.land_ones by lia.
      fold (wrap 64 (get_gpr (m_cpu s') RCX)). rewrite wrap_small by (by apply get_gpr_range). rewrite Eg. zcase; (done || lia). }
    rewrite Ed in Eg1. cbn [str_body sstore view_str] in Eg1. rewrite dst_lin_64 in Eg1 by (by apply get_gpr_range).
    unfold g_write in Eg1. rewrite Eg, Hk' in Eg1. cbn [fst snd mbind option_bind str_trap] in Eg1. injection Eg1 as <- <- <-.
    exists m1. split; [|done]. unfold op, exec_rep_string. rewrite (bind_run _ _ s' 0 s') by done.
    unfold run_str, string_run. rewrite Em. unfold e. cbn [str_fault_exit trap_exit sf_trap sf_addr sf_elem sf_write sf_value].
    by rewrite land_mask by done. }
  destruct (Hrun s Hs eq_refl Hk) as (m1 & E1 & Hm1). eexists. 
  destruct (Hrun (on_cpu (mkMach (set_rip (m_cpu s) ca) m1 (m_temps s)) complete_mmio_write)) as (m2 & E2 & _).
  - destruct Hs as [Hc ? ? ?]. split; cbn [on_cpu m_cpu m_mem m_temps]; try done; [|apply Hm1].
    apply cpu_wf_pending_write, cpu_wf_rip; done.
  - done.
  - cbn [on_cpu m_mem]. by rewrite (proj1 (proj2 Hm1)).
  - eexists. split; [exact E1|]. split; [exact E2|done].
Qed.

Definition ex_mmio_str : mach := mkMach (put_gpr ex_str RDI 8192) ex_mem [].

Lemma string_mmio_never_resumes_witness :
  let e := Some (SExit (MmioWrite 8192 2 0xBEEF)) in
  let op := exec_rep_string 0x1000 Stos 2 Rep 64 (Imm 0) in
  exists s1 s2, op ex_mmio_str = Some (e, s1) /\ op (on_cpu s1 complete_mmio_write) = Some (e, s2) /\
    pending_mmio_write (m_cpu s2) = true.
Proof.
  apply (string_mmio_never_resumes 0 ex_mmio_str 2 0x1000 8192); try (vm_compute; reflexivity).
  - split; [apply gprs_insert_wf; [apply ex_str_wf|unfold in_width; lia]|apply ex_mem_wf|done|constructor].
  - exact elem_2.
  - unfold in_width. lia.
Defined.
