(* ===== verification/Control.v ===== *)
(** * Control flow and the real-mode arms (x86jit-core/src/interp/control.rs)

    Jumps, calls and returns, the exits to the embedder, the 16-bit stack primitives and
    everything built on them: [pusha]/[popa]/[enter], [pushf]/[popf], far transfers,
    interrupt delivery through the vector table and [iret]. *)

From S2P Require Import Prelude Features State Ir Alu Memory Interp IntegerSpec.

(** ** Definitions *)

(** [cpu.gpr[i] = (cpu.gpr[i] & !0xFFFF) | v] *)
Definition put_gpr16 (c : CpuState) (i : nat) (v : Z) : CpuState :=
  put_gpr c i (Z.lor (Z.land (get_gpr c i) (unot 64 0xFFFF)) v).
(** [cpu.gpr[i] as u16] *)
Definition gpr16 (c : CpuState) (i : nat) : Z := wrap 16 (get_gpr c i).

Definition exec_set_df (value : bool) : Arm := upd_flags (fun f => set_df f value);; next.

Definition exec_lahf : Arm :=
  upd_cpu (fun c =>
    let ah := Z.land (to_flags16 (flags c)) 0xFF in
    put_gpr c RAX (Z.lor (Z.land (get_gpr c RAX) (unot 64 0xFF00)) (Z.shiftl ah 8)));; next.

Definition exec_sahf : Arm :=
  upd_cpu (fun c =>
    let ah := wrap 8 (Z.shiftr (get_gpr c RAX) 8) in
    let f := flags c in
    let f := set_cf f (test ah (Z.shiftl 1 0)) in
    let f := set_pf f (test ah (Z.shiftl 1 2)) in
    let f := set_af f (test ah (Z.shiftl 1 4)) in
    let f := set_zf f (test ah (Z.shiftl 1 6)) in
    set_flags c (set_sf f (test ah (Z.shiftl 1 7))));; next.

(** *** The 16-bit stack *)

Definition ss_addr (c : CpuState) (sp : Z) : Z := Z.shiftl (ss c) 4 + sp.

Definition push16 (cur_addr word : Z) : M (Result unit StepResult) :=
  c ← get_cpu;
  let sp := wrapping_sub 16 (gpr16 c RSP) 2 in
  let addr := ss_addr c sp in
  r ← on_mem (fun m => write m addr word 2);
  match r with
  | Err t => e ← trap_out cur_addr t addr 2 Write word; mret (Err e)
  | Ok _ => upd_cpu (fun c => put_gpr16 c RSP sp);; mret (Ok tt)
  end.

Definition pop16 (cur_addr : Z) : M (Result Z StepResult) :=
  c ← get_cpu;
  let sp := gpr16 c RSP in
  let addr := ss_addr c sp in
  r ← on_mem (fun m => read m addr 2);
  match r with
  | Ok v =>
      let nsp := wrapping_add 16 sp 2 in
      upd_cpu (fun c => put_gpr16 c RSP nsp);; mret (Ok (wrap 16 v))
  | Err t => e ← trap_out cur_addr t addr 2 Read 0; mret (Err e)
  end.

(** [match r { Ok(v) => k, Err(e) => return e }] *)
Definition or_leave {A B} (c : M (Result A StepResult)) (k : A -> M (Result B StepResult)) : M (Result B StepResult) :=
  r ← c; match r with Ok v => k v | Err e => mret (Err e) end.

(** The two ways an arm hands its result on: leave on an error, or always leave. *)
Definition as_arm (c : M (Result unit StepResult)) : Arm :=
  r ← c; match r with Ok _ => next | Err e => leave e end.
Definition as_step (c : M (Result StepResult StepResult)) : M StepResult :=
  r ← c; match r with Ok s => mret s | Err e => mret e end.

Fixpoint push_all (cur_addr : Z) (words : list Z) : M (Result unit StepResult) :=
  match words with
  | [] => mret (Ok tt)
  | w :: ws => or_leave (push16 cur_addr w) (fun _ => push_all cur_addr ws)
  end.

Definition exec_pusha_real (cur_addr : Z) : Arm :=
  c ← get_cpu;
  let words := [gpr16 c RAX; gpr16 c RCX; gpr16 c RDX; gpr16 c RBX; gpr16 c RSP; gpr16 c RBP;
                gpr16 c RSI; gpr16 c RDI] in
  as_arm (push_all cur_addr words).

Fixpoint pop_all (cur_addr : Z) (order : list (option nat)) : M (Result unit StepResult) :=
  match order with
  | [] => mret (Ok tt)
  | slot :: rest =>
      or_leave (pop16 cur_addr) (fun v =>
        (match slot with
         | Some i => upd_cpu (fun c => put_gpr16 c i v)
         | None => mret tt
         end);;
        pop_all cur_addr rest)
  end.

Definition popa_order : list (option nat) :=
  [Some RDI; Some RSI; Some RBP; None; Some RBX; Some RDX; Some RCX; Some RAX].

Definition exec_popa_real (cur_addr : Z) : Arm := as_arm (pop_all cur_addr popa_order).

(** The display copy of [enter]: [n] steps down the enclosing frames. *)
Fixpoint enter_display (cur_addr : Z) (n : nat) (bp : Z) : M (Result unit StepResult) :=
  match n with
  | O => mret (Ok tt)
  | S n =>
      let bp := wrapping_sub 16 bp 2 in
      upd_cpu (fun c => put_gpr16 c RBP bp);;
      c ← get_cpu;
      r ← on_mem (fun m => read m (ss_addr c bp) 2);
      match r with
      | Ok v => or_leave (push16 cur_addr (wrap 16 v)) (fun _ => enter_display cur_addr n bp)
      | Err t => e ← trap_out cur_addr t (ss_addr c bp) 2 Read 0; mret (Err e)
      end
  end.

Definition exec_enter_real (cur_addr alloc level : Z) : Arm :=
  let level := Z.land level 0x1F in
  c ← get_cpu;
  as_arm (or_leave (push16 cur_addr (gpr16 c RBP)) (fun _ =>
    c ← get_cpu;
    let frame_ptr := gpr16 c RSP in
    or_leave
      (if 0 <? level then
         or_leave (enter_display cur_addr (Z.to_nat (level - 1)) (gpr16 c RBP))
           (fun _ => push16 cur_addr frame_ptr)
       else mret (Ok tt))
      (fun _ =>
         upd_cpu (fun c => put_gpr16 c RBP frame_ptr);;
         upd_cpu (fun c => put_gpr16 c RSP (wrapping_sub 16 (gpr16 c RSP) alloc));;
         mret (Ok tt)))).

(** *** Jumps, calls and exits *)

Definition exec_jump (target : Val) : Arm :=
  t ← read_val target; upd_cpu (fun c => set_rip c t);; leave Continue.

Definition exec_branch (cond : Cond) (taken fallthrough : Z) : Arm :=
  upd_cpu (fun c => set_rip c (if eval_cond cond (flags c) then taken else fallthrough));; leave Continue.

Definition exec_call (cur_addr : Z) (target : Val) (return_addr slot : Z) (wrap_sp : bool) : Arm :=
  c ← get_cpu;
  let sp := wrapping_sub 64 (get_gpr c RSP) slot in
  let sp := if wrap_sp then Z.land sp 0xFFFFFFFF else sp in
  r ← on_mem (fun m => write m sp return_addr slot);
  match r with
  | Err t => s ← trap_out cur_addr t sp slot Write return_addr; leave s
  | Ok _ =>
      upd_cpu (fun c => put_gpr c RSP sp);;
      t ← read_val target;
      upd_cpu (fun c => set_rip c t);; leave Continue
  end.

Definition exec_ret (cur_addr slot pop_extra : Z) (wrap_sp : bool) : Arm :=
  c ← get_cpu;
  let sp := get_gpr c RSP in
  r ← on_mem (fun m => read m sp slot);
  match r with
  | Ok ret =>
      let nsp := wrapping_add 64 (wrapping_add 64 sp slot) pop_extra in
      let nsp := if wrap_sp then Z.land nsp 0xFFFFFFFF else nsp in
      upd_cpu (fun c => set_rip (put_gpr c RSP nsp) ret);; leave Continue
  | Err t => s ← trap_out cur_addr t sp slot Read 0; leave s
  end.

Definition exec_syscall (block_end : Z) (is_amd64 : bool) : Arm :=
  upd_cpu (fun c =>
    let c := if is_amd64 then put_gpr (put_gpr c RCX block_end) R11_ (to_rflags (flags c)) else c in
    set_rip c block_end);;
  leave (SExit ESyscall).

Definition exec_port_io (block_end : Z) (port value : Val) (size : Z) (dir_out : bool) : Arm :=
  p ← read_val port; v ← read_val value;
  upd_cpu (fun c =>
    let c := set_rip c block_end in
    if dir_out then c else set_pending_port_in c (Some size));;
  leave (SExit (EPortIo (wrap 16 p) size (if dir_out then Out else In_) (Z.land v (mask size)))).

Definition exec_hlt (block_end : Z) : Arm :=
  upd_cpu (fun c => set_rip c block_end);; leave (SExit EHlt).

(** [cur_addr + advance] is unchecked machine arithmetic: an overflow panics. *)
Definition exec_trap (cur_addr vector advance : Z) : Arm :=
  try_cpu (fun c => a ← checked_add 64 cur_addr advance; Some (set_rip c a));;
  c ← get_cpu; leave (SExit (EException (rip c) vector)).

(** *** Interrupts *)

Definition exec_pushf_real (cur_addr : Z) : Arm :=
  c ← get_cpu; as_arm (push16 cur_addr (to_flags16 (flags c))).

Definition exec_popf_real (cur_addr : Z) : Arm :=
  as_arm (or_leave (pop16 cur_addr) (fun image =>
    upd_flags (fun f => set_flags16 f image);; mret (Ok tt))).

Definition deliver_interrupt (cur_addr vector saved_ip : Z) : M StepResult :=
  c ← get_cpu;
  let fl := to_flags16 (flags c) in
  as_step
    (or_leave (push16 cur_addr fl) (fun _ =>
     c ← get_cpu;
     or_leave (push16 cur_addr (cs c)) (fun _ =>
     or_leave (push16 cur_addr (wrap 16 saved_ip)) (fun _ =>
       upd_flags (fun f => set_if_ f false);;
       let ivt := vector * 4 in
       r ← on_mem (fun m => read m ivt 2);
       match r with
       | Err t => e ← trap_out cur_addr t ivt 2 Read 0; mret (Err e)
       | Ok new_ip =>
           r ← on_mem (fun m => read m (ivt + 2) 2);
           match r with
           | Err t => e ← trap_out cur_addr t (ivt + 2) 2 Read 0; mret (Err e)
           | Ok new_cs =>
               upd_cpu (fun c => set_rip (set_cs c (wrap 16 new_cs)) (wrap 16 new_ip));;
               mret (Ok Continue)
           end
       end)))).

Definition exec_iret_real (cur_addr : Z) : M StepResult :=
  as_step
    (or_leave (pop16 cur_addr) (fun ip =>
     or_leave (pop16 cur_addr) (fun cs =>
     or_leave (pop16 cur_addr) (fun fl =>
       upd_flags (fun f => set_flags16 f fl);;
       upd_cpu (fun c => set_rip (set_cs c cs) ip);;
       mret (Ok Continue))))).

(** *** Loops and far transfers *)

Definition exec_loop_cx (kind : LoopKind) (taken fallthrough : Z) : M StepResult :=
  c ← get_cpu;
  let cx := wrapping_sub 16 (gpr16 c RCX) 1 in
  let dec := upd_cpu (fun c => put_gpr16 c RCX cx) in
  take ← (match kind with
          | Jcxz => mret (gpr16 c RCX =? 0)
          | Loop => dec;; mret (negb (cx =? 0))
          | Loope => dec;; mret (negb (cx =? 0) && zf (flags c))
          | Loopne => dec;; mret (negb (cx =? 0) && negb (zf (flags c)))
          end);
  upd_cpu (fun c => set_rip c (if take : bool then taken else fallthrough));;
  mret Continue.

Definition exec_far_jump (cs ip : Val) : M StepResult :=
  c ← read_val cs; upd_cpu (fun x => set_cs x (Z.land c 0xFFFF));;
  i ← read_val ip; upd_cpu (fun x => set_rip x (Z.land i 0xFFFF));;
  mret Continue.

Definition exec_far_call (cur_addr : Z) (cs_ ip : Val) (ret_ip : Z) : M StepResult :=
  c ← read_val cs_; i ← read_val ip;
  let target_cs := Z.land c 0xFFFF in
  let target_ip := Z.land i 0xFFFF in
  cpu ← get_cpu;
  as_step
    (or_leave (push16 cur_addr (cs cpu)) (fun _ =>
     or_leave (push16 cur_addr ret_ip) (fun _ =>
       upd_cpu (fun x => set_rip (set_cs x target_cs) target_ip);;
       mret (Ok Continue)))).

Definition exec_far_ret (cur_addr pop_extra : Z) : M StepResult :=
  as_step
    (or_leave (pop16 cur_addr) (fun ip =>
     or_leave (pop16 cur_addr) (fun cs_ =>
       (if negb (pop_extra =? 0)
        then upd_cpu (fun c => put_gpr16 c RSP (wrapping_add 16 (gpr16 c RSP) pop_extra))
        else mret tt);;
       upd_cpu (fun c => set_rip (set_cs c cs_) ip);;
       mret (Ok Continue)))).

(** ** Safety *)

Lemma cpu_wf_put16 c i v : cpu_wf c -> in_width 16 v -> cpu_wf (put_gpr16 c i v).
Proof.
  intros Hc Hv. apply gprs_insert_wf; [done|]. apply (replace_low_range _ _ _ 16); [by apply get_gpr_range|lia|done].
Qed.
Lemma gpr16_range c i : in_width 16 (gpr16 c i).
Proof. apply wrap_range. lia. Qed.
#[export] Hint Resolve cpu_wf_put16 gpr16_range : safe.

Lemma to_rflags_range f : in_width 64 (to_rflags f).
Proof.
  unfold to_rflags. destruct (cf f), (pf f), (af f), (zf f), (sf f), (df f), (of_ f); vm_compute; split; congruence.
Qed.

Definition ok16 (r : Result Z StepResult) : Prop := forall v, r = Ok v -> in_width 16 v.

Section ControlSafe.
Context (n : nat) (ca : Z).
Hypothesis Hca : in_width 64 ca.

Lemma push16_safe w : safe n (push16 ca w) any.
Proof.
  unfold push16. eapply safe_bind; [apply safe_get_cpu|]. intros c Hc. cbn zeta.
  eapply safe_bind; [apply safe_write; unfold valid_elem; lia|]. intros r _. destruct r.
  - eapply safe_bind; [|intros; by apply safe_ret]. apply safe_upd_cpu. intros c' Hc'.
    apply cpu_wf_put16; [done|]. apply (wrap_range 16). lia.
  - eapply safe_bind; [by apply safe_trap_out|]. intros. by apply safe_ret.
Qed.

Lemma pop16_safe : safe n (pop16 ca) ok16.
Proof.
  unfold pop16. eapply safe_bind; [apply safe_get_cpu|]. intros c Hc. cbn zeta.
  eapply safe_bind; [apply safe_read; unfold valid_elem; lia|]. intros r _. destruct r.
  - eapply safe_bind; [apply safe_upd_cpu; intros c' Hc'; apply cpu_wf_put16; [done|apply (wrap_range 16); lia]|].
    intros. apply safe_ret. intros x [= <-]. apply wrap_range. lia.
  - eapply safe_bind; [by apply safe_trap_out|]. intros. apply safe_ret. done.
Qed.

Lemma or_leave_safe {A B} (c : M (Result A StepResult)) (k : A -> M (Result B StepResult)) (P : A -> Prop) :
  safe n c (fun r => forall v, r = Ok v -> P v) -> (forall v, P v -> safe n (k v) any) ->
  safe n (or_leave c k) any.
Proof.
  intros Hc Hk. eapply safe_bind; [exact Hc|]. intros [v|e] Hr; [apply Hk; by apply Hr|by apply safe_ret].
Qed.

Lemma or_leave_any {A B} (c : M (Result A StepResult)) (k : A -> M (Result B StepResult)) :
  safe n c any -> (forall v, safe n (k v) any) -> safe n (or_leave c k) any.
Proof. intros Hc Hk. apply (or_leave_safe c k any); [|by intros]. eapply safe_weaken; [|exact Hc]. done. Qed.

Lemma as_arm_safe c : safe n c any -> safe n (as_arm c) any.
Proof. intros Hc. eapply safe_bind; [exact Hc|]. intros [] _; [apply safe_next|apply safe_leave]. Qed.
Lemma as_step_safe c : safe n c any -> safe n (as_step c) any.
Proof. intros Hc. eapply safe_bind; [exact Hc|]. intros [] _; by apply safe_ret. Qed.

Lemma read2_safe a : safe n (on_mem (fun m => read m a 2)) ok_width.
Proof. apply safe_read. unfold valid_elem. lia. Qed.

Lemma trap_err_safe {A} t a sz k v : safe n (e ← trap_out ca t a sz k v; mret (@Err A StepResult e)) any.
Proof. eapply safe_bind; [by apply safe_trap_out|]. intros. by apply safe_ret. Qed.

Lemma upd_ok_safe {A} f (r : A) : (forall c, cpu_wf c -> cpu_wf (f c)) -> safe n (upd_cpu f;; mret r) any.
Proof. intros Hf. eapply safe_bind; [by apply safe_upd_cpu|]. intros. by apply safe_ret. Qed.

Lemma exec_set_df_safe v : safe n (exec_set_df v) any.
Proof. unfold exec_set_df. arm. Qed.
Lemma exec_lahf_safe : safe n exec_lahf any.
Proof.
  unfold exec_lahf. eapply safe_bind; [|intros; apply safe_next]. apply safe_upd_cpu. intros c Hc.
  apply gprs_insert_wf; [done|]. apply (replace_low_range _ _ _ 16); [by apply get_gpr_range|lia|].
  pose proof (land_ff_range (to_flags16 (flags c))) as [? ?]. rewrite Z.shiftl_mul_pow2 by lia. unfold in_width. lia.
Qed.
Lemma exec_sahf_safe : safe n exec_sahf any.
Proof.
  unfold exec_sahf. eapply safe_bind; [|intros; apply safe_next]. apply safe_upd_cpu. intros c Hc. auto 20 with safe.
Qed.

Lemma push_all_safe ws : safe n (push_all ca ws) any.
Proof.
  induction ws; cbn [push_all]; [by apply safe_ret|]. by apply or_leave_any; [apply push16_safe|].
Qed.
Lemma exec_pusha_real_safe : safe n (exec_pusha_real ca) any.
Proof. eapply safe_bind; [apply safe_get_cpu|]. intros. apply as_arm_safe, push_all_safe. Qed.

Lemma pop_all_safe order : safe n (pop_all ca order) any.
Proof.
  induction order as [|slot rest IH]; cbn [pop_all]; [by apply safe_ret|].
  apply (or_leave_safe _ _ (in_width 16)); [apply pop16_safe|]. intros v Hv.
  eapply (safe_bind n _ _ any); [|intros; exact IH]. destruct slot; [|by apply safe_ret].
  apply safe_upd_cpu. auto with safe.
Qed.
Lemma exec_popa_real_safe : safe n (exec_popa_real ca) any.
Proof. apply as_arm_safe, pop_all_safe. Qed.

Lemma enter_display_safe k bp : safe n (enter_display ca k bp) any.
Proof.
  revert bp. induction k as [|k IH]; intros bp; cbn [enter_display]; [by apply safe_ret|]. cbn zeta.
  eapply (safe_bind n _ _ any);
    [apply safe_upd_cpu; intros; apply cpu_wf_put16; [done|apply (wrap_range 16); lia]|intros _ _].
  eapply safe_bind; [apply safe_get_cpu|]. intros c Hc. eapply safe_bind; [apply read2_safe|]. intros [v|t] _.
  - apply or_leave_any; [apply push16_safe|]. intros. apply IH.
  - apply trap_err_safe.
Qed.
Lemma exec_enter_real_safe alloc level : safe n (exec_enter_real ca alloc level) any.
Proof.
  unfold exec_enter_real. eapply safe_bind; [apply safe_get_cpu|]. intros c _. apply as_arm_safe.
  apply or_leave_any; [apply push16_safe|]. intros _. eapply safe_bind; [apply safe_get_cpu|]. intros c' _. cbn zeta.
  apply or_leave_any.
  - destruct (0 <? _); [|by apply safe_ret]. apply or_leave_any; [apply enter_display_safe|]. intros. apply push16_safe.
  - intros _. eapply safe_bind; [apply safe_upd_cpu; auto with safe|]. intros _ _. apply upd_ok_safe.
    intros x Hx. apply cpu_wf_put16; [done|]. apply (wrap_range 16). lia.
Qed.

Lemma exec_jump_safe t : val_ok n t -> safe n (exec_jump t) any.
Proof. intros. unfold exec_jump. arm. Qed.
Lemma exec_branch_safe cond a b : in_width 64 a -> in_width 64 b -> safe n (exec_branch cond a b) any.
Proof.
  intros. unfold exec_branch. eapply safe_bind; [|intros; apply safe_leave]. apply safe_upd_cpu. intros c Hc.
  destruct (eval_cond _ _); auto with safe.
Qed.
Lemma low32_range x : in_width 64 (Z.land x 0xFFFFFFFF).
Proof. change 0xFFFFFFFF with (Z.ones 32). rewrite Z.land_ones by lia. apply (in_width_mono 32); [lia|]. apply (wrap_range 32). lia. Qed.

Lemma exec_call_safe t ra slot w : val_ok n t -> valid_elem slot -> safe n (exec_call ca t ra slot w) any.
Proof.
  intros. unfold exec_call. eapply safe_bind; [apply safe_get_cpu|]. intros c Hc. cbn zeta.
  set (sp := if w then _ else _).
  assert (in_width 64 sp) by (unfold sp; destruct w; [apply low32_range|apply (wrap_range 64); lia]). arm.
Qed.
Lemma exec_ret_safe slot pe w : valid_elem slot -> safe n (exec_ret ca slot pe w) any.
Proof.
  intros. unfold exec_ret. eapply safe_bind; [apply safe_get_cpu|]. intros c Hc. cbn zeta.
  eapply safe_bind; [by apply safe_read|]. intros [v|t] Hv; [|arm]. set (sp := if w then _ else _).
  assert (in_width 64 sp) by (unfold sp; destruct w; [apply low32_range|apply (wrap_range 64); lia]).
  specialize (Hv v eq_refl). arm.
Qed.
Lemma exec_syscall_safe e b : in_width 64 e -> safe n (exec_syscall e b) any.
Proof.
  intros. unfold exec_syscall. eapply safe_bind; [|intros; apply safe_leave]. apply safe_upd_cpu. intros c Hc. cbn zeta.
  destruct b; [|auto with safe]. apply cpu_wf_rip; [|done]. apply gprs_insert_wf; [by apply gprs_insert_wf|].
  apply to_rflags_range.
Qed.
Lemma exec_port_io_safe e p v sz d : in_width 64 e -> val_ok n p -> val_ok n v -> safe n (exec_port_io e p v sz d) any.
Proof.
  intros. unfold exec_port_io. do 2 (eapply safe_bind; [by apply safe_read_val|intros]).
  eapply safe_bind; [|intros; apply safe_leave]. apply safe_upd_cpu. intros. cbn zeta. destruct d; auto with safe.
Qed.
Lemma exec_hlt_safe e : in_width 64 e -> safe n (exec_hlt e) any.
Proof. intros. unfold exec_hlt. arm. Qed.
Lemma exec_trap_safe v adv : 0 <= adv -> ca + adv < 2 ^ 64 -> safe n (exec_trap ca v adv) any.
Proof.
  intros H0 H1. unfold exec_trap. eapply safe_bind.
  - apply safe_try_cpu. intros c Hc. unfold checked_add. destruct (Z.ltb_spec (ca + adv) (2 ^ 64)); [|lia].
    cbn [mbind option_bind]. eexists. split; [done|]. apply cpu_wf_rip; [done|]. destruct Hca. unfold in_width. lia.
  - intros. arm.
Qed.
Lemma exec_pushf_real_safe : safe n (exec_pushf_real ca) any.
Proof. eapply safe_bind; [apply safe_get_cpu|]. intros. apply as_arm_safe, push16_safe. Qed.
Lemma exec_popf_real_safe : safe n (exec_popf_real ca) any.
Proof.
  apply as_arm_safe. apply (or_leave_safe _ _ (in_width 16)); [apply pop16_safe|]. intros v Hv.
  eapply safe_bind; [apply safe_upd_flags; auto with safe|]. intros. by apply safe_ret.
Qed.
Lemma deliver_interrupt_safe vec ip : safe n (deliver_interrupt ca vec ip) any.
Proof.
  unfold deliver_interrupt. eapply safe_bind; [apply safe_get_cpu|]. intros c _. apply as_step_safe.
  apply or_leave_any; [apply push16_safe|]. intros _. eapply safe_bind; [apply safe_get_cpu|]. intros c' _.
  do 2 (apply or_leave_any; [apply push16_safe|]; intros _).
  eapply safe_bind; [apply safe_upd_flags; auto with safe|]. intros _ _. cbn zeta.
  eapply safe_bind; [apply read2_safe|]. intros [v|t] _; [|apply trap_err_safe].
  eapply safe_bind; [apply read2_safe|]. intros [v'|t] _; [|apply trap_err_safe].
  apply upd_ok_safe. intros x Hx. apply cpu_wf_rip; [apply cpu_wf_cs; [done|]|apply (in_width_mono 16); [lia|]];
    apply wrap_range; lia.
Qed.
Lemma set_cs_rip_safe {A} v ip (r : A) : in_width 16 v -> in_width 16 ip ->
  safe n (upd_cpu (fun c => set_rip (set_cs c v) ip);; mret r) any.
Proof.
  intros. apply upd_ok_safe. intros. apply cpu_wf_rip; [by apply cpu_wf_cs|by apply (in_width_mono 16)].
Qed.
Lemma exec_iret_real_safe : safe n (exec_iret_real ca) any.
Proof.
  apply as_step_safe. do 3 (apply (or_leave_safe _ _ (in_width 16)); [apply pop16_safe|]; intros ? ?).
  eapply safe_bind; [apply safe_upd_flags; auto with safe|]. intros _ _. by apply set_cs_rip_safe.
Qed.
Lemma exec_loop_cx_safe k a b : in_width 64 a -> in_width 64 b -> safe n (exec_loop_cx k a b) any.
Proof.
  intros. unfold exec_loop_cx. eapply safe_bind; [apply safe_get_cpu|]. intros c Hc. cbn zeta.
  assert (Hdec : forall r, safe n (upd_cpu (fun c0 => put_gpr16 c0 RCX (wrapping_sub 16 (gpr16 c RCX) 1));; mret (M := M) (r : bool)) any).
  { intros r. apply upd_ok_safe. intros x Hx. apply cpu_wf_put16; [done|]. apply (wrap_range 16). lia. }
  eapply (safe_bind n _ _ any); [destruct k; first [by apply safe_ret|apply Hdec]|]. intros t _.
  apply upd_ok_safe. intros. destruct t; auto with safe.
Qed.
Lemma low16_range x : in_width 16 (Z.land x 0xFFFF).
Proof. change 0xFFFF with (Z.ones 16). rewrite Z.land_ones by lia. apply (wrap_range 16). lia. Qed.
Lemma exec_far_jump_safe c i : val_ok n c -> val_ok n i -> safe n (exec_far_jump c i) any.
Proof.
  intros. unfold exec_far_jump. eapply safe_bind; [by apply safe_read_val|]. intros cv _.
  eapply safe_bind; [apply safe_upd_cpu; intros; apply cpu_wf_cs; [done|apply low16_range]|]. intros _ _.
  eapply safe_bind; [by apply safe_read_val|]. intros iv _. apply upd_ok_safe. intros.
  apply cpu_wf_rip; [done|]. apply (in_width_mono 16); [lia|apply low16_range].
Qed.
Lemma exec_far_call_safe c i r : val_ok n c -> val_ok n i -> safe n (exec_far_call ca c i r) any.
Proof.
  intros. unfold exec_far_call. do 2 (eapply safe_bind; [by apply safe_read_val|intros ? _]).
  eapply safe_bind; [apply safe_get_cpu|]. intros x _. apply as_step_safe.
  do 2 (apply or_leave_any; [apply push16_safe|]; intros _). apply set_cs_rip_safe; apply low16_range.
Qed.
Lemma exec_far_ret_safe pe : safe n (exec_far_ret ca pe) any.
Proof.
  apply as_step_safe. do 2 (apply (or_leave_safe _ _ (in_width 16)); [apply pop16_safe|]; intros ? ?).
  eapply (safe_bind n _ _ any); [|intros _ _; by apply set_cs_rip_safe].
  destruct (negb _); [|by apply safe_ret]. apply safe_upd_cpu. intros. apply cpu_wf_put16; [done|].
  apply (wrap_range 16). lia.
Qed.
End ControlSafe.

(** ** The stack as a list of words *)

Lemma v_le_put_same g a v n : v_le (v_put g a v n) a n = wrap (8 * Z.of_nat (Z.to_nat n)) v.
Proof.
  rewrite <- from_to_le_bytes. unfold v_le. f_equal. apply list_eq_same_length with (n := Z.to_nat n);
    [by rewrite length_to_le_bytes|by rewrite length_fmap, length_zseq|].
  intros i x y Hi Hx Hy. rewrite list_lookup_fmap, lookup_zseq in Hx by done. simplify_eq/=.
  rewrite length_to_le_bytes. repeat zcase; try lia.
  replace (Z.to_nat (a + Z.of_nat i - a)) with i by lia. by apply nth_lookup_Some.
Qed.

Lemma v_le_put_other g a v n b k : 0 <= n -> b + k <= a \/ a + n <= b -> 0 <= k ->
  v_le (v_put g a v n) b k = v_le g b k.
Proof.
  intros Hn Hd Hk. unfold v_le. f_equal. apply list_fmap_ext. intros i x Hx.
  apply list_elem_of_lookup_2, zseq_elem in Hx. cbn [v_put v_store v_byte]. rewrite length_to_le_bytes.
  repeat zcase; (done || lia).
Qed.

(** Every word of the stack segment is RAM. *)
Definition stack_ram (s : mach) : Prop :=
  forall o, 0 <= o < 2 ^ 16 -> v_kind (view (m_mem s)) (ss_addr (m_cpu s) o) 2 = Some Ram.

(** The address of the [i]-th word above the top of the stack. *)
Definition stack_slot (c : CpuState) (i : Z) : Z := ss_addr c (wrap 16 (gpr16 c RSP + 2 * i)).

Definition stack_words (s : mach) (ws : list Z) : Prop :=
  forall i w, ws !! i = Some w -> v_le (view (m_mem s)) (stack_slot (m_cpu s) (Z.of_nat i)) 2 = w.

(** [c'] is [c] with SP moved by [k]; the other registers and SS are the same. *)
Definition sp_moved (c c' : CpuState) (k : Z) : Prop :=
  (forall j, j <> RSP -> get_gpr c' j = get_gpr c j) /\
  Z.shiftr (get_gpr c' RSP) 16 = Z.shiftr (get_gpr c RSP) 16 /\
  gpr16 c' RSP = wrap 16 (gpr16 c RSP + k) /\ ss c' = ss c.

Lemma put16_same c i v : cpu_wf c -> (i < 16)%nat -> in_width 16 v ->
  gpr16 (put_gpr16 c i v) i = v /\ Z.shiftr (get_gpr (put_gpr16 c i v) i) 16 = Z.shiftr (get_gpr c i) 16.
Proof.
  intros Hc Hi Hv. unfold gpr16, put_gpr16. rewrite get_put_gpr by (apply Hc || done).
  destruct (decide (i = i)); [|done]. by apply (low_replaced 16); [lia| |apply get_gpr_range|].
Qed.
Lemma put16_other c i j v : cpu_wf c -> (i < 16)%nat -> i <> j -> get_gpr (put_gpr16 c i v) j = get_gpr c j.
Proof. intros Hc Hi Hj. unfold put_gpr16. rewrite get_put_gpr by (apply Hc || done). by case_decide. Qed.

Lemma put_sp_moved c k v : cpu_wf c -> v = wrap 16 (gpr16 c RSP + k) -> sp_moved c (put_gpr16 c RSP v) k.
Proof.
  intros Hc ->. assert (Hr : (RSP < 16)%nat) by (cbv; lia).
  destruct (put16_same c RSP (wrap 16 (gpr16 c RSP + k)) Hc Hr) as [H1 H2]; [apply wrap_range; lia|].
  split; [intros; by apply put16_other|done].
Qed.

Lemma sp_moved_trans c c1 c2 j k : sp_moved c c1 j -> sp_moved c1 c2 k -> sp_moved c c2 (j + k).
Proof.
  intros (A1 & A2 & A3 & A4) (B1 & B2 & B3 & B4). split; [intros; by rewrite B1, A1|].
  split; [congruence|]. split; [|congruence]. rewrite B3, A3, wrap_add_l by lia. f_equal. lia.
Qed.

Lemma low_high_eq x y w : 0 <= w -> wrap w x = wrap w y -> Z.shiftr x w = Z.shiftr y w -> x = y.
Proof.
  intros Hw H1 H2. rewrite !Z.shiftr_div_pow2 in H2 by lia. unfold wrap in H1. pose proof (pow2_pos w Hw).
  rewrite (Z.div_mod x (2 ^ w)), (Z.div_mod y (2 ^ w)) by lia. by rewrite H1, H2.
Qed.

(** A balanced sequence of pushes and pops restores every register. *)
Lemma sp_moved_zero c c' : sp_moved c c' 0 -> forall j, get_gpr c' j = get_gpr c j.
Proof.
  intros (A1 & A2 & A3 & _) j. destruct (decide (j = RSP)) as [->|]; [|by apply A1].
  apply (low_high_eq _ _ 16); [lia| |done]. unfold gpr16 in A3. by rewrite A3, Z.add_0_r, wrap_wrap by lia.
Qed.

Lemma stack_slot_moved c c' k i : sp_moved c c' (2 * k) -> stack_slot c' i = stack_slot c (i + k).
Proof.
  intros (_ & _ & H & Hs). unfold stack_slot, ss_addr. rewrite H, Hs, wrap_add_l by lia. do 2 f_equal. lia.
Qed.

Lemma slot_ram s i : stack_ram s -> v_kind (view (m_mem s)) (stack_slot (m_cpu s) i) 2 = Some Ram.
Proof. intros H. apply H. apply (wrap_range 16). lia. Qed.

Lemma stack_ram_moved s s' : stack_ram s -> ss (m_cpu s') = ss (m_cpu s) ->
  (forall a n, v_kind (view (m_mem s')) a n = v_kind (view (m_mem s)) a n) -> stack_ram s'.
Proof. intros H Es Ek o Ho. unfold ss_addr. rewrite Es, Ek. by apply H. Qed.

(** Distinct slots of a stack of fewer than 2^15 words do not overlap. *)
Lemma slots_apart c i j : 0 < i - j < 32768 ->
  stack_slot c i + 2 <= stack_slot c j \/ stack_slot c j + 2 <= stack_slot c i.
Proof.
  intros H. unfold stack_slot, ss_addr. set (b := Z.shiftl (ss c) 4). set (p := gpr16 c RSP). clearbody b p.
  unfold wrap. change (2 ^ 16) with 65536.
  assert (Hx : (p + 2 * i) mod 65536 - (p + 2 * j) mod 65536 = 2 * (i - j) \/
    (p + 2 * i) mod 65536 - (p + 2 * j) mod 65536 = 2 * (i - j) - 65536).
  { Z.div_mod_to_equations. lia. }
  lia.
Qed.

(** What the machine keeps across a stack operation. *)
Record stack_step (s s' : mach) (k : Z) (ws : list Z) : Prop := {
  st_moved : sp_moved (m_cpu s) (m_cpu s') k;
  st_cpu : cpu_wf (m_cpu s');
  st_mem : mem_wf (m_mem s');
  st_temps : m_temps s' = m_temps s;
  st_kind : forall a n, v_kind (view (m_mem s')) a n = v_kind (view (m_mem s)) a n;
  st_words : stack_words s' ws;
}.

Section StackSteps.
Context (ca : Z).

Lemma push16_step s w ws : cpu_wf (m_cpu s) -> mem_wf (m_mem s) -> stack_ram s -> stack_words s ws ->
  Z.of_nat (length ws) < 32767 -> in_width 16 w ->
  exists s' v, push16 ca w s = Some (Ok tt, s') /\ stack_step s s' (-2) (w :: ws) /\
    m_cpu s' = put_gpr16 (m_cpu s) RSP v.
Proof.
  intros Hc Hm Hr Hws Hlen Hw. assert (H2 : valid_elem 2) by (unfold valid_elem; lia).
  set (v := wrapping_sub 16 (gpr16 (m_cpu s) RSP) 2).
  assert (Ea : ss_addr (m_cpu s) v = stack_slot (m_cpu s) (-1)) by (unfold stack_slot, v, wrapping_sub; do 2 f_equal; lia).
  destruct (write_refines (m_mem s) (ss_addr (m_cpu s) v) w 2 Hm H2) as (m' & E & Hm' & Hv').
  unfold g_write in E, Hv'. rewrite Ea, slot_ram in E, Hv' by done. cbn [fst snd] in E, Hv'. rewrite <- Ea in E.
  exists (mkMach (put_gpr16 (m_cpu s) RSP v) m' (m_temps s)), v.
  assert (Hmv : sp_moved (m_cpu s) (put_gpr16 (m_cpu s) RSP v) (-2)) by (apply put_sp_moved; [done|]; unfold v, wrapping_sub; f_equal; lia).
  split; [|split; [|done]].
  - unfold push16. rewrite (bind_run _ _ s (m_cpu s) s) by done. cbn zeta. fold v.
    rewrite (bind_run _ _ s (Ok tt) (mkMach (m_cpu s) m' (m_temps s))) by (unfold on_mem; by rewrite E). done.
  - split; cbn [m_cpu m_mem m_temps]; try done.
    + apply cpu_wf_put16; [done|]. apply (wrap_range 16). lia.
    + intros a n. by rewrite (proj1 Hv').
    + intros [|i] x Hx; cbn [lookup list_lookup m_cpu m_mem] in *.
      * injection Hx as ->. rewrite (v_le_proper _ _ Hv' _ _ eq_refl _ _ eq_refl).
        rewrite (stack_slot_moved (m_cpu s) (put_gpr16 (m_cpu s) RSP v) (-1)) by exact Hmv. change (Z.of_nat 0 + -1) with (-1).
        rewrite v_le_put_same. by apply (wrap_small 16).
      * rewrite (v_le_proper _ _ Hv' _ _ eq_refl _ _ eq_refl). rewrite (stack_slot_moved (m_cpu s) (put_gpr16 (m_cpu s) RSP v) (-1)) by exact Hmv.
        replace (Z.of_nat (S i) + -1) with (Z.of_nat i) by lia.
        pose proof (lookup_lt_Some _ _ _ Hx). pose proof (slots_apart (m_cpu s) (Z.of_nat i) (-1) ltac:(lia)).
        rewrite v_le_put_other by lia. by apply Hws.
Qed.

Lemma pop16_step s w ws : cpu_wf (m_cpu s) -> mem_wf (m_mem s) -> stack_ram s -> stack_words s (w :: ws) ->
  in_width 16 w ->
  exists s' v, pop16 ca s = Some (Ok w, s') /\ stack_step s s' 2 ws /\ m_cpu s' = put_gpr16 (m_cpu s) RSP v.
Proof.
  intros Hc Hm Hr Hws Hw. assert (H2 : valid_elem 2) by (unfold valid_elem; lia).
  set (v := wrapping_add 16 (gpr16 (m_cpu s) RSP) 2).
  assert (Ea : ss_addr (m_cpu s) (gpr16 (m_cpu s) RSP) = stack_slot (m_cpu s) 0).
  { unfold stack_slot. rewrite Z.mul_0_r, Z.add_0_r. f_equal. symmetry. apply wrap_small, gpr16_range. }
  destruct (read_refines (m_mem s) (ss_addr (m_cpu s) (gpr16 (m_cpu s) RSP)) 2 Hm H2) as (m' & E & Hm' & Hv').
  pose proof (Hws 0%nat w eq_refl) as Hw0. change (Z.of_nat 0) with 0 in Hw0.
  unfold g_read in E. rewrite Ea, slot_ram, Hw0 in E by done. rewrite <- Ea in E.
  exists (mkMach (put_gpr16 (m_cpu s) RSP v) m' (m_temps s)), v.
  assert (Hmv : sp_moved (m_cpu s) (put_gpr16 (m_cpu s) RSP v) 2) by (by apply put_sp_moved).
  split; [|split; [|done]].
  - unfold pop16. rewrite (bind_run _ _ s (m_cpu s) s) by done. cbn zeta.
    rewrite (bind_run _ _ s (Ok w) (mkMach (m_cpu s) m' (m_temps s))) by (unfold on_mem; by rewrite E).
    unfold mbind, M_bind, upd_cpu, mret, M_ret. cbn [m_cpu m_mem m_temps]. by rewrite wrap_small.
  - split; cbn [m_cpu m_mem m_temps]; try done.
    + apply cpu_wf_put16; [done|]. apply (wrap_range 16). lia.
    + intros a n. by rewrite (proj1 Hv').
    + intros i x Hx. cbn [m_cpu m_mem]. rewrite (v_le_proper _ _ Hv' _ _ eq_refl _ _ eq_refl).
      rewrite (stack_slot_moved (m_cpu s) (put_gpr16 (m_cpu s) RSP v) 1) by exact Hmv. replace (Z.of_nat i + 1) with (Z.of_nat (S i)) by lia.
      by apply (Hws (S i)).
Qed.

Lemma or_leave_run {A B} (c : M (Result A StepResult)) (k : A -> M (Result B StepResult)) s v s' :
  c s = Some (Ok v, s') -> or_leave c k s = k v s'.
Proof. intros E. unfold or_leave. by rewrite (bind_run _ _ _ _ _ E). Qed.

Lemma stack_ram_step s s' k ws : stack_ram s -> stack_step s s' k ws -> stack_ram s'.
Proof. intros Hr [Hmv _ _ _ Hk _]. eapply stack_ram_moved; [done|apply Hmv|done]. Qed.

Lemma push_all_step ws : forall s acc, cpu_wf (m_cpu s) -> mem_wf (m_mem s) -> stack_ram s -> stack_words s acc ->
  Z.of_nat (length acc + length ws) < 32767 -> Forall (in_width 16) ws ->
  exists s', push_all ca ws s = Some (Ok tt, s') /\
    stack_step s s' (-2 * Z.of_nat (length ws)) (rev ws ++ acc) /\
    flags (m_cpu s') = flags (m_cpu s) /\ cs (m_cpu s') = cs (m_cpu s) /\ rip (m_cpu s') = rip (m_cpu s).
Proof.
  induction ws as [|w ws IH]; intros s acc Hc Hm Hr Ha Hlen Hw; cbn [push_all rev].
  - exists s. split; [done|]. split; [|done]. split; try done. split; [done|]. split; [done|]. split; [|done].
    symmetry. rewrite Z.add_0_r. apply wrap_small, gpr16_range.
  - apply list.Forall_cons in Hw as [Hw Hws]. cbn [length] in Hlen.
    destruct (push16_step s w acc Hc Hm Hr Ha ltac:(lia) Hw) as (s1 & v & E1 & H1 & Ec1).
    destruct (IH s1 (w :: acc)) as (s2 & E2 & H2 & F); try apply H1; try done;
      [by eapply stack_ram_step|cbn [length]; lia|].
    exists s2. rewrite (or_leave_run _ _ _ _ _ E1). split; [exact E2|]. rewrite Ec1 in F. split; [|exact F].
    destruct H1 as [M1 _ _ T1 K1 _], H2 as [M2 C2 R2 T2 K2 W2]. split; try done.
    + replace (-2 * Z.of_nat (length (w :: ws))) with (-2 + -2 * Z.of_nat (length ws)) by (cbn [length]; lia).
      by eapply sp_moved_trans.
    + congruence.
    + intros. by rewrite K2, K1.
    + by rewrite <- app_assoc.
Qed.
End StackSteps.

(** ** Interrupt frames *)

(** The flags, CS and RIP of a machine after pushes are those before. *)
Definition frame_words (c : CpuState) (ip : Z) : list Z := [wrap 16 ip; cs c; to_flags16 (flags c)].

Lemma cs_range c : cpu_wf c -> in_width 16 (cs c).
Proof. intros H. apply H. Qed.

Lemma word_wrap m a : mem_wf m -> wrap 16 (v_le (view m) a 2) = v_le (view m) a 2.
Proof.
  intros Hm. apply wrap_small. unfold v_le.
  assert (Hb : Forall (in_width 8) (v_byte (view m) <$> zseq a 2))
    by (apply Forall_fmap, list.Forall_forall; intros; apply (wf_bytes _ _ _ _ Hm)).
  by apply from_le_bytes_range in Hb.
Qed.

Lemma stack_words_nil s : stack_words s [].
Proof. by intros i w Hi. Qed.

(** The machine after the three pushes of an interrupt. *)
Lemma push_frame s ca ip : cpu_wf (m_cpu s) -> mem_wf (m_mem s) -> stack_ram s ->
  exists s', stack_step s s' (-6) (frame_words (m_cpu s) ip) /\
    flags (m_cpu s') = flags (m_cpu s) /\ cs (m_cpu s') = cs (m_cpu s) /\
    forall (k : M (Result StepResult StepResult)),
    or_leave (push16 ca (to_flags16 (flags (m_cpu s)))) (fun _ =>
      c ← get_cpu; or_leave (push16 ca (cs c)) (fun _ =>
      or_leave (push16 ca (wrap 16 ip)) (fun _ => k))) s = k s'.
Proof.
  intros Hc Hm Hr.
  destruct (push16_step ca s (to_flags16 (flags (m_cpu s))) [] Hc Hm Hr (stack_words_nil s) ltac:(cbn; lia) (to_flags16_range _))
    as (s1 & v1 & E1 & H1 & C1).
  destruct (push16_step ca s1 (cs (m_cpu s)) [to_flags16 (flags (m_cpu s))] (st_cpu _ _ _ _ H1) (st_mem _ _ _ _ H1)
    (stack_ram_step _ _ _ _ Hr H1) (st_words _ _ _ _ H1) ltac:(cbn; lia) (cs_range _ Hc)) as (s2 & v2 & E2 & H2 & C2).
  destruct (push16_step ca s2 (wrap 16 ip) [cs (m_cpu s); to_flags16 (flags (m_cpu s))] (st_cpu _ _ _ _ H2) (st_mem _ _ _ _ H2)
    (stack_ram_step _ _ _ _ (stack_ram_step _ _ _ _ Hr H1) H2) (st_words _ _ _ _ H2) ltac:(cbn; lia)
    ltac:(apply wrap_range; lia)) as (s3 & v3 & E3 & H3 & C3).
  exists s3. split; [|split; [by rewrite C3, C2, C1|split; [by rewrite C3, C2, C1|]]].
  - split; try apply H3.
    + exact (sp_moved_trans _ _ _ _ _ (sp_moved_trans _ _ _ _ _ (st_moved _ _ _ _ H1) (st_moved _ _ _ _ H2)) (st_moved _ _ _ _ H3)).
    + by rewrite (st_temps _ _ _ _ H3), (st_temps _ _ _ _ H2), (st_temps _ _ _ _ H1).
    + intros. by rewrite (st_kind _ _ _ _ H3), (st_kind _ _ _ _ H2), (st_kind _ _ _ _ H1).
  - intros k. rewrite (or_leave_run _ _ _ _ _ E1), (bind_run _ _ s1 (m_cpu s1) s1) by done.
    replace (cs (m_cpu s1)) with (cs (m_cpu s)) by (by rewrite C1).
    by rewrite (or_leave_run _ _ _ _ _ E2), (or_leave_run _ _ _ _ _ E3).
Qed.

(** A CPU that differs from [c] in flags, CS and RIP only. *)
Lemma sp_moved_ctl c f v r : sp_moved c (set_rip (set_cs (set_flags c f) v) r) 0.
Proof.
  split; [done|]. split; [done|]. split; [|done]. rewrite Z.add_0_r. symmetry. apply wrap_small, gpr16_range.
Qed.

(** ** Registers after [popa] *)

Fixpoint popped (order : list (option nat)) (ws : list Z) (j : nat) : option Z :=
  match order, ws with
  | slot :: order, w :: ws =>
      match popped order ws j with
      | Some v => Some v
      | None => if decide (slot = Some j) then Some w else None
      end
  | _, _ => None
  end.

Lemma pop_all_step ca order : forall s ws, cpu_wf (m_cpu s) -> mem_wf (m_mem s) -> stack_ram s -> stack_words s ws ->
  Forall (in_width 16) ws -> length ws = length order ->
  Forall (fun o => forall i, o = Some i -> (i < 16)%nat /\ i <> RSP) order ->
  exists s', pop_all ca order s = Some (Ok tt, s') /\ cpu_wf (m_cpu s') /\
    gpr16 (m_cpu s') RSP = wrap 16 (gpr16 (m_cpu s) RSP + 2 * Z.of_nat (length order)) /\
    (forall j, Z.shiftr (get_gpr (m_cpu s') j) 16 = Z.shiftr (get_gpr (m_cpu s) j) 16) /\
    (forall j, j <> RSP -> gpr16 (m_cpu s') j = default (gpr16 (m_cpu s) j) (popped order ws j)).
Proof.
  induction order as [|slot order IH]; intros s [|w ws] Hc Hm Hr Hws Hw Hlen Ho; try done; cbn [pop_all].
  - exists s. split; [done|]. split; [done|]. split; [|done]. rewrite Z.add_0_r. symmetry. apply wrap_small, gpr16_range.
  - apply list.Forall_cons in Hw as [Hw Hw']. apply list.Forall_cons in Ho as [Ho Ho']. cbn [length] in Hlen.
    destruct (pop16_step ca s w ws Hc Hm Hr Hws Hw) as (s1 & v & E1 & H1 & C1).
    rewrite (or_leave_run _ _ _ _ _ E1). pose proof H1 as [(G1 & U1 & P1 & S1) Hc1 Hm1 T1 K1 W1].
    set (c2 := match slot with Some i => put_gpr16 (m_cpu s1) i w | None => m_cpu s1 end).
    set (s2 := mkMach c2 (m_mem s1) (m_temps s1)).
    assert (Hstep : forall k : M (Result unit StepResult), ((match slot with
         | Some i => upd_cpu (fun c => put_gpr16 c i w) | None => mret tt end);; k) s1 = k s2).
    { intros k. unfold s2, c2. destruct slot; [done|]. by destruct s1. }
    rewrite Hstep.
    assert (Hc2 : cpu_wf c2) by (unfold c2; destruct slot; [by apply cpu_wf_put16|done]).
    assert (Hsp2 : get_gpr c2 RSP = get_gpr (m_cpu s1) RSP).
    { unfold c2. destruct slot as [i|]; [|done]. destruct (Ho i eq_refl). by apply put16_other. }
    assert (Hss2 : ss c2 = ss (m_cpu s1)) by (unfold c2; by destruct slot).
    destruct (IH s2 ws) as (s3 & E3 & Hc3 & P3 & U3 & L3); try done; [| |lia|].
    + by apply (stack_ram_moved s1); [eapply stack_ram_step| |].
    + intros i x Hx. cbn [m_cpu m_mem s2]. unfold stack_slot, ss_addr, gpr16. rewrite Hsp2, Hss2. by apply W1.
    + exists s3. split; [exact E3|]. split; [done|]. cbn [m_cpu s2] in *. split; [|split].
      * unfold gpr16 in *. rewrite P3, Hsp2, P1, wrap_add_l by lia. f_equal. cbn [length]. lia.
      * intros j. rewrite U3. unfold c2. destruct slot as [i|]; [|destruct (decide (j = RSP)) as [->|]; [done|by rewrite G1]].
        destruct (Ho i eq_refl) as [Hi Hi']. destruct (decide (i = j)) as [<-|Hij].
        -- rewrite (proj2 (put16_same (m_cpu s1) i w Hc1 Hi Hw)). by rewrite G1.
        -- rewrite put16_other by done. destruct (decide (j = RSP)) as [->|]; [done|by rewrite G1].
      * intros j Hj. rewrite L3 by done. cbn [popped]. destruct (popped order ws j) as [x|]; [done|]. cbn [default].
        unfold c2. case_decide as E; [subst slot; by apply (put16_same (m_cpu s1)); [|apply (Ho j)|]|].
        cbn [default]. unfold gpr16. rewrite <- (G1 j Hj). destruct slot as [i|]; [|done].
        destruct (Ho i eq_refl). rewrite put16_other; [done..|congruence].
Qed.

(** ** Theorems *)

(** A guest with 128 KiB of RAM; SS = 0, SP = 4, CS = 7, IF set. *)
Definition ex_real_ram : Backing := mkBacking 4096 131072 0 (Host true) ∅ [].
Definition ex_real_empty : Memory :=
  mkMemory (Flat 131072) ex_real_ram [] [0] 0 [] false (mkWatch [0] [0] [] 0) 0 0.
Definition ex_real_mem : Memory := map_ok ex_real_empty 0 131072 RW Ram.
Definition ex_real : mach :=
  mkMach (set_flags (set_cs (put_gpr default_cpu RSP 0xABCD0004) 7) (set_if_ default_flags true)) ex_real_mem [].

Lemma ex_real_map_wf a n : in_width 64 a -> 0 < n < 2 ^ 64 -> mem_wf (map_ok ex_real_empty a n RW Ram).
Proof.
  intros. apply reach_space_inv, map_ok_reach; [done|done|].
  apply (reach_host (Flat 131072) ex_real_ram); [done|apply bytes_wf_empty|done|reflexivity].
Qed.
Lemma ex_real_mem_wf : mem_wf ex_real_mem.
Proof. apply ex_real_map_wf; [split; lia|lia]. Qed.

Lemma ex_real_cpu_wf : cpu_wf (m_cpu ex_real).
Proof.
  apply cpu_wf_set_flags; [|split; vm_compute; split; congruence]. apply cpu_wf_cs; [|unfold in_width; lia].
  apply gprs_insert_wf; [apply default_cpu_wf|unfold in_width; lia].
Qed.

Lemma ex_real_kind a n : 0 <= a -> a + n <= 131072 -> v_kind (view ex_real_mem) a n = Some Ram.
Proof.
  intros. rewrite (one_region_kind ex_real_mem (mkMemRegion 0 131072 RW Ram) a n eq_refl). unfold contains.
  change (region_end _) with 131072. cbn [start kind]. repeat zcase; (done || lia).
Qed.

Lemma ex_real_stack : stack_ram ex_real.
Proof. intros o Ho. apply ex_real_kind; change (ss_addr (m_cpu ex_real) o) with o; lia. Qed.

Lemma ex_real_ok : mach_ok 0 ex_real.
Proof. split; [apply ex_real_cpu_wf|apply ex_real_mem_wf|done|constructor]. Qed.

(** Delivery: the frame is on the stack, IF is clear and CS:IP come from the table. *)
Lemma deliver_spec s ca vec ip : cpu_wf (m_cpu s) -> mem_wf (m_mem s) -> stack_ram s ->
  v_kind (view (m_mem s)) (vec * 4) 2 = Some Ram -> v_kind (view (m_mem s)) (vec * 4 + 2) 2 = Some Ram ->
  exists s1, deliver_interrupt ca vec ip s = Some (Continue, s1) /\
    stack_step s s1 (-6) (frame_words (m_cpu s) ip) /\ flags (m_cpu s1) = set_if_ (flags (m_cpu s)) false /\
    rip (m_cpu s1) = v_le (view (m_mem s1)) (vec * 4) 2 /\ cs (m_cpu s1) = v_le (view (m_mem s1)) (vec * 4 + 2) 2.
Proof.
  intros Hc Hm Hr Hk1 Hk2. assert (H2 : valid_elem 2) by (unfold valid_elem; lia).
  destruct (push_frame s ca ip Hc Hm Hr) as (s0 & H0 & F0 & C0 & Hrun).
  destruct (read_refines (m_mem s0) (vec * 4) 2 (st_mem _ _ _ _ H0) H2) as (m1 & E1 & Hm1 & V1).
  unfold g_read in E1. rewrite (st_kind _ _ _ _ H0), Hk1 in E1.
  destruct (read_refines m1 (vec * 4 + 2) 2 Hm1 H2) as (m2 & E2 & Hm2 & V2).
  unfold g_read in E2. rewrite (proj1 V1), (st_kind _ _ _ _ H0), Hk2 in E2.
  assert (V : view_eq (view m2) (view (m_mem s0))) by (by etransitivity).
  rewrite <- (v_le_proper _ _ V _ _ eq_refl _ _ eq_refl) in E1. rewrite <- (v_le_proper _ _ V2 _ _ eq_refl _ _ eq_refl) in E2.
  pose proof (fun a => word_wrap m2 a Hm2) as Hle.
  set (c1 := set_rip (set_cs (set_flags (m_cpu s0) (set_if_ (flags (m_cpu s0)) false)) (v_le (view m2) (vec * 4 + 2) 2))
               (v_le (view m2) (vec * 4) 2)).
  assert (Hmv1 : sp_moved (m_cpu s0) c1 0) by apply sp_moved_ctl.
  exists (mkMach c1 m2 (m_temps s0)). split; [|split; [|by rewrite <- F0]].
  - unfold deliver_interrupt. rewrite (bind_run _ _ s (m_cpu s) s) by done. cbn zeta. unfold as_step.
    erewrite bind_run; [|rewrite Hrun; rewrite (bind_run _ _ s0 tt (with_flags s0 (set_if_ (flags (m_cpu s0)) false))) by done;
      erewrite bind_run by (unfold on_mem; cbn [m_mem with_flags]; rewrite E1; reflexivity); cbn iota;
      erewrite bind_run by (unfold on_mem; cbn [m_mem]; rewrite E2; reflexivity); reflexivity].
    cbn iota. unfold mret, M_ret, c1. cbn [m_cpu m_temps with_flags]. by rewrite !Hle.
  - split; cbn [m_cpu m_mem m_temps]; try done.
    + exact (sp_moved_trans _ _ _ _ _ (st_moved _ _ _ _ H0) Hmv1).
    + apply cpu_wf_rip; [apply cpu_wf_cs; [apply cpu_wf_set_flags; [apply H0|apply flags_wf_if, cpu_flags_wf, H0]|]
        |apply (in_width_mono 16); [lia|]]; rewrite <- Hle; apply wrap_range; lia.
    + apply H0.
    + intros a n. rewrite (proj1 V). apply H0.
    + intros i x Hx. cbn [m_cpu m_mem]. rewrite (v_le_proper _ _ V _ _ eq_refl _ _ eq_refl).
      rewrite (stack_slot_moved (m_cpu s0) c1 0) by exact Hmv1. rewrite Z.add_0_r. by apply H0.
Qed.

(** [iret] pops the frame. *)
Lemma iret_spec s ca ip cs_ fl : cpu_wf (m_cpu s) -> mem_wf (m_mem s) -> stack_ram s -> stack_words s [ip; cs_; fl] ->
  in_width 16 ip -> in_width 16 cs_ -> in_width 16 fl ->
  exists s', exec_iret_real ca s = Some (Continue, s') /\ sp_moved (m_cpu s) (m_cpu s') 6 /\
    rip (m_cpu s') = ip /\ cs (m_cpu s') = cs_ /\ flags (m_cpu s') = set_flags16 (flags (m_cpu s)) fl.
Proof.
  intros Hc Hm Hr Hw Hip Hcs Hfl.
  destruct (pop16_step ca s _ _ Hc Hm Hr Hw Hip) as (s2 & v2 & P2 & H2 & C2).
  pose proof (stack_ram_step _ _ _ _ Hr H2) as R2.
  destruct (pop16_step ca s2 _ _ (st_cpu _ _ _ _ H2) (st_mem _ _ _ _ H2) R2 (st_words _ _ _ _ H2) Hcs) as (s3 & v3 & P3 & H3 & C3).
  destruct (pop16_step ca s3 _ _ (st_cpu _ _ _ _ H3) (st_mem _ _ _ _ H3) (stack_ram_step _ _ _ _ R2 H3)
    (st_words _ _ _ _ H3) Hfl) as (s4 & v4 & P4 & H4 & C4).
  eexists. split; [|split; [|split; [|split]]].
  - unfold exec_iret_real, as_step.
    erewrite bind_run; [|rewrite (or_leave_run _ _ _ _ _ P2), (or_leave_run _ _ _ _ _ P3), (or_leave_run _ _ _ _ _ P4); reflexivity].
    reflexivity.
  - exact (sp_moved_trans _ _ _ _ _ (sp_moved_trans _ _ _ _ _ (sp_moved_trans _ _ _ _ _
      (st_moved _ _ _ _ H2) (st_moved _ _ _ _ H3)) (st_moved _ _ _ _ H4)) (sp_moved_ctl (m_cpu s4) _ _ _)).
  - done.
  - done.
  - cbn [m_cpu flags set_rip set_cs set_flags]. by rewrite C4, C3, C2.
Qed.

(** C35: an interrupt returns: delivery through the vector table pushes FLAGS, CS and IP,
    clears IF and enters the handler the table names; [iret] from there resumes at the
    saved CS:IP with every flag (IF included) and every general register as before,
    wherever SP points in the 16-bit stack segment. *)
Theorem interrupt_return_round_trip (s : mach) (ca ca' vec ip : Z) :
  cpu_wf (m_cpu s) -> mem_wf (m_mem s) -> stack_ram s ->
  v_kind (view (m_mem s)) (vec * 4) 2 = Some Ram -> v_kind (view (m_mem s)) (vec * 4 + 2) 2 = Some Ram ->
  exists s1 s2, deliver_interrupt ca vec ip s = Some (Continue, s1) /\
    if_ (flags (m_cpu s1)) = false /\ stack_words s1 (frame_words (m_cpu s) ip) /\
    rip (m_cpu s1) = v_le (view (m_mem s1)) (vec * 4) 2 /\ cs (m_cpu s1) = v_le (view (m_mem s1)) (vec * 4 + 2) 2 /\
    exec_iret_real ca' s1 = Some (Continue, s2) /\
    rip (m_cpu s2) = wrap 16 ip /\ cs (m_cpu s2) = cs (m_cpu s) /\ flags_eq (flags (m_cpu s2)) (flags (m_cpu s)) /\
    forall j, get_gpr (m_cpu s2) j = get_gpr (m_cpu s) j.
Proof.
  intros Hc Hm Hr Hk1 Hk2. destruct (deliver_spec s ca vec ip Hc Hm Hr Hk1 Hk2) as (s1 & E1 & H1 & F1 & I1 & C1).
  destruct (iret_spec s1 ca' (wrap 16 ip) (cs (m_cpu s)) (to_flags16 (flags (m_cpu s))) (st_cpu _ _ _ _ H1) (st_mem _ _ _ _ H1)
    (stack_ram_step _ _ _ _ Hr H1) (st_words _ _ _ _ H1)) as (s2 & E2 & M2 & I2 & C2 & F2);
    [apply wrap_range; lia|by apply cs_range|apply to_flags16_range|].
  exists s1, s2. split; [exact E1|]. split; [by rewrite F1|]. split; [apply H1|]. split; [exact I1|]. split; [exact C1|].
  split; [exact E2|]. split; [exact I2|]. split; [exact C2|]. split; [rewrite F2; apply set_flags16_to_flags16|].
  apply sp_moved_zero. exact (sp_moved_trans _ _ _ _ _ (st_moved _ _ _ _ H1) M2).
Qed.

Lemma interrupt_return_round_trip_witness : exists s1 s2,
  deliver_interrupt 0x100 8 0x102 ex_real = Some (Continue, s1) /\ stack_words s1 [0x102; 7; 0x202] /\
  exec_iret_real 0x200 s1 = Some (Continue, s2) /\ rip (m_cpu s2) = 0x102 /\ get_gpr (m_cpu s2) RSP = 0xABCD0004.
Proof.
  destruct (interrupt_return_round_trip ex_real 0x100 0x200 8 0x102 ex_real_cpu_wf ex_real_mem_wf ex_real_stack
    (ex_real_kind 32 2 ltac:(lia) ltac:(lia)) (ex_real_kind 34 2 ltac:(lia) ltac:(lia)))
    as (s1 & s2 & E1 & _ & W & _ & _ & E2 & I & _ & _ & G).
  exists s1, s2. split; [exact E1|]. split; [exact W|]. split; [exact E2|]. split; [exact I|exact (G RSP)].
Defined.

(** Interrupt delivery is not restartable when the vector table is unmapped: although
    the stack is mapped, the exit that asks for a retry leaves the three-word frame
    pushed and IF cleared, so the retry saves a FLAGS image that lost IF. *)
Theorem interrupt_fault_not_restartable (s : mach) (ca vec ip : Z) :
  cpu_wf (m_cpu s) -> mem_wf (m_mem s) -> stack_ram s -> v_kind (view (m_mem s)) (vec * 4) 2 = None ->
  exists s1, deliver_interrupt ca vec ip s = Some (SExit (UnmappedMemory (vec * 4) Read), s1) /\
    rip (m_cpu s1) = ca /\ gpr16 (m_cpu s1) RSP = wrap 16 (gpr16 (m_cpu s) RSP - 6) /\
    if_ (flags (m_cpu s1)) = false.
Proof.
  intros Hc Hm Hr Hk. assert (H2 : valid_elem 2) by (unfold valid_elem; lia).
  destruct (push_frame s ca ip Hc Hm Hr) as (s0 & H0 & F0 & C0 & Hrun).
  destruct (read_refines (m_mem s0) (vec * 4) 2 (st_mem _ _ _ _ H0) H2) as (m1 & E1 & _).
  unfold g_read in E1. rewrite (st_kind _ _ _ _ H0), Hk in E1. eexists. split.
  - unfold deliver_interrupt. rewrite (bind_run _ _ s (m_cpu s) s) by done. cbn zeta. unfold as_step.
    erewrite bind_run; [|rewrite Hrun; rewrite (bind_run _ _ s0 tt (with_flags s0 (set_if_ (flags (m_cpu s0)) false))) by done;
      erewrite bind_run by (unfold on_mem; cbn [m_mem with_flags]; rewrite E1; reflexivity); reflexivity].
    reflexivity.
  - split; [done|]. split; [|done]. cbn [m_cpu with_flags]. apply (proj1 (proj2 (proj2 (st_moved _ _ _ _ H0)))).
Qed.

(** The same guest with the vector table's page unmapped and the stack segment at 0x1000. *)
Definition ex_no_ivt : mach :=
  mkMach (set_ss (m_cpu ex_real) 0x100) (map_ok ex_real_empty 4096 126976 RW Ram) [].

Lemma interrupt_fault_not_restartable_witness : exists s1,
  deliver_interrupt 0x2000 8 0x102 ex_no_ivt = Some (SExit (UnmappedMemory 32 Read), s1) /\
  rip (m_cpu s1) = 0x2000 /\ gpr16 (m_cpu s1) RSP = 0xFFFE /\ if_ (flags (m_cpu s1)) = false.
Proof.
  apply (interrupt_fault_not_restartable ex_no_ivt 0x2000 8 0x102).
  - apply cpu_wf_ss; [apply ex_real_cpu_wf|unfold in_width; lia].
  - apply ex_real_map_wf; [split; lia|lia].
  - intros o Ho. change (ss_addr (m_cpu ex_no_ivt) o) with (4096 + o). cbn [m_mem ex_no_ivt].
    rewrite (one_region_kind (map_ok ex_real_empty 4096 126976 RW Ram) (mkMemRegion 4096 126976 RW Ram) (4096 + o) 2 eq_refl). unfold contains.
    change (region_end _) with 131072. cbn [start kind]. repeat zcase; (done || lia).
  - vm_compute. reflexivity.
Defined.

(** [popa] undoes [pusha]: after [pusha], whatever happens to the registers other
    than SP, [popa] restores the low words of all eight registers (SP included) and
    keeps their upper bits. *)
Theorem pusha_popa_round_trip (s : mach) (ca ca' : Z) :
  cpu_wf (m_cpu s) -> mem_wf (m_mem s) -> stack_ram s ->
  exists s1, exec_pusha_real ca s = Some (None, s1) /\
    forall c1, cpu_wf c1 -> get_gpr c1 RSP = get_gpr (m_cpu s1) RSP -> ss c1 = ss (m_cpu s1) ->
      exists s2, exec_popa_real ca' (mkMach c1 (m_mem s1) (m_temps s1)) = Some (None, s2) /\
        (forall j, (j < 8)%nat -> gpr16 (m_cpu s2) j = gpr16 (m_cpu s) j) /\
        (forall j, Z.shiftr (get_gpr (m_cpu s2) j) 16 = Z.shiftr (get_gpr c1 j) 16).
Proof.
  intros Hc Hm Hr. set (ws := (fun i => gpr16 (m_cpu s) i) <$> [RAX; RCX; RDX; RBX; RSP; RBP; RSI; RDI]).
  assert (Hws : Forall (in_width 16) ws) by (apply Forall_fmap, list.Forall_forall; intros; apply gpr16_range).
  destruct (push_all_step ca ws s [] Hc Hm Hr (stack_words_nil s) ltac:(cbn; lia) Hws) as (s1 & E1 & H1 & _).
  exists s1. split.
  { unfold exec_pusha_real. rewrite (bind_run _ _ s (m_cpu s) s) by done. cbn zeta. unfold as_arm.
    rewrite (bind_run _ _ s (Ok tt) s1) by exact E1. done. }
  intros c1 Hc1 Hsp Hss. set (s1' := mkMach c1 (m_mem s1) (m_temps s1)).
  destruct (pop_all_step ca' popa_order s1' (rev ws)) as (s2 & E2 & _ & P2 & U2 & L2); cbn [m_cpu m_mem s1'].
  - done.
  - apply H1.
  - apply (stack_ram_moved s1); [by eapply stack_ram_step|done|done].
  - intros i x Hx. unfold stack_slot, ss_addr, gpr16. cbn [m_cpu m_mem s1']. rewrite Hsp, Hss.
    apply (st_words _ _ _ _ H1). by rewrite app_nil_r.
  - by apply Forall_rev.
  - done.
  - unfold popa_order. repeat (apply list.Forall_cons; split; [intros i Hi; first [discriminate Hi|injection Hi as <-; cbv; lia]|]).
    by apply list.Forall_nil.
  - exists s2. split; [unfold exec_popa_real, as_arm; by rewrite (bind_run _ _ _ _ _ E2)|]. split; [|exact U2].
    intros j Hj. destruct (decide (j = RSP)) as [->|Hn].
    + rewrite P2. unfold gpr16 at 1. cbn [m_cpu s1']. rewrite Hsp. fold (gpr16 (m_cpu s1) RSP).
      rewrite (proj1 (proj2 (proj2 (st_moved _ _ _ _ H1)))), wrap_add_l by lia. cbn [length popa_order fmap list_fmap ws].
      rewrite <- (wrap_small 16 (gpr16 (m_cpu s) RSP)) at 2 by apply gpr16_range. f_equal. lia.
    + rewrite L2 by done. do 8 (destruct j as [|j]; [done|]). lia.
Qed.

Lemma pusha_popa_round_trip_witness : exists s1 s2, exec_pusha_real 0x100 ex_real = Some (None, s1) /\
  exec_popa_real 0x200 (mkMach (put_gpr (m_cpu s1) RBX 0x1234) (m_mem s1) (m_temps s1)) = Some (None, s2) /\
  gpr16 (m_cpu s2) RBX = 0 /\ gpr16 (m_cpu s2) RSP = 4.
Proof.
  destruct (pusha_popa_round_trip ex_real 0x100 0x200 ex_real_cpu_wf ex_real_mem_wf ex_real_stack) as (s1 & E1 & H).
  destruct (exec_pusha_real_safe 0 0x100 ltac:(unfold in_width; lia) ex_real ex_real_ok) as (r & s1' & E1' & H1 & _).
  rewrite E1 in E1'. injection E1' as _ <-.
  assert (Hc1 : cpu_wf (put_gpr (m_cpu s1) RBX 0x1234)) by (apply gprs_insert_wf; [apply H1|unfold in_width; lia]).
  destruct (H (put_gpr (m_cpu s1) RBX 0x1234) Hc1) as (s2 & E2 & L & _); [|reflexivity|].
  - rewrite get_put_gpr by (apply H1 || (cbv; lia)). by case_decide.
  - exists s1, s2. split; [exact E1|]. split; [exact E2|].
    split; [rewrite (L RBX) by (cbv; lia)|rewrite (L RSP) by (cbv; lia)]; vm_compute; reflexivity.
Defined.

(** [ret] undoes [call], in every slot size and with 32-bit stack wrapping: after a
    [call] whose slot is RAM, a [ret] finds the pushed return address, and RSP and every
    other register are as before the call. *)
Theorem call_ret_round_trip (s : mach) (ca ca' : Z) (target : Val) (t ra slot : Z) (w : bool) :
  cpu_wf (m_cpu s) -> mem_wf (m_mem s) -> valid_elem slot -> val_of s target = Some t -> in_width (8 * slot) ra ->
  (w = true -> get_gpr (m_cpu s) RSP < 2 ^ 32) ->
  (let sp := wrapping_sub 64 (get_gpr (m_cpu s) RSP) slot in
   v_kind (view (m_mem s)) (if w then Z.land sp 0xFFFFFFFF else sp) slot = Some Ram) ->
  exists s1 s2, exec_call ca target ra slot w s = Some (Some Continue, s1) /\ rip (m_cpu s1) = t /\
    exec_ret ca' slot 0 w s1 = Some (Some Continue, s2) /\ rip (m_cpu s2) = ra /\
    forall j, get_gpr (m_cpu s2) j = get_gpr (m_cpu s) j.
Proof.
  intros Hc Hm He Ht Hra Hw Hk. pose proof (valid_elem_range slot He) as Hsl. cbn zeta in Hk.
  set (rsp := get_gpr (m_cpu s) RSP) in *. assert (Hrsp : in_width 64 rsp) by (by apply get_gpr_range).
  set (sp := if w then _ else _) in Hk.
  assert (Hback : (let n := wrapping_add 64 (wrapping_add 64 sp slot) 0 in if w then Z.land n 0xFFFFFFFF else n) = rsp).
  { unfold sp, wrapping_add, wrapping_sub, in_width in *. rewrite Z.add_0_r, wrap_wrap by lia. destruct w; cbn zeta.
    - change 0xFFFFFFFF with (Z.ones 32). rewrite !Z.land_ones by lia. fold (wrap 32 (wrap 64 (rsp - slot))).
      fold (wrap 32 (wrap 64 (wrap 32 (wrap 64 (rsp - slot)) + slot))). rewrite !wrap_wrap_le, wrap_add_l by lia.
      rewrite wrap_small; [lia|]. unfold in_width. specialize (Hw eq_refl). lia.
    - rewrite wrap_add_l by lia. rewrite wrap_small; [lia|]. unfold in_width. lia. }
  destruct (write_refines (m_mem s) sp ra slot Hm He) as (m1 & E1 & Hm1 & V1).
  unfold g_write in E1, V1. rewrite Hk in E1, V1. cbn [fst snd] in E1, V1.
  destruct (read_refines m1 sp slot Hm1 He) as (m2 & E2 & Hm2 & V2).
  unfold g_read in E2. rewrite (proj1 V1 sp slot) in E2. change (v_kind (v_put ?g _ _ _) sp slot) with (v_kind g sp slot) in E2.
  rewrite Hk, (v_le_proper _ _ V1 _ _ eq_refl _ _ eq_refl), v_le_put_same, Z2Nat.id, wrap_small in E2 by (done || lia).
  set (s1 := mkMach (set_rip (put_gpr (m_cpu s) RSP sp) t) m1 (m_temps s)). exists s1.
  assert (Hsp1 : get_gpr (m_cpu s1) RSP = sp).
  { cbn [m_cpu s1]. change (get_gpr (set_rip ?c _)) with (get_gpr c). rewrite get_put_gpr by (apply Hc || (cbv; lia)). by case_decide. }
  eexists. split; [|split; [done|split; [|split]]].
  - unfold exec_call. rewrite (bind_run _ _ s (m_cpu s) s) by done. cbn zeta. fold rsp. fold sp.
    rewrite (bind_run _ _ s (Ok tt) (mkMach (m_cpu s) m1 (m_temps s))) by (unfold on_mem; by rewrite E1).
    rewrite (bind_run _ _ _ tt (mkMach (put_gpr (m_cpu s) RSP sp) m1 (m_temps s))) by done.
    by rewrite (bind_run _ _ _ t (mkMach (put_gpr (m_cpu s) RSP sp) m1 (m_temps s))) by (apply read_val_run; exact Ht).
  - unfold exec_ret. rewrite (bind_run _ _ s1 (m_cpu s1) s1) by done. cbn zeta. rewrite Hsp1.
    rewrite (bind_run _ _ s1 (Ok ra) (mkMach (m_cpu s1) m2 (m_temps s1))) by (unfold on_mem; cbn [m_mem s1]; by rewrite E2).
    cbn zeta in Hback. rewrite Hback. reflexivity.
  - done.
  - intros j. cbn [m_cpu s1]. change (get_gpr (set_rip ?c _)) with (get_gpr c).
    rewrite get_put_gpr; [|cbn [gpr set_rip put_gpr set_gpr]; rewrite length_insert; apply Hc|cbv; lia].
    change (get_gpr (set_rip ?c _)) with (get_gpr c). case_decide as Ej; [by subst j|].
    rewrite get_put_gpr by (apply Hc || (cbv; lia)). by case_decide.
Qed.

Lemma call_ret_round_trip_witness : exists s1 s2,
  exec_call 0x100 (Imm 0x500) 0x105 8 false (mkMach (put_gpr default_cpu RSP 0x1000) ex_real_mem []) = Some (Some Continue, s1) /\
  rip (m_cpu s1) = 0x500 /\ exec_ret 0x500 8 0 false s1 = Some (Some Continue, s2) /\ rip (m_cpu s2) = 0x105 /\
  forall j, get_gpr (m_cpu s2) j = get_gpr (put_gpr default_cpu RSP 0x1000) j.
Proof.
  apply (call_ret_round_trip (mkMach (put_gpr default_cpu RSP 0x1000) ex_real_mem []) 0x100 0x500 (Imm 0x500) 0x500 0x105 8 false).
  - apply gprs_insert_wf; [apply default_cpu_wf|unfold in_width; lia].
  - apply ex_real_mem_wf.
  - unfold valid_elem. lia.
  - reflexivity.
  - unfold in_width. lia.
  - discriminate.
  - cbn [m_mem]. apply ex_real_kind; vm_compute; congruence.
Defined.
