(* ===== verification/CodeMap.v ===== *)
(** * Host PC to guest RIP (x86jit-core/src/codemap.rs)

    The append-only table that recovers the guest instruction of a fault in compiled
    code.  Chunks never move, so the published prefix is a list of entries; [None] is the
    capacity assertion. *)

From Stdlib Require Import Sorting.Sorted.
From S2P Require Import Prelude.

(** ** Definitions *)

Definition CHUNK_CAP : Z := 1024.
Definition MAX_CHUNKS : Z := 4096.

Record Entry : Type := mkEntry {
  e_start : Z;
  e_end : Z;
  e_table : list (Z * Z);
}.

Definition CodeMap : Type := list Entry.

Definition register (m : CodeMap) (start code_len : Z) (table : list (Z * Z)) : option CodeMap :=
  let i := Z.of_nat (length m) in
  let ci := i / CHUNK_CAP in
  if ci <? MAX_CHUNKS then Some (m ++ [mkEntry start (start + code_len) table]) else None.

(** [slice::partition_point] on a slice the predicate partitions. *)
Fixpoint partition_point {A} (f : A -> bool) (l : list A) : nat :=
  match l with
  | [] => 0
  | x :: l => if f x then S (partition_point f l) else 0
  end.

Definition entry_lookup (e : Entry) (pc : Z) : option Z :=
  let off := wrap 32 (pc - e_start e) in
  let idx := partition_point (fun p => p.1 <=? off) (e_table e) in
  match idx with O => None | S i => snd <$> e_table e !! i end.

Definition in_entry (e : Entry) (pc : Z) : bool := (e_start e <=? pc) && (pc <? e_end e).

Fixpoint lookup (m : CodeMap) (pc : Z) : option Z :=
  match m with
  | [] => None
  | e :: m => if in_entry e pc then entry_lookup e pc else lookup m pc
  end.

(** ** Lookup *)

Definition table_sorted (t : list (Z * Z)) : Prop := StronglySorted (fun a b => a.1 < b.1) t.

(** [j] is the last row at or below [off]. *)
Definition covers_row (t : list (Z * Z)) (off : Z) (j : nat) : Prop :=
  exists h r, t !! j = Some (h, r) /\ h <= off /\ (forall h' r', t !! S j = Some (h', r') -> off < h').

Lemma partition_sorted t off j : table_sorted t -> covers_row t off j ->
  partition_point (fun p => p.1 <=? off) t = S j.
Proof.
  intros Hs. revert j. induction Hs as [|[h0 r0] t Hs IH Hf]; intros j (h & r & Hj & Hh & Hn); [done|].
  cbn [partition_point fst]. destruct j as [|j].
  - injection Hj as -> ->. destruct (Z.leb_spec h off); [|lia]. f_equal. destruct t as [|[h1 r1] t]; [done|].
    cbn [partition_point fst]. specialize (Hn h1 r1 eq_refl). destruct (Z.leb_spec h1 off); [lia|done].
  - assert (Hlt : h0 < h) by (eapply (Forall_lookup_1 _ _ j (h, r)) in Hf; done).
    destruct (Z.leb_spec h0 off); [|lia]. f_equal. apply IH. exists h, r. done.
Qed.

Definition entry_wf (e : Entry) : Prop := table_sorted (e_table e) /\ 0 <= e_end e - e_start e < 2 ^ 32.

Lemma entry_lookup_row e pc j h r : entry_wf e -> in_entry e pc = true ->
  covers_row (e_table e) (pc - e_start e) j -> e_table e !! j = Some (h, r) -> entry_lookup e pc = Some r.
Proof.
  intros [Hs Hr] Hin Hj Hl. unfold entry_lookup. unfold in_entry in Hin. apply andb_true_iff in Hin as [H1%Z.leb_le H2%Z.ltb_lt].
  rewrite wrap_small by (unfold in_width; lia). rewrite (partition_sorted _ _ j) by done. by rewrite Hl.
Qed.

Lemma lookup_app m m' pc : lookup (m ++ m') pc =
  if existsb (fun e => in_entry e pc) m then lookup m pc else lookup m' pc.
Proof. induction m as [|e m IH]; cbn [app lookup existsb]; [done|]. rewrite IH. by destruct (in_entry e pc). Qed.

(** ** Theorems *)

(** A fault's host PC maps to its guest instruction: after a function is registered, a
    PC inside its range that no earlier range contains resolves to the RIP of the last
    srcloc row at or below it, PCs outside every range resolve to nothing, and earlier
    registrations keep their answers. *)
Theorem codemap_lookup_exact (m m' : CodeMap) (start len : Z) (table : list (Z * Z)) :
  table_sorted table -> 0 <= len < 2 ^ 32 -> register m start len table = Some m' ->
  (forall pc j h r, start <= pc < start + len -> Forall (fun e => in_entry e pc = false) m ->
     covers_row table (pc - start) j -> table !! j = Some (h, r) -> lookup m' pc = Some r) /\
  (forall pc, Forall (fun e => in_entry e pc = false) m -> ~ start <= pc < start + len -> lookup m' pc = None) /\
  (forall pc, Exists (fun e => in_entry e pc = true) m -> lookup m' pc = lookup m pc).
Proof.
  intros Hs Hl. unfold register. destruct (_ <? _); [|done]. intros [= <-].
  assert (Hno : forall pc, Forall (fun e => in_entry e pc = false) m -> existsb (fun e => in_entry e pc) m = false).
  { intros pc Hf. destruct (existsb _ m) eqn:E; [|done]. apply existsb_exists in E as (e & He & Hi).
    rewrite list.Forall_forall in Hf. rewrite Hf in Hi; [done|by apply list_elem_of_In]. }
  split; [|split].
  - intros pc j h r Hpc Hf Hj Ht. rewrite lookup_app, Hno by done. cbn [lookup].
    assert (Hin : in_entry (mkEntry start (start + len) table) pc = true)
      by (unfold in_entry; cbn; repeat zcase; (done || lia)).
    rewrite Hin. eapply entry_lookup_row; [split; [done|cbn; lia]|done|exact Hj|exact Ht].
  - intros pc Hf Hn. rewrite lookup_app, Hno by done. cbn [lookup]. unfold in_entry. cbn [e_start e_end].
    repeat zcase; try done. lia.
  - intros pc He. rewrite lookup_app. assert (E : existsb (fun e => in_entry e pc) m = true).
    { apply list.Exists_exists in He as (e & Hin & Hi). apply existsb_exists. exists e. split; [by apply list_elem_of_In|done]. }
    by rewrite E.
Qed.

Lemma codemap_lookup_exact_witness :
  lookup [mkEntry 0x1000 0x1040 [(0, 0x400100); (0x10, 0x400105)]] 0x103f = Some 0x400105.
Proof.
  apply (codemap_lookup_exact [] [mkEntry 0x1000 0x1040 [(0, 0x400100); (0x10, 0x400105)]] 0x1000 0x40
    [(0, 0x400100); (0x10, 0x400105)]) with (j := 1%nat) (h := 0x10).
  - repeat constructor; cbn; lia.
  - lia.
  - reflexivity.
  - lia.
  - constructor.
  - exists 0x10, 0x400105. split; [reflexivity|]. split; [lia|]. intros h' r' Hx. discriminate Hx.
  - reflexivity.
Defined.
