(* ===== verification/HostFloat.v ===== *)
(** * Host floating point (the [f32] and [f64] operators the Rust sources use)

    Rust's float operators are IEEE 754 to nearest even; the Standard Library's
    [SpecFloat] defines them.  Values are bit patterns here, as [to_bits] gives them.
    A NaN operand is delivered quieted, the left one first; an invalid operation
    delivers the default NaN. *)

From Stdlib Require Import SpecFloat.
From S2P Require Import Prelude.

(** ** Formats *)

Record Format : Type := mkFormat {
  fmt_prec : Z;
  fmt_emax : Z;
}.

Definition f32_fmt : Format := mkFormat 24 128.
Definition f64_fmt : Format := mkFormat 53 1024.

Section Fmt.
Context (f : Format).

Definition frac_bits : Z := fmt_prec f - 1.
(** The width of the exponent field. *)
Definition exp_bits : Z := Z.log2 (fmt_emax f) + 1.
Definition fmt_width : Z := frac_bits + exp_bits + 1.
Definition fmt_emin : Z := 3 - fmt_emax f - fmt_prec f.
Definition exp_special : Z := 2 ^ exp_bits - 1.

Definition fl_sign (b : Z) : bool := Z.testbit b (fmt_width - 1).
Definition fl_exp (b : Z) : Z := Z.shiftr b frac_bits mod 2 ^ exp_bits.
Definition fl_frac (b : Z) : Z := b mod 2 ^ frac_bits.

Definition fl_is_nan (b : Z) : bool := (fl_exp b =? exp_special) && negb (fl_frac b =? 0).
Definition fl_quiet (b : Z) : Z := Z.lor b (2 ^ (frac_bits - 1)).

Definition fl_pack (s : bool) (e m : Z) : Z :=
  b2z s * 2 ^ (fmt_width - 1) + e * 2 ^ frac_bits + m.

Definition fl_default_nan : Z := fl_pack true exp_special (2 ^ (frac_bits - 1)).
Definition fl_infinity (s : bool) : Z := fl_pack s exp_special 0.
Definition fl_zero (s : bool) : Z := fl_pack s 0 0.

Definition fl_decode (b : Z) : spec_float :=
  if fl_exp b =? exp_special then
    if fl_frac b =? 0 then S754_infinity (fl_sign b) else S754_nan
  else
    let (m, e) := if fl_exp b =? 0 then (fl_frac b, fmt_emin)
                  else (2 ^ frac_bits + fl_frac b, fmt_emin + (fl_exp b - 1)) in
    match m with
    | Zpos p => S754_finite (fl_sign b) p e
    | _ => S754_zero (fl_sign b)
    end.

Definition fl_encode (x : spec_float) : Z :=
  match x with
  | S754_zero s => fl_zero s
  | S754_infinity s => fl_infinity s
  | S754_nan => fl_default_nan
  | S754_finite s m e =>
      if Zpos m <? 2 ^ frac_bits then fl_pack s 0 (Zpos m)
      else fl_pack s (e - fmt_emin + 1) (Zpos m - 2 ^ frac_bits)
  end.

(** ** Arithmetic *)

Definition fl_binary (op : spec_float -> spec_float -> spec_float) (a b : Z) : Z :=
  if fl_is_nan a then fl_quiet a
  else if fl_is_nan b then fl_quiet b
  else fl_encode (op (fl_decode a) (fl_decode b)).

Definition fl_add : Z -> Z -> Z := fl_binary (SFadd (fmt_prec f) (fmt_emax f)).
Definition fl_sub : Z -> Z -> Z := fl_binary (SFsub (fmt_prec f) (fmt_emax f)).
Definition fl_mul : Z -> Z -> Z := fl_binary (SFmul (fmt_prec f) (fmt_emax f)).
Definition fl_div : Z -> Z -> Z := fl_binary (SFdiv (fmt_prec f) (fmt_emax f)).
Definition fl_sqrt (a : Z) : Z :=
  if fl_is_nan a then fl_quiet a else fl_encode (SFsqrt (fmt_prec f) (fmt_emax f) (fl_decode a)).

(** [mul_add]: the exact product and sum, rounded once. *)
Definition finite_parts (x : spec_float) : option (Z * Z) :=
  match x with
  | S754_finite s m e => Some (if s then Zneg m else Zpos m, e)
  | S754_zero _ => Some (0, 0)
  | _ => None
  end.
Definition spec_sign (x : spec_float) : bool :=
  match x with S754_zero s | S754_infinity s | S754_finite s _ _ => s | S754_nan => false end.
Definition spec_fma (x y z : spec_float) : spec_float :=
  let ps := xorb (spec_sign x) (spec_sign y) in
  match finite_parts x, finite_parts y, finite_parts z with
  | Some (mx, ex), Some (my, ey), Some (mz, ez) =>
      let e := Z.min (ex + ey) ez in
      let m := mx * my * 2 ^ (ex + ey - e) + mz * 2 ^ (ez - e) in
      binary_normalize (fmt_prec f) (fmt_emax f) m e (ps && spec_sign z)
  | Some _, Some _, None => z
  | Some (mx, _), None, _ => if mx =? 0 then S754_nan else SFadd (fmt_prec f) (fmt_emax f) (S754_infinity ps) z
  | None, Some (my, _), _ => if my =? 0 then S754_nan else SFadd (fmt_prec f) (fmt_emax f) (S754_infinity ps) z
  | None, None, _ => SFadd (fmt_prec f) (fmt_emax f) (S754_infinity ps) z
  end.
Definition fl_mul_add (x y z : Z) : Z :=
  if fl_is_nan x then fl_quiet x
  else if fl_is_nan y then fl_quiet y
  else if fl_is_nan z then fl_quiet z
  else fl_encode (spec_fma (fl_decode x) (fl_decode y) (fl_decode z)).

(** Unary minus and [copysign] act on the sign bit. *)
Definition fl_neg (a : Z) : Z := Z.lxor a (2 ^ (fmt_width - 1)).
Definition fl_copysign (a b : Z) : Z :=
  Z.lor (Z.land a (2 ^ (fmt_width - 1) - 1)) (Z.land b (2 ^ (fmt_width - 1))).

(** [floor], [ceil], [trunc]: a zero result keeps the sign. *)
Definition fl_integral (up : bool -> bool) (a : Z) : Z :=
  if fl_is_nan a then fl_quiet a
  else
    match fl_decode a with
    | S754_finite s m e =>
        if 0 <=? e then a
        else
          let q := Zpos m / 2 ^ (- e) in
          let exact := Zpos m mod 2 ^ (- e) =? 0 in
          let q := if negb exact && up s then q + 1 else q in
          fl_encode (binary_normalize (fmt_prec f) (fmt_emax f) (if s then - q else q) 0 s)
    | _ => a
    end.
Definition fl_floor : Z -> Z := fl_integral (fun s => s).
Definition fl_ceil : Z -> Z := fl_integral negb.
Definition fl_trunc : Z -> Z := fl_integral (fun _ => false).

(** A float [as] an integer in [[lo, hi]]: toward zero, saturating, NaN to zero. *)
Definition fl_to_int (lo hi a : Z) : Z :=
  match fl_decode a with
  | S754_nan => 0
  | S754_zero _ => 0
  | S754_infinity s => if s then lo else hi
  | S754_finite s m e =>
      let q := if 0 <=? e then Zpos m * 2 ^ e else Zpos m / 2 ^ (- e) in
      Z.max lo (Z.min hi (if s then - q else q))
  end.

(** An integer [as] a float. *)
Definition fl_of_int (v : Z) : Z := fl_encode (binary_normalize (fmt_prec f) (fmt_emax f) v 0 false).

(** The relational operators; a NaN is unordered. *)
Definition fl_compare (a b : Z) : option comparison := SFcompare (fl_decode a) (fl_decode b).
Definition fl_eq (a b : Z) : bool := match fl_compare a b with Some Eq => true | _ => false end.
Definition fl_lt (a b : Z) : bool := match fl_compare a b with Some Lt => true | _ => false end.
Definition fl_le (a b : Z) : bool := match fl_compare a b with Some Lt | Some Eq => true | _ => false end.

End Fmt.

(** ** [as] between formats *)

Definition fl_convert (src dst : Format) (b : Z) : Z :=
  if fl_is_nan src b then
    let frac := fl_frac src b in
    let frac := if frac_bits dst <? frac_bits src then Z.shiftr frac (frac_bits src - frac_bits dst)
                else Z.shiftl frac (frac_bits dst - frac_bits src) in
    fl_quiet dst (fl_pack dst (fl_sign src b) (exp_special dst) frac)
  else
    match fl_decode src b with
    | S754_finite s m e => fl_encode dst (binary_round (fmt_prec dst) (fmt_emax dst) s m e)
    | x => fl_encode dst x
    end.

Definition f32_to_f64 (b : Z) : Z := fl_convert f32_fmt f64_fmt b.
Definition f64_to_f32 (b : Z) : Z := fl_convert f64_fmt f32_fmt b.

Example f32_one : f32_to_f64 0x3F800000 = 0x3FF0000000000000 /\ f64_to_f32 0x3FF0000000000000 = 0x3F800000.
Proof. by vm_compute. Qed.
Example f32_subnormal : f32_to_f64 1 = 0x36A0000000000000 /\ f64_to_f32 0x36A0000000000000 = 1.
Proof. by vm_compute. Qed.
Example f64_third : fl_div f64_fmt 0x3FF0000000000000 0x4008000000000000 = 0x3FD5555555555555.
Proof. by vm_compute. Qed.
Example f32_overflow : f64_to_f32 0x7FEFFFFFFFFFFFFF = 0x7F800000.
Proof. by vm_compute. Qed.

Example fma_one_rounding :
  fl_mul_add f64_fmt 0x3FF0000000000001 0x3FF0000000000001 0xBFF0000000000002 = 0x3970000000000000 /\
  fl_mul_add f64_fmt 0x7FF0000000000000 0 0 = fl_default_nan f64_fmt.
Proof. by vm_compute. Qed.
Example integral_parts :
  fl_floor f64_fmt 0xBFE0000000000000 = 0xBFF0000000000000 /\ fl_ceil f64_fmt 0xBFE0000000000000 = 0x8000000000000000 /\
  fl_trunc f32_fmt 0x40490FDB = 0x40400000 /\ fl_to_int f64_fmt (- 2 ^ 31) (2 ^ 31 - 1) 0xC1E0000000200000 = - 2 ^ 31 /\
  fl_of_int f32_fmt 16777217 = 0x4B800000.
Proof. by vm_compute. Qed.
