(* ===== verification/F80.v ===== *)
(** * Software 80-bit floats (x86jit-core/src/f80.rs)

    The register format of the x87 unit: encodings, conversions, and the arithmetic
    that rounds each result once, under the guest's control word.  A [Normal] stands
    for [(-1)^sign * sig * 2^(exp - 63)].  Exponents are [i32] in the source and stay
    within a few multiples of 16384; they are plain integers here.  What the arithmetic
    guarantees is in [F80Round] and [F80Spec]. *)

From S2P Require Import Prelude.

(** ** Data *)

Inductive Class : Type := Zero | Normal | Inf | Nan | Unsupported.

#[global] Instance Class_eq_dec : EqDecision Class.
Proof. solve_decision. Defined.

Record F80 : Type := mkF80 {
  f_sign : bool;
  f_class : Class;
  f_exp : Z;
  f_sig : Z;
}.

(** [Ctl(u16)], [Exc(u16)] *)
Definition Ctl : Type := Z.
Definition Exc : Type := Z.

Definition CTL_RESET_WORD : Ctl := 0x037F.
Definition rc (c : Ctl) : Z := Z.land (Z.shiftr c 10) 3.
Definition masks_underflow (c : Ctl) : bool := test c (Z.shiftl 1 4).
Definition sig_bits (c : Ctl) : Z :=
  match Z.land (Z.shiftr c 8) 3 with 0 => 24 | 2 => 53 | _ => 64 end.

Definition EXC_NONE : Exc := 0.
Definition IE : Exc := 1.
Definition DE : Exc := 2.
Definition ZE : Exc := 4.
Definition OE : Exc := 8.
Definition UE : Exc := 16.
Definition PE : Exc := 32.
Definition SF : Exc := 64.
Definition exc_with (a b : Exc) : Exc := Z.lor a b.
Definition exc_has (a b : Exc) : bool := test a b.
Definition exc_is_empty (a : Exc) : bool := a =? 0.

Definition BIAS : Z := 16383.
Definition EXP_MAX : Z := 0x7fff.
Definition EMAX : Z := EXP_MAX - 1 - BIAS.
Definition EMIN : Z := 1 - BIAS.

Definition INT_BIT : Z := 0x8000000000000000.
Definition QUIET_BIT : Z := 0x4000000000000000.

Definition inf (sign : bool) : F80 := mkF80 sign Inf 0 0.
Definition nan : F80 := mkF80 false Nan 0 0.
Definition zero (sign : bool) : F80 := mkF80 sign Zero 0 0.
Definition indefinite : F80 := mkF80 true Nan 0 0xC000000000000000.

Definition is_nan (a : F80) : bool := bool_decide (f_class a = Nan).
Definition is_snan (a : F80) : bool :=
  bool_decide (f_class a = Nan) && (Z.land (f_sig a) QUIET_BIT =? 0).
Definition operand_raises_invalid (a : F80) : bool :=
  is_snan a || bool_decide (f_class a = Unsupported).
Definition quieted (a : F80) : F80 := mkF80 (f_sign a) (f_class a) (f_exp a) (Z.lor (f_sig a) QUIET_BIT).

Definition binary_operand_exc (a b : F80) : Exc :=
  if operand_raises_invalid a || operand_raises_invalid b then IE else EXC_NONE.

Definition binary_nan (a b : F80) : option F80 :=
  if bool_decide (f_class a = Unsupported) || bool_decide (f_class b = Unsupported) then Some indefinite
  else
    match is_nan a, is_nan b with
    | false, false => None
    | true, false => Some (quieted a)
    | false, true => Some (quieted b)
    | true, true =>
        let pick :=
          match is_snan a, is_snan b with
          | true, false => b
          | false, true => a
          | _, _ => if f_sig a <? f_sig b then b else a
          end in
        Some (quieted pick)
    end.

Definition unary_nan (a : F80) : option F80 :=
  match f_class a with
  | Unsupported => Some indefinite
  | Nan => Some (quieted a)
  | _ => None
  end.

(** ** The ten-byte encoding *)

Definition from_bytes (b : list Z) : F80 :=
  let sig := from_le_bytes (take 8 b) in
  let se := from_le_bytes (take 2 (drop 8 b)) in
  let sign := negb (Z.land (Z.shiftr se 15) 1 =? 0) in
  let biased := Z.land se 0x7fff in
  let integer_bit := test sig INT_BIT in
  if biased =? EXP_MAX then
    if negb integer_bit then mkF80 sign Unsupported biased sig
    else if sig =? INT_BIT then inf sign
    else mkF80 sign Nan 0 sig
  else if biased =? 0 then
    if sig =? 0 then zero sign
    else
      let shift := leading_zeros 64 sig in
      mkF80 sign Normal (EMIN - shift) (wrap 64 (Z.shiftl sig shift))
  else if negb integer_bit then mkF80 sign Unsupported biased sig
  else mkF80 sign Normal (biased - BIAS) sig.

(** The significand and biased exponent [to_bytes] writes. *)
Definition encode_fields (a : F80) : Z * Z :=
  match f_class a with
  | Zero => (0, 0)
  | Inf => (INT_BIT, EXP_MAX)
  | Nan => (Z.lor (f_sig a) INT_BIT, EXP_MAX)
  | Unsupported => (f_sig a, wrap 16 (f_exp a))
  | Normal =>
      let e := f_exp a + BIAS in
      if EXP_MAX <=? e then (INT_BIT, EXP_MAX)
      else if e <=? 0 then
        let shift := 1 - e in
        if 64 <=? shift then (0, 0) else (Z.shiftr (f_sig a) shift, 0)
      else
        let e := if e <? 0 then 0 else e in
        (f_sig a, e)
  end.

Definition to_bytes (a : F80) : list Z :=
  let '(sig, biased) := encode_fields a in
  let se := Z.lor (wrap 16 (Z.shiftl (b2z (f_sign a)) 15)) (Z.land biased 0x7fff) in
  to_le_bytes 8 sig ++ to_le_bytes 2 se.

(** ** Conversions *)

(** [round_shift]: shift right, to nearest even. *)
Definition round_shift (v n : Z) : Z :=
  if n =? 0 then v
  else if 64 <=? n then 0
  else
    let dropped := Z.land v (Z.shiftl 1 n - 1) in
    let half := Z.shiftl 1 (n - 1) in
    let r := Z.shiftr v n in
    if (half <? dropped) || ((dropped =? half) && negb (Z.land r 1 =? 0)) then r + 1 else r.

Definition from_f64 (bits : Z) : F80 :=
  let sign := negb (Z.land (Z.shiftr bits 63) 1 =? 0) in
  let e := Z.land (Z.shiftr bits 52) 0x7ff in
  let frac := Z.land bits 0xfffffffffffff in
  if e =? 0x7ff then
    if frac =? 0 then inf sign
    else mkF80 sign Nan 0 (Z.lor (wrap 64 (Z.shiftl frac 11)) 0xC000000000000000)
  else if e =? 0 then
    if frac =? 0 then zero sign
    else
      let shift := leading_zeros 64 frac - 11 in
      mkF80 sign Normal ((1 - 1023) - shift) (wrap 64 (Z.shiftl frac (shift + 11)))
  else mkF80 sign Normal (e - 1023) (Z.lor (Z.shiftl 1 63) (wrap 64 (Z.shiftl frac 11))).

Definition to_f64 (a : F80) : Z :=
  let sign := wrap 64 (Z.shiftl (b2z (f_sign a)) 63) in
  match f_class a with
  | Zero => sign
  | Inf => Z.lor sign (Z.shiftl 0x7ff 52)
  | Nan => Z.lor (Z.lor sign (Z.shiftl 0x7ff 52)) (Z.max (Z.land (Z.shiftr (f_sig a) 11) 0xfffffffffffff) 1)
  | Unsupported => 0xFFF8000000000000
  | Normal =>
      let m := round_shift (f_sig a) 11 in
      let '(m, e) := if negb (Z.shiftr m 53 =? 0) then (Z.shiftr m 1, f_exp a + 1) else (m, f_exp a) in
      let biased := e + 1023 in
      if 0x7ff <=? biased then Z.lor sign (Z.shiftl 0x7ff 52)
      else if biased <=? 0 then
        let shift := (1 - biased) + 11 in
        if 64 <=? shift then sign else Z.lor sign (round_shift (f_sig a) shift)
      else
        let f52 := Z.land m 0xfffffffffffff in
        Z.lor (Z.lor sign (wrap 64 (Z.shiftl biased 52))) f52
  end.

Definition from_i64 (v : Z) : F80 :=
  if v =? 0 then zero false
  else
    let sign := v <? 0 in
    let mag := wrap 64 (Z.abs v) in
    let shift := leading_zeros 64 mag in
    mkF80 sign Normal (63 - shift) (wrap 64 (Z.shiftl mag shift)).

Definition I64_MIN : Z := - 2 ^ 63.
Definition I64_MAX : Z := 2 ^ 63 - 1.

Definition apply_sign (mag : Z) (sign : bool) : Z :=
  if sign then to_signed 64 (- to_signed 64 mag) else to_signed 64 mag.

Definition decide_round (int frac half : Z) (sign : bool) (r : Z) : bool :=
  match r with
  | 1 => sign && negb (frac =? 0)
  | 2 => negb sign && negb (frac =? 0)
  | 3 => false
  | _ => (half <? frac) || ((frac =? half) && negb (Z.land int 1 =? 0))
  end.

Definition round_fraction_up (sign : bool) (r : Z) : bool :=
  match r with
  | 1 => sign
  | 2 => negb sign
  | 3 => false
  | _ => false
  end.

Definition to_i64_rc (a : F80) (r : Z) : Z :=
  match f_class a with
  | Zero => 0
  | Nan | Inf | Unsupported => I64_MIN
  | Normal =>
      let e := f_exp a in
      if 63 <=? e then
        if 62 <? e then I64_MIN else apply_sign (Z.shiftr (f_sig a) (63 - e)) (f_sign a)
      else if e <? -1 then
        if round_fraction_up (f_sign a) r then apply_sign 1 (f_sign a) else 0
      else if e =? -1 then
        apply_sign (b2z (decide_round 0 (f_sig a) (Z.shiftl 1 63) (f_sign a) r)) (f_sign a)
      else
        let shift := 63 - e in
        let int := Z.shiftr (f_sig a) shift in
        let frac := Z.land (f_sig a) (Z.shiftl 1 shift - 1) in
        let half := Z.shiftl 1 (shift - 1) in
        apply_sign (int + b2z (decide_round int frac half (f_sign a) r)) (f_sign a)
  end.

(** ** Rounding *)

Definition rounds_up (r : Z) (sign lsb_odd : bool) (cmp_half : comparison) (inexact : bool) : bool :=
  match r with
  | 0 => match cmp_half with Gt => true | Eq => lsb_odd | Lt => false end
  | 1 => inexact && sign
  | 2 => inexact && negb sign
  | _ => false
  end.

Definition max_finite (sign : bool) : F80 := mkF80 sign Normal EMAX (2 ^ 64 - 1).

(** The flags of a tiny result. *)
Definition tiny_exc (exc : Exc) (tiny_inexact : bool) (c : Ctl) : Exc :=
  let exc := if tiny_inexact then exc_with exc PE else exc in
  if negb (masks_underflow c) || tiny_inexact then exc_with exc UE else exc.

Definition finish_exc (sign : bool) (exp sig : Z) (c : Ctl) (inexact : bool) : F80 * Exc :=
  let exc := if inexact then PE else EXC_NONE in
  if EMAX <? exp then
    let to_inf := match rc c with 0 => true | 1 => sign | 2 => negb sign | _ => false end in
    ((if to_inf then inf sign else max_finite sign), exc_with (exc_with exc OE) PE)
  else if exp <? EMIN then
    let shift := EMIN - exp in
    let denormalization_loses := (64 <=? shift) || negb (Z.land sig (Z.shiftl 1 shift - 1) =? 0) in
    let tiny_inexact := inexact || denormalization_loses in
    let exc := tiny_exc exc tiny_inexact c in
    if exp <? EMIN - 64 then (zero sign, exc) else (mkF80 sign Normal exp sig, exc)
  else (mkF80 sign Normal exp sig, exc).

Definition pack_normal_exc (sign : bool) (exp sig : Z) (c : Ctl) (inexact : bool) : F80 * Exc :=
  if sig =? 0 then (zero sign, if inexact then PE else EXC_NONE)
  else if Z.shiftr sig 63 =? 0 then
    let sh := leading_zeros 64 sig in
    finish_exc sign (exp - sh) (wrap 64 (Z.shiftl sig sh)) c inexact
  else finish_exc sign exp sig c inexact.

(** The kept bits, the discarded part against half a unit, and inexactness. *)
Definition split_kept (m drop : Z) (frac : option comparison) : Z * comparison * bool :=
  if 0 <? drop then
    let kept := wrap 64 (Z.shiftr m drop) in
    let dropped := Z.land m (Z.shiftl 1 drop - 1) in
    let half := Z.shiftl 1 (drop - 1) in
    let cmp := dropped ?= half in
    let cmp := match cmp, frac with Eq, Some _ => Gt | _, _ => cmp end in
    (kept, cmp, negb (dropped =? 0) || match frac with Some _ => true | None => false end)
  else
    let sh := - drop in
    let kept := wrap 64 (Z.shiftl m sh) in
    match frac with
    | None => (kept, Lt, false)
    | Some o => (kept, (if 0 <? sh then Lt else o), true)
    end.

(** The increment of the kept field, with its carry. *)
Definition bump_kept (p kept exp : Z) : Z * Z :=
  if 64 <=? p then
    if 2 ^ 64 <=? kept + 1 then (Z.shiftl 1 63, exp + 1) else (kept + 1, exp)
  else
    let kept := kept + 1 in
    if negb (Z.shiftr kept p =? 0) then (Z.shiftr kept 1, exp + 1) else (kept, exp).

Definition normalize_round_frac_exc (sign : bool) (ref_exp m : Z) (frac : option comparison) (c : Ctl)
    : F80 * Exc :=
  if m =? 0 then (zero sign, EXC_NONE)
  else
    let p := sig_bits c in
    let hb := 127 - leading_zeros 128 m in
    let exp := ref_exp - (127 - hb) in
    let drop := hb - (p - 1) in
    let '(kept, cmp_half, inexact) := split_kept m drop frac in
    let '(kept, exp) :=
      if rounds_up (rc c) sign (negb (Z.land kept 1 =? 0)) cmp_half inexact then bump_kept p kept exp
      else (kept, exp) in
    pack_normal_exc sign exp (wrap 64 (Z.shiftl kept (64 - p))) c inexact.

Definition normalize_round_exc (sign : bool) (ref_exp m : Z) (c : Ctl) : F80 * Exc :=
  normalize_round_frac_exc sign ref_exp m None c.

Definition with_exc (base : Exc) (r : F80 * Exc) : F80 * Exc := (r.1, exc_with base r.2).

(** ** Arithmetic *)

(** The smaller operand aligned below the larger, with a sticky bit. *)
Definition align_low (sig shift : Z) : Z :=
  if 128 <=? shift then if negb (sig =? 0) then 1 else 0
  else
    let base := Z.shiftl sig 64 in
    let shifted := Z.shiftr base shift in
    if (0 <? shift) && negb (Z.land base (Z.shiftl 1 shift - 1) =? 0) then Z.lor shifted 1 else shifted.

Definition add_normals (a b : F80) (c : Ctl) : F80 * Exc :=
  let (hi, lo) := if f_exp b <=? f_exp a then (a, b) else (b, a) in
  let shift := f_exp hi - f_exp lo in
  let hm := Z.shiftl (f_sig hi) 64 in
  let lm := align_low (f_sig lo) shift in
  if bool_decide (f_sign hi = f_sign lo) then
    let sum := wrap 128 (hm + lm) in
    if 2 ^ 128 <=? hm + lm then
      normalize_round_exc (f_sign hi) (f_exp hi + 1) (Z.lor (Z.shiftr sum 1) (Z.shiftl 1 127)) c
    else normalize_round_exc (f_sign hi) (f_exp hi) sum c
  else if lm <=? hm then
    let diff := hm - lm in
    if diff =? 0 then (zero false, EXC_NONE) else normalize_round_exc (f_sign hi) (f_exp hi) diff c
  else normalize_round_exc (f_sign lo) (f_exp hi) (lm - hm) c.

Definition neg (a : F80) : F80 := mkF80 (negb (f_sign a)) (f_class a) (f_exp a) (f_sig a).
Definition abs (a : F80) : F80 := mkF80 false (f_class a) (f_exp a) (f_sig a).

Definition add_sub (a b : F80) (subtract : bool) (c : Ctl) : F80 * Exc :=
  let base := binary_operand_exc a b in
  match binary_nan a b with
  | Some n => (n, base)
  | None =>
      let b := if subtract then neg b else b in
      match f_class a, f_class b with
      | (Nan | Unsupported), _ | _, (Nan | Unsupported) => (indefinite, exc_with base IE)
      | Inf, Inf =>
          if bool_decide (f_sign a = f_sign b) then (inf (f_sign a), base) else (indefinite, exc_with base IE)
      | Inf, _ => (inf (f_sign a), base)
      | _, Inf => (inf (f_sign b), base)
      | Zero, Zero => (zero (f_sign a && f_sign b), base)
      | Zero, _ => (b, base)
      | _, Zero => (a, base)
      | Normal, Normal => with_exc base (add_normals a b c)
      end
  end.

Definition add_ctl (a b : F80) (c : Ctl) : F80 * Exc := add_sub a b false c.
Definition sub_ctl (a b : F80) (c : Ctl) : F80 * Exc := add_sub a b true c.
Definition add (a b : F80) : F80 := (add_sub a b false CTL_RESET_WORD).1.
Definition sub (a b : F80) : F80 := (add_sub a b true CTL_RESET_WORD).1.

Definition mul_ctl (a b : F80) (c : Ctl) : F80 * Exc :=
  let sign := xorb (f_sign a) (f_sign b) in
  let base := binary_operand_exc a b in
  match binary_nan a b with
  | Some n => (n, base)
  | None =>
      match f_class a, f_class b with
      | (Nan | Unsupported), _ | _, (Nan | Unsupported) => (indefinite, exc_with base IE)
      | Inf, Zero | Zero, Inf => (indefinite, exc_with base IE)
      | Inf, _ | _, Inf => (inf sign, base)
      | Zero, _ | _, Zero => (zero sign, base)
      | Normal, Normal =>
          let m := f_sig a * f_sig b in
          with_exc base (normalize_round_exc sign (f_exp a + f_exp b + 1) m c)
      end
  end.
Definition mul (a b : F80) : F80 := (mul_ctl a b CTL_RESET_WORD).1.

Definition div_ctl (a b : F80) (c : Ctl) : F80 * Exc :=
  let sign := xorb (f_sign a) (f_sign b) in
  let base := binary_operand_exc a b in
  match binary_nan a b with
  | Some n => (n, base)
  | None =>
      match f_class a, f_class b with
      | (Nan | Unsupported), _ | _, (Nan | Unsupported) => (indefinite, exc_with base IE)
      | Inf, Inf | Zero, Zero => (indefinite, exc_with base IE)
      | Inf, _ => (inf sign, base)
      | _, Inf => (zero sign, base)
      | _, Zero => (inf sign, exc_with base ZE)
      | Zero, _ => (zero sign, base)
      | Normal, Normal =>
          let num := Z.shiftl (f_sig a) 64 in
          let q := num / f_sig b in
          let rem := num mod f_sig b in
          let frac := if rem =? 0 then None else Some (2 * rem ?= f_sig b) in
          with_exc base (normalize_round_frac_exc sign (f_exp a - f_exp b + 63) q frac c)
      end
  end.
Definition div (a b : F80) : F80 := (div_ctl a b CTL_RESET_WORD).1.

(** *** Integer square root *)

(** The Newton loop; [None] when the fuel is too small. *)
Fixpoint isqrt_newton (fuel : nat) (x r : Z) : option Z :=
  match fuel with
  | O => None
  | S fuel =>
      let nr := (r + x / r) / 2 in
      if r <=? nr then Some r else isqrt_newton fuel x nr
  end.

(** [while r * r > x { r -= 1 }] *)
Fixpoint isqrt_fix (fuel : nat) (x r : Z) : option Z :=
  match fuel with
  | O => None
  | S fuel => if x <? r * r then isqrt_fix fuel x (r - 1) else Some r
  end.

(** Iterations that suffice: the distance to the root halves every time. *)
Definition ISQRT_FUEL : nat := 70.

Definition isqrt128 (x : Z) : option (Z * Z) :=
  if x =? 0 then Some (0, 0)
  else
    let r := Z.shiftl 1 ((128 - leading_zeros 128 x) / 2 + 1) in
    r ← isqrt_newton ISQRT_FUEL x r;
    r ← isqrt_fix ISQRT_FUEL x r;
    Some (r, x - r * r).

Definition sqrt_ctl (a : F80) (c : Ctl) : option (F80 * Exc) :=
  let base := if operand_raises_invalid a then IE else EXC_NONE in
  match unary_nan a with
  | Some n => Some (n, base)
  | None =>
      match f_class a with
      | Nan | Unsupported => Some (indefinite, exc_with base IE)
      | Zero => Some (zero (f_sign a), base)
      | cl =>
          if f_sign a then Some (indefinite, exc_with base IE)
          else
            match cl with
            | Inf => Some (inf false, base)
            | _ =>
                let e2 := f_exp a - 63 in
                let s := if Z.land e2 1 =? 0 then 64 else 63 in
                let x := Z.shiftl (f_sig a) s in
                '(root, rem) ← isqrt128 x;
                let frac := if rem =? 0 then None else Some (if root <? rem then Gt else Lt) in
                Some (with_exc base (normalize_round_frac_exc false (Z.quot (e2 - s) 2 + 127) root frac c))
            end
      end
  end.

(** *** Remainder and comparison *)

Definition rem (a b : F80) : F80 :=
  match binary_nan a b with
  | Some n => n
  | None =>
      match f_class a, f_class b with
      | (Nan | Unsupported), _ | _, (Nan | Unsupported) => indefinite
      | Inf, _ | _, Zero => indefinite
      | Zero, _ | _, Inf => a
      | Normal, Normal =>
          let q := to_i64_rc (div a b) 3 in
          sub a (mul (from_i64 q) b)
      end
  end.

Definition ordered_key (a : F80) : Z :=
  let mag :=
    match f_class a with
    | Zero => 0
    | Inf => (2 ^ 127 - 1) / 2
    | Nan | Unsupported => 0
    | Normal => Z.lor (Z.shiftl (f_exp a) 64) (f_sig a)
    end in
  if f_sign a then - mag else mag.

(** [(zf, pf, cf)] *)
Definition compare (a b : F80) : bool * bool * bool :=
  if is_nan a || is_nan b then (true, true, true)
  else
    let av := ordered_key a in
    let bv := ordered_key b in
    if av =? bv then (true, false, false)
    else if av <? bv then (false, false, true)
    else (false, false, false).
