(* ===== verification/F80Round.v ===== *)
(** * Correct rounding of 80-bit floats: the theory

    What it means for a real number to be rounded to [p] significand bits in one of the
    x87's four directions, and the proof that [normalize_round_frac_exc] does it.  The
    exponent of the rounded value is unbounded here; what [finish_exc] delivers when it
    leaves the format's range is part of [f80_result]. *)

From Stdlib Require Import Reals Lra.
From S2P Require Import Prelude F80.

#[local] Open Scope R_scope.

(** ** Powers of two and integer parts *)

Definition bpow (e : Z) : R := powerRZ 2 e.

Lemma bpow_pos e : 0 < bpow e.
Proof. apply powerRZ_lt. lra. Qed.

Lemma bpow_add a b : bpow (a + b) = bpow a * bpow b.
Proof. apply powerRZ_add. lra. Qed.

Lemma bpow_0 : bpow 0 = 1.
Proof. reflexivity. Qed.

Lemma bpow_IZR n : (0 <= n)%Z -> IZR (2 ^ n) = bpow n.
Proof.
  intros Hn. unfold bpow. rewrite <- (Z2Nat.id n Hn) at 2. rewrite <- pow_powerRZ, pow_IZR. f_equal.
  by rewrite Z2Nat.id.
Qed.

Lemma bpow_neg e : bpow (- e) * bpow e = 1.
Proof. rewrite <- bpow_add. by replace (- e + e)%Z with 0%Z by lia. Qed.

Lemma bpow_le a b : (a <= b)%Z -> bpow a <= bpow b.
Proof.
  intros H. replace b with (a + (b - a))%Z by lia. rewrite bpow_add.
  rewrite <- (Rmult_1_r (bpow a)) at 1. apply Rmult_le_compat_l; [left; apply bpow_pos|].
  rewrite <- bpow_IZR by lia. apply IZR_le. pose proof (pow2_pos (b - a) ltac:(lia)). lia.
Qed.

Lemma bpow_lt a b : (a < b)%Z -> bpow a < bpow b.
Proof.
  intros H. apply Rlt_le_trans with (bpow (a + 1)); [|apply bpow_le; lia].
  rewrite bpow_add. change (bpow 1) with (2 * 1). pose proof (bpow_pos a). lra.
Qed.

Lemma bpow_lt_inv a b : bpow a < bpow b -> (a < b)%Z.
Proof. intros H. apply Z.nle_gt. intros H'. apply bpow_le in H'. lra. Qed.

(** ** Formats and rounding *)

(** The numbers with at most [p] significand bits. *)
Definition format (p : Z) (x : R) : Prop :=
  exists k e, (Z.abs k < 2 ^ p)%Z /\ x = IZR k * bpow e.

(** Its normalized significand is even. *)
Definition even_sig (p : Z) (x : R) : Prop :=
  exists k e, (2 ^ (p - 1) <= Z.abs k < 2 ^ p)%Z /\ Z.even k = true /\ x = IZR k * bpow e.

(** [y] is [x] rounded to [p] bits: 0 to nearest, ties to even; 1 down; 2 up; 3 toward
    zero. *)
Definition rounds (r p : Z) (x y : R) : Prop :=
  format p y /\
  match r with
  | 0%Z => forall z, format p z -> Rabs (x - y) <= Rabs (x - z) /\
                     (Rabs (x - y) = Rabs (x - z) -> z <> y -> even_sig p y)
  | 1%Z => y <= x /\ forall z, format p z -> z <= x -> z <= y
  | 2%Z => x <= y /\ forall z, format p z -> x <= z -> y <= z
  | _ => 0 <= x * y /\ Rabs y <= Rabs x /\ forall z, format p z -> Rabs z <= Rabs x -> Rabs z <= Rabs y
  end.

Lemma format_opp p x : format p x -> format p (- x).
Proof. intros (k & e & Hk & ->). exists (- k)%Z, e. split; [lia|]. rewrite opp_IZR. lra. Qed.

Lemma even_sig_opp p x : even_sig p x -> even_sig p (- x).
Proof.
  intros (k & e & Hk & He & ->). exists (- k)%Z, e. split; [lia|]. split; [by rewrite Z.even_opp|].
  rewrite opp_IZR. lra.
Qed.

(** The mirror image of a direction. *)
Definition flip (r : Z) : Z := match r with 1%Z => 2%Z | 2%Z => 1%Z | _ => r end.

Lemma format_opp_iff p x : format p (- x) <-> format p x.
Proof. split; intros H; [rewrite <- (Ropp_involutive x)|]; by apply format_opp. Qed.

Lemma rounds_opp r p x y : rounds (flip r) p x y -> rounds r p (- x) (- y).
Proof.
  intros [Hf H]. split; [by apply format_opp|].
  assert (Hd : forall z, Rabs (- x - - y) = Rabs (x - y) /\ Rabs (- x - z) = Rabs (x - - z)).
  { intros z. split; rewrite <- Rabs_Ropp; f_equal; lra. }
  destruct r as [|[[|?|]|[|?|]|]|]; cbn [flip] in H |- *.
  all: try (destruct H as (H1 & H2 & H3); rewrite !Rabs_Ropp; split; [nra|]; split; [done|];
            intros z Hz; apply H3; done).
  - intros z Hz. destruct (Hd z) as [-> ->]. apply format_opp in Hz. destruct (H _ Hz) as [H1 H2].
    split; [done|]. intros He Hne. apply even_sig_opp, H2; [done|]. lra.
  - destruct H as [H1 H2]. split; [lra|]. intros z Hz Hle.
    apply format_opp in Hz. specialize (H2 _ Hz). lra.
  - destruct H as [H1 H2]. split; [lra|]. intros z Hz Hle.
    apply format_opp in Hz. specialize (H2 _ Hz). lra.
Qed.

(** *** The grid: above [2^(p-1)] units the format is the integer multiples of the unit *)

Lemma format_above p k u z : (1 <= p)%Z -> (2 ^ (p - 1) <= k)%Z ->
  format p z -> IZR k * bpow u < z -> IZR (k + 1) * bpow u <= z.
Proof.
  intros Hp Hk (kz & e & Hkz & ->) Hlt.
  pose proof (pow2_pos (p - 1) ltac:(lia)). pose proof (pow2_half p Hp).
  pose proof (bpow_pos u). pose proof (bpow_pos e).
  destruct (Z.le_gt_cases u e) as [He|He].
  - assert (Hz : IZR kz * bpow e = IZR (kz * 2 ^ (e - u)) * bpow u).
    { rewrite mult_IZR, bpow_IZR, Rmult_assoc, <- bpow_add by lia. do 2 f_equal. lia. }
    rewrite Hz in *. apply Rmult_le_compat_r; [lra|]. apply IZR_le.
    apply Rmult_lt_reg_r in Hlt; [|done]. apply lt_IZR in Hlt. lia.
  - exfalso. assert (Hu : bpow u >= 2 * bpow e).
    { replace u with ((u - 1 - e) + (1 + e))%Z by lia. rewrite !bpow_add. change (bpow 1) with (2 * 1).
      assert (bpow (u - 1 - e) >= 1) by (rewrite <- bpow_0; apply Rle_ge, bpow_le; lia). nra. }
    assert (IZR kz < IZR (2 ^ p)) by (apply IZR_lt; lia).
    assert (IZR (2 ^ (p - 1)) <= IZR k) by (apply IZR_le; lia).
    assert (IZR (2 ^ p) = 2 * IZR (2 ^ (p - 1))) by (rewrite <- mult_IZR; f_equal; lia).
    assert (0 < IZR (2 ^ (p - 1))) by (apply IZR_lt; lia). nra.
Qed.

Lemma format_grid p k u : (1 <= p)%Z -> (0 <= k <= 2 ^ p)%Z -> format p (IZR k * bpow u).
Proof.
  intros Hp Hk. destruct (Z.eq_dec k (2 ^ p)) as [->|Hne].
  - exists 1%Z, (p + u)%Z. split; [|by rewrite bpow_add, bpow_IZR, Rmult_1_l by lia].
    change (Z.abs 1) with (2 ^ 0)%Z. apply Z.pow_lt_mono_r; lia.
  - exists k, u. split; [lia|done].
Qed.

Lemma even_grid p k u : (2 <= p)%Z -> (2 ^ (p - 1) <= k <= 2 ^ p)%Z -> Z.even k = true ->
  even_sig p (IZR k * bpow u).
Proof.
  intros Hp Hk He. pose proof (pow2_half p ltac:(lia)). pose proof (pow2_pos (p - 1) ltac:(lia)).
  destruct (Z.eq_dec k (2 ^ p)) as [->|Hne].
  - exists (2 ^ (p - 1))%Z, (1 + u)%Z. split; [lia|]. split.
    + rewrite Z.even_pow by lia. done.
    + rewrite bpow_add, <- Rmult_assoc. f_equal. change (bpow 1) with (2 * 1). rewrite H, mult_IZR. lra.
  - exists k, u. split; [lia|done].
Qed.

(** ** Rounding a positive number that lies between two neighbours of the grid *)

(** [k] is the integer part of [t], [cmp] the fractional part against one half, [ix]
    whether there is one. *)
Definition splits (t : R) (k : Z) (cmp : comparison) (ix : bool) : Prop :=
  IZR k <= t < IZR k + 1 /\ (ix = true <-> t <> IZR k) /\
  match cmp with
  | Lt => t - IZR k < / 2
  | Eq => t - IZR k = / 2
  | Gt => / 2 < t - IZR k
  end.

Section Positive.
Context (p : Z) (t : R) (k : Z) (cmp : comparison) (ix : bool) (u : Z).
Context (Hp : (2 <= p)%Z) (Hs : splits t k cmp ix) (Hk : (2 ^ (p - 1) <= k < 2 ^ p)%Z).

Let x := t * bpow u.
Let lo := IZR k * bpow u.
Let hi := IZR (k + 1) * bpow u.

Lemma pos_bounds : 0 < bpow u /\ 0 < lo /\ lo <= x < hi.
Proof.
  pose proof (bpow_pos u). pose proof (pow2_pos (p - 1) ltac:(lia)).
  assert (0 < IZR k) by (apply IZR_lt; lia). destruct Hs as [Ht _].
  split; [done|]. unfold lo, x, hi. rewrite plus_IZR. repeat split; nra.
Qed.

Lemma neighbours z : format p z -> z <= lo \/ hi <= z.
Proof.
  intros Hz. destruct (Rle_or_lt z lo) as [H|H]; [by left|right].
  apply (format_above p k u z); [lia|lia|done|done].
Qed.

Lemma lo_format : format p lo.
Proof. apply format_grid; lia. Qed.
Lemma hi_format : format p hi.
Proof. apply format_grid; lia. Qed.

Lemma exact_split : ix = false -> x = lo.
Proof.
  intros Hix. destruct Hs as (_ & Hx & _). unfold x, lo. f_equal.
  destruct (Req_dec t (IZR k)) as [->|Hne]; [done|]. apply Hx in Hne. congruence.
Qed.

Lemma inexact_split : ix = true -> lo < x.
Proof.
  intros Hix. destruct Hs as ((H1 & H2) & Hx & _). apply Hx in Hix. unfold x, lo.
  apply Rmult_lt_compat_r; [apply bpow_pos|]. lra.
Qed.

Lemma rounds_lo r : r <> 2%Z \/ ix = false -> (r = 0%Z -> cmp = Lt \/ (cmp = Eq /\ Z.even k = true)) ->
  rounds r p x lo.
Proof.
  intros Hr H0. destruct pos_bounds as (Hb & Hl & Hx). split; [apply lo_format|].
  destruct Hs as (_ & _ & Hc).
  assert (Hpos : Rabs lo = lo /\ Rabs x = x) by (split; apply Rabs_pos_eq; lra). destruct Hpos as [Hal Hax].
  assert (Htz : 0 <= x * lo /\ Rabs lo <= Rabs x /\
                forall z, format p z -> Rabs z <= Rabs x -> Rabs z <= Rabs lo).
  { rewrite Hal, Hax. split; [nra|]. split; [lra|]. intros z Hz Hle.
    assert (Hz' : format p (Rabs z)) by (unfold Rabs; destruct (Rcase_abs z); [by apply format_opp|done]).
    destruct (neighbours _ Hz'); lra. }
  destruct r as [|[[|?|]|[|?|]|]|]; try exact Htz.
  - intros z Hz. specialize (H0 eq_refl).
    assert (Hh : x - lo <= hi - x /\ (x - lo = hi - x -> Z.even k = true)).
    { unfold x, lo, hi. rewrite plus_IZR. destruct H0 as [->|[-> He]]; (split; [nra|]); [|done].
      intros Hq. exfalso. nra. }
    destruct Hh as [Hh1 Hh2].
    destruct (neighbours z Hz) as [Hn|Hn].
    + rewrite !Rabs_pos_eq by lra. split; [lra|]. intros. exfalso. lra.
    + rewrite (Rabs_pos_eq (x - lo)), (Rabs_left1 (x - z)) by lra. split; [lra|].
      intros He Hne. apply even_grid; [done|lia|]. apply Hh2. lra.
  - destruct Hr as [Hr|Hr]; [done|]. rewrite (exact_split Hr). split; [lra|]. intros; lra.
  - split; [lra|]. intros z Hz Hle. destruct (neighbours z Hz); lra.
Qed.

Lemma rounds_hi r : (r = 0%Z /\ (cmp = Gt \/ (cmp = Eq /\ Z.even k = false))) \/ (r = 2%Z /\ ix = true) ->
  rounds r p x hi.
Proof.
  intros Hr. destruct pos_bounds as (Hb & Hl & Hx). split; [apply hi_format|].
  destruct Hs as (_ & _ & Hc). destruct Hr as [[-> Hr]|[-> Hr]].
  - intros z Hz.
    assert (Hh : hi - x <= x - lo /\ (x - lo = hi - x -> Z.even k = false)).
    { unfold x, lo, hi. rewrite plus_IZR. destruct Hr as [->|[-> He]]; (split; [nra|]); [|done].
      intros Hq. exfalso. nra. }
    destruct Hh as [Hh1 Hh2].
    destruct (neighbours z Hz) as [Hn|Hn].
    + rewrite (Rabs_left1 (x - hi)), (Rabs_pos_eq (x - z)) by lra. split; [lra|].
      intros He Hne. apply even_grid; [done|lia|]. rewrite Z.even_add, Hh2; [done|lra].
    + rewrite !Rabs_left1 by lra. split; [lra|]. intros. exfalso. lra.
  - split; [lra|]. apply inexact_split in Hr. intros z Hz Hle. destruct (neighbours z Hz); lra.
Qed.

(** The rounding decision of the code, on a positive number. *)
Lemma rounds_up_pos r : (0 <= r < 4)%Z ->
  rounds r p x (IZR (k + b2z (rounds_up r false (Z.odd k) cmp ix)) * bpow u).
Proof.
  intros Hr. unfold rounds_up. assert (Hodd : Z.odd k = negb (Z.even k)) by (by rewrite Z.negb_even).
  assert (Hlo : IZR (k + 0) * bpow u = lo) by (unfold lo; do 2 f_equal; lia).
  assert (r = 0 \/ r = 1 \/ r = 2 \/ r = 3)%Z as [-> | [-> | [-> | ->]]] by lia.
  - assert (cmp = Eq \/ cmp = Lt \/ cmp = Gt) as [Ec|[Ec|Ec]] by (clear; destruct cmp; auto); rewrite Ec.
    + rewrite Hodd. destruct (Z.even k) eqn:Ee; cbn [negb b2z].
      * rewrite Hlo. apply rounds_lo; [by left|]. by right.
      * apply rounds_hi. left. split; [done|]. by right.
    + cbn [b2z]. rewrite Hlo. apply rounds_lo; [by left|]. by left.
    + cbn [b2z]. apply rounds_hi. left. split; [done|]. by left.
  - rewrite andb_false_r. cbn [b2z]. rewrite Hlo. apply rounds_lo; [by left|done].
  - rewrite andb_true_r.
    assert (ix = true \/ ix = false) as [Ei|Ei] by (clear; destruct ix; auto); rewrite Ei; cbn [b2z].
    + apply rounds_hi. by right.
    + rewrite Hlo. apply rounds_lo; [by right|done].
  - cbn [b2z]. rewrite Hlo. apply rounds_lo; [by left|done].
Qed.
End Positive.

(** With a sign. *)
Definition sgn (s : bool) : R := if s then -1 else 1.

Lemma rounds_up_flip r lsb cmp ix : (0 <= r < 4)%Z -> rounds_up r true lsb cmp ix = rounds_up (flip r) false lsb cmp ix.
Proof. intros Hr. assert (r = 0 \/ r = 1 \/ r = 2 \/ r = 3)%Z as [-> | [-> | [-> | ->]]] by lia; done. Qed.

Lemma rounds_up_correct r p s t k cmp ix u : (0 <= r < 4)%Z -> (2 <= p)%Z -> splits t k cmp ix ->
  (2 ^ (p - 1) <= k < 2 ^ p)%Z ->
  rounds r p (sgn s * (t * bpow u)) (sgn s * (IZR (k + b2z (rounds_up r s (Z.odd k) cmp ix)) * bpow u)).
Proof.
  intros Hr Hp Hs Hk. destruct s; cbn [sgn].
  - rewrite rounds_up_flip by done.
    replace (-1 * (t * bpow u)) with (- (t * bpow u)) by lra.
    match goal with |- rounds _ _ _ (-1 * ?e) => replace (-1 * e) with (- e) by lra end.
    apply rounds_opp, rounds_up_pos; try done. unfold flip.
    assert (r = 0 \/ r = 1 \/ r = 2 \/ r = 3)%Z as [-> | [-> | [-> | ->]]] by lia; lia.
  - rewrite !Rmult_1_l. by apply rounds_up_pos.
Qed.

(** ** The kept bits *)

(** What [frac] says of the part of the value below the lowest bit of [m]. *)
Definition frac_of (frac : option comparison) (f : R) : Prop :=
  match frac with
  | None => f = 0
  | Some o => 0 < f < 1 /\ match o with Lt => f < / 2 | Eq => f = / 2 | Gt => / 2 < f end
  end.

Definition kept_spec (m d : Z) (frac : option comparison) (t : R) : Prop :=
  let '(k, cmp, ix) := split_kept m d frac in splits t k cmp ix /\ k = Z.shiftr m d.

Lemma div_pow2_bounds m d : (0 <= m)%Z -> (0 <= d)%Z ->
  IZR m = IZR (m / 2 ^ d) * bpow d + IZR (m mod 2 ^ d) /\ 0 <= IZR (m mod 2 ^ d) <= bpow d - 1.
Proof.
  intros Hm Hd. pose proof (pow2_pos d Hd). rewrite <- bpow_IZR by done. split.
  - rewrite <- mult_IZR, <- plus_IZR. f_equal. rewrite (Z.div_mod m (2 ^ d)) at 1 by lia. lia.
  - pose proof (Z.mod_pos_bound m (2 ^ d) ltac:(lia)). split; [apply IZR_le; lia|].
    rewrite <- minus_IZR. apply IZR_le. lia.
Qed.

Lemma split_kept_pos m d frac : (0 < d)%Z -> (0 <= m < 2 ^ (d + 64))%Z ->
  split_kept m d frac =
  ((m / 2 ^ d)%Z,
   match (m mod 2 ^ d ?= 2 ^ (d - 1))%Z, frac with Eq, Some _ => Gt | c, _ => c end,
   negb (m mod 2 ^ d =? 0)%Z || match frac with Some _ => true | None => false end).
Proof.
  intros Hd Hm. unfold split_kept. replace (0 <? d)%Z with true by (symmetry; apply Z.ltb_lt; lia).
  rewrite !Z.shiftl_1_l, (Z.sub_1_r (2 ^ d)), <- Z.ones_equiv, Z.land_ones, Z.shiftr_div_pow2 by lia.
  rewrite wrap_small; [destruct frac; destruct (m mod 2 ^ d ?= 2 ^ (d - 1))%Z; done|]. split; [apply Z.div_pos; lia|]. apply Z.div_lt_upper_bound; [lia|].
  rewrite <- Z.pow_add_r by lia. tauto.
Qed.

(** The fractional part [g / 2^d], where [g] differs from the dropped bits by less than a unit. *)
Lemma split_real m d (g : R) frac t : (0 < d)%Z -> (0 <= m < 2 ^ (d + 64))%Z ->
  t = (IZR (m / 2 ^ d) * bpow d + g) * bpow (- d) -> 0 <= g < bpow d ->
  (g = 0 <-> (m mod 2 ^ d = 0)%Z /\ frac = None) ->
  match match (m mod 2 ^ d ?= 2 ^ (d - 1))%Z, frac with Eq, Some _ => Gt | c, _ => c end with
  | Lt => 2 * g < bpow d | Eq => 2 * g = bpow d | Gt => bpow d < 2 * g
  end ->
  kept_spec m d frac t.
Proof.
  intros Hd Hm -> Hg H0 Hc. unfold kept_spec. rewrite split_kept_pos by done.
  split; [|by rewrite Z.shiftr_div_pow2 by lia].
  pose proof (bpow_pos (- d)) as Hb. pose proof (bpow_neg d) as Hinv. pose proof (bpow_pos d).
  unfold splits; set (K := IZR (m / 2 ^ d)) in *.
  assert (Ht : (K * bpow d + g) * bpow (- d) = K + g * bpow (- d)) by (transitivity (K * (bpow (- d) * bpow d) + g * bpow (- d)); [ring|rewrite Hinv; ring]).
  rewrite Ht. assert (Hg1 : 0 <= g * bpow (- d) < 1) by nra.
  split; [lra|]. split.
  - split.
    + intros Hix. enough (g <> 0) by nra. intros Hz. apply H0 in Hz as [Hz ->].
      rewrite Hz in Hix. done.
    + intros Hne. assert (Hgn : g <> 0) by (intros ->; apply Hne; lra).
      destruct frac; [apply orb_true_r|]. rewrite orb_false_r. apply negb_true_iff, Z.eqb_neq.
      intros Hz. apply Hgn. by apply H0.
  - destruct (match (m mod 2 ^ d ?= 2 ^ (d - 1))%Z, frac with Eq, Some _ => Gt | c, _ => c end); nra.
Qed.

Lemma compare_half m d : (0 < d)%Z -> (0 <= m)%Z ->
  match (m mod 2 ^ d ?= 2 ^ (d - 1))%Z with
  | Lt => 2 * IZR (m mod 2 ^ d) <= bpow d - 2
  | Eq => 2 * IZR (m mod 2 ^ d) = bpow d
  | Gt => bpow d + 2 <= 2 * IZR (m mod 2 ^ d)
  end.
Proof.
  intros Hd Hm. pose proof (pow2_half d ltac:(lia)) as Hh. rewrite <- bpow_IZR by lia.
  change 2 with (IZR 2). destruct (Z.compare_spec (m mod 2 ^ d) (2 ^ (d - 1))).
  - rewrite <- mult_IZR. f_equal. lia.
  - rewrite <- mult_IZR, <- minus_IZR. apply IZR_le. lia.
  - rewrite <- mult_IZR, <- plus_IZR. apply IZR_le. lia.
Qed.

(** An exact remainder. *)
Lemma kept_frac m d frac f : (0 < m)%Z -> (m < 2 ^ (d + 64))%Z -> frac_of frac f -> frac = None \/ (0 <= d)%Z ->
  kept_spec m d frac ((IZR m + f) * bpow (- d)).
Proof.
  intros Hm Hm' Hf Hd. destruct (Z.lt_ge_cases 0 d) as [Hd0|Hd0].
  - destruct (div_pow2_bounds m d ltac:(lia) ltac:(lia)) as [Hdm Hr].
    pose proof (compare_half m d Hd0 ltac:(lia)) as Hc.
    assert (Hf' : 0 <= f < 1) by (destruct frac; cbn [frac_of] in Hf; lra).
    apply (split_real m d (IZR (m mod 2 ^ d) + f)); [done|lia|f_equal; lra|lra| |].
    + split.
      * intros Hz. assert (IZR (m mod 2 ^ d) = 0) as Hz' by lra. split; [by apply eq_IZR|].
        destruct frac; [|done]. cbn [frac_of] in Hf. lra.
      * intros [-> ->]. cbn [frac_of] in Hf. lra.
    + destruct (m mod 2 ^ d ?= 2 ^ (d - 1))%Z; destruct frac; cbn [frac_of] in Hf; lra.
  - unfold kept_spec, split_kept. replace (0 <? d)%Z with false by (symmetry; apply Z.ltb_ge; lia).
    assert (Hk : wrap 64 (Z.shiftl m (- d)) = Z.shiftr m d).
    { rewrite Z.shiftl_opp_r. apply wrap_small. split; [apply Z.shiftr_nonneg; lia|].
      apply Z.log2_lt_cancel. rewrite Z.log2_shiftr, Z.log2_pow2 by lia.
      assert (Z.log2 m < d + 64)%Z by (apply Z.log2_lt_pow2; lia). lia. }
    assert (Hs : IZR (Z.shiftr m d) = IZR m * bpow (- d)).
    { replace (Z.shiftr m d) with (m * 2 ^ (- d))%Z; [by rewrite mult_IZR, bpow_IZR by lia|].
      rewrite <- Z.shiftl_mul_pow2 by lia. apply Z.shiftl_opp_r. }
    rewrite Hk. destruct frac as [o|]; cbn [frac_of] in Hf.
    + destruct Hd as [Hd|Hd]; [done|]. assert (d = 0%Z) as -> by lia. change (0 <? - 0)%Z with false; cbv iota.
      split; [|done]. change (bpow (- 0)) with 1 in *. unfold splits; rewrite Hs; split; [lra|]. split; [|destruct Hf as [? Ho]; destruct o; cbv iota in Ho |- *; lra].
      split; [lra|done].
    + rewrite Hf, Rplus_0_r, <- Hs. split; [|done]. split; [lra|]. split; [|lra]. split; [done|by intros []].
Qed.

(** A sticky bit: [m] is odd and within one unit of the value. *)
Lemma kept_sticky m d X : (2 <= d)%Z -> (0 < m < 2 ^ (d + 64))%Z -> Z.odd m = true -> Rabs (X - IZR m) < 1 ->
  kept_spec m d None (X * bpow (- d)).
Proof.
  intros Hd Hm Hodd HX. apply Rabs_def2 in HX.
  destruct (div_pow2_bounds m d ltac:(lia) ltac:(lia)) as [Hdm Hr].
  assert (Hro : Z.odd (m mod 2 ^ d) = true).
  { rewrite (Z.div_mod m (2 ^ d)) in Hodd by (pose proof (pow2_pos d); lia).
    rewrite Z.odd_add, Z.odd_mul, Z.odd_pow in Hodd by lia. by rewrite andb_false_l, xorb_false_l in Hodd. }
  set (r := (m mod 2 ^ d)%Z) in *. set (K := IZR (m / 2 ^ d)) in *.
  assert (Hr1 : (1 <= r)%Z).
  { assert (r <> 0)%Z by (intros ->; done). apply Z.nlt_ge. intros Hlt.
    assert (0 <= r)%Z by (apply le_IZR; lra). lia. }
  apply IZR_le in Hr1. pose proof (compare_half m d ltac:(lia) ltac:(lia)) as Hc. fold r in Hc.
  assert (Hne : (r ?= 2 ^ (d - 1))%Z <> Eq).
  { intros He. apply Z.compare_eq_iff in He. rewrite He, Z.odd_pow in Hro by lia. done. }
  apply (split_real m d (X - K * bpow d)); [lia|lia|unfold K; ring|lra| |]; fold r.
  - split; [lra|]. intros [-> _]. done.
  - destruct (r ?= 2 ^ (d - 1))%Z; [done|lra|lra].
Qed.

(** ** What an operation delivers *)

(** The real a [Normal] stands for. *)
Definition F2R (a : F80) : R := sgn (f_sign a) * (IZR (f_sig a) * bpow (f_exp a - 63)).

Definition f80_is (a : F80) (s : bool) (y : R) : Prop :=
  f_class a = Normal /\ f_sign a = s /\ (2 ^ 63 <= f_sig a < 2 ^ 64)%Z /\ F2R a = y.

(** Precision is lost in rounding, or will be by denormalizing. *)
Definition lossy (x y : R) : Prop := y <> x \/ ~ exists k, y = IZR k * bpow (EMIN - 63).

Definition overflow_to_inf (r : Z) (s : bool) : bool :=
  match r with 0%Z => true | 1%Z => s | 2%Z => negb s | _ => false end.

(** What the code delivers for the exact value [x] of sign [s]: some [y] is [x] correctly
    rounded with the exponent unbounded; it is delivered when it is in range; above, the
    masked overflow response is.  The flags are exact.  Below the smallest normal number
    this is the code's response and not a rounding to the format: [y] is kept with its
    unbounded exponent (the encoding truncates it), and more than 64 binades down it
    becomes a zero, in every direction.  [delivered] is what remains for a value in the normal
    range. *)
Definition f80_result (c : Ctl) (s : bool) (x : R) (res : F80 * Exc) : Prop :=
  exists y, rounds (rc c) (sig_bits c) x y /\
    (bpow (EMAX + 1) <= Rabs y ->
       res = ((if overflow_to_inf (rc c) s then inf s else max_finite s), exc_with OE PE)) /\
    (bpow EMIN <= Rabs y < bpow (EMAX + 1) ->
       f80_is res.1 s y /\ (y = x -> res.2 = EXC_NONE) /\ (y <> x -> res.2 = PE)) /\
    (Rabs y < bpow EMIN ->
       (bpow (EMIN - 64) <= Rabs y -> f80_is res.1 s y) /\
       (Rabs y < bpow (EMIN - 64) -> res.1 = zero s) /\
       (lossy x y -> res.2 = exc_with PE UE) /\
       (~ lossy x y -> res.2 = if masks_underflow c then EXC_NONE else UE)).

Definition delivered (c : Ctl) (s : bool) (x : R) (res : F80 * Exc) : Prop :=
  exists y, rounds (rc c) (sig_bits c) x y /\ bpow EMIN <= Rabs y /\
    (bpow (EMAX + 1) <= Rabs y ->
       res = ((if overflow_to_inf (rc c) s then inf s else max_finite s), exc_with OE PE)) /\
    (Rabs y < bpow (EMAX + 1) -> f80_is res.1 s y /\ (y = x -> res.2 = EXC_NONE) /\ (y <> x -> res.2 = PE)).

Lemma format_bpow p e : (1 <= p)%Z -> format p (bpow e).
Proof. intros Hp. exists 1%Z, e. split; [|lra]. apply (Z.pow_lt_mono_r 2 0 p); lia. Qed.

(** Rounding does not cross a power of two. *)
Lemma rounds_ge r p x y e : (1 <= p)%Z -> rounds r p x y -> bpow e <= Rabs x -> bpow e <= Rabs y.
Proof.
  intros Hp [_ Hr] Hx. pose proof (bpow_pos e) as Hb. pose proof (format_bpow p e Hp) as Hf. pose proof (format_opp p _ Hf) as Hf'.
  destruct (Rle_or_lt 0 x) as [H0|H0]; [rewrite (Rabs_pos_eq x) in Hx by done|rewrite (Rabs_left x) in Hx by done].
  - assert (Hy : bpow e <= y \/ bpow e <= Rabs y); [|destruct Hy as [Hy|Hy]; [rewrite Rabs_pos_eq|]; lra].
    destruct r as [|[[]|[]|]|]; try (right; destruct Hr as (_ & _ & Hr); rewrite <- (Rabs_pos_eq (bpow e)) by lra; apply Hr; [done|];
      rewrite !Rabs_pos_eq by lra; lra); left.
    + destruct (Hr _ Hf) as [Hd _]. rewrite (Rabs_pos_eq (x - bpow e)) in Hd by lra. pose proof (Rle_abs (x - y)). lra.
    + destruct Hr as [Hr _]. lra.
    + destruct Hr as [_ Hr]. by apply Hr.
  - assert (Hy : y <= - bpow e \/ bpow e <= Rabs y); [|destruct Hy as [Hy|Hy]; [rewrite Rabs_left|]; lra].
    destruct r as [|[[]|[]|]|]; try (right; destruct Hr as (_ & _ & Hr); rewrite <- (Rabs_pos_eq (bpow e)) by lra; apply Hr; [done|];
      rewrite Rabs_pos_eq, Rabs_left by lra; lra); left.
    + destruct (Hr _ Hf') as [Hd _]. rewrite (Rabs_left1 (x - - bpow e)) in Hd by lra. rewrite Rabs_minus_sym in Hd. pose proof (Rle_abs (y - x)). lra.
    + destruct Hr as [_ Hr]. apply Hr; [done|lra].
    + destruct Hr as [Hr _]. lra.
Qed.

Lemma rc_range c : (0 <= rc c < 4)%Z.
Proof. unfold rc. rewrite (Z.land_ones _ 2) by lia. apply Z.mod_pos_bound. lia. Qed.

Lemma sig_bits_cases c : sig_bits c = 24%Z \/ sig_bits c = 53%Z \/ sig_bits c = 64%Z.
Proof. unfold sig_bits. destruct (Z.land (Z.shiftr c 8) 3) as [|[|[]|]|]; auto. Qed.

Lemma sgn_abs s x : 0 <= x -> Rabs (sgn s * x) = x.
Proof. intros. destruct s; cbn [sgn]; [rewrite Rabs_left1|rewrite Rabs_pos_eq]; lra. Qed.

Lemma f80_delivered c s x res : f80_result c s x res -> bpow EMIN <= Rabs x -> delivered c s x res.
Proof.
  intros (y & Hr & Ho & Hn & _) Hx. assert (Hp : (1 <= sig_bits c)%Z) by (destruct (sig_bits_cases c) as [-> |[-> | ->]]; lia).
  pose proof (rounds_ge _ _ _ _ _ Hp Hr Hx) as Hy. exists y. split; [done|]. split; [done|]. split; [done|]. auto.
Qed.

(** A significand with its integer bit set places the value in its binade. *)
Lemma sig_binade e sig : (2 ^ 63 <= sig < 2 ^ 64)%Z ->
  bpow e <= IZR sig * bpow (e - 63) < bpow (e + 1).
Proof.
  intros Hs. pose proof (bpow_pos (e - 63)).
  replace (bpow e) with (IZR (2 ^ 63) * bpow (e - 63)).
  2: { rewrite bpow_IZR, <- bpow_add by lia. f_equal. lia. }
  replace (bpow (e + 1)) with (IZR (2 ^ 64) * bpow (e - 63)).
  2: { rewrite bpow_IZR, <- bpow_add by lia. f_equal. lia. }
  split; [apply Rmult_le_compat_r; [lra|apply IZR_le; lia]|apply Rmult_lt_compat_r; [lra|apply IZR_lt; lia]].
Qed.

(** Denormalizing keeps every bit exactly when the value is a multiple of the smallest
    denormal. *)
Definition denormal_loses (e sig : Z) : bool :=
  (64 <=? EMIN - e)%Z || negb (Z.land sig (Z.shiftl 1 (EMIN - e) - 1) =? 0)%Z.

Lemma denormal_multiple s e sig : (2 ^ 63 <= sig < 2 ^ 64)%Z -> (e < EMIN)%Z ->
  denormal_loses e sig = false <-> exists k, sgn s * (IZR sig * bpow (e - 63)) = IZR k * bpow (EMIN - 63).
Proof.
  intros Hs He. unfold denormal_loses. set (d := (EMIN - e)%Z). assert (Hd : (0 < d)%Z) by lia.
  assert (Hsplit : bpow (EMIN - 63) = bpow d * bpow (e - 63)).
  { rewrite <- bpow_add. f_equal. lia. }
  rewrite Z.shiftl_1_l, (Z.sub_1_r (2 ^ d)), <- Z.ones_equiv, Z.land_ones by lia.
  pose proof (bpow_pos (e - 63)) as Hb. pose proof (pow2_pos d ltac:(lia)).
  rewrite orb_false_iff, negb_false_iff, Z.eqb_eq, Z.leb_gt, Hsplit. split.
  - intros [_ Hm]. exists ((if s then -1 else 1) * (sig / 2 ^ d))%Z.
    rewrite mult_IZR. replace (IZR sig) with (IZR (sig / 2 ^ d) * bpow d).
    2: { rewrite <- bpow_IZR, <- mult_IZR by lia. f_equal. rewrite (Z.div_mod sig (2 ^ d)) at 2 by lia. lia. }
    destruct s; cbn [sgn]; lra.
  - intros [k Hk].
    assert (Hi : (sig = (if s then -1 else 1) * k * 2 ^ d)%Z).
    { apply eq_IZR. rewrite mult_IZR, bpow_IZR by lia. apply (Rmult_eq_reg_r (bpow (e - 63))); [|lra].
      rewrite mult_IZR. destruct s; cbn [sgn] in Hk; lra. }
    assert (Hkp : (1 <= (if s then -1 else 1) * k)%Z) by (apply Z.nlt_ge; intros Hlt; nia).
    split; [|rewrite Hi; apply Z.mod_mul; lia].
    apply Z.nle_gt. intros Hge. assert (2 ^ 64 <= 2 ^ d)%Z by (apply Z.pow_le_mono_r; lia). nia.
Qed.

(** The flags of a tiny result are the specified ones. *)
Lemma tiny_exc_spec c x y ix dl : (ix = true <-> y <> x) ->
  (dl = false <-> exists k, y = IZR k * bpow (EMIN - 63)) ->
  let e := tiny_exc (if ix then PE else EXC_NONE) (ix || dl) c in
  (lossy x y -> e = exc_with PE UE) /\ (~ lossy x y -> e = if masks_underflow c then EXC_NONE else UE).
Proof.
  intros Hix Hm e. assert (Hl : lossy x y <-> ix || dl = true).
  { unfold lossy. rewrite <- Hix, orb_true_iff, <- Hm. clear; destruct ix, dl; split; intros; try done; try (by left); try (by right); by destruct H. }
  unfold e, tiny_exc. rewrite Hl. by destruct ix, dl, (masks_underflow c).
Qed.

(** [finish_exc] delivers the rounded value it is given. *)
Lemma finish_correct c s x e sig ix : (2 ^ 63 <= sig < 2 ^ 64)%Z ->
  let y := sgn s * (IZR sig * bpow (e - 63)) in
  rounds (rc c) (sig_bits c) x y -> (ix = true <-> y <> x) ->
  f80_result c s x (finish_exc s e sig c ix).
Proof.
  intros Hs y Hr Hix. exists y. split; [done|].
  pose proof (sig_binade e sig Hs) as Hbin. pose proof (bpow_pos e) as Hpe.
  assert (Hay : Rabs y = IZR sig * bpow (e - 63)) by (apply sgn_abs; lra). rewrite Hay.
  assert (Hfin : f80_is (mkF80 s Normal e sig) s y) by done.
  unfold finish_exc. destruct (Z.ltb_spec EMAX e) as [Ho|Ho].
  { assert (bpow (EMAX + 1) <= bpow e) by (apply bpow_le; lia).
    assert (bpow EMIN < bpow (EMAX + 1)) by (apply bpow_lt; done).
    split; [|split; intros; exfalso; lra]. intros _. unfold overflow_to_inf. f_equal. by destruct ix. }
  assert (bpow (e + 1) <= bpow (EMAX + 1)) by (apply bpow_le; lia).
  destruct (Z.ltb_spec e EMIN) as [Hu|Hu].
  - assert (bpow (e + 1) <= bpow EMIN) by (apply bpow_le; lia).
    split; [intros; exfalso; lra|]. split; [intros; exfalso; lra|]. intros _.
    pose proof (tiny_exc_spec c x y ix (denormal_loses e sig) Hix (denormal_multiple s e sig Hs Hu)) as Hex.
    unfold denormal_loses in Hex. destruct (Z.ltb_spec e (EMIN - 64)) as [Hf|Hf].
    + assert (bpow (e + 1) <= bpow (EMIN - 64)) by (apply bpow_le; lia).
      split; [intros; exfalso; lra|]. split; [done|]. apply Hex.
    + assert (bpow (EMIN - 64) <= bpow e) by (apply bpow_le; lia).
      split; [done|]. split; [intros; exfalso; lra|]. apply Hex.
  - assert (bpow EMIN <= bpow e) by (apply bpow_le; lia).
    split; [intros; exfalso; lra|]. split; [|intros; exfalso; lra]. intros _. split; [done|].
    cbn [snd]. destruct ix; split; intros Hc; try done; exfalso; [by apply Hix in Hc|].
    by apply Hix in Hc.
Qed.

(** ** Normalizing and rounding *)

(** Incrementing the kept field, carry included, adds one unit. *)
Lemma bump_kept_spec p k e : (2 <= p <= 64)%Z -> (2 ^ (p - 1) <= k < 2 ^ p)%Z ->
  let '(k', e') := bump_kept p k e in
  (2 ^ (p - 1) <= k' < 2 ^ p)%Z /\ IZR k' * bpow (e' - (p - 1)) = IZR (k + 1) * bpow (e - (p - 1)).
Proof.
  intros Hp Hk. pose proof (pow2_half p ltac:(lia)) as Hh. pose proof (pow2_pos (p - 1) ltac:(lia)).
  assert (Hcarry : (k + 1 = 2 ^ p)%Z ->
    IZR (2 ^ (p - 1)) * bpow (e + 1 - (p - 1)) = IZR (k + 1) * bpow (e - (p - 1))).
  { intros ->. rewrite !bpow_IZR, <- !bpow_add by lia. f_equal. lia. }
  unfold bump_kept. destruct (Z.leb_spec 64 p) as [H64|H64].
  - assert (p = 64%Z) as -> by lia. change (Z.shiftl 1 63) with (2 ^ (64 - 1))%Z.
    destruct (Z.leb_spec (2 ^ 64) (k + 1)); split; try lia; try done. apply Hcarry. lia.
  - rewrite Z.shiftr_div_pow2 by lia. destruct (Z.eqb_spec ((k + 1) / 2 ^ p) 0) as [Hz|Hz]; cbn [negb].
    + apply Z.div_small_iff in Hz; [|lia]. split; [lia|done].
    + assert (Hk1 : (k + 1 = 2 ^ p)%Z).
      { destruct (Z.eq_dec (k + 1) (2 ^ p)); [done|]. rewrite Z.div_small in Hz by lia. done. }
      replace (Z.shiftr (k + 1) 1) with (2 ^ (p - 1))%Z.
      2: { rewrite Z.shiftr_div_pow2, Hk1, Hh by lia. change (2 ^ 1)%Z with 2%Z.
           rewrite Z.mul_comm, Z.div_mul by lia. done. }
      split; [lia|]. by apply Hcarry.
Qed.

Lemma leading_zeros_pos w m : (0 < m)%Z -> (w - 1 - leading_zeros w m = Z.log2 m)%Z.
Proof. intros Hm. unfold leading_zeros. destruct (Z.eqb_spec m 0); lia. Qed.

Lemma kept_range p m : (1 <= p)%Z -> (0 < m)%Z -> (2 ^ (p - 1) <= Z.shiftr m (Z.log2 m - (p - 1)) < 2 ^ p)%Z.
Proof.
  intros Hp Hm. assert (Hl : Z.log2 (Z.shiftr m (Z.log2 m - (p - 1))) = (p - 1)%Z).
  { rewrite Z.log2_shiftr by lia. lia. }
  destruct (Z.lt_ge_cases 0 (Z.shiftr m (Z.log2 m - (p - 1)))) as [H|H].
  - pose proof (Z.log2_spec _ H) as Hs. rewrite Hl in Hs. by replace (Z.succ (p - 1)) with p in Hs by lia.
  - exfalso. rewrite Z.log2_nonpos in Hl by lia. assert (p = 1%Z) as -> by lia.
    replace (Z.log2 m - (1 - 1))%Z with (Z.log2 m) in H by lia.
    rewrite Z.shiftr_div_pow2 in H by apply Z.log2_nonneg. destruct (Z.log2_spec m Hm).
    pose proof (Z.div_le_mono (2 ^ Z.log2 m) m (2 ^ Z.log2 m) ltac:(apply pow2_pos, Z.log2_nonneg) ltac:(lia)).
    rewrite Z.div_same in * by (pose proof (pow2_pos (Z.log2 m) (Z.log2_nonneg m)); lia). lia.
Qed.

(** The rounded value is the exact one only when nothing was discarded. *)
Lemma rounds_up_exact r s t k cmp ix lsb : splits t k cmp ix ->
  ix = true <-> IZR (k + b2z (rounds_up r s lsb cmp ix)) <> t.
Proof.
  intros (H1 & H2 & H3). split.
  - intros Hix. apply H2 in Hix. rewrite plus_IZR. destruct (rounds_up _ _ _ _ _); cbn [b2z]; lra.
  - intros Hne. destruct ix; [done|]. exfalso. apply Hne.
    destruct (Req_dec t (IZR k)) as [Ht|Ht]; [|apply H2 in Ht; done].
    assert (Hu : rounds_up r s lsb cmp false = false).
    { unfold rounds_up. destruct r as [|[[]|[]|]|]; try done. destruct cmp; [exfalso; lra|done|exfalso; lra]. }
    by rewrite Hu, Ht, Z.add_0_r.
Qed.

Lemma odd_land k : negb (Z.land k 1 =? 0)%Z = Z.odd k.
Proof. rewrite <- test_one. done. Qed.

Lemma normalize_correct c s ref_exp m frac X : (0 < m)%Z ->
  let d := (Z.log2 m - (sig_bits c - 1))%Z in
  kept_spec m d frac (X * bpow (- d)) ->
  f80_result c s (sgn s * (X * bpow (ref_exp - 127))) (normalize_round_frac_exc s ref_exp m frac c).
Proof.
  intros Hm d Hk. unfold normalize_round_frac_exc. replace (m =? 0)%Z with false by (symmetry; apply Z.eqb_neq; lia).
  replace (127 - leading_zeros 128 m)%Z with (Z.log2 m) by (rewrite <- (leading_zeros_pos 128) by done; lia).
  fold d. unfold kept_spec in Hk. destruct (split_kept m d frac) as [[k cmp] ix]. destruct Hk as [Hs Hkm].
  set (p := sig_bits c) in *. assert (Hp : (2 <= p <= 64)%Z) by (destruct (sig_bits_cases c); lia).
  assert (Hkr : (2 ^ (p - 1) <= k < 2 ^ p)%Z) by (rewrite Hkm; apply kept_range; lia).
  rewrite odd_land. set (up := rounds_up (rc c) s (Z.odd k) cmp ix).
  set (e := (ref_exp - (127 - Z.log2 m))%Z).
  assert (Hu : (ref_exp - 127 + d = e - (p - 1))%Z) by (unfold e, d; lia).
  assert (HX : X * bpow (ref_exp - 127) = X * bpow (- d) * bpow (e - (p - 1))).
  { rewrite Rmult_assoc, <- bpow_add. do 2 f_equal. lia. }
  pose proof (rounds_up_correct (rc c) p s _ k cmp ix (e - (p - 1)) (rc_range c) ltac:(lia) Hs Hkr) as Hr.
  rewrite <- HX in Hr. fold up in Hr.
  assert (Hb : let '(k', e') := if up then bump_kept p k e else (k, e) in
    (2 ^ (p - 1) <= k' < 2 ^ p)%Z /\ IZR k' * bpow (e' - (p - 1)) = IZR (k + b2z up) * bpow (e - (p - 1))).
  { destruct up; [by apply bump_kept_spec|]. split; [done|]. by rewrite Z.add_0_r. }
  destruct (if up then bump_kept p k e else (k, e)) as [k' e']. destruct Hb as [Hk' Hv]. rewrite <- Hv in Hr.
  assert (Hsig : wrap 64 (Z.shiftl k' (64 - p)) = (k' * 2 ^ (64 - p))%Z /\ (2 ^ 63 <= k' * 2 ^ (64 - p) < 2 ^ 64)%Z).
  { rewrite Z.shiftl_mul_pow2 by lia. pose proof (pow2_pos (64 - p) ltac:(lia)).
    assert (2 ^ 63 = 2 ^ (p - 1) * 2 ^ (64 - p))%Z by (rewrite <- Z.pow_add_r by lia; f_equal; lia).
    assert (2 ^ 64 = 2 ^ p * 2 ^ (64 - p))%Z by (rewrite <- Z.pow_add_r by lia; f_equal; lia).
    split; [apply wrap_small; split; [|]; nia|nia]. }
  destruct Hsig as [-> Hsig]. unfold pack_normal_exc.
  replace (k' * 2 ^ (64 - p) =? 0)%Z with false by (symmetry; apply Z.eqb_neq; lia).
  replace (Z.shiftr (k' * 2 ^ (64 - p)) 63 =? 0)%Z with false.
  2: { symmetry. apply Z.eqb_neq. rewrite Z.shiftr_div_pow2 by lia. intros Hz. apply Z.div_small_iff in Hz; lia. }
  assert (Hval : IZR (k' * 2 ^ (64 - p)) * bpow (e' - 63) = IZR k' * bpow (e' - (p - 1))).
  { rewrite mult_IZR, bpow_IZR, Rmult_assoc, <- bpow_add by lia. do 2 f_equal. lia. }
  apply finish_correct; [done|rewrite Hval; done|]. rewrite Hval, Hv, HX.
  rewrite (rounds_up_exact (rc c) s _ k cmp ix (Z.odd k) Hs). fold up. pose proof (bpow_pos (e - (p - 1))) as Hbp.
  split; intros Hne He; apply Hne; [|by rewrite He].
  apply (Rmult_eq_reg_r (bpow (e - (p - 1)))); [|lra]. destruct s; cbn [sgn] in He; lra.
Qed.
