(* ===== verification/F80Spec.v ===== *)
(** * What the 80-bit arithmetic guarantees (x86jit-core/src/f80.rs)

    Addition, subtraction, multiplication, division and square root of normalized operands
    are correctly rounded under every control word while the exact result is in the normal
    range; what a zero operand gives; and where the code departs from the architecture. *)

From Stdlib Require Import Reals Lra.
From S2P Require Import Prelude F80 F80Round.

#[local] Open Scope R_scope.

(** ** Normalized operands *)

(** A normalized number: not zero, and its exponent unbounded. *)
Definition normal (a : F80) : Prop := f_class a = Normal /\ (2 ^ 63 <= f_sig a < 2 ^ 64)%Z.

Lemma normal_no_nan a b : normal a -> normal b -> binary_nan a b = None /\ binary_operand_exc a b = EXC_NONE.
Proof.
  intros [Ha _] [Hb _].
  unfold binary_nan, binary_operand_exc, operand_raises_invalid, is_nan, is_snan. by rewrite Ha, Hb.
Qed.

Lemma with_no_exc r : with_exc EXC_NONE r = r.
Proof. by destruct r. Qed.

Lemma norm_width p m : (2 <= p <= 64)%Z -> (0 < m)%Z -> (m < 2 ^ (Z.log2 m - (p - 1) + 64))%Z.
Proof.
  intros Hp Hm. apply Z.lt_le_trans with (2 ^ Z.succ (Z.log2 m))%Z; [by apply Z.log2_spec|].
  apply Z.pow_le_mono_r; lia.
Qed.

Lemma sig_bits_range c : (2 <= sig_bits c <= 64)%Z.
Proof. destruct (sig_bits_cases c) as [->|[-> | ->]]; lia. Qed.

Lemma sgn_mul s s' : sgn (xorb s s') = sgn s * sgn s'.
Proof. destruct s, s'; cbn [sgn xorb]; lra. Qed.

(** Rounding an exact integer, or one with an exact remainder. *)
Lemma round_frac_correct c s ref_exp m frac f : (0 < m)%Z -> frac_of frac f -> frac = None \/ (2 ^ 63 <= m)%Z ->
  f80_result c s (sgn s * ((IZR m + f) * bpow (ref_exp - 127))) (normalize_round_frac_exc s ref_exp m frac c).
Proof.
  intros Hm Hf Hd. apply normalize_correct; [done|]. pose proof (sig_bits_range c).
  apply kept_frac; [done|by apply norm_width|done|]. destruct Hd as [Hd|Hd]; [by left|right].
  assert (63 <= Z.log2 m)%Z by (apply Z.log2_le_pow2; lia). lia.
Qed.

Lemma round_exact_correct c s ref_exp m : (0 < m)%Z ->
  f80_result c s (sgn s * (IZR m * bpow (ref_exp - 127))) (normalize_round_exc s ref_exp m c).
Proof.
  intros Hm. pose proof (round_frac_correct c s ref_exp m None 0 Hm eq_refl (or_introl eq_refl)) as H.
  by rewrite Rplus_0_r in H.
Qed.

(** ** Multiplication and division *)

Lemma mul_rounded a b c : normal a -> normal b ->
  f80_result c (xorb (f_sign a) (f_sign b)) (F2R a * F2R b) (mul_ctl a b c).
Proof.
  intros Ha Hb. destruct (normal_no_nan a b Ha Hb) as [Hn He]. destruct Ha as [Ha Hsa], Hb as [Hb Hsb].
  unfold mul_ctl. rewrite Hn, He, Ha, Hb, with_no_exc.
  replace (F2R a * F2R b) with (sgn (xorb (f_sign a) (f_sign b)) *
    (IZR (f_sig a * f_sig b) * bpow (f_exp a + f_exp b + 1 - 127))); [apply round_exact_correct; nia|].
  unfold F2R. rewrite sgn_mul, mult_IZR.
  replace (f_exp a + f_exp b + 1 - 127)%Z with ((f_exp a - 63) + (f_exp b - 63))%Z by lia.
  rewrite bpow_add. ring.
Qed.

Lemma div_frac n d : (0 <= n)%Z -> (0 < d)%Z ->
  exists f, IZR n / IZR d = IZR (n / d) + f /\
    frac_of (if n mod d =? 0 then None else Some (2 * (n mod d) ?= d))%Z f.
Proof.
  intros Hn Hd. assert (Hd' : 0 < IZR d) by (apply IZR_lt; done). exists (IZR (n mod d) / IZR d).
  assert (Hdm : IZR n = IZR d * IZR (n / d) + IZR (n mod d)).
  { rewrite <- mult_IZR, <- plus_IZR. f_equal. apply Z.div_mod. lia. }
  split; [rewrite Hdm; field; lra|].
  pose proof (Z.mod_pos_bound n d Hd) as Hr. destruct (Z.eqb_spec (n mod d) 0) as [Hz|Hz].
  { rewrite Hz. cbn [frac_of]. unfold Rdiv. apply Rmult_0_l. }
  assert (H1 : 0 < IZR (n mod d) < IZR d) by (split; apply IZR_lt; lia).
  assert (Hinv : IZR (n mod d) / IZR d * IZR d = IZR (n mod d)) by (field; lra).
  set (f := IZR (n mod d) / IZR d) in *. cbn [frac_of]. split; [nra|].
  destruct (Z.compare_spec (2 * (n mod d)) d) as [Hc|Hc|Hc].
  - assert (2 * IZR (n mod d) = IZR d) by (rewrite <- mult_IZR; f_equal; lia). nra.
  - assert (2 * IZR (n mod d) < IZR d) by (rewrite <- mult_IZR; apply IZR_lt; lia). nra.
  - assert (IZR d < 2 * IZR (n mod d)) by (rewrite <- mult_IZR; apply IZR_lt; lia). nra.
Qed.

Lemma div_rounded a b c : normal a -> normal b ->
  f80_result c (xorb (f_sign a) (f_sign b)) (F2R a / F2R b) (div_ctl a b c).
Proof.
  intros Ha Hb. destruct (normal_no_nan a b Ha Hb) as [Hn He]. destruct Ha as [Ha Hsa], Hb as [Hb Hsb].
  unfold div_ctl. rewrite Hn, He, Ha, Hb, with_no_exc.
  set (num := Z.shiftl (f_sig a) 64). assert (Hnum : num = (f_sig a * 2 ^ 64)%Z) by (apply Z.shiftl_mul_pow2; lia).
  destruct (div_frac num (f_sig b) ltac:(lia) ltac:(lia)) as (f & Hq & Hf).
  replace (F2R a / F2R b) with (sgn (xorb (f_sign a) (f_sign b)) *
    ((IZR (num / f_sig b) + f) * bpow (f_exp a - f_exp b + 63 - 127))).
  - apply round_frac_correct; [|done|right].
    + apply Z.div_str_pos. lia.
    + apply Z.div_le_lower_bound; lia.
  - rewrite <- Hq, Hnum, mult_IZR, bpow_IZR by lia. unfold F2R. rewrite sgn_mul.
    replace (f_exp a - f_exp b + 63 - 127)%Z with ((f_exp a - 63) + (- (f_exp b - 63) + - 64))%Z by lia.
    rewrite !bpow_add. assert (0 < IZR (f_sig b)) by (apply IZR_lt; lia).
    pose proof (bpow_pos (f_exp b - 63)). pose proof (bpow_neg (f_exp b - 63)) as Hib.
    assert (Hinv : bpow (- (f_exp b - 63)) = / bpow (f_exp b - 63)) by (apply Rmult_eq_reg_r with (bpow (f_exp b - 63)); [rewrite Hib; field; lra|lra]).
    rewrite Hinv. transitivity (sgn (f_sign a) * sgn (f_sign b) * (IZR (f_sig a) / IZR (f_sig b) *
      (bpow (f_exp a - 63) * / bpow (f_exp b - 63))) * (bpow (-64) * bpow 64)); [field; lra|].
    replace (bpow (-64) * bpow 64) with 1 by (symmetry; apply (bpow_neg 64)).
    destruct (f_sign b); cbn [sgn]; field; lra.
Qed.

(** ** Addition and subtraction *)

(** The aligned low operand is exact, or carries a sticky bit. *)
Lemma align_low_spec sig shift : (2 ^ 63 <= sig < 2 ^ 64)%Z -> (0 <= shift)%Z ->
  let L := IZR sig * bpow (64 - shift) in
  let lm := align_low sig shift in
  (IZR lm = L /\ (shift <= 63 -> Z.even lm = true)%Z) \/
  ((65 <= shift)%Z /\ Z.odd lm = true /\ Rabs (L - IZR lm) < 1).
Proof.
  intros Hs Hsh L lm. unfold lm, align_low. assert (Hsp : 0 < IZR sig < bpow 64).
  { rewrite <- bpow_IZR by lia. split; apply IZR_lt; lia. }
  destruct (Z.leb_spec 128 shift) as [H128|H128].
  { right. replace (sig =? 0)%Z with false by (symmetry; apply Z.eqb_neq; lia). split; [lia|]. split; [done|].
    assert (0 < L < 1).
    { pose proof (bpow_pos (64 - shift)). assert (Hb : bpow 64 * bpow (64 - shift) <= 1).
      { rewrite <- bpow_add, <- bpow_0. apply bpow_le. lia. }
      unfold L. split; [apply Rmult_lt_0_compat; lra|].
      apply Rlt_le_trans with (bpow 64 * bpow (64 - shift)); [apply Rmult_lt_compat_r; lra|lra]. }
    cbn [negb]; apply Rabs_def1; lra. }
  assert (HL : L = IZR (sig * 2 ^ 64) * bpow (- shift)).
  { unfold L. rewrite mult_IZR, bpow_IZR, Rmult_assoc, <- bpow_add by lia. do 2 f_equal. }
  rewrite Z.shiftl_1_l, (Z.sub_1_r (2 ^ shift)), <- Z.ones_equiv, Z.land_ones, Z.shiftr_div_pow2, Z.shiftl_mul_pow2 by lia.
  destruct (div_pow2_bounds (sig * 2 ^ 64) shift ltac:(lia) ltac:(lia)) as [Hdm Hr].
  set (q := (sig * 2 ^ 64 / 2 ^ shift)%Z) in *. set (r := (sig * 2 ^ 64 mod 2 ^ shift)%Z) in *.
  pose proof (bpow_neg shift) as Hinv. pose proof (bpow_pos (- shift)) as Hbn.
  assert (HLq : L = IZR q + IZR r * bpow (- shift)).
  { rewrite HL, Hdm. transitivity (IZR q * (bpow (- shift) * bpow shift) + IZR r * bpow (- shift)); [ring|].
    rewrite Hinv. ring. }
  assert (Hle64 : (shift <= 64)%Z -> r = 0%Z /\ q = (sig * 2 ^ (64 - shift))%Z).
  { intros Hle. unfold r, q. replace (2 ^ 64)%Z with (2 ^ (64 - shift) * 2 ^ shift)%Z by (rewrite <- Z.pow_add_r by lia; f_equal; lia).
    rewrite Z.mul_assoc, Z.mod_mul, Z.div_mul by (pose proof (pow2_pos shift); lia). done. }
  destruct ((0 <? shift)%Z && negb (r =? 0)%Z) eqn:Est.
  - right. apply andb_true_iff in Est as [Est1 Est2]. apply negb_true_iff, Z.eqb_neq in Est2.
    assert (H65 : (65 <= shift)%Z) by (apply Z.nlt_ge; intros Hlt; apply Est2, Hle64; lia).
    split; [done|].
    assert (Hodd : Z.odd (Z.lor q 1) = true) by (rewrite <- Z.bit0_odd, Z.lor_spec, orb_true_r; done).
    split; [done|]. assert (Hrp : 0 < IZR r * bpow (- shift) < 1).
    { assert (0 < IZR r) by (destruct Hr as [Hr _]; apply Rle_lt_or_eq_dec in Hr as [Hr|Hr]; [done|]; apply eq_IZR in Hr; congruence).
      split; [apply Rmult_lt_0_compat; lra|].
      apply Rlt_le_trans with (bpow shift * bpow (- shift)); [apply Rmult_lt_compat_r; lra|lra]. }
    assert (Hlor : Z.lor q 1 = q \/ Z.lor q 1 = (q + 1)%Z).
    { destruct (Z.odd q) eqn:Eq; [left|right].
      - apply Z.bits_inj'. intros i Hi. rewrite Z.lor_spec. destruct (Z.eq_dec i 0) as [->|Hi0].
        + by rewrite !Z.bit0_odd, Eq.
        + rewrite (Z.bits_above_log2 1 i) by (cbn; lia). apply orb_false_r.
      - rewrite <- Z.lxor_lor, <- Z.add_nocarry_lxor; [done| |].
        all: apply Z.bits_inj'; intros i Hi; rewrite Z.land_spec, Z.bits_0; destruct (Z.eq_dec i 0) as [->|Hi0];
          [by rewrite Z.bit0_odd, Eq|rewrite (Z.bits_above_log2 1 i) by (cbn; lia); apply andb_false_r]. }
    rewrite HLq. destruct Hlor as [-> | ->]; [|rewrite plus_IZR]; apply Rabs_def1; lra.
  - left. assert (Hr0 : r = 0%Z).
    { apply andb_false_iff in Est as [Est|Est]; [|by apply negb_false_iff, Z.eqb_eq in Est].
      apply Z.ltb_ge in Est. apply Hle64. lia. }
    split; [rewrite HLq, Hr0; lra|]. intros Hle. destruct (Hle64 ltac:(lia)) as [_ ->].
    rewrite Z.even_mul, Z.even_pow by lia. apply orb_true_r.
Qed.

(** Rounding a value known up to a sticky bit. *)
Lemma round_sticky_correct c s ref_exp m X : (0 < m)%Z -> IZR m = X \/ (2 ^ 126 <= m)%Z /\ Z.odd m = true /\ Rabs (X - IZR m) < 1 ->
  f80_result c s (sgn s * (X * bpow (ref_exp - 127))) (normalize_round_exc s ref_exp m c).
Proof.
  intros Hm [<-|(Hm' & Hodd & HX)]; [by apply round_exact_correct|].
  apply normalize_correct; [done|]. pose proof (sig_bits_range c).
  apply kept_sticky; [|split; [done|by apply norm_width]|done|done].
  assert (126 <= Z.log2 m)%Z by (apply Z.log2_le_pow2; lia). lia.
Qed.

Section AddNormals.
Context (hi lo : F80) (c : Ctl) (Hhi : normal hi) (Hlo : normal lo) (He : (f_exp lo <= f_exp hi)%Z).

Let shift := (f_exp hi - f_exp lo)%Z.
Let hm := Z.shiftl (f_sig hi) 64.
Let lm := align_low (f_sig lo) shift.
Let L := IZR (f_sig lo) * bpow (64 - shift).

Lemma hi_scaled : hm = (f_sig hi * 2 ^ 64)%Z /\ F2R hi = sgn (f_sign hi) * (IZR hm * bpow (f_exp hi - 127)).
Proof.
  assert (Hh : hm = (f_sig hi * 2 ^ 64)%Z) by (apply Z.shiftl_mul_pow2; lia). split; [done|].
  unfold F2R. rewrite Hh, mult_IZR, bpow_IZR, (Rmult_assoc (IZR _)), <- bpow_add by lia. do 3 f_equal. lia.
Qed.

Lemma lo_scaled : F2R lo = sgn (f_sign lo) * (L * bpow (f_exp hi - 127)).
Proof. unfold F2R, L. rewrite Rmult_assoc, <- bpow_add. do 3 f_equal. lia. Qed.

Lemma low_bounds : 0 < L /\ ((65 <= shift)%Z -> L < bpow 63) /\ ((1 <= shift)%Z -> L < bpow 127).
Proof.
  destruct Hlo as [_ Hs]. assert (Hsp : 0 < IZR (f_sig lo) < bpow 64).
  { rewrite <- bpow_IZR by lia. split; apply IZR_lt; lia. }
  pose proof (bpow_pos (64 - shift)). split; [apply Rmult_lt_0_compat; lra|].
  split; intros Hsh; (apply Rlt_le_trans with (bpow 64 * bpow (64 - shift));
    [apply Rmult_lt_compat_r; lra|rewrite <- bpow_add; apply bpow_le; lia]).
Qed.

(** The carry out of bit 127 only happens while the low operand is still exact and even. *)
Lemma carry_exact : (2 ^ 128 <= hm + lm)%Z -> IZR lm = L -> (shift <= 63)%Z /\ (hm + lm < 2 ^ 129)%Z.
Proof.
  intros Hc HL. destruct hi_scaled as [Hh _]. destruct Hhi as [_ Hsh], Hlo as [_ Hsl].
  assert (Hle : forall e, (64 - shift <= e)%Z -> (0 <= e)%Z -> (lm <= f_sig lo * 2 ^ e)%Z).
  { intros e He1 He2. apply le_IZR. rewrite HL, mult_IZR, bpow_IZR by done. unfold L.
    apply Rmult_le_compat_l; [apply IZR_le; lia|]. by apply bpow_le. }
  split.
  - apply Z.nlt_ge. intros Hgt. specialize (Hle 0%Z ltac:(lia) ltac:(lia)). lia.
  - specialize (Hle 64%Z ltac:(unfold shift; lia) ltac:(lia)). lia.
Qed.

Lemma carry_half : (2 ^ 128 <= hm + lm < 2 ^ 129)%Z ->
  Z.lor (Z.shiftr (wrap 128 (hm + lm)) 1) (Z.shiftl 1 127) = ((hm + lm) / 2)%Z.
Proof.
  intros H. assert (Hw : wrap 128 (hm + lm) = (hm + lm - 2 ^ 128)%Z).
  { unfold wrap. rewrite <- (Z.mod_unique (hm + lm) (2 ^ 128) 1 (hm + lm - 2 ^ 128)); lia. }
  rewrite Hw, Z.shiftr_div_pow2, Z.shiftl_1_l by lia. change (2 ^ 1)%Z with 2%Z.
  replace (hm + lm - 2 ^ 128)%Z with (hm + lm + (- 2 ^ 127) * 2)%Z by lia. rewrite Z.div_add by lia.
  assert (0 <= (hm + lm) / 2 + - 2 ^ 127 < 2 ^ 127)%Z.
  { pose proof (Z.div_le_lower_bound (hm + lm) 2 (2 ^ 127)). pose proof (Z.div_lt_upper_bound (hm + lm) 2 (2 ^ 128)). lia. }
  rewrite <- Z.lxor_lor, <- Z.add_nocarry_lxor; [lia| |].
  all: apply Z.bits_inj'; intros i Hi; rewrite Z.land_spec, Z.bits_0, Z.pow2_bits_eqb by lia;
    destruct (Z.eqb_spec 127 i) as [<-|]; [|apply andb_false_r];
    rewrite (in_width_high 127) by (try done; lia); done.
Qed.

(** A sticky low operand is small. *)
Lemma sticky_small : (65 <= shift)%Z -> Z.odd lm = true -> Rabs (L - IZR lm) < 1 -> (0 < lm <= 2 ^ 63)%Z.
Proof.
  intros Hsh Hodd HL. destruct low_bounds as (HL0 & HL1 & _). specialize (HL1 Hsh).
  rewrite <- bpow_IZR in HL1 by lia. apply Rabs_def2 in HL. split.
  - assert (0 <= lm)%Z by (apply Z.lt_succ_r, lt_IZR; rewrite succ_IZR; lra).
    assert (lm <> 0)%Z by (intros Hz; by rewrite Hz in Hodd). lia.
  - apply Z.lt_succ_r, lt_IZR. rewrite succ_IZR. lra.
Qed.

Lemma low_cases : IZR lm = L /\ (0 < lm)%Z /\ ((shift <= 63)%Z -> Z.even lm = true) \/
  (65 <= shift)%Z /\ Z.odd lm = true /\ Rabs (L - IZR lm) < 1 /\ (0 < lm <= 2 ^ 63)%Z.
Proof.
  destruct (align_low_spec (f_sig lo) shift (proj2 Hlo) ltac:(unfold shift; lia)) as [[HL Hev]|(Hsh & Hodd & HL)];
    fold L lm in HL.
  - left. split; [done|]. split; [|done]. apply lt_IZR. rewrite HL. apply low_bounds.
  - right. auto using sticky_small.
Qed.

Lemma hm_odd : Z.odd hm = false.
Proof. destruct hi_scaled as [-> _]. by rewrite Z.odd_mul, andb_false_r. Qed.

(** The sum of the aligned magnitudes. *)
Lemma sum_rounded s : f80_result c s (sgn s * ((IZR hm + L) * bpow (f_exp hi - 127)))
  (if (2 ^ 128 <=? hm + lm)%Z
   then normalize_round_exc s (f_exp hi + 1) (Z.lor (Z.shiftr (wrap 128 (hm + lm)) 1) (Z.shiftl 1 127)) c
   else normalize_round_exc s (f_exp hi) (wrap 128 (hm + lm)) c).
Proof.
  destruct hi_scaled as [Hh _]. pose proof (proj2 Hhi) as Hsh. pose proof hm_odd as Hho.
  destruct low_cases as [(HL & Hl0 & Hev)|(Hsh' & Hodd & HL & Hlm)].
  - destruct (Z.leb_spec (2 ^ 128) (hm + lm)) as [Hc|Hc].
    + destruct (carry_exact Hc HL) as [H63 Hlt]. rewrite carry_half by done.
      assert (Heven : (2 * ((hm + lm) / 2) = hm + lm)%Z).
      { assert (Hee : Z.even (hm + lm) = true) by (rewrite Z.even_add, Hev, <- Z.negb_odd, Hho by done; done).
        apply Z.even_spec in Hee as [k ->]. rewrite (Z.mul_comm 2 k), Z.div_mul by lia. lia. }
      replace ((IZR hm + L) * bpow (f_exp hi - 127)) with (IZR ((hm + lm) / 2) * bpow (f_exp hi + 1 - 127)).
      * apply round_exact_correct. lia.
      * rewrite <- HL, <- plus_IZR.
        replace (IZR (hm + lm)) with (2 * IZR ((hm + lm) / 2)) by (rewrite <- mult_IZR; by rewrite Heven).
        replace (f_exp hi + 1 - 127)%Z with (1 + (f_exp hi - 127))%Z by lia.
        rewrite bpow_add. change (bpow 1) with (2 * 1). ring.
    + rewrite wrap_small by (split; lia). apply round_sticky_correct; [lia|left]. by rewrite plus_IZR, HL.
  - replace (2 ^ 128 <=? hm + lm)%Z with false by (symmetry; apply Z.leb_gt; lia).
    rewrite wrap_small by (split; lia). apply round_sticky_correct; [lia|right]. split; [lia|].
    split; [by rewrite Z.odd_add, Hodd, Hho|].
    rewrite plus_IZR. by replace (IZR hm + L - (IZR hm + IZR lm)) with (L - IZR lm) by ring.
Qed.

(** The difference. *)
Lemma diff_rounded s : (lm < hm)%Z ->
  f80_result c s (sgn s * ((IZR hm - L) * bpow (f_exp hi - 127))) (normalize_round_exc s (f_exp hi) (hm - lm) c).
Proof.
  intros Hlt. destruct hi_scaled as [Hh _]. pose proof (proj2 Hhi) as Hsh. pose proof hm_odd as Hho.
  destruct low_cases as [(HL & Hl0 & _)|(Hsh' & Hodd & HL & Hlm)]; (apply round_sticky_correct; [lia|]).
  - left. by rewrite minus_IZR, HL.
  - right. split; [lia|]. split; [by rewrite Z.odd_sub, Hodd, Hho|].
    rewrite minus_IZR. rewrite <- Rabs_Ropp. by replace (- (IZR hm - L - (IZR hm - IZR lm))) with (L - IZR lm) by ring.
Qed.

(** When the low operand is not below the high one, it is exact. *)
Lemma low_exact : (hm <= lm)%Z -> IZR lm = L.
Proof.
  intros Hle. destruct hi_scaled as [Hh _]. pose proof (proj2 Hhi) as Hsh.
  destruct low_cases as [(HL & _)|(_ & _ & _ & Hlm)]; [done|lia].
Qed.
End AddNormals.

Lemma F2R_neg b : F2R (neg b) = - F2R b.
Proof. unfold F2R, neg. cbn [f_sign f_sig f_exp]. destruct (f_sign b); cbn [negb sgn]; lra. Qed.

Lemma normal_neg b : normal b -> normal (neg b).
Proof. done. Qed.

(** The specified sum: exact zeros are positive, everything else is rounded. *)
Definition sum_result (c : Ctl) (x : R) (res : F80 * Exc) : Prop :=
  (x = 0 -> res = (zero false, EXC_NONE)) /\ (x < 0 -> f80_result c true x res) /\ (0 < x -> f80_result c false x res).

Lemma sum_result_signed c s x res : 0 < x -> f80_result c s (sgn s * x) res -> sum_result c (sgn s * x) res.
Proof. intros Hx Hr. destruct s; cbn [sgn] in *; repeat split; intros; try lra; done. Qed.

Lemma add_normals_ordered hi lo c : normal hi -> normal lo -> (f_exp lo <= f_exp hi)%Z ->
  sum_result c (F2R hi + F2R lo)
    (let shift := (f_exp hi - f_exp lo)%Z in
     let hm := Z.shiftl (f_sig hi) 64 in
     let lm := align_low (f_sig lo) shift in
     if bool_decide (f_sign hi = f_sign lo) then
       let sum := wrap 128 (hm + lm) in
       if (2 ^ 128 <=? hm + lm)%Z then
         normalize_round_exc (f_sign hi) (f_exp hi + 1) (Z.lor (Z.shiftr sum 1) (Z.shiftl 1 127)) c
       else normalize_round_exc (f_sign hi) (f_exp hi) sum c
     else if (lm <=? hm)%Z then
       let diff := (hm - lm)%Z in
       if (diff =? 0)%Z then (zero false, EXC_NONE) else normalize_round_exc (f_sign hi) (f_exp hi) diff c
     else normalize_round_exc (f_sign lo) (f_exp hi) (lm - hm) c).
Proof.
  intros Hh Hl He. cbv zeta. destruct (hi_scaled hi lo) as [Hhm ->]. rewrite (lo_scaled hi lo).
  destruct (low_bounds hi lo Hl) as (HL0 & _). pose proof (proj2 Hh) as Hsig.
  set (hm := Z.shiftl (f_sig hi) 64) in *. set (L := IZR (f_sig lo) * bpow (64 - (f_exp hi - f_exp lo))) in *.
  set (lm := align_low (f_sig lo) (f_exp hi - f_exp lo)). set (B := bpow (f_exp hi - 127)).
  assert (HB : 0 < B) by apply bpow_pos. assert (Hhp : 0 < IZR hm) by (apply IZR_lt; lia).
  case_bool_decide as Hs.
  { rewrite <- Hs, <- Rmult_plus_distr_l, <- Rmult_plus_distr_r. apply sum_result_signed; [nra|].
    by apply sum_rounded. }
  assert (Hsl : sgn (f_sign lo) = - sgn (f_sign hi)) by (destruct (f_sign hi), (f_sign lo); cbn [sgn]; try lra; done).
  assert (Hx : forall s, sgn s * (IZR hm * B) + - sgn s * (L * B) = sgn s * ((IZR hm - L) * B)) by (intros; ring).
  rewrite Hsl, Hx. destruct (Z.leb_spec lm hm) as [Hle|Hgt].
  - destruct (Z.eqb_spec (hm - lm) 0) as [Hz|Hz].
    + assert (HLe : IZR lm = L) by (apply (low_exact hi lo Hh Hl He); fold hm lm; lia).
      replace (IZR hm - L) with 0 by (rewrite <- HLe, <- minus_IZR, Hz; done).
      rewrite Rmult_0_l, Rmult_0_r. repeat split; intros; lra || done.
    + assert (Hlt : (lm < hm)%Z) by lia. apply sum_result_signed; [|by apply diff_rounded].
      apply Rmult_lt_0_compat; [|done].
      destruct (low_cases hi lo Hl He) as [(HL & _)|(_ & _ & HL & Hlm)]; fold L lm in HL.
      * rewrite <- HL, <- minus_IZR. apply IZR_lt. lia.
      * fold lm in Hlm. apply Rabs_def2 in HL. assert (IZR (lm + 1) < IZR hm) by (apply IZR_lt; lia).
        rewrite plus_IZR in *. lra.
  - assert (HLe : IZR lm = L) by (apply (low_exact hi lo Hh Hl He); fold hm lm; lia).
    replace (sgn (f_sign hi) * ((IZR hm - L) * B)) with (sgn (f_sign lo) * (IZR (lm - hm) * B)).
    2: { rewrite Hsl, minus_IZR, HLe. ring. }
    apply sum_result_signed; [apply Rmult_lt_0_compat; [apply IZR_lt; lia|done]|].
    apply round_exact_correct. lia.
Qed.

Lemma add_rounded a b c : normal a -> normal b -> sum_result c (F2R a + F2R b) (add_ctl a b c).
Proof.
  intros Ha Hb. destruct (normal_no_nan a b Ha Hb) as [Hn He]. unfold add_ctl, add_sub.
  rewrite Hn, He. rewrite (proj1 Ha), (proj1 Hb), with_no_exc. unfold add_normals.
  destruct (Z.leb_spec (f_exp b) (f_exp a)); [by apply add_normals_ordered|].
  rewrite Rplus_comm. apply add_normals_ordered; [done|done|lia].
Qed.

Lemma sub_rounded a b c : normal a -> normal b -> sum_result c (F2R a - F2R b) (sub_ctl a b c).
Proof.
  intros Ha Hb. destruct (normal_no_nan a b Ha Hb) as [Hn He]. unfold sub_ctl, add_sub.
  rewrite Hn, He. change (f_class (neg b)) with (f_class b). rewrite (proj1 Ha), (proj1 Hb), with_no_exc.
  unfold Rminus. rewrite <- F2R_neg. pose proof (add_rounded a (neg b) c Ha (normal_neg b Hb)) as H.
  unfold add_ctl, add_sub in H. destruct (normal_no_nan a (neg b) Ha (normal_neg b Hb)) as [Hn' He'].
  rewrite Hn', He' in H. change (f_class (neg b)) with (f_class b) in H.
  by rewrite (proj1 Ha), (proj1 Hb), with_no_exc in H.
Qed.

(** ** Square root *)

Lemma isqrt_newton_step x r : (0 < x)%Z -> (Z.sqrt x <= r)%Z -> (0 < r)%Z ->
  (Z.sqrt x <= (r + x / r) / 2)%Z /\
  (Z.sqrt x < r -> (r + x / r) / 2 < r /\ 2 * ((r + x / r) / 2 - Z.sqrt x) <= r - Z.sqrt x)%Z.
Proof.
  intros Hx Hr Hr0. destruct (Z.sqrt_spec x ltac:(lia)) as [H1 H2]. set (s := Z.sqrt x) in *.
  assert (Hq : (2 * s - r <= x / r)%Z) by (apply Z.div_le_lower_bound; nia).
  split; [apply Z.div_le_lower_bound; lia|]. intros Hlt.
  assert (Hq' : (x / r <= s)%Z) by (apply Z.lt_succ_r, Z.div_lt_upper_bound; nia).
  split; [apply Z.div_lt_upper_bound; lia|].
  assert (2 * ((r + x / r) / 2) <= r + x / r)%Z by (apply Z.mul_div_le; lia). lia.
Qed.

Lemma isqrt_newton_correct n : forall fuel x r, (n < fuel)%nat -> (0 < x)%Z -> (Z.sqrt x <= r)%Z ->
  (r - Z.sqrt x < 2 ^ Z.of_nat n)%Z -> isqrt_newton fuel x r = Some (Z.sqrt x).
Proof.
  induction n as [|n IH]; intros [|fuel] x r Hf Hx Hr Hd; try lia; cbn [isqrt_newton].
  all: assert (Hs : (0 < Z.sqrt x)%Z) by (apply Z.sqrt_pos; lia).
  all: destruct (isqrt_newton_step x r Hx Hr ltac:(lia)) as [Hge Hlt].
  - assert (r = Z.sqrt x) as -> by (change (2 ^ Z.of_nat 0)%Z with 1%Z in Hd; lia).
    replace (Z.sqrt x <=? _)%Z with true by (symmetry; apply Z.leb_le; lia). done.
  - destruct (Z.leb_spec r ((r + x / r) / 2)) as [Hle|Hgt].
    + destruct (Z.eq_dec r (Z.sqrt x)) as [->|Hne]; [done|]. destruct (Hlt ltac:(lia)). lia.
    + assert (Z.sqrt x < r)%Z as Hsr by lia. destruct (Hlt Hsr) as [_ Hh]. apply IH; [lia|done|done|].
      rewrite Nat2Z.inj_succ, Z.pow_succ_r in Hd by lia. lia.
Qed.

Lemma isqrt128_correct x : (0 <= x < 2 ^ 128)%Z -> isqrt128 x = Some (Z.sqrt x, x - Z.sqrt x * Z.sqrt x)%Z.
Proof.
  intros Hx. unfold isqrt128. destruct (Z.eqb_spec x 0) as [->|Hx0]; [done|].
  assert (Hl : (128 - leading_zeros 128 x = Z.log2 x + 1)%Z) by (pose proof (leading_zeros_pos 128 x ltac:(lia)); lia).
  rewrite Hl, Z.shiftl_1_l. pose proof (Z.log2_spec x ltac:(lia)) as [_ Hlx].
  assert (Hl127 : (Z.log2 x <= 127)%Z) by (apply Z.lt_succ_r, Z.log2_lt_pow2; lia).
  pose proof (Z.log2_nonneg x) as Hl0. destruct (Z.sqrt_spec x ltac:(lia)) as [Hs1 Hs2].
  set (h := ((Z.log2 x + 1) / 2 + 1)%Z).
  assert (Hh : (0 <= h <= 65 /\ Z.log2 x + 1 < 2 * h)%Z).
  { unfold h. pose proof (Z.div_mod (Z.log2 x + 1) 2 ltac:(lia)). pose proof (Z.mod_pos_bound (Z.log2 x + 1) 2). lia. }
  assert (Hr : (Z.sqrt x < 2 ^ h)%Z).
  { apply Z.nle_gt. intros Hle. assert (2 ^ h * 2 ^ h <= x)%Z by (pose proof (pow2_pos h); nia).
    rewrite <- Z.pow_add_r in * by lia. assert (2 ^ Z.succ (Z.log2 x) <= 2 ^ (h + h))%Z by (apply Z.pow_le_mono_r; lia). lia. }
  assert (2 ^ h <= 2 ^ 65)%Z by (apply Z.pow_le_mono_r; lia). pose proof (Z.sqrt_nonneg x).
  rewrite (isqrt_newton_correct 66); [|unfold ISQRT_FUEL; lia|lia|lia|change (2 ^ Z.of_nat 66)%Z with (2 * 2 ^ 65)%Z; lia].
  cbn [mbind option_bind ISQRT_FUEL isqrt_fix]. by replace (x <? Z.sqrt x * Z.sqrt x)%Z with false by (symmetry; apply Z.ltb_ge; lia).
Qed.

(** The integer root and its remainder place the real root against the half. *)
Lemma sqrt_frac x : (0 < x)%Z ->
  exists f, R_sqrt.sqrt (IZR x) = IZR (Z.sqrt x) + f /\
    frac_of (if x - Z.sqrt x * Z.sqrt x =? 0 then None
             else Some (if Z.sqrt x <? x - Z.sqrt x * Z.sqrt x then Gt else Lt))%Z f.
Proof.
  intros Hx. destruct (Z.sqrt_spec x ltac:(lia)) as [H1 H2]. pose proof (Z.sqrt_nonneg x) as H0.
  exists (R_sqrt.sqrt (IZR x) - IZR (Z.sqrt x)). split; [ring|].
  set (s := Z.sqrt x) in *. set (y := R_sqrt.sqrt (IZR x)).
  assert (Hy : 0 <= y) by apply sqrt_pos. assert (Hyy : y * y = IZR x) by (apply sqrt_sqrt, IZR_le; lia).
  pose proof H1 as H1z. apply IZR_le in H0 as Hs0. apply IZR_le in H1. apply IZR_lt in H2. rewrite !mult_IZR, !succ_IZR in *.
  destruct (Z.eqb_spec (x - s * s) 0) as [Hz|Hz]; cbn [frac_of].
  - assert (IZR x = IZR s * IZR s) by (rewrite <- mult_IZR; f_equal; lia). nra.
  - assert (IZR s * IZR s < IZR x) by (rewrite <- mult_IZR; apply IZR_lt; lia).
    split; [split; nra|]. destruct (Z.ltb_spec s (x - s * s)) as [Hg|Hg].
    + assert (IZR s * IZR s + IZR s + 1 <= IZR x).
      { rewrite <- mult_IZR, <- !plus_IZR. apply IZR_le. lia. } nra.
    + assert (IZR x <= IZR s * IZR s + IZR s).
      { rewrite <- mult_IZR, <- plus_IZR. apply IZR_le. lia. } nra.
Qed.

Lemma sqrt_scale x k : 0 <= x -> R_sqrt.sqrt (x * bpow (2 * k)) = R_sqrt.sqrt x * bpow k.
Proof.
  intros Hx. pose proof (bpow_pos k). replace (2 * k)%Z with (k + k)%Z by lia. rewrite bpow_add.
  rewrite sqrt_mult_alt by done. f_equal. apply sqrt_square. lra.
Qed.

Lemma sqrt_rounded a c : normal a -> f_sign a = false ->
  exists res, sqrt_ctl a c = Some res /\ f80_result c false (R_sqrt.sqrt (F2R a)) res.
Proof.
  intros [Ha Hs] Hsg. unfold sqrt_ctl, unary_nan, operand_raises_invalid, is_snan. rewrite Ha, Hsg. cbn [orb andb].
  rewrite !bool_decide_eq_false_2 by done. cbn [andb orb].
  set (e2 := (f_exp a - 63)%Z). set (k := if (Z.land e2 1 =? 0)%Z then 64%Z else 63%Z).
  assert (Hk : (63 <= k <= 64)%Z) by (unfold k; destruct (_ =? _)%Z; lia).
  assert (Hev : exists h, (e2 - k = 2 * h)%Z).
  { pose proof (odd_land e2) as Ho. unfold k. destruct (Z.eqb_spec (Z.land e2 1) 0); cbn [negb] in Ho.
    - symmetry in Ho. rewrite <- Z.negb_even in Ho. apply negb_false_iff, Z.even_spec in Ho as [h Hh].
      exists (h - 32)%Z. lia.
    - symmetry in Ho. apply Z.odd_spec in Ho as [h Hh]. exists (h - 31)%Z. lia. }
  destruct Hev as [h Hh]. set (x := Z.shiftl (f_sig a) k).
  assert (Hx : x = (f_sig a * 2 ^ k)%Z) by (apply Z.shiftl_mul_pow2; lia).
  assert (Hxr : (2 ^ 126 <= x < 2 ^ 128)%Z).
  { rewrite Hx. assert (k = 63 \/ k = 64)%Z as [-> | ->] by lia; lia. }
  rewrite isqrt128_correct by lia. cbn [mbind option_bind]. eexists. split; [done|]. rewrite with_no_exc.
  destruct (sqrt_frac x ltac:(lia)) as (f & Hf & Hfr).
  replace (R_sqrt.sqrt (F2R a)) with (sgn false * ((IZR (Z.sqrt x) + f) * bpow (Z.quot (e2 - k) 2 + 127 - 127))).
  - apply round_frac_correct; [apply Z.sqrt_pos; lia|done|right].
    apply Z.sqrt_le_square; lia.
  - rewrite Hh, (Z.mul_comm 2 h), Z.quot_mul by lia. replace (h + 127 - 127)%Z with h by lia.
    rewrite <- Hf, <- sqrt_scale by (apply IZR_le; lia). cbn [sgn]. rewrite Rmult_1_l. f_equal.
    unfold F2R. rewrite Hsg, Hx, mult_IZR, bpow_IZR, Rmult_assoc, <- bpow_add by lia. cbn [sgn]. rewrite Rmult_1_l.
    do 2 f_equal. lia.
Qed.

(** ** The arithmetic contract *)

(** The exponents tell when a result is in the normal range. *)
Lemma normal_binade a : normal a -> bpow (f_exp a) <= Rabs (F2R a) < bpow (f_exp a + 1).
Proof.
  intros [_ Hs]. pose proof (sig_binade (f_exp a) (f_sig a) Hs) as H. pose proof (bpow_pos (f_exp a)).
  unfold F2R. by rewrite sgn_abs by lra.
Qed.
Lemma mul_in_range a b : normal a -> normal b -> (EMIN <= f_exp a + f_exp b)%Z -> bpow EMIN <= Rabs (F2R a * F2R b).
Proof.
  intros Ha Hb He. apply normal_binade in Ha, Hb. apply bpow_le in He. rewrite bpow_add in He. rewrite Rabs_mult.
  pose proof (bpow_pos (f_exp a)). pose proof (bpow_pos (f_exp b)). nra.
Qed.
Lemma div_in_range a b : normal a -> normal b -> (EMIN <= f_exp a - f_exp b - 1)%Z -> bpow EMIN <= Rabs (F2R a / F2R b).
Proof.
  intros Ha Hb He. apply normal_binade in Ha, Hb. pose proof (bpow_pos (f_exp b)) as Hp.
  assert (Hb0 : F2R b <> 0) by (intros E; rewrite E, Rabs_R0 in Hb; lra).
  assert (Hm : bpow EMIN * bpow (f_exp b + 1) <= bpow (f_exp a)) by (rewrite <- bpow_add; apply bpow_le; lia).
  unfold Rdiv. rewrite Rabs_mult, Rabs_inv. apply (Rmult_le_reg_r (Rabs (F2R b))); [lra|].
  rewrite Rmult_assoc, Rinv_l, Rmult_1_r by lra. pose proof (bpow_pos EMIN). nra.
Qed.

(** C27: products and quotients of normalized operands are rounded once.  When the exact
    result is at least the smallest normal number in magnitude, under every control word
    (rounding direction and precision) the delivered value is the exact product or quotient
    correctly rounded, with PE exactly when it is inexact, or the masked overflow response
    with OE and PE when it is out of range.  Nothing is claimed of smaller results, which
    the code does not round to the format ([tiny_product_flushed]). *)
Theorem f80_mul_div_rounded a b c : normal a -> normal b ->
  (bpow EMIN <= Rabs (F2R a * F2R b) -> delivered c (xorb (f_sign a) (f_sign b)) (F2R a * F2R b) (mul_ctl a b c)) /\
  (bpow EMIN <= Rabs (F2R a / F2R b) -> delivered c (xorb (f_sign a) (f_sign b)) (F2R a / F2R b) (div_ctl a b c)).
Proof. intros Ha Hb. split; apply f80_delivered; [by apply mul_rounded|by apply div_rounded]. Qed.

Lemma f80_mul_div_rounded_witness :
  let a := mkF80 false Normal 1 (2 ^ 63) in let b := mkF80 true Normal 1 (3 * 2 ^ 62) in
  delivered 0x0F7F%Z true (F2R a * F2R b) (mkF80 true Normal 2 (3 * 2 ^ 62), EXC_NONE) /\
  delivered 0x0F7F%Z true (F2R a / F2R b) (mkF80 true Normal (-1) 0xAAAAAAAAAAAAAAAA, PE).
Proof.
  intros a b. destruct (f80_mul_div_rounded a b 0x0F7F%Z ltac:(by split) ltac:(by split)) as [Hm Hd].
  split; [apply Hm, mul_in_range|apply Hd, div_in_range]; (by split) || (vm_compute; discriminate).
Defined.

(** The sum of two normalized values: exact zeros are positive, and a sum in the normal
    range is rounded. *)
Definition sum_delivered (c : Ctl) (x : R) (res : F80 * Exc) : Prop :=
  (x = 0 -> res = (zero false, EXC_NONE)) /\ (x <= - bpow EMIN -> delivered c true x res) /\ (bpow EMIN <= x -> delivered c false x res).

Lemma sum_result_delivered c x res : sum_result c x res -> sum_delivered c x res.
Proof.
  intros (H0 & Hn & Hp). pose proof (bpow_pos EMIN). split; [done|]. split; intros Hx; (apply f80_delivered; [|]).
  - apply Hn. lra.
  - rewrite Rabs_left1; lra.
  - apply Hp. lra.
  - rewrite Rabs_pos_eq; lra.
Qed.

(** C23: sums and differences.  Of two normalized operands they are rounded once, whatever
    the distance of the exponents and under every control word, when the exact result is at
    least the smallest normal number in magnitude: the sticky bit of the alignment loses
    nothing that rounding needs; exact cancellation gives positive zero.  A zero operand
    gives the other one as it is, its significand not cut to the precision in force and no
    flag raised; two zeroes give a zero, negative only when both are. *)
Theorem f80_add_sub_rounded a b c :
  (normal a -> normal b ->
     sum_delivered c (F2R a + F2R b) (add_ctl a b c) /\ sum_delivered c (F2R a - F2R b) (sub_ctl a b c)) /\
  (f_class a = Zero -> normal b -> add_ctl a b c = (b, EXC_NONE) /\ sub_ctl a b c = (neg b, EXC_NONE)) /\
  (normal a -> f_class b = Zero -> add_ctl a b c = (a, EXC_NONE) /\ sub_ctl a b c = (a, EXC_NONE)) /\
  (f_class a = Zero -> f_class b = Zero -> add_ctl a b c = (zero (f_sign a && f_sign b), EXC_NONE) /\
     sub_ctl a b c = (zero (f_sign a && negb (f_sign b)), EXC_NONE)).
Proof.
  split; [intros Ha Hb; split; apply sum_result_delivered; [by apply add_rounded|by apply sub_rounded]|].
  unfold normal, add_ctl, sub_ctl, add_sub, binary_nan, binary_operand_exc, operand_raises_invalid, is_nan, is_snan, neg.
  destruct a as [sa ka ea ga], b as [sb kb eb gb]. cbn [f_class f_sign].
  split; [intros -> [-> _]; done|]. split; [intros [-> _] ->; done|]. intros -> ->. done.
Qed.

Lemma f80_add_sub_rounded_witness :
  let a := mkF80 false Normal 0 (2 ^ 63) in let b := mkF80 true Normal (-200) (2 ^ 63) in
  sum_delivered 0x0F7F%Z (F2R a + F2R b) (mkF80 false Normal (-1) (2 ^ 64 - 1), PE) /\
  sum_delivered 0x0F7F%Z (F2R a - F2R b) (mkF80 false Normal 0 (2 ^ 63), PE).
Proof.
  intros a b. exact (proj1 (f80_add_sub_rounded a b 0x0F7F%Z) ltac:(by split) ltac:(by split)).
Defined.

(** Adding zero does not round: under 24-bit precision the sum of zero and
    1 + 2^-63 is that value, all 64 bits of it, with no flag raised, where the same sum
    reached by two non-zero operands is cut to 24 bits. *)
Theorem zero_operand_unrounded :
  add_ctl (zero false) (mkF80 false Normal 0 (2 ^ 63 + 1)) 0x007F%Z = (mkF80 false Normal 0 (2 ^ 63 + 1), EXC_NONE) /\
  sig_bits 0x007F%Z = 24%Z /\
  add_ctl (mkF80 false Normal (-1) (2 ^ 63)) (mkF80 false Normal (-1) (2 ^ 63 + 2)) 0x007F%Z = (mkF80 false Normal 0 (2 ^ 63), PE).
Proof. split; [vm_compute; reflexivity|]. split; vm_compute; reflexivity. Qed.

(** A product far below the format is zero in every rounding direction: the square of
    the smallest normal number rounds up to +0, where the smallest denormal is due. *)
Theorem tiny_product_flushed : let a := mkF80 false Normal EMIN (2 ^ 63) in
  rc 0x0B7F%Z = 2%Z /\ mul_ctl a a 0x0B7F%Z = (zero false, exc_with PE UE) /\ 0 < F2R a * F2R a.
Proof.
  intros a. split; [vm_compute; reflexivity|]. split; [vm_compute; reflexivity|].
  unfold F2R, a. cbn [f_sign sgn f_sig f_exp]. pose proof (bpow_pos (EMIN - 63)).
  assert (0 < IZR (2 ^ 63)) by (apply IZR_lt; reflexivity). assert (0 < IZR (2 ^ 63) * bpow (EMIN - 63)) by (by apply Rmult_lt_0_compat).
  rewrite Rmult_1_l. by apply Rmult_lt_0_compat.
Qed.

(** And a denormal result is truncated by its encoding: half of the number just above the
    smallest normal one, rounded up, is encoded as half of the smallest normal number. *)
Theorem denormal_product_truncated :
  let '(r, e) := mul_ctl (mkF80 false Normal EMIN (2 ^ 63 + 1)) (mkF80 false Normal (-1) (2 ^ 63)) 0x0B7F%Z in
  e = exc_with PE UE /\ to_bytes r = to_bytes (mkF80 false Normal (EMIN - 1) (2 ^ 63)).
Proof. vm_compute. split; reflexivity. Qed.

(** C28: The square root of every positive value terminates (the Newton loop settles on
    the exact integer root within its 70 iterations) and is correctly rounded. *)
Theorem f80_sqrt_rounded a c : normal a -> f_sign a = false ->
  exists res, sqrt_ctl a c = Some res /\ f80_result c false (R_sqrt.sqrt (F2R a)) res.
Proof. apply sqrt_rounded. Qed.

Lemma f80_sqrt_rounded_witness :
  f80_result 0x037F%Z false (R_sqrt.sqrt (F2R (mkF80 false Normal 1 (2 ^ 63)))) (mkF80 false Normal 0 0xB504F333F9DE6484, PE).
Proof.
  destruct (f80_sqrt_rounded (mkF80 false Normal 1 (2 ^ 63)) 0x037F%Z ltac:(by split) eq_refl) as (res & H & Hr).
  assert (E : sqrt_ctl (mkF80 false Normal 1 (2 ^ 63)) 0x037F%Z = Some (mkF80 false Normal 0 0xB504F333F9DE6484, PE)) by (vm_compute; reflexivity).
  rewrite E in H. injection H as <-. exact Hr.
Defined.
