(* ===== verification/F80Conv.v ===== *)
(** * Encodings and conversions of 80-bit floats (x86jit-core/src/f80.rs)

    The ten-byte encoding and the integer and [f64] conversions: what they preserve,
    how they round, and where they go wrong. *)

From Stdlib Require Import Reals Lra.
From S2P Require Import Prelude F80 F80Round F80Spec.

#[local] Open Scope R_scope.

(** ** The ten-byte encoding *)

(** Integer bit set at exponent zero: an operand the x87 reads as exponent one. *)
Definition pseudo_denormal (b : list Z) : bool :=
  (Z.land (from_le_bytes (drop 8 b)) 0x7fff =? 0)%Z && test (from_le_bytes (take 8 b)) INT_BIT.

Lemma int_bit_spec sig : in_width 64 sig -> test sig INT_BIT = (2 ^ 63 <=? sig)%Z.
Proof.
  intros Hs. change INT_BIT with (2 ^ 63)%Z. rewrite test_pow2 by lia.
  destruct (Z.leb_spec (2 ^ 63) sig) as [H|H].
  - rewrite Z.testbit_true by lia. replace (sig / 2 ^ 63)%Z with 1%Z; [done|].
    destruct Hs. apply Z.div_unique with (sig - 2 ^ 63)%Z; lia.
  - apply (in_width_high 63); [split; [apply Hs|done]|lia|lia].
Qed.

Lemma se_split se : in_width 16 se ->
  Z.lor (wrap 16 (Z.shiftl (b2z (negb (Z.land (Z.shiftr se 15) 1 =? 0)%Z)) 15)) (Z.land se 0x7fff) = se.
Proof.
  intros Hse. rewrite odd_land, <- Z.bit0_odd, Z.shiftr_spec, Z.add_0_l by lia.
  change 0x7fff%Z with (Z.ones 15). apply Z.bits_inj'. intros i Hi.
  rewrite Z.lor_spec, wrap_testbit, Z.shiftl_spec, b2z_testbit, Z.land_spec, Z.testbit_ones_nonneg by lia.
  destruct (Z.ltb_spec i 15), (Z.ltb_spec i 16), (Z.eqb_spec (i - 15) 0); try lia.
  - by rewrite andb_true_r, andb_false_r.
  - replace i with 15%Z by lia. by rewrite andb_false_r, andb_true_r, orb_false_r.
  - rewrite !andb_false_r. symmetry. apply (in_width_high 16); [done|lia|lia].
Qed.

Lemma denormal_shift sig : (0 < sig < 2 ^ 64)%Z ->
  let sh := leading_zeros 64 sig in
  (0 <= sh <= 63)%Z /\ wrap 64 (Z.shiftl sig sh) = (sig * 2 ^ sh)%Z /\ (2 ^ 63 <= sig * 2 ^ sh < 2 ^ 64)%Z.
Proof.
  intros Hs sh. pose proof (leading_zeros_pos 64 sig ltac:(lia)) as Hl. fold sh in Hl.
  assert (Z.log2 sig < 64)%Z by (apply Z.log2_lt_pow2; lia). pose proof (Z.log2_nonneg sig).
  pose proof (Z.log2_spec sig ltac:(lia)) as [Hl1 Hl2].
  assert (Hr : (2 ^ 63 <= sig * 2 ^ sh < 2 ^ 64)%Z).
  { pose proof (pow2_pos sh ltac:(lia)).
    assert (2 ^ 63 = 2 ^ Z.log2 sig * 2 ^ sh)%Z by (rewrite <- Z.pow_add_r by lia; f_equal; lia).
    assert (2 ^ 64 = 2 ^ Z.succ (Z.log2 sig) * 2 ^ sh)%Z by (rewrite <- Z.pow_add_r by lia; f_equal; lia). nia. }
  split; [lia|]. split; [|done]. rewrite Z.shiftl_mul_pow2 by lia. apply wrap_small. unfold in_width. lia.
Qed.

(** The fields the decoder reads are the fields the encoder writes. *)
Lemma fields_round_trip b : length b = 10%nat -> Forall (in_width 8) b ->
  let sig := from_le_bytes (take 8 b) in let se := from_le_bytes (drop 8 b) in
  f_sign (from_bytes b) = negb (Z.land (Z.shiftr se 15) 1 =? 0)%Z /\
  encode_fields (from_bytes b) = (sig, if pseudo_denormal b then 1 else Z.land se 0x7fff)%Z.
Proof.
  intros Hl Hb sig se. unfold from_bytes, pseudo_denormal.
  replace (take 2 (drop 8 b)) with (drop 8 b) by (symmetry; apply take_ge; rewrite length_drop; lia).
  fold sig se. assert (Hs : in_width 64 sig).
  { unfold sig. apply (from_le_bytes_range (take 8 b)) || (pose proof (from_le_bytes_range (take 8 b)) as H;
      rewrite length_take, Hl in H; apply H; by apply Forall_take). }
  assert (He : in_width 15 (Z.land se 0x7fff)) by (change 0x7fff%Z with (Z.ones 15); rewrite Z.land_ones by lia; by apply wrap_range).
  rewrite int_bit_spec by done. set (e := Z.land se 0x7fff) in *. unfold in_width in *.
  destruct (Z.eqb_spec e EXP_MAX) as [He1|He1].
  { replace (e =? 0)%Z with false by (symmetry; apply Z.eqb_neq; unfold EXP_MAX in *; lia). cbn [andb].
    destruct (Z.leb_spec (2 ^ 63) sig); cbn [negb].
    - destruct (Z.eqb_spec sig INT_BIT) as [->|]; (split; [done|]); unfold encode_fields; cbn [f_class inf]; rewrite He1; [done|].
      f_equal. cbn [f_sig]. apply Z.bits_inj'. intros i Hi. rewrite Z.lor_spec. change INT_BIT with (2 ^ 63)%Z.
      rewrite Z.pow2_bits_eqb by lia. destruct (Z.eqb_spec 63 i) as [<-|]; [|apply orb_false_r]. rewrite orb_true_r.
      symmetry. rewrite <- test_pow2 by lia. change (2 ^ 63)%Z with INT_BIT. rewrite int_bit_spec by done. by apply Z.leb_le.
    - split; [done|]. unfold encode_fields. cbn [f_class f_sig f_exp]. f_equal. apply wrap_small. unfold in_width. lia. }
  destruct (Z.eqb_spec e 0) as [He0|He0].
  { cbn [andb]. destruct (Z.eqb_spec sig 0) as [Hs0|Hs0].
    { rewrite Hs0. split; [done|]. unfold encode_fields. cbn [f_class zero]. by rewrite He0. }
    split; [done|]. unfold encode_fields. cbn [f_class f_sig f_exp].
    destruct (denormal_shift sig ltac:(lia)) as (Hsh & -> & Hr). set (sh := leading_zeros 64 sig) in *.
    replace (EMIN - sh + BIAS)%Z with (1 - sh)%Z by (unfold EMIN; lia).
    replace (EXP_MAX <=? 1 - sh)%Z with false by (symmetry; apply Z.leb_gt; unfold EXP_MAX; lia).
    destruct (Z.leb_spec (1 - sh) 0) as [Hd|Hd].
    - replace (1 - (1 - sh))%Z with sh by lia.
      replace (64 <=? sh)%Z with false by (symmetry; apply Z.leb_gt; lia).
      replace (2 ^ 63 <=? sig)%Z with false.
      2: { symmetry. apply Z.leb_gt. assert (2 ^ 1 <= 2 ^ sh)%Z by (apply Z.pow_le_mono_r; lia). nia. }
      rewrite Z.shiftr_div_pow2, Z.div_mul, He0 by (try (pose proof (pow2_pos sh); lia); lia). done.
    - assert (sh = 0)%Z as Hz by lia. rewrite Hz in *. rewrite Z.pow_0_r, Z.mul_1_r in *.
      by replace (2 ^ 63 <=? sig)%Z with true by (symmetry; apply Z.leb_le; lia). }
  cbn [andb]. destruct (Z.leb_spec (2 ^ 63) sig); cbn [negb].
  - split; [done|]. unfold encode_fields. cbn [f_class f_sig f_exp].
    replace (e - BIAS + BIAS)%Z with e by lia. unfold EXP_MAX in *.
    replace (0x7fff <=? e)%Z with false by (symmetry; apply Z.leb_gt; lia).
    replace (e <=? 0)%Z with false by (symmetry; apply Z.leb_gt; lia).
    by replace (e <? 0)%Z with false by (symmetry; apply Z.ltb_ge; lia).
  - split; [done|]. unfold encode_fields. cbn [f_class f_sig f_exp]. f_equal. apply wrap_small. unfold in_width. lia.
Qed.

(** Decoding ten bytes and encoding the result gives the bytes back, whatever they
    hold (zeros, denormals, infinities, quiet and signalling NaNs, unsupported
    encodings); only a pseudo-denormal changes, to the equal normal of exponent one. *)
Theorem f80_encoding_round_trip b : length b = 10%nat -> Forall (in_width 8) b ->
  to_bytes (from_bytes b) =
  take 8 b ++ (if pseudo_denormal b then to_le_bytes 2 (from_le_bytes (drop 8 b) + 1)%Z else drop 8 b).
Proof.
  intros Hl Hb. destruct (fields_round_trip b Hl Hb) as [Hs He]. unfold to_bytes. rewrite He, Hs.
  set (se := from_le_bytes (drop 8 b)) in *.
  assert (Hse : in_width 16 se).
  { pose proof (from_le_bytes_range (drop 8 b)) as H. rewrite length_drop, Hl in H. apply H. by apply Forall_drop. }
  f_equal.
  { rewrite <- (to_from_le_bytes (take 8 b)) at 2 by (by apply Forall_take). by rewrite length_take, Hl. }
  destruct (pseudo_denormal b) eqn:Hp.
  - unfold pseudo_denormal in Hp. fold se in Hp. apply andb_true_iff in Hp as [Hz _]. apply Z.eqb_eq in Hz.
    f_equal. pose proof (se_split se Hse) as Hsp. rewrite Hz, Z.lor_0_r in Hsp. rewrite Hsp.
    assert (H1 : Z.land se 1 = 0%Z).
    { change 1%Z with (Z.land 0x7fff 1). by rewrite Z.land_assoc, Hz. }
    change (Z.land 1 0x7fff) with 1%Z. by rewrite <- Z.lxor_lor, <- Z.add_nocarry_lxor.
  - assert (Hd : Z.land (Z.land se 0x7fff) 0x7fff = Z.land se 0x7fff) by (rewrite <- Z.land_assoc; done).
    rewrite Hd, se_split by done. unfold se. rewrite <- (to_from_le_bytes (drop 8 b)) at 2 by (by apply Forall_drop).
    by rewrite length_drop, Hl.
Qed.

Lemma f80_encoding_round_trip_witness :
  to_bytes (from_bytes [1; 2; 3; 4; 5; 6; 7; 0x81; 0xff; 0xbf]%Z) = [1; 2; 3; 4; 5; 6; 7; 0x81; 0xff; 0xbf]%Z /\
  to_bytes (from_bytes [1; 2; 3; 4; 5; 6; 7; 0x81; 0; 0x80]%Z) = [1; 2; 3; 4; 5; 6; 7; 0x81; 1; 0x80]%Z.
Proof.
  split.
  - exact (f80_encoding_round_trip [1; 2; 3; 4; 5; 6; 7; 0x81; 0xff; 0xbf]%Z eq_refl ltac:(repeat constructor; done)).
  - exact (f80_encoding_round_trip [1; 2; 3; 4; 5; 6; 7; 0x81; 0; 0x80]%Z eq_refl ltac:(repeat constructor; done)).
Defined.

(** ** Integers *)

(** [n] is [x] rounded to an integer, by direction as in [rounds]. *)
Definition rounds_int (r : Z) (x : R) (n : Z) : Prop :=
  match r with
  | 0%Z => Rabs (x - IZR n) <= / 2 /\ (Rabs (x - IZR n) = / 2 -> Z.even n = true)
  | 1%Z => IZR n <= x < IZR n + 1
  | 2%Z => IZR n - 1 < x <= IZR n
  | _ => 0 <= x * IZR n /\ Rabs (IZR n) <= Rabs x < Rabs (IZR n) + 1
  end.

Definition zsgn (s : bool) (k : Z) : Z := if s then (- k)%Z else k.

Lemma zsgn_IZR s k : IZR (zsgn s k) = sgn s * IZR k.
Proof. destruct s; cbn [zsgn sgn]; [rewrite opp_IZR|]; lra. Qed.

Lemma round_int_correct r s t k cmp ix : (0 <= r < 4)%Z -> (0 <= k)%Z -> splits t k cmp ix ->
  rounds_int r (sgn s * t) (zsgn s (k + b2z (rounds_up r s (Z.odd k) cmp ix))).
Proof.
  intros Hr Hk ([Hk1 Hk2] & Hix & Hc). apply IZR_le in Hk.
  assert (Hex : ix = false -> t = IZR k) by (intros ->; destruct (Req_dec t (IZR k)) as [|Hn]; [done|by apply Hix in Hn]).
  assert (Hix' : ix = true -> IZR k < t) by (intros H; apply Hix in H; lra).
  assert (Hev : Z.odd k = false -> Z.even (zsgn s (k + 0)) = true).
  { intros Ho. rewrite Z.add_0_r. destruct s; cbn [zsgn]; rewrite ?Z.even_opp, <- Z.negb_odd, Ho; done. }
  assert (Hod : Z.odd k = true -> Z.even (zsgn s (k + 1)) = true).
  { intros Ho. destruct s; cbn [zsgn]; rewrite ?Z.even_opp, Z.even_add, <- Z.negb_odd, Ho; done. }
  assert (Habs : forall n, Rabs (sgn s * t - IZR (zsgn s n)) = Rabs (t - IZR n)).
  { intros n. rewrite zsgn_IZR. destruct s; cbn [sgn]; [rewrite <- Rabs_Ropp|]; f_equal; lra. }
  assert (r = 0 \/ r = 1 \/ r = 2 \/ r = 3)%Z as [-> | [-> | [-> | ->]]] by lia; cbn [rounds_int rounds_up].
  - rewrite Habs, plus_IZR. unfold Rabs.
    destruct cmp; [destruct (Z.odd k)|..]; cbn [b2z]; cbv iota in Hc;
      (destruct (Rcase_abs _); (split; [lra|]); intros; auto; exfalso; lra).
  - rewrite zsgn_IZR, plus_IZR. destruct ix, s; cbn [andb b2z sgn]; try specialize (Hix' eq_refl); try specialize (Hex eq_refl); lra.
  - rewrite zsgn_IZR, plus_IZR. destruct ix, s; cbn [andb b2z sgn negb]; try specialize (Hix' eq_refl); try specialize (Hex eq_refl); lra.
  - rewrite zsgn_IZR, plus_IZR. cbn [b2z]. rewrite Rplus_0_r, !sgn_abs by lra. split; [|lra]. destruct s; cbn [sgn]; nra.
Qed.

Lemma sig_fits v d : (0 <= v < 2 ^ 64)%Z -> (0 <= d)%Z -> (0 <= v < 2 ^ (d + 64))%Z.
Proof. intros Hv Hd. split; [lia|]. apply Z.lt_le_trans with (2 ^ 64)%Z; [lia|apply Z.pow_le_mono_r; lia]. Qed.

Lemma apply_sign_small s k : (0 <= k < 2 ^ 63)%Z -> apply_sign k s = zsgn s k.
Proof.
  intros Hk. unfold apply_sign, zsgn. rewrite (to_signed_unique 64 k k) by (unfold wrap; lia).
  destruct s; [|done]. apply to_signed_unique; [lia|lia|done].
Qed.

Lemma apply_sign_top s : apply_sign (2 ^ 63) s = I64_MIN.
Proof. by destruct s. Qed.

(** Below 2^63 the conversion splits the significand at the binary point and rounds. *)
Lemma to_i64_split a r k cmp ix : normal a -> (0 <= r < 4)%Z -> (f_exp a < 63)%Z ->
  split_kept (f_sig a) (63 - f_exp a) None = (k, cmp, ix) ->
  to_i64_rc a r = apply_sign (k + b2z (rounds_up r (f_sign a) (Z.odd k) cmp ix)) (f_sign a).
Proof.
  intros [Hc Hs] Hr He. set (d := (63 - f_exp a)%Z). rewrite split_kept_pos by (lia || (apply sig_fits; lia)).
  intros [= <- <- <-]. rewrite orb_false_r.
  assert (Hr4 : (r = 0 \/ r = 1 \/ r = 2 \/ r = 3)%Z) by lia.
  assert (Hhi : (f_exp a <= -1)%Z -> (f_sig a / 2 ^ d = 0)%Z /\ (f_sig a mod 2 ^ d = f_sig a)%Z).
  { intros Hn. assert (2 ^ 64 <= 2 ^ d)%Z by (apply Z.pow_le_mono_r; lia).
    split; [apply Z.div_small|apply Z.mod_small]; lia. }
  unfold to_i64_rc. rewrite Hc. replace (63 <=? f_exp a)%Z with false by (symmetry; apply Z.leb_gt; lia).
  destruct (Z.ltb_spec (f_exp a) (-1)) as [Hn|Hn].
  - destruct (Hhi ltac:(lia)) as [-> ->].
    assert (2 ^ 64 <= 2 ^ (d - 1))%Z by (apply Z.pow_le_mono_r; lia).
    replace (f_sig a ?= 2 ^ (d - 1))%Z with Lt by (symmetry; apply Z.compare_lt_iff; lia).
    replace (f_sig a =? 0)%Z with false by (symmetry; apply Z.eqb_neq; lia).
    destruct Hr4 as [-> | [-> | [-> | ->]]]; destruct (f_sign a); done.
  - destruct (Z.eqb_spec (f_exp a) (-1)) as [H1|H1].
    + destruct (Hhi ltac:(lia)) as [-> ->]. f_equal. rewrite Z.add_0_l. f_equal.
      replace (2 ^ (d - 1))%Z with (2 ^ 63)%Z by (f_equal; lia). change (Z.shiftl 1 63) with (2 ^ 63)%Z.
      unfold decide_round, rounds_up, Z.ltb. rewrite (Z.compare_antisym (f_sig a) (2 ^ 63)), (Z.eqb_compare (f_sig a) (2 ^ 63)).
      replace (f_sig a =? 0)%Z with false by (symmetry; apply Z.eqb_neq; lia).
      destruct Hr4 as [-> | [-> | [-> | ->]]]; destruct (f_sign a), (f_sig a ?= 2 ^ 63)%Z; done.
    + rewrite !Z.shiftl_1_l, (Z.sub_1_r (2 ^ _)), <- Z.ones_equiv, Z.land_ones, Z.shiftr_div_pow2 by lia. fold d.
      do 2 f_equal. unfold decide_round. rewrite odd_land. unfold rounds_up, Z.ltb.
      rewrite (Z.compare_antisym (f_sig a mod 2 ^ d)), (Z.eqb_compare (f_sig a mod 2 ^ d) (2 ^ (d - 1))).
      destruct Hr4 as [-> | [-> | [-> | ->]]]; destruct (f_sign a), (f_sig a mod 2 ^ d ?= 2 ^ (d - 1))%Z, (f_sig a mod 2 ^ d =? 0)%Z, (Z.odd (f_sig a / 2 ^ d)); done.
Qed.

Lemma F2R_split a : F2R a = sgn (f_sign a) * (IZR (f_sig a) * bpow (- (63 - f_exp a))).
Proof. unfold F2R. do 3 f_equal. lia. Qed.

(** An integer, or one beyond the range of [i64]. *)
Definition i64_or_indefinite (n : Z) : Z := if ((I64_MIN <=? n) && (n <=? I64_MAX))%Z then n else I64_MIN.

Lemma to_i64_large a r : normal a -> (0 <= r < 4)%Z -> (63 <= f_exp a)%Z ->
  exists n, rounds_int r (F2R a) n /\ to_i64_rc a r = i64_or_indefinite n.
Proof.
  intros [Hc Hs] Hr He. set (k := (f_sig a * 2 ^ (f_exp a - 63))%Z). exists (zsgn (f_sign a) k).
  pose proof (pow2_pos (f_exp a - 63) ltac:(lia)).
  assert (Hk : (2 ^ 63 <= k)%Z) by (unfold k; nia).
  assert (HF : F2R a = IZR (zsgn (f_sign a) k)).
  { rewrite zsgn_IZR. unfold F2R, k. by rewrite mult_IZR, bpow_IZR by lia. }
  split.
  - rewrite HF. unfold rounds_int. rewrite Rminus_diag, Rabs_R0. pose proof (Rle_0_sqr (IZR (zsgn (f_sign a) k))) as Hsq.
    unfold Rsqr in Hsq. destruct r as [|[[]|[]|]|]; cbv iota; lra.
  - unfold to_i64_rc, i64_or_indefinite. rewrite Hc. replace (63 <=? f_exp a)%Z with true by (symmetry; apply Z.leb_le; lia).
    replace (62 <? f_exp a)%Z with true by (symmetry; apply Z.ltb_lt; lia).
    destruct (andb _ _) eqn:E; [|done]. apply andb_true_iff in E as [E1 E2]. apply Z.leb_le in E1, E2.
    unfold I64_MIN, I64_MAX, zsgn in *. destruct (f_sign a); lia.
Qed.

(** C33: Converting a normalized, non-zero extended value to a 64-bit integer rounds it
    exactly as the rounding direction says, for every exponent; an integer outside [i64]
    gives the integer indefinite, and the range check is exact at both ends.  (The shifts
    are on unbounded integers, in range on every path of the code as it stands.) *)
Theorem f80_to_integer_exact a r : normal a -> (0 <= r < 4)%Z ->
  exists n, rounds_int r (F2R a) n /\ to_i64_rc a r = i64_or_indefinite n.
Proof.
  intros Ha Hr. destruct (Z.lt_ge_cases (f_exp a) 63) as [He|He]; [|by apply to_i64_large].
  pose proof (kept_frac (f_sig a) (63 - f_exp a) None 0) as Hk. destruct Ha as [Hc Hs].
  specialize (Hk ltac:(lia)). assert (Hw : (f_sig a < 2 ^ (63 - f_exp a + 64))%Z).
  { apply sig_fits; lia. }
  specialize (Hk Hw eq_refl (or_introl eq_refl)). unfold kept_spec in Hk.
  destruct (split_kept (f_sig a) (63 - f_exp a) None) as [[k cmp] ix] eqn:E. destruct Hk as [Hsp Hkd].
  rewrite Rplus_0_r in Hsp. rewrite Z.shiftr_div_pow2 in Hkd by lia.
  assert (Hk : (0 <= k < 2 ^ 63)%Z).
  { rewrite Hkd. split; [apply Z.div_pos; [lia|apply pow2_pos; lia]|].
    apply Z.div_lt_upper_bound; [apply pow2_pos; lia|]. apply Z.lt_le_trans with (2 * 2 ^ 63)%Z; [lia|].
    assert (2 ^ 1 <= 2 ^ (63 - f_exp a))%Z by (apply Z.pow_le_mono_r; lia). lia. }
  exists (zsgn (f_sign a) (k + b2z (rounds_up r (f_sign a) (Z.odd k) cmp ix))). split.
  { rewrite F2R_split. apply round_int_correct; [done|lia|done]. }
  rewrite (to_i64_split a r k cmp ix ltac:(done) Hr He E).
  set (n := (k + b2z (rounds_up r (f_sign a) (Z.odd k) cmp ix))%Z).
  assert (Hn : (0 <= n <= 2 ^ 63)%Z) by (unfold n; destruct (rounds_up _ _ _ _ _); cbn [b2z]; lia).
  unfold i64_or_indefinite, I64_MIN, I64_MAX. destruct (Z.eq_dec n (2 ^ 63)) as [->|Hne].
  - by destruct (f_sign a).
  - rewrite apply_sign_small by lia. replace (_ && _) with true; [done|].
    symmetry. apply andb_true_iff. unfold zsgn. destruct (f_sign a); split; apply Z.leb_le; lia.
Qed.

Lemma f80_to_integer_exact_witness :
  exists n, rounds_int 0 (F2R (mkF80 true Normal 1 0xA000000000000000)) n /\
    i64_or_indefinite n = (-2)%Z.
Proof.
  destruct (f80_to_integer_exact (mkF80 true Normal 1 0xA000000000000000) 0) as (n & H & He);
    [by split|done|]. exists n. split; [done|]. rewrite <- He. reflexivity.
Defined.

Lemma from_i64_exact v : v <> 0%Z -> (I64_MIN <= v <= I64_MAX)%Z ->
  normal (from_i64 v) /\ F2R (from_i64 v) = IZR v.
Proof.
  intros Hv Hr. unfold I64_MIN, I64_MAX, from_i64 in *. replace (v =? 0)%Z with false by (symmetry; by apply Z.eqb_neq).
  rewrite (wrap_small 64 (Z.abs v)) by (unfold in_width; lia).
  destruct (denormal_shift (Z.abs v) ltac:(lia)) as (Hsh & Hw & Hb). unfold normal, F2R. cbn [f_class f_sig f_sign f_exp]. rewrite Hw.
  split; [done|]. set (sh := leading_zeros 64 (Z.abs v)) in *.
  rewrite mult_IZR, bpow_IZR, Rmult_assoc, <- bpow_add by lia.
  replace (sh + (63 - sh - 63))%Z with 0%Z by lia. rewrite bpow_0, Rmult_1_r.
  destruct (Z.ltb_spec v 0); cbn [sgn]; [rewrite Z.abs_neq, opp_IZR by lia; lra|rewrite Z.abs_eq by lia; lra].
Qed.

Lemma rounds_int_exact r v n : (0 <= r < 4)%Z -> rounds_int r (IZR v) n -> n = v.
Proof.
  intros Hr H. assert (r = 0 \/ r = 1 \/ r = 2 \/ r = 3)%Z as [-> | [-> | [-> | ->]]] by lia; cbn [rounds_int] in H.
  - destruct H as [H _]. rewrite <- minus_IZR, <- abs_IZR in H.
    assert (Z.abs (v - n) < 1)%Z by (apply lt_IZR; lra). lia.
  - destruct H as [H1 H2]. rewrite <- plus_IZR in H2. apply le_IZR in H1. apply lt_IZR in H2. lia.
  - destruct H as [H1 H2]. rewrite <- minus_IZR in H1. apply lt_IZR in H1. apply le_IZR in H2. lia.
  - destruct H as (H0 & H1 & H2). rewrite <- !abs_IZR in H1, H2. rewrite <- plus_IZR in H2. rewrite <- mult_IZR in H0.
    apply le_IZR in H0, H1. apply lt_IZR in H2. assert (Z.abs v = Z.abs n) by lia.
    destruct (Z.eq_dec n 0) as [->|]; [lia|]. destruct (Z.abs_eq_cases v n) as [?|?]; [done|done|]. subst v. nia.
Qed.

(** ** Double precision *)

(** The real a finite [f64] bit pattern stands for. *)
Definition f64_value (bits : Z) : R :=
  let e := (bits / 2 ^ 52 mod 2 ^ 11)%Z in
  let frac := (bits mod 2 ^ 52)%Z in
  sgn (Z.odd (bits / 2 ^ 63)) *
  (if (e =? 0)%Z then IZR frac * bpow (-1074) else IZR (2 ^ 52 + frac) * bpow (e - 1075)).

Definition f64_finite (bits : Z) : Prop := in_width 64 bits /\ (bits / 2 ^ 52 mod 2 ^ 11 <> 2047)%Z.

(** The fields [from_f64] reads. *)
Lemma f64_fields bits : in_width 64 bits ->
  negb (Z.land (Z.shiftr bits 63) 1 =? 0)%Z = Z.odd (bits / 2 ^ 63) /\
  Z.land (Z.shiftr bits 52) 0x7ff = (bits / 2 ^ 52 mod 2 ^ 11)%Z /\
  Z.land bits 0xfffffffffffff = (bits mod 2 ^ 52)%Z.
Proof.
  intros Hb. rewrite odd_land, !Z.shiftr_div_pow2 by lia.
  change 0x7ff%Z with (Z.ones 11). change 0xfffffffffffff%Z with (Z.ones 52). by rewrite !Z.land_ones by lia.
Qed.

Lemma normal_frac f : (0 <= f < 2 ^ 52)%Z ->
  Z.lor (Z.shiftl 1 63) (wrap 64 (Z.shiftl f 11)) = ((2 ^ 52 + f) * 2 ^ 11)%Z.
Proof.
  intros Hf. rewrite Z.shiftl_1_l, Z.shiftl_mul_pow2, wrap_small by (unfold in_width; lia).
  rewrite <- Z.lxor_lor, <- Z.add_nocarry_lxor; [lia| |]; apply Z.bits_inj'; intros i Hi; rewrite Z.land_spec, Z.pow2_bits_eqb, Z.bits_0 by lia;
    (destruct (Z.eqb_spec 63 i) as [<-|]; [cbn [andb]|done]); apply (in_width_high 63); unfold in_width; lia.
Qed.

(** Widening is exact, subnormal inputs included. *)
Lemma from_f64_exact bits : f64_finite bits -> (bits mod 2 ^ 63 <> 0)%Z ->
  normal (from_f64 bits) /\ F2R (from_f64 bits) = f64_value bits.
Proof.
  intros [Hb He] Hnz. destruct (f64_fields bits Hb) as (Hs & Hef & Hf). unfold from_f64. rewrite Hs, Hef, Hf.
  set (e := (bits / 2 ^ 52 mod 2 ^ 11)%Z) in *. set (f := (bits mod 2 ^ 52)%Z) in *.
  assert (Hfr : (0 <= f < 2 ^ 52)%Z) by (apply Z.mod_pos_bound; lia).
  assert (Hnz' : e = 0%Z -> f <> 0%Z).
  { intros H0 H1. apply Hnz. unfold e, f in *. clear -H0 H1.
    replace (2 ^ 63)%Z with (2 ^ 52 * 2 ^ 11)%Z by lia. rewrite Z.rem_mul_r by lia. lia. }
  replace (e =? 0x7ff)%Z with false by (symmetry; by apply Z.eqb_neq).
  unfold normal, F2R, f64_value. fold e f. destruct (Z.eqb_spec e 0) as [H0|H0].
  - specialize (Hnz' H0). replace (f =? 0)%Z with false by (symmetry; by apply Z.eqb_neq). cbn [f_class f_sign f_exp f_sig].
    destruct (denormal_shift f ltac:(lia)) as (Hsh & Hw & Hr).
    replace (leading_zeros 64 f - 11 + 11)%Z with (leading_zeros 64 f) by lia. rewrite Hw.
    split; [done|]. f_equal. rewrite mult_IZR, bpow_IZR, Rmult_assoc, <- bpow_add by lia. do 2 f_equal. lia.
  - cbn [f_class f_sign f_exp f_sig]. rewrite normal_frac by done. split; [split; [done|lia]|]. f_equal.
    rewrite mult_IZR, (bpow_IZR 11), Rmult_assoc, <- bpow_add by lia. do 2 f_equal. lia.
Qed.

(** *** The encoding of a double *)

Lemma f64_pack s e f : (0 <= e < 2 ^ 11)%Z -> (0 <= f < 2 ^ 52)%Z ->
  Z.lor (Z.lor (wrap 64 (Z.shiftl (b2z s) 63)) (wrap 64 (Z.shiftl e 52))) f = (b2z s * 2 ^ 63 + e * 2 ^ 52 + f)%Z.
Proof.
  intros He Hf. assert (Hs : in_width 1 (b2z s)) by (by apply in_width_b2z). unfold in_width in Hs.
  rewrite !wrap_small by (unfold in_width; rewrite Z.shiftl_mul_pow2 by lia; lia).
  rewrite lor_shifted by (unfold in_width; rewrite ?Z.shiftl_mul_pow2 by lia; lia).
  rewrite Z.shiftl_mul_pow2 by lia.
  replace (b2z s * 2 ^ 63 + e * 2 ^ 52)%Z with (Z.shiftl (b2z s * 2 ^ 11 + e) 52) by (rewrite Z.shiftl_mul_pow2 by lia; lia).
  by rewrite lor_shifted, Z.shiftl_mul_pow2 by (unfold in_width; lia).
Qed.

Lemma f64_unpack s e f : (0 <= e < 2 ^ 11)%Z -> (0 <= f < 2 ^ 52)%Z ->
  let bits := (b2z s * 2 ^ 63 + e * 2 ^ 52 + f)%Z in
  in_width 64 bits /\ (bits / 2 ^ 52 mod 2 ^ 11 = e)%Z /\ (bits mod 2 ^ 52 = f)%Z /\ Z.odd (bits / 2 ^ 63) = s.
Proof.
  intros He Hf bits. assert (Hs : in_width 1 (b2z s)) by (by apply in_width_b2z). unfold in_width in *.
  split; [unfold bits; lia|].
  assert (Hq : (bits / 2 ^ 52 = b2z s * 2 ^ 11 + e)%Z).
  { symmetry. apply Z.div_unique with f; unfold bits; lia. }
  split; [rewrite Hq, Z.add_comm, Z.mod_add by lia; by apply Z.mod_small|].
  split; [symmetry; apply Z.mod_unique with (b2z s * 2 ^ 11 + e)%Z; unfold bits; lia|].
  replace (bits / 2 ^ 63)%Z with (b2z s); [by destruct s|].
  apply Z.div_unique with (e * 2 ^ 52 + f)%Z; unfold bits; lia.
Qed.

Lemma f64_split bits : in_width 64 bits ->
  bits = (b2z (Z.odd (bits / 2 ^ 63)) * 2 ^ 63 + (bits / 2 ^ 52 mod 2 ^ 11) * 2 ^ 52 + bits mod 2 ^ 52)%Z.
Proof.
  intros Hb. unfold in_width in Hb.
  assert (Hs : (bits / 2 ^ 63 = b2z (Z.odd (bits / 2 ^ 63)))%Z).
  { assert (Hq : (0 <= bits / 2 ^ 63 < 2)%Z) by (split; [apply Z.div_pos; lia|apply Z.div_lt_upper_bound; lia]).
    assert (bits / 2 ^ 63 = 0 \/ bits / 2 ^ 63 = 1)%Z as [-> | ->] by lia; done. }
  rewrite <- Hs. pose proof (Z.div_mod bits (2 ^ 52) ltac:(lia)) as H1.
  pose proof (Z.div_mod (bits / 2 ^ 52) (2 ^ 11) ltac:(lia)) as H2. rewrite Z.div_div in H2 by lia.
  change (2 ^ 52 * 2 ^ 11)%Z with (2 ^ 63)%Z in H2. lia.
Qed.

(** *** Narrowing *)

Lemma round_shift_split v n k cmp ix s : (0 < n < 64)%Z -> (0 <= v < 2 ^ 64)%Z ->
  split_kept v n None = (k, cmp, ix) -> round_shift v n = (k + b2z (rounds_up 0 s (Z.odd k) cmp ix))%Z.
Proof.
  intros Hn Hv. rewrite split_kept_pos by (lia || (apply sig_fits; lia)).
  intros [= <- <- <-]. unfold round_shift.
  replace (n =? 0)%Z with false by (symmetry; apply Z.eqb_neq; lia).
  replace (64 <=? n)%Z with false by (symmetry; apply Z.leb_gt; lia).
  rewrite !Z.shiftl_1_l, (Z.sub_1_r (2 ^ _)), <- Z.ones_equiv, Z.land_ones, Z.shiftr_div_pow2, odd_land by lia.
  unfold rounds_up, Z.ltb. rewrite (Z.compare_antisym (v mod 2 ^ n)), (Z.eqb_compare (v mod 2 ^ n) (2 ^ (n - 1))).
  destruct (v mod 2 ^ n ?= 2 ^ (n - 1))%Z, (Z.odd (v / 2 ^ n)); cbn; lia.
Qed.

Lemma round_shift_exact q n : (0 <= n < 64)%Z -> (0 <= q)%Z -> (q * 2 ^ n < 2 ^ 64)%Z -> round_shift (q * 2 ^ n) n = q.
Proof.
  intros Hn Hq Hw. pose proof (pow2_pos n ltac:(lia)). destruct (Z.eq_dec n 0) as [->|Hn0].
  { unfold round_shift. cbn. lia. }
  rewrite (round_shift_split _ n q Lt false false); [cbn; lia|lia|nia|].
  rewrite split_kept_pos by (lia || (apply sig_fits; nia)).
  rewrite Z.div_mul, Z.mod_mul by lia. replace (0 ?= 2 ^ (n - 1))%Z with Lt; [done|].
  symmetry. apply Z.compare_lt_iff, pow2_pos. lia.
Qed.

(** The significand rounded to 53 bits, with its carry. *)
Definition narrow (a : F80) : Z * Z :=
  let m := round_shift (f_sig a) 11 in
  if negb (Z.shiftr m 53 =? 0)%Z then (Z.shiftr m 1, f_exp a + 1)%Z else (m, f_exp a).

Lemma narrow_correct a : normal a ->
  let '(m, e) := narrow a in
  (2 ^ 52 <= m < 2 ^ 53)%Z /\ rounds 0 53 (F2R a) (sgn (f_sign a) * (IZR m * bpow (e - 52))).
Proof.
  intros [Hc Hs]. destruct (split_kept (f_sig a) 11 None) as [[k cmp] ix] eqn:E.
  pose proof (kept_frac (f_sig a) 11 None 0 ltac:(lia) ltac:(lia) eq_refl (or_introl eq_refl)) as Hk.
  unfold kept_spec in Hk. rewrite E in Hk. destruct Hk as [Hsp Hkd]. rewrite Rplus_0_r in Hsp.
  rewrite Z.shiftr_div_pow2 in Hkd by lia.
  assert (Hk : (2 ^ 52 <= k < 2 ^ 53)%Z).
  { rewrite Hkd. split; [apply Z.div_le_lower_bound; lia|apply Z.div_lt_upper_bound; lia]. }
  pose proof (rounds_up_correct 0 53 (f_sign a) _ k cmp ix (f_exp a - 52) ltac:(lia) ltac:(lia) Hsp ltac:(lia)) as HR.
  unfold narrow. rewrite (round_shift_split (f_sig a) 11 k cmp ix (f_sign a) ltac:(lia) ltac:(lia) E).
  replace (IZR (f_sig a) * bpow (- (11)) * bpow (f_exp a - 52)) with (IZR (f_sig a) * bpow (f_exp a - 63)) in HR.
  2: { rewrite Rmult_assoc, <- bpow_add. do 2 f_equal. lia. }
  set (m := (k + b2z (rounds_up 0 (f_sign a) (Z.odd k) cmp ix))%Z) in *.
  assert (Hm : (2 ^ 52 <= m <= 2 ^ 53)%Z) by (unfold m; destruct (rounds_up _ _ _ _ _); cbn [b2z]; lia).
  rewrite !Z.shiftr_div_pow2 by lia. destruct (Z.eq_dec m (2 ^ 53)) as [Hm'|Hm'].
  - rewrite Hm' in *. change (2 ^ 53 / 2 ^ 53 =? 0)%Z with false. cbn [negb]. change (2 ^ 53 / 2 ^ 1)%Z with (2 ^ 52)%Z.
    split; [lia|]. replace (IZR (2 ^ 52) * bpow (f_exp a + 1 - 52)) with (IZR (2 ^ 53) * bpow (f_exp a - 52)); [done|].
    rewrite !bpow_IZR, <- !bpow_add by lia. f_equal. lia.
  - rewrite Z.div_small by lia. cbn [negb Z.eqb]. split; [lia|done].
Qed.

Lemma to_f64_narrow a : normal a -> let '(m, e) := narrow a in
  (-1023 < e)%Z ->
  to_f64 a = if (1024 <=? e)%Z then (b2z (f_sign a) * 2 ^ 63 + 2047 * 2 ^ 52)%Z
             else (b2z (f_sign a) * 2 ^ 63 + (e + 1023) * 2 ^ 52 + (m - 2 ^ 52))%Z.
Proof.
  intros Ha. pose proof (narrow_correct a Ha) as Hn. destruct Ha as [Hc Hs]. unfold to_f64. rewrite Hc.
  fold (narrow a). destruct (narrow a) as [m e]. destruct Hn as [Hm _]. intros He.
  destruct (Z.leb_spec 1024 e); [replace (0x7ff <=? e + 1023)%Z with true by (symmetry; apply Z.leb_le; lia)|
    replace (0x7ff <=? e + 1023)%Z with false by (symmetry; apply Z.leb_gt; lia)].
  - pose proof (f64_pack (f_sign a) 2047 0 ltac:(lia) ltac:(lia)) as H0. rewrite Z.lor_0_r, Z.add_0_r in H0. exact H0.
  - replace (e + 1023 <=? 0)%Z with false by (symmetry; apply Z.leb_gt; lia).
    change 0xfffffffffffff%Z with (Z.ones 52). rewrite Z.land_ones by lia.
    replace (m mod 2 ^ 52)%Z with (m - 2 ^ 52)%Z by (apply Z.mod_unique with 1%Z; lia). apply f64_pack; lia.
Qed.

(** Storing an extended value as a double rounds it once, to nearest even, over the
    whole normal range; a result past the largest double is the infinity of its sign. *)
Theorem f80_to_double_rounded a : normal a -> (-1022 <= f_exp a)%Z ->
  exists y, rounds 0 53 (F2R a) y /\
    (Rabs y < bpow 1024 -> f64_finite (to_f64 a) /\ f64_value (to_f64 a) = y) /\
    (bpow 1024 <= Rabs y -> to_f64 a = (b2z (f_sign a) * 2 ^ 63 + 2047 * 2 ^ 52)%Z).
Proof.
  intros Ha He. pose proof (to_f64_narrow a Ha) as Hb. pose proof (narrow_correct a Ha) as Hn.
  assert (He' : (-1023 < (narrow a).2)%Z) by (unfold narrow; destruct (negb _); cbn [snd]; lia).
  destruct (narrow a) as [m e]. destruct Hn as [Hm Hr]. cbn [snd] in He'. specialize (Hb He').
  exists (sgn (f_sign a) * (IZR m * bpow (e - 52))). split; [done|].
  assert (Hbin : bpow e <= IZR m * bpow (e - 52) < bpow (e + 1)).
  { pose proof (bpow_pos (e - 52)). replace (bpow e) with (IZR (2 ^ 52) * bpow (e - 52)).
    2: { rewrite bpow_IZR, <- bpow_add by lia. f_equal. lia. }
    replace (bpow (e + 1)) with (IZR (2 ^ 53) * bpow (e - 52)).
    2: { rewrite bpow_IZR, <- bpow_add by lia. f_equal. lia. }
    split; [apply Rmult_le_compat_r; [lra|]; apply IZR_le; lia|apply Rmult_lt_compat_r; [lra|]; apply IZR_lt; lia]. }
  rewrite sgn_abs by (pose proof (bpow_pos e); lra). rewrite Hb. clear Hb.
  destruct (Z.leb_spec 1024 e) as [Hi|Hi]; split; intros Hy.
  - exfalso. pose proof (bpow_le 1024 e Hi). lra.
  - done.
  - destruct (f64_unpack (f_sign a) (e + 1023) (m - 2 ^ 52) ltac:(lia) ltac:(lia)) as (Hw & Hf1 & Hf2 & Hf3).
    unfold f64_finite, f64_value. rewrite Hf1, Hf2, Hf3. split; [split; [done|lia]|].
    replace (e + 1023 =? 0)%Z with false by (symmetry; apply Z.eqb_neq; lia).
    replace (2 ^ 52 + (m - 2 ^ 52))%Z with m by lia. do 3 f_equal. lia.
  - exfalso. pose proof (bpow_le (e + 1) 1024 ltac:(lia)). lra.
Qed.

Lemma f80_to_double_rounded_witness :
  exists y, rounds 0 53 (F2R (mkF80 true Normal 0 0x8000000000000C00)) y /\
    (Rabs y < bpow 1024 -> f64_value 0xBFF0000000000002 = y).
Proof.
  destruct (f80_to_double_rounded (mkF80 true Normal 0 0x8000000000000C00)) as (y & Hr & Hv & _); [by split|done|].
  exists y. split; [exact Hr|]. intros Hy. destruct (Hv Hy) as [_ H]. exact H.
Defined.

(** A widened subnormal double narrows exactly. *)
Lemma subnormal_narrow s f : (0 < f < 2 ^ 52)%Z -> let sh := leading_zeros 64 f in
  to_f64 (mkF80 s Normal (1 - 1023 - (sh - 11)) (f * 2 ^ sh)) = (b2z s * 2 ^ 63 + f)%Z.
Proof.
  intros Hf sh. destruct (denormal_shift f ltac:(lia)) as (Hsh & _ & Hr). fold sh in Hsh, Hr.
  assert (Hsh' : (12 <= sh)%Z).
  { apply Z.nlt_ge. intros Hlt. assert (2 ^ sh <= 2 ^ 11)%Z by (apply Z.pow_le_mono_r; lia). nia. }
  assert (Hp : (2 ^ sh = 2 ^ (sh - 11) * 2 ^ 11)%Z) by (rewrite <- Z.pow_add_r by lia; f_equal; lia).
  pose proof (pow2_pos (sh - 11) ltac:(lia)). unfold to_f64. cbn [f_class f_sign f_exp f_sig].
  assert (Hm : round_shift (f * 2 ^ sh) 11 = (f * 2 ^ (sh - 11))%Z).
  { rewrite Hp, Z.mul_assoc. apply round_shift_exact; [lia|nia|]. rewrite <- Z.mul_assoc, <- Hp. lia. }
  rewrite Hm, Z.shiftr_div_pow2, Z.div_small by (lia || nia). cbn [negb Z.eqb].
  replace (0x7ff <=? 1 - 1023 - (sh - 11) + 1023)%Z with false by (symmetry; apply Z.leb_gt; lia).
  replace (1 - 1023 - (sh - 11) + 1023 <=? 0)%Z with true by (symmetry; apply Z.leb_le; lia).
  replace (1 - (1 - 1023 - (sh - 11) + 1023) + 11)%Z with sh by lia.
  replace (64 <=? sh)%Z with false by (symmetry; apply Z.leb_gt; lia).
  rewrite round_shift_exact by lia. pose proof (f64_pack s 0 f ltac:(lia) ltac:(lia)) as H0.
  change (wrap 64 (Z.shiftl 0 52)) with 0%Z in H0. rewrite Z.lor_0_r in H0. rewrite H0. lia.
Qed.

(** Every double that is not a NaN survives being widened and narrowed again:
    zeros, subnormals, normals and infinities come back bit for bit. *)
Theorem f64_widen_narrow bits : in_width 64 bits ->
  (bits mod 2 ^ 63 <= 2047 * 2 ^ 52)%Z -> to_f64 (from_f64 bits) = bits.
Proof.
  intros Hb Hn. destruct (f64_fields bits Hb) as (Hs & Hef & Hf).
  pose proof (f64_split bits Hb) as Hsp. unfold from_f64. rewrite Hs, Hef, Hf.
  assert (Hm63 : (bits mod 2 ^ 63 = bits / 2 ^ 52 mod 2 ^ 11 * 2 ^ 52 + bits mod 2 ^ 52)%Z).
  { replace (2 ^ 63)%Z with (2 ^ 52 * 2 ^ 11)%Z by lia. rewrite Z.rem_mul_r by lia. lia. }
  set (e := (bits / 2 ^ 52 mod 2 ^ 11)%Z) in *. set (f := (bits mod 2 ^ 52)%Z) in *. set (s := Z.odd (bits / 2 ^ 63)) in *.
  assert (He : (0 <= e < 2 ^ 11)%Z) by (apply Z.mod_pos_bound; lia).
  assert (Hfr : (0 <= f < 2 ^ 52)%Z) by (apply Z.mod_pos_bound; lia).
  destruct (Z.eqb_spec e 0x7ff) as [E|E].
  { assert (f = 0%Z) as -> by lia. rewrite Hsp, E. unfold to_f64. cbn [Z.eqb f_class inf f_sign].
    pose proof (f64_pack s 2047 0 ltac:(lia) ltac:(lia)) as H0. rewrite Z.lor_0_r in H0. exact H0. }
  destruct (Z.eqb_spec e 0) as [E0|E0].
  - destruct (Z.eqb_spec f 0) as [F0|F0].
    { rewrite Hsp, E0, F0. unfold to_f64. cbn [f_class zero f_sign]. clear. by destruct s. }
    replace (leading_zeros 64 f - 11 + 11)%Z with (leading_zeros 64 f) by lia.
    destruct (denormal_shift f ltac:(lia)) as (_ & -> & _). rewrite subnormal_narrow by lia. lia.
  - rewrite normal_frac by done. assert (Hfin : normal (mkF80 s Normal (e - 1023) ((2 ^ 52 + f) * 2 ^ 11))) by (split; [done|cbn [f_sig]; lia]).
    pose proof (to_f64_narrow _ Hfin) as Ht. unfold narrow in Ht. cbn [f_sig f_exp f_sign] in Ht.
    rewrite round_shift_exact in Ht by lia. rewrite Z.shiftr_div_pow2, Z.div_small in Ht by lia. cbn [negb Z.eqb] in Ht.
    rewrite Ht by lia. replace (1024 <=? e - 1023)%Z with false by (symmetry; apply Z.leb_gt; lia). lia.
Qed.

Lemma f64_widen_narrow_witness : to_f64 (from_f64 0x8000000000000003) = 0x8000000000000003%Z.
Proof. apply (f64_widen_narrow 0x8000000000000003); [split; done|done]. Defined.

(** ** Comparison *)

Definition magnitude (a : F80) : R := IZR (f_sig a) * bpow (f_exp a - 63).
Definition key (a : F80) : Z := (f_exp a * 2 ^ 64 + f_sig a)%Z.

Lemma ordered_key_normal a : normal a -> ordered_key a = zsgn (f_sign a) (key a).
Proof. intros [Hc Hs]. unfold ordered_key. rewrite Hc, lor_shifted by (unfold in_width; lia). done. Qed.

(** Exponent and significand order magnitudes lexicographically. *)
Lemma key_lt a b : normal a -> normal b -> (key a < key b)%Z -> magnitude a < magnitude b.
Proof.
  intros [_ Ha] [_ Hb] Hk. unfold key, magnitude in *.
  destruct (Z.lt_trichotomy (f_exp a) (f_exp b)) as [He|[He|He]]; [|rewrite He|nia].
  - pose proof (sig_binade (f_exp a) (f_sig a) Ha). pose proof (sig_binade (f_exp b) (f_sig b) Hb).
    pose proof (bpow_le (f_exp a + 1) (f_exp b) ltac:(lia)). lra.
  - apply Rmult_lt_compat_r; [apply bpow_pos|]. apply IZR_lt. nia.
Qed.

Lemma key_order a b : normal a -> normal b ->
  ((key a < key b)%Z <-> magnitude a < magnitude b) /\ (key a = key b <-> magnitude a = magnitude b).
Proof.
  intros Ha Hb. pose proof (key_lt a b Ha Hb). pose proof (key_lt b a Hb Ha).
  assert (He : key a = key b -> magnitude a = magnitude b).
  { destruct Ha as [_ Ha], Hb as [_ Hb]. unfold key, magnitude. intros Hk.
    assert (f_exp a = f_exp b /\ f_sig a = f_sig b) as [-> ->] by nia. done. }
  destruct (Z.lt_trichotomy (key a) (key b)) as [Hk|[Hk|Hk]].
  - specialize (H Hk). split; split; intros; try lia; lra.
  - specialize (He Hk). split; split; intros; try lia; lra.
  - specialize (H0 Hk). split; split; intros; try lia; lra.
Qed.

(** The flags a comparison of reals asks for. *)
Definition compare_flags (x y : R) (f : bool * bool * bool) : Prop :=
  let '(zf, pf, cf) := f in (zf = true <-> x = y) /\ pf = false /\ (cf = true <-> x < y).

Lemma compare_keys a b : normal a -> normal b ->
  ((ordered_key a < ordered_key b)%Z <-> F2R a < F2R b) -> (ordered_key a = ordered_key b <-> F2R a = F2R b) ->
  compare_flags (F2R a) (F2R b) (compare a b).
Proof.
  intros [Hca _] [Hcb _] Hlt Heq. unfold compare, is_nan. rewrite Hca, Hcb. cbn [orb].
  destruct (Z.eqb_spec (ordered_key a) (ordered_key b)) as [E|E].
  - cbn. split; [tauto|]. split; [done|]. split; [done|]. intros. apply Heq in E. lra.
  - destruct (Z.ltb_spec (ordered_key a) (ordered_key b)) as [L|L]; cbn; (split; [split; [done|tauto]|]); (split; [done|]).
    + tauto.
    + split; [done|]. intros H. apply Hlt in H. lia.
Qed.

Lemma F2R_magnitude a : F2R a = sgn (f_sign a) * magnitude a.
Proof. done. Qed.

Lemma magnitude_pos a : normal a -> 0 < magnitude a.
Proof. intros [_ Hs]. unfold magnitude. apply Rmult_lt_0_compat; [apply IZR_lt; lia|apply bpow_pos]. Qed.

(** FCOM's comparison of two normalized values is the comparison of the reals they stand
    for when they have the same sign, or when neither is below one in magnitude. *)
Theorem f80_compare_exact a b : normal a -> normal b ->
  f_sign a = f_sign b \/ (0 <= f_exp a /\ 0 <= f_exp b)%Z ->
  compare_flags (F2R a) (F2R b) (compare a b).
Proof.
  intros Ha Hb H. destruct (key_order a b Ha Hb) as [Hl He]. destruct (key_order b a Hb Ha) as [Hl' _].
  pose proof (magnitude_pos a Ha) as Pa. pose proof (magnitude_pos b Hb) as Pb.
  apply compare_keys; [done|done|..]; rewrite !ordered_key_normal, !F2R_magnitude by done; destruct H as [Hs|[E1 E2]].
  - rewrite Hs. destruct (f_sign b); cbn [zsgn sgn]; [|rewrite !Rmult_1_l; done].
    rewrite <- Z.opp_lt_mono, Hl'. split; intros; lra.
  - assert (0 < key a /\ 0 < key b)%Z as [Ka Kb] by (destruct Ha, Hb; unfold key; lia).
    destruct (f_sign a), (f_sign b); cbn [zsgn sgn]; rewrite ?Rmult_1_l; try done; [|split; intros; lra || lia..].
    rewrite <- Z.opp_lt_mono, Hl'. split; intros; lra.
  - rewrite Hs. destruct (f_sign b); cbn [zsgn sgn]; [|rewrite !Rmult_1_l; done].
    rewrite Z.opp_inj_wd, He. split; intros; lra.
  - assert (0 < key a /\ 0 < key b)%Z as [Ka Kb] by (destruct Ha, Hb; unfold key; lia).
    destruct (f_sign a), (f_sign b); cbn [zsgn sgn]; rewrite ?Rmult_1_l; try done; [|split; intros; lra || lia..].
    rewrite Z.opp_inj_wd, He. split; intros; lra.
Qed.

Lemma f80_compare_exact_witness :
  compare_flags (F2R (mkF80 true Normal 3 (2 ^ 63))) (F2R (mkF80 false Normal 0 (2 ^ 63))) (false, false, true).
Proof.
  apply (f80_compare_exact (mkF80 true Normal 3 (2 ^ 63)) (mkF80 false Normal 0 (2 ^ 63)));
    [by split|by split|right; done].
Defined.

(** Below one the comparison is wrong: the key shifts a signed exponent over the
    significand, so every positive value under one is reported less than either zero,
    and every negative value above minus one is reported greater. *)
Theorem f80_compare_small_wrong a z : normal a -> (f_exp a < 0)%Z ->
  compare a (zero z) = (false, false, negb (f_sign a)) /\
  (if f_sign a then F2R a < 0 else 0 < F2R a).
Proof.
  intros Ha He. split.
  - assert (Hz : ordered_key (zero z) = 0%Z) by (by destruct z). unfold compare. rewrite Hz, ordered_key_normal by done.
    destruct Ha as [Hc Hs]. unfold is_nan. rewrite Hc. cbn [orb f_class zero].
    assert (Hk : (key a < 0)%Z) by (unfold key; lia). change (bool_decide (Normal = Nan) || bool_decide (Zero = Nan)) with false; cbv iota.
    destruct (f_sign a); cbn [zsgn negb].
    + replace (- key a =? 0)%Z with false by (symmetry; apply Z.eqb_neq; lia).
      by replace (- key a <? 0)%Z with false by (symmetry; apply Z.ltb_ge; lia).
    + replace (key a =? 0)%Z with false by (symmetry; apply Z.eqb_neq; lia).
      by replace (key a <? 0)%Z with true by (symmetry; apply Z.ltb_lt; lia).
  - pose proof (magnitude_pos a Ha). rewrite F2R_magnitude. destruct (f_sign a); cbn [sgn]; lra.
Qed.

Lemma f80_compare_small_wrong_witness :
  compare (mkF80 false Normal (-1) (2 ^ 63)) (zero false) = (false, false, true).
Proof. exact (proj1 (f80_compare_small_wrong (mkF80 false Normal (-1) (2 ^ 63)) false ltac:(by split) ltac:(done))). Defined.

(** ** Where narrowing and the remainder go wrong *)

Lemma round_shift_top sig n : (2 ^ 64 - 2 ^ 10 <= sig < 2 ^ 64)%Z -> (11 <= n <= 63)%Z ->
  round_shift sig n = (2 ^ (64 - n))%Z.
Proof.
  intros Hs Hn. pose proof (pow2_pos (64 - n) ltac:(lia)). pose proof (pow2_half n ltac:(lia)) as Hh.
  assert (Hp : (2 ^ 64 = 2 ^ (64 - n) * 2 ^ n)%Z) by (rewrite <- Z.pow_add_r by lia; f_equal; lia).
  assert (Hb : (2 ^ 11 <= 2 ^ n)%Z) by (apply Z.pow_le_mono_r; lia).
  assert (Hd : (sig / 2 ^ n = 2 ^ (64 - n) - 1 /\ sig mod 2 ^ n = sig - (2 ^ 64 - 2 ^ n))%Z).
  { split; [symmetry; apply Z.div_unique with (sig - (2 ^ 64 - 2 ^ n))%Z|symmetry; apply Z.mod_unique with (2 ^ (64 - n) - 1)%Z]; lia. }
  assert (Ho : Z.odd (2 ^ (64 - n) - 1) = true) by (rewrite Z.odd_sub, Z.odd_pow by lia; done).
  rewrite (round_shift_split sig n _ _ _ false ltac:(lia) ltac:(lia) (split_kept_pos sig n None ltac:(lia) ltac:(apply sig_fits; lia))).
  destruct Hd as [-> ->]. rewrite Ho. unfold rounds_up.
  destruct (Z.compare_spec (sig - (2 ^ 64 - 2 ^ n)) (2 ^ (n - 1))); cbn [b2z]; lia.
Qed.

(** A value that rounds up to the next power of two in the subnormal range of a
    double is stored doubled: the conversion takes the incremented exponent together
    with the unrounded significand. *)
Theorem f80_to_double_subnormal_doubled a : normal a -> (2 ^ 64 - 2 ^ 10 <= f_sig a)%Z ->
  (-1075 <= f_exp a <= -1024)%Z ->
  f64_value (to_f64 a) = sgn (f_sign a) * bpow (f_exp a + 2) /\ Rabs (F2R a) < bpow (f_exp a + 1).
Proof.
  intros Ha Hs He. pose proof Ha as [Hc Hr]. split.
  2: { rewrite F2R_magnitude, sgn_abs by (left; by apply magnitude_pos). by apply sig_binade. }
  unfold to_f64. rewrite Hc, (round_shift_top (f_sig a) 11) by lia.
  change (negb (Z.shiftr (2 ^ (64 - 11)) 53 =? 0)%Z) with true; cbv iota zeta.
  replace (0x7ff <=? f_exp a + 1 + 1023)%Z with false by (symmetry; apply Z.leb_gt; lia).
  replace (f_exp a + 1 + 1023 <=? 0)%Z with true by (symmetry; apply Z.leb_le; lia).
  replace (64 <=? 1 - (f_exp a + 1 + 1023) + 11)%Z with false by (symmetry; apply Z.leb_gt; lia).
  rewrite round_shift_top by lia.
  replace (64 - (1 - (f_exp a + 1 + 1023) + 11))%Z with (f_exp a + 1076)%Z by lia.
  set (k := (f_exp a + 1076)%Z). assert (Hk : (1 <= k <= 52)%Z) by lia. pose proof (pow2_pos k ltac:(lia)).
  replace (bpow (f_exp a + 2)) with (IZR (2 ^ k) * bpow (-1074)) by (rewrite bpow_IZR, <- bpow_add by lia; f_equal; lia).
  assert (Hpack : Z.lor (wrap 64 (Z.shiftl (b2z (f_sign a)) 63)) (2 ^ k) = (b2z (f_sign a) * 2 ^ 63 + 2 ^ k)%Z).
  { rewrite wrap_small by (destruct (f_sign a); done). apply lor_shifted; [lia|]. split; [lia|]. apply Z.pow_lt_mono_r; lia. }
  rewrite Hpack. destruct (Z.eq_dec k 52) as [Hk52|Hk52].
  - rewrite Hk52. by destruct (f_sign a).
  - assert (2 ^ k < 2 ^ 52)%Z by (apply Z.pow_lt_mono_r; lia).
    destruct (f64_unpack (f_sign a) 0 (2 ^ k) ltac:(lia) ltac:(lia)) as (_ & H1 & H2 & H3).
    rewrite Z.mul_0_l, Z.add_0_r in H1, H2, H3. unfold f64_value. by rewrite H1, H2, H3.
Qed.

Lemma f80_to_double_subnormal_doubled_witness :
  f64_value (to_f64 (mkF80 false Normal (-1030) (2 ^ 64 - 1))) = 1 * bpow (-1028).
Proof. exact (proj1 (f80_to_double_subnormal_doubled (mkF80 false Normal (-1030) (2 ^ 64 - 1)) ltac:(by split) ltac:(done) ltac:(done))). Defined.

(** A value just above half the smallest subnormal is flushed to zero instead of rounding up. *)
Example to_f64_flushes : to_f64 (mkF80 false Normal (-1075) (3 * 2 ^ 62)) = 0%Z.
Proof. reflexivity. Qed.

(** The remainder goes through a rounded quotient.  In units of 2^-63, [b] is [2^64 - 1]
    and [a] is [3 * b - 1], so the truncated quotient is 2 and the remainder [b - 1];
    the rounded quotient is 3 and the remainder comes out as zero. *)
Example rem_quotient_rounded :
  let b := mkF80 false Normal 0 (2 ^ 64 - 1) in
  let a := mkF80 false Normal 2 (3 * 2 ^ 62 - 1) in
  (4 * f_sig a = 2 * f_sig b + (f_sig b - 1))%Z /\ to_i64_rc (div a b) 3 = 3%Z /\ rem a b = zero false.
Proof. vm_compute. done. Qed.
