(* ===== verification/F80Trans.v ===== *)
(** * Transcendentals of the 80-bit floats (x86jit-core/src/f80.rs)

    The fast functions go through the host's [f64] mathematics library, a parameter
    here; the extended ones are range reductions and power series over the software
    arithmetic, and depend on the library only for infinities and NaNs. *)

From S2P Require Import Prelude HostFloat F80.

(** The functions of the host library, on bit patterns. *)
Class Libm : Type := {
  libm_sin : Z -> Z;
  libm_cos : Z -> Z;
  libm_tan : Z -> Z;
  libm_exp2 : Z -> Z;
  libm_log2 : Z -> Z;
  libm_ln_1p : Z -> Z;
  libm_atan2 : Z -> Z -> Z;
}.

(** [1.0_f64] and [core::f64::consts::LN_2] *)
Definition F64_ONE : Z := 0x3FF0000000000000.
Definition F64_LN_2 : Z := 0x3FE62E42FEFA39EF.

Definition map_f64 (a : F80) (f : Z -> Z) : F80 := from_f64 (f (to_f64 a)).

Section Fast.
Context `{Libm}.

Definition sin (a : F80) : F80 := map_f64 a libm_sin.
Definition cos (a : F80) : F80 := map_f64 a libm_cos.
Definition tan (a : F80) : F80 := map_f64 a libm_tan.
Definition exp2m1 (a : F80) : F80 := map_f64 a (fun x => fl_sub f64_fmt (libm_exp2 x) F64_ONE).
Definition atan2 (y x : F80) : F80 := from_f64 (libm_atan2 (to_f64 y) (to_f64 x)).
Definition ylog2x (y x : F80) : F80 := mul y (map_f64 x libm_log2).
Definition ylog2xp1 (y x : F80) : F80 :=
  let l := fl_div f64_fmt (libm_ln_1p (to_f64 x)) F64_LN_2 in mul y (from_f64 l).

End Fast.

(** ** Constants *)

Definition PI : F80 := mkF80 false Normal 1 0xC90FDAA22168C235.
Definition HALF_PI : F80 := mkF80 false Normal 0 0xC90FDAA22168C235.
Definition QUARTER_PI : F80 := mkF80 false Normal (-1) 0xC90FDAA22168C235.
Definition LN2 : F80 := mkF80 false Normal (-1) 0xB17217F7D1CF79AC.
Definition LOG2E : F80 := mkF80 false Normal 0 0xB8AA3B295C17F0BC.
Definition ONE : F80 := mkF80 false Normal 0 0x8000000000000000.

Definition fi (i : Z) : F80 := from_i64 i.

(** ** Range reduction *)

(** One turn of the [while k <= 11] loop. *)
Definition sincos_term (neg_r2 : F80) (st : F80 * F80 * F80 * F80) (k : Z) : F80 * F80 * F80 * F80 :=
  let '(sterm, s, cterm, c) := st in
  let k2 := 2 * k in
  let sterm := div (mul sterm neg_r2) (fi (k2 * (k2 + 1))) in
  let s := add s sterm in
  let cterm := div (mul cterm neg_r2) (fi ((k2 - 1) * k2)) in
  (sterm, s, cterm, add c cterm).

Definition sincos_poly (r : F80) : F80 * F80 :=
  let neg_r2 := neg (mul r r) in
  let '(_, s, _, c) := foldl (sincos_term neg_r2) (ONE, ONE, ONE, ONE) (zseq 1 11) in
  (mul r s, c).

Definition round_to_i64 (q : F80) : Z :=
  match f_class q with
  | Normal =>
      let e := f_exp q in
      if e <? -1 then 0
      else if e =? -1 then if f_sign q then -1 else 1
      else if 63 <=? e then if f_sign q then I64_MIN else I64_MAX
      else
        let shift := 63 - e in
        let int := Z.shiftr (f_sig q) shift in
        let frac := Z.land (f_sig q) (Z.shiftl 1 shift - 1) in
        let half := Z.shiftl 1 (shift - 1) in
        let mag := int + b2z (half <=? frac) in
        if f_sign q then to_signed 64 (- to_signed 64 mag) else to_signed 64 mag
  | _ => 0
  end.

Definition reduce_quadrant (x : F80) : F80 * Z :=
  let k := round_to_i64 (div x HALF_PI) in
  (sub x (mul (fi k) HALF_PI), Z.land k 3).

(** [matches!(self.class, Class::Normal | Class::Zero)] *)
Definition is_number (a : F80) : bool :=
  match f_class a with Normal | Zero => true | _ => false end.

Definition two_atanh_term (u2 : F80) (st : F80 * F80) (k : Z) : F80 * F80 :=
  let '(term, acc) := st in
  let term := mul term u2 in (term, add acc (div term (fi (2 * k + 1)))).

Definition two_atanh (u : F80) : F80 :=
  let '(_, acc) := foldl (two_atanh_term (mul u u)) (ONE, ONE) (zseq 1 30) in
  mul (mul (fi 2) u) acc.

Definition SQRT2_SIG : Z := 0xB504F333F9DE6485.

Definition log2_ext (x : F80) : F80 :=
  let (m, e) := if SQRT2_SIG <=? f_sig x then (mkF80 false Normal (-1) (f_sig x), f_exp x + 1)
                else (mkF80 false Normal 0 (f_sig x), f_exp x) in
  let u := div (sub m ONE) (add m ONE) in
  add (fi e) (mul (two_atanh u) LOG2E).

Definition exp2m1_term (y : F80) (st : F80 * F80) (k : Z) : F80 * F80 :=
  let '(term, acc) := st in
  let term := div (mul term y) (fi k) in (term, add acc term).

Definition TAN_PI_8 : F80 := from_f64 0x3FDA827999FCEF31.

Definition atan_term (neg_w2 : F80) (st : F80 * F80) (k : Z) : F80 * F80 :=
  let '(term, acc) := st in
  let term := mul term neg_w2 in (term, add acc (div term (fi (2 * k + 1)))).

Definition atan_nonneg (t : F80) : F80 :=
  let (w, base) :=
    if ordered_key TAN_PI_8 <? ordered_key t then (div (sub t ONE) (add t ONE), QUARTER_PI)
    else (t, zero false) in
  let neg_w2 := neg (mul w w) in
  let '(_, acc) := foldl (atan_term neg_w2) (w, w) (zseq 1 32) in
  add base acc.

(** ** The extended functions *)

Section Extended.
Context `{Libm}.

Definition sin_ext (a : F80) : F80 :=
  if negb (is_number a) then map_f64 a libm_sin
  else
    let '(r, q) := reduce_quadrant a in
    let '(s, c) := sincos_poly r in
    match q with 0 => s | 1 => c | 2 => neg s | _ => neg c end.

Definition cos_ext (a : F80) : F80 :=
  if negb (is_number a) then map_f64 a libm_cos
  else
    let '(r, q) := reduce_quadrant a in
    let '(s, c) := sincos_poly r in
    match q with 0 => c | 1 => neg s | 2 => neg c | _ => s end.

Definition tan_ext (a : F80) : F80 :=
  if negb (is_number a) then map_f64 a libm_tan
  else
    let '(r, q) := reduce_quadrant a in
    let '(s, c) := sincos_poly r in
    let '(sn, cs) := match q with 0 => (s, c) | 1 => (c, neg s) | 2 => (neg s, neg c) | _ => (neg c, s) end in
    div sn cs.

Definition exp2m1_ext (a : F80) : F80 :=
  if negb (is_number a) then map_f64 a (fun v => fl_sub f64_fmt (libm_exp2 v) F64_ONE)
  else let y := mul a LN2 in (foldl (exp2m1_term y) (y, y) (zseq 2 23)).2.

Definition ylog2x_ext (y x : F80) : F80 :=
  match f_class x with Normal => mul y (log2_ext x) | _ => ylog2x y x end.

Definition ylog2xp1_ext (y x : F80) : F80 :=
  if negb (is_number x) then ylog2xp1 y x
  else
    let u := div x (add (fi 2) x) in
    mul y (mul (two_atanh u) LOG2E).

Definition atan2_ext (y x : F80) : F80 :=
  if negb (is_number y) || negb (is_number x) then atan2 y x
  else
    let ay := abs y in
    let ax := abs x in
    let core :=
      match f_class ax with
      | Zero => HALF_PI
      | _ =>
          let t := div ay ax in
          if ordered_key ONE <? ordered_key t then sub HALF_PI (atan_nonneg (div ax ay)) else atan_nonneg t
      end in
    let mag := if f_sign x then sub PI core else core in
    if f_sign y then neg mag else mag.

(** In extended mode FYL2X ignores the sign of a nonzero operand: the logarithm of a
    negative number, an invalid operation of the architecture, comes out as the
    logarithm of its magnitude. *)
Theorem ylog2x_ext_ignores_sign y x : f_class x = Normal -> ylog2x_ext y x = ylog2x_ext y (abs x).
Proof. intros Hx. unfold ylog2x_ext. cbn [abs f_class]. by rewrite Hx. Qed.

End Extended.

(** A library stub, where the value does not reach the result. *)
Definition no_libm : Libm := Build_Libm (fun x => x) (fun x => x) (fun x => x) (fun x => x) (fun x => x) (fun x => x) (fun x _ => x).

(** [log2 (-4)] is 2. *)
Lemma ylog2x_ext_ignores_sign_witness :
  @ylog2x_ext no_libm ONE (mkF80 true Normal 2 (2 ^ 63)) = @ylog2x_ext no_libm ONE (mkF80 false Normal 2 (2 ^ 63)).
Proof. exact (@ylog2x_ext_ignores_sign no_libm ONE (mkF80 true Normal 2 (2 ^ 63)) eq_refl). Defined.

Example log2_of_minus_4 : @ylog2x_ext no_libm ONE (mkF80 true Normal 2 (2 ^ 63)) = fi 2.
Proof. by vm_compute. Qed.

Example sincos_at_zero :
  @sin_ext no_libm (zero false) = zero false /\ @cos_ext no_libm (zero false) = ONE.
Proof. by vm_compute. Qed.

(** The series does not see that its argument is zero: the comparison key of zero is
    above that of every number below one, so the argument is folded around one. *)
Lemma atan_of_zero : atan_nonneg (zero false) = mkF80 true Normal (-8) 0xF82F7CFBEA252500.
Proof. by vm_compute. Qed.

(** In extended mode FPATAN of zero over any positive number is about -0.0076
    instead of zero, whatever the number. *)
Theorem atan2_ext_zero_wrong `{Libm} x : f_class x = Normal -> f_sign x = false ->
  atan2_ext (zero false) x = mkF80 true Normal (-8) 0xF82F7CFBEA252500.
Proof.
  intros Hc Hs. unfold atan2_ext, is_number. rewrite Hc. cbn [zero f_class negb orb f_sign abs]. rewrite Hc, Hs.
  assert (Hd : div (abs (zero false)) (abs x) = zero false).
  { unfold div, div_ctl, binary_nan, is_nan. cbn [abs zero f_class f_sign]. by rewrite Hc. }
  change (mkF80 false Zero (f_exp (zero false)) (f_sig (zero false))) with (abs (zero false)). fold (abs x).
  rewrite Hd. change (ordered_key ONE <? ordered_key (zero false)) with false. apply atan_of_zero.
Qed.

Lemma atan2_ext_zero_wrong_witness : @atan2_ext no_libm (zero false) ONE = mkF80 true Normal (-8) 0xF82F7CFBEA252500.
Proof. exact (@atan2_ext_zero_wrong no_libm ONE eq_refl eq_refl). Defined.
