(* ===== verification/X87.v ===== *)
(** * The x87 unit (x86jit-core/src/x87.rs)

    The register stack, the status, control and tag words, the deferred exception
    protocol, the environment and FXSAVE images, and one definition for every operation.
    Memory goes through the [FpMem] trait, a class here; an operation either completes,
    faults on memory, or is abandoned because it raised an unmasked exception.  The
    theorems are in [X87Spec]. *)

From S2P Require Import Prelude Features State Ir Memory HostFloat F80 F80Trans.

(** ** Guest memory *)

(** [load] and [store] answer [None] where the host slice access would panic. *)
Class FpMem (T : Type) : Type := {
  fp_load : T -> Z -> Z -> option (option (list Z));
  fp_store : T -> Z -> list Z -> option (bool * T);
}.

#[global] Instance memory_fp : FpMem Memory := {
  fp_load m addr n := read_ram_guest m addr n;
  fp_store m addr bytes := write_ram_guest m addr bytes;
}.

(** [base] points at guest [guest_base]; the buffer is the bytes it reaches. *)
Record RawFpMem : Type := mkRawFp {
  rf_bytes : gmap Z Z;
  rf_size : Z;
  rf_guest_base : Z;
}.

Definition rf_off (r : RawFpMem) (addr len : Z) : option Z :=
  end_ ← checked_add 64 addr len;
  if (addr <? rf_guest_base r) || (rf_size r <? end_) then None else Some (addr - rf_guest_base r).

#[global] Instance raw_fp : FpMem RawFpMem := {
  fp_load r addr n :=
    match rf_off r addr n with
    | Some off => Some (Some (load_bytes (rf_bytes r) off (Z.to_nat n)))
    | None => Some None
    end;
  fp_store r addr bytes :=
    match rf_off r addr (Z.of_nat (length bytes)) with
    | Some off => Some (true, mkRawFp (store_bytes (rf_bytes r) off bytes) (rf_size r) (rf_guest_base r))
    | None => Some (false, r)
    end;
}.

#[global] Instance view_fp : FpMem View := {
  fp_load g addr n := Some (g_read_ram g addr n);
  fp_store g addr bytes := Some (g_write_ram g addr bytes);
}.

(** ** Operations *)

Inductive FpuKind : Type :=
  | FldF64 | FldF32 | FldF80 | FildI16 | FildI32 | FildI64
  | FstpF64 | FstpF32 | FstpF80 | FistpI16 | FistpI32 | FistpI64
  | FisttpI16 | FisttpI32 | FisttpI64 | FstF64 | FstF32
  | FaddMemF64 | FaddMemF32 | FsubMemF64 | FsubMemF32 | FsubrMemF64 | FsubrMemF32
  | FmulMemF64 | FmulMemF32 | FdivMemF64 | FdivMemF32 | FdivrMemF64 | FdivrMemF32
  | FicomI16 | FicomI32 | FicompI16 | FicompI32
  | FiaddMemI16 | FiaddMemI32 | FisubMemI16 | FisubMemI32 | FisubrMemI16 | FisubrMemI32
  | FimulMemI16 | FimulMemI32 | FidivMemI16 | FidivMemI32 | FidivrMemI16 | FidivrMemI32
  | FldSti | FstSti | FstpSti
  | FsubSti | FsubrSti | FdivSti | FdivrSti
  | FaddToSti | FsubToSti | FsubrToSti | FmulToSti | FdivToSti | FdivrToSti
  | Fld1 | Fldz
  | FaddP | FsubP | FsubrP | FmulP | FdivP | FdivrP | FaddSti | FmulSti | Fxch
  | Fucomi | Fucomip | Fcomi | Fcomip
  | Fabs | Fchs
  | Fldcw | Fnstcw | Fnstsw | FnstswMem | Fnstenv | Fldenv
  | Fprem | Fsin | Fcos | Fptan | Fpatan | F2xm1 | Fyl2x | Fyl2xp1 | Fsincos
  | Fninit | Fnclex.

#[global] Instance FpuKind_eq_dec : EqDecision FpuKind.
Proof. solve_decision. Defined.

Definition in_reduction_domain (v : F80) : bool :=
  match f_class v with
  | Zero | Nan | Inf | Unsupported => true
  | Normal => f_exp v <? 63
  end.

Definition RAX : nat := 0.

(** ** The register stack *)

(** [(cpu.fpu_top + i) & 7] *)
Definition phys (c : CpuState) (i : Z) : Z := Z.land (fpu_top c + i) 7.
Definition fpr_at (c : CpuState) (p : Z) : list Z := default [] (nthZ (fpr c) p).
Definition set_fpr_at (c : CpuState) (p : Z) (b : list Z) : CpuState :=
  set_fpr c (<[Z.to_nat p := b]> (fpr c)).

(** Bit [p] of the emptiness byte. *)
Definition is_empty_reg (c : CpuState) (p : Z) : bool := test (fpu_empty c) (Z.shiftl 1 p).
Definition mark_full (c : CpuState) (p : Z) : CpuState :=
  set_fpu_empty c (Z.land (fpu_empty c) (unot 8 (Z.shiftl 1 p))).
Definition mark_empty (c : CpuState) (p : Z) : CpuState :=
  set_fpu_empty c (Z.lor (fpu_empty c) (Z.shiftl 1 p)).

(** Records the flags; [true] when the instruction must be abandoned. *)
Definition raise (c : CpuState) (exc : Exc) : bool * CpuState :=
  if exc_is_empty exc then (false, c)
  else
    let c := set_fpu_sw c (Z.lor (fpu_sw c) (Z.land exc 0x7f)) in
    let unmasked := Z.land (Z.land (fpu_sw c) (unot 16 (fpu_cw c))) 0x3f in
    if negb (unmasked =? 0) then
      (true, set_fpu_sw c (Z.lor (fpu_sw c) (Z.lor (Z.shiftl 1 7) (Z.shiftl 1 15))))
    else (false, c).

Definition COND_C1 : Z := Z.shiftl 1 9.

Definition push_raw (c : CpuState) (bytes : list Z) : CpuState :=
  let dst := Z.land (wrapping_sub 32 (fpu_top c) 1) 7 in
  if negb (is_empty_reg c dst) then
    let c := set_fpu_sw c (Z.lor (fpu_sw c) COND_C1) in
    let '(abandon, c) := raise c (exc_with IE SF) in
    if abandon then c
    else mark_full (set_fpr_at (set_fpu_top c dst) dst (to_bytes indefinite)) dst
  else
    let c := set_fpu_sw c (Z.land (fpu_sw c) (unot 16 COND_C1)) in
    mark_full (set_fpr_at (set_fpu_top c dst) dst bytes) dst.

Definition push (c : CpuState) (v : F80) : CpuState := push_raw c (to_bytes v).

(** [None] when TOP is not a register number. *)
Definition pop (c : CpuState) : option (F80 * CpuState) :=
  if fpu_top c <? 8 then
    let v := from_bytes (fpr_at c (fpu_top c)) in
    let c' := mark_empty c (fpu_top c) in
    Some (v, set_fpu_top c' (Z.land (fpu_top c + 1) 7))
  else None.

Definition st_operand (c : CpuState) (i : Z) : option F80 * CpuState :=
  let p := phys c i in
  if is_empty_reg c p then
    let c := set_fpu_sw c (Z.land (fpu_sw c) (unot 16 COND_C1)) in
    let '(abandon, c) := raise c (exc_with IE SF) in
    if abandon then (None, c) else (Some indefinite, c)
  else (Some (from_bytes (fpr_at c p)), c).

Definition set_st (c : CpuState) (i : Z) (v : F80) : CpuState :=
  let p := phys c i in mark_full (set_fpr_at c p (to_bytes v)) p.

(** ** Control, status and tag words *)

Definition normalize_cw (raw : Z) : Z := Z.land (Z.lor raw 0x0040) 0x1F7F.

Definition status_word (c : CpuState) : Z :=
  Z.lor (Z.land (fpu_sw c) (unot 16 0x3800)) (wrap 16 (Z.shiftl (Z.land (wrap 16 (fpu_top c)) 7) 11)).

Definition slice (b : list Z) (off n : nat) : list Z := take n (drop off b).

Definition reg_tag (c : CpuState) (i : Z) (r : list Z) : Z :=
  if is_empty_reg c i then 3
  else
    let exp := Z.land (from_le_bytes (slice r 8 2)) 0x7fff in
    let mant := from_le_bytes (slice r 0 8) in
    if (exp =? 0) && (mant =? 0) then 1
    else if (exp =? 0) || (exp =? 0x7fff) || negb (test mant (Z.shiftl 1 63)) then 2
    else 0.

Definition tag_word (c : CpuState) : Z :=
  foldl (fun tw i => Z.lor tw (wrap 16 (Z.shiftl (reg_tag c i (fpr_at c i)) (2 * i)))) 0 (zseq 0 8).

Definition env28 (c : CpuState) : list Z :=
  let buf := replicate 28 0 in
  let buf := list_inserts 0 (to_le_bytes 2 (fpu_cw c)) buf in
  let buf := list_inserts 4 (to_le_bytes 2 (status_word c)) buf in
  let buf := list_inserts 8 (to_le_bytes 2 (tag_word c)) buf in
  let buf := list_inserts 12 (fpu_env_tail c) buf in
  foldl (fun buf off => list_inserts off (to_le_bytes 2 0xffff) buf) buf [2; 6; 10; 26]%nat.

(** The registers a tag word marks empty. *)
Definition empty_tags (tw : Z) : Z :=
  foldl (fun e i => if Z.land (Z.shiftr tw (2 * i)) 3 =? 3 then Z.lor e (wrap 8 (Z.shiftl 1 i)) else e) 0 (zseq 0 8).

Definition load_env28 (c : CpuState) (buf : list Z) : CpuState :=
  let c := set_fpu_cw c (normalize_cw (from_le_bytes (slice buf 0 2))) in
  let sw := from_le_bytes (slice buf 4 2) in
  let c := set_fpu_top c (Z.land (Z.shiftr sw 11) 7) in
  let c := set_fpu_sw c (Z.land sw (unot 16 0x3800)) in
  let c := set_fpu_empty c (empty_tags (from_le_bytes (slice buf 8 2))) in
  set_fpu_env_tail c (slice buf 12 16).

(** ** Denormal operands and condition codes *)

Definition f80_bytes_denormal (b : list Z) : bool :=
  let sig := from_le_bytes (slice b 0 8) in
  let se := from_le_bytes (slice b 8 2) in
  (Z.land se 0x7fff =? 0) && negb (sig =? 0).

Definition float_bytes_denormal (b : list Z) (width : Z) : bool :=
  match width with
  | 8 =>
      let v := from_le_bytes (slice b 0 8) in
      (Z.land v 0x7ff0000000000000 =? 0) && negb (Z.land v 0x000fffffffffffff =? 0)
  | 4 =>
      let v := from_le_bytes (slice b 0 4) in
      (Z.land v 0x7f800000 =? 0) && negb (Z.land v 0x007fffff =? 0)
  | _ => false
  end.

Definition st_denormal (c : CpuState) (i : Z) : bool :=
  let p := phys c i in negb (is_empty_reg c p) && f80_bytes_denormal (fpr_at c p).

Definition set_codes (c : CpuState) (c3 c2 c0 : bool) : CpuState :=
  let sw := Z.land (fpu_sw c) (unot 16 (Z.lor (Z.lor (Z.lor (Z.shiftl 1 8) (Z.shiftl 1 9)) (Z.shiftl 1 10)) (Z.shiftl 1 14))) in
  let sw := if c0 then Z.lor sw (Z.shiftl 1 8) else sw in
  let sw := if c2 then Z.lor sw (Z.shiftl 1 10) else sw in
  let sw := if c3 then Z.lor sw (Z.shiftl 1 14) else sw in
  set_fpu_sw c sw.

Definition waits_for_pending (kind : FpuKind) : bool :=
  match kind with Fninit | Fnstenv | Fnstsw | FnstswMem | Fnstcw | Fnclex => false | _ => true end.

Definition mf_pending_before (c : CpuState) (kind : FpuKind) : bool :=
  waits_for_pending kind && test (fpu_sw c) (Z.shiftl 1 7).

Definition mem_arith (kind : FpuKind) (a m : F80) (c : Ctl) : F80 * Exc :=
  match kind with
  | FaddMemF64 | FaddMemF32 | FiaddMemI16 | FiaddMemI32 => add_ctl a m c
  | FsubMemF64 | FsubMemF32 | FisubMemI16 | FisubMemI32 => sub_ctl a m c
  | FsubrMemF64 | FsubrMemF32 | FisubrMemI16 | FisubrMemI32 => sub_ctl m a c
  | FmulMemF64 | FmulMemF32 | FimulMemI16 | FimulMemI32 => mul_ctl a m c
  | FdivMemF64 | FdivMemF32 | FidivMemI16 | FidivMemI32 => div_ctl a m c
  | _ => div_ctl m a c
  end.

Definition mem_write_bytes (kind : FpuKind) : option Z :=
  match kind with
  | FstpF32 | FstF32 => Some 4
  | FstpF64 | FstF64 => Some 8
  | FstpF80 => Some 10
  | FistpI16 | FisttpI16 => Some 2
  | FistpI32 | FisttpI32 => Some 4
  | FistpI64 | FisttpI64 => Some 8
  | Fnstcw | FnstswMem => Some 2
  | Fnstenv => Some 28
  | _ => None
  end.

(** ** Executing one operation *)

(** Completed, a memory fault, or abandoned on an unmasked exception. *)
Inductive xres (A : Type) : Type :=
  | XRet (a : A)
  | XFault (addr : Z) (is_write : bool)
  | XAbandon.
Arguments XRet {A} a.
Arguments XFault {A} addr is_write.
Arguments XAbandon {A}.

(** [None] is a panic. *)
Definition X (T A : Type) : Type := CpuState -> T -> option (xres A * CpuState * T).

#[global] Instance x_ret {T} : MRet (X T) := fun A a c m => Some (XRet a, c, m).
#[global] Instance x_bind {T} : MBind (X T) := fun A B k x c m =>
  match x c m with
  | Some (XRet a, c, m) => k a c m
  | Some (XFault a w, c, m) => Some (XFault a w, c, m)
  | Some (XAbandon, c, m) => Some (XAbandon, c, m)
  | None => None
  end.

Section Ops.
Context {T : Type} `{FpMem T} `{Libm}.

Definition x_cpu : X T CpuState := fun c m => Some (XRet c, c, m).
Definition x_upd (f : CpuState -> CpuState) : X T unit := fun c m => Some (XRet tt, f c, m).
Definition x_panic : X T unit := fun _ _ => None.

(** [if raise(cpu, e) { return None }] *)
Definition x_raise (e : Exc) : X T unit := fun c m =>
  let '(abandon, c) := raise c e in
  if abandon then Some (XAbandon, c, m) else Some (XRet tt, c, m).

(** [operand!(cpu, i)] *)
Definition operand (i : Z) : X T F80 := fun c m =>
  let '(v, c) := st_operand c i in
  match v with Some v => Some (XRet v, c, m) | None => Some (XAbandon, c, m) end.

Definition x_pop : X T unit := fun c m =>
  match pop c with Some (_, c) => Some (XRet tt, c, m) | None => None end.

(** [read_n], a fault translated at the call site. *)
Definition read_n (addr n : Z) : X T (list Z) := fun c m =>
  match fp_load m addr n with
  | Some (Some b) => Some (XRet b, c, m)
  | Some None => Some (XFault addr false, c, m)
  | None => None
  end.

(** [if !mem.store(addr, bytes) { return Some((addr, true)) }] *)
Definition write_bytes_at (addr : Z) (bytes : list Z) : X T unit := fun c m =>
  match fp_store m addr bytes with
  | Some (true, m) => Some (XRet tt, c, m)
  | Some (false, m) => Some (XFault addr true, c, m)
  | None => None
  end.

Definition read_u (addr n : Z) : X T Z := b ← read_n addr n; mret (from_le_bytes b).
Definition read_i (addr n : Z) : X T Z := v ← read_u addr n; mret (to_signed (8 * n) v).

(** A store of [ST(0)] through [conv], then a pop where the form has one. *)
Definition store_st0 (conv : CpuState -> F80 -> list Z) (addr : Z) (pops : bool) : X T unit :=
  v ← operand 0;
  c ← x_cpu;
  write_bytes_at addr (conv c v);;
  if pops then x_pop else mret tt.

Definition f64_bytes (v : F80) : list Z := to_le_bytes 8 (to_f64 v).
Definition f32_bytes (v : F80) : list Z := to_le_bytes 4 (f64_to_f32 (to_f64 v)).
(** [to_i64_rc(rc) as i<w>], as bytes. *)
Definition int_bytes (n : nat) (r : Z) (v : F80) : list Z := to_le_bytes n (to_i64_rc v r).

Definition store_f80 (addr : Z) : X T unit :=
  c ← x_cpu;
  let p := fpu_top c in
  if 8 <=? p then x_panic
  else
    bytes ← (if is_empty_reg c p then
               x_upd (fun c => set_fpu_sw c (Z.land (fpu_sw c) (unot 16 COND_C1)));;
               x_raise (exc_with IE SF);;
               mret (to_bytes indefinite)
             else mret (fpr_at c p));
    write_bytes_at addr bytes;;
    x_pop.

(** ST(0) against a memory operand read as [width] bytes. *)
Definition arith_mem (kind : FpuKind) (b : list Z) (width : Z) (m : F80) : X T unit :=
  a ← operand 0;
  c ← x_cpu;
  let den := float_bytes_denormal b width || st_denormal c 0 in
  let '(r, e) := mem_arith kind a m (fpu_cw c) in
  x_raise (if den then exc_with e DE else e);;
  x_upd (fun c => set_st c 0 r).

(** ST(0) and ST(i), the result to [dst]. *)
Definition arith_reg (f : F80 -> F80 -> Ctl -> F80 * Exc) (sti dst : Z) : X T unit :=
  s0 ← operand 0;
  si ← operand sti;
  c ← x_cpu;
  let den := st_denormal c 0 || st_denormal c sti in
  let '(r, e) := f s0 si (fpu_cw c) in
  x_raise (if den then exc_with e DE else e);;
  x_upd (fun c => set_st c dst r).

(** The function of [(ST(0), ST(i))] of a register form. *)
Definition reg_arith (kind : FpuKind) (s0 si : F80) (c : Ctl) : F80 * Exc :=
  match kind with
  | FaddP | FaddToSti => add_ctl si s0 c
  | FsubP | FsubToSti => sub_ctl si s0 c
  | FsubrP | FsubrToSti => sub_ctl s0 si c
  | FmulP | FmulToSti => mul_ctl si s0 c
  | FdivP | FdivToSti => div_ctl si s0 c
  | FaddSti => add_ctl s0 si c
  | FsubSti => sub_ctl s0 si c
  | FsubrSti => sub_ctl si s0 c
  | FmulSti => mul_ctl s0 si c
  | FdivSti => div_ctl s0 si c
  | FdivrSti => div_ctl si s0 c
  | _ => div_ctl s0 si c
  end.

Definition compare_flags_of (f : Flags) (r : bool * bool * bool) : Flags :=
  let '(zf, pf, cf) := r in
  let f := set_zf f zf in
  let f := set_pf f pf in
  let f := set_cf f cf in
  let f := set_of_ f false in
  let f := set_sf f false in
  set_af f false.

Definition compare_sti (sti : Z) (pops : bool) : X T unit :=
  a ← operand 0;
  b ← operand sti;
  x_upd (fun c => set_flags c (compare_flags_of (flags c) (compare a b)));;
  if pops then x_pop else mret tt.

Definition compare_int (addr width : Z) (pops : bool) : X T unit :=
  v ← read_i addr width;
  a ← operand 0;
  let '(c3, c2, c0) := compare a (from_i64 v) in
  (if c3 && c2 && c0 then x_raise IE else mret tt);;
  x_upd (fun c => set_codes c c3 c2 c0);;
  if pops then x_pop else mret tt.

(** A unary function of ST(0). *)
Definition unary (f : F80 -> F80) : X T unit := v ← operand 0; x_upd (fun c => set_st c 0 (f v)).

(** FSIN, FCOS and the pushing forms: nothing outside the reduction domain. *)
Definition reduced (f : F80 -> F80) (then_push : option (F80 -> F80)) : X T unit :=
  v ← operand 0;
  if in_reduction_domain v then
    x_upd (fun c => set_st c 0 (f v));;
    match then_push with
    | Some g => x_upd (fun c => push c (g v))
    | None => mret tt
    end
  else mret tt.

(** FPATAN, FYL2X and FYL2XP1: a function of ST(1) and ST(0) into ST(1), then a pop. *)
Definition binary_pop (f : F80 -> F80 -> F80) : X T unit :=
  y ← operand 1;
  x ← operand 0;
  x_upd (fun c => set_st c 1 (f y x));;
  x_pop.

Definition fninit (c : CpuState) : CpuState :=
  let c := set_fpu_cw c 0x037F in
  let c := set_fpu_top c 0 in
  let c := set_fpu_sw c 0 in
  let c := set_fpu_empty c 0xFF in
  set_fpu_env_tail c (replicate 16 0).

Definition fnclex (c : CpuState) : CpuState :=
  set_fpu_sw c (Z.land (fpu_sw c) (unot 16 0x81FF)).

Definition x_try (f : CpuState -> option CpuState) : X T unit := fun c m =>
  match f c with Some c => Some (XRet tt, c, m) | None => None end.

(** [(x.sin_ext(), ...)] or [(x.sin(), ...)] *)
Definition by_precision {A} (c : CpuState) (ext fast : A) : A :=
  match x87_precision c with Extended => ext | Fast => fast end.

Definition exec_x87_op (kind : FpuKind) (addr sti : Z) : X T unit :=
  c0 ← x_cpu;
  let fn {A} (ext fast : A) : A := by_precision c0 ext fast in
  match kind with
  | FldF64 =>
      b ← read_n addr 8;
      (if float_bytes_denormal b 8 then x_raise DE else mret tt);;
      x_upd (fun c => push c (from_f64 (from_le_bytes b)))
  | FldF32 =>
      b ← read_n addr 4;
      (if float_bytes_denormal b 4 then x_raise DE else mret tt);;
      x_upd (fun c => push c (from_f64 (f32_to_f64 (from_le_bytes b))))
  | FldF80 => b ← read_n addr 10; x_upd (fun c => push_raw c b)
  | FildI16 => v ← read_i addr 2; x_upd (fun c => push c (from_i64 v))
  | FildI32 => v ← read_i addr 4; x_upd (fun c => push c (from_i64 v))
  | FildI64 => v ← read_i addr 8; x_upd (fun c => push c (from_i64 v))
  | FstpF64 => store_st0 (fun _ => f64_bytes) addr true
  | FstF64 => store_st0 (fun _ => f64_bytes) addr false
  | FstpF32 => store_st0 (fun _ => f32_bytes) addr true
  | FstF32 => store_st0 (fun _ => f32_bytes) addr false
  | FstpF80 => store_f80 addr
  | FistpI16 => store_st0 (fun c => int_bytes 2 (rc (fpu_cw c))) addr true
  | FistpI32 => store_st0 (fun c => int_bytes 4 (rc (fpu_cw c))) addr true
  | FistpI64 => store_st0 (fun c => int_bytes 8 (rc (fpu_cw c))) addr true
  | FisttpI16 => store_st0 (fun _ => int_bytes 2 3) addr true
  | FisttpI32 => store_st0 (fun _ => int_bytes 4 3) addr true
  | FisttpI64 => store_st0 (fun _ => int_bytes 8 3) addr true
  | FaddMemF64 | FsubMemF64 | FsubrMemF64 | FmulMemF64 | FdivMemF64 | FdivrMemF64 =>
      b ← read_n addr 8; arith_mem kind b 8 (from_f64 (from_le_bytes b))
  | FaddMemF32 | FsubMemF32 | FsubrMemF32 | FmulMemF32 | FdivMemF32 | FdivrMemF32 =>
      b ← read_n addr 4; arith_mem kind b 4 (from_f64 (f32_to_f64 (from_le_bytes b)))
  | FiaddMemI16 | FisubMemI16 | FisubrMemI16 | FimulMemI16 | FidivMemI16 | FidivrMemI16 =>
      b ← read_n addr 2; arith_mem kind b 2 (from_i64 (to_signed 16 (from_le_bytes b)))
  | FiaddMemI32 | FisubMemI32 | FisubrMemI32 | FimulMemI32 | FidivMemI32 | FidivrMemI32 =>
      b ← read_n addr 4; arith_mem kind b 4 (from_i64 (to_signed 32 (from_le_bytes b)))
  | FldSti => v ← operand sti; x_upd (fun c => push c v)
  | Fld1 => x_upd (fun c => push c (from_i64 1))
  | Fldz => x_upd (fun c => push c (zero false))
  | FaddP | FsubP | FsubrP | FmulP | FdivP | FdivrP => arith_reg (reg_arith kind) sti sti;; x_pop
  | FstSti => v ← operand 0; x_upd (fun c => set_st c sti v)
  | FstpSti => v ← operand 0; x_upd (fun c => set_st c sti v);; x_pop
  | FaddSti | FsubSti | FsubrSti | FmulSti | FdivSti | FdivrSti => arith_reg (reg_arith kind) sti 0
  | FaddToSti | FsubToSti | FsubrToSti | FmulToSti | FdivToSti | FdivrToSti => arith_reg (reg_arith kind) sti sti
  | Fxch => a ← operand 0; b ← operand sti; x_upd (fun c => set_st (set_st c 0 b) sti a)
  | Fucomi | Fcomi => compare_sti sti false
  | Fucomip | Fcomip => compare_sti sti true
  | FicomI16 => compare_int addr 2 false
  | FicomI32 => compare_int addr 4 false
  | FicompI16 => compare_int addr 2 true
  | FicompI32 => compare_int addr 4 true
  | Fabs => unary abs
  | Fchs => unary neg
  | Fldcw => v ← read_u addr 2; x_upd (fun c => set_fpu_cw c (normalize_cw v))
  | Fnstcw => c ← x_cpu; write_bytes_at addr (to_le_bytes 2 (fpu_cw c))
  | Fnstsw => x_try (fun c => write_gpr c RAX (status_word c) 2)
  | FnstswMem => c ← x_cpu; write_bytes_at addr (to_le_bytes 2 (status_word c))
  | Fnstenv =>
      c ← x_cpu; write_bytes_at addr (env28 c);;
      x_upd (fun c => set_fpu_cw c (Z.lor (fpu_cw c) 0x3f))
  | Fldenv => b ← read_n addr 28; x_upd (fun c => load_env28 c b)
  | Fninit => x_upd fninit
  | Fnclex => x_upd fnclex
  | Fprem => a ← operand 0; b ← operand 1; x_upd (fun c => set_st c 0 (rem a b))
  | Fsin => reduced (fn sin_ext sin) None
  | Fcos => reduced (fn cos_ext cos) None
  | Fptan => reduced (fn tan_ext tan) (Some (fun _ => from_i64 1))
  | Fsincos => reduced (fn sin_ext sin) (Some (fn cos_ext cos))
  | Fpatan => binary_pop (fn atan2_ext atan2)
  | F2xm1 => unary (fn exp2m1_ext exp2m1)
  | Fyl2x => binary_pop (fn ylog2x_ext ylog2x)
  | Fyl2xp1 => binary_pop (fn ylog2xp1_ext ylog2xp1)
  end.

(** [Some (addr, is_write)] on a memory fault; completed and abandoned look the same. *)
Definition x_fault {A} (r : xres A) : option (Z * bool) :=
  match r with XFault a w => Some (a, w) | _ => None end.

Definition exec_x87 (c : CpuState) (m : T) (kind : FpuKind) (addr sti : Z)
    : option (option (Z * bool) * CpuState * T) :=
  '(r, c, m) ← exec_x87_op kind addr sti c m;
  Some (x_fault r, c, m).

(** ** FXSAVE and FXRSTOR *)

Definition fx_image (c : CpuState) : list Z :=
  let buf := replicate 512 0 in
  let buf := list_inserts 0 (to_le_bytes 2 (fpu_cw c)) buf in
  let buf := list_inserts 2 (to_le_bytes 2 (status_word c)) buf in
  let buf := list_inserts 4 [unot 8 (fpu_empty c)] buf in
  let buf := list_inserts 24 (to_le_bytes 4 0x1f80) buf in
  let buf := list_inserts 28 (to_le_bytes 4 0xffff) buf in
  let buf := foldl (fun buf j => list_inserts (Z.to_nat (32 + j * 16)) (fpr_at c (phys c j)) buf) buf (zseq 0 8) in
  foldl (fun buf i => list_inserts (Z.to_nat (160 + i * 16)) (to_le_bytes 16 (default 0 (nthZ (xmm c) i))) buf)
    buf (zseq 0 16).

Definition fx_load (c : CpuState) (buf : list Z) : CpuState :=
  let c := set_fpu_cw c (normalize_cw (from_le_bytes (slice buf 0 2))) in
  let sw := from_le_bytes (slice buf 2 2) in
  let c := set_fpu_top c (Z.land (Z.shiftr sw 11) 7) in
  let c := set_fpu_sw c (Z.land sw (unot 16 0x3800)) in
  let c := set_fpu_empty c (unot 8 (from_le_bytes (slice buf 4 1))) in
  let c := foldl (fun c j => set_fpr_at c (phys c j) (slice buf (Z.to_nat (32 + j * 16)) 10)) c (zseq 0 8) in
  foldl (fun c i => set_xmm c (<[Z.to_nat i := from_le_bytes (slice buf (Z.to_nat (160 + i * 16)) 16)]> (xmm c)))
    c (zseq 0 16).

Definition exec_fxstate_op (addr : Z) (restore : bool) : X T unit :=
  if restore then b ← read_n addr 512; x_upd (fun c => fx_load c b)
  else c ← x_cpu; write_bytes_at addr (fx_image c).

Definition exec_fxstate (c : CpuState) (m : T) (addr : Z) (restore : bool)
    : option (option (Z * bool) * CpuState * T) :=
  '(r, c, m) ← exec_fxstate_op addr restore c m;
  Some (x_fault r, c, m).

End Ops.
