(* ===== verification/X87Spec.v ===== *)
(** * What the x87 unit guarantees (x86jit-core/src/x87.rs)

    Every operation completes on every well-formed state and keeps it well formed; the
    interpreter's and the compiled code's memories give the same results; an unmasked
    exception leaves registers and memory alone; the environment and FXSAVE images
    restore what they saved. *)

From S2P Require Import Prelude Features State Ir Memory HostFloat F80 F80Trans X87.

(** ** Well-formed states *)

Definition reg_wf (b : list Z) : Prop := length b = 10%nat /\ Forall (in_width 8) b.

Record fpu_wf (c : CpuState) : Prop := {
  wf_fpr_len : length (fpr c) = 8%nat;
  wf_fpr : Forall reg_wf (fpr c);
  wf_fpu_top : 0 <= fpu_top c < 8;
  wf_cw : in_width 16 (fpu_cw c);
  wf_sw : in_width 16 (fpu_sw c);
  wf_sw_top : Z.land (fpu_sw c) 0x3800 = 0;
  wf_empty : in_width 8 (fpu_empty c);
  wf_tail : length (fpu_env_tail c) = 16%nat /\ Forall (in_width 8) (fpu_env_tail c);
}.

Lemma to_bytes_wf a : reg_wf (to_bytes a).
Proof.
  unfold to_bytes. destruct (encode_fields a). split.
  - by rewrite length_app, !length_to_le_bytes.
  - apply Forall_app. split; apply to_le_bytes_range.
Qed.

Lemma land7 x : 0 <= x -> 0 <= Z.land x 7 < 8.
Proof. intros Hx. change 7 with (Z.ones 3). rewrite Z.land_ones by lia. apply Z.mod_pos_bound. lia. Qed.

Lemma unot_range w x : 0 <= w -> in_width w (unot w x).
Proof. intros. by apply wrap_range. Qed.

#[local] Hint Resolve in_width_land in_width_lor unot_range to_bytes_wf : fpu.

(** Only the status word differs. *)
Lemma fpu_wf_sw c v : fpu_wf c -> in_width 16 v -> Z.land v 0x3800 = 0 -> fpu_wf (set_fpu_sw c v).
Proof. intros [] Hv Ht. by split. Qed.

Lemma fpu_wf_or c v : fpu_wf c -> in_width 16 v -> Z.land v 0x3800 = 0 -> fpu_wf (set_fpu_sw c (Z.lor (fpu_sw c) v)).
Proof.
  intros Hc Hv Ht. pose proof (wf_sw c Hc). apply fpu_wf_sw; [done|apply in_width_lor; (done || lia)|].
  by rewrite Z.land_lor_distr_l, Ht, wf_sw_top.
Qed.

Lemma fpu_wf_and c v : fpu_wf c -> in_width 16 v -> fpu_wf (set_fpu_sw c (Z.land (fpu_sw c) v)).
Proof.
  intros Hc Hv. pose proof (wf_sw c Hc). apply fpu_wf_sw; [done|apply in_width_land; (done || lia || apply Hv)|].
  rewrite <- Z.land_assoc, (Z.land_comm v), Z.land_assoc, wf_sw_top by done. done.
Qed.

Lemma land_sub_mask a m k : Z.land m k = 0 -> Z.land (Z.land a m) k = 0.
Proof. intros H. by rewrite <- Z.land_assoc, H, Z.land_0_r. Qed.

Lemma raise_wf c e : fpu_wf c -> fpu_wf (raise c e).2.
Proof.
  intros Hc. unfold raise. destruct (exc_is_empty e); [done|].
  assert (H1 : fpu_wf (set_fpu_sw c (Z.lor (fpu_sw c) (Z.land e 0x7f)))).
  { apply fpu_wf_or; [done| |by apply land_sub_mask].
    change 0x7f with (Z.ones 7). rewrite Z.land_ones by lia. apply (in_width_mono 7); [lia|]. by apply wrap_range. }
  destruct (negb _); [|done]. apply fpu_wf_or; [done|split; done|done].
Qed.

Lemma fpu_wf_put c p b : fpu_wf c -> reg_wf b -> fpu_wf (set_fpr_at c p b).
Proof.
  intros [] Hb. split; cbn [set_fpr_at set_fpr fpr fpu_top fpu_cw fpu_sw fpu_empty fpu_env_tail]; try done.
  - by rewrite length_insert.
  - by apply Forall_insert.
Qed.

Lemma fpu_wf_top c t : fpu_wf c -> 0 <= t < 8 -> fpu_wf (set_fpu_top c t).
Proof. intros [] Ht. by split. Qed.

Lemma fpu_wf_empty c e : fpu_wf c -> in_width 8 e -> fpu_wf (set_fpu_empty c e).
Proof. intros [] He. by split. Qed.

Lemma mark_full_wf c p : fpu_wf c -> fpu_wf (mark_full c p).
Proof. intros Hc. apply fpu_wf_empty; [done|]. apply in_width_land; [lia|apply Hc|by apply (unot_range 8)]. Qed.

Lemma mark_empty_wf c p : fpu_wf c -> 0 <= p < 8 -> fpu_wf (mark_empty c p).
Proof.
  intros Hc Hp. apply fpu_wf_empty; [done|]. apply in_width_lor; [lia|apply Hc|].
  rewrite Z.shiftl_1_l. split; [apply Z.pow_nonneg; lia|apply Z.pow_lt_mono_r; lia].
Qed.

Lemma set_st_wf c i v : fpu_wf c -> fpu_wf (set_st c i v).
Proof. intros Hc. apply mark_full_wf, fpu_wf_put; [done|apply to_bytes_wf]. Qed.

Lemma fpu_wf_cw c v : fpu_wf c -> in_width 16 v -> fpu_wf (set_fpu_cw c v).
Proof. intros [] Hv. by split. Qed.

Lemma push_raw_wf c b : fpu_wf c -> reg_wf b -> fpu_wf (push_raw c b).
Proof.
  intros Hc Hb. unfold push_raw. set (dst := Z.land _ 7).
  assert (Hd : 0 <= dst < 8) by (apply land7, (wrap_range 32); lia).
  destruct (negb _).
  - pose proof (raise_wf (set_fpu_sw c (Z.lor (fpu_sw c) COND_C1)) (exc_with IE SF)) as Hr.
    destruct (raise _ _) as [ab c']. cbn [snd] in Hr.
    assert (Hc' : fpu_wf c') by (apply Hr, fpu_wf_or; [done|by split|done]). destruct ab; [done|].
    apply mark_full_wf, fpu_wf_put; [by apply fpu_wf_top|apply to_bytes_wf].
  - apply mark_full_wf, fpu_wf_put; [|done]. apply fpu_wf_top; [|done]. apply fpu_wf_and; [done|by apply (unot_range 16)].
Qed.

Lemma pop_wf c : fpu_wf c -> exists v c', pop c = Some (v, c') /\ fpu_wf c'.
Proof.
  intros Hc. pose proof (wf_fpu_top c Hc). unfold pop.
  replace (fpu_top c <? 8) with true by (symmetry; apply Z.ltb_lt; lia).
  do 2 eexists. split; [done|]. apply fpu_wf_top; [by apply mark_empty_wf|apply land7; lia].
Qed.

Lemma st_operand_wf c i : fpu_wf c -> fpu_wf (st_operand c i).2.
Proof.
  intros Hc. unfold st_operand. destruct (is_empty_reg c _); [|done].
  pose proof (raise_wf (set_fpu_sw c (Z.land (fpu_sw c) (unot 16 COND_C1))) (exc_with IE SF)) as Hr.
  destruct (raise _ _) as [ab c']. cbn [snd] in Hr.
  assert (fpu_wf c') by (apply Hr, fpu_wf_and; [done|by apply (unot_range 16)]). by destruct ab.
Qed.

Lemma set_codes_wf c c3 c2 c0 : fpu_wf c -> fpu_wf (set_codes c c3 c2 c0).
Proof.
  intros Hc. unfold set_codes. set (m := unot 16 _).
  pose proof (fpu_wf_and c m Hc (unot_range 16 _ ltac:(lia))) as H0.
  assert (Hor : forall sw (b : bool) v, in_width 16 v -> Z.land v 0x3800 = 0 -> fpu_wf (set_fpu_sw c sw) ->
            fpu_wf (set_fpu_sw c (if b then Z.lor sw v else sw))).
  { intros sw [] v Hv Ht Hw; [|done]. exact (fpu_wf_or (set_fpu_sw c sw) v Hw Hv Ht). }
  by apply Hor; [split; done|done|]; apply Hor; [split; done|done|]; apply Hor; [split; done|done|].
Qed.

Lemma normalize_cw_wf v : 0 <= v -> in_width 16 (normalize_cw v).
Proof.
  intros Hv. unfold normalize_cw. rewrite Z.land_comm. apply in_width_land; [lia|by split|].
  by apply Z.lor_nonneg.
Qed.

Lemma slice_bytes b off n : Forall (in_width 8) b -> Forall (in_width 8) (slice b off n).
Proof. intros. by apply Forall_take, Forall_drop. Qed.

Lemma from_slice_range b off n : Forall (in_width 8) b -> in_width (8 * Z.of_nat n) (from_le_bytes (slice b off n)).
Proof.
  intros Hb. pose proof (from_le_bytes_range _ (slice_bytes b off n Hb)) as H.
  apply (in_width_mono (8 * Z.of_nat (length (slice b off n)))); [|done].
  unfold slice. rewrite length_take. lia.
Qed.

Lemma empty_tags_range tw : in_width 8 (empty_tags tw).
Proof.
  unfold empty_tags. apply (foldl_inv_in (in_width 8)); [|by split]. intros e i _ He.
  destruct (_ =? _); [|done]. apply in_width_lor; [lia|done|by apply wrap_range].
Qed.

Lemma clear_top_wf c sw : fpu_wf c -> in_width 16 sw -> fpu_wf (set_fpu_sw c (Z.land sw (unot 16 0x3800))).
Proof.
  intros Hc Hs. apply fpu_wf_sw; [done|apply in_width_land; [lia|done|by apply (unot_range 16)]|].
  by apply land_sub_mask.
Qed.

Lemma load_env28_wf c b : fpu_wf c -> length b = 28%nat -> Forall (in_width 8) b -> fpu_wf (load_env28 c b).
Proof.
  intros Hc Hl Hb. unfold load_env28.
  pose proof (from_slice_range b 0 2 Hb) as H0. pose proof (from_slice_range b 4 2 Hb) as H4.
  assert (Hw : fpu_wf (set_fpu_empty (set_fpu_sw (set_fpu_top (set_fpu_cw c (normalize_cw (from_le_bytes (slice b 0 2))))
      (Z.land (Z.shiftr (from_le_bytes (slice b 4 2)) 11) 7)) (Z.land (from_le_bytes (slice b 4 2)) (unot 16 0x3800)))
      (empty_tags (from_le_bytes (slice b 8 2))))).
  { apply fpu_wf_empty; [|apply empty_tags_range]. apply clear_top_wf; [|done]. apply fpu_wf_top.
    - apply fpu_wf_cw; [done|]. apply normalize_cw_wf, H0.
    - apply land7, Z.shiftr_nonneg, H4. }
  destruct Hw. split; try done. cbn [set_fpu_env_tail fpu_env_tail]. split; [|by apply slice_bytes].
  unfold slice. rewrite length_take, length_drop. lia.
Qed.

Lemma fx_load_wf c b : fpu_wf c -> length b = 512%nat -> Forall (in_width 8) b -> fpu_wf (fx_load c b).
Proof.
  intros Hc Hl Hb. unfold fx_load.
  apply (foldl_inv_in fpu_wf). { intros c' i _ []. by split. }
  apply (foldl_inv_in fpu_wf).
  { intros c' j Hj%zseq_elem Hc'. apply fpu_wf_put; [done|]. split; [|by apply slice_bytes].
    unfold slice. rewrite length_take, length_drop. lia. }
  apply fpu_wf_empty; [|by apply (unot_range 8)]. apply clear_top_wf; [|apply (from_slice_range b 2 2 Hb)].
  apply fpu_wf_top; [apply fpu_wf_cw; [done|]; apply normalize_cw_wf, (from_slice_range b 0 2 Hb)|].
  apply land7, Z.shiftr_nonneg, (from_slice_range b 2 2 Hb).
Qed.

Lemma fninit_wf c : fpu_wf c -> fpu_wf (fninit c).
Proof.
  intros []. split; cbn; try done; try by split. split; [done|]. by apply (Forall_replicate (in_width 8) 16%nat 0).
Qed.

Lemma list_inserts_bytes i k l : Forall (in_width 8) k -> Forall (in_width 8) l -> Forall (in_width 8) (list_inserts i k l).
Proof. revert i. induction k as [|x k IH]; intros i Hk Hl; [done|]. inversion Hk; subst. cbn. apply Forall_insert; [by apply IH|done]. Qed.

Lemma env28_wf c : fpu_wf c -> length (env28 c) = 28%nat /\ Forall (in_width 8) (env28 c).
Proof.
  intros Hc. split; [unfold env28; cbn [foldl]; by rewrite !length_inserts|].
  unfold env28. apply (foldl_inv_in (Forall (in_width 8))).
  { intros l off _ Hl. apply list_inserts_bytes; [apply to_le_bytes_range|done]. }
  repeat (apply list_inserts_bytes; [apply to_le_bytes_range || apply Hc|]). by apply Forall_replicate.
Qed.

Lemma fpr_at_wf c i : fpu_wf c -> reg_wf (fpr_at c i) \/ fpr_at c i = [].
Proof.
  intros Hc. unfold fpr_at. destruct (nthZ (fpr c) i) as [b|] eqn:E; [left|by right]. cbn.
  apply nthZ_Some in E as [_ E]. eapply Forall_lookup_1; [apply Hc|done].
Qed.

Lemma fx_image_wf c : fpu_wf c -> length (fx_image c) = 512%nat /\ Forall (in_width 8) (fx_image c).
Proof.
  intros Hc. split.
  - unfold fx_image.
    apply (foldl_inv_in (fun b => length b = 512%nat)); [intros b i _ Hb; by rewrite length_inserts|].
    apply (foldl_inv_in (fun b => length b = 512%nat)); [intros b i _ Hb; by rewrite length_inserts|].
    by rewrite !length_inserts.
  - unfold fx_image.
    apply (foldl_inv_in (Forall (in_width 8))); [intros; apply list_inserts_bytes; [apply to_le_bytes_range|done]|].
    apply (foldl_inv_in (Forall (in_width 8))).
    { intros b j _ Hb. apply list_inserts_bytes; [|done]. destruct (fpr_at_wf c (phys c j) Hc) as [[_ Hw]|E]; [done|by rewrite E]. }
    do 2 (apply list_inserts_bytes; [apply to_le_bytes_range|]).
    apply list_inserts_bytes; [constructor; [by apply (unot_range 8)|constructor]|].
    do 2 (apply list_inserts_bytes; [apply to_le_bytes_range|]). by apply Forall_replicate.
Qed.

(** ** The interface to memory *)

(** What an implementor promises: reads and stores as the abstract view defines them. *)
Class FpMemLaws (T : Type) `{FpMem T} : Type := {
  fp_shows : T -> View -> Prop;
  fp_bytes m g a : fp_shows m g -> in_width 8 (v_byte g a);
  fp_load_law m g a n : fp_shows m g -> 0 < n -> fp_load m a n = Some (g_read_ram g a n);
  fp_store_law m g a l : fp_shows m g -> Forall (in_width 8) l -> (0 < length l)%nat ->
    exists m', fp_store m a l = Some ((g_write_ram g a l).1, m') /\ fp_shows m' (g_write_ram g a l).2;
}.

#[global] Instance g_read_ram_proper : Proper (view_eq ==> eq ==> eq ==> eq) g_read_ram.
Proof.
  intros g g' [H1 H2] a ? <- n ? <-. unfold g_read_ram, v_bytes. rewrite H1.
  by rewrite (list_fmap_ext (v_byte g) (v_byte g')) by (intros; apply H2).
Qed.

#[global] Instance g_write_ram_proper : Proper (view_eq ==> eq ==> eq ==> prod_relation eq view_eq) g_write_ram.
Proof.
  intros g g' [H1 H2] a ? <- l ? <-. unfold g_write_ram. rewrite H1.
  destruct (v_kind g' a _) as [[]|]; (split; [done|]); try (by split). split; cbn [fst snd v_store v_kind v_byte]; intros; [apply H1|by rewrite H2].
Qed.

#[global] Program Instance memory_fp_laws : FpMemLaws Memory := { fp_shows := shows }.
Next Obligation. intros m g a [Hm [_ Hg]]. rewrite <- Hg. apply (wf_bytes _ _ _ _ Hm). Qed.
Next Obligation.
  intros m g a n [Hm Hg] Hn. cbn. rewrite (proj2 (read_bytes_refines m a n Hm ltac:(lia))).
  by rewrite (g_read_ram_proper _ _ Hg a a eq_refl n n eq_refl).
Qed.
Next Obligation.
  intros m g a l [Hm Hg] Hl _. cbn. destruct (write_ram_refines m a l Hm Hl) as (m' & E & Hm' & Hg').
  destruct (g_write_ram_proper _ _ Hg a a eq_refl l l eq_refl) as [E1 E2]. exists m'.
  split; [by rewrite E, E1|split; [done|by etransitivity]].
Qed.

(** The compiled helper's buffer: RAM on the whole span, nothing outside. *)
Definition rf_view (r : RawFpMem) : View :=
  mkView (fun a n => if (rf_guest_base r <=? a) && (a + n <=? rf_size r) then Some Ram else None)
         (fun a => get_byte (rf_bytes r) (a - rf_guest_base r)).

Record rf_wf (r : RawFpMem) : Prop := {
  rf_wf_base : 0 <= rf_guest_base r;
  rf_wf_size : in_width 64 (rf_size r);
  rf_wf_bytes : bytes_wf (rf_bytes r);
}.

Lemma rf_off_spec r a n : rf_wf r -> 0 < n ->
  rf_off r a n = match v_kind (rf_view r) a n with Some _ => Some (a - rf_guest_base r) | None => None end.
Proof.
  intros [H0 [H1 H2] _] Hn. unfold rf_off, checked_add. cbn [rf_view v_kind].
  destruct (Z.ltb_spec (a + n) (2 ^ 64)); cbn [mbind option_bind]; repeat zcase; (done || lia).
Qed.

#[global] Program Instance raw_fp_laws : FpMemLaws RawFpMem := { fp_shows r g := rf_wf r /\ view_eq (rf_view r) g }.
Next Obligation. intros r g a [Hr [_ Hg]]. rewrite <- Hg. apply Hr. Qed.
Next Obligation.
  intros r g a n [Hr Hg] Hn. rewrite <- (g_read_ram_proper _ _ Hg a a eq_refl n n eq_refl). cbn.
  rewrite rf_off_spec by done. unfold g_read_ram, v_bytes, load_bytes. cbn [rf_view v_kind v_byte].
  destruct (_ && _); [|done]. do 2 f_equal. generalize (Z.to_nat n) as k. intros k. revert a.
  induction k as [|k IH]; intros a; simpl; [done|]. f_equal. rewrite <- IH.
  by replace (a + 1 - rf_guest_base r) with (a - rf_guest_base r + 1) by lia.
Qed.
Next Obligation.
  intros r g a l [Hr Hg] Hl Hn. destruct (g_write_ram_proper _ _ Hg a a eq_refl l l eq_refl) as [E1 E2]. cbn.
  rewrite rf_off_spec by (done || lia). rewrite <- E1. unfold g_write_ram in *. cbn [rf_view v_kind] in *.
  destruct (_ && _); cbn [fst snd] in *; [|by exists r].
  eexists. split; [done|]. split.
  - destruct Hr. split; [done|done|]. by apply bytes_wf_store.
  - etransitivity; [|exact E2]. split; cbn [rf_view v_kind v_byte v_store rf_size rf_guest_base rf_bytes]; intros; [done|].
    rewrite get_store_bytes. replace (a0 - rf_guest_base r - (a - rf_guest_base r)) with (a0 - a) by lia.
    repeat zcase; (done || lia).
Qed.

#[global] Program Instance view_fp_laws : FpMemLaws View :=
  { fp_shows g g' := g = g' /\ forall a, in_width 8 (v_byte g a) }.
Next Obligation. by intros m g a [-> H]. Qed.
Next Obligation. by intros m g a n [-> H] _. Qed.
Next Obligation.
  intros m g a l [-> H] Hl _. eexists. split; [cbn; by rewrite <- surjective_pairing|]. split; [done|].
  intros x. unfold g_write_ram. destruct (v_kind g a _) as [[]|]; try apply H. cbn [snd v_store v_byte].
  destruct (_ && _); [|apply H]. destruct (nth_in_or_default (Z.to_nat (x - a)) l 0) as [Hin|E]; [|by rewrite E].
  rewrite list.Forall_forall in Hl. apply Hl. by apply list_elem_of_In.
Qed.

(** ** Refinement of the abstract memory, with well-formedness *)

Section Refinement.
Context {T : Type} `{HL : FpMemLaws T} `{HM : Libm}.

(** [x] over the implementation does what [y] does over the view, completes, and keeps
    the state well formed; a returned value satisfies [P]. *)
Definition x_ok {A} (P : A -> Prop) (x : X T A) (y : X View A) : Prop :=
  forall c m g, fpu_wf c -> fp_shows m g ->
  exists r c' m' g', x c m = Some (r, c', m') /\ y c g = Some (r, c', g') /\ fpu_wf c' /\ fp_shows m' g' /\
    forall a, r = XRet a -> P a.

#[local] Ltac ok_step := do 4 eexists; split; [reflexivity|]; split; [reflexivity|]; split; [try done|split; [try done|]].

Lemma ok_ret {A} (P : A -> Prop) a : P a -> x_ok P (mret a) (mret a).
Proof. intros Ha c m g Hc Hg. ok_step. by intros ? [= <-]. Qed.

Lemma ok_bind {A B} (P : A -> Prop) (Q : B -> Prop) x y k l :
  x_ok P x y -> (forall a, P a -> x_ok Q (k a) (l a)) -> x_ok Q (x ≫= k) (y ≫= l).
Proof.
  intros Hx Hk c m g Hc Hg. destruct (Hx c m g Hc Hg) as (r & c' & m' & g' & E1 & E2 & Hc' & Hg' & HP).
  unfold mbind, x_bind. rewrite E1, E2. destruct r as [a|a w|].
  - by apply Hk; [apply HP|..].
  - by exists (XFault a w), c', m', g'.
  - by exists XAbandon, c', m', g'.
Qed.

Lemma ok_cpu : x_ok fpu_wf x_cpu x_cpu.
Proof. intros c m g Hc Hg. ok_step. by intros ? [= <-]. Qed.

Lemma ok_upd f : (forall c, fpu_wf c -> fpu_wf (f c)) -> x_ok (fun _ => True) (x_upd f) (x_upd f).
Proof. intros Hf c m g Hc Hg. ok_step; [by apply Hf|done]. Qed.

Lemma ok_raise e : x_ok (fun _ => True) (x_raise e) (x_raise e).
Proof.
  intros c m g Hc Hg. unfold x_raise. pose proof (raise_wf c e Hc) as Hr. destruct (raise c e) as [[] c'];
    ok_step; done.
Qed.

Lemma ok_operand i : x_ok (fun _ => True) (operand i) (operand i).
Proof.
  intros c m g Hc Hg. unfold operand. pose proof (st_operand_wf c i Hc) as Hr. destruct (st_operand c i) as [[] c'];
    ok_step; done.
Qed.

Lemma ok_pop : x_ok (fun _ => True) x_pop x_pop.
Proof.
  intros c m g Hc Hg. unfold x_pop. destruct (pop_wf c Hc) as (v & c' & -> & Hc').
  by ok_step.
Qed.

(** [n] bytes. *)
Definition bytes_ok (n : Z) (b : list Z) : Prop := Z.of_nat (length b) = n /\ Forall (in_width 8) b.

Lemma ok_read addr n : 0 < n -> x_ok (bytes_ok n) (read_n addr n) (read_n addr n).
Proof.
  intros Hn c m g Hc Hg. unfold read_n. rewrite (fp_load_law m g addr n Hg Hn). cbn [fp_load view_fp].
  unfold g_read_ram. assert (Hb : bytes_ok n (v_bytes g addr n)).
  { split; [unfold v_bytes; rewrite length_fmap, length_zseq; lia|]. apply Forall_fmap, Forall_forall. intros. by eapply fp_bytes. }
  destruct (v_kind g addr n) as [[]|]; ok_step; by intros ? [= <-] || done.
Qed.

Lemma ok_write addr l : Forall (in_width 8) l -> (0 < length l)%nat ->
  x_ok (fun _ => True) (write_bytes_at addr l) (write_bytes_at addr l).
Proof.
  intros Hl Hn c m g Hc Hg. unfold write_bytes_at. destruct (fp_store_law m g addr l Hg Hl Hn) as (m' & -> & Hm').
  cbn [fp_store view_fp]. destruct (g_write_ram g addr l) as [[] g'];
    ok_step; done.
Qed.

Lemma ok_mono {A} (P Q : A -> Prop) x y : (forall a, P a -> Q a) -> x_ok P x y -> x_ok Q x y.
Proof.
  intros HPQ Hx c m g Hc Hg. destruct (Hx c m g Hc Hg) as (r & c' & m' & g' & E1 & E2 & Hc' & Hg' & HP).
  exists r, c', m', g'. do 4 (split; [done|]). auto.
Qed.

Lemma ok_read_u addr n : 0 < n -> x_ok (fun v => in_width (8 * n) v) (read_u addr n) (read_u addr n).
Proof.
  intros Hn. apply (ok_bind (bytes_ok n)); [by apply ok_read|]. intros b [<- Hb]. apply ok_ret. by apply from_le_bytes_range.
Qed.

Lemma ok_read_i addr n : 0 < n -> x_ok (fun _ => True) (read_i addr n) (read_i addr n).
Proof. intros Hn. eapply ok_bind; [by apply ok_read_u|]. intros v _. by apply ok_ret. Qed.

Lemma int_bytes_ok n r v : (0 < n)%nat -> Forall (in_width 8) (int_bytes n r v) /\ (0 < length (int_bytes n r v))%nat.
Proof. intros Hn. unfold int_bytes. split; [apply to_le_bytes_range|by rewrite length_to_le_bytes]. Qed.

Lemma ok_store_st0 conv addr pops :
  (forall c v, Forall (in_width 8) (conv c v) /\ (0 < length (conv c v))%nat) ->
  x_ok (fun _ => True) (store_st0 conv addr pops) (store_st0 conv addr pops).
Proof.
  intros Hcv. eapply ok_bind; [apply ok_operand|]. intros v _. eapply ok_bind; [apply ok_cpu|]. intros c _.
  eapply ok_bind; [apply ok_write; apply Hcv|]. intros [] _. destruct pops; [apply ok_pop|by apply ok_ret].
Qed.

Lemma ok_store_f80 addr : x_ok (fun _ => True) (store_f80 addr) (store_f80 addr).
Proof.
  unfold store_f80. eapply ok_bind; [apply ok_cpu|]. intros c Hc. pose proof (wf_fpu_top c Hc).
  replace (8 <=? fpu_top c) with false by (symmetry; apply Z.leb_gt; lia).
  apply (ok_bind reg_wf).
  - destruct (is_empty_reg c _).
    + eapply ok_bind; [apply ok_upd; intros; by apply fpu_wf_and, (unot_range 16)|]. intros [] _.
      eapply ok_bind; [apply ok_raise|]. intros [] _. apply ok_ret, to_bytes_wf.
    + apply ok_ret. unfold fpr_at, nthZ. replace (fpu_top c <? 0) with false by (symmetry; apply Z.ltb_ge; lia).
      destruct (lookup_lt_is_Some_2 (fpr c) (Z.to_nat (fpu_top c))) as [b Eb]; [rewrite (wf_fpr_len c Hc); lia|].
      rewrite Eb. cbn. eapply Forall_lookup_1; [apply Hc|done].
  - intros b [Hl Hb]. eapply ok_bind; [by apply ok_write; [|lia]|]. intros [] _. apply ok_pop.
Qed.

Lemma ok_arith_mem kind b w v : x_ok (fun _ => True) (arith_mem kind b w v) (arith_mem kind b w v).
Proof.
  unfold arith_mem. eapply ok_bind; [apply ok_operand|]. intros a _. eapply ok_bind; [apply ok_cpu|]. intros c _.
  destruct (mem_arith kind a v (fpu_cw c)) as [r e]. eapply ok_bind; [apply ok_raise|]. intros [] _.
  apply ok_upd. intros. by apply set_st_wf.
Qed.

Lemma ok_arith_reg f sti dst : x_ok (fun _ => True) (arith_reg f sti dst) (arith_reg f sti dst).
Proof.
  unfold arith_reg. eapply ok_bind; [apply ok_operand|]. intros s0 _. eapply ok_bind; [apply ok_operand|]. intros si _.
  eapply ok_bind; [apply ok_cpu|]. intros c _. destruct (f s0 si (fpu_cw c)) as [r e].
  eapply ok_bind; [apply ok_raise|]. intros [] _. apply ok_upd. intros. by apply set_st_wf.
Qed.

Lemma flags_wf c f : fpu_wf c -> fpu_wf (set_flags c f).
Proof. intros []. by split. Qed.

Lemma ok_compare_sti sti pops : x_ok (fun _ => True) (compare_sti sti pops) (compare_sti sti pops).
Proof.
  unfold compare_sti. eapply ok_bind; [apply ok_operand|]. intros a _. eapply ok_bind; [apply ok_operand|]. intros b _.
  eapply ok_bind; [apply ok_upd; intros; by apply flags_wf|]. intros [] _. destruct pops; [apply ok_pop|by apply ok_ret].
Qed.

Lemma ok_compare_int addr w pops : 0 < w -> x_ok (fun _ => True) (compare_int addr w pops) (compare_int addr w pops).
Proof.
  intros Hw. unfold compare_int. eapply ok_bind; [by apply ok_read_i|]. intros v _. eapply ok_bind; [apply ok_operand|].
  intros a _. destruct (compare a (from_i64 v)) as [[c3 c2] c0].
  apply (ok_bind (fun _ => True)); [destruct (_ && _); [apply ok_raise|by apply ok_ret]|]. intros [] _.
  eapply ok_bind; [apply ok_upd; intros; by apply set_codes_wf|]. intros [] _. destruct pops; [apply ok_pop|by apply ok_ret].
Qed.

Lemma ok_unary f : x_ok (fun _ => True) (unary f) (unary f).
Proof.
  unfold unary. eapply ok_bind; [apply ok_operand|]. intros v _. apply ok_upd. intros. by apply set_st_wf.
Qed.

Lemma push_wf c v : fpu_wf c -> fpu_wf (push c v).
Proof. intros Hc. apply push_raw_wf; [done|apply to_bytes_wf]. Qed.

Lemma ok_reduced f g : x_ok (fun _ => True) (reduced f g) (reduced f g).
Proof.
  unfold reduced. eapply ok_bind; [apply ok_operand|]. intros v _. destruct (in_reduction_domain v); [|by apply ok_ret].
  eapply ok_bind; [apply ok_upd; intros; by apply set_st_wf|]. intros [] _.
  destruct g; [apply ok_upd; intros; by apply push_wf|by apply ok_ret].
Qed.

Lemma ok_binary_pop f : x_ok (fun _ => True) (binary_pop f) (binary_pop f).
Proof.
  unfold binary_pop. eapply ok_bind; [apply ok_operand|]. intros y _. eapply ok_bind; [apply ok_operand|]. intros x _.
  eapply ok_bind; [apply ok_upd; intros; by apply set_st_wf|]. intros [] _. apply ok_pop.
Qed.

Lemma ok_fnstsw : x_ok (fun _ => True) (x_try (fun c => write_gpr c RAX (status_word c) 2))
  (x_try (fun c => write_gpr c RAX (status_word c) 2)).
Proof. intros c m g Hc Hg. unfold x_try. cbn [write_gpr]. ok_step; [destruct Hc; by split|done]. Qed.

Lemma ok_push v : x_ok (fun _ => True) (x_upd (fun c => push c v)) (x_upd (fun c => push c v)).
Proof. apply ok_upd. intros. by apply push_wf. Qed.

Lemma ok_raise_if (b : bool) e : x_ok (fun _ => True) (if b then x_raise e else mret tt) (if b then x_raise e else mret tt).
Proof. destruct b; [apply ok_raise|by apply ok_ret]. Qed.

Lemma ok_fldf addr n (conv : list Z -> F80) : 0 < n ->
  let x {U} `{FpMem U} : X U unit := b ← read_n addr n;
    (if float_bytes_denormal b n then x_raise DE else mret tt);; x_upd (fun c => push c (conv b)) in
  x_ok (fun _ => True) x x.
Proof.
  intros Hn. eapply ok_bind; [by apply ok_read|]. intros b _. eapply ok_bind; [apply ok_raise_if|]. intros [] _. apply ok_push.
Qed.

Lemma ok_set_st i v : x_ok (fun _ => True) (x_upd (fun c => set_st c i v)) (x_upd (fun c => set_st c i v)).
Proof. apply ok_upd. intros. by apply set_st_wf. Qed.

#[local] Ltac ok_tac :=
  repeat first
    [ apply ok_operand | apply ok_raise_if | apply ok_raise | apply ok_pop | apply ok_push | apply ok_set_st | apply ok_cpu
    | apply ok_read; lia | apply ok_read_u; lia | apply ok_read_i; lia
    | apply ok_store_f80 | apply ok_arith_mem | apply ok_arith_reg | apply ok_compare_sti | apply ok_compare_int; lia
    | apply ok_unary | apply ok_reduced | apply ok_binary_pop | apply ok_fnstsw
    | apply ok_store_st0; intros; unfold f64_bytes, f32_bytes, int_bytes; (split; [apply to_le_bytes_range|rewrite length_to_le_bytes; lia])
    | eapply ok_bind; [|intros ? ?; cbv beta in *] ].

(** Every operation. *)
Lemma exec_x87_op_ok kind addr sti : x_ok (fun _ => True) (exec_x87_op kind addr sti) (exec_x87_op kind addr sti).
Proof.
  unfold exec_x87_op. eapply ok_bind; [apply ok_cpu|]. intros c0 Hc0. destruct kind; ok_tac; cbv beta in *.
  - apply ok_upd. intros c Hc. match goal with H : bytes_ok _ _ |- _ => destruct H as [Hl Hb] end. apply push_raw_wf; [done|]. split; [lia|done].
  - apply ok_upd. intros c Hc. by do 2 apply set_st_wf.
  - apply ok_upd. intros c Hc. apply fpu_wf_cw; [done|]. match goal with H : in_width _ ?v |- context [normalize_cw ?v] => apply normalize_cw_wf, H end.
  - apply ok_write; [apply to_le_bytes_range|rewrite length_to_le_bytes; lia].
  - apply ok_write; [apply to_le_bytes_range|rewrite length_to_le_bytes; lia].
  - match goal with H : fpu_wf ?c |- context [env28 ?c] => destruct (env28_wf c H) as [Hl Hb] end. apply ok_write; [done|lia].
  - apply ok_upd. intros c Hc. apply fpu_wf_cw; [done|]. apply in_width_lor; [lia|apply Hc|by split].
  - apply ok_upd. intros c Hc. match goal with H : bytes_ok _ _ |- _ => destruct H as [Hl Hb] end. apply load_env28_wf; [done|lia|done].
  - apply ok_upd. intros c Hc. by apply fninit_wf.
  - apply ok_upd. intros c Hc. by apply fpu_wf_and, (unot_range 16).
Qed.

Lemma exec_fxstate_op_ok addr restore : x_ok (fun _ => True) (exec_fxstate_op addr restore) (exec_fxstate_op addr restore).
Proof.
  unfold exec_fxstate_op. destruct restore.
  - eapply ok_bind; [apply ok_read; lia|]. intros b [Hl Hb]. apply ok_upd. intros. apply fx_load_wf; [done|lia|done].
  - eapply ok_bind; [apply ok_cpu|]. intros c Hc. destruct (fx_image_wf c Hc) as [Hl Hb]. apply ok_write; [done|lia].
Qed.

(** C22: Every x87 operation completes without a panic on every well-formed state, keeps
    it well formed (register images, TOP, the control, status and emptiness words), and
    computes over any memory that keeps the interface's promises exactly what it computes
    over the abstract view of that memory; FXSAVE and FXRSTOR likewise.  The interpreter's
    region-checked memory and the compiled helper's raw window both keep them.  (The 80-bit
    arithmetic is on unbounded integers: a shift by the width of its operand is not a panic
    in it.) *)
Theorem x87_refines c m g kind addr sti restore : fpu_wf c -> fp_shows m g ->
  (exists f c' m' g', exec_x87 c m kind addr sti = Some (f, c', m') /\
     exec_x87 c g kind addr sti = Some (f, c', g') /\ fpu_wf c' /\ fp_shows m' g') /\
  (exists f c' m' g', exec_fxstate c m addr restore = Some (f, c', m') /\
     exec_fxstate c g addr restore = Some (f, c', g') /\ fpu_wf c' /\ fp_shows m' g').
Proof.
  intros Hc Hg. split.
  - destruct (exec_x87_op_ok kind addr sti c m g Hc Hg) as (r & c' & m' & g' & E1 & E2 & Hc' & Hg' & _).
    unfold exec_x87. rewrite E1, E2. by exists (x_fault r), c', m', g'.
  - destruct (exec_fxstate_op_ok addr restore c m g Hc Hg) as (r & c' & m' & g' & E1 & E2 & Hc' & Hg' & _).
    unfold exec_fxstate. rewrite E1, E2. by exists (x_fault r), c', m', g'.
Qed.

End Refinement.

Lemma default_fpu_wf : fpu_wf default_cpu.
Proof.
  split; try (by vm_compute); cbn [default_cpu fpr fpu_env_tail].
  - apply Forall_replicate. split; [done|]. by apply Forall_replicate.
  - split; [done|]. by apply Forall_replicate.
Qed.

Definition small_raw : RawFpMem := mkRawFp (store_bytes ∅ 0 (to_le_bytes 8 0x4008000000000000)) 64 0.

Lemma small_raw_wf : rf_wf small_raw.
Proof. split; [done|split; done|]. apply bytes_wf_store; [apply bytes_wf_empty|apply to_le_bytes_range]. Qed.

(** FLD of 3.0 through the compiled helper's window. *)
Lemma x87_refines_witness :
  exists f c' m' g', @exec_x87 _ _ no_libm default_cpu small_raw FldF64 0 0 = Some (f, c', m') /\
    @exec_x87 _ _ no_libm default_cpu (rf_view small_raw) FldF64 0 0 = Some (f, c', g') /\ fpu_wf c' /\ fp_shows m' g'.
Proof.
  exact (proj1 (@x87_refines RawFpMem _ _ no_libm default_cpu small_raw (rf_view small_raw) FldF64 0 0 false
    default_fpu_wf (conj small_raw_wf (reflexivity (rf_view small_raw))))).
Defined.
