(* ===== verification/X87Exc.v ===== *)
(** * The deferred exception protocol of the x87 unit (x86jit-core/src/x87.rs)

    An operation that raises an unmasked exception sets ES and leaves registers, stack,
    flags and memory alone; the report comes from the next waiting operation, and the
    non-waiting ones let a handler clear it. *)

From S2P Require Import Prelude Features State Ir Memory HostFloat F80 F80Trans X87 X87Spec.

(** The exception summary, bit 7 of the status word. *)
Definition es (c : CpuState) : bool := Z.testbit (fpu_sw c) 7.

(** Equal but for the status word. *)
Definition same_but_sw (c c' : CpuState) : Prop := set_fpu_sw c 0 = set_fpu_sw c' 0.

#[global] Instance same_but_sw_equiv : Equivalence same_but_sw.
Proof. split; [done|by intros ? ? ?|]. intros ? ? ? H1 H2. unfold same_but_sw in *. congruence. Qed.

Lemma same_set_sw c v : same_but_sw c (set_fpu_sw c v).
Proof. done. Qed.

Section Clean.
Context {T : Type} `{FpMem T} `{Libm}.

(** Reads only: everything but the status word is unchanged, and ES too if it returns. *)
Definition reads {A} (x : X T A) : Prop := forall c m r c' m', x c m = Some (r, c', m') ->
  m' = m /\ same_but_sw c c' /\ (forall a, r = XRet a -> es c' = es c) /\ (r = XAbandon -> es c' = true) /\
  (forall a w, r = XFault a w -> es c' = es c).

(** Acts without raising: ES is unchanged. *)
Definition calm {A} (x : X T A) : Prop := forall c m r c' m', x c m = Some (r, c', m') -> es c' = es c /\ r <> XAbandon.

(** Raising an exception means nothing else happened. *)
Definition clean {A} (x : X T A) : Prop := forall c m r c' m', x c m = Some (r, c', m') ->
  es c = false -> es c' = true -> same_but_sw c c' /\ m' = m /\ x_fault r = None.

Lemma reads_clean {A} (x : X T A) : reads x -> clean x.
Proof.
  intros Hx c m r c' m' E E0 E1. destruct (Hx _ _ _ _ _ E) as (-> & Hs & H1 & _ & H3). split; [done|]. split; [done|].
  destruct r as [a|a w|]; [done| |done]. specialize (H3 a w eq_refl). congruence.
Qed.

Lemma calm_clean {A} (x : X T A) : calm x -> clean x.
Proof. intros Hx c m r c' m' E E0 E1. destruct (Hx _ _ _ _ _ E) as [Hs _]. congruence. Qed.

Lemma reads_bind {A B} (x : X T A) (k : A -> X T B) : reads x -> (forall a, reads (k a)) -> reads (x ≫= k).
Proof.
  intros Hx Hk c m r c' m'. unfold mbind, x_bind. destruct (x c m) as [[[[a|a w|] c1] m1]|] eqn:E; [| | |done].
  - intros E2. destruct (Hx _ _ _ _ _ E) as (-> & Hs & H1 & _ & _). destruct (Hk _ _ _ _ _ _ E2) as (-> & Hs' & H1' & H2' & H3').
    rewrite <- (H1 a eq_refl). split; [done|]. split; [by etransitivity|done].
  - intros [= <- <- <-]. destruct (Hx _ _ _ _ _ E) as (-> & Hs & _ & _ & H3). split; [done|]. split; [done|].
    split; [done|]. split; [done|]. intros ? ? _. by eapply H3.
  - intros [= <- <- <-]. destruct (Hx _ _ _ _ _ E) as (-> & Hs & _ & H2 & _). split; [done|]. split; [done|].
    split; [done|]. split; [by intros _; apply H2|done].
Qed.

Lemma calm_bind {A B} (x : X T A) (k : A -> X T B) : calm x -> (forall a, calm (k a)) -> calm (x ≫= k).
Proof.
  intros Hx Hk c m r c' m'. unfold mbind, x_bind. destruct (x c m) as [[[[a|a w|] c1] m1]|] eqn:E; [| | |done];
    destruct (Hx _ _ _ _ _ E) as [H1 H2].
  - intros E2. destruct (Hk _ _ _ _ _ _ E2). split; [congruence|done].
  - by intros [= <- <- <-].
  - done.
Qed.

Lemma clean_bind {A B} (x : X T A) (k : A -> X T B) : reads x -> (forall a, clean (k a)) -> clean (x ≫= k).
Proof.
  intros Hx Hk c m r c' m'. unfold mbind, x_bind. destruct (x c m) as [[[[a|a w|] c1] m1]|] eqn:E; [| | |done].
  - intros E2 E0 E1. destruct (Hx _ _ _ _ _ E) as (-> & Hs & H1 & _). rewrite <- (H1 a eq_refl) in E0.
    destruct (Hk _ _ _ _ _ _ E2 E0 E1) as (Hs' & -> & Hf). split; [by etransitivity|done].
  - intros [= <- <- <-] E0 E1. destruct (Hx _ _ _ _ _ E) as (_ & _ & _ & _ & H3). specialize (H3 a w eq_refl). congruence.
  - intros [= <- <- <-] E0 E1. by destruct (Hx _ _ _ _ _ E) as (-> & Hs & _).
Qed.

Lemma reads_ret {A} (a : A) : reads (mret a).
Proof. by intros c m r c' m' [= <- <- <-]. Qed.
Lemma reads_cpu : reads x_cpu.
Proof. by intros c m r c' m' [= <- <- <-]. Qed.
Lemma calm_ret {A} (a : A) : calm (mret a).
Proof. by intros c m r c' m' [= <- <- <-]. Qed.
Lemma calm_upd f : (forall c, es (f c) = es c) -> calm (x_upd f).
Proof. intros Hf c m r c' m' [= <- <- <-]. by split. Qed.

Lemma raise_spec c e : let '(ab, c') := raise c e in same_but_sw c c' /\ es c' = if ab then true else es c.
Proof.
  unfold raise. destruct (exc_is_empty e); [done|].
  destruct (negb _); (split; [done|]); unfold es; cbn [set_fpu_sw fpu_sw].
  - rewrite Z.lor_spec. by rewrite orb_true_r.
  - rewrite Z.lor_spec, Z.land_spec. by rewrite andb_false_r, orb_false_r.
Qed.

Lemma reads_raise e : reads (x_raise e).
Proof.
  intros c m r c' m'. unfold x_raise. pose proof (raise_spec c e) as Hr. destruct (raise c e) as [[] c1];
    intros [= <- <- <-]; destruct Hr; done.
Qed.

Lemma es_clear_c1 c : es (set_fpu_sw c (Z.land (fpu_sw c) (unot 16 COND_C1))) = es c.
Proof. unfold es. cbn [set_fpu_sw fpu_sw]. rewrite Z.land_spec. by rewrite andb_true_r. Qed.

Lemma reads_operand i : reads (operand i).
Proof.
  intros c m r c' m'. unfold operand, st_operand. destruct (is_empty_reg c _); [|by intros [= <- <- <-]].
  pose proof (raise_spec (set_fpu_sw c (Z.land (fpu_sw c) (unot 16 COND_C1))) (exc_with IE SF)) as Hr.
  rewrite es_clear_c1 in Hr. destruct (raise _ _) as [[] c1]; intros [= <- <- <-]; destruct Hr; done.
Qed.

Lemma reads_read addr n : reads (read_n addr n).
Proof. intros c m r c' m'. unfold read_n. destruct (fp_load m addr n) as [[b|]|]; [| |done]; by intros [= <- <- <-]. Qed.

Lemma reads_read_u addr n : reads (read_u addr n).
Proof. apply reads_bind; [apply reads_read|]. intros. apply reads_ret. Qed.

Lemma reads_read_i addr n : reads (read_i addr n).
Proof. apply reads_bind; [apply reads_read_u|]. intros. apply reads_ret. Qed.

Lemma calm_pop : calm x_pop.
Proof. intros c m r c' m'. unfold x_pop, pop. destruct (_ <? _); [|done]. by intros [= <- <- <-]. Qed.

Lemma calm_write addr l : calm (write_bytes_at addr l).
Proof. intros c m r c' m'. unfold write_bytes_at. destruct (fp_store m addr l) as [[[] m1]|]; [| |done]; by intros [= <- <- <-]. Qed.

Lemma calm_set_st i v : calm (x_upd (fun c => set_st c i v)).
Proof. by apply calm_upd. Qed.

(** A push that overflows unmasked does nothing else; any other leaves ES alone. *)
Lemma push_raw_clean c b : es c = false -> es (push_raw c b) = true -> same_but_sw c (push_raw c b).
Proof.
  intros E0. unfold push_raw. destruct (negb _).
  - pose proof (raise_spec (set_fpu_sw c (Z.lor (fpu_sw c) COND_C1)) (exc_with IE SF)) as Hr.
    assert (Hc : es (set_fpu_sw c (Z.lor (fpu_sw c) COND_C1)) = es c).
    { unfold es. cbn [set_fpu_sw fpu_sw]. rewrite Z.lor_spec. apply orb_false_r. }
    rewrite Hc in Hr. destruct (raise _ _) as [[] c1]; destruct Hr as [H1 H2]; [intros _; exact H1|].
    intros E1. change (es c1 = true) in E1. congruence.
  - intros E1. pose proof (es_clear_c1 c).
    change (es (set_fpu_sw c (Z.land (fpu_sw c) (unot 16 COND_C1))) = true) in E1. congruence.
Qed.

Lemma clean_push b : clean (x_upd (fun c => push_raw c b)).
Proof. intros c m r c' m' [= <- <- <-] E0 E1. split; [by apply push_raw_clean|done]. Qed.

Lemma reads_clear_c1 : reads (x_upd (fun c => set_fpu_sw c (Z.land (fpu_sw c) (unot 16 COND_C1)))).
Proof. intros c m r c' m' [= <- <- <-]. pose proof (es_clear_c1 c). by repeat split. Qed.

#[local] Ltac reads_tac :=
  repeat first
    [ apply reads_operand | apply reads_raise | apply reads_cpu | apply reads_read | apply reads_read_u | apply reads_read_i
    | apply reads_ret | apply reads_clear_c1
    | apply reads_bind; [|intros ?]
    | match goal with |- reads (match ?b with _ => _ end) => destruct b end ].

Lemma set_codes_es c c3 c2 c0 : es (set_codes c c3 c2 c0) = es c.
Proof.
  unfold es, set_codes. cbn [set_fpu_sw fpu_sw]. destruct c3, c2, c0; rewrite ?Z.lor_spec, Z.land_spec; by rewrite andb_true_r, ?orb_false_r.
Qed.

Lemma calm_codes c3 c2 c0 : calm (x_upd (fun c => set_codes c c3 c2 c0)).
Proof. apply calm_upd. intros. apply set_codes_es. Qed.

Lemma calm_fnstsw : calm (x_try (fun c => write_gpr c RAX (status_word c) 2)).
Proof. by intros c m r c' m' [= <- <- <-]. Qed.

Lemma calm_panic : calm x_panic.
Proof. done. Qed.

(** Returning leaves ES as it was. *)
Definition settled {A} (x : X T A) : Prop := forall c m a c' m', x c m = Some (XRet a, c', m') -> es c' = es c.

Lemma settled_bind {A B} (x : X T A) (k : A -> X T B) : settled x -> (forall a, settled (k a)) -> settled (x ≫= k).
Proof.
  intros Hx Hk c m a c' m'. unfold mbind, x_bind. destruct (x c m) as [[[[a1|a1 w|] c1] m1]|] eqn:E; [|done..].
  intros E2. rewrite (Hk _ _ _ _ _ _ E2). by eapply Hx.
Qed.

Lemma settled_reads {A} (x : X T A) : reads x -> settled x.
Proof. intros Hx c m a c' m' E. destruct (Hx _ _ _ _ _ E) as (_ & _ & H1 & _). by eapply H1. Qed.

Lemma settled_calm {A} (x : X T A) : calm x -> settled x.
Proof. intros Hx c m a c' m' E. by destruct (Hx _ _ _ _ _ E). Qed.

(** A clean computation followed by a calm one. *)
Lemma clean_then {A B} (x : X T A) (k : A -> X T B) : clean x -> settled x -> (forall a, calm (k a)) -> clean (x ≫= k).
Proof.
  intros Hx Hs Hk c m r c' m'. unfold mbind, x_bind. destruct (x c m) as [[[[a|a w|] c1] m1]|] eqn:E; [| | |done].
  - intros E2 E0 E1. destruct (Hk _ _ _ _ _ _ E2) as [H1 _]. rewrite (Hs _ _ _ _ _ E) in H1. congruence.
  - intros [= <- <- <-]. by apply (Hx _ _ _ _ _ E).
  - intros [= <- <- <-]. by apply (Hx _ _ _ _ _ E).
Qed.

#[local] Ltac clean_tac :=
  repeat first
    [ apply calm_ret | apply calm_pop | apply calm_write | apply calm_set_st | apply calm_codes | apply calm_panic
    | apply clean_push | apply calm_fnstsw | apply calm_upd; reflexivity
    | apply clean_bind; [solve [reads_tac]|intros ?]
    | apply calm_bind; [|intros ?]
    | match goal with
      | |- calm (match ?b with _ => _ end) => destruct b
      | |- clean (match ?b with _ => _ end) => destruct b
      end
    | apply calm_clean; solve [clean_tac] ].

(** The operations whose ES can only come from their own exception. *)
Definition single_effect (kind : FpuKind) : bool :=
  match kind with Fldenv | Fptan | Fsincos => false | _ => true end.

Lemma clean_fninit : clean (x_upd fninit).
Proof. by intros c m r c' m' [= <- <- <-] E0 E1. Qed.

Lemma clean_fnclex : clean (x_upd fnclex).
Proof.
  intros c m r c' m' [= <- <- <-] E0 E1. unfold es, fnclex in E1. cbn [set_fpu_sw fpu_sw] in E1.
  rewrite Z.land_spec in E1. by rewrite andb_false_r in E1.
Qed.

Lemma arith_reg_clean f sti dst : clean (arith_reg f sti dst) /\ settled (arith_reg f sti dst).
Proof.
  unfold arith_reg. split; [clean_tac|]. repeat (apply settled_bind; [apply settled_reads; reads_tac|intros ?]).
  destruct (f _ _ _). apply settled_bind; [apply settled_reads; reads_tac|]. intros _. apply settled_calm, calm_set_st.
Qed.

Lemma exec_x87_op_clean kind addr sti : single_effect kind = true -> clean (exec_x87_op kind addr sti).
Proof.
  intros Hk. unfold exec_x87_op. apply clean_bind; [apply reads_cpu|]. intros c0.
  destruct kind; try discriminate Hk; unfold store_st0, store_f80, arith_mem, compare_sti, compare_int, unary,
    reduced, binary_pop, push; try apply arith_reg_clean;
    try (apply clean_then; [apply arith_reg_clean|apply arith_reg_clean|intros; apply calm_pop]);
    try apply clean_fninit; try apply clean_fnclex; clean_tac.
Qed.

End Clean.

Section Protocol.
Context {T : Type} `{FpMem T} `{Libm}.

(** An operation that raises an unmasked exception is abandoned: if it turns the
    exception summary on, the register stack, TOP, the tags, the control word, the
    general registers, the flags and guest memory are all as before, and no fault is
    reported.  (FLDENV loads the summary; FPTAN and FSINCOS are excepted.) *)
Theorem x87_unmasked_abandons c m kind addr sti f c' m' : single_effect kind = true ->
  exec_x87 c m kind addr sti = Some (f, c', m') -> es c = false -> es c' = true ->
  same_but_sw c c' /\ m' = m /\ f = None.
Proof.
  intros Hk. unfold exec_x87. destruct (exec_x87_op kind addr sti c m) as [[[r c1] m1]|] eqn:E; [|done].
  intros [= <- <- <-]. by apply (exec_x87_op_clean kind addr sti Hk _ _ _ _ _ E).
Qed.

End Protocol.

(** One over zero with the zero-divide exception unmasked: ST(1) / ST(0). *)
Definition one_over_zero : CpuState :=
  let c := set_fpu_cw default_cpu 0x037B in
  let c := push (push c (from_i64 1)) (zero false) in c.

Lemma x87_unmasked_abandons_witness :
  exists c' m', @exec_x87 _ _ no_libm one_over_zero small_raw FdivP 0 1 = Some (None, c', m') /\
    fpu_sw c' = 0x8084 /\ same_but_sw one_over_zero c' /\ m' = small_raw.
Proof.
  destruct (@exec_x87 _ _ no_libm one_over_zero small_raw FdivP 0 1) as [[[f c'] m']|] eqn:E; [|by vm_compute in E].
  assert (Hs : fpu_sw c' = 0x8084) by (vm_compute in E; injection E as <- <- <-; reflexivity).
  destruct (@x87_unmasked_abandons _ _ no_libm one_over_zero small_raw FdivP 0 1 f c' m' eq_refl E eq_refl) as (H1 & H2 & H3).
  { unfold es. by rewrite Hs. }
  exists c', m'. by rewrite H3.
Defined.

(** ** Tangent and sine-cosine are not abandoned *)

Lemma shiftl_one_test x i : 0 <= i -> test x (Z.shiftl 1 i) = Z.testbit x i.
Proof. intros. rewrite Z.shiftl_1_l. by apply test_pow2. Qed.

Lemma below_top t : 0 <= t < 8 -> Z.land (wrapping_sub 32 t 1) 7 <> t /\ 0 <= Z.land (wrapping_sub 32 t 1) 7 < 8.
Proof.
  intros Ht. assert (t = 0 \/ t = 1 \/ t = 2 \/ t = 3 \/ t = 4 \/ t = 5 \/ t = 6 \/ t = 7) as E by lia.
  destruct_or! E; rewrite E; by vm_compute.
Qed.

Lemma phys0 c : 0 <= fpu_top c < 8 -> phys c 0 = fpu_top c.
Proof.
  intros Ht. unfold phys. rewrite Z.add_0_r. change 7 with (Z.ones 3). rewrite Z.land_ones by lia. by apply Z.mod_small.
Qed.

(** An overflow that the control word does not mask. *)
Lemma push_overflow_unmasked c b : fpu_wf c -> is_empty_reg c (Z.land (wrapping_sub 32 (fpu_top c) 1) 7) = false ->
  Z.testbit (fpu_cw c) 0 = false -> same_but_sw c (push_raw c b) /\ es (push_raw c b) = true.
Proof.
  intros Hc He Hcw. unfold push_raw. rewrite He. cbn [negb].
  set (c1 := set_fpu_sw c (Z.lor (fpu_sw c) COND_C1)).
  assert (Hr : (raise c1 (exc_with IE SF)).1 = true).
  { unfold raise. change (exc_is_empty (exc_with IE SF)) with false. cbv iota zeta.
    destruct (negb _) eqn:E; [done|]. exfalso. apply negb_false_iff, Z.eqb_eq in E.
    apply (f_equal (fun z => Z.testbit z 0)) in E. cbn [set_fpu_sw fpu_sw fpu_cw c1] in E.
    unfold unot in E. rewrite !Z.land_spec, wrap_testbit, Z.lnot_spec, !Z.lor_spec, Hcw in E by lia.
    change (Z.testbit (Z.land (exc_with IE SF) 0x7f) 0) with true in E.
    change (Z.testbit 0x3f 0) with true in E. by rewrite orb_true_r in E. }
  pose proof (raise_spec c1 (exc_with IE SF)) as Hs. destruct (raise c1 _) as [ab c2]. cbn [fst] in Hr. subst ab.
  cbv iota. destruct Hs as [H1 H2]. split; [exact H1|exact H2].
Qed.

(** FPTAN on a full stack with the invalid exception unmasked raises it, but not
    before it has overwritten ST(0) with the tangent: the handler does not find the
    operand.  FSINCOS does the same with the sine. *)
Theorem fptan_loses_operand `{Libm} {T} `{FpMem T} c (m : T) addr sti : fpu_wf c -> fpu_empty c = 0 ->
  Z.testbit (fpu_cw c) 0 = false ->
  let v := from_bytes (fpr_at c (fpu_top c)) in
  in_reduction_domain v = true ->
  exists c', exec_x87 c m Fptan addr sti = Some (None, c', m) /\ es c' = true /\ fpu_top c' = fpu_top c /\
    fpr_at c' (fpu_top c') = to_bytes (by_precision c tan_ext tan v).
Proof.
  intros Hc Hfull Hcw v Hv. pose proof (wf_fpu_top c Hc) as Ht. destruct (below_top _ Ht) as [Hne Hd].
  set (w := by_precision c tan_ext tan v). set (c1 := set_st c 0 w).
  assert (Hc1 : fpu_wf c1) by (by apply set_st_wf).
  destruct (push_overflow_unmasked c1 (to_bytes (from_i64 1)) Hc1) as [Hs He].
  { unfold is_empty_reg. change (fpu_empty c1) with (Z.land (fpu_empty c) (unot 8 (Z.shiftl 1 (phys c 0)))).
    rewrite Hfull. done. }
  { exact Hcw. }
  exists (push c1 (from_i64 1)). split.
  - unfold exec_x87, exec_x87_op, reduced, operand, mbind, x_bind, x_cpu, option_bind. unfold st_operand.
    rewrite phys0 by done. unfold is_empty_reg at 1. rewrite Hfull. change (test 0 (Z.shiftl 1 (fpu_top c))) with false.
    cbv iota beta. fold v. rewrite Hv. reflexivity.
  - split; [exact He|]. assert (Ht1 : fpu_top (push c1 (from_i64 1)) = fpu_top c).
    { apply (f_equal fpu_top) in Hs. by symmetry in Hs. }
    split; [done|]. rewrite Ht1. assert (Hfp : fpr (push c1 (from_i64 1)) = fpr c1).
    { apply (f_equal fpr) in Hs. by symmetry in Hs. }
    unfold fpr_at. rewrite Hfp. unfold c1, set_st. rewrite phys0 by done. cbn [mark_full set_fpu_empty set_fpr_at set_fpr fpr].
    unfold nthZ. replace (fpu_top c <? 0) with false by (symmetry; apply Z.ltb_ge; lia).
    rewrite list_lookup_insert_eq; [done|]. rewrite (wf_fpr_len c Hc). lia.
Qed.

(** Eight ones, everything unmasked. *)
Definition full_stack : CpuState := Nat.iter 8 (fun c => push c (from_i64 1)) (set_fpu_cw default_cpu 0x0340).

Lemma full_stack_wf : fpu_wf full_stack.
Proof. unfold full_stack. cbn [Nat.iter]. repeat apply push_wf. apply fpu_wf_cw; [apply default_fpu_wf|split; done]. Qed.

Lemma fptan_loses_operand_witness :
  exists c', @exec_x87 _ _ no_libm full_stack small_raw Fptan 0 0 = Some (None, c', small_raw) /\ es c' = true /\
    fpu_top c' = 0 /\ fpr_at c' 0 = to_bytes (@tan no_libm (from_i64 1)).
Proof.
  destruct (@fptan_loses_operand no_libm RawFpMem _ full_stack small_raw 0 0 full_stack_wf eq_refl eq_refl eq_refl)
    as (c' & E & Hes & Ht & Hf).
  change (fpu_top full_stack) with 0 in Ht, Hf. exists c'. rewrite Ht in Hf. split; [exact E|]. split; [exact Hes|].
  split; [exact Ht|exact Hf].
Defined.
