(* ===== verification/X87Image.v ===== *)
(** * The environment and FXSAVE images of the x87 unit (x86jit-core/src/x87.rs)

    FNSTENV followed by FLDENV, and FXSAVE followed by FXRSTOR, restore the unit; FLD and
    FSTP of ten bytes move them untouched. *)

From S2P Require Import Prelude Features State Ir Memory HostFloat F80 F80Trans X87 X87Spec X87Exc.

(** ** Slices of a buffer written piecewise *)

Lemma slice_lookup b off n i : (i < n)%nat -> slice b off n !! i = b !! (off + i)%nat.
Proof. intros Hi. unfold slice. rewrite lookup_take_lt by done. apply lookup_drop. Qed.

Lemma slice_ext b b' off n : (forall i, (i < n)%nat -> b !! (off + i)%nat = b' !! (off + i)%nat) -> slice b off n = slice b' off n.
Proof.
  intros H. apply list_eq. intros i. destruct (decide (i < n)%nat) as [Hi|Hi].
  - rewrite !slice_lookup by done. by apply H.
  - unfold slice. by rewrite !lookup_take_ge by lia.
Qed.

Lemma slice_inserts_same k b off : (off + length k <= length b)%nat -> slice (list_inserts off k b) off (length k) = k.
Proof.
  intros Hl. apply list_eq. intros i. destruct (decide (i < length k)%nat) as [Hi|Hi].
  - rewrite slice_lookup by done. rewrite list_lookup_inserts by lia. f_equal. lia.
  - unfold slice. rewrite lookup_take_ge by lia. symmetry. apply lookup_ge_None. lia.
Qed.

Lemma slice_inserts_other k b o off n : (off + n <= o \/ o + length k <= off)%nat ->
  slice (list_inserts o k b) off n = slice b off n.
Proof.
  intros Hd. apply slice_ext. intros i Hi.
  destruct Hd; [apply list_lookup_inserts_lt|apply list_lookup_inserts_ge]; lia.
Qed.

(** A loop of stores at distinct places. *)
Section Stores.
Context {A : Type} (off : A -> nat) (k : A -> list Z).

Definition stores (buf : list Z) (l : list A) : list Z := foldl (fun b j => list_inserts (off j) (k j) b) buf l.

Lemma length_stores buf l : length (stores buf l) = length buf.
Proof. apply (foldl_inv_in (fun b => length b = length buf)); [|done]. intros b j _ Hb. by rewrite length_inserts. Qed.

Lemma slice_stores_other buf l o n : (forall j, j ∈ l -> (o + n <= off j \/ off j + length (k j) <= o)%nat) ->
  slice (stores buf l) o n = slice buf o n.
Proof.
  intros H. apply (foldl_inv_in (fun b => slice b o n = slice buf o n)); [|done]. intros b j Hj Hb.
  by rewrite slice_inserts_other by (by apply H).
Qed.

Lemma slice_stores_same buf l j : NoDup l -> j ∈ l -> (off j + length (k j) <= length buf)%nat ->
  (forall i, i ∈ l -> i <> j -> (off j + length (k j) <= off i \/ off i + length (k i) <= off j)%nat) ->
  slice (stores buf l) (off j) (length (k j)) = k j.
Proof.
  intros Hnd (l1 & l2 & ->)%list_elem_of_split Hl Hd. unfold stores. rewrite foldl_app. cbn [foldl].
  fold (stores buf l1). fold (stores (list_inserts (off j) (k j) (stores buf l1)) l2).
  rewrite slice_stores_other.
  - apply slice_inserts_same. by rewrite length_stores.
  - intros i Hi. apply Hd; [apply elem_of_app; right; by right|]. intros ->.
    apply list.NoDup_app in Hnd as (_ & _ & Hnd). inversion Hnd; subst. done.
Qed.

End Stores.

(** ** Status and tag words *)

Lemma status_word_fields c : fpu_wf c ->
  in_width 16 (status_word c) /\ Z.land (Z.shiftr (status_word c) 11) 7 = fpu_top c /\
  Z.land (status_word c) (unot 16 0x3800) = fpu_sw c.
Proof.
  intros Hc. pose proof (wf_fpu_top c Hc) as Ht. pose proof (wf_sw c Hc) as Hs. pose proof (wf_sw_top c Hc) as Hst.
  assert (Hsw : Z.land (fpu_sw c) (unot 16 0x3800) = fpu_sw c).
  { apply Z.bits_inj'. intros i Hi. rewrite Z.land_spec. unfold unot. rewrite wrap_testbit, Z.lnot_spec by lia.
    destruct (Z.ltb_spec i 16) as [Hi16|Hi16]; [|rewrite andb_false_r; symmetry; by apply (in_width_high 16)].
    apply (f_equal (fun z => Z.testbit z i)) in Hst. rewrite Z.land_spec, Z.bits_0 in Hst. cbn [andb].
    destruct (Z.testbit 0x3800 i); [rewrite andb_true_r in Hst; by rewrite Hst|by rewrite andb_true_r]. }
  assert (Hw : wrap 16 (fpu_top c) = fpu_top c) by (apply wrap_small; unfold in_width; lia).
  unfold status_word. rewrite Hsw, Hw.
  assert (H7 : Z.land (fpu_top c) 7 = fpu_top c) by (change 7 with (Z.ones 3); rewrite Z.land_ones by lia; apply Z.mod_small; lia).
  rewrite H7, wrap_small by (unfold in_width; rewrite Z.shiftl_mul_pow2 by lia; lia).
  assert (Hr : in_width 16 (Z.shiftl (fpu_top c) 11)) by (unfold in_width; rewrite Z.shiftl_mul_pow2 by lia; lia).
  split; [by apply in_width_lor|]. split.
  - rewrite Z.shiftr_lor, Z.land_lor_distr_l, Z.shiftr_shiftl_l, Z.sub_diag, Z.shiftl_0_r, H7 by lia.
    change 7 with (Z.shiftr 0x3800 11) at 1. rewrite <- Z.shiftr_land, Hst. by rewrite Z.shiftr_0_l.
  - rewrite Z.land_lor_distr_l, Hsw. replace (Z.land (Z.shiftl (fpu_top c) 11) (unot 16 0x3800)) with 0; [by rewrite Z.lor_0_r|].
    assert (fpu_top c = 0 \/ fpu_top c = 1 \/ fpu_top c = 2 \/ fpu_top c = 3 \/ fpu_top c = 4 \/ fpu_top c = 5 \/ fpu_top c = 6 \/ fpu_top c = 7) as E by lia.
    destruct_or! E; rewrite E; done.
Qed.

Lemma foldl_lor_testbit {A} (g : A -> Z) (l : list A) z n :
  Z.testbit (foldl (fun a i => Z.lor a (g i)) z l) n = Z.testbit z n || existsb (fun i => Z.testbit (g i) n) l.
Proof.
  revert z. induction l as [|i l IH]; intros z; cbn [foldl existsb]; [by rewrite orb_false_r|].
  by rewrite IH, Z.lor_spec, orb_assoc.
Qed.

Lemma foldl_if_testbit {A} (P : A -> bool) (g : A -> Z) (l : list A) z n :
  Z.testbit (foldl (fun a i => if P i then Z.lor a (g i) else a) z l) n =
  Z.testbit z n || existsb (fun i => P i && Z.testbit (g i) n) l.
Proof.
  revert z. induction l as [|i l IH]; intros z; cbn [foldl existsb]; [by rewrite orb_false_r|].
  rewrite IH. destruct (P i); [|done]. by rewrite Z.lor_spec, orb_assoc.
Qed.

Lemma reg_tag_spec c i r : 0 <= reg_tag c i r < 4 /\ (reg_tag c i r =? 3) = is_empty_reg c i.
Proof. unfold reg_tag. destruct (is_empty_reg c i); [done|]. repeat (destruct (_ && _) || destruct (_ || _)); done. Qed.

(** Two bits per register. *)
Lemma tag_word_field c j : 0 <= j < 8 -> Z.land (Z.shiftr (tag_word c) (2 * j)) 3 = reg_tag c j (fpr_at c j).
Proof.
  intros Hj. destruct (reg_tag_spec c j (fpr_at c j)) as [Hr _]. change 3 with (Z.ones 2).
  apply Z.bits_inj'. intros k Hk. rewrite Z.land_spec, Z.testbit_ones_nonneg, Z.shiftr_spec by lia.
  destruct (Z.ltb_spec k 2) as [Hk2|Hk2].
  2: { rewrite andb_false_r. symmetry. apply (in_width_high 2); [unfold in_width; lia|lia|lia]. }
  rewrite andb_true_r. unfold tag_word. rewrite foldl_lor_testbit, Z.bits_0. cbn [orb].
  transitivity (existsb (fun i => (i =? j) && Z.testbit (reg_tag c j (fpr_at c j)) k) (zseq 0 8)).
  - apply existsb_pointwise. intros i. rewrite wrap_testbit by lia.
    destruct (Z.eqb_spec i j) as [->|Hne]; cbn [andb].
    + replace (k + 2 * j <? 16) with true by (symmetry; apply Z.ltb_lt; lia). rewrite Z.shiftl_spec by lia. cbn [andb]. f_equal. lia.
    + destruct (reg_tag_spec c i (fpr_at c i)) as [Hi _]. apply andb_false_iff. right. rewrite Z.shiftl_spec by lia.
      destruct (Z.lt_ge_cases (k + 2 * j) (2 * i)); [apply Z.testbit_neg_r; lia|].
      apply (in_width_high 2); [unfold in_width; lia|lia|lia].
  - destruct (Z.testbit (reg_tag c j (fpr_at c j)) k).
    + apply existsb_exists. exists j. split; [apply list_elem_of_In, zseq_elem; lia|by rewrite Z.eqb_refl].
    + apply not_true_iff_false. intros (i & _ & H)%existsb_exists. by rewrite andb_false_r in H.
Qed.

Lemma empty_tags_tag_word c : fpu_wf c -> empty_tags (tag_word c) = fpu_empty c.
Proof.
  intros Hc. pose proof (wf_empty c Hc) as He. apply Z.bits_inj'. intros n Hn. unfold empty_tags.
  rewrite foldl_if_testbit, Z.bits_0. cbn [orb]. apply eq_true_iff_eq. rewrite existsb_exists. split.
  - intros (i & Hi%list_elem_of_In%zseq_elem & H). apply andb_true_iff in H as [H1 H2].
    rewrite tag_word_field, (proj2 (reg_tag_spec c i _)) in H1 by lia.
    rewrite wrap_testbit, Z.shiftl_spec in H2 by lia. apply andb_true_iff in H2 as [_ H2].
    assert (n = i) as ->.
    { destruct (Z.lt_trichotomy n i) as [?|[?|?]]; [|done|]; [by rewrite Z.testbit_neg_r in H2 by lia|].
      rewrite (in_width_high 1) in H2; [done|by split|lia|lia]. }
    unfold is_empty_reg in H1. by rewrite shiftl_one_test in H1 by lia.
  - intros H. assert (n < 8) by (apply Z.nle_gt; intros ?; by rewrite (in_width_high 8) in H).
    exists n. split; [apply list_elem_of_In, zseq_elem; lia|]. rewrite tag_word_field, (proj2 (reg_tag_spec c n _)) by lia.
    unfold is_empty_reg. rewrite shiftl_one_test, H, wrap_testbit, Z.shiftl_spec, Z.sub_diag by lia.
    replace (n <? 8) with true by (symmetry; apply Z.ltb_lt; lia). done.
Qed.

(** ** The environment *)

Lemma slice_app b o n k : slice b o (n + k) = slice b o n ++ slice b (o + n) k.
Proof. unfold slice. by rewrite <- take_take_drop, drop_drop. Qed.

Lemma take_slice b o n k : (n <= k)%nat -> take n (slice b o k) = slice b o n.
Proof. intros. unfold slice. rewrite take_take. f_equal. lia. Qed.

Lemma slice_word k b off : length k = 2%nat -> (off + 2 <= length b)%nat -> slice (list_inserts off k b) off 2 = k.
Proof. intros <- Hl. by apply slice_inserts_same. Qed.

Definition env_fill (b : list Z) : list Z := stores (fun off => off) (fun _ => to_le_bytes 2 0xffff) b [2; 6; 10; 26]%nat.

Lemma env_fill_other b o n : (forall j, j ∈ [2; 6; 10; 26]%nat -> o + n <= j \/ j + 2 <= o)%nat ->
  slice (env_fill b) o n = slice b o n.
Proof. intros H. by apply slice_stores_other. Qed.

Lemma env_fill_tail b : length b = 28%nat -> slice (env_fill b) 26 2 = [255; 255].
Proof.
  intros Hl. apply (slice_stores_same (fun off => off) (fun _ => to_le_bytes 2 0xffff) b [2; 6; 10; 26]%nat 26%nat).
  - apply (bool_decide_unpack _). by vm_compute.
  - set_solver.
  - cbn. lia.
  - intros i Hi Hne. cbn. set_unfold. lia.
Qed.

Ltac env_slices := rewrite ?env_fill_other by (intros; set_unfold; lia);
  rewrite ?slice_inserts_other by (rewrite ?length_to_le_bytes; lia).

Lemma env28_fields c : fpu_wf c ->
  slice (env28 c) 0 2 = to_le_bytes 2 (fpu_cw c) /\ slice (env28 c) 4 2 = to_le_bytes 2 (status_word c) /\
  slice (env28 c) 8 2 = to_le_bytes 2 (tag_word c) /\ slice (env28 c) 12 16 = take 14 (fpu_env_tail c) ++ [255; 255].
Proof.
  intros Hc. destruct (wf_tail c Hc) as [Htl _]. change (env28 c) with (env_fill (list_inserts 12 (fpu_env_tail c)
    (list_inserts 8 (to_le_bytes 2 (tag_word c)) (list_inserts 4 (to_le_bytes 2 (status_word c))
       (list_inserts 0 (to_le_bytes 2 (fpu_cw c)) (replicate 28 0)))))).
  split; [|split; [|split]].
  - env_slices. apply slice_word; [done|cbn; lia].
  - env_slices. apply slice_word; [done|rewrite length_inserts; cbn; lia].
  - env_slices. apply slice_word; [done|rewrite !length_inserts; cbn; lia].
  - change 16%nat with (14 + 2)%nat. rewrite slice_app, env_fill_tail by (by rewrite !length_inserts).
    f_equal. env_slices. rewrite <- (take_slice _ 12 14 16), <- Htl by lia.
    rewrite slice_inserts_same; [done|]. rewrite !length_inserts, Htl. cbn. lia.
Qed.

(** The parts of the unit an environment holds. *)
Definition same_env (c c' : CpuState) : Prop :=
  fpu_cw c' = fpu_cw c /\ fpu_top c' = fpu_top c /\ fpu_sw c' = fpu_sw c /\ fpu_empty c' = fpu_empty c.

Lemma word_round_trip x : in_width 16 x -> from_le_bytes (to_le_bytes 2 x) = x.
Proof. intros Hx. rewrite from_to_le_bytes. by apply wrap_small. Qed.

Lemma tag_word_range c : in_width 16 (tag_word c).
Proof.
  unfold tag_word. apply (foldl_inv_in (in_width 16)); [|by split]. intros tw i _ Ht.
  apply in_width_lor; [lia|done|by apply wrap_range].
Qed.

Lemma load_env28_restores c c0 : fpu_wf c -> normalize_cw (fpu_cw c) = fpu_cw c ->
  let c' := load_env28 c0 (env28 c) in
  same_env c c' /\ fpr c' = fpr c0 /\ fpu_env_tail c' = take 14 (fpu_env_tail c) ++ [255; 255].
Proof.
  intros Hc Hn c'. destruct (env28_fields c Hc) as (E0 & E4 & E8 & E12).
  destruct (status_word_fields c Hc) as (Hr & Ht & Hs). unfold c', load_env28. rewrite E0, E4, E8, E12.
  rewrite !word_round_trip by (apply tag_word_range || done || apply Hc).
  split; [|done]. split; [exact Hn|]. split; [exact Ht|]. split; [exact Hs|]. exact (empty_tags_tag_word c Hc).
Qed.

(** ** Through memory *)

Lemma v_bytes_store g a l : v_bytes (v_store g a l) a (Z.of_nat (length l)) = l.
Proof.
  unfold v_bytes. rewrite Nat2Z.id. apply (nth_ext _ _ 0 0); [by rewrite length_fmap, length_zseq|].
  intros i Hi. rewrite length_fmap, length_zseq in Hi. cbn [v_store v_byte].
  assert (E : zseq a (length l) !! i = Some (a + Z.of_nat i)).
  { clear -Hi. revert a i Hi. induction (length l) as [|n IH]; intros a i Hi; [lia|]. destruct i as [|i]; cbn; [f_equal; lia|].
    rewrite IH by lia. f_equal. lia. }
  rewrite (nth_lookup_Some _ i 0 (nth i l 0)); [done|].
  rewrite list_lookup_fmap, E. cbn. f_equal. replace (a + Z.of_nat i - a) with (Z.of_nat i) by lia. rewrite Nat2Z.id.
  replace (a <=? a + Z.of_nat i) with true by (symmetry; apply Z.leb_le; lia).
  by replace (a + Z.of_nat i <? a + Z.of_nat (length l)) with true by (symmetry; apply Z.ltb_lt; lia).
Qed.

Lemma write_then_read g a n l : v_kind g a n = Some Ram -> Z.of_nat (length l) = n ->
  let g' := v_store g a l in g_write_ram g a l = (true, g') /\ g_read_ram g' a n = Some l.
Proof.
  intros Hk Hl g'. unfold g_write_ram, g_read_ram. rewrite Hl, Hk. split; [done|]. cbn [g' v_store v_kind]. rewrite Hk.
  f_equal. rewrite <- Hl. apply v_bytes_store.
Qed.

(** ** FXSAVE *)

(** The loops of [fx_image], as stores. *)
Definition fx_header (c : CpuState) : list Z :=
  list_inserts 28 (to_le_bytes 4 0xffff) (list_inserts 24 (to_le_bytes 4 0x1f80)
    (list_inserts 4 [unot 8 (fpu_empty c)] (list_inserts 2 (to_le_bytes 2 (status_word c))
       (list_inserts 0 (to_le_bytes 2 (fpu_cw c)) (replicate 512 0))))).
Definition st_off (j : Z) : nat := Z.to_nat (32 + j * 16).
Definition xmm_off (i : Z) : nat := Z.to_nat (160 + i * 16).
Definition st_bytes (c : CpuState) (j : Z) : list Z := fpr_at c (phys c j).
Definition xmm_bytes (c : CpuState) (i : Z) : list Z := to_le_bytes 16 (default 0 (nthZ (xmm c) i)).

Lemma fx_image_stores c :
  fx_image c = stores xmm_off (xmm_bytes c) (stores st_off (st_bytes c) (fx_header c) (zseq 0 8)) (zseq 0 16).
Proof. reflexivity. Qed.

Lemma fpr_at_len c p : fpu_wf c -> 0 <= p < 8 -> length (fpr_at c p) = 10%nat.
Proof.
  intros Hc Hp. unfold fpr_at, nthZ. replace (p <? 0) with false by (symmetry; apply Z.ltb_ge; lia).
  destruct (lookup_lt_is_Some_2 (fpr c) (Z.to_nat p)) as [b E]; [rewrite (wf_fpr_len c Hc); lia|].
  rewrite E. cbn. by apply (Forall_lookup_1 _ _ _ _ (wf_fpr c Hc) E).
Qed.

Lemma st_bytes_len c j : fpu_wf c -> 0 <= j -> length (st_bytes c j) = 10%nat.
Proof. intros Hc Hj. apply fpr_at_len; [done|]. apply land7. pose proof (wf_fpu_top c Hc). lia. Qed.

Lemma fx_header_len c : length (fx_header c) = 512%nat.
Proof. unfold fx_header. by rewrite !length_inserts. Qed.

Lemma fx_header_slice c o n : fpu_wf c -> (o + n <= 32)%nat -> slice (fx_image c) o n = slice (fx_header c) o n.
Proof.
  intros Hc Ho. rewrite fx_image_stores, !slice_stores_other; [done| |]; intros j Hj%zseq_elem; left; unfold st_off, xmm_off; lia.
Qed.

Lemma fx_header_fields c : fpu_wf c ->
  slice (fx_image c) 0 2 = to_le_bytes 2 (fpu_cw c) /\ slice (fx_image c) 2 2 = to_le_bytes 2 (status_word c) /\
  slice (fx_image c) 4 1 = [unot 8 (fpu_empty c)].
Proof.
  intros Hc. rewrite !fx_header_slice by (done || lia). unfold fx_header. split; [|split].
  - rewrite !slice_inserts_other by (cbn; lia). apply slice_word; [done|]. rewrite length_replicate. lia.
  - rewrite !slice_inserts_other by (cbn; lia). apply slice_word; [done|]. rewrite !length_inserts, length_replicate. lia.
  - rewrite !slice_inserts_other by (cbn; lia).
    apply (slice_inserts_same [unot 8 (fpu_empty c)]). rewrite !length_inserts, length_replicate. cbn. lia.
Qed.

Lemma fx_st_slice c j : fpu_wf c -> 0 <= j < 8 -> slice (fx_image c) (st_off j) 10 = st_bytes c j.
Proof.
  intros Hc Hj. pose proof (st_bytes_len c j Hc ltac:(lia)) as Hl.
  rewrite fx_image_stores, slice_stores_other by (intros i Hi%zseq_elem; left; unfold st_off, xmm_off; lia).
  rewrite <- Hl. apply slice_stores_same; [apply NoDup_zseq|apply zseq_elem; lia|rewrite fx_header_len, Hl; unfold st_off; lia|].
  intros i Hi%zseq_elem Hne. rewrite !st_bytes_len by (done || lia). unfold st_off. lia.
Qed.

Lemma fx_xmm_slice c i : 0 <= i < 16 -> slice (fx_image c) (xmm_off i) 16 = xmm_bytes c i.
Proof.
  intros Hi. rewrite fx_image_stores.
  apply (slice_stores_same xmm_off (xmm_bytes c) (stores st_off (st_bytes c) (fx_header c) (zseq 0 8)) (zseq 0 16) i);
    [apply NoDup_zseq|apply zseq_elem; lia| |].
  - rewrite length_stores, fx_header_len. unfold xmm_bytes. rewrite length_to_le_bytes. unfold xmm_off. lia.
  - intros k Hk%zseq_elem Hne. unfold xmm_bytes. rewrite !length_to_le_bytes. unfold xmm_off. lia.
Qed.

(** Loops over the register files. *)
Lemma foldl_set_xmm (F : list Z -> Z -> list Z) l c :
  foldl (fun c i => set_xmm c (F (xmm c) i)) c l = set_xmm c (foldl F (xmm c) l).
Proof. revert c. induction l as [|i l IH]; intros c; cbn [foldl]; [by destruct c|]. by rewrite IH. Qed.

Lemma foldl_set_fpr (B : Z -> list Z) l c :
  foldl (fun c j => set_fpr_at c (phys c j) (B j)) c l =
  set_fpr c (foldl (fun r j => <[Z.to_nat (Z.land (fpu_top c + j) 7) := B j]> r) (fpr c) l).
Proof.
  revert c. induction l as [|j l IH]; intros c; cbn [foldl]; [by destruct c|]. by rewrite IH.
Qed.

Lemma foldl_insert_zseq (f : Z -> Z) n l : (n <= length l)%nat ->
  foldl (fun l i => <[Z.to_nat i := f i]> l) l (zseq 0 n) = (f <$> zseq 0 n) ++ drop n l.
Proof.
  induction n as [|n IH]; intros Hl; [done|]. rewrite zseq_snoc, foldl_app, IH by lia. cbn [foldl].
  rewrite Z.add_0_l, Nat2Z.id, fmap_app, <- app_assoc.
  destruct (drop n l) as [|x r] eqn:E; [apply (f_equal length) in E; rewrite length_drop in E; cbn in E; lia|].
  assert (Hd : drop (S n) l = r) by (rewrite <- Nat.add_1_r, <- drop_drop, E; done).
  rewrite Hd. rewrite insert_app_r_alt by (rewrite length_fmap, length_zseq; lia).
  rewrite length_fmap, length_zseq, Nat.sub_diag. done.
Qed.

(** Eight stores rotated by TOP cover the whole file. *)
Lemma rotate_fill t (r r0 : list (list Z)) : length r = 8%nat -> length r0 = 8%nat -> 0 <= t < 8 ->
  foldl (fun acc j => <[Z.to_nat (Z.land (t + j) 7) := default [] (nthZ r (Z.land (t + j) 7))]> acc) r0 (zseq 0 8) = r.
Proof.
  intros Hr Hr0 Ht. do 8 (destruct r as [|? r]; [done|]). do 8 (destruct r0 as [|? r0]; [done|]).
  destruct r; [|done]. destruct r0; [|done].
  assert (t = 0 \/ t = 1 \/ t = 2 \/ t = 3 \/ t = 4 \/ t = 5 \/ t = 6 \/ t = 7) as E by lia.
  destruct_or! E; rewrite E; reflexivity.
Qed.

Lemma xmm_round_trip c : (16 <= length (xmm c))%nat -> Forall (in_width 128) (xmm c) ->
  (fun i => from_le_bytes (xmm_bytes c i)) <$> zseq 0 16 = take 16 (xmm c).
Proof.
  intros Hl Hw. apply list_eq. intros k. destruct (decide (k < 16)%nat) as [Hk|Hk].
  - assert (E : zseq 0 16 !! k = Some (Z.of_nat k)).
    { do 16 (destruct k as [|k]; [done|]). lia. }
    rewrite list_lookup_fmap, E, lookup_take_lt by done. cbn [fmap option_fmap option_map].
    destruct (lookup_lt_is_Some_2 (xmm c) k) as [v Ev]; [lia|]. rewrite Ev. f_equal.
    unfold xmm_bytes, nthZ. replace (Z.of_nat k <? 0) with false by (symmetry; apply Z.ltb_ge; lia).
    rewrite Nat2Z.id, Ev, from_to_le_bytes. cbn [default]. apply (wrap_small 128). by apply (Forall_lookup_1 _ _ _ _ Hw Ev).
  - rewrite !lookup_ge_None_2; [done|rewrite length_take; lia|]. rewrite length_fmap, length_zseq. lia.
Qed.

Definition fx_env (c0 : CpuState) (b : list Z) : CpuState :=
  set_fpu_empty (set_fpu_sw (set_fpu_top (set_fpu_cw c0 (normalize_cw (from_le_bytes (slice b 0 2))))
    (Z.land (Z.shiftr (from_le_bytes (slice b 2 2)) 11) 7)) (Z.land (from_le_bytes (slice b 2 2)) (unot 16 0x3800)))
    (unot 8 (from_le_bytes (slice b 4 1))).

Lemma fx_load_eq c0 b : fx_load c0 b =
  let c1 := fx_env c0 b in
  set_xmm (set_fpr c1 (foldl (fun r j => <[Z.to_nat (Z.land (fpu_top c1 + j) 7) := slice b (st_off j) 10]> r) (fpr c0) (zseq 0 8)))
    (foldl (fun l i => <[Z.to_nat i := from_le_bytes (slice b (xmm_off i) 16)]> l) (xmm c0) (zseq 0 16)).
Proof.
  change (fx_load c0 b) with
    (foldl (fun c i => set_xmm c (<[Z.to_nat i := from_le_bytes (slice b (xmm_off i) 16)]> (xmm c)))
       (foldl (fun c j => set_fpr_at c (phys c j) (slice b (st_off j) 10)) (fx_env c0 b) (zseq 0 8)) (zseq 0 16)).
  rewrite (foldl_set_fpr (fun j => slice b (st_off j) 10) (zseq 0 8) (fx_env c0 b)).
  rewrite (foldl_set_xmm (fun l i => <[Z.to_nat i := from_le_bytes (slice b (xmm_off i) 16)]> l)). reflexivity.
Qed.

Lemma unot_unot8 x : in_width 8 x -> unot 8 (from_le_bytes [unot 8 x]) = x.
Proof.
  intros Hx. cbn [from_le_bytes]. rewrite Z.shiftl_0_l, Z.lor_0_r. unfold unot. apply Z.bits_inj'. intros i Hi.
  rewrite wrap_testbit, Z.lnot_spec, wrap_testbit, Z.lnot_spec by lia.
  destruct (Z.ltb_spec i 8); cbn [andb negb]; [by rewrite negb_involutive|]. symmetry. by apply (in_width_high 8).
Qed.

Lemma same_env_data c c1 r x : same_env c c1 -> same_env c (set_xmm (set_fpr c1 r) x).
Proof. done. Qed.

Lemma fx_load_restores c c0 : fpu_wf c -> fpu_wf c0 -> normalize_cw (fpu_cw c) = fpu_cw c ->
  (16 <= length (xmm c))%nat -> Forall (in_width 128) (xmm c) -> (16 <= length (xmm c0))%nat ->
  let c' := fx_load c0 (fx_image c) in
  same_env c c' /\ fpr c' = fpr c /\ xmm c' = take 16 (xmm c) ++ drop 16 (xmm c0).
Proof.
  intros Hc Hc0 Hn Hl Hw Hl0. rewrite fx_load_eq. destruct (fx_header_fields c Hc) as (E0 & E2 & E4).
  destruct (status_word_fields c Hc) as (Hr & Ht & Hs).
  assert (Henv : same_env c (fx_env c0 (fx_image c))).
  { unfold fx_env. rewrite E0, E2, E4, !word_round_trip by (done || apply Hc).
    split; [exact Hn|]. split; [exact Ht|]. split; [exact Hs|]. apply unot_unot8, Hc. }
  cbv zeta. split; [by apply same_env_data|]. split; cbn [set_xmm set_fpr fpr xmm].
  - destruct Henv as (_ & -> & _).
    rewrite (foldl_ext_in _ (fun acc j => <[Z.to_nat (Z.land (fpu_top c + j) 7) := default [] (nthZ (fpr c) (Z.land (fpu_top c + j) 7))]> acc)).
    + apply rotate_fill; [apply Hc|apply Hc0|apply Hc].
    + intros r j Hj%zseq_elem. by rewrite fx_st_slice by (done || lia).
  - rewrite (foldl_ext_in _ (fun l i => <[Z.to_nat i := from_le_bytes (xmm_bytes c i)]> l)).
    + rewrite (foldl_insert_zseq (fun i => from_le_bytes (xmm_bytes c i))) by done. by rewrite xmm_round_trip.
    + intros l i Hi%zseq_elem. by rewrite fx_xmm_slice by lia.
Qed.

Section Images.
Context `{Libm}.

(** FNSTENV to RAM followed by FLDENV of the same bytes, in any state in between,
    restores the control word, TOP, the condition codes and exception flags, and every
    tag; the data registers are not touched.  FNSTENV itself masks all exceptions. *)
Theorem x87_environment_round_trip c c0 g addr sti : fpu_wf c -> normalize_cw (fpu_cw c) = fpu_cw c ->
  v_kind g addr 28 = Some Ram ->
  exists c1 g1 c2, exec_x87 c g Fnstenv addr sti = Some (None, c1, g1) /\ fpu_cw c1 = Z.lor (fpu_cw c) 0x3f /\
    exec_x87 c0 g1 Fldenv addr sti = Some (None, c2, g1) /\ same_env c c2 /\ fpr c2 = fpr c0.
Proof.
  intros Hc Hn Hk. destruct (env28_wf c Hc) as [Hl _].
  destruct (write_then_read g addr 28 (env28 c) Hk ltac:(by rewrite Hl)) as [Hw Hr].
  destruct (load_env28_restores c c0 Hc Hn) as (He & Hf & _).
  exists (set_fpu_cw c (Z.lor (fpu_cw c) 0x3f)), (v_store g addr (env28 c)), (load_env28 c0 (env28 c)).
  split; [|split; [done|]].
  - unfold exec_x87, exec_x87_op, write_bytes_at, mbind, x_bind, x_cpu, option_bind. cbn [fp_store view_fp]. by rewrite Hw.
  - split; [|by split]. unfold exec_x87, exec_x87_op, read_n, mbind, x_bind, x_cpu, option_bind. cbn [fp_load view_fp].
    by rewrite Hr.
Qed.

(** C32: FXSAVE to RAM followed by FXRSTOR of the same area, in any state in between,
    restores the eight registers in their physical places whatever TOP was, the control
    word, TOP, status, tags, and XMM0-15.  The control word is one the code's writers leave
    (one that [normalize_cw] keeps). *)
Theorem fxsave_fxrstor_round_trip c c0 g addr : fpu_wf c -> fpu_wf c0 -> normalize_cw (fpu_cw c) = fpu_cw c ->
  (16 <= length (xmm c))%nat -> Forall (in_width 128) (xmm c) -> (16 <= length (xmm c0))%nat ->
  v_kind g addr 512 = Some Ram ->
  exists g1 c2, exec_fxstate c g addr false = Some (None, c, g1) /\ exec_fxstate c0 g1 addr true = Some (None, c2, g1) /\
    same_env c c2 /\ fpr c2 = fpr c /\ xmm c2 = take 16 (xmm c) ++ drop 16 (xmm c0).
Proof.
  intros Hc Hc0 Hn Hl Hw Hl0 Hk. destruct (fx_image_wf c Hc) as [Hlen _].
  destruct (write_then_read g addr 512 (fx_image c) Hk ltac:(by rewrite Hlen)) as [Hwr Hrd].
  exists (v_store g addr (fx_image c)), (fx_load c0 (fx_image c)). split; [|split].
  - unfold exec_fxstate, exec_fxstate_op, write_bytes_at, mbind, x_bind, x_cpu, option_bind. cbn [fp_store view_fp]. by rewrite Hwr.
  - unfold exec_fxstate, exec_fxstate_op, read_n, mbind, x_bind, option_bind. cbn [fp_load view_fp]. by rewrite Hrd.
  - by apply fx_load_restores.
Qed.

Lemma mark_full_empty e p : 0 <= p < 8 -> in_width 8 e -> Z.testbit e p = true ->
  Z.lor (Z.land e (unot 8 (Z.shiftl 1 p))) (Z.shiftl 1 p) = e.
Proof.
  intros Hp He Hb. apply Z.bits_inj'. intros i Hi. unfold unot.
  rewrite Z.lor_spec, Z.land_spec, wrap_testbit, Z.lnot_spec, Z.shiftl_1_l, Z.pow2_bits_eqb by lia.
  destruct (Z.eqb_spec p i) as [->|]; cbn [negb]; [by rewrite Hb, orb_true_r|]. rewrite orb_false_r, andb_true_r.
  destruct (Z.ltb_spec i 8); [apply andb_true_r|]. rewrite andb_false_r. symmetry. by apply (in_width_high 8).
Qed.

Lemma top_round_trip t : 0 <= t < 8 -> Z.land (Z.land (wrapping_sub 32 t 1) 7 + 1) 7 = t.
Proof.
  intros Ht. assert (t = 0 \/ t = 1 \/ t = 2 \/ t = 3 \/ t = 4 \/ t = 5 \/ t = 6 \/ t = 7) as E by lia.
  destruct_or! E; rewrite E; done.
Qed.

(** FLD of ten bytes followed by FSTP moves them verbatim, whatever they encode
    (unnormals, pseudo-denormals and signalling NaNs included), and leaves TOP and the
    tags as they were. *)
Theorem fld_fstp_verbatim c g a b sti l : fpu_wf c ->
  is_empty_reg c (Z.land (wrapping_sub 32 (fpu_top c) 1) 7) = true ->
  g_read_ram g a 10 = Some l -> v_kind g b 10 = Some Ram ->
  exists c1 c2, exec_x87 c g FldF80 a sti = Some (None, c1, g) /\
    exec_x87 c1 g FstpF80 b sti = Some (None, c2, v_store g b l) /\
    fpu_top c2 = fpu_top c /\ fpu_empty c2 = fpu_empty c.
Proof.
  intros Hc He Hr Hk. pose proof (wf_fpu_top c Hc) as Ht. destruct (below_top _ Ht) as [_ Hd].
  set (dst := Z.land (wrapping_sub 32 (fpu_top c) 1) 7) in *.
  assert (Hl : Z.of_nat (length l) = 10).
  { unfold g_read_ram in Hr. destruct (v_kind g a 10) as [[]|]; injection Hr as <- || done;
      unfold v_bytes; rewrite length_fmap, length_zseq; done. }
  set (c1 := push_raw c l).
  assert (Hpush : fpu_top c1 = dst /\ is_empty_reg c1 dst = false /\ fpr_at c1 dst = l /\
                  fpu_empty c1 = Z.land (fpu_empty c) (unot 8 (Z.shiftl 1 dst))).
  { unfold c1, push_raw. fold dst. rewrite He. cbn [negb]. cbn [mark_full set_fpr_at set_fpu_empty set_fpr set_fpu_top set_fpu_sw fpu_top fpu_empty].
    split; [done|]. split; [|split; [|done]].
    - unfold is_empty_reg. match goal with |- test ?e _ = false => change e with (Z.land (fpu_empty c) (unot 8 (Z.shiftl 1 dst))) end.
      rewrite shiftl_one_test, Z.land_spec by lia. unfold unot.
      rewrite wrap_testbit, Z.lnot_spec, Z.shiftl_1_l, Z.pow2_bits_true by lia. cbn [negb]. by rewrite !andb_false_r.
    - unfold fpr_at, nthZ. match goal with |- default [] (if _ then _ else fpr ?e !! _) = _ => change (fpr e) with (<[Z.to_nat dst := l]> (fpr c)) end.
      replace (dst <? 0) with false by (symmetry; apply Z.ltb_ge; lia).
      rewrite list_lookup_insert_eq; [done|]. rewrite (wf_fpr_len c Hc). lia. }
  destruct Hpush as (Ht1 & He1 & Hf1 & Hem1).
  exists c1, (set_fpu_top (mark_empty c1 (fpu_top c1)) (Z.land (fpu_top c1 + 1) 7)). split; [|split; [|split]].
  - unfold exec_x87, exec_x87_op, read_n, mbind, x_bind, x_cpu, option_bind. cbn [fp_load view_fp]. by rewrite Hr.
  - unfold exec_x87, exec_x87_op, store_f80, write_bytes_at, x_pop, pop, mbind, x_bind, x_cpu, option_bind. rewrite Ht1.
    replace (8 <=? dst) with false by (symmetry; apply Z.leb_gt; lia). rewrite He1. cbn [mret x_ret].
    unfold mret, x_ret. rewrite Hf1. cbn [fp_store view_fp]. unfold g_write_ram. rewrite Hl, Hk. cbv iota beta.
    rewrite Ht1. by replace (dst <? 8) with true by (symmetry; apply Z.ltb_lt; lia).
  - cbn [set_fpu_top fpu_top]. rewrite Ht1. by apply top_round_trip.
  - cbn [set_fpu_top mark_empty set_fpu_empty fpu_empty]. rewrite Hem1, Ht1. apply mark_full_empty; [done|apply Hc|].
    unfold is_empty_reg in He. by rewrite shiftl_one_test in He by lia.
Qed.

End Images.

(** Witnesses: a page of RAM, and the reset unit. *)

Definition ram_view : View := mkView (fun _ _ => Some Ram) (fun a => wrap 8 a).

Lemma x87_environment_round_trip_witness :
  exists c1 g1 c2, @exec_x87 _ _ no_libm one_over_zero ram_view Fnstenv 64 0 = Some (None, c1, g1) /\
    fpu_cw c1 = 0x037F /\ @exec_x87 _ _ no_libm default_cpu g1 Fldenv 64 0 = Some (None, c2, g1) /\
    fpu_top c2 = 6 /\ fpu_empty c2 = 0x3F.
Proof.
  assert (Hw : fpu_wf one_over_zero) by (unfold one_over_zero; do 2 apply push_wf; apply fpu_wf_cw; [apply default_fpu_wf|done]).
  destruct (@x87_environment_round_trip no_libm one_over_zero default_cpu ram_view 64 0 Hw eq_refl eq_refl)
    as (c1 & g1 & c2 & E1 & E2 & E3 & (_ & E4 & _ & E5) & _).
  exists c1, g1, c2. rewrite E2, E4, E5. by repeat split.
Defined.

Lemma fxsave_fxrstor_round_trip_witness :
  exists g1 c2, exec_fxstate one_over_zero ram_view 64 false = Some (None, one_over_zero, g1) /\
    exec_fxstate default_cpu g1 64 true = Some (None, c2, g1) /\ fpr c2 = fpr one_over_zero.
Proof.
  assert (Hw : fpu_wf one_over_zero) by (unfold one_over_zero; do 2 apply push_wf; apply fpu_wf_cw; [apply default_fpu_wf|done]).
  destruct (fxsave_fxrstor_round_trip one_over_zero default_cpu ram_view 64 Hw default_fpu_wf eq_refl)
    as (g1 & c2 & E1 & E2 & _ & E3 & _).
  - apply Nat.leb_le. reflexivity.
  - apply (Forall_replicate (in_width 128) 32%nat 0). by split.
  - apply Nat.leb_le. reflexivity.
  - done.
  - by exists g1, c2.
Defined.

Lemma fld_fstp_verbatim_witness :
  exists c1 c2, @exec_x87 _ _ no_libm default_cpu ram_view FldF80 1 0 = Some (None, c1, ram_view) /\
    @exec_x87 _ _ no_libm c1 ram_view FstpF80 32 0 = Some (None, c2, v_store ram_view 32 [1; 2; 3; 4; 5; 6; 7; 8; 9; 10]) /\
    fpu_top c2 = 0.
Proof.
  destruct (@fld_fstp_verbatim no_libm default_cpu ram_view 1 32 0 [1; 2; 3; 4; 5; 6; 7; 8; 9; 10] default_fpu_wf eq_refl eq_refl eq_refl)
    as (c1 & c2 & E1 & E2 & E3 & _).
  by exists c1, c2.
Defined.
