(* ===== verification/X87Arm.v ===== *)
(** * The x87 arms of the two backends (interp/control.rs, x86jit-cranelift/src/lib.rs)

    The interpreter's arm and the compiled code's helper run the same operation; the
    helper reports its stores afterwards, from a table of widths kept beside the
    operations.  The table is exact, the two backends agree, and a pending unmasked
    exception is delivered by both before the next waiting operation. *)

From S2P Require Import Prelude Features State Ir Alu Memory Interp IntegerSpec StringOps HostFloat F80 F80Trans X87 X87Spec X87Exc.

(** ** What an operation writes *)

Section Footprint.
Context {T : Type} `{FpMem T} `{Libm}.

Definition keeps {A} (x : X T A) : Prop := forall c m r c' m', x c m = Some (r, c', m') -> m' = m.

(** Touches no memory at all. *)
Definition internal {A} (x : X T A) : Prop := forall c m r c' m', x c m = Some (r, c', m') -> m' = m /\ x_fault r = None.

(** At most one store, of [n] bytes at [addr]; no fault after it. *)
Definition one_store {A} (addr n : Z) (m : T) (r : xres A) (m' : T) : Prop :=
  m' = m \/ exists l b, Z.of_nat (length l) = n /\ fp_store m addr l = Some (b, m') /\ (b = true -> x_fault r = None).
Definition stores_at {A} (addr n : Z) (x : X T A) : Prop := forall c m r c' m', x c m = Some (r, c', m') -> one_store addr n m r m'.

Lemma internal_upd f : internal (x_upd f).
Proof. by intros c m r c' m' [= <- <- <-]. Qed.
Lemma internal_ret {A} (a : A) : internal (mret a).
Proof. by intros c m r c' m' [= <- <- <-]. Qed.
Lemma internal_pop : internal x_pop.
Proof. intros c m r c' m'. unfold x_pop. destruct (pop c) as [[v c1]|]; [|done]. by intros [= <- <- <-]. Qed.

Lemma keeps_bind {A B} (x : X T A) (k : A -> X T B) : keeps x -> (forall a, keeps (k a)) -> keeps (x ≫= k).
Proof.
  intros Hx Hk c m r c' m'. unfold mbind, x_bind. destruct (x c m) as [[[[a|a w|] c1] m1]|] eqn:E; [| | |done];
    apply Hx in E as ->; [apply Hk|by intros [= <- <- <-]..].
Qed.

Lemma stores_bind_l {A B} addr n (x : X T A) (k : A -> X T B) :
  keeps x -> (forall a, stores_at addr n (k a)) -> stores_at addr n (x ≫= k).
Proof.
  intros Hx Hk c m r c' m'. unfold mbind, x_bind. destruct (x c m) as [[[[a|a w|] c1] m1]|] eqn:E; [| | |done];
    apply Hx in E as ->; [apply Hk|intros [= <- <- <-]; by left..].
Qed.

Lemma stores_bind_r {A B} addr n (x : X T A) (k : A -> X T B) :
  stores_at addr n x -> (forall a, internal (k a)) -> stores_at addr n (x ≫= k).
Proof.
  intros Hx Hk c m r c' m'. unfold mbind, x_bind. destruct (x c m) as [[[[a|a w|] c1] m1]|] eqn:E; [| | |done];
    apply Hx in E.
  - intros E2. destruct (Hk _ _ _ _ _ _ E2) as [-> Hf]. destruct E as [->|(l & b & Hl & Hs & _)]; [by left|right; eauto].
  - intros [= <- <- <-]. destruct E as [->|(l & b & Hl & Hs & Hb)]; [by left|right; eauto].
  - intros [= <- <- <-]. destruct E as [->|(l & b & Hl & Hs & _)]; [by left|right; eauto].
Qed.

Lemma stores_write addr l : stores_at addr (Z.of_nat (length l)) (write_bytes_at addr l).
Proof.
  intros c m r c' m'. unfold write_bytes_at. destruct (fp_store m addr l) as [[[] m1]|] eqn:E; [| |done];
    intros [= <- <- <-]; right; do 2 eexists; split_and!; done.
Qed.

Lemma keeps_reads {A} (x : X T A) : reads x -> keeps x.
Proof. intros Hx c m r c' m' E. by destruct (Hx _ _ _ _ _ E). Qed.
Lemma keeps_upd f : keeps (x_upd f).
Proof. by intros c m r c' m' [= <- <- <-]. Qed.
Lemma keeps_pop : keeps x_pop.
Proof. intros c m r c' m'. unfold x_pop. destruct (pop c) as [[v c1]|]; [|done]. by intros [= <- <- <-]. Qed.
Lemma keeps_try f : keeps (x_try f).
Proof. intros c m r c' m'. unfold x_try. destruct (f c); [|done]. by intros [= <- <- <-]. Qed.

#[local] Ltac keeps_tac :=
  repeat first
    [ apply keeps_upd | apply keeps_pop | apply keeps_try
    | apply keeps_reads; first [apply reads_operand | apply reads_raise | apply reads_cpu | apply reads_read
                               | apply reads_read_u | apply reads_read_i | apply reads_ret]
    | done
    | apply keeps_bind; [|intros ?]
    | match goal with |- keeps (match ?b with _ => _ end) => destruct b end ].

Lemma store_st0_stores conv addr pops n : (forall c v, Z.of_nat (length (conv c v)) = n) ->
  stores_at addr n (store_st0 conv addr pops).
Proof.
  intros Hn. unfold store_st0. apply stores_bind_l; [keeps_tac|]. intros v. apply stores_bind_l; [keeps_tac|]. intros c.
  apply stores_bind_r; [rewrite <- (Hn c v); apply stores_write|]. intros _. destruct pops; [apply internal_pop|apply internal_ret].
Qed.

Lemma store_f80_stores addr c m r c' m' : fpu_wf c -> store_f80 addr c m = Some (r, c', m') -> one_store addr 10 m r m'.
Proof.
  intros Hc. unfold store_f80. pose proof (wf_fpu_top c Hc) as Ht.
  assert (Hl : length (fpr_at c (fpu_top c)) = 10%nat).
  { unfold fpr_at, nthZ. replace (fpu_top c <? 0) with false by (symmetry; apply Z.ltb_ge; lia).
    destruct (lookup_lt_is_Some_2 (fpr c) (Z.to_nat (fpu_top c))) as [b E]; [rewrite (wf_fpr_len c Hc); lia|].
    rewrite E. cbn. by apply (Forall_lookup_1 _ _ _ _ (wf_fpr c Hc) E). }
  assert (Hs : forall l, Z.of_nat (length l) = 10 -> stores_at addr 10 (write_bytes_at addr l;; x_pop)).
  { intros l <-. apply stores_bind_r; [apply stores_write|]. intros _. apply internal_pop. }
  unfold mbind at 1, x_bind at 1, x_cpu.
  replace (8 <=? fpu_top c) with false by (symmetry; apply Z.leb_gt; lia).
  destruct (is_empty_reg c (fpu_top c)).
  - unfold mbind at 1, x_bind at 1. unfold mbind at 1, x_bind at 1, x_upd. unfold mbind at 1, x_bind at 1, x_raise.
    destruct (raise _ _) as [[] c2]; [intros [= <- <- <-]; by left|].
    apply (Hs (to_bytes indefinite)). by rewrite (proj1 (to_bytes_wf indefinite)).
  - apply (Hs (fpr_at c (fpu_top c))). by rewrite Hl.
Qed.

(** The bytes [exec_x87] may change are those [mem_write_bytes] tells. *)
Lemma exec_x87_footprint c m kind addr sti r c1 m1 : fpu_wf c -> exec_x87_op kind addr sti c m = Some (r, c1, m1) ->
  match mem_write_bytes kind with Some n => one_store addr n m r m1 | None => m1 = m end.
Proof.
  intros Hc E. unfold exec_x87_op in E. unfold mbind at 1, x_bind at 1, x_cpu at 1 in E.
  destruct kind; cbn [mem_write_bytes];
    try (revert E; apply store_st0_stores; intros; unfold f64_bytes, f32_bytes, int_bytes; by rewrite length_to_le_bytes);
    try (by apply store_f80_stores in E);
    try (match type of E with ?x c m = _ =>
           assert (K : keeps x) by (unfold arith_mem, arith_reg, compare_sti, compare_int, unary, reduced, binary_pop; keeps_tac);
           exact (K _ _ _ _ _ E) end);
    revert E.
  - apply (stores_bind_l addr 2); [keeps_tac|]. intros c2. apply (stores_write addr (to_le_bytes 2 (fpu_cw c2))).
  - apply (stores_bind_l addr 2); [keeps_tac|]. intros c2. apply (stores_write addr (to_le_bytes 2 (status_word c2))).
  - apply (stores_bind_l addr 28); [keeps_tac|]. intros c2. apply stores_bind_r; [|intros; apply internal_upd].
    pose proof (stores_write addr (env28 c2)) as Hw. assert (Hl : length (env28 c2) = 28%nat) by (unfold env28; cbn [foldl]; by rewrite !length_inserts).
    by rewrite Hl in Hw.
Qed.

End Footprint.

(** ** The interpreter's arms *)

Definition fault_exit (f : Z * bool) : Exit := UnmappedMemory f.1 (if f.2 then Write else Read).

(** A unit operation on the shared memory; a fault leaves with RIP on the instruction. *)
Definition run_fp (cur_addr : Z) (run : CpuState -> Memory -> option (option (Z * bool) * CpuState * Memory)) : Arm :=
  fun s =>
    match run (m_cpu s) (m_mem s) with
    | Some (Some f, c, m) => Some (Some (SExit (fault_exit f)), mkMach (set_rip c cur_addr) m (m_temps s))
    | Some (None, c, m) => Some (None, mkMach c m (m_temps s))
    | None => None
    end.

Definition exec_x87_arm `{Libm} (cur_addr : Z) (kind : FpuKind) (addr : Val) (sti : Z) : Arm :=
  a ← read_val addr;
  cpu ← get_cpu;
  if mf_pending_before cpu kind then
    upd_cpu (fun c => set_rip c cur_addr);;
    leave (SExit (EException cur_addr 16))
  else run_fp cur_addr (fun c m => exec_x87 c m kind a sti).

Definition exec_fx_state (cur_addr : Z) (addr : Val) (restore : bool) : Arm :=
  a ← read_val addr;
  run_fp cur_addr (fun c m => exec_fxstate c m a restore).

(** ** The compiled code's helpers *)

Definition RET_CONTINUE : Z := 0.
Definition RET_UNMAPPED : Z := 3.
Definition RET_EXCEPTION : Z := 6.

(** What the helpers use of [MemCtx]: the window, the out-fields, and the writes they
    reported to [Memory::note_write]. *)
Record FpCtx : Type := mkFpCtx {
  fc_raw : RawFpMem;
  fc_fault_addr : Z;
  fc_fault_access : Z;
  fc_exception_vector : Z;
  fc_noted : list (Z * Z);
}.

Definition x87_helper `{Libm} (c : CpuState) (ctx : FpCtx) (kind : FpuKind) (addr sti cur_addr : Z)
    : option (Z * CpuState * FpCtx) :=
  if mf_pending_before c kind then
    Some (RET_EXCEPTION, set_rip c cur_addr,
          mkFpCtx (fc_raw ctx) (fc_fault_addr ctx) (fc_fault_access ctx) 16 (fc_noted ctx))
  else
    '(f, c, raw) ← exec_x87 c (fc_raw ctx) kind addr (wrap 8 sti);
    Some match f with
    | None =>
        let noted := match mem_write_bytes kind with Some n => [(addr, n)] | None => [] end in
        (RET_CONTINUE, c,
         mkFpCtx raw (fc_fault_addr ctx) (fc_fault_access ctx) (fc_exception_vector ctx) (fc_noted ctx ++ noted))
    | Some (fault, write) =>
        (RET_UNMAPPED, set_rip c cur_addr,
         mkFpCtx raw fault (b2z write) (fc_exception_vector ctx) (fc_noted ctx))
    end.

Definition fxstate_helper (c : CpuState) (ctx : FpCtx) (addr restore cur_addr : Z) : option (Z * CpuState * FpCtx) :=
  '(f, c, raw) ← exec_fxstate c (fc_raw ctx) addr (negb (restore =? 0));
  Some match f with
  | None =>
      let noted := if restore =? 0 then [(addr, 512)] else [] in
      (RET_CONTINUE, c,
       mkFpCtx raw (fc_fault_addr ctx) (fc_fault_access ctx) (fc_exception_vector ctx) (fc_noted ctx ++ noted))
  | Some (fault, write) =>
      (RET_UNMAPPED, set_rip c cur_addr,
       mkFpCtx raw fault (b2z write) (fc_exception_vector ctx) (fc_noted ctx))
  end.

(** The exit a helper's return code stands for. *)
Definition helper_exit (ret : Z) (c : CpuState) (ctx : FpCtx) : option StepResult :=
  if ret =? RET_CONTINUE then None
  else if ret =? RET_UNMAPPED then
    Some (SExit (UnmappedMemory (fc_fault_addr ctx) (if fc_fault_access ctx =? 0 then Read else Write)))
  else Some (SExit (EException (rip c) (fc_exception_vector ctx))).

(** ** Agreement *)

(** A store through the view changes only its own bytes. *)
Lemma one_store_view {A} addr n g (r : xres A) g' a : one_store addr n g r g' -> v_byte g' a <> v_byte g a ->
  x_fault r = None /\ addr <= a < addr + n.
Proof.
  intros [->|(l & b & Hl & Hs & Hb)] Hne; [done|]. cbn in Hs. unfold g_write_ram in Hs.
  destruct (v_kind g addr _) as [[]|]; injection Hs as <- <-; try done.
  split; [by apply Hb|]. cbn [v_store v_byte] in Hne. rewrite Hl in Hne.
  destruct (Z.leb_spec addr a), (Z.ltb_spec a (addr + n)); (lia || done).
Qed.

Lemma b2z_access (w : bool) : (if b2z w =? 0 then Read else Write) = if w then Write else Read.
Proof. by destruct w. Qed.

Section Agreement.
Context `{Libm}.

(** C29: The interpreter's x87 arm and the compiled code's helper agree: from the same
    registers and two memories that show the same view, the same mapping and the same bytes, they leave with the same exit
    (completion, unmapped access or the deferred #MF), the same registers and the same
    bytes; and every byte of guest memory that changed is inside the range the helper
    reported for invalidation. *)
Theorem x87_backends_agree s ctx g kind addr sti cur_addr : fpu_wf (m_cpu s) ->
  fp_shows (m_mem s) g -> fp_shows (fc_raw ctx) g -> in_width 8 sti ->
  exists out s' ret c' ctx' g',
    exec_x87_arm cur_addr kind (Imm addr) sti s = Some (out, s') /\
    x87_helper (m_cpu s) ctx kind addr sti cur_addr = Some (ret, c', ctx') /\
    c' = m_cpu s' /\ helper_exit ret c' ctx' = out /\
    fp_shows (m_mem s') g' /\ fp_shows (fc_raw ctx') g' /\
    forall a, v_byte g' a <> v_byte g a -> exists p n, fc_noted ctx' = fc_noted ctx ++ [(p, n)] /\ p <= a < p + n.
Proof.
  intros Hc Hm Hr Hsti. unfold exec_x87_arm, x87_helper, mbind at 1, M_bind at 1, read_val. unfold mbind at 1, M_bind at 1, get_cpu.
  destruct (mf_pending_before (m_cpu s) kind) eqn:Hp.
  { exists (Some (SExit (EException cur_addr 16))). do 5 eexists. split; [reflexivity|]. split; [reflexivity|].
    split; [done|]. split; [done|]. split; [exact Hm|]. split; [exact Hr|]. done. }
  rewrite (wrap_small 8) by done. unfold run_fp, exec_x87.
  destruct (exec_x87_op_ok kind addr sti (m_cpu s) (m_mem s) g Hc Hm) as (r & c1 & m1 & g1 & E1 & Eg & _ & Hm1 & _).
  destruct (exec_x87_op_ok kind addr sti (m_cpu s) (fc_raw ctx) g Hc Hr) as (r2 & c2 & m2 & g2 & E2 & Eg2 & _ & Hm2 & _).
  rewrite Eg in Eg2. injection Eg2 as <- <- <-. rewrite E1, E2. cbn [mbind option_bind].
  pose proof (exec_x87_footprint (m_cpu s) g kind addr sti r c1 g1 Hc Eg) as Hfoot.
  assert (Hbyte : forall a, v_byte g1 a <> v_byte g a -> x_fault r = None /\ exists n, mem_write_bytes kind = Some n /\ addr <= a < addr + n).
  { intros a Ha. destruct (mem_write_bytes kind) as [n|]; [|by subst g1].
    destruct (one_store_view addr n g r g1 a Hfoot Ha). eauto. }
  destruct (x_fault r) as [[fa fw]|] eqn:Ef.
  - do 6 eexists. split; [reflexivity|]. split; [reflexivity|]. split; [done|].
    split; [unfold helper_exit; cbn [fc_fault_addr fc_fault_access]; rewrite b2z_access; reflexivity|].
    split; [exact Hm1|]. split; [exact Hm2|]. intros a Ha. by destruct (Hbyte a Ha).
  - do 6 eexists. split; [reflexivity|]. split; [reflexivity|]. split; [done|]. split; [done|].
    split; [exact Hm1|]. split; [exact Hm2|]. intros a Ha. destruct (Hbyte a Ha) as (_ & n & -> & Hn). eauto.
Qed.

End Agreement.

(** Both memories over one flat RAM region. *)
Definition ex_raw_fp : RawFpMem := mkRawFp ∅ 16384 0.

Lemma ex_raw_fp_shows : fp_shows ex_raw_fp (view ex_flat).
Proof.
  split; [split; [done|unfold in_width; cbn; lia|apply bytes_wf_empty]|]. split; [|done].
  intros a n. rewrite (one_region_kind ex_flat (mkMemRegion 0 16384 RW Ram) a n eq_refl). unfold contains.
  change (region_end _) with 16384. cbn [rf_view v_kind ex_raw_fp rf_guest_base rf_size start kind]. repeat zcase; (done || lia).
Qed.

Lemma one_over_zero_wf : fpu_wf one_over_zero.
Proof. unfold one_over_zero. do 2 apply push_wf. apply fpu_wf_cw; [apply default_fpu_wf|split; done]. Qed.

Definition ex_fp : mach := mkMach one_over_zero ex_flat [].
Definition ex_fp_ctx : FpCtx := mkFpCtx ex_raw_fp 0 0 0 [].

Lemma x87_backends_agree_witness : exists out s' ret c' ctx' g',
  @exec_x87_arm no_libm 0x1000 FstpF64 (Imm 64) 0 ex_fp = Some (out, s') /\
  @x87_helper no_libm (m_cpu ex_fp) ex_fp_ctx FstpF64 64 0 0x1000 = Some (ret, c', ctx') /\
  c' = m_cpu s' /\ helper_exit ret c' ctx' = out /\ fp_shows (m_mem s') g' /\ fp_shows (fc_raw ctx') g'.
Proof.
  destruct (@x87_backends_agree no_libm ex_fp ex_fp_ctx (view ex_flat)
    FstpF64 64 0 0x1000 one_over_zero_wf (shows_same _ ex_flat_wf) ex_raw_fp_shows ltac:(split; done))
    as (out & s' & ret & c' & ctx' & g' & H1 & H2 & H3 & H4 & H5 & H6 & _).
  exists out, s', ret, c', ctx', g'. exact (conj H1 (conj H2 (conj H3 (conj H4 (conj H5 H6))))).
Defined.

(** ** Spurious denormals and wrapped integer stores *)

Lemma raise_records c e i : 0 <= i < 7 -> Z.testbit e i = true -> Z.testbit (fpu_sw (raise c e).2) i = true.
Proof.
  intros Hi He. unfold raise, exc_is_empty. destruct (Z.eqb_spec e 0) as [->|_]; [by rewrite Z.bits_0 in He|].
  assert (H7 : Z.testbit 0x7f i = true) by (change 0x7f with (Z.ones 7); rewrite Z.testbit_ones_nonneg by lia; apply Z.ltb_lt; lia).
  destruct (negb _); cbn [snd set_fpu_sw fpu_sw]; rewrite ?Z.lor_spec, Z.land_spec, He, H7; by rewrite ?orb_true_r.
Qed.

Lemma small_int_looks_denormal b : length b = 4%nat -> 0 < from_le_bytes b < 2 ^ 23 ->
  float_bytes_denormal b 4 = true.
Proof.
  intros Hl Hv. unfold float_bytes_denormal, slice. rewrite drop_0, (take_ge b 4) by lia.
  set (v := from_le_bytes b) in *. apply andb_true_iff. split.
  - apply Z.eqb_eq. apply Z.bits_inj'. intros i Hi. rewrite Z.land_spec, Z.bits_0.
    destruct (Z.lt_ge_cases i 23); [|by rewrite (in_width_high 23 v) by (unfold in_width; lia)].
    change 0x7f800000 with (Z.shiftl 255 23). rewrite Z.shiftl_spec, (Z.testbit_neg_r 255) by lia. apply andb_false_r.
  - apply negb_true_iff, Z.eqb_neq. change 0x7fffff with (Z.ones 23). rewrite Z.land_ones, Z.mod_small by lia. lia.
Qed.

(** An integer-memory operand can raise the denormal exception: FIADD of a 32-bit
    integer between 1 and 2^23 - 1 tests its bytes as if they were a float and records
    DE, although integers cannot be denormal. *)
Theorem fiadd_spurious_denormal `{Libm} c g addr sti b : fpu_wf c -> is_empty_reg c (fpu_top c) = false ->
  g_read_ram g addr 4 = Some b -> 0 < from_le_bytes b < 2 ^ 23 ->
  exists c', exec_x87 c g FiaddMemI32 addr sti = Some (None, c', g) /\ Z.testbit (fpu_sw c') 1 = true.
Proof.
  intros Hc He Hr Hv. pose proof (wf_fpu_top c Hc) as Ht.
  assert (Hl : length b = 4%nat).
  { unfold g_read_ram in Hr. destruct (v_kind g addr 4) as [[]|]; injection Hr as <- || done; unfold v_bytes; by rewrite length_fmap, length_zseq. }
  unfold exec_x87, exec_x87_op, read_n, arith_mem, operand, mbind, x_bind, x_cpu, option_bind. cbn [fp_load view_fp]. rewrite Hr.
  unfold st_operand. rewrite phys0, He by done. cbv iota beta. rewrite (small_int_looks_denormal b Hl Hv).
  cbn [orb]. destruct (mem_arith _ _ _ _) as [r e]. cbv iota beta. unfold x_raise, x_upd.
  pose proof (raise_records c (exc_with e DE) 1 ltac:(lia)) as Hrec.
  specialize (Hrec ltac:(unfold exc_with; rewrite Z.lor_spec; apply orb_true_r)).
  destruct (raise c (exc_with e DE)) as [[] c']; cbn [snd] in Hrec; eexists; (split; [reflexivity|]); exact Hrec.
Qed.

Definition ram_ones : View := mkView (fun _ _ => Some Ram) (fun _ => 1).

Lemma fiadd_spurious_denormal_witness :
  exists c', @exec_x87 _ _ no_libm one_over_zero (v_store ram_ones 0 [1; 0; 0; 0]) FiaddMemI32 0 0 =
    Some (None, c', v_store ram_ones 0 [1; 0; 0; 0]) /\ Z.testbit (fpu_sw c') 1 = true.
Proof.
  exact (@fiadd_spurious_denormal no_libm one_over_zero (v_store ram_ones 0 [1; 0; 0; 0]) 0 0 [1; 0; 0; 0] one_over_zero_wf
    eq_refl eq_refl ltac:(vm_compute; done)).
Defined.

(** FISTP to 16 bits keeps the low half of the 64-bit conversion: 70000 is stored as
    4464, and a NaN as zero, where the integer indefinite 0x8000 is due. *)
Example fistp_wraps : int_bytes 2 0 (from_i64 70000) = to_le_bytes 2 4464 /\ int_bytes 2 0 indefinite = [0; 0].
Proof. by vm_compute. Qed.
