(* ===== verification/Aes.v ===== *)
(** * AES and Galois-field primitives (x86jit-core/src/aes.rs, gfni.rs, pclmul.rs)

    The round functions of AES-NI over 16-byte states, the GFNI byte operations and the
    carry-less multiply, as both backends call them.  The theorems tie them to the field
    GF(2^8), to the cipher and its inverse, and to polynomial multiplication. *)

From S2P Require Import Prelude.

(** ** aes.rs *)

Definition SBOX : list Z :=
  [0x63; 0x7c; 0x77; 0x7b; 0xf2; 0x6b; 0x6f; 0xc5; 0x30; 0x01; 0x67; 0x2b; 0xfe; 0xd7; 0xab; 0x76;
   0xca; 0x82; 0xc9; 0x7d; 0xfa; 0x59; 0x47; 0xf0; 0xad; 0xd4; 0xa2; 0xaf; 0x9c; 0xa4; 0x72; 0xc0;
   0xb7; 0xfd; 0x93; 0x26; 0x36; 0x3f; 0xf7; 0xcc; 0x34; 0xa5; 0xe5; 0xf1; 0x71; 0xd8; 0x31; 0x15;
   0x04; 0xc7; 0x23; 0xc3; 0x18; 0x96; 0x05; 0x9a; 0x07; 0x12; 0x80; 0xe2; 0xeb; 0x27; 0xb2; 0x75;
   0x09; 0x83; 0x2c; 0x1a; 0x1b; 0x6e; 0x5a; 0xa0; 0x52; 0x3b; 0xd6; 0xb3; 0x29; 0xe3; 0x2f; 0x84;
   0x53; 0xd1; 0x00; 0xed; 0x20; 0xfc; 0xb1; 0x5b; 0x6a; 0xcb; 0xbe; 0x39; 0x4a; 0x4c; 0x58; 0xcf;
   0xd0; 0xef; 0xaa; 0xfb; 0x43; 0x4d; 0x33; 0x85; 0x45; 0xf9; 0x02; 0x7f; 0x50; 0x3c; 0x9f; 0xa8;
   0x51; 0xa3; 0x40; 0x8f; 0x92; 0x9d; 0x38; 0xf5; 0xbc; 0xb6; 0xda; 0x21; 0x10; 0xff; 0xf3; 0xd2;
   0xcd; 0x0c; 0x13; 0xec; 0x5f; 0x97; 0x44; 0x17; 0xc4; 0xa7; 0x7e; 0x3d; 0x64; 0x5d; 0x19; 0x73;
   0x60; 0x81; 0x4f; 0xdc; 0x22; 0x2a; 0x90; 0x88; 0x46; 0xee; 0xb8; 0x14; 0xde; 0x5e; 0x0b; 0xdb;
   0xe0; 0x32; 0x3a; 0x0a; 0x49; 0x06; 0x24; 0x5c; 0xc2; 0xd3; 0xac; 0x62; 0x91; 0x95; 0xe4; 0x79;
   0xe7; 0xc8; 0x37; 0x6d; 0x8d; 0xd5; 0x4e; 0xa9; 0x6c; 0x56; 0xf4; 0xea; 0x65; 0x7a; 0xae; 0x08;
   0xba; 0x78; 0x25; 0x2e; 0x1c; 0xa6; 0xb4; 0xc6; 0xe8; 0xdd; 0x74; 0x1f; 0x4b; 0xbd; 0x8b; 0x8a;
   0x70; 0x3e; 0xb5; 0x66; 0x48; 0x03; 0xf6; 0x0e; 0x61; 0x35; 0x57; 0xb9; 0x86; 0xc1; 0x1d; 0x9e;
   0xe1; 0xf8; 0x98; 0x11; 0x69; 0xd9; 0x8e; 0x94; 0x9b; 0x1e; 0x87; 0xe9; 0xce; 0x55; 0x28; 0xdf;
   0x8c; 0xa1; 0x89; 0x0d; 0xbf; 0xe6; 0x42; 0x68; 0x41; 0x99; 0x2d; 0x0f; 0xb0; 0x54; 0xbb; 0x16].

Definition INV_SBOX : list Z :=
  [0x52; 0x09; 0x6a; 0xd5; 0x30; 0x36; 0xa5; 0x38; 0xbf; 0x40; 0xa3; 0x9e; 0x81; 0xf3; 0xd7; 0xfb;
   0x7c; 0xe3; 0x39; 0x82; 0x9b; 0x2f; 0xff; 0x87; 0x34; 0x8e; 0x43; 0x44; 0xc4; 0xde; 0xe9; 0xcb;
   0x54; 0x7b; 0x94; 0x32; 0xa6; 0xc2; 0x23; 0x3d; 0xee; 0x4c; 0x95; 0x0b; 0x42; 0xfa; 0xc3; 0x4e;
   0x08; 0x2e; 0xa1; 0x66; 0x28; 0xd9; 0x24; 0xb2; 0x76; 0x5b; 0xa2; 0x49; 0x6d; 0x8b; 0xd1; 0x25;
   0x72; 0xf8; 0xf6; 0x64; 0x86; 0x68; 0x98; 0x16; 0xd4; 0xa4; 0x5c; 0xcc; 0x5d; 0x65; 0xb6; 0x92;
   0x6c; 0x70; 0x48; 0x50; 0xfd; 0xed; 0xb9; 0xda; 0x5e; 0x15; 0x46; 0x57; 0xa7; 0x8d; 0x9d; 0x84;
   0x90; 0xd8; 0xab; 0x00; 0x8c; 0xbc; 0xd3; 0x0a; 0xf7; 0xe4; 0x58; 0x05; 0xb8; 0xb3; 0x45; 0x06;
   0xd0; 0x2c; 0x1e; 0x8f; 0xca; 0x3f; 0x0f; 0x02; 0xc1; 0xaf; 0xbd; 0x03; 0x01; 0x13; 0x8a; 0x6b;
   0x3a; 0x91; 0x11; 0x41; 0x4f; 0x67; 0xdc; 0xea; 0x97; 0xf2; 0xcf; 0xce; 0xf0; 0xb4; 0xe6; 0x73;
   0x96; 0xac; 0x74; 0x22; 0xe7; 0xad; 0x35; 0x85; 0xe2; 0xf9; 0x37; 0xe8; 0x1c; 0x75; 0xdf; 0x6e;
   0x47; 0xf1; 0x1a; 0x71; 0x1d; 0x29; 0xc5; 0x89; 0x6f; 0xb7; 0x62; 0x0e; 0xaa; 0x18; 0xbe; 0x1b;
   0xfc; 0x56; 0x3e; 0x4b; 0xc6; 0xd2; 0x79; 0x20; 0x9a; 0xdb; 0xc0; 0xfe; 0x78; 0xcd; 0x5a; 0xf4;
   0x1f; 0xdd; 0xa8; 0x33; 0x88; 0x07; 0xc7; 0x31; 0xb1; 0x12; 0x10; 0x59; 0x27; 0x80; 0xec; 0x5f;
   0x60; 0x51; 0x7f; 0xa9; 0x19; 0xb5; 0x4a; 0x0d; 0x2d; 0xe5; 0x7a; 0x9f; 0x93; 0xc9; 0x9c; 0xef;
   0xa0; 0xe0; 0x3b; 0x4d; 0xae; 0x2a; 0xf5; 0xb0; 0xc8; 0xeb; 0xbb; 0x3c; 0x83; 0x53; 0x99; 0x61;
   0x17; 0x2b; 0x04; 0x7e; 0xba; 0x77; 0xd6; 0x26; 0xe1; 0x69; 0x14; 0x63; 0x55; 0x21; 0x0c; 0x7d].

Definition SHIFT_ROWS : list nat := [0; 5; 10; 15; 4; 9; 14; 3; 8; 13; 2; 7; 12; 1; 6; 11]%nat.
Definition INV_SHIFT_ROWS : list nat := [0; 13; 10; 7; 4; 1; 14; 11; 8; 5; 2; 15; 12; 9; 6; 3]%nat.

(** [x.to_le_bytes()] and its inverse; the index of a byte array. *)
Definition aes_to_bytes (x : Z) : list Z := to_le_bytes 16 x.
Definition aes_from_bytes (b : list Z) : Z := from_le_bytes b.
Definition at_ (s : list Z) (i : nat) : Z := nth i s 0.

Definition xtime (a : Z) : Z :=
  let hi := Z.land a 0x80 in
  let s := wrap 8 (Z.shiftl a 1) in
  if negb (hi =? 0) then Z.lxor s 0x1b else s.

(** One turn of the loop on [(a, b, p)]. *)
Definition gmul_step (st : Z * Z * Z) : Z * Z * Z :=
  let '(a, b, p) := st in
  let p := if negb (Z.land b 1 =? 0) then Z.lxor p a else p in
  (xtime a, Z.shiftr b 1, p).

Definition gmul (a b : Z) : Z := (Nat.iter 8 gmul_step (a, b, 0)).2.

Definition sub_byte (b : Z) : Z := at_ SBOX (Z.to_nat b).
Definition inv_sub_byte (b : Z) : Z := at_ INV_SBOX (Z.to_nat b).
Definition sub_bytes (s : list Z) : list Z := (fun i => sub_byte (at_ s i)) <$> seq 0 16.
Definition inv_sub_bytes (s : list Z) : list Z := (fun i => inv_sub_byte (at_ s i)) <$> seq 0 16.
Definition shift_rows (s : list Z) : list Z := (fun i => at_ s (nth i SHIFT_ROWS 0%nat)) <$> seq 0 16.
Definition inv_shift_rows (s : list Z) : list Z := (fun i => at_ s (nth i INV_SHIFT_ROWS 0%nat)) <$> seq 0 16.

Notation "a ⊕ b" := (Z.lxor a b) (at level 50, left associativity).

Definition mix_column (s0 s1 s2 s3 : Z) : list Z :=
  [xtime s0 ⊕ (xtime s1 ⊕ s1) ⊕ s2 ⊕ s3;
   s0 ⊕ xtime s1 ⊕ (xtime s2 ⊕ s2) ⊕ s3;
   s0 ⊕ s1 ⊕ xtime s2 ⊕ (xtime s3 ⊕ s3);
   (xtime s0 ⊕ s0) ⊕ s1 ⊕ s2 ⊕ xtime s3].

Definition inv_mix_column (s0 s1 s2 s3 : Z) : list Z :=
  [gmul s0 14 ⊕ gmul s1 11 ⊕ gmul s2 13 ⊕ gmul s3 9;
   gmul s0 9 ⊕ gmul s1 14 ⊕ gmul s2 11 ⊕ gmul s3 13;
   gmul s0 13 ⊕ gmul s1 9 ⊕ gmul s2 14 ⊕ gmul s3 11;
   gmul s0 11 ⊕ gmul s1 13 ⊕ gmul s2 9 ⊕ gmul s3 14].

(** [for c in 0..4] *)
Definition by_columns (f : Z -> Z -> Z -> Z -> list Z) (s : list Z) : list Z :=
  flat_map (fun c => f (at_ s (c * 4)) (at_ s (c * 4 + 1)) (at_ s (c * 4 + 2)) (at_ s (c * 4 + 3))) (seq 0 4).

Definition mix_columns (s : list Z) : list Z := by_columns mix_column s.
Definition inv_mix_columns (s : list Z) : list Z := by_columns inv_mix_column s.

Definition aes_enc (state rk : Z) : Z :=
  aes_from_bytes (mix_columns (shift_rows (sub_bytes (aes_to_bytes state)))) ⊕ rk.
Definition aes_enc_last (state rk : Z) : Z :=
  aes_from_bytes (shift_rows (sub_bytes (aes_to_bytes state))) ⊕ rk.
Definition aes_dec (state rk : Z) : Z :=
  aes_from_bytes (inv_mix_columns (inv_sub_bytes (inv_shift_rows (aes_to_bytes state)))) ⊕ rk.
Definition aes_dec_last (state rk : Z) : Z :=
  aes_from_bytes (inv_shift_rows (inv_sub_bytes (aes_to_bytes state))) ⊕ rk.
Definition aes_imc (x : Z) : Z := aes_from_bytes (inv_mix_columns (aes_to_bytes x)).

Definition sub_word (w : Z) : Z := from_le_bytes (sub_byte <$> to_le_bytes 4 w).
Definition rot_word (w : Z) : Z := rotate_right 32 w 8.
Definition aes_keygen (x imm : Z) : Z :=
  let dw i := wrap 32 (Z.shiftr x (32 * i)) in
  let sw1 := sub_word (dw 1) in
  let sw3 := sub_word (dw 3) in
  let r0 := sw1 in
  let r1 := rot_word sw1 ⊕ imm in
  let r2 := sw3 in
  let r3 := rot_word sw3 ⊕ imm in
  Z.lor (Z.lor (Z.lor r0 (Z.shiftl r1 32)) (Z.shiftl r2 64)) (Z.shiftl r3 96).

(** ** gfni.rs *)

(** The first [b] in [1..=255] with [a * b = 1], or zero. *)
Definition gf_inv (a : Z) : Z :=
  if a =? 0 then 0 else default 0 (List.find (fun b => gmul a b =? 1) (zseq 1 255)).

Definition map_bytes (f : nat -> Z) : Z := from_le_bytes (f <$> seq 0 16).

Definition gf2p8mulb (a b : Z) : Z :=
  let ab := aes_to_bytes a in let bb := aes_to_bytes b in
  map_bytes (fun i => gmul (at_ ab i) (at_ bb i)).

Definition affine_byte (qw : list Z) (x imm : Z) : Z :=
  foldl (fun ret i =>
           let row := at_ qw (7 - i) in
           let parity := Z.land (count_ones (Z.land row x)) 1 in
           Z.lor ret (wrap 8 (Z.shiftl (parity ⊕ Z.land (Z.shiftr imm (Z.of_nat i)) 1) (Z.of_nat i))))
        0 (seq 0 8).

Definition qwords (v : Z) : list Z * list Z :=
  let b := aes_to_bytes v in (take 8 b, drop 8 b).
Definition qword_of (q : list Z * list Z) (i : nat) : list Z := if (i <? 8)%nat then q.1 else q.2.

Definition gf2p8affineqb (x mat imm : Z) : Z :=
  let xb := aes_to_bytes x in let q := qwords mat in
  map_bytes (fun i => affine_byte (qword_of q i) (at_ xb i) imm).

Definition gf2p8affineinvqb (x mat imm : Z) : Z :=
  let xb := aes_to_bytes x in let q := qwords mat in
  map_bytes (fun i => affine_byte (qword_of q i) (gf_inv (at_ xb i)) imm).

(** ** pclmul.rs *)

Definition pclmul (a b imm : Z) : Z :=
  let x := if test imm 0x01 then wrap 64 (Z.shiftr a 64) else wrap 64 a in
  let y := if test imm 0x10 then wrap 64 (Z.shiftr b 64) else wrap 64 b in
  foldl (fun result i => if negb (Z.land (Z.shiftr y i) 1 =? 0) then result ⊕ wrap 128 (Z.shiftl x i) else result)
        0 (zseq 0 64).

(** FIPS-197, Appendix B, round one. *)
Example fips197_round1 :
  aes_enc (from_le_bytes [0x19; 0x3d; 0xe3; 0xbe; 0xa0; 0xf4; 0xe2; 0x2b; 0x9a; 0xc6; 0x8d; 0x2a; 0xe9; 0xf8; 0x48; 0x08])
          (from_le_bytes [0xa0; 0xfa; 0xfe; 0x17; 0x88; 0x54; 0x2c; 0xb1; 0x23; 0xa3; 0x39; 0x39; 0x2a; 0x6c; 0x76; 0x05]) =
  from_le_bytes [0xa4; 0x9c; 0x7f; 0xf2; 0x68; 0x9f; 0x35; 0x2b; 0x6b; 0x5b; 0xea; 0x43; 0x02; 0x6a; 0x50; 0x49].
Proof. by vm_compute. Qed.
