(* ===== verification/AesSpec.v ===== *)
(** * AES, GFNI and carry-less multiplication: what they compute

    Multiplication by the round constants is multiplication in GF(2^8); the decryption
    instructions invert the encryption instructions through a whole cipher; the S-box is
    the affine image of the field inverse; PCLMULQDQ is the product of polynomials over
    GF(2). *)

From S2P Require Import Prelude Aes.

(** ** Bits of exclusive or *)

Ltac xor_bits := apply Z.bits_inj'; let i := fresh "i" in let Hi := fresh "Hi" in intros i Hi; rewrite ?Z.lxor_spec; btauto.

(** ** Multiplication by [x] *)

Lemma xtime_testbit a i : 0 <= i ->
  Z.testbit (xtime a) i = xorb ((i <? 8) && Z.testbit a (i - 1)) (Z.testbit a 7 && Z.testbit 0x1b i).
Proof.
  intros Hi. unfold xtime. fold (test a 0x80). change 0x80 with (2 ^ 7). rewrite test_pow2 by lia.
  destruct (Z.testbit a 7); rewrite ?Z.lxor_spec, wrap_testbit, Z.shiftl_spec by lia; [done|]. by rewrite xorb_false_r.
Qed.

Lemma xtime_lxor a b : xtime (a ⊕ b) = xtime a ⊕ xtime b.
Proof.
  apply Z.bits_inj'. intros i Hi. rewrite Z.lxor_spec, !xtime_testbit, !Z.lxor_spec by lia. btauto.
Qed.

Lemma xtime_range a : in_width 8 (xtime a).
Proof.
  unfold xtime. destruct (negb _); [apply in_width_lxor; [lia| |by split]|]; by apply wrap_range.
Qed.

Lemma gmul_9 a : gmul a 9 = a ⊕ xtime (xtime (xtime a)).
Proof. reflexivity. Qed.
Lemma gmul_11 a : gmul a 11 = a ⊕ xtime a ⊕ xtime (xtime (xtime a)).
Proof. reflexivity. Qed.
Lemma gmul_13 a : gmul a 13 = a ⊕ xtime (xtime a) ⊕ xtime (xtime (xtime a)).
Proof. reflexivity. Qed.
Lemma gmul_14 a : gmul a 14 = xtime a ⊕ xtime (xtime a) ⊕ xtime (xtime (xtime a)).
Proof. reflexivity. Qed.

#[local] Hint Rewrite gmul_9 gmul_11 gmul_13 gmul_14 xtime_lxor : gf.

(** The column matrices are inverse to each other. *)
Lemma inv_mix_mix s0 s1 s2 s3 :
  match mix_column s0 s1 s2 s3 with
  | [m0; m1; m2; m3] => inv_mix_column m0 m1 m2 m3 = [s0; s1; s2; s3]
  | _ => False
  end.
Proof. unfold mix_column, inv_mix_column. autorewrite with gf. do 4 (apply (f_equal2 cons); [xor_bits|]). done. Qed.

Lemma inv_mix_linear s0 s1 s2 s3 t0 t1 t2 t3 :
  inv_mix_column (s0 ⊕ t0) (s1 ⊕ t1) (s2 ⊕ t2) (s3 ⊕ t3) = zip_with Z.lxor (inv_mix_column s0 s1 s2 s3) (inv_mix_column t0 t1 t2 t3).
Proof. unfold inv_mix_column. autorewrite with gf. cbn [zip_with]. do 4 (apply (f_equal2 cons); [xor_bits|]). done. Qed.

(** ** States *)

Definition state (s : list Z) : Prop := length s = 16%nat /\ Forall (in_width 8) s.

(** A property of sixteen named bytes. *)
Lemma state_elim (P : list Z -> Prop) :
  (forall b0 b1 b2 b3 b4 b5 b6 b7 b8 b9 b10 b11 b12 b13 b14 b15, P [b0; b1; b2; b3; b4; b5; b6; b7; b8; b9; b10; b11; b12; b13; b14; b15]) ->
  forall s, length s = 16%nat -> P s.
Proof. intros H s Hl. do 16 (destruct s as [|? s]; [done|]). destruct s; [|done]. apply H. Qed.

Lemma mix_columns_inverse s : length s = 16%nat -> inv_mix_columns (mix_columns s) = s.
Proof.
  revert s. apply state_elim. intros. unfold mix_columns, inv_mix_columns, by_columns. cbn [seq flat_map at_ nth Nat.mul Nat.add app].
  pose proof (inv_mix_mix b0 b1 b2 b3) as H0. pose proof (inv_mix_mix b4 b5 b6 b7) as H1.
  pose proof (inv_mix_mix b8 b9 b10 b11) as H2. pose proof (inv_mix_mix b12 b13 b14 b15) as H3.
  unfold mix_column in *. cbn [app at_ nth]. unfold at_. cbn [nth]. by rewrite H0, H1, H2, H3.
Qed.

Lemma inv_mix_columns_linear s t : length s = 16%nat -> length t = 16%nat ->
  inv_mix_columns (zip_with Z.lxor s t) = zip_with Z.lxor (inv_mix_columns s) (inv_mix_columns t).
Proof.
  intros Hs. revert t. revert s Hs. apply (state_elim (fun s => forall t, _ -> _)). intros until b15.
  apply state_elim. intros until b31. unfold inv_mix_columns, by_columns. cbn [seq flat_map]. unfold at_.
  cbn [Nat.mul Nat.add nth zip_with]. rewrite !inv_mix_linear. unfold inv_mix_column. reflexivity.
Qed.

(** A fact about every byte, by evaluation. *)
Lemma byte_forall (P : Z -> bool) : forallb P (zseq 0 256) = true -> forall b, in_width 8 b -> P b = true.
Proof.
  intros H b Hb. rewrite forallb_forall in H. apply H, list_elem_of_In, zseq_elem. exact Hb.
Qed.

Lemma sub_byte_inverse b : in_width 8 b -> inv_sub_byte (sub_byte b) = b /\ sub_byte (inv_sub_byte b) = b.
Proof.
  intros Hb. apply (byte_forall (fun b => (inv_sub_byte (sub_byte b) =? b) && (sub_byte (inv_sub_byte b) =? b))) in Hb.
  - apply andb_true_iff in Hb as [H1 H2]. split; by apply Z.eqb_eq.
  - by vm_compute.
Qed.

Lemma table_byte (t : list Z) i : Forall (in_width 8) t -> in_width 8 (at_ t i).
Proof.
  intros Ht. unfold at_. destruct (nth_in_or_default i t 0) as [H|E]; [|by rewrite E].
  rewrite list.Forall_forall in Ht. by apply Ht, list_elem_of_In.
Qed.

Lemma sbox_bytes : Forall (in_width 8) SBOX /\ Forall (in_width 8) INV_SBOX.
Proof.
  assert (H : forall l, forallb (fun b => (0 <=? b) && (b <? 256)) l = true -> Forall (in_width 8) l).
  { intros l Hl. apply list.Forall_forall. intros b Hb%list_elem_of_In. rewrite forallb_forall in Hl.
    apply Hl, andb_true_iff in Hb as [H1 H2]. apply Z.leb_le in H1. apply Z.ltb_lt in H2. by split. }
  split; apply H; by vm_compute.
Qed.

Lemma sub_bytes_state s : state s -> state (sub_bytes s).
Proof. intros _. split; [done|]. apply Forall_fmap, Forall_forall. intros. apply table_byte, sbox_bytes. Qed.

Lemma at_state s i : state s -> in_width 8 (at_ s i).
Proof. intros [_ H]. by apply table_byte. Qed.

Lemma shift_rows_state s : state s -> state (shift_rows s).
Proof. intros H. split; [done|]. apply Forall_fmap, Forall_forall. intros. by apply at_state. Qed.

Lemma list_at s : length s = 16%nat -> (fun i => at_ s i) <$> seq 0 16 = s.
Proof. revert s. apply state_elim. reflexivity. Qed.

Lemma inv_sub_shift s : state s -> inv_sub_bytes (inv_shift_rows (shift_rows (sub_bytes s))) = s.
Proof.
  intros [Hl Hb]. assert (Hs : inv_shift_rows (shift_rows (sub_bytes s)) = sub_bytes s) by reflexivity.
  rewrite Hs. rewrite <- (list_at s Hl) at 2. unfold inv_sub_bytes. apply list_fmap_ext. intros k i Hk.
  assert (Hi : (i < 16)%nat) by (apply list_elem_of_lookup_2, elem_of_seq in Hk; lia).
  assert (E : at_ (sub_bytes s) i = sub_byte (at_ s i)).
  { unfold sub_bytes. do 16 (destruct i as [|i]; [reflexivity|]). lia. }
  rewrite E. apply sub_byte_inverse, at_state. by split.
Qed.

Lemma inv_shift_sub s : state s -> inv_shift_rows (inv_sub_bytes (shift_rows (sub_bytes s))) = s.
Proof.
  intros H. rewrite <- (inv_sub_shift s H) at 2. reflexivity.
Qed.

(** *** The 128-bit image *)

Lemma to_bytes_state x : state (aes_to_bytes x).
Proof. split; [apply length_to_le_bytes|apply to_le_bytes_range]. Qed.

Lemma to_from_state s : state s -> aes_to_bytes (aes_from_bytes s) = s.
Proof. intros [Hl Hb]. unfold aes_to_bytes, aes_from_bytes. rewrite <- Hl. by apply to_from_le_bytes. Qed.

Lemma from_to_state x : in_width 128 x -> aes_from_bytes (aes_to_bytes x) = x.
Proof. intros Hx. unfold aes_from_bytes, aes_to_bytes. rewrite from_to_le_bytes. by apply wrap_small. Qed.

Lemma from_state_range s : state s -> in_width 128 (aes_from_bytes s).
Proof. intros [Hl Hb]. pose proof (from_le_bytes_range s Hb) as H. by rewrite Hl in H. Qed.

Lemma wrap_lxor w x y : 0 <= w -> wrap w (x ⊕ y) = wrap w x ⊕ wrap w y.
Proof.
  intros Hw. apply Z.bits_inj'. intros i Hi. rewrite Z.lxor_spec, !wrap_testbit, Z.lxor_spec by done. btauto.
Qed.

Lemma to_bytes_lxor n x y : to_le_bytes n (x ⊕ y) = zip_with Z.lxor (to_le_bytes n x) (to_le_bytes n y).
Proof.
  revert x y. induction n as [|n IH]; intros x y; [done|]. cbn [to_le_bytes zip_with].
  rewrite wrap_lxor, Z.shiftr_lxor, IH by lia. done.
Qed.

(** ** The cipher *)

(** The state of a round before its key: [ShiftRows (SubBytes x)]. *)
Definition substituted (x : Z) : Z := aes_from_bytes (shift_rows (sub_bytes (aes_to_bytes x))).

Lemma substituted_state x : aes_to_bytes (substituted x) = shift_rows (sub_bytes (aes_to_bytes x)).
Proof. apply to_from_state, shift_rows_state, sub_bytes_state, to_bytes_state. Qed.

Lemma substituted_range x : in_width 128 (substituted x).
Proof. apply from_state_range, shift_rows_state, sub_bytes_state, to_bytes_state. Qed.

#[local] Ltac byte_tac := repeat (apply in_width_lxor; [lia| |]); try apply xtime_range; try done.

Lemma mix_column_bytes s0 s1 s2 s3 : in_width 8 s0 -> in_width 8 s1 -> in_width 8 s2 -> in_width 8 s3 ->
  Forall (in_width 8) (mix_column s0 s1 s2 s3).
Proof. intros. unfold mix_column. do 4 (apply list.Forall_cons; split; [byte_tac|]). constructor. Qed.

Lemma inv_mix_column_bytes s0 s1 s2 s3 : in_width 8 s0 -> in_width 8 s1 -> in_width 8 s2 -> in_width 8 s3 ->
  Forall (in_width 8) (inv_mix_column s0 s1 s2 s3).
Proof.
  intros. unfold inv_mix_column. rewrite !gmul_9, !gmul_11, !gmul_13, !gmul_14.
  do 4 (apply list.Forall_cons; split; [byte_tac|]). constructor.
Qed.

Lemma by_columns_bytes f s : (forall a b c d, in_width 8 a -> in_width 8 b -> in_width 8 c -> in_width 8 d -> Forall (in_width 8) (f a b c d)) ->
  state s -> Forall (in_width 8) (by_columns f s).
Proof.
  intros Hf Hs. unfold by_columns. cbn [seq flat_map]. repeat apply Forall_app_2; try (apply Hf; by apply at_state). constructor.
Qed.

Lemma mix_columns_state s : state s -> state (mix_columns s).
Proof. intros Hs. split; [done|]. by apply by_columns_bytes; [apply mix_column_bytes|]. Qed.

Lemma inv_mix_columns_state s : state s -> state (inv_mix_columns s).
Proof. intros Hs. split; [done|]. by apply by_columns_bytes; [apply inv_mix_column_bytes|]. Qed.

Lemma from_state_lxor s t : state s -> state t -> aes_from_bytes (zip_with Z.lxor s t) = aes_from_bytes s ⊕ aes_from_bytes t.
Proof.
  intros Hs Ht. rewrite <- (to_from_state s Hs), <- (to_from_state t Ht) at 1. unfold aes_to_bytes. rewrite <- to_bytes_lxor.
  apply from_to_state, in_width_lxor; [lia| |]; by apply from_state_range.
Qed.

Lemma aes_imc_lxor x y : aes_imc (x ⊕ y) = aes_imc x ⊕ aes_imc y.
Proof.
  unfold aes_imc. rewrite <- from_state_lxor by apply inv_mix_columns_state, to_bytes_state.
  f_equal. rewrite <- inv_mix_columns_linear by apply length_to_le_bytes. f_equal. apply to_bytes_lxor.
Qed.

Lemma imc_def x : aes_from_bytes (inv_mix_columns (aes_to_bytes x)) = aes_imc x.
Proof. done. Qed.

(** A decryption round with the transformed key undoes an encryption round. *)
Lemma aes_round_inverse x k : in_width 128 x -> in_width 128 k ->
  aes_dec (substituted (aes_enc x k)) (aes_imc k) = substituted x.
Proof.
  intros Hx Hk. unfold aes_dec. rewrite substituted_state.
  rewrite (inv_sub_shift (aes_to_bytes (aes_enc x k))) by apply to_bytes_state. rewrite imc_def.
  unfold aes_enc. rewrite aes_imc_lxor, Z.lxor_assoc, Z.lxor_nilpotent, Z.lxor_0_r.
  unfold aes_imc. rewrite to_from_state by apply mix_columns_state, shift_rows_state, sub_bytes_state, to_bytes_state.
  by rewrite mix_columns_inverse.
Qed.

Lemma aes_enc_range x k : in_width 128 k -> in_width 128 (aes_enc x k).
Proof.
  intros Hk. apply in_width_lxor; [lia| |done].
  apply from_state_range, mix_columns_state, shift_rows_state, sub_bytes_state, to_bytes_state.
Qed.

Lemma enc_last_def x k : aes_enc_last x k = substituted x ⊕ k.
Proof. done. Qed.

Definition aes_encrypt (k0 : Z) (ks : list Z) (kn p : Z) : Z := aes_enc_last (foldl aes_enc (p ⊕ k0) ks) kn.
Definition aes_decrypt (k0 : Z) (ks : list Z) (kn c : Z) : Z := aes_dec_last (foldl aes_dec (c ⊕ kn) (aes_imc <$> rev ks)) k0.

Lemma aes_rounds_inverse ks x : in_width 128 x -> Forall (in_width 128) ks ->
  foldl aes_dec (substituted (foldl aes_enc x ks)) (aes_imc <$> rev ks) = substituted x.
Proof.
  intros Hx Hks. revert x Hx. induction Hks as [|k ks Hk Hks IH]; intros x Hx; [done|].
  cbn [foldl rev]. rewrite fmap_app, foldl_app, IH by (by apply aes_enc_range). cbn [fmap list_fmap foldl]. by apply aes_round_inverse.
Qed.

(** C31: The AES instructions invert each other through a whole cipher: for any number of
    rounds and any round keys, AESENC ... AESENCLAST followed by AESDEC ... AESDECLAST
    under the AESIMC-transformed keys in reverse order gives the plaintext back. *)
Theorem aes_cipher_round_trip k0 ks kn p : in_width 128 p -> in_width 128 k0 -> Forall (in_width 128) ks ->
  aes_decrypt k0 ks kn (aes_encrypt k0 ks kn p) = p.
Proof.
  intros Hp Hk0 Hks. unfold aes_decrypt, aes_encrypt. rewrite enc_last_def.
  rewrite Z.lxor_assoc, Z.lxor_nilpotent, Z.lxor_0_r. assert (Hx : in_width 128 (p ⊕ k0)) by (by apply in_width_lxor).
  rewrite aes_rounds_inverse by done. unfold aes_dec_last. rewrite substituted_state, inv_shift_sub by apply to_bytes_state.
  rewrite from_to_state by done. by rewrite Z.lxor_assoc, Z.lxor_nilpotent, Z.lxor_0_r.
Qed.

Lemma aes_cipher_round_trip_witness : aes_decrypt 5 [7; 9; 11] 13 (aes_encrypt 5 [7; 9; 11] 13 (2 ^ 127 + 42)) = 2 ^ 127 + 42.
Proof.
  apply (aes_cipher_round_trip 5 [7; 9; 11] 13 (2 ^ 127 + 42)); [split; done|split; done|].
  repeat (apply list.Forall_cons; split; [split; done|]). constructor.
Defined.

(** ** Polynomials over GF(2) *)

(** The product, by the bits of the second factor. *)
Fixpoint poly_mul (n : nat) (x y : Z) : Z :=
  match n with
  | O => 0
  | S n => poly_mul n x y ⊕ (if Z.testbit y (Z.of_nat n) then Z.shiftl x (Z.of_nat n) else 0)
  end.

(** The field polynomial, x^8 + x^4 + x^3 + x + 1, times [q]. *)
Definition field_multiple (q : Z) : Z := Z.shiftl q 8 ⊕ Z.shiftl q 4 ⊕ Z.shiftl q 3 ⊕ Z.shiftl q 1 ⊕ q.

Lemma field_multiple_poly q : field_multiple q = poly_mul 9 q 0x11b.
Proof.
  transitivity (0 ⊕ Z.shiftl q 0 ⊕ Z.shiftl q 1 ⊕ 0 ⊕ Z.shiftl q 3 ⊕ Z.shiftl q 4 ⊕ 0 ⊕ 0 ⊕ 0 ⊕ Z.shiftl q 8); [|reflexivity].
  rewrite !Z.lxor_0_r, Z.lxor_0_l, Z.shiftl_0_r. unfold field_multiple.
  generalize (Z.shiftl q 8) (Z.shiftl q 4) (Z.shiftl q 3) (Z.shiftl q 1). intros. xor_bits.
Qed.

Lemma field_multiple_lxor q r : field_multiple (q ⊕ r) = field_multiple q ⊕ field_multiple r.
Proof.
  unfold field_multiple. rewrite !Z.shiftl_lxor. generalize (Z.shiftl q 8) (Z.shiftl q 4) (Z.shiftl q 3) (Z.shiftl q 1).
  generalize (Z.shiftl r 8) (Z.shiftl r 4) (Z.shiftl r 3) (Z.shiftl r 1). intros. xor_bits.
Qed.

Lemma field_multiple_shift q n : 0 <= n -> field_multiple (Z.shiftl q n) = Z.shiftl (field_multiple q) n.
Proof.
  intros Hn. unfold field_multiple. rewrite !Z.shiftl_lxor, !Z.shiftl_shiftl by lia.
  by rewrite !(Z.add_comm n).
Qed.

Lemma xtime_reduces a : in_width 8 a -> exists q, Z.shiftl a 1 = xtime a ⊕ field_multiple q.
Proof.
  intros Ha. exists (b2z (Z.testbit a 7)). apply Z.bits_inj'. intros i Hi.
  rewrite Z.lxor_spec, xtime_testbit, Z.shiftl_spec by lia.
  destruct (Z.testbit a 7) eqn:E7; cbn [b2z].
  - change (field_multiple 1) with 0x11b. cbn [andb].
    destruct (Z.ltb_spec i 8) as [H|H]; cbn [andb xorb].
    + replace (Z.testbit 0x11b i) with (Z.testbit 0x1b i); [btauto|].
      assert (i = 0 \/ i = 1 \/ i = 2 \/ i = 3 \/ i = 4 \/ i = 5 \/ i = 6 \/ i = 7) as Ei by lia. destruct_or! Ei; by rewrite Ei.
    + destruct (Z.eq_dec i 8) as [->|Hne]; [change (8 - 1) with 7; by rewrite E7|].
      rewrite (in_width_high 8 a), (in_width_high 8 0x1b), (in_width_high 9 0x11b) by (done || lia). done.
  - change (field_multiple 0) with 0. rewrite Z.bits_0. cbn [andb]. rewrite !xorb_false_r.
    destruct (Z.ltb_spec i 8) as [H|H]; [done|]. cbn [andb].
    destruct (Z.eq_dec i 8) as [->|Hne]; [exact E7|]. apply (in_width_high 8); [done|lia|lia].
Qed.

(** Repeated [xtime] is multiplication by a power of [x], reduced. *)
Lemma xtime_power n a : in_width 8 a -> exists q, Z.shiftl a (Z.of_nat n) = Nat.iter n xtime a ⊕ field_multiple q.
Proof.
  intros Ha. induction n as [|n [q IH]].
  - exists 0. cbn [Nat.iter nat_rect Z.of_nat]. by rewrite Z.lxor_0_r, Z.shiftl_0_r.
  - assert (Hr : in_width 8 (Nat.iter n xtime a)) by (destruct n; [done|apply xtime_range]).
    destruct (xtime_reduces _ Hr) as [r Er]. exists (r ⊕ Z.shiftl q 1).
    replace (Z.of_nat (S n)) with (Z.of_nat n + 1) by lia. rewrite <- Z.shiftl_shiftl, IH, Z.shiftl_lxor, Er by lia.
    rewrite field_multiple_lxor, field_multiple_shift, Nat.iter_succ by lia. xor_bits.
Qed.

Lemma gmul_iter n a b p : (Nat.iter n gmul_step (a, b, p)).1.1 = Nat.iter n xtime a /\
  (Nat.iter n gmul_step (a, b, p)).1.2 = Z.shiftr b (Z.of_nat n).
Proof.
  induction n as [|n [IH1 IH2]]; [split; [done|by rewrite Z.shiftr_0_r]|]. rewrite !Nat.iter_succ.
  destruct (Nat.iter n gmul_step (a, b, p)) as [[a' b'] p']. cbn [gmul_step fst snd] in *. subst. split; [done|].
  rewrite Z.shiftr_shiftr by lia. f_equal. lia.
Qed.

(** The loop accumulates the product modulo the field polynomial. *)
Lemma gmul_partial n a b : in_width 8 a ->
  exists q, poly_mul n a b = (Nat.iter n gmul_step (a, b, 0)).2 ⊕ field_multiple q.
Proof.
  intros Ha. induction n as [|n [q IH]]; [by exists 0|]. cbn [poly_mul]. rewrite Nat.iter_succ.
  destruct (gmul_iter n a b 0) as [H1 H2]. destruct (Nat.iter n gmul_step (a, b, 0)) as [[a' b'] p].
  cbn [fst snd gmul_step] in *. subst a' b'.
  assert (Hbit : negb (Z.land (Z.shiftr b (Z.of_nat n)) 1 =? 0) = Z.testbit b (Z.of_nat n)).
  { fold (test (Z.shiftr b (Z.of_nat n)) 1). rewrite test_one, <- Z.bit0_odd, Z.shiftr_spec by lia. by rewrite Z.add_0_l. }
  rewrite Hbit, IH. destruct (Z.testbit b (Z.of_nat n)).
  - destruct (xtime_power n a Ha) as [r ->]. exists (q ⊕ r). rewrite field_multiple_lxor. xor_bits.
  - exists q. by rewrite Z.lxor_0_r.
Qed.

Lemma gmul_range a b : in_width 8 a -> in_width 8 (gmul a b).
Proof.
  intros Ha. unfold gmul. assert (H : forall n, in_width 8 (Nat.iter n gmul_step (a, b, 0)).2); [|apply H].
  intros n. induction n as [|n IH]; [by split|]. destruct (gmul_iter n a b 0) as [H1 H2]. rewrite Nat.iter_succ.
  destruct (Nat.iter n gmul_step (a, b, 0)) as [[a' b'] p]. cbn [fst snd gmul_step] in *. subst a' b'.
  destruct (negb _); [|done]. apply in_width_lxor; [lia|done|]. destruct n; [done|apply xtime_range].
Qed.

(** The byte multiplication of MixColumns and GF2P8MULB is multiplication in GF(2^8):
    the polynomial product of the operands and the result differ by a multiple of
    x^8 + x^4 + x^3 + x + 1, and the result is a byte, so it is the remainder. *)
Theorem gmul_is_field_product a b : in_width 8 a -> in_width 8 b ->
  in_width 8 (gmul a b) /\ exists q, poly_mul 8 a b = gmul a b ⊕ poly_mul 9 q 0x11b.
Proof.
  intros Ha Hb. split; [by apply gmul_range|]. destruct (gmul_partial 8 a b Ha) as [q Hq]. exists q.
  by rewrite <- field_multiple_poly.
Qed.

Lemma gmul_is_field_product_witness : exists q, poly_mul 8 0x53 0xCA = 1 ⊕ poly_mul 9 q 0x11b.
Proof. exact (proj2 (gmul_is_field_product 0x53 0xCA ltac:(split; done) ltac:(split; done))). Defined.

(** ** The field inverse and the S-box *)

Definition INV_TABLE : list Z :=
  [0; 1; 141; 246; 203; 82; 123; 209; 232; 79; 41; 192; 176; 225; 229; 199;
   116; 180; 170; 75; 153; 43; 96; 95; 88; 63; 253; 204; 255; 64; 238; 178;
   58; 110; 90; 241; 85; 77; 168; 201; 193; 10; 152; 21; 48; 68; 162; 194;
   44; 69; 146; 108; 243; 57; 102; 66; 242; 53; 32; 111; 119; 187; 89; 25;
   29; 254; 55; 103; 45; 49; 245; 105; 167; 100; 171; 19; 84; 37; 233; 9;
   237; 92; 5; 202; 76; 36; 135; 191; 24; 62; 34; 240; 81; 236; 97; 23;
   22; 94; 175; 211; 73; 166; 54; 67; 244; 71; 145; 223; 51; 147; 33; 59;
   121; 183; 151; 133; 16; 181; 186; 60; 182; 112; 208; 6; 161; 250; 129; 130;
   131; 126; 127; 128; 150; 115; 190; 86; 155; 158; 149; 217; 247; 2; 185; 164;
   222; 106; 50; 109; 216; 138; 132; 114; 42; 20; 159; 136; 249; 220; 137; 154;
   251; 124; 46; 195; 143; 184; 101; 72; 38; 200; 18; 74; 206; 231; 210; 98;
   12; 224; 31; 239; 17; 117; 120; 113; 165; 142; 118; 61; 189; 188; 134; 87;
   11; 40; 47; 163; 218; 212; 228; 15; 169; 39; 83; 4; 27; 252; 172; 230;
   122; 7; 174; 99; 197; 219; 226; 234; 148; 139; 196; 213; 157; 248; 144; 107;
   177; 13; 214; 235; 198; 14; 207; 173; 8; 78; 215; 227; 93; 80; 30; 179;
   91; 35; 56; 52; 104; 70; 3; 140; 221; 156; 125; 160; 205; 26; 65; 28].

Lemma inv_table_correct a : in_width 8 a -> a <> 0 -> 1 <= at_ INV_TABLE (Z.to_nat a) <= 255 /\ gmul a (at_ INV_TABLE (Z.to_nat a)) = 1.
Proof.
  intros Ha Hz. pose (P a := (a =? 0) || ((1 <=? at_ INV_TABLE (Z.to_nat a)) && (at_ INV_TABLE (Z.to_nat a) <=? 255) &&
    (gmul a (at_ INV_TABLE (Z.to_nat a)) =? 1))).
  assert (H : P a = true) by (apply byte_forall; [by vm_compute|done]). unfold P in H.
  destruct (Z.eqb_spec a 0); [done|]. cbn [orb] in H. apply andb_true_iff in H as [H H3]. apply andb_true_iff in H as [H1 H2].
  apply Z.leb_le in H1, H2. apply Z.eqb_eq in H3. done.
Qed.

Lemma gf_inv_correct a : in_width 8 a -> a <> 0 -> in_width 8 (gf_inv a) /\ gmul a (gf_inv a) = 1.
Proof.
  intros Ha Hz. unfold gf_inv. replace (a =? 0) with false by (symmetry; by apply Z.eqb_neq).
  destruct (List.find _ _) as [b|] eqn:E.
  - apply find_some in E as [Hin Hb]. apply list_elem_of_In, zseq_elem in Hin. apply Z.eqb_eq in Hb. change (default 0 (Some b)) with b.
    split; [unfold in_width; lia|done].
  - exfalso. destruct (inv_table_correct a Ha Hz) as [Hr H1].
    pose proof (find_none _ _ E (at_ INV_TABLE (Z.to_nat a))) as Hn. cbv beta in Hn. rewrite H1 in Hn. specialize (Hn ltac:(apply list_elem_of_In, zseq_elem; lia)). done.
Qed.

(** The matrix of the S-box, as GF2P8AFFINEINVQB takes it (row for bit 0 in byte 7). *)
Definition SBOX_MATRIX : Z := 0xF1E3C78F1F3E7CF8 + Z.shiftl 0xF1E3C78F1F3E7CF8 64.

Lemma sbox_affine_inverse b : in_width 8 b -> affine_byte (qword_of (qwords SBOX_MATRIX) 0) (gf_inv b) 0x63 = sub_byte b.
Proof.
  intros Hb. apply Z.eqb_eq.
  apply (byte_forall (fun b => affine_byte (qword_of (qwords SBOX_MATRIX) 0) (gf_inv b) 0x63 =? sub_byte b)); [|done].
  vm_compute. reflexivity.
Qed.

(** The S-box table of AES-NI is the one GFNI computes: GF2P8AFFINEINVQB with the
    affine matrix of FIPS-197 and constant 0x63 substitutes every byte as SubBytes does,
    and the inverse it is built on is the inverse of the field. *)
Theorem sbox_is_affine_inverse x :
  gf2p8affineinvqb x SBOX_MATRIX 0x63 = aes_from_bytes (sub_bytes (aes_to_bytes x)) /\
  forall a, in_width 8 a -> a <> 0 -> gmul a (gf_inv a) = 1.
Proof.
  split; [|intros a Ha Hz; by apply gf_inv_correct].
  unfold gf2p8affineinvqb, map_bytes, sub_bytes, aes_from_bytes. f_equal. apply list_fmap_ext. intros k i Hk.
  replace (qword_of (qwords SBOX_MATRIX) i) with (qword_of (qwords SBOX_MATRIX) 0).
  - apply sbox_affine_inverse, at_state, to_bytes_state.
  - unfold qword_of. destruct (i <? 8)%nat; reflexivity.
Qed.

(** ** Carry-less multiplication *)

(** The exclusive or of [f] over a range. *)
Definition xor_sum (f : Z -> bool) (l : list Z) : bool := foldl (fun b i => xorb b (f i)) false l.

Lemma foldl_xorb_start f l b : foldl (fun b i => xorb b (f i)) b l = xorb b (xor_sum f l).
Proof.
  unfold xor_sum. revert b. induction l as [|i l IH]; intros b; cbn [foldl]; [by rewrite xorb_false_r|].
  rewrite IH, (IH (xorb false (f i))). by rewrite xorb_false_l, xorb_assoc.
Qed.

Lemma xor_sum_cons f i l : xor_sum f (i :: l) = xorb (f i) (xor_sum f l).
Proof. unfold xor_sum. cbn [foldl]. rewrite foldl_xorb_start. by rewrite xorb_false_l. Qed.

Lemma xor_sum_app f l l' : xor_sum f (l ++ l') = xorb (xor_sum f l) (xor_sum f l').
Proof.
  induction l as [|i l IH]; [by rewrite app_nil_l, xorb_false_l|]. rewrite <- app_comm_cons, !xor_sum_cons, IH. by rewrite xorb_assoc.
Qed.

Lemma xor_sum_ext f g l : (forall i, i ∈ l -> f i = g i) -> xor_sum f l = xor_sum g l.
Proof.
  induction l as [|i l IH]; intros H; [done|]. rewrite !xor_sum_cons, H by left. f_equal. apply IH. intros. apply H. by right.
Qed.

Lemma xor_sum_rev f l : xor_sum f (rev l) = xor_sum f l.
Proof.
  induction l as [|i l IH]; [done|]. cbn [rev]. rewrite xor_sum_app, !xor_sum_cons, IH.
  change (xor_sum f []) with false. by rewrite xorb_false_r, xorb_comm.
Qed.

Lemma xor_sum_map f (g : Z -> Z) l : xor_sum f (g <$> l) = xor_sum (fun i => f (g i)) l.
Proof. induction l as [|i l IH]; [done|]. cbn [fmap list_fmap]. by rewrite !xor_sum_cons, IH. Qed.

Lemma foldl_xor_testbit (P : Z -> bool) (g : Z -> Z) l z k :
  Z.testbit (foldl (fun r i => if P i then r ⊕ g i else r) z l) k = xorb (Z.testbit z k) (xor_sum (fun i => P i && Z.testbit (g i) k) l).
Proof.
  revert z. induction l as [|i l IH]; intros z; cbn [foldl]; [by rewrite xorb_false_r|].
  rewrite IH, xor_sum_cons. destruct (P i); [|by rewrite xorb_false_l]. by rewrite Z.lxor_spec, xorb_assoc.
Qed.

(** The selected quadword of an operand. *)
Definition half (v : Z) (hi : bool) : Z := if hi then wrap 64 (Z.shiftr v 64) else wrap 64 v.

Lemma half_range v hi : in_width 64 (half v hi).
Proof. destruct hi; by apply wrap_range. Qed.

(** Coefficient [k] of the product of two polynomials. *)
Definition coefficient (x y k : Z) : bool := xor_sum (fun i => Z.testbit y i && Z.testbit x (k - i)) (zseq 0 64).

Lemma pclmul_bit a b imm k : 0 <= k < 128 ->
  Z.testbit (pclmul a b imm) k = coefficient (half a (test imm 0x01)) (half b (test imm 0x10)) k.
Proof.
  intros Hk. unfold pclmul. fold (half a (test imm 0x01)). fold (half b (test imm 0x10)).
  rewrite foldl_xor_testbit, Z.bits_0, xorb_false_l. apply xor_sum_ext. intros i Hi%zseq_elem. f_equal.
  - fold (test (Z.shiftr (half b (test imm 16)) i) 1). rewrite test_one, <- Z.bit0_odd, Z.shiftr_spec by lia. f_equal.
  - rewrite wrap_testbit, Z.shiftl_spec by lia. by replace (k <? 128) with true by (symmetry; apply Z.ltb_lt; lia).
Qed.

Lemma pclmul_range a b imm : in_width 128 (pclmul a b imm).
Proof.
  unfold pclmul. apply (foldl_inv (in_width 128)); [|by split]. intros r i Hr. destruct (negb _); [|done].
  apply in_width_lxor; [lia|done|by apply wrap_range].
Qed.

Lemma xor_sum_zero f l : (forall i, i ∈ l -> f i = false) -> xor_sum f l = false.
Proof.
  intros H. rewrite (xor_sum_ext f (fun _ => false)) by done. clear. induction l as [|i l IH]; [done|]. by rewrite xor_sum_cons, IH.
Qed.

Lemma xor_sum_prefix f n m : (n <= m)%nat -> (forall i, Z.of_nat n <= i < Z.of_nat m -> f i = false) ->
  xor_sum f (zseq 0 m) = xor_sum f (zseq 0 n).
Proof.
  intros Hn Hz. replace m with (n + (m - n))%nat by lia. rewrite zseq_app, xor_sum_app, (xor_sum_zero _ (zseq _ (m - n))).
  - by rewrite xorb_false_r.
  - intros i Hi%zseq_elem. apply Hz. lia.
Qed.

Lemma zseq_shift lo n : zseq (lo + 1) n = (fun i => i + 1) <$> zseq lo n.
Proof. revert lo. induction n as [|n IH]; intros lo; [done|]. cbn. f_equal. apply IH. Qed.

Lemma zseq_rev k : rev (zseq 0 (S k)) = (fun i => Z.of_nat k - i) <$> zseq 0 (S k).
Proof.
  induction k as [|k IH]; [done|]. rewrite zseq_snoc at 1. rewrite rev_app_distr, IH. cbn [rev app].
  change (zseq 0 (S (S k))) with (0 :: zseq (0 + 1) (S k)). rewrite zseq_shift. rewrite fmap_cons, <- list_fmap_compose.
  apply f_equal2; [lia|]. apply list_fmap_ext. intros ? i _. unfold compose. lia.
Qed.

Lemma coefficient_window x y k : in_width 64 x -> in_width 64 y -> 0 <= k < 128 ->
  coefficient x y k = xor_sum (fun i => Z.testbit y i && Z.testbit x (k - i)) (zseq 0 (S (Z.to_nat k))).
Proof.
  intros Hx Hy Hk. unfold coefficient. transitivity (xor_sum (fun i => Z.testbit y i && Z.testbit x (k - i)) (zseq 0 128)).
  - symmetry. apply xor_sum_prefix; [lia|]. intros i Hi. by rewrite (in_width_high 64 y) by (done || lia).
  - apply xor_sum_prefix; [lia|]. intros i Hi. rewrite (Z.testbit_neg_r x) by lia. apply andb_false_r.
Qed.

Lemma coefficient_comm x y k : in_width 64 x -> in_width 64 y -> 0 <= k < 128 -> coefficient x y k = coefficient y x k.
Proof.
  intros Hx Hy Hk. rewrite !coefficient_window by done. rewrite <- xor_sum_rev, zseq_rev, xor_sum_map.
  apply xor_sum_ext. intros i Hi. rewrite Z2Nat.id, andb_comm by lia. do 2 f_equal. lia.
Qed.

(** PCLMULQDQ is the product of two polynomials over GF(2): bit [k] of the result is
    the exclusive or of the products of coefficients whose degrees add to [k], for the
    quadwords the immediate selects; nothing overflows 128 bits, and swapping the
    operands with their selectors gives the same product. *)
Theorem pclmul_exact a b imm :
  in_width 128 (pclmul a b imm) /\
  (forall k, 0 <= k < 128 ->
     Z.testbit (pclmul a b imm) k = coefficient (half a (test imm 0x01)) (half b (test imm 0x10)) k) /\
  forall imm', test imm' 0x01 = test imm 0x10 -> test imm' 0x10 = test imm 0x01 -> pclmul b a imm' = pclmul a b imm.
Proof.
  split; [apply pclmul_range|]. split; [intros; by apply pclmul_bit|]. intros imm' H1 H2.
  apply Z.bits_inj'. intros k Hk. destruct (Z.lt_ge_cases k 128) as [Hk'|Hk'].
  - rewrite !pclmul_bit, H1, H2 by lia. apply coefficient_comm; [apply half_range..|lia].
  - by rewrite !(in_width_high 128) by (apply pclmul_range || lia).
Qed.

Lemma sbox_is_affine_inverse_witness : gmul 0x53 (gf_inv 0x53) = 1.
Proof. exact (proj2 (sbox_is_affine_inverse 0) 0x53 ltac:(split; done) ltac:(done)). Defined.

Lemma pclmul_exact_witness : pclmul 0x5000000000000000F 7 0x01 = pclmul 7 0x5000000000000000F 0x10.
Proof. symmetry. exact (proj2 (proj2 (pclmul_exact 0x5000000000000000F 7 0x01)) 0x10 eq_refl eq_refl). Defined.
