(* ===== verification/Sha.v ===== *)
(** * SHA-1 and SHA-256 primitives (x86jit-core/src/sha.rs)

    The SHA-NI instructions over the four dwords of a register, and their relation to
    the hash functions of FIPS 180-4: round functions, message schedules and whole
    compressions. *)

From S2P Require Import Prelude.

(** ** sha.rs *)

Definition Dwords : Type := Z * Z * Z * Z.

(** [dw0] is bits 31:0. *)
Definition dwords (x : Z) : Dwords :=
  (wrap 32 x, wrap 32 (Z.shiftr x 32), wrap 32 (Z.shiftr x 64), wrap 32 (Z.shiftr x 96)).
Definition from_dwords (d : Dwords) : Z :=
  let '(d0, d1, d2, d3) := d in
  Z.lor (Z.lor (Z.lor d0 (Z.shiftl d1 32)) (Z.shiftl d2 64)) (Z.shiftl d3 96).

Definition add32 (a b : Z) : Z := wrapping_add 32 a b.
Definition rotr (x n : Z) : Z := rotate_right 32 x n.
Definition rotl (x n : Z) : Z := rotate_left 32 x n.
Definition not32 (x : Z) : Z := unot 32 x.

Definition ch (x y z : Z) : Z := Z.lxor (Z.land x y) (Z.land (not32 x) z).
Definition maj (x y z : Z) : Z := Z.lxor (Z.lxor (Z.land x y) (Z.land x z)) (Z.land y z).
Definition big_sigma0 (x : Z) : Z := Z.lxor (Z.lxor (rotr x 2) (rotr x 13)) (rotr x 22).
Definition big_sigma1 (x : Z) : Z := Z.lxor (Z.lxor (rotr x 6) (rotr x 11)) (rotr x 25).
Definition small_sigma0 (x : Z) : Z := Z.lxor (Z.lxor (rotr x 7) (rotr x 18)) (Z.shiftr x 3).
Definition small_sigma1 (x : Z) : Z := Z.lxor (Z.lxor (rotr x 17) (rotr x 19)) (Z.shiftr x 10).

(** The working variables [a .. h]. *)
Definition Vars : Type := Z * Z * Z * Z * Z * Z * Z * Z.

(** One turn of the loop of [sha256rnds2]. *)
Definition rnds2_round (v : Vars) (wk_i : Z) : Vars :=
  let '(a, b, c, dd, e, f, g, h) := v in
  let t1 := add32 (add32 (add32 h (big_sigma1 e)) (ch e f g)) wk_i in
  let t2 := add32 (big_sigma0 a) (maj a b c) in
  (add32 t1 t2, a, b, c, add32 dd t1, e, f, g).

Definition sha256rnds2 (dst src wk : Z) : Z :=
  let '(s0, s1, s2, s3) := dwords src in
  let '(d0, d1, d2, d3) := dwords dst in
  let '(w0, w1, _, _) := dwords wk in
  let '(a, b, _, _, e, f, _, _) := foldl rnds2_round (s3, s2, d3, d2, s1, s0, d1, d0) [w0; w1] in
  from_dwords (f, e, b, a).

Definition sha256msg1 (dst src : Z) : Z :=
  let '(w0, w1, w2, w3) := dwords dst in
  let '(w4, _, _, _) := dwords src in
  from_dwords (add32 w0 (small_sigma0 w1), add32 w1 (small_sigma0 w2), add32 w2 (small_sigma0 w3), add32 w3 (small_sigma0 w4)).

Definition sha256msg2 (dst src : Z) : Z :=
  let '(w0, w1, w2, w3) := dwords dst in
  let '(_, _, s2, s3) := dwords src in
  let w16 := add32 w0 (small_sigma1 s2) in
  let w17 := add32 w1 (small_sigma1 s3) in
  let w18 := add32 w2 (small_sigma1 w16) in
  let w19 := add32 w3 (small_sigma1 w17) in
  from_dwords (w16, w17, w18, w19).

Definition f0_ch (b c d : Z) : Z := Z.lor (Z.land b c) (Z.land (not32 b) d).
Definition f1_parity (b c d : Z) : Z := Z.lxor (Z.lxor b c) d.
Definition f2_maj (b c d : Z) : Z := Z.lor (Z.lor (Z.land b c) (Z.land b d)) (Z.land c d).

Definition sha1_f (sel b c d : Z) : Z * Z :=
  match Z.land sel 3 with
  | 0 => (f0_ch b c d, 0x5A827999)
  | 1 => (f1_parity b c d, 0x6ED9EBA1)
  | 2 => (f2_maj b c d, 0x8F1BBCDC)
  | _ => (f1_parity b c d, 0xCA62C1D6)
  end.

(** One turn of the loop of [sha1rnds4] on [(a, b, c, d, e)]; [first] is [i == 0]. *)
Definition rnds4_round (imm : Z) (v : Z * Z * Z * Z * Z) (w : bool * Z) : Z * Z * Z * Z * Z :=
  let '(a, b, c, d, e) := v in
  let '(first, w_i) := w in
  let '(fval, k) := sha1_f imm b c d in
  let t := add32 (add32 (add32 fval (rotl a 5)) w_i) k in
  let t := if negb first then add32 t e else t in
  (t, a, rotl b 30, c, d).

Definition sha1rnds4 (dst src imm : Z) : Z :=
  let '(d, c, b, a) := dwords dst in
  let '(w3, w2, w1, w0) := dwords src in
  let '(a, b, c, d, _) := foldl (rnds4_round imm) (a, b, c, d, 0) [(true, w0); (false, w1); (false, w2); (false, w3)] in
  from_dwords (d, c, b, a).

Definition sha1nexte (dst src : Z) : Z :=
  let '(_, _, _, x3) := dwords dst in
  let '(s0, s1, s2, s3) := dwords src in
  from_dwords (s0, s1, s2, add32 s3 (rotl x3 30)).

Definition sha1msg1 (dst src : Z) : Z :=
  let '(x0, x1, x2, x3) := dwords dst in
  let '(_, _, s2, s3) := dwords src in
  from_dwords (Z.lxor x0 s2, Z.lxor x1 s3, Z.lxor x2 x0, Z.lxor x3 x1).

Definition sha1msg2 (dst src : Z) : Z :=
  let '(x0, x1, x2, x3) := dwords dst in
  let '(s0, s1, s2, _) := dwords src in
  let w16 := rotl (Z.lxor x3 s2) 1 in
  let w17 := rotl (Z.lxor x2 s1) 1 in
  let w18 := rotl (Z.lxor x1 s0) 1 in
  let w19 := rotl (Z.lxor x0 w16) 1 in
  from_dwords (w19, w18, w17, w16).

(** ** Dword packing *)

Definition words (d : Dwords) : Prop :=
  let '(d0, d1, d2, d3) := d in in_width 32 d0 /\ in_width 32 d1 /\ in_width 32 d2 /\ in_width 32 d3.

Lemma from_dwords_sum d0 d1 d2 d3 : words (d0, d1, d2, d3) ->
  from_dwords (d0, d1, d2, d3) = d0 + d1 * 2 ^ 32 + d2 * 2 ^ 64 + d3 * 2 ^ 96.
Proof.
  intros (H0 & H1 & H2 & H3). unfold from_dwords, in_width in *.
  rewrite (Z.lor_comm d0), lor_shifted by (done || lia).
  rewrite (Z.lor_comm (d1 * 2 ^ 32 + d0)), lor_shifted by (unfold in_width; lia).
  rewrite (Z.lor_comm (d2 * 2 ^ 64 + _)), lor_shifted by (unfold in_width; lia). lia.
Qed.

Lemma dwords_from_dwords d : words d -> dwords (from_dwords d) = d.
Proof.
  destruct d as [[[d0 d1] d2] d3]. intros Hw. pose proof Hw as (H0 & H1 & H2 & H3). rewrite from_dwords_sum by done.
  unfold dwords, in_width, wrap in *. rewrite !Z.shiftr_div_pow2 by lia.
  set (x := d0 + d1 * 2 ^ 32 + d2 * 2 ^ 64 + d3 * 2 ^ 96).
  assert (E1 : x / 2 ^ 32 = d1 + d2 * 2 ^ 32 + d3 * 2 ^ 64) by (symmetry; apply Z.div_unique with d0; unfold x; lia).
  assert (E2 : x / 2 ^ 64 = d2 + d3 * 2 ^ 32) by (symmetry; apply Z.div_unique with (d0 + d1 * 2 ^ 32); unfold x; lia).
  assert (E3 : x / 2 ^ 96 = d3) by (symmetry; apply Z.div_unique with (d0 + d1 * 2 ^ 32 + d2 * 2 ^ 64); unfold x; lia).
  rewrite E1, E2, E3. repeat f_equal; symmetry.
  - apply Z.mod_unique with (d1 + d2 * 2 ^ 32 + d3 * 2 ^ 64); unfold x; lia.
  - apply Z.mod_unique with (d2 + d3 * 2 ^ 32); lia.
  - apply Z.mod_unique with d3; lia.
  - symmetry. apply Z.mod_small. lia.
Qed.

Lemma dwords_words x : words (dwords x).
Proof. repeat split; apply (wrap_range 32); lia. Qed.

(** ** FIPS 180-4

    The reference: every function is given by its bits ([ROTR^n] reads bit
    [(i + n) mod 32], [Ch] selects, [Maj] takes the majority), sums are taken in [Z]
    and reduced once, and a message schedule is a sequence of words that satisfies the
    standard's recurrence. *)

Definition of_bits (f : Z -> bool) : Z :=
  foldl (fun acc i => acc + (if f i then 2 ^ i else 0)) 0 (zseq 0 32).

Definition fips_rotr (x n i : Z) : bool := Z.testbit x ((i + n) mod 32).
Definition fips_rotl (x n : Z) : Z := of_bits (fun i => Z.testbit x ((i - n) mod 32)).
Definition fips_Ch (x y z : Z) : Z := of_bits (fun i => if Z.testbit x i then Z.testbit y i else Z.testbit z i).
Definition fips_Maj (x y z : Z) : Z :=
  of_bits (fun i => if Bool.eqb (Z.testbit x i) (Z.testbit y i) then Z.testbit x i else Z.testbit z i).
Definition fips_Parity (x y z : Z) : Z := of_bits (fun i => xorb (xorb (Z.testbit x i) (Z.testbit y i)) (Z.testbit z i)).
Definition fips_Sigma (r1 r2 r3 x : Z) : Z :=
  of_bits (fun i => xorb (xorb (fips_rotr x r1 i) (fips_rotr x r2 i)) (fips_rotr x r3 i)).
Definition fips_sigma (r1 r2 s x : Z) : Z :=
  of_bits (fun i => xorb (xorb (fips_rotr x r1 i) (fips_rotr x r2 i)) (Z.testbit x (i + s))).

(** Section 6.2.2, step 3. *)
Definition fips256_round (W K : nat -> Z) (v : Vars) (t : nat) : Vars :=
  let '(a, b, c, d, e, f, g, h) := v in
  let T1 := h + fips_Sigma 6 11 25 e + fips_Ch e f g + K t + W t in
  let T2 := fips_Sigma 2 13 22 a + fips_Maj a b c in
  (wrap 32 (T1 + T2), a, b, c, wrap 32 (d + T1), e, f, g).

(** Section 6.2.2, step 1. *)
Definition fips256_schedule (W : nat -> Z) : Prop :=
  forall t, W (16 + t)%nat = wrap 32 (fips_sigma 17 19 10 (W (14 + t)%nat) + W (9 + t)%nat + fips_sigma 7 18 3 (W (1 + t)%nat) + W t).

(** Section 6.1.2, steps 1 and 3; [sel] is [t / 20]. *)
Definition fips1_f (sel : nat) (b c d : Z) : Z :=
  match sel with O => fips_Ch b c d | 2%nat => fips_Maj b c d | _ => fips_Parity b c d end.
Definition fips1_K (sel : nat) : Z :=
  match sel with O => 0x5A827999 | 1%nat => 0x6ED9EBA1 | 2%nat => 0x8F1BBCDC | _ => 0xCA62C1D6 end.
Definition fips1_round (W : nat -> Z) (v : Z * Z * Z * Z * Z) (t : nat) : Z * Z * Z * Z * Z :=
  let '(a, b, c, d, e) := v in
  let sel := (t / 20)%nat in
  (wrap 32 (fips_rotl a 5 + fips1_f sel b c d + e + fips1_K sel + W t), a, fips_rotl b 30, c, d).
Definition fips1_schedule (W : nat -> Z) : Prop :=
  forall t, W (16 + t)%nat = fips_rotl (Z.lxor (fips_Parity (W (13 + t)%nat) (W (8 + t)%nat) (W (2 + t)%nat)) (W t)) 1.

(** ** The reference functions are the ones of the code *)

Lemma of_bits_spec f i : 0 <= i -> Z.testbit (of_bits f) i = (i <? 32) && f i.
Proof.
  intros Hi. unfold of_bits.
  assert (H : forall n, in_width (Z.of_nat n) (foldl (fun acc i => acc + (if f i then 2 ^ i else 0)) 0 (zseq 0 n)) /\
    Z.testbit (foldl (fun acc i => acc + (if f i then 2 ^ i else 0)) 0 (zseq 0 n)) i = (i <? Z.of_nat n) && f i);
    [|by apply (H 32%nat)].
  induction n as [|n [IHr IHb]]; [cbn [zseq foldl]; rewrite Z.testbit_0_l; split; [by unfold in_width; lia|destruct (Z.ltb_spec i (Z.of_nat 0)); [lia|done]]|].
  rewrite zseq_snoc, foldl_app. cbn [foldl]. replace (0 + Z.of_nat n) with (Z.of_nat n) by lia.
  set (s := foldl _ _ _) in *. set (k := Z.of_nat n) in *.
  assert (E : s + (if f k then 2 ^ k else 0) = Z.lor (Z.shiftl (b2z (f k)) k) s)
    by (rewrite lor_shifted by (done || lia); destruct (f k); simpl; lia).
  rewrite Nat2Z.inj_succ. fold k. split.
  - unfold in_width in *. rewrite Z.pow_succ_r by lia. destruct (f k); lia.
  - rewrite E, Z.lor_spec, IHb, Z.shiftl_spec, b2z_testbit by lia.
    destruct (Z.eqb_spec (i - k) 0).
    + replace i with k by lia. destruct (Z.ltb_spec k (Z.succ k)), (Z.ltb_spec k k); try lia; simpl. btauto.
    + destruct (Z.ltb_spec i (Z.succ k)), (Z.ltb_spec i k); try lia; btauto.
Qed.

Lemma of_bits_range f : in_width 32 (of_bits f).
Proof.
  apply in_width_bits; [lia| |].
  - unfold of_bits. apply (foldl_inv (Z.le 0)); [|lia]. intros a b Ha. destruct (f b); [|lia]. pose proof (Z.pow_nonneg 2 b). lia.
  - intros i Hi. rewrite of_bits_spec by lia. destruct (Z.ltb_spec i 32); [lia|done].
Qed.

Lemma rotr32_range x n : in_width 32 (rotr x n).
Proof. apply (wrap_range 32). lia. Qed.
Lemma rotl32_range x n : in_width 32 (rotl x n).
Proof. apply (wrap_range 32). lia. Qed.
Lemma add32_range a b : in_width 32 (add32 a b).
Proof. apply (wrap_range 32). lia. Qed.
Lemma not32_range a : in_width 32 (not32 a).
Proof. apply (wrap_range 32). lia. Qed.
#[export] Hint Resolve rotr32_range rotl32_range add32_range not32_range of_bits_range : width.

(** A word is determined by its 32 bits. *)
Lemma is_of_bits x f : in_width 32 x -> (forall i, 0 <= i < 32 -> Z.testbit x i = f i) -> x = of_bits f.
Proof.
  intros Hx Hf. apply Z.bits_inj'. intros i Hi. rewrite of_bits_spec by done.
  destruct (Z.ltb_spec i 32); [by apply Hf|by rewrite (in_width_high 32)].
Qed.

Lemma not32_bit x i : 0 <= i < 32 -> Z.testbit (not32 x) i = negb (Z.testbit x i).
Proof. intros Hi. unfold not32, unot. rewrite wrap_testbit, Z.lnot_spec by lia. by destruct (Z.ltb_spec i 32); [|lia]. Qed.

Ltac word_range :=
  repeat first [apply in_width_lxor | apply in_width_lor | apply in_width_land | apply in_width_shiftr
               | solve [eauto using in_width_nonneg with width] | lia].

Ltac by_bits :=
  apply is_of_bits; [solve [word_range]|];
  intros i Hi; rewrite ?Z.lxor_spec, ?Z.lor_spec, ?Z.land_spec, ?not32_bit, ?Z.shiftr_spec by lia.

Section Agree.
Context (x y z : Z) (Hx : in_width 32 x) (Hy : in_width 32 y) (Hz : in_width 32 z).

Lemma rotr_fips n i : 0 <= i < 32 -> Z.testbit (rotr x n) i = fips_rotr x n i.
Proof. intros Hi. by apply rotate_right_bit. Qed.

Lemma rotl_fips n : rotl x n = fips_rotl x n.
Proof. by_bits. by apply rotate_left_bit. Qed.

Lemma ch_fips : ch x y z = fips_Ch x y z.
Proof. unfold ch. by_bits. destruct (Z.testbit x i); btauto. Qed.

Lemma maj_fips : maj x y z = fips_Maj x y z.
Proof. unfold maj. by_bits. destruct (Z.testbit x i), (Z.testbit y i), (Z.testbit z i); done. Qed.

Lemma f0_ch_fips : f0_ch x y z = fips_Ch x y z.
Proof. unfold f0_ch. by_bits. destruct (Z.testbit x i); btauto. Qed.

Lemma f1_parity_fips : f1_parity x y z = fips_Parity x y z.
Proof. unfold f1_parity. by_bits. done. Qed.

Lemma f2_maj_fips : f2_maj x y z = fips_Maj x y z.
Proof. unfold f2_maj. by_bits. destruct (Z.testbit x i), (Z.testbit y i), (Z.testbit z i); done. Qed.

Lemma big_sigma0_fips : big_sigma0 x = fips_Sigma 2 13 22 x.
Proof. unfold big_sigma0. by_bits. by rewrite !rotr_fips. Qed.

Lemma big_sigma1_fips : big_sigma1 x = fips_Sigma 6 11 25 x.
Proof. unfold big_sigma1. by_bits. by rewrite !rotr_fips. Qed.

Lemma small_sigma0_fips : small_sigma0 x = fips_sigma 7 18 3 x.
Proof. unfold small_sigma0. by_bits. by rewrite !rotr_fips. Qed.

Lemma small_sigma1_fips : small_sigma1 x = fips_sigma 17 19 10 x.
Proof. unfold small_sigma1. by_bits. by rewrite !rotr_fips. Qed.
End Agree.

(** The wrapping sums of the code are the reference's sums reduced once. *)
Lemma add32_wrap_l a b : add32 (wrap 32 a) b = wrap 32 (a + b).
Proof. apply (wrap_add_l 32). lia. Qed.
Lemma add32_wrap_r a b : add32 a (wrap 32 b) = wrap 32 (a + b).
Proof. apply (wrap_add_r 32). lia. Qed.
Lemma add32_wrap a b : add32 a b = wrap 32 (a + b).
Proof. done. Qed.

(** ** Software built on the instructions

    The loops a program runs on these instructions, with the dword shuffles that
    surround them: four rounds of SHA-256 per turn on the registers [ABEF] and [CDGH],
    four rounds of SHA-1 per turn on [ABCD] and [E], and the next four schedule words
    computed from the last sixteen. *)

Definition paddd (x y : Z) : Z :=
  let '(x0, x1, x2, x3) := dwords x in let '(y0, y1, y2, y3) := dwords y in
  from_dwords (add32 x0 y0, add32 x1 y1, add32 x2 y2, add32 x3 y3).
Definition high_half (x : Z) : Z := let '(_, _, x2, x3) := dwords x in from_dwords (x2, x3, 0, 0).
Definition align4 (hi lo : Z) : Z :=
  let '(_, l1, l2, l3) := dwords lo in let '(h0, _, _, _) := dwords hi in from_dwords (l1, l2, l3, h0).

Definition quad (f : nat -> Z) (t : nat) : Z := from_dwords (f t, f (1 + t)%nat, f (2 + t)%nat, f (3 + t)%nat).
Definition quad_rev (f : nat -> Z) (t : nat) : Z := from_dwords (f (3 + t)%nat, f (2 + t)%nat, f (1 + t)%nat, f t).

Definition abef (v : Vars) : Z := let '(a, b, _, _, e, f, _, _) := v in from_dwords (f, e, b, a).
Definition cdgh (v : Vars) : Z := let '(_, _, c, d, _, _, g, h) := v in from_dwords (h, g, d, c).

Definition Msgs : Type := Z * Z * Z * Z.

Definition ni_sha256_step (K : nat -> Z) (st : Z * Z * Msgs) (i : nat) : Z * Z * Msgs :=
  let '(s0, s1, (m0, m1, m2, m3)) := st in
  let wk := paddd m0 (quad K (4 * i)) in
  let s1' := sha256rnds2 s1 s0 wk in
  let s0' := sha256rnds2 s0 s1' (high_half wk) in
  let m4 := sha256msg2 (paddd (sha256msg1 m0 m1) (align4 m3 m2)) m3 in
  (s0', s1', (m1, m2, m3, m4)).

Definition abcd (v : Z * Z * Z * Z * Z) : Z := let '(a, b, c, d, _) := v in from_dwords (d, c, b, a).

(** [e] is the register that holds [E] added into the first of the next four words. *)
Definition ni_sha1_step (st : Z * Z * Msgs) (i : nat) : Z * Z * Msgs :=
  let '(s, e, (m0, m1, m2, m3)) := st in
  let s' := sha1rnds4 s e (Z.of_nat (i / 5)) in
  let m4 := sha1msg2 (Z.lxor (sha1msg1 m0 m1) m2) m3 in
  (s', sha1nexte s m1, (m1, m2, m3, m4)).

Definition word_seq (W : nat -> Z) : Prop := forall t, in_width 32 (W t).
Definition words5 (v : Z * Z * Z * Z * Z) : Prop :=
  let '(a, b, c, d, e) := v in words (a, b, c, d) /\ in_width 32 e.
Definition words8 (v : Vars) : Prop :=
  let '(a, b, c, d, e, f, g, h) := v in words (a, b, c, d) /\ words (e, f, g, h).

Ltac split_words :=
  unfold words; repeat match goal with |- _ /\ _ => split end;
  first [assumption | apply (wrap_range 32); lia | solve [word_range]].

Lemma add32_sum4 a b c d e : add32 (add32 (add32 a b) c) (add32 d e) = wrap 32 (a + b + c + e + d).
Proof. rewrite (add32_wrap a b), add32_wrap_l, (add32_wrap d), add32_wrap_l, wrap_add_r by lia. f_equal. lia. Qed.

Lemma add32_sum3 a b c d : add32 (add32 (add32 a b) c) d = wrap 32 (a + b + c + d).
Proof. by rewrite (add32_wrap a b), !add32_wrap_l. Qed.

Lemma rnds2_round_fips W K v t : words8 v -> word_seq W ->
  rnds2_round v (add32 (W t) (K t)) = fips256_round W K v t.
Proof.
  destruct v as [[[[[[[a b] c] d] e] f] g] h]. intros ((Ha & Hb & Hc & Hd) & He & Hf & Hg & Hh) HW.
  unfold rnds2_round, fips256_round. rewrite big_sigma0_fips, big_sigma1_fips, ch_fips, maj_fips by done.
  by rewrite !(add32_sum4 h), add32_wrap_l, (add32_wrap (fips_Sigma _ _ _ _)), wrap_add_r, add32_wrap_r by lia.
Qed.

Lemma rnds4_round_fips imm sel W v t (w0 : bool) : words5 v -> word_seq W -> imm = Z.of_nat sel -> (sel < 4)%nat -> (t / 20)%nat = sel ->
  rnds4_round imm v (w0, if w0 then add32 (W t) (snd v) else W t) = fips1_round W v t.
Proof.
  destruct v as [[[[a b] c] d] e]. intros ((Ha & Hb & Hc & Hd) & He) HW -> Hs Ht.
  unfold rnds4_round, fips1_round. rewrite Ht, !rotl_fips by done.
  assert (E : sha1_f (Z.of_nat sel) b c d = (fips1_f sel b c d, fips1_K sel)).
  { unfold sha1_f. rewrite f0_ch_fips, f1_parity_fips, f2_maj_fips by done.
    unfold fips1_f. generalize (fips_Ch b c d), (fips_Parity b c d), (fips_Maj b c d). intros.
    destruct sel as [|[|[|[|]]]]; [reflexivity..|lia]. }
  rewrite E. cbn [snd]. destruct w0; cbn [negb].
  - rewrite (add32_wrap (W t)), (add32_wrap (fips1_f _ _ _ _)), add32_wrap_l, wrap_add_r, add32_wrap_l by lia.
    do 4 f_equal. f_equal. lia.
  - rewrite (add32_sum3 (fips1_f _ _ _ _)), add32_wrap_l. do 4 f_equal. f_equal. lia.
Qed.

Lemma fips256_round_words W K v t : words8 v -> words8 (fips256_round W K v t).
Proof.
  destruct v as [[[[[[[a b] c] d] e] f] g] h]. intros ((Ha & Hb & Hc & Hd) & He & Hf & Hg & Hh).
  cbn [fips256_round words8 words]. split_words.
Qed.

Lemma fips1_round_words W v t : words5 v -> words5 (fips1_round W v t).
Proof.
  destruct v as [[[[a b] c] d] e]. intros ((Ha & Hb & Hc & Hd) & He).
  cbn [fips1_round words5 words]. split_words.
Qed.

(** Two rounds with [wk] holding the two sums of message word and constant; the
    register not written already holds the other half of the new state. *)
Lemma sha256rnds2_fips W K v t w2 w3 : words8 v -> word_seq W -> in_width 32 w2 -> in_width 32 w3 ->
  let v' := fips256_round W K (fips256_round W K v t) (S t) in
  sha256rnds2 (cdgh v) (abef v) (from_dwords (add32 (W t) (K t), add32 (W (S t)) (K (S t)), w2, w3)) = abef v' /\
  cdgh v' = abef v.
Proof.
  intros Hv HW H2 H3. set (v1 := fips256_round W K v t). cbv zeta. split.
  - assert (E1 : rnds2_round v (add32 (W t) (K t)) = v1) by (by apply rnds2_round_fips).
    assert (E2 : rnds2_round v1 (add32 (W (S t)) (K (S t))) = fips256_round W K v1 (S t))
      by (apply rnds2_round_fips; [by apply fips256_round_words|done]).
    rewrite <- E2, <- E1. clearbody v1. clear E1 E2.
    destruct v as [[[[[[[a b] c] d] e] f] g] h]. destruct Hv as ((Ha & Hb & Hc & Hd) & He & Hf & Hg & Hh).
    unfold sha256rnds2, abef, cdgh. rewrite !dwords_from_dwords by (cbn [words]; split_words). reflexivity.
  - unfold v1. by destruct v as [[[[[[[a b] c] d] e] f] g] h].
Qed.

Lemma sched256_word W t : word_seq W -> fips256_schedule W ->
  add32 (add32 (add32 (W t) (small_sigma0 (W (1 + t)%nat))) (W (9 + t)%nat)) (small_sigma1 (W (14 + t)%nat)) = W (16 + t)%nat.
Proof. intros HW HS. rewrite HS, small_sigma0_fips, small_sigma1_fips, add32_sum3 by apply HW. f_equal. lia. Qed.

Lemma sched1_word W t : word_seq W -> fips1_schedule W ->
  rotl (Z.lxor (Z.lxor (Z.lxor (W t) (W (2 + t)%nat)) (W (8 + t)%nat)) (W (13 + t)%nat)) 1 = W (16 + t)%nat.
Proof.
  intros HW HS. rewrite HS, <- f1_parity_fips by apply HW. pose proof (fun t => HW t) as HW'.
  rewrite rotl_fips by (repeat apply in_width_lxor; (lia || apply HW)).
  f_equal. unfold f1_parity. generalize (W t), (W (2 + t)%nat), (W (8 + t)%nat), (W (13 + t)%nat). intros. zbits.
Qed.

Ltac unpack HW := rewrite ?dwords_from_dwords by (cbn [words]; unfold words; repeat match goal with |- _ /\ _ => split end;
  first [apply HW | apply (wrap_range 32); lia | solve [repeat apply in_width_lxor; first [lia | apply HW | word_range]]]).

Lemma sha256_schedule_step W t : word_seq W -> fips256_schedule W ->
  sha256msg2 (paddd (sha256msg1 (quad W t) (quad W (4 + t))) (align4 (quad W (12 + t)) (quad W (8 + t)))) (quad W (12 + t)) =
  quad W (16 + t).
Proof.
  intros HW HS. unfold sha256msg2, paddd, sha256msg1, align4, quad.
  unpack HW. unpack HW. unpack HW.
  pose proof (sched256_word W t HW HS) as E0. pose proof (sched256_word W (1 + t) HW HS) as E1.
  pose proof (sched256_word W (2 + t) HW HS) as E2. pose proof (sched256_word W (3 + t) HW HS) as E3.
  simpl Nat.add in *. by rewrite E0, E1, E2, E3.
Qed.

Lemma dwords_lxor x y :
  dwords (Z.lxor x y) =
  (let '(x0, x1, x2, x3) := dwords x in let '(y0, y1, y2, y3) := dwords y in
   (Z.lxor x0 y0, Z.lxor x1 y1, Z.lxor x2 y2, Z.lxor x3 y3)).
Proof.
  assert (E : forall n, wrap 32 (Z.shiftr (Z.lxor x y) n) = Z.lxor (wrap 32 (Z.shiftr x n)) (wrap 32 (Z.shiftr y n))).
  { intros n. apply Z.bits_inj'. intros i Hi. rewrite Z.shiftr_lxor, Z.lxor_spec, !wrap_testbit, Z.lxor_spec by lia. btauto. }
  unfold dwords. pose proof (E 0) as E0. rewrite !Z.shiftr_0_r in E0. by rewrite E0, !E.
Qed.

Lemma sha1_schedule_step W t : word_seq W -> fips1_schedule W ->
  sha1msg2 (Z.lxor (sha1msg1 (quad_rev W t) (quad_rev W (4 + t))) (quad_rev W (8 + t))) (quad_rev W (12 + t)) =
  quad_rev W (16 + t).
Proof.
  intros HW HS. unfold sha1msg2. rewrite dwords_lxor. unfold sha1msg1, quad_rev.
  unpack HW. unpack HW.
  pose proof (sched1_word W t HW HS) as E0. pose proof (sched1_word W (1 + t) HW HS) as E1.
  pose proof (sched1_word W (2 + t) HW HS) as E2. pose proof (sched1_word W (3 + t) HW HS) as E3.
  simpl Nat.add in *. by rewrite E0, E1, E2, E3.
Qed.

(** The packed sum of four message words and four constants. *)
Lemma paddd_quads W K t : word_seq W -> word_seq K ->
  let s i := add32 (W (i + t)%nat) (K (i + t)%nat) in
  paddd (quad W t) (quad K t) = from_dwords (s 0%nat, s 1%nat, s 2%nat, s 3%nat) /\
  high_half (paddd (quad W t) (quad K t)) = from_dwords (s 2%nat, s 3%nat, 0, 0).
Proof.
  intros HW HK. cbv zeta. unfold high_half, paddd, quad. unpack HW. unpack HK. unpack HW. done.
Qed.

Lemma ni_sha256_step_fips W K v i : words8 v -> word_seq W -> word_seq K -> fips256_schedule W ->
  ni_sha256_step K (abef v, cdgh v, (quad W (4 * i), quad W (4 + 4 * i), quad W (8 + 4 * i), quad W (12 + 4 * i))) i =
  let v' := foldl (fips256_round W K) v (seq (4 * i) 4) in
  (abef v', cdgh v', (quad W (4 + 4 * i), quad W (8 + 4 * i), quad W (12 + 4 * i), quad W (16 + 4 * i))).
Proof.
  intros Hv HW HK HS. unfold ni_sha256_step. rewrite sha256_schedule_step by done.
  destruct (paddd_quads W K (4 * i) HW HK) as [E1 E2]. cbv zeta in E1, E2. rewrite E2, E1. clear E1 E2.
  generalize (4 * i)%nat. intros t. cbn [seq foldl]. cbv zeta.
  set (v2 := fips256_round W K (fips256_round W K v t) (S t)).
  assert (Hv2 : words8 v2) by (by do 2 apply fips256_round_words).
  destruct (sha256rnds2_fips W K v t (add32 (W (2 + t)%nat) (K (2 + t)%nat)) (add32 (W (3 + t)%nat) (K (3 + t)%nat)))
    as [E1 E2]; [done..|apply add32_range|apply add32_range|].
  destruct (sha256rnds2_fips W K v2 (2 + t) 0 0 Hv2 HW) as [E3 E4]; [done..|].
  fold v2 in E1, E2. change (0 + t)%nat with t. change (1 + t)%nat with (S t). rewrite E1.
  rewrite <- E2. change (3 + t)%nat with (S (2 + t)). rewrite E3. rewrite <- E4. done.
Qed.

(** [E] added into the first of the four words of the next turn. *)
Definition ereg (W : nat -> Z) (v : Z * Z * Z * Z * Z) (t : nat) : Z :=
  from_dwords (W (3 + t)%nat, W (2 + t)%nat, W (1 + t)%nat, add32 (W t) (snd v)).

Lemma sha1rnds4_fips W v i : words5 v -> word_seq W -> (i < 20)%nat ->
  sha1rnds4 (abcd v) (ereg W v (4 * i)) (Z.of_nat (i / 5)) = abcd (foldl (fips1_round W) v (seq (4 * i) 4)).
Proof.
  intros Hv HW Hi. set (v0 := v). destruct v as [[[[a b] c] d] e].
  unfold sha1rnds4, ereg. cbn [seq foldl].
  assert (Hsel : forall j, (j < 4)%nat -> ((j + 4 * i) / 20 = i / 5)%nat).
  { intros j Hj. symmetry. apply (Nat.div_unique _ _ _ (4 * (i mod 5) + j)); pose proof (Nat.mod_upper_bound i 5);
      pose proof (Nat.div_mod i 5); lia. }
  assert (Hlt : (i / 5 < 4)%nat) by (apply Nat.Div0.div_lt_upper_bound; lia).
  assert (R : forall (w0 : bool) j v, (j < 4)%nat -> words5 v ->
    rnds4_round (Z.of_nat (i / 5)) v (w0, if w0 then add32 (W (j + 4 * i)%nat) (snd v) else W (j + 4 * i)%nat) = fips1_round W v (j + 4 * i)%nat).
  { intros w0 j v Hj Hw. apply (rnds4_round_fips _ (i / 5)); auto. }
  assert (E0 : rnds4_round (Z.of_nat (i / 5)) (a, b, c, d, 0) (true, add32 (W (4 * i)%nat) e) = fips1_round W v0 (4 * i)).
  { etrans; [|apply (R true 0%nat v0); [lia|done]]. reflexivity. }
  pose proof (R false 1%nat) as R1. pose proof (R false 2%nat) as R2. pose proof (R false 3%nat) as R3. cbn [Nat.add] in R1, R2, R3.
  set (v1 := fips1_round W v0 (4 * i)) in *. set (v2 := fips1_round W v1 (S (4 * i))) in *.
  set (v3 := fips1_round W v2 (S (S (4 * i)))) in *.
  assert (Hw1 : words5 v1) by (by apply fips1_round_words). assert (Hw2 : words5 v2) by (by apply fips1_round_words).
  assert (Hw3 : words5 v3) by (by apply fips1_round_words).
  destruct Hv as ((Ha & Hb & Hc & Hd) & He). unfold v0 at 1. unfold abcd at 1.
  rewrite !dwords_from_dwords by (cbn [words snd Nat.add]; unfold words; split_and!; first [assumption | apply HW | apply add32_range]).
  cbn [foldl Nat.add]. unfold v0 at 1. cbn [snd]. 
  rewrite E0, (R1 v1) by (done || lia). fold v2. rewrite (R2 v2) by (done || lia). fold v3. rewrite (R3 v3) by (done || lia).
  unfold abcd. reflexivity.
Qed.

Lemma ni_sha1_step_fips W v i : words5 v -> word_seq W -> fips1_schedule W -> (i < 20)%nat ->
  ni_sha1_step (abcd v, ereg W v (4 * i), (quad_rev W (4 * i), quad_rev W (4 + 4 * i), quad_rev W (8 + 4 * i), quad_rev W (12 + 4 * i))) i =
  let v' := foldl (fips1_round W) v (seq (4 * i) 4) in
  (abcd v', ereg W v' (4 + 4 * i), (quad_rev W (4 + 4 * i), quad_rev W (8 + 4 * i), quad_rev W (12 + 4 * i), quad_rev W (16 + 4 * i))).
Proof.
  intros Hv HW HS Hi. unfold ni_sha1_step. rewrite sha1_schedule_step, sha1rnds4_fips by done. cbv zeta.
  assert (E : sha1nexte (abcd v) (quad_rev W (4 + 4 * i)) = ereg W (foldl (fips1_round W) v (seq (4 * i) 4)) (4 + 4 * i));
    [|by rewrite E].
  generalize (4 * i)%nat. intros t. destruct v as [[[[a b] c] d] e]. destruct Hv as ((Ha & Hb & Hc & Hd) & He).
  unfold sha1nexte, abcd, quad_rev.
  rewrite !dwords_from_dwords by (unfold words; split_and!; first [assumption | apply HW]).
  unfold ereg. cbn [seq foldl]. unfold fips1_round. cbn [snd]. by rewrite rotl_fips by done.
Qed.

Section Loops.
Context (W : nat -> Z) (HW : word_seq W).

(** C30: software SHA-256 on these instructions is FIPS 180-4.  Take a message schedule [W]
    (any words that satisfy the standard's recurrence), round constants [K] and working
    variables [v].  After [n] turns of the loop (two [sha256rnds2], one [sha256msg1] and
    one [sha256msg2] per turn, starting from the first sixteen words), the registers hold
    exactly the working variables after [4 n] rounds of the standard and the message
    registers hold the words [4 n .. 4 n + 15] of the schedule. *)
Theorem sha256_is_fips (K : nat -> Z) (v : Vars) (n : nat) : word_seq K -> fips256_schedule W -> words8 v ->
  foldl (ni_sha256_step K) (abef v, cdgh v, (quad W 0, quad W 4, quad W 8, quad W 12)) (seq 0 n) =
  let v' := foldl (fips256_round W K) v (seq 0 (4 * n)) in
  (abef v', cdgh v', (quad W (4 * n), quad W (4 + 4 * n), quad W (8 + 4 * n), quad W (12 + 4 * n))).
Proof.
  intros HK HS Hv. cbv zeta. induction n as [|n IH]; [done|].
  rewrite seq_S, foldl_app, IH. cbn [foldl]. replace (4 * S n)%nat with (4 * n + 4)%nat by lia.
  rewrite seq_app, foldl_app, ni_sha256_step_fips by (try done; by apply (foldl_inv words8); [intros; apply fips256_round_words|]).
  cbv zeta. by replace (4 * n + 4)%nat with (4 + 4 * n)%nat by lia.
Qed.

(** Software SHA-1 on these instructions is FIPS 180-4.  After [n <= 20] turns of the
    loop ([sha1rnds4] with immediate [i / 5], [sha1nexte], [sha1msg1] and [sha1msg2]), the
    registers hold exactly the working variables after [4 n] rounds of the standard, with
    [E] folded into the first word of the next turn. *)
Theorem sha1_is_fips (v : Z * Z * Z * Z * Z) (n : nat) : fips1_schedule W -> words5 v -> (n <= 20)%nat ->
  foldl ni_sha1_step (abcd v, ereg W v 0, (quad_rev W 0, quad_rev W 4, quad_rev W 8, quad_rev W 12)) (seq 0 n) =
  let v' := foldl (fips1_round W) v (seq 0 (4 * n)) in
  (abcd v', ereg W v' (4 * n), (quad_rev W (4 * n), quad_rev W (4 + 4 * n), quad_rev W (8 + 4 * n), quad_rev W (12 + 4 * n))).
Proof.
  intros HS Hv Hn. cbv zeta. induction n as [|n IH]; [done|].
  rewrite seq_S, foldl_app, IH by lia. cbn [foldl]. replace (4 * S n)%nat with (4 * n + 4)%nat by lia.
  rewrite seq_app, foldl_app, ni_sha1_step_fips by (done || lia || by apply (foldl_inv words5); [intros; apply fips1_round_words|]).
  cbv zeta. by replace (4 * n + 4)%nat with (4 + 4 * n)%nat by lia.
Qed.
End Loops.

(** ** A schedule that exists

    The schedule of a sixteen-word block, computed through a sliding window. *)

Definition slide (f : list Z -> Z) (w : list Z) : list Z := tl w ++ [f w].
Definition window (f : list Z -> Z) (m : list Z) (t : nat) : list Z := Nat.iter t (slide f) m.
Definition sched (f : list Z -> Z) (m : list Z) (t : nat) : Z := nth 0 (window f m t) 0.

Definition next256 (w : list Z) : Z :=
  wrap 32 (fips_sigma 17 19 10 (nth 14 w 0) + nth 9 w 0 + fips_sigma 7 18 3 (nth 1 w 0) + nth 0 w 0).
Definition next1 (w : list Z) : Z :=
  fips_rotl (Z.lxor (fips_Parity (nth 13 w 0) (nth 8 w 0) (nth 2 w 0)) (nth 0 w 0)) 1.

Lemma window_length f m t : length m = 16%nat -> length (window f m t) = 16%nat.
Proof.
  intros Hm. unfold window. induction t as [|t IH]; [done|]. rewrite Nat.iter_succ. unfold slide at 1.
  rewrite length_app. destruct (Nat.iter t (slide f) m); simpl in *; lia.
Qed.

Lemma window_shift f m t k : length m = 16%nat -> (S k < 16)%nat -> nth k (window f m (S t)) 0 = nth (S k) (window f m t) 0.
Proof.
  intros Hm Hk. pose proof (window_length f m t Hm) as Hl. unfold window in *. rewrite Nat.iter_succ. unfold slide at 1.
  destruct (Nat.iter t (slide f) m) as [|x w]; [done|]. simpl in *. apply app_nth1. lia.
Qed.

Lemma window_nth f m t k : length m = 16%nat -> (k < 16)%nat -> nth k (window f m t) 0 = sched f m (k + t).
Proof.
  intros Hm. revert t. induction k as [|k IH]; intros t Hk; [done|].
  rewrite <- window_shift, IH by lia. f_equal. lia.
Qed.

Lemma sched_next f m t : length m = 16%nat -> sched f m (16 + t) = f (window f m t).
Proof.
  intros Hm. replace (16 + t)%nat with (15 + S t)%nat by lia. rewrite <- window_nth by lia.
  pose proof (window_length f m t Hm) as Hl. unfold window in *. rewrite Nat.iter_succ. unfold slide at 1.
  set (w := Nat.iter t (slide f) m) in *. clearbody w. destruct w as [|x w]; [done|].
  simpl in Hl. rewrite app_nth2; simpl; [|lia]. by replace (15 - length w)%nat with 0%nat by lia.
Qed.

Lemma sched256_ok m : length m = 16%nat -> fips256_schedule (sched next256 m).
Proof. intros Hm t. rewrite sched_next by done. unfold next256. by rewrite !window_nth by lia. Qed.

Lemma sched1_ok m : length m = 16%nat -> fips1_schedule (sched next1 m).
Proof. intros Hm t. rewrite sched_next by done. unfold next1. by rewrite !window_nth by lia. Qed.

Lemma sched_words f m : length m = 16%nat -> Forall (in_width 32) m -> (forall w, in_width 32 (f w)) -> word_seq (sched f m).
Proof.
  intros Hm Hw Hf t. destruct (Nat.lt_ge_cases t 16) as [Ht|Ht].
  - rewrite <- (Nat.add_0_r t), <- window_nth by lia. rewrite Forall_nth in Hw. apply Hw. simpl. lia.
  - replace t with (16 + (t - 16))%nat by lia. rewrite sched_next by done. apply Hf.
Qed.

(** The one-block message "abc", padded. *)
Definition abc : list Z := [0x61626380; 0; 0; 0; 0; 0; 0; 0; 0; 0; 0; 0; 0; 0; 0; 24].

(** Section 4.2.2 and 5.3.3: the constants are the first 32 fractional bits of the cube
    roots of the first 64 primes, the initial hash value those of the square roots of
    the first 8. *)
Definition is_prime (n : Z) : bool := forallb (fun d => negb (n mod d =? 0)) (zseq 2 (Z.to_nat (n - 2))).
Definition primes : list Z := Eval vm_compute in List.filter is_prime (zseq 2 310).
Definition cbrt (x : Z) : Z :=
  foldl (fun r i => let r' := r + 2 ^ i in if r' * r' * r' <=? x then r' else r) 0 (rev (zseq 0 40)).
Definition round_constants : list Z := Eval vm_compute in map (fun p => wrap 32 (cbrt (p * 2 ^ 96))) primes.
Definition K256 (t : nat) : Z := nth t round_constants 0.
Definition root32 (n : nat) : Z := wrap 32 (Z.sqrt (nth n primes 0 * 2 ^ 64)).

Lemma K256_words : word_seq K256.
Proof.
  assert (H : round_constants = map (wrap 32) round_constants) by (vm_compute; reflexivity).
  intros t. unfold K256. rewrite H. generalize round_constants as ks. intros ks. revert t.
  induction ks as [|k ks IH]; intros [|t]; [by unfold in_width; simpl; lia..|apply (wrap_range 32); lia|apply IH].
Qed.

Definition H256 : Vars :=
  (root32 0, root32 1, root32 2, root32 3, root32 4, root32 5, root32 6, root32 7).
Definition H1 : Z * Z * Z * Z * Z := (0x67452301, 0xefcdab89, 0x98badcfe, 0x10325476, 0xc3d2e1f0).

Lemma abc_words f : (forall w, in_width 32 (f w)) -> word_seq (sched f abc).
Proof. apply sched_words; [done|]. repeat constructor; unfold in_width; lia. Qed.

(** "abc" through the instructions: the working variables added to the initial hash
    value give the digest [ba7816bf 8f01cfea 414140de 5dae2223 b00361a3 96177a9c b410ff61 f20015ad]. *)
Lemma sha256_is_fips_witness :
  let v := foldl (fips256_round (sched next256 abc) K256) H256 (seq 0 64) in
  fst (foldl (ni_sha256_step K256) (abef H256, cdgh H256, (quad (sched next256 abc) 0, quad (sched next256 abc) 4,
     quad (sched next256 abc) 8, quad (sched next256 abc) 12)) (seq 0 16)) = (abef v, cdgh v) /\
  paddd (abef v) (abef H256) = from_dwords (0x96177a9c, 0xb00361a3, 0x8f01cfea, 0xba7816bf) /\
  paddd (cdgh v) (cdgh H256) = from_dwords (0xf20015ad, 0xb410ff61, 0x5dae2223, 0x414140de).
Proof.
  split; [|vm_compute; done].
  rewrite (sha256_is_fips (sched next256 abc) (abc_words _ (fun w => wrap_range 32 _ ltac:(lia))) K256 H256 16
    K256_words (sched256_ok abc eq_refl) ltac:(vm_compute; intuition congruence)). reflexivity.
Defined.

(** "abc" through the instructions: the SHA-1 digest [a9993e36 4706816a ba3e2571 7850c26c 9cd0d89d]. *)
Lemma sha1_is_fips_witness :
  let v := foldl (fips1_round (sched next1 abc)) H1 (seq 0 80) in
  fst (fst (foldl ni_sha1_step (abcd H1, ereg (sched next1 abc) H1 0, (quad_rev (sched next1 abc) 0, quad_rev (sched next1 abc) 4,
     quad_rev (sched next1 abc) 8, quad_rev (sched next1 abc) 12)) (seq 0 20))) = abcd v /\
  paddd (abcd v) (abcd H1) = from_dwords (0x7850c26c, 0xba3e2571, 0x4706816a, 0xa9993e36) /\
  add32 (snd v) (snd H1) = 0x9cd0d89d.
Proof.
  split; [|vm_compute; done].
  rewrite (sha1_is_fips (sched next1 abc) (abc_words _ (fun w => of_bits_range _)) H1 20
    (sched1_ok abc eq_refl) ltac:(vm_compute; intuition congruence) ltac:(lia)). reflexivity.
Defined.
