(* ===== verification/VecOps.v ===== *)
(** * Vector operations on 128-bit patterns (interp/mod.rs, interp/vector.rs, ir.rs)

    The operation enums of the vector IR and the functions that compute one 128-bit
    lane, or four, of an integer SSE/AVX operation.  A loop that ORs a lane into the
    result is [or_lanes]; [<<] on a [u128] drops what leaves the 128 bits. *)

From S2P Require Import Prelude Features State Aes Sha Alu.

(** ** ir.rs: operation enums *)

Inductive VLogicOp : Type := VXor | VAnd | VOr | VAndn.
Inductive VpUnaryOp : Type := Lzcnt_ | Rol_ | Conflict.
Definition VpUnaryOp_from_u8 (v : Z) : VpUnaryOp :=
  match v with 0 => Lzcnt_ | 1 => Rol_ | _ => Conflict end.
Inductive VKLogicOp : Type := KOr | KAnd | KAndn | KXor | KXnor.
Inductive PackedBinOp : Type :=
  | PAdd | PSub | CmpEq | CmpGt | MinU | MaxU | MinS | MaxS
  | MulLo16 | MulHiU16 | MulHiS16 | MulLo32 | MulLo64 | MulU32 | MulS32
  | AddSatS | AddSatU | SubSatS | SubSatU | AvgU | MulHiRoundedS16.

Inductive AesOp : Type := Enc | Dec | EncLast | DecLast.
Definition AesOp_from_u8 (v : Z) : AesOp :=
  match v with 0 => Enc | 1 => Dec | 2 => EncLast | _ => DecLast end.
Definition AesOp_apply (op : AesOp) (state rk : Z) : Z :=
  match op with
  | Enc => aes_enc state rk
  | Dec => aes_dec state rk
  | EncLast => aes_enc_last state rk
  | DecLast => aes_dec_last state rk
  end.

Inductive ShaOp : Type :=
  Sha256Rnds2 | Sha256Msg1 | Sha256Msg2 | Sha1Rnds4 | Sha1NextE | Sha1Msg1 | Sha1Msg2.
Definition ShaOp_from_u8 (v : Z) : ShaOp :=
  match v with
  | 0 => Sha256Rnds2 | 1 => Sha256Msg1 | 2 => Sha256Msg2 | 3 => Sha1Rnds4
  | 4 => Sha1NextE | 5 => Sha1Msg1 | _ => Sha1Msg2
  end.
Definition ShaOp_apply (op : ShaOp) (a b xmm0 imm : Z) : Z :=
  match op with
  | Sha256Rnds2 => sha256rnds2 a b xmm0
  | Sha256Msg1 => sha256msg1 a b
  | Sha256Msg2 => sha256msg2 a b
  | Sha1Rnds4 => sha1rnds4 a b imm
  | Sha1NextE => sha1nexte a b
  | Sha1Msg1 => sha1msg1 a b
  | Sha1Msg2 => sha1msg2 a b
  end.

Inductive GfniOp : Type := Mulb | AffineQb | AffineInvQb.
Definition GfniOp_from_u8 (v : Z) : GfniOp :=
  match v with 0 => Mulb | 1 => AffineQb | _ => AffineInvQb end.
Definition GfniOp_apply (op : GfniOp) (a b imm : Z) : Z :=
  match op with
  | Mulb => gf2p8mulb a b
  | AffineQb => gf2p8affineqb a b imm
  | AffineInvQb => gf2p8affineinvqb a b imm
  end.

Inductive FPrec : Type := F32 | F64.
Definition prec_bytes (p : FPrec) : Z := match p with F32 => 4 | F64 => 8 end.
Inductive FloatBinOp : Type := FAdd | FSub | FMul | FDiv | FMin | FMax.
Inductive FloatUnOp : Type := Sqrt | Rsqrt | Rcp.
Inductive HFloatOp : Type := HAdd | HSub | AddSub.
Inductive HIntOp : Type := AddW | AddD | AddSw | SubW | SubD | SubSw | Sad.
Inductive PackedCvtKind : Type := Dq2Ps | Ps2Dq | Tps2Dq | Dq2Pd | Ps2Pd | Pd2Ps | Pd2Dq | Tpd2Dq.
Definition mem_bytes (k : PackedCvtKind) : Z := match k with Dq2Pd | Ps2Pd => 8 | _ => 16 end.

(** ** Lane loops *)

(** [x << n] on a [u128]. *)
Definition shl128 (x n : Z) : Z := wrap 128 (Z.shiftl x n).
(** [!x] on a [u128]. *)
Definition not128 (x : Z) : Z := unot 128 x.

(** [let mut r = 0; for i in 0..n { r |= f(i) << (i * bits) }] *)
Definition or_lanes (n : nat) (bits : Z) (f : Z -> Z) : Z :=
  foldl (fun r i => Z.lor r (shl128 (f i) (i * bits))) 0 (zseq 0 n).

Definition lane_mask (bytes : Z) : Z :=
  if 16 <=? bytes then 2 ^ 128 - 1 else Z.shiftl 1 (bytes * 8) - 1.

(** [(x >> (i * bits)) & mask] *)
Definition elem_at (x bits m i : Z) : Z := Z.land (Z.shiftr x (i * bits)) m.

(** The 128-bit lanes [0 .. n-1] computed by [f], the others zero. *)
Definition lanes4 (n : Z) (f : nat -> Z) : list Z :=
  map (fun i => if Z.of_nat i <? n then f i else 0) (seq 0 4).

(** ** Logic, extension, blends *)

Definition vlogic (a b : Z) (op : VLogicOp) : Z :=
  match op with
  | VXor => Z.lxor a b
  | VAnd => Z.land a b
  | VOr => Z.lor a b
  | VAndn => Z.land (not128 a) b
  end.

(** The element [i] of [from] bytes, extended in a [u64]. *)
Definition extend64 (val bits : Z) (signed : bool) : Z :=
  if signed && test val (Z.shiftl 1 (bits - 1)) then Z.lor val (wrap 64 (Z.shiftl (2 ^ 64 - 1) bits)) else val.

Definition pmov_extend (src from to : Z) (signed : bool) : Z :=
  let count := 16 / to in
  let sb := to_le_bytes 16 src in
  let elem i := from_le_bytes (take (Z.to_nat from) (drop (Z.to_nat (i * from)) sb)) in
  from_le_bytes (concat (map (fun i => take (Z.to_nat to) (to_le_bytes 8 (extend64 (elem i) (from * 8) signed)))
                              (zseq 0 (Z.to_nat count)))).

Definition blendv (d s mask_ lane : Z) : Z :=
  let bits := lane * 8 in
  let lm := lane_mask lane in
  or_lanes (Z.to_nat (16 / lane)) bits (fun i =>
    elem_at (if Z.testbit mask_ (i * bits + bits - 1) then s else d) bits lm i).

Definition blendi (a b imm lane : Z) : Z :=
  let bits := lane * 8 in
  let lm := lane_mask lane in
  or_lanes (Z.to_nat (16 / lane)) bits (fun i =>
    elem_at (if Z.land (Z.shiftr imm i) 1 =? 1 then b else a) bits lm i).

Definition ternlog_term (a b c j : Z) : Z :=
  let pa := if test j 4 then a else not128 a in
  let pb := if test j 2 then b else not128 b in
  let pc := if test j 1 then c else not128 c in
  Z.land (Z.land pa pb) pc.
Definition ternlog (a b c imm : Z) : Z :=
  foldl (fun r j => if test imm (Z.shiftl 1 j) then Z.lor r (ternlog_term a b c j) else r) 0 (zseq 0 8).

Definition broadcast_elem (low elem : Z) : Z :=
  let e := Z.land low (lane_mask elem) in
  or_lanes (Z.to_nat (16 / elem)) (elem * 8) (fun _ => e).

(** ** Mask registers *)

Definition kwidth_mask (width : Z) : Z := if 64 <=? width then 2 ^ 64 - 1 else Z.shiftl 1 width - 1.

Definition vpcmp_pred (pred : Z) (ord : comparison) : bool :=
  match Z.land pred 7, ord with
  | 0, Eq | 1, Lt | 2, Lt | 2, Eq | 4, Lt | 4, Gt | 5, Eq | 5, Gt | 6, Gt => true
  | 0, _ | 1, _ | 2, _ | 3, _ | 4, _ | 5, _ | 6, _ => false
  | _, _ => true
  end.

(** [if set(idx) { mask |= 1 << idx }] over the lanes of [width] bytes; the running index
    [chunk * lanes_per_128 + l] is split into its chunk and lane. *)
Definition mask_of (n : nat) (set : Z -> bool) : Z :=
  foldl (fun m idx => if set idx then Z.lor m (wrap 64 (Z.shiftl 1 idx)) else m) 0 (zseq 0 n).

Definition chunk_lane (v : list Z) (elem idx : Z) : Z :=
  let per := 16 / elem in
  elem_at (lane v (Z.to_nat (idx / per))) (elem * 8) (lane_mask elem) (idx mod per).

Definition vptest_mask (a b : list Z) (elem width : Z) (neg : bool) : Z :=
  mask_of (Z.to_nat (width / 16 * (16 / elem))) (fun idx =>
    let anded := Z.land (chunk_lane a elem idx) (chunk_lane b elem idx) in
    if neg then anded =? 0 else negb (anded =? 0)).

Definition vpcmp_mask (a b : list Z) (elem width pred : Z) (signed : bool) : Z :=
  mask_of (Z.to_nat (width / 16 * (16 / elem))) (fun idx =>
    let la := chunk_lane a elem idx in
    let lb := chunk_lane b elem idx in
    let ord := if signed then sign_extend_128 la (elem * 8) ?= sign_extend_128 lb (elem * 8) else la ?= lb in
    vpcmp_pred pred ord).

(** ** Packed arithmetic *)

Definition clamp (x lo hi : Z) : Z := if x <? lo then lo else if hi <? x then hi else x.

Definition packed_elem (op : PackedBinOp) (la lb bits lm : Z) : Z :=
  let sa := sign_extend_128 la bits in
  let sb := sign_extend_128 lb bits in
  match op with
  | PAdd => Z.land (wrapping_add 128 la lb) lm
  | PSub => Z.land (wrapping_sub 128 la lb) lm
  | CmpEq => if la =? lb then lm else 0
  | CmpGt => if sb <? sa then lm else 0
  | MulLo16 | MulLo32 | MulLo64 => Z.land (wrapping_mul 128 la lb) lm
  | MulHiU16 => Z.land (Z.shiftr (wrapping_mul 128 la lb) bits) lm
  | MulHiS16 => Z.land (wrap 128 (Z.shiftr (to_signed 128 (sa * sb)) bits)) lm
  | MulU32 => wrapping_mul 128 (Z.land la 0xffffffff) (Z.land lb 0xffffffff)
  | MulS32 => wrap 64 (to_signed 32 la * to_signed 32 lb)
  | MinU => Z.min la lb
  | MaxU => Z.max la lb
  | MinS => if sa <? sb then la else lb
  | MaxS => if sb <? sa then la else lb
  | AddSatS => Z.land (wrap 128 (clamp (sa + sb) (- 2 ^ (bits - 1)) (2 ^ (bits - 1) - 1))) lm
  | AddSatU => Z.min (la + lb) (2 ^ bits - 1)
  | SubSatS => Z.land (wrap 128 (clamp (sa - sb) (- 2 ^ (bits - 1)) (2 ^ (bits - 1) - 1))) lm
  | SubSatU => saturating_sub la lb
  | AvgU => Z.shiftr (la + lb + 1) 1
  | MulHiRoundedS16 =>
      let prod := to_signed 32 (to_signed 16 sa * to_signed 16 sb) in
      Z.land (wrap 32 (Z.shiftr (Z.shiftr prod 14 + 1) 1)) lm
  end.

Definition packed_bin (a b lane : Z) (op : PackedBinOp) : Z :=
  let bits := lane * 8 in
  let lm := lane_mask lane in
  or_lanes (Z.to_nat (16 / lane)) bits (fun i => packed_elem op (elem_at a bits lm i) (elem_at b bits lm i) bits lm).

Definition packed_shift (a imm lane : Z) (right arith : bool) : Z :=
  let bits := lane * 8 in
  let lm := lane_mask lane in
  let over := bits <=? imm in
  if over && negb (right && arith) then 0
  else
    or_lanes (Z.to_nat (16 / lane)) bits (fun i =>
      let lv := elem_at a bits lm i in
      if negb right then Z.land (shl128 lv imm) lm
      else if negb arith then Z.shiftr lv imm
      else
        let sv := sign_extend_128 lv bits in
        Z.land (wrap 128 (if over then Z.shiftr sv (bits - 1) else Z.shiftr sv imm)) lm).

(** One element of a variable shift. *)
Definition var_shift_one (av cnt bits : Z) (right arith : bool) : Z :=
  let m := if bits =? 64 then 2 ^ 64 - 1 else Z.shiftl 1 bits - 1 in
  let av := Z.land av m in
  if bits <=? cnt then
    if right && arith && negb (Z.land (Z.shiftr av (bits - 1)) 1 =? 0) then m else 0
  else if negb right then Z.land (wrap 64 (Z.shiftl av cnt)) m
  else if negb arith then Z.shiftr av cnt
  else Z.land (wrap 64 (Z.shiftr (sign_extend_128 av bits) cnt)) m.

(** ** Shuffles *)

Definition unpack_low (a b lane : Z) (high : bool) : Z :=
  let bits := lane * 8 in
  let lm := lane_mask lane in
  let n := 8 / lane in
  let base := if high then n else 0 in
  foldl (fun res i =>
    let res := Z.lor res (shl128 (elem_at a bits lm (base + i)) (2 * i * bits)) in
    Z.lor res (shl128 (elem_at b bits lm (base + i)) ((2 * i + 1) * bits))) 0 (zseq 0 (Z.to_nat n)).

(** The saturation of one element of [pack{ss,us}{wb,dw}]; the source is read as signed. *)
Definition pack_elem (v fb tb i : Z) (signed : bool) : Z :=
  let raw := elem_at v fb (2 ^ fb - 1) i in
  let s := if test raw (2 ^ (fb - 1)) then to_signed 128 (Z.lor raw (shl128 (2 ^ 128 - 1) fb)) else raw in
  let '(lo, hi) := if signed then (- 2 ^ (tb - 1), 2 ^ (tb - 1) - 1) else (0, 2 ^ tb - 1) in
  Z.land (wrap 128 (clamp s lo hi)) (2 ^ tb - 1).
Definition pack_lane (a b from : Z) (signed : bool) : Z :=
  let fb := from * 8 in
  let tb := from / 2 * 8 in
  let count := 16 / from in
  foldl (fun res i =>
    let res := Z.lor res (shl128 (pack_elem a fb tb i signed) (i * tb)) in
    Z.lor res (shl128 (pack_elem b fb tb i signed) ((count + i) * tb))) 0 (zseq 0 (Z.to_nat count)).

Definition packuswb (a b : Z) : Z :=
  let cl w := clamp (to_signed 16 w) 0 255 in
  foldl (fun res i =>
    let res := Z.lor res (shl128 (cl (elem_at a 16 0xffff i)) (i * 8)) in
    Z.lor res (shl128 (cl (elem_at b 16 0xffff i)) ((8 + i) * 8))) 0 (zseq 0 8).

Definition pshufb (data idx : Z) : Z :=
  or_lanes 16 8 (fun i =>
    let sel := elem_at idx 8 0xff i in
    if Z.land sel 0x80 =? 0 then elem_at data 8 0xff (Z.land sel 0xf) else 0).

Definition palignr (dst src imm : Z) : Z :=
  let shift := imm * 8 in
  if 32 <=? imm then 0
  else if shift =? 0 then src
  else if shift <? 128 then Z.lor (Z.shiftr src shift) (shl128 dst (128 - shift))
  else if shift =? 128 then dst
  else Z.shiftr dst (shift - 128).

Definition byte_shift128 (v shift : Z) (right : bool) : Z :=
  if 16 <=? shift then 0 else if right then Z.shiftr v (shift * 8) else shl128 v (shift * 8).

(** [(imm >> (2 * i)) & 3] *)
Definition sel2 (imm i : Z) : Z := Z.land (Z.shiftr imm (2 * i)) 3.

Definition shuffle32_128 (v imm : Z) : Z := or_lanes 4 32 (fun i => elem_at v 32 0xffffffff (sel2 imm i)).
Definition shufps128 (va vb imm : Z) : Z :=
  or_lanes 4 32 (fun i => elem_at (if i <? 2 then va else vb) 32 0xffffffff (sel2 imm i)).
Definition shuffle16_128 (v imm : Z) (high : bool) : Z :=
  let base := if high then 4 else 0 in
  let keep := if high then Z.land v 0xffffffffffffffff else Z.land v (not128 0xffffffffffffffff) in
  let shuf := foldl (fun r i => Z.lor r (shl128 (elem_at v 16 0xffff (base + sel2 imm i)) ((base + i) * 16))) 0 (zseq 0 4) in
  Z.lor keep shuf.

Definition permil_lane (src ctrl elem : Z) : Z :=
  let ebits := elem * 8 in
  let emask := if elem =? 8 then 2 ^ 64 - 1 else 0xffffffff in
  or_lanes (Z.to_nat (16 / elem)) ebits (fun i =>
    let cword := Z.shiftr ctrl (i * ebits) in
    let sel := if elem =? 4 then Z.land cword 3 else Z.land (Z.shiftr cword 1) 1 in
    elem_at src ebits emask sel).

Definition insertps (dst tmp imm : Z) : Z :=
  let dst_lane := Z.land (Z.shiftr imm 4) 3 in
  or_lanes 4 32 (fun i =>
    if test imm (Z.shiftl 1 i) then 0
    else if i =? dst_lane then tmp else wrap 32 (Z.shiftr dst (i * 32))).

(** ** Gathers, sums, minima *)

Definition movemask_b (v : Z) : Z :=
  foldl (fun m i => if Z.testbit v (i * 8 + 7) then Z.lor m (Z.shiftl 1 i) else m) 0 (zseq 0 16).

Definition phminposuw (src : Z) : Z :=
  let '(mn, idx) := foldl (fun acc i =>
      let w := wrap 16 (Z.shiftr src (i * 16)) in
      if w <? fst acc then (w, i) else acc) (2 ^ 16 - 1, 0) (zseq 0 8) in
  Z.lor mn (shl128 idx 16).

(** [byte i of x] *)
Definition byte_at (x i : Z) : Z := wrap 8 (Z.shiftr x (i * 8)).

Definition mpsadbw (a b imm : Z) : Z :=
  let a_off := Z.land (Z.shiftr imm 2) 1 * 4 in
  let b_off := Z.land imm 3 * 4 in
  or_lanes 8 16 (fun i =>
    foldl (fun sum j => wrap 16 (sum + Z.abs (byte_at a (a_off + i + j) - byte_at b (b_off + j)))) 0 (zseq 0 4)).

(** The signed element [i] of [bits] bits. *)
Definition selem (v bits i : Z) : Z := to_signed bits (Z.shiftr v (i * bits)).

(** Adjacent signed products, summed in an [i32] that wraps. *)
Definition madd_elem (a b i : Z) : Z :=
  wrap 32 (selem a 16 (2 * i) * selem b 16 (2 * i) + selem a 16 (2 * i + 1) * selem b 16 (2 * i + 1)).
Definition pmadd_lane (a b : Z) (ubsw : bool) : Z :=
  if ubsw then
    or_lanes 8 16 (fun i =>
      let s := byte_at a (2 * i) * selem b 8 (2 * i) + byte_at a (2 * i + 1) * selem b 8 (2 * i + 1) in
      wrap 16 (clamp s (- 2 ^ 15) (2 ^ 15 - 1)))
  else or_lanes 4 32 (madd_elem a b).

(** [ph{add,sub}{w,d,sw}] and [psadbw]. *)
Definition combine_w (op : HIntOp) (x y : Z) : Z :=
  match op with
  | AddW => wrap 16 (x + y)
  | SubW => wrap 16 (x - y)
  | AddSw => wrap 16 (clamp (x + y) (- 2 ^ 15) (2 ^ 15 - 1))
  | _ => wrap 16 (clamp (x - y) (- 2 ^ 15) (2 ^ 15 - 1))
  end.
Definition combine_d (op : HIntOp) (x y : Z) : Z := wrap 32 (match op with AddD => x + y | _ => x - y end).
Definition pairs (bits half : Z) (n : nat) (f : Z -> Z -> Z) (a b : Z) : Z :=
  foldl (fun r p =>
    let r := Z.lor r (shl128 (f (selem a bits (2 * p)) (selem a bits (2 * p + 1))) (p * bits)) in
    Z.lor r (shl128 (f (selem b bits (2 * p)) (selem b bits (2 * p + 1))) ((p + half) * bits))) 0 (zseq 0 n).
Definition hint (a b : Z) (op : HIntOp) : Z :=
  match op with
  | AddW | SubW | AddSw | SubSw => pairs 16 4 4 (combine_w op) a b
  | AddD | SubD => pairs 32 2 2 (combine_d op) a b
  | Sad =>
      or_lanes 2 64 (fun half =>
        foldl (fun sum i => sum + Z.abs (byte_at a (half * 8 + i) - byte_at b (half * 8 + i))) 0 (zseq 0 8))
  end.
Definition hint_op_from_code (code : Z) : HIntOp :=
  match code with 0 => AddW | 1 => AddD | 2 => AddSw | 3 => SubW | 4 => SubD | 5 => SubSw | _ => Sad end.

(** One element of [psign]: at most four bytes, read as an [i32]. *)
Definition psign_elem (s c bits : Z) : Z :=
  let sc := to_signed bits c in
  if sc <? 0 then wrap bits (- s) else if sc =? 0 then 0 else s.
Definition psign (src ctrl lane : Z) : Z :=
  let bits := lane * 8 in
  or_lanes (Z.to_nat (16 / lane)) bits (fun i =>
    psign_elem (elem_at src bits (2 ^ bits - 1) i) (elem_at ctrl bits (2 ^ bits - 1) i) bits).

Definition fp_sign_mask (elem : Z) : Z := or_lanes (Z.to_nat (16 / elem)) (elem * 8) (fun _ => 2 ^ (elem * 8 - 1)).

(** ** 512-bit vectors by element *)

Definition get_velem (lanes : list Z) (i elem : Z) : Z :=
  let byte := i * elem in
  let m := if elem =? 8 then 2 ^ 64 - 1 else Z.shiftl 1 (elem * 8) - 1 in
  Z.land (wrap 64 (Z.shiftr (lane lanes (Z.to_nat (byte / 16))) (byte mod 16 * 8))) m.
Definition set_velem (lanes : list Z) (i elem val : Z) : list Z :=
  let byte := i * elem in
  let l := Z.to_nat (byte / 16) in
  let sh := byte mod 16 * 8 in
  let m := if elem =? 8 then 2 ^ 64 - 1 else Z.shiftl 1 (elem * 8) - 1 in
  <[l := Z.lor (Z.land (lane lanes l) (not128 (shl128 m sh))) (shl128 (Z.land val m) sh)]> lanes.

(** [for i in 0..n { set_velem(&mut res, i, elem, f(i)) }] *)
Definition set_velems (res : list Z) (n : Z) (elem : Z) (f : Z -> Z) : list Z :=
  foldl (fun r i => set_velem r i elem (f i)) res (zseq 0 (Z.to_nat n)).

Definition zero4 : list Z := [0; 0; 0; 0].

Definition vec_msb_mask (lanes : list Z) (elem bytes : Z) : Z :=
  mask_of (Z.to_nat (bytes / elem)) (fun i => negb (Z.land (Z.shiftr (get_velem lanes i elem) (elem * 8 - 1)) 1 =? 0)).

Definition vpopcnt_lanes (a : list Z) (lane_ : Z) : list Z :=
  let bits := lane_ * 8 in
  map (fun chunk => or_lanes (Z.to_nat (16 / lane_)) bits (fun l =>
    count_ones (if lane_ =? 8 then wrap 64 (Z.shiftr chunk (l * bits)) else Z.land (wrap 64 (Z.shiftr chunk (l * bits))) 0xffffffff))) a.

Definition permute1 (index table : list Z) (elem bytes : Z) : list Z :=
  let n := bytes / elem in
  set_velems zero4 n elem (fun i => get_velem table (Z.land (get_velem index i elem) (n - 1)) elem).
Definition permute2 (index table0 table1 : list Z) (elem bytes : Z) : list Z :=
  let n := bytes / elem in
  set_velems zero4 n elem (fun i =>
    let id := Z.land (get_velem index i elem) (2 * n - 1) in
    if id <? n then get_velem table0 id elem else get_velem table1 (id - n) elem).

(** [None] is the panic of a slice that leaves the 128-byte buffer. *)
Definition valign_lanes (a b : list Z) (shift elem bytes : Z) : option (list Z) :=
  let n := Z.to_nat (bytes / 16) in
  let buf := take 128 (concat (map (to_le_bytes 16) (take n b)) ++ concat (map (to_le_bytes 16) (take n a)) ++ replicate 128 0) in
  let shift_bytes := shift mod (2 * bytes / elem) * elem in
  if shift_bytes + bytes <=? 128 then
    Some (lanes4 (bytes / 16) (fun i => from_le_bytes (take 16 (drop (Z.to_nat shift_bytes + i * 16) buf))))
  else None.

(** The bytes of four lanes. *)
Definition bytes_of_lanes (v : list Z) : list Z := concat (map (to_le_bytes 16) v).
Definition broadcast_lane_lanes (src_bytes : list Z) (chunk dst_width : Z) : list Z :=
  let n := Z.min dst_width 64 / chunk in
  let out := concat (replicate (Z.to_nat n) (take (Z.to_nat chunk) src_bytes)) ++ replicate 64 0 in
  map (fun j => from_le_bytes (take 16 (drop (j * 16) out))) (seq 0 4).
