(* ===== verification/VecFloat.v ===== *)
(** * Vector floating point and string compares (interp/mod.rs, interp/vector.rs)

    Elements are bit patterns; the host's IEEE operations are those of [HostFloat].
    The SSE rules for a NaN operand are written out, as the source does. *)

From S2P Require Import Prelude Features State HostFloat Alu VecOps.

Definition fmt (p : FPrec) : Format := match p with F32 => f32_fmt | F64 => f64_fmt end.

(** ** NaN rules *)

Definition quiet_f64 (v : Z) : Z := Z.lor v 0x0008000000000000.
Definition quiet_f32 (v : Z) : Z := Z.lor v 0x00400000.
Definition quiet (p : FPrec) : Z -> Z := match p with F32 => quiet_f32 | F64 => quiet_f64 end.

Definition sse_binop_f32 (src1 src2 : Z) (op : Z -> Z -> Z) : Z :=
  if fl_is_nan f32_fmt src1 then quiet_f32 src1
  else if fl_is_nan f32_fmt src2 then quiet_f32 src2
  else op src1 src2.
Definition sse_binop_f64 (src1 src2 : Z) (op : Z -> Z -> Z) : Z :=
  if fl_is_nan f64_fmt src1 then quiet_f64 src1
  else if fl_is_nan f64_fmt src2 then quiet_f64 src2
  else op src1 src2.
Definition sse_binop (p : FPrec) : Z -> Z -> (Z -> Z -> Z) -> Z :=
  match p with F32 => sse_binop_f32 | F64 => sse_binop_f64 end.

Definition f32_nan_to_f64 (v : Z) : Z :=
  let sign := Z.shiftl (Z.land v 0x80000000) 32 in
  let payload := Z.shiftl (Z.land v 0x007FFFFF) 29 in
  Z.lor (Z.lor sign 0x7FF8000000000000) payload.
Definition f64_nan_to_f32 (v : Z) : Z :=
  let sign := Z.land (wrap 32 (Z.shiftr v 32)) 0x80000000 in
  let payload := wrap 32 (Z.shiftr (Z.land v 0x000FFFFFFFFFFFFF) 29) in
  Z.lor (Z.lor sign 0x7FC00000) payload.

Definition widen_f32 (v : Z) : Z := if fl_is_nan f32_fmt v then f32_nan_to_f64 v else f32_to_f64 v.
Definition narrow_f64 (v : Z) : Z := if fl_is_nan f64_fmt v then f64_nan_to_f32 v else f64_to_f32 v.

Definition F32_INDEFINITE : Z := 0xFFC00000.
Definition F64_INDEFINITE : Z := 0xFFF8000000000000.
Definition indefinite_of (p : FPrec) : Z := match p with F32 => F32_INDEFINITE | F64 => F64_INDEFINITE end.

(** ** Lanes *)

Definition prec_bits (p : FPrec) : Z := prec_bytes p * 8.
(** [(v >> (i * bits)) as u32/u64] *)
Definition flane (p : FPrec) (v i : Z) : Z := wrap (prec_bits p) (Z.shiftr v (i * prec_bits p)).

(** [r = (r & !(mask << sh)) | (z << sh)] for the lanes [0 .. n-1]. *)
Definition put_lane (p : FPrec) (r i z : Z) : Z :=
  Z.lor (Z.land r (not128 (shl128 (2 ^ prec_bits p - 1) (i * prec_bits p)))) (shl128 z (i * prec_bits p)).
Definition put_lanes (p : FPrec) (n : nat) (f : Z -> Z) (r : Z) : Z :=
  foldl (fun r i => put_lane p r i (f i)) r (zseq 0 n).
Definition lane_count (p : FPrec) (scalar : bool) : nat :=
  if scalar then 1%nat else Z.to_nat (16 / prec_bytes p).

(** ** Dot products *)

(** The sum in tree order: [(P0 + P1) + (P2 + P3)], or [P0 + P1]. *)
Definition dp_sum (p : FPrec) (prods : list Z) : Z :=
  match p, prods with
  | F32, [p0; p1; p2; p3] =>
      sse_binop_f32 (sse_binop_f32 p0 p1 (fl_add f32_fmt)) (sse_binop_f32 p2 p3 (fl_add f32_fmt)) (fl_add f32_fmt)
  | F64, [p0; p1] => sse_binop_f64 p0 p1 (fl_add f64_fmt)
  | _, _ => 0
  end.
Definition dp_products (p : FPrec) (a b imm : Z) : list Z :=
  map (fun i => if test imm (Z.shiftl 0x10 i) then sse_binop p (flane p a i) (flane p b i) (fl_mul (fmt p)) else 0)
    (zseq 0 (lane_count p false)).
Definition dp_result (p : FPrec) (a b imm : Z) : Z :=
  let sum := dp_sum p (dp_products p a b imm) in
  or_lanes (lane_count p false) (prec_bits p) (fun i => if test imm (Z.shiftl 1 i) then sum else 0).
Definition dpps : Z -> Z -> Z -> Z := dp_result F32.
Definition dppd : Z -> Z -> Z -> Z := dp_result F64.

(** ** Half precision *)

Definition f16_to_f32 (h : Z) : Z :=
  let sign := Z.land (Z.shiftr h 15) 1 in
  let exp := Z.land (Z.shiftr h 10) 0x1f in
  let mant := Z.land h 0x3ff in
  let sign_f := Z.shiftl sign 31 in
  if exp =? 0 then
    if mant =? 0 then sign_f
    else
      let v := fl_mul f32_fmt (fl_of_int f32_fmt mant) 0x33800000 (* 2^-24 *) in
      Z.lor (Z.land v 0x7fffffff) sign_f
  else if exp =? 0x1f then Z.lor (Z.lor sign_f (Z.shiftl 0xff 23)) (Z.shiftl mant 13)
  else Z.lor (Z.lor sign_f (Z.shiftl (exp + 112) 23)) (Z.shiftl mant 13).

(** The increment of [f32_to_f16], from the discarded low bits and the mode. *)
Definition half_round (rc value shift half_sign : Z) : Z :=
  if shift =? 0 then value
  else
    let lost := Z.land value (Z.shiftl 1 shift - 1) in
    let truncated := Z.shiftr value shift in
    let halfway := Z.shiftl 1 (shift - 1) in
    let up := match Z.land rc 3 with
              | 1 => negb (half_sign =? 0) && negb (lost =? 0)
              | 2 => (half_sign =? 0) && negb (lost =? 0)
              | 3 => false
              | _ => (halfway <? lost) || ((lost =? halfway) && (Z.land truncated 1 =? 1))
              end in
    truncated + b2z up.

Definition f32_to_f16 (x rc : Z) : Z :=
  let sign := Z.land (Z.shiftr x 16) 0x8000 in
  let exp := Z.land (Z.shiftr x 23) 0xff in
  let mant := Z.land x 0x7fffff in
  if exp =? 0xff then
    if negb (mant =? 0) then Z.lor (Z.lor sign 0x7e00) (Z.land (Z.shiftr mant 13) 0x3ff)
    else Z.lor sign 0x7c00
  else
    let e := exp - 127 + 15 in
    if 0x1f <=? e then
      let to_inf := match Z.land rc 3 with 1 => negb (sign =? 0) | 2 => sign =? 0 | 3 => false | _ => true end in
      if to_inf then Z.lor sign 0x7c00 else Z.lor sign 0x7bff
    else if e <=? 0 then
      if e <? -10 then
        let nonzero := test x 0x7fffffff in
        let up := match Z.land rc 3 with
                  | 1 => nonzero && negb (sign =? 0)
                  | 2 => nonzero && (sign =? 0)
                  | _ => false
                  end in
        Z.lor sign (b2z up)
      else
        let full := Z.lor mant 0x800000 in
        let m := half_round rc full (14 - e) sign in
        Z.lor sign (wrap 16 m)
    else
      let m := half_round rc mant 13 sign in
      if test m 0x400 then
        if 0x1f <=? e + 1 then Z.lor sign 0x7c00
        else Z.lor sign (Z.shiftl (e + 1) 10)
      else Z.lor (Z.lor sign (Z.shiftl e 10)) (Z.land m 0x3ff).

Definition cvtph2ps (src lanes : Z) : Z * Z :=
  let half k := or_lanes (Z.to_nat (Z.min 4 (lanes - 4 * k))) 32 (fun i => f16_to_f32 (wrap 16 (Z.shiftr src ((4 * k + i) * 16)))) in
  (half 0, half 1).
Definition cvtps2ph (slo shi lanes rc : Z) : Z :=
  or_lanes (Z.to_nat lanes) 16 (fun i =>
    let src := if i <? 4 then slo else shi in
    f32_to_f16 (wrap 32 (Z.shiftr src (i mod 4 * 32))) rc).

(** ** Rounding to an integer *)

Definition F64_HALF : Z := 0x3FE0000000000000.
Definition F64_ONE_ : Z := 0x3FF0000000000000.
Definition f64_as_i64 (v : Z) : Z := fl_to_int f64_fmt (- 2 ^ 63) (2 ^ 63 - 1) v.

Definition round_ties_even (f : Z) : Z :=
  let floor := fl_floor f64_fmt f in
  let diff := fl_sub f64_fmt f floor in
  let r := if fl_lt f64_fmt diff F64_HALF then floor
           else if fl_lt f64_fmt F64_HALF diff then fl_add f64_fmt floor F64_ONE_
           else if Z.land (f64_as_i64 floor) 1 =? 0 then floor
           else fl_add f64_fmt floor F64_ONE_ in
  if fl_eq f64_fmt r 0 then fl_copysign f64_fmt 0 f else r.

Definition vround_f64 (mode f : Z) : Z :=
  match mode with
  | 1 => fl_floor f64_fmt f
  | 2 => fl_ceil f64_fmt f
  | 3 => fl_trunc f64_fmt f
  | _ => round_ties_even f
  end.
Definition vround_elem (p : FPrec) (mode x : Z) : Z :=
  if fl_is_nan (fmt p) x then quiet p x
  else match p with
       | F32 => f64_to_f32 (vround_f64 mode (f32_to_f64 x))
       | F64 => vround_f64 mode x
       end.
Definition vround (d s : Z) (p : FPrec) (mode : Z) (scalar : bool) : Z :=
  let m := if test mode 4 then 0 else Z.land mode 3 in
  put_lanes p (lane_count p scalar) (fun i => vround_elem p m (flane p s i)) d.

(** ** Arithmetic *)

Definition apply_f (p : FPrec) (x y : Z) (op : FloatBinOp) : Z :=
  match op with
  | FAdd => sse_binop p x y (fl_add (fmt p))
  | FSub => sse_binop p x y (fl_sub (fmt p))
  | FMul => sse_binop p x y (fl_mul (fmt p))
  | FDiv => sse_binop p x y (fl_div (fmt p))
  | FMin => if fl_lt (fmt p) x y then x else y
  | FMax => if fl_lt (fmt p) y x then x else y
  end.
Definition apply_f32 : Z -> Z -> FloatBinOp -> Z := apply_f F32.
Definition apply_f64 : Z -> Z -> FloatBinOp -> Z := apply_f F64.

Definition float_bin (a b : Z) (op : FloatBinOp) (p : FPrec) (scalar : bool) : Z :=
  put_lanes p (lane_count p scalar) (fun i => apply_f p (flane p a i) (flane p b i) op) a.

(** [None] is the [unreachable!] of a double-precision reciprocal. *)
Definition apply_un_f32 (x : Z) (op : FloatUnOp) : Z :=
  if fl_is_nan f32_fmt x then quiet_f32 x
  else match op with
       | Sqrt => if fl_lt f32_fmt x 0 then F32_INDEFINITE else fl_sqrt f32_fmt x
       | Rsqrt => if fl_lt f32_fmt x 0 then F32_INDEFINITE else fl_div f32_fmt 0x3F800000 (fl_sqrt f32_fmt x)
       | Rcp => fl_div f32_fmt 0x3F800000 x
       end.
Definition apply_un_f64 (x : Z) (op : FloatUnOp) : option Z :=
  if fl_is_nan f64_fmt x then Some (quiet_f64 x)
  else match op with
       | Sqrt => Some (if fl_lt f64_fmt x 0 then F64_INDEFINITE else fl_sqrt f64_fmt x)
       | Rsqrt | Rcp => None
       end.
Definition apply_un (p : FPrec) (x : Z) (op : FloatUnOp) : option Z :=
  match p with F32 => Some (apply_un_f32 x op) | F64 => apply_un_f64 x op end.

Fixpoint float_unary_loop (p : FPrec) (op : FloatUnOp) (src : Z) (is_ : list Z) (r : Z) : option Z :=
  match is_ with
  | [] => Some r
  | i :: is_ => v ← apply_un p (flane p src i) op; float_unary_loop p op src is_ (put_lane p r i v)
  end.
Definition float_unary (dst_old src : Z) (op : FloatUnOp) (p : FPrec) (scalar : bool) : option Z :=
  float_unary_loop p op src (zseq 0 (lane_count p scalar)) dst_old.

(** [h{add,sub}p] and [addsubp]. *)
Definition hfloat (a b : Z) (op : HFloatOp) (p : FPrec) : Z :=
  let la := flane p a in
  let lb := flane p b in
  let add x y := sse_binop p x y (fl_add (fmt p)) in
  let sub x y := sse_binop p x y (fl_sub (fmt p)) in
  let out := match p, op with
    | F32, HAdd => [add (la 0) (la 1); add (la 2) (la 3); add (lb 0) (lb 1); add (lb 2) (lb 3)]
    | F32, HSub => [sub (la 0) (la 1); sub (la 2) (la 3); sub (lb 0) (lb 1); sub (lb 2) (lb 3)]
    | F32, AddSub => [sub (la 0) (lb 0); add (la 1) (lb 1); sub (la 2) (lb 2); add (la 3) (lb 3)]
    | F64, HAdd => [add (la 0) (la 1); add (lb 0) (lb 1)]
    | F64, HSub => [sub (la 0) (la 1); sub (lb 0) (lb 1)]
    | F64, AddSub => [sub (la 0) (lb 0); add (la 1) (lb 1)]
    end in
  or_lanes (lane_count p false) (prec_bits p) (fun i => nth (Z.to_nat i) out 0).
Definition hfloat_op_from_code (code : Z) : HFloatOp := match code with 0 => HAdd | 1 => HSub | _ => AddSub end.

(** ** Comparisons *)

Definition float_pred (ord : option comparison) (pred : Z) : bool :=
  let unord := match ord with None => true | _ => false end in
  let lt := match ord with Some Lt => true | _ => false end in
  let eq := match ord with Some Eq => true | _ => false end in
  let gt := match ord with Some Gt => true | _ => false end in
  match Z.land pred 31 with
  | 0x00 | 0x10 => eq
  | 0x01 | 0x11 => lt
  | 0x02 | 0x12 => lt || eq
  | 0x03 | 0x13 => unord
  | 0x04 | 0x14 => negb eq
  | 0x05 | 0x15 => negb lt
  | 0x06 | 0x16 => negb (lt || eq)
  | 0x07 | 0x17 => negb unord
  | 0x08 | 0x18 => eq || unord
  | 0x09 | 0x19 => lt || unord
  | 0x0A | 0x1A => lt || eq || unord
  | 0x0B | 0x1B => false
  | 0x0C | 0x1C => lt || gt
  | 0x0D | 0x1D => gt || eq
  | 0x0E | 0x1E => gt
  | _ => true
  end.

Definition float_cmp_mask (dst_old a b : Z) (p : FPrec) (scalar : bool) (pred : Z) : Z :=
  put_lanes p (lane_count p scalar) (fun i =>
    if float_pred (fl_compare (fmt p) (flane p a i) (flane p b i)) pred then lane_mask (prec_bytes p) else 0) dst_old.

Definition float_compare (a b : Z) (p : FPrec) : bool * bool * bool :=
  match fl_compare (fmt p) (wrap (prec_bits p) a) (wrap (prec_bits p) b) with
  | None => (true, true, true)
  | Some Eq => (true, false, false)
  | Some Lt => (false, false, true)
  | Some Gt => (false, false, false)
  end.

(** ** Fused multiply-add *)

Definition fma_elem (xb yb zb : Z) (p : FPrec) (neg_prod neg_add : bool) : Z :=
  let f := fmt p in
  let x0 := wrap (prec_bits p) xb in
  let y := wrap (prec_bits p) yb in
  let z0 := wrap (prec_bits p) zb in
  if fl_is_nan f x0 then quiet p x0
  else if fl_is_nan f y then quiet p y
  else if fl_is_nan f z0 then quiet p z0
  else
    let x := if neg_prod then fl_neg f x0 else x0 in
    let z := if neg_add then fl_neg f z0 else z0 in
    let r := fl_mul_add f x y z in
    if fl_is_nan f r then indefinite_of p else r.

Definition fma_lanes (xv yv zv old : list Z) (p : FPrec) (scalar neg_prod neg_add : bool) (bytes alt_sign : Z) : list Z :=
  let elem := prec_bytes p in
  set_velems (if scalar then old else zero4) (if scalar then 1 else bytes / elem) elem (fun i =>
    let na := match alt_sign with 1 => i mod 2 =? 0 | 2 => negb (i mod 2 =? 0) | _ => neg_add end in
    fma_elem (get_velem xv i elem) (get_velem yv i elem) (get_velem zv i elem) p neg_prod na).

(** ** Conversions *)

Definition I32_MIN : Z := - 2 ^ 31.
Definition I32_MAX : Z := 2 ^ 31 - 1.
(** [(r as i32 as u32)] of the rounded or truncated value. *)
Definition cvt_to_i (f : Z) (trunc : bool) : Z :=
  let r := if trunc then fl_trunc f64_fmt f else round_ties_even f in
  wrap 32 (fl_to_int f64_fmt I32_MIN I32_MAX r).

Definition packed_cvt128 (s : Z) (kind : PackedCvtKind) : Z :=
  let i32_lane i := to_signed 32 (Z.shiftr s (32 * i)) in
  let f32_lane i := flane F32 s i in
  let f64_lane i := flane F64 s i in
  match kind with
  | Dq2Ps => or_lanes 4 32 (fun i => fl_of_int f32_fmt (i32_lane i))
  | Ps2Dq => or_lanes 4 32 (fun i => cvt_to_i (f32_to_f64 (f32_lane i)) false)
  | Tps2Dq => or_lanes 4 32 (fun i => cvt_to_i (f32_to_f64 (f32_lane i)) true)
  | Dq2Pd => or_lanes 2 64 (fun i => fl_of_int f64_fmt (i32_lane i))
  | Ps2Pd => or_lanes 2 64 (fun i => widen_f32 (f32_lane i))
  | Pd2Ps => or_lanes 2 32 (fun i => narrow_f64 (f64_lane i))
  | Pd2Dq => or_lanes 2 32 (fun i => cvt_to_i (f64_lane i) false)
  | Tpd2Dq => or_lanes 2 32 (fun i => cvt_to_i (f64_lane i) true)
  end.

(** ** String compares *)

Definition pcmp_elem (v ew : Z) (words signed : bool) (i : Z) : Z :=
  let raw := Z.land (Z.shiftr v (i * ew * 8)) (if words then 0xFFFF else 0xFF) in
  if signed then to_signed (ew * 8) raw else raw.

(** The comparison of [src2[i]] and [src1[j]] after the validity override. *)
Definition overridden (a b len1 len2 ew : Z) (words signed : bool) (agg i j : Z) : bool :=
  let x := pcmp_elem a ew words signed j in
  let y := pcmp_elem b ew words signed i in
  let base := match agg with
              | 1 => if Z.land j 1 =? 0 then x <=? y else y <=? x
              | _ => x =? y
              end in
  let ai := len1 <=? j in
  let bi := len2 <=? i in
  match agg with
  | 0 | 1 => if ai || bi then false else base
  | 2 => if ai && bi then true else if xorb ai bi then false else base
  | _ => if ai then true else if bi then false else base
  end.

Definition pcmpstr_bit (a b len1 len2 ew n : Z) (words signed : bool) (agg i : Z) : bool :=
  let ov := overridden a b len1 len2 ew words signed agg in
  let js := zseq 0 (Z.to_nat n) in
  match agg with
  | 0 => existsb (fun j => ov i j) js
  | 1 => existsb (fun j => (Z.land j 1 =? 0) && (ov i j && ov i (j + 1))) js
  | 2 => ov i i
  | _ => forallb (fun j => if i + j <? n then ov (i + j) j else len1 <=? j) js
  end.

Definition pcmpstr_intres2 (a b len1 len2 imm : Z) : Z * Z * bool * bool * bool * bool :=
  let words := test imm 1 in
  let signed := test imm 2 in
  let agg := Z.land (Z.shiftr imm 2) 3 in
  let polarity := Z.land (Z.shiftr imm 4) 3 in
  let n := if words then 8 else 16 in
  let ew := if words then 2 else 1 in
  let intres1 := foldl (fun r i => if pcmpstr_bit a b len1 len2 ew n words signed agg i then Z.lor r (Z.shiftl 1 i) else r)
                   0 (zseq 0 (Z.to_nat n)) in
  let nmask := if words then 0xFF else 0xFFFF in
  let intres2 := Z.land (match polarity with
                         | 1 => Z.land (unot 32 intres1) nmask
                         | 3 => Z.lxor intres1 (Z.shiftl 1 (Z.min len2 n) - 1)
                         | _ => Z.land intres1 nmask
                         end) nmask in
  (intres2, n, negb (intres2 =? 0), len2 <? n, len1 <? n, test intres2 1).

Definition pcmpstr (a b len1 len2 imm : Z) : Z * bool * bool * bool * bool :=
  let '(intres2, n, cf, zf, sf, of_) := pcmpstr_intres2 a b len1 len2 imm in
  let msb := test imm 0x40 in
  let ecx := if intres2 =? 0 then n
             else if msb then 31 - leading_zeros 32 intres2 else trailing_zeros 32 intres2 in
  (ecx, cf, zf, sf, of_).

Definition pcmpstr_mask (a b len1 len2 imm : Z) : Z * bool * bool * bool * bool :=
  let '(intres2, n, cf, zf, sf, of_) := pcmpstr_intres2 a b len1 len2 imm in
  let words := test imm 1 in
  let ew := if words then 2 else 1 in
  let elem_mask := if words then 0xFFFF else 0xFF in
  let m := if test imm 0x40 then
             or_lanes (Z.to_nat n) (ew * 8) (fun i => if test intres2 (Z.shiftl 1 i) then elem_mask else 0)
           else intres2 in
  (m, cf, zf, sf, of_).

Definition pcmpistr_len (v : Z) (words : bool) : Z :=
  let '(n, ew, m) := if words then (8, 2, 0xFFFF) else (16, 1, 0xFF) in
  match list_find (fun i => Z.land (Z.shiftr v (i * ew * 8)) m = 0) (zseq 0 (Z.to_nat n)) with
  | Some (_, i) => i
  | None => n
  end.

Definition pcmpstr_lengths (c : CpuState) (av bv imm : Z) (explicit : bool) : Z * Z :=
  let words := test imm 1 in
  let n := if words then 8 else 16 in
  if explicit then
    (Z.min (Z.abs (to_signed 32 (get_gpr c 0))) n, Z.min (Z.abs (to_signed 32 (get_gpr c 2))) n)
  else (pcmpistr_len av words, pcmpistr_len bv words).
