(* ===== verification/VecMem.v ===== *)
(** * Vector registers and vector memory access (interp/mod.rs)

    Register accesses with their bounds check, the 8-byte transfers of a vector load or
    store with the resumption of a device access ([vpart]), and the accesses that go
    through [StrMem] and so serve the interpreter and the compiled code: masked loads
    and stores, permutes, fused multiply-add and broadcasts with a memory operand. *)

From S2P Require Import Prelude Features State Ir Aes Sha Alu Memory Interp IntegerSpec StringOps HostFloat VecOps VecFloat.

(** ** Registers: [None] is an index out of bounds *)

Definition guard_reg {A} (r : nat) (x : A) : option A := if (r <? 32)%nat then Some x else None.
Definition guard_k {A} (k : nat) (x : A) : option A := if (k <? 8)%nat then Some x else None.

Definition xmm_of (c : CpuState) (r : nat) : option Z := guard_reg r (nth r (xmm c) 0).
Definition hi_of (c : CpuState) (r : nat) : option Z := guard_reg r (nth r (ymm_hi c) 0).
Definition k_of (c : CpuState) (k : nat) : option Z := guard_k k (nth k (kmask c) 0).
Definition lanes_of (c : CpuState) (r : nat) : option (list Z) := guard_reg r (vec_lanes c r).

Definition with_xmm (c : CpuState) (r : nat) (v : Z) : option CpuState := guard_reg r (set_xmm c (<[r := v]> (xmm c))).
Definition with_hi (c : CpuState) (r : nat) (v : Z) : option CpuState := guard_reg r (set_ymm_hi c (<[r := v]> (ymm_hi c))).
Definition with_k (c : CpuState) (k : nat) (v : Z) : option CpuState := guard_k k (set_kmask c (<[k := v]> (kmask c))).
Definition with_vec (c : CpuState) (r : nat) (v : list Z) (bytes : Z) : option CpuState := guard_reg r (set_vec c r v bytes).
Definition with_vec_low (c : CpuState) (r : nat) (v : list Z) (bytes : Z) : option CpuState :=
  guard_reg r (set_vec_low c r v bytes).
Definition with_masked (c : CpuState) (r : nat) (v : list Z) (k : nat) (elem : Z) (zeroing : bool) (bytes : Z)
    : option CpuState :=
  guard_k k tt ≫= fun _ => guard_reg r (write_masked c r v k elem zeroing bytes).

(** [if masked { write_masked } else { set_vec }] *)
Definition commit (c : CpuState) (dst : nat) (res : list Z) (writemask : option nat) (elem : Z) (zeroing : bool) (bytes : Z)
    : option CpuState :=
  match writemask with
  | Some k => with_masked c dst res k elem zeroing bytes
  | None => with_vec c dst res bytes
  end.
(** [if k == 0 { set_vec } else { write_masked }] *)
Definition commit_k (c : CpuState) (dst : nat) (res : list Z) (k : nat) (elem : Z) (zeroing : bool) (bytes : Z) : option CpuState :=
  commit c dst res (if (k =? 0)%nat then None else Some k) elem zeroing bytes.

(** ** In the machine *)

Definition ask {A} (f : CpuState -> option A) : M A := fun s =>
  match f (m_cpu s) with Some a => Some (a, s) | None => None end.

Definition xmmM (r : nat) : M Z := ask (fun c => xmm_of c r).
Definition hiM (r : nat) : M Z := ask (fun c => hi_of c r).
Definition kM (k : nat) : M Z := ask (fun c => k_of c k).
Definition lanesM (r : nat) : M (list Z) := ask (fun c => lanes_of c r).
Definition put_xmm (r : nat) (v : Z) : M unit := try_cpu (fun c => with_xmm c r v).
Definition put_hi (r : nat) (v : Z) : M unit := try_cpu (fun c => with_hi c r v).
Definition put_k (k : nat) (v : Z) : M unit := try_cpu (fun c => with_k c k v).
Definition put_vec (r : nat) (v : list Z) (bytes : Z) : M unit := try_cpu (fun c => with_vec c r v bytes).
Definition put_vec_low (r : nat) (v : list Z) (bytes : Z) : M unit := try_cpu (fun c => with_vec_low c r v bytes).

(** ** Transfers of at most eight bytes *)

Record VecFault : Type := mkVecFault {
  vf_at : Z;
  vf_size : Z;
  vf_trap : MemTrap;
  vf_value : Z;
}.

Definition vpart (cur_addr at_ size : Z) : M (Result Z VecFault) :=
  c ← get_cpu;
  match mmio_part c cur_addr at_ with
  | Some v => mret (Ok v)
  | None =>
      r ← on_mem (fun m => read m at_ size);
      match r with
      | Ok v => mret (Ok v)
      | Err Mmio =>
          match pending_mmio c with
          | Some v =>
              let v := Z.land v (mask size) in
              upd_cpu (fun c => record_mmio_part (set_pending_mmio c None) cur_addr at_ v);;
              mret (Ok v)
          | None => mret (Err (mkVecFault at_ size Mmio 0))
          end
      | Err t => mret (Err (mkVecFault at_ size t 0))
      end
  end.

Definition vpart_store (cur_addr at_ v size : Z) : M (Result unit VecFault) :=
  c ← get_cpu;
  match mmio_part c cur_addr at_ with
  | Some _ => mret (Ok tt)
  | None =>
      r ← on_mem (fun m => write m at_ v size);
      match r with
      | Ok _ => mret (Ok tt)
      | Err Mmio =>
          if pending_mmio_write c then
            upd_cpu (fun c => record_mmio_part (set_pending_mmio_write c false) cur_addr at_ 0);;
            mret (Ok tt)
          else mret (Err (mkVecFault at_ size Mmio v))
      | Err t => mret (Err (mkVecFault at_ size t v))
      end
  end.

(** [?] on a fault *)
Definition vthen {A B} (x : M (Result A VecFault)) (k : A -> M (Result B VecFault)) : M (Result B VecFault) :=
  r ← x; match r with Ok a => k a | Err f => mret (Err f) end.

Definition vload (cur_addr addr size : Z) : M (Result Z VecFault) :=
  if size =? 16 then
    vthen (vpart cur_addr addr 8) (fun lo =>
    vthen (vpart cur_addr (wrapping_add 64 addr 8) 8) (fun hi =>
    mret (Ok (Z.lor lo (shl128 hi 64)))))
  else if size =? 8 then vpart cur_addr addr 8
  else vpart cur_addr addr 4.

Fixpoint vload_loop (cur_addr base : Z) (n i : nat) : M (Result (list Z) VecFault) :=
  match n with
  | O => mret (Ok [])
  | S n' =>
      vthen (vload cur_addr (wrapping_add 64 base (Z.of_nat i * 16)) 16) (fun v =>
      vthen (vload_loop cur_addr base n' (S i)) (fun vs => mret (Ok (v :: vs))))
  end.
(** The lanes above [width] are zero; at most four are loaded. *)
Definition vload_lanes (cur_addr base width : Z) : M (Result (list Z) VecFault) :=
  let n := Nat.min 4 (Z.to_nat (width / 16)) in
  vthen (vload_loop cur_addr base n 0) (fun vs => mret (Ok (vs ++ replicate (4 - n) 0))).

Definition vstore (cur_addr addr v size : Z) : M (Result unit VecFault) :=
  if size =? 16 then
    vthen (vpart_store cur_addr addr (wrap 64 v) 8) (fun _ =>
    vpart_store cur_addr (wrapping_add 64 addr 8) (wrap 64 (Z.shiftr v 64)) 8)
  else if size =? 8 then vpart_store cur_addr addr (wrap 64 v) 8
  else vpart_store cur_addr addr (Z.land (wrap 64 v) 0xffffffff) 4.

(** The arms' [Err(f) => return Some(trap_out(...))]. *)
Definition or_trap {A} (cur_addr : Z) (access : AccessKind) (x : M (Result A VecFault)) (k : A -> Arm) : Arm :=
  r ← x;
  match r with
  | Ok a => k a
  | Err f =>
      o ← trap_out cur_addr (vf_trap f) (vf_at f) (vf_size f) access (match access with Read => 0 | _ => vf_value f end);
      leave o
  end.
Definition loading (cur_addr addr size : Z) (k : Z -> Arm) : Arm := or_trap cur_addr Read (vload cur_addr addr size) k.
Definition loading_lanes (cur_addr base width : Z) (k : list Z -> Arm) : Arm :=
  or_trap cur_addr Read (vload_lanes cur_addr base width) k.
Definition storing (cur_addr addr v size : Z) (k : Arm) : Arm := or_trap cur_addr Write (vstore cur_addr addr v size) (fun _ => k).

(** ** Accesses through [StrMem] *)

Section Runs.
Context {T : Type} `{StrMem T}.

Definition Run : Type := option (option StrFault * CpuState * T).

Definition fault_at (c : CpuState) (cur_addr addr : Z) (wr : bool) (t : MemTrap) (value elem : Z) (mem : T) : Run :=
  Some (str_trap c cur_addr addr wr t value elem, mem).

Definition done (oc : option CpuState) (mem : T) : Run := c ← oc; Some (None, c, mem).

(** One 16-byte lane as two 8-byte loads; the fault names the half that failed. *)
Definition load_lane16 (mem : T) (ea : Z) : option (Result Z (Z * MemTrap) * T) :=
  '(lo, mem) ← sload mem ea 8;
  match lo with
  | Err t => Some (Err (ea, t), mem)
  | Ok lo =>
      let ea8 := wrapping_add 64 ea 8 in
      '(hi, mem) ← sload mem ea8 8;
      match hi with
      | Err t => Some (Err (ea8, t), mem)
      | Ok hi => Some (Ok (Z.lor lo (shl128 hi 64)), mem)
      end
  end.

Fixpoint load_lanes_loop (mem : T) (base : Z) (n i : nat) : option (Result (list Z) (Z * MemTrap) * T) :=
  match n with
  | O => Some (Ok [], mem)
  | S n' =>
      '(r, mem) ← load_lane16 mem (wrapping_add 64 base (Z.of_nat i * 16));
      match r with
      | Err f => Some (Err f, mem)
      | Ok v =>
          '(r, mem) ← load_lanes_loop mem base n' (S i);
          Some (match r with Ok vs => Ok (v :: vs) | Err f => Err f end, mem)
      end
  end.
Definition load_lanes (mem : T) (base : Z) (n : nat) : option (Result (list Z) (Z * MemTrap) * T) :=
  '(r, mem) ← load_lanes_loop mem base n 0;
  Some (match r with Ok vs => Ok (vs ++ replicate (4 - n) 0) | Err f => Err f end, mem).

(** Load the operand, or stop with RIP back on the instruction. *)
Definition with_operand (c : CpuState) (mem : T) (cur_addr base : Z) (n : nat) (k : list Z -> T -> Run) : Run :=
  '(r, mem) ← load_lanes mem base n;
  match r with
  | Err (a, t) => fault_at c cur_addr a false t 0 8 mem
  | Ok v => k v mem
  end.

Definition slots (bytes : Z) : nat := Nat.min 4 (Z.to_nat (bytes / 16)).

Definition vperm1_run (c : CpuState) (mem : T) (dst idx : nat) (base elem : Z) (writemask : option nat) (zeroing : bool)
    (bytes cur_addr : Z) : Run :=
  with_operand c mem cur_addr base (slots bytes) (fun table mem =>
    done (index ← lanes_of c idx; commit c dst (permute1 index table elem bytes) writemask elem zeroing bytes) mem).

(** [vpermi2] takes the index from [dst], [vpermt2] from [idx]. *)
Definition index_and_table (c : CpuState) (dst idx : nat) (imode : bool) : option (list Z * list Z) :=
  d ← lanes_of c dst; i ← lanes_of c idx; Some (if imode then (d, i) else (i, d)).

Definition permute2_run (c : CpuState) (mem : T) (dst idx : nat) (base elem : Z) (writemask : option nat) (zeroing : bool)
    (bytes : Z) (imode : bool) (cur_addr : Z) : Run :=
  with_operand c mem cur_addr base (slots bytes) (fun table1 mem =>
    done ('(index, table0) ← index_and_table c dst idx imode;
          commit c dst (permute2 index table0 table1 elem bytes) writemask elem zeroing bytes) mem).

(** RIP is left as it is on a fault. *)
Fixpoint gf2p8_loop (op : GfniOp) (al : list Z) (mem : T) (addr imm : Z) (n i : nat)
    : option (Result (list Z) (Z * MemTrap) * T) :=
  match n with
  | O => Some (Ok [], mem)
  | S n' =>
      '(r, mem) ← load_lane16 mem (wrapping_add 64 addr (Z.of_nat i * 16));
      match r with
      | Err f => Some (Err f, mem)
      | Ok bl =>
          '(r, mem) ← gf2p8_loop op al mem addr imm n' (S i);
          Some (match r with Ok vs => Ok (GfniOp_apply op (lane al i) bl imm :: vs) | Err f => Err f end, mem)
      end
  end.
Definition gf2p8_mem_run (c : CpuState) (mem : T) (dst a : nat) (addr imm mode : Z) (k : nat) (zeroing : bool) (bytes : Z) : Run :=
  al ← lanes_of c a;
  let n := slots bytes in
  '(r, mem) ← gf2p8_loop (GfniOp_from_u8 mode) al mem addr imm n 0;
  match r with
  | Err (a, t) => Some (Some (mkFault a false t 0 8), c, mem)
  | Ok vs => done (commit_k c dst (vs ++ replicate (4 - n) 0) k 1 zeroing bytes) mem
  end.

(** Which of the three sources is the memory operand. *)
Definition fma_source (c : CpuState) (mem_role role : Z) (memv : list Z) (r : nat) : option (list Z) :=
  if mem_role =? role then Some memv else lanes_of c r.
Definition fma_commit (c : CpuState) (dst : nat) (res : list Z) (p : FPrec) (scalar : bool) (writemask : option nat)
    (zeroing : bool) (bytes : Z) : option CpuState :=
  match writemask with
  | Some k => with_masked c dst res k (prec_bytes p) zeroing bytes
  | None => with_vec c dst res (if scalar then 16 else bytes)
  end.
Definition fma_mem_run (c : CpuState) (mem : T) (dst x y z : nat) (base mem_role : Z) (p : FPrec) (scalar neg_prod neg_add : bool)
    (bytes alt_sign cur_addr : Z) (writemask : option nat) (zeroing : bool) : Run :=
  let finish memv mem :=
    done (xv ← fma_source c mem_role 0 memv x;
          yv ← fma_source c mem_role 1 memv y;
          zv ← fma_source c mem_role 2 memv z;
          old ← lanes_of c dst;
          fma_commit c dst (fma_lanes xv yv zv old p scalar neg_prod neg_add bytes alt_sign) p scalar writemask zeroing bytes) mem in
  if scalar then
    '(r, mem) ← sload mem base (prec_bytes p);
    match r with
    | Err t => fault_at c cur_addr base false t 0 (prec_bytes p) mem
    | Ok v => finish [v; 0; 0; 0] mem
    end
  else with_operand c mem cur_addr base (Nat.max 1 (slots bytes)) finish.

Fixpoint load_chunk (mem : T) (base : Z) (n i : nat) : option (Result (list Z) (Z * MemTrap) * T) :=
  match n with
  | O => Some (Ok [], mem)
  | S n' =>
      let ea := wrapping_add 64 base (Z.of_nat i * 8) in
      '(r, mem) ← sload mem ea 8;
      match r with
      | Err t => Some (Err (ea, t), mem)
      | Ok v =>
          '(r, mem) ← load_chunk mem base n' (S i);
          Some (match r with Ok bs => Ok (to_le_bytes 8 v ++ bs) | Err f => Err f end, mem)
      end
  end.
Definition broadcast_lane_mem_run (c : CpuState) (mem : T) (dst : nat) (base chunk elem dst_width : Z) (writemask : option nat)
    (zeroing : bool) (cur_addr : Z) : Run :=
  '(r, mem) ← load_chunk mem base (Z.to_nat (div_ceil chunk 8)) 0;
  match r with
  | Err (a, t) => fault_at c cur_addr a false t 0 8 mem
  | Ok sb => done (commit c dst (broadcast_lane_lanes sb chunk dst_width) writemask elem zeroing dst_width) mem
  end.

(** Element by element: an inactive element touches no memory. *)
Fixpoint masked_load_loop (mem : T) (base k elem : Z) (zeroing : bool) (n : nat) (i : Z) (lanes : list Z)
    : option (Result (list Z) (Z * MemTrap) * T) :=
  match n with
  | O => Some (Ok lanes, mem)
  | S n' =>
      if negb (Z.land k (wrap 64 (Z.shiftl 1 i)) =? 0) then
        let ea := wrapping_add 64 base (i * elem) in
        '(r, mem) ← sload mem ea elem;
        match r with
        | Err t => Some (Err (ea, t), mem)
        | Ok v => masked_load_loop mem base k elem zeroing n' (i + 1) (set_velem lanes i elem v)
        end
      else masked_load_loop mem base k elem zeroing n' (i + 1) (if zeroing then set_velem lanes i elem 0 else lanes)
  end.
Definition masked_load_run (c : CpuState) (mem : T) (dst : nat) (base k elem : Z) (zeroing : bool) (bytes cur_addr : Z) : Run :=
  lanes ← lanes_of c dst;
  '(r, mem) ← masked_load_loop mem base k elem zeroing (Z.to_nat (bytes / elem)) 0 lanes;
  match r with
  | Err (a, t) => fault_at c cur_addr a false t 0 elem mem
  | Ok lanes => done (with_vec c dst lanes bytes) mem
  end.

Fixpoint store_loop (mem : T) (active : Z -> bool) (value : Z -> Z) (base elem : Z) (n : nat) (i : Z)
    : option (Result unit (Z * MemTrap * Z) * T) :=
  match n with
  | O => Some (Ok tt, mem)
  | S n' =>
      if active i then
        let ea := wrapping_add 64 base (i * elem) in
        '(r, mem) ← sstore mem ea (value i) elem;
        match r with
        | Err t => Some (Err (ea, t, value i), mem)
        | Ok _ => store_loop mem active value base elem n' (i + 1)
        end
      else store_loop mem active value base elem n' (i + 1)
  end.
Definition store_run (c : CpuState) (mem : T) (active : Z -> bool) (value : Z -> Z) (base elem n cur_addr : Z) : Run :=
  '(r, mem) ← store_loop mem active value base elem (Z.to_nat n) 0;
  match r with
  | Err (a, t, v) => fault_at c cur_addr a true t v elem mem
  | Ok _ => Some (None, c, mem)
  end.
Definition masked_store_run (c : CpuState) (mem : T) (src : nat) (base k elem bytes cur_addr : Z) : Run :=
  lanes ← lanes_of c src;
  store_run c mem (fun i => negb (Z.land k (wrap 64 (Z.shiftl 1 i)) =? 0)) (fun i => get_velem lanes i elem) base elem (bytes / elem) cur_addr.
Definition narrow_store_run (c : CpuState) (mem : T) (src : nat) (from to src_width base cur_addr : Z) : Run :=
  lanes ← lanes_of c src;
  store_run c mem (fun _ => true) (fun i => get_velem lanes i from) base to (src_width / from) cur_addr.

End Runs.
