(* ===== verification/VecCpu.v ===== *)
(** * Register forms of the vector operations (interp/mod.rs, interp/vector.rs)

    What a vector op does to the register file once its operands are at hand.  The
    [exec_*] functions here are the ones the interpreter and the compiled code share;
    [None] is the panic of an index out of bounds. *)

From S2P Require Import Prelude Features State Ir Aes Sha Alu Memory Interp IntegerSpec StringOps HostFloat VecOps VecFloat VecMem.

(** ** Shapes *)

(** [cpu.xmm[dst] = f(cpu.xmm[a], cpu.xmm[b])] *)
Definition lo2 (c : CpuState) (dst a b : nat) (f : Z -> Z -> Z) : option CpuState :=
  x ← xmm_of c a; y ← xmm_of c b; with_xmm c dst (f x y).
Definition hi2 (c : CpuState) (dst a b : nat) (f : Z -> Z -> Z) : option CpuState :=
  x ← hi_of c a; y ← hi_of c b; with_hi c dst (f x y).
Definition lo1 (c : CpuState) (dst a : nat) (f : Z -> Z) : option CpuState := x ← xmm_of c a; with_xmm c dst (f x).
Definition hi1 (c : CpuState) (dst a : nat) (f : Z -> Z) : option CpuState := x ← hi_of c a; with_hi c dst (f x).

(** The low half, then the high half. *)
Definition both2 (c : CpuState) (dst a b : nat) (f g : Z -> Z -> Z) : option CpuState :=
  c ← lo2 c dst a b f; hi2 c dst a b g.
Definition both1 (c : CpuState) (dst a : nat) (f : Z -> Z) : option CpuState := c ← lo1 c dst a f; hi1 c dst a f.
(** The high half only for [bytes == 32]. *)
Definition halves2 (c : CpuState) (dst a b : nat) (bytes : Z) (f g : Z -> Z -> Z) : option CpuState :=
  c ← lo2 c dst a b f; if bytes =? 32 then hi2 c dst a b g else Some c.

(** [let mut r = [0; 4]; for i in 0..n { r[i] = f(i) }] *)
Definition lanes_upto (n : Z) (f : nat -> Z) : option (list Z) := if n <=? 4 then Some (lanes4 n f) else None.
Definition per_lane1 (f : Z -> Z) (n : Z) (a : list Z) : option (list Z) := lanes_upto n (fun i => f (lane a i)).
Definition per_lane2 (f : Z -> Z -> Z) (n : Z) (a b : list Z) : option (list Z) := lanes_upto n (fun i => f (lane a i) (lane b i)).

(** [cpu.kmask[k]] under a write mask, all ones without one. *)
Definition kmask_or_ones (c : CpuState) (writemask : option nat) : option Z :=
  match writemask with Some k => k_of c k | None => Some (2 ^ 64 - 1) end.

(** Element [i] is [f i] where the mask is set, else zero or the old element. *)
Definition merged (km : Z) (zeroing : bool) (old : list Z) (elem : Z) (f : Z -> Z) (i : Z) : Z :=
  if negb (Z.land (Z.shiftr km i) 1 =? 0) then f i else if zeroing then 0 else get_velem old i elem.

(** ** Permutes, blends, shifts under a mask *)

Definition exec_valign (c : CpuState) (dst a b : nat) (shift elem bytes : Z) : option CpuState :=
  al ← lanes_of c a; bl ← lanes_of c b; r ← valign_lanes al bl shift elem bytes; with_vec c dst r bytes.

Definition exec_vpermt2 (c : CpuState) (dst idx tbl : nat) (elem : Z) (writemask : option nat) (zeroing : bool) (bytes : Z)
    (imode : bool) : option CpuState :=
  '(index, table0) ← index_and_table c dst idx imode;
  table1 ← lanes_of c tbl;
  commit c dst (permute2 index table0 table1 elem bytes) writemask elem zeroing bytes.

Definition exec_vperm1 (c : CpuState) (dst idx src : nat) (elem bytes : Z) (writemask : option nat) (zeroing : bool)
    : option CpuState :=
  index ← lanes_of c idx; table ← lanes_of c src;
  commit c dst (permute1 index table elem bytes) writemask elem zeroing bytes.

Definition apply_masked_logic (c : CpuState) (op : VLogicOp) (dst a b k : nat) (elem : Z) (zeroing : bool) (bytes : Z)
    : option CpuState :=
  al ← lanes_of c a; bl ← lanes_of c b;
  with_masked c dst (lanes4 4 (fun i => vlogic (lane al i) (lane bl i) op)) k elem zeroing bytes.
Definition masked_logic_op (op_code : Z) : VLogicOp :=
  match op_code with 0 => VXor | 1 => VAnd | 2 => VOr | _ => VAndn end.
Definition exec_masked_logic (c : CpuState) (op_code : Z) (dst a b k : nat) (elem : Z) (zeroing : bool) (bytes : Z)
    : option CpuState :=
  apply_masked_logic c (masked_logic_op op_code) dst a b k elem zeroing bytes.

Definition exec_vpshufb_wide (c : CpuState) (dst a idx : nat) (bytes : Z) (writemask : option nat) (zeroing : bool)
    : option CpuState :=
  av ← lanes_of c a; iv ← lanes_of c idx;
  res ← per_lane2 pshufb (bytes / 16) av iv;
  commit c dst res writemask 1 zeroing bytes.

Definition exec_vshuffle32_wide (c : CpuState) (dst a : nat) (imm bytes : Z) (writemask : option nat) (zeroing : bool)
    : option CpuState :=
  av ← lanes_of c a;
  res ← per_lane1 (fun v => shuffle32_128 v imm) (bytes / 16) av;
  commit c dst res writemask 4 zeroing bytes.

Definition apply_masked_packed (c : CpuState) (op : PackedBinOp) (dst a b k : nat) (elem : Z) (zeroing : bool) (bytes : Z)
    : option CpuState :=
  al ← lanes_of c a; bl ← lanes_of c b;
  with_masked c dst (lanes4 4 (fun i => packed_bin (lane al i) (lane bl i) elem op)) k elem zeroing bytes.
Definition masked_packed_op (op_code : Z) : PackedBinOp :=
  match op_code with
  | 0 => PAdd | 1 => PSub | 2 => MinU | 3 => MaxU | 4 => MinS | 5 => MaxS | 6 => MulLo32 | 7 => CmpEq | 8 => CmpGt
  | 9 => MulLo64 | 10 => MulU32 | 11 => MulS32 | 12 => MulLo16 | 13 => MulHiU16 | 14 => MulHiS16 | 15 => AddSatS
  | 16 => AddSatU | 17 => SubSatS | 18 => SubSatU | 19 => AvgU | _ => MulHiRoundedS16
  end.
Definition exec_masked_packed (c : CpuState) (op_code : Z) (dst a b k : nat) (elem : Z) (zeroing : bool) (bytes : Z)
    : option CpuState :=
  apply_masked_packed c (masked_packed_op op_code) dst a b k elem zeroing bytes.

Definition apply_masked_shift (c : CpuState) (dst a : nat) (imm elem : Z) (right arith : bool) (k : nat) (zeroing : bool)
    (bytes : Z) : option CpuState :=
  al ← lanes_of c a;
  commit_k c dst (lanes4 4 (fun i => packed_shift (lane al i) imm elem right arith)) k elem zeroing bytes.
Definition exec_masked_shift : CpuState -> nat -> nat -> Z -> Z -> bool -> bool -> nat -> bool -> Z -> option CpuState :=
  apply_masked_shift.

(** The count is the low 64 bits of a register; 128 bits without a mask writes only the
    low lane. *)
Definition exec_shift_reg (c : CpuState) (dst a count : nat) (elem : Z) (right arith : bool) (k : nat) (zeroing : bool)
    (bytes : Z) : option CpuState :=
  cv ← xmm_of c count;
  let eff := wrap 8 (Z.min (wrap 64 cv) (elem * 8)) in
  if (k =? 0)%nat && (bytes =? 16) then lo1 c dst a (fun v => packed_shift v eff elem right arith)
  else apply_masked_shift c dst a eff elem right arith k zeroing bytes.

Definition exec_var_shift (c : CpuState) (dst a count : nat) (elem : Z) (right arith : bool) (k : nat) (zeroing : bool)
    (bytes : Z) : option CpuState :=
  al ← lanes_of c a; cl ← lanes_of c count;
  commit_k c dst (set_velems zero4 (bytes / elem) elem (fun i =>
    var_shift_one (get_velem al i elem) (get_velem cl i elem) (elem * 8) right arith)) k elem zeroing bytes.

Definition exec_gf2p8 (c : CpuState) (dst a b : nat) (imm mode : Z) (k : nat) (zeroing : bool) (bytes : Z) : option CpuState :=
  al ← lanes_of c a; bl ← lanes_of c b;
  r ← per_lane2 (fun x y => GfniOp_apply (GfniOp_from_u8 mode) x y imm) (bytes / 16) al bl;
  commit_k c dst r k 1 zeroing bytes.

(** Always a 512-bit write: the narrowed elements, zeroes above. *)
Definition exec_vpmov_narrow (c : CpuState) (dst src : nat) (from to src_width : Z) (writemask : option nat) (zeroing : bool)
    : option CpuState :=
  s ← lanes_of c src; old ← lanes_of c dst; km ← kmask_or_ones c writemask;
  with_vec c dst (set_velems zero4 (src_width / from) to (merged km zeroing old to (fun i => get_velem s i from))) 64.

Definition exec_vpmov_extend_wide (c : CpuState) (dst src : nat) (from to : Z) (signed : bool) (dst_width : Z)
    (writemask : option nat) (zeroing : bool) : option CpuState :=
  s ← lanes_of c src; old ← lanes_of c dst; km ← kmask_or_ones c writemask;
  let bits := from * 8 in
  with_vec c dst (set_velems zero4 (dst_width / to) to (merged km zeroing old to (fun i =>
    let raw := get_velem s i from in
    if (bits <? 64) && signed && test raw (Z.shiftl 1 (bits - 1)) then Z.lor raw (wrap 64 (Z.shiftl (2 ^ 64 - 1) bits)) else raw)))
    dst_width.

(** [(sext as i64).wrapping_abs() as u64] *)
Definition vpabs_elem (raw bits : Z) : Z :=
  let sext := if (bits <? 64) && test raw (Z.shiftl 1 (bits - 1)) then Z.lor raw (wrap 64 (Z.shiftl (2 ^ 64 - 1) bits)) else raw in
  wrap 64 (Z.abs (to_signed 64 sext)).
Definition exec_vpabs (c : CpuState) (dst src : nat) (elem dst_width : Z) (writemask : option nat) (zeroing : bool)
    : option CpuState :=
  s ← lanes_of c src; old ← lanes_of c dst; km ← kmask_or_ones c writemask;
  with_vec c dst (set_velems zero4 (dst_width / elem) elem
    (merged km zeroing old elem (fun i => vpabs_elem (get_velem s i elem) (elem * 8)))) dst_width.

Definition vp_unary_elem (s : list Z) (op : VpUnaryOp) (imm elem i : Z) : Z :=
  let raw := get_velem s i elem in
  match op with
  | Lzcnt_ => if elem =? 4 then leading_zeros 32 (wrap 32 raw) else leading_zeros 64 raw
  | Rol_ => if elem =? 4 then rotate_left 32 (wrap 32 raw) imm else rotate_left 64 raw imm
  | Conflict => mask_of (Z.to_nat i) (fun j => get_velem s j elem =? raw)
  end.
Definition exec_vp_unary_lane (c : CpuState) (dst src : nat) (op : VpUnaryOp) (imm elem dst_width : Z) (writemask : option nat)
    (zeroing : bool) : option CpuState :=
  s ← lanes_of c src; old ← lanes_of c dst; km ← kmask_or_ones c writemask;
  with_vec c dst (set_velems zero4 (dst_width / elem) elem (merged km zeroing old elem (vp_unary_elem s op imm elem))) dst_width.

Definition exec_vp_blendm (c : CpuState) (dst a b k : nat) (elem dst_width : Z) (zeroing : bool) : option CpuState :=
  av ← lanes_of c a; bv ← lanes_of c b; km ← k_of c k;
  with_vec c dst (set_velems zero4 (dst_width / elem) elem (merged km zeroing av elem (fun i => get_velem bv i elem))) dst_width.

(** Whole 128-bit lanes, the low half of the result from [a], the high half from [b]. *)
Definition exec_vshuf_lane (c : CpuState) (dst a b : nat) (imm elem dst_width : Z) (writemask : option nat) (zeroing : bool)
    : option CpuState :=
  let nlanes := dst_width / 16 in
  let bits_per := trailing_zeros 64 nlanes in
  let sel_mask := wrap 8 nlanes - 1 in
  al ← lanes_of c a; bl ← lanes_of c b;
  let shuf := lanes4 nlanes (fun i =>
    let field := Z.to_nat (Z.land (Z.shiftr imm (Z.of_nat i * bits_per)) sel_mask) in
    if Z.of_nat i <? nlanes / 2 then lane al field else lane bl field) in
  commit c dst shuf writemask elem zeroing dst_width.

Definition multishift_qword (cq dq : Z) : Z :=
  foldl (fun outq i =>
    let sh := Z.land (Z.shiftr cq (i * 8)) 0x3f in
    Z.lor outq (Z.shiftl (wrap 8 (rotate_right 64 dq sh)) (i * 8))) 0 (zseq 0 8).
Definition exec_vp_multishift (c : CpuState) (dst ctrl data : nat) (dst_width : Z) (writemask : option nat) (zeroing : bool)
    : option CpuState :=
  cl ← lanes_of c ctrl; dl ← lanes_of c data;
  commit c dst (set_velems zero4 (dst_width / 8) 8 (fun q => multishift_qword (get_velem cl q 8) (get_velem dl q 8)))
    writemask 1 zeroing dst_width.

(** ** Arithmetic, broadcast, packing *)

Definition exec_fma (c : CpuState) (dst x y z : nat) (p : FPrec) (scalar neg_prod neg_add : bool) (bytes alt_sign : Z)
    (writemask : option nat) (zeroing : bool) : option CpuState :=
  xv ← lanes_of c x; yv ← lanes_of c y; zv ← lanes_of c z; old ← lanes_of c dst;
  fma_commit c dst (fma_lanes xv yv zv old p scalar neg_prod neg_add bytes alt_sign) p scalar writemask zeroing bytes.

Definition exec_broadcast_lane (c : CpuState) (dst src : nat) (chunk elem dst_width : Z) (writemask : option nat) (zeroing : bool)
    : option CpuState :=
  s ← lanes_of c src;
  commit c dst (broadcast_lane_lanes (bytes_of_lanes s) chunk dst_width) writemask elem zeroing dst_width.

Definition exec_aes (c : CpuState) (dst a b : nat) (op : Z) : option CpuState :=
  lo2 c dst a b (AesOp_apply (AesOp_from_u8 op)).
Definition exec_aes_mem (c : CpuState) (dst a : nat) (rk op : Z) : option CpuState :=
  lo1 c dst a (fun state => AesOp_apply (AesOp_from_u8 op) state rk).
Definition exec_aes_imc (c : CpuState) (dst src : nat) : option CpuState := lo1 c dst src aes_imc.
Definition exec_aes_imc_mem (c : CpuState) (dst : nat) (v : Z) : option CpuState := with_xmm c dst (aes_imc v).
Definition exec_aes_keygen (c : CpuState) (dst src : nat) (imm : Z) : option CpuState := lo1 c dst src (fun v => aes_keygen v imm).
Definition exec_aes_keygen_mem (c : CpuState) (dst : nat) (v imm : Z) : option CpuState := with_xmm c dst (aes_keygen v imm).
Definition exec_sha (c : CpuState) (dst a b : nat) (imm op : Z) : option CpuState :=
  xmm0 ← xmm_of c 0; lo2 c dst a b (fun x y => ShaOp_apply (ShaOp_from_u8 op) x y xmm0 imm).
Definition exec_sha_mem (c : CpuState) (dst a : nat) (v imm op : Z) : option CpuState :=
  xmm0 ← xmm_of c 0; lo1 c dst a (fun x => ShaOp_apply (ShaOp_from_u8 op) x v xmm0 imm).
Definition exec_gfni (c : CpuState) (dst a b : nat) (imm op : Z) : option CpuState :=
  lo2 c dst a b (fun x y => GfniOp_apply (GfniOp_from_u8 op) x y imm).
Definition exec_gfni_mem (c : CpuState) (dst a : nat) (v imm op : Z) : option CpuState :=
  lo1 c dst a (fun x => GfniOp_apply (GfniOp_from_u8 op) x v imm).
Definition exec_pclmul (c : CpuState) (dst a b : nat) (imm : Z) : option CpuState := lo2 c dst a b (fun x y => pclmul x y imm).
Definition exec_pclmul_mem (c : CpuState) (dst a : nat) (v imm : Z) : option CpuState := lo1 c dst a (fun x => pclmul x v imm).

(** MMX register [mm] is the low eight bytes of its x87 slot. *)
Definition exec_movq2dq (c : CpuState) (dst src_mm : nat) : option CpuState :=
  slot ← fpr c !! src_mm; with_xmm c dst (from_le_bytes (take 8 slot)).
Definition exec_movdq2q (c : CpuState) (dst_mm src_xmm : nat) : option CpuState :=
  v ← xmm_of c src_xmm; slot ← fpr c !! dst_mm;
  Some (set_fpr c (<[dst_mm := to_le_bytes 8 (wrap 64 v) ++ [0xff; 0xff]]> (fpr c))).

Definition exec_vpack (c : CpuState) (dst a b : nat) (from_elem : Z) (signed : bool) (bytes : Z) : option CpuState :=
  av ← lanes_of c a; bv ← lanes_of c b;
  res ← per_lane2 (fun x y => pack_lane x y from_elem signed) (bytes / 16) av bv;
  with_vec_low c dst res bytes.
Definition pack_wide_mem_from (c : CpuState) (dst : nat) (a b from_elem : Z) (signed : bool) : option CpuState :=
  with_xmm c dst (pack_lane a b from_elem signed).

Definition exec_pmaddwd (c : CpuState) (dst a b : nat) : option CpuState :=
  lo2 c dst a b (fun av bv => or_lanes 4 32 (madd_elem av bv)).
Definition exec_v_pmadd (c : CpuState) (dst a b : nat) (ubsw : bool) (bytes : Z) : option CpuState :=
  halves2 c dst a b bytes (fun x y => pmadd_lane x y ubsw) (fun x y => pmadd_lane x y ubsw).
Definition exec_v_pmadd_mem_lane (c : CpuState) (dst a : nat) (memv : Z) (ubsw hi_half : bool) : option CpuState :=
  if hi_half then hi1 c dst a (fun x => pmadd_lane x memv ubsw) else lo1 c dst a (fun x => pmadd_lane x memv ubsw).

(** Lane 0 goes to the low half, every other one to the high half. *)
Fixpoint hfloat_loop (c : CpuState) (dst : nat) (la lb : list Z) (op : HFloatOp) (p : FPrec) (n i : nat) : option CpuState :=
  match n with
  | O => Some c
  | S n' =>
      x ← la !! i; y ← lb !! i;
      let r := hfloat x y op p in
      c ← (if (i =? 0)%nat then with_xmm c dst r else with_hi c dst r);
      hfloat_loop c dst la lb op p n' (S i)
  end.
Definition hfloat_reg (c : CpuState) (dst a b : nat) (op : HFloatOp) (p : FPrec) (bytes : Z) : option CpuState :=
  la ← lanes_of c a; lb ← lanes_of c b; hfloat_loop c dst la lb op p (Z.to_nat (bytes / 16)) 0.
Definition hfloat_mem (c : CpuState) (dst a : nat) (b : list Z) (op : HFloatOp) (p : FPrec) (bytes : Z) : option CpuState :=
  la ← lanes_of c a; hfloat_loop c dst la b op p (Z.to_nat (bytes / 16)) 0.

Definition hint_reg (c : CpuState) (dst a b : nat) (op : HIntOp) (bytes : Z) : option CpuState :=
  halves2 c dst a b bytes (fun x y => hint x y op) (fun x y => hint x y op).
Definition hint_mem (c : CpuState) (dst a : nat) (blo bhi : Z) (op : HIntOp) (bytes : Z) : option CpuState :=
  alo ← xmm_of c a;
  let rlo := hint alo blo op in
  if bytes =? 32 then
    ahi ← hi_of c a; c ← with_xmm c dst rlo; with_hi c dst (hint ahi bhi op)
  else with_xmm c dst rlo.

(** ** String compares *)

Definition pcmpstr_run_bv (c : CpuState) (a : nat) (bv imm : Z) (explicit : bool) : option (Z * bool * bool * bool * bool) :=
  av ← xmm_of c a;
  let '(len1, len2) := pcmpstr_lengths c av bv imm explicit in
  Some (pcmpstr av bv len1 len2 imm).
Definition pcmpstr_run (c : CpuState) (a b : nat) (imm : Z) (explicit : bool) : option (Z * bool * bool * bool * bool) :=
  bv ← xmm_of c b; pcmpstr_run_bv c a bv imm explicit.
Definition pcmpstrm_run_bv (c : CpuState) (a : nat) (bv imm : Z) (explicit : bool) : option (Z * bool * bool * bool * bool) :=
  av ← xmm_of c a;
  let '(len1, len2) := pcmpstr_lengths c av bv imm explicit in
  Some (pcmpstr_mask av bv len1 len2 imm).
Definition pcmpstrm_run (c : CpuState) (a b : nat) (imm : Z) (explicit : bool) : option (Z * bool * bool * bool * bool) :=
  bv ← xmm_of c b; pcmpstrm_run_bv c a bv imm explicit.

(** [CF ZF SF OF] as given, AF and PF clear. *)
Definition strcmp_flags (f : Flags) (cf zf sf of_ : bool) : Flags :=
  set_pf (set_af (set_of_ (set_sf (set_zf (set_cf f cf) zf) sf) of_) false) false.
(** ECX and the flags of [pcmp{e,i}stri]. *)
Definition write_pcmpstri (c : CpuState) (r : Z * bool * bool * bool * bool) : option CpuState :=
  let '(ecx, cf, zf, sf, of_) := r in
  c ← write_gpr c 1 ecx 4; Some (set_flags c (strcmp_flags (flags c) cf zf sf of_)).
Definition write_pcmpstrm (c : CpuState) (r : Z * bool * bool * bool * bool) : option CpuState :=
  let '(m, cf, zf, sf, of_) := r in
  c ← with_xmm c 0 m; Some (set_flags c (strcmp_flags (flags c) cf zf sf of_)).
