(* ===== verification/VecArm.v ===== *)
(** * The vector arms of the interpreter (x86jit-core/src/interp/vector.rs)

    One definition per [exec_v_*] function.  A memory operand is read with [loading]
    before anything is written: the continuation runs only when the load succeeded, so
    what follows it is the commit.  Reads of source registers that the code makes before
    the load are made before the load. *)

From S2P Require Import Prelude Features State Ir Aes Sha Alu Memory Interp IntegerSpec StringOps HostFloat VecOps VecFloat VecMem VecCpu.

(** ** Shapes *)

(** A register form: the whole arm is a change of the register file. *)
Definition reg_arm (f : CpuState -> option CpuState) : Arm := try_cpu f;; next.

(** Both halves of a 32-byte operand, committed together. *)
Definition halves_m (cur_addr : Z) (dst : nat) (base : Z) (flo fhi : Z -> Z) : Arm :=
  loading cur_addr base 16 (fun lo =>
  loading cur_addr (wrapping_add 64 base 16) 16 (fun hi =>
  put_xmm dst (flo lo);; put_hi dst (fhi hi);; next)).
(** The halves of source register [a], read first. *)
Definition halves_am (cur_addr : Z) (dst a : nat) (addr : Val) (flo fhi : Z -> Z -> Z) : Arm :=
  base ← read_val addr; alo ← xmmM a; ahi ← hiM a;
  halves_m cur_addr dst base (flo alo) (fhi ahi).
(** [cpu.xmm[dst] = f([addr])] *)
Definition load1 (cur_addr : Z) (dst : nat) (addr : Val) (size : Z) (f : Z -> Z) : Arm :=
  a ← read_val addr; loading cur_addr a size (fun v => put_xmm dst (f v);; next).
(** [cpu.xmm[dst] = f(cpu.xmm[dst], [addr])], the register read after the load. *)
Definition load_dst (cur_addr : Z) (dst : nat) (addr : Val) (size : Z) (f : Z -> Z -> Z) : Arm :=
  a ← read_val addr; loading cur_addr a size (fun v => reg_arm (fun c => lo1 c dst dst (fun d => f d v))).
(** [cpu.xmm[dst] = f(cpu.xmm[a], [addr])], the register read before the load. *)
Definition load_src (cur_addr : Z) (dst a : nat) (addr : Val) (size : Z) (f : Z -> Z -> Z) : Arm :=
  x ← xmmM a; ea ← read_val addr; loading cur_addr ea size (fun v => put_xmm dst (f x v);; next).
Definition ea_load_src (cur_addr : Z) (dst a : nat) (addr : Val) (size : Z) (f : Z -> Z -> Z) : Arm :=
  ea ← read_val addr; x ← xmmM a; loading cur_addr ea size (fun v => put_xmm dst (f x v);; next).
(** Per-lane operations on 512-bit vectors; [n] lanes are computed, the others are zero. *)
Definition wide2 (dst a b : nat) (n bytes : Z) (f : Z -> Z -> Z) : Arm :=
  reg_arm (fun c => al ← lanes_of c a; bl ← lanes_of c b; r ← per_lane2 f n al bl; with_vec c dst r bytes).
Definition wide2_m (cur_addr : Z) (dst a : nat) (addr : Val) (n bytes : Z) (f : Z -> Z -> Z) : Arm :=
  al ← lanesM a; base ← read_val addr;
  loading_lanes cur_addr base bytes (fun bl => reg_arm (fun c => r ← per_lane2 f n al bl; with_vec c dst r bytes)).
(** As [wide2], the bits above [bytes] kept. *)
Definition low1 (dst a : nat) (bytes : Z) (f : Z -> Z) : Arm :=
  reg_arm (fun c => al ← lanes_of c a; r ← per_lane1 f (bytes / 16) al; with_vec_low c dst r bytes).
Definition low2 (dst a b : nat) (bytes : Z) (f : Z -> Z -> Z) : Arm :=
  reg_arm (fun c => al ← lanes_of c a; bl ← lanes_of c b; r ← per_lane2 f (bytes / 16) al bl; with_vec_low c dst r bytes).

(** ** Moves *)

Definition exec_v_load (cur_addr : Z) (dst : nat) (addr : Val) (size : Z) : Arm := load1 cur_addr dst addr size (fun v => v).

Definition exec_v_store (cur_addr : Z) (addr : Val) (src : nat) (size : Z) : Arm :=
  a ← read_val addr; v ← xmmM src; storing cur_addr a v size next.

Definition exec_v_mov (dst src : nat) : Arm := reg_arm (fun c => lo1 c dst src (fun v => v)).
(** The arm of [VMov256] in the walk. *)
Definition exec_v_mov256 (dst src : nat) : Arm := reg_arm (fun c => both1 c dst src (fun v => v)).

Definition exec_v_load_wide (cur_addr : Z) (dst : nat) (addr : Val) (bytes : Z) : Arm :=
  a ← read_val addr; loading_lanes cur_addr a bytes (fun lanes => put_vec dst lanes bytes;; next).

Fixpoint store_lanes (cur_addr a : Z) (lanes : list Z) (i : nat) : Arm :=
  match lanes with
  | [] => next
  | v :: lanes => storing cur_addr (wrapping_add 64 a (Z.of_nat i * 16)) v 16 (store_lanes cur_addr a lanes (S i))
  end.
Definition exec_v_store_wide (cur_addr : Z) (addr : Val) (src : nat) (bytes : Z) : Arm :=
  a ← read_val addr; lanes ← lanesM src; store_lanes cur_addr a (take (Z.to_nat (bytes / 16)) lanes) 0.

Definition exec_v_mov_wide (dst src : nat) (bytes : Z) : Arm :=
  reg_arm (fun c => lanes ← lanes_of c src; with_vec c dst lanes bytes).
Definition exec_v_mask_mov (dst src k : nat) (elem : Z) (zeroing : bool) (bytes : Z) : Arm :=
  reg_arm (fun c => newval ← lanes_of c src; with_masked c dst newval k elem zeroing bytes).

Definition exec_v_mask_load_mem (cur_addr : Z) (dst : nat) (addr : Val) (k : nat) (elem : Z) (zeroing : bool) (bytes : Z) : Arm :=
  base ← read_val addr; km ← kM k;
  run_str (fun c m => masked_load_run c m dst base km elem zeroing bytes cur_addr).
Definition exec_v_mask_store_mem (cur_addr : Z) (src : nat) (addr : Val) (k : nat) (elem bytes : Z) : Arm :=
  base ← read_val addr; km ← kM k;
  run_str (fun c m => masked_store_run c m src base km elem bytes cur_addr).
Definition exec_v_vecmask_load_mem (cur_addr : Z) (dst : nat) (addr : Val) (mask : nat) (elem bytes : Z) : Arm :=
  base ← read_val addr; mv ← lanesM mask;
  run_str (fun c m => masked_load_run c m dst base (vec_msb_mask mv elem bytes) elem true bytes cur_addr).
Definition exec_v_vecmask_store_mem (cur_addr : Z) (src : nat) (addr : Val) (mask : nat) (elem bytes : Z) : Arm :=
  base ← read_val addr; mv ← lanesM mask;
  run_str (fun c m => masked_store_run c m src base (vec_msb_mask mv elem bytes) elem bytes cur_addr).

Definition exec_v_move_half (dst src : nat) (dst_high src_high : bool) : Arm :=
  reg_arm (fun c =>
    s ← xmm_of c src;
    let half := if src_high then Z.shiftr s 64 else wrap 64 s in
    lo1 c dst dst (fun d => if dst_high then Z.lor (wrap 64 d) (shl128 half 64) else Z.lor (Z.land d (not128 (2 ^ 64 - 1))) half)).
Definition exec_v_load_half (cur_addr : Z) (dst : nat) (addr : Val) (high : bool) : Arm :=
  load_dst cur_addr dst addr 8 (fun d v => if high then Z.lor (wrap 64 d) (shl128 v 64) else Z.lor (Z.land d (not128 (2 ^ 64 - 1))) v).
Definition exec_v_store_half (cur_addr : Z) (addr : Val) (src : nat) (high : bool) : Arm :=
  a ← read_val addr; s ← xmmM src;
  storing cur_addr a (if high then Z.shiftr s 64 else wrap 64 s) 8 next.

(** ** Between general and vector registers *)

Definition exec_v_from_gpr (dst : nat) (src : Val) (size : Z) : Arm :=
  v ← read_val src; put_xmm dst (Z.land v (mask size));; next.
Definition exec_v_to_gpr (dst : Temp) (src : nat) (size : Z) : Arm :=
  v ← xmmM src; set_temp dst (Z.land (wrap 64 v) (mask size));; next.
Definition exec_v_extract_w (dst : Temp) (src : nat) (index : Z) : Arm :=
  v ← xmmM src; set_temp dst (elem_at v 16 0xffff (Z.land index 7));; next.
Definition exec_v_extract_lane (dst : Temp) (src : nat) (index size : Z) : Arm :=
  v ← xmmM src;
  let bits := size * 8 in
  set_temp dst (wrap 64 (elem_at v bits (lane_mask size) (index mod (128 / bits))));; next.
Definition exec_v_insert_w (dst : nat) (src : Val) (index : Z) : Arm :=
  sv ← read_val src;
  let v := wrap 16 sv in
  let sh := Z.land index 7 * 16 in
  reg_arm (fun c => lo1 c dst dst (fun old => Z.lor (Z.land old (not128 (shl128 0xffff sh))) (shl128 v sh))).
Definition exec_v_insert_lane (dst base : nat) (src : Val) (index size : Z) : Arm :=
  sv ← read_val src;
  let bits := size * 8 in
  let v := Z.land sv (lane_mask size) in
  let sh := index mod (128 / bits) * bits in
  reg_arm (fun c => lo1 c dst base (fun old => Z.lor (Z.land old (not128 (shl128 (lane_mask size) sh))) (shl128 v sh))).
Definition exec_v_move_mask_b (dst : Temp) (src : nat) : Arm := v ← xmmM src; set_temp dst (movemask_b v);; next.
Definition exec_v_move_mask_b256 (dst : Temp) (src : nat) : Arm :=
  lo ← xmmM src; hi ← hiM src; set_temp dst (Z.lor (movemask_b lo) (Z.shiftl (movemask_b hi) 16));; next.

(** The sign bits of the lanes of one half, from bit [at_] on. *)
Definition move_mask_half (s bitw : Z) (per_lane : nat) (at_ m : Z) : Z :=
  foldl (fun m i => Z.lor m (wrap 64 (Z.shiftl (Z.land (Z.shiftr s (bitw * i + (bitw - 1))) 1) (at_ + i)))) m (zseq 0 per_lane).
Definition exec_v_move_mask_fp (dst : Temp) (src : nat) (elem bytes : Z) : Arm :=
  let bitw := elem * 8 in
  let per_lane := 16 / elem in
  lo ← xmmM src; hi ← hiM src;
  set_temp dst (foldl (fun m l => move_mask_half (if l =? 0 then lo else hi) bitw (Z.to_nat per_lane) (l * per_lane) m) 0
                  (zseq 0 (Z.to_nat (bytes / 16))));; next.

(** ** Broadcasts *)

Definition broadcast_to (c : CpuState) (dst : nat) (v : Z) (w256 : bool) : option CpuState :=
  c ← with_xmm c dst v; with_hi c dst (if w256 then v else 0).
Definition exec_v_broadcast (dst src : nat) (elem : Z) (w256 : bool) : Arm :=
  reg_arm (fun c => v ← xmm_of c src; broadcast_to c dst (broadcast_elem v elem) w256).
(** Reads memory itself: no part of it resumes a device access. *)
Definition exec_v_broadcast_m (cur_addr : Z) (dst : nat) (addr : Val) (elem : Z) (w256 : bool) : Arm :=
  a ← read_val addr;
  r ← on_mem (fun m => read m a elem);
  match r with
  | Ok e => reg_arm (fun c => broadcast_to c dst (broadcast_elem e elem) w256)
  | Err t => o ← trap_out cur_addr t a elem Read 0; leave o
  end.
Definition exec_v_broadcast_gpr (dst : nat) (src : Val) (elem width : Z) : Arm :=
  v ← read_val src; put_vec dst (replicate 4 (broadcast_elem v elem)) width;; next.
Definition exec_v_broadcast_lane (dst src : nat) (chunk elem dst_width : Z) (writemask : option nat) (zeroing : bool) : Arm :=
  reg_arm (fun c => exec_broadcast_lane c dst src chunk elem dst_width writemask zeroing).
Definition exec_v_broadcast_lane_m (cur_addr : Z) (dst : nat) (addr : Val) (chunk elem dst_width : Z) (writemask : option nat)
    (zeroing : bool) : Arm :=
  base ← read_val addr;
  run_str (fun c m => broadcast_lane_mem_run c m dst base chunk elem dst_width writemask zeroing cur_addr).

(** ** Logic *)

Definition exec_v_logic (dst a b : nat) (op : VLogicOp) : Arm := reg_arm (fun c => lo2 c dst a b (fun x y => vlogic x y op)).
Definition exec_v_logic_m (cur_addr : Z) (dst : nat) (addr : Val) (op : VLogicOp) : Arm :=
  load_dst cur_addr dst addr 16 (fun d v => vlogic d v op).
Definition exec_v_logic256 (dst a b : nat) (op : VLogicOp) : Arm :=
  reg_arm (fun c => both2 c dst a b (fun x y => vlogic x y op) (fun x y => vlogic x y op)).
Definition exec_v_logic256_m (cur_addr : Z) (dst a : nat) (addr : Val) (op : VLogicOp) : Arm :=
  halves_am cur_addr dst a addr (fun x y => vlogic x y op) (fun x y => vlogic x y op).
Definition exec_v_logic_wide (dst a b : nat) (op : VLogicOp) (bytes : Z) : Arm := wide2 dst a b 4 bytes (fun x y => vlogic x y op).
Definition exec_v_logic_wide_m (cur_addr : Z) (dst a : nat) (addr : Val) (op : VLogicOp) (bytes : Z) : Arm :=
  wide2_m cur_addr dst a addr 4 bytes (fun x y => vlogic x y op).
Definition exec_v_masked_logic (dst a b : nat) (op : VLogicOp) (k : nat) (elem : Z) (zeroing : bool) (bytes : Z) : Arm :=
  reg_arm (fun c => apply_masked_logic c op dst a b k elem zeroing bytes).

Definition ternlog_lanes (al bl cl : list Z) (imm : Z) : list Z :=
  lanes4 4 (fun i => ternlog (lane al i) (lane bl i) (lane cl i) imm).
Definition exec_v_p_ternlog (dst b c_ : nat) (imm bytes : Z) : Arm :=
  reg_arm (fun c => al ← lanes_of c dst; bl ← lanes_of c b; cl ← lanes_of c c_; with_vec c dst (ternlog_lanes al bl cl imm) bytes).
Definition exec_v_p_ternlog_m (cur_addr : Z) (dst b : nat) (addr : Val) (imm bytes : Z) : Arm :=
  al ← lanesM dst; bl ← lanesM b; base ← read_val addr;
  loading_lanes cur_addr base bytes (fun cl => put_vec dst (ternlog_lanes al bl cl imm) bytes;; next).

(** ZF and CF of [ptest]-like comparisons, the others clear. *)
Definition test_flags (f : Flags) (zf cf : bool) : Flags :=
  set_pf (set_af (set_sf (set_of_ (set_cf (set_zf f zf) cf) false) false) false) false.
Definition exec_v_ptest (a b : nat) (w256 : bool) : Arm :=
  alo ← xmmM a; blo ← xmmM b;
  ahi ← (if w256 then hiM a else mret 0); bhi ← (if w256 then hiM b else mret 0);
  upd_flags (fun f => test_flags f
    ((Z.land blo alo =? 0) && (Z.land bhi ahi =? 0))
    ((Z.land blo (not128 alo) =? 0) && (Z.land bhi (not128 ahi) =? 0)));; next.
Definition exec_v_test_fp (a b : nat) (elem bytes : Z) : Arm :=
  let m := fp_sign_mask elem in
  alo ← xmmM a; blo ← xmmM b;
  ahi ← (if bytes =? 32 then hiM a else mret 0); bhi ← (if bytes =? 32 then hiM b else mret 0);
  let '(alo, blo, ahi, bhi) := (Z.land alo m, Z.land blo m, Z.land ahi m, Z.land bhi m) in
  upd_flags (fun f => test_flags f
    ((Z.land blo alo =? 0) && (Z.land bhi ahi =? 0))
    ((Z.land (Z.land blo (not128 alo)) m =? 0) && (Z.land (Z.land bhi (not128 ahi)) m =? 0)));; next.

(** ** Integer lanes *)

Definition exec_v_packed_bin (dst a b : nat) (lane_ : Z) (op : PackedBinOp) : Arm :=
  reg_arm (fun c => lo2 c dst a b (fun x y => packed_bin x y lane_ op)).
Definition exec_v_packed_bin_m (cur_addr : Z) (dst : nat) (addr : Val) (lane_ : Z) (op : PackedBinOp) : Arm :=
  load_dst cur_addr dst addr 16 (fun d v => packed_bin d v lane_ op).
Definition exec_v_packed_bin256 (dst a b : nat) (lane_ : Z) (op : PackedBinOp) : Arm :=
  reg_arm (fun c => both2 c dst a b (fun x y => packed_bin x y lane_ op) (fun x y => packed_bin x y lane_ op)).
Definition exec_v_packed_bin256_m (cur_addr : Z) (dst a : nat) (addr : Val) (lane_ : Z) (op : PackedBinOp) : Arm :=
  halves_am cur_addr dst a addr (fun x y => packed_bin x y lane_ op) (fun x y => packed_bin x y lane_ op).
Definition exec_v_packed_wide (dst a b : nat) (lane_ : Z) (op : PackedBinOp) (bytes : Z) : Arm :=
  wide2 dst a b 4 bytes (fun x y => packed_bin x y lane_ op).
Definition exec_v_packed_wide_m (cur_addr : Z) (dst a : nat) (addr : Val) (lane_ : Z) (op : PackedBinOp) (bytes : Z) : Arm :=
  wide2_m cur_addr dst a addr 4 bytes (fun x y => packed_bin x y lane_ op).
Definition exec_v_masked_packed (dst a b : nat) (op : PackedBinOp) (k : nat) (elem : Z) (zeroing : bool) (bytes : Z) : Arm :=
  reg_arm (fun c => apply_masked_packed c op dst a b k elem zeroing bytes).

Definition exec_v_popcnt (dst a : nat) (lane_ bytes : Z) : Arm :=
  reg_arm (fun c => al ← lanes_of c a; with_vec c dst (vpopcnt_lanes al lane_) bytes).
Definition exec_v_popcnt_m (cur_addr : Z) (dst : nat) (addr : Val) (lane_ bytes : Z) : Arm :=
  base ← read_val addr;
  loading_lanes cur_addr base bytes (fun al => put_vec dst (vpopcnt_lanes al lane_) bytes;; next).

Definition exec_v_p_mov_extend (dst src : nat) (from to : Z) (signed : bool) : Arm :=
  reg_arm (fun c => lo1 c dst src (fun v => pmov_extend v from to signed)).
Definition exec_v_p_mov_extend_m (cur_addr : Z) (dst : nat) (addr : Val) (from to : Z) (signed : bool) : Arm :=
  load1 cur_addr dst addr (16 / to * from) (fun v => pmov_extend v from to signed).
Definition exec_v_p_mov_extend_wide (dst src : nat) (from to : Z) (signed : bool) (dst_width : Z) (writemask : option nat)
    (zeroing : bool) : Arm :=
  reg_arm (fun c => exec_vpmov_extend_wide c dst src from to signed dst_width writemask zeroing).
Definition exec_v_p_abs (dst src : nat) (elem dst_width : Z) (writemask : option nat) (zeroing : bool) : Arm :=
  reg_arm (fun c => exec_vpabs c dst src elem dst_width writemask zeroing).
Definition exec_v_p_unary_lane (dst src : nat) (op : VpUnaryOp) (imm elem dst_width : Z) (writemask : option nat) (zeroing : bool) : Arm :=
  reg_arm (fun c => exec_vp_unary_lane c dst src op imm elem dst_width writemask zeroing).
Definition exec_v_p_multishift (dst ctrl data : nat) (dst_width : Z) (writemask : option nat) (zeroing : bool) : Arm :=
  reg_arm (fun c => exec_vp_multishift c dst ctrl data dst_width writemask zeroing).
Definition exec_v_pmov_narrow (dst src : nat) (from to src_width : Z) (writemask : option nat) (zeroing : bool) : Arm :=
  reg_arm (fun c => exec_vpmov_narrow c dst src from to src_width writemask zeroing).
Definition exec_v_pmov_narrow_mem (cur_addr : Z) (src : nat) (addr : Val) (from to src_width : Z) : Arm :=
  base ← read_val addr; run_str (fun c m => narrow_store_run c m src from to src_width base cur_addr).

Definition exec_v_pmadd_m (cur_addr : Z) (dst a : nat) (addr : Val) (ubsw : bool) (bytes : Z) : Arm :=
  av ← read_val addr; alo ← xmmM a; ahi ← hiM a;
  loading cur_addr av 16 (fun lo =>
    if bytes =? 32 then
      loading cur_addr (wrapping_add 64 av 16) 16 (fun hi =>
        put_xmm dst (pmadd_lane alo lo ubsw);; put_hi dst (pmadd_lane ahi hi ubsw);; next)
    else put_xmm dst (pmadd_lane alo lo ubsw);; next).

Definition exec_v_psign (dst a b : nat) (lane_ bytes : Z) : Arm :=
  reg_arm (fun c => halves2 c dst a b bytes (fun x y => psign x y lane_) (fun x y => psign x y lane_)).
(** [read]/[commit] the lane [l] of a register: the low half for 0, else the high half. *)
Definition half_of (c : CpuState) (r l : nat) : option Z := if (l =? 0)%nat then xmm_of c r else hi_of c r.
Definition with_half (c : CpuState) (r l : nat) (v : Z) : option CpuState := if (l =? 0)%nat then with_xmm c r v else with_hi c r v.
(** The source lane is read, and each result committed, as its operand arrives. *)
Fixpoint lane_by_lane (cur_addr : Z) (dst a : nat) (ea : Z) (f : Z -> Z -> Z) (n l : nat) : Arm :=
  match n with
  | O => next
  | S n' =>
      src ← ask (fun c => half_of c a l);
      loading cur_addr (wrapping_add 64 ea (Z.of_nat l * 16)) 16 (fun v =>
        try_cpu (fun c => with_half c dst l (f src v));;
        lane_by_lane cur_addr dst a ea f n' (S l))
  end.
Definition exec_v_psign_m (cur_addr : Z) (dst a : nat) (addr : Val) (lane_ bytes : Z) : Arm :=
  ea ← read_val addr; lane_by_lane cur_addr dst a ea (fun x y => psign x y lane_) (Z.to_nat (bytes / 16)) 0.

Definition exec_v_h_int (dst a b : nat) (op : HIntOp) (bytes : Z) : Arm := reg_arm (fun c => hint_reg c dst a b op bytes).
(** Every lane is computed into a local before the destination is written. *)
Fixpoint collect_halves (cur_addr : Z) (a : nat) (ea : Z) (f : Z -> Z -> Z) (n l : nat) (out : list Z) (k : list Z -> Arm) : Arm :=
  match n with
  | O => k out
  | S n' =>
      cur ← ask (fun c => half_of c a l);
      loading cur_addr (wrapping_add 64 ea (Z.of_nat l * 16)) 16 (fun v =>
        collect_halves cur_addr a ea f n' (S l) (out ++ [f cur v]) k)
  end.
Definition commit_halves (dst : nat) (lanes : Z) (out : list Z) : Arm :=
  put_xmm dst (lane out 0);; if 1 <? lanes then put_hi dst (lane out 1);; next else next.
Definition exec_v_h_int_m (cur_addr : Z) (dst a : nat) (addr : Val) (op : HIntOp) (bytes : Z) : Arm :=
  av ← read_val addr;
  collect_halves cur_addr a av (fun x y => hint x y op) (Nat.min 2 (Z.to_nat (bytes / 16))) 0 [] (commit_halves dst (bytes / 16)).

(** ** Shifts *)

Definition exec_v_packed_shift (dst a : nat) (imm lane_ : Z) (right arith : bool) : Arm :=
  reg_arm (fun c => lo1 c dst a (fun v => packed_shift v imm lane_ right arith)).
Definition exec_v_packed_shift256 (dst a : nat) (imm lane_ : Z) (right arith : bool) : Arm :=
  reg_arm (fun c => both1 c dst a (fun v => packed_shift v imm lane_ right arith)).
Definition exec_v_masked_shift (dst a : nat) (imm elem : Z) (right arith : bool) (k : nat) (zeroing : bool) (bytes : Z) : Arm :=
  reg_arm (fun c => exec_masked_shift c dst a imm elem right arith k zeroing bytes).
Definition exec_v_byte_shift (dst a : nat) (shift : Z) (right : bool) (width : Z) : Arm :=
  low1 dst a width (fun v => byte_shift128 v shift right).

(** ** Shuffles, blends, permutes *)

Definition exec_v_p_blendm (dst a b k : nat) (elem dst_width : Z) (zeroing : bool) : Arm :=
  reg_arm (fun c => exec_vp_blendm c dst a b k elem dst_width zeroing).
Definition exec_v_shuf_lane (dst a b : nat) (imm elem dst_width : Z) (writemask : option nat) (zeroing : bool) : Arm :=
  reg_arm (fun c => exec_vshuf_lane c dst a b imm elem dst_width writemask zeroing).
(** The mask of the SSE form is register 0. *)
Definition exec_v_p_blend_v (dst src : nat) (lane_ : Z) : Arm :=
  reg_arm (fun c => m ← xmm_of c 0; lo2 c dst dst src (fun d s => blendv d s m lane_)).
Definition exec_v_p_blend_v_m (cur_addr : Z) (dst : nat) (addr : Val) (lane_ : Z) : Arm :=
  av ← read_val addr; d ← xmmM dst; m ← xmmM 0;
  loading cur_addr av 16 (fun s => put_xmm dst (blendv d s m lane_);; next).
Definition blendv_lanes (av bv m : list Z) (lane_ bytes : Z) : option (list Z) :=
  lanes_upto (bytes / 16) (fun i => blendv (lane av i) (lane bv i) (lane m i) lane_).
Definition exec_v_p_blend_v_x (dst a b mask : nat) (lane_ bytes : Z) : Arm :=
  reg_arm (fun c => av ← lanes_of c a; bv ← lanes_of c b; m ← lanes_of c mask; r ← blendv_lanes av bv m lane_ bytes; with_vec c dst r bytes).
Definition exec_v_p_blend_v_xm (cur_addr : Z) (dst a : nat) (addr : Val) (mask : nat) (lane_ bytes : Z) : Arm :=
  av ← lanesM a; m ← lanesM mask; base ← read_val addr;
  loading_lanes cur_addr base bytes (fun bv => reg_arm (fun c => r ← blendv_lanes av bv m lane_ bytes; with_vec c dst r bytes)).

(** The immediate's bits run on across the two halves. *)
Definition blendi_lanes (av bv : list Z) (imm lane_ bytes : Z) : option (list Z) :=
  lanes_upto (bytes / 16) (fun i => blendi (lane av i) (lane bv i) (Z.shiftr imm (Z.of_nat i * (16 / lane_))) lane_).
Definition exec_v_blend_i (dst a b : nat) (imm lane_ bytes : Z) : Arm :=
  reg_arm (fun c => av ← lanes_of c a; bv ← lanes_of c b; r ← blendi_lanes av bv imm lane_ bytes; with_vec_low c dst r bytes).
Definition exec_v_blend_i_m (cur_addr : Z) (dst a : nat) (addr : Val) (imm lane_ bytes : Z) : Arm :=
  av ← lanesM a; base ← read_val addr;
  loading_lanes cur_addr base bytes (fun bv => reg_arm (fun c => r ← blendi_lanes av bv imm lane_ bytes; with_vec_low c dst r bytes)).

Definition blend_word (a b imm : Z) : Z :=
  or_lanes 8 16 (fun i => elem_at (if negb (Z.land (Z.shiftr imm i) 1 =? 0) then b else a) 16 0xffff i).
Definition exec_v_blend_w (dst a b : nat) (imm bytes : Z) : Arm := low2 dst a b bytes (fun x y => blend_word x y imm).

Definition blend_dwords (al bl : list Z) (imm bytes : Z) : list Z :=
  foldl (fun r i =>
    let chunk := Z.to_nat (i / 4) in
    let sh := i mod 4 * 32 in
    let src := if negb (Z.land (Z.shiftr imm i) 1 =? 0) then lane bl chunk else lane al chunk in
    <[chunk := Z.lor (lane r chunk) (shl128 (Z.land (Z.shiftr src sh) 0xffffffff) sh)]> r) zero4 (zseq 0 (Z.to_nat (bytes / 4))).
Definition exec_v_blend_d (dst a b : nat) (imm bytes : Z) : Arm :=
  reg_arm (fun c => al ← lanes_of c a; bl ← lanes_of c b; with_vec c dst (blend_dwords al bl imm bytes) bytes).

Definition exec_v_shuffle32 (dst a : nat) (imm bytes : Z) : Arm := low1 dst a bytes (fun v => shuffle32_128 v imm).
Definition exec_v_shuffle32_wide (dst a : nat) (imm bytes : Z) (writemask : option nat) (zeroing : bool) : Arm :=
  reg_arm (fun c => exec_vshuffle32_wide c dst a imm bytes writemask zeroing).
Definition exec_v_shuffle16 (dst a : nat) (imm : Z) (high : bool) (bytes : Z) : Arm :=
  low1 dst a bytes (fun v => shuffle16_128 v imm high).
Definition exec_v_shufps (dst a b : nat) (imm : Z) : Arm := reg_arm (fun c => lo2 c dst a b (fun x y => shufps128 x y imm)).
Definition exec_v_shufps_m (cur_addr : Z) (dst a : nat) (addr : Val) (imm : Z) : Arm :=
  load_src cur_addr dst a addr 16 (fun x y => shufps128 x y imm).
Definition exec_v_shufps256 (dst a b : nat) (imm_lo imm_hi : Z) : Arm :=
  reg_arm (fun c => both2 c dst a b (fun x y => shufps128 x y imm_lo) (fun x y => shufps128 x y imm_hi)).
Definition exec_v_shufps256_m (cur_addr : Z) (dst a : nat) (addr : Val) (imm_lo imm_hi : Z) : Arm :=
  halves_am cur_addr dst a addr (fun x y => shufps128 x y imm_lo) (fun x y => shufps128 x y imm_hi).

Definition exec_v_pshufb (dst a idx : nat) : Arm := reg_arm (fun c => lo2 c dst a idx pshufb).
Definition exec_v_pshufb_m (cur_addr : Z) (dst : nat) (addr : Val) : Arm := load_dst cur_addr dst addr 16 pshufb.
Definition exec_v_pshufb256 (dst a idx : nat) : Arm := reg_arm (fun c => both2 c dst a idx pshufb pshufb).
Definition exec_v_pshufb256_m (cur_addr : Z) (dst a : nat) (addr : Val) : Arm := halves_am cur_addr dst a addr pshufb pshufb.
Definition exec_v_pshufb_wide (dst a idx : nat) (bytes : Z) (writemask : option nat) (zeroing : bool) : Arm :=
  reg_arm (fun c => exec_vpshufb_wide c dst a idx bytes writemask zeroing).

Definition exec_v_unpack_low (dst a b : nat) (lane_ : Z) (high : bool) : Arm :=
  reg_arm (fun c => lo2 c dst a b (fun x y => unpack_low x y lane_ high)).
Definition exec_v_unpack_low_m (cur_addr : Z) (dst a : nat) (addr : Val) (lane_ : Z) (high : bool) : Arm :=
  ea_load_src cur_addr dst a addr 16 (fun x y => unpack_low x y lane_ high).
Definition exec_v_unpack256 (dst a b : nat) (lane_ : Z) (high : bool) : Arm :=
  reg_arm (fun c => both2 c dst a b (fun x y => unpack_low x y lane_ high) (fun x y => unpack_low x y lane_ high)).
Definition exec_v_unpack256_m (cur_addr : Z) (dst a : nat) (addr : Val) (lane_ : Z) (high : bool) : Arm :=
  halves_am cur_addr dst a addr (fun x y => unpack_low x y lane_ high) (fun x y => unpack_low x y lane_ high).
Definition exec_v_pack_us_w_b (dst a b : nat) : Arm := reg_arm (fun c => lo2 c dst a b packuswb).
Definition exec_v_pack_wide (dst a b : nat) (from_elem : Z) (signed : bool) (bytes : Z) : Arm :=
  reg_arm (fun c => exec_vpack c dst a b from_elem signed bytes).
Definition exec_v_pack_wide_m (cur_addr : Z) (dst a : nat) (addr : Val) (from_elem : Z) (signed : bool) : Arm :=
  av ← read_val addr; av1 ← xmmM a;
  loading cur_addr av 16 (fun bv => reg_arm (fun c => pack_wide_mem_from c dst av1 bv from_elem signed)).

Definition exec_v_align (dst a b : nat) (shift elem bytes : Z) : Arm := reg_arm (fun c => exec_valign c dst a b shift elem bytes).
Definition exec_v_alignr (dst a src : nat) (imm : Z) : Arm := reg_arm (fun c => lo2 c dst a src (fun x y => palignr x y imm)).
Definition exec_v_alignr_m (cur_addr : Z) (dst : nat) (addr : Val) (imm : Z) : Arm :=
  load_dst cur_addr dst addr 16 (fun d v => palignr d v imm).
Definition exec_v_palignr256 (dst a b : nat) (imm : Z) : Arm :=
  reg_arm (fun c => both2 c dst a b (fun x y => palignr x y imm) (fun x y => palignr x y imm)).

Definition exec_v_perm_t2 (dst idx tbl : nat) (elem : Z) (writemask : option nat) (zeroing : bool) (bytes : Z) (imode : bool) : Arm :=
  reg_arm (fun c => exec_vpermt2 c dst idx tbl elem writemask zeroing bytes imode).
Definition exec_v_perm_t2_m (cur_addr : Z) (dst idx : nat) (addr : Val) (elem : Z) (writemask : option nat) (zeroing : bool) (bytes : Z)
    (imode : bool) : Arm :=
  base ← read_val addr; run_str (fun c m => permute2_run c m dst idx base elem writemask zeroing bytes imode cur_addr).
Definition exec_v_perm1 (dst idx src : nat) (elem bytes : Z) (writemask : option nat) (zeroing : bool) : Arm :=
  reg_arm (fun c => exec_vperm1 c dst idx src elem bytes writemask zeroing).
Definition exec_v_perm1_m (cur_addr : Z) (dst idx : nat) (addr : Val) (elem bytes : Z) (writemask : option nat) (zeroing : bool) : Arm :=
  base ← read_val addr; run_str (fun c m => vperm1_run c m dst idx base elem writemask zeroing bytes cur_addr).

(** The four quadwords of a 256-bit register. *)
Definition permq_lanes (lo hi imm : Z) : Z * Z :=
  let q := [wrap 64 lo; wrap 64 (Z.shiftr lo 64); wrap 64 hi; wrap 64 (Z.shiftr hi 64)] in
  let sel i := nth (Z.to_nat (sel2 imm i)) q 0 in
  (Z.lor (sel 0) (shl128 (sel 1) 64), Z.lor (sel 2) (shl128 (sel 3) 64)).
Definition put_halves (c : CpuState) (dst : nat) (v : Z * Z) : option CpuState := c ← with_xmm c dst v.1; with_hi c dst v.2.
Definition exec_v_permq (dst src : nat) (imm : Z) : Arm :=
  reg_arm (fun c => lo ← xmm_of c src; hi ← hi_of c src; put_halves c dst (permq_lanes lo hi imm)).

Definition dword_of (lo hi i : Z) : Z := Z.land (Z.shiftr (if i <? 4 then lo else hi) (i mod 4 * 32)) 0xffffffff.
Definition permd_lanes (clo chi slo shi : Z) : Z * Z :=
  let e i := dword_of slo shi (Z.land (dword_of clo chi i) 7) in
  (or_lanes 4 32 e, or_lanes 4 32 (fun i => e (i + 4))).
Definition exec_v_permd (dst ctrl src : nat) : Arm :=
  reg_arm (fun c =>
    clo ← xmm_of c ctrl; chi ← hi_of c ctrl; slo ← xmm_of c src; shi ← hi_of c src;
    put_halves c dst (permd_lanes clo chi slo shi)).
Definition exec_v_permil_var (dst src ctrl : nat) (elem bytes : Z) : Arm :=
  wide2 dst src ctrl (bytes / 16) bytes (fun s t => permil_lane s t elem).
Definition perm2i128_lane (halves : list Z) (sel : Z) : Z :=
  if test sel 0x08 then 0 else nth (Z.to_nat (Z.land sel 3)) halves 0.
Definition exec_v_perm2i128 (dst a b : nat) (imm : Z) : Arm :=
  reg_arm (fun c =>
    alo ← xmm_of c a; ahi ← hi_of c a; blo ← xmm_of c b; bhi ← hi_of c b;
    let halves := [alo; ahi; blo; bhi] in
    put_halves c dst (perm2i128_lane halves imm, perm2i128_lane halves (Z.shiftr imm 4))).

(** ** Lane inserts and extracts *)

Definition insert128 (c : CpuState) (dst : nat) (slo shi insv : Z) (hi : bool) : option CpuState :=
  put_halves c dst (if hi then (slo, insv) else (insv, shi)).
Definition exec_v_insert128 (dst src ins : nat) (hi : bool) : Arm :=
  reg_arm (fun c => slo ← xmm_of c src; shi ← hi_of c src; insv ← xmm_of c ins; insert128 c dst slo shi insv hi).
Definition exec_v_insert128_m (cur_addr : Z) (dst src : nat) (addr : Val) (hi : bool) : Arm :=
  a ← read_val addr;
  loading cur_addr a 16 (fun insv => reg_arm (fun c => slo ← xmm_of c src; shi ← hi_of c src; insert128 c dst slo shi insv hi)).
Definition exec_v_extract128 (dst src : nat) (hi : bool) : Arm :=
  reg_arm (fun c => v ← (if hi then hi_of c src else xmm_of c src); put_halves c dst (v, 0)).

(** [&v[base .. base + n]], a panic outside the four lanes. *)
Definition lane_slice (v : list Z) (base n : nat) : option (list Z) :=
  if (base + n <=? 4)%nat then Some (take n (drop base v)) else None.
Definition exec_v_insert_lane_wide (dst src ins : nat) (idx num_lanes bytes : Z) : Arm :=
  reg_arm (fun c =>
    lanes ← lanes_of c src; inl ← lanes_of c ins;
    let n := Z.to_nat num_lanes in
    let base := (Z.to_nat idx * n)%nat in
    _ ← lane_slice lanes base n;
    with_vec c dst (take base lanes ++ take n inl ++ drop (base + n) lanes) bytes).
Definition exec_v_extract_lane_wide (dst src : nat) (idx num_lanes : Z) : Arm :=
  reg_arm (fun c =>
    srcl ← lanes_of c src;
    let n := Z.to_nat num_lanes in
    out ← lane_slice srcl (Z.to_nat idx * n) n;
    with_vec c dst (out ++ replicate (4 - n) 0) (num_lanes * 16)).

(** The destination is probed whole first: an unmapped lane stops before any store. *)
Fixpoint probe_lanes (cur_addr a : Z) (n i : nat) (k : Arm) : Arm :=
  match n with
  | O => k
  | S n' =>
      let ea := wrapping_add 64 a (Z.of_nat i * 16) in
      r ← on_mem (fun m => Some (probe_write m ea 16));
      match r with
      | Err Unmapped => o ← trap_out cur_addr Unmapped ea 16 Write 0; leave o
      | _ => probe_lanes cur_addr a n' (S i) k
      end
  end.
Definition exec_v_extract_lane_wide_m (cur_addr : Z) (src : nat) (addr : Val) (idx num_lanes : Z) : Arm :=
  a ← read_val addr; srcl ← lanesM src;
  let n := Z.to_nat num_lanes in
  probe_lanes cur_addr a n 0
    (lanes ← ask (fun _ => lane_slice srcl (Z.to_nat idx * n) n); store_lanes cur_addr a lanes 0).

Definition insert_ps_tmp (v imm : Z) : Z := wrap 32 (Z.shiftr v (Z.land (Z.shiftr imm 6) 3 * 32)).
Definition exec_v_insert_ps (dst src : nat) (imm : Z) : Arm :=
  reg_arm (fun c => lo2 c dst dst src (fun d s => insertps d (insert_ps_tmp s imm) imm)).
Definition exec_v_insert_ps_m (cur_addr : Z) (dst : nat) (addr : Val) (imm : Z) : Arm :=
  load_dst cur_addr dst addr 4 (fun d v => insertps d (wrap 32 v) imm).
Definition exec_v_insert_ps3 (dst a src : nat) (imm : Z) : Arm :=
  reg_arm (fun c => lo2 c dst a src (fun d s => insertps d (insert_ps_tmp s imm) imm)).
Definition exec_v_insert_ps_m3 (cur_addr : Z) (dst a : nat) (addr : Val) (imm : Z) : Arm :=
  load_src cur_addr dst a addr 4 (fun d v => insertps d (wrap 32 v) imm).

(** ** Clearing upper halves *)

Definition exec_v_zero_upper (reg : nat) : Arm :=
  reg_arm (fun c => c ← with_hi c reg 0; Some (set_zmm_hi c (<[reg := (0, 0)]> (zmm_hi c)))).
(** Registers 0-15 only. *)
Definition zero_first16 {A} (z : A) (l : list A) : list A := replicate 16 z ++ drop 16 l.
Definition exec_v_zero_upper_all (clear_low : bool) : Arm :=
  upd_cpu (fun c =>
    let c := set_ymm_hi c (zero_first16 0 (ymm_hi c)) in
    let c := set_zmm_hi c (zero_first16 (0, 0) (zmm_hi c)) in
    if clear_low then set_xmm c (zero_first16 0 (xmm c)) else c);; next.

(** ** Mask registers *)

(** [if let Some(wk) = writemask { m &= cpu.kmask[wk] }] *)
Definition put_mask (c : CpuState) (k : nat) (m : Z) (writemask : option nat) : option CpuState :=
  wm ← kmask_or_ones c writemask; with_k c k (Z.land m wm).
Definition exec_v_p_cmp_to_mask (k a b : nat) (elem width pred : Z) (signed : bool) (writemask : option nat) : Arm :=
  reg_arm (fun c => av ← lanes_of c a; bv ← lanes_of c b; put_mask c k (vpcmp_mask av bv elem width pred signed) writemask).
Definition exec_v_p_cmp_to_mask_m (cur_addr : Z) (k a : nat) (addr : Val) (elem width pred : Z) (signed : bool)
    (writemask : option nat) : Arm :=
  av ← lanesM a; base ← read_val addr;
  loading_lanes cur_addr base width (fun bv => reg_arm (fun c => put_mask c k (vpcmp_mask av bv elem width pred signed) writemask)).
Definition exec_v_p_test_to_mask (k a b : nat) (elem width : Z) (neg : bool) (writemask : option nat) : Arm :=
  reg_arm (fun c => av ← lanes_of c a; bv ← lanes_of c b; put_mask c k (vptest_mask av bv elem width neg) writemask).
Definition exec_v_p_test_to_mask_m (cur_addr : Z) (k a : nat) (addr : Val) (elem width : Z) (neg : bool) (writemask : option nat) : Arm :=
  av ← lanesM a; base ← read_val addr;
  loading_lanes cur_addr base width (fun bv => reg_arm (fun c => put_mask c k (vptest_mask av bv elem width neg) writemask)).

Definition exec_v_k_or_test (a b : nat) (width : Z) : Arm :=
  ka ← kM a; kb ← kM b;
  let wmask := kwidth_mask width in
  let t := Z.land (Z.lor ka kb) wmask in
  upd_flags (fun f => test_flags f (t =? 0) (t =? wmask));; next.
Definition exec_v_k_from_gpr (k : nat) (src : Val) (width : Z) : Arm :=
  v ← read_val src; put_k k (Z.land v (kwidth_mask width));; next.
Definition exec_v_k_to_gpr (dst : Temp) (k : nat) (width : Z) : Arm :=
  v ← kM k; set_temp dst (Z.land v (kwidth_mask width));; next.
Definition exec_v_k_mov_k_k (dst src : nat) (width : Z) : Arm :=
  v ← kM src; put_k dst (Z.land v (kwidth_mask width));; next.
Definition exec_v_k_unpack (dst a b : nat) (half : Z) : Arm :=
  kb ← kM b; ka ← kM a;
  let m := kwidth_mask half in
  put_k dst (Z.lor (wrap 64 (Z.shiftl (Z.land ka m) half)) (Z.land kb m));; next.
Definition k_logic (op : VKLogicOp) (ka kb : Z) : Z :=
  match op with
  | KOr => Z.lor ka kb
  | KAnd => Z.land ka kb
  | KAndn => Z.land (unot 64 ka) kb
  | KXor => Z.lxor ka kb
  | KXnor => unot 64 (Z.lxor ka kb)
  end.
Definition exec_v_k_bin_op (dst a b : nat) (op : VKLogicOp) (width : Z) : Arm :=
  ka ← kM a; kb ← kM b; put_k dst (Z.land (k_logic op ka kb) (kwidth_mask width));; next.
Definition exec_v_k_not (dst a : nat) (width : Z) : Arm :=
  ka ← kM a; put_k dst (Z.land (unot 64 ka) (kwidth_mask width));; next.
(** [checked_shl]/[checked_shr]: zero from 64 on. *)
Definition k_shift (s amount m : Z) (left_ : bool) : Z :=
  if left_ then Z.land (if amount <? 64 then wrap 64 (Z.shiftl s amount) else 0) m
  else if amount <? 64 then Z.shiftr s amount else 0.
Definition exec_v_k_shift (dst a : nat) (amount width : Z) (left_ : bool) : Arm :=
  ka ← kM a;
  let m := kwidth_mask width in
  put_k dst (k_shift (Z.land ka m) amount m left_);; next.

(** ** String compares *)

Definition exec_v_pcmp_str (a b : nat) (imm : Z) (explicit : bool) : Arm :=
  reg_arm (fun c => r ← pcmpstr_run c a b imm explicit; write_pcmpstri c r).
Definition exec_v_pcmp_str_m (cur_addr : Z) (a : nat) (addr : Val) (imm : Z) (explicit : bool) : Arm :=
  av ← read_val addr;
  loading cur_addr av 16 (fun bv => reg_arm (fun c => r ← pcmpstr_run_bv c a bv imm explicit; write_pcmpstri c r)).
Definition exec_v_pcmp_str_mask (a b : nat) (imm : Z) (explicit : bool) : Arm :=
  reg_arm (fun c => r ← pcmpstrm_run c a b imm explicit; write_pcmpstrm c r).
Definition exec_v_pcmp_str_mask_m (cur_addr : Z) (a : nat) (addr : Val) (imm : Z) (explicit : bool) : Arm :=
  av ← read_val addr;
  loading cur_addr av 16 (fun bv => reg_arm (fun c => r ← pcmpstrm_run_bv c a bv imm explicit; write_pcmpstrm c r)).

(** ** Cryptography *)

Definition exec_v_aes (dst a b : nat) (op : AesOp) : Arm := reg_arm (fun c => lo2 c dst a b (AesOp_apply op)).
Definition exec_v_aes_m (cur_addr : Z) (dst a : nat) (addr : Val) (op : AesOp) : Arm :=
  ea_load_src cur_addr dst a addr 16 (AesOp_apply op).
Definition exec_v_aes_imc (dst src : nat) : Arm := reg_arm (fun c => exec_aes_imc c dst src).
Definition exec_v_aes_imc_m (cur_addr : Z) (dst : nat) (addr : Val) : Arm := load1 cur_addr dst addr 16 aes_imc.
Definition exec_v_aes_keygen (dst src : nat) (imm : Z) : Arm := reg_arm (fun c => exec_aes_keygen c dst src imm).
Definition exec_v_aes_keygen_m (cur_addr : Z) (dst : nat) (addr : Val) (imm : Z) : Arm :=
  load1 cur_addr dst addr 16 (fun v => aes_keygen v imm).
Definition exec_v_sha (dst a b : nat) (imm : Z) (op : ShaOp) : Arm :=
  reg_arm (fun c => xmm0 ← xmm_of c 0; lo2 c dst a b (fun x y => ShaOp_apply op x y xmm0 imm)).
Definition exec_v_sha_m (cur_addr : Z) (dst a : nat) (addr : Val) (imm : Z) (op : ShaOp) : Arm :=
  ea ← read_val addr; x ← xmmM a; xmm0 ← xmmM 0;
  loading cur_addr ea 16 (fun y => put_xmm dst (ShaOp_apply op x y xmm0 imm);; next).
Definition exec_v_gfni (dst a b : nat) (imm : Z) (op : GfniOp) : Arm :=
  reg_arm (fun c => lo2 c dst a b (fun x y => GfniOp_apply op x y imm)).
Definition exec_v_gfni_m (cur_addr : Z) (dst a : nat) (addr : Val) (imm : Z) (op : GfniOp) : Arm :=
  ea_load_src cur_addr dst a addr 16 (fun x y => GfniOp_apply op x y imm).
(** RIP is not moved back on a fault. *)
Definition exec_v_gf2p8_m (dst a : nat) (addr : Val) (imm mode : Z) (k : nat) (zeroing : bool) (bytes : Z) : Arm :=
  ea ← read_val addr; run_str (fun c m => gf2p8_mem_run c m dst a ea imm mode k zeroing bytes).
Definition exec_v_pclmul (dst a b : nat) (imm : Z) : Arm := reg_arm (fun c => exec_pclmul c dst a b imm).
Definition exec_v_pclmul_m (cur_addr : Z) (dst a : nat) (addr : Val) (imm : Z) : Arm :=
  ea_load_src cur_addr dst a addr 16 (fun x y => pclmul x y imm).

(** ** Floating point *)

(** The first [bytes] bytes of [src] over [a]. *)
Definition float_mov (a src bytes : Z) : Z :=
  from_le_bytes (take (Z.to_nat bytes) (to_le_bytes 16 src) ++ drop (Z.to_nat bytes) (to_le_bytes 16 a)).
Definition exec_v_float_mov (dst a src : nat) (p : FPrec) : Arm :=
  reg_arm (fun c => lo2 c dst a src (fun x y => float_mov x y (prec_bytes p))).

Definition scalar_size (p : FPrec) (scalar : bool) : Z := if scalar then prec_bytes p else 16.
Definition exec_v_float_bin (dst a b : nat) (op : FloatBinOp) (p : FPrec) (scalar : bool) : Arm :=
  reg_arm (fun c => lo2 c dst a b (fun x y => float_bin x y op p scalar)).
Definition exec_v_float_bin_m (cur_addr : Z) (dst : nat) (addr : Val) (op : FloatBinOp) (p : FPrec) (scalar : bool) : Arm :=
  load_dst cur_addr dst addr (scalar_size p scalar) (fun d v => float_bin d v op p scalar).
Definition exec_v_float_bin256 (dst a b : nat) (op : FloatBinOp) (p : FPrec) : Arm :=
  reg_arm (fun c => both2 c dst a b (fun x y => float_bin x y op p false) (fun x y => float_bin x y op p false)).
Definition exec_v_float_bin256_m (cur_addr : Z) (dst a : nat) (addr : Val) (op : FloatBinOp) (p : FPrec) : Arm :=
  halves_am cur_addr dst a addr (fun x y => float_bin x y op p false) (fun x y => float_bin x y op p false).

Definition exec_v_float_unary (dst a src : nat) (op : FloatUnOp) (p : FPrec) (scalar : bool) : Arm :=
  reg_arm (fun c => x ← xmm_of c a; s ← xmm_of c src; r ← float_unary x s op p scalar; with_xmm c dst r).
Definition exec_v_float_unary_m (cur_addr : Z) (dst a : nat) (addr : Val) (op : FloatUnOp) (p : FPrec) (scalar : bool) : Arm :=
  base ← xmmM a; av ← read_val addr;
  loading cur_addr av (scalar_size p scalar) (fun s => reg_arm (fun c => r ← float_unary base s op p scalar; with_xmm c dst r)).
Definition exec_v_float_unary256 (dst src : nat) (op : FloatUnOp) (p : FPrec) : Arm :=
  reg_arm (fun c =>
    slo ← xmm_of c src; shi ← hi_of c src;
    rlo ← float_unary 0 slo op p false; c ← with_xmm c dst rlo;
    rhi ← float_unary 0 shi op p false; with_hi c dst rhi).
Definition exec_v_float_unary256_m (cur_addr : Z) (dst : nat) (addr : Val) (op : FloatUnOp) (p : FPrec) : Arm :=
  base ← read_val addr;
  loading cur_addr base 16 (fun slo =>
    rlo ← ask (fun _ => float_unary 0 slo op p false);
    loading cur_addr (wrapping_add 64 base 16) 16 (fun shi =>
      rhi ← ask (fun _ => float_unary 0 shi op p false);
      put_xmm dst rlo;; put_hi dst rhi;; next)).

(** [out] takes the rounded lanes; the merge base is the destination's own half. *)
Definition exec_v_p_round (dst a src : nat) (p : FPrec) (mode : Z) (scalar : bool) (bytes : Z) : Arm :=
  reg_arm (fun c => halves2 c dst a src bytes (fun d s => vround d s p mode scalar) (fun d s => vround d s p mode scalar)).
Definition exec_v_p_round_m (cur_addr : Z) (dst : nat) (addr : Val) (p : FPrec) (mode : Z) (scalar : bool) (bytes : Z) : Arm :=
  av ← read_val addr;
  if scalar then
    d ← xmmM dst;
    loading cur_addr av (prec_bytes p) (fun s => put_xmm dst (vround d s p mode true);; next)
  else
    collect_halves cur_addr dst av (fun d s => vround d s p mode false) (Nat.min 2 (Z.to_nat (bytes / 16))) 0 []
      (commit_halves dst (bytes / 16)).

Definition exec_v_dpps (dst a b : nat) (imm bytes : Z) : Arm :=
  reg_arm (fun c => halves2 c dst a b bytes (fun x y => dpps x y imm) (fun x y => dpps x y imm)).
Definition exec_v_dpps_m (cur_addr : Z) (dst : nat) (addr : Val) (imm bytes : Z) : Arm :=
  av ← read_val addr; lane_by_lane cur_addr dst dst av (fun x y => dpps x y imm) (Z.to_nat (bytes / 16)) 0.
Definition exec_v_dppd (dst b : nat) (imm : Z) : Arm := reg_arm (fun c => lo2 c dst dst b (fun x y => dppd x y imm)).
Definition exec_v_dppd_m (cur_addr : Z) (dst : nat) (addr : Val) (imm : Z) : Arm :=
  load_dst cur_addr dst addr 16 (fun x y => dppd x y imm).
Definition dp3 (p : FPrec) (x y imm : Z) : Z := match p with F32 => dpps x y imm | F64 => dppd x y imm end.
Definition exec_v_dp3 (dst a b : nat) (imm : Z) (p : FPrec) : Arm := reg_arm (fun c => lo2 c dst a b (fun x y => dp3 p x y imm)).
Definition exec_v_dp3_m (cur_addr : Z) (dst a : nat) (addr : Val) (imm : Z) (p : FPrec) : Arm :=
  load_src cur_addr dst a addr 16 (fun x y => dp3 p x y imm).

Definition exec_v_fma (dst x y z : nat) (p : FPrec) (scalar neg_prod neg_add : bool) (bytes alt_sign : Z) (writemask : option nat)
    (zeroing : bool) : Arm :=
  reg_arm (fun c => exec_fma c dst x y z p scalar neg_prod neg_add bytes alt_sign writemask zeroing).
Definition exec_v_fma_m (cur_addr : Z) (dst x y z : nat) (addr : Val) (mem_role : Z) (p : FPrec) (scalar neg_prod neg_add : bool)
    (bytes alt_sign : Z) (writemask : option nat) (zeroing : bool) : Arm :=
  base ← read_val addr;
  run_str (fun c m => fma_mem_run c m dst x y z base mem_role p scalar neg_prod neg_add bytes alt_sign cur_addr writemask zeroing).

Definition exec_v_h_float (dst a b : nat) (op : HFloatOp) (p : FPrec) (bytes : Z) : Arm :=
  reg_arm (fun c => hfloat_reg c dst a b op p bytes).
(** [av + i * 16] is unchecked machine arithmetic: it panics on overflow. *)
Fixpoint load_each (cur_addr av : Z) (n i : nat) (out : list Z) (k : list Z -> Arm) : Arm :=
  match n with
  | O => k (out ++ replicate (4 - length out) 0)
  | S n' =>
      la ← ask (fun _ => checked_add 64 av (Z.of_nat i * 16));
      loading cur_addr la 16 (fun v => load_each cur_addr av n' (S i) (out ++ [v]) k)
  end.
Definition exec_v_h_float_m (cur_addr : Z) (dst a : nat) (addr : Val) (op : HFloatOp) (p : FPrec) (bytes : Z) : Arm :=
  av ← read_val addr;
  load_each cur_addr av (Nat.min 4 (Z.to_nat (bytes / 16))) 0 [] (fun b => reg_arm (fun c => hfloat_mem c dst a b op p bytes)).

(** ** Comparisons and conversions *)

Definition exec_v_float_cmp_mask (dst a b : nat) (p : FPrec) (scalar : bool) (pred : Z) : Arm :=
  reg_arm (fun c => lo2 c dst a b (fun x y => float_cmp_mask x x y p scalar pred)).
Definition exec_v_float_cmp_mask_m (cur_addr : Z) (dst : nat) (addr : Val) (p : FPrec) (scalar : bool) (pred : Z) : Arm :=
  load_dst cur_addr dst addr (scalar_size p scalar) (fun d v => float_cmp_mask d d v p scalar pred).
Definition exec_v_float_cmp_mask256 (dst a b : nat) (p : FPrec) (pred : Z) : Arm :=
  reg_arm (fun c => both2 c dst a b (fun x y => float_cmp_mask 0 x y p false pred) (fun x y => float_cmp_mask 0 x y p false pred)).
Definition exec_v_float_cmp_mask256_m (cur_addr : Z) (dst a : nat) (addr : Val) (p : FPrec) (pred : Z) : Arm :=
  halves_am cur_addr dst a addr (fun x y => float_cmp_mask 0 x y p false pred) (fun x y => float_cmp_mask 0 x y p false pred).

Definition exec_v_float_cmp (a b : Val) (p : FPrec) : Arm :=
  x ← read_val a; y ← read_val b;
  let '(zf, pf, cf) := float_compare x y p in
  upd_flags (fun f => set_af (set_sf (set_of_ (set_cf (set_pf (set_zf f zf) pf) cf) false) false) false);; next.

(** [(old & !m) | (bits & m)] for the low element. *)
Definition put_low (old bits : Z) (p : FPrec) : Z :=
  Z.lor (Z.land old (not128 (lane_mask (prec_bytes p)))) (Z.land bits (lane_mask (prec_bytes p))).
Definition cvt_from_int (raw int_size : Z) (p : FPrec) (signed : bool) : Z :=
  fl_of_int (fmt p) (if signed then to_signed 64 (sign_extend raw int_size) else Z.land raw (mask int_size)).
Definition exec_v_cvt_from_int (dst : nat) (src : Val) (int_size : Z) (p : FPrec) (signed : bool) : Arm :=
  raw ← read_val src;
  reg_arm (fun c => lo1 c dst dst (fun old => put_low old (cvt_from_int raw int_size p signed) p)).

Definition as_f64 (raw : Z) (p : FPrec) : Z := match p with F32 => widen_f32 (wrap 32 raw) | F64 => raw end.
(** Saturating casts; NaN gives 0. *)
Definition cvt_to_int (raw int_size : Z) (p : FPrec) (trunc signed : bool) : Z :=
  let f := as_f64 raw p in
  let f := if trunc then fl_trunc f64_fmt f else round_ties_even f in
  if int_size =? 8 then
    if signed then wrap 64 (fl_to_int f64_fmt (- 2 ^ 63) (2 ^ 63 - 1) f) else fl_to_int f64_fmt 0 (2 ^ 64 - 1) f
  else if signed then wrap 32 (fl_to_int f64_fmt I32_MIN I32_MAX f) else fl_to_int f64_fmt 0 (2 ^ 32 - 1) f.
Definition exec_v_cvt_to_int (dst : Temp) (src : Val) (int_size : Z) (p : FPrec) (trunc signed : bool) : Arm :=
  raw ← read_val src; set_temp dst (cvt_to_int raw int_size p trunc signed);; next.
Definition exec_v_cvt_float (dst : nat) (src : Val) (from to : FPrec) : Arm :=
  raw ← read_val src;
  let val := as_f64 raw from in
  let bits := match to with F32 => narrow_f64 val | F64 => val end in
  reg_arm (fun c => lo1 c dst dst (fun old => put_low old bits to)).

Definition exec_v_packed_cvt (dst src : nat) (kind : PackedCvtKind) : Arm := reg_arm (fun c => lo1 c dst src (fun s => packed_cvt128 s kind)).
Definition exec_v_packed_cvt256 (dst src : nat) (kind : PackedCvtKind) : Arm := reg_arm (fun c => both1 c dst src (fun s => packed_cvt128 s kind)).
Definition exec_v_packed_cvt256_m (cur_addr : Z) (dst : nat) (addr : Val) (kind : PackedCvtKind) : Arm :=
  base ← read_val addr; halves_m cur_addr dst base (fun s => packed_cvt128 s kind) (fun s => packed_cvt128 s kind).

(** [None] is the [unreachable!] of a conversion that keeps its width. *)
Definition packed_cvt_wide (slo shi : Z) (kind : PackedCvtKind) : option (Z * Z) :=
  let widen i := let raw := wrap 32 (Z.shiftr slo (32 * i)) in
    match kind with Dq2Pd => fl_of_int f64_fmt (to_signed 32 raw) | _ => widen_f32 raw end in
  let lane i := if i <? 2 then flane F64 slo i else flane F64 shi (i - 2) in
  match kind with
  | Dq2Pd | Ps2Pd => Some (or_lanes 2 64 widen, or_lanes 2 64 (fun i => widen (i + 2)))
  | Pd2Ps => Some (or_lanes 4 32 (fun i => narrow_f64 (lane i)), 0)
  | Pd2Dq => Some (or_lanes 4 32 (fun i => cvt_to_i (lane i) false), 0)
  | Tpd2Dq => Some (or_lanes 4 32 (fun i => cvt_to_i (lane i) true), 0)
  | Dq2Ps | Ps2Dq | Tps2Dq => None
  end.
Definition exec_v_packed_cvt_wide256 (dst src : nat) (kind : PackedCvtKind) : Arm :=
  reg_arm (fun c => slo ← xmm_of c src; shi ← hi_of c src; r ← packed_cvt_wide slo shi kind; put_halves c dst r).

(** ** Arms written out in the walk *)

Definition exec_v_cvt_ph2ps (dst src : nat) (lanes : Z) : Arm := reg_arm (fun c => v ← xmm_of c src; put_halves c dst (cvtph2ps v lanes)).
Definition exec_v_cvt_ps2ph (dst src : nat) (lanes rc : Z) : Arm :=
  reg_arm (fun c => slo ← xmm_of c src; shi ← hi_of c src; put_halves c dst (cvtps2ph slo shi lanes rc, 0)).
Definition exec_v_ph_min_pos_uw (dst src : nat) : Arm := reg_arm (fun c => lo1 c dst src phminposuw).
Definition exec_v_mpsadbw (dst a b : nat) (imm bytes : Z) : Arm :=
  reg_arm (fun c => halves2 c dst a b bytes (fun x y => mpsadbw x y imm) (fun x y => mpsadbw x y (Z.land (Z.shiftr imm 3) 7))).
