(* ===== verification/VecOp.v ===== *)
(** * The vector ops of the IR and their dispatch (ir.rs, interp/mod.rs)

    The [V*] constructors of [IrOp] with the source's fields: a register or mask index is
    a [nat], an immediate, width or lane size a [Z].  [vec_arm_1] .. [vec_arm_14] follow the
    match of the walk in its order. *)

From S2P Require Import Prelude Features State Ir Aes Sha Alu Memory Interp IntegerSpec StringOps HostFloat VecOps VecFloat VecMem VecCpu VecArm.

Inductive VecOp : Type :=
  | VLoad (dst : nat) (addr : Val) (size : Z)
  | VStore (addr : Val) (src : nat) (size : Z)
  | VMov (dst src : nat)
  | VMov256 (dst src : nat)
  | VFromGpr (dst : nat) (src : Val) (size : Z)
  | VToGpr (dst : Temp) (src : nat) (size : Z)
  | VLogic (dst a b : nat) (op : VLogicOp)
  | VPackedBin (dst a b : nat) (lane_ : Z) (op : PackedBinOp)
  | VPackedBinM (dst : nat) (addr : Val) (lane_ : Z) (op : PackedBinOp)
  | VLogicM (dst : nat) (addr : Val) (op : VLogicOp)
  | VPackedShift (dst a : nat) (imm lane_ : Z) (right_ arith : bool)
  | VByteShift (dst a : nat) (shift : Z) (right_ : bool) (width : Z)
  | VShuffle32 (dst a : nat) (imm bytes : Z)
  | VBlendW (dst a b : nat) (imm bytes : Z)
  | VBlendD (dst a b : nat) (imm bytes : Z)
  | VFma (dst x y z : nat) (p : FPrec) (scalar neg_prod neg_add : bool) (bytes alt_sign : Z) (writemask : option nat) (zeroing : bool)
  | VFmaM (dst x y z : nat) (addr : Val) (mem_role : Z) (p : FPrec) (scalar neg_prod neg_add : bool) (bytes alt_sign : Z) (writemask : option nat) (zeroing : bool)
  | VAes (dst a b : nat) (op : AesOp)
  | VAesM (dst a : nat) (addr : Val) (op : AesOp)
  | VAesImc (dst src : nat)
  | VAesImcM (dst : nat) (addr : Val)
  | VAesKeygen (dst src : nat) (imm : Z)
  | VAesKeygenM (dst : nat) (addr : Val) (imm : Z)
  | VSha (dst a b : nat) (imm : Z) (op : ShaOp)
  | VShaM (dst a : nat) (addr : Val) (imm : Z) (op : ShaOp)
  | VGfni (dst a b : nat) (imm : Z) (op : GfniOp)
  | VGfniM (dst a : nat) (addr : Val) (imm : Z) (op : GfniOp)
  | VPclmul (dst a b : nat) (imm : Z)
  | VPclmulM (dst a : nat) (addr : Val) (imm : Z)
  | VPsign (dst a b : nat) (lane_ bytes : Z)
  | VPsignM (dst a : nat) (addr : Val) (lane_ bytes : Z)
  | VPackWide (dst a b : nat) (from_elem : Z) (signed : bool) (bytes : Z)
  | VPackWideM (dst a : nat) (addr : Val) (from_elem : Z) (signed : bool)
  | VPMAddWd (dst a b : nat)
  | VPMadd (dst a b : nat) (ubsw : bool) (bytes : Z)
  | VPMaddM (dst a : nat) (addr : Val) (ubsw : bool) (bytes : Z)
  | VShuffle32Wide (dst a : nat) (imm bytes : Z) (writemask : option nat) (zeroing : bool)
  | VShuffle16 (dst a : nat) (imm : Z) (high : bool) (bytes : Z)
  | VShufps (dst a b : nat) (imm : Z)
  | VShufpsM (dst a : nat) (addr : Val) (imm : Z)
  | VPshufb (dst a idx : nat)
  | VPshufbM (dst : nat) (addr : Val)
  | VPshufbWide (dst a idx : nat) (bytes : Z) (writemask : option nat) (zeroing : bool)
  | VAlignr (dst a src : nat) (imm : Z)
  | VAlignrM (dst : nat) (addr : Val) (imm : Z)
  | VUnpackLow (dst a b : nat) (lane_ : Z) (high : bool)
  | VUnpackLowM (dst a : nat) (addr : Val) (lane_ : Z) (high : bool)
  | VPackUsWB (dst a b : nat)
  | VInsertW (dst : nat) (src : Val) (index : Z)
  | VExtractW (dst : Temp) (src : nat) (index : Z)
  | VExtractLane (dst : Temp) (src : nat) (index size : Z)
  | VInsertLane (dst base : nat) (src : Val) (index size : Z)
  | VMoveMaskB (dst : Temp) (src : nat)
  | VMoveMaskFp (dst : Temp) (src : nat) (elem bytes : Z)
  | VZeroUpper (reg : nat)
  | VZeroUpperAll (clear_low : bool)
  | VLoadWide (dst : nat) (addr : Val) (bytes : Z)
  | VStoreWide (addr : Val) (src : nat) (bytes : Z)
  | VMovWide (dst src : nat) (bytes : Z)
  | VMaskMov (dst src k : nat) (elem : Z) (zeroing : bool) (bytes : Z)
  | VMaskLoadMem (dst : nat) (addr : Val) (k : nat) (elem : Z) (zeroing : bool) (bytes : Z)
  | VMaskStoreMem (src : nat) (addr : Val) (k : nat) (elem bytes : Z)
  | VVecMaskLoadMem (dst : nat) (addr : Val) (mask_ : nat) (elem bytes : Z)
  | VVecMaskStoreMem (src : nat) (addr : Val) (mask_ : nat) (elem bytes : Z)
  | VLogic256 (dst a b : nat) (op : VLogicOp)
  | VLogic256M (dst a : nat) (addr : Val) (op : VLogicOp)
  | VLogicWide (dst a b : nat) (op : VLogicOp) (bytes : Z)
  | VLogicWideM (dst a : nat) (addr : Val) (op : VLogicOp) (bytes : Z)
  | VPopcnt (dst a : nat) (lane_ bytes : Z)
  | VPopcntM (dst : nat) (addr : Val) (lane_ bytes : Z)
  | VInsertLaneWide (dst src ins : nat) (idx num_lanes bytes : Z)
  | VExtractLaneWide (dst src : nat) (idx num_lanes : Z)
  | VExtractLaneWideM (src : nat) (addr : Val) (idx num_lanes : Z)
  | VPcmpStr (a b : nat) (imm : Z) (explicit : bool)
  | VPcmpStrM (a : nat) (addr : Val) (imm : Z) (explicit : bool)
  | VPcmpStrMask (a b : nat) (imm : Z) (explicit : bool)
  | VPcmpStrMaskM (a : nat) (addr : Val) (imm : Z) (explicit : bool)
  | VInsertPs (dst src : nat) (imm : Z)
  | VInsertPsM (dst : nat) (addr : Val) (imm : Z)
  | VInsertPs3 (dst a src : nat) (imm : Z)
  | VInsertPsM3 (dst a : nat) (addr : Val) (imm : Z)
  | VDpps (dst a b : nat) (imm bytes : Z)
  | VDppsM (dst : nat) (addr : Val) (imm bytes : Z)
  | VAlign (dst a b : nat) (shift elem bytes : Z)
  | VPMovExtend (dst src : nat) (from to : Z) (signed : bool)
  | VPMovExtendM (dst : nat) (addr : Val) (from to : Z) (signed : bool)
  | VPMovExtendWide (dst src : nat) (from to : Z) (signed : bool) (dst_width : Z) (writemask : option nat) (zeroing : bool)
  | VPAbs (dst src : nat) (elem dst_width : Z) (writemask : option nat) (zeroing : bool)
  | VpUnaryLane (dst src : nat) (op : VpUnaryOp) (imm elem dst_width : Z) (writemask : option nat) (zeroing : bool)
  | VpBlendm (dst a b k : nat) (elem dst_width : Z) (zeroing : bool)
  | VShuffLane (dst a b : nat) (imm elem dst_width : Z) (writemask : option nat) (zeroing : bool)
  | VpMultishift (dst ctrl data : nat) (dst_width : Z) (writemask : option nat) (zeroing : bool)
  | VPBlendV (dst src : nat) (lane_ : Z)
  | VPBlendVM (dst : nat) (addr : Val) (lane_ : Z)
  | VPBlendVX (dst a b mask_ : nat) (lane_ bytes : Z)
  | VPBlendVXM (dst a : nat) (addr : Val) (mask_ : nat) (lane_ bytes : Z)
  | VBlendI (dst a b : nat) (imm lane_ bytes : Z)
  | VBlendIM (dst a : nat) (addr : Val) (imm lane_ bytes : Z)
  | VDppd (dst b : nat) (imm : Z)
  | VDppdM (dst : nat) (addr : Val) (imm : Z)
  | VDp3 (dst a b : nat) (imm : Z) (p : FPrec)
  | VDp3M (dst a : nat) (addr : Val) (imm : Z) (p : FPrec)
  | VPRound (dst a src : nat) (p : FPrec) (mode : Z) (scalar : bool) (bytes : Z)
  | VPRoundM (dst : nat) (addr : Val) (p : FPrec) (mode : Z) (scalar : bool) (bytes : Z)
  | VMaskedLogic (dst a b : nat) (op : VLogicOp) (k : nat) (elem : Z) (zeroing : bool) (bytes : Z)
  | VMaskedPacked (dst a b : nat) (op : PackedBinOp) (k : nat) (elem : Z) (zeroing : bool) (bytes : Z)
  | VMaskedShift (dst a : nat) (imm elem : Z) (right_ arith : bool) (k : nat) (zeroing : bool) (bytes : Z)
  | VShiftReg (dst a count : nat) (elem : Z) (right_ arith : bool) (k : nat) (zeroing : bool) (bytes : Z)
  | VShiftVar (dst a count : nat) (elem : Z) (right_ arith : bool) (k : nat) (zeroing : bool) (bytes : Z)
  | VGf2p8 (dst a b : nat) (imm mode : Z) (k : nat) (zeroing : bool) (bytes : Z)
  | VGf2p8M (dst a : nat) (addr : Val) (imm mode : Z) (k : nat) (zeroing : bool) (bytes : Z)
  | VPTernlog (dst b c_ : nat) (imm bytes : Z)
  | VPTernlogM (dst b : nat) (addr : Val) (imm bytes : Z)
  | VPackedBin256 (dst a b : nat) (lane_ : Z) (op : PackedBinOp)
  | VPackedBin256M (dst a : nat) (addr : Val) (lane_ : Z) (op : PackedBinOp)
  | VPackedWide (dst a b : nat) (lane_ : Z) (op : PackedBinOp) (bytes : Z)
  | VPackedWideM (dst a : nat) (addr : Val) (lane_ : Z) (op : PackedBinOp) (bytes : Z)
  | VMoveMaskB256 (dst : Temp) (src : nat)
  | VBroadcast (dst src : nat) (elem : Z) (w256 : bool)
  | VBroadcastM (dst : nat) (addr : Val) (elem : Z) (w256 : bool)
  | VBroadcastGpr (dst : nat) (src : Val) (elem width : Z)
  | VBroadcastLane (dst src : nat) (chunk elem dst_width : Z) (writemask : option nat) (zeroing : bool)
  | VBroadcastLaneM (dst : nat) (addr : Val) (chunk elem dst_width : Z) (writemask : option nat) (zeroing : bool)
  | VPCmpToMask (k a b : nat) (elem width pred : Z) (signed : bool) (writemask : option nat)
  | VPCmpToMaskM (k a : nat) (addr : Val) (elem width pred : Z) (signed : bool) (writemask : option nat)
  | VPTestToMask (k a b : nat) (elem width : Z) (neg : bool) (writemask : option nat)
  | VPTestToMaskM (k a : nat) (addr : Val) (elem width : Z) (neg : bool) (writemask : option nat)
  | VKOrTest (a b : nat) (width : Z)
  | VKFromGpr (k : nat) (src : Val) (width : Z)
  | VKToGpr (dst : Temp) (k : nat) (width : Z)
  | VKMovKK (dst src : nat) (width : Z)
  | VKUnpack (dst a b : nat) (half : Z)
  | VKBinOp (dst a b : nat) (op : VKLogicOp) (width : Z)
  | VKNot (dst a : nat) (width : Z)
  | VKShift (dst a : nat) (amount width : Z) (left_ : bool)
  | VPmovNarrow (dst src : nat) (from to src_width : Z) (writemask : option nat) (zeroing : bool)
  | VPmovNarrowMem (src : nat) (addr : Val) (from to src_width : Z)
  | VPermT2 (dst idx tbl : nat) (elem : Z) (writemask : option nat) (zeroing : bool) (bytes : Z) (imode : bool)
  | VPermT2M (dst idx : nat) (addr : Val) (elem : Z) (writemask : option nat) (zeroing : bool) (bytes : Z) (imode : bool)
  | VPerm1 (dst idx src : nat) (elem bytes : Z) (writemask : option nat) (zeroing : bool)
  | VPerm1M (dst idx : nat) (addr : Val) (elem bytes : Z) (writemask : option nat) (zeroing : bool)
  | VInsert128 (dst src ins : nat) (hi : bool)
  | VInsert128M (dst src : nat) (addr : Val) (hi : bool)
  | VExtract128 (dst src : nat) (hi : bool)
  | VPshufb256 (dst a idx : nat)
  | VPshufb256M (dst a : nat) (addr : Val)
  | VPackedShift256 (dst a : nat) (imm lane_ : Z) (right_ arith : bool)
  | VPermq (dst src : nat) (imm : Z)
  | VPermd (dst ctrl src : nat)
  | VPermilVar (dst src ctrl : nat) (elem bytes : Z)
  | VPerm2i128 (dst a b : nat) (imm : Z)
  | VPalignr256 (dst a b : nat) (imm : Z)
  | VPtest (a b : nat) (w256 : bool)
  | VTestFp (a b : nat) (elem bytes : Z)
  | VFloatBin (dst a b : nat) (op : FloatBinOp) (p : FPrec) (scalar : bool)
  | VFloatBinM (dst : nat) (addr : Val) (op : FloatBinOp) (p : FPrec) (scalar : bool)
  | VHFloat (dst a b : nat) (op : HFloatOp) (p : FPrec) (bytes : Z)
  | VHFloatM (dst a : nat) (addr : Val) (op : HFloatOp) (p : FPrec) (bytes : Z)
  | VHInt (dst a b : nat) (op : HIntOp) (bytes : Z)
  | VHIntM (dst a : nat) (addr : Val) (op : HIntOp) (bytes : Z)
  | VFloatMov (dst a src : nat) (p : FPrec)
  | VFloatCmp (a b : Val) (p : FPrec)
  | VFloatCmpMask (dst a b : nat) (p : FPrec) (scalar : bool) (pred : Z)
  | VFloatCmpMaskM (dst : nat) (addr : Val) (p : FPrec) (scalar : bool) (pred : Z)
  | VFloatCmpMask256 (dst a b : nat) (p : FPrec) (pred : Z)
  | VFloatCmpMask256M (dst a : nat) (addr : Val) (p : FPrec) (pred : Z)
  | VCvtFromInt (dst : nat) (src : Val) (int_size : Z) (p : FPrec) (signed : bool)
  | VCvtToInt (dst : Temp) (src : Val) (int_size : Z) (p : FPrec) (trunc signed : bool)
  | VCvtFloat (dst : nat) (src : Val) (from to : FPrec)
  | VPackedCvt (dst src : nat) (kind : PackedCvtKind)
  | VPhMinPosUw (dst src : nat)
  | VMpsadbw (dst a b : nat) (imm bytes : Z)
  | VCvtPh2Ps (dst src : nat) (lanes : Z)
  | VCvtPs2Ph (dst src : nat) (lanes rc : Z)
  | VPackedCvtWide256 (dst src : nat) (kind : PackedCvtKind)
  | VFloatUnary (dst a src : nat) (op : FloatUnOp) (p : FPrec) (scalar : bool)
  | VFloatUnaryM (dst a : nat) (src_addr : Val) (op : FloatUnOp) (p : FPrec) (scalar : bool)
  | VFloatBin256 (dst a b : nat) (op : FloatBinOp) (p : FPrec)
  | VFloatBin256M (dst a : nat) (addr : Val) (op : FloatBinOp) (p : FPrec)
  | VFloatUnary256 (dst src : nat) (op : FloatUnOp) (p : FPrec)
  | VFloatUnary256M (dst : nat) (addr : Val) (op : FloatUnOp) (p : FPrec)
  | VPackedCvt256 (dst src : nat) (kind : PackedCvtKind)
  | VPackedCvt256M (dst : nat) (addr : Val) (kind : PackedCvtKind)
  | VShufps256 (dst a b : nat) (imm_lo imm_hi : Z)
  | VShufps256M (dst a : nat) (addr : Val) (imm_lo imm_hi : Z)
  | VUnpack256 (dst a b : nat) (lane_ : Z) (high : bool)
  | VUnpack256M (dst a : nat) (addr : Val) (lane_ : Z) (high : bool)
  | VMoveHalf (dst src : nat) (dst_high src_high : bool)
  | VLoadHalf (dst : nat) (addr : Val) (high : bool)
  | VStoreHalf (addr : Val) (src : nat) (high : bool)
  | Movq2dq (dst src_mm : nat)
  | Movdq2q (dst_mm src_xmm : nat).

Definition vec_arm_1 (cur_addr : Z) (op : VecOp) : option Arm :=
  match op with
  | VLoad dst addr size => Some (exec_v_load cur_addr dst addr size)
  | VStore addr src size => Some (exec_v_store cur_addr addr src size)
  | VMov dst src => Some (exec_v_mov dst src)
  | VMov256 dst src => Some (exec_v_mov256 dst src)
  | VLoadWide dst addr bytes => Some (exec_v_load_wide cur_addr dst addr bytes)
  | VStoreWide addr src bytes => Some (exec_v_store_wide cur_addr addr src bytes)
  | VMovWide dst src bytes => Some (exec_v_mov_wide dst src bytes)
  | VMaskMov dst src k elem zeroing bytes => Some (exec_v_mask_mov dst src k elem zeroing bytes)
  | VMaskLoadMem dst addr k elem zeroing bytes => Some (exec_v_mask_load_mem cur_addr dst addr k elem zeroing bytes)
  | VMaskStoreMem src addr k elem bytes => Some (exec_v_mask_store_mem cur_addr src addr k elem bytes)
  | VVecMaskLoadMem dst addr mask_ elem bytes => Some (exec_v_vecmask_load_mem cur_addr dst addr mask_ elem bytes)
  | VVecMaskStoreMem src addr mask_ elem bytes => Some (exec_v_vecmask_store_mem cur_addr src addr mask_ elem bytes)
  | VLogic256 dst a b op => Some (exec_v_logic256 dst a b op)
  | VLogicWide dst a b op bytes => Some (exec_v_logic_wide dst a b op bytes)
  | VLogicWideM dst a addr op bytes => Some (exec_v_logic_wide_m cur_addr dst a addr op bytes)
  | VPopcnt dst a lane_ bytes => Some (exec_v_popcnt dst a lane_ bytes)
  | VPopcntM dst addr lane_ bytes => Some (exec_v_popcnt_m cur_addr dst addr lane_ bytes)
  | _ => None
  end.
Definition vec_arm_2 (cur_addr : Z) (op : VecOp) : option Arm :=
  match op with
  | VPMovExtend dst src from to signed => Some (exec_v_p_mov_extend dst src from to signed)
  | VPMovExtendM dst addr from to signed => Some (exec_v_p_mov_extend_m cur_addr dst addr from to signed)
  | VPMovExtendWide dst src from to signed dst_width writemask zeroing =>
      Some (exec_v_p_mov_extend_wide dst src from to signed dst_width writemask zeroing)
  | VPAbs dst src elem dst_width writemask zeroing => Some (exec_v_p_abs dst src elem dst_width writemask zeroing)
  | VpUnaryLane dst src op imm elem dst_width writemask zeroing =>
      Some (exec_v_p_unary_lane dst src op imm elem dst_width writemask zeroing)
  | VpBlendm dst a b k elem dst_width zeroing => Some (exec_v_p_blendm dst a b k elem dst_width zeroing)
  | VShuffLane dst a b imm elem dst_width writemask zeroing =>
      Some (exec_v_shuf_lane dst a b imm elem dst_width writemask zeroing)
  | VpMultishift dst ctrl data dst_width writemask zeroing =>
      Some (exec_v_p_multishift dst ctrl data dst_width writemask zeroing)
  | VPBlendV dst src lane_ => Some (exec_v_p_blend_v dst src lane_)
  | VPBlendVM dst addr lane_ => Some (exec_v_p_blend_v_m cur_addr dst addr lane_)
  | VPBlendVX dst a b mask_ lane_ bytes => Some (exec_v_p_blend_v_x dst a b mask_ lane_ bytes)
  | VPBlendVXM dst a addr mask_ lane_ bytes => Some (exec_v_p_blend_v_xm cur_addr dst a addr mask_ lane_ bytes)
  | _ => None
  end.
Definition vec_arm_3 (cur_addr : Z) (op : VecOp) : option Arm :=
  match op with
  | VBlendI dst a b imm lane_ bytes => Some (exec_v_blend_i dst a b imm lane_ bytes)
  | VBlendIM dst a addr imm lane_ bytes => Some (exec_v_blend_i_m cur_addr dst a addr imm lane_ bytes)
  | VPRound dst a src p mode scalar bytes => Some (exec_v_p_round dst a src p mode scalar bytes)
  | VPRoundM dst addr p mode scalar bytes => Some (exec_v_p_round_m cur_addr dst addr p mode scalar bytes)
  | VMaskedLogic dst a b op k elem zeroing bytes => Some (exec_v_masked_logic dst a b op k elem zeroing bytes)
  | VMaskedPacked dst a b op k elem zeroing bytes => Some (exec_v_masked_packed dst a b op k elem zeroing bytes)
  | VInsertLaneWide dst src ins idx num_lanes bytes => Some (exec_v_insert_lane_wide dst src ins idx num_lanes bytes)
  | VExtractLaneWide dst src idx num_lanes => Some (exec_v_extract_lane_wide dst src idx num_lanes)
  | VExtractLaneWideM src addr idx num_lanes => Some (exec_v_extract_lane_wide_m cur_addr src addr idx num_lanes)
  | VPcmpStr a b imm explicit => Some (exec_v_pcmp_str a b imm explicit)
  | VPcmpStrM a addr imm explicit => Some (exec_v_pcmp_str_m cur_addr a addr imm explicit)
  | VPcmpStrMask a b imm explicit => Some (exec_v_pcmp_str_mask a b imm explicit)
  | _ => None
  end.
Definition vec_arm_4 (cur_addr : Z) (op : VecOp) : option Arm :=
  match op with
  | VPcmpStrMaskM a addr imm explicit => Some (exec_v_pcmp_str_mask_m cur_addr a addr imm explicit)
  | VInsertPs dst src imm => Some (exec_v_insert_ps dst src imm)
  | VInsertPsM dst addr imm => Some (exec_v_insert_ps_m cur_addr dst addr imm)
  | VInsertPs3 dst a src imm => Some (exec_v_insert_ps3 dst a src imm)
  | VInsertPsM3 dst a addr imm => Some (exec_v_insert_ps_m3 cur_addr dst a addr imm)
  | VDpps dst a b imm bytes => Some (exec_v_dpps dst a b imm bytes)
  | VDppsM dst addr imm bytes => Some (exec_v_dpps_m cur_addr dst addr imm bytes)
  | VDppd dst b imm => Some (exec_v_dppd dst b imm)
  | VDppdM dst addr imm => Some (exec_v_dppd_m cur_addr dst addr imm)
  | VDp3 dst a b imm p => Some (exec_v_dp3 dst a b imm p)
  | VDp3M dst a addr imm p => Some (exec_v_dp3_m cur_addr dst a addr imm p)
  | VAlign dst a b shift elem bytes => Some (exec_v_align dst a b shift elem bytes)
  | VPTernlog dst b c_ imm bytes => Some (exec_v_p_ternlog dst b c_ imm bytes)
  | VPTernlogM dst b addr imm bytes => Some (exec_v_p_ternlog_m cur_addr dst b addr imm bytes)
  | VLogic256M dst a addr op => Some (exec_v_logic256_m cur_addr dst a addr op)
  | VPackedBin256 dst a b lane_ op => Some (exec_v_packed_bin256 dst a b lane_ op)
  | _ => None
  end.
Definition vec_arm_5 (cur_addr : Z) (op : VecOp) : option Arm :=
  match op with
  | VPackedBin256M dst a addr lane_ op => Some (exec_v_packed_bin256_m cur_addr dst a addr lane_ op)
  | VPackedWide dst a b lane_ op bytes => Some (exec_v_packed_wide dst a b lane_ op bytes)
  | VPackedWideM dst a addr lane_ op bytes => Some (exec_v_packed_wide_m cur_addr dst a addr lane_ op bytes)
  | VMoveMaskB256 dst src => Some (exec_v_move_mask_b256 dst src)
  | VFromGpr dst src size => Some (exec_v_from_gpr dst src size)
  | VToGpr dst src size => Some (exec_v_to_gpr dst src size)
  | VLogic dst a b op => Some (exec_v_logic dst a b op)
  | VPackedBin dst a b lane_ op => Some (exec_v_packed_bin dst a b lane_ op)
  | VPackedBinM dst addr lane_ op => Some (exec_v_packed_bin_m cur_addr dst addr lane_ op)
  | VLogicM dst addr op => Some (exec_v_logic_m cur_addr dst addr op)
  | VPackedShift dst a imm lane_ right_ arith => Some (exec_v_packed_shift dst a imm lane_ right_ arith)
  | VMaskedShift dst a imm elem right_ arith k zeroing bytes =>
      Some (exec_v_masked_shift dst a imm elem right_ arith k zeroing bytes)
  | VShiftReg dst a count elem right_ arith k zeroing bytes =>
      Some (reg_arm (fun c => exec_shift_reg c dst a count elem right_ arith k zeroing bytes))
  | VShiftVar dst a count elem right_ arith k zeroing bytes =>
      Some (reg_arm (fun c => exec_var_shift c dst a count elem right_ arith k zeroing bytes))
  | _ => None
  end.
Definition vec_arm_6 (cur_addr : Z) (op : VecOp) : option Arm :=
  match op with
  | VGf2p8 dst a b imm mode k zeroing bytes => Some (reg_arm (fun c => exec_gf2p8 c dst a b imm mode k zeroing bytes))
  | VGf2p8M dst a addr imm mode k zeroing bytes => Some (exec_v_gf2p8_m dst a addr imm mode k zeroing bytes)
  | VByteShift dst a shift right_ width => Some (exec_v_byte_shift dst a shift right_ width)
  | VShuffle32 dst a imm bytes => Some (exec_v_shuffle32 dst a imm bytes)
  | VBlendW dst a b imm bytes => Some (exec_v_blend_w dst a b imm bytes)
  | VBlendD dst a b imm bytes => Some (exec_v_blend_d dst a b imm bytes)
  | VFma dst x y z p scalar neg_prod neg_add bytes alt_sign writemask zeroing =>
      Some (exec_v_fma dst x y z p scalar neg_prod neg_add bytes alt_sign writemask zeroing)
  | VFmaM dst x y z addr mem_role p scalar neg_prod neg_add bytes alt_sign writemask zeroing =>
      Some (exec_v_fma_m cur_addr dst x y z addr mem_role p scalar neg_prod neg_add bytes alt_sign writemask zeroing)
  | VPackWide dst a b from_elem signed bytes => Some (exec_v_pack_wide dst a b from_elem signed bytes)
  | VPackWideM dst a addr from_elem signed => Some (exec_v_pack_wide_m cur_addr dst a addr from_elem signed)
  | VShuffle32Wide dst a imm bytes writemask zeroing => Some (exec_v_shuffle32_wide dst a imm bytes writemask zeroing)
  | _ => None
  end.
Definition vec_arm_7 (cur_addr : Z) (op : VecOp) : option Arm :=
  match op with
  | VMoveHalf dst src dst_high src_high => Some (exec_v_move_half dst src dst_high src_high)
  | VLoadHalf dst addr high => Some (exec_v_load_half cur_addr dst addr high)
  | VStoreHalf addr src high => Some (exec_v_store_half cur_addr addr src high)
  | VExtractW dst src index => Some (exec_v_extract_w dst src index)
  | VExtractLane dst src index size => Some (exec_v_extract_lane dst src index size)
  | VMoveMaskB dst src => Some (exec_v_move_mask_b dst src)
  | VMoveMaskFp dst src elem bytes => Some (exec_v_move_mask_fp dst src elem bytes)
  | VBroadcast dst src elem w256 => Some (exec_v_broadcast dst src elem w256)
  | VBroadcastM dst addr elem w256 => Some (exec_v_broadcast_m cur_addr dst addr elem w256)
  | VBroadcastGpr dst src elem width => Some (exec_v_broadcast_gpr dst src elem width)
  | VBroadcastLane dst src chunk elem dst_width writemask zeroing =>
      Some (exec_v_broadcast_lane dst src chunk elem dst_width writemask zeroing)
  | VBroadcastLaneM dst addr chunk elem dst_width writemask zeroing =>
      Some (exec_v_broadcast_lane_m cur_addr dst addr chunk elem dst_width writemask zeroing)
  | VPCmpToMask k a b elem width pred signed writemask => Some (exec_v_p_cmp_to_mask k a b elem width pred signed writemask)
  | VPCmpToMaskM k a addr elem width pred signed writemask =>
      Some (exec_v_p_cmp_to_mask_m cur_addr k a addr elem width pred signed writemask)
  | _ => None
  end.
Definition vec_arm_8 (cur_addr : Z) (op : VecOp) : option Arm :=
  match op with
  | VPTestToMask k a b elem width neg writemask => Some (exec_v_p_test_to_mask k a b elem width neg writemask)
  | VPTestToMaskM k a addr elem width neg writemask => Some (exec_v_p_test_to_mask_m cur_addr k a addr elem width neg writemask)
  | VKOrTest a b width => Some (exec_v_k_or_test a b width)
  | VKFromGpr k src width => Some (exec_v_k_from_gpr k src width)
  | VKToGpr dst k width => Some (exec_v_k_to_gpr dst k width)
  | VKMovKK dst src width => Some (exec_v_k_mov_k_k dst src width)
  | VKUnpack dst a b half => Some (exec_v_k_unpack dst a b half)
  | VKBinOp dst a b op width => Some (exec_v_k_bin_op dst a b op width)
  | VKNot dst a width => Some (exec_v_k_not dst a width)
  | VKShift dst a amount width left_ => Some (exec_v_k_shift dst a amount width left_)
  | VPmovNarrow dst src from to src_width writemask zeroing =>
      Some (exec_v_pmov_narrow dst src from to src_width writemask zeroing)
  | VPmovNarrowMem src addr from to src_width => Some (exec_v_pmov_narrow_mem cur_addr src addr from to src_width)
  | VPermT2 dst idx tbl elem writemask zeroing bytes imode =>
      Some (exec_v_perm_t2 dst idx tbl elem writemask zeroing bytes imode)
  | VPermT2M dst idx addr elem writemask zeroing bytes imode =>
      Some (exec_v_perm_t2_m cur_addr dst idx addr elem writemask zeroing bytes imode)
  | _ => None
  end.
Definition vec_arm_9 (cur_addr : Z) (op : VecOp) : option Arm :=
  match op with
  | VPerm1 dst idx src elem bytes writemask zeroing => Some (exec_v_perm1 dst idx src elem bytes writemask zeroing)
  | VPerm1M dst idx addr elem bytes writemask zeroing =>
      Some (exec_v_perm1_m cur_addr dst idx addr elem bytes writemask zeroing)
  | VInsert128 dst src ins hi => Some (exec_v_insert128 dst src ins hi)
  | VInsert128M dst src addr hi => Some (exec_v_insert128_m cur_addr dst src addr hi)
  | VExtract128 dst src hi => Some (exec_v_extract128 dst src hi)
  | VPshufb256 dst a idx => Some (exec_v_pshufb256 dst a idx)
  | VPshufbWide dst a idx bytes writemask zeroing => Some (exec_v_pshufb_wide dst a idx bytes writemask zeroing)
  | VPshufb256M dst a addr => Some (exec_v_pshufb256_m cur_addr dst a addr)
  | VPackedShift256 dst a imm lane_ right_ arith => Some (exec_v_packed_shift256 dst a imm lane_ right_ arith)
  | VPermq dst src imm => Some (exec_v_permq dst src imm)
  | VPermd dst ctrl src => Some (exec_v_permd dst ctrl src)
  | VPermilVar dst src ctrl elem bytes => Some (exec_v_permil_var dst src ctrl elem bytes)
  | VPerm2i128 dst a b imm => Some (exec_v_perm2i128 dst a b imm)
  | VPalignr256 dst a b imm => Some (exec_v_palignr256 dst a b imm)
  | VPtest a b w256 => Some (exec_v_ptest a b w256)
  | VTestFp a b elem bytes => Some (exec_v_test_fp a b elem bytes)
  | VZeroUpper reg => Some (exec_v_zero_upper reg)
  | VZeroUpperAll clear_low => Some (exec_v_zero_upper_all clear_low)
  | VPshufb dst a idx => Some (exec_v_pshufb dst a idx)
  | VPshufbM dst addr => Some (exec_v_pshufb_m cur_addr dst addr)
  | VAlignr dst a src imm => Some (exec_v_alignr dst a src imm)
  | VAlignrM dst addr imm => Some (exec_v_alignr_m cur_addr dst addr imm)
  | _ => None
  end.
Definition vec_arm_10 (cur_addr : Z) (op : VecOp) : option Arm :=
  match op with
  | VAes dst a b op => Some (exec_v_aes dst a b op)
  | VAesM dst a addr op => Some (exec_v_aes_m cur_addr dst a addr op)
  | VAesImc dst src => Some (exec_v_aes_imc dst src)
  | VAesImcM dst addr => Some (exec_v_aes_imc_m cur_addr dst addr)
  | VAesKeygen dst src imm => Some (exec_v_aes_keygen dst src imm)
  | VAesKeygenM dst addr imm => Some (exec_v_aes_keygen_m cur_addr dst addr imm)
  | VSha dst a b imm op => Some (exec_v_sha dst a b imm op)
  | VShaM dst a addr imm op => Some (exec_v_sha_m cur_addr dst a addr imm op)
  | VGfni dst a b imm op => Some (exec_v_gfni dst a b imm op)
  | VGfniM dst a addr imm op => Some (exec_v_gfni_m cur_addr dst a addr imm op)
  | VPclmul dst a b imm => Some (exec_v_pclmul dst a b imm)
  | VPclmulM dst a addr imm => Some (exec_v_pclmul_m cur_addr dst a addr imm)
  | VPsign dst a b lane_ bytes => Some (exec_v_psign dst a b lane_ bytes)
  | VPsignM dst a addr lane_ bytes => Some (exec_v_psign_m cur_addr dst a addr lane_ bytes)
  | VShufps dst a b imm => Some (exec_v_shufps dst a b imm)
  | VShufpsM dst a addr imm => Some (exec_v_shufps_m cur_addr dst a addr imm)
  | VShuffle16 dst a imm high bytes => Some (exec_v_shuffle16 dst a imm high bytes)
  | VUnpackLow dst a b lane_ high => Some (exec_v_unpack_low dst a b lane_ high)
  | VUnpackLowM dst a addr lane_ high => Some (exec_v_unpack_low_m cur_addr dst a addr lane_ high)
  | VPackUsWB dst a b => Some (exec_v_pack_us_w_b dst a b)
  | Movq2dq dst src_mm => Some (reg_arm (fun c => exec_movq2dq c dst src_mm))
  | Movdq2q dst_mm src_xmm => Some (reg_arm (fun c => exec_movdq2q c dst_mm src_xmm))
  | _ => None
  end.
Definition vec_arm_11 (cur_addr : Z) (op : VecOp) : option Arm :=
  match op with
  | VPMAddWd dst a b => Some (reg_arm (fun c => exec_pmaddwd c dst a b))
  | VPMadd dst a b ubsw bytes => Some (reg_arm (fun c => exec_v_pmadd c dst a b ubsw bytes))
  | VPMaddM dst a addr ubsw bytes => Some (exec_v_pmadd_m cur_addr dst a addr ubsw bytes)
  | _ => None
  end.
Definition vec_arm_12 (cur_addr : Z) (op : VecOp) : option Arm :=
  match op with
  | VInsertW dst src index => Some (exec_v_insert_w dst src index)
  | VInsertLane dst base src index size => Some (exec_v_insert_lane dst base src index size)
  | VFloatMov dst a src p => Some (exec_v_float_mov dst a src p)
  | VFloatBin dst a b op p scalar => Some (exec_v_float_bin dst a b op p scalar)
  | VFloatBinM dst addr op p scalar => Some (exec_v_float_bin_m cur_addr dst addr op p scalar)
  | VHFloat dst a b op p bytes => Some (exec_v_h_float dst a b op p bytes)
  | VHFloatM dst a addr op p bytes => Some (exec_v_h_float_m cur_addr dst a addr op p bytes)
  | VHInt dst a b op bytes => Some (exec_v_h_int dst a b op bytes)
  | VHIntM dst a addr op bytes => Some (exec_v_h_int_m cur_addr dst a addr op bytes)
  | VFloatCmpMask dst a b p scalar pred => Some (exec_v_float_cmp_mask dst a b p scalar pred)
  | VFloatCmpMaskM dst addr p scalar pred => Some (exec_v_float_cmp_mask_m cur_addr dst addr p scalar pred)
  | VFloatCmpMask256 dst a b p pred => Some (exec_v_float_cmp_mask256 dst a b p pred)
  | VFloatCmpMask256M dst a addr p pred => Some (exec_v_float_cmp_mask256_m cur_addr dst a addr p pred)
  | VFloatCmp a b p => Some (exec_v_float_cmp a b p)
  | _ => None
  end.
Definition vec_arm_13 (cur_addr : Z) (op : VecOp) : option Arm :=
  match op with
  | VCvtFromInt dst src int_size p signed => Some (exec_v_cvt_from_int dst src int_size p signed)
  | VCvtToInt dst src int_size p trunc signed => Some (exec_v_cvt_to_int dst src int_size p trunc signed)
  | VCvtFloat dst src from to => Some (exec_v_cvt_float dst src from to)
  | VPackedCvt dst src kind => Some (exec_v_packed_cvt dst src kind)
  | VFloatBin256 dst a b op p => Some (exec_v_float_bin256 dst a b op p)
  | VFloatBin256M dst a addr op p => Some (exec_v_float_bin256_m cur_addr dst a addr op p)
  | VFloatUnary256 dst src op p => Some (exec_v_float_unary256 dst src op p)
  | VFloatUnary256M dst addr op p => Some (exec_v_float_unary256_m cur_addr dst addr op p)
  | VPackedCvt256 dst src kind => Some (exec_v_packed_cvt256 dst src kind)
  | VPackedCvt256M dst addr kind => Some (exec_v_packed_cvt256_m cur_addr dst addr kind)
  | VPackedCvtWide256 dst src kind => Some (exec_v_packed_cvt_wide256 dst src kind)
  | VShufps256 dst a b imm_lo imm_hi => Some (exec_v_shufps256 dst a b imm_lo imm_hi)
  | VShufps256M dst a addr imm_lo imm_hi => Some (exec_v_shufps256_m cur_addr dst a addr imm_lo imm_hi)
  | VUnpack256 dst a b lane_ high => Some (exec_v_unpack256 dst a b lane_ high)
  | VUnpack256M dst a addr lane_ high => Some (exec_v_unpack256_m cur_addr dst a addr lane_ high)
  | VCvtPh2Ps dst src lanes => Some (exec_v_cvt_ph2ps dst src lanes)
  | _ => None
  end.
Definition vec_arm_14 (cur_addr : Z) (op : VecOp) : option Arm :=
  match op with
  | VCvtPs2Ph dst src lanes rc => Some (exec_v_cvt_ps2ph dst src lanes rc)
  | VPhMinPosUw dst src => Some (exec_v_ph_min_pos_uw dst src)
  | VMpsadbw dst a b imm bytes => Some (exec_v_mpsadbw dst a b imm bytes)
  | VFloatUnary dst a src op p scalar => Some (exec_v_float_unary dst a src op p scalar)
  | VFloatUnaryM dst a src_addr op p scalar => Some (exec_v_float_unary_m cur_addr dst a src_addr op p scalar)
  | _ => None
  end.

(** The arm of a vector op. *)
Definition exec_vec (cur_addr : Z) (op : VecOp) : Arm :=
  match head (omap id [vec_arm_1 cur_addr op; vec_arm_2 cur_addr op; vec_arm_3 cur_addr op; vec_arm_4 cur_addr op; vec_arm_5 cur_addr op; vec_arm_6 cur_addr op; vec_arm_7 cur_addr op; vec_arm_8 cur_addr op; vec_arm_9 cur_addr op; vec_arm_10 cur_addr op; vec_arm_11 cur_addr op; vec_arm_12 cur_addr op; vec_arm_13 cur_addr op; vec_arm_14 cur_addr op]) with
  | Some arm => arm
  | None => next
  end.
