(* ===== verification/VecRange.v ===== *)
(** * Widths of the vector functions

    Every function that fills a register yields a 128-bit pattern: the vector part of
    the machine invariant.  Most of them build their result lane by lane, where the
    wrap-around of [<<] gives the bound whatever the operands are. *)

From S2P Require Import Prelude Features State Ir Aes AesSpec Sha Alu Memory Interp IntegerSpec StringOps HostFloat VecOps VecFloat VecMem VecCpu VecArm.

Create HintDb u128.
#[export] Hint Constants Opaque : u128.

Lemma land_r_range w x m : 0 <= w -> in_width w m -> in_width w (Z.land x m).
Proof.
  intros Hw Hm. apply in_width_bits; [done| |].
  - apply Z.land_nonneg. right. apply Hm.
  - intros i Hi. rewrite Z.land_spec, (in_width_high w m) by done. apply andb_false_r.
Qed.
Lemma land_l_range w x m : 0 <= w -> in_width w m -> in_width w (Z.land m x).
Proof. intros. rewrite Z.land_comm. by apply land_r_range. Qed.

Lemma shl128_range x n : in_width 128 (shl128 x n).
Proof. by apply wrap_range. Qed.
Lemma not128_range x : in_width 128 (not128 x).
Proof. by apply wrap_range. Qed.
Lemma u128_zero : in_width 128 0.
Proof. by split. Qed.
Lemma u128_lor x y : in_width 128 x -> in_width 128 y -> in_width 128 (Z.lor x y).
Proof. by apply in_width_lor. Qed.
Lemma u128_lxor x y : in_width 128 x -> in_width 128 y -> in_width 128 (Z.lxor x y).
Proof. by apply in_width_lxor. Qed.
Lemma u128_land_r x y : in_width 128 y -> in_width 128 (Z.land x y).
Proof. by apply land_r_range. Qed.
Lemma u128_land_l x y : in_width 128 x -> in_width 128 (Z.land x y).
Proof. by apply land_l_range. Qed.
Lemma u128_shiftr x n : 0 <= n -> in_width 128 x -> in_width 128 (Z.shiftr x n).
Proof. intros. by apply in_width_shiftr. Qed.
Lemma u128_wrap w x : 0 <= w <= 128 -> in_width 128 (wrap w x).
Proof. intros. apply (in_width_mono w); [lia|]. apply wrap_range. lia. Qed.
Lemma u128_of_64 x : in_width 64 x -> in_width 128 x.
Proof. by apply in_width_mono. Qed.
#[export] Hint Resolve shl128_range not128_range u128_zero u128_lor u128_lxor : u128.
#[export] Hint Extern 1 (in_width 128 (wrap _ _)) => apply u128_wrap; lia : u128.
#[export] Hint Extern 2 (in_width 128 (Z.shiftr _ _)) => apply u128_shiftr; [lia|] : u128.
#[export] Hint Extern 2 (in_width 128 (Z.land _ _)) => first [apply u128_land_l; solve [eauto with u128 nocore]|apply u128_land_r] : u128.
#[export] Hint Extern 3 (in_width 128 (if ?b then _ else _)) => destruct b : u128.

(** ** Lane loops *)

Lemma foldl_range {B} (f : Z -> B -> Z) l r : (forall r b, in_width 128 r -> in_width 128 (f r b)) ->
  in_width 128 r -> in_width 128 (foldl f r l).
Proof. intros H Hr. by apply (foldl_inv (in_width 128)). Qed.

Lemma or_lanes_range n bits f : in_width 128 (or_lanes n bits f).
Proof. apply foldl_range; auto with u128. Qed.
Lemma put_lanes_range p n f r : in_width 128 r -> in_width 128 (put_lanes p n f r).
Proof. intros. apply foldl_range; [|done]. intros. unfold put_lane. auto with u128. Qed.
#[export] Hint Resolve or_lanes_range put_lanes_range : u128.

(** Unfold a function of the model and walk down its branches. *)
Ltac u128_tac := repeat (cbn zeta; first [progress auto with u128|apply foldl_range; [intros|]|case_match]).

Lemma vlogic_range a b op : in_width 128 a -> in_width 128 b -> in_width 128 (vlogic a b op).
Proof. intros. destruct op; cbn; auto with u128. Qed.
Lemma blendv_range d s m l : in_width 128 (blendv d s m l).
Proof. apply or_lanes_range. Qed.
Lemma blendi_range d s m l : in_width 128 (blendi d s m l).
Proof. apply or_lanes_range. Qed.
Lemma ternlog_range a b c imm : in_width 128 a -> in_width 128 (ternlog a b c imm).
Proof.
  intros Ha. apply foldl_range; [|by auto with u128]. intros r j Hr. case_match; [|done]. apply u128_lor; [done|].
  unfold ternlog_term. apply u128_land_l, u128_land_l. auto with u128.
Qed.
Lemma broadcast_elem_range l e : in_width 128 (broadcast_elem l e).
Proof. apply or_lanes_range. Qed.
Lemma packed_bin_range a b l op : in_width 128 (packed_bin a b l op).
Proof. apply or_lanes_range. Qed.
Lemma packed_shift_range a i l r ar : in_width 128 (packed_shift a i l r ar).
Proof. unfold packed_shift. auto with u128. Qed.
Lemma unpack_low_range a b l h : in_width 128 (unpack_low a b l h).
Proof. apply foldl_range; auto with u128. Qed.
Lemma pack_lane_range a b f s : in_width 128 (pack_lane a b f s).
Proof. apply foldl_range; auto with u128. Qed.
Lemma packuswb_range a b : in_width 128 (packuswb a b).
Proof. apply foldl_range; auto with u128. Qed.
Lemma pshufb_range a b : in_width 128 (pshufb a b).
Proof. apply or_lanes_range. Qed.
Lemma palignr_range d s imm : 0 <= imm -> in_width 128 d -> in_width 128 s -> in_width 128 (palignr d s imm).
Proof.
  intros. unfold palignr. destruct (_ <=? _); [auto with u128|]. destruct (Z.eqb_spec (imm * 8) 0); [done|].
  destruct (Z.ltb_spec (imm * 8) 128); [auto with u128|]. destruct (Z.eqb_spec (imm * 8) 128); auto with u128.
Qed.
Lemma byte_shift128_range v s r : 0 <= s -> in_width 128 v -> in_width 128 (byte_shift128 v s r).
Proof. intros. unfold byte_shift128. auto with u128. Qed.
Lemma shuffle32_128_range v i : in_width 128 (shuffle32_128 v i).
Proof. apply or_lanes_range. Qed.
Lemma shufps128_range a b i : in_width 128 (shufps128 a b i).
Proof. apply or_lanes_range. Qed.
Lemma shuffle16_128_range v i h : in_width 128 v -> in_width 128 (shuffle16_128 v i h).
Proof.
  intros. unfold shuffle16_128. apply u128_lor; [destruct h; by apply u128_land_l|]. apply foldl_range; auto with u128.
Qed.
Lemma permil_lane_range s c e : in_width 128 (permil_lane s c e).
Proof. apply or_lanes_range. Qed.
Lemma insertps_range d t i : in_width 128 (insertps d t i).
Proof. apply or_lanes_range. Qed.
Lemma mpsadbw_range a b i : in_width 128 (mpsadbw a b i).
Proof. apply or_lanes_range. Qed.
Lemma pmadd_lane_range a b u : in_width 128 (pmadd_lane a b u).
Proof. unfold pmadd_lane. auto with u128. Qed.
Lemma hint_range a b op : in_width 128 (hint a b op).
Proof. destruct op; cbn [hint]; try apply or_lanes_range; apply foldl_range; auto with u128. Qed.
Lemma psign_range s c l : in_width 128 (psign s c l).
Proof. apply or_lanes_range. Qed.
Lemma blend_word_range a b i : in_width 128 (blend_word a b i).
Proof. apply or_lanes_range. Qed.
Lemma phminposuw_range s : in_width 128 (phminposuw s).
Proof.
  unfold phminposuw. assert (H : forall l acc, in_width 128 acc.1 ->
    in_width 128 (foldl (fun acc i => let w := wrap 16 (Z.shiftr s (i * 16)) in if w <? acc.1 then (w, i) else acc) acc l).1).
  { induction l as [|i l IH]; intros acc Ha; [done|]. cbn [foldl]. apply IH. cbn zeta. destruct (_ <? _); cbn; [|done].
    by apply u128_wrap. }
  specialize (H (zseq 0 8) (2 ^ 16 - 1, 0)). cbn zeta in H. destruct (foldl _ _ _) as [mn idx] eqn:E. cbn [fst] in H.
  apply u128_lor; [|auto with u128]. apply H. by split.
Qed.
Lemma length_concat_map {A B} (f : A -> list B) l k : (forall x, (length (f x) <= k)%nat) ->
  (length (concat (List.map f l)) <= k * length l)%nat.
Proof. intros H. induction l as [|x l IH]; cbn; [lia|]. rewrite length_app. specialize (H x). lia. Qed.
Lemma Forall_concat_map {A B} (P : B -> Prop) (f : A -> list B) l : (forall x, Forall P (f x)) -> Forall P (concat (List.map f l)).
Proof. intros H. induction l as [|x l IH]; cbn; [constructor|]. by apply Forall_app_2. Qed.

Lemma bytes_range bs w : Forall (in_width 8) bs -> (8 * Z.of_nat (length bs) <= w) -> in_width w (from_le_bytes bs).
Proof. intros Hb Hl. eapply in_width_mono; [|by apply from_le_bytes_range]. lia. Qed.

Lemma pmov_extend_range s f t sg : valid_elem t -> in_width 128 (pmov_extend s f t sg).
Proof.
  intros Ht. unfold pmov_extend. apply bytes_range.
  - apply Forall_concat_map. intros. apply Forall_take, to_le_bytes_range.
  - match goal with |- context [concat (List.map ?g ?l)] => pose proof (length_concat_map g l (Z.to_nat t)) as H end.
    rewrite length_zseq in H. assert (E : (Z.to_nat t * Z.to_nat (16 / t) = 16)%nat) by (destruct Ht as [->|[->|[->| ->]]]; reflexivity).
    rewrite E in H. cut ((length (concat (List.map (fun i => take (Z.to_nat t) (to_le_bytes 8 (extend64 (from_le_bytes
      (take (Z.to_nat f) (drop (Z.to_nat (i * f)) (to_le_bytes 16 s)))) (f * 8) sg))) (zseq 0 (Z.to_nat (16 / t))))) <= 16)%nat); [lia|].
    apply H. intros. rewrite length_take. lia.
Qed.

(** ** Cryptography *)

Lemma inv_sub_bytes_state s : state s -> state (inv_sub_bytes s).
Proof. intros _. split; [done|]. apply Forall_fmap, Forall_forall. intros. apply table_byte, sbox_bytes. Qed.
Lemma inv_shift_rows_state s : state s -> state (inv_shift_rows s).
Proof. intros H. split; [done|]. apply Forall_fmap, Forall_forall. intros. by apply at_state. Qed.
Lemma AesOp_range op x k : in_width 128 k -> in_width 128 (AesOp_apply op x k).
Proof.
  intros Hk. destruct op; (apply u128_lxor; [apply from_state_range|done]);
    auto using mix_columns_state, shift_rows_state, sub_bytes_state, to_bytes_state, inv_mix_columns_state,
      inv_sub_bytes_state, inv_shift_rows_state.
Qed.
Lemma aes_imc_range x : in_width 128 (aes_imc x).
Proof. apply from_state_range, inv_mix_columns_state, to_bytes_state. Qed.

Lemma from_dwords_range d0 d1 d2 d3 : words (d0, d1, d2, d3) -> in_width 128 (from_dwords (d0, d1, d2, d3)).
Proof.
  intros H. rewrite from_dwords_sum by done. destruct H as (H0 & H1 & H2 & H3). unfold in_width in *. lia.
Qed.
Lemma sub_word_range w : in_width 32 (sub_word w).
Proof.
  apply (bytes_range _ 32); [|by rewrite length_fmap, length_to_le_bytes].
  apply Forall_fmap, Forall_forall. intros. apply table_byte, sbox_bytes.
Qed.
Lemma aes_keygen_range x imm : in_width 8 imm -> in_width 128 (aes_keygen x imm).
Proof.
  intros Hi. apply (from_dwords_range (sub_word _) (rot_word _ ⊕ imm) (sub_word _) (rot_word _ ⊕ imm)).
  assert (in_width 32 imm) by (by eapply in_width_mono; [|exact Hi]).
  refine (conj _ (conj _ (conj _ _))); try apply sub_word_range; (apply in_width_lxor; [lia| |done]); apply (wrap_range 32); lia.
Qed.

Ltac word_tac := repeat match goal with
  | |- _ /\ _ => refine (conj _ _)
  | |- in_width 32 (Z.lxor _ _) => apply in_width_lxor; [lia| |]
  | |- in_width 32 _ => first [assumption|apply add32_range|apply rotl32_range|apply (wrap_range 32); lia]
  end.
Lemma sha256rnds2_range a b w : in_width 128 (sha256rnds2 a b w).
Proof. unfold sha256rnds2. cbn [dwords foldl rnds2_round]. apply from_dwords_range. unfold words. word_tac. Qed.
Lemma ShaOp_range op a b x i : in_width 128 (ShaOp_apply op a b x i).
Proof.
  destruct op; cbn [ShaOp_apply]; [apply sha256rnds2_range| | | | | |];
    unfold sha256msg1, sha256msg2, sha1rnds4, sha1nexte, sha1msg1, sha1msg2; cbn [dwords].
  all: try (apply from_dwords_range; unfold words; word_tac).
  repeat (cbn [foldl rnds4_round negb]; match goal with |- context [sha1_f i ?x ?y ?z] => destruct (sha1_f i x y z) end).
  cbn [foldl rnds4_round negb].
  apply from_dwords_range. unfold words. word_tac.
Qed.

Lemma map_bytes_range f : (forall i, in_width 8 (f i)) -> in_width 128 (map_bytes f).
Proof. intros H. apply bytes_range; [|done]. apply Forall_fmap, Forall_forall. intros. apply H. Qed.
Lemma affine_byte_range q x i : in_width 8 (affine_byte q x i).
Proof.
  apply (foldl_inv (in_width 8)); [|by split]. intros r j Hr. apply in_width_lor; [lia|done|]. apply wrap_range. lia.
Qed.
Lemma GfniOp_range op a b i : in_width 128 (GfniOp_apply op a b i).
Proof.
  destruct op; apply map_bytes_range; intros j; try apply affine_byte_range.
  apply gmul_range, at_state, to_bytes_state.
Qed.
#[export] Hint Resolve vlogic_range blendv_range blendi_range ternlog_range broadcast_elem_range packed_bin_range packed_shift_range
  unpack_low_range pack_lane_range packuswb_range pshufb_range palignr_range byte_shift128_range shuffle32_128_range shufps128_range
  shuffle16_128_range permil_lane_range insertps_range mpsadbw_range pmadd_lane_range hint_range psign_range blend_word_range
  phminposuw_range pmov_extend_range AesOp_range aes_imc_range aes_keygen_range ShaOp_range GfniOp_range pclmul_range : u128.

(** ** Floating point *)

Lemma float_mov_range a s n : 0 <= n <= 16 -> in_width 128 (float_mov a s n).
Proof.
  intros. apply bytes_range.
  - apply Forall_app_2; [apply Forall_take|apply Forall_drop]; apply to_le_bytes_range.
  - rewrite length_app, length_take, length_drop, !length_to_le_bytes. lia.
Qed.
Lemma float_bin_range a b op p s : in_width 128 a -> in_width 128 (float_bin a b op p s).
Proof. apply put_lanes_range. Qed.
Lemma vround_range d s p m sc : in_width 128 d -> in_width 128 (vround d s p m sc).
Proof. apply put_lanes_range. Qed.
Lemma float_cmp_mask_range d a b p s pr : in_width 128 d -> in_width 128 (float_cmp_mask d a b p s pr).
Proof. apply put_lanes_range. Qed.
Lemma dpps_range a b i : in_width 128 (dpps a b i).
Proof. apply or_lanes_range. Qed.
Lemma dppd_range a b i : in_width 128 (dppd a b i).
Proof. apply or_lanes_range. Qed.
Lemma dp3_range p a b i : in_width 128 (dp3 p a b i).
Proof. destruct p; apply or_lanes_range. Qed.
Lemma hfloat_range a b op p : in_width 128 (hfloat a b op p).
Proof. apply or_lanes_range. Qed.
Lemma packed_cvt128_range s k : in_width 128 (packed_cvt128 s k).
Proof. destruct k; apply or_lanes_range. Qed.
Lemma put_low_range old bits p : in_width 128 old -> in_width 128 (put_low old bits p).
Proof. intros. unfold put_low. apply u128_lor; [by apply u128_land_l|]. apply u128_land_r. by destruct p. Qed.
Lemma float_unary_range d s op p sc : in_width 128 d -> (op = Sqrt \/ p = F32) ->
  exists r, float_unary d s op p sc = Some r /\ in_width 128 r.
Proof.
  intros Hd Hop. unfold float_unary. generalize (zseq 0 (lane_count p sc)) as l. intros l. revert d Hd.
  induction l as [|i l IH]; intros d Hd; [by exists d|]. cbn [float_unary_loop].
  assert (exists v, apply_un p (flane p s i) op = Some v) as [v ->].
  { destruct p; [by eexists|]. destruct Hop as [->|]; [|done]. cbn. unfold apply_un_f64. case_match; by eexists. }
  cbn. apply IH. unfold put_lane. auto with u128.
Qed.
#[export] Hint Resolve float_bin_range vround_range float_cmp_mask_range dpps_range dppd_range dp3_range hfloat_range
  packed_cvt128_range put_low_range : u128.

(** ** Values for the integer side *)

Lemma fl_to_int_range f lo hi a : lo <= 0 <= hi -> lo <= fl_to_int f lo hi a <= hi.
Proof. intros. unfold fl_to_int. repeat case_match; lia. Qed.
Lemma cvt_to_int_range raw sz p t sg : in_width 64 (cvt_to_int raw sz p t sg).
Proof.
  unfold cvt_to_int. set (f := if t then _ else _).
  destruct (sz =? 8), sg; try (by apply wrap_range).
  - pose proof (fl_to_int_range f64_fmt 0 (2 ^ 64 - 1) f). unfold in_width. lia.
  - apply (in_width_mono 32); [lia|]. by apply wrap_range.
  - pose proof (fl_to_int_range f64_fmt 0 (2 ^ 32 - 1) f). unfold in_width. lia.
Qed.

Lemma foldl_mask_range w n set : 0 <= w -> (forall i, in_width w (set i)) ->
  in_width w (foldl (fun m i => Z.lor m (set i)) 0 (zseq 0 n)).
Proof. intros Hw H. apply (foldl_inv (in_width w)); [|split; [done|apply pow2_pos; lia]]. intros. by apply in_width_lor. Qed.

Lemma mask_of_range n set : in_width 64 (mask_of n set).
Proof.
  apply (foldl_inv (in_width 64)); [|by split]. intros m i Hm. case_match; [|done]. apply in_width_lor; [lia|done|]. by apply wrap_range.
Qed.
Lemma movemask_b_range v : in_width 16 (movemask_b v).
Proof.
  apply (foldl_inv_in (in_width 16)); [|by split]. intros m i Hi Hm. apply zseq_elem in Hi. case_match; [|done].
  apply in_width_lor; [lia|done|]. rewrite Z.shiftl_1_l. split; [apply Z.pow_nonneg; lia|]. apply Z.pow_lt_mono_r; lia.
Qed.
Lemma kwidth_mask_range w : 0 <= w -> in_width 64 (kwidth_mask w).
Proof.
  intros. unfold kwidth_mask. destruct (Z.leb_spec 64 w); [by split|]. rewrite Z.shiftl_1_l.
  pose proof (Z.pow_le_mono_r 2 w 64). pose proof (pow2_pos w). unfold in_width. lia.
Qed.
Lemma move_mask_fp_range (f : Z -> Z) b pl n :
  in_width 64 (foldl (fun m l => move_mask_half (f l) b pl (l * Z.of_nat pl) m) 0 (zseq 0 n)).
Proof.
  apply (foldl_inv (in_width 64)); [|by split]. intros m l Hm. apply (foldl_inv (in_width 64)); [|done].
  intros. apply in_width_lor; [lia|done|]. by apply wrap_range.
Qed.
