(* ===== verification/VecSafe.v ===== *)
(** * The vector invariant and fault atomicity of the vector arms

    [vcpu]: lanes are 128-bit and mask registers 64-bit patterns, and the x87 registers,
    which the MMX moves share, are within their types.  [vsafe]: an arm
    returns and keeps the invariant.  [atomic]: in addition, when the arm leaves the block
    it is with a memory trap, with RIP on the instruction and with every architectural
    register as it was before the instruction (the rule the sources cite as fault
    atomicity: an instruction restarted after the fault sees its own operands). *)

From S2P Require Import Prelude Features State Ir Aes AesSpec Sha Alu Memory Interp IntegerSpec StringOps HostFloat VecOps VecFloat VecMem VecCpu VecArm VecRange VecOp.

(** ** The invariant *)

Record vec_wf (c : CpuState) : Prop := {
  vw_xmm : Forall (in_width 128) (xmm c);
  vw_hi : Forall (in_width 128) (ymm_hi c);
  vw_zmm : Forall (fun p => in_width 128 p.1 /\ in_width 128 p.2) (zmm_hi c);
  vw_klen : length (kmask c) = 8%nat;
  vw_k : Forall (in_width 64) (kmask c);
  vw_parts : Forall (fun p => in_width 64 p.2) (mmio_parts c);
  vw_flen : length (fpr c) = 8%nat;
  vw_fpr : Forall (fun slot => length slot = 10%nat /\ Forall (in_width 8) slot) (fpr c);
  vw_top : 0 <= fpu_top c < 8;
  vw_cw : in_width 16 (fpu_cw c);
  vw_sw : in_width 16 (fpu_sw c);
  vw_sw_top : Z.land (fpu_sw c) 0x3800 = 0;
  vw_empty : in_width 8 (fpu_empty c);
  vw_tail : length (fpu_env_tail c) = 16%nat /\ Forall (in_width 8) (fpu_env_tail c);
}.
Definition vcpu (c : CpuState) : Prop := cpu_wf c /\ vec_wf c.
Definition lanes_ok (l : list Z) : Prop := length l = 4%nat /\ Forall (in_width 128) l.
Definition okc (o : option CpuState) : Prop := exists c', o = Some c' /\ vcpu c'.

Lemma Forall_nth_width w l r : 0 <= w -> Forall (in_width w) l -> in_width w (nth r l 0).
Proof.
  intros Hw Hl. destruct (nth_in_or_default r l 0) as [H|H].
  - rewrite list.Forall_forall in Hl. by apply Hl, list_elem_of_In.
  - rewrite H. split; [done|apply pow2_pos; lia].
Qed.
Lemma lane_range l i : lanes_ok l -> in_width 128 (lane l i).
Proof. intros [_ H]. by apply Forall_nth_width. Qed.
#[export] Hint Resolve lane_range : u128.

Lemma vec_lanes_ok c r : vcpu c -> lanes_ok (vec_lanes c r).
Proof.
  intros [_ H]. split; [done|]. unfold vec_lanes.
  assert (Hz : in_width 128 (nth r (zmm_hi c) (0, 0)).1 /\ in_width 128 (nth r (zmm_hi c) (0, 0)).2).
  { destruct (nth_in_or_default r (zmm_hi c) (0, 0)) as [Hi| ->]; [|by split].
    pose proof (vw_zmm _ H) as Hz. rewrite list.Forall_forall in Hz. by apply Hz, list_elem_of_In. }
  destruct Hz as [Hz1 Hz2]. constructor; [apply Forall_nth_width; [done|apply H]|].
  constructor; [apply Forall_nth_width; [done|apply H]|].
  constructor; [exact Hz1|]. constructor; [exact Hz2|constructor].
Qed.

Lemma lanes4_ok n f : (forall i, in_width 128 (f i)) -> lanes_ok (lanes4 n f).
Proof. intros H. split; [done|]. apply Forall_fmap, Forall_forall. intros i _. unfold compose. cbv beta zeta. destruct (_ <? _); [done|by split]. Qed.
Lemma insert_ok l i v : lanes_ok l -> in_width 128 v -> lanes_ok (<[i := v]> l).
Proof. intros [Hl Hf] Hv. split; [by rewrite length_insert|by apply Forall_insert]. Qed.
Lemma zero4_ok : lanes_ok zero4.
Proof. split; [done|]. by repeat constructor. Qed.
Lemma set_velem_ok l i e v : lanes_ok l -> lanes_ok (set_velem l i e v).
Proof. intros H. unfold set_velem. apply insert_ok; [done|]. auto with u128. Qed.
Lemma set_velems_ok r n e f : lanes_ok r -> lanes_ok (set_velems r n e f).
Proof. intros H. unfold set_velems. apply (foldl_inv lanes_ok); [|done]. intros. by apply set_velem_ok. Qed.
Lemma replicate_ok v : in_width 128 v -> lanes_ok (replicate 4 v).
Proof. intros. split; [done|]. by apply Forall_replicate. Qed.
Lemma lanes_app_ok (l l' : list Z) : (length l + length l' = 4)%nat -> Forall (in_width 128) l -> Forall (in_width 128) l' -> lanes_ok (l ++ l').
Proof. intros. split; [by rewrite length_app|by apply Forall_app_2]. Qed.
Lemma permute1_ok i t e b : lanes_ok (permute1 i t e b).
Proof. apply set_velems_ok, zero4_ok. Qed.
Lemma permute2_ok i t t' e b : lanes_ok (permute2 i t t' e b).
Proof. apply set_velems_ok, zero4_ok. Qed.
Lemma fma_lanes_ok x y z o p s np na b al : lanes_ok o -> lanes_ok (fma_lanes x y z o p s np na b al).
Proof. intros. apply set_velems_ok. destruct s; [done|apply zero4_ok]. Qed.
Lemma vpopcnt_ok a l : length a = 4%nat -> lanes_ok (vpopcnt_lanes a l).
Proof.
  intros H. split; [by rewrite <- H; apply length_map|]. apply Forall_fmap, Forall_forall. intros. apply or_lanes_range.
Qed.
Lemma broadcast_lanes_ok bs ch w : Forall (in_width 8) bs -> lanes_ok (broadcast_lane_lanes bs ch w).
Proof.
  intros Hb. split; [done|]. apply Forall_fmap, Forall_forall. intros j _. unfold compose. cbv beta zeta. apply bytes_range; [|rewrite length_take; lia].
  apply Forall_take, Forall_drop, Forall_app_2; [|apply Forall_replicate; by split].
  cbv zeta. induction (Z.to_nat (Z.min w 64 / ch)) as [|n IH]; cbn; [constructor|]. apply Forall_app_2; [by apply Forall_take|done].
Qed.
Lemma bytes_of_lanes_ok l : Forall (in_width 8) (bytes_of_lanes l).
Proof. apply Forall_concat_map. intros. apply to_le_bytes_range. Qed.
Lemma valign_ok a b s e by_ l : valign_lanes a b s e by_ = Some l -> lanes_ok l.
Proof.
  unfold valign_lanes. case_match; [|done]. intros E%(inj Some). subst l. apply lanes4_ok. intros i. apply bytes_range; [|rewrite length_take; lia].
  apply Forall_take, Forall_drop, Forall_take, Forall_app_2; [|apply Forall_app_2];
    [apply Forall_concat_map; intros; apply to_le_bytes_range..|apply Forall_replicate; by split].
Qed.
Lemma blend_dwords_ok a b i by_ : lanes_ok (blend_dwords a b i by_).
Proof. apply (foldl_inv lanes_ok); [|apply zero4_ok]. intros. apply insert_ok; auto with u128. Qed.
Lemma ternlog_lanes_ok a b c i : lanes_ok a -> lanes_ok (ternlog_lanes a b c i).
Proof. intros. apply lanes4_ok. intros. auto with u128. Qed.
#[export] Hint Resolve lanes4_ok zero4_ok set_velem_ok set_velems_ok replicate_ok permute1_ok permute2_ok fma_lanes_ok
  broadcast_lanes_ok bytes_of_lanes_ok blend_dwords_ok ternlog_lanes_ok vec_lanes_ok : u128.
#[export] Hint Extern 1 (lanes_ok (vpopcnt_lanes _ _)) => apply vpopcnt_ok; match goal with H : lanes_ok _ |- _ => apply H end : u128.

(** ** Register writes keep the invariant *)

Lemma vcpu_xmm c r v : vcpu c -> in_width 128 v -> vcpu (set_xmm c (<[r := v]> (xmm c))).
Proof.
  intros [[] []] Hv. split; split; cbn; try done; [by rewrite length_insert|by apply Forall_insert].
Qed.
Lemma vcpu_hi c r v : vcpu c -> in_width 128 v -> vcpu (set_ymm_hi c (<[r := v]> (ymm_hi c))).
Proof. intros [[] []] Hv. split; split; cbn; try done; [by rewrite length_insert|by apply Forall_insert]. Qed.
Lemma vcpu_zmm c r p : vcpu c -> in_width 128 p.1 -> in_width 128 p.2 -> vcpu (set_zmm_hi c (<[r := p]> (zmm_hi c))).
Proof. intros [[] []] Hv ?. split; split; cbn; try done; [by rewrite length_insert|by apply Forall_insert]. Qed.
Lemma vcpu_k c k v : vcpu c -> in_width 64 v -> vcpu (set_kmask c (<[k := v]> (kmask c))).
Proof. intros [[] []] Hv. split; split; cbn; try done; [by rewrite length_insert|by apply Forall_insert]. Qed.
Lemma vcpu_flags c f : vcpu c -> flags_wf f -> vcpu (set_flags c f).
Proof. intros [Hc []] Hf. split; [by apply cpu_wf_set_flags|by split]. Qed.
Lemma vcpu_rip c v : vcpu c -> in_width 64 v -> vcpu (set_rip c v).
Proof. intros [Hc []] Hf. split; [by apply cpu_wf_rip|by split]. Qed.
Lemma vcpu_set_vec c r l b : vcpu c -> lanes_ok l -> vcpu (set_vec c r l b).
Proof.
  intros Hc Hl. unfold set_vec. apply vcpu_zmm; [apply vcpu_hi; [apply vcpu_xmm; auto with u128|]|..]; auto with u128;
    case_match; cbn; auto with u128.
Qed.
Lemma vcpu_set_vec_low c r l b : vcpu c -> lanes_ok l -> vcpu (set_vec_low c r l b).
Proof.
  intros Hc Hl. unfold set_vec_low. assert (H0 : vcpu (set_xmm c (<[r := lane l 0]> (xmm c)))) by (apply vcpu_xmm; auto with u128).
  cbn zeta. destruct (32 <=? b).
  - assert (H1 := vcpu_hi _ r (lane l 1) H0 ltac:(auto with u128)). destruct (64 <=? b); [|done]. apply vcpu_zmm; cbn; auto with u128.
  - destruct (64 <=? b); [|done]. apply vcpu_zmm; cbn; auto with u128.
Qed.
Lemma mask_chunk_range n j e km new old bits lm acc : in_width 128 acc -> in_width 128 (mask_chunk n j e km new old bits lm acc).1.
Proof.
  revert j e acc. induction n as [|n IH]; intros j e acc Ha; [done|]. cbn. apply IH. apply u128_lor; [done|]. by apply wrap_range.
Qed.
Lemma mask_chunks_ok n chunk chunks e km new old per bits lm :
  Forall (in_width 128) (mask_chunks n chunk chunks e km new old per bits lm) /\
  length (mask_chunks n chunk chunks e km new old per bits lm) = n.
Proof.
  revert chunk e. induction n as [|n IH]; intros chunk e; [by split|]. cbn [mask_chunks].
  destruct (chunks <=? chunk).
  - split; [apply Forall_replicate; by split|apply length_replicate].
  - pose proof (mask_chunk_range (Z.to_nat per) 0 e km (lane new (Z.to_nat chunk)) (lane old (Z.to_nat chunk)) bits lm 0 u128_zero) as Hm.
    destruct (mask_chunk _ _ _ _ _ _ _ _ _) as [acc e'] eqn:E. cbn [fst] in Hm.
    destruct (IH (chunk + 1) e') as [H1 H2]. split; [by constructor|cbn; by rewrite H2].
Qed.
Lemma vcpu_write_masked c r l k e z b : vcpu c -> vcpu (write_masked c r l k e z b).
Proof. intros Hc. apply vcpu_set_vec; [done|]. split; apply mask_chunks_ok. Qed.
#[export] Hint Resolve vcpu_xmm vcpu_hi vcpu_zmm vcpu_k vcpu_flags vcpu_rip vcpu_set_vec vcpu_set_vec_low vcpu_write_masked : u128.
