(* ===== verification/VecAtomic.v ===== *)
(** * Fault atomicity: the rules

    Three judgements on the machine monad, one rule per primitive, and the tactics
    [okc], [vcommit] and [varm] that walk down an arm with them. *)

From S2P Require Import Prelude Features State Ir Aes AesSpec Sha Alu Memory Interp IntegerSpec StringOps HostFloat VecOps VecFloat VecMem VecCpu VecArm VecRange VecOp VecSafe.

(** ** Register files *)

Lemma guard_reg_lt {A} r (x : A) : (r < 32)%nat -> guard_reg r x = Some x.
Proof. intros H. unfold guard_reg. by apply Nat.ltb_lt in H as ->. Qed.
Lemma guard_k_lt {A} k (x : A) : (k < 8)%nat -> guard_k k x = Some x.
Proof. intros H. unfold guard_k. by apply Nat.ltb_lt in H as ->. Qed.

Lemma xmm_range c r : vcpu c -> in_width 128 (nth r (xmm c) 0).
Proof. intros [_ H]. apply Forall_nth_width; [done|apply H]. Qed.
Lemma hi_range c r : vcpu c -> in_width 128 (nth r (ymm_hi c) 0).
Proof. intros [_ H]. apply Forall_nth_width; [done|apply H]. Qed.
Lemma k_range c r : vcpu c -> in_width 64 (nth r (kmask c) 0).
Proof. intros [_ H]. apply Forall_nth_width; [done|apply H]. Qed.

Lemma okc_some c : vcpu c -> okc (Some c).
Proof. by exists c. Qed.
Lemma okc_xmm c r k : vcpu c -> (r < 32)%nat -> (forall x, in_width 128 x -> okc (k x)) -> okc (xmm_of c r ≫= k).
Proof. intros Hc Hr Hk. unfold xmm_of. rewrite guard_reg_lt by done. apply Hk. by apply xmm_range. Qed.
Lemma okc_hi c r k : vcpu c -> (r < 32)%nat -> (forall x, in_width 128 x -> okc (k x)) -> okc (hi_of c r ≫= k).
Proof. intros Hc Hr Hk. unfold hi_of. rewrite guard_reg_lt by done. apply Hk. by apply hi_range. Qed.
Lemma okc_lanes c r k : vcpu c -> (r < 32)%nat -> (forall x, lanes_ok x -> okc (k x)) -> okc (lanes_of c r ≫= k).
Proof. intros Hc Hr Hk. unfold lanes_of. rewrite guard_reg_lt by done. apply Hk. by apply vec_lanes_ok. Qed.
Lemma okc_k c r k : vcpu c -> (r < 8)%nat -> (forall x, in_width 64 x -> okc (k x)) -> okc (k_of c r ≫= k).
Proof. intros Hc Hr Hk. unfold k_of. rewrite guard_k_lt by done. apply Hk. by apply k_range. Qed.
Definition wm_ok (wm : option nat) : Prop := match wm with Some k => (k < 8)%nat | None => True end.
Lemma okc_wm c wm k : vcpu c -> wm_ok wm -> (forall x, in_width 64 x -> okc (k x)) -> okc (kmask_or_ones c wm ≫= k).
Proof. intros Hc Hw Hk. destruct wm as [r|]; cbn in *; [by apply okc_k|]. apply Hk. by split. Qed.
Lemma okc_lanes_upto n f k : n <= 4 -> (forall i, in_width 128 (f i)) -> (forall x, lanes_ok x -> okc (k x)) ->
  okc (lanes_upto n f ≫= k).
Proof. intros Hn Hf Hk. unfold lanes_upto. apply Z.leb_le in Hn as ->. apply Hk. by apply lanes4_ok. Qed.
Lemma okc_bind o k : okc o -> (forall c, vcpu c -> okc (k c)) -> okc (o ≫= k).
Proof. intros (c & -> & Hc) Hk. by apply Hk. Qed.
Lemma okc_with_xmm c r v : vcpu c -> (r < 32)%nat -> in_width 128 v -> okc (with_xmm c r v).
Proof. intros. unfold with_xmm. rewrite guard_reg_lt by done. apply okc_some. auto with u128. Qed.
Lemma okc_with_hi c r v : vcpu c -> (r < 32)%nat -> in_width 128 v -> okc (with_hi c r v).
Proof. intros. unfold with_hi. rewrite guard_reg_lt by done. apply okc_some. auto with u128. Qed.
Lemma okc_with_k c r v : vcpu c -> (r < 8)%nat -> in_width 64 v -> okc (with_k c r v).
Proof. intros. unfold with_k. rewrite guard_k_lt by done. apply okc_some. auto with u128. Qed.
Lemma okc_with_vec c r v b : vcpu c -> (r < 32)%nat -> lanes_ok v -> okc (with_vec c r v b).
Proof. intros. unfold with_vec. rewrite guard_reg_lt by done. apply okc_some. auto with u128. Qed.
Lemma okc_with_vec_low c r v b : vcpu c -> (r < 32)%nat -> lanes_ok v -> okc (with_vec_low c r v b).
Proof. intros. unfold with_vec_low. rewrite guard_reg_lt by done. apply okc_some. auto with u128. Qed.
Lemma okc_with_masked c r v k e z b : vcpu c -> (r < 32)%nat -> (k < 8)%nat -> okc (with_masked c r v k e z b).
Proof. intros. unfold with_masked. rewrite guard_k_lt, guard_reg_lt by done. apply okc_some. auto with u128. Qed.
Lemma okc_commit c r v wm e z b : vcpu c -> (r < 32)%nat -> wm_ok wm -> lanes_ok v -> okc (commit c r v wm e z b).
Proof. intros. destruct wm; [by apply okc_with_masked|by apply okc_with_vec]. Qed.
Lemma okc_commit_k c r v k e z b : vcpu c -> (r < 32)%nat -> (k < 8)%nat -> lanes_ok v -> okc (commit_k c r v k e z b).
Proof. intros. apply okc_commit; try done. by destruct (k =? 0)%nat. Qed.
Lemma okc_fma_commit c r v p s wm z b : vcpu c -> (r < 32)%nat -> wm_ok wm -> lanes_ok v -> okc (fma_commit c r v p s wm z b).
Proof. intros. destruct wm; [by apply okc_with_masked|by apply okc_with_vec]. Qed.
Lemma okc_put_halves c r v : vcpu c -> (r < 32)%nat -> in_width 128 v.1 -> in_width 128 v.2 -> okc (put_halves c r v).
Proof. intros. apply okc_bind; [by apply okc_with_xmm|]. intros. by apply okc_with_hi. Qed.
Lemma okc_float_unary d s op p sc k : in_width 128 d -> (op = Sqrt \/ p = F32) -> (forall x, in_width 128 x -> okc (k x)) ->
  okc (float_unary d s op p sc ≫= k).
Proof. intros Hd Hop Hk. destruct (float_unary_range d s op p sc Hd Hop) as (r & -> & Hr). by apply Hk. Qed.
Lemma okc_put_mask c k m wm : vcpu c -> (k < 8)%nat -> wm_ok wm -> in_width 64 m -> okc (put_mask c k m wm).
Proof. intros. apply okc_wm; [done..|]. intros. apply okc_with_k; [done..|]. by apply land_l_range. Qed.

(** A register file after a change that must succeed. *)
Ltac okc_step :=
  cbn beta zeta;
  lazymatch goal with
  | |- okc (Some _) => apply okc_some
  | |- okc (xmm_of _ _ ≫= _) => apply okc_xmm; [assumption|lia|intros ? ?]
  | |- okc (hi_of _ _ ≫= _) => apply okc_hi; [assumption|lia|intros ? ?]
  | |- okc (lanes_of _ _ ≫= _) => apply okc_lanes; [assumption|lia|intros ? ?]
  | |- okc (k_of _ _ ≫= _) => apply okc_k; [assumption|lia|intros ? ?]
  | |- okc (kmask_or_ones _ _ ≫= _) => apply okc_wm; [assumption|assumption|intros ? ?]
  | |- okc (lanes_upto _ _ ≫= _) => apply okc_lanes_upto; [|intros ?|intros ? ?]
  | |- okc (per_lane1 _ _ _ ≫= _) => apply okc_lanes_upto; [|intros ?|intros ? ?]
  | |- okc (per_lane2 _ _ _ _ ≫= _) => apply okc_lanes_upto; [|intros ?|intros ? ?]
  | |- okc (blendv_lanes _ _ _ _ _ ≫= _) => apply okc_lanes_upto; [|intros ?|intros ? ?]
  | |- okc (blendi_lanes _ _ _ _ _ ≫= _) => apply okc_lanes_upto; [|intros ?|intros ? ?]
  | |- okc (float_unary _ _ _ _ _ ≫= _) => apply okc_float_unary; [|assumption|intros ? ?]
  | |- okc (with_xmm _ _ _) => apply okc_with_xmm; [assumption|lia|]
  | |- okc (with_hi _ _ _) => apply okc_with_hi; [assumption|lia|]
  | |- okc (with_k _ _ _) => apply okc_with_k; [assumption|lia|]
  | |- okc (with_vec _ _ _ _) => apply okc_with_vec; [assumption|lia|]
  | |- okc (with_vec_low _ _ _ _) => apply okc_with_vec_low; [assumption|lia|]
  | |- okc (with_masked _ _ _ _ _ _ _) => apply okc_with_masked; [assumption|lia|lia]
  | |- okc (commit _ _ _ _ _ _ _) => apply okc_commit; [assumption|lia|assumption|]
  | |- okc (commit_k _ _ _ _ _ _ _) => apply okc_commit_k; [assumption|lia|lia|]
  | |- okc (fma_commit _ _ _ _ _ _ _ _) => apply okc_fma_commit; [assumption|lia|assumption|]
  | |- okc (put_halves _ _ _) => apply okc_put_halves; [assumption|lia|cbn [fst snd]|cbn [fst snd]]
  | |- okc (put_mask _ _ _ _) => apply okc_put_mask; [assumption|lia|assumption|]
  | |- okc (if ?b then _ else _) => destruct b eqn:?
  | |- okc (_ ≫= _) => eapply okc_bind; [|intros ? ?]
  | |- okc (lo2 _ _ _ _ _) => unfold lo2
  | |- okc (hi2 _ _ _ _ _) => unfold hi2
  | |- okc (lo1 _ _ _ _) => unfold lo1
  | |- okc (hi1 _ _ _ _) => unfold hi1
  | |- okc (both2 _ _ _ _ _ _) => unfold both2
  | |- okc (both1 _ _ _ _) => unfold both1
  | |- okc (halves2 _ _ _ _ _ _ _) => unfold halves2
  end.
Ltac okc := repeat okc_step.

(** ** Judgements on the machine *)

(** Everything but RIP and the answers to device accesses. *)
Definition arch (c : CpuState) : CpuState :=
  set_rip (set_pending_mmio (set_pending_mmio_write
    (set_mmio_parts (set_mmio_parts_rip (set_mmio_parts_len c 0) 0) []) false) None) 0.
Definition keeps (s s' : mach) : Prop := arch (m_cpu s) = arch (m_cpu s') /\ m_temps s = m_temps s'.

Definition vmach (n : nat) (s : mach) : Prop := mach_ok n s /\ vec_wf (m_cpu s).
Definition vsafe {A} (n : nat) (x : M A) (Q : A -> Prop) : Prop :=
  forall s, vmach n s -> exists a s', x s = Some (a, s') /\ vmach n s' /\ Q a.
Definition quiet {A} (n : nat) (x : M A) (Q : A -> Prop) : Prop :=
  forall s, vmach n s -> exists a s', x s = Some (a, s') /\ vmach n s' /\ keeps s s' /\ Q a.

Definition trap_of (o : StepResult) : Prop := exists t addr size access value, o = SExit (trap_exit t addr size access value).
(** Leaving the block: a memory trap, RIP on the instruction, the registers untouched. *)
Definition left_clean (cur : Z) (s s' : mach) (o : StepResult) : Prop := trap_of o /\ rip (m_cpu s') = cur /\ keeps s s'.
Definition atomic (n : nat) (cur : Z) (x : Arm) : Prop :=
  forall s, vmach n s -> exists r s', x s = Some (r, s') /\ vmach n s' /\ forall o, r = Some o -> left_clean cur s s' o.

Lemma keeps_refl s : keeps s s.
Proof. done. Qed.
Lemma keeps_trans s1 s2 s3 : keeps s1 s2 -> keeps s2 s3 -> keeps s1 s3.
Proof. intros [H1 H2] [H3 H4]. split; congruence. Qed.
#[global] Instance keeps_preorder : PreOrder keeps.
Proof. split; [exact keeps_refl|exact keeps_trans]. Qed.

Section Rules.
Context (n : nat).

Lemma vmach_cpu s : vmach n s -> vcpu (m_cpu s).
Proof. intros [[] ?]. by split. Qed.
Lemma vmach_put s c : vmach n s -> vcpu c -> vmach n (mkMach c (m_mem s) (m_temps s)).
Proof. intros [[] ?] []. by split. Qed.

Lemma quiet_ret {A} (a : A) (Q : A -> Prop) : Q a -> quiet n (mret a) Q.
Proof. intros Ha s Hs. by exists a, s. Qed.
Lemma quiet_bind {A B} (x : M A) (f : A -> M B) (P : A -> Prop) (Q : B -> Prop) :
  quiet n x P -> (forall a, P a -> quiet n (f a) Q) -> quiet n (x ≫= f) Q.
Proof.
  intros Hx Hf s Hs. destruct (Hx s Hs) as (a & s1 & E & Hs1 & K1 & Ha). destruct (Hf a Ha s1 Hs1) as (b & s2 & E2 & Hs2 & K2 & Hb).
  exists b, s2. split; [unfold mbind, M_bind; by rewrite E|]. split; [done|]. split; [by etransitivity|done].
Qed.
Lemma quiet_weaken {A} (x : M A) (P Q : A -> Prop) : quiet n x P -> (forall a, P a -> Q a) -> quiet n x Q.
Proof. intros Hx H s Hs. destruct (Hx s Hs) as (a & s1 & E & Hs1 & K1 & Ha). exists a, s1. auto. Qed.
Lemma quiet_ask {A} (f : CpuState -> option A) (Q : A -> Prop) :
  (forall c, vcpu c -> exists a, f c = Some a /\ Q a) -> quiet n (ask f) Q.
Proof. intros H s Hs. destruct (H _ (vmach_cpu _ Hs)) as (a & E & Ha). exists a, s. unfold ask. by rewrite E. Qed.
Lemma quiet_read_val v : val_ok n v -> quiet n (read_val v) (in_width 64).
Proof.
  intros Hv s [Hs Hw]. destruct (safe_read_val n v Hv s Hs) as (a & s' & E & Hs' & Ha).
  assert (s' = s) as -> by (unfold read_val in E; repeat case_match; by simplify_eq).
  exists a, s. split; [done|]. split; [by split|]. split; [apply keeps_refl|done].
Qed.
Lemma quiet_get_cpu : quiet n get_cpu vcpu.
Proof. intros s Hs. exists (m_cpu s), s. split; [done|]. split; [done|]. split; [done|by apply vmach_cpu]. Qed.
Lemma quiet_xmm r : (r < 32)%nat -> quiet n (xmmM r) (in_width 128).
Proof. intros. apply quiet_ask. intros c Hc. unfold xmm_of. rewrite guard_reg_lt by done. eexists. split; [done|]. by apply xmm_range. Qed.
Lemma quiet_hi r : (r < 32)%nat -> quiet n (hiM r) (in_width 128).
Proof. intros. apply quiet_ask. intros c Hc. unfold hi_of. rewrite guard_reg_lt by done. eexists. split; [done|]. by apply hi_range. Qed.
Lemma quiet_k r : (r < 8)%nat -> quiet n (kM r) (in_width 64).
Proof. intros. apply quiet_ask. intros c Hc. unfold k_of. rewrite guard_k_lt by done. eexists. split; [done|]. by apply k_range. Qed.
Lemma quiet_lanes r : (r < 32)%nat -> quiet n (lanesM r) lanes_ok.
Proof. intros. apply quiet_ask. intros c Hc. unfold lanes_of. rewrite guard_reg_lt by done. eexists. split; [done|]. by apply vec_lanes_ok. Qed.

(** *** Transfers *)

Definition res_ok {A E} (P : A -> Prop) (r : Result A E) : Prop := match r with Ok a => P a | Err _ => True end.

Lemma quiet_on_mem {A} (f : Memory -> option (A * Memory)) (Q : A -> Prop) :
  (forall m, mem_wf m -> exists a m', f m = Some (a, m') /\ mem_wf m' /\ Q a) -> quiet n (on_mem f) Q.
Proof.
  intros H s [[? Hm ? ?] ?]. destruct (H _ Hm) as (a & m' & E & Hm' & Ha). unfold on_mem. rewrite E.
  eexists _, _. split; [done|]. split; [by split; [split|]|]. by split.
Qed.
Lemma read_ok m a size : valid_elem size -> mem_wf m ->
  exists r m', read m a size = Some (r, m') /\ mem_wf m' /\ res_ok (in_width 64) r.
Proof.
  intros Hs Hm. destruct (read_refines m a size Hm Hs) as (m' & E & Hm' & Hg). rewrite E. eexists _, _.
  split; [done|]. split; [done|]. unfold g_read. repeat case_match; cbn; try done; by apply v_le_range.
Qed.
Lemma write_ok m a v size : valid_elem size -> mem_wf m ->
  exists r m', write m a v size = Some (r, m') /\ mem_wf m'.
Proof. intros Hs Hm. destruct (write_refines m a v size Hm Hs) as (m' & E & Hm' & Hg). rewrite E. eauto. Qed.

Lemma mmio_part_range c ca a v : vcpu c -> mmio_part c ca a = Some v -> in_width 64 v.
Proof.
  intros [_ Hw]. unfold mmio_part. case_match; [done|]. case_match; [|done]. destruct p as [i p]. intros [= <-].
  apply list_find_Some in H0 as (Hl & _ & _). pose proof (vw_parts _ Hw) as Hp. rewrite list.Forall_forall in Hp. apply Hp.
  eapply (subseteq_take _ (mmio_parts c)). by eapply list_elem_of_lookup_2.
Qed.
Lemma record_part_ok c ca a v : vcpu c -> in_width 64 v -> vcpu (record_mmio_part c ca a v) /\ arch (record_mmio_part c ca a v) = arch c.
Proof.
  intros Hc Hv. unfold record_mmio_part.
  set (c0 := if negb (mmio_parts_rip c =? ca) then set_mmio_parts_len (set_mmio_parts_rip c ca) 0 else c).
  assert (H0 : vcpu c0 /\ arch c0 = arch c).
  { unfold c0. case_match; [|done]. split; [|done]. destruct Hc as [[] []]. by split; split. }
  destruct H0 as [H0 E0]. destruct (mmio_part c0 ca a); [done|].
  destruct (mmio_parts c0 !! Z.to_nat (mmio_parts_len c0)) eqn:El; [|done]. split; [|done].
  destruct H0 as [[] []]. apply lookup_lt_Some in El. rewrite wf_parts_len in El.
  split; split; cbn; try done; [by rewrite length_insert|lia|by apply Forall_insert].
Qed.
Lemma clear_pending_ok c : vcpu c -> vcpu (set_pending_mmio c None).
Proof. intros [[] []]. by split; split. Qed.
Lemma clear_pending_write_ok c : vcpu c -> vcpu (set_pending_mmio_write c false).
Proof. intros [[] []]. by split; split. Qed.

Lemma quiet_upd_cpu f (Q : unit -> Prop) : (forall c, vcpu c -> vcpu (f c) /\ arch (f c) = arch c) -> Q tt -> quiet n (upd_cpu f) Q.
Proof.
  intros H HQ s Hs. destruct (H _ (vmach_cpu _ Hs)) as [Hc E]. eexists _, _. split; [done|]. split; [by apply vmach_put|].
  split; [|done]. by split.
Qed.

Lemma quiet_vpart ca a size : valid_elem size -> quiet n (vpart ca a size) (res_ok (in_width 64)).
Proof.
  intros Hs. unfold vpart. eapply quiet_bind; [apply quiet_get_cpu|]. intros c Hc.
  destruct (mmio_part c ca a) as [v|] eqn:E; [by apply quiet_ret; eapply mmio_part_range|].
  eapply quiet_bind; [apply quiet_on_mem; intros; by apply read_ok|]. intros [v|t] Hr; [by apply quiet_ret|].
  destruct t; [by apply quiet_ret|]. destruct (pending_mmio c) as [v|] eqn:Ep; [|by apply quiet_ret].
  eapply quiet_bind with (P := fun _ => True).
  - apply quiet_upd_cpu; [|done]. intros c' Hc'.
    destruct (record_part_ok (set_pending_mmio c' None) ca a (Z.land v (mask size))) as [H1 H2]; [by apply clear_pending_ok|by apply land_mask_range|].
    split; [done|]. by rewrite H2.
  - intros _ _. apply quiet_ret. by apply land_mask_range.
Qed.
Lemma quiet_vpart_store ca a v size : valid_elem size -> quiet n (vpart_store ca a v size) any.
Proof.
  intros Hs. unfold vpart_store. eapply quiet_bind; [apply quiet_get_cpu|]. intros c Hc.
  destruct (mmio_part c ca a) as [p|] eqn:E; [by apply quiet_ret|].
  eapply quiet_bind with (P := fun _ => True).
  { apply quiet_on_mem. intros m Hm. destruct (write_ok m a v size Hs Hm) as (r & m' & E' & Hm'). eauto. }
  intros [x|t] _; [by apply quiet_ret|]. destruct t; [by apply quiet_ret|]. destruct (pending_mmio_write c); [|by apply quiet_ret].
  eapply quiet_bind with (P := fun _ => True); [|intros; by apply quiet_ret].
  apply quiet_upd_cpu; [|done]. intros c' Hc'.
  destruct (record_part_ok (set_pending_mmio_write c' false) ca a 0) as [H1 H2]; [by apply clear_pending_write_ok|by split|].
  split; [done|]. by rewrite H2.
Qed.

Lemma quiet_vthen {A B} (x : M (Result A VecFault)) (k : A -> M (Result B VecFault)) (P : A -> Prop) (Q : B -> Prop) :
  quiet n x (res_ok P) -> (forall a, P a -> quiet n (k a) (res_ok Q)) -> quiet n (vthen x k) (res_ok Q).
Proof. intros Hx Hk. eapply quiet_bind; [exact Hx|]. intros [a|f] Ha; [by apply Hk|by apply quiet_ret]. Qed.
Lemma valid_8 : valid_elem 8.
Proof. unfold valid_elem. lia. Qed.
Lemma valid_4 : valid_elem 4.
Proof. unfold valid_elem. lia. Qed.

Lemma quiet_vload ca a size : quiet n (vload ca a size) (res_ok (in_width 128)).
Proof.
  assert (H1 : forall a sz, valid_elem sz -> quiet n (vpart ca a sz) (res_ok (in_width 128))).
  { intros a' sz Hs. eapply quiet_weaken; [by apply quiet_vpart|]. intros [v|f] Hv; [by apply u128_of_64|done]. }
  unfold vload. case_match; [|case_match; [apply H1, valid_8|apply H1, valid_4]].
  eapply quiet_vthen; [apply H1, valid_8|]. intros lo Hlo. eapply quiet_vthen; [apply H1, valid_8|]. intros hi Hhi.
  apply quiet_ret. cbn. auto with u128.
Qed.
Lemma quiet_vload_loop ca base k i : quiet n (vload_loop ca base k i) (res_ok (fun l => length l = k /\ Forall (in_width 128) l)).
Proof.
  revert i. induction k as [|k IH]; intros i; [by apply quiet_ret|]. cbn [vload_loop].
  eapply quiet_vthen; [apply quiet_vload|]. intros v Hv. eapply quiet_vthen; [apply IH|]. intros vs [Hl Hvs].
  apply quiet_ret. cbn. split; [lia|by constructor].
Qed.
Lemma quiet_vload_lanes ca base w : quiet n (vload_lanes ca base w) (res_ok lanes_ok).
Proof.
  unfold vload_lanes. eapply quiet_vthen; [apply quiet_vload_loop|]. intros vs [Hl Hvs]. apply quiet_ret. cbn.
  apply lanes_app_ok; [rewrite Hl, length_replicate, Nat.add_comm; apply Nat.sub_add, Nat.le_min_l|done|apply Forall_replicate; by split].
Qed.
Lemma quiet_vstore ca a v size : quiet n (vstore ca a v size) any.
Proof.
  unfold vstore. case_match; [|case_match; apply quiet_vpart_store; [apply valid_8|apply valid_4]].
  eapply quiet_weaken; [eapply (quiet_vthen _ _ (fun _ => True) (fun _ => True)); [eapply quiet_weaken; [apply quiet_vpart_store, valid_8|]|]|done].
  - by intros [].
  - intros _ _. eapply quiet_weaken; [apply quiet_vpart_store, valid_8|]. by intros [].
Qed.

(** *** Safe computations *)

Lemma vsafe_bind {A B} (x : M A) (f : A -> M B) (P : A -> Prop) (Q : B -> Prop) :
  vsafe n x P -> (forall a, P a -> vsafe n (f a) Q) -> vsafe n (x ≫= f) Q.
Proof.
  intros Hx Hf s Hs. destruct (Hx s Hs) as (a & s1 & E & Hs1 & Ha). destruct (Hf a Ha s1 Hs1) as (b & s2 & E2 & Hs2 & Hb).
  exists b, s2. split; [unfold mbind, M_bind; by rewrite E|done].
Qed.
Lemma vsafe_ret {A} (a : A) (Q : A -> Prop) : Q a -> vsafe n (mret a) Q.
Proof. intros Ha s Hs. by exists a, s. Qed.
Lemma vsafe_quiet {A} (x : M A) Q : quiet n x Q -> vsafe n x Q.
Proof. intros Hx s Hs. destruct (Hx s Hs) as (a & s1 & E & Hs1 & _ & Ha). by exists a, s1. Qed.
Lemma vsafe_try_cpu f : (forall c, vcpu c -> okc (f c)) -> vsafe n (try_cpu f) any.
Proof.
  intros H s Hs. destruct (H _ (vmach_cpu _ Hs)) as (c' & E & Hc'). unfold try_cpu. rewrite E. eexists _, _. split; [done|].
  split; [by apply vmach_put|done].
Qed.
Lemma vsafe_upd_cpu f : (forall c, vcpu c -> vcpu (f c)) -> vsafe n (upd_cpu f) any.
Proof. intros H s Hs. eexists _, _. split; [done|]. split; [|done]. apply vmach_put; [done|]. by apply H, vmach_cpu. Qed.
Lemma vsafe_upd_flags f : (forall g, flags_wf g -> flags_wf (f g)) -> vsafe n (upd_flags f) any.
Proof. intros H. apply vsafe_upd_cpu. intros c Hc. apply vcpu_flags; [done|]. apply H. apply cpu_flags_wf. apply Hc. Qed.
Lemma vsafe_set_temp t v : (t < n)%nat -> in_width 64 v -> vsafe n (set_temp t v) any.
Proof.
  intros Ht Hv s [Hs Hw]. destruct (safe_set_temp n t v Ht Hv s Hs) as (a & s' & E & Hs' & _). exists a, s'. split; [done|].
  split; [|done]. split; [done|]. unfold set_temp in E. case_match; by simplify_eq.
Qed.
Lemma vsafe_put_xmm r v : (r < 32)%nat -> in_width 128 v -> vsafe n (put_xmm r v) any.
Proof. intros. apply vsafe_try_cpu. intros. by apply okc_with_xmm. Qed.
Lemma vsafe_put_hi r v : (r < 32)%nat -> in_width 128 v -> vsafe n (put_hi r v) any.
Proof. intros. apply vsafe_try_cpu. intros. by apply okc_with_hi. Qed.
Lemma vsafe_put_k r v : (r < 8)%nat -> in_width 64 v -> vsafe n (put_k r v) any.
Proof. intros. apply vsafe_try_cpu. intros. by apply okc_with_k. Qed.
Lemma vsafe_put_vec r v b : (r < 32)%nat -> lanes_ok v -> vsafe n (put_vec r v b) any.
Proof. intros. apply vsafe_try_cpu. intros. by apply okc_with_vec. Qed.

(** *** Atomic arms *)

Lemma atomic_bind {A} cur (x : M A) (f : A -> Arm) (P : A -> Prop) :
  quiet n x P -> (forall a, P a -> atomic n cur (f a)) -> atomic n cur (x ≫= f).
Proof.
  intros Hx Hf s Hs. destruct (Hx s Hs) as (a & s1 & E & Hs1 & K1 & Ha). destruct (Hf a Ha s1 Hs1) as (b & s2 & E2 & Hs2 & Hb).
  exists b, s2. split; [unfold mbind, M_bind; by rewrite E|]. split; [done|]. intros o Ho. destruct (Hb o Ho) as (Ht & Hr & K2).
  split; [done|]. split; [done|]. by etransitivity.
Qed.
Lemma atomic_safe cur x : vsafe n x (fun r => r = None) -> atomic n cur x.
Proof. intros Hx s Hs. destruct (Hx s Hs) as (r & s' & E & Hs' & ->). exists None, s'. split; [done|]. by split. Qed.
Lemma atomic_next cur : atomic n cur next.
Proof. apply atomic_safe, vsafe_ret. done. Qed.
Lemma atomic_reg cur f : (forall c, vcpu c -> okc (f c)) -> atomic n cur (reg_arm f).
Proof. intros H. apply atomic_safe. eapply vsafe_bind; [by apply vsafe_try_cpu|]. intros. by apply vsafe_ret. Qed.
Lemma atomic_trap_out cur t a sz acc v : in_width 64 cur -> atomic n cur (o ← trap_out cur t a sz acc v; leave o).
Proof.
  intros Hc s Hs. eexists _, _. split; [done|]. split; [apply vmach_put; [done|]; apply vcpu_rip; [by apply vmach_cpu|done]|].
  intros o [= <-]. split; [by eexists _, _, _, _, _|]. by split.
Qed.
Lemma atomic_or_trap {A} cur acc (x : M (Result A VecFault)) (k : A -> Arm) (P : A -> Prop) :
  in_width 64 cur -> quiet n x (res_ok P) -> (forall a, P a -> atomic n cur (k a)) -> atomic n cur (or_trap cur acc x k).
Proof.
  intros Hc Hx Hk. eapply atomic_bind; [exact Hx|]. intros [a|f] Ha; [by apply Hk|]. by apply atomic_trap_out.
Qed.
Lemma atomic_loading cur a sz k : in_width 64 cur -> (forall v, in_width 128 v -> atomic n cur (k v)) -> atomic n cur (loading cur a sz k).
Proof. intros Hc Hk. eapply atomic_or_trap; [done|apply quiet_vload|done]. Qed.
Lemma atomic_loading_lanes cur a w k : in_width 64 cur -> (forall v, lanes_ok v -> atomic n cur (k v)) ->
  atomic n cur (loading_lanes cur a w k).
Proof. intros Hc Hk. eapply atomic_or_trap; [done|apply quiet_vload_lanes|done]. Qed.
Lemma atomic_storing cur a v sz k : in_width 64 cur -> atomic n cur k -> atomic n cur (storing cur a v sz k).
Proof.
  intros Hc Hk. eapply (atomic_or_trap _ _ _ _ (fun _ => True)); [done|eapply quiet_weaken; [apply quiet_vstore|by intros []]|done].
Qed.

(** A run on the shared memory that reports its faults. *)
Definition run_ok (cur : Z) (c : CpuState) (r : option (option StrFault * CpuState * Memory)) : Prop :=
  exists f c' m', r = Some (f, c', m') /\ vcpu c' /\ mem_wf m' /\ (f <> None -> rip c' = cur /\ arch c = arch c').
Lemma atomic_run_str cur run : (forall c m, vcpu c -> mem_wf m -> run_ok cur c (run c m)) -> atomic n cur (run_str run).
Proof.
  intros H s Hs. pose proof Hs as [[Hc Hm Hl Ht] Hw]. destruct (H (m_cpu s) (m_mem s)) as (f & c' & m' & E & Hc' & Hm' & Hf); [by split|done|].
  unfold run_str. rewrite E. eexists _, _. split; [done|]. split; [destruct Hc'; by split; [split|]|].
  intros o Ho. destruct f as [f|]; [|done]. injection Ho as <-. destruct (Hf ltac:(done)) as [Hr Ha].
  split; [by eexists _, _, _, _, _|]. by split.
Qed.
End Rules.
