(* ===== verification/VecTotal.v ===== *)
(** * Every vector op is total, and faults atomically

    The operand ranges the lifter guarantees ([vop_wf]) and the theorems over all
    vector ops: none panics and the register file stays well formed; a trap leaves the
    registers as they were.  Two ops with a 32-byte memory operand break the second rule
    and one leaves RIP behind: they are the exceptions of [commits_late], and have
    counterexamples. *)

From S2P Require Import Prelude Features State Ir Aes AesSpec Sha Alu Memory Interp IntegerSpec StringOps HostFloat VecOps VecFloat VecMem VecCpu VecArm VecRange VecOp VecSafe VecAtomic.

(** ** Runs on the shared memory *)

Definition mem_res {A E} (P : A -> Prop) (o : option (Result A E * Memory)) : Prop :=
  exists r m', o = Some (r, m') /\ mem_wf m' /\ res_ok P r.

Lemma sload_ok m a n : valid_elem n -> mem_wf m -> mem_res (in_width 64) (sload m a n).
Proof. intros. by apply read_ok. Qed.

Lemma load_lane16_ok m a : mem_wf m -> mem_res (in_width 128) (load_lane16 m a).
Proof.
  intros Hm. unfold load_lane16. destruct (sload_ok m a 8 valid_8 Hm) as (r & m1 & -> & H1 & Hr). cbn.
  destruct r as [lo|t]; [|by eexists _, _]. destruct (sload_ok m1 (wrapping_add 64 a 8) 8 valid_8 H1) as (r & m2 & E & H2 & Hr2).
  cbn in E. rewrite E. cbn. destruct r as [hi|t]; eexists _, _; (split; [done|]; split; [done|]); cbn; [|done].
  apply u128_lor; [by apply u128_of_64|apply shl128_range].
Qed.
Lemma load_lanes_loop_ok m base k i : mem_wf m ->
  mem_res (fun l => length l = k /\ Forall (in_width 128) l) (load_lanes_loop m base k i).
Proof.
  revert m i. induction k as [|k IH]; intros m i Hm; cbn [load_lanes_loop]; [by eexists _, _|].
  destruct (load_lane16_ok m (wrapping_add 64 base (Z.of_nat i * 16)) Hm) as (r & m1 & -> & H1 & Hr). cbn.
  destruct r as [v|t]; [|by eexists _, _]. destruct (IH m1 (S i) H1) as (r & m2 & -> & H2 & Hr2). cbn.
  destruct r as [vs|t]; eexists _, _; (split; [done|]; split; [done|]); cbn; [|done]. destruct Hr2. split; [lia|by constructor].
Qed.
Lemma load_lanes_ok m base k : (k <= 4)%nat -> mem_wf m -> mem_res lanes_ok (load_lanes m base k).
Proof.
  intros Hk Hm. unfold load_lanes. destruct (load_lanes_loop_ok m base k 0 Hm) as (r & m1 & -> & H1 & Hr). cbn.
  destruct r as [vs|t]; eexists _, _; (split; [done|]; split; [done|]); cbn; [|done]. destruct Hr as [Hl Hf].
  apply lanes_app_ok; [rewrite Hl, length_replicate; lia|done|apply Forall_replicate; by split].
Qed.

Lemma run_fault cur c a wr t v e m : in_width 64 cur -> vcpu c -> mem_wf m -> run_ok cur c (fault_at c cur a wr t v e m).
Proof. intros. eexists _, _, _. split; [done|]. split; [by apply vcpu_rip|]. by split. Qed.
Lemma run_done cur c oc m : okc oc -> mem_wf m -> run_ok cur c (VecMem.done oc m).
Proof. intros (c' & -> & Hc) Hm. eexists _, _, _. split; [done|]. split; [done|]. by split. Qed.
Lemma run_with_operand cur c m base k f : in_width 64 cur -> (k <= 4)%nat -> vcpu c -> mem_wf m ->
  (forall v m, lanes_ok v -> mem_wf m -> run_ok cur c (f v m)) -> run_ok cur c (with_operand c m cur base k f).
Proof.
  intros Hcur Hk Hc Hm Hf. unfold with_operand. destruct (load_lanes_ok m base k Hk Hm) as (r & m1 & -> & H1 & Hr). cbn.
  destruct r as [v|[a t]]; [by apply Hf|by apply run_fault].
Qed.
Lemma slots_le b : (slots b <= 4)%nat.
Proof. unfold slots. lia. Qed.

Section Runs.
Context (cur : Z) (Hcur : in_width 64 cur) (c : CpuState) (Hc : vcpu c) (m : Memory) (Hm : mem_wf m).

Lemma vperm1_run_ok dst idx base e wm z b : (dst < 32)%nat -> (idx < 32)%nat -> wm_ok wm ->
  run_ok cur c (vperm1_run c m dst idx base e wm z b cur).
Proof.
  intros. apply run_with_operand; [done|apply slots_le|done..|]. intros. apply run_done; [|done]. okc. auto with u128.
Qed.
Lemma permute2_run_ok dst idx base e wm z b im : (dst < 32)%nat -> (idx < 32)%nat -> wm_ok wm ->
  run_ok cur c (permute2_run c m dst idx base e wm z b im cur).
Proof.
  intros. apply run_with_operand; [done|apply slots_le|done..|]. intros. apply run_done; [|done].
  unfold index_and_table, lanes_of. rewrite !guard_reg_lt by done. cbn. destruct im; cbn; okc; auto with u128.
Qed.
Lemma fma_mem_run_ok dst x y zr base role p sc np na b al wm z :
  (dst < 32)%nat -> (x < 32)%nat -> (y < 32)%nat -> (zr < 32)%nat -> wm_ok wm ->
  run_ok cur c (fma_mem_run c m dst x y zr base role p sc np na b al cur wm z).
Proof.
  intros Hd Hx Hy Hz Hw. unfold fma_mem_run.
  assert (Hfin : forall memv m, lanes_ok memv -> mem_wf m -> run_ok cur c (VecMem.done
    (xv ← fma_source c role 0 memv x; yv ← fma_source c role 1 memv y; zv ← fma_source c role 2 memv zr; old ← lanes_of c dst;
     fma_commit c dst (fma_lanes xv yv zv old p sc np na b al) p sc wm z b) m)).
  { intros memv m' Hv Hm'. apply run_done; [|done]. unfold fma_source. repeat case_match; cbn; okc; auto with u128. }
  destruct sc; [|apply run_with_operand; [done|pose proof (slots_le b); lia|done..]].
  destruct (sload_ok m base (prec_bytes p)) as (r & m1 & E & H1 & Hr); [destruct p; [apply valid_4|apply valid_8]|done|].
  cbn in E |- *. rewrite E. cbn. destruct r as [v|t]; [|by apply run_fault].
  cbn in Hr. apply Hfin; [|done]. split; [done|]. constructor; [by apply u128_of_64|].
  do 3 (apply list.Forall_cons; split; [by split|]). constructor.
Qed.
Lemma load_chunk_ok base k i m0 : mem_wf m0 -> mem_res (Forall (in_width 8)) (load_chunk m0 base k i).
Proof.
  revert m0 i. induction k as [|k IH]; intros m0 i H0; cbn [load_chunk];
    [eexists _, _; split; [done|]; split; [done|constructor]|].
  destruct (sload_ok m0 (wrapping_add 64 base (Z.of_nat i * 8)) 8 valid_8 H0) as (r & m1 & E & H1 & Hr). cbn in E |- *. rewrite E. cbn.
  destruct r as [v|t]; [|by eexists _, _]. destruct (IH m1 (S i) H1) as (r & m2 & -> & H2 & Hr2). cbn.
  destruct r as [vs|t]; eexists _, _; (split; [done|]; split; [done|]); cbn; [|done].
  apply (Forall_app_2 _ (to_le_bytes 8 v)); [apply to_le_bytes_range|done].
Qed.
Lemma broadcast_lane_run_ok dst base ch e w wm z : (dst < 32)%nat -> wm_ok wm ->
  run_ok cur c (broadcast_lane_mem_run c m dst base ch e w wm z cur).
Proof.
  intros. unfold broadcast_lane_mem_run.
  destruct (load_chunk_ok base (Z.to_nat (div_ceil ch 8)) 0 m Hm) as (r & m1 & -> & H1 & Hr).
  cbn [mbind option_bind]. destruct r as [sb|[a t]]; [|by apply run_fault]. cbn in Hr. apply run_done; [|done]. okc. auto with u128.
Qed.
Lemma masked_load_loop_ok base k e z i k0 l m0 : valid_elem e -> lanes_ok l -> mem_wf m0 ->
  mem_res lanes_ok (masked_load_loop m0 base k e z k0 i l).
Proof.
  intros He. revert m0 i l. induction k0 as [|k0 IH]; intros m0 i l Hl H0; cbn [masked_load_loop]; [by eexists _, _|].
  case_match; [|apply IH; [case_match; auto with u128|done]].
  destruct (sload_ok m0 (wrapping_add 64 base (i * e)) e He H0) as (r & m1 & E & H1 & Hr). cbn in E |- *. rewrite E. cbn.
  destruct r as [v|t]; [|by eexists _, _]. apply IH; auto with u128.
Qed.
Lemma masked_load_run_ok dst base k e z b : (dst < 32)%nat -> valid_elem e -> run_ok cur c (masked_load_run c m dst base k e z b cur).
Proof.
  intros Hd He. unfold masked_load_run, lanes_of. rewrite guard_reg_lt by done. cbn [mbind option_bind].
  destruct (masked_load_loop_ok base k e z 0 (Z.to_nat (b / e)) (vec_lanes c dst) m He (vec_lanes_ok c dst Hc) Hm) as (r & m1 & -> & H1 & Hr).
  cbn [mbind option_bind]. destruct r as [l|[a t]]; [|by apply run_fault]. apply run_done; [|done]. okc. done.
Qed.
Lemma store_loop_ok act val base e k0 i m0 : valid_elem e -> mem_wf m0 ->
  exists r m', store_loop m0 act val base e k0 i = Some (r, m') /\ mem_wf m'.
Proof.
  intros He. revert m0 i. induction k0 as [|k0 IH]; intros m0 i H0; cbn [store_loop]; [by eexists _, _|].
  case_match; [|by apply IH].
  destruct (write_ok m0 (wrapping_add 64 base (i * e)) (val i) e He H0) as (r & m1 & E & H1). cbn in E |- *. rewrite E. cbn.
  destruct r as [v|t]; [by apply IH|by eexists _, _].
Qed.
Lemma store_run_ok act val base e k0 : valid_elem e -> run_ok cur c (store_run c m act val base e k0 cur).
Proof.
  intros He. unfold store_run. destruct (store_loop_ok act val base e (Z.to_nat k0) 0 m He Hm) as (r & m1 & -> & H1). cbn.
  destruct r as [u|[[a t] v]]; [|by apply run_fault]. eexists _, _, _. split; [done|]. by split.
Qed.
Lemma masked_store_run_ok src base k e b : (src < 32)%nat -> valid_elem e -> run_ok cur c (masked_store_run c m src base k e b cur).
Proof. intros. unfold masked_store_run, lanes_of. rewrite guard_reg_lt by done. by apply store_run_ok. Qed.
Lemma narrow_store_run_ok src fr to w base : (src < 32)%nat -> valid_elem to -> run_ok cur c (narrow_store_run c m src fr to w base cur).
Proof. intros. unfold narrow_store_run, lanes_of. rewrite guard_reg_lt by done. by apply store_run_ok. Qed.
End Runs.

(** ** Well-formed operands *)

Definition regs (l : list nat) : Prop := foldr (fun r P => (r < 32)%nat /\ P) True l.
Definition kregs (l : list nat) : Prop := foldr (fun k P => (k < 8)%nat /\ P) True l.
Definition vec_size (size : Z) : Prop := size = 4 \/ size = 8 \/ size = 16.
Definition half_vec (bytes : Z) : Prop := bytes = 16 \/ bytes = 32.
Definition small_elem (lane_ : Z) : Prop := lane_ = 1 \/ lane_ = 2 \/ lane_ = 4.
Definition pack_from (from_elem : Z) : Prop := from_elem = 2 \/ from_elem = 4.
(** The concatenation is read within its buffer. *)
Definition valign_fits (shift elem bytes : Z) : Prop := shift mod (2 * bytes / elem) * elem + bytes <= 128.
Definition lanes_fit (idx num_lanes : Z) : Prop := 0 <= idx /\ 1 <= num_lanes /\ idx * num_lanes + num_lanes <= 4.
(** Reciprocals have no double-precision form. *)
Definition un_ok (op : FloatUnOp) (p : FPrec) : Prop := op = Sqrt \/ p = F32.
(** The VEX broadcasts of a lane take it as one element, and have no mask. *)
Definition chunk_elem (elem : Z) (writemask : option nat) : Prop := valid_elem elem \/ elem = 16 /\ writemask = None.
Definition changes_width (kind : PackedCvtKind) : Prop :=
  match kind with Dq2Pd | Ps2Pd | Pd2Ps | Pd2Dq | Tpd2Dq => True | Dq2Ps | Ps2Dq | Tps2Dq => False end.

(** The operands the lifter produces: registers, masks, temporaries and sizes in range.
    Narrower than the lifter in two places where the code can panic: [valign] reads within
    its buffer, and a horizontal float op with a memory operand is the 16-byte form. *)
Definition vop_wf (n : nat) (op : VecOp) : Prop :=
  match op with
  | VLoad dst addr size => regs [dst] /\ val_ok n addr /\ vec_size size
  | VStore addr src size => regs [src] /\ val_ok n addr /\ vec_size size
  | VMov dst src | VMov256 dst src | VAesImc dst src | VExtract128 dst src _ | VPackedCvt dst src _
  | VPhMinPosUw dst src | VPackedCvt256 dst src _ | VMoveHalf dst src _ _ => regs [dst; src]
  | VFromGpr dst src size => regs [dst] /\ val_ok n src /\ valid_elem size
  | VToGpr dst src size => regs [src] /\ (dst < n)%nat /\ valid_elem size
  | VLogic dst a b _ | VAes dst a b _ | VPMAddWd dst a b | VPackUsWB dst a b | VLogic256 dst a b _
  | VFloatBin dst a b _ _ _ | VFloatBin256 dst a b _ _ => regs [dst; a; b]
  | VPackedBin dst a b lane_ _ | VUnpackLow dst a b lane_ _ | VPackedBin256 dst a b lane_ _
  | VUnpack256 dst a b lane_ _ => regs [dst; a; b] /\ valid_elem lane_
  | VPackedBinM dst addr lane_ _ | VPBlendVM dst addr lane_ => regs [dst] /\ val_ok n addr /\ valid_elem lane_
  | VLogicM dst addr _ | VAesImcM dst addr | VPshufbM dst addr | VFloatBinM dst addr _ _ _ | VPackedCvt256M dst addr _
  | VLoadHalf dst addr _ => regs [dst] /\ val_ok n addr
  | VPackedShift dst a imm lane_ _ _ | VPackedShift256 dst a imm lane_ _ _ =>
      regs [dst; a] /\ in_width 8 imm /\ valid_elem lane_
  | VByteShift dst a shift _ width => regs [dst; a] /\ in_width 8 shift /\ valid_vec width
  | VShuffle32 dst a imm bytes | VShuffle16 dst a imm _ bytes => regs [dst; a] /\ in_width 8 imm /\ valid_vec bytes
  | VBlendW dst a b imm bytes | VDpps dst a b imm bytes | VMpsadbw dst a b imm bytes =>
      regs [dst; a; b] /\ in_width 8 imm /\ valid_vec bytes
  | VBlendD dst a b imm bytes => regs [dst; a; b] /\ in_width 8 imm /\ half_vec bytes
  | VFma dst x y z _ _ _ _ bytes alt_sign writemask _ =>
      regs [dst; x; y; z] /\ valid_vec bytes /\ in_width 8 alt_sign /\ wm_ok writemask
  | VFmaM dst x y z addr mem_role _ _ _ _ bytes alt_sign writemask _ =>
      regs [dst; x; y; z] /\ val_ok n addr /\ in_width 8 mem_role /\ valid_vec bytes /\ in_width 8 alt_sign /\ wm_ok writemask
  | VAesM dst a addr _ | VLogic256M dst a addr _ | VPshufb256M dst a addr | VFloatBin256M dst a addr _ _ =>
      regs [dst; a] /\ val_ok n addr
  | VAesKeygen dst src imm | VInsertPs dst src imm | VPermq dst src imm => regs [dst; src] /\ in_width 8 imm
  | VAesKeygenM dst addr imm | VAlignrM dst addr imm | VInsertPsM dst addr imm | VDppdM dst addr imm =>
      regs [dst] /\ val_ok n addr /\ in_width 8 imm
  | VSha dst a b imm _ | VGfni dst a b imm _ | VPclmul dst a b imm | VShufps dst a b imm | VDp3 dst a b imm _
  | VPerm2i128 dst a b imm | VPalignr256 dst a b imm => regs [dst; a; b] /\ in_width 8 imm
  | VShaM dst a addr imm _ | VGfniM dst a addr imm _ | VPclmulM dst a addr imm | VShufpsM dst a addr imm
  | VInsertPsM3 dst a addr imm | VDp3M dst a addr imm _ => regs [dst; a] /\ val_ok n addr /\ in_width 8 imm
  | VPsign dst a b lane_ bytes => regs [dst; a; b] /\ small_elem lane_ /\ valid_vec bytes
  | VPsignM dst a addr lane_ bytes => regs [dst; a] /\ val_ok n addr /\ small_elem lane_ /\ valid_vec bytes
  | VPackWide dst a b from_elem _ bytes => regs [dst; a; b] /\ pack_from from_elem /\ valid_vec bytes
  | VPackWideM dst a addr from_elem _ => regs [dst; a] /\ val_ok n addr /\ pack_from from_elem
  | VPMadd dst a b _ bytes | VLogicWide dst a b _ bytes | VHFloat dst a b _ _ bytes | VHInt dst a b _ bytes =>
      regs [dst; a; b] /\ valid_vec bytes
  | VPMaddM dst a addr _ bytes | VLogicWideM dst a addr _ bytes | VHIntM dst a addr _ bytes =>
      regs [dst; a] /\ val_ok n addr /\ valid_vec bytes
  | VShuffle32Wide dst a imm bytes writemask _ => regs [dst; a] /\ in_width 8 imm /\ valid_vec bytes /\ wm_ok writemask
  | VPshufb dst a idx | VPshufb256 dst a idx => regs [dst; a; idx]
  | VPshufbWide dst a idx bytes writemask _ => regs [dst; a; idx] /\ valid_vec bytes /\ wm_ok writemask
  | VAlignr dst a src imm | VInsertPs3 dst a src imm => regs [dst; a; src] /\ in_width 8 imm
  | VUnpackLowM dst a addr lane_ _ | VPackedBin256M dst a addr lane_ _ | VUnpack256M dst a addr lane_ _ =>
      regs [dst; a] /\ val_ok n addr /\ valid_elem lane_
  | VInsertW dst src index => regs [dst] /\ val_ok n src /\ in_width 8 index
  | VExtractW dst src index => regs [src] /\ (dst < n)%nat /\ in_width 8 index
  | VExtractLane dst src index size => regs [src] /\ (dst < n)%nat /\ in_width 8 index /\ valid_elem size
  | VInsertLane dst base src index size => regs [dst; base] /\ val_ok n src /\ in_width 8 index /\ valid_elem size
  | VMoveMaskB dst src | VMoveMaskB256 dst src => regs [src] /\ (dst < n)%nat
  | VMoveMaskFp dst src elem bytes => regs [src] /\ (dst < n)%nat /\ valid_elem elem /\ valid_vec bytes
  | VZeroUpper reg => regs [reg]
  | VZeroUpperAll _ => True
  | VLoadWide dst addr bytes => regs [dst] /\ val_ok n addr /\ valid_vec bytes
  | VStoreWide addr src bytes => regs [src] /\ val_ok n addr /\ valid_vec bytes
  | VMovWide dst src bytes => regs [dst; src] /\ valid_vec bytes
  | VMaskMov dst src k elem _ bytes => regs [dst; src] /\ kregs [k] /\ valid_elem elem /\ valid_vec bytes
  | VMaskLoadMem dst addr k elem _ bytes =>
      regs [dst] /\ kregs [k] /\ val_ok n addr /\ valid_elem elem /\ valid_vec bytes
  | VMaskStoreMem src addr k elem bytes =>
      regs [src] /\ kregs [k] /\ val_ok n addr /\ valid_elem elem /\ valid_vec bytes
  | VVecMaskLoadMem dst addr mask_ elem bytes =>
      regs [dst; mask_] /\ val_ok n addr /\ valid_elem elem /\ valid_vec bytes
  | VVecMaskStoreMem src addr mask_ elem bytes =>
      regs [src; mask_] /\ val_ok n addr /\ valid_elem elem /\ valid_vec bytes
  | VPopcnt dst a lane_ bytes => regs [dst; a] /\ valid_elem lane_ /\ valid_vec bytes
  | VPopcntM dst addr lane_ bytes => regs [dst] /\ val_ok n addr /\ valid_elem lane_ /\ valid_vec bytes
  | VInsertLaneWide dst src ins idx num_lanes bytes =>
      regs [dst; src; ins] /\ valid_vec bytes /\ lanes_fit idx num_lanes
  | VExtractLaneWide dst src idx num_lanes => regs [dst; src] /\ lanes_fit idx num_lanes
  | VExtractLaneWideM src addr idx num_lanes => regs [src] /\ val_ok n addr /\ lanes_fit idx num_lanes
  | VPcmpStr a b imm _ | VPcmpStrMask a b imm _ => regs [a; b] /\ in_width 8 imm
  | VPcmpStrM a addr imm _ | VPcmpStrMaskM a addr imm _ => regs [a] /\ val_ok n addr /\ in_width 8 imm
  | VDppsM dst addr imm bytes => regs [dst] /\ val_ok n addr /\ in_width 8 imm /\ valid_vec bytes
  | VAlign dst a b shift elem bytes =>
      regs [dst; a; b] /\ in_width 8 shift /\ valid_elem elem /\ valid_vec bytes /\ valign_fits shift elem bytes
  | VPMovExtend dst src from to _ => regs [dst; src] /\ valid_elem from /\ valid_elem to /\ from < to
  | VPMovExtendM dst addr from to _ => regs [dst] /\ val_ok n addr /\ valid_elem from /\ valid_elem to /\ from < to
  | VPMovExtendWide dst src from to _ dst_width writemask _ =>
      regs [dst; src] /\ valid_elem from /\ valid_elem to /\ valid_vec dst_width /\ wm_ok writemask
  | VPAbs dst src elem dst_width writemask _ =>
      regs [dst; src] /\ valid_elem elem /\ valid_vec dst_width /\ wm_ok writemask
  | VpUnaryLane dst src _ imm elem dst_width writemask _ =>
      regs [dst; src] /\ in_width 8 imm /\ valid_elem elem /\ valid_vec dst_width /\ wm_ok writemask
  | VpBlendm dst a b k elem dst_width _ => regs [dst; a; b] /\ kregs [k] /\ valid_elem elem /\ valid_vec dst_width
  | VShuffLane dst a b imm elem dst_width writemask _ =>
      regs [dst; a; b] /\ in_width 8 imm /\ valid_elem elem /\ valid_vec dst_width /\ wm_ok writemask
  | VpMultishift dst ctrl data dst_width writemask _ =>
      regs [dst; ctrl; data] /\ valid_vec dst_width /\ wm_ok writemask
  | VPBlendV dst src lane_ => regs [dst; src] /\ valid_elem lane_
  | VPBlendVX dst a b mask_ lane_ bytes => regs [dst; a; b; mask_] /\ valid_elem lane_ /\ valid_vec bytes
  | VPBlendVXM dst a addr mask_ lane_ bytes =>
      regs [dst; a; mask_] /\ val_ok n addr /\ valid_elem lane_ /\ valid_vec bytes
  | VBlendI dst a b imm lane_ bytes => regs [dst; a; b] /\ in_width 8 imm /\ valid_elem lane_ /\ half_vec bytes
  | VBlendIM dst a addr imm lane_ bytes =>
      regs [dst; a] /\ val_ok n addr /\ in_width 8 imm /\ valid_elem lane_ /\ half_vec bytes
  | VDppd dst b imm => regs [dst; b] /\ in_width 8 imm
  | VPRound dst a src _ mode _ bytes => regs [dst; a; src] /\ in_width 8 mode /\ valid_vec bytes
  | VPRoundM dst addr _ mode _ bytes => regs [dst] /\ val_ok n addr /\ in_width 8 mode /\ valid_vec bytes
  | VMaskedLogic dst a b _ k elem _ bytes | VMaskedPacked dst a b _ k elem _ bytes =>
      regs [dst; a; b] /\ kregs [k] /\ valid_elem elem /\ valid_vec bytes
  | VMaskedShift dst a imm elem _ _ k _ bytes =>
      regs [dst; a] /\ kregs [k] /\ in_width 8 imm /\ valid_elem elem /\ valid_vec bytes
  | VShiftReg dst a count elem _ _ k _ bytes | VShiftVar dst a count elem _ _ k _ bytes =>
      regs [dst; a; count] /\ kregs [k] /\ valid_elem elem /\ valid_vec bytes
  | VGf2p8 dst a b imm mode k _ bytes =>
      regs [dst; a; b] /\ kregs [k] /\ in_width 8 imm /\ in_width 8 mode /\ valid_vec bytes
  | VGf2p8M dst a addr imm mode k _ bytes =>
      regs [dst; a] /\ kregs [k] /\ val_ok n addr /\ in_width 8 imm /\ in_width 8 mode /\ valid_vec bytes
  | VPTernlog dst b c_ imm bytes => regs [dst; b; c_] /\ in_width 8 imm /\ valid_vec bytes
  | VPTernlogM dst b addr imm bytes => regs [dst; b] /\ val_ok n addr /\ in_width 8 imm /\ valid_vec bytes
  | VPackedWide dst a b lane_ _ bytes => regs [dst; a; b] /\ valid_elem lane_ /\ valid_vec bytes
  | VPackedWideM dst a addr lane_ _ bytes => regs [dst; a] /\ val_ok n addr /\ valid_elem lane_ /\ valid_vec bytes
  | VBroadcast dst src elem _ => regs [dst; src] /\ valid_elem elem
  | VBroadcastM dst addr elem _ => regs [dst] /\ val_ok n addr /\ valid_elem elem
  | VBroadcastGpr dst src elem width => regs [dst] /\ val_ok n src /\ valid_elem elem /\ valid_vec width
  | VBroadcastLane dst src chunk elem dst_width writemask _ =>
      regs [dst; src] /\ 1 <= chunk <= 32 /\ chunk_elem elem writemask /\ valid_vec dst_width /\ wm_ok writemask
  | VBroadcastLaneM dst addr chunk elem dst_width writemask _ =>
      regs [dst] /\ val_ok n addr /\ 1 <= chunk <= 32 /\ chunk_elem elem writemask /\ valid_vec dst_width /\ wm_ok writemask
  | VPCmpToMask k a b elem width pred _ writemask =>
      regs [a; b] /\ kregs [k] /\ valid_elem elem /\ valid_vec width /\ in_width 8 pred /\ wm_ok writemask
  | VPCmpToMaskM k a addr elem width pred _ writemask =>
      regs [a] /\ kregs [k] /\ val_ok n addr /\ valid_elem elem /\ valid_vec width /\ in_width 8 pred /\ wm_ok writemask
  | VPTestToMask k a b elem width _ writemask =>
      regs [a; b] /\ kregs [k] /\ valid_elem elem /\ valid_vec width /\ wm_ok writemask
  | VPTestToMaskM k a addr elem width _ writemask =>
      regs [a] /\ kregs [k] /\ val_ok n addr /\ valid_elem elem /\ valid_vec width /\ wm_ok writemask
  | VKOrTest a b width => kregs [a; b] /\ in_width 8 width
  | VKFromGpr k src width => kregs [k] /\ val_ok n src /\ in_width 8 width
  | VKToGpr dst k width => kregs [k] /\ (dst < n)%nat /\ in_width 8 width
  | VKMovKK dst src width => kregs [dst; src] /\ in_width 8 width
  | VKUnpack dst a b half => kregs [dst; a; b] /\ 0 <= half <= 32
  | VKBinOp dst a b _ width => kregs [dst; a; b] /\ in_width 8 width
  | VKNot dst a width => kregs [dst; a] /\ in_width 8 width
  | VKShift dst a amount width _ => kregs [dst; a] /\ in_width 8 amount /\ in_width 8 width
  | VPmovNarrow dst src from to src_width writemask _ =>
      regs [dst; src] /\ valid_elem from /\ valid_elem to /\ valid_vec src_width /\ wm_ok writemask
  | VPmovNarrowMem src addr from to src_width =>
      regs [src] /\ val_ok n addr /\ valid_elem from /\ valid_elem to /\ valid_vec src_width
  | VPermT2 dst idx tbl elem writemask _ bytes _ =>
      regs [dst; idx; tbl] /\ valid_elem elem /\ wm_ok writemask /\ valid_vec bytes
  | VPermT2M dst idx addr elem writemask _ bytes _ =>
      regs [dst; idx] /\ val_ok n addr /\ valid_elem elem /\ wm_ok writemask /\ valid_vec bytes
  | VPerm1 dst idx src elem bytes writemask _ =>
      regs [dst; idx; src] /\ valid_elem elem /\ valid_vec bytes /\ wm_ok writemask
  | VPerm1M dst idx addr elem bytes writemask _ =>
      regs [dst; idx] /\ val_ok n addr /\ valid_elem elem /\ valid_vec bytes /\ wm_ok writemask
  | VInsert128 dst src ins _ => regs [dst; src; ins]
  | VInsert128M dst src addr _ => regs [dst; src] /\ val_ok n addr
  | VPermd dst ctrl src => regs [dst; ctrl; src]
  | VPermilVar dst src ctrl elem bytes => regs [dst; src; ctrl] /\ valid_elem elem /\ valid_vec bytes
  | VPtest a b _ => regs [a; b]
  | VTestFp a b elem bytes => regs [a; b] /\ valid_elem elem /\ valid_vec bytes
  | VHFloatM dst a addr _ _ bytes => regs [dst; a] /\ val_ok n addr /\ valid_vec bytes /\ bytes = 16
  | VFloatMov dst a src _ => regs [dst; a; src]
  | VFloatCmp a b _ => val_ok n a /\ val_ok n b
  | VFloatCmpMask dst a b _ _ pred | VFloatCmpMask256 dst a b _ pred => regs [dst; a; b] /\ in_width 8 pred
  | VFloatCmpMaskM dst addr _ _ pred => regs [dst] /\ val_ok n addr /\ in_width 8 pred
  | VFloatCmpMask256M dst a addr _ pred => regs [dst; a] /\ val_ok n addr /\ in_width 8 pred
  | VCvtFromInt dst src int_size _ _ => regs [dst] /\ val_ok n src /\ valid_elem int_size
  | VCvtToInt dst src int_size _ _ _ => (dst < n)%nat /\ val_ok n src /\ valid_elem int_size
  | VCvtFloat dst src _ _ => regs [dst] /\ val_ok n src
  | VCvtPh2Ps dst src lanes => regs [dst; src] /\ (lanes = 4 \/ lanes = 8)
  | VCvtPs2Ph dst src lanes rc => regs [dst; src] /\ (lanes = 4 \/ lanes = 8) /\ in_width 8 rc
  | VPackedCvtWide256 dst src kind => regs [dst; src] /\ changes_width kind
  | VFloatUnary dst a src op p _ => regs [dst; a; src] /\ un_ok op p
  | VFloatUnaryM dst a src_addr op p _ => regs [dst; a] /\ val_ok n src_addr /\ un_ok op p
  | VFloatUnary256 dst src op p => regs [dst; src] /\ un_ok op p
  | VFloatUnary256M dst addr op p => regs [dst] /\ val_ok n addr /\ un_ok op p
  | VShufps256 dst a b imm_lo imm_hi => regs [dst; a; b] /\ in_width 8 imm_lo /\ in_width 8 imm_hi
  | VShufps256M dst a addr imm_lo imm_hi => regs [dst; a] /\ val_ok n addr /\ in_width 8 imm_lo /\ in_width 8 imm_hi
  | VStoreHalf addr src _ => regs [src] /\ val_ok n addr
  | Movq2dq dst src_mm => regs [dst] /\ kregs [src_mm]
  | Movdq2q dst_mm src_xmm => regs [src_xmm] /\ kregs [dst_mm]
  end.

(** The op commits part of its result before its last load, or leaves RIP behind. *)
Definition commits_late (op : VecOp) : bool :=
  match op with
  | VDppsM _ _ _ bytes | VPsignM _ _ _ _ bytes => negb (bytes =? 16)
  | VGf2p8M _ _ _ _ _ _ _ _ => true
  | _ => false
  end.

(** ** Arms with loops *)

Section Arms.
Context (n : nat) (cur : Z) (Hcur : in_width 64 cur).

Lemma atomic_store_lanes a l i : atomic n cur (store_lanes cur a l i).
Proof. revert i. induction l as [|v l IH]; intros i; [apply atomic_next|]. apply atomic_storing; [done|apply IH]. Qed.

Lemma quiet_half r l : (r < 32)%nat -> quiet n (ask (fun c => half_of c r l)) (in_width 128).
Proof. intros. unfold half_of. destruct (l =? 0)%nat; [by apply quiet_xmm|by apply quiet_hi]. Qed.

Lemma atomic_collect a ea f k l out fin : (a < 32)%nat -> (forall x y, in_width 128 x -> in_width 128 y -> in_width 128 (f x y)) ->
  Forall (in_width 128) out -> (forall out, Forall (in_width 128) out -> atomic n cur (fin out)) ->
  atomic n cur (collect_halves cur a ea f k l out fin).
Proof.
  intros Ha Hf Ho Hfin. revert l out Ho. induction k as [|k IH]; intros l out Ho; cbn [collect_halves]; [by apply Hfin|].
  eapply atomic_bind; [by apply quiet_half|]. intros x Hx. apply atomic_loading; [done|]. intros v Hv. apply IH.
  apply Forall_app_2; [done|]. constructor; [by apply Hf|constructor].
Qed.
Lemma atomic_commit_halves dst k out : (dst < 32)%nat -> Forall (in_width 128) out -> atomic n cur (commit_halves dst k out).
Proof.
  intros Hd Ho. apply atomic_safe. unfold commit_halves. eapply vsafe_bind; [apply vsafe_put_xmm; [done|by apply Forall_nth_width]|].
  intros. case_match; [|by apply vsafe_ret].
  eapply vsafe_bind; [apply vsafe_put_hi; [done|by apply Forall_nth_width]|]. intros. by apply vsafe_ret.
Qed.

Lemma quiet_probe ea : quiet n (on_mem (fun m => Some (probe_write m ea 16))) any.
Proof.
  apply quiet_on_mem. intros m Hm. destruct (region_at_spec m ea 16 Hm) as (m' & E & Hm' & _); [lia|].
  unfold probe_write. rewrite E. destruct (region_for m' ea 16) as [r|]; [destruct (kind r)|]; eexists _, _; done.
Qed.
Lemma atomic_probe a k i x : atomic n cur x -> atomic n cur (probe_lanes cur a k i x).
Proof.
  intros Hx. revert i. induction k as [|k IH]; intros i; cbn [probe_lanes]; [done|].
  eapply atomic_bind; [apply quiet_probe|]. intros [u|[]] _; try apply IH. by apply atomic_trap_out.
Qed.

Lemma okc_hfloat_loop c dst la lb op p k i : vcpu c -> (dst < 32)%nat -> length la = 4%nat -> length lb = 4%nat -> (k + i <= 4)%nat ->
  okc (hfloat_loop c dst la lb op p k i).
Proof.
  intros Hc Hd Ha Hb. revert c Hc i. induction k as [|k IH]; intros c Hc i Hi; cbn [hfloat_loop]; [by apply okc_some|].
  destruct (lookup_lt_is_Some_2 la i) as [x ->]; [lia|]. destruct (lookup_lt_is_Some_2 lb i) as [y ->]; [lia|]. cbn [mbind option_bind].
  eapply okc_bind; [|intros c' Hc'; apply IH; [done|lia]].
  case_match; [apply okc_with_xmm|apply okc_with_hi]; auto with u128.
Qed.
End Arms.

(** ** All arms *)

(** *** Side conditions *)

Lemma valid_vec_lanes b : valid_vec b -> b / 16 <= 4.
Proof. intros [->|[->| ->]]; vm_compute; discriminate. Qed.
Lemma half_vec_lanes b : half_vec b -> b / 16 <= 4.
Proof. intros [->| ->]; vm_compute; discriminate. Qed.
Lemma u8_nonneg x : in_width 8 x -> 0 <= x.
Proof. by intros []. Qed.
Lemma permq_range lo hi i : in_width 128 (permq_lanes lo hi i).1 /\ in_width 128 (permq_lanes lo hi i).2.
Proof.
  unfold permq_lanes. set (q := [_; _; _; _]).
  assert (H : forall k, in_width 128 (nth k q 0)).
  { intros k. apply u128_of_64. apply Forall_nth_width; [done|]. unfold q.
    do 4 (apply list.Forall_cons; split; [by apply wrap_range|]). constructor. }
  clearbody q. split; cbn [fst snd]; apply u128_lor; auto with u128.
Qed.
Lemma perm2i128_range a b c d s : in_width 128 a -> in_width 128 b -> in_width 128 c -> in_width 128 d ->
  in_width 128 (perm2i128_lane [a; b; c; d] s).
Proof.
  intros. unfold perm2i128_lane. case_match; [auto with u128|]. apply Forall_nth_width; [done|].
  do 4 (apply list.Forall_cons; split; [done|]). constructor.
Qed.
Lemma u64_lor x y : in_width 64 x -> in_width 64 y -> in_width 64 (Z.lor x y).
Proof. by apply in_width_lor. Qed.
Lemma movemask256_range a b : in_width 64 (Z.lor (movemask_b a) (Z.shiftl (movemask_b b) 16)).
Proof.
  pose proof (movemask_b_range a) as Ha. pose proof (movemask_b_range b) as Hb. apply u64_lor; [by eapply in_width_mono; [|exact Ha]|].
  rewrite Z.shiftl_mul_pow2 by lia. unfold in_width in *. lia.
Qed.
Lemma elem16_range v i : in_width 64 (elem_at v 16 0xffff i).
Proof. unfold elem_at. by apply land_r_range. Qed.
Lemma move_mask_elem_range (f : Z -> Z) b e k :
  in_width 64 (foldl (fun m l => move_mask_half (f l) b (Z.to_nat (16 / e)) (l * (16 / e)) m) 0 (zseq 0 k)).
Proof.
  apply (foldl_inv (in_width 64)); [|by split]. intros m l Hm. apply (foldl_inv (in_width 64)); [|done].
  intros. apply u64_lor; [done|]. by apply wrap_range.
Qed.
Lemma kmasked_range x w : in_width 8 w -> in_width 64 (Z.land x (kwidth_mask w)).
Proof. intros H. apply land_r_range; [lia|]. apply kwidth_mask_range. by apply u8_nonneg. Qed.
Lemma kmasked_half x h : 0 <= h <= 32 -> in_width 64 (Z.land x (kwidth_mask h)).
Proof. intros H. apply land_r_range; [lia|]. apply kwidth_mask_range. lia. Qed.
Lemma k_shift_range s a w l : in_width 8 a -> in_width 8 w -> in_width 64 s -> in_width 64 (k_shift s a (kwidth_mask w) l).
Proof.
  intros Ha Hw Hs. unfold k_shift. destruct l; [by apply kmasked_range|]. case_match; [|by split].
  apply in_width_shiftr; [lia|by apply u8_nonneg|done].
Qed.
Lemma test_flags_ok f z k : flags_wf f -> flags_wf (test_flags f z k).
Proof. intros. unfold test_flags. auto 10 with safe. Qed.
Lemma strcmp_flags_ok f a b c d : flags_wf f -> flags_wf (strcmp_flags f a b c d).
Proof. intros. unfold strcmp_flags. auto 10 with safe. Qed.
Lemma prec_bytes_16 p : 0 <= prec_bytes p <= 16.
Proof. destruct p; cbn; lia. Qed.
Lemma cvtph2ps_range v l : in_width 128 (cvtph2ps v l).1 /\ in_width 128 (cvtph2ps v l).2.
Proof. split; apply or_lanes_range. Qed.
Lemma vpcmp_mask_range a b e w p s : in_width 64 (vpcmp_mask a b e w p s).
Proof. apply mask_of_range. Qed.
Lemma vptest_mask_range a b e w s : in_width 64 (vptest_mask a b e w s).
Proof. apply mask_of_range. Qed.
Lemma cvtps2ph_range a b l r : in_width 128 (cvtps2ph a b l r).
Proof. apply or_lanes_range. Qed.
Lemma u128_mask a size : valid_elem size -> in_width 128 (Z.land a (mask size)).
Proof. intros. by apply u128_of_64, land_mask_range. Qed.
Lemma wrap64_range x : in_width 64 (wrap 64 x).
Proof. by apply wrap_range. Qed.
#[export] Hint Resolve valid_vec_lanes half_vec_lanes u8_nonneg perm2i128_range movemask256_range elem16_range u64_lor
  move_mask_elem_range kmasked_range kmasked_half k_shift_range test_flags_ok prec_bytes_16 float_mov_range cvt_to_int_range
  vpcmp_mask_range vptest_mask_range cvtps2ph_range u128_mask wrap64_range land_mask_range : u128.
#[export] Hint Extern 1 (in_width 128 (permq_lanes _ _ _).1) => exact (proj1 (permq_range _ _ _)) : u128.
#[export] Hint Extern 1 (in_width 128 (permq_lanes _ _ _).2) => exact (proj2 (permq_range _ _ _)) : u128.
#[export] Hint Extern 1 (in_width 128 (cvtph2ps _ _).1) => exact (proj1 (cvtph2ps_range _ _)) : u128.
#[export] Hint Extern 1 (in_width 128 (cvtph2ps _ _).2) => exact (proj2 (cvtph2ps_range _ _)) : u128.
#[export] Hint Extern 1 (in_width 128 (permd_lanes _ _ _ _).1) => apply or_lanes_range : u128.
#[export] Hint Extern 1 (in_width 128 (permd_lanes _ _ _ _).2) => apply or_lanes_range : u128.
#[export] Hint Extern 1 (in_width 64 (movemask_b _)) => eapply in_width_mono; [|apply movemask_b_range] : u128.
#[export] Hint Extern 1 (_ <= 4) => lia : u128.
#[export] Hint Extern 1 (0 <= _ <= _) => lia : u128.

Lemma okc_slice x b k K : lanes_ok x -> (b + k <= 4)%nat ->
  (forall l, length l = k -> Forall (in_width 128) l -> okc (K l)) -> okc (lane_slice x b k ≫= K).
Proof.
  intros [Hl Hx] Hb HK. unfold lane_slice. destruct (Nat.leb_spec (b + k) 4); [|lia]. apply HK.
  - rewrite length_take, length_drop. lia.
  - by apply Forall_take, Forall_drop.
Qed.
Lemma okc_valign a b s e by_ K : valign_fits s e by_ -> (forall l, lanes_ok l -> okc (K l)) -> okc (valign_lanes a b s e by_ ≫= K).
Proof.
  intros Hf HK. destruct (valign_lanes a b s e by_) as [l|] eqn:E; [by eapply HK, valign_ok|].
  unfold valign_lanes in E. unfold valign_fits in Hf. apply Z.leb_le in Hf. by rewrite Hf in E.
Qed.
Lemma okc_insert128 c dst lo hi v h : vcpu c -> (dst < 32)%nat -> in_width 128 lo -> in_width 128 hi -> in_width 128 v ->
  okc (insert128 c dst lo hi v h).
Proof. intros. unfold insert128. by apply okc_put_halves; destruct h. Qed.
Lemma okc_pcmpstri c r : vcpu c -> okc (write_pcmpstri c r).
Proof.
  intros [Hc Hw]. destruct r as [[[[ecx cf] zf] sf] of_]. unfold write_pcmpstri.
  destruct (write_gpr_4_ok c 1 ecx Hc) as (c' & E & Hc'). rewrite E. cbn [mbind option_bind]. apply okc_some.
  assert (Hw' : vec_wf c').
  { unfold write_gpr in E. repeat case_match; simplify_eq; destruct Hw; by split. }
  apply vcpu_flags; [by split|]. apply strcmp_flags_ok, cpu_flags_wf. done.
Qed.
Lemma okc_pcmpstrm c m cf zf sf of_ : vcpu c -> in_width 128 m -> okc (write_pcmpstrm c (m, cf, zf, sf, of_)).
Proof.
  intros Hc Hm. unfold write_pcmpstrm. eapply okc_bind; [apply okc_with_xmm; [done|lia|done]|]. intros c' Hc'. apply okc_some.
  apply vcpu_flags; [done|]. apply strcmp_flags_ok, cpu_flags_wf, Hc'.
Qed.
Lemma pcmpstr_mask_range a b l1 l2 imm : in_width 128 (pcmpstr_mask a b l1 l2 imm).1.1.1.1.
Proof.
  unfold pcmpstr_mask, pcmpstr_intres2. cbn zeta. cbn [fst]. destruct (test imm 64); [apply or_lanes_range|].
  apply u128_land_r. by destruct (test imm 1).
Qed.
Lemma okc_pcmpstrm_bv c a bv imm e : vcpu c -> (a < 32)%nat -> okc (r ← pcmpstrm_run_bv c a bv imm e; write_pcmpstrm c r).
Proof.
  intros Hc Ha. unfold pcmpstrm_run_bv, xmm_of. rewrite guard_reg_lt by done. cbn [mbind option_bind].
  destruct (pcmpstr_lengths _ _ _ _ _) as [l1 l2]. cbn [mbind option_bind].
  pose proof (pcmpstr_mask_range (nth a (xmm c) 0) bv l1 l2 imm) as Hr. destruct (pcmpstr_mask _ _ _ _ _) as [[[[m cf] zf] sf] of_].
  by apply okc_pcmpstrm.
Qed.
Lemma okc_pcmpstri_bv c a bv imm e : vcpu c -> (a < 32)%nat -> okc (r ← pcmpstr_run_bv c a bv imm e; write_pcmpstri c r).
Proof.
  intros Hc Ha. unfold pcmpstr_run_bv, xmm_of. rewrite guard_reg_lt by done. cbn [mbind option_bind].
  destruct (pcmpstr_lengths _ _ _ _ _) as [l1 l2]. cbn [mbind option_bind]. by apply okc_pcmpstri.
Qed.
Lemma okc_zero_all c (b : bool) : vcpu c -> vcpu (let c := set_ymm_hi c (zero_first16 0 (ymm_hi c)) in
  let c := set_zmm_hi c (zero_first16 (0, 0) (zmm_hi c)) in if b then set_xmm c (zero_first16 0 (xmm c)) else c).
Proof.
  intros [[] []]. assert (Hl : forall (A : Type) (z : A) (l : list A), length l = 32%nat -> length (zero_first16 z l) = 32%nat).
  { intros A z l H. unfold zero_first16. rewrite length_app, length_replicate, length_drop. lia. }
  assert (Hf : forall (A : Type) (P : A -> Prop) (z : A) (l : list A), P z -> Forall P l -> Forall P (zero_first16 z l)).
  { intros A P z l Hz H. apply Forall_app_2; [by apply Forall_replicate|by apply Forall_drop]. }
  assert (in_width 128 0) by (by split).
  destruct b; split; split; cbn -[zero_first16]; try done; try (by apply Hl); by apply Hf.
Qed.

(** *** Walking down an arm *)

Ltac head_of t := lazymatch t with ?f _ => head_of f | _ => t end.
(** A commit: writes that cannot fail, then [next]. *)
Ltac vcommit :=
  cbn beta zeta;
  lazymatch goal with
  | |- vsafe _ (put_xmm _ _ ≫= _) _ => eapply vsafe_bind; [apply vsafe_put_xmm; [lia|]|intros ? _; vcommit]
  | |- vsafe _ (put_hi _ _ ≫= _) _ => eapply vsafe_bind; [apply vsafe_put_hi; [lia|]|intros ? _; vcommit]
  | |- vsafe _ (put_k _ _ ≫= _) _ => eapply vsafe_bind; [apply vsafe_put_k; [lia|]|intros ? _; vcommit]
  | |- vsafe _ (put_vec _ _ _ ≫= _) _ => eapply vsafe_bind; [apply vsafe_put_vec; [lia|]|intros ? _; vcommit]
  | |- vsafe _ (set_temp _ _ ≫= _) _ => eapply vsafe_bind; [apply vsafe_set_temp; [lia|]|intros ? _; vcommit]
  | |- vsafe _ (upd_flags _ ≫= _) _ => eapply vsafe_bind; [apply vsafe_upd_flags; intros ? ?|intros ? _; vcommit]
  | |- vsafe _ next _ => apply vsafe_ret; reflexivity
  end.
Ltac varm :=
  cbn beta zeta;
  lazymatch goal with
  | |- atomic _ _ next => apply atomic_next
  | |- atomic _ _ (loading _ _ _ _) => apply atomic_loading; [assumption|intros ? ?; varm]
  | |- atomic _ _ (loading_lanes _ _ _ _) => apply atomic_loading_lanes; [assumption|intros ? ?; varm]
  | |- atomic _ _ (storing _ _ _ _ _) => apply atomic_storing; [assumption|varm]
  | |- atomic _ _ (store_lanes _ _ _ _) => apply atomic_store_lanes; assumption
  | |- atomic _ _ (reg_arm _) => apply atomic_reg; intros ? ?; okc
  | |- atomic _ _ (run_str _) => apply atomic_run_str; intros ? ? ? ?
  | |- atomic _ _ (if ?b then _ else _) => destruct b eqn:?; varm
  | |- atomic _ _ (read_val _ ≫= _) => eapply atomic_bind; [apply quiet_read_val; assumption|intros ? ?; varm]
  | |- atomic _ _ (xmmM _ ≫= _) => eapply atomic_bind; [apply quiet_xmm; lia|intros ? ?; varm]
  | |- atomic _ _ (hiM _ ≫= _) => eapply atomic_bind; [apply quiet_hi; lia|intros ? ?; varm]
  | |- atomic _ _ (kM _ ≫= _) => eapply atomic_bind; [apply quiet_k; lia|intros ? ?; varm]
  | |- atomic _ _ (lanesM _ ≫= _) => eapply atomic_bind; [apply quiet_lanes; lia|intros ? ?; varm]
  | |- atomic _ _ ((if ?b then _ else _) ≫= _) => destruct b eqn:?; varm
  | |- atomic _ _ (mret ?x ≫= _) => eapply (atomic_bind _ _ _ _ (fun a => a = x)); [by apply quiet_ret|intros ? ->; varm]
  | |- atomic _ _ (_ ≫= _) => apply atomic_safe; vcommit
  | |- atomic _ _ ?x => let h := head_of x in unfold h; varm
  end.

Section Special.
Context (n : nat) (cur : Z) (Hcur : in_width 64 cur).

Lemma lanes_fit_nat idx k : lanes_fit idx k -> (Z.to_nat idx * Z.to_nat k + Z.to_nat k <= 4)%nat.
Proof. intros (H1 & H2 & H3). nia. Qed.
Lemma exec_v_insert_lane_wide_ok dst src ins idx k b : (dst < 32)%nat -> (src < 32)%nat -> (ins < 32)%nat -> lanes_fit idx k ->
  atomic n cur (exec_v_insert_lane_wide dst src ins idx k b).
Proof.
  intros Hd Hs Hi Hf%lanes_fit_nat. unfold exec_v_insert_lane_wide. varm. apply okc_slice; [done|done|]. intros _ _ _. okc.
  destruct H0 as [Hx Hxf], H1 as [Hy Hyf]. split; [rewrite !length_app, length_drop, !length_take; lia|].
  apply Forall_app_2; [by apply Forall_take|]. apply Forall_app_2; [by apply Forall_take|by apply Forall_drop].
Qed.
Lemma exec_v_extract_lane_wide_ok dst src idx k : (dst < 32)%nat -> (src < 32)%nat -> lanes_fit idx k ->
  atomic n cur (exec_v_extract_lane_wide dst src idx k).
Proof.
  intros Hd Hs Hf%lanes_fit_nat. unfold exec_v_extract_lane_wide. varm. apply okc_slice; [done|done|]. intros l Hl Hlf. okc.
  apply lanes_app_ok; [rewrite length_replicate; lia|done|apply Forall_replicate; by split].
Qed.
Lemma exec_v_extract_lane_wide_m_ok src addr idx k : (src < 32)%nat -> val_ok n addr -> lanes_fit idx k ->
  atomic n cur (exec_v_extract_lane_wide_m cur src addr idx k).
Proof.
  intros Hs Ha Hf%lanes_fit_nat. unfold exec_v_extract_lane_wide_m.
  eapply atomic_bind; [by apply quiet_read_val|]. intros a _. eapply atomic_bind; [by apply quiet_lanes|]. intros l Hl.
  cbn zeta. apply atomic_probe; [done|]. eapply atomic_bind with (P := fun _ => True); [|intros; by apply atomic_store_lanes].
  apply quiet_ask. intros c _. unfold lane_slice. apply Nat.leb_le in Hf as ->. by eexists.
Qed.
Lemma exec_v_pcmp_str_ok a b imm e : (a < 32)%nat -> (b < 32)%nat -> atomic n cur (exec_v_pcmp_str a b imm e).
Proof.
  intros. apply atomic_reg. intros c Hc. unfold pcmpstr_run, xmm_of. rewrite guard_reg_lt by done. by apply okc_pcmpstri_bv.
Qed.
Lemma exec_v_pcmp_str_m_ok a addr imm e : (a < 32)%nat -> val_ok n addr -> atomic n cur (exec_v_pcmp_str_m cur a addr imm e).
Proof.
  intros. eapply atomic_bind; [by apply quiet_read_val|]. intros x _. apply atomic_loading; [done|]. intros v Hv.
  apply atomic_reg. intros c Hc. by apply okc_pcmpstri_bv.
Qed.
Lemma exec_v_pcmp_str_mask_ok a b imm e : (a < 32)%nat -> (b < 32)%nat -> atomic n cur (exec_v_pcmp_str_mask a b imm e).
Proof.
  intros. apply atomic_reg. intros c Hc. unfold pcmpstrm_run, xmm_of. rewrite guard_reg_lt by done. by apply okc_pcmpstrm_bv.
Qed.
Lemma exec_v_pcmp_str_mask_m_ok a addr imm e : (a < 32)%nat -> val_ok n addr -> atomic n cur (exec_v_pcmp_str_mask_m cur a addr imm e).
Proof.
  intros. eapply atomic_bind; [by apply quiet_read_val|]. intros x _. apply atomic_loading; [done|]. intros v Hv.
  apply atomic_reg. intros c Hc. by apply okc_pcmpstrm_bv.
Qed.
(** With one lane the commit follows the only load. *)
Lemma lane_by_lane_one dst a ea f : (dst < 32)%nat -> (a < 32)%nat -> (forall x y, in_width 128 (f x y)) ->
  atomic n cur (lane_by_lane cur dst a ea f 1 0).
Proof.
  intros Hd Ha Hf. cbn [lane_by_lane]. eapply atomic_bind; [by apply quiet_half|]. intros x Hx. apply atomic_loading; [done|].
  intros v Hv. apply atomic_safe. eapply vsafe_bind; [apply vsafe_try_cpu; intros; by apply okc_with_xmm|]. intros. by apply vsafe_ret.
Qed.
Lemma exec_v_psign_m_ok dst a addr l b : (dst < 32)%nat -> (a < 32)%nat -> val_ok n addr -> negb (b =? 16) = false ->
  atomic n cur (exec_v_psign_m cur dst a addr l b).
Proof.
  intros Hd Ha Hv Hb%negb_false_iff%Z.eqb_eq. subst b. eapply atomic_bind; [by apply quiet_read_val|]. intros x _.
  apply lane_by_lane_one; auto with u128.
Qed.
Lemma exec_v_dpps_m_ok dst addr i b : (dst < 32)%nat -> val_ok n addr -> negb (b =? 16) = false ->
  atomic n cur (exec_v_dpps_m cur dst addr i b).
Proof.
  intros Hd Hv Hb%negb_false_iff%Z.eqb_eq. subst b. eapply atomic_bind; [by apply quiet_read_val|]. intros x _.
  apply lane_by_lane_one; auto with u128.
Qed.
Lemma exec_v_p_round_m_ok dst addr p m s b : (dst < 32)%nat -> val_ok n addr -> atomic n cur (exec_v_p_round_m cur dst addr p m s b).
Proof.
  intros Hd Hv. eapply atomic_bind; [by apply quiet_read_val|]. intros x _. destruct s; [varm; auto with u128|].
  apply atomic_collect; [done|done|auto with u128|constructor|]. intros. by apply atomic_commit_halves.
Qed.
Lemma exec_v_h_int_m_ok dst a addr op b : (dst < 32)%nat -> (a < 32)%nat -> val_ok n addr -> atomic n cur (exec_v_h_int_m cur dst a addr op b).
Proof.
  intros Hd Ha Hv. eapply atomic_bind; [by apply quiet_read_val|]. intros x _.
  apply atomic_collect; [done|done|auto with u128|constructor|]. intros. by apply atomic_commit_halves.
Qed.
Lemma to_nat_lanes b : valid_vec b -> (Z.to_nat (b / 16) <= 4)%nat.
Proof. intros [->|[->| ->]]; vm_compute; lia. Qed.
Lemma exec_v_h_float_ok dst a b op p by_ : (dst < 32)%nat -> (a < 32)%nat -> (b < 32)%nat -> valid_vec by_ ->
  atomic n cur (exec_v_h_float dst a b op p by_).
Proof.
  intros Hd Ha Hb Hv%to_nat_lanes. apply atomic_reg. intros c Hc. unfold hfloat_reg. okc.
  apply okc_hfloat_loop; [done|done|apply H|apply H0|lia].
Qed.
Lemma exec_v_h_float_m_ok dst a addr op p : (dst < 32)%nat -> (a < 32)%nat -> val_ok n addr ->
  atomic n cur (exec_v_h_float_m cur dst a addr op p 16).
Proof.
  intros Hd Ha Hv. eapply atomic_bind; [by apply quiet_read_val|]. intros x Hx. change (4 `min` Z.to_nat (16 / 16))%nat with 1%nat.
  cbn [load_each]. eapply atomic_bind with (P := fun _ => True).
  { apply quiet_ask. intros c _. unfold checked_add. destruct Hx. destruct (Z.ltb_spec (x + Z.of_nat 0 * 16) (2 ^ 64)); [by eexists|lia]. }
  intros la _. apply atomic_loading; [done|]. intros v Hv'. apply atomic_reg. intros c Hc. unfold hfloat_mem. okc.
  apply okc_hfloat_loop; [done|done|apply H|done|vm_compute; lia].
Qed.
Lemma okc_broadcast_to c dst v w : vcpu c -> (dst < 32)%nat -> in_width 128 v -> okc (broadcast_to c dst v w).
Proof. intros. unfold broadcast_to. okc; auto with u128. Qed.
Lemma exec_v_broadcast_m_ok dst addr e w : (dst < 32)%nat -> val_ok n addr -> valid_elem e -> atomic n cur (exec_v_broadcast_m cur dst addr e w).
Proof.
  intros Hd Hv He. eapply atomic_bind; [by apply quiet_read_val|]. intros x _.
  eapply atomic_bind; [apply quiet_on_mem; intros; by apply read_ok|]. intros [v|t] _; [|by apply atomic_trap_out].
  apply atomic_reg. intros. apply okc_broadcast_to; auto with u128.
Qed.
Lemma exec_v_float_cmp_ok a b p : val_ok n a -> val_ok n b -> atomic n cur (exec_v_float_cmp a b p).
Proof.
  intros Ha Hb. unfold exec_v_float_cmp. eapply atomic_bind; [by apply quiet_read_val|]. intros x _.
  eapply atomic_bind; [by apply quiet_read_val|]. intros y _. destruct (float_compare x y p) as [[zf pf] cf]. varm.
  auto 10 with safe.
Qed.
Lemma exec_v_float_unary256_m_ok dst addr op p : (dst < 32)%nat -> val_ok n addr -> un_ok op p ->
  atomic n cur (exec_v_float_unary256_m cur dst addr op p).
Proof.
  intros Hd Ha Hop. assert (H : forall s, quiet n (ask (fun _ => float_unary 0 s op p false)) (in_width 128)).
  { intros s. apply quiet_ask. intros. apply float_unary_range; [by split|done]. }
  eapply atomic_bind; [by apply quiet_read_val|]. intros x _. apply atomic_loading; [done|]. intros v Hv.
  eapply atomic_bind; [apply H|]. intros r Hr. apply atomic_loading; [done|]. intros w Hw.
  eapply atomic_bind; [apply H|]. intros r' Hr'. varm; done.
Qed.
Lemma exec_v_packed_cvt_wide256_ok dst src k : (dst < 32)%nat -> (src < 32)%nat -> changes_width k ->
  atomic n cur (exec_v_packed_cvt_wide256 dst src k).
Proof.
  intros Hd Hs Hk. unfold exec_v_packed_cvt_wide256. apply atomic_reg. intros c Hc. do 2 okc_step.
  destruct k; try done; cbn [packed_cvt_wide mbind option_bind]; okc; auto with u128.
Qed.
Lemma exec_v_extract128_ok dst src h : (dst < 32)%nat -> (src < 32)%nat -> atomic n cur (exec_v_extract128 dst src h).
Proof. intros. apply atomic_reg. intros c Hc. destruct h; okc; auto with u128. Qed.
Lemma exec_v_zero_upper_all_ok b : atomic n cur (exec_v_zero_upper_all b).
Proof.
  apply atomic_safe. eapply vsafe_bind; [apply vsafe_upd_cpu; intros; by apply okc_zero_all|]. intros. by apply vsafe_ret.
Qed.
Lemma exec_v_zero_upper_ok r : (r < 32)%nat -> atomic n cur (exec_v_zero_upper r).
Proof. intros. apply atomic_reg. intros c Hc. okc; [auto with u128|]. apply vcpu_zmm; [done|by split|by split]. Qed.
Lemma exec_movq2dq_ok dst mm : (dst < 32)%nat -> (mm < 8)%nat -> atomic n cur (reg_arm (fun c => exec_movq2dq c dst mm)).
Proof.
  intros Hd Hm. apply atomic_reg. intros c Hc. unfold exec_movq2dq. pose proof (vw_flen _ (proj2 Hc)) as Hl.
  destruct (lookup_lt_is_Some_2 (fpr c) mm) as [s E]; [lia|]. rewrite E. cbn [mbind option_bind].
  pose proof (vw_fpr _ (proj2 Hc)) as Hf. eapply Forall_lookup_1 in Hf as [Hs Hsf]; [|exact E].
  okc. apply bytes_range; [by apply Forall_take|]. rewrite length_take. lia.
Qed.
Lemma exec_movdq2q_ok mm src : (src < 32)%nat -> (mm < 8)%nat -> atomic n cur (reg_arm (fun c => exec_movdq2q c mm src)).
Proof.
  intros Hd Hm. apply atomic_reg. intros c Hc. unfold exec_movdq2q. okc_step. pose proof (vw_flen _ (proj2 Hc)) as Hl.
  destruct (lookup_lt_is_Some_2 (fpr c) mm) as [s E]; [lia|]. rewrite E. cbn [mbind option_bind]. apply okc_some.
  destruct Hc as [[] []]. split; split; cbn -[to_le_bytes]; try done; [by rewrite length_insert|].
  apply Forall_insert; [done|]. split; [by rewrite length_app, length_to_le_bytes|].
  apply Forall_app_2; [apply to_le_bytes_range|]. constructor; [by split|]. constructor; [by split|constructor].
Qed.
Lemma index_and_table_ok c dst idx im k : vcpu c -> (dst < 32)%nat -> (idx < 32)%nat ->
  (forall p, okc (k p)) -> okc (index_and_table c dst idx im ≫= k).
Proof. intros. unfold index_and_table, lanes_of. rewrite !guard_reg_lt by done. cbn. destruct im; by cbn. Qed.
End Special.

Create HintDb varms.
#[export] Hint Constants Opaque : varms.
#[export] Hint Resolve exec_v_insert_lane_wide_ok exec_v_extract_lane_wide_ok exec_v_extract_lane_wide_m_ok exec_v_pcmp_str_ok
  exec_v_pcmp_str_m_ok exec_v_pcmp_str_mask_ok exec_v_pcmp_str_mask_m_ok exec_v_psign_m_ok exec_v_dpps_m_ok exec_v_p_round_m_ok
  exec_v_h_int_m_ok exec_v_h_float_ok exec_v_broadcast_m_ok exec_v_float_cmp_ok exec_v_float_unary256_m_ok
  exec_v_packed_cvt_wide256_ok exec_v_extract128_ok exec_v_zero_upper_all_ok exec_v_zero_upper_ok exec_movq2dq_ok exec_movdq2q_ok : varms.
#[export] Hint Resolve vperm1_run_ok permute2_run_ok fma_mem_run_ok broadcast_lane_run_ok masked_load_run_ok masked_store_run_ok
  narrow_store_run_ok okc_broadcast_to : varms.

(** The remaining register forms. *)
Ltac okc_all := okc; lazymatch goal with
  | |- okc (index_and_table _ _ _ _ ≫= _) => apply index_and_table_ok; [assumption|lia|lia|intros [? ?]; okc_all]
  | |- okc (valign_lanes _ _ _ _ _ ≫= _) => apply okc_valign; [assumption|intros ? ?; okc_all]
  | |- okc (insert128 _ _ _ _ _ _) => apply okc_insert128; [assumption|lia|assumption..]
  | |- okc (_ ≫= _) => idtac
  | |- okc ?x => let h := head_of x in unfold h; okc_all
  | |- _ => idtac
  end.

Lemma exec_vec_atomic n cur op : in_width 64 cur -> vop_wf n op -> commits_late op = false -> atomic n cur (exec_vec cur op).
Proof.
  intros Hcur Hop Hl. unfold exec_vec.
  destruct op; cbn [omap list_omap id head commits_late vec_arm_1 vec_arm_2 vec_arm_3 vec_arm_4 vec_arm_5 vec_arm_6 vec_arm_7
    vec_arm_8 vec_arm_9 vec_arm_10 vec_arm_11 vec_arm_12 vec_arm_13 vec_arm_14] in *;
    cbn [vop_wf regs kregs foldr] in Hop; repeat match goal with H : _ /\ _ |- _ => destruct H end.
  all: try discriminate.
  all: try solve [eauto with varms].
  all: try (match goal with |- atomic _ _ (exec_v_h_float_m _ _ _ _ _ _ _) => subst; by apply exec_v_h_float_m_ok end).
  all: varm; okc_all.
  all: first [solve [eauto 6 with u128]|solve [eauto with varms]].
Qed.

(** *** The exceptions keep the invariant *)

Lemma atomic_vsafe n cur x : atomic n cur x -> vsafe n x any.
Proof. intros H s Hs. destruct (H s Hs) as (r & s' & E & Hs' & _). by exists r, s'. Qed.
Lemma vsafe_or_trap {A} n cur acc (x : M (Result A VecFault)) (k : A -> Arm) (P : A -> Prop) :
  in_width 64 cur -> quiet n x (res_ok P) -> (forall a, P a -> vsafe n (k a) any) -> vsafe n (or_trap cur acc x k) any.
Proof.
  intros Hc Hx Hk. eapply vsafe_bind; [by apply vsafe_quiet|]. intros [a|f] Ha; [by apply Hk|].
  by eapply atomic_vsafe, atomic_trap_out.
Qed.
Lemma vsafe_lane_by_lane n cur dst a ea f k l : in_width 64 cur -> (dst < 32)%nat -> (a < 32)%nat ->
  (forall x y, in_width 128 (f x y)) -> vsafe n (lane_by_lane cur dst a ea f k l) any.
Proof.
  intros Hc Hd Ha Hf. revert l. induction k as [|k IH]; intros l; cbn [lane_by_lane]; [by apply vsafe_ret|].
  eapply vsafe_bind; [by apply vsafe_quiet, quiet_half|]. intros x Hx. eapply vsafe_or_trap; [done|apply quiet_vload|]. intros v Hv.
  eapply vsafe_bind; [apply vsafe_try_cpu|intros; apply IH].
  intros c Hcp. unfold with_half. destruct (l =? 0)%nat; [by apply okc_with_xmm|by apply okc_with_hi].
Qed.
Lemma gf2p8_loop_ok op al m addr imm k i : mem_wf m ->
  mem_res (fun l => length l = k /\ Forall (in_width 128) l) (gf2p8_loop op al m addr imm k i).
Proof.
  revert m i. induction k as [|k IH]; intros m i Hm; cbn [gf2p8_loop]; [by eexists _, _|].
  destruct (load_lane16_ok m (wrapping_add 64 addr (Z.of_nat i * 16)) Hm) as (r & m1 & -> & H1 & Hr). cbn [mbind option_bind].
  destruct r as [v|t]; [|by eexists _, _]. destruct (IH m1 (S i) H1) as (r & m2 & -> & H2 & Hr2). cbn [mbind option_bind].
  destruct r as [vs|t]; eexists _, _; (split; [done|]; split; [done|]); cbn [res_ok]; [|done].
  destruct Hr2. split; [cbn; lia|constructor; [apply GfniOp_range|done]].
Qed.
Lemma vsafe_gf2p8_m n dst a addr imm mode k z b : (dst < 32)%nat -> (a < 32)%nat -> (k < 8)%nat -> val_ok n addr ->
  vsafe n (exec_v_gf2p8_m dst a addr imm mode k z b) any.
Proof.
  intros Hd Ha Hk Hv. eapply vsafe_bind; [by apply vsafe_quiet, quiet_read_val|]. intros ea _ s Hs.
  pose proof Hs as [[Hc Hm Hl Ht] Hw]. unfold run_str, gf2p8_mem_run, lanes_of. rewrite guard_reg_lt by done. cbn [mbind option_bind].
  destruct (gf2p8_loop_ok (GfniOp_from_u8 mode) (vec_lanes (m_cpu s) a) (m_mem s) ea imm (slots b) 0 Hm) as (r & m1 & -> & H1 & Hr).
  cbn [mbind option_bind]. destruct r as [vs|[ad t]].
  - destruct (okc_commit_k (m_cpu s) dst (vs ++ replicate (4 - slots b) 0) k 1 z b) as (c' & E & Hc'); [by split|done|done| |].
    { destruct Hr. apply lanes_app_ok; [rewrite length_replicate; pose proof (slots_le b); lia|done|apply Forall_replicate; by split]. }
    unfold VecMem.done. rewrite E. eexists _, _. split; [done|]. split; [|done]. destruct Hc'. by split; [split|].
  - eexists _, _. split; [done|]. split; [|done]. by split; [split|].
Qed.

Lemma exec_vec_safe n cur op : in_width 64 cur -> vop_wf n op -> vsafe n (exec_vec cur op) any.
Proof.
  intros Hcur Hop. destruct (commits_late op) eqn:El; [|by eapply atomic_vsafe, exec_vec_atomic].
  destruct op; try discriminate El; cbn [vop_wf regs kregs foldr] in Hop; repeat match goal with H : _ /\ _ |- _ => destruct H end.
  - eapply vsafe_bind; [by apply vsafe_quiet, quiet_read_val|]. intros. apply vsafe_lane_by_lane; auto with u128.
  - eapply vsafe_bind; [by apply vsafe_quiet, quiet_read_val|]. intros. apply vsafe_lane_by_lane; auto with u128.
  - by apply vsafe_gf2p8_m.
Qed.

(** ** The theorems *)

(** C4: every vector op of the IR, with operands in the ranges the lifter produces (two
    immediates and operand sizes that do panic are excluded by [vop_wf]), runs to a result
    on every well-formed machine: no arm panics or reads out of bounds, and afterwards the
    vector lanes are 128-bit, the mask registers 64-bit and all other registers, the
    memory and the temporaries within their types. *)
Theorem vector_op_total (n : nat) (cur : Z) (op : VecOp) (s : mach) : in_width 64 cur -> vop_wf n op -> vmach n s ->
  exists r s', exec_vec cur op s = Some (r, s') /\ vmach n s'.
Proof. intros Hc Ho Hs. destruct (exec_vec_safe n cur op Hc Ho s Hs) as (r & s' & E & Hs' & _). eauto. Qed.

(** C10: fault atomicity.  When a vector op leaves the block it is with a memory trap, with
    RIP on the instruction, and every architectural register (general, vector, mask, x87,
    flags) and temporary as before it: the instruction can be restarted.  Excluded are the
    ops that commit a half before their last load, and the memory form of the GFNI ops,
    which leaves RIP behind: they do break the rule. *)
Theorem vector_fault_atomic (n : nat) (cur : Z) (op : VecOp) (s s' : mach) (o : StepResult) :
  in_width 64 cur -> vop_wf n op -> commits_late op = false -> vmach n s ->
  exec_vec cur op s = Some (Some o, s') -> trap_of o /\ rip (m_cpu s') = cur /\ keeps s s'.
Proof.
  intros Hc Ho Hl Hs E. destruct (exec_vec_atomic n cur op Hc Ho Hl s Hs) as (r & s1 & E1 & _ & H1).
  rewrite E in E1. injection E1 as <- <-. by apply H1.
Qed.

(** ** On concrete machines *)

Lemma default_vec_wf : vec_wf default_cpu.
Proof.
  assert (forall w, 0 <= w -> in_width w 0) as Z0 by (intros; split; [lia|by apply pow2_pos]).
  split; cbn [default_cpu xmm ymm_hi zmm_hi kmask mmio_parts fpr fpu_env_tail]; try reflexivity; try apply Forall_replicate.
  all: try by apply Z0.
  all: try by (split; vm_compute).
  all: try by (split; apply Z0).
  all: split; [done|by apply Forall_replicate, Z0].
Qed.
Lemma ex_vmach : vmach 3 ex_mach.
Proof. split; [apply ex_mach_ok|apply default_vec_wf]. Qed.

Lemma vector_op_total_witness : exists r s',
  exec_vec 0x1000 (VPackedWideM 3 1 (TempV 1) 4 PAdd 64) ex_mach = Some (r, s') /\ vmach 3 s'.
Proof.
  apply (vector_op_total 3 0x1000 (VPackedWideM 3 1 (TempV 1) 4 PAdd 64) ex_mach); [split; lia| |apply ex_vmach].
  cbn. unfold valid_elem, valid_vec. lia.
Defined.

(** The first half is the last of the ROM, the second is unmapped. *)
Lemma vector_fault_atomic_witness : exists s',
  exec_vec 0x1000 (VLogic256M 3 1 (Imm 5984) VXor) ex_mach = Some (Some (SExit (UnmappedMemory 6000 Read)), s') /\
  rip (m_cpu s') = 0x1000 /\ keeps ex_mach s'.
Proof.
  destruct (exec_vec 0x1000 (VLogic256M 3 1 (Imm 5984) VXor) ex_mach) as [[[o|] s']|] eqn:E; vm_compute in E; try discriminate E.
  assert (o = SExit (UnmappedMemory 6000 Read)) as -> by congruence.
  exists s'. split; [done|].
  apply (vector_fault_atomic 3 0x1000 (VLogic256M 3 1 (Imm 5984) VXor) ex_mach s' (SExit (UnmappedMemory 6000 Read)));
    [split; lia| |reflexivity|apply ex_vmach|vm_compute; exact E].
  cbn. split; [lia|]. split; lia.
Defined.
