(* ===== verification/VecLane.v ===== *)
(** * What the packed operations compute, element by element

    A lane loop ([or_lanes]) is the vector of its elements, so a packed operation is
    the arithmetic of its elements: sums and products modulo the element, comparisons
    as masks, saturation, averages, shifts by any count.  Also the three-input logic
    by its truth table, [pshufb], and the conversions of half precision. *)

From Stdlib Require Import List.
From S2P Require Import Prelude Features State Ir HostFloat Alu Memory Interp VecOps VecFloat VecMem VecCpu VecArm VecOp VecRange VecSafe.

(** ** Elements *)

(** Element [i] of [bits] bits. *)
Definition velem (bits x i : Z) : Z := wrap bits (Z.shiftr x (i * bits)).

Lemma velem_range bits x i : 0 <= bits -> in_width bits (velem bits x i).
Proof. intros. by apply wrap_range. Qed.

Lemma lane_mask_is_ones lane : 0 <= lane <= 16 -> lane_mask lane = Z.ones (lane * 8).
Proof.
  intros H. unfold lane_mask. rewrite Z.ones_equiv. destruct (Z.leb_spec 16 lane).
  - by replace lane with 16 by lia.
  - rewrite Z.shiftl_1_l. lia.
Qed.
Lemma land_lane_mask x lane : 0 <= lane <= 16 -> Z.land x (lane_mask lane) = wrap (lane * 8) x.
Proof. intros. rewrite lane_mask_is_ones, wrap_ones by lia. done. Qed.
Lemma elem_at_velem x lane i : 0 <= lane <= 16 -> elem_at x (lane * 8) (lane_mask lane) i = velem (lane * 8) x i.
Proof. intros. unfold elem_at. by rewrite land_lane_mask. Qed.

Lemma or_lanes_snoc n bits f : or_lanes (S n) bits f = Z.lor (or_lanes n bits f) (shl128 (f (Z.of_nat n)) (Z.of_nat n * bits)).
Proof. unfold or_lanes. by rewrite zseq_snoc, foldl_app. Qed.

Lemma or_lanes_ext n bits f g : (forall i, f i = g i) -> or_lanes n bits f = or_lanes n bits g.
Proof. intros H. apply foldl_ext_in. intros. by rewrite H. Qed.

Lemma or_lanes_bound n bits f : 0 <= bits -> Z.of_nat n * bits <= 128 -> (forall i, 0 <= i < Z.of_nat n -> in_width bits (f i)) ->
  in_width (Z.of_nat n * bits) (or_lanes n bits f).
Proof.
  intros Hb. induction n as [|n IH]; intros Hn Hf; [by split|]. rewrite or_lanes_snoc. apply in_width_lor; [lia| |].
  - apply (in_width_mono (Z.of_nat n * bits)); [lia|]. apply IH; [lia|]. intros. apply Hf. lia.
  - unfold shl128. specialize (Hf (Z.of_nat n) ltac:(lia)). apply in_width_bits; [lia|by apply wrap_range|].
    intros j Hj. rewrite wrap_testbit, Z.shiftl_spec by lia. rewrite (in_width_high bits (f (Z.of_nat n))) by (done || lia).
    apply andb_false_r.
Qed.

Lemma or_lanes_elem n bits f i : 0 < bits -> Z.of_nat n * bits <= 128 ->
  (forall i, 0 <= i < Z.of_nat n -> in_width bits (f i)) -> 0 <= i < Z.of_nat n -> velem bits (or_lanes n bits f) i = f i.
Proof.
  intros Hb. induction n as [|n IH]; intros Hn Hf Hi; [lia|].
  pose proof (or_lanes_bound n bits f ltac:(lia) ltac:(lia) ltac:(intros; apply Hf; lia)) as Hlow.
  rewrite or_lanes_snoc. apply Z.bits_inj'. intros j Hj. unfold velem.
  rewrite wrap_testbit, Z.shiftr_spec, Z.lor_spec by lia. unfold shl128. rewrite wrap_testbit, Z.shiftl_spec by lia.
  destruct (Z.ltb_spec j bits) as [Hjb|Hjb]; cbn [andb]; [|by rewrite (in_width_high bits (f i)) by (auto || lia)].
  destruct (Z.eq_dec i (Z.of_nat n)) as [->|Hin].
  - rewrite (in_width_high _ _ (j + Z.of_nat n * bits) Hlow) by lia. cbn [orb].
    rewrite (proj2 (Z.ltb_lt _ _)) by lia. cbn [andb]. f_equal. lia.
  - rewrite (Z.testbit_neg_r (f (Z.of_nat n))), andb_false_r, orb_false_r by nia.
    rewrite <- (IH ltac:(lia) ltac:(intros; apply Hf; lia) ltac:(lia)). unfold velem.
    rewrite wrap_testbit, Z.shiftr_spec, (proj2 (Z.ltb_lt _ _)) by lia. done.
Qed.

Lemma lane_count_bits lane : valid_elem lane -> Z.of_nat (Z.to_nat (16 / lane)) * (lane * 8) = 128.
Proof. by intros [->|[->|[->| ->]]]. Qed.

Lemma packed_elems lane f i : valid_elem lane -> (forall i, in_width (lane * 8) (f i)) -> 0 <= i < 16 / lane ->
  velem (lane * 8) (or_lanes (Z.to_nat (16 / lane)) (lane * 8) f) i = f i.
Proof.
  intros Hl Hf Hi. pose proof (lane_count_bits lane Hl). assert (0 < lane) by (unfold valid_elem in Hl; lia).
  apply or_lanes_elem; [lia|lia|auto|lia].
Qed.

(** ** Arithmetic of an element *)

(** The reference: what the instruction computes on elements of [bits] bits. *)
Definition packed_spec (op : PackedBinOp) (bits x y : Z) : Z :=
  let sx := to_signed bits x in
  let sy := to_signed bits y in
  let all (b : bool) := if b then 2 ^ bits - 1 else 0 in
  match op with
  | PAdd => wrap bits (x + y)
  | PSub => wrap bits (x - y)
  | CmpEq => all (x =? y)
  | CmpGt => all (sy <? sx)
  | MulLo16 | MulLo32 | MulLo64 => wrap bits (x * y)
  | MulHiU16 => x * y / 2 ^ bits
  | MulHiS16 => wrap bits (sx * sy / 2 ^ bits)
  | MulU32 => wrap 32 x * wrap 32 y
  | MulS32 => wrap 64 (to_signed 32 x * to_signed 32 y)
  | MinU => Z.min x y
  | MaxU => Z.max x y
  | MinS => wrap bits (Z.min sx sy)
  | MaxS => wrap bits (Z.max sx sy)
  | AddSatS => wrap bits (Z.max (- 2 ^ (bits - 1)) (Z.min (2 ^ (bits - 1) - 1) (sx + sy)))
  | AddSatU => Z.min (2 ^ bits - 1) (x + y)
  | SubSatS => wrap bits (Z.max (- 2 ^ (bits - 1)) (Z.min (2 ^ (bits - 1) - 1) (sx - sy)))
  | SubSatU => Z.max 0 (x - y)
  | AvgU => (x + y + 1) / 2
  | MulHiRoundedS16 => wrap 16 ((sx * sy / 2 ^ 14 + 1) / 2)
  end.

(** The element size an instruction has: the products have one, the others all four. *)
Definition packed_lane (op : PackedBinOp) (lane : Z) : Prop :=
  match op with
  | MulLo16 | MulHiU16 | MulHiS16 | MulHiRoundedS16 => lane = 2
  | MulLo32 => lane = 4
  | MulLo64 | MulU32 | MulS32 => lane = 8
  | _ => valid_elem lane
  end.
Lemma packed_lane_elem op lane : packed_lane op lane -> valid_elem lane.
Proof. unfold packed_lane, valid_elem. destruct op; lia. Qed.

Lemma clamp_minmax x lo hi : lo <= hi -> clamp x lo hi = Z.max lo (Z.min hi x).
Proof. intros. unfold clamp. destruct (Z.ltb_spec x lo); [lia|]. destruct (Z.ltb_spec hi x); lia. Qed.

Section Elem.
Context (lane : Z) (Hl : valid_elem lane).
Notation bits := (lane * 8).

Lemma bits_bounds : 8 <= bits <= 64.
Proof. unfold valid_elem in Hl. lia. Qed.
Lemma sign_extend_elem x : sign_extend_128 x bits = to_signed bits x.
Proof. pose proof bits_bounds. rewrite sign_extend_128_spec by lia. by rewrite Z.min_l by lia. Qed.
Lemma wide_mask x : Z.land (wrap 128 x) (lane_mask lane) = wrap bits x.
Proof. pose proof bits_bounds. rewrite land_lane_mask by lia. by rewrite wrap_wrap_le by lia. Qed.
Lemma lane_mask_all : lane_mask lane = 2 ^ bits - 1.
Proof. pose proof bits_bounds. rewrite lane_mask_is_ones by lia. rewrite Z.ones_equiv. lia. Qed.
Lemma wrap_signed x y : in_width bits x -> y = to_signed bits x -> wrap bits y = x.
Proof. pose proof bits_bounds. intros Hx ->. rewrite wrap_to_signed by lia. by apply wrap_small. Qed.

Lemma half_bound : 0 < 2 ^ (bits - 1).
Proof. pose proof bits_bounds. apply pow2_pos. lia. Qed.
End Elem.

Lemma to_signed_small w x : 1 <= w -> - 2 ^ (w - 1) <= x < 2 ^ (w - 1) -> to_signed w x = x.
Proof. intros Hw Hx. by apply to_signed_unique. Qed.

(** A product of two signed elements of at most 32 bits. *)
Lemma signed_product w x y : 1 <= w <= 16 -> - 2 ^ 30 <= to_signed w x * to_signed w y <= 2 ^ 30.
Proof.
  intros Hw. pose proof (to_signed_range w x ltac:(lia)). pose proof (to_signed_range w y ltac:(lia)).
  assert (2 ^ (w - 1) <= 2 ^ 15) by (apply Z.pow_le_mono_r; lia). nia.
Qed.

Lemma packed_elem_spec op lane x y : packed_lane op lane -> in_width (lane * 8) x -> in_width (lane * 8) y ->
  packed_elem op x y (lane * 8) (lane_mask lane) = packed_spec op (lane * 8) x y.
Proof.
  intros Ho Hx Hy. pose proof (packed_lane_elem op lane Ho) as Hl. pose proof (bits_bounds lane Hl). pose proof (half_bound lane Hl).
  unfold packed_elem, packed_spec. rewrite !(sign_extend_elem lane Hl).
  unfold wrapping_add, wrapping_sub, wrapping_mul.
  destruct op; cbn [packed_lane] in Ho; rewrite ?(wide_mask lane Hl); try done.
  - by rewrite (lane_mask_all lane Hl).
  - by rewrite (lane_mask_all lane Hl).
  - destruct (Z.ltb_spec (to_signed (lane * 8) x) (to_signed (lane * 8) y)); symmetry; apply (wrap_signed lane Hl); [done|lia|done|lia].
  - destruct (Z.ltb_spec (to_signed (lane * 8) y) (to_signed (lane * 8) x)); symmetry; apply (wrap_signed lane Hl); [done|lia|done|lia].
  - subst lane. change (2 * 8) with 16 in *. rewrite land_lane_mask by lia. unfold in_width in Hx, Hy.
    rewrite (wrap_small 128) by (unfold in_width; nia). rewrite Z.shiftr_div_pow2 by lia. apply wrap_small. unfold in_width.
    split; [apply Z.div_pos; nia|apply Z.div_lt_upper_bound; nia].
  - subst lane. change (2 * 8) with 16 in *. pose proof (signed_product 16 x y ltac:(lia)).
    rewrite (to_signed_small 128) by lia. by rewrite Z.shiftr_div_pow2 by lia.
  - subst lane. change (8 * 8) with 64 in *. rewrite !(wrap_ones 32) by lia. apply wrap_small.
    pose proof (wrap_range 32 x ltac:(lia)). pose proof (wrap_range 32 y ltac:(lia)). unfold in_width in *. nia.
  - by rewrite clamp_minmax by lia.
  - lia.
  - by rewrite clamp_minmax by lia.
  - unfold saturating_sub. lia.
  - by rewrite Z.shiftr_div_pow2 by lia.
  - subst lane. change (2 * 8) with 16 in *. pose proof (signed_product 16 x y ltac:(lia)).
    pose proof (to_signed_range 16 x ltac:(lia)). pose proof (to_signed_range 16 y ltac:(lia)).
    rewrite !(to_signed_small 16 (to_signed 16 _)) by lia. rewrite (to_signed_small 32) by lia.
    rewrite land_lane_mask by lia. rewrite !Z.shiftr_div_pow2 by lia. by rewrite wrap_wrap_le by lia.
Qed.

Lemma packed_spec_range op lane x y : packed_lane op lane -> in_width (lane * 8) x -> in_width (lane * 8) y ->
  in_width (lane * 8) (packed_spec op (lane * 8) x y).
Proof.
  intros Ho Hx Hy. pose proof (packed_lane_elem op lane Ho) as Hl. pose proof (bits_bounds lane Hl).
  pose proof (pow2_pos (lane * 8) ltac:(lia)).
  destruct op; cbn [packed_lane] in Ho; cbn [packed_spec]; try (by apply wrap_range; lia);
    try (unfold in_width in *; repeat case_match; lia).
  - subst lane. unfold in_width in *. cbn in *. split; [apply Z.div_pos; lia|apply Z.div_lt_upper_bound; nia].
  - subst lane. pose proof (wrap_range 32 x ltac:(lia)). pose proof (wrap_range 32 y ltac:(lia)). unfold in_width in *. cbn in *. nia.
  - subst lane. by apply wrap_range.
  - unfold in_width in *. split; [apply Z.div_pos; lia|apply Z.div_lt_upper_bound; lia].
  - subst lane. by apply wrap_range.
Qed.

Lemma packed_bin_elem op lane a b i : packed_lane op lane -> 0 <= i < 16 / lane ->
  velem (lane * 8) (packed_bin a b lane op) i = packed_spec op (lane * 8) (velem (lane * 8) a i) (velem (lane * 8) b i).
Proof.
  intros Ho Hi. pose proof (packed_lane_elem op lane Ho) as Hl. pose proof (bits_bounds lane Hl).
  assert (forall j, packed_elem op (elem_at a (lane * 8) (lane_mask lane) j) (elem_at b (lane * 8) (lane_mask lane) j) (lane * 8) (lane_mask lane)
    = packed_spec op (lane * 8) (velem (lane * 8) a j) (velem (lane * 8) b j)) as E.
  { intros j. rewrite !elem_at_velem by lia. apply packed_elem_spec; [done|apply velem_range; lia|apply velem_range; lia]. }
  unfold packed_bin. rewrite packed_elems; [apply E|done| |done].
  intros j. rewrite E. apply packed_spec_range; [done|apply velem_range; lia|apply velem_range; lia].
Qed.

(** ** Shifts *)

(** The reference: a count of any size shifts the value out, the sign staying behind. *)
Definition shift_spec (bits x count : Z) (right_ arith : bool) : Z :=
  if right_ then if arith then wrap bits (to_signed bits x / 2 ^ count) else x / 2 ^ count
  else wrap bits (x * 2 ^ count).

Lemma shift_out_left bits x count : 0 <= bits <= count -> wrap bits (x * 2 ^ count) = 0.
Proof.
  intros H. unfold wrap. replace count with (count - bits + bits) by lia. rewrite pow2_split, Z.mul_assoc by lia.
  apply Z.mod_mul. pose proof (pow2_pos bits). lia.
Qed.
Lemma shift_out_right bits x count : 0 <= bits <= count -> in_width bits x -> x / 2 ^ count = 0.
Proof. intros H Hx. apply Z.div_small. pose proof (Z.pow_le_mono_r 2 bits count). unfold in_width in Hx. lia. Qed.
(** Only the sign is left from [bits - 1] on. *)
Lemma shift_out_signed bits x count : 1 <= bits <= count -> to_signed bits x / 2 ^ (bits - 1) = to_signed bits x / 2 ^ count.
Proof.
  intros H. pose proof (to_signed_range bits x ltac:(lia)) as Hr. pose proof (Z.pow_le_mono_r 2 (bits - 1) count ltac:(lia) ltac:(lia)).
  destruct (Z.lt_ge_cases (to_signed bits x) 0).
  - rewrite <- (Z.div_unique _ (2 ^ (bits - 1)) (-1) (to_signed bits x + 2 ^ (bits - 1))) by lia.
    rewrite <- (Z.div_unique _ (2 ^ count) (-1) (to_signed bits x + 2 ^ count)) by lia. done.
  - rewrite !Z.div_small by lia. done.
Qed.

Lemma shift_spec_range bits x count r ar : 0 <= bits -> 0 <= count -> in_width bits x -> in_width bits (shift_spec bits x count r ar).
Proof.
  intros Hb Hc Hx. unfold shift_spec. destruct r, ar; try by apply wrap_range.
  rewrite <- Z.shiftr_div_pow2 by done. by apply in_width_shiftr.
Qed.

Lemma packed_shift_elem lane a imm r ar i : valid_elem lane -> 0 <= imm -> 0 <= i < 16 / lane ->
  velem (lane * 8) (packed_shift a imm lane r ar) i = shift_spec (lane * 8) (velem (lane * 8) a i) imm r ar.
Proof.
  intros Hl Hc Hi. pose proof (bits_bounds lane Hl). pose proof (velem_range (lane * 8) a i ltac:(lia)) as Hv.
  unfold packed_shift. destruct (andb _ _) eqn:Eo.
  { apply andb_prop in Eo as [Eo Era]. apply Z.leb_le in Eo. unfold velem at 1. rewrite Z.shiftr_0_l. unfold shift_spec.
    destruct r; [destruct ar; [done|]|].
    - by rewrite (shift_out_right (lane * 8)) by (done || lia).
    - by rewrite shift_out_left by lia. }
  rewrite (or_lanes_ext _ _ _ (fun j => shift_spec (lane * 8) (velem (lane * 8) a j) imm r ar)).
  - apply (packed_elems lane (fun j => shift_spec (lane * 8) (velem (lane * 8) a j) imm r ar)); [done| |done].
    intros j. apply shift_spec_range; [lia|done|apply velem_range; lia].
  - intros j. rewrite !elem_at_velem by lia. pose proof (velem_range (lane * 8) a j ltac:(lia)). unfold shift_spec, shl128.
    rewrite (sign_extend_elem lane Hl), !(wide_mask lane Hl). destruct r; cbn [negb andb] in *; [destruct ar; cbn [negb andb] in *|].
    + destruct (Z.leb_spec (lane * 8) imm); rewrite Z.shiftr_div_pow2 by lia; [|done]. by rewrite (shift_out_signed (lane * 8) _ imm) by lia.
    + by rewrite Z.shiftr_div_pow2 by lia.
    + by rewrite Z.shiftl_mul_pow2 by lia.
Qed.

(** ** Three-input logic and byte shuffles *)

Lemma ternlog_term_bit a b c j k : 0 <= j < 8 -> 0 <= k < 128 ->
  Z.testbit (ternlog_term a b c j) k =
  (j =? 4 * b2z (Z.testbit a k) + 2 * b2z (Z.testbit b k) + b2z (Z.testbit c k)).
Proof.
  intros Hj Hk. unfold ternlog_term.
  assert (forall x, Z.testbit (not128 x) k = negb (Z.testbit x k)) as En.
  { intros x. unfold not128, unot. rewrite wrap_testbit, Z.lnot_spec, (proj2 (Z.ltb_lt _ _)) by lia. done. }
  assert (forall (s : bool) x, Z.testbit (if s then x else not128 x) k = Bool.eqb s (Z.testbit x k)) as Es.
  { intros [] x; [|rewrite En]; by destruct (Z.testbit x k). }
  rewrite !Z.land_spec, !Es. clear En Es.
  destruct (Z.testbit a k), (Z.testbit b k), (Z.testbit c k);
    assert (j = 0 \/ j = 1 \/ j = 2 \/ j = 3 \/ j = 4 \/ j = 5 \/ j = 6 \/ j = 7) as Hc by lia;
    by repeat (destruct Hc as [->|Hc]); [..|subst j].
Qed.

Lemma ternlog_bit a b c imm k : 0 <= k < 128 ->
  Z.testbit (ternlog a b c imm) k = Z.testbit imm (4 * b2z (Z.testbit a k) + 2 * b2z (Z.testbit b k) + b2z (Z.testbit c k)).
Proof.
  intros Hk. set (q := 4 * _ + _ + _). assert (0 <= q < 8) as Hq.
  { unfold q. destruct (Z.testbit a k), (Z.testbit b k), (Z.testbit c k); cbn; lia. }
  unfold ternlog.
  enough (forall n r, (n <= 8)%nat -> Z.testbit (foldl (fun r j => if test imm (Z.shiftl 1 j) then Z.lor r (ternlog_term a b c j) else r) r (zseq 0 n)) k
    = Z.testbit r k || ((q <? Z.of_nat n) && Z.testbit imm q)) as E.
  { rewrite E by lia. rewrite Z.bits_0, (proj2 (Z.ltb_lt _ _)) by lia. done. }
  intros n r Hn. induction n as [|n IH]; [destruct (Z.ltb_spec q (Z.of_nat 0)); [lia|]; by rewrite orb_false_r|].
  rewrite zseq_snoc, foldl_app. cbn [foldl]. rewrite Z.shiftl_1_l, test_pow2 by lia.
  assert (Z.testbit (ternlog_term a b c (0 + Z.of_nat n)) k = (Z.of_nat n =? q)) as Et by (rewrite ternlog_term_bit by lia; done).
  transitivity (Z.testbit r k || ((q <? Z.of_nat n) && Z.testbit imm q) || (Z.testbit imm (0 + Z.of_nat n) && (Z.of_nat n =? q))).
  - rewrite <- IH by lia. destruct (Z.testbit imm (0 + Z.of_nat n)); [by rewrite Z.lor_spec, Et|by rewrite andb_false_l, orb_false_r].
  - rewrite <- orb_assoc. f_equal. rewrite Z.add_0_l. destruct (Z.eqb_spec (Z.of_nat n) q) as [<-|].
    + destruct (Z.ltb_spec (Z.of_nat n) (Z.of_nat n)), (Z.ltb_spec (Z.of_nat n) (Z.of_nat (S n))); try lia. cbn. by rewrite andb_true_r.
    + rewrite andb_false_r, orb_false_r. f_equal. destruct (Z.ltb_spec q (Z.of_nat n)), (Z.ltb_spec q (Z.of_nat (S n))); lia || done.
Qed.

Lemma pshufb_byte data idx i : 0 <= i < 16 ->
  velem 8 (pshufb data idx) i = if Z.testbit (velem 8 idx i) 7 then 0 else velem 8 data (velem 8 idx i mod 16).
Proof.
  intros Hi. unfold pshufb. rewrite or_lanes_elem; [|lia|lia| |lia].
  - change 0xff with (lane_mask 1). change 8 with (1 * 8) at 1 2. rewrite !(elem_at_velem _ 1) by lia.
    change 0x80 with (2 ^ 7). pose proof (test_pow2 (velem (1 * 8) idx i) 7 ltac:(lia)) as E. unfold test in E.
    change (Z.land (velem (1 * 8) idx i) 15) with (Z.land (velem (1 * 8) idx i) (Z.ones 4)). rewrite Z.land_ones by lia.
    rewrite <- (negb_involutive (_ =? 0)), E. change (1 * 8) with 8. by destruct (Z.testbit _ 7).
  - intros j _. change 0xff with (lane_mask 1). change 8 with (1 * 8). rewrite !(elem_at_velem _ 1) by lia.
    case_match; [by apply velem_range|by split].
Qed.

(** ** 512-bit registers *)

(** Element [i] of a register held as four 128-bit lanes. *)
Definition reg_elem (v : list Z) (elem i : Z) : Z :=
  velem (elem * 8) (lane v (Z.to_nat (i / (16 / elem)))) (i mod (16 / elem)).

Lemma elems_per_lane elem : valid_elem elem -> 16 / elem * (elem * 8) = 128 /\ 0 < 16 / elem.
Proof. by intros [->|[->|[->| ->]]]. Qed.

Lemma reg_elem_range v elem i : valid_elem elem -> in_width (elem * 8) (reg_elem v elem i).
Proof. intros H. apply velem_range. unfold valid_elem in H. lia. Qed.

Lemma reg_elem_high v elem i t : valid_elem elem -> elem * 8 <= t -> Z.testbit (reg_elem v elem i) t = false.
Proof. intros He Ht. apply (in_width_high (elem * 8)); [by apply reg_elem_range| |done]. unfold valid_elem in He. lia. Qed.

Lemma reg_elem_bit v elem i t : valid_elem elem -> 0 <= i -> 0 <= t < elem * 8 ->
  Z.testbit (reg_elem v elem i) t = vbit v (i * (elem * 8) + t).
Proof.
  intros He Hi Ht. destruct (elems_per_lane elem He) as [Hp Hp0]. unfold reg_elem, velem, vbit. set (per := 16 / elem) in *.
  assert ((i * (elem * 8) + t) / 128 = i / per /\ (i * (elem * 8) + t) mod 128 = i mod per * (elem * 8) + t) as [-> ->].
  { pose proof (Z.div_mod i per ltac:(lia)). pose proof (Z.mod_pos_bound i per ltac:(lia)).
    pose proof (Z.mul_le_mono_nonneg_r (i mod per) (per - 1) (elem * 8) ltac:(lia) ltac:(lia)).
    pose proof (Z.mul_nonneg_nonneg (i mod per) (elem * 8) ltac:(lia) ltac:(lia)).
    assert (0 <= i mod per * (elem * 8) + t < 128) as Hb by lia.
    assert (i * (elem * 8) + t = 128 * (i / per) + (i mod per * (elem * 8) + t)) as E by nia.
    split; [by rewrite <- (Z.div_unique _ 128 (i / per) _ (or_introl Hb) E)|by rewrite <- (Z.mod_unique _ 128 (i / per) _ (or_introl Hb) E)]. }
  pose proof (Z.mod_pos_bound i per ltac:(lia)).
  rewrite wrap_testbit, Z.shiftr_spec, (proj2 (Z.ltb_lt _ _)) by nia. cbn [andb]. f_equal. lia.
Qed.

Lemma reg_elem_ext v v' elem i j : valid_elem elem -> 0 <= i -> 0 <= j ->
  (forall t, 0 <= t < elem * 8 -> vbit v (i * (elem * 8) + t) = vbit v' (j * (elem * 8) + t)) -> reg_elem v elem i = reg_elem v' elem j.
Proof.
  intros He Hi Hj H. apply Z.bits_inj'. intros t Ht. destruct (Z.lt_ge_cases t (elem * 8)).
  - rewrite !reg_elem_bit by (done || lia). by apply H.
  - by rewrite !reg_elem_high.
Qed.
Lemma reg_elem_zero v elem i : valid_elem elem -> 0 <= i ->
  (forall t, 0 <= t < elem * 8 -> vbit v (i * (elem * 8) + t) = false) -> reg_elem v elem i = 0.
Proof.
  intros He Hi H. apply Z.bits_inj'. intros t Ht. rewrite Z.bits_0. destruct (Z.lt_ge_cases t (elem * 8)).
  - rewrite !reg_elem_bit by (done || lia). by apply H.
  - by rewrite !reg_elem_high.
Qed.

(** A masked write, element by element. *)
Lemma write_masked_elem c reg k v elem bytes z i : cpu_wf c -> (reg < 32)%nat -> valid_elem elem -> valid_vec bytes ->
  0 <= i < 64 / elem ->
  reg_elem (vec_lanes (write_masked c reg v k elem z bytes) reg) elem i =
  if i <? bytes / elem then
    if Z.testbit (nth k (kmask c) 0) i then reg_elem v elem i else if z then 0 else reg_elem (vec_lanes c reg) elem i
  else 0.
Proof.
  intros Hc Hr He Hb Hi. destruct (write_masked_exact c reg k v elem bytes z Hc Hr He Hb) as [H _].
  assert (forall t, 0 <= t < elem * 8 -> 0 <= i * (elem * 8) + t < 512 /\ (i * (elem * 8) + t <? 8 * bytes) = (i <? bytes / elem) /\
    (i * (elem * 8) + t) / (8 * elem) = i) as Ht.
  { intros t Ht. assert (0 < elem /\ 64 / elem * elem = 64 /\ bytes / elem * elem = bytes) as (? & ? & ?)
      by (destruct He as [->|[->|[->| ->]]], Hb as [->|[->| ->]]; done).
    split; [nia|]. split.
    - destruct (Z.ltb_spec i (bytes / elem)); [apply Z.ltb_lt|apply Z.ltb_ge]; nia.
    - symmetry. apply (Z.div_unique _ _ _ t); lia. }
  destruct (Z.ltb_spec i (bytes / elem)) as [Hlt|Hge].
  - destruct (Z.testbit _ i) eqn:Ek; [|destruct z].
    all: first [apply reg_elem_zero|apply reg_elem_ext]; try done; try lia; intros t Htt;
      destruct (Ht t Htt) as (Hr512 & Hlt' & Hq); rewrite H, Hlt', Hq, Ek by done; done.
  - apply reg_elem_zero; [done|lia|]. intros t Htt. destruct (Ht t Htt) as (Hr512 & Hlt' & Hq). by rewrite H, Hlt' by done.
Qed.

Lemma lanes4_packed v w op elem i : packed_lane op elem -> 0 <= i < 64 / elem ->
  reg_elem (lanes4 4 (fun j => packed_bin (lane v j) (lane w j) elem op)) elem i =
  packed_spec op (elem * 8) (reg_elem v elem i) (reg_elem w elem i).
Proof.
  intros Ho Hi. pose proof (packed_lane_elem op elem Ho) as He. destruct (elems_per_lane elem He) as [Hp Hp0].
  assert (0 <= i / (16 / elem) < 4) as Hq.
  { split; [apply Z.div_pos; lia|]. apply Z.div_lt_upper_bound; [lia|].
    assert (64 / elem = 16 / elem * 4) by (by destruct He as [->|[->|[->| ->]]]). lia. }
  unfold reg_elem. rewrite <- packed_bin_elem; [|done|apply Z.mod_pos_bound; lia]. f_equal.
  by destruct (Z.to_nat (i / (16 / elem))) as [|[|[|[|q]]]] eqn:E; [..|lia].
Qed.

(** ** Writing one element *)

Lemma elem_mask elem : valid_elem elem -> (if elem =? 8 then 2 ^ 64 - 1 else Z.shiftl 1 (elem * 8) - 1) = Z.ones (elem * 8).
Proof. by intros [->|[->|[->| ->]]]. Qed.

(** Where element [i] is: its lane, and its first bit there. *)
Lemma elem_place elem i : valid_elem elem -> 0 <= i ->
  i * elem / 16 = i / (16 / elem) /\ (i * elem) mod 16 * 8 = i mod (16 / elem) * (elem * 8).
Proof.
  intros He Hi. destruct (elems_per_lane elem He) as [Hp Hp0]. set (per := 16 / elem) in *.
  assert (16 = per * elem) as E16 by lia. pose proof (Z.div_mod i per ltac:(lia)). pose proof (Z.mod_pos_bound i per Hp0).
  assert (0 < elem) by (unfold valid_elem in He; lia).
  assert (i * elem / 16 = i / per) as E1 by (rewrite E16; apply Z.div_mul_cancel_r; lia).
  split; [exact E1|]. rewrite E16 at 1. rewrite Z.mul_mod_distr_r by lia. lia.
Qed.

Lemma put_elem_bit x v bits j p : 0 < bits -> 0 <= j -> (j + 1) * bits <= 128 -> 0 <= p < 128 ->
  Z.testbit (Z.lor (Z.land x (not128 (shl128 (Z.ones bits) (j * bits)))) (shl128 (Z.land v (Z.ones bits)) (j * bits))) p =
  if (j * bits <=? p) && (p <? (j + 1) * bits) then Z.testbit v (p - j * bits) else Z.testbit x p.
Proof.
  intros Hb Hj Hfit Hp. unfold not128, unot, shl128.
  rewrite Z.lor_spec, Z.land_spec, wrap_testbit, Z.lnot_spec, wrap_testbit, Z.shiftl_spec, wrap_testbit, Z.shiftl_spec, Z.land_spec by lia.
  rewrite (proj2 (Z.ltb_lt p 128)) by lia. cbn [andb].
  destruct (Z.leb_spec (j * bits) p); cbn [andb].
  - rewrite Z.testbit_ones_nonneg by lia. destruct (Z.ltb_spec (p - j * bits) bits), (Z.ltb_spec p ((j + 1) * bits)); try lia; cbn [negb].
    + by rewrite andb_false_r, andb_true_r.
    + by rewrite andb_true_r, andb_false_r, orb_false_r.
  - rewrite !(Z.testbit_neg_r _ (p - j * bits)) by lia. cbn. by rewrite andb_true_r, orb_false_r.
Qed.

Lemma set_velem_elem lanes elem i j v : valid_elem elem -> length lanes = 4%nat -> 0 <= i < 64 / elem -> 0 <= j < 64 / elem ->
  reg_elem (set_velem lanes i elem v) elem j = if i =? j then wrap (elem * 8) v else reg_elem lanes elem j.
Proof.
  intros He Hlen Hi Hj. destruct (elems_per_lane elem He) as [Hp Hp0]. destruct (elem_place elem i He ltac:(lia)) as [El Es].
  assert (64 / elem = 4 * (16 / elem)) as E64 by (by destruct He as [->|[->|[->| ->]]]).
  unfold set_velem. rewrite elem_mask, El, Es by done. unfold reg_elem. set (per := 16 / elem) in *.
  pose proof (Z.div_mod i per ltac:(lia)). pose proof (Z.mod_pos_bound i per Hp0).
  pose proof (Z.div_mod j per ltac:(lia)). pose proof (Z.mod_pos_bound j per Hp0).
  assert (0 <= i / per < 4 /\ 0 <= j / per < 4) as [Hip Hjp] by (split; (split; [apply Z.div_pos; lia|apply Z.div_lt_upper_bound; lia])).
  unfold lane at 1. destruct (Z.eq_dec (i / per) (j / per)) as [Eq|Hne].
  - rewrite <- Eq. rewrite nth_lookup, list_lookup_insert_eq by lia. cbn [from_option id].
    assert (0 < elem) by (unfold valid_elem in He; lia).
    assert ((i mod per + 1) * (elem * 8) <= 128 /\ (j mod per + 1) * (elem * 8) <= 128) as [Hfi Hfj] by (split; nia).
    apply Z.bits_inj'. intros t Ht. unfold velem at 1. rewrite wrap_testbit, Z.shiftr_spec by lia.
    destruct (Z.ltb_spec t (elem * 8)); cbn [andb].
    + rewrite put_elem_bit by nia. destruct (Z.eqb_spec i j) as [<-|Hij].
      * rewrite wrap_testbit, (proj2 (Z.ltb_lt t _)), (proj2 (Z.leb_le _ _)), (proj2 (Z.ltb_lt _ _)) by lia. cbn [andb]. f_equal. lia.
      * assert (i mod per <> j mod per) by nia.
        replace ((i mod per * (elem * 8) <=? t + j mod per * (elem * 8)) && (t + j mod per * (elem * 8) <? (i mod per + 1) * (elem * 8))) with false.
        { unfold velem. rewrite wrap_testbit, Z.shiftr_spec, (proj2 (Z.ltb_lt t _)) by lia. done. }
        symmetry. apply andb_false_iff. destruct (Z.lt_ge_cases (i mod per) (j mod per)); [right; apply Z.ltb_ge|left; apply Z.leb_gt]; nia.
    + destruct (i =? j); [rewrite wrap_testbit by lia|unfold velem; rewrite wrap_testbit by lia];
        rewrite (proj2 (Z.ltb_ge t _)) by lia; done.
  - rewrite nth_lookup, list_lookup_insert_ne by lia. rewrite <- nth_lookup. destruct (Z.eqb_spec i j) as [->|]; done.
Qed.

Lemma set_velem_length lanes i elem v : length (set_velem lanes i elem v) = length lanes.
Proof. apply length_insert. Qed.

Lemma set_velems_spec res n elem f : valid_elem elem -> length res = 4%nat -> (n <= Z.to_nat (64 / elem))%nat ->
  let r := set_velems res (Z.of_nat n) elem f in
  length r = 4%nat /\ forall j, 0 <= j < 64 / elem -> reg_elem r elem j = if j <? Z.of_nat n then wrap (elem * 8) (f j) else reg_elem res elem j.
Proof.
  intros He Hlen. unfold set_velems. rewrite Nat2Z.id. cbn zeta. induction n as [|n IH]; intros Hn.
  - split; [done|]. intros j Hj. by rewrite (proj2 (Z.ltb_ge j (Z.of_nat 0))) by lia.
  - destruct (IH ltac:(lia)) as [IHl IHe]. rewrite zseq_snoc, foldl_app. cbn [foldl]. split; [by rewrite set_velem_length|].
    intros j Hj. rewrite set_velem_elem by (done || lia). rewrite IHe, Z.add_0_l by done.
    destruct (Z.eqb_spec (Z.of_nat n) j) as [<-|]; [by rewrite (proj2 (Z.ltb_lt _ _)) by lia|].
    destruct (Z.ltb_spec j (Z.of_nat n)), (Z.ltb_spec j (Z.of_nat (S n))); (done || lia).
Qed.

Lemma set_vec_elem c reg v bytes elem i : cpu_wf c -> (reg < 32)%nat -> valid_elem elem -> valid_vec bytes -> 0 <= i < 64 / elem ->
  reg_elem (vec_lanes (set_vec c reg v bytes) reg) elem i = if i <? bytes / elem then reg_elem v elem i else 0.
Proof.
  intros Hc Hr He Hb Hi. destruct (elems_per_lane elem He) as [Hp Hp0].
  assert (64 / elem = 4 * (16 / elem) /\ bytes / elem = bytes / 16 * (16 / elem)) as [E64 Eb]
    by (destruct He as [->|[->|[->| ->]]], Hb as [->|[->| ->]]; done).
  set (per := 16 / elem) in *. assert (0 <= i / per < 4) by (split; [apply Z.div_pos; lia|apply Z.div_lt_upper_bound; lia]).
  unfold reg_elem. fold per. rewrite lane_set_vec by (done || lia). rewrite Z2Nat.id, Eb by lia.
  pose proof (Z.div_mod i per ltac:(lia)). pose proof (Z.mod_pos_bound i per Hp0).
  destruct (Z.ltb_spec (i / per) (bytes / 16)), (Z.ltb_spec i (bytes / 16 * per)); try done; try nia.
  unfold velem. by rewrite Z.shiftr_0_l.
Qed.

(** ** Half precision *)

(** A half-precision NaN comes back quiet; every other pattern comes back as it was. *)
Definition f16_back (h : Z) : Z :=
  if (Z.land (Z.shiftr h 10) 31 =? 31) && negb (Z.land h 1023 =? 0) then Z.lor h 512 else h.

Fixpoint all_below (n : nat) (P : Z -> bool) (x : Z) : bool :=
  match n with O => true | S n' => P x && all_below n' P (x + 1) end.
Lemma all_below_spec n P x i : all_below n P x = true -> x <= i < x + Z.of_nat n -> P i = true.
Proof.
  revert x. induction n as [|n IH]; intros x H Hi; [lia|]. cbn [all_below] in H. apply andb_prop in H as [H1 H2].
  destruct (Z.eq_dec i x) as [->|]; [done|]. apply (IH (x + 1)); [done|lia].
Qed.

(** Subnormal numbers: [m] and its negation, in the four rounding modes. *)
Definition f16_back_ok (m : Z) : bool :=
  let x := f16_to_f32 m in
  forallb (fun rc => (f32_to_f16 x rc =? m) && (f32_to_f16 (Z.lor x (2 ^ 31)) rc =? 32768 + m)) [0; 1; 2; 3].
Lemma f16_sweep : all_below 1024 f16_back_ok 0 = true.
Proof. vm_compute. reflexivity. Qed.

Lemma land_pow2 a n : 0 <= n -> Z.land a (2 ^ n) = b2z (Z.testbit a n) * 2 ^ n.
Proof.
  intros Hn. apply Z.bits_inj'. intros i Hi. rewrite Z.land_spec, Z.pow2_bits_eqb, Z.mul_pow2_bits, b2z_testbit by done.
  destruct (Z.eqb_spec n i) as [->|]; [by rewrite Z.sub_diag|]. destruct (Z.eqb_spec (i - n) 0); [lia|]. by rewrite !andb_false_r.
Qed.
Lemma b2z_bit a n : 0 <= n -> b2z (Z.testbit a n) = a / 2 ^ n mod 2.
Proof. intros. change (b2z ?b) with (Z.b2z b). by apply Z.testbit_spec'. Qed.

(** The fields of a half- or single-precision pattern. *)
Definition f16_of (s : bool) (e m : Z) : Z := b2z s * 2 ^ 15 + e * 2 ^ 10 + m.
Definition f32_of (s : bool) (e m : Z) : Z := b2z s * 2 ^ 31 + e * 2 ^ 23 + m.

Lemma f16_split h : in_width 16 h -> exists s e m, 0 <= e < 32 /\ 0 <= m < 1024 /\ h = f16_of s e m.
Proof.
  intros Hh. exists (Z.testbit h 15), (h / 2 ^ 10 mod 32), (h mod 1024). unfold f16_of. rewrite b2z_bit by lia.
  unfold in_width in Hh. split; [apply Z.mod_pos_bound; lia|]. split; [apply Z.mod_pos_bound; lia|].
  change (2 ^ 15) with (1024 * 32). change (2 ^ 10) with 1024. rewrite <- Z.div_div by lia.
  rewrite (Z.mod_small (h / 1024 / 32)) by (rewrite Z.div_div by lia; split; [apply Z.div_pos|apply Z.div_lt_upper_bound]; lia).
  pose proof (Z.div_mod h 1024 ltac:(lia)). pose proof (Z.div_mod (h / 1024) 32 ltac:(lia)). lia.
Qed.
Lemma f16_fields s e m : 0 <= e < 32 -> 0 <= m < 1024 ->
  Z.land (Z.shiftr (f16_of s e m) 15) 1 = b2z s /\
  Z.land (Z.shiftr (f16_of s e m) 10) 0x1f = e /\ Z.land (f16_of s e m) 0x3ff = m.
Proof.
  intros He Hm. unfold f16_of. change 1 with (Z.ones 1) at 1. change 0x1f with (Z.ones 5). change 0x3ff with (Z.ones 10).
  rewrite !Z.land_ones, !Z.shiftr_div_pow2 by lia.
  rewrite <- (Z.div_unique (_ + m) (2 ^ 15) (b2z s) (e * 2 ^ 10 + m)) by lia.
  rewrite <- (Z.div_unique (_ + m) (2 ^ 10) (b2z s * 2 ^ 5 + e) m) by lia. split; [by destruct s|].
  split; [symmetry; apply (Z.mod_unique _ _ (b2z s))|symmetry; apply (Z.mod_unique _ _ (b2z s * 2 ^ 5 + e))]; lia.
Qed.
Lemma f32_fields s e m : 0 <= e < 256 -> 0 <= m < 2 ^ 23 ->
  Z.land (Z.shiftr (f32_of s e m) 16) 0x8000 = b2z s * 2 ^ 15 /\
  Z.land (Z.shiftr (f32_of s e m) 23) 0xff = e /\ Z.land (f32_of s e m) 0x7fffff = m.
Proof.
  intros He Hm. unfold f32_of. change 0xff with (Z.ones 8). change 0x7fffff with (Z.ones 23). change 0x8000 with (2 ^ 15).
  rewrite land_pow2, b2z_bit, !Z.land_ones, !Z.shiftr_div_pow2, Z.div_div by lia. change (2 ^ 16 * 2 ^ 15) with (2 ^ 31).
  rewrite <- (Z.div_unique (_ + m) (2 ^ 31) (b2z s) (e * 2 ^ 23 + m)) by lia.
  rewrite <- (Z.div_unique (_ + m) (2 ^ 23) (b2z s * 2 ^ 8 + e) m) by lia. split; [by destruct s|].
  split; [symmetry; apply (Z.mod_unique _ _ (b2z s))|symmetry; apply (Z.mod_unique _ _ (b2z s * 2 ^ 8 + e))]; lia.
Qed.

Lemma or_fields a b c n m : 0 <= m <= n -> in_width m c -> in_width (n - m) b ->
  Z.lor (Z.lor (Z.shiftl a n) (Z.shiftl b m)) c = a * 2 ^ n + b * 2 ^ m + c.
Proof.
  intros Hm Hc Hb. rewrite <- Z.lor_assoc, (lor_shifted m) by (done || lia). rewrite (lor_shifted n); [lia|lia|].
  unfold in_width in *. replace n with ((n - m) + m) by lia. rewrite pow2_split by lia. nia.
Qed.

(** Normal numbers, infinities and NaNs keep their fields. *)
Lemma f16_widen s e m : 0 < e < 32 -> 0 <= m < 1024 ->
  f16_to_f32 (f16_of s e m) = f32_of s (if e =? 31 then 255 else e + 112) (m * 2 ^ 13).
Proof.
  intros He Hm. destruct (f16_fields s e m ltac:(lia) Hm) as (Es & Ee & Em). unfold f16_to_f32. rewrite Es, Ee, Em.
  destruct (Z.eqb_spec e 0); [lia|]. change 0x1f with 31. rewrite (Z.shiftl_mul_pow2 m) by lia.
  destruct (Z.eqb_spec e 31); rewrite (or_fields _ _ _ 31 23); try done; unfold in_width; cbn; lia.
Qed.

(** The low 13 bits of a widened fraction are zero: every mode keeps it. *)
Lemma half_round_exact rc m hs : 0 <= m -> half_round rc (m * 2 ^ 13) 13 hs = m.
Proof.
  intros Hm. unfold half_round. cbn [Z.eqb]. change (Z.shiftl 1 13 - 1) with (Z.ones 13).
  rewrite Z.land_ones, Z.mod_mul, Z.shiftr_div_pow2, Z.div_mul by lia. change (Z.shiftl 1 (13 - 1)) with 4096.
  destruct (Z.land rc 3) as [|[[]|[]|]|]; cbn; rewrite ?andb_false_r; cbn; lia.
Qed.

Lemma f16_narrow s e m rc : 0 < e < 32 -> 0 <= m < 1024 ->
  f32_to_f16 (f32_of s (if e =? 31 then 255 else e + 112) (m * 2 ^ 13)) rc = f16_back (f16_of s e m).
Proof.
  intros He Hm. destruct (f16_fields s e m ltac:(lia) Hm) as (Es & Ee & Em). unfold f16_back. change 31 with 0x1f at 2. rewrite Ee, Em.
  destruct (f32_fields s (if e =? 31 then 255 else e + 112) (m * 2 ^ 13) ltac:(case_match; lia) ltac:(lia)) as (Fs & Fe & Fm).
  unfold f32_to_f16. rewrite Fs, Fe, Fm. change (b2z s * 2 ^ 15) with (b2z s * 2 ^ 15). rewrite <- (Z.shiftl_mul_pow2 (b2z s)) by lia.
  destruct (Z.eqb_spec e 31) as [->|Hne]; cbn [Z.eqb Pos.eqb andb].
  - destruct (Z.eqb_spec m 0) as [->|Hm0]; [by destruct s|].
    destruct (Z.eqb_spec (m * 2 ^ 13) 0); [lia|]. cbn [negb]. rewrite Z.shiftr_div_pow2, Z.div_mul by lia.
    change 0x3ff with (Z.ones 10). rewrite Z.land_ones, Z.mod_small by lia. change 0x7e00 with (Z.lor (Z.shiftl 31 10) 512).
    unfold f16_of. rewrite <- (or_fields (b2z s) 31 m 15 10) by (unfold in_width; cbn; lia).
    by rewrite !Z.lor_assoc, <- (Z.lor_assoc _ m 512), (Z.lor_comm m 512), Z.lor_assoc.
  - destruct (Z.eqb_spec (e + 112) 255); [lia|]. replace (e + 112 - 127 + 15) with e by lia.
    destruct (Z.leb_spec 0x1f e); [lia|]. destruct (Z.leb_spec e 0); [lia|]. rewrite half_round_exact by lia.
    change 0x400 with (2 ^ 10). rewrite test_pow2 by lia. rewrite (in_width_high 10 m) by (unfold in_width; lia).
    change 0x3ff with (Z.ones 10). rewrite Z.land_ones, Z.mod_small by lia. rewrite (or_fields _ _ _ 15 10); try done; unfold in_width; cbn; lia.
Qed.

Lemma f16_subnormal s m rc : 0 <= m < 1024 -> 0 <= rc < 4 -> f32_to_f16 (f16_to_f32 (f16_of s 0 m)) rc = f16_of s 0 m.
Proof.
  intros Hm Hrc. pose proof (all_below_spec _ _ _ m f16_sweep ltac:(lia)) as H. unfold f16_back_ok in H.
  apply (proj1 (forallb_forall _ _)) with (x := rc) in H; [|assert (rc = 0 \/ rc = 1 \/ rc = 2 \/ rc = 3) as Hc by lia; cbn; lia].
  apply andb_prop in H as [H1 H2]. apply Z.eqb_eq in H1, H2.
  assert (f16_to_f32 (f16_of s 0 m) = if s then Z.lor (f16_to_f32 m) (2 ^ 31) else f16_to_f32 m) as ->.
  { destruct s; [|done]. destruct (f16_fields true 0 m ltac:(lia) Hm) as (Es & Ee & Em), (f16_fields false 0 m ltac:(lia) Hm) as (Es' & Ee' & Em').
    change (f16_of false 0 m) with m in *. unfold f16_to_f32. rewrite Es, Ee, Em, Es', Ee', Em'. cbn [Z.eqb].
    destruct (m =? 0); [done|]. change (Z.shiftl (b2z false) 31) with 0. by rewrite Z.lor_0_r. }
  destruct s; [exact H2|exact H1].
Qed.

Lemma f32_to_f16_mode x rc : f32_to_f16 x rc = f32_to_f16 x (Z.land rc 3).
Proof. unfold f32_to_f16, half_round. by rewrite <- (Z.land_assoc rc 3 3). Qed.

(** ** The theorems *)

(** C26: AVX-512 packed arithmetic is exact element by element.  Under a write mask, element
    [i] of the destination is the instruction's arithmetic (modular, saturating, signed or
    unsigned, compare, average, high product) on elements [i] of the sources where mask
    bit [i] is set, otherwise zero or the old element; everything above the operand width
    is cleared, and no other vector register changes. *)
Theorem masked_packed_exact (cur : Z) (op : PackedBinOp) (dst a b k : nat) (elem bytes : Z) (zeroing : bool) (s : mach) :
  cpu_wf (m_cpu s) -> (dst < 32)%nat -> (a < 32)%nat -> (b < 32)%nat -> (k < 8)%nat -> packed_lane op elem -> valid_vec bytes ->
  exists c', exec_vec cur (VMaskedPacked dst a b op k elem zeroing bytes) s = Some (None, mkMach c' (m_mem s) (m_temps s)) /\
  (forall i, 0 <= i < 64 / elem ->
     reg_elem (vec_lanes c' dst) elem i =
     if i <? bytes / elem then
       if Z.testbit (nth k (kmask (m_cpu s)) 0) i then
         packed_spec op (elem * 8) (reg_elem (vec_lanes (m_cpu s) a) elem i) (reg_elem (vec_lanes (m_cpu s) b) elem i)
       else if zeroing then 0 else reg_elem (vec_lanes (m_cpu s) dst) elem i
     else 0) /\
  (forall r, r <> dst -> vec_lanes c' r = vec_lanes (m_cpu s) r).
Proof.
  intros Hc Hd Ha Hb Hk Ho Hv. eexists. split; [|split].
  - unfold exec_vec. cbn -[write_masked lanes4 vec_lanes Nat.ltb]. unfold exec_v_masked_packed, reg_arm, apply_masked_packed, try_cpu, with_masked, lanes_of, guard_reg, guard_k.
    do 4 (rewrite (proj2 (Nat.ltb_lt _ _)) by done; cbn [mbind option_bind]). reflexivity.
  - intros i Hi. rewrite write_masked_elem by (done || by eapply packed_lane_elem). by rewrite lanes4_packed.
  - intros r Hr. by apply lane_set_vec_other.
Qed.

(** A half-precision number survives the conversion to single precision and back, in
    every rounding mode: zeroes, subnormal and normal numbers and infinities bit for bit,
    and a NaN as its quiet form with the same sign and payload. *)
Theorem half_round_trip (h rc : Z) : in_width 16 h -> f32_to_f16 (f16_to_f32 h) rc = f16_back h.
Proof.
  intros Hh. destruct (f16_split h Hh) as (s & e & m & He & Hm & ->). destruct (Z.eq_dec e 0) as [->|].
  - rewrite f32_to_f16_mode. rewrite f16_subnormal; [|done|change 3 with (Z.ones 2); rewrite Z.land_ones by lia; apply Z.mod_pos_bound; lia].
    unfold f16_back. destruct (f16_fields s 0 m ltac:(lia) Hm) as (_ & Ee & _). change 31 with 0x1f at 1. by rewrite Ee.
  - rewrite f16_widen by lia. apply f16_narrow; lia.
Qed.

(** Packed shifts by an immediate, for every count: a left or logical right shift is
    the product or quotient by a power of two inside the element (zero once the count
    reaches the element's width), an arithmetic right shift the signed quotient (only the
    sign once the count reaches the width). *)
Theorem packed_shift_exact (lane_ a imm : Z) (right_ arith : bool) (i : Z) : valid_elem lane_ -> 0 <= imm -> 0 <= i < 16 / lane_ ->
  velem (lane_ * 8) (packed_shift a imm lane_ right_ arith) i = shift_spec (lane_ * 8) (velem (lane_ * 8) a i) imm right_ arith.
Proof. apply packed_shift_elem. Qed.

(** ** On concrete inputs *)

Definition ex_vec_cpu : CpuState :=
  set_kmask (set_xmm default_cpu (<[1%nat := 0x00000002_7FFFFFFF_00000005_FFFFFFFF]> (<[2%nat := 0x1_00000001_00000003_00000001]> (xmm default_cpu))))
    (<[1%nat := 0x7]> (kmask default_cpu)).
Lemma ex_vec_cpu_wf : cpu_wf ex_vec_cpu.
Proof. destruct default_cpu_wf. split; done. Qed.

Lemma masked_packed_exact_witness : exists c',
  exec_vec 0 (VMaskedPacked 3 1 2 AddSatS 1 4 true 16) (mkMach ex_vec_cpu ex_mem []) = Some (None, mkMach c' ex_mem []) /\
  reg_elem (vec_lanes c' 3) 4 0 = 0 /\ reg_elem (vec_lanes c' 3) 4 2 = 0x7FFFFFFF.
Proof.
  destruct (masked_packed_exact 0 AddSatS 3 1 2 1 4 16 true (mkMach ex_vec_cpu ex_mem [])) as (c' & E & H & _);
    [exact ex_vec_cpu_wf|lia|lia|lia|lia|by do 2 right; left|by left|].
  exists c'. split; [exact E|]. split; rewrite H by (split; [lia|reflexivity]); vm_compute; reflexivity.
Defined.

Lemma half_round_trip_witness : f32_to_f16 (f16_to_f32 0x83FF) 2 = 0x83FF /\ f32_to_f16 (f16_to_f32 0x7C01) 0 = 0x7E01.
Proof. split; rewrite half_round_trip by (split; lia); reflexivity. Defined.

Lemma packed_shift_exact_witness : velem 16 (packed_shift 0x8000_0001 200 2 true true) 1 = 0xFFFF.
Proof. change 16 with (2 * 8). rewrite (packed_shift_exact 2 0x8000_0001 200 true true 1); [reflexivity|by right; left|lia|by split]. Defined.
