(* ===== verification/VecRun.v ===== *)
(** * Vector accesses on both memories

    The runs of [VecMem] are generic in the memory: the interpreter runs them on the
    checked memory, the compiled code's helpers on the raw guest buffer.  Here: every run
    is simulated by the run on the guest view, and a masked load touches exactly its
    active elements on either memory. *)

From S2P Require Import Prelude Features State Ir Aes Sha Alu Memory Interp IntegerSpec StringOps HostFloat VecOps VecFloat VecMem VecCpu VecArm VecOp VecRange VecSafe VecAtomic VecTotal VecLane.

(** ** Simulation by the guest view *)

Section Sim.
Context {T : Type} `{StrMemLaws T}.

(** The same result, and a memory that shows the view. *)
Definition msim {A} (o : option (A * T)) (o' : option (A * View)) : Prop :=
  match o, o' with
  | Some (a, m), Some (a', g) => a = a' /\ sm_shows m g
  | None, None => True
  | _, _ => False
  end.

Lemma msim_ret {A} (a : A) m g : sm_shows m g -> msim (Some (a, m)) (Some (a, g)).
Proof. by split. Qed.
Lemma msim_bind {A B} (o : option (A * T)) o' (k : A * T -> option (B * T)) (k' : A * View -> option (B * View)) :
  msim o o' -> (forall a m g, sm_shows m g -> msim (k (a, m)) (k' (a, g))) -> msim (o ≫= k) (o' ≫= k').
Proof.
  intros Ho Hk. destruct o as [[a m]|], o' as [[a' g]|]; try done; cbn [mbind option_bind]. destruct Ho as [-> Hm]. by apply Hk.
Qed.
Lemma msim_sload m g a n : sm_shows m g -> valid_elem n -> msim (sload m a n) (sload g a n).
Proof. intros Hm Hn. destruct (sload_law m g a n Hm Hn) as (m' & -> & Hm'). by split. Qed.
Lemma msim_sstore m g a v n : sm_shows m g -> valid_elem n -> msim (sstore m a v n) (sstore g a v n).
Proof. intros Hm Hn. destruct (sstore_law m g a v n Hm Hn) as (m' & -> & Hm'). by split. Qed.
Lemma msim_done oc m g : sm_shows m g -> msim (VecMem.done oc m) (VecMem.done oc g).
Proof. intros. by destruct oc. Qed.
End Sim.

Create HintDb msim.
#[export] Hint Resolve msim_ret msim_sload msim_sstore msim_done : msim.
#[export] Hint Extern 1 (valid_elem 8) => unfold valid_elem; lia : msim.
#[export] Hint Extern 1 (valid_elem (prec_bytes ?p)) => destruct p; unfold valid_elem; cbn; lia : msim.
(** One statement of a run on both sides. *)
Ltac msim_step :=
  match goal with
  | |- msim (mbind _ _) (mbind _ _) => apply msim_bind; [solve [eauto with msim]|intros]
  | |- msim (match ?r with _ => _ end) (match ?r with _ => _ end) => destruct r
  | |- msim (if ?b then _ else _) (if ?b then _ else _) => destruct b
  end.
Ltac msim_tac := cbn beta iota zeta; repeat (first [solve [eauto with msim]|msim_step]; cbn beta iota zeta).

Section Runs.
Context {T : Type} `{StrMemLaws T}.

Lemma msim_load_lane16 m g ea : sm_shows m g -> msim (load_lane16 m ea) (load_lane16 g ea).
Proof. intros. unfold load_lane16. msim_tac. Qed.
Hint Resolve msim_load_lane16 : msim.

Lemma msim_load_lanes_loop m g base n i : sm_shows m g -> msim (load_lanes_loop m base n i) (load_lanes_loop g base n i).
Proof. revert m g i. induction n as [|n IH]; intros; cbn [load_lanes_loop]; msim_tac. Qed.
Hint Resolve msim_load_lanes_loop : msim.
Lemma msim_load_lanes m g base n : sm_shows m g -> msim (load_lanes m base n) (load_lanes g base n).
Proof. intros. unfold load_lanes. msim_tac. Qed.
Hint Resolve msim_load_lanes : msim.

Lemma msim_with_operand c m g ca base n k k' : sm_shows m g -> (forall v m g, sm_shows m g -> msim (k v m) (k' v g)) ->
  msim (with_operand c m ca base n k) (with_operand c g ca base n k').
Proof. intros Hm Hk. unfold with_operand, fault_at. msim_tac. Qed.

Lemma msim_gf2p8_loop op al m g addr imm n i : sm_shows m g -> msim (gf2p8_loop op al m addr imm n i) (gf2p8_loop op al g addr imm n i).
Proof. revert m g i. induction n as [|n IH]; intros; cbn [gf2p8_loop]; msim_tac. Qed.
Lemma msim_load_chunk m g base n i : sm_shows m g -> msim (load_chunk m base n i) (load_chunk g base n i).
Proof. revert m g i. induction n as [|n IH]; intros; cbn [load_chunk]; msim_tac. Qed.
Lemma msim_masked_load_loop m g base k elem z n i lanes : valid_elem elem -> sm_shows m g ->
  msim (masked_load_loop m base k elem z n i lanes) (masked_load_loop g base k elem z n i lanes).
Proof. intros He. revert m g i lanes. induction n as [|n IH]; intros; cbn [masked_load_loop]; msim_tac. Qed.
Lemma msim_store_loop m g active value base elem n i : valid_elem elem -> sm_shows m g ->
  msim (store_loop m active value base elem n i) (store_loop g active value base elem n i).
Proof. intros He. revert m g i. induction n as [|n IH]; intros; cbn [store_loop]; msim_tac. Qed.

(** ** The runs shared by the interpreter and the compiled code's helpers *)

Inductive VecRun : Type :=
  | RVperm1 (dst idx : nat) (base elem : Z) (writemask : option nat) (zeroing : bool) (bytes : Z)
  | RPermute2 (dst idx : nat) (base elem : Z) (writemask : option nat) (zeroing : bool) (bytes : Z) (imode : bool)
  | RGf2p8 (dst a : nat) (addr imm mode : Z) (k : nat) (zeroing : bool) (bytes : Z)
  | RFma (dst x y z : nat) (base mem_role : Z) (p : FPrec) (scalar neg_prod neg_add : bool) (bytes alt_sign : Z) (writemask : option nat) (zeroing : bool)
  | RBroadcastLane (dst : nat) (base chunk elem dst_width : Z) (writemask : option nat) (zeroing : bool)
  | RMaskedLoad (dst : nat) (base k elem : Z) (zeroing : bool) (bytes : Z)
  | RMaskedStore (src : nat) (base k elem bytes : Z)
  | RNarrowStore (src : nat) (from to src_width base : Z).

Definition vec_run {M} `{StrMem M} (r : VecRun) (cur_addr : Z) (c : CpuState) (mem : M) : option (option StrFault * CpuState * M) :=
  match r with
  | RVperm1 dst idx base elem wm z bytes => vperm1_run c mem dst idx base elem wm z bytes cur_addr
  | RPermute2 dst idx base elem wm z bytes imode => permute2_run c mem dst idx base elem wm z bytes imode cur_addr
  | RGf2p8 dst a addr imm mode k z bytes => gf2p8_mem_run c mem dst a addr imm mode k z bytes
  | RFma dst x y z base role p sc np na bytes alt wm zr => fma_mem_run c mem dst x y z base role p sc np na bytes alt cur_addr wm zr
  | RBroadcastLane dst base chunk elem dw wm z => broadcast_lane_mem_run c mem dst base chunk elem dw wm z cur_addr
  | RMaskedLoad dst base k elem z bytes => masked_load_run c mem dst base k elem z bytes cur_addr
  | RMaskedStore src base k elem bytes => masked_store_run c mem src base k elem bytes cur_addr
  | RNarrowStore src from to sw base => narrow_store_run c mem src from to sw base cur_addr
  end.

(** The sizes that reach memory are those of an element. *)
Definition run_sizes (r : VecRun) : Prop :=
  match r with
  | RMaskedLoad _ _ _ elem _ _ | RMaskedStore _ _ _ elem _ => valid_elem elem
  | RNarrowStore _ _ to _ _ => valid_elem to
  | _ => True
  end.

Hint Resolve msim_gf2p8_loop msim_load_chunk msim_masked_load_loop msim_store_loop msim_with_operand : msim.

Lemma msim_store_run c m g active value base elem n ca : valid_elem elem -> sm_shows m g ->
  msim (store_run c m active value base elem n ca) (store_run c g active value base elem n ca).
Proof. intros. unfold store_run, fault_at. msim_tac. Qed.
Hint Resolve msim_store_run : msim.

Lemma msim_guard {A B} (o : option A) (k : A -> option (B * T)) (k' : A -> option (B * View)) :
  (forall a, msim (k a) (k' a)) -> msim (o ≫= k) (o ≫= k').
Proof. intros Hk. destruct o; [apply Hk|done]. Qed.

Lemma vec_run_sim r ca c m g : run_sizes r -> sm_shows m g -> msim (vec_run r ca c m) (vec_run r ca c g).
Proof.
  intros Hr Hm. destruct r; cbn [vec_run run_sizes] in *;
    unfold vperm1_run, permute2_run, gf2p8_mem_run, fma_mem_run, broadcast_lane_mem_run, masked_load_run, masked_store_run, narrow_store_run, fault_at;
    cbn zeta; try (apply msim_guard; intros); msim_tac.
  all: try (apply msim_with_operand; [done|intros; msim_tac]).
Qed.
End Runs.

(** ** Masked loads on the guest view *)

Section Masked.
Context (g : View) (base km elem : Z) (zeroing : bool).
Context (Hg : view_wf g) (He : valid_elem elem).

Definition active (i : Z) : bool := Z.testbit km i.
Definition elem_addr (i : Z) : Z := wrapping_add 64 base (i * elem).

Lemma active_test i : 0 <= i < 64 -> negb (Z.land km (wrap 64 (Z.shiftl 1 i)) =? 0) = active i.
Proof.
  intros Hi. rewrite Z.shiftl_1_l, wrap_small by (split; [apply Z.pow_nonneg; lia|apply Z.pow_lt_mono_r; lia]).
  apply (test_pow2 km i). lia.
Qed.
Lemma v_le_elem a : wrap (elem * 8) (v_le g a elem) = v_le g a elem.
Proof.
  apply wrap_small. pose proof (valid_elem_range elem He). unfold v_le.
  assert (Forall (in_width 8) (v_byte g <$> zseq a (Z.to_nat elem))) as Hb by (apply Forall_fmap, list.Forall_forall; intros x _; apply Hg).
  apply from_le_bytes_range in Hb. rewrite length_fmap, length_zseq, Z2Nat.id in Hb by lia. by rewrite Z.mul_comm.
Qed.
Lemma elems_bound : 64 / elem <= 64.
Proof. by destruct He as [->|[->|[->| ->]]]. Qed.

Definition loaded (old : Z) (i : Z) : Z := if active i then v_le g (elem_addr i) elem else if zeroing then 0 else old.

Lemma masked_load_view n i lanes : length lanes = 4%nat -> 0 <= i -> i + Z.of_nat n <= 64 / elem ->
  (forall j, i <= j < i + Z.of_nat n -> active j = true -> g_read g (elem_addr j) elem = Ok (v_le g (elem_addr j) elem)) ->
  exists r, masked_load_loop g base km elem zeroing n i lanes = Some (Ok r, g) /\ length r = 4%nat /\
    forall j, 0 <= j < 64 / elem -> reg_elem r elem j = if (i <=? j) && (j <? i + Z.of_nat n) then loaded (reg_elem lanes elem j) j else reg_elem lanes elem j.
Proof.
  pose proof elems_bound. revert i lanes. induction n as [|n IH]; intros i lanes Hlen Hi Hfit Hok; cbn [masked_load_loop].
  - exists lanes. split; [done|]. split; [done|]. intros j Hj. destruct (Z.leb_spec i j), (Z.ltb_spec j (i + Z.of_nat 0)); (done || lia).
  - rewrite active_test by lia. fold (elem_addr i).
    set (lanes1 := if active i then set_velem lanes i elem (v_le g (elem_addr i) elem) else if zeroing then set_velem lanes i elem 0 else lanes).
    assert (length lanes1 = 4%nat /\ forall j, 0 <= j < 64 / elem ->
      reg_elem lanes1 elem j = if i =? j then loaded (reg_elem lanes elem j) j else reg_elem lanes elem j) as [Hl1 He1].
    { unfold lanes1, loaded. split; [destruct (active i), zeroing; by rewrite ?set_velem_length|]. intros j Hj.
      destruct (active i) eqn:Ea; [|destruct zeroing]; rewrite ?set_velem_elem by (done || lia);
        destruct (Z.eqb_spec i j) as [<-|]; rewrite ?Ea, ?v_le_elem; done. }
    destruct (IH (i + 1) lanes1 Hl1 ltac:(lia) ltac:(lia)) as (r & E & Hr & Hv); [intros; apply Hok; [lia|done]|].
    exists r. split.
    { rewrite <- E. unfold lanes1. destruct (active i) eqn:Ea; [|by destruct zeroing].
      change (sload g (elem_addr i) elem) with (Some (g_read g (elem_addr i) elem, g)). rewrite Hok by (done || lia). done. }
    split; [done|]. intros j Hj. rewrite Hv, He1 by done.
    destruct (Z.eqb_spec i j), (Z.leb_spec (i + 1) j), (Z.ltb_spec j (i + 1 + Z.of_nat n)), (Z.leb_spec i j), (Z.ltb_spec j (i + Z.of_nat (S n)));
      (done || lia).
Qed.

(** The first active element that cannot be read ends the load. *)
Lemma masked_load_fault n i lanes j t : 0 <= i <= j -> j < i + Z.of_nat n -> i + Z.of_nat n <= 64 / elem ->
  active j = true -> g_read g (elem_addr j) elem = Err t ->
  (forall l, i <= l < j -> active l = true -> g_read g (elem_addr l) elem = Ok (v_le g (elem_addr l) elem)) ->
  masked_load_loop g base km elem zeroing n i lanes = Some (Err (elem_addr j, t), g).
Proof.
  pose proof elems_bound. revert i lanes. induction n as [|n IH]; intros i lanes Hij Hj Hfit Ha Hf Hok; [lia|].
  cbn [masked_load_loop]. rewrite active_test by lia. fold (elem_addr i). destruct (Z.eq_dec i j) as [->|].
  - rewrite Ha. change (sload g (elem_addr j) elem) with (Some (g_read g (elem_addr j) elem, g)). by rewrite Hf.
  - destruct (active i) eqn:Ea.
    + change (sload g (elem_addr i) elem) with (Some (g_read g (elem_addr i) elem, g)). rewrite Hok by (done || lia).
      cbn [mbind option_bind]. apply IH; try done; try lia. intros; apply Hok; [lia|done].
    + apply IH; try done; try lia. intros; apply Hok; [lia|done].
Qed.
End Masked.

(** C12: a masked vector load touches exactly its active elements, on the interpreter's
    checked memory and on the compiled code's raw buffer alike.  If every active element
    is readable the load completes, whatever the inactive ones point at: an active element
    is the memory's, an inactive one is zero or as it was, all above the operand width is
    cleared, and no other vector register, general register or flag changes.  Otherwise it
    stops at the first active element that cannot be read, reports that element's address
    and size, and no register but RIP (on the instruction) changes. *)
Theorem masked_load_exact {T} `{L : StrMemLaws T} (c : CpuState) (m : T) (g : View) (dst : nat) (base km elem bytes ca : Z) (zeroing : bool) :
  sm_shows m g -> view_wf g -> (dst < 32)%nat -> cpu_wf c -> valid_elem elem -> valid_vec bytes ->
  let n := bytes / elem in
  let readable i := g_read g (elem_addr base elem i) elem = Ok (v_le g (elem_addr base elem i) elem) in
  ((forall i, 0 <= i < n -> active km i = true -> readable i) ->
   exists c' m', masked_load_run c m dst base km elem zeroing bytes ca = Some (None, c', m') /\ sm_shows m' g /\
   (forall i, 0 <= i < 64 / elem -> reg_elem (vec_lanes c' dst) elem i =
      if i <? n then loaded g base km elem zeroing (reg_elem (vec_lanes c dst) elem i) i else 0) /\
   (forall r, r <> dst -> vec_lanes c' r = vec_lanes c r) /\ gpr c' = gpr c /\ flags c' = flags c /\ rip c' = rip c) /\
  (forall j t, 0 <= j < n -> active km j = true -> g_read g (elem_addr base elem j) elem = Err t ->
   (forall i, 0 <= i < j -> active km i = true -> readable i) ->
   exists m', masked_load_run c m dst base km elem zeroing bytes ca =
     Some (Some (mkFault (elem_addr base elem j) false t 0 elem), set_rip c ca, m') /\ sm_shows m' g).
Proof.
  intros Hm Hg Hd Hc He Hb n readable.
  pose proof (vec_run_sim (RMaskedLoad dst base km elem zeroing bytes) ca c m g He Hm) as Hsim.
  assert (0 <= n <= 64 / elem) by (unfold n; clear -He Hb; destruct He as [->|[->|[->| ->]]], Hb as [->|[->| ->]]; by split).
  assert (Z.of_nat (Z.to_nat n) = n) as En by lia.
  cbn [vec_run] in Hsim. unfold msim in Hsim. split.
  - intros Hok. destruct (masked_load_view g base km elem zeroing Hg He (Z.to_nat n) 0 (vec_lanes c dst)) as (r & E & Hl & Hr); [done|lia|lia|..].
    { intros j Hj. apply Hok. lia. }
    assert (masked_load_run c g dst base km elem zeroing bytes ca = Some (None, set_vec c dst r bytes, g)) as Ev.
    { unfold masked_load_run, lanes_of, VecMem.done, with_vec. rewrite !guard_reg_lt by done. cbn [mbind option_bind]. fold n. rewrite E.
      cbn [mbind option_bind]. by rewrite guard_reg_lt. }
    rewrite Ev in Hsim. destruct (masked_load_run c m _ _ _ _ _ _ _) as [[[f c'] m']|]; [|destruct Hsim]. destruct Hsim as [[= -> ->] Hs].
    eexists _, m'. split; [done|]. split; [done|]. split; [|split; [intros; by apply lane_set_vec_other|done]].
    intros i Hi. rewrite set_vec_elem by done. fold n. destruct (Z.ltb_spec i n); [|done]. rewrite Hr by done.
    rewrite (proj2 (Z.leb_le 0 i)), (proj2 (Z.ltb_lt i _)) by lia. done.
  - intros j t Hj Ha Hf Hok.
    assert (masked_load_run c g dst base km elem zeroing bytes ca =
      Some (Some (mkFault (elem_addr base elem j) false t 0 elem), set_rip c ca, g)) as Ev.
    { unfold masked_load_run, lanes_of. rewrite guard_reg_lt by done. cbn [mbind option_bind]. fold n.
      by rewrite (masked_load_fault g base km elem zeroing He (Z.to_nat n) 0 (vec_lanes c dst) j t)
        by (done || lia || (intros; apply Hok; [lia|done])). }
    rewrite Ev in Hsim. destruct (masked_load_run c m _ _ _ _ _ _ _) as [[[f c'] m']|]; [|destruct Hsim]. destruct Hsim as [[= -> ->] Hs]. by exists m'.
Qed.

Lemma ex_reads i : 0 <= i < 4 -> active 5 i = true ->
  g_read (view ex_mem) (elem_addr 4988 4 i) 4 = Ok (v_le (view ex_mem) (elem_addr 4988 4 i) 4).
Proof. intros Hi Ha. assert (i = 0 \/ i = 1 \/ i = 2 \/ i = 3) as Hc by lia. destruct Hc as [->|[->|[->| ->]]]; vm_compute; reflexivity. Qed.

(** The first and third element are in RAM, the fourth (inactive) would cross its end. *)
Lemma masked_load_exact_witness : exists c' m',
  masked_load_run default_cpu ex_mem 3 4988 5 4 true 16 0x1000 = Some (None, c', m') /\ reg_elem (vec_lanes c' 3) 4 3 = 0.
Proof.
  destruct (masked_load_exact (L := memory_str_laws) default_cpu ex_mem (view ex_mem) 3 4988 5 4 16 0x1000 true
    (shows_same ex_mem ex_mem_wf) (mem_view_wf ex_mem ex_mem_wf) ltac:(lia) default_cpu_wf ltac:(by do 2 right; left) ltac:(by left)) as [H _].
  destruct (H ex_reads) as (c' & m' & E & _ & Hv & _). exists c', m'. split; [exact E|].
  rewrite Hv by (split; [lia|reflexivity]). vm_compute. reflexivity.
Defined.
