(* ===== verification/VecMmio.v ===== *)
(** * Vector loads from devices

    A vector load is a sequence of transfers: one of 4 bytes, or one to eight of 8.  One
    that reaches a trapped region leaves the block; the embedder answers that transfer and
    the op is executed again from its start.  The answers are kept by instruction and address
    ([mmio_parts]), so each round gets one transfer further: after as many answers as
    the load has device transfers it completes. *)

From S2P Require Import Prelude Features State Ir Aes Sha Alu Memory Interp IntegerSpec StringOps HostFloat VecOps VecFloat VecMem VecCpu VecArm VecOp VecRange VecSafe VecAtomic VecTotal VecLane.

(** ** A load as a list of transfers *)

Fixpoint vparts (cur pw : Z) (addrs : list Z) : M (Result (list Z) VecFault) :=
  match addrs with
  | [] => mret (Ok [])
  | a :: rest => vthen (vpart cur a pw) (fun v => vthen (vparts cur pw rest) (fun vs => mret (Ok (v :: vs))))
  end.

Fixpoint lane_parts (base : Z) (n i : nat) : list Z :=
  match n with
  | O => []
  | S n' => let a := wrapping_add 64 base (Z.of_nat i * 16) in a :: wrapping_add 64 a 8 :: lane_parts base n' (S i)
  end.
(** Two transfers to a 16-byte lane; a lone one is the low part of its lane. *)
Fixpoint join_parts (vs : list Z) : list Z :=
  match vs with lo :: hi :: vs => Z.lor lo (shl128 hi 64) :: join_parts vs | _ => vs end.

Lemma vthen_run {A B} (x : M (Result A VecFault)) (k : A -> M (Result B VecFault)) s :
  vthen x k s = match x s with Some (Ok a, s') => k a s' | Some (Err f, s') => Some (Err f, s') | None => None end.
Proof. unfold vthen, mbind, M_bind. destruct (x s) as [[[] ?]|]; done. Qed.

Lemma vload_loop_parts cur base n i s :
  vload_loop cur base n i s = vthen (vparts cur 8 (lane_parts base n i)) (fun vs => mret (Ok (join_parts vs))) s.
Proof.
  revert i s. induction n as [|n IH]; intros i s; [done|]. cbn [vload_loop lane_parts]. unfold vload. cbn [Z.eqb Pos.eqb].
  set (a := wrapping_add 64 base _). cbn [vparts]. rewrite !vthen_run.
  destruct (vpart cur a 8 s) as [[[lo|f] s1]|]; [|done..]. rewrite !vthen_run.
  destruct (vpart cur (wrapping_add 64 a 8) 8 s1) as [[[hi|f] s2]|]; [|done..]. cbn [mret M_ret]. rewrite vthen_run, IH, !vthen_run.
  by destruct (vparts cur 8 (lane_parts base n (S i)) s2) as [[[vs|f] s3]|].
Qed.

(** ** The answers of an instruction *)

(** The table holds the answers [l] of the instruction at [cur], or nothing of it. *)
Definition answered (cur : Z) (c : CpuState) (l : list (Z * Z)) : Prop :=
  parts_are c cur l \/ (l = [] /\ mmio_parts_rip c <> cur).

Lemma answered_lookup cur c l a : answered cur c l -> NoDup l.*1 -> mmio_part c cur a = (list_to_map l : gmap Z Z) !! a.
Proof.
  intros [H|[-> H]] Hnd; [by apply parts_are_lookup|]. unfold mmio_part. by destruct (Z.eqb_spec (mmio_parts_rip c) cur).
Qed.
Lemma answered_record cur c l a v : answered cur c l -> NoDup l.*1 -> a ∉ l.*1 -> length (mmio_parts c) = 8%nat -> (length l < 8)%nat ->
  answered cur (record_mmio_part c cur a v) (l ++ [(a, v)]).
Proof.
  intros [H|[-> H]] Hnd Ha H8 Hl; left; [by apply parts_are_record|]. rewrite record_fresh by auto. by apply parts_are_record.
Qed.
Lemma record_arch c cur a v : arch (record_mmio_part c cur a v) = arch c /\ pending_mmio (record_mmio_part c cur a v) = pending_mmio c.
Proof. unfold record_mmio_part. destruct (negb _); repeat case_match; by split. Qed.

(** ** One round *)

Section Device.
Context (cur : Z) (g : View) (dev : Z -> Z) (pw : Z).

Definition is_dev (a : Z) : bool := match v_kind g a pw with Some TrapRegion => true | _ => false end.
Definition mapped (a : Z) : Prop := v_kind g a pw <> None.
(** What the transfer at [a] delivers in the end. *)
Definition part_value (a : Z) : Z := if is_dev a then wrap (8 * pw) (dev a) else v_le g a pw.
(** The device transfers among [addrs] that have no answer yet. *)
Definition todo (l : list (Z * Z)) (addrs : list Z) : list Z := filter (fun a => is_dev a = true /\ a ∉ l.*1) addrs.

Record answers (c : CpuState) (l : list (Z * Z)) : Prop := {
  an_table : answered cur c l;
  an_nodup : NoDup l.*1;
  an_size : length (mmio_parts c) = 8%nat;
  an_values : Forall (fun p => p.2 = part_value p.1) l;
}.

Lemma answers_part c l a : answers c l -> mmio_part c cur a = if decide (a ∈ l.*1) then Some (part_value a) else None.
Proof.
  intros [Ha Hn _ Hv]. rewrite (answered_lookup cur c l a Ha Hn). case_decide as Hin.
  - apply list_elem_of_fmap in Hin as ([a' v] & -> & Hin). apply elem_of_list_to_map_1; [done|].
    rewrite list.Forall_forall in Hv. pose proof (Hv _ Hin) as E. cbn in E |- *. by rewrite <- E.
  - by apply not_elem_of_list_to_map_1.
Qed.
Lemma answers_rip c l r : answers c l -> answers (set_rip c r) l.
Proof. by intros []. Qed.
Lemma answers_pending c l p : answers c l -> answers (set_pending_mmio c p) l.
Proof. by intros []. Qed.
Lemma answers_record c l a : answers c l -> a ∉ l.*1 -> (length l < 8)%nat ->
  answers (record_mmio_part c cur a (part_value a)) (l ++ [(a, part_value a)]).
Proof.
  intros [] Ha Hl. split; [by apply answered_record| |by rewrite record_length|].
  - rewrite fmap_app. cbn. apply list.NoDup_app. split; [done|]. split; [set_solver|apply NoDup_singleton].
  - apply Forall_app_2; [done|]. by constructor.
Qed.

Lemma vpart_answered c m t a v : mmio_part c cur a = Some v -> vpart cur a pw (mkMach c m t) = Some (Ok v, mkMach c m t).
Proof. intros E. unfold vpart, mbind, M_bind, get_cpu. cbn [m_cpu]. by rewrite E. Qed.
Context (Hpw : valid_elem pw).

Lemma vpart_reads c m t a : mmio_part c cur a = None -> shows m g -> mapped a ->
  exists m', shows m' g /\ vpart cur a pw (mkMach c m t) =
    if is_dev a then
      match pending_mmio c with
      | Some w => Some (Ok (wrap (8 * pw) w), mkMach (record_mmio_part (set_pending_mmio c None) cur a (wrap (8 * pw) w)) m' t)
      | None => Some (Err (mkVecFault a pw Mmio 0), mkMach c m' t)
      end
    else Some (Ok (v_le g a pw), mkMach c m' t).
Proof.
  intros E Hm Hk. destruct (sload_law (StrMemLaws := memory_str_laws) m g a pw Hm Hpw) as (m' & Er & Hm').
  exists m'. split; [done|]. unfold vpart, mbind, M_bind, get_cpu, on_mem. cbn [m_cpu]. rewrite E.
  change (sload m a pw) with (read m a pw) in Er. cbn [m_cpu m_mem m_temps]. rewrite Er. unfold g_read, is_dev, mapped in *.
  destruct (v_kind g a pw) as [[]|]; try done. destruct (pending_mmio c); [|done]. rewrite land_mask by done. done.
Qed.

Lemma todo_done l a addrs : a ∈ l.*1 \/ is_dev a = false -> todo l (a :: addrs) = todo l addrs.
Proof. intros H. unfold todo. apply filter_cons_False. intros [Hd Hn]. destruct H; [done|congruence]. Qed.
Lemma todo_next l a addrs : a ∉ l.*1 -> is_dev a = true -> todo l (a :: addrs) = a :: todo l addrs.
Proof. intros. by apply filter_cons_True. Qed.
Lemma todo_snoc l a v addrs : a ∉ addrs -> todo (l ++ [(a, v)]) addrs = todo l addrs.
Proof.
  intros Ha. unfold todo. induction addrs as [|x addrs IH]; [done|]. apply not_elem_of_cons in Ha as [Hne Ha].
  rewrite !filter_cons, IH by done. rewrite fmap_app. repeat case_decide; set_solver.
Qed.

Lemma todo_answer l d v rest addrs : NoDup addrs -> todo l addrs = d :: rest -> todo (l ++ [(d, v)]) addrs = rest.
Proof.
  induction 1 as [|a addrs Ha Hnd IH]; [done|]. intros Ht. destruct (decide (a ∈ l.*1 \/ is_dev a = false)) as [Hd|Hd].
  - rewrite todo_done in Ht by done. rewrite todo_done; [by apply IH|]. rewrite fmap_app. set_solver.
  - assert (a ∉ l.*1 /\ is_dev a = true) as [Hn Hdev] by (destruct (is_dev a); tauto). rewrite todo_next in Ht by done.
    injection Ht as -> <-. rewrite todo_done by (rewrite fmap_app; set_solver). by apply todo_snoc.
Qed.

Lemma todo_nil addrs : todo [] addrs = filter (fun a => is_dev a = true) addrs.
Proof. apply list_filter_iff. intros x. split; [by intros []|]. split; [done|apply not_elem_of_nil]. Qed.

Lemma vparts_none c m t l addrs : answers c l -> shows m g -> Forall mapped addrs -> pending_mmio c = None ->
  exists m', shows m' g /\ vparts cur pw addrs (mkMach c m t) =
    Some (match todo l addrs with [] => Ok (part_value <$> addrs) | d :: _ => Err (mkVecFault d pw Mmio 0) end, mkMach c m' t).
Proof.
  intros Hc Hm Hk Hp. revert m Hm. induction Hk as [|a addrs Ha Hk IH]; intros m Hm; [by exists m|].
  cbn [vparts]. pose proof (answers_part c l a Hc) as Ea. case_decide as Hin.
  - rewrite vthen_run, (vpart_answered c m t a (part_value a) Ea), vthen_run, todo_done by auto.
    destruct (IH m Hm) as (m' & Hm' & ->). exists m'. split; [done|]. by destruct (todo l addrs).
  - destruct (vpart_reads c m t a Ea Hm Ha) as (m1 & Hm1 & E1). rewrite vthen_run, E1. destruct (is_dev a) eqn:Ed.
    + rewrite Hp. exists m1. split; [done|]. by rewrite todo_next.
    + rewrite vthen_run, todo_done by auto. destruct (IH m1 Hm1) as (m' & Hm' & ->). exists m'. split; [done|].
      unfold part_value at 2. cbn [fmap list_fmap]. unfold part_value at 1. rewrite Ed. by destruct (todo l addrs).
Qed.

(** The round after an answer: it is used by the first transfer that still needs one. *)
Lemma vparts_some c m t l d rest addrs : answers c l -> shows m g -> Forall mapped addrs -> NoDup addrs -> (length l < 8)%nat ->
  todo l addrs = d :: rest -> pending_mmio c = Some (dev d) ->
  exists m', shows m' g /\ vparts cur pw addrs (mkMach c m t) =
    Some (match rest with [] => Ok (part_value <$> addrs) | d' :: _ => Err (mkVecFault d' pw Mmio 0) end,
          mkMach (record_mmio_part (set_pending_mmio c None) cur d (part_value d)) m' t).
Proof.
  intros Hc Hm Hk Hnd Hl Ht Hp. revert m Hm. induction Hk as [|a addrs Ha Hk IH]; intros m Hm; [done|].
  apply list.NoDup_cons in Hnd as [Hna Hnd]. cbn [vparts]. pose proof (answers_part c l a Hc) as Ea. case_decide as Hin.
  - rewrite todo_done in Ht by auto. rewrite vthen_run, (vpart_answered c m t a (part_value a) Ea), vthen_run.
    destruct (IH Hnd Ht m Hm) as (m' & Hm' & ->). exists m'. split; [done|]. by destruct rest.
  - destruct (vpart_reads c m t a Ea Hm Ha) as (m1 & Hm1 & E1). rewrite vthen_run, E1. destruct (is_dev a) eqn:Ed.
    + rewrite todo_next in Ht by done. injection Ht as -> <-. rewrite Hp, vthen_run.
      assert (wrap (8 * pw) (dev d) = part_value d) as Ev by (unfold part_value; by rewrite Ed). rewrite Ev.
      destruct (vparts_none (record_mmio_part (set_pending_mmio c None) cur d (part_value d)) m1 t (l ++ [(d, part_value d)]) addrs)
        as (m' & Hm' & ->); [apply answers_record; [by apply answers_pending|done|done]|done|done|by rewrite (proj2 (record_arch _ _ _ _))|].
      rewrite todo_snoc by done. exists m'. split; [done|]. by destruct (todo l addrs).
    + rewrite todo_done in Ht by auto. rewrite vthen_run. destruct (IH Hnd Ht m1 Hm1) as (m' & Hm' & ->). exists m'. split; [done|].
      assert (v_le g a pw = part_value a) as -> by (unfold part_value; by rewrite Ed). by destruct rest.
Qed.

(** ** All rounds *)

(** The embedder's loop: run the op, answer the device read it stops at, run it again. *)
Fixpoint drive (k : nat) (op : Arm) (s : mach) : option mach :=
  match op s with
  | Some (None, s') => Some s'
  | Some (Some (SExit (MmioRead a _)), s') =>
      match k with
      | O => None
      | S k' => drive k' op (on_cpu s' (fun c => complete_mmio_read c (dev a)))
      end
  | _ => None
  end.

(** An op that is the transfers [addrs] and then [fin], for the temporaries [t]; [fin]
    completes on their values. *)
Context (addrs : list Z) (fin : list Z -> Arm) (K : mach -> mach) (Hk : forall s, fin (part_value <$> addrs) s = Some (None, K s)).
Context (Haddrs : Forall mapped addrs) (Hnd : NoDup addrs).
Context (t : list Z) (op : Arm) (Hop : forall c m, op (mkMach c m t) = or_trap cur Read (vparts cur pw addrs) fin (mkMach c m t)).

Lemma parts_run s s' r : vparts cur pw addrs s = Some (r, s') ->
  or_trap cur Read (vparts cur pw addrs) fin s =
  match r with
  | Ok vs => fin vs s'
  | Err f => Some (Some (SExit (trap_exit (vf_trap f) (vf_at f) (vf_size f) Read 0)), mkMach (set_rip (m_cpu s') cur) (m_mem s') (m_temps s'))
  end.
Proof. intros E. unfold or_trap. unfold mbind at 1, M_bind. rewrite E. by destruct r. Qed.

Lemma drive_rounds rest d l c m : answers c l -> shows m g -> (length l + S (length rest) <= 8)%nat ->
  todo l addrs = d :: rest -> pending_mmio c = Some (dev d) ->
  exists c' m', arch c' = arch c /\ pending_mmio c' = None /\ shows m' g /\
    drive (length rest) op (mkMach c m t) = Some (K (mkMach c' m' t)).
Proof.
  revert d l c m. induction rest as [|d' rest IH]; intros d l c m Hc Hm Hl Ht Hp; cbn [length] in Hl;
    destruct (vparts_some c m t l d _ addrs Hc Hm Haddrs Hnd ltac:(lia) Ht Hp) as (m1 & Hm1 & E);
    set (c1 := record_mmio_part (set_pending_mmio c None) cur d (part_value d)) in *;
    assert (arch c1 = arch c /\ pending_mmio c1 = None) as [Harch Hpend] by (unfold c1; split; by rewrite ?(proj1 (record_arch _ _ _ _)), ?(proj2 (record_arch _ _ _ _)));
    cbn [drive length]; rewrite Hop, (parts_run _ _ _ E).
  - exists c1, m1. by rewrite Hk.
  - assert (d ∉ l.*1 /\ d ∈ addrs) as [Hdl Hda].
    { assert (d ∈ todo l addrs) as Hin by (rewrite Ht; by left). apply list_elem_of_filter in Hin. tauto. }
    assert (answers c1 (l ++ [(d, part_value d)])) as Hc1 by (apply answers_record; [by apply answers_pending|done|lia]).
    cbn [vf_trap vf_at vf_size trap_exit m_cpu m_mem m_temps on_cpu].
    destruct (IH d' (l ++ [(d, part_value d)]) (complete_mmio_read (set_rip c1 cur) (dev d')) m1) as (c' & m' & Ha & Hp' & Hm' & Ed).
    + unfold complete_mmio_read. by apply answers_pending, answers_rip.
    + done.
    + rewrite length_app. cbn. lia.
    + by apply (todo_answer l d).
    + done.
    + exists c', m'. split; [by rewrite Ha|done].
Qed.

Lemma drive_completes c m : answers c [] -> shows m g -> pending_mmio c = None -> (length addrs <= 8)%nat ->
  exists c' m', arch c' = arch c /\ pending_mmio c' = None /\ shows m' g /\
    drive (length (todo [] addrs)) op (mkMach c m t) = Some (K (mkMach c' m' t)).
Proof.
  intros Hc Hm Hp H8. destruct (vparts_none c m t [] addrs Hc Hm Haddrs Hp) as (m1 & Hm1 & E).
  pose proof (length_filter (fun a => is_dev a = true /\ a ∉ ([] : list (Z * Z)).*1) addrs) as Hf. fold (todo [] addrs) in Hf.
  destruct (todo [] addrs) as [|d rest] eqn:Et; cbn [drive length] in *; rewrite Hop, (parts_run _ _ _ E).
  - exists c, m1. by rewrite Hk.
  - cbn [vf_trap vf_at vf_size trap_exit m_cpu m_mem m_temps on_cpu].
    destruct (drive_rounds rest d [] (complete_mmio_read (set_rip c cur) (dev d)) m1) as (c' & m' & Ha & H); try done; [|cbn; lia|].
    + unfold complete_mmio_read. by apply answers_pending, answers_rip.
    + exists c', m'. split; [by rewrite Ha|done].
Qed.
End Device.

(** ** The addresses of a load *)

Lemma lane_parts_spec base n i : lane_parts base n i = (fun j => wrapping_add 64 base (Z.of_nat j * 8)) <$> seq (2 * i) (2 * n).
Proof.
  revert i. induction n as [|n IH]; intros i; [done|]. replace (2 * S n)%nat with (S (S (2 * n))) by lia. cbn [lane_parts seq fmap list_fmap].
  rewrite IH. replace (S (S (2 * i))) with (2 * S i)%nat by lia. f_equal; [f_equal; lia|]. f_equal.
  unfold wrapping_add. rewrite wrap_add_l by lia. f_equal. lia.
Qed.

Lemma or_trap_then {A B} cur acc (x : M (Result A VecFault)) (f : A -> B) (k : B -> Arm) s :
  or_trap cur acc (vthen x (fun a => mret (Ok (f a)))) k s = or_trap cur acc x (fun a => k (f a)) s.
Proof. unfold or_trap, vthen, mbind, M_bind. by destruct (x s) as [[[a|f'] s']|]. Qed.
Lemma or_trap_ext {A} cur acc (x y : M (Result A VecFault)) (k : A -> Arm) s : x s = y s -> or_trap cur acc x k s = or_trap cur acc y k s.
Proof. intros E. unfold or_trap, mbind, M_bind. by rewrite E. Qed.

(** ** Whole loads *)

(** The loads whose value goes to a register as it is: an SSE load of 4, 8 or 16 bytes, a
    VEX or EVEX load of 16, 32 or 64. *)
Definition whole_load (op : VecOp) : option (nat * Val * Z) :=
  match op with
  | VLoad d a n => if (n =? 4) || (n =? 8) || (n =? 16) then Some (d, a, n) else None
  | VLoadWide d a n => if (n =? 16) || (n =? 32) || (n =? 64) then Some (d, a, n) else None
  | _ => None
  end.
Definition part_width (bytes : Z) : Z := if bytes =? 4 then 4 else 8.
Definition load_addrs (base bytes : Z) : list Z :=
  (fun j => wrapping_add 64 base (Z.of_nat j * 8)) <$> seq 0 (Nat.max 1 (Z.to_nat (bytes / 8))).
(** The lanes of the whole value, zero above it. *)
Definition load_lanes (bytes : Z) (parts : list Z) : list Z :=
  join_parts parts ++ replicate (4 - Nat.max 1 (Z.to_nat (bytes / 16))) 0.
Definition load_value (g : View) (dev : Z -> Z) (base bytes : Z) : list Z :=
  load_lanes bytes (part_value g dev (part_width bytes) <$> load_addrs base bytes).
(** An SSE load keeps what is above bit 127, a VEX or EVEX load clears what it does not write. *)
Definition load_commit (op : VecOp) (v : list Z) (c : CpuState) : CpuState :=
  match op with
  | VLoad d _ _ => set_xmm c (<[d := lane v 0]> (xmm c))
  | VLoadWide d _ bytes => set_vec c d v bytes
  | _ => c
  end.

Lemma whole_load_sizes op dst addr bytes : whole_load op = Some (dst, addr, bytes) ->
  (Z.to_nat (bytes / 8) <= 8)%nat /\ valid_elem (part_width bytes).
Proof.
  intros Hl. assert (bytes ∈ [4; 8; 16; 32; 64]) as Hb.
  { destruct op; try discriminate Hl; cbn [whole_load] in Hl;
      match type of Hl with (if ?b then _ else _) = _ => destruct b eqn:Hs; [injection Hl as _ _ <-|discriminate Hl] end;
      rewrite !orb_true_iff, !Z.eqb_eq in Hs; rewrite !elem_of_cons; tauto. }
  repeat (apply elem_of_cons in Hb as [-> |Hb]; [split; [apply Nat.leb_le; reflexivity|unfold valid_elem, part_width; cbn; tauto]|]).
  by apply not_elem_of_nil in Hb.
Qed.
Lemma load_addrs_nodup base bytes : (Z.to_nat (bytes / 8) <= 8)%nat -> NoDup (load_addrs base bytes).
Proof.
  intros Hn. apply NoDup_fmap_2_strong; [|apply NoDup_seq].
  intros x y Hx Hy E. apply elem_of_seq in Hx, Hy. unfold wrapping_add, wrap in E.
  pose proof (Z.div_mod (base + Z.of_nat x * 8) (2 ^ 64) ltac:(lia)) as E1. pose proof (Z.div_mod (base + Z.of_nat y * 8) (2 ^ 64) ltac:(lia)) as E2.
  rewrite E in E1. lia.
Qed.
Lemma load_addrs_lanes base n : load_addrs base (Z.of_nat (S n) * 16) = lane_parts base (S n) 0.
Proof.
  rewrite lane_parts_spec. unfold load_addrs. replace (Z.of_nat (S n) * 16 / 8) with (Z.of_nat (2 * S n)) by (rewrite <- (Z.div_mul (Z.of_nat (2 * S n)) 8) by lia; f_equal; lia).
  rewrite Nat2Z.id. by replace (Nat.max 1 (2 * S n)) with (2 * S n)%nat by lia.
Qed.

Lemma load_addrs_first base bytes n : in_width 64 base -> Nat.max 1 (Z.to_nat (bytes / 8)) = S n ->
  load_addrs base bytes = base :: ((fun j => wrapping_add 64 base (Z.of_nat j * 8)) <$> seq 1 n).
Proof. intros Hb Hn. unfold load_addrs. rewrite Hn. cbn [seq fmap list_fmap]. f_equal. unfold wrapping_add. rewrite Z.add_0_r. by apply wrap_small. Qed.

Lemma vload_parts cur base n s : n = 4 \/ n = 8 \/ n = 16 -> in_width 64 base ->
  vload cur base n s = vthen (vparts cur (part_width n) (load_addrs base n)) (fun vs => mret (Ok (lane (load_lanes n vs) 0))) s.
Proof.
  intros Hn Hb. destruct Hn as [-> |[-> | ->]]; unfold vload; cbn [Z.eqb Pos.eqb].
  - rewrite (load_addrs_first _ _ 0) by done. change (part_width 4) with 4. cbn [seq fmap list_fmap vparts]. rewrite !vthen_run.
    by destruct (vpart cur base 4 s) as [[[v|f] s1]|].
  - rewrite (load_addrs_first _ _ 0) by done. change (part_width 8) with 8. cbn [seq fmap list_fmap vparts]. rewrite !vthen_run.
    by destruct (vpart cur base 8 s) as [[[v|f] s1]|].
  - rewrite (load_addrs_first _ _ 1) by done. change (part_width 16) with 8. cbn [seq fmap list_fmap vparts]. rewrite !vthen_run.
    destruct (vpart cur base 8 s) as [[[v|f] s1]|]; [|done..]. rewrite !vthen_run. change (wrapping_add 64 base (Z.of_nat 1 * 8)) with (wrapping_add 64 base 8).
    by destruct (vpart cur (wrapping_add 64 base 8) 8 s1) as [[[w|f] s2]|].
Qed.
Lemma vload_lanes_parts cur base n s : valid_vec n ->
  vload_lanes cur base n s = vthen (vparts cur (part_width n) (load_addrs base n)) (fun vs => mret (Ok (load_lanes n vs))) s.
Proof.
  intros Hn. unfold vload_lanes. rewrite vthen_run, vload_loop_parts, !vthen_run.
  assert (part_width n = 8 /\ load_addrs base n = lane_parts base (Nat.min 4 (Z.to_nat (n / 16))) 0 /\ Nat.min 4 (Z.to_nat (n / 16)) = Nat.max 1 (Z.to_nat (n / 16))) as (-> & -> & ->).
  { destruct Hn as [-> |[-> | ->]]; (split; [done|]; split; [|done]).
    - apply (load_addrs_lanes base 0).
    - apply (load_addrs_lanes base 1).
    - apply (load_addrs_lanes base 3). }
  by destruct (vparts cur 8 _ s) as [[[vs|f] s1]|].
Qed.

(** A whole load is its transfers and the commit of the joined value. *)
Lemma whole_load_runs cur op dst addr bytes base c m t : whole_load op = Some (dst, addr, bytes) -> (dst < 32)%nat -> in_width 64 base ->
  val_of (mkMach c m t) addr = Some base ->
  exec_vec cur op (mkMach c m t) = or_trap cur Read (vparts cur (part_width bytes) (load_addrs base bytes))
    (fun vs s => Some (None, mkMach (load_commit op (load_lanes bytes vs) (m_cpu s)) (m_mem s) (m_temps s))) (mkMach c m t).
Proof.
  intros Hl Hd Hb Ha. pose proof (fun k : Z -> Arm => bind_run _ k _ _ _ (read_val_run _ _ _ Ha)) as Hrd.
  destruct op; try discriminate Hl; cbn [whole_load] in Hl.
  - change (exec_vec cur (VLoad dst0 addr0 size)) with (exec_v_load cur dst0 addr0 size). unfold exec_v_load, load1, loading.
    destruct ((size =? 4) || (size =? 8) || (size =? 16)) eqn:Hs; [|discriminate]. injection Hl as -> -> ->. rewrite Hrd.
    rewrite (or_trap_ext _ _ _ _ _ _ (vload_parts cur base bytes (mkMach c m t) ltac:(lia) Hb)), or_trap_then.
    unfold or_trap, mbind, M_bind. destruct (vparts _ _ _ _) as [[[vs|f] s1]|]; [|done..]. unfold put_xmm, try_cpu, with_xmm. by rewrite guard_reg_lt.
  - change (exec_vec cur (VLoadWide dst0 addr0 bytes0)) with (exec_v_load_wide cur dst0 addr0 bytes0). unfold exec_v_load_wide, loading_lanes.
    destruct ((bytes0 =? 16) || (bytes0 =? 32) || (bytes0 =? 64)) eqn:Hs; [|discriminate]. injection Hl as -> -> ->. rewrite Hrd.
    assert (Hv : valid_vec bytes) by (unfold valid_vec; lia).
    rewrite (or_trap_ext _ _ _ _ _ _ (vload_lanes_parts cur base bytes (mkMach c m t) Hv)), or_trap_then.
    unfold or_trap, mbind, M_bind. destruct (vparts _ _ _ _) as [[[vs|f] s1]|]; [|done..]. unfold put_vec, try_cpu, with_vec. by rewrite guard_reg_lt.
Qed.

(** ** The theorem *)

(** C20: a whole-register vector load from device memory completes.  For a load of 4, 8 or
    16 bytes by an SSE move or of 16, 32 or 64 by a wide move, each round of the embedder's
    loop (run the op, answer the device read it stopped at, run the op again) gets one
    transfer further, so after exactly as many answers as the load has device transfers (at
    most eight) the op finishes, with every transfer's value from RAM or from its own
    answer, in address order, committed to the destination register as the move commits it,
    and no other architectural register changed.  (A broadcast is not such a load: it takes no
    answer and never completes, [VecGap.device_broadcast_stuck].) *)
Theorem device_load_completes (cur : Z) (op : VecOp) (dst : nat) (addr : Val) (bytes base : Z) (dev : Z -> Z) (s : mach) (g : View) :
  whole_load op = Some (dst, addr, bytes) -> (dst < 32)%nat -> in_width 64 base -> val_of s addr = Some base -> shows (m_mem s) g ->
  Forall (mapped g (part_width bytes)) (load_addrs base bytes) ->
  length (mmio_parts (m_cpu s)) = 8%nat -> mmio_parts_rip (m_cpu s) <> cur \/ mmio_parts_len (m_cpu s) = 0 -> pending_mmio (m_cpu s) = None ->
  exists c' m', drive dev (length (filter (fun a => is_dev g (part_width bytes) a = true) (load_addrs base bytes))) (exec_vec cur op) s =
    Some (mkMach (load_commit op (load_value g dev base bytes) c') m' (m_temps s)) /\
    arch c' = arch (m_cpu s) /\ pending_mmio c' = None /\ shows m' g.
Proof.
  intros Hl Hd Hw Ha Hm Hk H8 Hf Hp.
  destruct (whole_load_sizes op dst addr bytes Hl) as [Hn Hpw].
  destruct (drive_completes cur g dev (part_width bytes) Hpw (load_addrs base bytes)
    (fun vs s => Some (None, mkMach (load_commit op (load_lanes bytes vs) (m_cpu s)) (m_mem s) (m_temps s)))
    (fun s => mkMach (load_commit op (load_value g dev base bytes) (m_cpu s)) (m_mem s) (m_temps s)))
    with (t := m_temps s) (op := exec_vec cur op) (c := m_cpu s) (m := m_mem s) as (c' & m' & E1 & E2 & E3 & E4).
  - done.
  - done.
  - by apply load_addrs_nodup.
  - intros c m. apply (whole_load_runs cur op dst addr bytes base c m (m_temps s) Hl Hd Hw). by destruct addr.
  - split; [|constructor|done|by constructor]. destruct (Z.eq_dec (mmio_parts_rip (m_cpu s)) cur) as [Ec|]; [|by right].
    destruct Hf as [|Hf]; [done|]. by left.
  - done.
  - done.
  - unfold load_addrs. rewrite length_fmap, length_seq. lia.
  - exists c', m'. split; [|done]. rewrite <- todo_nil. destruct s. exact E4.
Qed.

Lemma device_load_completes_witness : exists c' m',
  drive (fun a => a) 2 (exec_vec 0x1000 (VLoad 5 (Imm 8192) 16)) (mkMach default_cpu ex_mem []) =
    Some (mkMach (set_xmm c' (<[5%nat := 8192 + 8200 * 2 ^ 64]> (xmm c'))) m' []).
Proof.
  destruct (device_load_completes 0x1000 (VLoad 5 (Imm 8192) 16) 5 (Imm 8192) 16 8192 (fun a => a) (mkMach default_cpu ex_mem []) (view ex_mem)) as (c' & m' & E & _);
    [reflexivity|lia|unfold in_width; lia|reflexivity|apply shows_same, ex_mem_wf|repeat constructor; vm_compute; discriminate|reflexivity|by left|reflexivity|].
  exists c', m'. vm_compute (load_value _ _ _ _) in E. exact E.
Defined.
