(* ===== verification/VecGap.v ===== *)
(** * Where vector instructions miss their contract

    Concrete runs of the arms that are exceptions to the theorems on vector ops: a
    fault after half of the destination is written, a fault that leaves RIP behind, an
    immediate that panics, device broadcasts that cannot complete, and a load of four
    bytes for a two-byte operand. *)

From S2P Require Import Prelude Features State Ir Aes Sha Alu Memory Interp IntegerSpec StringOps HostFloat VecOps VecFloat VecMem VecCpu VecArm VecOp VecRange VecSafe VecAtomic VecTotal.

(** [vpsignb ymm3, ymm3, [mem]] whose second half is unmapped: the instruction faults with
    the low half of the destination already replaced. *)
Definition psign_mach : mach := mkMach (set_xmm default_cpu (<[3%nat := 0x17]> (xmm default_cpu))) ex_mem [].
Lemma psign_half_committed : exists s',
  exec_vec 0x1000 (VPsignM 3 3 (Imm 5984) 1 32) psign_mach = Some (Some (SExit (UnmappedMemory 6000 Read)), s') /\
  nth 3 (xmm (m_cpu psign_mach)) 0 = 0x17 /\ nth 3 (xmm (m_cpu s')) 0 = 0.
Proof. eexists. split; [vm_compute; reflexivity|]. by split. Qed.

(** The same of [vdpps ymm]. *)
Lemma dpps_half_committed : exists s',
  exec_vec 0x1000 (VDppsM 3 (Imm 5984) 0xff 32) psign_mach = Some (Some (SExit (UnmappedMemory 6000 Read)), s') /\
  nth 3 (xmm (m_cpu s')) 0 = 0.
Proof. eexists. split; [vm_compute; reflexivity|]. done. Qed.

(** A faulting [vgf2p8mulb] with a memory operand leaves RIP where the block began. *)
Lemma gf2p8_fault_rip : exists s',
  exec_vec 0x1000 (VGf2p8M 3 1 (Imm 6000) 0 0 0 false 32) ex_mach = Some (Some (SExit (UnmappedMemory 6000 Read)), s') /\
  rip (m_cpu s') = 0.
Proof. eexists. split; [vm_compute; reflexivity|]. done. Qed.

(** [valignd zmm, zmm, zmm, 20] panics: the byte range leaves the two sources. *)
Lemma valign_panics : exec_vec 0x1000 (VAlign 3 1 2 20 4 64) ex_mach = None.
Proof. vm_compute. reflexivity. Qed.

(** A broadcast from a device asks for the same read however often it is answered. *)
Lemma device_broadcast_stuck w : exists s',
  exec_vec 0x1000 (VBroadcastM 3 (Imm 8192) 8 true) ex_mach = Some (Some (SExit (MmioRead 8192 8)), s') /\
  exists s'', exec_vec 0x1000 (VBroadcastM 3 (Imm 8192) 8 true) (on_cpu s' (fun c => complete_mmio_read c w)) =
    Some (Some (SExit (MmioRead 8192 8)), s'').
Proof. eexists. split; [vm_compute; reflexivity|]. eexists. vm_compute. reflexivity. Qed.

(** [pmovzxbq xmm, m16] on the last two mapped bytes faults. *)
Lemma pmovzx_reads_too_much : exists s' m',
  read ex_mem 5998 2 = Some (Ok 0, m') /\
  exec_vec 0x1000 (VPMovExtendM 3 (Imm 5998) 1 8 false) ex_mach = Some (Some (SExit (UnmappedMemory 5998 Read)), s').
Proof. eexists _, _. split; vm_compute; reflexivity. Qed.
