(* ===== verification/Block.v ===== *)
(** * Lifted blocks (x86jit-core/src/ir.rs)

    The ops of a lifted block.  The [V*] constructors of the source's enumeration are
    those of [VecOp], under the one constructor [Vector]. *)

From S2P Require Import Prelude Features State Ir HostFloat F80 F80Trans X87 VecOps VecFloat VecMem VecCpu VecArm VecOp.

(** ** Operations *)

Inductive IrOp : Type :=
  | InsnStart (guest_addr : Z)
  | ReadReg (dst : Temp) (reg : Reg)
  | WriteReg (reg : Reg) (src : Val) (size : Z)
  | Add (dst : Temp) (a b : Val) (size : Z) (set_flags : FlagMask)
  | Sub (dst : Temp) (a b : Val) (size : Z) (set_flags : FlagMask)
  | Adc (dst : Temp) (a b : Val) (size : Z) (set_flags : FlagMask)
  | Sbb (dst : Temp) (a b : Val) (size : Z) (set_flags : FlagMask)
  | And (dst : Temp) (a b : Val) (size : Z) (set_flags : FlagMask)
  | Or (dst : Temp) (a b : Val) (size : Z) (set_flags : FlagMask)
  | Xor (dst : Temp) (a b : Val) (size : Z) (set_flags : FlagMask)
  | Shl (dst : Temp) (a b : Val) (size : Z) (set_flags : FlagMask)
  | Shr (dst : Temp) (a b : Val) (size : Z) (set_flags : FlagMask)
  | Sar (dst : Temp) (a b : Val) (size : Z) (set_flags : FlagMask)
  | DoubleShift (dst : Temp) (a b count : Val) (size : Z) (left_ : bool) (set_flags : FlagMask)
  | Rol (dst : Temp) (a b : Val) (size : Z) (set_flags : FlagMask)
  | Ror (dst : Temp) (a b : Val) (size : Z) (set_flags : FlagMask)
  | Rcl (dst : Temp) (a b : Val) (size : Z) (set_flags : FlagMask)
  | Rcr (dst : Temp) (a b : Val) (size : Z) (set_flags : FlagMask)
  | Sext (dst : Temp) (a : Val) (from : Z)
  | Bswap (dst : Temp) (a : Val) (size : Z)
  | Mul (lo hi : Temp) (a b : Val) (size : Z) (signed : bool) (set_flags : FlagMask)
  | Div (quot rem : Temp) (hi lo divisor : Val) (size : Z) (signed : bool)
  | GetCond (dst : Temp) (cond : Cond)
  | Load (dst : Temp) (addr : Val) (size : Z)
  | Store (addr src : Val) (size : Z) (order : MemOrder)
  | Bt (result : Temp) (a bit : Val) (size : Z) (op : BtOp)
  | Cpuid
  | Xgetbv
  | Popcnt (dst : Temp) (src : Val) (size : Z)
  | Crc32 (dst : Temp) (crc src : Val) (bytes : Z)
  | BitScan (dst : Temp) (src old : Val) (size : Z) (op : BitScanOp)
  | Bmi (dst : Temp) (a b : Val) (size : Z) (op : BmiOp)
  | AtomicRmw (old : Temp) (addr src : Val) (size : Z) (op : RmwOp)
  | AtomicCas (old : Temp) (addr expected src : Val) (size : Z)
  | SetDf (value : bool)
  | SetIf (value : bool)
  | PushfReal
  | PopfReal
  | IntGate (vector saved_ip : Z)
  | IntoGate (next_ip : Z)
  | BoundGate (index lower upper : Val) (fault_ip next_ip : Z)
  | SegLimitCheck (offset : Val) (size vector fault_ip : Z)
  | IretReal
  | SetCf (value : option bool)
  | Bcd (kind : BcdKind)
  | LoopCx (kind : LoopKind) (taken fallthrough : Z)
  | FarJump (cs ip : Val)
  | FarCall (cs ip : Val) (ret_ip : Z)
  | FarRet (pop_extra : Z)
  | RepString (op : StrOp) (elem : Z) (rep : RepKind) (addr_bits : Z) (seg_base : Val)
  | RepStringReal (op : StrOp) (elem : Z) (rep : RepKind) (ds_base es_base : Val)
  | Lahf
  | Sahf
  | PushaReal
  | PopaReal
  | EnterReal (alloc level : Z)
  | Jump (target : Val)
  | Branch (cond : Cond) (taken fallthrough : Z)
  | Call (target : Val) (return_addr slot : Z) (wrap_sp : bool)
  | Ret (slot pop_extra : Z) (wrap_sp : bool)
  | Syscall (is_amd64 : bool)
  | Hlt
  | Trap (vector advance : Z)
  | PortIo (port value : Val) (size : Z) (dir_out : bool)
  | X87 (kind : FpuKind) (addr : Val) (sti : Z)
  | FxState (addr : Val) (restore : bool)
  | Vector (op : VecOp).

Record IrBlock : Type := mkBlock {
  guest_start : Z;
  ops : list IrOp;
  temp_count : nat;
  guest_len : Z;
  icount : Z;
}.

Record IrRegion : Type := mkRegion {
  entry : Z;
  blocks : list IrBlock;
  has_loop : bool;
}.

Definition region_spans (r : IrRegion) : list (Z * Z) :=
  (fun b => (guest_start b, guest_len b)) <$> blocks r.

(** [TempGen]: the per-block temporary allocator; [fresh] returns the next index. *)
Definition temp_fresh (g : nat) : nat * nat := (g, S g).
