(* ===== verification/Frame.v ===== *)
(** * What the arms leave alone

    The invariant of a running block has a part for each register file.  The integer,
    string and control arms leave the vector, mask and x87 registers alone; the x87 arms
    leave everything else within its type.  So a block that mixes them keeps the whole
    invariant. *)

From S2P Require Import Prelude Features State Ir Alu Memory Interp IntegerSpec StringOps Control HostFloat F80 F80Trans X87 X87Spec X87Exc X87Arm VecOps VecFloat VecMem VecCpu VecArm VecOp VecRange VecSafe VecAtomic VecTotal.

(** ** The integer arms *)

(** What [vec_wf] reads. *)
Definition wide (c : CpuState) :=
  (xmm c, ymm_hi c, zmm_hi c, kmask c, mmio_parts c, fpr c, (fpu_top c, fpu_cw c, fpu_sw c, fpu_empty c, fpu_env_tail c)).

Lemma wide_vec c c' : wide c' = wide c -> vec_wf c -> vec_wf c'.
Proof.
  unfold wide. intros [= E1 E2 E3 E4 E5 E6 E7 E8 E9 E10 E11] [].
  split; by rewrite ?E1, ?E2, ?E3, ?E4, ?E5, ?E6, ?E7, ?E8, ?E9, ?E10, ?E11.
Qed.

Definition frames {A} (x : M A) : Prop := forall s a s', x s = Some (a, s') -> wide (m_cpu s') = wide (m_cpu s).

Lemma frames_ret {A} (a : A) : frames (mret a).
Proof. by intros s b s' [= _ <-]. Qed.
Lemma frames_bind {A B} (x : M A) (k : A -> M B) : frames x -> (forall a, frames (k a)) -> frames (x ≫= k).
Proof.
  intros Hx Hk s b s'. unfold mbind, M_bind. destruct (x s) as [[a s1]|] eqn:E; [|done]. intros E2.
  rewrite (Hk a s1 b s' E2). exact (Hx s a s1 E).
Qed.
Lemma frames_get : frames get_cpu.
Proof. by intros s b s' [= _ <-]. Qed.
Lemma frames_upd f : (forall c, wide (f c) = wide c) -> frames (upd_cpu f).
Proof. intros H s b s' [= _ <-]. apply H. Qed.
Lemma frames_try f : (forall c c', f c = Some c' -> wide c' = wide c) -> frames (try_cpu f).
Proof. intros H s b s'. unfold try_cpu. destruct (f (m_cpu s)) eqn:E; [|done]. intros [= _ <-]. by apply H. Qed.
Lemma frames_read v : frames (read_val v).
Proof. intros s b s'. destruct v; cbn [read_val]; [case_match; [|done]|]; by intros [= _ <-]. Qed.
Lemma frames_set_temp t v : frames (set_temp t v).
Proof. intros s b s'. unfold set_temp. case_match; [|done]. by intros [= _ <-]. Qed.
Lemma frames_mem {A} (f : Memory -> option (A * Memory)) : frames (on_mem f).
Proof. intros s b s'. unfold on_mem. destruct (f (m_mem s)) as [[]|]; [|done]. by intros [= _ <-]. Qed.

Lemma write_gpr_wide c i v n c' : write_gpr c i v n = Some c' -> wide c' = wide c.
Proof. unfold write_gpr. repeat case_match; intros [= <-]; done. Qed.
Lemma write_reg_wide c r v n c' : write_reg c r v n = Some c' -> wide c' = wide c.
Proof. unfold write_reg. destruct (gpr_index r); [apply write_gpr_wide|]. intros [= <-]. by destruct r. Qed.

Lemma frames_next : frames next.
Proof. apply frames_ret. Qed.
Lemma frames_leave r : frames (leave r).
Proof. apply frames_ret. Qed.

(** A chain of register writes. *)
Ltac write_chain :=
  repeat match goal with
  | E : write_gpr _ _ _ _ ≫= _ = Some _ |- _ => apply bind_Some in E as (? & ?%write_gpr_wide & E); cbv beta in E
  | E : write_gpr _ _ _ _ = Some _ |- _ => apply write_gpr_wide in E
  end; congruence.
Lemma cpuid_wide c c' : cpuid_run c = Some c' -> wide c' = wide c.
Proof. unfold cpuid_run. destruct (cpuid_regs _ _) as [[[eax ebx] ecx] edx]. intros E. write_chain. Qed.
Lemma xgetbv_wide c c' : xgetbv_run c = Some c' -> wide c' = wide c.
Proof. unfold xgetbv_run. cbn zeta. intros E. write_chain. Qed.
Lemma checked_rip_wide c x c' : (a ← x; Some (set_rip c a)) = Some c' -> wide c' = wide c.
Proof. destruct x; [|done]. by intros [= <-]. Qed.

Lemma frames_panic {A} : frames (panic (A := A)).
Proof. done. Qed.

Create HintDb frames.
#[export] Hint Resolve frames_panic frames_next frames_leave frames_ret frames_get frames_read frames_set_temp frames_mem write_gpr_wide write_reg_wide cpuid_wide xgetbv_wide checked_rip_wide : frames.

Ltac frames_cpu := repeat match goal with |- context [match ?x with _ => _ end] => destruct x end; try reflexivity.
Ltac frames :=
  cbn beta zeta;
  lazymatch goal with
  | |- frames (mbind _ _) => apply frames_bind; [frames|intros ?; frames]
  | |- frames (or_leave _ _) => apply frames_bind; [frames|intros [?|?]; frames]
  | |- frames (as_arm _) => apply frames_bind; [frames|intros [?|?]; frames]
  | |- frames (as_step _) => apply frames_bind; [frames|intros [?|?]; frames]
  | |- frames (upd_cpu _) => apply frames_upd; intros ?; frames_cpu
  | |- frames (try_cpu _) => apply frames_try; intros ? ? ?; eauto with frames
  | |- frames (if ?c then _ else _) => destruct c; frames
  | |- frames (match ?x with _ => _ end) => destruct x; frames
  | |- _ => auto with frames
  end.

Section FrameArms.
Context (ca : Z).

Lemma trap_out_frames t a n k v : frames (trap_out ca t a n k v).
Proof. unfold trap_out. frames. Qed.
Lemma upd_flags_frames f : frames (upd_flags f).
Proof. unfold upd_flags. frames. Qed.
Lemma apply_frames m r : frames (apply m r).
Proof. apply upd_flags_frames. Qed.
#[local] Hint Resolve trap_out_frames upd_flags_frames apply_frames : frames.

Lemma push16_frames w : frames (push16 ca w).
Proof. unfold push16. frames. Qed.
Lemma pop16_frames : frames (pop16 ca).
Proof. unfold pop16. frames. Qed.
#[local] Hint Resolve push16_frames pop16_frames : frames.
Lemma push_all_frames ws : frames (push_all ca ws).
Proof. induction ws; cbn [push_all]; frames. Qed.
Lemma pop_all_frames l : frames (pop_all ca l).
Proof. induction l as [|[?|] l IH]; cbn [pop_all]; frames. Qed.
Lemma enter_display_frames k bp : frames (enter_display ca k bp).
Proof. revert bp. induction k as [|k IH]; intros bp; cbn [enter_display]; frames. Qed.
Lemma deliver_frames vec ip : frames (deliver_interrupt ca vec ip).
Proof. unfold deliver_interrupt. frames. Qed.
Lemma iret_frames : frames (exec_iret_real ca).
Proof. unfold exec_iret_real. frames. Qed.

Lemma str_body_wide {T} `{StrMem T} op elem ab sb db step c (m : T) f c' m' :
  str_body op elem ca ab sb db step c m = Some (f, c', m') -> wide c' = wide c.
Proof.
  unfold str_body, str_trap. destruct op; cbn [mbind option_bind];
    repeat match goal with
    | |- context [sload ?m ?a ?n] => destruct (sload m a n) as [[[]]|]; try done; cbn [mbind option_bind]
    | |- context [sstore ?m ?a ?v ?n] => destruct (sstore m a v n) as [[[]]|]; try done; cbn [mbind option_bind]
    | |- context [write_gpr ?c ?i ?v ?n] =>
        let E := fresh in destruct (write_gpr c i v n) eqn:E; try done; apply write_gpr_wide in E; cbn [mbind option_bind]
    end; by intros [= <- <- <-].
Qed.
Lemma str_loop_wide {T} `{StrMem T} op elem rep ab sb db step k c (m : T) f c' m' :
  str_loop op elem rep ca ab sb db step k c m = Some (f, c', m') -> wide c' = wide c.
Proof.
  revert c m. induction k as [|k IH]; intros c m E; cbn [str_loop] in E; [done|].
  destruct (str_done rep ab c); [by injection E as <- <- <-|].
  destruct (str_body _ _ _ _ _ _ _ c m) as [[[[f0|] c0] m0]|] eqn:Eb; [| |done]; cbn [mbind option_bind] in E;
    apply str_body_wide in Eb; [by injection E as <- <- <-|].
  assert (Ha : forall b c1, str_after rep ab c0 = (b, c1) -> wide c1 = wide c0).
  { intros b c1. unfold str_after. repeat case_match; by intros [= <- <-]. }
  destruct (str_after rep ab c0) as [[] c1] eqn:Es; specialize (Ha _ _ eq_refl).
  - rewrite (IH _ _ E). congruence.
  - injection E as <- <- <-. congruence.
Qed.
Lemma run_str_frames op elem rep ab sb db :
  frames (run_str (fun c m => string_run_impl c m op elem rep ca ab sb db)).
Proof.
  intros s a s'. unfold run_str, string_run_impl. destruct (str_loop _ _ _ _ _ _ _ _ _ _ _) as [[[[f|] c] m]|] eqn:E; [| |done];
    apply str_loop_wide in E; by intros [= _ <-].
Qed.
End FrameArms.
#[export] Hint Resolve trap_out_frames upd_flags_frames apply_frames push16_frames pop16_frames push_all_frames pop_all_frames
  enter_display_frames deliver_frames iret_frames run_str_frames : frames.

(** ** The x87 arms *)

Definition fpu_erase (c : CpuState) : CpuState :=
  set_fpr (set_fpu_top (set_fpu_cw (set_fpu_sw (set_fpu_empty (set_fpu_env_tail c []) 0) 0) 0) 0) [].
Definition vregs (c : CpuState) := (xmm c, ymm_hi c, zmm_hi c, kmask c, mmio_parts c).

Lemma fpu_of_vec c : vec_wf c -> fpu_wf c.
Proof. intros []. by split. Qed.
Lemma vec_of_fpu c c' : vregs c' = vregs c -> vec_wf c -> fpu_wf c' -> vec_wf c'.
Proof. unfold vregs. intros [= E1 E2 E3 E4 E5] [] []. split; by rewrite ?E1, ?E2, ?E3, ?E4, ?E5. Qed.
Lemma cpu_wf_erase c c' : fpu_erase c' = fpu_erase c -> cpu_wf c -> cpu_wf c' /\ vregs c' = vregs c.
Proof.
  intros E Hc. assert (H1 : cpu_wf (fpu_erase c')) by (rewrite E; destruct Hc; by split). split; [destruct H1; by split|].
  change (vregs (fpu_erase c') = vregs (fpu_erase c)). by rewrite E.
Qed.

(** Only the unit's own fields change. *)
Lemma raise_erase c e : fpu_erase (raise c e).2 = fpu_erase c.
Proof. unfold raise. by repeat case_match. Qed.
Lemma push_raw_erase c b : fpu_erase (push_raw c b) = fpu_erase c.
Proof.
  unfold push_raw. cbn zeta. case_match; [|done]. pose proof (raise_erase (set_fpu_sw c (Z.lor (fpu_sw c) COND_C1)) (exc_with IE SF)) as Hr.
  destruct (raise _ _) as [[] c1]; done.
Qed.
Lemma pop_erase c v c' : pop c = Some (v, c') -> fpu_erase c' = fpu_erase c.
Proof. unfold pop. case_match; [|done]. by intros [= <- <-]. Qed.
Lemma st_operand_erase c i : fpu_erase (st_operand c i).2 = fpu_erase c.
Proof.
  unfold st_operand. cbn zeta. case_match; [|done].
  pose proof (raise_erase (set_fpu_sw c (Z.land (fpu_sw c) (unot 16 COND_C1))) (exc_with IE SF)) as Hr. destruct (raise _ _) as [[] c1]; done.
Qed.

Section FpFrame.
Context `{Libm}.

Definition xkeeps {A} (x : X Memory A) : Prop := forall c m r c' m',
  x c m = Some (r, c', m') -> cpu_wf c -> cpu_wf c' /\ vregs c' = vregs c.

Lemma xk_bind {A B} (x : X Memory A) (k : A -> X Memory B) : xkeeps x -> (forall a, xkeeps (k a)) -> xkeeps (x ≫= k).
Proof.
  intros Hx Hk c m r c' m'. unfold mbind, x_bind. destruct (x c m) as [[[[a|a w|] c1] m1]|] eqn:E; [| | |done]; intros E2 Hc;
    destruct (Hx _ _ _ _ _ E Hc) as [H1 H2]; [|by injection E2 as <- <- <-..].
  destruct (Hk a _ _ _ _ _ E2 H1) as [H3 ->]. done.
Qed.
Lemma xk_ret {A} (a : A) : xkeeps (mret a).
Proof. by intros c m r c' m' [= <- <- <-]. Qed.
Lemma xk_cpu : xkeeps x_cpu.
Proof. by intros c m r c' m' [= <- <- <-]. Qed.
Lemma xk_panic : xkeeps x_panic.
Proof. done. Qed.
Lemma xk_upd f : (forall c, fpu_erase (f c) = fpu_erase c) -> xkeeps (x_upd f).
Proof. intros Hf c m r c' m' [= <- <- <-] Hc. by apply cpu_wf_erase. Qed.
Lemma xk_raise e : xkeeps (x_raise e).
Proof.
  intros c m r c' m'. unfold x_raise. pose proof (raise_erase c e) as Hr. destruct (raise c e) as [[] c1]; intros [= <- <- <-] Hc; by apply cpu_wf_erase.
Qed.
Lemma xk_operand i : xkeeps (operand i).
Proof.
  intros c m r c' m'. unfold operand. pose proof (st_operand_erase c i) as Hr. destruct (st_operand c i) as [[v|] c1];
    intros [= <- <- <-] Hc; by apply cpu_wf_erase.
Qed.
Lemma xk_pop : xkeeps x_pop.
Proof.
  intros c m r c' m'. unfold x_pop. destruct (pop c) as [[v c1]|] eqn:E; [|done]. apply pop_erase in E.
  intros [= <- <- <-] Hc. by apply cpu_wf_erase.
Qed.
Lemma xk_read a n : xkeeps (read_n a n).
Proof. intros c m r c' m'. unfold read_n. destruct (fp_load m a n) as [[]|]; [| |done]; by intros [= <- <- <-]. Qed.
Lemma xk_write a l : xkeeps (write_bytes_at a l).
Proof. intros c m r c' m'. unfold write_bytes_at. destruct (fp_store m a l) as [[[] m1]|]; [| |done]; by intros [= <- <- <-]. Qed.
Lemma xk_flags (f : Flags -> Flags) : (forall g, Interp.flags_wf g -> Interp.flags_wf (f g)) -> xkeeps (x_upd (fun c => set_flags c (f (flags c)))).
Proof. intros Hf c m r c' m' [= <- <- <-] Hc. split; [|done]. apply cpu_wf_set_flags; [done|]. by apply Hf, cpu_flags_wf. Qed.
Lemma xk_fnstsw : xkeeps (x_try (fun c => write_gpr c RAX (status_word c) 2)).
Proof.
  intros c m r c' m'. unfold x_try. destruct (write_gpr c RAX (status_word c) 2) as [c1|] eqn:E; [|done]. intros [= <- <- <-] Hc.
  assert (Hw : wide c1 = wide c) by (by eapply write_gpr_wide). unfold wide in Hw. injection Hw as E1 E2 E3 E4 E5 _ _ _ _ _ _.
  split; [|unfold vregs; congruence]. unfold write_gpr in E. cbn in E. injection E as <-. apply gprs_insert_wf; [done|].
  by apply (merge_low_range 16), get_gpr_range.
Qed.

#[local] Hint Resolve xk_ret xk_cpu xk_panic xk_raise xk_operand xk_pop xk_read xk_write xk_fnstsw : xk.
#[local] Hint Rewrite push_raw_erase : xk.
#[local] Ltac xk_erase := intros ?; unfold push; autorewrite with xk; reflexivity.
#[local] Ltac xk :=
  cbn beta zeta;
  lazymatch goal with
  | |- xkeeps (mbind _ _) => apply xk_bind; [xk|intros ?; xk]
  | |- xkeeps (x_upd (fun c => set_flags c _)) => apply (xk_flags (fun f => compare_flags_of f _))
  | |- xkeeps (x_upd _) => apply xk_upd; try solve [xk_erase]
  | |- xkeeps (if ?b then _ else _) => destruct b; xk
  | |- xkeeps (match ?x with _ => _ end) => destruct x; xk
  | |- _ => auto with xk
  end.

Lemma compare_flags_wf r g : Interp.flags_wf g -> Interp.flags_wf (compare_flags_of g r).
Proof. intros. destruct r as [[] ?]. unfold compare_flags_of. auto 10 with safe. Qed.

Lemma exec_x87_keeps kind addr sti : xkeeps (exec_x87_op kind addr sti).
Proof.
  unfold exec_x87_op. apply xk_bind; [apply xk_cpu|]. intros c0. destruct kind;
    unfold store_st0, store_f80, arith_mem, arith_reg, compare_sti, compare_int, unary, reduced, binary_pop, read_i, read_u; xk.
  all: intros; by apply compare_flags_wf.
Qed.

(** FXRSTOR also loads the sixteen low vector registers. *)
Lemma fx_load_keeps c b : Forall (in_width 8) b -> vcpu c -> fpu_wf (fx_load c b) -> vcpu (fx_load c b).
Proof.
  intros Hb Hc. unfold fx_load. cbn zeta. set (c1 := foldl _ _ (zseq 0 8)).
  assert (He : fpu_erase c1 = fpu_erase c).
  { unfold c1. match goal with |- fpu_erase (foldl ?f ?c0 ?l) = _ => change (fpu_erase c) with (fpu_erase c0); generalize c0; generalize l end.
    intros l c0. revert c0. induction l as [|j l IH]; intros c0; cbn [foldl]; [done|]. by rewrite IH. }
  destruct (cpu_wf_erase c c1 He (proj1 Hc)) as [H1 H2]. clearbody c1. generalize (zseq 0 16) as l. intros l Hf.
  assert (Hx : forall c2, cpu_wf c2 /\ Forall (in_width 128) (xmm c2) /\ (ymm_hi c2, zmm_hi c2, kmask c2, mmio_parts c2) = (ymm_hi c1, zmm_hi c1, kmask c1, mmio_parts c1) ->
    let c3 := foldl (fun c i => set_xmm c (<[Z.to_nat i := from_le_bytes (slice b (Z.to_nat (160 + i * 16)) 16)]> (xmm c))) c2 l in
    cpu_wf c3 /\ Forall (in_width 128) (xmm c3) /\ (ymm_hi c3, zmm_hi c3, kmask c3, mmio_parts c3) = (ymm_hi c1, zmm_hi c1, kmask c1, mmio_parts c1)).
  { clear Hf. induction l as [|i l IH]; intros c2 H0; cbn [foldl]; [done|]. apply IH. destruct H0 as (H3 & H4 & H5). split; [|split; [|done]].
    - destruct H3. split; try done. cbn. by rewrite length_insert.
    - cbn. apply Forall_insert; [done|]. apply bytes_range; [by apply Forall_take, Forall_drop|unfold slice; rewrite length_take; lia]. }
  unfold vregs in H2. injection H2 as E1 E2 E3 E4 E5. destruct (Hx c1) as (H3 & H4 & H5).
  { split; [done|]. split; [|done]. rewrite E1. apply Hc. }
  split; [done|]. injection H5 as E6 E7 E8 E9. destruct (proj2 Hc), Hf. split; try done; by rewrite ?E6, ?E7, ?E8, ?E9, ?E2, ?E3, ?E4, ?E5.
Qed.

Lemma exec_x87_vcpu c m kind addr sti : vcpu c -> mem_wf m ->
  exists f c' m', exec_x87 c m kind addr sti = Some (f, c', m') /\ vcpu c' /\ mem_wf m'.
Proof.
  intros [Hc Hv] Hm. assert (Hs : fp_shows m (view m)) by exact (shows_same m Hm).
  destruct (exec_x87_op_ok kind addr sti c m (view m) (fpu_of_vec c Hv) Hs)
    as (r & c' & m' & g' & E & _ & Hf & [Hm' _] & _). unfold exec_x87. rewrite E. cbn [mbind option_bind].
  eexists _, c', m'. split; [done|]. destruct (exec_x87_keeps _ _ _ _ _ _ _ _ E Hc) as [H1 H2].
  split; [split; [done|by eapply vec_of_fpu]|done].
Qed.

Lemma exec_fxstate_vcpu c m addr restore : vcpu c -> mem_wf m ->
  exists f c' m', exec_fxstate c m addr restore = Some (f, c', m') /\ vcpu c' /\ mem_wf m'.
Proof.
  intros Hc Hm. assert (Hs : fp_shows m (view m)) by exact (shows_same m Hm).
  destruct (exec_fxstate_op_ok addr restore c m (view m) (fpu_of_vec c (proj2 Hc)) Hs)
    as (r & c' & m' & g' & E & _ & Hf & [Hm' _] & _). unfold exec_fxstate. rewrite E. cbn [mbind option_bind].
  eexists _, c', m'. split; [done|]. split; [|done]. unfold exec_fxstate_op in E. destruct restore.
  - unfold mbind, x_bind, read_n in E. rewrite (fp_load_law m (view m)) in E by (done || lia).
    unfold g_read_ram in E. assert (Hb : Forall (in_width 8) (v_bytes (view m) addr 512)).
    { apply Forall_fmap, list.Forall_forall. intros x _. apply (wf_bytes _ _ _ _ Hm). }
    unfold x_upd in E. repeat case_match; simplify_eq; try done; by apply fx_load_keeps.
  - unfold mbind, x_bind, x_cpu, write_bytes_at in E. destruct (fp_store _ _ _) as [[[] ?]|]; by simplify_eq.
Qed.

Lemma run_fp_safe n ca f : in_width 64 ca ->
  (forall c m, vcpu c -> mem_wf m -> exists r c' m', f c m = Some (r, c', m') /\ vcpu c' /\ mem_wf m') -> vsafe n (run_fp ca f) any.
Proof.
  intros Hca Hf s [[Hc Hm Hl Ht] Hv]. destruct (Hf (m_cpu s) (m_mem s)) as (r & c' & m' & E & [Hc' Hv'] & Hm'); [by split|done|].
  unfold run_fp. rewrite E. destruct r as [x|]; eexists _, _; (split; [done|]); (split; [|done]).
  - split; [split; [by apply cpu_wf_rip|done..]|]. destruct Hv'. by split.
  - split; [by split|done].
Qed.
Lemma exec_x87_arm_safe n ca kind addr sti : in_width 64 ca -> val_ok n addr -> vsafe n (exec_x87_arm ca kind addr sti) any.
Proof.
  intros Hca Ha. eapply vsafe_bind; [by apply vsafe_quiet, quiet_read_val|]. intros a _.
  eapply vsafe_bind; [apply vsafe_quiet, quiet_get_cpu|]. intros c _. destruct (mf_pending_before c kind).
  - eapply vsafe_bind with (P := any); [|intros; by apply vsafe_ret]. intros s [[Hc ? ? ?] Hv]. eexists _, _. split; [done|].
    split; [|done]. split; [split; [by apply cpu_wf_rip|done..]|]. destruct Hv. by split.
  - apply run_fp_safe; [done|]. intros. by apply exec_x87_vcpu.
Qed.
Lemma exec_fx_state_safe n ca addr restore : in_width 64 ca -> val_ok n addr -> vsafe n (exec_fx_state ca addr restore) any.
Proof.
  intros Hca Ha. eapply vsafe_bind; [by apply vsafe_quiet, quiet_read_val|]. intros a _. apply run_fp_safe; [done|].
  intros. by apply exec_fxstate_vcpu.
Qed.
End FpFrame.
