(* ===== verification/Walk.v ===== *)
(** * The block interpreter (x86jit-core/src/interp/mod.rs, [walk_ops], [interpret_block])

    The dispatch over all the ops of a lifted block and the bookkeeping of retired
    instructions around it; the debug-only lockstep bracket is left out. *)

From S2P Require Import Prelude Features State Ir Alu Memory Interp IntegerSpec StringOps Control HostFloat F80 F80Trans X87 X87Spec X87Exc X87Arm VecOps VecFloat VecMem VecCpu VecArm VecOp VecRange VecSafe VecAtomic VecTotal Block Frame.

(** ** Definitions *)

(** [guest_start + guest_len], unchecked machine arithmetic. *)
Definition block_end (ir : IrBlock) : option Z := checked_add 64 (guest_start ir) (guest_len ir).

(** An arm whose value needs the end of the block. *)
Definition at_end (ir : IrBlock) (k : Z -> Arm) : Arm :=
  fun s => match block_end ir with Some e => k e s | None => None end.

(** An arm that always ends the block. *)
Definition ends (c : M StepResult) : Arm := r ← c; leave r.

Definition exec_into_gate (cur_addr next_ip : Z) : Arm :=
  c ← get_cpu;
  if of_ (flags c) then ends (deliver_interrupt cur_addr 4 next_ip)
  else upd_cpu (fun c => set_rip c next_ip);; leave Continue.

Definition exec_seg_limit_check (cur_addr : Z) (offset : Val) (size vector fault_ip : Z) : Arm :=
  v ← read_val offset;
  let off := Z.land v 0xFFFF in
  if 0x10000 <? off + size then ends (deliver_interrupt cur_addr vector fault_ip) else next.

Definition exec_bound_gate (cur_addr : Z) (index lower upper : Val) (fault_ip next_ip : Z) : Arm :=
  i ← read_val index; l ← read_val lower; u ← read_val upper;
  let idx := to_signed 16 i in
  let lo := to_signed 16 l in
  let hi := to_signed 16 u in
  if (idx <? lo) || (hi <? idx) then ends (deliver_interrupt cur_addr 5 fault_ip)
  else upd_cpu (fun c => set_rip c next_ip);; leave Continue.

Definition exec_set_cf (value : option bool) : Arm :=
  upd_flags (fun f => set_cf f (match value with Some v => v | None => negb (cf f) end));; next.

(** One op of the walk; [InsnStart] only moves the bookkeeping, below. *)
Definition exec_op `{Libm} (ir : IrBlock) (cur_addr : Z) (op : IrOp) : Arm :=
  match op with
  | InsnStart _ => next
  | ReadReg dst reg => exec_read_reg dst reg
  | WriteReg reg src size => exec_write_reg reg src size
  | Add dst a b size fm => exec_add dst a b size fm
  | Adc dst a b size fm => exec_adc dst a b size fm
  | Sub dst a b size fm => exec_sub dst a b size fm
  | Sbb dst a b size fm => exec_sbb dst a b size fm
  | And dst a b size fm => exec_and dst a b size fm
  | Or dst a b size fm => exec_or dst a b size fm
  | Xor dst a b size fm => exec_xor dst a b size fm
  | Shl dst a b size fm => exec_shl dst a b size fm
  | Shr dst a b size fm => exec_shr dst a b size fm
  | DoubleShift dst a b count size left_ fm => exec_double_shift dst a b count size left_ fm
  | Sar dst a b size fm => exec_sar dst a b size fm
  | Sext dst a from => exec_sext dst a from
  | Bswap dst a size => exec_bswap dst a size
  | Rol dst a b size fm => exec_rol dst a b size fm
  | Ror dst a b size fm => exec_ror dst a b size fm
  | Rcl dst a b size fm => exec_rcl dst a b size fm
  | Rcr dst a b size fm => exec_rcr dst a b size fm
  | Mul lo hi a b size signed fm => exec_mul lo hi a b size signed fm
  | Div quot rem hi lo divisor size signed => exec_div cur_addr quot rem hi lo divisor size signed
  | GetCond dst cond => exec_get_cond dst cond
  | Load dst addr size => exec_load cur_addr dst addr size
  | Store addr src size _ => exec_store cur_addr addr src size
  | AtomicRmw old addr src size op => exec_atomic_rmw cur_addr old addr src size op
  | AtomicCas old addr expected src size => exec_atomic_cas cur_addr old addr expected src size
  | SetDf value => exec_set_df value
  | RepString op elem rep addr_bits seg_base => exec_rep_string cur_addr op elem rep addr_bits seg_base
  | Bt result a bit size op => exec_bt result a bit size op
  | Cpuid => exec_cpuid
  | Xgetbv => exec_xgetbv
  | Popcnt dst src size => exec_popcnt dst src size
  | Crc32 dst crc src bytes => exec_crc32 dst crc src bytes
  | Bmi dst a b size op => exec_bmi dst a b size op
  | BitScan dst src old size op => exec_bit_scan dst src old size op
  | Jump target => exec_jump target
  | Branch cond taken fallthrough => exec_branch cond taken fallthrough
  | Call target return_addr slot wrap_sp => exec_call cur_addr target return_addr slot wrap_sp
  | Ret slot pop_extra wrap_sp => exec_ret cur_addr slot pop_extra wrap_sp
  | Syscall is_amd64 => at_end ir (fun e => exec_syscall e is_amd64)
  | PortIo port value size dir_out => at_end ir (fun e => exec_port_io e port value size dir_out)
  | Hlt => at_end ir exec_hlt
  | Trap vector advance => exec_trap cur_addr vector advance
  | SetIf value => upd_flags (fun f => set_if_ f value);; next
  | PushfReal => exec_pushf_real cur_addr
  | PopfReal => exec_popf_real cur_addr
  | IntGate vector saved_ip => ends (deliver_interrupt cur_addr vector saved_ip)
  | IntoGate next_ip => exec_into_gate cur_addr next_ip
  | SegLimitCheck offset size vector fault_ip => exec_seg_limit_check cur_addr offset size vector fault_ip
  | BoundGate index lower upper fault_ip next_ip => exec_bound_gate cur_addr index lower upper fault_ip next_ip
  | IretReal => ends (exec_iret_real cur_addr)
  | SetCf value => exec_set_cf value
  | Bcd kind => exec_bcd cur_addr kind
  | LoopCx kind taken fallthrough => ends (exec_loop_cx kind taken fallthrough)
  | FarJump cs ip => ends (exec_far_jump cs ip)
  | FarCall cs ip ret_ip => ends (exec_far_call cur_addr cs ip ret_ip)
  | FarRet pop_extra => ends (exec_far_ret cur_addr pop_extra)
  | RepStringReal op elem rep ds_base es_base => exec_rep_string_real cur_addr op elem rep ds_base es_base
  | Lahf => exec_lahf
  | Sahf => exec_sahf
  | PushaReal => exec_pusha_real cur_addr
  | PopaReal => exec_popa_real cur_addr
  | EnterReal alloc level => exec_enter_real cur_addr alloc level
  | X87 kind addr sti => exec_x87_arm cur_addr kind addr sti
  | FxState addr restore => exec_fx_state cur_addr addr restore
  | Vector op => exec_vec cur_addr op
  end.

(** The counters the walk threads by reference. *)
Record Walk : Type := mkWalk {
  w_cur : Z;
  w_retired : Z;
  w_started : bool;
  w_sti : bool;
}.

(** Their update by one op: a new instruction retires the previous one and clears the
    [sti] shadow; [sti] arms it. *)
Definition walk_note (op : IrOp) (w : Walk) : Walk :=
  match op with
  | InsnStart a => mkWalk a (w_retired w + b2z (w_started w)) true false
  | SetIf v => mkWalk (w_cur w) (w_retired w) (w_started w) v
  | _ => w
  end.

Fixpoint walk_ops `{Libm} (ir : IrBlock) (ops : list IrOp) (w : Walk) (s : mach) : option (StepResult * Walk * mach) :=
  match ops with
  | [] =>
      e ← block_end ir;
      Some (Continue, w, mkMach (set_rip (m_cpu s) e) (m_mem s) (m_temps s))
  | op :: rest =>
      '(r, s) ← exec_op ir (w_cur w) op s;
      let w := walk_note op w in
      match r with
      | Some r => Some (r, w, s)
      | None => walk_ops ir rest w s
      end
  end.

Record RetireInfo : Type := mkRetire {
  retired : Z;
  sti_shadow : bool;
}.

Definition interpret_block `{Libm} (ir : IrBlock) (c : CpuState) (m : Memory)
    : option (StepResult * RetireInfo * CpuState * Memory) :=
  '(result, w, s) ← walk_ops ir (ops ir) (mkWalk (guest_start ir) 0 false false)
                      (mkMach c m (replicate (temp_count ir) 0));
  let moved := w_started w && negb (rip (m_cpu s) =? w_cur w) in
  Some (result, mkRetire (w_retired w + b2z moved) (w_sti w && moved), m_cpu s, m_mem s).

(** ** Well-formed blocks

    What the lifter guarantees of every op: temporaries below [temp_count], operand
    sizes 1, 2, 4 or 8, addresses and immediates within their machine types. *)

Definition op_wf (n : nat) (op : IrOp) : Prop :=
  match op with
  | InsnStart a => in_width 64 a
  | ReadReg dst _ | GetCond dst _ => (dst < n)%nat
  | WriteReg _ src size => val_ok n src /\ valid_elem size
  | Add dst a b size _ | Sub dst a b size _ | Adc dst a b size _ | Sbb dst a b size _
  | And dst a b size _ | Or dst a b size _ | Xor dst a b size _ | Shl dst a b size _
  | Shr dst a b size _ | Sar dst a b size _ | Rol dst a b size _ | Ror dst a b size _
  | Rcl dst a b size _ | Rcr dst a b size _ | Bmi dst a b size _ | Bt dst a b size _
  | BitScan dst a b size _ =>
      (dst < n)%nat /\ val_ok n a /\ val_ok n b /\ valid_elem size
  | DoubleShift dst a b count size _ _ =>
      (dst < n)%nat /\ val_ok n a /\ val_ok n b /\ val_ok n count /\ valid_elem size
  | Sext dst a from => (dst < n)%nat /\ val_ok n a /\ 1 <= from
  | Bswap dst a _ => (dst < n)%nat /\ val_ok n a
  | Mul lo hi a b size _ _ => (lo < n)%nat /\ (hi < n)%nat /\ val_ok n a /\ val_ok n b /\ valid_elem size
  | Div q r hi lo d size _ =>
      (q < n)%nat /\ (r < n)%nat /\ val_ok n hi /\ val_ok n lo /\ val_ok n d /\ valid_elem size
  | Load dst addr size | Popcnt dst addr size => (dst < n)%nat /\ val_ok n addr /\ valid_elem size
  | Store addr src size _ => val_ok n addr /\ val_ok n src /\ valid_elem size
  | Crc32 dst crc src bytes => (dst < n)%nat /\ val_ok n crc /\ val_ok n src /\ bytes <= 8
  | AtomicRmw old addr src size _ => (old < n)%nat /\ val_ok n addr /\ val_ok n src /\ valid_elem size
  | AtomicCas old addr e src size =>
      (old < n)%nat /\ val_ok n addr /\ val_ok n e /\ val_ok n src /\ valid_elem size
  | IntoGate next_ip => in_width 64 next_ip
  | BoundGate i l u _ next_ip => val_ok n i /\ val_ok n l /\ val_ok n u /\ in_width 64 next_ip
  | SegLimitCheck o _ _ _ => val_ok n o
  | Bcd kind => match kind with Aam b | Aad b => in_width 8 b | _ => True end
  | LoopCx _ t f | Branch _ t f => in_width 64 t /\ in_width 64 f
  | FarJump c i | FarCall c i _ => val_ok n c /\ val_ok n i
  | RepString _ elem _ _ seg => valid_elem elem /\ val_ok n seg
  | RepStringReal _ elem _ ds es => valid_elem elem /\ val_ok n ds /\ val_ok n es
  | Jump t => val_ok n t
  | Call t _ slot _ => val_ok n t /\ valid_elem slot
  | Ret slot _ _ => valid_elem slot
  | Trap _ advance => 0 <= advance
  | PortIo port value size _ => val_ok n port /\ val_ok n value
  | X87 _ addr _ | FxState addr _ => val_ok n addr
  | Vector op => vop_wf n op
  | Cpuid | Xgetbv | SetDf _ | SetIf _ | PushfReal | PopfReal | IntGate _ _ | IretReal | SetCf _
  | FarRet _ | Lahf | Sahf | PushaReal | PopaReal | EnterReal _ _ | Syscall _ | Hlt => True
  end.

(** A trap's saved address must not run off the address space. *)
Fixpoint traps_fit (cur : Z) (l : list IrOp) : Prop :=
  match l with
  | [] => True
  | InsnStart a :: l => traps_fit a l
  | Trap _ advance :: l => cur + advance < 2 ^ 64 /\ traps_fit cur l
  | _ :: l => traps_fit cur l
  end.

Record block_wf (ir : IrBlock) : Prop := {
  bw_start : in_width 64 (guest_start ir);
  bw_len : 0 <= guest_len ir;
  bw_end : guest_start ir + guest_len ir < 2 ^ 64;
  bw_ops : Forall (op_wf (temp_count ir)) (ops ir);
  bw_traps : traps_fit (guest_start ir) (ops ir);
}.

(** ** No panics *)

Create HintDb arms.
#[export] Hint Resolve exec_read_reg_safe exec_write_reg_safe exec_add_safe exec_adc_safe exec_sub_safe exec_sbb_safe
  exec_and_safe exec_or_safe exec_xor_safe exec_shl_safe exec_shr_safe exec_double_shift_safe exec_sar_safe
  exec_sext_safe exec_bswap_safe exec_rol_safe exec_ror_safe exec_rcl_safe exec_rcr_safe exec_mul_safe exec_div_safe
  exec_get_cond_safe exec_load_safe exec_store_safe exec_atomic_rmw_safe exec_atomic_cas_safe exec_bt_safe
  exec_popcnt_safe exec_crc32_safe exec_bmi_safe exec_bit_scan_safe exec_cpuid_safe exec_xgetbv_safe exec_bcd_safe
  exec_rep_string_safe exec_rep_string_real_safe exec_set_df_safe exec_lahf_safe exec_sahf_safe exec_pusha_real_safe
  exec_popa_real_safe exec_enter_real_safe exec_jump_safe exec_branch_safe exec_call_safe exec_ret_safe
  exec_syscall_safe exec_port_io_safe exec_hlt_safe exec_trap_safe exec_pushf_real_safe exec_popf_real_safe
  deliver_interrupt_safe exec_iret_real_safe exec_loop_cx_safe exec_far_jump_safe exec_far_call_safe
  exec_far_ret_safe : arms.
#[export] Hint Resolve safe_next : arms.

(** Down to the primitives of the machine monad. *)
Ltac unfold_arms :=
  unfold exec_read_reg, exec_write_reg, exec_add, exec_adc, exec_sub, exec_sbb, exec_and, exec_or, exec_xor, exec_shl,
    exec_shr, exec_double_shift, exec_sar, exec_sext, exec_bswap, exec_rol, exec_ror, exec_rcl, exec_rcr, exec_mul,
    exec_div, exec_get_cond, exec_load, exec_store, exec_atomic_rmw, exec_atomic_cas, exec_bt, exec_cpuid, exec_xgetbv,
    exec_popcnt, exec_crc32, exec_bmi, exec_bit_scan, exec_rep_string, exec_rep_string_real, string_run,
    exec_set_df, exec_lahf, exec_sahf, exec_pusha_real, exec_popa_real, exec_enter_real, exec_jump, exec_branch,
    exec_call, exec_ret, exec_syscall, exec_port_io, exec_hlt, exec_trap, exec_pushf_real, exec_popf_real,
    exec_loop_cx, exec_far_jump, exec_far_call, exec_far_ret, exec_into_gate, exec_seg_limit_check, exec_bound_gate,
    exec_set_cf, exec_bcd.

Section WalkSafe.
Context `{Libm} (n : nat) (ir : IrBlock).

Lemma ends_safe c : safe n c any -> safe n (ends c) any.
Proof. intros Hc. unfold ends. eapply safe_bind; [exact Hc|]. intros. apply safe_leave. Qed.

Lemma at_end_safe e k : block_end ir = Some e -> safe n (k e) any -> safe n (at_end ir k) any.
Proof. intros E Hk s Hs. unfold at_end. rewrite E. by apply Hk. Qed.

Lemma exec_into_gate_safe ca ip : in_width 64 ca -> in_width 64 ip -> safe n (exec_into_gate ca ip) any.
Proof.
  intros. unfold exec_into_gate. eapply safe_bind; [apply safe_get_cpu|]. intros c Hc.
  destruct (of_ _); [by apply ends_safe, deliver_interrupt_safe|arm].
Qed.
Lemma exec_seg_limit_safe ca o sz v ip : in_width 64 ca -> val_ok n o -> safe n (exec_seg_limit_check ca o sz v ip) any.
Proof.
  intros. unfold exec_seg_limit_check. eapply safe_bind; [by apply safe_read_val|]. intros. cbn zeta.
  destruct (_ <? _); [by apply ends_safe, deliver_interrupt_safe|apply safe_next].
Qed.
Lemma exec_bound_gate_safe ca i l u f ip : in_width 64 ca -> val_ok n i -> val_ok n l -> val_ok n u -> in_width 64 ip ->
  safe n (exec_bound_gate ca i l u f ip) any.
Proof.
  intros. unfold exec_bound_gate. do 3 (eapply safe_bind; [by apply safe_read_val|intros]). cbn zeta.
  destruct (_ || _); [by apply ends_safe, deliver_interrupt_safe|arm].
Qed.
Lemma exec_set_cf_safe v : safe n (exec_set_cf v) any.
Proof. unfold exec_set_cf. arm. Qed.
Lemma set_if_safe v : safe n (upd_flags (fun f => set_if_ f v);; next) any.
Proof. arm. Qed.
#[local] Hint Resolve ends_safe exec_into_gate_safe exec_seg_limit_safe exec_bound_gate_safe exec_set_cf_safe set_if_safe : arms.


Definition is_wide (op : IrOp) : bool := match op with X87 _ _ _ | FxState _ _ | Vector _ => true | _ => false end.

Lemma exec_op_safe ca op e : in_width 64 ca -> block_end ir = Some e -> in_width 64 e -> op_wf n op ->
  (match op with Trap _ advance => ca + advance < 2 ^ 64 | _ => True end) -> is_wide op = false ->
  safe n (exec_op ir ca op) any.
Proof.
  intros Hca He Hew Hop Htr Hw.
  destruct op; try discriminate Hw; cbn [op_wf exec_op] in *;
    repeat match goal with H : _ /\ _ |- _ => destruct H end;
    first [solve [auto 3 with arms nocore]|solve [eapply at_end_safe; [exact He|]; auto 3 with arms nocore]].
Qed.

(** The integer, string and control arms leave the wide registers alone. *)
Lemma exec_op_frames ca op : is_wide op = false -> frames (exec_op ir ca op).
Proof.
  assert (He : forall k, (forall e, frames (k e)) -> frames (at_end ir k)).
  { intros k Hk s a s'. unfold at_end. destruct (block_end ir); [apply Hk|done]. }
  intros Hw. destruct op; try discriminate Hw; cbn [exec_op]; try (apply He; intros e); unfold_arms; unfold leave, next, ends; frames.
Qed.

Lemma exec_op_vsafe ca op e : in_width 64 ca -> block_end ir = Some e -> in_width 64 e -> op_wf n op ->
  (match op with Trap _ advance => ca + advance < 2 ^ 64 | _ => True end) -> vsafe n (exec_op ir ca op) any.
Proof.
  intros Hca He Hew Hop Htr. destruct (is_wide op) eqn:Hw.
  - destruct op; try discriminate Hw; cbn [op_wf exec_op] in *;
      [by apply exec_x87_arm_safe|by apply exec_fx_state_safe|by apply exec_vec_safe].
  - intros s [Hs Hv]. destruct (exec_op_safe ca op e Hca He Hew Hop Htr Hw s Hs) as (r & s' & E & Hs' & _).
    exists r, s'. split; [done|]. split; [|done]. split; [done|]. eapply wide_vec; [|exact Hv]. by eapply exec_op_frames.
Qed.
End WalkSafe.

(** ** Bookkeeping *)

(** The addresses of the instructions a list of ops starts. *)
Fixpoint insn_starts (l : list IrOp) : list Z :=
  match l with
  | [] => []
  | InsnStart a :: l => a :: insn_starts l
  | _ :: l => insn_starts l
  end.

Lemma insn_starts_cons op l :
  insn_starts (op :: l) = match op with InsnStart a => [a] | _ => [] end ++ insn_starts l.
Proof. by destruct op. Qed.

(** The walk's counters after executing [pre] from the start of the block. *)
Definition walk_after (pre : list IrOp) (w : Walk) : Walk := foldl (fun w op => walk_note op w) w pre.

Lemma walk_note_cur op w : w_cur (walk_note op w) = default (w_cur w) (list.last (insn_starts [op])).
Proof. by destruct op. Qed.

Lemma last_app_default {A} (x : A) l l' : default x (list.last (l ++ l')) = default (default x (list.last l)) (list.last l').
Proof. rewrite last_app. by destruct (list.last l'). Qed.

Lemma walk_after_spec pre w :
  w_cur (walk_after pre w) = default (w_cur w) (list.last (insn_starts pre)) /\
  w_started (walk_after pre w) = w_started w || negb (Nat.eqb (length (insn_starts pre)) 0) /\
  w_retired (walk_after pre w) + b2z (w_started (walk_after pre w)) =
    w_retired w + b2z (w_started w) + Z.of_nat (length (insn_starts pre)).
Proof.
  revert w. induction pre as [|op pre IH]; intros w.
  - split; [done|]. split; [cbn; by rewrite orb_false_r|cbn; lia].
  - cbn [walk_after foldl]. fold (walk_after pre (walk_note op w)). destruct (IH (walk_note op w)) as (-> & E2 & E3).
    rewrite walk_note_cur, (insn_starts_cons op pre), last_app_default.
    split; [by destruct op|]. rewrite E2 in *. split; [|rewrite E3].
    + destruct op; cbn; rewrite ?orb_false_r; try done. by rewrite orb_true_r.
    + destruct op; cbn [walk_note w_retired w_started length insn_starts app]; cbn [b2z]; lia.
Qed.

(** The walk executes a prefix of the ops: all of them when no arm left the block. *)
Lemma walk_ops_prefix `{Libm} ir l w s r w' s' : walk_ops ir l w s = Some (r, w', s') ->
  exists pre post, l = pre ++ post /\ w' = walk_after pre w.
Proof.
  revert w s. induction l as [|op l IH]; intros w s E; cbn [walk_ops] in E.
  - destruct (block_end ir); [|done]. injection E as <- <- <-. by exists [], [].
  - destruct (exec_op ir (w_cur w) op s) as [[[r0|] s0]|]; [| |done]; cbn [mbind option_bind] in E.
    + injection E as <- <- <-. by exists [op], l.
    + destruct (IH _ _ E) as (pre & post & -> & ->). by exists (op :: pre), post.
Qed.

Lemma walk_ops_safe `{Libm} n ir l w s : in_width 64 (guest_start ir) -> 0 <= guest_len ir ->
  guest_start ir + guest_len ir < 2 ^ 64 -> in_width 64 (w_cur w) ->
  Forall (op_wf n) l -> traps_fit (w_cur w) l -> vmach n s ->
  exists r w' s', walk_ops ir l w s = Some (r, w', s') /\ vmach n s'.
Proof.
  intros Hs Hlen Hend. assert (He : block_end ir = Some (guest_start ir + guest_len ir)).
  { unfold block_end, checked_add. destruct (Z.ltb_spec (guest_start ir + guest_len ir) (2 ^ 64)); [done|lia]. }
  assert (Hew : in_width 64 (guest_start ir + guest_len ir)) by (destruct Hs; unfold in_width; lia).
  revert w s. induction l as [|op l IH]; intros w s Hw Hl Ht Hm; cbn [walk_ops].
  - rewrite He. cbn [mbind option_bind]. eexists _, _, _. split; [done|].
    destruct (vcpu_rip _ _ (vmach_cpu _ _ Hm) Hew) as [? ?]. by apply vmach_put.
  - apply list.Forall_cons in Hl as [Hop Hl].
    destruct (exec_op_vsafe n ir (w_cur w) op _ Hw He Hew Hop) with (s := s) as (r & s1 & -> & Hm1 & _);
      [destruct op; try done; apply Ht|done|].
    cbn [mbind option_bind]. destruct r as [r|]; [by eexists _, _, _|]. apply IH; try done.
    + destruct op; try done.
    + destruct op; try done. apply Ht.
Qed.

(** ** Precise faults *)

(** The exits that report a memory access to be completed or repaired and retried. *)
Definition mem_exit (r : StepResult) : bool :=
  match r with
  | SExit (UnmappedMemory _ _) | SExit (MmioRead _ _) | SExit (MmioWrite _ _ _) => true
  | _ => false
  end.

(** [faults_at ca out c]: whenever [c] ends with a memory exit ([out] of its result), RIP is [ca]. *)
Definition faults_at {A} (ca : Z) (out : A -> option StepResult) (c : M A) : Prop :=
  forall s a s' r, c s = Some (a, s') -> out a = Some r -> mem_exit r = true -> rip (m_cpu s') = ca.

Definition res_out {A} (r : Result A StepResult) : option StepResult :=
  match r with Ok _ => None | Err e => Some e end.

Section Faults.
Context (ca : Z).

Lemma faults_bind {A B} (c : M A) (k : A -> M B) out : (forall a, faults_at ca out (k a)) -> faults_at ca out (c ≫= k).
Proof.
  intros Hk s b s' r E. unfold mbind, M_bind in E. destruct (c s) as [[a s1]|]; [|done]. by apply (Hk a s1).
Qed.

Lemma faults_ret {A} (a : A) out : (forall r, out a = Some r -> mem_exit r = false) -> faults_at ca out (mret a).
Proof. intros H s b s' r [= <- <-] Hr Hm. by rewrite (H r Hr) in Hm. Qed.

Lemma faults_panic {A} out : faults_at ca out (panic (A := A)).
Proof. done. Qed.
Lemma faults_next : faults_at ca id next.
Proof. by apply faults_ret. Qed.
Lemma faults_leave r : mem_exit r = false -> faults_at ca id (leave r).
Proof. intros H. apply faults_ret. by intros r' [= <-]. Qed.

(** After [trap_out], the state is the final one. *)
Lemma faults_trap {B} t a sz k v (f : StepResult -> B) out :
  faults_at ca out (e ← trap_out ca t a sz k v; mret (f e)).
Proof. intros s b s' r [= <- <-] _ _. done. Qed.

(** The inner result decides: [k] hands an exit on unchanged. *)
Lemma faults_via {A B} (c : M A) (k : A -> M B) out out' : faults_at ca out c ->
  (forall a, faults_at ca out' (k a) \/ (exists b, k a = mret b /\ forall r, out' b = Some r -> mem_exit r = true -> out a = Some r)) ->
  faults_at ca out' (c ≫= k).
Proof.
  intros Hc Hk s b s' r E Hr Hm. unfold mbind, M_bind in E. destruct (c s) as [[a s1]|] eqn:Ec; [|done].
  destruct (Hk a) as [H|(b0 & Eb & H)]; [by apply (H s1 b s' r)|].
  rewrite Eb in E. injection E as <- <-. by apply (Hc s a s1 r Ec (H r Hr Hm)).
Qed.

Lemma faults_or_leave {A B} (c : M (Result A StepResult)) (k : A -> M (Result B StepResult)) :
  faults_at ca res_out c -> (forall a, faults_at ca res_out (k a)) -> faults_at ca res_out (or_leave c k).
Proof.
  intros Hc Hk. apply (faults_via c _ res_out); [done|]. intros [a|e]; [by left|]. right. by eexists.
Qed.
Lemma faults_as_arm c : faults_at ca res_out c -> faults_at ca id (as_arm c).
Proof.
  intros Hc. apply (faults_via c _ res_out); [done|]. intros [a|e]; [left; apply faults_next|]. right. by eexists.
Qed.
Definition step_out (r : Result StepResult StepResult) : option StepResult :=
  Some match r with Ok e => e | Err e => e end.
Lemma faults_ends (c : M StepResult) : faults_at ca Some c -> faults_at ca id (ends c).
Proof. intros Hc. apply (faults_via c _ Some); [done|]. intros a. right. by eexists. Qed.
Lemma faults_as_step c : faults_at ca step_out c -> faults_at ca Some (as_step c).
Proof. intros Hc. apply (faults_via c _ step_out); [done|]. intros [a|e]; right; by eexists. Qed.
Lemma faults_or_step {A} (c : M (Result A StepResult)) (k : A -> M (Result StepResult StepResult)) :
  faults_at ca res_out c -> (forall a, faults_at ca step_out (k a)) -> faults_at ca step_out (or_leave c k).
Proof.
  intros Hc Hk. apply (faults_via c _ res_out); [done|]. intros [a|e]; [by left|]. right. by eexists.
Qed.
End Faults.

Create HintDb faults.
#[export] Hint Resolve faults_panic faults_next faults_trap faults_ends faults_as_arm faults_as_step : faults.
#[export] Hint Extern 1 (faults_at _ _ (leave _)) => apply faults_leave; reflexivity : faults.
#[export] Hint Extern 2 (faults_at _ _ (mret _)) => apply faults_ret; (done || intros ? [= <-]; reflexivity) : faults.

(** Walk down an arm; only its last step can end in a memory exit. *)
Ltac faults :=
  cbn beta zeta;
  lazymatch goal with
  | |- faults_at _ _ (e ← trap_out _ _ _ _ _ _; _) => apply faults_trap
  | |- faults_at _ _ (as_arm _) => apply faults_as_arm; faults
  | |- faults_at _ _ (as_step _) => apply faults_as_step; faults
  | |- faults_at _ _ (ends _) => apply faults_ends; faults
  | |- faults_at _ res_out (or_leave _ _) => apply faults_or_leave; [faults|intros ?; faults]
  | |- faults_at _ step_out (or_leave _ _) => apply faults_or_step; [faults|intros ?; faults]
  | |- faults_at _ _ (mbind _ _) => apply faults_bind; intros ?; faults
  | |- faults_at _ _ (if ?c then _ else _) => destruct c; faults
  | |- faults_at _ _ (match ?x with _ => _ end) => destruct x; faults
  | |- _ => auto with faults
  end.

Section FaultArms.
Context (ca : Z).

Lemma push16_faults w : faults_at ca res_out (push16 ca w).
Proof. unfold push16. faults. Qed.
Lemma pop16_faults : faults_at ca res_out (pop16 ca).
Proof. unfold pop16. faults. Qed.
#[local] Hint Resolve push16_faults pop16_faults : faults.

Lemma push_all_faults ws : faults_at ca res_out (push_all ca ws).
Proof. induction ws; cbn [push_all]; faults. Qed.
Lemma pop_all_faults l : faults_at ca res_out (pop_all ca l).
Proof.
  induction l as [|slot l IH]; cbn [pop_all]; [faults|]. apply faults_or_leave; [faults|]. intros v.
  apply faults_bind. intros _. exact IH.
Qed.
Lemma enter_display_faults k bp : faults_at ca res_out (enter_display ca k bp).
Proof.
  revert bp. induction k as [|k IH]; intros bp; cbn [enter_display]; [faults|].
  cbn zeta. do 3 (apply faults_bind; intros ?).
  match goal with |- context [match ?x with Ok _ => _ | Err _ => _ end] => destruct x end; [|faults].
  apply faults_or_leave; [faults|]. intros. apply IH.
Qed.
#[local] Hint Resolve push_all_faults pop_all_faults enter_display_faults : faults.

Lemma deliver_faults vec ip : faults_at ca Some (deliver_interrupt ca vec ip).
Proof. unfold deliver_interrupt. faults. Qed.
Lemma iret_faults : faults_at ca Some (exec_iret_real ca).
Proof. unfold exec_iret_real. faults. Qed.
#[local] Hint Resolve deliver_faults iret_faults : faults.

Lemma str_body_rip_fault {T} `{StrMem T} op elem ab sb db step c (m : T) f c' m' :
  str_body op elem ca ab sb db step c m = Some (Some f, c', m') -> rip c' = ca.
Proof.
  unfold str_body, str_trap. destruct op; cbn [mbind option_bind];
    repeat match goal with
    | |- context [sload ?m ?a ?n] => destruct (sload m a n) as [[[]]|]; try done; cbn [mbind option_bind]
    | |- context [sstore ?m ?a ?v ?n] => destruct (sstore m a v n) as [[[]]|]; try done; cbn [mbind option_bind]
    | |- context [write_gpr ?c ?i ?v ?n] => destruct (write_gpr c i v n); try done; cbn [mbind option_bind]
    end; by intros [= <- <- <-].
Qed.

Lemma str_loop_rip_fault {T} `{StrMem T} op elem rep ab sb db step k c (m : T) f c' m' :
  str_loop op elem rep ca ab sb db step k c m = Some (Some f, c', m') -> rip c' = ca.
Proof.
  revert c m. induction k as [|k IH]; intros c m E; cbn [str_loop] in E; [done|].
  destruct (str_done rep ab c); [done|].
  destruct (str_body _ _ _ _ _ _ _ c m) as [[[[f0|] c0] m0]|] eqn:Eb; [| |done]; cbn [mbind option_bind] in E.
  - injection E as <- <- <-. by eapply str_body_rip_fault.
  - destruct (str_after rep ab c0) as [[] c1]; [by eapply IH|done].
Qed.

Lemma run_str_faults op elem rep ab sb db :
  faults_at ca id (run_str (fun c m => string_run_impl c m op elem rep ca ab sb db)).
Proof.
  intros s a s' r. unfold run_str. destruct (string_run_impl _ _ _ _ _ _ _ _ _) as [[[[f|] c] m]|] eqn:E; [| |done].
  - intros [= <- <-] _ _. cbn [m_cpu]. unfold string_run_impl in E. by apply str_loop_rip_fault in E.
  - by intros [= <- <-].
Qed.
#[local] Hint Resolve run_str_faults : faults.

Lemma exec_op_faults `{Libm} ir op : is_wide op = false -> faults_at ca id (exec_op ir ca op).
Proof.
  intros Hw. assert (He : forall k, (forall e, faults_at ca id (k e)) -> faults_at ca id (at_end ir k)).
  { intros k Hk s a s' r. unfold at_end. destruct (block_end ir); [apply Hk|done]. }
  destruct op; try discriminate Hw; cbn [exec_op]; try (apply He; intros e); unfold_arms; unfold leave; faults.
Qed.
End FaultArms.

(** The wide arms, on a well-formed machine; the memory form of the GFNI ops leaves RIP
    where it was. *)
Definition keeps_rip (op : IrOp) : bool := match op with Vector (VGf2p8M _ _ _ _ _ _ _ _) => false | _ => true end.

Lemma run_fp_faults ca f : faults_at ca id (run_fp ca f).
Proof. intros s a s' r. unfold run_fp. destruct (f _ _) as [[[[x|] c] m]|]; [| |done]; by intros [= <- <-]. Qed.
#[local] Hint Resolve run_fp_faults : faults.

Lemma or_trap_faults {A} ca acc (x : M (Result A VecFault)) k : (forall a, faults_at ca id (k a)) -> faults_at ca id (or_trap ca acc x k).
Proof. intros Hk. unfold or_trap. apply faults_bind. intros [a|f]; [apply Hk|]. apply (faults_trap ca). Qed.

Lemma lane_by_lane_faults ca dst a ea f k l : faults_at ca id (lane_by_lane ca dst a ea f k l).
Proof.
  revert l. induction k as [|k IH]; intros l; cbn [lane_by_lane]; [apply faults_next|].
  apply faults_bind. intros x. apply or_trap_faults. intros v. apply faults_bind. intros _. apply IH.
Qed.

Lemma exec_op_rip `{Libm} n ir ca op s r s' : in_width 64 ca -> op_wf n op -> keeps_rip op = true -> vmach n s ->
  exec_op ir ca op s = Some (Some r, s') -> mem_exit r = true -> rip (m_cpu s') = ca.
Proof.
  intros Hca Hop Hk Hs E Hr. destruct (is_wide op) eqn:Hw.
  - destruct op; try discriminate Hw; cbn [exec_op] in E.
    + assert (F : faults_at ca id (exec_x87_arm ca kind addr sti)) by (unfold exec_x87_arm; faults). by eapply F.
    + assert (F : faults_at ca id (exec_fx_state ca addr restore)) by (unfold exec_fx_state; faults). by eapply F.
    + destruct (commits_late op) eqn:El.
      * destruct op; try discriminate El; try discriminate Hk;
        match goal with E : exec_vec ca ?o _ = _ |- _ =>
          assert (F : faults_at ca id (exec_vec ca o)) by (apply faults_bind; intros; apply lane_by_lane_faults); by eapply F end.
      * destruct (exec_vec_atomic n ca op Hca Hop El s Hs) as (r' & s1 & E1 & _ & H1). rewrite E in E1. injection E1 as <- <-.
        by destruct (H1 r eq_refl) as (_ & ? & _).
  - by eapply (exec_op_faults ca ir op Hw).
Qed.

(** The instruction being executed after the ops [pre] of a block. *)
Definition current_insn (ir : IrBlock) (pre : list IrOp) : Z := default (guest_start ir) (list.last (insn_starts pre)).

Lemma insn_starts_app l l' : insn_starts (l ++ l') = insn_starts l ++ insn_starts l'.
Proof. induction l as [|op l IH]; [done|]. rewrite <- app_comm_cons, !insn_starts_cons, IH. by rewrite app_assoc. Qed.

Lemma walk_start_spec ir pre : let w := walk_after pre (mkWalk (guest_start ir) 0 false false) in
  w_cur w = current_insn ir pre /\
  w_retired w + b2z (w_started w) = Z.of_nat (length (insn_starts pre)) /\
  w_started w = negb (Nat.eqb (length (insn_starts pre)) 0).
Proof.
  destruct (walk_after_spec pre (mkWalk (guest_start ir) 0 false false)) as (E1 & E2 & E3). split; [exact E1|]. split; [|exact E2].
  cbn [w_retired w_started b2z] in E3. lia.
Qed.

(** The ops [l] run one after the other behind [pre], each at the address of the instruction
    it belongs to; [None] when one of them leaves the block. *)
Fixpoint run_through `{Libm} (ir : IrBlock) (pre l : list IrOp) (s : mach) : option mach :=
  match l with
  | [] => Some s
  | op :: l =>
      match exec_op ir (current_insn ir pre) op s with
      | Some (None, s') => run_through ir (pre ++ [op]) l s'
      | _ => None
      end
  end.

(** Where a walk that ends in a memory exit stopped. *)
Lemma walk_ops_fault `{Libm} n ir l dn s r w' s' e : block_end ir = Some e -> in_width 64 e ->
  let w := walk_after dn (mkWalk (guest_start ir) 0 false false) in in_width 64 (w_cur w) ->
  Forall (op_wf n) l -> traps_fit (w_cur w) l -> Forall (fun op => keeps_rip op = true) l -> vmach n s ->
  walk_ops ir l w s = Some (r, w', s') -> mem_exit r = true ->
  exists pre op post s0, l = pre ++ op :: post /\ run_through ir dn pre s = Some s0 /\
    exec_op ir (current_insn ir (dn ++ pre)) op s0 = Some (Some r, s') /\ insn_starts [op] = [] /\
    w' = walk_after (dn ++ pre ++ [op]) (mkWalk (guest_start ir) 0 false false) /\ rip (m_cpu s') = current_insn ir (dn ++ pre).
Proof.
  intros He Hew. revert dn s. induction l as [|op l IH]; intros dn s w Hw Hl Ht Hk Hm E Hr; cbn [walk_ops] in E.
  - rewrite He in E. by injection E as <- <- <-.
  - apply list.Forall_cons in Hl as [Hop Hl], Hk as [Hko Hk].
    assert (Hcur : w_cur w = current_insn ir dn) by apply (walk_start_spec ir dn).
    assert (Hnext : walk_note op w = walk_after (dn ++ [op]) (mkWalk (guest_start ir) 0 false false)) by (unfold w, walk_after; by rewrite foldl_app).
    destruct (exec_op_vsafe n ir (w_cur w) op _ Hw He Hew Hop) with (s := s) as (r1 & s1 & Eo & Hm1 & _);
      [destruct op; try done; apply Ht|done|].
    rewrite Eo in E. cbn [mbind option_bind] in E. destruct r1 as [r1|].
    + injection E as <- <- <-. exists [], op, l, s. rewrite app_nil_r, <- Hcur. split; [done|]. split; [done|]. split; [done|].
      split; [destruct op; try done; cbn in Eo; by injection Eo|]. split; [by rewrite app_nil_l, <- Hnext|].
      exact (exec_op_rip n ir (w_cur w) op s r1 s1 Hw Hop Hko Hm Eo Hr).
    + rewrite Hnext in E. destruct (IH (dn ++ [op]) s1) as (pre & op' & post & s0 & -> & Hrun & Hx & Ho & Hw' & Hrip); try done.
      * rewrite <- Hnext. by destruct op.
      * rewrite <- Hnext. destruct op; try done. apply Ht.
      * rewrite <- app_assoc in *. exists (op :: pre), op', post, s0. split; [done|]. split; [|done].
        cbn [run_through]. by rewrite <- Hcur, Eo.
Qed.

Lemma block_end_wf ir : block_wf ir -> block_end ir = Some (guest_start ir + guest_len ir) /\ in_width 64 (guest_start ir + guest_len ir).
Proof.
  intros [[H0 H1] H2 H3 _ _]. unfold block_end, checked_add. destruct (Z.ltb_spec (guest_start ir + guest_len ir) (2 ^ 64)); [|lia].
  split; [done|]. split; lia.
Qed.

Lemma start_vmach c m n : vcpu c -> mem_wf m -> vmach n (mkMach c m (replicate n 0)).
Proof.
  intros [Hc Hv] Hm. split; [|done]. split; [done|done|apply length_replicate|]. apply Forall_replicate. unfold in_width. lia.
Qed.

(** ** Theorems *)

(** A block of five instructions: [t0 := rax; rbx := t0 + t0], a 512-bit vector addition,
    an x87 push, a load from the trapped region, and a branch. *)
Definition ex_block : IrBlock := mkBlock 0x1000
  [InsnStart 0x1000; ReadReg 0 Rax; Add 1 (TempV 0) (TempV 0) 8 FM_ALL; WriteReg Rbx (TempV 1) 8;
   InsnStart 0x1003; Vector (VPackedWide 3 1 2 4 PAdd 64);
   InsnStart 0x1009; X87 Fld1 (Imm 0) 0;
   InsnStart 0x100b; Load 0 (Imm 8192) 4; WriteReg Rcx (TempV 0) 4;
   InsnStart 0x100f; Branch Ne 0x1000 0x1011] 2 17 5.

Lemma ex_block_wf : block_wf ex_block.
Proof.
  split; [unfold in_width; cbn; lia|cbn; lia|cbn; lia| |cbn; tauto].
  cbn [ops ex_block temp_count].
  repeat (apply list.Forall_cons; split; [cbn [op_wf val_ok vop_wf regs foldr]; unfold in_width, valid_elem, valid_vec; repeat split; lia|]).
  by apply list.Forall_nil.
Qed.
Lemma default_vcpu : vcpu default_cpu.
Proof. split; [apply default_cpu_wf|apply default_vec_wf]. Qed.

(** C3: type soundness of the interpreter: a well-formed block (integer, string, control,
    x87 and vector ops alike) run on a well-formed CPU and address space never panics (no
    temporary or register out of range, no bad operand size, no overflowing address sum)
    and never touches host memory outside the backing; it ends with a result and leaves
    every register file, the flags and the address space well formed. *)
Theorem block_never_panics `{Libm} (ir : IrBlock) (c : CpuState) (m : Memory) :
  block_wf ir -> vcpu c -> mem_wf m ->
  exists r info c' m', interpret_block ir c m = Some (r, info, c', m') /\ vcpu c' /\ mem_wf m'.
Proof.
  intros [H1 H2 H3 H4 H5] Hc Hm. unfold interpret_block.
  destruct (walk_ops_safe (temp_count ir) ir (ops ir) (mkWalk (guest_start ir) 0 false false)
    (mkMach c m (replicate (temp_count ir) 0)) H1 H2 H3 H1 H4 H5) as (r & w & s & -> & Hs); [by apply start_vmach|].
  cbn [mbind option_bind]. eexists _, _, _, _. split; [done|]. split; [by apply (vmach_cpu (temp_count ir))|apply Hs].
Qed.

Lemma block_never_panics_witness : exists r info c' m',
  @interpret_block no_libm ex_block default_cpu ex_mem = Some (r, info, c', m') /\ vcpu c' /\ mem_wf m'.
Proof. apply (@block_never_panics no_libm ex_block default_cpu ex_mem ex_block_wf default_vcpu ex_mem_wf). Defined.

(** C9: memory faults are precise: when a block ends with an unmapped or MMIO exit, it ran up
    to one op that left with this exit, every op before it having run at the address of its
    own instruction; RIP is the address of the instruction the faulting op belongs to (not of
    the block), CPU and memory are what that op left, and exactly the instructions started
    before it are counted as retired (the faulting one will be counted when it is retried).
    The memory form of the GFNI ops, which leaves RIP behind, is excluded. *)
Theorem memory_faults_precise `{Libm} (ir : IrBlock) (c : CpuState) (m : Memory) (r : StepResult) (info : RetireInfo)
    (c' : CpuState) (m' : Memory) :
  block_wf ir -> Forall (fun op => keeps_rip op = true) (ops ir) -> vcpu c -> mem_wf m ->
  interpret_block ir c m = Some (r, info, c', m') -> mem_exit r = true ->
  exists pre op post s s', ops ir = pre ++ op :: post /\
    run_through ir [] pre (mkMach c m (replicate (temp_count ir) 0)) = Some s /\
    exec_op ir (current_insn ir pre) op s = Some (Some r, s') /\ c' = m_cpu s' /\ m' = m_mem s' /\
    rip c' = current_insn ir pre /\
    retired info = Z.max 0 (Z.of_nat (length (insn_starts pre)) - 1) /\ sti_shadow info = false.
Proof.
  intros Hb Hk Hc Hm. unfold interpret_block. destruct (walk_ops _ _ _ _) as [[[r0 w] s1]|] eqn:E; [|done]. cbn [mbind option_bind].
  intros [= <- <- <- <-] Hr. destruct (block_end_wf ir Hb) as [He Hew].
  destruct (walk_ops_fault (temp_count ir) _ _ [] _ _ _ _ _ He Hew (bw_start _ Hb) (bw_ops _ Hb) (bw_traps _ Hb) Hk (start_vmach _ _ _ Hc Hm) E Hr)
    as (pre & op & post & s & Hl & Hrun & Hx & Ho & -> & Hrip).
  exists pre, op, post, s, s1. split; [done|]. split; [done|]. split; [done|]. split; [done|]. split; [done|]. split; [done|].
  destruct (walk_start_spec ir (pre ++ [op])) as (F1 & F2 & F3). cbn [app] in *. rewrite insn_starts_app, Ho, app_nil_r in F2, F3.
  assert (Hcur : current_insn ir (pre ++ [op]) = current_insn ir pre) by (unfold current_insn; by rewrite insn_starts_app, Ho, app_nil_r).
  rewrite F1, Hcur, Hrip, Z.eqb_refl, andb_false_r. cbn [negb b2z retired sti_shadow]. rewrite andb_false_r. split; [|done].
  rewrite F3 in F2. destruct (Nat.eqb_spec (length (insn_starts pre)) 0) as [E0|]; cbn [negb b2z] in F2; lia.
Qed.

(** The run stops at the load of the fourth instruction. *)
Definition ex_end : StepResult * RetireInfo * CpuState * Memory :=
  match @interpret_block no_libm ex_block default_cpu ex_mem with
  | Some x => x
  | None => (Continue, mkRetire 0 false, default_cpu, ex_mem)
  end.

Lemma memory_faults_precise_witness : exists pre op post s s', ops ex_block = pre ++ op :: post /\
  @run_through no_libm ex_block [] pre (mkMach default_cpu ex_mem (replicate 2 0)) = Some s /\
  @exec_op no_libm ex_block (current_insn ex_block pre) op s = Some (Some ex_end.1.1.1, s') /\ ex_end.1.2 = m_cpu s' /\ ex_end.2 = m_mem s' /\
  rip ex_end.1.2 = current_insn ex_block pre /\
  retired ex_end.1.1.2 = Z.max 0 (Z.of_nat (length (insn_starts pre)) - 1) /\ sti_shadow ex_end.1.1.2 = false.
Proof.
  exact (@memory_faults_precise no_libm ex_block default_cpu ex_mem ex_end.1.1.1 ex_end.1.1.2 ex_end.1.2 ex_end.2
    ex_block_wf ltac:(repeat constructor) default_vcpu ex_mem_wf ltac:(vm_compute; reflexivity) ltac:(vm_compute; reflexivity)).
Defined.

(** The retired-instruction counter: the walk executes a prefix of the block, and every
    instruction it started is retired, except that the last one is not when RIP is still
    on it. *)
Theorem retired_exact `{Libm} (ir : IrBlock) (c : CpuState) (m : Memory) (r : StepResult) (info : RetireInfo)
    (c' : CpuState) (m' : Memory) :
  interpret_block ir c m = Some (r, info, c', m') ->
  exists pre post, ops ir = pre ++ post /\
    let k := Z.of_nat (length (insn_starts pre)) in
    retired info = (if (k =? 0) then 0 else if rip c' =? current_insn ir pre then k - 1 else k).
Proof.
  unfold interpret_block. destruct (walk_ops _ _ _ _) as [[[r0 w] s]|] eqn:E; [|done]. cbn [mbind option_bind].
  intros [= <- <- <- <-]. destruct (walk_ops_prefix _ _ _ _ _ _ _ E) as (pre & post & Hl & ->).
  exists pre, post. split; [done|]. destruct (walk_start_spec ir pre) as (F1 & F2 & F3). cbn zeta. cbn [retired].
  rewrite F1. rewrite F3 in *. destruct (Nat.eqb_spec (length (insn_starts pre)) 0) as [E0|]; cbn [negb b2z andb] in *.
  - destruct (Z.eqb_spec (Z.of_nat (length (insn_starts pre))) 0); lia.
  - destruct (Z.eqb_spec (Z.of_nat (length (insn_starts pre))) 0); [lia|].
    destruct (Z.eqb_spec (rip (m_cpu s)) (current_insn ir pre)); cbn [negb b2z]; lia.
Qed.

Lemma retired_exact_witness : exists pre post, ops ex_block = pre ++ post /\
  let k := Z.of_nat (length (insn_starts pre)) in
  retired ex_end.1.1.2 = (if (k =? 0) then 0 else if rip ex_end.1.2 =? current_insn ex_block pre then k - 1 else k).
Proof.
  exact (@retired_exact no_libm ex_block default_cpu ex_mem ex_end.1.1.1 ex_end.1.1.2 ex_end.1.2 ex_end.2
    ltac:(vm_compute; reflexivity)).
Defined.
