(* ===== verification/Lift.v ===== *)
(** * The block lifter around one instruction (x86jit-core/src/lift/mod.rs)

    Fetching and decoding a block, single-instruction blocks, superblock regions, and the
    dead-flag pass every lifted block goes through.  The decoder is the iced-x86 crate:
    the class [Iced] holds what is used of it.  The lowering of one decoded instruction,
    [lift_insn], is the class [InsnLifter]. *)

From S2P Require Import Prelude Features State Ir Alu Memory Interp Block.

(** ** Modes and fetch addresses *)

Inductive CpuMode : Type := Long64 | Compat32 | Real16.

#[global] Instance CpuMode_eq_dec : EqDecision CpuMode.
Proof. solve_decision. Defined.
#[global] Instance CpuMode_countable : Countable CpuMode.
Proof.
  refine (inj_countable'
    (fun m => match m with Long64 => 0 | Compat32 => 1 | Real16 => 2 end)
    (fun k => if Z.eqb k 0 then Long64 else if Z.eqb k 1 then Compat32 else Real16) _).
  by intros [].
Defined.

Definition mode_bits (m : CpuMode) : Z := match m with Long64 => 64 | Compat32 => 32 | Real16 => 16 end.
Definition wraps_16 (m : CpuMode) : bool := match m with Real16 => true | _ => false end.

Record FetchAddr : Type := mkFetch { pa : Z; ip : Z }.
Definition fetch_flat (addr : Z) : FetchAddr := mkFetch addr addr.
Definition fetch_real16 (cs_selector ip : Z) : FetchAddr := mkFetch (Z.shiftl cs_selector 4 + ip) ip.
Definition for_mode (mode : CpuMode) (rip cs : Z) : FetchAddr :=
  match mode with Real16 => fetch_real16 cs (wrap 16 rip) | _ => fetch_flat rip end.

Definition mask_pc (addr : Z) (mode : CpuMode) : Z :=
  match mode with
  | Compat32 => Z.land addr 0xFFFFFFFF
  | Real16 => Z.land addr 0xFFFF
  | Long64 => addr
  end.

Inductive LiftError : Type :=
  | Unsupported (addr : Z) (bytes : list Z) (len : Z)
  | DecodeFault (addr : Z).

Definition BLOCK_FETCH_WINDOW : Z := 4096.
Definition MAX_INSN_LEN_286 : Z := 10.

(** ** What is used of iced-x86 and of the lowering of one instruction *)

Inductive DecoderError : Type := DecNone | InvalidInstruction | NoMoreBytes.

(** [decode bits options ip code]: [Decoder::decode_out] at a position with [code] left. *)
Class Iced : Type := {
  Instruction : Type;
  insn_ip : Instruction -> Z;
  insn_len : Instruction -> Z;
  is_invalid : Instruction -> bool;
  opt_none : Z;
  opt_no_invalid_check : Z;
  decode : Z -> Z -> Z -> list Z -> Instruction * DecoderError;
}.

(** [lift_insn]: the ops so far and the temporary counter in and out, and whether the
    instruction ends the block; [None] is a failed debug assertion. *)
Class InsnLifter `{Iced} : Type := {
  lift_insn : Instruction -> CpuMode -> list IrOp -> nat -> option (Result (bool * list IrOp * nat) LiftError);
}.

Definition decoder_options `{Iced} (mode : CpuMode) : Z := if wraps_16 mode then opt_no_invalid_check else opt_none.

Definition push_real16_fault `{Iced} (insn : Instruction) (mode : CpuMode) (vector : Z) (ops : list IrOp) : list IrOp :=
  ops ++ [InsnStart (insn_ip insn); IntGate vector (mask_pc (insn_ip insn) mode)].

Definition emit_real16_ud_if_invalid `{Iced} (insn : Instruction) (last_error : DecoderError) (mode : CpuMode)
    (ops : list IrOp) : option (list IrOp) :=
  match last_error with
  | InvalidInstruction => if wraps_16 mode then Some (push_real16_fault insn mode 6 ops) else None
  | _ => None
  end.

(** [None]: the index arithmetic panics. *)
Definition refill_unsupported_bytes (err : LiftError) (code : list Z) (block_start : Z) : option LiftError :=
  match err with
  | Unsupported addr bytes len =>
      if addr <? block_start then None
      else
        let off := addr - block_start in
        if off + len <=? Z.of_nat (length code) then
          if 15 <? len then None
          else
            let slice := take (Z.to_nat len) (drop (Z.to_nat off) code) in
            Some (Unsupported addr (slice ++ drop (Z.to_nat len) bytes) len)
        else Some (Unsupported addr bytes len)
  | DecodeFault _ => Some err
  end.

(** ** Dead-flag elimination *)

Definition F_CF : Z := 1.
Definition F_PF : Z := 2.
Definition F_ZF : Z := 8.
Definition F_SF : Z := 16.
Definition F_OF : Z := 32.

Definition cond_reads (cond : Cond) : Z :=
  match cond with
  | Eq | Ne => F_ZF
  | Below | AboveEq => F_CF
  | BelowEq | Above => Z.lor F_CF F_ZF
  | Less | GreaterEq => Z.lor F_SF F_OF
  | LessEq | Greater => Z.lor (Z.lor F_SF F_OF) F_ZF
  | Sign | NoSign => F_SF
  | Overflow | NoOverflow => F_OF
  | Parity | NoParity => F_PF
  end.

Definition op_reads (op : IrOp) : Z :=
  match op with
  | Branch cond _ _ | GetCond _ cond => cond_reads cond
  | Adc _ _ _ _ _ | Sbb _ _ _ _ _ | Rcl _ _ _ _ _ | Rcr _ _ _ _ _ => F_CF
  | _ => 0
  end.

Definition shift_flags_may_skip (op : IrOp) : bool :=
  let of_count (count : Val) (size : Z) (through_carry : bool) : bool :=
    let cmask := if size =? 8 then 0x3f else 0x1f in
    match count with
    | Imm n =>
        let masked := Z.land n cmask in
        let eff := if through_carry then masked mod (size * 8 + 1) else masked in
        eff =? 0
    | TempV _ => true
    end in
  match op with
  | Shl _ _ b size _ | Shr _ _ b size _ | Sar _ _ b size _ | Rol _ _ b size _ | Ror _ _ b size _ => of_count b size false
  | Rcl _ _ b size _ | Rcr _ _ b size _ => of_count b size true
  | DoubleShift _ _ _ count size _ _ => of_count count size false
  | _ => false
  end.

(** [op_set_flags_mut] as a lens: the mask, and the op with another one. *)
Definition op_set_flags (op : IrOp) : option (FlagMask * (FlagMask -> IrOp)) :=
  match op with
  | Add d a b n m => Some (m, Add d a b n)
  | Adc d a b n m => Some (m, Adc d a b n)
  | Sub d a b n m => Some (m, Sub d a b n)
  | Sbb d a b n m => Some (m, Sbb d a b n)
  | And d a b n m => Some (m, And d a b n)
  | Or d a b n m => Some (m, Or d a b n)
  | Xor d a b n m => Some (m, Xor d a b n)
  | Shl d a b n m => Some (m, Shl d a b n)
  | Shr d a b n m => Some (m, Shr d a b n)
  | Sar d a b n m => Some (m, Sar d a b n)
  | Rol d a b n m => Some (m, Rol d a b n)
  | Ror d a b n m => Some (m, Ror d a b n)
  | Rcl d a b n m => Some (m, Rcl d a b n)
  | Rcr d a b n m => Some (m, Rcr d a b n)
  | DoubleShift d a b c n l m => Some (m, DoubleShift d a b c n l)
  | Mul lo hi a b n s m => Some (m, Mul lo hi a b n s)
  | _ => None
  end.

(** One step of the backward pass: the op narrowed, and the flags live before it. *)
Definition elide_op (op : IrOp) (live : Z) : IrOp * Z :=
  let reads := op_reads op in
  let may_skip := shift_flags_may_skip op in
  match op_set_flags op with
  | Some (m, put) =>
      let m := Z.land m live in
      let kills := if may_skip then 0 else m in
      (put m, Z.lor (Z.land live (unot 8 kills)) reads)
  | None => (op, Z.lor live reads)
  end.

Definition LIVE_OUT : Z := 63.

(** The ops narrowed and the flags live before the first of them. *)
Fixpoint elide_from (ops : list IrOp) : list IrOp * Z :=
  match ops with
  | [] => ([], LIVE_OUT)
  | op :: rest =>
      let '(rest, live) := elide_from rest in
      let '(op, live) := elide_op op live in
      (op :: rest, live)
  end.

(** [X86JIT_NO_FLAG_ELISION] not set. *)
Definition elide_dead_flags (ops : list IrOp) : list IrOp := fst (elide_from ops).

(** ** Blocks *)

Section Blocks.
Context `{InsnLifter}.

Record LiftState : Type := mkLift { l_ops : list IrOp; l_tg : nat; l_icount : Z; l_len : Z }.

(** The decode loop; every instruction is at least a byte, so [fuel] is the code's length. *)
Fixpoint lift_loop (fuel : nat) (mode : CpuMode) (code : list Z) (start pos : Z) (st : LiftState)
    : option (Result LiftState LiftError) :=
  match fuel with
  | O => None
  | S fuel =>
      if Z.of_nat (length code) <=? pos then Some (Ok st)
      else
        let '(insn, last_error) := decode (mode_bits mode) (decoder_options mode) (wrapping_add 64 start pos)
                                     (drop (Z.to_nat pos) code) in
        let len' := l_len st + insn_len insn in
        if is_invalid insn then
          if match last_error with NoMoreBytes => true | _ => false end
             && (Z.of_nat (length code) =? BLOCK_FETCH_WINDOW) && (0 <? l_len st) then Some (Ok st)
          else
            match emit_real16_ud_if_invalid insn last_error mode (l_ops st) with
            | Some ops => Some (Ok (mkLift ops (l_tg st) (l_icount st + 1) len'))
            | None => Some (Err (DecodeFault (insn_ip insn)))
            end
        else if wraps_16 mode && (MAX_INSN_LEN_286 <? insn_len insn) then
          Some (Ok (mkLift (push_real16_fault insn mode 13 (l_ops st)) (l_tg st) (l_icount st + 1) len'))
        else
          match lift_insn insn mode (l_ops st ++ [InsnStart (insn_ip insn)]) (l_tg st) with
          | None => None
          | Some (Err e) => e ← refill_unsupported_bytes e code start; Some (Err e)
          | Some (Ok (terminated, ops, tg)) =>
              let st := mkLift ops tg (l_icount st + 1) len' in
              if terminated then Some (Ok st) else lift_loop fuel mode code start (pos + insn_len insn) st
          end
  end.

Definition finish (start : Z) (st : LiftState) : IrBlock :=
  mkBlock start (elide_dead_flags (l_ops st)) (l_tg st) (l_len st) (l_icount st).

Definition lift_block (mem : Memory) (at_ : FetchAddr) (mode : CpuMode) : option (Result IrBlock LiftError) :=
  let start := ip at_ in
  c ← code_slice mem (pa at_) BLOCK_FETCH_WINDOW;
  match c with
  | Err _ => Some (Err (DecodeFault start))
  | Ok code =>
      r ← lift_loop (S (length code)) mode code start 0 (mkLift [] 0 0 0);
      Some match r with Ok st => Ok (finish start st) | Err e => Err e end
  end.

Definition lift_one (mem : Memory) (at_ : FetchAddr) (mode : CpuMode) : option (Result IrBlock LiftError) :=
  let start := ip at_ in
  c ← code_slice mem (pa at_) BLOCK_FETCH_WINDOW;
  match c with
  | Err _ => Some (Err (DecodeFault start))
  | Ok code =>
      if Z.of_nat (length code) <=? 0 then Some (Err (DecodeFault start))
      else
        let '(insn, last_error) := decode (mode_bits mode) (decoder_options mode) start code in
        let one ops tg := Some (Ok (mkBlock start (elide_dead_flags ops) tg (insn_len insn) 1)) in
        if is_invalid insn then
          match emit_real16_ud_if_invalid insn last_error mode [] with
          | Some ops => one ops O
          | None => Some (Err (DecodeFault (insn_ip insn)))
          end
        else if wraps_16 mode && (MAX_INSN_LEN_286 <? insn_len insn) then one (push_real16_fault insn mode 13 []) O
        else
          match lift_insn insn mode [InsnStart (insn_ip insn)] O with
          | None => None
          | Some (Err e) => e ← refill_unsupported_bytes e code start; Some (Err e)
          | Some (Ok (_, ops, tg)) => one ops tg
          end
  end.

(** ** Regions *)

Record RegionCaps : Type := mkCaps { max_blocks : Z; max_icount : Z }.

Definition static_succs (block : IrBlock) : list Z :=
  match list.last (ops block) with
  | Some (Jump (Imm t)) => [t]
  | Some (Branch _ taken fallthrough) => [taken; fallthrough]
  | _ => []
  end.

Record Dfs : Type := mkDfs { d_blocks : gmap Z IrBlock; d_post : list Z; d_icount : Z }.

(** [visit] is the recursive call; [None] is a panic. *)
Fixpoint dfs_edges (mem : Memory) (caps : RegionCaps) (mode : CpuMode) (visit : Z -> Dfs -> option Dfs) (succs : list Z) (d : Dfs)
    : option Dfs :=
  match succs with
  | [] => Some d
  | s :: rest =>
      match d_blocks d !! s with
      | Some _ => dfs_edges mem caps mode visit rest d
      | None =>
          if (max_blocks caps <=? Z.of_nat (base.size (d_blocks d))) || (max_icount caps <=? d_icount d)
          then dfs_edges mem caps mode visit rest d
          else
            r ← lift_block mem (fetch_flat s) mode;
            match r with
            | Err _ => dfs_edges mem caps mode visit rest d
            | Ok b =>
                ic ← checked_add 32 (d_icount d) (icount b);
                d ← visit s (mkDfs (<[s := b]> (d_blocks d)) (d_post d) ic);
                dfs_edges mem caps mode visit rest d
            end
      end
  end.

Fixpoint dfs (fuel : nat) (mem : Memory) (caps : RegionCaps) (mode : CpuMode) (addr : Z) (d : Dfs) : option Dfs :=
  match fuel with
  | O => None
  | S fuel =>
      b ← d_blocks d !! addr;
      d ← dfs_edges mem caps mode (dfs fuel mem caps mode) (static_succs b) d;
      Some (mkDfs (d_blocks d) (d_post d ++ [addr]) (d_icount d))
  end.

(** [blocks.remove(&a).unwrap()] for each address in turn. *)
Fixpoint remove_all (blocks : gmap Z IrBlock) (order : list Z) : option (list IrBlock) :=
  match order with
  | [] => Some []
  | a :: rest => b ← blocks !! a; bs ← remove_all (delete a blocks) rest; Some (b :: bs)
  end.

Definition rpo_index (ordered : list IrBlock) : gmap Z nat :=
  list_to_map (reverse (imap (fun i b => (guest_start b, i)) ordered)).
Definition region_has_loop (ordered : list IrBlock) : bool :=
  existsb id (imap (fun i b =>
    existsb (fun s => match rpo_index ordered !! s with Some j => (j <=? i)%nat | None => false end) (static_succs b)) ordered).

Definition lift_region (mem : Memory) (entry_ : Z) (caps : RegionCaps) (mode : CpuMode) : option (Result IrRegion LiftError) :=
  r ← lift_block mem (fetch_flat entry_) mode;
  match r with
  | Err e => Some (Err e)
  | Ok first =>
      d ← dfs (S (Z.to_nat (max_blocks caps))) mem caps mode entry_ (mkDfs {[ entry_ := first ]} [] (icount first));
      ordered ← remove_all (d_blocks d) (reverse (d_post d));
      Some (Ok (mkRegion entry_ ordered (region_has_loop ordered)))
  end.
End Blocks.
