(* ===== verification/Elide.v ===== *)
(** * Dead-flag elimination preserves the block

    [elide_dead_flags] narrows the flag mask of every ALU op to the flags read before
    they are next overwritten.  Two runs are compared: the block as lifted, and the block
    after the pass.  Their machines differ at most in dead flags, and are equal when the
    block ends other than by a fault in the middle.  The pass knows only some of the ops
    that read flags: the ones it misses are [flags_known], and have counterexamples. *)

From S2P Require Import Prelude Features State Ir Alu Memory Interp IntegerSpec StringOps Control HostFloat F80 F80Trans X87 X87Spec X87Exc X87Arm VecOps VecFloat VecMem VecCpu VecArm VecOp VecRange VecSafe VecAtomic VecTotal Block Frame Walk Lift.

(** ** Machines that differ in dead flags *)

Record live_eq (L : Z) (f g : Flags) : Prop := {
  le_cf : test L 1 = true -> cf f = cf g;
  le_pf : test L 2 = true -> pf_src f = pf_src g;
  le_af : test L 4 = true -> af_src f = af_src g;
  le_zf : test L 8 = true -> zf f = zf g;
  le_sf : test L 16 = true -> sf f = sf g;
  le_of : test L 32 = true -> of_ f = of_ g;
  le_df : df f = df g;
  le_if : if_ f = if_ g;
}.

Lemma live_eq_refl L f : live_eq L f f.
Proof. by split. Qed.
Lemma live_eq_all f g : live_eq LIVE_OUT f g -> f = g.
Proof. destruct f, g. intros [H1 H2 H3 H4 H5 H6 H7 H8]. cbn in *. f_equal; auto. Qed.

Definition reflag (s : mach) (g : Flags) : mach := mkMach (set_flags (m_cpu s) g) (m_mem s) (m_temps s).

(** Two computations from such machines give the same result and again such machines. *)
Definition pres {A} (L L' : Z) (x y : M A) : Prop := forall s g, live_eq L (flags (m_cpu s)) g ->
  match x s, y (reflag s g) with
  | None, None => True
  | Some (a, s'), Some (b, t') => a = b /\ exists g', t' = reflag s' g' /\ live_eq L' (flags (m_cpu s')) g'
  | _, _ => False
  end.

Lemma pres_ret {A} L (a : A) : pres L L (mret a) (mret a).
Proof. intros s g H. cbn. split; [done|by exists g]. Qed.
Lemma pres_next L : pres L L next next.
Proof. apply pres_ret. Qed.
Lemma pres_leave L r : pres L L (leave r) (leave r).
Proof. apply pres_ret. Qed.
Lemma pres_bind {A B} L L1 L2 (x y : M A) (k k' : A -> M B) :
  pres L L1 x y -> (forall a, pres L1 L2 (k a) (k' a)) -> pres L L2 (x ≫= k) (y ≫= k').
Proof.
  intros Hx Hk s g H. specialize (Hx s g H). unfold mbind, M_bind.
  destruct (x s) as [[a s']|], (y (reflag s g)) as [[b t']|]; try done. destruct Hx as (<- & g' & -> & H'). by apply Hk.
Qed.
Lemma pres_get {B} L L' (k k' : CpuState -> M B) :
  (forall c g, live_eq L (flags c) g -> pres L L' (k c) (k' (set_flags c g))) -> pres L L' (get_cpu ≫= k) (get_cpu ≫= k').
Proof. intros Hk s g H. exact (Hk (m_cpu s) g H s g H). Qed.
Lemma pres_upd L f : (forall c g, f (set_flags c g) = set_flags (f c) g) -> (forall c, flags (f c) = flags c) -> pres L L (upd_cpu f) (upd_cpu f).
Proof. intros H1 H2 s g H. cbn. split; [done|]. exists g. unfold reflag. cbn. rewrite H1. split; [done|by rewrite H2]. Qed.
Lemma pres_upd_flags L f : (forall c g, f (set_flags c g) = set_flags (f c) (flags (f (set_flags c g)))) ->
  (forall c g, live_eq L (flags c) g -> live_eq L (flags (f c)) (flags (f (set_flags c g)))) -> pres L L (upd_cpu f) (upd_cpu f).
Proof. intros H1 H2 s g H. split; [done|]. eexists. unfold reflag. cbn [m_cpu]. rewrite H1. split; [reflexivity|]. cbn [m_cpu m_mem m_temps]. auto. Qed.
Lemma pres_flags L L' F G : (forall f g, live_eq L f g -> live_eq L' (F f) (G g)) -> pres L L' (upd_flags F) (upd_flags G).
Proof. intros HF s g H. split; [done|]. exists (G g). split; [reflexivity|]. by apply HF. Qed.
Lemma pres_flags_same L F : (forall f g, live_eq L f g -> live_eq L (F f) (F g)) -> pres L L (upd_flags F) (upd_flags F).
Proof. apply pres_flags. Qed.
Lemma pres_try L f : (forall c g, f (set_flags c g) = (fun c' => set_flags c' g) <$> f c) ->
  (forall c c', f c = Some c' -> flags c' = flags c) -> pres L L (try_cpu f) (try_cpu f).
Proof.
  intros H1 H2 s g H. unfold try_cpu. cbn [m_cpu reflag]. rewrite H1. destruct (f (m_cpu s)) as [c'|] eqn:E; [|done]. cbn.
  split; [done|]. exists g. split; [done|]. cbn. by rewrite (H2 _ _ E).
Qed.
Lemma pres_read L v : pres L L (read_val v) (read_val v).
Proof.
  intros s g H. destruct v as [t|i]; cbn [read_val reflag m_temps]; [destruct (m_temps s !! t); [|done]|]; (split; [done|by exists g]).
Qed.
Lemma pres_temp L t v : pres L L (set_temp t v) (set_temp t v).
Proof. intros s g H. unfold set_temp. cbn [reflag m_temps]. destruct (m_temps s !! t); [|done]. split; [done|by exists g]. Qed.
Lemma pres_mem {A} L (f : Memory -> option (A * Memory)) : pres L L (on_mem f) (on_mem f).
Proof. intros s g H. unfold on_mem. cbn [reflag m_mem]. destruct (f (m_mem s)) as [[]|]; [|done]. split; [done|by exists g]. Qed.

(** ** Flag masks *)

Lemma test_land a b m : test (Z.land a b) m = true -> test a m = true /\ test b m = true.
Proof.
  unfold test. rewrite !negb_true_iff, !Z.eqb_neq. intros H. split; intros E; apply H.
  - rewrite (Z.land_comm a b), <- Z.land_assoc, E. apply Z.land_0_r.
  - by rewrite <- Z.land_assoc, E, Z.land_0_r.
Qed.
Lemma test_bit x i : 0 <= i -> test x (2 ^ i) = Z.testbit x i.
Proof.
  intros Hi. unfold test. destruct (Z.testbit x i) eqn:E.
  - apply negb_true_iff, Z.eqb_neq. intros E0. assert (H : Z.testbit (Z.land x (2 ^ i)) i = true) by (rewrite Z.land_spec, E, Z.pow2_bits_true; done).
    by rewrite E0, Z.bits_0 in H.
  - apply negb_false_iff, Z.eqb_eq, Z.bits_inj'. intros j Hj. rewrite Z.land_spec, Z.bits_0, Z.pow2_bits_eqb by done.
    destruct (Z.eqb_spec i j) as [<-|]; [by rewrite E|by rewrite andb_false_r].
Qed.

Definition is_flag (b : Z) : Prop := exists i, 0 <= i < 8 /\ b = 2 ^ i.
Lemma test_narrow m L b : is_flag b -> test (Z.land m L) b = test m b && test L b.
Proof. intros (i & Hi & ->). rewrite !test_bit by lia. apply Z.land_spec. Qed.
Lemma test_kill m L b : is_flag b -> test (Z.land L (unot 8 (Z.land m L))) b = test L b && negb (test m b).
Proof.
  intros (i & Hi & ->). rewrite !test_bit by lia. rewrite Z.land_spec. unfold unot, wrap. rewrite Z.mod_pow2_bits_low by lia.
  rewrite Z.lnot_spec, Z.land_spec by lia. by destruct (Z.testbit L i), (Z.testbit m i).
Qed.
Lemma test_lor a b m : is_flag m -> test (Z.lor a b) m = test a m || test b m.
Proof. intros (i & Hi & ->). rewrite !test_bit by lia. apply Z.lor_spec. Qed.
Lemma flag_1 : is_flag 1. Proof. by exists 0. Qed.
Lemma flag_2 : is_flag 2. Proof. by exists 1. Qed.
Lemma flag_4 : is_flag 4. Proof. by exists 2. Qed.
Lemma flag_8 : is_flag 8. Proof. by exists 3. Qed.
Lemma flag_16 : is_flag 16. Proof. by exists 4. Qed.
Lemma flag_32 : is_flag 32. Proof. by exists 5. Qed.
#[local] Hint Resolve flag_1 flag_2 flag_4 flag_8 flag_16 flag_32 : flagbits.

(** What a masked write leaves in each flag. *)
Lemma apply_flags_spec f m r : let f' := apply_flags f m r in
  cf f' = (if test m 1 then r_cf r else cf f) /\
  pf_src f' = (if test m 2 then (if r_pf r then PF_SRC_ONE else PF_SRC_ZERO) else pf_src f) /\
  af_src f' = (if test m 4 then (if r_af r then AF_SRC_ONE else AF_SRC_ZERO) else af_src f) /\
  zf f' = (if test m 8 then r_zf r else zf f) /\
  sf f' = (if test m 16 then r_sf r else sf f) /\
  of_ f' = (if test m 32 then r_of r else of_ f) /\ df f' = df f /\ if_ f' = if_ f.
Proof.
  unfold apply_flags, fm_is_none. destruct (Z.eqb_spec m 0) as [->|]; [done|].
  destruct (test m 1), (test m 2), (test m 4), (test m 8), (test m 16), (test m 32); done.
Qed.

Lemma pick_narrow {A} (m l : bool) (x a b : A) : (l && negb m = true -> a = b) -> l = true ->
  (if m then x else a) = (if m && l then x else b).
Proof. destruct m, l; cbn; auto; done. Qed.

(** A certain write of [m]: the flags of [m] are dead before it. *)
Lemma apply_live L m r f g : live_eq (Z.land L (unot 8 (Z.land m L))) f g ->
  live_eq L (apply_flags f m r) (apply_flags g (Z.land m L) r).
Proof.
  intros [H1 H2 H3 H4 H5 H6 H7 H8]. rewrite test_kill in * by auto with flagbits.
  destruct (apply_flags_spec f m r) as (A1 & A2 & A3 & A4 & A5 & A6 & A7 & A8).
  destruct (apply_flags_spec g (Z.land m L) r) as (B1 & B2 & B3 & B4 & B5 & B6 & B7 & B8).
  rewrite !test_narrow in * by auto with flagbits.
  split; intros; rewrite ?A1, ?A2, ?A3, ?A4, ?A5, ?A6, ?A7, ?A8, ?B1, ?B2, ?B3, ?B4, ?B5, ?B6, ?B7, ?B8; try done; by apply pick_narrow.
Qed.
(** A write that may be skipped, when it is not. *)
Lemma apply_live_weak L m r f g : live_eq L f g -> live_eq L (apply_flags f m r) (apply_flags g (Z.land m L) r).
Proof.
  intros H. apply apply_live. destruct H as [H1 H2 H3 H4 H5 H6 H7 H8].
  split; rewrite ?test_kill by auto with flagbits; rewrite ?andb_true_iff; intuition.
Qed.
Lemma apply_live_all L m r f g : live_eq L f g -> live_eq L (apply_flags f m r) (apply_flags g m r).
Proof.
  intros [H1 H2 H3 H4 H5 H6 H7 H8].
  destruct (apply_flags_spec f m r) as (A1 & A2 & A3 & A4 & A5 & A6 & A7 & A8).
  destruct (apply_flags_spec g m r) as (B1 & B2 & B3 & B4 & B5 & B6 & B7 & B8).
  split; intros; rewrite ?A1, ?A2, ?A3, ?A4, ?A5, ?A6, ?A7, ?A8, ?B1, ?B2, ?B3, ?B4, ?B5, ?B6, ?B7, ?B8; try done;
    match goal with |- (if ?b then _ else _) = _ => destruct b end; auto.
Qed.

(** Fewer live flags is a weaker relation. *)
Lemma live_eq_mono L L' f g : (forall b, is_flag b -> test L' b = true -> test L b = true) -> live_eq L f g -> live_eq L' f g.
Proof. intros Hs []. split; eauto with flagbits. Qed.
Lemma live_eq_lor_l L R f g : live_eq (Z.lor L R) f g -> live_eq L f g.
Proof. apply live_eq_mono. intros b Hb E. by rewrite test_lor, E by done. Qed.
Lemma live_eq_lor_r L R f g : live_eq (Z.lor L R) f g -> live_eq R f g.
Proof. apply live_eq_mono. intros b Hb E. rewrite test_lor, E by done. apply orb_true_r. Qed.
Lemma pres_sub {A} L L0 L' (x y : M A) : (forall f g, live_eq L f g -> live_eq L0 f g) -> pres L0 L' x y -> pres L L' x y.
Proof. intros Hs Hx s g H. by apply Hx, Hs. Qed.

Lemma cond_live cond f g : live_eq (cond_reads cond) f g -> eval_cond cond f = eval_cond cond g.
Proof.
  intros [H1 H2 H3 H4 H5 H6 H7 H8].
  destruct cond; unfold pf; cbn [eval_cond]; unfold pf; try rewrite <- H1 by done; try rewrite <- H2 by done;
    try rewrite <- H4 by done; try rewrite <- H5 by done; try rewrite <- H6 by done; done.
Qed.

(** ** The arms *)

Lemma pres_ext {A} L L' (x x' y y' : M A) : (forall s, x s = x' s) -> (forall s, y s = y' s) -> pres L L' x' y' -> pres L L' x y.
Proof. intros Hx Hy H s g Hg. rewrite Hx, Hy. by apply H. Qed.
Lemma pres_imm {B} L L' n (k k' : Z -> M B) : pres L L' (k n) (k' n) -> pres L L' (read_val (Imm n) ≫= k) (read_val (Imm n) ≫= k').
Proof. done. Qed.

Lemma pres_apply L m r : pres (Z.land L (unot 8 (Z.land m L))) L (apply m r) (apply (Z.land m L) r).
Proof. apply pres_flags. intros. by apply apply_live. Qed.
Lemma pres_apply_weak L m r : pres L L (apply m r) (apply (Z.land m L) r).
Proof. apply pres_flags. intros. by apply apply_live_weak. Qed.

Lemma apply_none m r s : fm_is_none m = true -> apply m r s = Some (tt, s).
Proof.
  intros E. unfold apply, upd_flags, upd_cpu.
  assert (apply_flags (flags (m_cpu s)) m r = flags (m_cpu s)) as -> by (unfold apply_flags; by rewrite E). by destruct s as [[] ? ?].
Qed.
(** The guard on an empty mask changes nothing. *)
Lemma guarded_apply m r (b : bool) s :
  (if negb (fm_is_none m) && b then apply m r;; next else next) s = (if b then apply m r;; next else next) s.
Proof.
  destruct (fm_is_none m) eqn:E; cbn [negb andb]; [|by destruct b]. destruct b; [|done].
  unfold mbind, M_bind. by rewrite apply_none.
Qed.
Lemma guarded_apply' m r s : (if negb (fm_is_none m) then apply m r;; next else next) s = (apply m r;; next) s.
Proof. rewrite <- (andb_true_r (negb (fm_is_none m))). exact (guarded_apply m r true s). Qed.

Lemma pres_guarded L m r b : pres L L (if negb (fm_is_none m) && b then apply m r;; next else next)
  (if negb (fm_is_none (Z.land m L)) && b then apply (Z.land m L) r;; next else next).
Proof.
  eapply pres_ext; [intros; apply guarded_apply..|]. destruct b; [|apply pres_next].
  eapply pres_bind; [apply pres_apply_weak|]. intros. apply pres_next.
Qed.
Lemma pres_guarded_sure L m r b : b = true ->
  pres (Z.land L (unot 8 (Z.land m L))) L (if negb (fm_is_none m) && b then apply m r;; next else next)
  (if negb (fm_is_none (Z.land m L)) && b then apply (Z.land m L) r;; next else next).
Proof.
  intros ->. eapply pres_ext; [intros; apply guarded_apply..|].
  eapply pres_bind; [apply pres_apply|]. intros. apply pres_next.
Qed.
Lemma pres_guarded_always L m r :
  pres (Z.land L (unot 8 (Z.land m L))) L (if negb (fm_is_none m) then apply m r;; next else next)
  (if negb (fm_is_none (Z.land m L)) then apply (Z.land m L) r;; next else next).
Proof.
  eapply pres_ext; [intros; apply guarded_apply'..|]. eapply pres_bind; [apply pres_apply|]. intros. apply pres_next.
Qed.
Lemma kill_none L f g : live_eq (Z.land L (unot 8 0)) f g -> live_eq L f g.
Proof.
  apply live_eq_mono. intros b Hb E. change 0 with (Z.land 0 L). rewrite test_kill by done. rewrite E. unfold test. by rewrite Z.land_0_l.
Qed.

Lemma pres_panic {A} L L' : pres L L' (panic (A := A)) panic.
Proof. done. Qed.

Create HintDb pres.
#[export] Hint Resolve pres_panic pres_ret pres_next pres_leave pres_read pres_temp pres_mem pres_apply pres_apply_weak : pres.

Ltac live := intros; match goal with H : live_eq _ _ _ |- _ => destruct H; split; cbn; try (intros; reflexivity); repeat case_match; auto using f_equal end.
Ltac same_cpu := lazymatch goal with |- pres ?L ?L' ?X ?Y => change (pres L L' X X) end.
Ltac pres_upd_tac := apply pres_upd; intros; repeat match goal with |- context [if ?b then _ else _] => destruct b end; reflexivity.
Ltac pres_tac :=
  cbn beta zeta;
  lazymatch goal with
  | |- pres _ _ (mbind _ get_cpu) _ => apply pres_get; intros ? ? ?; same_cpu; pres_tac
  | |- pres _ _ (mbind _ _) _ => eapply pres_bind; [pres_tac|intros ?; pres_tac]
  | |- pres _ _ (or_leave _ _) _ => eapply pres_bind; [pres_tac|intros [?|?]; pres_tac]
  | |- pres _ _ (as_arm _) _ => eapply pres_bind; [pres_tac|intros [?|?]; pres_tac]
  | |- pres _ _ (upd_cpu _) _ => pres_upd_tac
  | |- pres _ _ (upd_flags _) _ => apply pres_flags_same; live
  | |- pres _ _ (if ?b then _ else _) _ => destruct b; pres_tac
  | |- pres _ _ (match ?x with _ => _ end) _ => destruct x; pres_tac
  | |- _ => eauto with pres
  end.

Section Arms.
Context (L : Z) (ca : Z).

Lemma write_gpr_blind c g i v n : write_gpr (set_flags c g) i v n = (fun c' => set_flags c' g) <$> write_gpr c i v n.
Proof. unfold write_gpr. by repeat case_match. Qed.
Lemma write_gpr_flags c i v n c' : write_gpr c i v n = Some c' -> flags c' = flags c.
Proof. unfold write_gpr. repeat case_match; intros [= <-]; done. Qed.
Lemma pres_write_reg r v n : pres L L (try_cpu (fun c => write_reg c r v n)) (try_cpu (fun c => write_reg c r v n)).
Proof.
  apply pres_try; intros c; unfold write_reg.
  - intros g. destruct (gpr_index r); [apply write_gpr_blind|by destruct r].
  - intros c'. destruct (gpr_index r); [apply write_gpr_flags|]. intros [= <-]. by destruct r.
Qed.
Lemma write_chain_blind c g i v n (k : CpuState -> option CpuState) :
  (forall c, k (set_flags c g) = (fun c' => set_flags c' g) <$> k c) ->
  (write_gpr (set_flags c g) i v n ≫= k) = (fun c' => set_flags c' g) <$> (write_gpr c i v n ≫= k).
Proof. intros Hk. rewrite write_gpr_blind. destruct (write_gpr c i v n); [apply Hk|done]. Qed.
Lemma pres_cpuid : pres L L (try_cpu cpuid_run) (try_cpu cpuid_run).
Proof.
  apply pres_try; intros c; unfold cpuid_run.
  - intros g. change (features (set_flags c g)) with (features c). change (get_gpr (set_flags c g)) with (get_gpr c).
    destruct (cpuid_regs _ _) as [[[eax ebx] ecx] edx]. repeat (apply write_chain_blind; intros). apply write_gpr_blind.
  - intros c' E. destruct (cpuid_regs _ _) as [[[eax ebx] ecx] edx].
    apply bind_Some in E as (c1 & E1%write_gpr_flags & (c2 & E2%write_gpr_flags & (c3 & E3%write_gpr_flags & E4%write_gpr_flags)%bind_Some)%bind_Some). congruence.
Qed.
Lemma pres_xgetbv : pres L L (try_cpu xgetbv_run) (try_cpu xgetbv_run).
Proof.
  apply pres_try; intros c; unfold xgetbv_run.
  - intros g. change (features (set_flags c g)) with (features c). apply write_chain_blind. intros. apply write_gpr_blind.
  - intros c' (c1 & E1%write_gpr_flags & E2%write_gpr_flags)%bind_Some. congruence.
Qed.
Lemma pres_trap_out t a n k v : pres L L (trap_out ca t a n k v) (trap_out ca t a n k v).
Proof. unfold trap_out. pres_tac. Qed.
#[local] Hint Resolve pres_write_reg pres_trap_out : pres.
Lemma pres_push16 w : pres L L (push16 ca w) (push16 ca w).
Proof. unfold push16. pres_tac. Qed.
Lemma pres_pop16 : pres L L (pop16 ca) (pop16 ca).
Proof. unfold pop16. pres_tac. Qed.
#[local] Hint Resolve pres_push16 pres_pop16 : pres.
Lemma pres_push_all ws : pres L L (push_all ca ws) (push_all ca ws).
Proof. induction ws; cbn [push_all]; pres_tac. Qed.
Lemma pres_pop_all l : pres L L (pop_all ca l) (pop_all ca l).
Proof. induction l as [|[?|] l IH]; cbn [pop_all]; pres_tac. Qed.
Lemma pres_display k bp : pres L L (enter_display ca k bp) (enter_display ca k bp).
Proof. revert bp. induction k as [|k IH]; intros bp; cbn [enter_display]; pres_tac. Qed.
End Arms.
#[export] Hint Resolve pres_write_reg pres_cpuid pres_xgetbv pres_trap_out pres_push16 pres_pop16 pres_push_all pres_pop_all pres_display : pres.

(** *** String operations *)

Definition rrel {T F} (L : Z) (r1 r2 : option (F * CpuState * T)) : Prop :=
  match r1, r2 with
  | None, None => True
  | Some (f, c, m), Some (f', c', m') => f = f' /\ m = m' /\ exists g, c' = set_flags c g /\ live_eq L (flags c) g
  | _, _ => False
  end.

(** The repeat condition reads ZF, which only the comparing forms have just written. *)
Definition str_known (op : StrOp) (rep : RepKind) : bool :=
  match rep, op with
  | (Repe | Repne), (Scas | Cmps) => true
  | (Repe | Repne), _ => false
  | _, _ => true
  end.

Lemma set_flags_same c : set_flags c (flags c) = c.
Proof. by destruct c. Qed.

Section Strings.
Context {T : Type} `{StrMem T} (L ca ab sb db step elem : Z).

Lemma all_live r f g : df f = df g -> if_ f = if_ g -> live_eq LIVE_OUT (apply_flags f FM_ALL r) (apply_flags g FM_ALL r).
Proof.
  intros Hd Hi. destruct (apply_flags_spec f FM_ALL r) as (A1 & A2 & A3 & A4 & A5 & A6 & A7 & A8).
  destruct (apply_flags_spec g FM_ALL r) as (B1 & B2 & B3 & B4 & B5 & B6 & B7 & B8).
  split; intros; rewrite ?A1, ?A2, ?A3, ?A4, ?A5, ?A6, ?A7, ?A8, ?B1, ?B2, ?B3, ?B4, ?B5, ?B6, ?B7, ?B8; done.
Qed.
Lemma to_live f g : live_eq LIVE_OUT f g -> live_eq L f g.
Proof. intros ->%live_eq_all. apply live_eq_refl. Qed.

Definition compares (op : StrOp) : bool := match op with Scas | Cmps => true | _ => false end.

Lemma str_body_pres op c m g : live_eq L (flags c) g ->
  rrel L (str_body op elem ca ab sb db step c m) (str_body op elem ca ab sb db step (set_flags c g) m) /\
  (compares op = true -> forall c' m', str_body op elem ca ab sb db step c m = Some (None, c', m') ->
     str_body op elem ca ab sb db step (set_flags c g) m = Some (None, c', m')).
Proof.
  intros Hg. pose proof (le_df _ _ _ Hg) as Hd. pose proof (le_if _ _ _ Hg) as Hi. unfold str_body, str_trap.
  assert (Hr : forall r, set_flags (set_flags c g) (apply_flags (flags (set_flags c g)) FM_ALL r) = set_flags c (apply_flags (flags c) FM_ALL r)).
  { intros r. change (set_flags c (apply_flags g FM_ALL r) = set_flags c (apply_flags (flags c) FM_ALL r)). f_equal. symmetry. by apply live_eq_all, all_live. }
  destruct op; cbn [mbind option_bind compares];
    repeat match goal with
    | |- context [sload ?m ?a ?n] => change (get_gpr (set_flags c g)) with (get_gpr c); destruct (sload m a n) as [[[]]|]; cbn [mbind option_bind]
    | |- context [sstore ?m ?a ?v ?n] => change (get_gpr (set_flags c g)) with (get_gpr c); destruct (sstore m a v n) as [[[]]|]; cbn [mbind option_bind]
    end; try (split; [exact I|done]); try (split; [|done]; split; [done|split; [done|exists g; by split]]).
  1, 2: rewrite Hr; split; [split; [done|split; [done|]]|done]; eexists; (split; [symmetry; apply set_flags_same|apply live_eq_refl]).
  split; [|done]. rewrite write_gpr_blind. destruct (write_gpr c _ _ _) as [c1|] eqn:E; [|exact I]. apply write_gpr_flags in E. cbn.
  split; [done|split; [done|]]. exists g. split; [done|]. cbn. by rewrite E.
Qed.

Lemma str_loop_pres op rep k c m g : str_known op rep = true -> live_eq L (flags c) g ->
  rrel L (str_loop op elem rep ca ab sb db step k c m) (str_loop op elem rep ca ab sb db step k (set_flags c g) m).
Proof.
  intros Hk. revert c m g. induction k as [|k IH]; intros c m g Hg; cbn [str_loop]; [exact I|].
  change (str_done rep ab (set_flags c g)) with (str_done rep ab c).
  destruct (str_done rep ab c); [split; [done|split; [done|exists g; by split]]|].
  destruct (str_body_pres op c m g Hg) as [Hb Hc].
  destruct (str_body op elem ca ab sb db step c m) as [[[f c1] m1]|] eqn:E1,
    (str_body op elem ca ab sb db step (set_flags c g) m) as [[[f' c2] m2]|] eqn:E2; try done.
  destruct Hb as (<- & <- & g1 & -> & Hg1). cbn [mbind option_bind]. destruct f as [f|]; [split; [done|split; [done|exists g1; by split]]|].
  assert (Hz : rep = Repe \/ rep = Repne -> set_flags c1 g1 = c1).
  { intros Hr. assert (compares op = true) as Hcm by (destruct Hr as [-> | ->], op; done). specialize (Hc Hcm c1 m1 eq_refl). congruence. }
  unfold str_after. destruct rep; cbn zeta.
  - split; [done|split; [done|exists g1; by split]].
  - by apply (IH (bump_gpr ab (wrapping_neg 64 1) RCX c1)).
  - rewrite Hz by auto. destruct (zf _); [|split; [done|split; [done|eexists; split; [symmetry; apply set_flags_same|apply live_eq_refl]]]].
    pose proof (IH (bump_gpr ab (wrapping_neg 64 1) RCX c1) m1 _ (live_eq_refl L _)) as HI. by rewrite set_flags_same in HI.
  - rewrite Hz by auto. destruct (zf _); cbn [negb]; [split; [done|split; [done|eexists; split; [symmetry; apply set_flags_same|apply live_eq_refl]]]|].
    pose proof (IH (bump_gpr ab (wrapping_neg 64 1) RCX c1) m1 _ (live_eq_refl L _)) as HI. by rewrite set_flags_same in HI.
Qed.
End Strings.

Lemma pres_run_str L (run : CpuState -> Memory -> option (option StrFault * CpuState * Memory)) :
  (forall c m g, live_eq L (flags c) g -> rrel L (run c m) (run (set_flags c g) m)) -> pres L L (run_str run) (run_str run).
Proof.
  intros Hr s g Hg. unfold run_str. specialize (Hr (m_cpu s) (m_mem s) g Hg). cbn [reflag m_cpu m_mem].
  destruct (run (m_cpu s) (m_mem s)) as [[[f c] m]|], (run (set_flags (m_cpu s) g) (m_mem s)) as [[[f' c'] m']|]; try done.
  destruct Hr as (<- & <- & g1 & -> & Hg1). split; [done|]. exists g1. by split.
Qed.
Lemma pres_string L ca op elem rep ab sb db : str_known op rep = true ->
  pres L L (run_str (fun c m => string_run_impl c m op elem rep ca ab sb db)) (run_str (fun c m => string_run_impl c m op elem rep ca ab sb db)).
Proof.
  intros Hk. apply pres_run_str. intros c m g Hg. unfold string_run_impl.
  assert (str_step (set_flags c g) elem = str_step c elem) as -> by (unfold str_step; cbn; by rewrite (le_df _ _ _ Hg)).
  by apply str_loop_pres.
Qed.

(** *** Ops in the middle of a block *)

(** The ops whose flag reads [op_reads] tells and that do not end a block: what may stand
    anywhere but last. *)
Definition flags_known (op : IrOp) : bool :=
  match op with
  | Lahf | PushfReal | SegLimitCheck _ _ _ _ => false
  | Bcd (Aam _ | Aad _) => true
  | Bcd _ => false
  | RepString op _ rep _ _ | RepStringReal op _ rep _ _ => str_known op rep
  | IntGate _ _ | IntoGate _ | BoundGate _ _ _ _ _ | IretReal | LoopCx _ _ _ | FarJump _ _ | FarCall _ _ _ | FarRet _
  | Jump _ | Branch _ _ _ | Call _ _ _ _ | Ret _ _ _ | Syscall _ | Hlt | Trap _ _ | PortIo _ _ _ _ => false
  | _ => true
  end.

Section Elided.
Context `{Libm} (ir : IrBlock) (ca : Z).

#[local] Ltac masked_sub := cbn [elide_op op_set_flags op_reads shift_flags_may_skip fst snd]; eapply pres_sub; [apply live_eq_lor_l|].

Lemma masked_alu op L m put : op_set_flags op = Some (m, put) ->
  match op with Add _ _ _ _ _ | Sub _ _ _ _ _ | And _ _ _ _ _ | Or _ _ _ _ _ | Xor _ _ _ _ _ | Mul _ _ _ _ _ _ _ => true | _ => false end = true ->
  pres (elide_op op L).2 L (exec_op ir ca op) (exec_op ir ca (elide_op op L).1).
Proof.
  intros Hm Ho. destruct op; try discriminate; clear Hm Ho; masked_sub; cbn [exec_op].
  1-5: unfold exec_add, exec_sub, exec_and, exec_or, exec_xor; pres_tac.
  unfold exec_mul. do 2 (eapply pres_bind; [apply pres_read|intros ?]). cbn zeta. destruct (mul_wide _ _ _ _) as [[lo_v hi_v] ovf].
  do 2 (eapply pres_bind; [apply pres_temp|intros ?]). apply pres_guarded_always.
Qed.

Lemma masked_carry op L m put : op_set_flags op = Some (m, put) ->
  match op with Adc _ _ _ _ _ | Sbb _ _ _ _ _ => true | _ => false end = true ->
  pres (elide_op op L).2 L (exec_op ir ca op) (exec_op ir ca (elide_op op L).1).
Proof.
  intros Hm Ho. destruct op; try discriminate; clear Hm Ho; cbn [elide_op op_set_flags op_reads shift_flags_may_skip fst snd exec_op];
    unfold exec_adc, exec_sbb; apply pres_get; intros c g Hg; cbn [flags State.set_flags];
    (assert (cf (flags c) = cf g) as <- by (apply live_eq_lor_r in Hg; by apply Hg));
    (eapply pres_sub; [apply live_eq_lor_l|]); pres_tac.
Qed.

Lemma masked_shift op L m put : op_set_flags op = Some (m, put) ->
  match op with Shl _ _ _ _ _ | Shr _ _ _ _ _ | Sar _ _ _ _ _ | Rol _ _ _ _ _ | Ror _ _ _ _ _ => true | _ => false end = true ->
  pres (elide_op op L).2 L (exec_op ir ca op) (exec_op ir ca (elide_op op L).1).
Proof.
  intros Hm Ho. destruct op; try discriminate; clear Hm Ho; masked_sub; cbn [exec_op];
    unfold exec_shl, exec_shr, exec_sar, exec_rol, exec_ror; (eapply pres_bind; [apply pres_read|intros ?]); cbn zeta;
    (destruct b as [t|k];
     [eapply pres_sub; [apply kill_none|]; eapply pres_bind; [apply pres_read|intros ?]; eapply pres_bind; [apply pres_temp|intros ?]; apply pres_guarded
     |apply pres_imm; eapply pres_bind; [apply pres_temp|intros ?]; change (if size =? 8 then 63 else 31) with (shift_mask size);
      destruct (Z.land k (shift_mask size) =? 0) eqn:E; [eapply pres_sub; [apply kill_none|]; rewrite <- E; apply pres_guarded|by apply pres_guarded_sure]]).
Qed.

Lemma masked_rotate_carry op L m put : op_set_flags op = Some (m, put) ->
  match op with Rcl _ _ _ _ _ | Rcr _ _ _ _ _ => true | _ => false end = true ->
  pres (elide_op op L).2 L (exec_op ir ca op) (exec_op ir ca (elide_op op L).1).
Proof.
  intros Hm Ho. destruct op; try discriminate; clear Hm Ho; cbn [elide_op op_set_flags op_reads shift_flags_may_skip fst snd exec_op];
    unfold exec_rcl, exec_rcr; (eapply pres_bind; [apply pres_read|intros ?]); cbn zeta;
    (destruct b as [t|k]; [eapply pres_bind; [apply pres_read|intros ?]|apply pres_imm]);
    apply pres_get; intros c g Hg; cbn [flags State.set_flags];
    (assert (cf (flags c) = cf g) as <- by (apply live_eq_lor_r in Hg; by apply Hg));
    (eapply pres_sub; [apply live_eq_lor_l|]); destruct (_ _ _ (cf (flags c)) _) as [res cf'];
    (eapply pres_bind; [apply pres_temp|intros ?]).
  1, 3: eapply pres_sub; [apply kill_none|]; apply pres_guarded.
  all: change (if size =? 8 then 63 else 31) with (shift_mask size).
  all: assert (Z.land (wrap 32 k) (shift_mask size) = Z.land k (shift_mask size)) as -> by
    (unfold shift_mask; destruct (size =? 8); [change 63 with (Z.ones 6)|change 31 with (Z.ones 5)]; rewrite !Z.land_ones by lia;
     unfold wrap; symmetry; apply Znumtheory.Zmod_div_mod; [done|done|exists (2 ^ 26); done|done|done|exists (2 ^ 27); done]).
  all: destruct (_ =? 0) eqn:E; [eapply pres_sub; [apply kill_none|]; apply pres_guarded|by apply pres_guarded_sure].
Qed.

Lemma masked_double op L m put : op_set_flags op = Some (m, put) ->
  match op with DoubleShift _ _ _ _ _ _ _ => true | _ => false end = true ->
  pres (elide_op op L).2 L (exec_op ir ca op) (exec_op ir ca (elide_op op L).1).
Proof.
  intros Hm Ho. destruct op; try discriminate; clear Hm Ho; masked_sub; cbn [exec_op]; unfold exec_double_shift; cbn zeta.
  do 2 (eapply pres_bind; [apply pres_read|intros ?]).
  assert (Hw : forall d r, pres L L (set_temp dst d;; (if negb (fm_is_none set_flags) then apply set_flags r;; next else next))
    (set_temp dst d;; (if negb (fm_is_none (Z.land set_flags L)) then apply (Z.land set_flags L) r;; next else next))).
  { intros. eapply pres_bind; [apply pres_temp|intros ?]. pose proof (pres_guarded L set_flags r true) as Hg. by rewrite !andb_true_r in Hg. }
  destruct count as [t|k].
  - eapply pres_sub; [apply kill_none|]. eapply pres_bind; [apply pres_read|intros v]. destruct (_ =? 0); [pres_tac|].
    destruct left_; apply Hw.
  - apply pres_imm. change (if size =? 8 then 63 else 31) with (shift_mask size). destruct (Z.land k (shift_mask size) =? 0) eqn:E.
    + eapply pres_sub; [apply kill_none|]. pres_tac.
    + destruct left_; (eapply pres_bind; [apply pres_temp|intros ?]); apply pres_guarded_always.
Qed.

Lemma pres_bit_scan L dst src old size op : pres L L (exec_bit_scan dst src old size op) (exec_bit_scan dst src old size op).
Proof.
  unfold exec_bit_scan. eapply pres_bind; [apply pres_read|intros v]. cbn zeta. eapply pres_bind; [pres_tac|intros o].
  apply pres_get. intros c g Hg. cbn [flags State.set_flags].
  assert (Hb : (bit_scan_result op (Z.land v (mask size)) o size (flags c)).1 = (bit_scan_result op (Z.land v (mask size)) o size g).1 /\
    live_eq L (bit_scan_result op (Z.land v (mask size)) o size (flags c)).2 (bit_scan_result op (Z.land v (mask size)) o size g).2).
  { unfold bit_scan_result. destruct op; try destruct (_ =? 0); (split; [done|]); live. }
  destruct (bit_scan_result _ _ _ _ _) as [r f], (bit_scan_result _ _ _ _ g) as [r' f']. cbn [fst snd] in Hb. destruct Hb as [<- Hb].
  eapply pres_bind; [|intros ?; pres_tac]. by apply pres_flags.
Qed.
Lemma pres_bcd L kind : flags_known (Bcd kind) = true -> pres L L (exec_bcd ca kind) (exec_bcd ca kind).
Proof.
  intros Hk. unfold exec_bcd. apply pres_get. intros c g Hg. change (get_gpr (set_flags c g)) with (get_gpr c). cbn zeta.
  destruct kind; try discriminate Hk; [destruct (base =? 0); [pres_tac|]|];
    (eapply pres_bind; [apply pres_upd_flags; [done|unfold bcd_result_flags; live]|intros ?; apply pres_next]).
Qed.
Lemma pres_sahf L : pres L L exec_sahf exec_sahf.
Proof. unfold exec_sahf. eapply pres_bind; [apply pres_upd_flags; [done|live]|intros ?; apply pres_next]. Qed.

Lemma plain_op op L : op_set_flags op = None -> flags_known op = true -> is_wide op = false ->
  pres (Z.lor L (op_reads op)) L (exec_op ir ca op) (exec_op ir ca op).
Proof.
  intros Hm Hk Hw. destruct op; try discriminate; clear Hm Hw; cbn [exec_op op_reads]; [..|].
  all: try match goal with |- pres (Z.lor _ (cond_reads _)) _ _ _ =>
    unfold exec_get_cond; apply pres_get; intros c g Hg; cbn [flags State.set_flags]; rewrite <- (cond_live _ _ _ (live_eq_lor_r _ _ _ _ Hg)) end.
  all: try (eapply pres_sub; [apply live_eq_lor_l|]).
  all: try (solve [apply pres_bit_scan|by apply pres_bcd|apply pres_sahf]).
  all: unfold_arms; solve [pres_tac|by repeat (eapply pres_bind; [apply pres_read|intros ?]); apply pres_string].
Qed.
End Elided.
