(* ===== verification/ElideSpec.v ===== *)
(** * The dead-flag pass on whole blocks

    The x87 and vector arms do not read the flags; with the arms of [Elide], the walk of a
    block and of the block after the pass agree. *)

From S2P Require Import Prelude Features State Ir Alu Memory Interp IntegerSpec StringOps Control HostFloat F80 F80Trans X87 X87Spec X87Exc X87Arm VecOps VecFloat VecMem VecCpu VecArm VecOp VecRange VecSafe VecAtomic VecTotal Block Frame Walk Lift Elide.

(** ** Register files *)

Definition crel (L : Z) (x y : option CpuState) : Prop :=
  match x, y with
  | None, None => True
  | Some c, Some c' => exists g, c' = set_flags c g /\ live_eq L (flags c) g
  | _, _ => False
  end.

Section Crel.
Context (L : Z).

Lemma crel_same c c' g : live_eq L (flags c) g -> c' = set_flags c g -> crel L (Some c) (Some c').
Proof. intros Hg ->. by exists g. Qed.
Lemma crel_bind {A} (x y : option A) (k k' : A -> option CpuState) : y = x -> (forall a, crel L (k a) (k' a)) -> crel L (x ≫= k) (y ≫= k').
Proof. intros -> Hk. destruct x; [apply Hk|exact I]. Qed.
Lemma crel_then (x y : option CpuState) (k k' : CpuState -> option CpuState) : crel L x y ->
  (forall c g, live_eq L (flags c) g -> crel L (k c) (k' (set_flags c g))) -> crel L (x ≫= k) (y ≫= k').
Proof. intros Hx Hk. destruct x, y; try done. destruct Hx as (g & -> & Hg). by apply Hk. Qed.
Lemma crel_write_gpr c g i v n : live_eq L (flags c) g -> crel L (write_gpr c i v n) (write_gpr (set_flags c g) i v n).
Proof.
  intros Hg. rewrite write_gpr_blind. destruct (write_gpr c i v n) eqn:E; [|exact I]. exists g. split; [done|].
  by rewrite (write_gpr_flags _ _ _ _ _ E).
Qed.
Lemma crel_low c g r v b : live_eq L (flags c) g -> crel L (with_vec_low c r v b) (with_vec_low (set_flags c g) r v b).
Proof.
  intros Hg. unfold with_vec_low, guard_reg. destruct (r <? 32)%nat; [|exact I]. exists g.
  unfold set_vec_low. cbn zeta. destruct (32 <=? b), (64 <=? b); by split.
Qed.
Lemma crel_hfloat c g dst la lb op p n i : live_eq L (flags c) g ->
  crel L (hfloat_loop c dst la lb op p n i) (hfloat_loop (set_flags c g) dst la lb op p n i).
Proof.
  revert c g i. induction n as [|n IH]; intros c g i Hg; cbn [hfloat_loop]; [by apply (crel_same c _ g)|].
  do 2 (apply crel_bind; [done|intros ?]). cbn zeta. eapply crel_then; [|intros; by apply IH].
  destruct (i =? 0)%nat; unfold with_xmm, with_hi, guard_reg; (destruct (dst <? 32)%nat; [|exact I]); by exists g.
Qed.
Lemma pres_try_rel f : (forall c g, live_eq L (flags c) g -> crel L (f c) (f (set_flags c g))) -> pres L L (try_cpu f) (try_cpu f).
Proof.
  intros Hf s g Hg. unfold try_cpu. specialize (Hf (m_cpu s) g Hg). cbn [reflag m_cpu m_mem m_temps].
  destruct (f (m_cpu s)), (f (set_flags (m_cpu s) g)); try done. destruct Hf as (g' & -> & Hg'). split; [done|]. by exists g'.
Qed.
Lemma pres_ask {A} (f : CpuState -> option A) : (forall c g, f (set_flags c g) = f c) -> pres L L (ask f) (ask f).
Proof.
  intros Hf s g Hg. unfold ask. cbn [reflag m_cpu]. rewrite Hf. destruct (f (m_cpu s)); [|done]. split; [done|by exists g].
Qed.
End Crel.

(** Down to a register write; the registers read on the way are the same. *)
Ltac crel_step :=
  cbn beta zeta;
  lazymatch goal with
  | |- crel _ (with_vec_low _ _ _ _) _ => by apply crel_low
  | |- crel _ (hfloat_loop _ _ _ _ _ _ _ _) _ => by apply crel_hfloat
  | |- crel _ (Some (set_flags _ (strcmp_flags _ _ _ _ _))) _ => eexists; split; [reflexivity|unfold strcmp_flags; live]
  | |- crel _ (mbind _ (write_gpr _ _ _ _)) _ => eapply crel_then; [by apply crel_write_gpr|intros ? ? ?; crel_step]
  | |- crel _ (mbind _ ?x) _ =>
      lazymatch type of x with
      | option CpuState => eapply crel_then; [crel_step|intros ? ? ?; crel_step]
      | _ => apply crel_bind; [reflexivity|intros ?; crel_step]
      end
  | |- crel _ (Some _) _ => eapply crel_same; [eassumption|reflexivity]
  | |- crel _ None _ => exact I
  | |- crel _ (if ?b then _ else _) _ => destruct b; crel_step
  | |- crel _ (match ?x with _ => _ end) _ => destruct x; crel_step
  | |- crel _ ?x _ => let h := head_of x in unfold h; crel_step
  end.

(** ** Vector memory operands *)

Section Wide.
Context (L ca : Z).

Lemma record_blind c g r a v : record_mmio_part (set_flags c g) r a v = set_flags (record_mmio_part c r a v) g.
Proof.
  unfold record_mmio_part. cbn zeta. change (mmio_parts_rip (set_flags c g)) with (mmio_parts_rip c).
  destruct (negb (mmio_parts_rip c =? r)).
  - change (mmio_part (set_mmio_parts_len (set_mmio_parts_rip (set_flags c g) r) 0) r a) with (mmio_part (set_mmio_parts_len (set_mmio_parts_rip c r) 0) r a).
    destruct (mmio_part _ r a); [done|]. cbn. by destruct (mmio_parts c !! _).
  - change (mmio_part (set_flags c g) r a) with (mmio_part c r a). destruct (mmio_part c r a); [done|]. cbn. by destruct (mmio_parts c !! _).
Qed.
Lemma record_flags c r a v : flags (record_mmio_part c r a v) = flags c.
Proof. pose proof (record_blind c (flags c) r a v) as E. rewrite set_flags_same in E. by rewrite E. Qed.

Lemma pres_record f v r a : (forall c g, f (set_flags c g) = set_flags (f c) g) -> (forall c, flags (f c) = flags c) ->
  pres L L (upd_cpu (fun c => record_mmio_part (f c) r a v)) (upd_cpu (fun c => record_mmio_part (f c) r a v)).
Proof. intros H1 H2. apply pres_upd; intros; [by rewrite H1, record_blind|by rewrite record_flags, H2]. Qed.

Lemma pres_vpart a n : pres L L (vpart ca a n) (vpart ca a n).
Proof.
  unfold vpart. apply pres_get. intros c g Hg. same_cpu. destruct (mmio_part c ca a); [apply pres_ret|].
  eapply pres_bind; [apply pres_mem|]. intros [v|[]]; try apply pres_ret. destruct (pending_mmio c); [|apply pres_ret].
  eapply pres_bind; [by apply pres_record|]. intros ?. apply pres_ret.
Qed.
Lemma pres_vpart_store a v n : pres L L (vpart_store ca a v n) (vpart_store ca a v n).
Proof.
  unfold vpart_store. apply pres_get. intros c g Hg. same_cpu. destruct (mmio_part c ca a); [apply pres_ret|].
  eapply pres_bind; [apply pres_mem|]. intros [?|[]]; try apply pres_ret. destruct (pending_mmio_write c); [|apply pres_ret].
  eapply pres_bind; [by apply pres_record|]. intros ?. apply pres_ret.
Qed.
#[local] Hint Resolve pres_vpart pres_vpart_store : pres.
Lemma pres_vthen {A B} (x : M (Result A VecFault)) (k : A -> M (Result B VecFault)) :
  pres L L x x -> (forall a, pres L L (k a) (k a)) -> pres L L (vthen x k) (vthen x k).
Proof. intros Hx Hk. eapply pres_bind; [exact Hx|]. intros [a|f]; [apply Hk|apply pres_ret]. Qed.
Lemma pres_vload a n : pres L L (vload ca a n) (vload ca a n).
Proof. unfold vload. destruct (n =? 16); [|destruct (n =? 8); auto with pres]. repeat (apply pres_vthen; [auto with pres|intros ?]). apply pres_ret. Qed.
Lemma pres_vload_lanes b w : pres L L (vload_lanes ca b w) (vload_lanes ca b w).
Proof.
  unfold vload_lanes. cbn zeta. apply pres_vthen; [|intros; apply pres_ret]. generalize (Nat.min 4 (Z.to_nat (w / 16))) as k. intros k. generalize 0%nat as i.
  induction k as [|k IH]; intros i; cbn [vload_loop]; [apply pres_ret|]. apply pres_vthen; [apply pres_vload|intros ?].
  apply pres_vthen; [apply IH|intros ?]. apply pres_ret.
Qed.
Lemma pres_vstore a v n : pres L L (vstore ca a v n) (vstore ca a v n).
Proof. unfold vstore. destruct (n =? 16); [|destruct (n =? 8); auto with pres]. apply pres_vthen; auto with pres. Qed.
Lemma pres_or_trap {A} acc (x : M (Result A VecFault)) (k : A -> Arm) :
  pres L L x x -> (forall a, pres L L (k a) (k a)) -> pres L L (or_trap ca acc x k) (or_trap ca acc x k).
Proof. intros Hx Hk. eapply pres_bind; [exact Hx|]. intros [a|f]; [apply Hk|]. pres_tac. Qed.
End Wide.
#[export] Hint Resolve pres_vload pres_vload_lanes pres_vstore : pres.

(** ** Runs and loops *)

Lemma rrel_same {T F} L (f : F) c c' (m : T) g : live_eq L (flags c) g -> c' = set_flags c g -> rrel L (Some (f, c, m)) (Some (f, c', m)).
Proof. intros Hg ->. unfold rrel. split_and?; [done..|]. by exists g. Qed.
Lemma rrel_bind {A T F} L (x y : option A) (k k' : A -> option (F * CpuState * T)) : y = x -> (forall a, rrel L (k a) (k' a)) -> rrel L (x ≫= k) (y ≫= k').
Proof. intros -> Hk. destruct x; [apply Hk|exact I]. Qed.
Lemma rrel_done {T} L x y (m : T) : crel L x y -> rrel L (VecMem.done x m) (VecMem.done y m).
Proof. intros Hx. by destruct x, y. Qed.
Lemma rrel_fault {T} `{StrMem T} L c g ca a w t v e (m : T) : live_eq L (flags c) g ->
  rrel L (fault_at c ca a w t v e m) (fault_at (set_flags c g) ca a w t v e m).
Proof. intros Hg. by apply (rrel_same L _ (set_rip c ca) _ m g). Qed.

Ltac rrel_step :=
  cbn beta zeta;
  lazymatch goal with
  | |- rrel _ (fault_at _ _ _ _ _ _ _ _) _ => by apply rrel_fault
  | |- rrel _ (VecMem.done _ _) _ => apply rrel_done; crel_step
  | |- rrel _ (Some _) _ => eapply rrel_same; [eassumption|reflexivity]
  | |- rrel _ (mbind _ _) _ => apply rrel_bind; [reflexivity|intros ?; rrel_step]
  | |- rrel _ (if ?b then _ else _) _ => destruct b; rrel_step
  | |- rrel _ (match ?x with _ => _ end) _ => destruct x; rrel_step
  | |- rrel _ ?x _ => let h := head_of x in unfold h; rrel_step
  end.

(** ** The vector arms *)

Ltac vpres :=
  cbn beta zeta;
  lazymatch goal with
  | |- pres _ _ (mbind _ get_cpu) _ => apply pres_get; intros ? ? ?; same_cpu; vpres
  | |- pres _ _ (mbind _ _) _ => eapply pres_bind; [vpres|intros ?; vpres]
  | |- pres _ _ (or_trap _ _ _ _) _ => apply pres_or_trap; [auto with pres|intros ?; vpres]
  | |- pres _ _ (ask _) _ => apply pres_ask; reflexivity
  | |- pres _ _ (try_cpu _) _ => apply pres_try_rel; intros ? ? ?; crel_step
  | |- pres _ _ (upd_flags _) _ => apply pres_flags_same; unfold test_flags; live
  | |- pres _ _ (upd_cpu _) _ => pres_upd_tac
  | |- pres _ _ (if ?b then _ else _) _ => destruct b; vpres
  | |- pres _ _ (match ?x with _ => _ end) _ => destruct x; vpres
  | |- pres _ _ (run_str _) _ => apply pres_run_str; intros ? ? ? ?; rrel_step
  | |- pres _ _ ?x _ => first [solve [auto with pres] | let h := head_of x in unfold h; vpres]
  end.

Section Loops.
Context (L ca : Z).

Lemma pres_ask_half a l : pres L L (ask (fun c => half_of c a l)) (ask (fun c => half_of c a l)).
Proof. vpres. Qed.
Lemma pres_store_lanes a l i : pres L L (store_lanes ca a l i) (store_lanes ca a l i).
Proof. revert i. induction l as [|v l IH]; intros i; cbn [store_lanes]; [apply pres_next|]. apply pres_or_trap; auto with pres. Qed.
Lemma pres_lane_by_lane dst a ea f k l : pres L L (lane_by_lane ca dst a ea f k l) (lane_by_lane ca dst a ea f k l).
Proof.
  revert l. induction k as [|k IH]; intros l; cbn [lane_by_lane]; [apply pres_next|]. eapply pres_bind; [apply pres_ask_half|intros x].
  apply pres_or_trap; [auto with pres|intros v]. eapply pres_bind; [vpres|intros; apply IH].
Qed.
Lemma pres_collect a ea f k l out j : (forall o, pres L L (j o) (j o)) -> pres L L (collect_halves ca a ea f k l out j) (collect_halves ca a ea f k l out j).
Proof.
  intros Hj. revert l out. induction k as [|k IH]; intros l out; cbn [collect_halves]; [apply Hj|].
  eapply pres_bind; [apply pres_ask_half|intros x]. apply pres_or_trap; auto with pres.
Qed.
Lemma pres_load_each av k i out j : (forall o, pres L L (j o) (j o)) -> pres L L (load_each ca av k i out j) (load_each ca av k i out j).
Proof.
  intros Hj. revert i out. induction k as [|k IH]; intros i out; cbn [load_each]; [apply Hj|].
  eapply pres_bind; [by apply pres_ask|intros x]. apply pres_or_trap; auto with pres.
Qed.
Lemma pres_probe a k i x : pres L L x x -> pres L L (probe_lanes ca a k i x) (probe_lanes ca a k i x).
Proof.
  intros Hx. revert i. induction k as [|k IH]; intros i; cbn [probe_lanes]; [done|]. cbn zeta.
  eapply pres_bind; [apply pres_mem|]. intros [?|[]]; [apply IH| |apply IH]. pres_tac.
Qed.
End Loops.
#[export] Hint Resolve pres_store_lanes pres_lane_by_lane : pres.

Lemma exec_vec_pres L ca op : pres L L (exec_vec ca op) (exec_vec ca op).
Proof.
  unfold exec_vec. destruct op; cbn [omap list_omap id head vec_arm_1 vec_arm_2 vec_arm_3 vec_arm_4 vec_arm_5 vec_arm_6 vec_arm_7
    vec_arm_8 vec_arm_9 vec_arm_10 vec_arm_11 vec_arm_12 vec_arm_13 vec_arm_14].
  all: try (timeout 20 solve [vpres]).
  - unfold exec_v_extract_lane_wide_m. do 2 (eapply pres_bind; [vpres|intros ?]). apply pres_probe. vpres.
  - unfold exec_v_p_round_m. eapply pres_bind; [vpres|intros ?]. destruct scalar; [vpres|]. apply pres_collect. intros. vpres.
  - unfold exec_v_h_float_m. eapply pres_bind; [vpres|intros ?]. apply pres_load_each. intros. vpres.
  - unfold exec_v_h_int_m. eapply pres_bind; [vpres|intros ?]. apply pres_collect. intros. vpres.
Qed.

(** ** The x87 unit *)

Definition blind (f : CpuState -> CpuState) : Prop := forall c g, f (set_flags c g) = set_flags (f c) g.
Lemma blind_flags f c : blind f -> flags (f c) = flags c.
Proof. intros Hf. pose proof (Hf c (flags c)) as E. rewrite set_flags_same in E. by rewrite E. Qed.
Lemma blind_foldl {A} (f : CpuState -> A -> CpuState) l : (forall a, blind (fun c => f c a)) -> blind (fun c => foldl f c l).
Proof. intros Hf. induction l as [|a l IH]; intros c g; cbn [foldl]; [done|]. by rewrite Hf, IH. Qed.
Lemma blind_raise c g e : raise (set_flags c g) e = let '(b, c') := raise c e in (b, set_flags c' g).
Proof. unfold raise. destruct (exc_is_empty e); [done|]. cbn zeta. by destruct (negb _). Qed.
Lemma blind_operand c g i : st_operand (set_flags c g) i = let '(v, c') := st_operand c i in (v, set_flags c' g).
Proof.
  unfold st_operand. cbn zeta. change (is_empty_reg (set_flags c g)) with (is_empty_reg c). change (phys (set_flags c g) i) with (phys c i).
  destruct (is_empty_reg _ _); [|done]. change (fpu_sw (set_flags c g)) with (fpu_sw c).
  change (set_fpu_sw (set_flags c g) ?v) with (set_flags (set_fpu_sw c v) g). rewrite blind_raise. by destruct (raise _ _) as [[] ?].
Qed.
Lemma blind_pop c g : pop (set_flags c g) = '(v, c') ← pop c; Some (v, set_flags c' g).
Proof. unfold pop. change (fpu_top (set_flags c g)) with (fpu_top c). by destruct (_ <? _). Qed.
Lemma blind_push_raw b : blind (fun c => push_raw c b).
Proof.
  intros c g. unfold push_raw. cbn zeta. change (fpu_top (set_flags c g)) with (fpu_top c). change (is_empty_reg (set_flags c g)) with (is_empty_reg c).
  destruct (negb _); [|done]. change (set_fpu_sw (set_flags c g) ?v) with (set_flags (set_fpu_sw c v) g). rewrite blind_raise. by destruct (raise _ _) as [[] ?].
Qed.

Section Fpu.
Context `{Libm} (L : Z).

Definition xpres {A} (x y : X Memory A) : Prop := forall c m g, live_eq L (flags c) g -> rrel L (x c m) (y (set_flags c g) m).

Lemma xp_bind {A B} (x y : X Memory A) (k k' : A -> X Memory B) : xpres x y -> (forall a, xpres (k a) (k' a)) -> xpres (x ≫= k) (y ≫= k').
Proof.
  intros Hx Hk c m g Hg. specialize (Hx c m g Hg). unfold mbind, x_bind.
  destruct (x c m) as [[[r c1] m1]|], (y (set_flags c g) m) as [[[r' c2] m2]|]; try done.
  destruct Hx as (<- & <- & g1 & -> & H1). destruct r; [by apply Hk|by eapply rrel_same..].
Qed.
Lemma xp_ret {A} (a : A) : xpres (mret a) (mret a).
Proof. intros c m g Hg. by eapply rrel_same. Qed.
Lemma xp_cpu {A} (k k' : CpuState -> X Memory A) : (forall c g, k' (set_flags c g) = k c) -> (forall c, xpres (k c) (k c)) -> xpres (x_cpu ≫= k) (x_cpu ≫= k').
Proof. intros E Hk c m g Hg. unfold mbind, x_bind, x_cpu. rewrite E. by apply Hk. Qed.
Lemma xp_panic : xpres x_panic x_panic.
Proof. done. Qed.
Lemma xp_upd f : blind f -> xpres (x_upd f) (x_upd f).
Proof. intros Hf c m g Hg. apply (rrel_same L _ (f c) _ m g); [by rewrite blind_flags|apply Hf]. Qed.
Lemma xp_flags (f : Flags -> Flags) : (forall a b, live_eq L a b -> live_eq L (f a) (f b)) ->
  xpres (x_upd (fun c => set_flags c (f (flags c)))) (x_upd (fun c => set_flags c (f (flags c)))).
Proof. intros Hf c m g Hg. apply (rrel_same L _ (set_flags c (f (flags c))) _ m (f g)); [by apply Hf|done]. Qed.
Lemma xp_raise e : xpres (x_raise e) (x_raise e).
Proof.
  intros c m g Hg. unfold x_raise. rewrite blind_raise. pose proof (raise_erase c e) as Hr. destruct (raise c e) as [b c1] eqn:E.
  assert (flags c1 = flags c) as Hf by (exact (f_equal flags Hr)). destruct b; by eapply rrel_same; [rewrite ?Hf|].
Qed.
Lemma xp_operand i : xpres (operand i) (operand i).
Proof.
  intros c m g Hg. unfold operand. rewrite blind_operand. pose proof (st_operand_erase c i) as Hr. destruct (st_operand c i) as [b c1] eqn:E.
  assert (flags c1 = flags c) as Hf by (exact (f_equal flags Hr)). destruct b; by eapply rrel_same; [rewrite ?Hf|].
Qed.
Lemma xp_pop : xpres x_pop x_pop.
Proof.
  intros c m g Hg. unfold x_pop. rewrite blind_pop. destruct (pop c) as [[v c1]|] eqn:E; [|exact I]. cbn [mbind option_bind].
  pose proof (f_equal flags (pop_erase _ _ _ E)) as Hf. cbn in Hf. by eapply rrel_same; [rewrite ?Hf|].
Qed.
Lemma xp_read a n : xpres (read_n a n) (read_n a n).
Proof. intros c m g Hg. unfold read_n. destruct (fp_load m a n) as [[]|]; [by eapply rrel_same..|exact I]. Qed.
Lemma xp_write a l : xpres (write_bytes_at a l) (write_bytes_at a l).
Proof. intros c m g Hg. unfold write_bytes_at. destruct (fp_store m a l) as [[[] m1]|]; [by eapply rrel_same..|exact I]. Qed.
Lemma xp_fnstsw : xpres (x_try (fun c => write_gpr c RAX (status_word c) 2)) (x_try (fun c => write_gpr c RAX (status_word c) 2)).
Proof.
  intros c m g Hg. unfold x_try. change (status_word (set_flags c g)) with (status_word c). rewrite write_gpr_blind.
  destruct (write_gpr c RAX (status_word c) 2) as [c1|] eqn:E; [|exact I]. eapply rrel_same; [|done]. by rewrite (write_gpr_flags _ _ _ _ _ E).
Qed.
Lemma live_compare r a b : live_eq L a b -> live_eq L (compare_flags_of a r) (compare_flags_of b r).
Proof. destruct r as [[] ?]. unfold compare_flags_of. intros. live. Qed.

#[local] Hint Resolve xp_ret xp_panic xp_raise xp_operand xp_pop xp_read xp_write xp_fnstsw : xp.
#[local] Ltac xp :=
  cbn beta zeta;
  lazymatch goal with
  | |- xpres (mbind _ x_cpu) _ => apply xp_cpu; [reflexivity|intros ?; xp]
  | |- xpres (mbind _ _) _ => apply xp_bind; [xp|intros ?; xp]
  | |- xpres (x_upd (fun c => set_flags c _)) _ => apply (xp_flags (fun f => compare_flags_of f _)); intros; by apply live_compare
  | |- xpres (x_upd _) _ => apply xp_upd; try solve [by intros ? ?|unfold push; apply blind_push_raw]
  | |- xpres (if ?b then _ else _) _ => destruct b; xp
  | |- xpres (match ?x with _ => _ end) _ => destruct x; xp
  | |- _ => auto with xp
  end.

Lemma exec_x87_pres kind addr sti : xpres (exec_x87_op kind addr sti) (exec_x87_op kind addr sti).
Proof.
  unfold exec_x87_op. apply xp_cpu; [reflexivity|]. intros c0. destruct kind;
    unfold store_st0, store_f80, arith_mem, arith_reg, compare_sti, compare_int, unary, reduced, binary_pop, read_i, read_u; xp.
Qed.

Lemma fx_load_blind b : blind (fun c => fx_load c b).
Proof. intros c g. unfold fx_load. cbn zeta. rewrite <- blind_foldl by done. f_equal. Qed.

Lemma pres_run_fp ca (x : X Memory unit) : xpres x x ->
  pres L L (run_fp ca (fun c m => '(r, c, m) ← x c m; Some (x_fault r, c, m))) (run_fp ca (fun c m => '(r, c, m) ← x c m; Some (x_fault r, c, m))).
Proof.
  intros Hx s g Hg. unfold run_fp. specialize (Hx (m_cpu s) (m_mem s) g Hg). cbn [reflag m_cpu m_mem m_temps].
  destruct (x (m_cpu s) (m_mem s)) as [[[r c1] m1]|], (x (set_flags (m_cpu s) g) (m_mem s)) as [[[r' c2] m2]|]; try done.
  destruct Hx as (<- & <- & g1 & -> & H1). cbn [mbind option_bind]. destruct (x_fault r); (split; [done|]); by exists g1.
Qed.
Lemma exec_x87_arm_pres ca kind addr sti : pres L L (exec_x87_arm ca kind addr sti) (exec_x87_arm ca kind addr sti).
Proof.
  unfold exec_x87_arm. eapply pres_bind; [apply pres_read|intros a]. apply pres_get. intros c g Hg.
  change (mf_pending_before (set_flags c g) kind) with (mf_pending_before c kind). destruct (mf_pending_before c kind); [pres_tac|].
  apply pres_run_fp, exec_x87_pres.
Qed.
Lemma exec_fx_state_pres ca addr restore : pres L L (exec_fx_state ca addr restore) (exec_fx_state ca addr restore).
Proof.
  unfold exec_fx_state. eapply pres_bind; [apply pres_read|intros a]. apply pres_run_fp. unfold exec_fxstate_op. destruct restore.
  - apply xp_bind; [apply xp_read|intros b]. apply xp_upd, fx_load_blind.
  - apply xp_cpu; [reflexivity|]. intros. apply xp_write.
Qed.
End Fpu.

(** ** One op *)

Lemma exec_op_elide `{Libm} ir ca op L : flags_known op = true ->
  pres (elide_op op L).2 L (exec_op ir ca op) (exec_op ir ca (elide_op op L).1).
Proof.
  intros Hk. destruct (op_set_flags op) as [[m put]|] eqn:Em.
  - destruct op; try discriminate; first [by eapply masked_alu|by eapply masked_carry|by eapply masked_shift|by eapply masked_rotate_carry|by eapply masked_double].
  - assert (elide_op op L = (op, Z.lor L (op_reads op))) as -> by (unfold elide_op; by rewrite Em). cbn [fst snd].
    destruct (is_wide op) eqn:Ew; [|by apply plain_op]. eapply pres_sub; [apply live_eq_lor_l|].
    destruct op; try discriminate; cbn [exec_op]; [apply exec_x87_arm_pres|apply exec_fx_state_pres|apply exec_vec_pres].
Qed.

(** ** Leaving in the middle

    The ops before the last can only leave a block by a fault or an exception. *)

Definition abrupt (r : StepResult) : bool :=
  mem_exit r || match r with SExit (EException _ _) => true | _ => false end.

Definition abrupts {A} (out : A -> option StepResult) (c : M A) : Prop :=
  forall s a s' r, c s = Some (a, s') -> out a = Some r -> abrupt r = true.

Section Abrupt.
Context (ca : Z).

Lemma ab_ret {A} (a : A) out : (forall r, out a = Some r -> abrupt r = true) -> abrupts out (mret a).
Proof. intros H s b s' r [= <- <-]. apply H. Qed.
Lemma ab_next : abrupts id next.
Proof. by apply ab_ret. Qed.
Lemma ab_leave r : abrupt r = true -> abrupts id (leave r).
Proof. intros Hr. apply ab_ret. by intros ? [= <-]. Qed.
Lemma ab_bind {A B} (x : M A) (k : A -> M B) out : (forall a, abrupts out (k a)) -> abrupts out (x ≫= k).
Proof. intros Hk s b s' r E. unfold mbind, M_bind in E. destruct (x s) as [[a s1]|]; [|done]. by eapply Hk. Qed.
Lemma ab_trap {B} t a sz k v (f : StepResult -> B) out : (forall e, out (f e) = Some e) -> abrupts out (e ← trap_out ca t a sz k v; mret (f e)).
Proof. intros Hf s b s' r [= <- <-]. rewrite Hf. intros [= <-]. by destruct t, k. Qed.
Lemma ab_run_fp f : abrupts id (run_fp ca f).
Proof. intros s a s' r. unfold run_fp. destruct (f _ _) as [[[[x|] c] m]|]; [| |done]; intros [= <- <-]; [|done]. intros [= <-]. by destruct x as [? []]. Qed.
Lemma ab_run_str f : abrupts id (run_str f).
Proof. intros s a s' r. unfold run_str. destruct (f _ _) as [[[[x|] c] m]|]; [| |done]; intros [= <- <-]; [|done]. intros [= <-]. by destruct x as [? [] [] ? ?]. Qed.
Lemma ab_inner {A B} (x : M A) (k : A -> M B) out out' : abrupts out x ->
  (forall a, abrupts out' (k a) \/ exists b, k a = mret b /\ forall r, out' b = Some r -> out a = Some r) -> abrupts out' (x ≫= k).
Proof.
  intros Hx Hk s b s' r E Hr. unfold mbind, M_bind in E. destruct (x s) as [[a s1]|] eqn:Ex; [|done].
  destruct (Hk a) as [H|(b0 & Eb & H)]; [by eapply H|]. rewrite Eb in E. injection E as <- <-. eapply Hx; [exact Ex|by apply H].
Qed.
Lemma ab_as_arm c : abrupts res_out c -> abrupts id (as_arm c).
Proof. intros Hc. apply (ab_inner c _ res_out); [done|]. intros [a|e]; [left; apply ab_next|]. right. by eexists. Qed.
Lemma ab_or_leave {A B} (c : M (Result A StepResult)) (k : A -> M (Result B StepResult)) :
  abrupts res_out c -> (forall a, abrupts res_out (k a)) -> abrupts res_out (or_leave c k).
Proof. intros Hc Hk. apply (ab_inner c _ res_out); [done|]. intros [a|e]; [by left|]. right. by eexists. Qed.
End Abrupt.

Lemma ab_panic {A} out : abrupts out (panic (A := A)).
Proof. done. Qed.

Create HintDb abrupts.
#[export] Hint Resolve ab_panic ab_next ab_run_fp ab_run_str : abrupts.
#[export] Hint Extern 1 (abrupts _ (leave _)) => apply ab_leave; reflexivity : abrupts.
#[export] Hint Extern 2 (abrupts _ (mret _)) => apply ab_ret; (done || intros ? [= <-]; reflexivity) : abrupts.

Ltac abr :=
  cbn beta zeta;
  lazymatch goal with
  | |- abrupts _ (e ← trap_out _ _ _ _ _ _; _) => apply ab_trap; done
  | |- abrupts _ (as_arm _) => apply ab_as_arm; abr
  | |- abrupts _ (or_leave _ _) => apply ab_or_leave; [abr|intros ?; abr]
  | |- abrupts _ (mbind _ _) => apply ab_bind; intros ?; abr
  | |- abrupts _ (if ?c then _ else _) => destruct c; abr
  | |- abrupts _ (match ?x with _ => _ end) => destruct x; abr
  | |- _ => auto with abrupts
  end.

Lemma push16_abrupt ca w : abrupts res_out (push16 ca w).
Proof. unfold push16. abr. Qed.
Lemma pop16_abrupt ca : abrupts res_out (pop16 ca).
Proof. unfold pop16. abr. Qed.
#[export] Hint Resolve push16_abrupt pop16_abrupt : abrupts.
Lemma push_all_abrupt ca l : abrupts res_out (push_all ca l).
Proof. induction l; cbn [push_all]; abr. Qed.
Lemma pop_all_abrupt ca n : abrupts res_out (pop_all ca n).
Proof. induction n as [|[] n IH]; cbn [pop_all]; abr. Qed.
Lemma enter_display_abrupt ca k bp : abrupts res_out (enter_display ca k bp).
Proof. revert bp. induction k; intros bp; cbn [enter_display]; abr. Qed.
#[export] Hint Resolve push_all_abrupt pop_all_abrupt enter_display_abrupt : abrupts.
Lemma lane_by_lane_abrupt ca dst a ea f k l : abrupts id (lane_by_lane ca dst a ea f k l).
Proof.
  revert l. induction k as [|k IH]; intros l; cbn [lane_by_lane]; [apply ab_next|].
  apply ab_bind. intros x. unfold or_trap. apply ab_bind. intros [v|f0]; [|by apply (ab_trap ca)]. apply ab_bind. intros _. apply IH.
Qed.

Lemma exec_op_abrupt `{Libm} n ir ca op s r s' : in_width 64 ca -> op_wf n op -> flags_known op = true -> vmach n s ->
  exec_op ir ca op s = Some (Some r, s') -> abrupt r = true.
Proof.
  intros Hca Hop Hk Hs E. assert (Ha : abrupts id (exec_op ir ca op) -> abrupt r = true) by (intros F; by eapply F).
  destruct op; try discriminate Hk; cbn [exec_op] in *.
  all: try (apply Ha; unfold_arms; unfold exec_x87_arm, exec_fx_state; solve [abr]).
  destruct (commits_late op) eqn:El.
  - destruct op; try discriminate El; apply Ha; (apply ab_bind; intros ?); [apply lane_by_lane_abrupt..|apply ab_run_str].
  - destruct (exec_vec_atomic n ca op Hca Hop El s Hs) as (r' & s1 & E1 & _ & H1). rewrite E in E1. injection E1 as <- <-.
    destruct (H1 r eq_refl) as ((t & a & sz & k & v & ->) & _). by destruct t, k.
Qed.

(** ** Blocks *)

Definition elided (ir : IrBlock) : IrBlock := mkBlock (guest_start ir) (elide_dead_flags (ops ir)) (temp_count ir) (guest_len ir) (icount ir).

(** All but the last op are [flags_known]. *)
Fixpoint body_known (l : list IrOp) : bool :=
  match l with
  | [] | [_] => true
  | op :: rest => flags_known op && body_known rest
  end.

Lemma elide_masked op L : flags_known op = false -> elide_op op L = (op, Z.lor L (op_reads op)).
Proof. destruct op; try discriminate; done. Qed.
Lemma walk_note_elide op L w : walk_note (elide_op op L).1 w = walk_note op w.
Proof. by destruct op. Qed.
Lemma reflag_self s : reflag s (flags (m_cpu s)) = s.
Proof. destruct s. unfold reflag. cbn. by rewrite set_flags_same. Qed.

Section Blocks.
Context `{Libm} (n : nat) (ir : IrBlock) (e : Z) (He : block_end ir = Some e) (Hew : in_width 64 e).

Lemma walk_ops_elided l w s : walk_ops (elided ir) l w s = walk_ops ir l w s.
Proof.
  revert w s. induction l as [|op l IH]; intros w s; cbn [walk_ops]; [done|].
  assert (exec_op (elided ir) (w_cur w) op = exec_op ir (w_cur w) op) as -> by (by destruct op).
  destruct (exec_op ir _ op s) as [[[r|] s1]|]; [done|apply IH|done].
Qed.

Definition same_walk (x y : option (StepResult * Walk * mach)) : Prop :=
  match x, y with
  | Some (r, w, s), Some (r', w', s') => r' = r /\ w' = w /\ exists g, s' = reflag s g /\ (abrupt r = false -> g = flags (m_cpu s))
  | None, None => True
  | _, _ => False
  end.
Lemma same_walk_refl x : same_walk x x.
Proof. destruct x as [[[r w] s]|]; [|exact I]. split; [done|]. split; [done|]. exists (flags (m_cpu s)). by rewrite reflag_self. Qed.

Lemma walk_elided l w s g : in_width 64 (w_cur w) -> Forall (op_wf n) l -> traps_fit (w_cur w) l -> body_known l = true -> vmach n s ->
  live_eq (elide_from l).2 (flags (m_cpu s)) g -> same_walk (walk_ops ir l w s) (walk_ops ir (elide_from l).1 w (reflag s g)).
Proof.
  revert w s g. induction l as [|op l IH]; intros w s g Hw Hl Ht Hk Hs Hg.
  - apply live_eq_all in Hg as <-. rewrite reflag_self. apply same_walk_refl.
  - destruct (flags_known op) eqn:Eop.
    + apply list.Forall_cons in Hl as [Hop Hl]. cbn [elide_from] in *. destruct (elide_from l) as [l' L] eqn:El.
      pose proof (walk_note_elide op L w) as Hn. pose proof (exec_op_elide ir (w_cur w) op L Eop s) as Hp.
      destruct (elide_op op L) as [op' L'] eqn:Eo. cbn [fst snd walk_ops] in *. specialize (Hp g Hg).
      destruct (exec_op_vsafe n ir (w_cur w) op e Hw He Hew Hop) with (s := s) as (r1 & s1 & Ex & Hs1 & _); [destruct op; try done; apply Ht|done|].
      rewrite Ex in Hp |- *. destruct (exec_op ir (w_cur w) op' (reflag s g)) as [[r2 s2]|]; [|done]. destruct Hp as (<- & g' & -> & Hg').
      cbn [mbind option_bind]. rewrite Hn. destruct r1 as [r1|].
      * split; [done|]. split; [done|]. exists g'. split; [done|]. intros Ha.
        by rewrite (exec_op_abrupt n ir (w_cur w) op s r1 s1 Hw Hop Eop Hs Ex) in Ha.
      * apply IH; try done; [by destruct op|destruct op; try done; apply Ht|]. destruct l; [done|]. cbn [body_known] in Hk. by apply andb_true_iff in Hk as [_ Hk].
    + destruct l as [|op2 l]; [|cbn in Hk; by rewrite Eop in Hk]. cbn [elide_from] in *. rewrite elide_masked in * by done. cbn [fst snd] in *.
      apply live_eq_lor_l, live_eq_all in Hg as <-. rewrite reflag_self. apply same_walk_refl.
Qed.
End Blocks.

(** ** Theorems *)

(** C21: dead-flag elimination preserves the block: in every well-formed block whose ops
    before the last are ones whose flag reads the pass knows, the narrowed block ends the
    same way, retires the same instructions, and leaves the same memory and registers; the
    flags are the same too unless the block was left by a fault or an exception, where
    flags that a later op would have overwritten may be out of date. *)
Theorem dead_flags_preserved `{Libm} (ir : IrBlock) (c : CpuState) (m : Memory) (r : StepResult) (info : RetireInfo)
    (c' : CpuState) (m' : Memory) :
  block_wf ir -> body_known (ops ir) = true -> vcpu c -> mem_wf m ->
  interpret_block ir c m = Some (r, info, c', m') ->
  exists g, interpret_block (elided ir) c m = Some (r, info, set_flags c' g, m') /\ (abrupt r = false -> g = flags c').
Proof.
  intros Hb Hk Hc Hm. unfold interpret_block. rewrite walk_ops_elided. cbn [elided guest_start temp_count ops].
  destruct (block_end_wf ir Hb) as [He Hew]. set (w0 := mkWalk (guest_start ir) 0 false false). set (s0 := mkMach c m (replicate (temp_count ir) 0)).
  pose proof (walk_elided (temp_count ir) ir _ He Hew (ops ir) w0 s0 (flags c) (bw_start _ Hb) (bw_ops _ Hb) (bw_traps _ Hb) Hk
    (start_vmach _ _ _ Hc Hm) (live_eq_refl _ _)) as Hw.
  rewrite (reflag_self s0 : reflag s0 (flags c) = s0) in Hw. unfold elide_dead_flags.
  destruct (walk_ops ir (ops ir) w0 s0) as [[[r0 w] s]|]; [|done]. destruct (walk_ops ir _ w0 s0) as [[[r1 w1] s1]|]; [|done].
  destruct Hw as (-> & -> & g & -> & Hg). cbn [mbind option_bind]. intros [= <- <- <- <-]. by exists g.
Qed.

(** [add rax, rbx; sub rcx, 1; jne]: the flags of the addition are dead. *)
Definition ex_dead : IrBlock := mkBlock 0x1000
  [InsnStart 0x1000; ReadReg 0 Rax; ReadReg 1 Rbx; Add 2 (TempV 0) (TempV 1) 8 FM_ALL; WriteReg Rax (TempV 2) 8;
   InsnStart 0x1003; ReadReg 0 Rcx; Sub 1 (TempV 0) (Imm 1) 8 FM_ALL; WriteReg Rcx (TempV 1) 8;
   InsnStart 0x1007; Branch Ne 0x1000 0x1009] 3 9 3.

#[local] Ltac block_ok ir :=
  split; [unfold in_width; cbn; lia|cbn; lia|cbn; lia| |cbn; tauto]; cbn [ops ir temp_count app];
  repeat (apply list.Forall_cons; split; [cbn [op_wf val_ok]; unfold in_width, valid_elem; repeat split; lia|]);
  by apply list.Forall_nil.

Lemma ex_dead_wf : block_wf ex_dead.
Proof. block_ok ex_dead. Qed.

Definition ex_dead_end : StepResult * RetireInfo * CpuState * Memory :=
  match @interpret_block no_libm ex_dead default_cpu ex_mem with Some x => x | None => (Continue, mkRetire 0 false, default_cpu, ex_mem) end.

Lemma dead_flags_preserved_witness : elide_dead_flags (ops ex_dead) <> ops ex_dead /\
  exists g, @interpret_block no_libm (elided ex_dead) default_cpu ex_mem =
    Some (Continue, ex_dead_end.1.1.2, set_flags ex_dead_end.1.2 g, ex_dead_end.2) /\ (abrupt Continue = false -> g = flags ex_dead_end.1.2).
Proof.
  split; [by vm_compute|].
  exact (@dead_flags_preserved no_libm ex_dead default_cpu ex_mem Continue ex_dead_end.1.1.2 ex_dead_end.1.2 ex_dead_end.2
    ex_dead_wf eq_refl default_vcpu ex_mem_wf ltac:(vm_compute; reflexivity)).
Defined.

(** [add bl, 1; <reader>; xor cx, cx], after [rbx := 255] and [rsp := 256]. *)
Definition reader_block (reader : list IrOp) : IrBlock := mkBlock 0x1000
  ([InsnStart 0x1000; WriteReg Rbx (Imm 255) 8; WriteReg Rsp (Imm 256) 8;
    InsnStart 0x1008; ReadReg 0 Rbx; Add 1 (TempV 0) (Imm 1) 1 FM_ALL; WriteReg Rbx (TempV 1) 1;
    InsnStart 0x100b] ++ reader ++
   [InsnStart 0x100c; ReadReg 0 Rcx; Xor 1 (TempV 0) (TempV 0) 2 FM_ALL; WriteReg Rcx (TempV 1) 2]) 3 15 4.

Definition run_gprs (ir : IrBlock) : option (StepResult * list Z) :=
  '(r, _, c, _) ← @interpret_block no_libm ir default_cpu ex_mem; Some (r, gpr c).
Definition run_flags (ir : IrBlock) : option (StepResult * Flags) :=
  '(r, _, c, _) ← @interpret_block no_libm ir default_cpu ex_mem; Some (r, flags c).

(** The readers [op_reads] does not list; [pushf] is followed by a load of what it pushed. *)
Definition hidden_readers : list (list IrOp) :=
  [[Lahf]; [Bcd Daa]; [Bcd Das]; [Bcd Aaa]; [Bcd Aas]; [PushfReal; Load 2 (Imm 254) 2; WriteReg Rdx (TempV 2) 2]].

(** The pass is not sound for every op the lifter emits: [op_reads] is said to list
    all the readers of flags, but LAHF, the decimal adjusts and the real-mode PUSHF read
    them too.  In [add; <reader>; xor] the flags of the addition are then dropped, and a
    general register ends up with a different value.  And in [add; <faulting load>; xor]
    the flags themselves differ at the fault exit, which the pass claims to keep. *)
Theorem elision_misses_readers :
  Forall (fun reader => block_wf (reader_block reader) /\
    exists l l', run_gprs (reader_block reader) = Some (Continue, l) /\ run_gprs (elided (reader_block reader)) = Some (Continue, l') /\ l <> l') hidden_readers /\
  let fault := reader_block [Load 2 (Imm 20000) 4] in
  block_wf fault /\ exists f f', run_flags fault = Some (SExit (UnmappedMemory 20000 Read), f) /\
    run_flags (elided fault) = Some (SExit (UnmappedMemory 20000 Read), f') /\ zf f = true /\ zf f' = false.
Proof.
  split.
  - unfold hidden_readers. repeat (apply list.Forall_cons; split; [split; [block_ok reader_block|eexists _, _; split; [vm_compute; reflexivity|];
      split; [vm_compute; reflexivity|by vm_compute]]|]). by apply list.Forall_nil.
  - split; [block_ok reader_block|]. eexists _, _. split; [vm_compute; reflexivity|]. split; [vm_compute; reflexivity|]. by vm_compute.
Qed.
