(* ===== verification/Cache.v ===== *)
(** * The translation cache and self-modifying code (x86jit-core/src/cache.rs, vm.rs)

    The cache maps a block key to a materialized unit and keeps beside it the guest byte
    spans the unit was translated from; a write to a tagged page drops every unit that
    overlaps it.  Each operation below runs under the cache's locks and is one atomic
    step of the protocol; the counters that only feed statistics are kept.  The page
    tags are reached through the class [CodeTags], which the guest memory implements. *)

From S2P Require Import Prelude Features State Ir Memory PageTrack Interp Block Lift.

(** ** Keys and units *)

Record BlockKey : Type := mkKey { guest_addr : Z; mode : CpuMode }.

#[global] Instance BlockKey_eq_dec : EqDecision BlockKey.
Proof. solve_decision. Defined.
#[global] Instance BlockKey_countable : Countable BlockKey.
Proof.
  refine (inj_countable' (fun k => (guest_addr k, mode k)) (fun p => mkKey p.1 p.2) _). by intros [].
Defined.

Inductive CachedBlock : Type :=
  | Interpreted (ir : IrBlock)
  | Compiled (entry : Z).

Definition Span : Type := Z * Z.

Record TranslationCache : Type := mkCache {
  cmap : gmap BlockKey CachedBlock;
  cspans : gmap BlockKey (list Span);
  hits : Z;
  misses : Z;
  chained : Z;
  regions_ : Z;
  epoch : Z;
  ibtc_descriptors : list (Z * Z);
  ibtc_filled : Z;
  hotness : gmap BlockKey Z;
  region_decisions : gmap BlockKey bool;
  tier_pending : gset BlockKey;
  tier_bg_published : Z;
  tier_bg_rejected : Z;
}.

Definition new_cache : TranslationCache := mkCache ∅ ∅ 0 0 0 0 0 [] 0 ∅ ∅ ∅ 0 0.

(** *** Field updates *)

Definition set_units (c : TranslationCache) (mp : gmap BlockKey CachedBlock) (sp : gmap BlockKey (list Span)) : TranslationCache :=
  mkCache mp sp (hits c) (misses c) (chained c) (regions_ c) (epoch c) (ibtc_descriptors c) (ibtc_filled c)
    (hotness c) (region_decisions c) (tier_pending c) (tier_bg_published c) (tier_bg_rejected c).
Definition set_epoch (c : TranslationCache) (e : Z) : TranslationCache :=
  mkCache (cmap c) (cspans c) (hits c) (misses c) (chained c) (regions_ c) e (ibtc_descriptors c) (ibtc_filled c)
    (hotness c) (region_decisions c) (tier_pending c) (tier_bg_published c) (tier_bg_rejected c).
Definition set_hotness (c : TranslationCache) (h : gmap BlockKey Z) : TranslationCache :=
  mkCache (cmap c) (cspans c) (hits c) (misses c) (chained c) (regions_ c) (epoch c) (ibtc_descriptors c) (ibtc_filled c)
    h (region_decisions c) (tier_pending c) (tier_bg_published c) (tier_bg_rejected c).
Definition set_pending (c : TranslationCache) (p : gset BlockKey) : TranslationCache :=
  mkCache (cmap c) (cspans c) (hits c) (misses c) (chained c) (regions_ c) (epoch c) (ibtc_descriptors c) (ibtc_filled c)
    (hotness c) (region_decisions c) p (tier_bg_published c) (tier_bg_rejected c).
Definition set_decisions (c : TranslationCache) (d : gmap BlockKey bool) : TranslationCache :=
  mkCache (cmap c) (cspans c) (hits c) (misses c) (chained c) (regions_ c) (epoch c) (ibtc_descriptors c) (ibtc_filled c)
    (hotness c) d (tier_pending c) (tier_bg_published c) (tier_bg_rejected c).
Definition set_hits (c : TranslationCache) (h m : Z) : TranslationCache :=
  mkCache (cmap c) (cspans c) h m (chained c) (regions_ c) (epoch c) (ibtc_descriptors c) (ibtc_filled c)
    (hotness c) (region_decisions c) (tier_pending c) (tier_bg_published c) (tier_bg_rejected c).
Definition set_chained (c : TranslationCache) (n : Z) : TranslationCache :=
  mkCache (cmap c) (cspans c) (hits c) (misses c) n (regions_ c) (epoch c) (ibtc_descriptors c) (ibtc_filled c)
    (hotness c) (region_decisions c) (tier_pending c) (tier_bg_published c) (tier_bg_rejected c).
Definition set_regions_ (c : TranslationCache) (n : Z) : TranslationCache :=
  mkCache (cmap c) (cspans c) (hits c) (misses c) (chained c) n (epoch c) (ibtc_descriptors c) (ibtc_filled c)
    (hotness c) (region_decisions c) (tier_pending c) (tier_bg_published c) (tier_bg_rejected c).
Definition set_ibtc (c : TranslationCache) (l : list (Z * Z)) (n : Z) : TranslationCache :=
  mkCache (cmap c) (cspans c) (hits c) (misses c) (chained c) (regions_ c) (epoch c) l n
    (hotness c) (region_decisions c) (tier_pending c) (tier_bg_published c) (tier_bg_rejected c).
Definition set_tier_bg (c : TranslationCache) (p r : Z) : TranslationCache :=
  mkCache (cmap c) (cspans c) (hits c) (misses c) (chained c) (regions_ c) (epoch c) (ibtc_descriptors c) (ibtc_filled c)
    (hotness c) (region_decisions c) (tier_pending c) p r.

(** ** Operations *)

Definition bump_hotness (c : TranslationCache) (key : BlockKey) : Z * TranslationCache :=
  let n := default 0 (hotness c !! key) in
  (wrap 32 (n + 1), set_hotness c (<[key := wrap 32 (n + 1)]> (hotness c))).

Definition region_decision (c : TranslationCache) (key : BlockKey) : option bool := region_decisions c !! key.
Definition set_region_decision (c : TranslationCache) (key : BlockKey) (candidate : bool) : TranslationCache :=
  set_decisions c (<[key := candidate]> (region_decisions c)).

(** [upgrade_region] with the callback [on_mark] acting on a state [t]. *)
Definition upgrade_region {T} (c : TranslationCache) (t : T) (key : BlockKey) (block : CachedBlock) (spans : list Span)
    (since_epoch : Z) (on_mark : T -> list Span -> T) : bool * TranslationCache * T :=
  if negb (epoch c =? since_epoch) then (false, c, t)
  else
    let c := set_units c (<[key := block]> (cmap c)) (<[key := spans]> (cspans c)) in
    (true, set_hotness c (delete key (hotness c)), on_mark t spans).

Definition upgrade (c : TranslationCache) (key : BlockKey) (block : CachedBlock) (span : Span) (since_epoch : Z)
    : bool * TranslationCache :=
  let '(r, c, _) := upgrade_region c tt key block [span] since_epoch (fun t _ => t) in (r, c).

(** The descriptor's address is where the allocator put it. *)
Definition alloc_ibtc_descriptor (c : TranslationCache) (target entry : Z) : TranslationCache :=
  set_ibtc c (ibtc_descriptors c ++ [(target, entry)]) (wrap 64 (ibtc_filled c + 1)).

Definition publish_if_current {T} (c : TranslationCache) (t : T) (since_epoch : Z) (publish : T -> T) : bool * T :=
  if negb (epoch c =? since_epoch) then (false, t) else (true, publish t).

Definition get (c : TranslationCache) (key : BlockKey) : option CachedBlock * TranslationCache :=
  let found := cmap c !! key in
  (found, match found with
          | Some _ => set_hits c (wrap 64 (hits c + 1)) (misses c)
          | None => set_hits c (hits c) (wrap 64 (misses c + 1))
          end).

Definition add_chained (c : TranslationCache) (n : Z) : TranslationCache :=
  if negb (n =? 0) then set_chained c (wrap 64 (chained c + n)) else c.
Definition record_region (c : TranslationCache) : TranslationCache := set_regions_ c (wrap 64 (regions_ c + 1)).

Definition try_begin_tier_up (c : TranslationCache) (key : BlockKey) : bool * TranslationCache :=
  (negb (bool_decide (key ∈ tier_pending c)), set_pending c ({[ key ]} ∪ tier_pending c)).
Definition end_tier_up (c : TranslationCache) (key : BlockKey) : TranslationCache :=
  set_pending c (tier_pending c ∖ {[ key ]}).
Definition tier_pending_len (c : TranslationCache) : Z := Z.of_nat (base.size (tier_pending c)).
Definition record_tier_bg_published (c : TranslationCache) : TranslationCache :=
  set_tier_bg c (wrap 64 (tier_bg_published c + 1)) (tier_bg_rejected c).
Definition record_tier_bg_rejected (c : TranslationCache) : TranslationCache :=
  set_tier_bg c (tier_bg_published c) (wrap 64 (tier_bg_rejected c + 1)).

Definition insert_unit {T} (c : TranslationCache) (t : T) (key : BlockKey) (block : CachedBlock) (spans : list Span)
    (on_mark : T -> list Span -> T) : TranslationCache * T :=
  (set_units c (<[key := block]> (cmap c)) (<[key := spans]> (cspans c)), on_mark t spans).

(** [start < hi && lo < start + len], the sum in 64 bits. *)
Definition overlaps (lo hi : Z) (s : Span) : bool := (s.1 <? hi) && (lo <? wrapping_add 64 s.1 s.2).

Definition victims (c : TranslationCache) (lo hi : Z) : list BlockKey :=
  fst <$> filter (fun kv => existsb (overlaps lo hi) kv.2 = true) (map_to_list (cspans c)).

Definition drop_unit (c : TranslationCache) (key : BlockKey) : TranslationCache :=
  set_pending
    (set_hotness (set_units c (delete key (cmap c)) (delete key (cspans c))) (delete key (hotness c)))
    (tier_pending c ∖ {[ key ]}).

Definition invalidate_overlapping {T} (c : TranslationCache) (t : T) (lo hi : Z) (on_clear_page : T -> T)
    : list BlockKey * TranslationCache * T :=
  let vs := victims c lo hi in
  let c := foldl drop_unit c vs in
  let t := on_clear_page t in
  (vs, match vs with [] => c | _ => set_epoch c (wrap 64 (epoch c + 1)) end, t).

(** ** The page tags as the cache sees them *)

Class CodeTags (T : Type) : Type := {
  tg_code : T -> Z -> bool;            (* the page is tagged *)
  tg_dirty : T -> list Z;              (* tagged pages written since the last drain *)
  tg_mark : T -> Z -> Z -> T;
  tg_write : T -> Z -> Z -> T;
  tg_clear : T -> Z -> T;
  tg_take : T -> list Z * T;
}.

#[global] Instance memory_tags : CodeTags Memory := {
  tg_code := is_code_page;
  tg_dirty := dirty;
  tg_mark := mark_code;
  tg_write := note_write;
  tg_clear := clear_code_page;
  tg_take := take_dirty_code;
}.

(** The callback of every insertion: [for (start, len) in sp { mem.mark_code(start, len) }]. *)
Definition mark_spans {T} `{CodeTags T} (t : T) (sp : list Span) : T := foldl (fun t s => tg_mark t s.1 s.2) t sp.

(** [handle_smc], one drained page: drop what overlaps it and clear its tag. *)
Definition smc_page {T} `{CodeTags T} (c : TranslationCache) (t : T) (page : Z) : list BlockKey * TranslationCache * T :=
  let lo := Z.shiftl page CODE_PAGE_BITS in
  let hi := lo + Z.shiftl 1 CODE_PAGE_BITS in
  invalidate_overlapping c t lo hi (fun t => tg_clear t page).

(** What the protocol relies on. *)
Class CodeTagLaws (T : Type) `{CodeTags T} : Type := {
  tg_ok : T -> Prop;
  tg_tracked : T -> Z -> Prop;         (* the page has a tag *)
  mark_law t a n : tg_ok t -> 0 <= a ->
    tg_ok (tg_mark t a n) /\ tg_dirty (tg_mark t a n) = tg_dirty t /\
    (forall q, tg_tracked (tg_mark t a n) q <-> tg_tracked t q) /\
    (forall q, 0 <= q -> tg_code (tg_mark t a n) q = true <->
       tg_code t q = true \/ (q ∈ code_page_range a n /\ tg_tracked t q));
  write_law t a n : tg_ok t -> 0 <= a ->
    tg_ok (tg_write t a n) /\ (forall q, tg_tracked (tg_write t a n) q <-> tg_tracked t q) /\
    (forall q, tg_code (tg_write t a n) q = tg_code t q) /\
    (forall q, q ∈ tg_dirty (tg_write t a n) <-> q ∈ tg_dirty t \/ (q ∈ code_page_range a n /\ tg_code t q = true));
  clear_law t p : tg_ok t -> 0 <= p ->
    tg_ok (tg_clear t p) /\ tg_dirty (tg_clear t p) = tg_dirty t /\
    (forall q, tg_tracked (tg_clear t p) q <-> tg_tracked t q) /\
    (forall q, 0 <= q -> tg_code (tg_clear t p) q = negb (q =? p) && tg_code t q);
  take_law t : tg_ok t ->
    tg_ok (tg_take t).2 /\ tg_dirty (tg_take t).2 = [] /\ (tg_take t).1 = tg_dirty t /\
    (forall q, tg_tracked (tg_take t).2 q <-> tg_tracked t q) /\ (forall q, tg_code (tg_take t).2 q = tg_code t q);
}.

(** The guest memory keeps the laws. *)
Record mem_tags_ok (m : Memory) : Prop := {
  mt_smc : smc_ok m;
  mt_watch : length (w_dirty (watch m)) = length (w_watch (watch m));
  mt_flag : dirty m <> [] -> dirty_flag m = true;
}.

Lemma mark_code_same m a n :
  dirty (mark_code m a n) = dirty m /\ dirty_flag (mark_code m a n) = dirty_flag m /\
  watch (mark_code m a n) = watch m /\ length (code_page (mark_code m a n)) = length (code_page m).
Proof.
  unfold mark_code. generalize (code_page_range a n) as ps. intros ps. revert m.
  induction ps as [|p ps IH]; intros m; cbn [foldl]; [done|].
  destruct (IH (mark_code_page m p)) as (-> & -> & -> & ->). unfold mark_code_page, widen_code_range.
  destruct (word_bit p), (nthZ _ _); [|done].
  destruct (widen_next _ _); cbn [dirty dirty_flag watch code_page set_code_page set_code_range];
    rewrite ?bit_set_length; done.
Qed.

#[global] Program Instance memory_tag_laws : CodeTagLaws Memory := {
  tg_ok := mem_tags_ok;
  tg_tracked m p := in_table (code_page m) p;
}.
Next Obligation.
  intros m a n [H1 H2 H3] Ha. destruct (mark_code_same m a n) as (E1 & E2 & E3 & E4).
  destruct (mark_code_smc m a n Ha H1) as (G1 & _ & G2). cbn.
  split; [split; [done|by rewrite E3|by rewrite E1, E2]|]. split; [done|]. split; [intros q; unfold in_table; by rewrite E4|exact G2].
Qed.
Next Obligation.
  intros m a n [H1 H2 H3] Ha. cbn. unfold note_write.
  assert (Hps : Forall (fun p => 0 <= p) (code_page_range a n))
    by (apply list.Forall_forall; intros; by eapply code_page_range_nonneg).
  destruct (note_pages_spec (negb (w_count (watch m) =? 0)) (code_page_range a n) m Hps H2)
    as (F1 & F2 & F3 & F4 & F5 & F6 & F7 & F8 & _). set (m' := foldl _ m _) in *.
  assert (Hcode : forall q, is_code_page m' q = is_code_page m q) by (intros; unfold is_code_page; by rewrite F1).
  split; [|split; [intros q; unfold in_table; by rewrite F1|split; [exact Hcode|]]].
  - split; [|by rewrite F5, F8|].
    + destruct H1 as [A B C]. split; [by rewrite F1|by rewrite F2|]. intros p Hp. rewrite Hcode, F2. by apply C.
    + rewrite F3, F4. intros Hd. destruct (existsb (is_code_page m) _) eqn:Ex; [by rewrite orb_true_r|].
      rewrite orb_false_r. apply H3. intros Ed. apply Hd. rewrite Ed. cbn [app].
      destruct (filter _ _) as [|x l] eqn:Ef; [done|]. exfalso.
      assert (Hx : x ∈ filter (fun p => is_code_page m p = true) (code_page_range a n)) by (rewrite Ef; by left).
      apply list_elem_of_filter in Hx as [Hx1 Hx2]. apply list_elem_of_In in Hx2.
      assert (existsb (is_code_page m) (code_page_range a n) = true) by (apply existsb_exists; by exists x). congruence.
  - intros q. rewrite F3, elem_of_app, list_elem_of_filter. tauto.
Qed.
Next Obligation.
  intros m p [H1 H2 H3] Hp. cbn [tg_clear tg_dirty tg_code memory_tags].
  assert (Hcode : forall q, 0 <= q -> is_code_page (clear_code_page m p) q = negb (q =? p) && is_code_page m q)
    by (intros q Hq; unfold is_code_page, clear_code_page; cbn [code_page set_code_page]; by apply bit_clear_get).
  split; [|split; [done|split; [intros q; unfold in_table; cbn [code_page set_code_page clear_code_page]; by rewrite bit_clear_length|done]]].
  split; [|done|done]. destruct H1 as [A B C]. split; [cbn [code_page set_code_page clear_code_page]; by rewrite bit_clear_length|done|].
  intros q Hq Hq2. rewrite Hcode in Hq2 by done. apply andb_true_iff in Hq2 as [_ ?]. by apply C.
Qed.
Next Obligation.
  intros m [H1 H2 H3]. cbn. unfold take_dirty_code. destruct (dirty_flag m) eqn:Ef; cbn [negb].
  - cbn. split; [split; [by destruct H1|done|done]|done].
  - assert (Ed0 : dirty m = []).
    { destruct (dirty m) eqn:Ed; [done|]. specialize (H3 ltac:(done)). congruence. }
    cbn [fst snd]. split; [split; [done|done|congruence]|]. by rewrite Ed0.
Qed.

(** ** Invalidation *)

Lemma victims_spec c lo hi k :
  k ∈ victims c lo hi <-> exists sp, cspans c !! k = Some sp /\ existsb (overlaps lo hi) sp = true.
Proof.
  unfold victims. rewrite list_elem_of_fmap. split.
  - intros ([k' sp] & -> & [H1 H2%elem_of_map_to_list]%list_elem_of_filter). by exists sp.
  - intros (sp & H1 & H2). exists (k, sp). split; [done|]. apply list_elem_of_filter. split; [done|].
    by apply elem_of_map_to_list.
Qed.

Lemma drop_all_spec vs c : let c' := foldl drop_unit c vs in
  (forall k, cmap c' !! k = if decide (k ∈ vs) then None else cmap c !! k) /\
  (forall k, cspans c' !! k = if decide (k ∈ vs) then None else cspans c !! k) /\
  (forall k, hotness c' !! k = if decide (k ∈ vs) then None else hotness c !! k) /\
  (forall k, k ∈ tier_pending c' <-> k ∈ tier_pending c /\ k ∉ vs) /\
  epoch c' = epoch c /\ region_decisions c' = region_decisions c.
Proof.
  revert c. induction vs as [|v vs IH]; intros c; cbn [foldl].
  { assert (Hn : forall k : BlockKey, k ∉ []) by (intros k; apply not_elem_of_nil).
    split; [|split; [|split; [|split; [|done]]]]; intros k; try (by case_decide; [destruct (Hn k)|]).
    split; [by intros|by intros [? _]]. }
  destruct (IH (drop_unit c v)) as (H1 & H2 & H3 & H4 & H5 & H6).
  assert (Hd : forall A (m : gmap BlockKey A) k,
    (if decide (k ∈ vs) then None else delete v m !! k) = if decide (k ∈ v :: vs) then None else m !! k).
  { intros A m k. destruct (decide (k = v)) as [->|Hne].
    - rewrite lookup_delete_eq. rewrite (decide_True (P := v ∈ v :: vs)) by (by left). by case_decide.
    - rewrite lookup_delete_ne by done. repeat case_decide; try done; set_solver. }
  split; [intros k; rewrite H1; apply Hd|]. split; [intros k; rewrite H2; apply Hd|].
  split; [intros k; rewrite H3; apply Hd|]. split; [|by rewrite H5, H6].
  intros k. rewrite H4. cbn [drop_unit set_pending tier_pending]. set_solver.
Qed.

(** A page interval and a span overlap exactly when they share a byte. *)
Lemma overlaps_spec lo hi s : 0 <= s.1 -> 0 < s.2 -> s.1 + s.2 < 2 ^ 64 -> lo < hi ->
  overlaps lo hi s = true <-> exists x, lo <= x < hi /\ s.1 <= x < s.1 + s.2.
Proof.
  intros H0 H1 H2 Hlh. unfold overlaps, wrapping_add. rewrite wrap_small by (unfold in_width; lia).
  rewrite andb_true_iff, !Z.ltb_lt. split.
  - intros [H3 H4]. exists (Z.max lo s.1). lia.
  - intros (x & H3 & H4). lia.
Qed.

Definition span_wf (s : Span) : Prop := 0 <= s.1 /\ 0 < s.2 /\ s.1 + s.2 < 2 ^ 64.

(** A unit whose pages include [p] is a victim of the drain of [p]. *)
Lemma page_overlap p s : span_wf s -> p ∈ code_page_range s.1 s.2 ->
  overlaps (Z.shiftl p CODE_PAGE_BITS) (Z.shiftl p CODE_PAGE_BITS + Z.shiftl 1 CODE_PAGE_BITS) s = true.
Proof.
  intros (H0 & H1 & H2) Hp. unfold CODE_PAGE_BITS in *. rewrite !Z.shiftl_mul_pow2 by lia. change (1 * 2 ^ 12) with 4096.
  change (2 ^ 12) with 4096. apply overlaps_spec; try lia.
  unfold code_page_range in Hp. apply zseq_elem in Hp. unfold CODE_PAGE_BITS, saturating_add in Hp.
  rewrite !Z.shiftr_div_pow2 in Hp by lia. change (2 ^ 12) with 4096 in Hp.
  rewrite Z.min_l, Z.max_l in Hp by lia.
  exists (Z.max (p * 4096) s.1). Z.div_mod_to_equations. lia.
Qed.

(** ** The protocol

    Ghost state makes staleness visible: [s_gen] counts the stores to each page and
    [s_lift] holds the counts a unit was translated from.  A store and its [note_write] are
    two steps, the pages stored to and not yet noted are in [s_notes]; pages a vcpu has
    drained but not yet invalidated are in [s_flight].  Translating a unit and caching it
    are two steps as well: [JLift] is a unit whose bytes a vcpu began to fetch at the counts
    [lifted].  A tier-up holds the epoch it snapshotted before it looked the block up, and
    then the unit it compiles. *)

Inductive Job : Type :=
  | JEpoch (e : Z)
  | JLift (key : BlockKey) (spans : list Span) (lifted : Z -> Z)
  | JUnit (e : Z) (key : BlockKey) (spans : list Span) (lifted : Z -> Z) (open : Z -> bool).

Record Smc (T : Type) : Type := mkSmc {
  s_cache : TranslationCache;
  s_tags : T;
  s_notes : list (Z * Z);
  s_flight : list Z;
  s_gen : Z -> Z;
  s_lift : BlockKey -> Z -> Z;
  s_race : BlockKey -> Z -> bool;
  s_jobs : list Job;
}.
Arguments mkSmc {T}. Arguments s_cache {T}. Arguments s_tags {T}. Arguments s_notes {T}. Arguments s_flight {T}.
Arguments s_gen {T}. Arguments s_lift {T}. Arguments s_race {T}. Arguments s_jobs {T}.

(** The pages of a unit. *)
Definition unit_page (sp : list Span) (p : Z) : Prop := Exists (fun s => p ∈ code_page_range s.1 s.2) sp.

Definition put {A} (l : BlockKey -> A) (k : BlockKey) (g : A) : BlockKey -> A :=
  fun k' => if decide (k' = k) then g else l k'.

(** The invalidation of page [p] is on the way. *)
Definition pending {T} `{CodeTags T} (s : Smc T) (p : Z) : Prop :=
  Exists (fun w => p ∈ code_page_range w.1 w.2) (s_notes s) \/ p ∈ tg_dirty (s_tags s) \/ p ∈ s_flight s.
#[global] Instance pending_dec {T} `{CodeTags T} (s : Smc T) (p : Z) : Decision (pending s p).
Proof. apply _. Defined.

(** A unit translated at the counts [lifted] misses a store to [p], and nothing will tell. *)
Definition missed {T} `{CodeTags T} (s : Smc T) (lifted : Z -> Z) (p : Z) : bool :=
  negb (lifted p =? s_gen s p) && negb (bool_decide (pending s p)).

(** The cached unit of [key] gets the spans [sp]: a tier-up under way that looked up
    another one there can no longer count on being dropped from the cache with it. *)
Definition rekey (key : BlockKey) (sp : list Span) (j : Job) : Job :=
  match j with
  | JUnit e k sp' lifted _ => if decide (k = key /\ sp' <> sp) then JUnit e k sp' lifted (fun _ => true) else j
  | _ => j
  end.

(** The steps vcpus interleave.  [s_race key p] is set when the unit of [key] is cached
    although it misses a store to [p]: a store that fell between the translation of untagged
    pages and their tagging (a first insertion, or a region lifted anew for its tier-up), or a
    tier-up of a unit that was replaced meanwhile by one with other spans. *)
Inductive smc_step {T} `{CodeTagLaws T} : Smc T -> Smc T -> Prop :=
  | st_store s a n : 0 <= a ->
      smc_step s (mkSmc (s_cache s) (s_tags s) ((a, n) :: s_notes s) (s_flight s)
        (fun p => if decide (p ∈ code_page_range a n) then s_gen s p + 1 else s_gen s p) (s_lift s) (s_race s) (s_jobs s))
  | st_note s a n n1 n2 : s_notes s = n1 ++ (a, n) :: n2 -> 0 <= a ->
      smc_step s (mkSmc (s_cache s) (tg_write (s_tags s) a n) (n1 ++ n2) (s_flight s) (s_gen s) (s_lift s) (s_race s) (s_jobs s))
  | st_lift s key sp : Forall span_wf sp -> (forall p, unit_page sp p -> tg_tracked (s_tags s) p) ->
      smc_step s (mkSmc (s_cache s) (s_tags s) (s_notes s) (s_flight s) (s_gen s) (s_lift s) (s_race s)
        (JLift key sp (s_gen s) :: s_jobs s))
  | st_insert s key block sp lifted jobs1 jobs2 c t : s_jobs s = jobs1 ++ JLift key sp lifted :: jobs2 ->
      insert_unit (s_cache s) (s_tags s) key block sp mark_spans = (c, t) ->
      smc_step s (mkSmc c t (s_notes s) (s_flight s) (s_gen s) (put (s_lift s) key lifted) (put (s_race s) key (missed s lifted))
        (rekey key sp <$> (jobs1 ++ jobs2)))
  | st_epoch s :
      smc_step s (mkSmc (s_cache s) (s_tags s) (s_notes s) (s_flight s) (s_gen s) (s_lift s) (s_race s)
        (JEpoch (epoch (s_cache s)) :: s_jobs s))
  | st_get s e key b sp c jobs1 jobs2 : s_jobs s = jobs1 ++ JEpoch e :: jobs2 ->
      get (s_cache s) key = (Some b, c) -> cspans (s_cache s) !! key = Some sp ->
      smc_step s (mkSmc c (s_tags s) (s_notes s) (s_flight s) (s_gen s) (s_lift s) (s_race s)
        (jobs1 ++ JUnit e key sp (s_lift s key) (s_race s key) :: jobs2))
  | st_region s e key sp jobs1 jobs2 : s_jobs s = jobs1 ++ JEpoch e :: jobs2 -> Forall span_wf sp ->
      (forall p, unit_page sp p -> tg_tracked (s_tags s) p) ->
      smc_step s (mkSmc (s_cache s) (s_tags s) (s_notes s) (s_flight s) (s_gen s) (s_lift s) (s_race s)
        (jobs1 ++ JUnit e key sp (s_gen s) (fun _ => true) :: jobs2))
  | st_publish s e key sp lifted open block jobs1 jobs2 c t : s_jobs s = jobs1 ++ JUnit e key sp lifted open :: jobs2 ->
      upgrade_region (s_cache s) (s_tags s) key block sp e mark_spans = (true, c, t) ->
      smc_step s (mkSmc c t (s_notes s) (s_flight s) (s_gen s) (put (s_lift s) key lifted)
        (put (s_race s) key (fun p => open p && missed s lifted p)) (rekey key sp <$> (jobs1 ++ jobs2)))
  | st_upgrade s e key span lifted open block jobs1 jobs2 c : s_jobs s = jobs1 ++ JUnit e key [span] lifted open :: jobs2 ->
      upgrade (s_cache s) key block span e = (true, c) ->
      smc_step s (mkSmc c (s_tags s) (s_notes s) (s_flight s) (s_gen s) (put (s_lift s) key lifted)
        (put (s_race s) key open) (rekey key [span] <$> (jobs1 ++ jobs2)))
  | st_reject s e key sp lifted open block jobs1 jobs2 c t : s_jobs s = jobs1 ++ JUnit e key sp lifted open :: jobs2 ->
      upgrade_region (s_cache s) (s_tags s) key block sp e mark_spans = (false, c, t) ->
      smc_step s (mkSmc c t (s_notes s) (s_flight s) (s_gen s) (s_lift s) (s_race s) (jobs1 ++ jobs2))
  | st_drain s l t : tg_take (s_tags s) = (l, t) ->
      smc_step s (mkSmc (s_cache s) t (s_notes s) (s_flight s ++ l) (s_gen s) (s_lift s) (s_race s) (s_jobs s))
  | st_invalidate s p f1 f2 vs c t : s_flight s = f1 ++ p :: f2 -> 0 <= p -> epoch (s_cache s) + 1 < 2 ^ 64 ->
      smc_page (s_cache s) (s_tags s) p = (vs, c, t) ->
      smc_step s (mkSmc c t (s_notes s) (f1 ++ f2) (s_gen s) (s_lift s) (s_race s) (s_jobs s)).

Section Coherence.
Context {T : Type} `{CodeTagLaws T}.
Implicit Types s : Smc T.

Lemma mark_spans_law sp : forall t, tg_ok t -> Forall span_wf sp ->
  tg_ok (mark_spans t sp) /\ tg_dirty (mark_spans t sp) = tg_dirty t /\
  (forall q, tg_tracked (mark_spans t sp) q <-> tg_tracked t q) /\
  (forall q, 0 <= q -> tg_code t q = true -> tg_code (mark_spans t sp) q = true) /\
  (forall q, 0 <= q -> unit_page sp q -> tg_tracked t q -> tg_code (mark_spans t sp) q = true).
Proof.
  induction sp as [|s sp IH]; intros t Ht Hsp; cbn [mark_spans foldl].
  - split; [done|]. split; [done|]. split; [done|]. split; [done|]. intros q _ Hq. by apply Exists_nil in Hq.
  - apply list.Forall_cons in Hsp as [Hs Hsp]. destruct (mark_law t s.1 s.2 Ht (proj1 Hs)) as (M1 & M2 & M3 & M4).
    destruct (IH (tg_mark t s.1 s.2) M1 Hsp) as (I1 & I2 & I3 & I4 & I5). fold (mark_spans (tg_mark t s.1 s.2) sp).
    split; [done|]. split; [congruence|]. split; [intros q; by rewrite I3|].
    split; [intros q Hq Hc; apply I4; [done|]; apply M4; [done|by left]|].
    intros q Hq Hp Ht'. apply Exists_cons in Hp as [Hp|Hp]; [apply I4; [done|]; apply M4; [done|by right]|].
    apply I5; [done|done|]. by apply M3.
Qed.

(** A page of a unit is current, or its invalidation is on the way. *)
Definition page_status (s : Smc T) (lifted : Z -> Z) (p : Z) : Prop := lifted p = s_gen s p \/ pending s p.

Definition all_tracked (s : Smc T) (sp : list Span) : Prop := forall p, unit_page sp p -> tg_tracked (s_tags s) p.

(** The pages that are not [open] are tagged, and current or on the way out. *)
Definition pages_ok (s : Smc T) (sp : list Span) (lifted : Z -> Z) (open : Z -> bool) : Prop :=
  forall p, unit_page sp p -> open p = true \/ (tg_code (s_tags s) p = true /\ page_status s lifted p).

Definition job_ok (s : Smc T) (j : Job) : Prop :=
  match j with
  | JEpoch e => e <= epoch (s_cache s)
  | JLift key sp lifted => Forall span_wf sp /\ all_tracked s sp
  | JUnit e key sp lifted open =>
      e <= epoch (s_cache s) /\ Forall span_wf sp /\ all_tracked s sp /\
      (e = epoch (s_cache s) -> (forall p, open p = true) \/ (cspans (s_cache s) !! key = Some sp /\ pages_ok s sp lifted open))
  end.

Record smc_inv (s : Smc T) : Prop := {
  inv_tags : tg_ok (s_tags s);
  inv_epoch : 0 <= epoch (s_cache s);
  inv_units : forall k sp, cspans (s_cache s) !! k = Some sp ->
    Forall span_wf sp /\ all_tracked s sp /\ pages_ok s sp (s_lift s k) (s_race s k);
  inv_jobs : Forall (job_ok s) (s_jobs s);
}.

Lemma unit_page_nonneg sp p : Forall span_wf sp -> unit_page sp p -> 0 <= p.
Proof.
  intros Hs Hp. apply list.Exists_exists in Hp as (s & Hin & Hp). rewrite list.Forall_forall in Hs.
  eapply code_page_range_nonneg; [|exact Hp]. by apply (Hs s).
Qed.

(** A step that keeps the tags and what is on the way, of every page but [out]. *)
Record keeps (out : Z -> Prop) (s s' : Smc T) : Prop := {
  ke_tracked : forall p, tg_tracked (s_tags s) p -> tg_tracked (s_tags s') p;
  ke_code : forall p, 0 <= p -> ~ out p -> tg_code (s_tags s) p = true -> tg_code (s_tags s') p = true;
  ke_status : forall l p, 0 <= p -> ~ out p -> tg_code (s_tags s) p = true -> page_status s l p -> page_status s' l p;
}.
Definition nowhere (_ : Z) : Prop := False.

Lemma keeps_pages out s s' sp l o : keeps out s s' -> Forall span_wf sp -> (forall p, out p -> ~ unit_page sp p) -> pages_ok s sp l o -> pages_ok s' sp l o.
Proof.
  intros [_ Kc Ks] Hsp Ho Hp p Hup. pose proof (unit_page_nonneg sp p Hsp Hup). destruct (Hp p Hup) as [?|[Hc Hs]]; [by left|right].
  assert (~ out p) by (intros Hx; by apply (Ho p)). split; [by apply Kc|by apply Ks].
Qed.
Lemma keeps_tracked out s s' sp : keeps out s s' -> all_tracked s sp -> all_tracked s' sp.
Proof. intros K Ht p Hp. by apply (ke_tracked _ _ _ K), Ht. Qed.

(** The units and the epoch stay. *)
Lemma inv_keeps s s' : smc_inv s -> tg_ok (s_tags s') -> cspans (s_cache s') = cspans (s_cache s) ->
  epoch (s_cache s') = epoch (s_cache s) -> s_lift s' = s_lift s -> s_race s' = s_race s -> keeps nowhere s s' ->
  Forall (job_ok s) (s_jobs s') -> smc_inv s'.
Proof.
  intros [H1 H2 H4 _] Ht E2 E3 E4 E5 K Hj.
  assert (Hpk : forall sp l o, Forall span_wf sp -> pages_ok s sp l o -> pages_ok s' sp l o) by (intros; by eapply keeps_pages).
  split; rewrite ?E2, ?E3, ?E4, ?E5; try done.
  - intros k sp Hk. destruct (H4 k sp Hk) as (A & B & C). split; [done|]. split; [by eapply keeps_tracked|by apply Hpk].
  - eapply list.Forall_impl; [exact Hj|]. intros [e|k sp l|e k sp l o]; cbn [job_ok]; rewrite ?E2, ?E3; [done|..].
    + intros []. split; [done|by eapply keeps_tracked].
    + intros (A & B & C & D). split; [done|]. split; [done|]. split; [by eapply keeps_tracked|]. intros E.
      destruct (D E) as [?|[F G]]; [by left|right]. auto.
Qed.

(** The unit of one key is replaced. *)
Lemma inv_replace s s' key sp lifted race jobs : smc_inv s -> tg_ok (s_tags s') -> cspans (s_cache s') = <[key := sp]> (cspans (s_cache s)) ->
  epoch (s_cache s') = epoch (s_cache s) -> s_lift s' = put (s_lift s) key lifted -> s_race s' = put (s_race s) key race ->
  keeps nowhere s s' -> Forall span_wf sp -> all_tracked s sp -> pages_ok s' sp lifted race ->
  s_jobs s' = rekey key sp <$> jobs -> Forall (job_ok s) jobs -> smc_inv s'.
Proof.
  intros [H1 H2 H4 _] Ht E2 E3 E4 E5 K Hsp Htr Hok Ej Hj.
  assert (Hpk : forall sp l o, Forall span_wf sp -> pages_ok s sp l o -> pages_ok s' sp l o) by (intros; by eapply keeps_pages).
  split; rewrite ?E2, ?E3, ?E4, ?E5; try done.
  - intros k sp'. unfold put. destruct (decide (k = key)) as [->|Hne].
    + rewrite lookup_insert_eq. intros [= <-]. split; [done|]. split; [by eapply keeps_tracked|done].
    + rewrite lookup_insert_ne by done. intros Hk. destruct (H4 k sp' Hk) as (A & B & C). split; [done|]. split; [by eapply keeps_tracked|by apply Hpk].
  - rewrite Ej. apply list.Forall_fmap. eapply list.Forall_impl; [exact Hj|]. intros [e|k sp' l|e k sp' l o]; cbn [compose rekey job_ok]; rewrite ?E3; [done|..].
    + intros []. split; [done|by eapply keeps_tracked].
    + intros (A & B & C & D). case_decide as Hk; cbn [job_ok]; rewrite ?E2, ?E3; (split; [done|]; split; [done|]; split; [by eapply keeps_tracked|]).
      * intros _. by left.
      * intros E. destruct (D E) as [?|[F G]]; [by left|right]. split; [|by apply Hpk].
        destruct (decide (k = key)) as [->|]; [|by rewrite lookup_insert_ne]. rewrite lookup_insert_eq. f_equal.
        destruct (decide (sp' = sp)); [done|]. exfalso. by apply Hk.
Qed.

Lemma status_put s l p : missed s l p = false -> page_status s l p.
Proof.
  unfold missed, page_status. intros Hm. destruct (Z.eqb_spec (l p) (s_gen s p)); [by left|right]. cbn [negb andb] in Hm.
  apply negb_false_iff in Hm. by apply bool_decide_eq_true in Hm.
Qed.

(** Marking tags pages and nothing else. *)
Lemma keeps_marked s c t sp lift race jobs : smc_inv s -> Forall span_wf sp -> t = mark_spans (s_tags s) sp ->
  let s' := mkSmc c t (s_notes s) (s_flight s) (s_gen s) lift race jobs in
  tg_ok t /\ keeps nowhere s s' /\ (forall p, unit_page sp p -> tg_tracked (s_tags s) p -> tg_code t p = true) /\
  (forall l p, page_status s l p -> page_status s' l p).
Proof.
  intros Hi Hsp -> s'. destruct (mark_spans_law sp (s_tags s) (inv_tags _ Hi) Hsp) as (M1 & M2 & M3 & M4 & M5).
  assert (Hst : forall l p, page_status s l p -> page_status s' l p).
  { intros l p. unfold page_status, pending. cbn [s' s_gen s_tags s_flight s_notes]. by rewrite M2. }
  split; [done|]. split; [split; cbn [s' s_tags]; intros; [by apply M3|by apply M4|by apply Hst]|]. split; [|done].
  intros p Hp Ht. apply M5; [by eapply unit_page_nonneg|done|done].
Qed.

Lemma job_split s jobs1 j jobs2 : smc_inv s -> s_jobs s = jobs1 ++ j :: jobs2 ->
  job_ok s j /\ Forall (job_ok s) (jobs1 ++ jobs2).
Proof.
  intros Hi E. pose proof (inv_jobs _ Hi) as Hj. rewrite E in Hj. apply Forall_app in Hj as [Hj1 Hj2].
  apply list.Forall_cons in Hj2 as [Hj Hj2]. split; [done|]. by apply Forall_app.
Qed.
Lemma job_put s j jobs1 jobs2 : Forall (job_ok s) (jobs1 ++ jobs2) -> job_ok s j -> Forall (job_ok s) (jobs1 ++ j :: jobs2).
Proof. intros [H1 H2]%Forall_app Hj. apply Forall_app. split; [done|]. by apply list.Forall_cons. Qed.

Lemma inv_store s a n : smc_inv s ->
  smc_inv (mkSmc (s_cache s) (s_tags s) ((a, n) :: s_notes s) (s_flight s)
    (fun p => if decide (p ∈ code_page_range a n) then s_gen s p + 1 else s_gen s p) (s_lift s) (s_race s) (s_jobs s)).
Proof.
  intros Hi. apply (inv_keeps s); try done; [apply Hi| |apply Hi]. split; [done|done|]. intros l p _ _ Hc. unfold page_status, pending.
  cbn [s_gen s_tags s_flight s_notes]. rewrite Exists_cons. case_decide; [right; by left; left|]. tauto.
Qed.

Lemma inv_note s a n n1 n2 : s_notes s = n1 ++ (a, n) :: n2 -> 0 <= a -> smc_inv s ->
  smc_inv (mkSmc (s_cache s) (tg_write (s_tags s) a n) (n1 ++ n2) (s_flight s) (s_gen s) (s_lift s) (s_race s) (s_jobs s)).
Proof.
  intros En Ha Hi. destruct (write_law (s_tags s) a n (inv_tags _ Hi) Ha) as (W1 & W2 & W3 & W4).
  apply (inv_keeps s); try done; [|apply Hi]. split; cbn [s_tags]; [intros p; by apply W2|intros p; by rewrite W3|].
  intros l p _ _ Hc. unfold page_status, pending. cbn [s_gen s_tags s_flight s_notes]. rewrite En, W4, !Exists_app, Exists_cons. cbn [fst snd]. tauto.
Qed.

Lemma inv_insert s key block sp lifted jobs1 jobs2 c t : s_jobs s = jobs1 ++ JLift key sp lifted :: jobs2 ->
  insert_unit (s_cache s) (s_tags s) key block sp mark_spans = (c, t) -> smc_inv s ->
  smc_inv (mkSmc c t (s_notes s) (s_flight s) (s_gen s) (put (s_lift s) key lifted) (put (s_race s) key (missed s lifted))
    (rekey key sp <$> (jobs1 ++ jobs2))).
Proof.
  intros Ej E Hi. destruct (job_split s jobs1 _ jobs2 Hi Ej) as [[Hsp Htr] Hj]. injection E as <- <-.
  destruct (keeps_marked s (set_units (s_cache s) (<[key := block]> (cmap (s_cache s))) (<[key := sp]> (cspans (s_cache s)))) _ sp
    (put (s_lift s) key lifted) (put (s_race s) key (missed s lifted)) (rekey key sp <$> (jobs1 ++ jobs2)) Hi Hsp eq_refl) as (T1 & K & Hc & Hst).
  apply (inv_replace s _ key sp lifted (missed s lifted) (jobs1 ++ jobs2)); try done.
  intros p Hp. destruct (missed s lifted p) eqn:Em; [by left|right]. split; [apply Hc; auto|by apply Hst, status_put].
Qed.

Lemma inv_publish s e key sp lifted open block jobs1 jobs2 c t : s_jobs s = jobs1 ++ JUnit e key sp lifted open :: jobs2 ->
  upgrade_region (s_cache s) (s_tags s) key block sp e mark_spans = (true, c, t) -> smc_inv s ->
  smc_inv (mkSmc c t (s_notes s) (s_flight s) (s_gen s) (put (s_lift s) key lifted)
    (put (s_race s) key (fun p => open p && missed s lifted p)) (rekey key sp <$> (jobs1 ++ jobs2))).
Proof.
  intros Ej E Hi. destruct (job_split s jobs1 _ jobs2 Hi Ej) as [(He & Hsp & Htr & Hun) Hj]. unfold upgrade_region in E.
  destruct (Z.eqb_spec (epoch (s_cache s)) e) as [Ee|]; [|done]. cbn [negb] in E. injection E as <- <-.
  match goal with |- smc_inv (mkSmc ?c _ _ _ _ ?l ?r ?j) => destruct (keeps_marked s c _ sp l r j Hi Hsp eq_refl) as (T1 & K & Hc & Hst) end.
  apply (inv_replace s _ key sp lifted (fun p => open p && missed s lifted p) (jobs1 ++ jobs2)); try done.
  intros p Hp. destruct (open p) eqn:Eo; cbn [andb].
  - destruct (missed s lifted p) eqn:Em; [by left|right]. split; [apply Hc; auto|by apply Hst, status_put].
  - right. split; [apply Hc; auto|]. apply Hst. destruct (Hun (eq_sym Ee)) as [Ha|[_ Hok]]; [by rewrite Ha in Eo|].
    destruct (Hok p Hp) as [|[_ ?]]; [congruence|done].
Qed.

Lemma inv_upgrade s e key span lifted open block jobs1 jobs2 c : s_jobs s = jobs1 ++ JUnit e key [span] lifted open :: jobs2 ->
  upgrade (s_cache s) key block span e = (true, c) -> smc_inv s ->
  smc_inv (mkSmc c (s_tags s) (s_notes s) (s_flight s) (s_gen s) (put (s_lift s) key lifted)
    (put (s_race s) key open) (rekey key [span] <$> (jobs1 ++ jobs2))).
Proof.
  intros Ej E Hi. destruct (job_split s jobs1 _ jobs2 Hi Ej) as [(He & Hsp & Htr & Hun) Hj]. unfold upgrade, upgrade_region in E.
  destruct (Z.eqb_spec (epoch (s_cache s)) e) as [Ee|]; [|done]. cbn [negb] in E. injection E as <-.
  apply (inv_replace s _ key [span] lifted open (jobs1 ++ jobs2)); try done; [apply Hi|].
  intros p Hp. destruct (Hun (eq_sym Ee)) as [Ha|[_ Hok]]; [left; apply Ha|]. by destruct (Hok p Hp) as [|[]]; [left|right].
Qed.

Lemma inv_drain s l t : tg_take (s_tags s) = (l, t) -> smc_inv s ->
  smc_inv (mkSmc (s_cache s) t (s_notes s) (s_flight s ++ l) (s_gen s) (s_lift s) (s_race s) (s_jobs s)).
Proof.
  intros E Hi. destruct (take_law (s_tags s) (inv_tags _ Hi)) as (T1 & T2 & T3 & T4 & T5). rewrite E in *. cbn [fst snd] in *.
  apply (inv_keeps s); try done; [|apply Hi]. split; cbn [s_tags]; [intros p; by apply T4|intros p; by rewrite T5|].
  intros l' p _ _ _. unfold page_status, pending. cbn [s_gen s_tags s_flight s_notes]. rewrite <- T3, elem_of_app. tauto.
Qed.

(** Draining a page keeps every unit that does not lie on it. *)
Lemma inv_invalidate s p f1 f2 vs c t : s_flight s = f1 ++ p :: f2 -> 0 <= p -> epoch (s_cache s) + 1 < 2 ^ 64 ->
  smc_page (s_cache s) (s_tags s) p = (vs, c, t) -> smc_inv s ->
  smc_inv (mkSmc c t (s_notes s) (f1 ++ f2) (s_gen s) (s_lift s) (s_race s) (s_jobs s)).
Proof.
  intros Ef Hp He E [H1 H2 H4 H5]. unfold smc_page, invalidate_overlapping in E.
  set (lo := Z.shiftl p CODE_PAGE_BITS) in E. set (hi := lo + _) in E.
  destruct (drop_all_spec (victims (s_cache s) lo hi) (s_cache s)) as (_ & D2 & _ & _ & D5 & _).
  set (vs' := victims (s_cache s) lo hi) in *. set (c0 := foldl drop_unit (s_cache s) vs') in *. injection E as <- <- <-.
  destruct (clear_law (s_tags s) p H1 Hp) as (C1 & C2 & C3 & C4).
  set (c1 := match vs' with [] => c0 | _ => set_epoch c0 _ end). set (s' := mkSmc _ _ _ _ _ _ _ _).
  assert (Es : cspans c1 = cspans c0) by (unfold c1; by destruct vs').
  assert (Hee : epoch (s_cache s) <= epoch c1 /\ (epoch c1 = epoch (s_cache s) -> vs' = [])).
  { unfold c1. destruct vs'; [rewrite D5; split; [lia|done]|]. cbn [epoch set_epoch]. rewrite D5.
    rewrite wrap_small by (unfold in_width; lia). split; lia. }
  assert (K : keeps (fun q => q = p) s s').
  { split; cbn [s' s_tags]; [intros q; by apply C3|intros q Hq Hn Hc; rewrite C4, Hc by done; by destruct (Z.eqb_spec q p)|].
    intros l q Hq Hn Hc. unfold page_status, pending. cbn [s' s_gen s_tags s_flight s_notes]. rewrite C2, Ef, !elem_of_app, elem_of_cons. tauto. }
  assert (Hvic : forall k sp, cspans (s_cache s) !! k = Some sp -> Forall span_wf sp -> unit_page sp p -> k ∈ vs').
  { intros k sp Hk Hw Hup. apply victims_spec. exists sp. split; [done|]. apply existsb_exists.
    apply list.Exists_exists in Hup as (x & Hx & Hpx). exists x. split; [by apply list_elem_of_In|].
    rewrite list.Forall_forall in Hw. by apply page_overlap; [apply Hw|]. }
  assert (Hpk : forall k sp l o, cspans (s_cache s) !! k = Some sp -> k ∉ vs' -> Forall span_wf sp -> pages_ok s sp l o -> pages_ok s' sp l o).
  { intros k sp l o Hk Hv Hw Hok. eapply keeps_pages; [exact K|done| |done]. intros q -> Hup. by apply Hv, (Hvic k sp). }
  split; cbn [s' s_cache s_tags s_lift s_race s_jobs]; try done.
  - lia.
  - intros k sp. rewrite Es, D2. case_decide as Hv; [done|]. intros Hk. destruct (H4 k sp Hk) as (Hw & Htr & Hok).
    split; [done|]. split; [by eapply keeps_tracked|by eapply Hpk].
  - eapply list.Forall_impl; [exact H5|]. intros [e|k sp l|e k sp l o]; cbn [job_ok s' s_cache]; [lia|..].
    + intros []. split; [done|by eapply keeps_tracked].
    + intros (A & B & C & D). split; [lia|]. split; [done|]. split; [by eapply keeps_tracked|]. intros Ee.
      assert (vs' = []) as Hnil by (apply Hee; lia). destruct (D ltac:(lia)) as [?|[F G]]; [by left|right].
      rewrite Es, D2, Hnil, decide_False by apply not_elem_of_nil. split; [done|]. eapply Hpk; [exact F|rewrite Hnil; apply not_elem_of_nil|done|done].
Qed.

Lemma inv_get s e key b sp c jobs1 jobs2 : s_jobs s = jobs1 ++ JEpoch e :: jobs2 ->
  get (s_cache s) key = (Some b, c) -> cspans (s_cache s) !! key = Some sp -> smc_inv s ->
  smc_inv (mkSmc c (s_tags s) (s_notes s) (s_flight s) (s_gen s) (s_lift s) (s_race s)
    (jobs1 ++ JUnit e key sp (s_lift s key) (s_race s key) :: jobs2)).
Proof.
  intros Ej Eg Ek Hi. destruct (job_split s jobs1 _ jobs2 Hi Ej) as [He Hj]. cbn [job_ok] in He.
  unfold get in Eg. destruct (cmap (s_cache s) !! key); [|done]. injection Eg as _ <-.
  destruct (inv_units _ Hi key sp Ek) as (Hw & Htr & Hok).
  apply (inv_keeps s); try done; [apply Hi|]. apply job_put; [done|]. split; [done|]. split; [done|]. split; [done|]. by right.
Qed.

Lemma smc_step_inv s s' : smc_step s s' -> smc_inv s -> smc_inv s'.
Proof.
  intros Hst Hi. destruct Hst as [| |s key sp Hsp Htr| | | |s e key sp jobs1 jobs2 Ej Hsp Htr| | |s e key sp lifted open block jobs1 jobs2 c t Ej E| |].
  - by apply inv_store.
  - by eapply inv_note.
  - apply (inv_keeps s); try done; [apply Hi|]. apply list.Forall_cons. split; [done|apply Hi].
  - by eapply inv_insert.
  - apply (inv_keeps s); try done; [apply Hi|]. apply list.Forall_cons. split; [cbn; lia|apply Hi].
  - by eapply inv_get.
  - destruct (job_split s jobs1 _ jobs2 Hi Ej) as [He Hj]. apply (inv_keeps s); try done; [apply Hi|].
    apply job_put; [done|]. split; [done|]. split; [done|]. split; [done|]. by left.
  - by eapply inv_publish.
  - by eapply inv_upgrade.
  - destruct (job_split s jobs1 _ jobs2 Hi Ej) as [_ Hj]. unfold upgrade_region in E. destruct (negb _); [|done]. injection E as <- <-.
    apply (inv_keeps s); try done; apply Hi.
  - by eapply inv_drain.
  - by eapply inv_invalidate.
Qed.

(** The start: an empty cache over well-formed tags. *)
Definition smc_init (t : T) (g : Z -> Z) : Smc T := mkSmc new_cache t [] [] g (fun _ => g) (fun _ _ => false) [].

Lemma smc_init_inv t g : tg_ok t -> smc_inv (smc_init t g).
Proof.
  intros Ht. split; cbn; try done.
Qed.

Lemma smc_reach_inv s s' : rtc smc_step s s' -> smc_inv s -> smc_inv s'.
Proof. induction 1; [done|]. intros Hi. apply IHrtc. by eapply smc_step_inv. Qed.
End Coherence.

(** ** Theorems *)

(** An invalidation drops exactly the units one of whose spans overlaps the written
    range, in every decode mode, together with their spans, hotness counters and
    in-flight tier-up markers; all other units stay, and the epoch moves exactly when
    something was dropped. *)
Theorem invalidate_exact {T} (c : TranslationCache) (t : T) (lo hi : Z) (on_clear : T -> T) :
  let '(vs, c', t') := invalidate_overlapping c t lo hi on_clear in
  (forall k, k ∈ vs <-> exists sp, cspans c !! k = Some sp /\ Exists (fun s => overlaps lo hi s = true) sp) /\
  (forall k, k ∈ vs -> (get c' k).1 = None /\ cspans c' !! k = None /\ hotness c' !! k = None /\ k ∉ tier_pending c') /\
  (forall k, k ∉ vs -> (get c' k).1 = (get c k).1 /\ cspans c' !! k = cspans c !! k /\
     hotness c' !! k = hotness c !! k /\ (k ∈ tier_pending c' <-> k ∈ tier_pending c)) /\
  epoch c' = (match vs with [] => epoch c | _ => wrap 64 (epoch c + 1) end) /\ t' = on_clear t.
Proof.
  unfold invalidate_overlapping. set (vs := victims c lo hi). destruct (drop_all_spec vs c) as (D1 & D2 & D3 & D4 & D5 & _).
  set (c0 := foldl drop_unit c vs) in *. set (c' := match vs with [] => c0 | _ => set_epoch c0 _ end).
  assert (Ec : cmap c' = cmap c0 /\ cspans c' = cspans c0 /\ hotness c' = hotness c0 /\ tier_pending c' = tier_pending c0)
    by (unfold c'; by destruct vs). destruct Ec as (E1 & E2 & E3 & E4).
  split; [|split; [|split; [|split; [|done]]]].
  - intros k. unfold vs. rewrite victims_spec. split; intros (sp & H1 & H2); exists sp; (split; [done|]).
    + apply existsb_exists in H2 as (x & Hx & Ho). apply list.Exists_exists. exists x. split; [by apply list_elem_of_In|done].
    + apply existsb_exists. apply list.Exists_exists in H2 as (x & Hx & Ho). exists x. split; [by apply list_elem_of_In|done].
  - intros k Hk. cbn [get fst]. rewrite E1, E2, E3, E4, D1, D2, D3, D4, !decide_True by done.
    split; [done|]. split; [done|]. split; [done|]. tauto.
  - intros k Hk. cbn [get fst]. rewrite E1, E2, E3, E4, D1, D2, D3, D4, !decide_False by done.
    split; [done|]. split; [done|]. split; [done|]. tauto.
  - unfold c'. destruct vs; [done|]. cbn [epoch set_epoch]. by rewrite D5.
Qed.


(** A block at 0x100 is cached, then page 2 is written. *)
Definition ex_key : BlockKey := mkKey 0x100 Long64.
Definition ex_lifted : Smc Memory := mkSmc new_cache ex_mem [] [] (fun _ => 0) (fun _ _ => 0) (fun _ _ => false) [JLift ex_key [(0x100, 4)] (fun _ => 0)].
Definition ex_cached : Smc Memory :=
  let '(c, t) := insert_unit new_cache ex_mem ex_key (Compiled 0) [(0x100, 4)] mark_spans in
  mkSmc c t [] [] (fun _ => 0) (put (fun _ _ => 0) ex_key (fun _ => 0)) (put (fun _ _ => false) ex_key (missed ex_lifted (fun _ => 0))) [].
Definition ex_stored : Smc Memory :=
  mkSmc (s_cache ex_cached) (s_tags ex_cached) [(0x2000, 4)] [] (fun p => if decide (p ∈ code_page_range 0x2000 4) then 0 + 1 else 0)
    (s_lift ex_cached) (s_race ex_cached) [].
Definition ex_written : Smc Memory :=
  mkSmc (s_cache ex_stored) (tg_write (s_tags ex_stored) 0x2000 4) [] [] (s_gen ex_stored) (s_lift ex_stored) (s_race ex_stored) [].

Lemma ex_mem_tags : mem_tags_ok ex_mem.
Proof. split; [apply ex_mem_smc|vm_compute; reflexivity|]. by vm_compute. Qed.

Lemma ex_unit_page p : unit_page [(0x100, 4)] p -> p = 0.
Proof.
  intros Hp. apply Exists_cons in Hp as [Hp|Hp]; [|by apply Exists_nil in Hp].
  change (code_page_range (0x100, 4).1 (0x100, 4).2) with [0] in Hp. by apply list_elem_of_singleton in Hp.
Qed.

Lemma ex_steps : rtc smc_step (smc_init ex_mem (fun _ => 0)) ex_written.
Proof.
  apply (rtc_l _ _ ex_lifted); [|apply (rtc_l _ _ ex_cached); [|apply (rtc_l _ _ ex_stored); [|apply rtc_once]]].
  - apply (st_lift (smc_init ex_mem (fun _ => 0)) ex_key [(0x100, 4)]); [repeat constructor; cbn; lia|].
    intros p ->%ex_unit_page. vm_compute. intuition congruence.
  - by apply (st_insert ex_lifted ex_key (Compiled 0) [(0x100, 4)] (fun _ => 0) [] []).
  - apply (st_store ex_cached 0x2000 4). lia.
  - by apply (st_note ex_stored 0x2000 4 [] []).
Qed.


(** C37: a stale tier-up is never published: when an invalidation dropped a unit after the
    epoch was snapshotted, publishing through [upgrade], [upgrade_region] or [publish_if_current]
    fails and leaves the cache, the page tags and the slot as they were. *)
Theorem stale_publish_rejected {T} (c : TranslationCache) (t : T) (lo hi : Z) (clear : T -> T) (key : BlockKey)
    (block : CachedBlock) (sp : list Span) (span : Span) (mark : T -> list Span -> T) (publish : T -> T) :
  0 <= epoch c -> epoch c + 1 < 2 ^ 64 ->
  let '(vs, c', t') := invalidate_overlapping c t lo hi clear in
  vs <> [] ->
  upgrade_region c' t' key block sp (epoch c) mark = (false, c', t') /\
  upgrade c' key block span (epoch c) = (false, c') /\ publish_if_current c' t' (epoch c) publish = (false, t').
Proof.
  intros H0 H1. unfold invalidate_overlapping. set (vs := victims c lo hi).
  destruct (drop_all_spec vs c) as (_ & _ & _ & _ & D5 & _). set (c0 := foldl drop_unit c vs) in *. clearbody c0.
  intros Hv. destruct vs as [|v vs]; [done|]. unfold upgrade, upgrade_region, publish_if_current.
  cbn [epoch set_epoch]. rewrite D5, wrap_small by (unfold in_width; lia).
  destruct (Z.eqb_spec (epoch c + 1) (epoch c)); [lia|done].
Qed.

Lemma stale_publish_rejected_witness :
  let '(vs, c', t') := invalidate_overlapping (s_cache ex_cached) tt 0 4096 id in
  upgrade c' ex_key (Compiled 1) (0x100, 4) 0 = (false, c').
Proof.
  pose proof (stale_publish_rejected (s_cache ex_cached) tt 0 4096 id ex_key (Compiled 1) [] (0x100, 4) (fun t _ => t) id
    ltac:(vm_compute; discriminate) ltac:(vm_compute; reflexivity)) as H.
  destruct (invalidate_overlapping (s_cache ex_cached) tt 0 4096 id) as [[vs c'] t'] eqn:E.
  assert (Hv : vs = [ex_key]) by (pose proof (f_equal (fun x => x.1.1) E) as E1; vm_compute in E1; by rewrite <- E1).
  destruct (H ltac:(by rewrite Hv)) as (_ & H2 & _). exact H2.
Defined.

(** A write between a block's translation and its insertion is lost: on a page that is
    not tagged yet it queues nothing, so the translation of the old bytes is cached with
    its page tagged and no invalidation pending, as if the write had not happened. *)
Theorem lift_insert_race (c : TranslationCache) (m : Memory) (a n : Z) (key : BlockKey) (block : CachedBlock) (sp : list Span) :
  mem_tags_ok m -> 0 <= a -> dirty m = [] -> Forall span_wf sp ->
  (forall p, p ∈ code_page_range a n -> is_code_page m p = false) ->
  let '(c', m') := insert_unit c (note_write m a n) key block sp mark_spans in
  (get c' key).1 = Some block /\ (tg_take m').1 = [] /\
  (forall p, unit_page sp p -> in_table (code_page m) p -> is_code_page m' p = true).
Proof.
  intros Hm Ha Hd Hsp Hn. unfold insert_unit. destruct (write_law (CodeTagLaws := memory_tag_laws) m a n Hm Ha) as (W1 & W2 & W3 & W4).
  destruct (mark_spans_law (H0 := memory_tag_laws) sp (note_write m a n) W1 Hsp) as (M1 & M2 & _ & _ & M5).
  cbn [tg_write memory_tags] in *. split; [cbn; by rewrite lookup_insert_eq|]. split.
  - destruct (take_law _ M1) as (_ & _ & -> & _). rewrite M2. cbn [tg_dirty memory_tags].
    destruct (dirty (note_write m a n)) as [|x l] eqn:E; [done|]. exfalso.
    assert (Hx : x ∈ dirty (note_write m a n)) by (rewrite E; by left). apply W4 in Hx as [Hx|[Hx1 Hx2]].
    + cbn [tg_dirty memory_tags] in Hx. rewrite Hd in Hx. by apply elem_of_nil in Hx.
    + cbn [tg_code memory_tags] in Hx2. rewrite Hn in Hx2; done.
  - intros p Hp Hi. apply M5; [by eapply unit_page_nonneg|done|]. by apply W2.
Qed.

Lemma lift_insert_race_witness :
  let '(c', m') := insert_unit new_cache (note_write ex_mem 0x102 1) ex_key (Compiled 0) [(0x100, 4)] mark_spans in
  (get c' ex_key).1 = Some (Compiled 0) /\ (tg_take m').1 = [] /\
  (forall p, unit_page [(0x100, 4)] p -> in_table (code_page ex_mem) p -> is_code_page m' p = true).
Proof.
  apply (lift_insert_race new_cache ex_mem 0x102 1 ex_key (Compiled 0) [(0x100, 4)] ex_mem_tags).
  - lia.
  - reflexivity.
  - repeat constructor; cbn; lia.
  - intros p Hp. change (code_page_range 0x102 1) with [0] in Hp. apply list_elem_of_singleton in Hp. subst p. reflexivity.
Defined.

(** The cached region decision of a dropped unit is kept, so the block translated
    afterwards at the same key is not decided anew. *)
Theorem region_decision_survives {T} (c : TranslationCache) (t : T) (lo hi : Z) (clear : T -> T) (key : BlockKey) :
  let '(vs, c', t') := invalidate_overlapping c t lo hi clear in region_decision c' key = region_decision c key.
Proof.
  unfold invalidate_overlapping. set (vs := victims c lo hi). destruct (drop_all_spec vs c) as (_ & _ & _ & _ & _ & D6).
  unfold region_decision. destruct vs; [by rewrite D6|]. cbn [region_decisions set_epoch]. by rewrite D6.
Qed.
