(* ===== verification/LiftSpec.v ===== *)
(** * What the block lifter guarantees

    Against the class [LifterLaws], which states what the decoder and the lowering of one
    instruction promise: lifting never panics, a lifted block is well formed and lies in the
    region it was fetched from, and the walk over a superblock region ends within its caps. *)

From S2P Require Import Prelude Features State Ir Alu Memory PageTrack Interp IntegerSpec StringOps Control X87 X87Arm VecOp VecTotal Block Frame Walk Lift.

(** ** What is promised of one instruction *)

(** The ops from [a] on: temporaries below [n], and no saved RIP past the address space. *)
Definition ops_ok (n : nat) (a : Z) (l : list IrOp) : Prop := Forall (op_wf n) l /\ traps_fit a l.

(** iced-x86: a decoded instruction is at its address and within the bytes given; at most
    fifteen of them.  The lowering appends ops for that instruction, and names it when it is
    not supported. *)
Class LifterLaws `{L : InsnLifter} : Prop := {
  decode_law bits opt ip code insn err : code <> [] -> decode bits opt ip code = (insn, err) ->
    insn_ip insn = ip /\ 1 <= insn_len insn <= Z.of_nat (length code) /\
    (is_invalid insn = false -> insn_len insn <= 15);
  lift_total_law insn mode ops tg : lift_insn insn mode ops tg <> None;
  lift_insn_law insn mode ops tg t ops' tg' : in_width 64 (insn_ip insn) -> insn_ip insn + 15 < 2 ^ 64 ->
    lift_insn insn mode ops tg = Some (Ok (t, ops', tg')) ->
    (tg <= tg')%nat /\ exists new, ops' = ops ++ new /\ ops_ok tg' (insn_ip insn) new;
  lift_error_law insn mode ops tg e : lift_insn insn mode ops tg = Some (Err e) ->
    e = DecodeFault (insn_ip insn) \/ exists bytes, e = Unsupported (insn_ip insn) bytes (insn_len insn);
}.

(** ** Well-formed ops under the passes *)

Lemma val_ok_mono n n' v : (n <= n')%nat -> val_ok n v -> val_ok n' v.
Proof. destruct v; cbn; [lia|done]. Qed.

#[local] Ltac mono := intros; repeat match goal with H : _ /\ _ |- _ => destruct H end;
  repeat match goal with |- _ /\ _ => split end; try assumption; try (eapply val_ok_mono; eassumption); try lia.
Lemma vop_wf_mono n n' op : (n <= n')%nat -> vop_wf n op -> vop_wf n' op.
Proof. intros Hn. destruct op; cbn [vop_wf]; mono. Qed.
Lemma op_wf_mono n n' op : (n <= n')%nat -> op_wf n op -> op_wf n' op.
Proof. intros Hn. destruct op; cbn [op_wf]; try (by apply vop_wf_mono); try done; mono. Qed.

Lemma traps_fit_app a l l' : traps_fit a (l ++ l') <-> traps_fit a l /\ traps_fit (default a (list.last (insn_starts l))) l'.
Proof.
  revert a. induction l as [|op l IH]; intros a; [cbn; tauto|]. rewrite <- app_comm_cons.
  destruct op; cbn [traps_fit insn_starts]; rewrite IH; try tauto.
  rewrite last_cons. by destruct (list.last (insn_starts l)).
Qed.

Lemma elide_op_wf n op L : op_wf n op -> op_wf n (elide_op op L).1.
Proof. by destruct op. Qed.
Lemma elide_from_ok n l : Forall (op_wf n) l -> Forall (op_wf n) (elide_from l).1.
Proof.
  induction 1 as [|op l Hop Hl IH]; cbn [elide_from]; [by constructor|]. destruct (elide_from l) as [l' L].
  pose proof (elide_op_wf n op L Hop). destruct (elide_op op L). by constructor.
Qed.
Lemma elide_from_traps a l : traps_fit a l -> traps_fit a (elide_from l).1.
Proof.
  revert a. induction l as [|op l IH]; intros a; [done|]. cbn [elide_from]. destruct (elide_from l) as [l' L]. cbn [fst] in *.
  destruct op; cbn [traps_fit elide_op op_set_flags fst]; auto. intros []. auto.
Qed.

(** ** The fetched bytes *)

Definition fetch_ok (at_ : FetchAddr) : Prop := 0 <= ip at_ /\ (ip at_ = pa at_ \/ ip at_ < 2 ^ 16).

Lemma fetch_ok_for mo c : cpu_wf c -> fetch_ok (for_mode mo (rip c) (cs c)).
Proof.
  intros Hc. pose proof (wf_rip c Hc) as [? ?]. unfold fetch_ok, for_mode, fetch_flat, fetch_real16. destruct mo; cbn [pa ip]; [lia..|].
  pose proof (wrap_range 16 (rip c) ltac:(lia)) as [? ?]. lia.
Qed.
Lemma fetch_ok_flat a : 0 <= a -> fetch_ok (fetch_flat a).
Proof. unfold fetch_ok, fetch_flat. cbn. lia. Qed.

Lemma code_slice_ok m a n : mem_wf m -> 0 < n ->
  match code_slice m a n with
  | Some (Ok code) => code <> [] /\ Z.of_nat (length code) <= n /\ 0 <= a /\ a + Z.of_nat (length code) <= model_span (model m) /\
      code = v_byte (view m) <$> zseq a (length code)
  | Some (Err _) => True
  | None => False
  end.
Proof.
  intros Hm Hn. unfold code_slice. destruct (list_find _ _) as [[i r]|] eqn:E; [|exact I].
  apply list_find_Some in E as (Hi & (H1 & H2) & _). apply list_elem_of_lookup_2 in Hi.
  destruct (region_ok_of _ _ _ _ _ Hm Hi) as (R1 & R2 & R3). pose proof (span_bound _ _ _ _ Hm) as Hsp. pose proof (wf_base _ _ _ _ Hm) as Hb.
  pose proof (wf_extent _ _ _ _ Hm) as Hx. pose proof (wf_top _ _ _ _ Hm) as Ht. change MAX_TRACKED_SPAN with 17592186040320 in Ht.
  unfold region_end, wrap in *. rewrite Z.mod_small in * by lia.
  set (e := Z.min (saturating_add 64 a n) (start r + size r)).
  assert (He : a < e <= start r + size r /\ e - a <= n) by (unfold e, saturating_add; lia).
  unfold as_slice_range, host_off, wrapping_sub, wrap. rewrite !Z.mod_small by lia.
  destruct (Z.leb_spec 0 (a - m_guest_base m)); [|lia]. destruct (Z.leb_spec (a - m_guest_base m) (e - m_guest_base m)); [|lia].
  destruct (Z.leb_spec (e - m_guest_base m) (b_len (backing m))); [|lia]. cbn [andb mbind option_bind].
  replace (e - m_guest_base m - (a - m_guest_base m)) with (e - a) by lia.
  assert (Hlen : length (load_bytes (b_bytes (backing m)) (a - m_guest_base m) (Z.to_nat (e - a))) = Z.to_nat (e - a))
    by (unfold load_bytes; by rewrite length_fmap, length_zseq).
  rewrite Hlen. split; [|split; [lia|split; [lia|split; [lia|]]]].
  - intros E0. rewrite E0 in Hlen. cbn in Hlen. lia.
  - unfold load_bytes. apply list_eq. intros k. rewrite !list_lookup_fmap.
    destruct (decide (k < Z.to_nat (e - a))%nat) as [Hk|Hk].
    + rewrite !lookup_zseq by done. cbn. do 2 f_equal. lia.
    + rewrite !(proj2 (lookup_ge_None _ _)) by (rewrite length_zseq; lia). done.
Qed.

(** ** Blocks *)

Section Blocks.
Context `{LifterLaws}.

Lemma ops_ok_app n n' a l l' : (n <= n')%nat -> ops_ok n a l -> ops_ok n' (default a (list.last (insn_starts l))) l' -> ops_ok n' a (l ++ l').
Proof.
  intros Hn [H1 H2] [H3 H4]. split; [apply Forall_app; split; [|done]|by apply traps_fit_app].
  eapply list.Forall_impl; [exact H1|]. intros op. by apply op_wf_mono.
Qed.
Lemma fault_ops_ok n a l insn mo v : in_width 64 (insn_ip insn) -> ops_ok n a l -> ops_ok n a (push_real16_fault insn mo v l).
Proof. intros Hi Hl. apply (ops_ok_app n n); [done|exact Hl|]. split; [|done]. repeat constructor; apply Hi. Qed.

Context (mode : CpuMode) (code : list Z) (start : Z).
Context (Hstart : 0 <= start) (Htop : start + Z.of_nat (length code) + 15 < 2 ^ 64).

(** The bytes consumed, and the ops so far. *)
Definition lift_inv (pos : Z) (st : LiftState) : Prop :=
  0 <= pos <= Z.of_nat (length code) /\ l_len st = pos /\ 0 <= l_icount st <= pos /\ ops_ok (l_tg st) start (l_ops st).

Lemma lift_loop_ok fuel pos st : lift_inv pos st -> Z.of_nat (length code) - pos < Z.of_nat fuel -> 0 < Z.of_nat (length code) ->
  exists r, lift_loop fuel mode code start pos st = Some r /\
    match r with Ok st' => lift_inv (l_len st') st' /\ 0 < l_len st' | Err _ => True end.
Proof.
  revert pos st. induction fuel as [|fuel IH]; intros pos st (Hp & Hl & Hc & Ho) Hf Hne0; [lia|]. cbn [lift_loop].
  destruct (Z.leb_spec (Z.of_nat (length code)) pos) as [Hend|Hlt]; [eexists; split; [done|]; split; [by rewrite Hl|lia]|].
  assert (Hw : wrapping_add 64 start pos = start + pos) by (unfold wrapping_add, wrap; rewrite Z.mod_small by lia; done). rewrite Hw.
  destruct (decode _ _ _ _) as [insn err] eqn:Ed.
  assert (Hne : drop (Z.to_nat pos) code <> []) by (intros E0; apply (f_equal length) in E0; rewrite length_drop in E0; cbn in E0; lia).
  destruct (decode_law _ _ _ _ _ _ Hne Ed) as (Hip & Hlen & Hval). rewrite length_drop in Hlen.
  assert (Hw64 : in_width 64 (insn_ip insn)) by (rewrite Hip; split; lia).
  assert (Hdone : forall ops tg, ops_ok tg start ops -> let st' := mkLift ops tg (l_icount st + 1) (l_len st + insn_len insn) in
    lift_inv (l_len st') st' /\ 0 < l_len st') by (intros ops tg Hops; unfold lift_inv; cbn [l_len l_icount l_ops l_tg]; split_and!; try lia; done).
  destruct (is_invalid insn) eqn:Ei.
  - destruct (Z.ltb_spec 0 (l_len st)) as [Hpos|].
    + destruct (_ && true); [eexists; split; [done|]; split; [by rewrite Hl|done]|].
      unfold emit_real16_ud_if_invalid. destruct err; [by eexists| |by eexists]. destruct (wraps_16 mode); [|by eexists].
      eexists. split; [done|]. apply Hdone. by apply fault_ops_ok.
    + rewrite andb_false_r. unfold emit_real16_ud_if_invalid. destruct err; [by eexists| |by eexists]. destruct (wraps_16 mode); [|by eexists].
      eexists. split; [done|]. apply Hdone. by apply fault_ops_ok.
  - destruct (wraps_16 mode && _).
    { eexists. split; [done|]. apply Hdone. by apply fault_ops_ok. }
    specialize (Hval eq_refl).
    destruct (lift_insn insn mode _ _) as [[[[t ops'] tg']|e]|] eqn:El; [..|by apply lift_total_law in El]; cbn [mbind option_bind].
    + assert (Htop' : insn_ip insn + 15 < 2 ^ 64) by (rewrite Hip; lia).
      destruct (lift_insn_law _ _ _ _ _ _ _ Hw64 Htop' El) as (Htg & new & -> & Hnew).
      assert (Ho' : ops_ok tg' start ((l_ops st ++ [InsnStart (insn_ip insn)]) ++ new)).
      { apply (ops_ok_app (l_tg st) tg'); [exact Htg| |].
        - apply (ops_ok_app (l_tg st) (l_tg st)); [done|exact Ho|]. split; [|done]. repeat constructor; apply Hw64.
        - rewrite insn_starts_app. cbn [insn_starts]. rewrite last_snoc. exact Hnew. }
      destruct t; [eexists; split; [done|]; by apply Hdone|].
      apply IH; [|lia|done]. split; [lia|]. split; [cbn; lia|split; [cbn; lia|done]].
    + destruct (lift_error_law _ _ _ _ _ El) as [-> |[bytes ->]]; cbn [refill_unsupported_bytes mbind option_bind]; [by eexists|].
      rewrite Hip. destruct (Z.ltb_spec (start + pos) start); [lia|].
      destruct (start + pos - start + insn_len insn <=? _); [|by eexists]. destruct (Z.ltb_spec 15 (insn_len insn)); [lia|]. by eexists.
Qed.
End Blocks.

Lemma window_top m at_ (code : list Z) : mem_wf m -> fetch_ok at_ -> 0 <= pa at_ ->
  pa at_ + Z.of_nat (length code) <= model_span (model m) -> Z.of_nat (length code) <= BLOCK_FETCH_WINDOW ->
  ip at_ + Z.of_nat (length code) + 15 < 2 ^ 64.
Proof.
  intros Hm [_ Hf] Hpa Hs Hw. pose proof (wf_top _ _ _ _ Hm). pose proof (wf_extent _ _ _ _ Hm). change MAX_TRACKED_SPAN with 17592186040320 in *.
  unfold BLOCK_FETCH_WINDOW in Hw. destruct Hf; lia.
Qed.

(** A lifted block is well formed, and covers guest bytes that are mapped. *)
Lemma lift_block_ok `{LifterLaws} m at_ mo : mem_wf m -> fetch_ok at_ ->
  match lift_block m at_ mo with
  | Some (Ok ir) => block_wf ir /\ guest_start ir = ip at_ /\ 0 <= pa at_ /\ pa at_ + guest_len ir <= model_span (model m) /\
      0 < guest_len ir /\ 0 <= icount ir <= BLOCK_FETCH_WINDOW
  | Some (Err _) => True
  | None => False
  end.
Proof.
  intros Hm Hf. unfold lift_block. pose proof (code_slice_ok m (pa at_) BLOCK_FETCH_WINDOW Hm ltac:(done)) as Hc.
  destruct (code_slice _ _ _) as [[code|t]|]; [|exact I|done]. cbn [mbind option_bind]. destruct Hc as (Hne & Hw & Hpa & Hs & _).
  pose proof (window_top m at_ code Hm Hf Hpa Hs Hw) as Htop. destruct Hf as [Hip _].
  destruct (lift_loop_ok mo code (ip at_) Hip Htop (S (length code)) 0 (mkLift [] 0 0 0)) as (r & -> & Hr);
    [split; [lia|]; split; [done|]; split; [cbn; lia|]; split; [constructor|done]|lia|by destruct code; [done|cbn; lia]|].
  cbn [mbind option_bind]. destruct r as [st|e]; [|exact I]. destruct Hr as ((Hp & _ & Hic & Ho1 & Ho2) & Hpos).
  split; [|split; [done|split; [done|cbn; lia]]]. split; cbn [guest_start guest_len ops temp_count finish].
  - split; lia.
  - lia.
  - lia.
  - by apply elide_from_ok.
  - by apply elide_from_traps.
Qed.

Lemma lift_one_ok `{LifterLaws} m at_ mo : mem_wf m -> fetch_ok at_ ->
  match lift_one m at_ mo with Some (Ok ir) => block_wf ir | Some (Err _) => True | None => False end.
Proof.
  intros Hm Hf. unfold lift_one. pose proof (code_slice_ok m (pa at_) BLOCK_FETCH_WINDOW Hm ltac:(done)) as Hc.
  destruct (code_slice _ _ _) as [[code|t]|]; [|exact I|done]. cbn [mbind option_bind]. destruct Hc as (Hne & Hw & Hpa & Hs & _).
  pose proof (window_top m at_ code Hm Hf Hpa Hs Hw) as Htop. destruct Hf as [Hip _].
  destruct (Z.of_nat (length code) <=? 0); [exact I|]. destruct (decode _ _ _ _) as [insn err] eqn:Ed.
  destruct (decode_law _ _ _ _ _ _ Hne Ed) as (Hi & Hlen & Hval).
  assert (Hw64 : in_width 64 (insn_ip insn)) by (rewrite Hi; split; lia).
  assert (Hone : forall ops tg, ops_ok tg (ip at_) ops -> block_wf (mkBlock (ip at_) (elide_dead_flags ops) tg (insn_len insn) 1)).
  { intros ops tg [Ho1 Ho2]. split; cbn [guest_start guest_len Block.ops temp_count]; [split; lia|lia|lia|by apply elide_from_ok|by apply elide_from_traps]. }
  assert (Hnil : ops_ok 0 (ip at_) []) by (split; [constructor|done]).
  destruct (is_invalid insn).
  - unfold emit_real16_ud_if_invalid. destruct err; [exact I| |exact I]. destruct (wraps_16 mo); [|exact I].
    apply Hone. by apply fault_ops_ok.
  - destruct (wraps_16 mo && _); [apply Hone; by apply fault_ops_ok|]. specialize (Hval eq_refl).
    destruct (lift_insn insn mo _ _) as [[[[t ops'] tg']|e]|] eqn:El; [..|by apply lift_total_law in El]; cbn [mbind option_bind].
    + destruct (lift_insn_law _ _ _ _ _ _ _ Hw64 ltac:(rewrite Hi; lia) El) as (Htg & new & -> & Hnew). apply Hone.
      apply (ops_ok_app 0 tg'); [exact Htg| |exact Hnew]. split; [repeat constructor; apply Hw64|done].
    + destruct (lift_error_law _ _ _ _ _ El) as [-> |[bytes ->]]; cbn [refill_unsupported_bytes mbind option_bind]; [exact I|].
      rewrite Hi. destruct (Z.ltb_spec (ip at_) (ip at_)); [lia|]. destruct (_ <=? _); [|exact I]. destruct (Z.ltb_spec 15 (insn_len insn)); [lia|exact I].
Qed.

(** ** Regions *)

(** The counter of the caps cannot overflow the sum of one more block. *)
Definition caps_ok (caps : RegionCaps) : Prop := 0 <= max_icount caps /\ max_icount caps + BLOCK_FETCH_WINDOW <= 2 ^ 32.

(** What a region's block is: lifted from the memory at its key. *)
Definition lifted_at (mem : Memory) (mode : CpuMode) `{InsnLifter} (a : Z) (b : IrBlock) : Prop :=
  0 <= a /\ lift_block mem (fetch_flat a) mode = Some (Ok b).

Section Regions.
Context `{LifterLaws} (mem : Memory) (Hmem : mem_wf mem) (caps : RegionCaps) (Hcaps : caps_ok caps) (mode : CpuMode).

Record dfs_ok (d : Dfs) : Prop := {
  do_blocks : map_Forall (lifted_at mem mode) (d_blocks d);
  do_icount : 0 <= d_icount d;
}.

(** The nodes of [d'] that [d] did not have were finished in this call, each once. *)
Record visits (extra : list Z) (d d' : Dfs) : Prop := {
  vi_ok : dfs_ok d';
  vi_grow : d_blocks d ⊆ d_blocks d';
  vi_size : Z.of_nat (base.size (d_blocks d)) <= Z.of_nat (base.size (d_blocks d')) <= Z.max (Z.of_nat (base.size (d_blocks d))) (max_blocks caps);
  vi_post : exists new, d_post d' = d_post d ++ new /\ NoDup new /\
    forall x, x ∈ new <-> x ∈ extra \/ (x ∈ dom (d_blocks d') /\ x ∉ dom (d_blocks d));
}.

Lemma visits_refl d : dfs_ok d -> visits [] d d.
Proof. intros Hd. split; [done|done|lia|]. exists []. rewrite app_nil_r. split; [done|]. split; [constructor|]. set_solver. Qed.
Lemma visits_trans d1 d2 d3 : visits [] d1 d2 -> visits [] d2 d3 -> visits [] d1 d3.
Proof.
  intros [A1 A2 A3 (n1 & A4 & A5 & A6)] [B1 B2 B3 (n2 & B4 & B5 & B6)]. split; [done|by etransitivity|lia|].
  exists (n1 ++ n2). split; [by rewrite B4, A4, app_assoc|]. apply subseteq_dom in A2, B2. split.
  - apply list.NoDup_app. split; [done|]. split; [|done]. intros x Hx. rewrite A6 in Hx. rewrite B6. set_solver.
  - intros x. rewrite elem_of_app, A6, B6. destruct (decide (x ∈ dom (d_blocks d2))); set_solver.
Qed.

Lemma static_succs_ok a b : lifted_at mem mode a b -> Forall (fun s => 0 <= s) (static_succs b).
Proof.
  intros [Ha Hb]. pose proof (lift_block_ok mem (fetch_flat a) mode Hmem (fetch_ok_flat a Ha)) as Hl. rewrite Hb in Hl.
  destruct Hl as [[_ _ _ Ho _] _]. unfold static_succs. destruct (list.last (ops b)) as [op|] eqn:E; [|constructor].
  rewrite list.Forall_forall in Ho. apply last_Some_elem_of in E. specialize (Ho op E).
  destruct op; try (by constructor); cbn [op_wf val_ok] in Ho.
  - destruct target; [constructor|]. destruct Ho. by repeat constructor.
  - destruct Ho as [[] []]. by repeat constructor.
Qed.

Lemma dfs_edges_ok visit n succs d :
  (forall s d, dfs_ok d -> s ∈ dom (d_blocks d) -> max_blocks caps - Z.of_nat (base.size (d_blocks d)) < Z.of_nat n -> (0 < n)%nat ->
    exists d', visit s d = Some d' /\ visits [s] d d') ->
  Forall (fun s => 0 <= s) succs -> dfs_ok d -> max_blocks caps - Z.of_nat (base.size (d_blocks d)) <= Z.of_nat n ->
  exists d', dfs_edges mem caps mode visit succs d = Some d' /\ visits [] d d'.
Proof.
  intros Hv. revert d. induction succs as [|s succs IH]; intros d Hs Hd Hn; cbn [dfs_edges]; [exists d; split; [done|by apply visits_refl]|].
  apply list.Forall_cons in Hs as [Hs0 Hs]. destruct (d_blocks d !! s) as [b0|] eqn:Es; [by apply IH|].
  destruct (Z.leb_spec (max_blocks caps) (Z.of_nat (base.size (d_blocks d)))) as [|Hcap]; [by apply IH|]. cbn [orb].
  destruct (Z.leb_spec (max_icount caps) (d_icount d)) as [|Hic]; [by apply IH|].
  pose proof (lift_block_ok mem (fetch_flat s) mode Hmem (fetch_ok_flat s Hs0)) as Hl.
  destruct (lift_block mem (fetch_flat s) mode) as [[b|e]|] eqn:Eb; [|by apply IH|done]. destruct Hl as (_ & _ & _ & _ & _ & Hicb).
  cbn [mbind option_bind]. unfold checked_add. pose proof (do_icount d Hd). destruct Hcaps as [Hc1 Hc2].
  destruct (Z.ltb_spec (d_icount d + icount b) (2 ^ 32)); [|lia]. cbn [mbind option_bind].
  set (d1 := mkDfs (<[s := b]> (d_blocks d)) (d_post d) (d_icount d + icount b)).
  assert (Hd1 : dfs_ok d1).
  { split; [|cbn; lia]. apply map_Forall_insert_2; [|apply Hd]. by split. }
  assert (Hsz : base.size (d_blocks d1) = S (base.size (d_blocks d))) by (by apply map_size_insert_None).
  destruct (Hv s d1 Hd1) as (d2 & -> & V1); [cbn; set_solver|lia|lia|]. cbn [mbind option_bind].
  assert (V2 : visits [] d d2).
  { destruct V1 as [A1 A2 A3 (new & A4 & A5 & A6)]. split; [done| |lia|].
    - etransitivity; [|exact A2]. by apply insert_subseteq.
    - exists new. split; [done|]. split; [done|]. intros x. rewrite A6. cbn [d_blocks d1]. rewrite dom_insert. 
      assert (Hs2 : s ∈ dom (d_blocks d2)) by (apply (subseteq_dom _ _ A2); cbn; rewrite dom_insert; set_solver).
      assert (Hs1 : s ∉ dom (d_blocks d)) by (by apply not_elem_of_dom). clear - Hs1 Hs2.
      rewrite list_elem_of_singleton, elem_of_nil, elem_of_union, elem_of_singleton. destruct (decide (x = s)) as [-> |]; tauto. }
  destruct (IH d2) as (d3 & -> & V3); [done|apply V2|destruct V2; lia|]. exists d3. split; [done|by eapply visits_trans].
Qed.

Lemma dfs_terminates n a d : dfs_ok d -> a ∈ dom (d_blocks d) -> max_blocks caps - Z.of_nat (base.size (d_blocks d)) < Z.of_nat n -> (0 < n)%nat ->
  exists d', dfs n mem caps mode a d = Some d' /\ visits [a] d d' /\ list.last (d_post d') = Some a.
Proof.
  revert a d. induction n as [|n IH]; intros a d Hd Ha Hn Hn0; [lia|]. cbn [dfs].
  apply elem_of_dom in Ha as [b Hb]. rewrite Hb. cbn [mbind option_bind].
  destruct (dfs_edges_ok (dfs n mem caps mode) n (static_succs b) d) as (d' & -> & V); [|eapply static_succs_ok, (do_blocks d Hd a b Hb)|done|lia|].
  { intros s d1 H1 H2 H3 H4. destruct (IH s d1 H1 H2 H3 H4) as (d2 & E2 & V2 & _). by exists d2. }
  cbn [mbind option_bind]. eexists. split; [done|]. split; [|cbn; apply last_snoc]. destruct V as [V1 V2 V3 (new & V4 & V5 & V6)]. split; cbn [d_blocks d_post d_icount].
  - by destruct V1.
  - done.
  - done.
  - exists (new ++ [a]). split; [by rewrite V4, app_assoc|].
    assert (Hna : a ∉ new). { rewrite V6. apply mk_is_Some, elem_of_dom in Hb. set_solver. }
    split; [apply list.NoDup_app; split; [done|]; split; [set_solver|apply list.NoDup_singleton]|].
    intros x. rewrite elem_of_app, V6. set_solver.
Qed.

Lemma remove_all_ok blocks order : NoDup order -> (forall x, x ∈ order -> x ∈ dom blocks) ->
  exists l, remove_all blocks order = Some l /\ Forall2 (fun a b => blocks !! a = Some b) order l.
Proof.
  revert blocks. induction order as [|a order IH]; intros bs Hnd Hin; cbn [remove_all]; [exists []; split; [done|constructor]|].
  apply list.NoDup_cons in Hnd as [Hna Hnd]. assert (Ha : a ∈ dom bs) by (apply Hin; by left). apply elem_of_dom in Ha as [b Hb]. rewrite Hb. cbn [mbind option_bind].
  destruct (IH (delete a bs) Hnd) as (l & -> & Hl); [intros x Hx; rewrite dom_delete; apply elem_of_difference; split; [apply Hin; by right|set_solver]|].
  cbn [mbind option_bind]. exists (b :: l). split; [done|]. constructor; [done|]. eapply list.Forall2_impl; [exact Hl|].
  intros x y Hx. apply lookup_delete_Some in Hx. apply Hx.
Qed.

(** The walk ends within the caps and returns each block it lifted once, the entry's among
    them. *)
Lemma lift_region_ok a : 0 <= a ->
  match lift_region mem a caps mode with
  | Some (Ok r) => blocks r <> [] /\ Forall block_wf (blocks r) /\ Forall (fun b => guest_start b + guest_len b <= model_span (model mem) /\ 0 < guest_len b) (blocks r) /\
      Z.of_nat (length (blocks r)) <= Z.max 1 (max_blocks caps) /\ NoDup (guest_start <$> blocks r) /\
      Forall (fun b => lift_block mem (fetch_flat (guest_start b)) mode = Some (Ok b)) (blocks r) /\ head (guest_start <$> blocks r) = Some a
  | Some (Err _) => True
  | None => False
  end.
Proof.
  intros Ha. unfold lift_region. pose proof (lift_block_ok mem (fetch_flat a) mode Hmem (fetch_ok_flat a Ha)) as Hl.
  destruct (lift_block mem (fetch_flat a) mode) as [[b|e]|] eqn:Eb; [|exact I|done]. cbn [mbind option_bind]. destruct Hl as (_ & _ & _ & _ & _ & Hicb).
  set (d0 := mkDfs {[a := b]} [] (icount b)).
  assert (Hd0 : dfs_ok d0) by (split; [by apply map_Forall_singleton|cbn; lia]).
  assert (Hs0 : base.size (d_blocks d0) = 1%nat) by (apply map_size_singleton).
  destruct (dfs_terminates (S (Z.to_nat (max_blocks caps))) a d0 Hd0) as (d & -> & V & Hlast); [cbn; set_solver|lia|lia|]. cbn [mbind option_bind].
  destruct V as [V1 V2 V3 (new & V4 & V5 & V6)]. cbn [d0 d_post app] in V4.
  assert (Hdom : forall x, x ∈ reverse (d_post d) <-> x ∈ dom (d_blocks d)).
  { intros x. apply subseteq_dom in V2. cbn in V2. rewrite elem_of_reverse, V4, V6. cbn [d0 d_blocks]. rewrite dom_singleton in *. clear - V2.
    rewrite list_elem_of_singleton, elem_of_singleton. destruct (decide (x = a)) as [-> |]; [|tauto]. split; [intros _|tauto]. set_solver. }
  destruct (remove_all_ok (d_blocks d) (reverse (d_post d))) as (l & -> & Hl); [rewrite V4; by rewrite reverse_Permutation|intros x; by rewrite Hdom|].
  cbn [mbind option_bind blocks].
  assert (Hb : Forall (fun b => lifted_at mem mode (guest_start b) b) l /\ guest_start <$> l = reverse (d_post d)).
  { pose proof (do_blocks d V1) as Hb. clear - Hl Hb Hmem H0. induction Hl as [|x y xs ys Hxy Hl IH]; [by split|]. destruct IH as [IH1 IH2].
    destruct (Hb x y Hxy) as [Hx Hy]. pose proof (lift_block_ok mem (fetch_flat x) mode Hmem (fetch_ok_flat x Hx)) as Hk. rewrite Hy in Hk.
    destruct Hk as (_ & Hk & _). cbn in Hk. split; [constructor; [by rewrite Hk|done]|cbn; by rewrite Hk, IH2]. }
  destruct Hb as [Hb Hg]. assert (Hain : head (guest_start <$> l) = Some a) by (by rewrite Hg, head_reverse).
  split_and!; [by intros -> | | | |rewrite Hg; rewrite V4; by rewrite reverse_Permutation| |done].
  - eapply list.Forall_impl; [exact Hb|]. intros y [Hy1 Hy2]. pose proof (lift_block_ok mem _ mode Hmem (fetch_ok_flat _ Hy1)) as Hk. rewrite Hy2 in Hk. apply Hk.
  - eapply list.Forall_impl; [exact Hb|]. intros y [Hy1 Hy2]. pose proof (lift_block_ok mem _ mode Hmem (fetch_ok_flat _ Hy1)) as Hk. rewrite Hy2 in Hk. by split; apply Hk.
  - assert (length l = length new) as Hlen by (apply (f_equal length) in Hg; rewrite length_fmap, length_reverse, V4 in Hg; done). rewrite Hlen.
    assert (length new = base.size (d_blocks d)) as ->; [|lia]. rewrite <- size_dom. rewrite <- (size_list_to_set (C := gset Z) new V5). f_equal.
    apply leibniz_equiv. intros x. rewrite elem_of_list_to_set, <- Hdom, elem_of_reverse, V4. done.
  - eapply list.Forall_impl; [exact Hb|]. by intros y [Hy1 Hy2].
Qed.
End Regions.
