(* ===== verification/Vm.v ===== *)
(** * The dispatcher (x86jit-core/src/vm.rs, jit_abi.rs, interp/mod.rs)

    A [Vm] owns the guest memory, the translation cache and a backend; a [Vcpu] runs
    blocks against it until something leaves to the embedder.  A backend is an instance
    of the class [Backend], as it is a trait object in the source: it turns IR into a
    cached unit and, when it compiles, runs the code.  One virtual CPU is modelled at a
    time, every shared operation in program order; the interleavings of several are the
    subject of [Cache] and [PageTrack]. *)

From S2P Require Import Prelude Features State Ir Alu Memory Interp IntegerSpec Control HostFloat F80 F80Trans X87 X87Arm Block Walk Lift Cache.

(** ** The compiled-block ABI (jit_abi.rs) *)

Definition RET_SYSCALL : Z := 1.
Definition RET_HLT : Z := 2.
Definition RET_CHAIN : Z := 4.
Definition RET_LINK : Z := 5.
Definition RET_IBTC_MISS : Z := 7.
Definition RET_MMIO_DEFER : Z := 8.
Definition RET_PORTIO_DEFER : Z := 9.

(** The fields that are values; [ret_stack], [icount_ptr], [mem_self] and the pointers into
    the memory's tables alias state that [call_block] is given directly. *)
Record MemCtx : Type := mkCtx {
  ctx_base : Z;
  ctx_size : Z;
  fault_addr : Z;
  fault_size : Z;
  fault_access : Z;
  next_entry : Z;
  link_slot : Z;
  fuel : Z;
  ctx_guest_base : Z;
  exception_vector : Z;
}.

Definition U64_MAX : Z := 2 ^ 64 - 1.

(** [None]: the debug assertion on the watch table fails. *)
Definition for_memory (m : Memory) : option MemCtx :=
  if watch_bits_cover_size m then
    Some (mkCtx (b_ptr (backing m)) (mem_size m) 0 0 0 0 0 U64_MAX (m_guest_base m) 0)
  else None.

Definition set_fuel (c : MemCtx) (n : Z) : MemCtx :=
  mkCtx (ctx_base c) (ctx_size c) (fault_addr c) (fault_size c) (fault_access c) (next_entry c) (link_slot c) n
    (ctx_guest_base c) (exception_vector c).

Definition unmapped_exit (c : MemCtx) : Exit :=
  UnmappedMemory (fault_addr c) (if fault_access c =? 0 then Read else Write).

Definition RET_STACK_LEN : nat := 64.
Record RetStack : Type := mkRetStack { rs_sp : Z; rs_entries : list (Z * Z) }.
Definition new_ret_stack : RetStack := mkRetStack 0 (replicate RET_STACK_LEN (0, 0)).

(** ** Backends *)

Inductive MemConsistency : Type := CFast | CAcqRel | CFullTso.
#[global] Instance MemConsistency_eq_dec : EqDecision MemConsistency.
Proof. solve_decision. Defined.

Inductive TierUpUnit : Type := UBlock (b : IrBlock) | URegion (r : IrRegion).

Record TierUpRequest : Type := mkRequest {
  rq_pc : Z;
  rq_unit : TierUpUnit;
  rq_consistency : MemConsistency;
  rq_mmio : option (Z * Z);
  rq_guest_base : Z;
  rq_spans : list Span;
  rq_epoch : Z;
}.

Record TierUpFinished : Type := mkFinished {
  fin_pc : Z;
  fin_block : CachedBlock;
  fin_spans : list Span;
  fin_epoch : Z;
}.

Inductive TierUpSubmit : Type := Queued | Busy | TierUnsupported.

(** What a call of a compiled block may change, with the code it returns. *)
Record CallOut : Type := mkCall {
  co_code : Z;
  co_cpu : CpuState;
  co_ctx : MemCtx;
  co_stack : RetStack;
  co_executed : Z;
  co_mem : Memory;
}.

(** The trait [Backend], its interior state explicit, and the code it compiled:
    [call_block] runs an entry, [store_slot] writes a link or target-cache slot of the
    code arena.  [None] is a panic. *)
Class Backend (B : Type) : Type := {
  materialize : B -> IrBlock -> MemConsistency -> option (Z * Z) -> Z -> CachedBlock * B;
  region_caps : B -> option RegionCaps;
  materialize_region : B -> IrRegion -> MemConsistency -> option (Z * Z) -> Z -> option (CachedBlock * B);
  invalidate_links : B -> B;
  tier_up_async : B -> TierUpRequest -> TierUpSubmit * B;
  tier_up_finished : B -> list TierUpFinished * B;
  set_tiering : B -> bool -> B;
  call_block : B -> Z -> CpuState -> MemCtx -> RetStack -> Z -> Memory -> option CallOut;
  store_slot : B -> Z -> Z -> B;
  descriptor_addr : B -> TranslationCache -> Z;
}.

(** The default backend: a unit is the IR itself, the other methods are the trait's
    defaults, and there is no code to call. *)
Inductive InterpreterBackend : Type := TheInterpreter.

#[global] Instance interpreter_backend : Backend InterpreterBackend := {
  materialize b ir _ _ _ := (Interpreted ir, b);
  region_caps _ := None;
  materialize_region _ _ _ _ _ := None;
  invalidate_links b := b;
  tier_up_async b _ := (TierUnsupported, b);
  tier_up_finished b := ([], b);
  set_tiering b _ := b;
  call_block _ _ _ _ _ _ _ := None;
  store_slot b _ _ := b;
  descriptor_addr _ _ := 0;
}.

(** ** The virtual machine *)

Record Vm (B : Type) : Type := mkVm {
  mem : Memory;
  cache : TranslationCache;
  backend : B;
  consistency : MemConsistency;
  tier_up_after : option Z;
  tier_up_background : bool;
  tier_up_region_after : option Z;
  vm_features : GuestCpuFeatures;
  vm_x87_precision : X87Precision;
  vm_mode : CpuMode;
}.
Arguments mkVm {B}. Arguments mem {B}. Arguments cache {B}. Arguments backend {B}. Arguments consistency {B}.
Arguments tier_up_after {B}. Arguments tier_up_background {B}. Arguments tier_up_region_after {B}. Arguments vm_features {B}.
Arguments vm_x87_precision {B}. Arguments vm_mode {B}.

Section Vm.
Context {B : Type} `{Backend B}.

Definition set_mem (v : Vm B) (m : Memory) : Vm B :=
  mkVm m (cache v) (backend v) (consistency v) (tier_up_after v) (tier_up_background v) (tier_up_region_after v)
    (vm_features v) (vm_x87_precision v) (vm_mode v).
Definition set_cache (v : Vm B) (c : TranslationCache) : Vm B :=
  mkVm (mem v) c (backend v) (consistency v) (tier_up_after v) (tier_up_background v) (tier_up_region_after v)
    (vm_features v) (vm_x87_precision v) (vm_mode v).
Definition set_backend (v : Vm B) (b : B) : Vm B :=
  mkVm (mem v) (cache v) b (consistency v) (tier_up_after v) (tier_up_background v) (tier_up_region_after v)
    (vm_features v) (vm_x87_precision v) (vm_mode v).

(** *** Construction and configuration *)

Definition from_mem (m : Memory) (b : B) (c : MemConsistency) : Vm B :=
  mkVm m new_cache b c None false None stable Fast Long64.
(** [ptr]: where the allocator put the guest buffer. *)
Definition with_backend (ptr : Z) (mo : MemoryModel) (c : MemConsistency) (b : B) : option (Vm B) :=
  m ← new ptr mo; Some (from_mem m b c).
Definition with_backend_host_ram (mo : MemoryModel) (c : MemConsistency) (b : B) (ram : Backing) : option (Vm B) :=
  m ← from_host_ram mo ram; Some (from_mem m b c).
Definition fork_with_backend (v : Vm B) (b : B) (ptr : Z) : option (option (Vm B)) :=
  m ← deep_copy (mem v) ptr;
  Some match m with
  | Some m => Some (mkVm m new_cache b (consistency v) (tier_up_after v) (tier_up_background v)
                      (tier_up_region_after v) (vm_features v) (vm_x87_precision v) (vm_mode v))
  | None => None
  end.
Definition set_tier_up_after (v : Vm B) (n : option Z) : Vm B :=
  mkVm (mem v) (cache v) (set_tiering (backend v) (match n with Some _ => true | None => false end)) (consistency v) n
    (tier_up_background v) (tier_up_region_after v) (vm_features v) (vm_x87_precision v) (vm_mode v).
Definition set_tier_up_background (v : Vm B) (on : bool) : Vm B :=
  mkVm (mem v) (cache v) (backend v) (consistency v) (tier_up_after v) on (tier_up_region_after v) (vm_features v)
    (vm_x87_precision v) (vm_mode v).
Definition set_tier_up_region_after (v : Vm B) (n : option Z) : Vm B :=
  mkVm (mem v) (cache v) (backend v) (consistency v) (tier_up_after v) (tier_up_background v) n (vm_features v)
    (vm_x87_precision v) (vm_mode v).
Definition set_guest_cpu_features (v : Vm B) (f : GuestCpuFeatures) : Vm B :=
  mkVm (mem v) (cache v) (backend v) (consistency v) (tier_up_after v) (tier_up_background v) (tier_up_region_after v) f
    (vm_x87_precision v) (vm_mode v).
Definition set_x87_precision (v : Vm B) (p : X87Precision) : Vm B :=
  mkVm (mem v) (cache v) (backend v) (consistency v) (tier_up_after v) (tier_up_background v) (tier_up_region_after v)
    (vm_features v) p (vm_mode v).
Definition set_cpu_mode (v : Vm B) (mo : CpuMode) : Vm B :=
  mkVm (mem v) (cache v) (backend v) (consistency v) (tier_up_after v) (tier_up_background v) (tier_up_region_after v)
    (vm_features v) (vm_x87_precision v) mo.

(** *** Mappings and self-modified code *)

(** [invalidate_overlapping] with its callback on the memory, and the links of the
    backend cleared when [links] says so of the dropped keys. *)
Definition drop_range (v : Vm B) (lo hi : Z) (on_clear : Memory -> Memory) (links : list BlockKey -> bool) : Vm B :=
  let '(vs, c, m) := invalidate_overlapping (cache v) (mem v) lo hi on_clear in
  let v := set_mem (set_cache v c) m in
  if links vs then set_backend v (invalidate_links (backend v)) else v.

Definition dropped (vs : list BlockKey) : bool := match vs with [] => false | _ => true end.

Definition vm_map (v : Vm B) (guest_addr size : Z) (pr : Prot) (kd : RegionKind) : option (Result unit MapError * Vm B) :=
  '(r, m) ← map (mem v) guest_addr size pr kd;
  let v := set_mem v m in
  match r, kd with
  | Ok _, TrapRegion => Some (r, drop_range v 0 U64_MAX clear_all_code_pages (fun _ => true))
  | _, _ => Some (r, v)
  end.

Definition vm_unmap (v : Vm B) (guest_addr size : Z) : Result unit MapError * Vm B :=
  let '(r, m) := unmap (mem v) guest_addr size in
  let v := set_mem v m in
  match r with
  | Ok _ =>
      let lo := guest_addr in
      let hi := saturating_add 64 guest_addr size in
      let first := Z.shiftr lo CODE_PAGE_BITS in
      let last := Z.shiftr (saturating_sub hi 1) CODE_PAGE_BITS in
      (r, drop_range v lo hi (fun m => foldl clear_code_page m (zseq first (Z.to_nat (last - first + 1)))) dropped)
  | Err _ => (r, v)
  end.

(** The loop of [handle_smc]; the links are cleared once, after it. *)
Fixpoint smc_pages (v : Vm B) (pages : list Z) (invalidated : bool) : Vm B * bool :=
  match pages with
  | [] => (v, invalidated)
  | p :: rest =>
      let '(vs, c, m) := smc_page (cache v) (mem v) p in
      smc_pages (set_mem (set_cache v c) m) rest (invalidated || dropped vs)
  end.

Definition handle_smc (v : Vm B) : Vm B :=
  let '(pages, m) := take_dirty_code (mem v) in
  let '(v, invalidated) := smc_pages (set_mem v m) pages false in
  if invalidated then set_backend v (invalidate_links (backend v)) else v.

Definition vm_materialize (v : Vm B) (ir : IrBlock) : CachedBlock * Vm B :=
  let '(b, be) := materialize (backend v) ir (consistency v) (trap_window (mem v)) (m_guest_base (mem v)) in
  (b, set_backend v be).

(** ** Finding a block *)

Definition lift_exit (e : LiftError) : Exit :=
  match e with
  | Unsupported addr bytes len => UnknownInstruction addr bytes len
  | DecodeFault addr => UnmappedMemory addr Execute
  end.

(** The callback of every insertion. *)
Definition mark_all (m : Memory) (sp : list Span) : Memory := mark_spans m sp.

Definition finish_single (v : Vm B) (key : BlockKey) (span_start : Z) (ir : IrBlock) : CachedBlock * Vm B :=
  let '(b, v) := match tier_up_after v with
                 | Some _ => (Interpreted ir, v)
                 | None => vm_materialize v ir
                 end in
  let '(c, m) := insert_unit (cache v) (mem v) key b [(span_start, guest_len ir)] mark_all in
  (b, set_mem (set_cache v c) m).

Definition drain_one (v : Vm B) (fin : TierUpFinished) : Vm B :=
  let key := mkKey (fin_pc fin) (vm_mode v) in
  let '(published, c, m) := upgrade_region (cache v) (mem v) key (fin_block fin) (fin_spans fin) (fin_epoch fin) mark_all in
  let c := end_tier_up c key in
  let c := if published then
             let c := record_tier_bg_published c in
             if (1 <? Z.of_nat (length (fin_spans fin))) then record_region c else c
           else record_tier_bg_rejected c in
  set_mem (set_cache v c) m.
Definition drain_tier_up (v : Vm B) : Vm B :=
  let '(fins, be) := tier_up_finished (backend v) in foldl drain_one (set_backend v be) fins.

Context `{InsnLifter} `{Libm}.

(** [Ok(r) if r.blocks.len() > 1 && r.has_loop] *)
Definition is_loop (r : Result IrRegion LiftError) : option IrRegion :=
  match r with
  | Ok rg => if (1 <? Z.of_nat (length (blocks rg))) && has_loop rg then Some rg else None
  | Err _ => None
  end.

Definition region_candidate (v : Vm B) (key : BlockKey) (pc : Z) (mo : CpuMode) : option (bool * Vm B) :=
  match region_caps (backend v) with
  | None => Some (false, v)
  | Some caps =>
      match region_decision (cache v) key with
      | Some c => Some (c, v)
      | None =>
          r ← lift_region (mem v) pc caps mo;
          let c := match is_loop r with Some _ => true | None => false end in
          Some (c, set_cache v (set_region_decision (cache v) key c))
      end
  end.

(** What the hot path decides: serve the block as it is, or go on to compile it. *)
Inductive Tier : Type := Serve | CompileNow.

Definition block_span (ir : IrBlock) : Span := (guest_start ir, guest_len ir).

(** The background branch of [resolve]. *)
Definition submit_tier_up (v : Vm B) (key : BlockKey) (pc : Z) (mo : CpuMode) (ir : IrBlock) (count thr ep : Z)
    : option (Tier * Vm B) :=
  '(cand, v) ← region_candidate v key pc mo;
  let warming := cand && (count <? default thr (tier_up_region_after v)) in
  if warming then Some (Serve, v)
  else
    let '(began, c) := try_begin_tier_up (cache v) key in
    let v := set_cache v c in
    if negb began then Some (Serve, v)
    else
      '(unit, spans) ←
        (if cand then
           caps ← region_caps (backend v);
           r ← lift_region (mem v) pc caps mo;
           Some match is_loop r with
           | Some rg => (URegion rg, region_spans rg)
           | None => (UBlock ir, [block_span ir])
           end
         else Some (UBlock ir, [block_span ir]));
      let req := mkRequest pc unit (consistency v) (trap_window (mem v)) (m_guest_base (mem v)) spans ep in
      let '(s, be) := tier_up_async (backend v) req in
      let v := set_backend v be in
      match s with
      | Queued => Some (Serve, v)
      | Busy => Some (Serve, set_cache v (end_tier_up (cache v) key))
      | TierUnsupported => Some (CompileNow, set_cache v (end_tier_up (cache v) key))
      end.

(** The miss: a region, when the backend forms them eagerly, or a block. *)
Definition resolve_miss (v : Vm B) (key : BlockKey) (at_ : FetchAddr) (mo : CpuMode)
    : option (Result CachedBlock Exit * Vm B) :=
  let pc := pa at_ in
  match (if tier_up_background v then None else region_caps (backend v)) with
  | Some caps =>
      r ← lift_region (mem v) pc caps mo;
      match r, is_loop r with
      | Err e, _ => Some (Err (lift_exit e), v)
      | Ok rg, Some _ =>
          '(b, be) ← materialize_region (backend v) rg (consistency v) (trap_window (mem v)) (m_guest_base (mem v));
          let v := set_backend v be in
          let '(c, m) := insert_unit (cache v) (mem v) key b (region_spans rg) mark_all in
          Some (Ok b, set_mem (set_cache v (record_region c)) m)
      | Ok rg, None =>
          ir ← head (blocks rg);
          let '(b, v) := finish_single v key pc ir in Some (Ok b, v)
      end
  | None =>
      r ← lift_block (mem v) at_ mo;
      match r with
      | Ok ir => let '(b, v) := finish_single v key pc ir in Some (Ok b, v)
      | Err e => Some (Err (lift_exit e), v)
      end
  end.

(** The retry loop; a retry happens only when an invalidation intervened. *)
Fixpoint resolve (n : nat) (v : Vm B) (at_ : FetchAddr) (mo : CpuMode) : option (Result CachedBlock Exit * Vm B) :=
  match n with
  | O => None
  | S n =>
      let key := mkKey (pa at_) mo in
      let v := if tier_up_background v then drain_tier_up v else v in
      let ep := epoch (cache v) in
      let '(found, c) := get (cache v) key in
      let v := set_cache v c in
      match found with
      | None => resolve_miss v key at_ mo
      | Some block =>
          match tier_up_after v, block with
          | Some thr, Interpreted ir =>
              let '(count, c) := bump_hotness (cache v) key in
              let v := set_cache v c in
              if count <? thr then Some (Ok block, v)
              else
                '(t, v) ← (if tier_up_background v then submit_tier_up v key (pa at_) mo ir count thr ep
                           else Some (CompileNow, v));
                match t with
                | Serve => Some (Ok block, v)
                | CompileNow =>
                    let '(compiled, v) := vm_materialize v ir in
                    let '(done, c) := upgrade (cache v) key compiled (block_span ir) ep in
                    let v := set_cache v c in
                    if done then Some (Ok compiled, v) else resolve n v at_ mo
                end
          | _, _ => Some (Ok block, v)
          end
      end
  end.
End Vm.

(** ** A virtual CPU *)

Definition FAST_BITS : Z := 10.
Definition FAST_N : nat := 1024.
Definition IBTC_MEGAMORPHIC_CAP : Z := 8.

(** A null entry (0) marks the slot empty. *)
Record FastEntry : Type := mkFast { fe_rip : Z; fe_entry : Z }.

Record Vcpu : Type := mkVcpu {
  cpu : CpuState;
  v_mode : CpuMode;
  fast : list FastEntry;
  fast_epoch : Z;
  ibtc_refills : gmap Z Z;
  v_ret_stack : RetStack;
  fast_hits : Z;
  v_executed : Z;
  v_chained : Z;
  pending_irq : option Z;
  v_retired : Z;
  v_sti_shadow : bool;
}.

Definition set_cpu (v : Vcpu) (c : CpuState) : Vcpu :=
  mkVcpu c (v_mode v) (fast v) (fast_epoch v) (ibtc_refills v) (v_ret_stack v) (fast_hits v) (v_executed v) (v_chained v)
    (pending_irq v) (v_retired v) (v_sti_shadow v).
Definition set_fast (v : Vcpu) (f : list FastEntry) : Vcpu :=
  mkVcpu (cpu v) (v_mode v) f (fast_epoch v) (ibtc_refills v) (v_ret_stack v) (fast_hits v) (v_executed v) (v_chained v)
    (pending_irq v) (v_retired v) (v_sti_shadow v).
Definition set_fast_hits (v : Vcpu) (n : Z) : Vcpu :=
  mkVcpu (cpu v) (v_mode v) (fast v) (fast_epoch v) (ibtc_refills v) (v_ret_stack v) n (v_executed v) (v_chained v)
    (pending_irq v) (v_retired v) (v_sti_shadow v).
Definition set_refills (v : Vcpu) (r : gmap Z Z) : Vcpu :=
  mkVcpu (cpu v) (v_mode v) (fast v) (fast_epoch v) r (v_ret_stack v) (fast_hits v) (v_executed v) (v_chained v)
    (pending_irq v) (v_retired v) (v_sti_shadow v).
Definition set_v_chained (v : Vcpu) (n : Z) : Vcpu :=
  mkVcpu (cpu v) (v_mode v) (fast v) (fast_epoch v) (ibtc_refills v) (v_ret_stack v) (fast_hits v) (v_executed v) n
    (pending_irq v) (v_retired v) (v_sti_shadow v).
Definition set_pending_irq (v : Vcpu) (p : option Z) : Vcpu :=
  mkVcpu (cpu v) (v_mode v) (fast v) (fast_epoch v) (ibtc_refills v) (v_ret_stack v) (fast_hits v) (v_executed v) (v_chained v)
    p (v_retired v) (v_sti_shadow v).
Definition set_sti (v : Vcpu) (s : bool) : Vcpu :=
  mkVcpu (cpu v) (v_mode v) (fast v) (fast_epoch v) (ibtc_refills v) (v_ret_stack v) (fast_hits v) (v_executed v) (v_chained v)
    (pending_irq v) (v_retired v) s.
(** [self.retired += n], and [self.executed += e]. *)
Definition add_retired (v : Vcpu) (n e : Z) : Vcpu :=
  mkVcpu (cpu v) (v_mode v) (fast v) (fast_epoch v) (ibtc_refills v) (v_ret_stack v) (fast_hits v)
    (wrapping_add 64 (v_executed v) e) (v_chained v) (pending_irq v) (wrapping_add 64 (v_retired v) n) (v_sti_shadow v).
(** What compiled code changes of the virtual CPU. *)
Definition set_called (v : Vcpu) (o : CallOut) : Vcpu :=
  mkVcpu (co_cpu o) (v_mode v) (fast v) (fast_epoch v) (ibtc_refills v) (co_stack o) (fast_hits v) (co_executed o) (v_chained v)
    (pending_irq v) (v_retired v) (v_sti_shadow v).

(** [CpuState::new] with the instruction-set level and the precision of the machine. *)
Definition profiled_cpu (f : GuestCpuFeatures) (p : X87Precision) : CpuState :=
  let c := default_cpu in
  mkCpu (gpr c) (rip c) (fs_base c) (gs_base c) (flags c) (xmm c) (ymm_hi c) (zmm_hi c) (kmask c) (fpr c) (fpu_top c)
    (fpu_cw c) (fpu_pad c) (pending_mmio c) (pending_mmio_write c) (pending_port_in c) f p (cs c) (ds c) (es c) (ss c)
    (fpu_empty c) (fpu_sw c) (fpu_env_tail c) (mmio_parts c) (mmio_parts_len c) (mmio_parts_rip c).

Definition new_vcpu {B} (v : Vm B) : Vcpu :=
  mkVcpu (profiled_cpu (vm_features v) (vm_x87_precision v)) (vm_mode v)
    (replicate FAST_N (mkFast 0 0)) (epoch (cache v)) ∅ new_ret_stack 0 0 0 None 0 false.

Definition inject_irq (v : Vcpu) (vector : Z) : Vcpu := set_pending_irq v (Some vector).

(** *** The fast-resolve cache *)

Definition fast_index (rip : Z) : nat := Z.to_nat (Z.shiftr (wrapping_mul 64 rip 0x9E3779B97F4A7C15) (64 - FAST_BITS)).

(** [None]: index out of bounds. *)
Definition fast_get (v : Vcpu) (rip : Z) : option (option Z) :=
  e ← fast v !! fast_index rip;
  Some (if negb (fe_entry e =? 0) && (fe_rip e =? rip) then Some (fe_entry e) else None).
Definition fast_put (v : Vcpu) (rip entry : Z) : option Vcpu :=
  e ← fast v !! fast_index rip;
  Some (set_fast v (<[fast_index rip := mkFast rip entry]> (fast v))).
(** With the snapshot of the epoch set, as its only caller does. *)
Definition fast_clear (v : Vcpu) (ep : Z) : Vcpu :=
  mkVcpu (cpu v) (v_mode v) ((fun e => mkFast (fe_rip e) 0) <$> fast v) ep ∅ (mkRetStack 0 (rs_entries (v_ret_stack v)))
    (fast_hits v) (v_executed v) (v_chained v) (pending_irq v) (v_retired v) (v_sti_shadow v).

(** *** Registers *)

Definition set_reg (v : Vcpu) (r : Reg) (val : Z) : Vcpu :=
  set_cpu v
    match gpr_index r with
    | Some i => put_gpr (cpu v) i val
    | None =>
        match r with
        | Rip => set_rip (cpu v) val
        | FsBase => set_fs_base (cpu v) val
        | GsBase => set_gs_base (cpu v) val
        | Cs => set_cs (cpu v) (wrap 16 val)
        | Ds => set_ds (cpu v) (wrap 16 val)
        | Es => set_es (cpu v) (wrap 16 val)
        | _ => set_ss (cpu v) (wrap 16 val)
        end
    end.
Definition reg (v : Vcpu) (r : Reg) : Z :=
  match gpr_index r with
  | Some i => get_gpr (cpu v) i
  | None =>
      match r with
      | Rip => rip (cpu v)
      | FsBase => fs_base (cpu v)
      | GsBase => gs_base (cpu v)
      | Cs => cs (cpu v)
      | Ds => ds (cpu v)
      | Es => es (cpu v)
      | _ => ss (cpu v)
      end
  end.

(** The other register files; [None]: index out of bounds. *)
Definition vcpu_set_flags (v : Vcpu) (f : Flags) : Vcpu := set_cpu v (set_flags (cpu v) f).
Definition vcpu_set_xmm (v : Vcpu) (index value : Z) : option Vcpu :=
  l ← updZ (xmm (cpu v)) index value; Some (set_cpu v (set_xmm (cpu v) l)).
Definition vcpu_xmm (v : Vcpu) (index : Z) : option Z := nthZ (xmm (cpu v)) index.
Definition vcpu_set_ymm_hi (v : Vcpu) (index value : Z) : option Vcpu :=
  l ← updZ (ymm_hi (cpu v)) index value; Some (set_cpu v (set_ymm_hi (cpu v) l)).
Definition vcpu_ymm_hi (v : Vcpu) (index : Z) : option Z := nthZ (ymm_hi (cpu v)) index.
Definition vcpu_set_zmm_hi (v : Vcpu) (index half value : Z) : option Vcpu :=
  p ← nthZ (zmm_hi (cpu v)) index;
  q ← (if half =? 0 then Some (value, p.2) else if half =? 1 then Some (p.1, value) else None);
  l ← updZ (zmm_hi (cpu v)) index q; Some (set_cpu v (set_zmm_hi (cpu v) l)).
Definition vcpu_zmm_hi (v : Vcpu) (index half : Z) : option Z :=
  p ← nthZ (zmm_hi (cpu v)) index;
  if half =? 0 then Some p.1 else if half =? 1 then Some p.2 else None.
Definition vcpu_set_kmask (v : Vcpu) (index value : Z) : option Vcpu :=
  l ← updZ (kmask (cpu v)) index value; Some (set_cpu v (set_kmask (cpu v) l)).
Definition vcpu_kmask (v : Vcpu) (index : Z) : option Z := nthZ (kmask (cpu v)) index.
Definition fpr_bytes (v : Vcpu) (index : Z) : option (list Z) := nthZ (fpr (cpu v)) index.
Definition set_fpr_bytes (v : Vcpu) (index : Z) (bytes : list Z) : option Vcpu :=
  l ← updZ (fpr (cpu v)) index bytes; Some (set_cpu v (set_fpr (cpu v) l)).
Definition vcpu_set_fpu_top (v : Vcpu) (top : Z) : Vcpu := set_cpu v (set_fpu_top (cpu v) (Z.land top 7)).
Definition vcpu_set_fpu_cw (v : Vcpu) (cw : Z) : Vcpu := set_cpu v (set_fpu_cw (cpu v) cw).

(** ** Running *)

Section Run.
Context {B : Type} `{Backend B} `{InsnLifter} `{Libm}.

(** A virtual CPU and the machine it runs on. *)
Record World : Type := mkWorld { w_vcpu : Vcpu; w_vm : Vm B }.
Definition D (A : Type) : Type := World -> option (A * World).

#[global] Instance D_ret : MRet D := fun A a w => Some (a, w).
#[global] Instance D_bind : MBind D := fun A C k x w => '(a, w) ← x w; k a w.

Definition vcpu_ : D Vcpu := fun w => Some (w_vcpu w, w).
Definition on_vcpu (f : Vcpu -> Vcpu) : D unit := fun w => Some (tt, mkWorld (f (w_vcpu w)) (w_vm w)).
Definition vm_ : D (Vm B) := fun w => Some (w_vm w, w).
Definition on_vm (f : Vm B -> Vm B) : D unit := fun w => Some (tt, mkWorld (w_vcpu w) (f (w_vm w))).
Definition opt {A} (o : option A) : D A := fun w => a ← o; Some (a, w).

(** *** The interpreter's entry points *)

Definition no_retire : RetireInfo := mkRetire 0 false.

Definition step_one (c : CpuState) (m : Memory) (mo : CpuMode) : option (StepResult * RetireInfo * CpuState * Memory) :=
  r ← lift_one m (for_mode mo (rip c) (cs c)) mo;
  match r with
  | Ok ir => interpret_block ir c m
  | Err e => Some (SExit (lift_exit e), no_retire, c, m)
  end.

(** Run a step of the interpreter on the shared memory. *)
Definition interp (run : CpuState -> Memory -> option (StepResult * RetireInfo * CpuState * Memory)) : D (StepResult * RetireInfo) :=
  fun w =>
    '(r, info, c, m) ← run (cpu (w_vcpu w)) (mem (w_vm w));
    Some ((r, info), mkWorld (set_cpu (w_vcpu w) c) (set_mem (w_vm w) m)).

Definition single_step : D (StepResult * RetireInfo) :=
  v ← vcpu_; interp (fun c m => step_one c m (v_mode v)).

Definition deliver (cur_addr vector saved_ip : Z) : D StepResult := fun w =>
  '(r, s) ← deliver_interrupt cur_addr vector saved_ip (mkMach (cpu (w_vcpu w)) (mem (w_vm w)) []);
  Some (r, mkWorld (set_cpu (w_vcpu w) (m_cpu s)) (set_mem (w_vm w) (m_mem s))).

(** A real-mode exception vectors through the table in guest memory. *)
Definition redeliver (r : StepResult) : D StepResult :=
  v ← vcpu_;
  match r, v_mode v with
  | SExit (EException addr vector), Real16 => deliver addr vector addr
  | _, _ => mret r
  end.

Definition step_instruction : D StepResult :=
  '(r, info) ← single_step;
  on_vcpu (fun v => set_sti (add_retired v (retired info) 0) (sti_shadow info));;
  redeliver r.

(** *** One turn of the loop *)

(** Another turn with this many blocks run, or out. *)
Inductive Next : Type := Again (blocks_run : Z) | Out (e : Exit).

Definition after (blocks_run : Z) (r : StepResult) : Next :=
  match r with Continue => Again (wrapping_add 64 blocks_run 1) | SExit e => Out e end.

Definition sync_fast : D unit :=
  v ← vm_; c ← vcpu_;
  if negb (epoch (cache v) =? fast_epoch c) then on_vcpu (fun c => fast_clear c (epoch (cache v))) else mret tt.

Definition resume_mmio (blocks_run : Z) : D Next :=
  '(r, info) ← single_step;
  on_vcpu (fun v => set_sti (add_retired v (retired info) 0) (sti_shadow info));;
  match r with
  | Continue => on_vcpu (fun v => set_cpu v (clear_mmio_parts (cpu v)));; mret (after blocks_run r)
  | SExit e => mret (Out e)
  end.

Definition mmio_waits (c : CpuState) : bool :=
  match pending_mmio c with Some _ => true | None => pending_mmio_write c end.

Definition deliverable (v : Vcpu) : bool :=
  if_ (flags (cpu v)) && negb (mmio_waits (cpu v)) &&
  match pending_port_in (cpu v) with None => true | Some _ => false end && negb (v_sti_shadow v).

Definition take_irq (vector blocks_run : Z) : D Next :=
  on_vcpu (fun v => set_pending_irq v None);;
  v ← vcpu_;
  r ← deliver (rip (cpu v)) vector (rip (cpu v));
  match r with
  | Continue => on_vcpu (fun v => set_sti v false);; mret (after blocks_run r)
  | SExit e => mret (Out e)
  end.

(** [resolve] on the machine of the world; two turns of its loop are enough
    ([VmSpec.resolve_once]). *)
Definition resolve_at (at_ : FetchAddr) : D (Result CachedBlock Exit) := fun w =>
  '(r, v) ← resolve 2 (w_vm w) at_ (v_mode (w_vcpu w)); Some (r, mkWorld (w_vcpu w) v).

Definition put_fast (rip entry : Z) : D unit := fun w =>
  v ← fast_put (w_vcpu w) rip entry; Some (tt, mkWorld v (w_vm w)).

Definition find_block : D (Result CachedBlock Exit) :=
  v ← vcpu_;
  hit ← opt (fast_get v (rip (cpu v)));
  match hit with
  | Some e => on_vcpu (fun v => set_fast_hits v (wrapping_add 64 (fast_hits v) 1));; mret (Ok (Compiled e))
  | None =>
      r ← resolve_at (for_mode (v_mode v) (rip (cpu v)) (cs (cpu v)));
      match r with
      | Ok (Compiled e) => put_fast (rip (cpu v)) e;; mret r
      | _ => mret r
      end
  end.

Definition run_interpreted (ir : IrBlock) (blocks_run : Z) : D Next :=
  '(r, info) ← interp (interpret_block ir);
  on_vcpu (fun v => set_sti (add_retired v (retired info) (retired info)) (sti_shadow info));;
  r ← redeliver r; mret (after blocks_run r).

(** *** Compiled code *)

(** What a returned code asks of the chain loop: go on at an entry, leave the chain, or
    leave the run. *)
Inductive Hop : Type := Go (entry : Z) | Stop | Away (e : Exit).

Definition defer_step : D Hop :=
  '(r, info) ← single_step;
  on_vcpu (fun v => add_retired v (retired info) 0);;
  match r with Continue => mret Stop | SExit e => mret (Away e) end.

(** Publish [v] in a slot of the code arena unless an invalidation came in between. *)
Definition publish_slot (since_epoch slot val : Z) : D bool := fun w =>
  let v := w_vm w in
  let '(ok, be) := publish_if_current (cache v) (backend v) since_epoch (fun b => store_slot b slot val) in
  Some (ok, mkWorld (w_vcpu w) (set_backend v be)).

Definition hop_link (ctx : MemCtx) : D Hop :=
  v ← vm_;
  c ← vcpu_;
  let since := epoch (cache v) in
  r ← resolve_at (fetch_flat (rip (cpu c)));
  match r with
  | Ok (Compiled e) =>
      published ← publish_slot since (link_slot ctx) e;
      if published : bool then (put_fast (rip (cpu c)) e;; mret (Go e)) else mret Stop
  | Ok (Interpreted _) => mret Stop
  | Err ex => mret (Away ex)
  end.

Definition ibtc_entry : D (Result (option Z) Exit) :=
  c ← vcpu_;
  hit ← opt (fast_get c (rip (cpu c)));
  match hit with
  | Some e => on_vcpu (fun v => set_fast_hits v (wrapping_add 64 (fast_hits v) 1));; mret (Ok (Some e))
  | None =>
      r ← resolve_at (fetch_flat (rip (cpu c)));
      match r with
      | Ok (Compiled e) => put_fast (rip (cpu c)) e;; mret (Ok (Some e))
      | Ok (Interpreted _) => mret (Ok None)
      | Err ex => mret (Err ex)
      end
  end.

Definition hop_ibtc (ctx : MemCtx) : D Hop :=
  v ← vm_;
  let since := epoch (cache v) in
  r ← ibtc_entry;
  match r with
  | Err ex => mret (Away ex)
  | Ok None => mret Stop
  | Ok (Some e) =>
      c ← vcpu_;
      let slot := link_slot ctx in
      let count := default 0 (ibtc_refills c !! slot) in
      if count <? IBTC_MEGAMORPHIC_CAP then
        on_vcpu (fun c => set_refills c (<[slot := count + 1]> (ibtc_refills c)));;
        v ← vm_;
        let desc := descriptor_addr (backend v) (cache v) in
        on_vm (fun v => set_cache v (alloc_ibtc_descriptor (cache v) (rip (cpu c)) e));;
        published ← publish_slot since slot desc;
        mret (if published : bool then Go e else Stop)
      else
        on_vcpu (fun c => set_refills c (<[slot := count]> (ibtc_refills c)));;
        mret (Go e)
  end.

(** [None]: the code is not one of the ABI. *)
Definition after_call (code : Z) (ctx : MemCtx) : D Hop :=
  if code =? RET_CONTINUE then mret Stop
  else if code =? RET_CHAIN then
    on_vcpu (fun v => set_v_chained v (wrapping_add 64 (v_chained v) 1));; mret (Go (next_entry ctx))
  else if code =? RET_LINK then hop_link ctx
  else if code =? RET_IBTC_MISS then hop_ibtc ctx
  else if code =? RET_SYSCALL then mret (Away ESyscall)
  else if code =? RET_HLT then mret (Away EHlt)
  else if code =? RET_UNMAPPED then mret (Away (unmapped_exit ctx))
  else if code =? RET_MMIO_DEFER then defer_step
  else if code =? RET_PORTIO_DEFER then defer_step
  else if code =? RET_EXCEPTION then
    v ← vcpu_; mret (Away (EException (rip (cpu v)) (wrap 8 (exception_vector ctx))))
  else opt None.

(** [call_block] with the context's fuel set to [quantum]; the blocks it charges. *)
Definition call (entry : Z) (ctx : MemCtx) (quantum : Z) : D (Z * MemCtx * Z) := fun w =>
  let v := w_vcpu w in
  o ← call_block (backend (w_vm w)) entry (cpu v) (set_fuel ctx quantum) (v_ret_stack v) (v_executed v) (mem (w_vm w));
  if quantum <? fuel (co_ctx o) then None
  else Some ((co_code o, co_ctx o, Z.max (quantum - fuel (co_ctx o)) 1), mkWorld (set_called v o) (set_mem (w_vm w) (co_mem o))).

(** One compiled block on its own, with a scratch context (jit_abi.rs); [None]: a code it does
    not know. *)
Definition run_compiled (b : B) (entry : Z) (c : CpuState) (m : Memory) (mo : CpuMode) : option (StepResult * CpuState * Memory) :=
  ctx ← for_memory m;
  o ← call_block b entry c ctx new_ret_stack 0 m;
  let code := co_code o in
  if (code =? RET_CONTINUE) || (code =? RET_CHAIN) || (code =? RET_LINK) || (code =? RET_IBTC_MISS) then Some (Continue, co_cpu o, co_mem o)
  else if code =? RET_SYSCALL then Some (SExit ESyscall, co_cpu o, co_mem o)
  else if code =? RET_HLT then Some (SExit EHlt, co_cpu o, co_mem o)
  else if code =? RET_UNMAPPED then Some (SExit (unmapped_exit (co_ctx o)), co_cpu o, co_mem o)
  else if code =? RET_MMIO_DEFER then '(r, _, c, m) ← step_one (co_cpu o) (co_mem o) mo; Some (r, c, m)
  else if code =? RET_EXCEPTION then Some (SExit (EException (rip (co_cpu o)) (wrap 8 (exception_vector (co_ctx o)))), co_cpu o, co_mem o)
  else None.

Definition spent (budget : option Z) (blocks_run : Z) : bool :=
  match budget with Some b => b <=? blocks_run | None => false end.

(** The chain loop; the context lives as long as the run. *)
Fixpoint chain (n : nat) (budget : option Z) (entry blocks_run : Z) (ctx : MemCtx) : D (Next * MemCtx) :=
  match n with
  | O => opt None
  | S n =>
      v ← vm_;
      if has_dirty_code (mem v) then mret (Again blocks_run, ctx)
      else
        quantum ← opt (match budget with
                       | None => Some U64_MAX
                       | Some b => if b <? blocks_run then None else Some (b - blocks_run)
                       end);
        '(code, ctx, charged) ← call entry ctx quantum;
        let blocks_run := wrapping_add 64 blocks_run charged in
        h ← after_call code ctx;
        match h with
        | Away e => mret (Out e, ctx)
        | Stop => mret (Again blocks_run, ctx)
        | Go e => if spent budget blocks_run then mret (Out BudgetExhausted, ctx) else chain n budget e blocks_run ctx
        end
  end.

(** *** The run loop *)

Definition dispatch (n : nat) (budget : option Z) (blocks_run : Z) (ctx : MemCtx) : D (Next * MemCtx) :=
  r ← find_block;
  match r with
  | Err e => mret (Out e, ctx)
  | Ok (Interpreted ir) => x ← run_interpreted ir blocks_run; mret (x, ctx)
  | Ok (Compiled e) => chain n budget e blocks_run ctx
  end.

Definition turn (n : nat) (budget : option Z) (blocks_run : Z) (ctx : MemCtx) : D (Next * MemCtx) :=
  if spent budget blocks_run then mret (Out BudgetExhausted, ctx)
  else
    on_vm handle_smc;;
    sync_fast;;
    v ← vcpu_;
    if mmio_waits (cpu v) then x ← resume_mmio blocks_run; mret (x, ctx)
    else
      match pending_irq v with
      | Some vector => if deliverable v then x ← take_irq vector blocks_run; mret (x, ctx)
                       else dispatch n budget blocks_run ctx
      | None => dispatch n budget blocks_run ctx
      end.

(** [n] bounds the turns, and the hops of each chain. *)
Fixpoint run_loop (n : nat) (hops : nat) (budget : option Z) (blocks_run : Z) (ctx : MemCtx) : D Exit :=
  match n with
  | O => opt None
  | S n =>
      '(x, ctx) ← turn hops budget blocks_run ctx;
      match x with
      | Out e => mret e
      | Again k => run_loop n hops budget k ctx
      end
  end.

Definition run_inner (n : nat) (budget : option Z) : D Exit :=
  v ← vm_; ctx ← opt (for_memory (mem v)); run_loop n n budget 0 ctx.

Definition run (n : nat) (budget : option Z) : D Exit :=
  e ← run_inner n budget;
  v ← vcpu_;
  on_vm (fun m => set_cache m (add_chained (cache m) (v_chained v)));;
  on_vcpu (fun v => set_v_chained v 0);;
  mret e.
End Run.
Arguments World : clear implicits.
Arguments D : clear implicits.
