(* ===== verification/Evolve.v ===== *)
(** * What a block does to the memory

    The interpreter changes guest bytes only through the accesses of [Memory], which note
    every write: after any op the regions and the page tags are as before, and a byte that
    changed on a tagged page has put its page in the dirty list.  This is what the
    dispatcher relies on to drop stale translations. *)

From S2P Require Import Prelude Features State Ir Alu Memory PageTrack Interp IntegerSpec StringOps Control HostFloat F80 F80Trans X87 X87Arm VecOps VecFloat VecMem VecCpu VecArm VecOp VecRange VecSafe VecAtomic VecTotal Block Frame Walk Lift Cache ElideSpec.

(** ** The relation *)

Definition page_of (a : Z) : Z := Z.shiftr a CODE_PAGE_BITS.

(** The regions lie in the guest space and the tags are consistent. *)
Record tracked (m : Memory) : Prop := {
  tr_regions : Forall (region_ok (model m) (m_guest_base m)) (regions m);
  tr_base : 0 <= m_guest_base m;
  tr_span : model_span (model m) < 2 ^ 64;
  tr_tags : mem_tags_ok m;
}.

Record evolves (m m' : Memory) : Prop := {
  ev_tracked : tracked m';
  ev_regions : regions m' = regions m;
  ev_model : model m' = model m;
  ev_base : m_guest_base m' = m_guest_base m;
  ev_code : code_page m' = code_page m;
  ev_dirty : forall p, p ∈ dirty m -> p ∈ dirty m';
  ev_written : forall a, v_byte (view m') a <> v_byte (view m) a ->
    is_code_page m (page_of a) = true -> page_of a ∈ dirty m';
}.

Lemma evolves_refl m : tracked m -> evolves m m.
Proof. by split. Qed.
Lemma evolves_trans m1 m2 m3 : evolves m1 m2 -> evolves m2 m3 -> evolves m1 m3.
Proof.
  intros H1 H2. destruct H1 as [A1 A2 A3 A4 A5 A6 A7], H2 as [B1 B2 B3 B4 B5 B6 B7]. split; [done|congruence..|by auto|].
  intros a Ha Hc. destruct (decide (v_byte (view m3) a = v_byte (view m2) a)) as [E|E].
  - apply B6, A7; [congruence|done].
  - apply B7; [done|]. unfold is_code_page in *. by rewrite A5.
Qed.

(** ** The accesses *)

(** What a backing operation at [off], [n] bytes wide, may change. *)
Definition within (b b' : Backing) (off n : Z) : Prop :=
  forall i, ~ (off <= i < off + n) -> get_byte (b_bytes b') i = get_byte (b_bytes b) i.

Lemma within_refl b off n : within b b off n.
Proof. done. Qed.
Lemma raw_write_within b off v n b' : raw_write b off v n = Some b' -> within b b' off n.
Proof.
  unfold raw_write. destruct (_ && _); [|done]. intros [= <-] i Hi. cbn [b_bytes set_bytes]. rewrite get_store_bytes, length_to_le_bytes.
  destruct (Z.leb_spec off i), (Z.ltb_spec i (off + Z.of_nat (Z.to_nat n))); cbn [andb]; try done. lia.
Qed.
Lemma copy_in_within b off l b' : copy_in b off l = Some b' -> within b b' off (Z.of_nat (length l)).
Proof.
  unfold copy_in. destruct (_ && _); [|done]. intros [= <-] i Hi. cbn [b_bytes set_bytes]. rewrite get_store_bytes.
  destruct (Z.leb_spec off i), (Z.ltb_spec i (off + Z.of_nat (length l))); cbn [andb]; try done. lia.
Qed.
Lemma plain_write_within b off v n b' : plain_write b off v n = Some b' -> within b b' off n.
Proof. unfold plain_write. case_match; [|done]. apply raw_write_within. Qed.
Lemma store_le_within b off v n b' : atomic_store_le b off v n = Some b' -> within b b' off n.
Proof.
  unfold atomic_store_le.
  repeat match goal with |- context [if ?c then _ else _] => destruct c eqn:?; [|] end;
    repeat match goal with E : _ && _ = true |- _ => apply andb_true_iff in E as [E _] end;
    repeat match goal with E : (n =? _) = true |- _ => apply Z.eqb_eq in E as -> end; eauto using raw_write_within, plain_write_within.
Qed.
Lemma rmw_within b off src n op old b' : valid_elem n -> atomic_rmw_raw b off src n op = Some (old, b') -> within b b' off n.
Proof.
  intros Hn. unfold atomic_rmw_raw, rmw_at. unfold valid_elem in Hn.
  destruct Hn as [-> |[-> |[-> | ->]]]; cbn [Z.eqb Pos.eqb]; case_match;
    (destruct (raw_read _ _ _) || destruct (plain_read _ _ _)); try done; cbn [mbind option_bind];
    match goal with |- context [?w b off ?v ?k] => destruct (w b off v k) eqn:E end; try done; cbn [mbind option_bind]; intros [= <- <-];
    eauto using raw_write_within, plain_write_within.
Qed.
Lemma cas_within b off ex src n old b' : valid_elem n -> atomic_cas_raw b off ex src n = Some (old, b') -> within b b' off n.
Proof.
  intros Hn. unfold atomic_cas_raw, cas_at. unfold valid_elem in Hn.
  destruct Hn as [-> |[-> |[-> | ->]]]; cbn [Z.eqb Pos.eqb]; case_match;
    (destruct (raw_read _ _ _) || destruct (plain_read _ _ _)); try done; cbn [mbind option_bind]; (case_match; [|by intros [= <- <-]]);
    match goal with |- context [?w b off ?v ?k] => destruct (w b off v k) eqn:? end; try done; cbn [mbind option_bind]; intros [= <- <-];
    eauto using raw_write_within, plain_write_within.
Qed.

Lemma contains_bounds m r a n : tracked m -> r ∈ regions m -> contains a (a + n) r = true -> 0 <= a /\ start r <= a /\ a + n <= start r + size r.
Proof.
  intros [Hr Hb Hs _] Hin Hc. rewrite list.Forall_forall in Hr. destruct (Hr r Hin) as (H1 & H2 & H3).
  unfold contains, region_end, wrap in Hc. rewrite Z.mod_small in Hc by lia. apply andb_true_iff in Hc as [Hc1 Hc2]. lia.
Qed.
Lemma note_evolves m b r a n : tracked m -> r ∈ regions m -> contains a (a + n) r = true ->
  within (backing m) b (host_off m a) n -> evolves m (note_write (set_backing m b) a n).
Proof.
  intros Ht Hin Hc Hw. destruct (contains_bounds m r a n Ht Hin Hc) as (Ha & H1 & H2).
  assert (Hlt : a + n < 2 ^ 64 /\ m_guest_base m <= a /\ (0 < n -> a < 2 ^ 64)).
  { destruct Ht as [Hr Hb Hs _]. rewrite list.Forall_forall in Hr. destruct (Hr r Hin) as (? & ? & ?). lia. }
  destruct (note_write_space (set_backing m b) a n) as (E1 & E2 & E3 & E4 & E5 & E6).
  assert (Htb : mem_tags_ok (set_backing m b)) by (destruct (tr_tags m Ht) as [[] ? ?]; split; [by split|done|done]).
  destruct (@write_law Memory _ memory_tag_laws (set_backing m b) a n Htb Ha) as (L1 & _ & L3 & L4). cbn in L1, L3, L4.
  split; try done.
  - destruct Ht as [A1 A2 A3 A4]. split; [rewrite E3, E1, E4|rewrite E4|rewrite E1|]; done.
  - intros p Hp. apply L4. by left.
  - intros x Hx Hp. apply L4. right. split; [|done]. cbn [view v_byte] in Hx. rewrite E2, E4 in Hx. cbn [backing set_backing m_guest_base] in Hx.
    assert (Hi : host_off m a <= x - m_guest_base m < host_off m a + n).
    { destruct (decide (host_off m a <= x - m_guest_base m < host_off m a + n)) as [?|Hn]; [done|]. by rewrite (Hw _ Hn) in Hx. }
    unfold host_off, wrapping_sub, wrap in Hi. pose proof (tr_base m Ht). rewrite Z.mod_small in Hi by lia.
    rewrite code_page_range_eq by lia. unfold page_of. rewrite page_shift. apply zseq_elem.
    assert (a / 4096 <= x / 4096) by (apply Z.div_le_mono; lia). assert (x / 4096 <= (a + n - 1) / 4096) by (apply Z.div_le_mono; lia). lia.
Qed.

(** A computation that returns the memory, started where [m0] had evolved to. *)
Definition eom {A} (m0 : Memory) (x : option (A * Memory)) : Prop :=
  match x with Some (_, m') => evolves m0 m' | None => True end.

Section Accesses.
Context (m0 : Memory).

Lemma eom_bind {A B} (x : option (A * Memory)) (k : A * Memory -> option (B * Memory)) :
  eom m0 x -> (forall a m, evolves m0 m -> eom m0 (k (a, m))) -> eom m0 (x ≫= k).
Proof. intros Hx Hk. destruct x as [[a m]|]; [by apply Hk|exact I]. Qed.
Lemma eom_some {A} (a : A) m : evolves m0 m -> eom m0 (Some (a, m)).
Proof. done. Qed.
Lemma eom_pure {A B} (x : option A) (k : A -> option (B * Memory)) : (forall a, eom m0 (k a)) -> eom m0 (x ≫= k).
Proof. intros Hk. destruct x; [apply Hk|exact I]. Qed.

Lemma region_at_evolves m a n : evolves m0 m ->
  match region_at m a n with
  | (Ok r, m') => evolves m0 m' /\ r ∈ regions m' /\ contains a (a + n) r = true
  | (Err _, m') => evolves m0 m'
  end.
Proof.
  intros Hm. unfold region_at, checked_add. destruct (a + n <? 2 ^ 64); [|done].
  assert (Hs : match (match list_find (fun r => contains a (a + n) r = true) (regions m) with
    | Some (i, r) => (Ok r, set_last_region m i) | None => (Err Unmapped, m) end : Result Region MemTrap * Memory) with
    | (Ok r, m') => evolves m0 m' /\ r ∈ regions m' /\ contains a (a + n) r = true | (Err _, m') => evolves m0 m' end).
  { destruct (list_find _ _) as [[i r]|] eqn:E; [|done]. apply list_find_Some in E as (Hi & Hc & _). apply list_elem_of_lookup_2 in Hi.
    split; [|done]. destruct Hm as [[A1 A2 A3 A4] B1 B2 B3 B4 B5 B6]. split; try done. split; try done. destruct A4 as [[] ? ?]; split; [by split|done|done]. }
  destruct (regions m !! last_region m) as [r|] eqn:E; [|exact Hs]. destruct (contains a (a + n) r) eqn:Ec; [|exact Hs].
  split; [done|]. split; [by eapply list_elem_of_lookup_2|done].
Qed.
Lemma region_for_evolves m a n r : region_for m a n = Some r -> r ∈ regions m /\ contains a (a + n) r = true.
Proof.
  unfold region_for, checked_add. destruct (a + n <? 2 ^ 64); [|done]. cbn [mbind option_bind]. destruct (list_find _ _) as [[i r']|] eqn:E; [|done].
  intros [= ->]. apply list_find_Some in E as (Hi & Hc & _). by apply list_elem_of_lookup_2 in Hi.
Qed.

Lemma read_evolves m a n : evolves m0 m -> eom m0 (read m a n).
Proof.
  intros Hm. unfold read. pose proof (region_at_evolves m a n Hm) as H. destruct (region_at m a n) as [[r|t] m']; [|done].
  destruct H as [H _]. destruct (kind r); try done; destruct (atomic_load_le _ _ _); done.
Qed.
Lemma probe_evolves m a n : evolves m0 m -> eom m0 (Some (probe_write m a n)).
Proof.
  intros Hm. unfold probe_write. pose proof (region_at_evolves m a n Hm) as H. destruct (region_at m a n) as [[r|t] m']; [|done].
  destruct H as [H _]. by destruct (kind r).
Qed.
Lemma store_evolves {A} m (x : A) a n b r : evolves m0 m -> r ∈ regions m -> contains a (a + n) r = true ->
  within (backing m) b (host_off m a) n -> eom m0 (Some (x, note_write (set_backing m b) a n)).
Proof. intros Hm Hr Hc Hw. eapply evolves_trans; [exact Hm|]. eapply note_evolves; [apply Hm|done..]. Qed.
Lemma write_evolves m a v n : evolves m0 m -> eom m0 (write m a v n).
Proof.
  intros Hm. unfold write. pose proof (region_at_evolves m a n Hm) as H. destruct (region_at m a n) as [[r|t] m']; [|done].
  destruct H as (H & Hr & Hc). destruct (kind r); try done. destruct (atomic_store_le _ _ _ _) as [b|] eqn:E; [|done]. cbn [mbind option_bind].
  eapply store_evolves; [done..|by eapply store_le_within].
Qed.
Lemma atomic_rmw_evolves m a src n op : valid_elem n -> evolves m0 m -> eom m0 (atomic_rmw m a src n op).
Proof.
  intros Hn Hm. unfold atomic_rmw. pose proof (region_at_evolves m a n Hm) as H. destruct (region_at m a n) as [[r|t] m']; [|done].
  destruct H as (H & Hr & Hc). destruct (kind r); [|done|by destruct (atomic_load_le _ _ _)].
  destruct (atomic_rmw_raw _ _ _ _ _) as [[old b]|] eqn:E; [|done]. cbn [mbind option_bind].
  eapply store_evolves; [done..|by eapply rmw_within].
Qed.
Lemma atomic_cas_evolves m a ex src n : valid_elem n -> evolves m0 m -> eom m0 (atomic_cas m a ex src n).
Proof.
  intros Hn Hm. unfold atomic_cas. pose proof (region_at_evolves m a n Hm) as H. destruct (region_at m a n) as [[r|t] m']; [|done].
  destruct H as (H & Hr & Hc). destruct (kind r); [|done|by destruct (atomic_load_le _ _ _)].
  destruct (atomic_cas_raw _ _ _ _ _) as [[old b]|] eqn:E; [|done]. cbn [mbind option_bind].
  eapply store_evolves; [done..|by eapply cas_within].
Qed.
Lemma write_ram_evolves m a l : evolves m0 m -> eom m0 (write_ram_guest m a l).
Proof.
  intros Hm. unfold write_ram_guest. destruct (region_for m a _) as [r|] eqn:E; [|done]. apply region_for_evolves in E as [Hr Hc].
  destruct (kind r); try done. destruct (copy_in _ _ _) as [b|] eqn:Eb; [|done]. cbn [mbind option_bind].
  eapply store_evolves; [done..|by eapply copy_in_within].
Qed.
End Accesses.

Create HintDb evo.
#[export] Hint Resolve eom_some read_evolves probe_evolves write_evolves write_ram_evolves : evo.

(** ** The arms *)

Definition evo {A} (x : M A) : Prop := forall s, tracked (m_mem s) ->
  match x s with Some (_, s') => evolves (m_mem s) (m_mem s') | None => True end.

Lemma evo_bind {A B} (x : M A) (k : A -> M B) : evo x -> (forall a, evo (k a)) -> evo (x ≫= k).
Proof.
  intros Hx Hk s Hs. specialize (Hx s Hs). unfold mbind, M_bind. destruct (x s) as [[a s1]|]; [|exact I].
  pose proof (Hk a s1 (ev_tracked _ _ Hx)) as H. destruct (k a s1) as [[b s2]|]; [|exact I]. by eapply evolves_trans.
Qed.
(** A step that returns the memory it was given. *)
Lemma evo_still {A} (x : M A) : (forall s a s', x s = Some (a, s') -> m_mem s' = m_mem s) -> evo x.
Proof. intros Hx s Hs. destruct (x s) as [[a s']|] eqn:E; [|exact I]. rewrite (Hx _ _ _ E). by apply evolves_refl. Qed.
Lemma evo_ret {A} (a : A) : evo (mret a).
Proof. apply evo_still. by intros ? ? ? [= _ <-]. Qed.
Lemma evo_get : evo get_cpu.
Proof. apply evo_still. by intros ? ? ? [= _ <-]. Qed.
Lemma evo_read v : evo (read_val v).
Proof. apply evo_still. intros s a s'. unfold read_val. destruct v; [|by intros [= _ <-]]. destruct (_ !! _); by intros [= _ <-]. Qed.
Lemma evo_temp t v : evo (set_temp t v).
Proof. apply evo_still. intros s a s'. unfold set_temp. destruct (_ !! _); by intros [= _ <-]. Qed.
Lemma evo_upd f : evo (upd_cpu f).
Proof. apply evo_still. by intros ? ? ? [= _ <-]. Qed.
Lemma evo_try f : evo (try_cpu f).
Proof. apply evo_still. intros s a s'. unfold try_cpu. destruct (f _); by intros [= _ <-]. Qed.
Lemma evo_ask {A} (f : CpuState -> option A) : evo (ask f).
Proof. apply evo_still. intros s a s'. unfold ask. destruct (f _); by intros [= _ <-]. Qed.
Lemma evo_mem {A} (f : Memory -> option (A * Memory)) : (forall m0 m, evolves m0 m -> eom m0 (f m)) -> evo (on_mem f).
Proof.
  intros Hf s Hs. unfold on_mem. pose proof (Hf _ _ (evolves_refl _ Hs)) as H. destruct (f (m_mem s)) as [[a m]|]; [|exact I]. exact H.
Qed.

Definition evr (run : CpuState -> Memory -> option (option StrFault * CpuState * Memory)) : Prop :=
  forall m0 c m, evolves m0 m -> eom m0 (run c m).
Lemma evo_run_str run : evr run -> evo (run_str run).
Proof.
  intros Hr s Hs. unfold run_str. pose proof (Hr _ (m_cpu s) _ (evolves_refl _ Hs)) as H.
  destruct (run _ _) as [[[f c] m]|]; [|exact I]. exact H.
Qed.
Lemma evo_panic {A} : evo (panic (A := A)).
Proof. done. Qed.
#[export] Hint Resolve evo_panic evo_ret evo_get evo_read evo_temp evo_upd evo_try evo_ask : evo.

(** Down a run over the memory: the accesses are the only steps. *)
Ltac eom :=
  cbn beta zeta;
  lazymatch goal with
  | |- eom _ (mbind _ ?x) =>
      lazymatch type of x with
      | option (_ * Memory) => apply eom_bind; [eom|intros ? ? ?; eom]
      | option (_ * _ * Memory) => apply eom_bind; [eom|intros ? ? ?; eom]
      | _ => apply eom_pure; intros ?; eom
      end
  | |- eom _ (if ?c then _ else _) => destruct c; eom
  | |- eom _ (match ?x with _ => _ end) => destruct x; eom
  | |- eom _ (let '(_, _) := ?x in _) => destruct x; eom
  | |- eom _ None => exact I
  | |- eom _ (Some _) => first [by apply eom_some|by apply probe_evolves]
  | |- eom _ (sload _ _ _) => by apply read_evolves
  | |- eom _ (sstore _ _ _ _) => by apply write_evolves
  | |- eom _ (fp_store _ _ _) => by apply write_ram_evolves
  | |- eom _ ?x => first [solve [auto 2 with evo] | let h := head_of x in unfold h; eom]
  end.

Ltac evo :=
  cbn beta zeta;
  lazymatch goal with
  | |- evo (mbind _ _) => apply evo_bind; [evo|intros ?; evo]
  | |- evo (on_mem _) => apply evo_mem; intros ? ? ?; eom
  | |- evo (if ?c then _ else _) => destruct c; evo
  | |- evo (match ?x with _ => _ end) => destruct x; evo
  | |- evo (run_str _) => apply evo_run_str; intros ? ? ? ?; eom
  | |- evo ?x => first [solve [auto 2 with evo] | let h := head_of x in unfold h; evo]
  end.

Section Runs.
Context (m0 : Memory).

Lemma load_lanes_evolves n m b i : evolves m0 m -> eom m0 (load_lanes_loop m b n i).
Proof. revert m i. induction n as [|n IH]; intros m i Hm; cbn [load_lanes_loop]; eom. Qed.
Lemma gf2p8_evolves op al n m a imm i : evolves m0 m -> eom m0 (gf2p8_loop op al m a imm n i).
Proof. revert m i. induction n as [|n IH]; intros m i Hm; cbn [gf2p8_loop]; eom. Qed.
Lemma load_chunk_evolves n m b i : evolves m0 m -> eom m0 (load_chunk m b n i).
Proof. revert m i. induction n as [|n IH]; intros m i Hm; cbn [load_chunk]; eom. Qed.
Lemma masked_load_evolves n m b k e z i l : evolves m0 m -> eom m0 (masked_load_loop m b k e z n i l).
Proof. revert m i l. induction n as [|n IH]; intros m i l Hm; cbn [masked_load_loop]; eom. Qed.
Lemma store_loop_evolves n m act val b e i : evolves m0 m -> eom m0 (store_loop m act val b e n i).
Proof. revert m i. induction n as [|n IH]; intros m i Hm; cbn [store_loop]; eom. Qed.
End Runs.
#[export] Hint Resolve load_lanes_evolves gf2p8_evolves load_chunk_evolves masked_load_evolves store_loop_evolves : evo.

Section Loops.
Context (ca : Z).

Lemma push_all_evo l : evo (push_all ca l).
Proof. induction l; cbn [push_all]; evo. Qed.
Lemma pop_all_evo l : evo (pop_all ca l).
Proof. induction l as [|[] l IH]; cbn [pop_all]; evo. Qed.
Lemma enter_display_evo k bp : evo (enter_display ca k bp).
Proof. revert bp. induction k; intros bp; cbn [enter_display]; evo. Qed.
Lemma str_loop_evolves op e rep ab sb db step k m0 c m : evolves m0 m -> eom m0 (str_loop op e rep ca ab sb db step k c m).
Proof. revert c m. induction k as [|k IH]; intros c m Hm; cbn [str_loop]; eom. Qed.
Lemma vload_loop_evo b k i : evo (vload_loop ca b k i).
Proof. revert i. induction k as [|k IH]; intros i; cbn [vload_loop]; evo. Qed.
Lemma store_lanes_evo a l i : evo (store_lanes ca a l i).
Proof. revert i. induction l as [|v l IH]; intros i; cbn [store_lanes]; evo. Qed.
Lemma lane_by_lane_evo dst a ea f k l : evo (lane_by_lane ca dst a ea f k l).
Proof. revert l. induction k as [|k IH]; intros l; cbn [lane_by_lane]; evo. Qed.
Lemma collect_evo a ea f k l out j : (forall o, evo (j o)) -> evo (collect_halves ca a ea f k l out j).
Proof. intros Hj. revert l out. induction k as [|k IH]; intros l out; cbn [collect_halves]; evo. Qed.
Lemma load_each_evo av k i out j : (forall o, evo (j o)) -> evo (load_each ca av k i out j).
Proof. intros Hj. revert i out. induction k as [|k IH]; intros i out; cbn [load_each]; evo. Qed.
Lemma probe_evo a k i x : evo x -> evo (probe_lanes ca a k i x).
Proof. intros Hx. revert i. induction k as [|k IH]; intros i; cbn [probe_lanes]; evo. Qed.
End Loops.
#[export] Hint Resolve push_all_evo pop_all_evo enter_display_evo str_loop_evolves vload_loop_evo store_lanes_evo lane_by_lane_evo : evo.

Lemma exec_vec_evo ca op : evo (exec_vec ca op).
Proof.
  unfold exec_vec. destruct op; cbn [omap list_omap id head vec_arm_1 vec_arm_2 vec_arm_3 vec_arm_4 vec_arm_5 vec_arm_6 vec_arm_7
    vec_arm_8 vec_arm_9 vec_arm_10 vec_arm_11 vec_arm_12 vec_arm_13 vec_arm_14].
  all: try (timeout 20 solve [evo]).
  - unfold exec_v_extract_lane_wide_m. do 2 (apply evo_bind; [evo|intros ?]). apply probe_evo. evo.
  - unfold exec_v_p_round_m. apply evo_bind; [evo|intros ?]. destruct scalar; [evo|]. apply collect_evo. intros. evo.
  - unfold exec_v_h_float_m. apply evo_bind; [evo|intros ?]. apply load_each_evo. intros. evo.
  - unfold exec_v_h_int_m. apply evo_bind; [evo|intros ?]. apply collect_evo. intros. evo.
Qed.

(** ** The x87 unit *)

Section FpEvolve.
Context `{Libm}.

Definition xevo {A} (x : X Memory A) : Prop := forall m0 c m, evolves m0 m -> eom m0 (x c m).

Lemma xe_bind {A B} (x : X Memory A) (k : A -> X Memory B) : xevo x -> (forall a, xevo (k a)) -> xevo (x ≫= k).
Proof.
  intros Hx Hk m0 c m Hm. specialize (Hx m0 c m Hm). unfold mbind, x_bind. destruct (x c m) as [[[r c1] m1]|]; [|exact I].
  destruct r; [by apply Hk|done..].
Qed.
Lemma xe_ret {A} (a : A) : xevo (mret a).
Proof. by intros m0 c m Hm. Qed.
Lemma xe_cpu : xevo x_cpu.
Proof. by intros m0 c m Hm. Qed.
Lemma xe_panic : xevo x_panic.
Proof. by intros m0 c m Hm. Qed.
Lemma xe_upd f : xevo (x_upd f).
Proof. by intros m0 c m Hm. Qed.
Lemma xe_try f : xevo (x_try f).
Proof. intros m0 c m Hm. unfold x_try. by destruct (f c). Qed.
Lemma xe_raise e : xevo (x_raise e).
Proof. intros m0 c m Hm. unfold x_raise. destruct (raise c e) as [[] c1]; done. Qed.
Lemma xe_operand i : xevo (operand i).
Proof. intros m0 c m Hm. unfold operand. destruct (st_operand c i) as [[v|] c1]; done. Qed.
Lemma xe_pop : xevo x_pop.
Proof. intros m0 c m Hm. unfold x_pop. by destruct (pop c) as [[v c1]|]. Qed.
Lemma xe_read a n : xevo (read_n a n).
Proof. intros m0 c m Hm. unfold read_n. destruct (fp_load m a n) as [[]|]; done. Qed.
Lemma xe_write a l : xevo (write_bytes_at a l).
Proof.
  intros m0 c m Hm. unfold write_bytes_at. pose proof (write_ram_evolves m0 m a l Hm) as E. change (fp_store m a l) with (write_ram_guest m a l).
  destruct (write_ram_guest m a l) as [[[] m1]|]; exact E.
Qed.
#[local] Hint Resolve xe_ret xe_cpu xe_panic xe_upd xe_try xe_raise xe_operand xe_pop xe_read xe_write : evo.
#[local] Ltac xe :=
  cbn beta zeta;
  lazymatch goal with
  | |- xevo (mbind _ _) => apply xe_bind; [xe|intros ?; xe]
  | |- xevo (if ?b then _ else _) => destruct b; xe
  | |- xevo (match ?x with _ => _ end) => destruct x; xe
  | |- xevo ?x => first [solve [auto with evo] | let h := head_of x in unfold h; xe]
  end.

Lemma exec_x87_evo kind addr sti : xevo (exec_x87_op kind addr sti).
Proof. unfold exec_x87_op. apply xe_bind; [apply xe_cpu|]. intros c0. destruct kind; xe. Qed.
Lemma run_fp_evo ca (x : X Memory unit) : xevo x -> evo (run_fp ca (fun c m => '(r, c, m) ← x c m; Some (x_fault r, c, m))).
Proof.
  intros Hx s Hs. unfold run_fp. pose proof (Hx _ (m_cpu s) _ (evolves_refl _ Hs)) as E.
  destruct (x (m_cpu s) (m_mem s)) as [[[r c1] m1]|]; [|exact I]. cbn [mbind option_bind]. by destruct (x_fault r).
Qed.
Lemma exec_x87_arm_evo ca kind addr sti : evo (exec_x87_arm ca kind addr sti).
Proof.
  unfold exec_x87_arm. apply evo_bind; [evo|intros a]. apply evo_bind; [evo|intros c]. destruct (mf_pending_before c kind); [evo|].
  apply run_fp_evo, exec_x87_evo.
Qed.
Lemma exec_fx_state_evo ca addr restore : evo (exec_fx_state ca addr restore).
Proof.
  unfold exec_fx_state. apply evo_bind; [evo|intros a]. apply run_fp_evo. unfold exec_fxstate_op. destruct restore; xe.
Qed.
End FpEvolve.

(** ** Ops and blocks *)

Lemma exec_atomic_rmw_evo ca old addr src size op : valid_elem size -> evo (exec_atomic_rmw ca old addr src size op).
Proof. intros Hn. unfold exec_atomic_rmw. do 2 (apply evo_bind; [evo|intros ?]). apply evo_bind; [|intros ?; evo]. apply evo_mem. intros. by apply atomic_rmw_evolves. Qed.
Lemma exec_atomic_cas_evo ca old addr ex src size : valid_elem size -> evo (exec_atomic_cas ca old addr ex src size).
Proof. intros Hn. unfold exec_atomic_cas. do 3 (apply evo_bind; [evo|intros ?]). apply evo_bind; [|intros ?; evo]. apply evo_mem. intros. by apply atomic_cas_evolves. Qed.

Lemma deliver_evo ca vec ip : evo (deliver_interrupt ca vec ip).
Proof. evo. Qed.
#[export] Hint Resolve deliver_evo : evo.

Lemma at_end_evo ir k : (forall e, evo (k e)) -> evo (at_end ir k).
Proof. intros Hk s Hs. unfold at_end. destruct (block_end ir); [by apply Hk|exact I]. Qed.

Lemma exec_op_evo `{Libm} ir n ca op : op_wf n op -> evo (exec_op ir ca op).
Proof.
  intros Hop. destruct op; cbn [exec_op op_wf] in *;
    lazymatch goal with
    | |- evo (exec_atomic_rmw _ _ _ _ _ _) => apply exec_atomic_rmw_evo, Hop
    | |- evo (exec_atomic_cas _ _ _ _ _ _) => apply exec_atomic_cas_evo, Hop
    | |- evo (exec_x87_arm _ _ _ _) => apply exec_x87_arm_evo
    | |- evo (exec_fx_state _ _ _) => apply exec_fx_state_evo
    | |- evo (exec_vec _ _) => apply exec_vec_evo
    | |- evo (at_end _ _) => apply at_end_evo; intros; evo
    | |- _ => unfold_arms; evo
    end.
Qed.

Lemma walk_ops_evolves `{Libm} ir n l w s r w' s' : Forall (op_wf n) l -> tracked (m_mem s) ->
  walk_ops ir l w s = Some (r, w', s') -> evolves (m_mem s) (m_mem s').
Proof.
  revert w s. induction l as [|op l IH]; intros w s Hl Hs E; cbn [walk_ops] in E.
  - destruct (block_end ir); [|done]. injection E as <- <- <-. by apply evolves_refl.
  - apply list.Forall_cons in Hl as [Hop Hl]. pose proof (exec_op_evo ir n (w_cur w) op Hop s Hs) as He.
    destruct (exec_op ir (w_cur w) op s) as [[[r1|] s1]|]; [by injection E as <- <- <-| |done].
    eapply evolves_trans; [exact He|]. eapply IH; [done|apply He|exact E].
Qed.

Lemma block_evolves `{Libm} ir c m r info c' m' : Forall (op_wf (temp_count ir)) (ops ir) -> tracked m ->
  interpret_block ir c m = Some (r, info, c', m') -> evolves m m'.
Proof.
  intros Hl Hm. unfold interpret_block. destruct (walk_ops _ _ _ _) as [[[r0 w] s]|] eqn:E; [|done]. cbn [mbind option_bind].
  intros [= <- <- <- <-]. by eapply (walk_ops_evolves ir (temp_count ir) _ _ (mkMach c m _)).
Qed.
