(* ===== verification/Toy.v ===== *)
(** * A decoder for the examples

    Four encodings of the 16-bit x86 map: [nop] (90), [hlt] (f4), [jmp rel8] (eb) and
    [div byte \[disp16\]] (f6 /6, data segment 0).  It stands in for iced-x86 where an example needs a program to run. *)

From S2P Require Import Prelude State Ir Alu Memory Interp Control Block Walk Lift LiftSpec.

Record ToyInsn : Type := mkToy { toy_ip : Z; toy_len : Z; toy_code : list Z }.

Definition toy_decode (_ _ ip : Z) (code : list Z) : ToyInsn * DecoderError :=
  match code with
  | 0x90 :: _ => (mkToy ip 1 [0x90], DecNone)
  | 0xF4 :: _ => (mkToy ip 1 [0xF4], DecNone)
  | 0xEB :: rel :: _ => (mkToy ip 2 [0xEB; rel], DecNone)
  | 0xF6 :: 0x36 :: lo :: hi :: _ => (mkToy ip 4 [0xF6; 0x36; lo; hi], DecNone)
  | [0xEB] => (mkToy ip 1 [], NoMoreBytes)
  | _ => (mkToy ip 1 [], InvalidInstruction)
  end.

#[export] Instance toy_iced : Iced := {
  Instruction := ToyInsn;
  insn_ip := toy_ip;
  insn_len := toy_len;
  is_invalid i := match toy_code i with [] => true | _ => false end;
  opt_none := 0;
  opt_no_invalid_check := 1;
  decode := toy_decode;
}.

#[export] Instance toy_lifter : InsnLifter := {
  lift_insn insn mode ops tg :=
    match toy_code insn with
    | [0x90] => Some (Ok (false, ops, tg))
    | [0xF4] => Some (Ok (true, ops ++ [Hlt], tg))
    | [0xEB; rel] => Some (Ok (true, ops ++ [Jump (Imm (mask_pc (wrap 64 (toy_ip insn + 2 + sign_extend (wrap 8 rel) 1)) mode))], tg))
    | [0xF6; 0x36; lo; hi] =>
        Some (Ok (false, ops ++ [Load tg (Imm (wrap 8 lo + 256 * wrap 8 hi)) 1; ReadReg (S tg) Rax; Shr (S (S tg)) (TempV (S tg)) (Imm 8) 8 0;
              Div (S (S (S tg))) (S (S (S (S tg)))) (TempV (S (S tg))) (TempV (S tg)) (TempV tg) 1 false], S (S (S (S (S tg))))))
    | _ => Some (Err (Unsupported (toy_ip insn) [] (toy_len insn)))
    end;
}.

Lemma mask_pc_range a mo : in_width 64 a -> in_width 64 (mask_pc a mo).
Proof.
  intros [H1 H2]. destruct mo; cbn; [done|..].
  - change 4294967295 with (Z.ones 32); rewrite Z.land_ones by lia. pose proof (Z.mod_pos_bound a (2 ^ 32)). split; lia.
  - change 65535 with (Z.ones 16); rewrite Z.land_ones by lia. pose proof (Z.mod_pos_bound a (2 ^ 16)). split; lia.
Qed.

#[export] Instance toy_laws : LifterLaws.
Proof.
  split.
  - intros bits opt ip code insn err Hne. cbn [decode toy_iced]. unfold toy_decode.
    repeat case_match; intros [= <- <-]; cbn [insn_ip insn_len is_invalid toy_iced toy_ip toy_len toy_code length] in *; repeat split; intros; try done; lia.
  - intros insn mode ops tg. cbn [lift_insn toy_lifter]. by repeat case_match.
  - intros insn mode ops tg t ops' tg' Hip Hip15. cbn [lift_insn toy_lifter insn_ip toy_iced]. repeat case_match; intros [= <- <- <-]; (split; [lia|]).
    all: first [exists []; by rewrite app_nil_r|eexists; split; [reflexivity|]; split; [|done]].
    all: repeat (apply list.Forall_cons; split; [|]); try apply list.Forall_nil; cbn [op_wf val_ok]; unfold valid_elem; repeat split; try done; try lia.
    all: try (apply mask_pc_range; unfold wrap; apply Z.mod_pos_bound; lia).
    all: unfold wrap; repeat match goal with |- context [?x mod ?n] => pose proof (Z.mod_pos_bound x n ltac:(lia)); generalize dependent (x mod n); intros end; lia.
  - intros insn mode ops tg e. cbn [lift_insn toy_lifter insn_ip insn_len toy_iced]. repeat case_match; intros [= <-]; right; by eexists.
Qed.
