(* ===== verification/Raise.v ===== *)
(** * Where a guest exception is raised

    A block that ends in a guest exception names the instruction that raised it, or the
    RIP it left behind: the address the real-mode dispatcher delivers the exception at is
    a 64-bit address, and a step of the interpreter on a well-formed machine can always be
    followed by that delivery. *)

From S2P Require Import Prelude State Ir Alu Memory Interp IntegerSpec StringOps Control HostFloat F80 F80Trans X87 X87Arm VecMem VecCpu VecArm VecOp VecSafe VecAtomic VecTotal Block Frame Walk Lift LiftSpec Vm.

Definition exc_at (ca : Z) (r : StepResult) (c : CpuState) : Prop :=
  match r with SExit (EException a _) => a = ca \/ a = rip c | _ => True end.

(** [raises ca out c]: whenever [c] ends in a guest exception ([out] of its result), its
    address is [ca] or the RIP of the state it ends in. *)
Definition raises {A} (ca : Z) (out : A -> option StepResult) (c : M A) : Prop :=
  forall s a s' r, c s = Some (a, s') -> out a = Some r -> exc_at ca r (m_cpu s').

Section Raises.
Context (ca : Z).

Lemma raises_bind {A B} (c : M A) (k : A -> M B) out : (forall a, raises ca out (k a)) -> raises ca out (c ≫= k).
Proof. intros Hk s b s' r E. unfold mbind, M_bind in E. destruct (c s) as [[a s1]|]; [|done]. by apply (Hk a s1). Qed.
Lemma raises_ret {A} (a : A) out : (forall r c, out a = Some r -> exc_at ca r c) -> raises ca out (mret a).
Proof. intros H s b s' r [= <- <-]. apply H. Qed.
Lemma raises_panic {A} out : raises ca out (panic (A := A)).
Proof. done. Qed.
Lemma raises_next : raises ca id next.
Proof. by apply raises_ret. Qed.
Lemma raises_leave r : (forall c, exc_at ca r c) -> raises ca id (leave r).
Proof. intros H. apply raises_ret. by intros r' c [= <-]. Qed.
Lemma raises_trap {B} t a sz k v (f : StepResult -> B) out : (forall e, out (f e) = Some e) ->
  raises ca out (e ← trap_out ca t a sz k v; mret (f e)).
Proof. intros Hf s b s' r [= <- <-]. rewrite Hf. intros [= <-]. by destruct t, k. Qed.
Lemma raises_via {A B} (c : M A) (k : A -> M B) out out' : raises ca out c ->
  (forall a, raises ca out' (k a) \/ exists b, k a = mret b /\ forall r, out' b = Some r -> out a = Some r) ->
  raises ca out' (c ≫= k).
Proof.
  intros Hc Hk s b s' r E Hr. unfold mbind, M_bind in E. destruct (c s) as [[a s1]|] eqn:Ec; [|done].
  destruct (Hk a) as [H|(b0 & Eb & H)]; [by apply (H s1 b s' r)|]. rewrite Eb in E. injection E as <- <-. by apply (Hc s a s1 r Ec), H.
Qed.
Lemma raises_or_leave {A B} (c : M (Result A StepResult)) (k : A -> M (Result B StepResult)) :
  raises ca res_out c -> (forall a, raises ca res_out (k a)) -> raises ca res_out (or_leave c k).
Proof. intros Hc Hk. apply (raises_via c _ res_out); [done|]. intros [a|e]; [by left|]. right. by eexists. Qed.
Lemma raises_or_step {A} (c : M (Result A StepResult)) (k : A -> M (Result StepResult StepResult)) :
  raises ca res_out c -> (forall a, raises ca step_out (k a)) -> raises ca step_out (or_leave c k).
Proof. intros Hc Hk. apply (raises_via c _ res_out); [done|]. intros [a|e]; [by left|]. right. by eexists. Qed.
Lemma raises_as_arm c : raises ca res_out c -> raises ca id (as_arm c).
Proof. intros Hc. apply (raises_via c _ res_out); [done|]. intros [a|e]; [left; apply raises_next|]. right. by eexists. Qed.
Lemma raises_as_step c : raises ca step_out c -> raises ca Some (as_step c).
Proof. intros Hc. apply (raises_via c _ step_out); [done|]. intros [a|e]; right; by eexists. Qed.
Lemma raises_ends (c : M StepResult) : raises ca Some c -> raises ca id (ends c).
Proof. intros Hc. apply (raises_via c _ Some); [done|]. intros a. right. by eexists. Qed.
Lemma raises_run_fp f : raises ca id (run_fp ca f).
Proof. intros s a s' r. unfold run_fp. destruct (f _ _) as [[[[x|] c] m]|]; [| |done]; intros [= <- <-]; [|done]. intros [= <-]. by destruct x as [? []]. Qed.
Lemma raises_run_str f : raises ca id (run_str f).
Proof. intros s a s' r. unfold run_str. destruct (f _ _) as [[[[x|] c] m]|]; [| |done]; intros [= <- <-]; [|done]. intros [= <-]. by destruct x as [? [] [] ? ?]. Qed.
End Raises.

Create HintDb raises.
#[export] Hint Resolve raises_panic raises_next raises_run_fp raises_run_str : raises.
#[export] Hint Extern 1 (raises _ _ (leave _)) => apply raises_leave; intros ?; first [exact I|by left] : raises.
#[export] Hint Extern 2 (raises _ _ (mret _)) => apply raises_ret; (done || intros ? ? [= <-]; first [exact I|by left]) : raises.

Ltac raise :=
  cbn beta zeta;
  lazymatch goal with
  | |- raises _ _ (e ← trap_out _ _ _ _ _ _; _) => apply raises_trap; done
  | |- raises _ _ (as_arm _) => apply raises_as_arm; raise
  | |- raises _ _ (as_step _) => apply raises_as_step; raise
  | |- raises _ _ (ends _) => apply raises_ends; raise
  | |- raises _ res_out (or_leave _ _) => apply raises_or_leave; [raise|intros ?; raise]
  | |- raises _ step_out (or_leave _ _) => apply raises_or_step; [raise|intros ?; raise]
  | |- raises _ _ (mbind _ _) => apply raises_bind; intros ?; raise
  | |- raises _ _ (if ?c then _ else _) => destruct c; raise
  | |- raises _ _ (match ?x with _ => _ end) => destruct x; raise
  | |- _ => auto with raises
  end.

Section RaiseArms.
Context (ca : Z).

Lemma push16_raises w : raises ca res_out (push16 ca w).
Proof. unfold push16. raise. Qed.
Lemma pop16_raises : raises ca res_out (pop16 ca).
Proof. unfold pop16. raise. Qed.
#[local] Hint Resolve push16_raises pop16_raises : raises.
Lemma push_all_raises ws : raises ca res_out (push_all ca ws).
Proof. induction ws; cbn [push_all]; raise. Qed.
Lemma pop_all_raises l : raises ca res_out (pop_all ca l).
Proof. induction l as [|[] l IH]; cbn [pop_all]; raise. Qed.
Lemma enter_display_raises k bp : raises ca res_out (enter_display ca k bp).
Proof. revert bp. induction k; intros bp; cbn [enter_display]; raise. Qed.
#[local] Hint Resolve push_all_raises pop_all_raises enter_display_raises : raises.
Lemma deliver_raises vec ip : raises ca Some (deliver_interrupt ca vec ip).
Proof. unfold deliver_interrupt. raise. Qed.
Lemma iret_raises : raises ca Some (exec_iret_real ca).
Proof. unfold exec_iret_real. raise. Qed.
#[local] Hint Resolve deliver_raises iret_raises : raises.
Lemma lane_by_lane_raises dst a ea f k l : raises ca id (lane_by_lane ca dst a ea f k l).
Proof.
  revert l. induction k as [|k IH]; intros l; cbn [lane_by_lane]; [apply raises_next|].
  apply raises_bind. intros x. unfold or_trap. apply raises_bind. intros [v|f0]; [|by apply raises_trap]. apply raises_bind. intros _. apply IH.
Qed.
Lemma exec_trap_raises vec adv : raises ca id (exec_trap ca vec adv).
Proof.
  unfold exec_trap. apply raises_bind. intros _ s a s' r. unfold mbind, M_bind, get_cpu, leave, mret, M_ret. intros [= <- <-] [= <-]. by right.
Qed.

Lemma exec_op_raises `{Libm} n ir op s r s' : in_width 64 ca -> op_wf n op -> vmach n s ->
  exec_op ir ca op s = Some (Some r, s') -> exc_at ca r (m_cpu s').
Proof.
  intros Hca Hop Hs E. assert (Ha : raises ca id (exec_op ir ca op) -> exc_at ca r (m_cpu s')) by (intros F; by eapply F).
  assert (He : forall k, (forall e, raises ca id (k e)) -> raises ca id (at_end ir k)).
  { intros k Hk t a t' o. unfold at_end. destruct (block_end ir); [apply Hk|done]. }
  destruct op; cbn [exec_op] in *.
  all: try (apply Ha; try (apply He; intros e); unfold_arms; unfold exec_x87_arm, exec_fx_state; unfold leave; solve [raise]).
  all: try (apply Ha, exec_trap_raises).
  destruct (commits_late op) eqn:El.
  - destruct op; try discriminate El; apply Ha; (apply raises_bind; intros ?); [apply lane_by_lane_raises..|apply raises_run_str].
  - destruct (exec_vec_atomic n ca op Hca Hop El s Hs) as (r' & s1 & E1 & _ & H1). rewrite E in E1. injection E1 as <- <-.
    destruct (H1 r eq_refl) as ((t & a & sz & k & v & ->) & _). by destruct t, k.
Qed.
End RaiseArms.

Definition exc_addr_ok (r : StepResult) : Prop := match r with SExit (EException a _) => in_width 64 a | _ => True end.

Lemma exc_at_ok ca r c : in_width 64 ca -> cpu_wf c -> exc_at ca r c -> exc_addr_ok r.
Proof. intros Hca Hc. destruct r as [|[]]; try done. intros [-> | ->]; [done|]. apply Hc. Qed.

Lemma walk_ops_raises `{Libm} n ir l w s r w' s' e : block_end ir = Some e -> in_width 64 e -> in_width 64 (w_cur w) ->
  Forall (op_wf n) l -> traps_fit (w_cur w) l -> vmach n s -> walk_ops ir l w s = Some (r, w', s') -> exc_addr_ok r.
Proof.
  intros He Hew. revert w s. induction l as [|op l IH]; intros w s Hw Hl Ht Hm E; cbn [walk_ops] in E.
  - rewrite He in E. by injection E as <- <- <-.
  - apply list.Forall_cons in Hl as [Hop Hl].
    destruct (exec_op_vsafe n ir (w_cur w) op _ Hw He Hew Hop) with (s := s) as (r1 & s1 & Eo & Hm1 & _); [destruct op; try done; apply Ht|done|].
    rewrite Eo in E. cbn [mbind option_bind] in E. destruct r1 as [r1|].
    + injection E as <- <- <-. eapply exc_at_ok; [exact Hw|apply Hm1|]. exact (exec_op_raises (w_cur w) n ir op s r1 s1 Hw Hop Hm Eo).
    + eapply (IH (walk_note op w) s1); try done; destruct op; try done; apply Ht.
Qed.

(** ** Steps of the interpreter *)

(** A step ends, on a well-formed CPU and memory, with an address the dispatcher may
    deliver an exception at. *)
Definition steps (x : option (StepResult * RetireInfo * CpuState * Memory)) : Prop :=
  exists r info c' m', x = Some (r, info, c', m') /\ vcpu c' /\ mem_wf m' /\ exc_addr_ok r.

Lemma block_steps `{Libm} ir c m : block_wf ir -> vcpu c -> mem_wf m -> steps (interpret_block ir c m).
Proof.
  intros Hb Hc Hm. pose proof (block_end_wf ir Hb) as [He Hew]. destruct Hb as [H1 H2 H3 H4 H5]. unfold interpret_block.
  set (w := mkWalk (guest_start ir) 0 false false). pose proof (start_vmach c m (temp_count ir) Hc Hm) as Hs.
  destruct (walk_ops_safe (temp_count ir) ir (ops ir) w _ H1 H2 H3 H1 H4 H5 Hs) as (r & w' & s & E & Hs').
  pose proof (walk_ops_raises (temp_count ir) ir (ops ir) w _ r w' s _ He Hew H1 H4 H5 Hs E) as Hr. rewrite E. cbn [mbind option_bind].
  eexists _, _, _, _. split; [done|]. split; [by apply (vmach_cpu (temp_count ir))|]. split; [apply Hs'|done].
Qed.

Lemma step_one_steps `{LifterLaws} `{Libm} c m mo : vcpu c -> mem_wf m -> steps (step_one c m mo).
Proof.
  intros Hc Hm. unfold step_one. pose proof (lift_one_ok m (for_mode mo (rip c) (cs c)) mo Hm (fetch_ok_for mo c (proj1 Hc))) as Hl.
  destruct (lift_one _ _ _) as [[ir|e]|]; [|..|done]; cbn [mbind option_bind]; [by apply block_steps|].
  eexists _, _, _, _. split; [done|]. split; [done|]. split; [done|]. by destruct e.
Qed.

Lemma deliver_steps ca vec ip c m : in_width 64 ca -> vcpu c -> mem_wf m ->
  exists r s, deliver_interrupt ca vec ip (mkMach c m []) = Some (r, s) /\ vcpu (m_cpu s) /\ mem_wf (m_mem s).
Proof.
  intros Hca Hc Hm. pose proof (start_vmach c m 0 Hc Hm) as [Hs Hv].
  destruct (deliver_interrupt_safe 0 ca Hca vec ip _ Hs) as (r & s & E & Hs' & _). exists r, s. split; [exact E|]. split; [|apply Hs'].
  split; [apply Hs'|]. eapply wide_vec; [|exact Hv]. by eapply deliver_frames.
Qed.
