(* ===== verification/RunSpec.v ===== *)
(** * Runs end

    The run loop against a lawful backend and a lawful lifter, under the invariant
    [world_ok] on the virtual CPU and its machine: no operation of the loop panics, each
    turn makes progress against the budget, and so a run with a budget of [b] blocks
    returns to the embedder within [b + 1] turns. *)

From S2P Require Import Prelude Features State Ir Alu Memory PageTrack Interp IntegerSpec Control HostFloat F80 F80Trans X87 X87Arm VecSafe Block Walk Lift Cache LiftSpec Vm Toy Raise VmSpec.

Section Run.
Context {B : Type} {BE : Backend B} {BL : BackendLaws B} {IC : Iced} {IL : InsnLifter} {LL : LifterLaws} {LM : Libm}.

(** What the loop keeps: the fast cache holds entries that can be called. *)
Record world_ok (w : World B) : Prop := {
  wo_cpu : vcpu (cpu (w_vcpu w));
  wo_len : length (fast (w_vcpu w)) = FAST_N;
  wo_fast : Forall (fun e => fe_entry e <> 0 -> be_live (backend (w_vm w)) (fe_entry e)) (fast (w_vcpu w));
  wo_vm : vm_ok (w_vm w);
}.

Definition clean (w : World B) : Prop := dirty_flag (mem (w_vm w)) = false.

(** [x] ends from every world of [P], in [Q]. *)
Definition dsafe {A} (P : World B -> Prop) (x : D B A) (Q : A -> World B -> Prop) : Prop :=
  forall w, P w -> exists a w', x w = Some (a, w') /\ Q a w'.

Lemma d_ret {A} (a : A) (P : World B -> Prop) (Q : A -> World B -> Prop) : (forall w, P w -> Q a w) -> dsafe P (mret a) Q.
Proof. intros H w Hw. exists a, w. split; [done|by apply H]. Qed.
Lemma d_bind {A C} (x : D B A) (k : A -> D B C) P Q R : dsafe P x Q -> (forall a, dsafe (Q a) (k a) R) -> dsafe P (x ≫= k) R.
Proof.
  intros Hx Hk w Hw. destruct (Hx w Hw) as (a & w1 & E & H1). destruct (Hk a w1 H1) as (c & w2 & E2 & H2).
  exists c, w2. split; [|done]. unfold mbind, D_bind. rewrite E. exact E2.
Qed.
Lemma d_weaken {A} (x : D B A) P (Q R : A -> World B -> Prop) : dsafe P x Q -> (forall a w, Q a w -> R a w) -> dsafe P x R.
Proof. intros Hx H w Hw. destruct (Hx w Hw) as (a & w1 & E & H1). exists a, w1. auto. Qed.
Lemma d_vcpu P : dsafe P vcpu_ (fun v w => P w /\ v = w_vcpu w).
Proof. intros w Hw. by exists (w_vcpu w), w. Qed.
Lemma d_vm P : dsafe P vm_ (fun v w => P w /\ v = w_vm w).
Proof. intros w Hw. by exists (w_vm w), w. Qed.
Lemma d_if {A} (b : bool) (x y : D B A) P Q : (b = true -> dsafe P x Q) -> (b = false -> dsafe P y Q) -> dsafe P (if b then x else y) Q.
Proof. destruct b; auto. Qed.
Lemma d_pre {A} (x : D B A) (P P' : World B -> Prop) Q : (forall w, P w -> P' w) -> dsafe P' x Q -> dsafe P x Q.
Proof. intros H Hx w Hw. apply Hx, H, Hw. Qed.

(** *** Steps that keep the invariant *)

Lemma world_vcpu w v : world_ok w -> vcpu (cpu v) -> fast v = fast (w_vcpu w) -> world_ok (mkWorld v (w_vm w)).
Proof. intros [H1 H2 H3 H4] Hc Hf. split; cbn; [done|by rewrite Hf|by rewrite Hf|done]. Qed.
Lemma world_vm w v : world_ok w -> vm_le (w_vm w) v -> world_ok (mkWorld (w_vcpu w) v).
Proof.
  intros [H1 H2 H3 H4] [Hv [_ Hb]]. split; cbn; [done|done| |done]. eapply list.Forall_impl; [exact H3|]. intros e He Hn. by apply Hb, He.
Qed.

(** An update of counters. *)
Lemma d_note f P : (forall v, vcpu (cpu v) -> vcpu (cpu (f v))) -> (forall v, fast (f v) = fast v) ->
  dsafe (fun w => world_ok w /\ P (w_vm w)) (on_vcpu f) (fun _ w => world_ok w /\ P (w_vm w)).
Proof. intros Hc Hf w [Hw HP]. eexists _, _. split; [done|]. split; [|exact HP]. apply world_vcpu; [exact Hw|apply Hc, Hw|apply Hf]. Qed.

Lemma fast_index_ok rip : (fast_index rip < FAST_N)%nat.
Proof.
  unfold fast_index, FAST_N. assert (0 <= wrapping_mul 64 rip 0x9E3779B97F4A7C15 < 2 ^ 64) as H by (apply Z.mod_pos_bound; lia).
  revert H. generalize (wrapping_mul 64 rip 0x9E3779B97F4A7C15) as z. intros z H. rewrite Z.shiftr_div_pow2 by (unfold FAST_BITS; lia).
  change (2 ^ (64 - FAST_BITS)) with (2 ^ 54). assert (z / 2 ^ 54 < 1024) by (apply Z.div_lt_upper_bound; lia). lia.
Qed.

Lemma fast_get_ok w rip : world_ok w -> exists r, fast_get (w_vcpu w) rip = Some r /\ forall e, r = Some e -> be_live (backend (w_vm w)) e.
Proof.
  intros Hw. destruct (lookup_lt_is_Some_2 (fast (w_vcpu w)) (fast_index rip)) as [e He]; [rewrite (wo_len _ Hw); apply fast_index_ok|].
  unfold fast_get. rewrite He. cbn [mbind option_bind]. eexists. split; [done|]. intros x.
  destruct (Z.eqb_spec (fe_entry e) 0) as [|Hn]; [done|]. cbn [andb negb]. destruct (fe_rip e =? rip); [|done]. intros [= <-].
  pose proof (proj1 (list.Forall_forall _ _) (wo_fast _ Hw) e) as H. apply H; [by eapply list_elem_of_lookup_2|done].
Qed.

Lemma put_fast_ok rip e P :
  dsafe (fun w => world_ok w /\ be_live (backend (w_vm w)) e /\ P (w_vm w)) (put_fast rip e)
    (fun _ w => world_ok w /\ be_live (backend (w_vm w)) e /\ P (w_vm w)).
Proof.
  intros w (Hw & He & HP). unfold put_fast, fast_put.
  destruct (lookup_lt_is_Some_2 (fast (w_vcpu w)) (fast_index rip)) as [x Hx]; [rewrite (wo_len _ Hw); apply fast_index_ok|].
  rewrite Hx. cbn [mbind option_bind]. eexists _, _. split; [done|]. split; [|done]. destruct Hw as [H1 H2 H3 H4].
  split; cbn; [done|by rewrite length_insert| |done]. apply list.Forall_insert; [done|]. done.
Qed.

Lemma sync_fast_ok : dsafe (fun w => world_ok w /\ clean w) sync_fast (fun _ w => world_ok w /\ clean w).
Proof.
  intros w [Hw Hd]. unfold sync_fast, vm_, vcpu_, mbind, D_bind. cbn [mbind option_bind]. destruct (negb _); [|by eexists _, _].
  eexists _, _. split; [done|]. split; [|done]. destruct Hw as [H1 H2 H3 H4]. split; cbn; [done|by rewrite length_fmap| |done].
  apply list.Forall_fmap. apply list.Forall_true. intros e. by cbn.
Qed.

(** *** The interpreter *)

Definition stepped (x : StepResult * RetireInfo) (w : World B) : Prop := world_ok w /\ exc_addr_ok x.1.

Lemma interp_ok f w : world_ok w -> steps (f (cpu (w_vcpu w)) (mem (w_vm w))) -> exists x w', interp f w = Some (x, w') /\ stepped x w'.
Proof.
  intros Hw (r & info & c & m & E & Hc & Hm & Hr). unfold interp. rewrite E. cbn [mbind option_bind]. eexists _, _. split; [done|]. split; [|done].
  apply (world_vcpu (mkWorld (w_vcpu w) (set_mem (w_vm w) m))); [|done|done]. apply world_vm; [done|]. by apply vm_le_mem; [apply Hw|].
Qed.

Lemma single_step_ok : dsafe world_ok single_step stepped.
Proof.
  intros w Hw. unfold single_step, vcpu_, mbind, D_bind. cbn [mbind option_bind]. apply interp_ok; [done|]. apply step_one_steps; apply Hw.
Qed.

Lemma deliver_ok ca vec ip : in_width 64 ca -> dsafe world_ok (deliver ca vec ip) (fun _ => world_ok).
Proof.
  intros Hca w Hw. unfold deliver. destruct (deliver_steps ca vec ip (cpu (w_vcpu w)) (mem (w_vm w))) as (r & s & -> & Hc & Hm); [done|apply Hw|apply Hw|].
  cbn [mbind option_bind]. eexists _, _. split; [done|].
  apply (world_vcpu (mkWorld (w_vcpu w) (set_mem (w_vm w) (m_mem s)))); [|done|done]. apply world_vm; [done|]. by apply vm_le_mem; [apply Hw|].
Qed.

Lemma redeliver_ok r : exc_addr_ok r -> dsafe world_ok (redeliver r) (fun _ => world_ok).
Proof.
  intros Hr. unfold redeliver. eapply d_bind; [apply d_vcpu|]. intros v. apply (d_pre _ _ world_ok); [by intros w []|].
  destruct r as [|[]]; try (by apply d_ret). destruct (v_mode v); try (by apply d_ret). by apply deliver_ok.
Qed.

Lemma note_ok f : (forall v, cpu (f v) = cpu v) -> (forall v, fast (f v) = fast v) -> dsafe world_ok (on_vcpu f) (fun _ => world_ok).
Proof. intros Hc Hf w Hw. eexists _, _. split; [done|]. apply world_vcpu; [done|rewrite Hc; apply Hw|apply Hf]. Qed.

(** Run the block counters forward after a step. *)
Lemma step_noted n e st r info :
  dsafe (stepped (r, info)) (on_vcpu (fun v => set_sti (add_retired v (n v) (e v)) (st v))) (fun _ => stepped (r, info)).
Proof. intros w [Hw Hr]. eexists _, _. split; [done|]. split; [|done]. by apply world_vcpu; [|apply Hw|]. Qed.

Lemma resume_mmio_ok k : dsafe world_ok (resume_mmio k) (fun x w => world_ok w /\ forall k', x = Again k' -> k' = wrapping_add 64 k 1).
Proof.
  unfold resume_mmio. eapply d_bind; [apply single_step_ok|]. intros [r info]. eapply d_bind; [apply (step_noted (fun _ => retired info) (fun _ => 0) (fun _ => sti_shadow info))|].
  intros []. apply (d_pre _ _ world_ok); [by intros w []|]. destruct r as [|e]; [|by apply d_ret].
  eapply (d_bind _ _ _ (fun _ => world_ok)); [|intros []; apply d_ret; intros w Hw; split; [done|by intros k' [= <-]]].
  intros w Hw. eexists _, _. split; [done|]. apply world_vcpu; [done| |done]. destruct (wo_cpu _ Hw) as [H1 H2]. cbn.
  split; [by destruct H1|]. destruct H2. by split.
Qed.

Lemma take_irq_ok vec k : dsafe world_ok (take_irq vec k) (fun x w => world_ok w /\ forall k', x = Again k' -> k' = wrapping_add 64 k 1).
Proof.
  unfold take_irq. eapply d_bind; [by apply note_ok|]. intros []. eapply d_bind; [apply d_vcpu|]. intros v.
  eapply (d_bind _ _ _ (fun _ => world_ok)); [intros w [Hw ->]; apply deliver_ok; [apply (wo_cpu _ Hw)|done]|].
  intros [|e]; [|by apply d_ret]. eapply d_bind; [by apply note_ok|]. intros []. apply d_ret. intros w Hw. split; [done|]. by intros k' [= <-].
Qed.

Lemma run_interpreted_ok ir k : block_wf ir ->
  dsafe world_ok (run_interpreted ir k) (fun x w => world_ok w /\ forall k', x = Again k' -> k' = wrapping_add 64 k 1).
Proof.
  intros Hir. unfold run_interpreted. eapply (d_bind _ _ _ stepped).
  { intros w Hw. apply interp_ok; [done|]. apply block_steps; [done|apply Hw|apply Hw]. }
  intros [r info]. eapply d_bind; [apply (step_noted (fun _ => retired info) (fun _ => retired info) (fun _ => sti_shadow info))|].
  intros [] w [Hw Hr]. revert w Hw. change (dsafe world_ok (r0 ← redeliver r; mret (after k r0)) (fun x w => world_ok w /\ forall k', x = Again k' -> k' = wrapping_add 64 k 1)).
  eapply d_bind; [by apply redeliver_ok|]. intros r'. apply d_ret. intros w Hw. split; [done|]. destruct r'; [by intros k' [= <-]|done].
Qed.

(** *** Finding a block *)

Lemma resolve_at_ok at_ d : fetch_ok at_ -> 0 <= pa at_ ->
  dsafe (fun w => world_ok w /\ dirty_flag (mem (w_vm w)) = d) (resolve_at at_)
    (fun r w => world_ok w /\ dirty_flag (mem (w_vm w)) = d /\ found_ok (backend (w_vm w)) r).
Proof.
  intros Hf Hpa w [Hw Hd]. unfold resolve_at. destruct (resolve_once 1 (w_vm w) at_ (v_mode (w_vcpu w)) (wo_vm _ Hw) Hf Hpa) as (r & v & -> & [S1 S2] & Hr).
  cbn [mbind option_bind]. eexists _, _. split; [done|]. split; [by apply world_vm|]. cbn. split; [congruence|done].
Qed.

Lemma hit_counted P : dsafe (fun w => world_ok w /\ P (w_vm w)) (on_vcpu (fun v => set_fast_hits v (wrapping_add 64 (fast_hits v) 1))) (fun _ w => world_ok w /\ P (w_vm w)).
Proof. by apply d_note. Qed.

Lemma pa_nonneg mo c : cpu_wf c -> 0 <= pa (for_mode mo (rip c) (cs c)).
Proof. intros Hc. destruct (wf_rip c Hc), (wf_cs c Hc). destruct mo; cbn; [done..|]. pose proof (Z.mod_pos_bound (rip c) (2 ^ 16) ltac:(lia)). unfold wrap. rewrite Z.shiftl_mul_pow2 by lia. lia. Qed.

(** A lookup in the private cache: total, and a hit is callable. *)
Lemma d_fast_get {C} (k : option Z -> D B C) (v : Vcpu) rip P Q :
  (forall e, dsafe (fun w => world_ok w /\ P w /\ v = w_vcpu w /\ be_live (backend (w_vm w)) e) (k (Some e)) Q) ->
  dsafe (fun w => world_ok w /\ P w /\ v = w_vcpu w) (k None) Q ->
  dsafe (fun w => world_ok w /\ P w /\ v = w_vcpu w) (h ← opt (fast_get v rip); k h) Q.
Proof.
  intros Hs Hn w (Hw & HP & ->). destruct (fast_get_ok w rip Hw) as (h & E & Hh). unfold mbind, D_bind, opt. rewrite E. cbn [mbind option_bind].
  destruct h as [e|]; [|by apply Hn]. apply Hs. split; [done|]. split; [done|]. split; [done|by apply Hh].
Qed.

Lemma find_block_ok : dsafe (fun w => world_ok w /\ clean w) find_block (fun r w => world_ok w /\ clean w /\ found_ok (backend (w_vm w)) r).
Proof.
  unfold find_block. eapply d_bind; [apply d_vcpu|]. intros v. apply (d_pre _ _ (fun w => world_ok w /\ clean w /\ v = w_vcpu w)); [tauto|].
  apply d_fast_get.
  - intros e. eapply (d_bind _ _ _ (fun _ w => world_ok w /\ clean w /\ be_live (backend (w_vm w)) e)); [|intros []; by apply d_ret].
    intros w (Hw & Hd & _ & He). by apply (hit_counted (fun v => dirty_flag (mem v) = false /\ be_live (backend v) e)).
  - eapply (d_bind _ _ _ (fun r w => world_ok w /\ clean w /\ found_ok (backend (w_vm w)) r)).
    { intros w (Hw & Hd & ->). apply (resolve_at_ok _ false); [apply fetch_ok_for, (wo_cpu _ Hw)|apply pa_nonneg, (wo_cpu _ Hw)|done]. }
    intros [[ir|e]|e]; [by apply d_ret| |by apply d_ret].
    eapply (d_bind _ _ _ (fun _ w => world_ok w /\ be_live (backend (w_vm w)) e /\ clean w)); [|intros []; apply d_ret; tauto].
    intros w (Hw & Hd & He). by apply (put_fast_ok _ e (fun v => dirty_flag (mem v) = false)).
Qed.

(** *** Compiled code *)

Definition hop_ok (h : Hop) (w : World B) : Prop := world_ok w /\ match h with Go e => be_live (backend (w_vm w)) e | _ => True end.

Lemma defer_step_ok : dsafe world_ok defer_step hop_ok.
Proof.
  unfold defer_step. eapply d_bind; [apply single_step_ok|]. intros [r info].
  eapply (d_bind _ _ _ (fun _ => world_ok)); [intros w [Hw _]; by apply note_ok|]. intros []. destruct r; by apply d_ret.
Qed.

(** Publishing stores in a slot of the arena, or nothing. *)
Lemma publish_ok since slot val e : (forall b, be_ok b -> be_live b e -> be_le b (store_slot b slot val)) ->
  dsafe (fun w => world_ok w /\ be_live (backend (w_vm w)) e) (publish_slot since slot val) (fun _ w => world_ok w /\ be_live (backend (w_vm w)) e).
Proof.
  intros Hs w [Hw He]. unfold publish_slot, publish_if_current. destruct (negb _).
  - eexists _, _. split; [done|]. split; [|done]. apply world_vm; [done|]. apply vm_le_backend; [apply Hw|]. apply be_le_refl, Hw.
  - pose proof (Hs (backend (w_vm w)) (vo_backend _ (wo_vm _ Hw)) He) as Hb. eexists _, _. split; [done|]. split; [|by apply Hb].
    apply world_vm; [done|]. apply vm_le_backend; [apply Hw|done].
Qed.

Lemma resolve_flat_ok v : dsafe (fun w => world_ok w /\ v = w_vcpu w) (resolve_at (fetch_flat (rip (cpu v))))
    (fun r w => world_ok w /\ found_ok (backend (w_vm w)) r).
Proof.
  intros w [Hw ->]. destruct (wf_rip _ (proj1 (wo_cpu _ Hw))) as [H1 H2].
  destruct (resolve_at_ok (fetch_flat (rip (cpu (w_vcpu w)))) (dirty_flag (mem (w_vm w))) (fetch_ok_flat _ H1) H1 w) as (r & w' & E & Hw' & _ & Hr); [done|].
  by exists r, w'.
Qed.

Lemma hop_link_ok ctx : dsafe world_ok (hop_link ctx) hop_ok.
Proof.
  unfold hop_link. eapply d_bind; [apply d_vm|]. intros vm. eapply (d_pre _ _ world_ok); [by intros w []|]. eapply d_bind; [apply d_vcpu|]. intros c.
  cbn zeta. eapply d_bind; [apply resolve_flat_ok|]. intros [[ir|e]|e]; [apply d_ret; by intros w []| |apply d_ret; by intros w []].
  eapply (d_bind _ _ _ (fun _ w => world_ok w /\ be_live (backend (w_vm w)) e)); [by apply publish_ok; intros; apply store_entry_law|].
  intros [|]; [|apply d_ret; by intros w []].
  eapply (d_bind _ _ _ (fun _ w => world_ok w /\ be_live (backend (w_vm w)) e /\ True)); [|intros []; apply d_ret; by intros w (? & ? & _)].
  intros w [Hw He]. by apply (put_fast_ok _ e (fun _ => True)).
Qed.

Lemma ibtc_entry_ok : dsafe world_ok ibtc_entry (fun r w => world_ok w /\ match r with Ok (Some e) => be_live (backend (w_vm w)) e | _ => True end).
Proof.
  unfold ibtc_entry. eapply d_bind; [apply d_vcpu|]. intros c. apply (d_pre _ _ (fun w => world_ok w /\ True /\ c = w_vcpu w)); [by intros w []|].
  apply d_fast_get.
  - intros e. eapply (d_bind _ _ _ (fun _ w => world_ok w /\ be_live (backend (w_vm w)) e)); [|intros []; by apply d_ret].
    intros w (Hw & _ & _ & He). by apply (hit_counted (fun v => be_live (backend v) e)).
  - eapply (d_bind _ _ _ (fun r w => world_ok w /\ found_ok (backend (w_vm w)) r)); [apply (d_pre _ _ (fun w => world_ok w /\ c = w_vcpu w)); [tauto|apply resolve_flat_ok]|].
    intros [[ir|e]|e]; [apply d_ret; by intros w []| |apply d_ret; by intros w []].
    eapply (d_bind _ _ _ (fun _ w => world_ok w /\ be_live (backend (w_vm w)) e /\ True)); [|intros []; apply d_ret; by intros w (? & ? & _)].
    intros w [Hw He]. by apply (put_fast_ok _ e (fun _ => True)).
Qed.

Lemma set_refills_ok f e : dsafe (fun w => world_ok w /\ be_live (backend (w_vm w)) e) (on_vcpu (fun c => set_refills c (f c)))
  (fun _ w => world_ok w /\ be_live (backend (w_vm w)) e).
Proof. by apply (d_note _ (fun v => be_live (backend v) e)). Qed.

Lemma hop_ibtc_ok ctx : dsafe world_ok (hop_ibtc ctx) hop_ok.
Proof.
  unfold hop_ibtc. eapply d_bind; [apply d_vm|]. intros vm. eapply (d_pre _ _ world_ok); [by intros w []|]. eapply d_bind; [apply ibtc_entry_ok|].
  intros [[e|]|e]; [|apply d_ret; by intros w []..]. eapply d_bind; [apply d_vcpu|]. intros c. cbn zeta.
  apply (d_pre _ _ (fun w => world_ok w /\ be_live (backend (w_vm w)) e)); [by intros w [? _]|]. destruct (_ <? _).
  - eapply d_bind; [apply set_refills_ok|]. intros []. eapply d_bind; [apply d_vm|]. intros v.
    eapply (d_bind _ _ _ (fun _ w => (world_ok w /\ be_live (backend (w_vm w)) e) /\ backend v = backend (w_vm w))).
    { intros w [[Hw He] ->]. eexists _, _. split; [done|]. split; [|done]. split; [|done]. apply world_vm; [done|]. by apply step_cache; [apply Hw|]. }
    intros []. eapply (d_bind _ _ _ (fun _ w => world_ok w /\ be_live (backend (w_vm w)) e)); [|intros [|]; apply d_ret; by intros w []].
    intros w [[Hw He] Eb]. unfold publish_slot, publish_if_current. destruct (negb _).
    + eexists _, _. split; [done|]. split; [|done]. apply world_vm; [done|]. apply vm_le_backend; [apply Hw|]. apply be_le_refl, Hw.
    + rewrite Eb. pose proof (store_descriptor_law (backend (w_vm w)) (link_slot ctx) (cache v) e (vo_backend _ (wo_vm _ Hw)) He) as Hb.
      eexists _, _. split; [done|]. split; [|by apply Hb]. apply world_vm; [done|]. apply vm_le_backend; [apply Hw|done].
  - eapply d_bind; [apply set_refills_ok|]. intros []. apply d_ret. by intros w [].
Qed.

Lemma after_call_ok code ctx : 0 <= code <= 9 ->
  dsafe (fun w => world_ok w /\ (code = RET_CHAIN -> be_live (backend (w_vm w)) (next_entry ctx))) (after_call code ctx) hop_ok.
Proof.
  intros Hc. unfold after_call.
  assert (Hs : forall h, (forall e, h <> Go e) -> dsafe (fun w => world_ok w /\ (code = RET_CHAIN -> be_live (backend (w_vm w)) (next_entry ctx))) (mret h) hop_ok).
  { intros h Hh. apply d_ret. intros w [Hw _]. split; [done|]. destruct h as [e| |]; try done. by destruct (Hh e). }
  destruct (Z.eqb_spec code RET_CONTINUE); [by apply Hs|]. destruct (Z.eqb_spec code RET_CHAIN) as [Ech|].
  { eapply (d_bind _ _ _ (fun _ w => world_ok w /\ be_live (backend (w_vm w)) (next_entry ctx))); [|intros []; by apply d_ret].
    intros w [Hw He]. apply (d_note _ (fun v => be_live (backend v) (next_entry ctx))); [done|done|]. split; [done|by apply He]. }
  destruct (Z.eqb_spec code RET_LINK); [eapply d_pre; [|apply hop_link_ok]; tauto|].
  destruct (Z.eqb_spec code RET_IBTC_MISS); [eapply d_pre; [|apply hop_ibtc_ok]; tauto|].
  destruct (Z.eqb_spec code RET_SYSCALL); [by apply Hs|]. destruct (Z.eqb_spec code RET_HLT); [by apply Hs|].
  destruct (Z.eqb_spec code RET_UNMAPPED); [by apply Hs|].
  destruct (Z.eqb_spec code RET_MMIO_DEFER); [eapply d_pre; [|apply defer_step_ok]; tauto|].
  destruct (Z.eqb_spec code RET_PORTIO_DEFER); [eapply d_pre; [|apply defer_step_ok]; tauto|].
  destruct (Z.eqb_spec code RET_EXCEPTION); [eapply d_bind; [apply d_vcpu|]; intros v; apply d_ret; by intros w [[]]|].
  unfold RET_CONTINUE, RET_CHAIN, RET_LINK, RET_IBTC_MISS, RET_SYSCALL, RET_HLT, RET_UNMAPPED, RET_MMIO_DEFER, RET_PORTIO_DEFER, RET_EXCEPTION in *. lia.
Qed.

Lemma call_ok e ctx q : 0 <= q ->
  dsafe (fun w => world_ok w /\ be_live (backend (w_vm w)) e) (call e ctx q)
    (fun x w => let '(code, ctx', charged) := x in (world_ok w /\ (code = RET_CHAIN -> be_live (backend (w_vm w)) (next_entry ctx'))) /\
       0 <= code <= 9 /\ 1 <= charged <= Z.max q 1).
Proof.
  intros Hq w [Hw He]. unfold call. cbn zeta.
  destruct (call_law (backend (w_vm w)) e (cpu (w_vcpu w)) (set_fuel ctx q) (v_ret_stack (w_vcpu w)) (v_executed (w_vcpu w)) (mem (w_vm w)))
    as (o & -> & Hfu & Hc & Hm & Hco & Hch); [apply Hw|done|apply Hw|apply Hw|done|]. cbn [mbind option_bind fuel set_fuel] in *.
  destruct (Z.ltb_spec q (fuel (co_ctx o))); [lia|]. eexists _, _. split; [done|]. split; [|lia]. split; [|done].
  apply (world_vcpu (mkWorld (w_vcpu w) (set_mem (w_vm w) (co_mem o)))); [|done|done]. apply world_vm; [done|]. by apply vm_le_mem; [apply Hw|].
Qed.

(** *** Turns *)

Context (b : Z) (Hb : 0 <= b < 2 ^ 64).

Definition progress (k : Z) (x : Next * MemCtx) (w : World B) : Prop := world_ok w /\ forall k', x.1 = Again k' -> k < k' <= b.

Lemma add_within k j : 0 <= k -> 0 <= j -> k + j <= b -> wrapping_add 64 k j = k + j.
Proof. intros. unfold wrapping_add, wrap. apply Z.mod_small. lia. Qed.

Lemma chain_ok n e k ctx : 0 <= k < b -> b - k <= Z.of_nat n ->
  forall w, world_ok w /\ be_live (backend (w_vm w)) e -> exists x w', chain n (Some b) e k ctx w = Some (x, w') /\
    world_ok w' /\ forall k', x.1 = Again k' -> (k < k' \/ k' = k /\ ~ clean w) /\ k' <= b.
Proof.
  revert e k ctx. induction n as [|n IH]; intros e k ctx Hk Hn w [Hw He]; [lia|]. cbn [chain].
  unfold mbind at 1, D_bind at 1, vm_. cbn [mbind option_bind]. unfold has_dirty_code. destruct (dirty_flag (mem (w_vm w))) eqn:Hd.
  { eexists _, _. split; [done|]. split; [done|]. intros k' [= <-]. split; [|lia]. right. split; [done|]. unfold clean. by rewrite Hd. }
  destruct (Z.ltb_spec b k); [lia|]. unfold mbind at 1, D_bind at 1, opt. cbn [mbind option_bind].
  destruct (call_ok e ctx (b - k) ltac:(lia) w (conj Hw He)) as ([[code ctx'] charged] & w1 & E1 & H1 & Hco & Hch).
  unfold mbind at 1, D_bind at 1. rewrite E1. cbn [mbind option_bind]. cbn zeta. rewrite (add_within k charged) by lia.
  destruct (after_call_ok code ctx' Hco w1 H1) as (h & w2 & E2 & Hw2 & Hh). unfold mbind at 1, D_bind at 1. rewrite E2. cbn [mbind option_bind].
  destruct h as [e'| |ex]; [|eexists _, _; split; [done|]; split; [done|]; intros k' [= <-]; lia|by eexists _, _].
  unfold spent. destruct (Z.leb_spec b (k + charged)); [by eexists _, _|].
  destruct (IH e' (k + charged) ctx' ltac:(lia) ltac:(lia) w2 (conj Hw2 Hh)) as (x & w3 & E3 & Hw3 & Hx).
  exists x, w3. split; [done|]. split; [done|]. intros k' Hk'. specialize (Hx k' Hk'). lia.
Qed.

(** One block run, or an exit. *)
Lemma one_ok k ctx (x : D B Next) P : 0 <= k < b -> dsafe P x (fun x w => world_ok w /\ forall k', x = Again k' -> k' = wrapping_add 64 k 1) ->
  dsafe P (y ← x; mret (y, ctx)) (progress k).
Proof.
  intros Hk Hx. eapply d_bind; [exact Hx|]. intros y. apply d_ret. intros w [Hw Hy]. split; [done|]. cbn. intros k' ->.
  rewrite (Hy k' eq_refl), (add_within k 1) by lia. lia.
Qed.

Lemma dispatch_ok n k ctx : 0 <= k < b -> b - k <= Z.of_nat n -> dsafe (fun w => world_ok w /\ clean w) (dispatch n (Some b) k ctx) (progress k).
Proof.
  intros Hk Hn. unfold dispatch. eapply d_bind; [apply find_block_ok|]. intros [[ir|e]|e].
  - intros w (Hw & _ & Hf). by apply (one_ok k ctx _ world_ok); [|apply run_interpreted_ok|].
  - intros w (Hw & Hd & Hf). destruct (chain_ok n e k ctx Hk Hn w (conj Hw Hf)) as (x & w' & E & Hw' & Hx). exists x, w'. split; [done|]. split; [done|].
    intros k' Hk'. destruct (Hx k' Hk') as [[? | [_ ?]] ?]; [lia|done].
  - apply d_ret. by intros w (? & _).
Qed.

Lemma turn_ok n k ctx : 0 <= k <= b -> b - k <= Z.of_nat n -> dsafe world_ok (turn n (Some b) k ctx) (progress k).
Proof.
  intros Hk Hn. unfold turn, spent. destruct (Z.leb_spec b k); [by apply d_ret|].
  eapply (d_bind _ _ _ (fun _ w => world_ok w /\ clean w)).
  { intros w Hw. destruct (handle_smc_ok (w_vm w) (wo_vm _ Hw)) as [H1 H2]. eexists _, _. split; [done|]. split; [by apply world_vm|done]. }
  intros []. eapply d_bind; [apply sync_fast_ok|]. intros []. eapply d_bind; [apply d_vcpu|]. intros v.
  apply (d_pre _ _ (fun w => world_ok w /\ clean w)); [by intros w []|]. destruct (mmio_waits (cpu v)).
  { apply (d_pre _ _ world_ok); [by intros w []|]. apply one_ok; [lia|apply resume_mmio_ok]. }
  destruct (pending_irq v) as [vec|]; [|apply dispatch_ok; lia]. destruct (deliverable v); [|apply dispatch_ok; lia].
  apply (d_pre _ _ world_ok); [by intros w []|]. apply one_ok; [lia|apply take_irq_ok].
Qed.

Lemma run_loop_ok n hops k ctx : 0 <= k <= b -> b - k < Z.of_nat n -> b - k <= Z.of_nat hops ->
  dsafe world_ok (run_loop n hops (Some b) k ctx) (fun _ => world_ok).
Proof.
  revert k ctx. induction n as [|n IH]; intros k ctx Hk Hn Hh; [lia|]. cbn [run_loop]. eapply d_bind; [by apply turn_ok|].
  intros [[k'|e] ctx']; [|apply d_ret; by intros w []]. intros w [Hw Hk']. cbn in Hk'. specialize (Hk' k' eq_refl). apply IH; [lia..|done].
Qed.

Lemma run_ok n : b < Z.of_nat n ->
  dsafe (fun w => world_ok w /\ watch_bits_cover_size (mem (w_vm w)) = true) (run n (Some b)) (fun _ => world_ok).
Proof.
  intros Hn. unfold run, run_inner. eapply (d_bind _ _ _ (fun _ => world_ok)).
  - intros w [Hw Hc]. unfold mbind, D_bind, vm_, opt. cbn [mbind option_bind]. unfold for_memory. rewrite Hc. cbn [mbind option_bind].
    apply (run_loop_ok n n 0); [lia..|done].
  - intros e. eapply d_bind; [apply d_vcpu|]. intros v. eapply (d_bind _ _ _ (fun _ => world_ok)).
    { intros w [Hw _]. eexists _, _. split; [done|]. apply world_vm; [done|]. apply step_cache; [apply Hw|]. unfold add_chained. by destruct (negb _). }
    intros []. eapply d_bind; [by apply note_ok|]. intros []. by apply d_ret.
Qed.
End Run.

(** ** A small machine *)

(** [l] at 0x100 of the example memory, all of it guest RAM. *)
Definition ex_program (l : list Z) : Memory :=
  set_backing ex_mem (set_bytes (backing ex_mem) (store_bytes (b_bytes (backing ex_mem)) 0x100 l)).
Definition ex_vm (mo : CpuMode) (l : list Z) : Vm InterpreterBackend := set_cpu_mode (from_mem (ex_program l) TheInterpreter CFast) mo.
Definition at_cs_ip (v : Vcpu) (cs_ ip_ : Z) : Vcpu := set_cpu v (set_rip (set_cs (cpu v) cs_) ip_).
Definition ex_world (mo : CpuMode) (l : list Z) (cs_ ip_ : Z) : World InterpreterBackend :=
  mkWorld (at_cs_ip (new_vcpu (ex_vm mo l)) cs_ ip_) (ex_vm mo l).

Lemma ex_program_wf l : Forall (in_width 8) l -> mem_wf (ex_program l).
Proof. intros Hl. pose proof ex_mem_wf as [H1 H2 H3 H4 H5 H6]. split; try done. by apply bytes_wf_store. Qed.
Lemma ex_world_ok mo l cs_ ip_ : Forall (in_width 8) l -> in_width 16 cs_ -> in_width 64 ip_ -> world_ok (ex_world mo l cs_ ip_).
Proof.
  intros Hl Hc Hi. split.
  - destruct default_vcpu as [H1 H2]. destruct H1, H2. cbn [ex_world w_vcpu at_cs_ip set_cpu cpu]. split; by split.
  - apply length_replicate.
  - apply list.Forall_replicate. by cbn.
  - split; [by apply ex_program_wf|exact I|]. intros k u. cbn. by rewrite lookup_empty.
Qed.
(** [nop; nop; jmp -4]: a loop. *)
Definition ex_spin : list Z := [0x90; 0x90; 0xEB; 0xFC].
Lemma ex_spin_bytes : Forall (in_width 8) ex_spin.
Proof. repeat constructor; unfold in_width; lia. Qed.

(** ** Theorem *)

(** A run with a budget of [b] blocks returns to the embedder, whatever the guest does,
    with any backend that keeps [BackendLaws] and any decoder that keeps [LifterLaws]: no
    operation of the loop panics, every turn spends budget, and the virtual CPU, the
    machine and the private cache of compiled entries are well formed when it does. *)
Theorem budget_run_returns {B} `{BL : BackendLaws B} `{LL : LifterLaws} `{Libm} (w : World B) (b : Z) (n : nat) :
  world_ok w -> watch_bits_cover_size (mem (w_vm w)) = true -> 0 <= b < 2 ^ 64 -> b < Z.of_nat n ->
  exists e w', run n (Some b) w = Some (e, w') /\ world_ok w'.
Proof. intros Hw Hc Hb Hn. by apply (run_ok b Hb n Hn w). Qed.

Lemma budget_run_returns_witness : exists e w', run (H2 := no_libm) 8 (Some 7) (ex_world Long64 ex_spin 0 0x100) = Some (e, w') /\ world_ok w'.
Proof.
  apply (budget_run_returns (H1 := no_libm) (ex_world Long64 ex_spin 0 0x100) 7 8).
  - apply ex_world_ok; [apply ex_spin_bytes|unfold in_width; lia..].
  - vm_compute. reflexivity.
  - lia.
  - lia.
Defined.

