(* ===== verification/Refine.v ===== *)
(** * The dispatcher runs the program that is in memory

    With the interpreter's backend and a flat code segment: whatever is cached, hot or
    self-modified, [run] is a sequence of steps of a machine with no cache, each of which
    translates the bytes under RIP anew and executes the block.  The proof keeps the
    invariant [coherent]: a cached unit was translated from the bytes that are in memory
    now, but for those on pages of the dirty list, and all its pages are tagged. *)

From S2P Require Import Prelude Features State Ir Alu Memory PageTrack Interp IntegerSpec Control HostFloat F80 F80Trans X87 X87Arm VecSafe Block Walk Lift Cache LiftSpec Vm Evolve Toy Raise VmSpec RunSpec.

(** ** The machine without a cache *)

(** Memories that differ in the tags of the translation cache only. *)
Definition retag (m m' : Memory) : Prop :=
  model m' = model m /\ backing m' = backing m /\ regions m' = regions m /\ watch m' = watch m /\
  m_guest_base m' = m_guest_base m /\ last_region m' = last_region m.

#[export] Instance retag_preorder : PreOrder retag.
Proof. split; [done|]. intros m1 m2 m3 (?&?&?&?&?&?) (?&?&?&?&?&?). repeat split; congruence. Qed.
Lemma retag_view m m' : retag m m' -> forall x, v_byte (view m') x = v_byte (view m) x.
Proof. intros (H1 & H2 & H3 & H4 & H5 & H6) x. cbn. by rewrite H2, H5. Qed.

Section Machine.
Context {IC : Iced} {IL : InsnLifter} {LM : Libm} (mo : CpuMode).

(** [ir] is the translation of the bytes at [a]: lifted from a memory that agrees with
    [m] on every byte the block covers. *)
Definition fresh (m : Memory) (a : Z) (ir : IrBlock) : Prop :=
  exists m0, mem_wf m0 /\ lift_block m0 (fetch_flat a) mo = Some (Ok ir) /\
    forall x, a <= x < a + guest_len ir -> v_byte (view m0) x = v_byte (view m) x.

Record Abs : Type := mkAbs { a_cpu : CpuState; a_mem : Memory; a_irq : option Z; a_shadow : bool }.

Definition irq_due (s : Abs) : Prop :=
  a_irq s <> None /\ if_ (flags (a_cpu s)) = true /\ pending_port_in (a_cpu s) = None /\ a_shadow s = false.

(** One step and how it ended. *)
Inductive astep : Abs -> StepResult -> Abs -> Prop :=
  | as_resume s m r info c' m' : mmio_waits (a_cpu s) = true -> retag (a_mem s) m ->
      step_one (a_cpu s) m mo = Some (r, info, c', m') ->
      astep s r (mkAbs (match r with Continue => clear_mmio_parts c' | _ => c' end) m' (a_irq s) (sti_shadow info))
  | as_irq s m vec r s' : mmio_waits (a_cpu s) = false -> irq_due s -> a_irq s = Some vec -> retag (a_mem s) m ->
      deliver_interrupt (rip (a_cpu s)) vec (rip (a_cpu s)) (mkMach (a_cpu s) m []) = Some (r, s') ->
      astep s r (mkAbs (m_cpu s') (m_mem s') None (match r with Continue => false | _ => a_shadow s end))
  | as_block s m ir r info c' m' : mmio_waits (a_cpu s) = false -> ~ irq_due s -> retag (a_mem s) m ->
      fresh m (rip (a_cpu s)) ir -> interpret_block ir (a_cpu s) m = Some (r, info, c', m') ->
      astep s r (mkAbs c' m' (a_irq s) (sti_shadow info))
  | as_unliftable s m e : mmio_waits (a_cpu s) = false -> ~ irq_due s -> retag (a_mem s) m ->
      lift_block m (fetch_flat (rip (a_cpu s))) mo = Some (Err e) ->
      astep s (SExit (lift_exit e)) (mkAbs (a_cpu s) m (a_irq s) (a_shadow s)).

(** [n] steps that went on. *)
Inductive asteps : nat -> Abs -> Abs -> Prop :=
  | as_here s : asteps 0 s s
  | as_more n s s' s'' : astep s Continue s' -> asteps n s' s'' -> asteps (S n) s s''.
End Machine.

(** ** Coherence *)

Section Coherent.
Context {IC : Iced} {IL : InsnLifter} {LL : LifterLaws} {LM : Libm}.
Notation VM := (Vm InterpreterBackend).

(** The unit [ir] cached under [k], with [D] the pages whose writes are still to be handled. *)
Definition unit_at (D : list Z) (m : Memory) (k : BlockKey) (ir : IrBlock) : Prop :=
  span_wf (guest_addr k, guest_len ir) /\
  (forall p, p ∈ code_page_range (guest_addr k) (guest_len ir) -> is_code_page m p = true) /\
  guest_start ir = guest_addr k /\
  exists m0, mem_wf m0 /\ lift_block m0 (fetch_flat (guest_addr k)) (mode k) = Some (Ok ir) /\
    forall x, guest_addr k <= x < guest_addr k + guest_len ir -> v_byte (view m0) x = v_byte (view m) x \/ page_of x ∈ D.

Definition table_covers (m : Memory) : Prop := forall a, 0 <= a < model_span (model m) -> in_table (code_page m) (page_of a).

Record coherent_in (D : list Z) (v : VM) : Prop := {
  co_tracked : tracked (mem v);
  co_table : table_covers (mem v);
  co_units : forall k ir, cmap (cache v) !! k = Some (Interpreted ir) ->
    cspans (cache v) !! k = Some [(guest_addr k, guest_len ir)] /\ unit_at D (mem v) k ir;
}.
Definition coherent (v : VM) : Prop := coherent_in (dirty (mem v)) v.

Lemma page_in_range a n x : 0 <= a -> 0 < n -> a + n < 2 ^ 64 -> a <= x < a + n -> page_of x ∈ code_page_range a n.
Proof.
  intros Ha Hn Hs Hx. unfold code_page_range, page_of, CODE_PAGE_BITS. apply zseq_elem. unfold saturating_add.
  rewrite !Z.shiftr_div_pow2 by lia. change (2 ^ 12) with 4096. rewrite Z.min_l, Z.max_l by lia. Z.div_mod_to_equations. lia.
Qed.
Lemma range_page a n p : 0 <= a -> 0 < n -> a + n < 2 ^ 64 -> p ∈ code_page_range a n -> exists x, a <= x < a + n /\ p = page_of x.
Proof.
  intros Ha Hn Hs Hp. unfold code_page_range, CODE_PAGE_BITS, saturating_add in Hp. apply zseq_elem in Hp.
  rewrite !Z.shiftr_div_pow2 in Hp by lia. change (2 ^ 12) with 4096 in Hp. rewrite Z.min_l, Z.max_l in Hp by lia.
  exists (Z.max (p * 4096) a). unfold page_of, CODE_PAGE_BITS. rewrite Z.shiftr_div_pow2 by lia. change (2 ^ 12) with 4096. Z.div_mod_to_equations. lia.
Qed.

(** A block's writes keep the invariant: what they make stale is on a dirty page. *)
Lemma coherent_evolves v m' : coherent v -> evolves (mem v) m' -> coherent (set_mem v m').
Proof.
  intros [H1 H2 H3] E. split; cbn [mem set_mem cache].
  - apply E.
  - intros a. rewrite (ev_model _ _ E), (ev_code _ _ E). apply H2.
  - intros k ir Hk. destruct (H3 k ir Hk) as (Hs & Hw & Hp & Hg & m0 & Hm0 & Hl & Hx). split; [done|]. split; [done|].
    assert (Hc : forall p, is_code_page m' p = is_code_page (mem v) p) by (intros p; unfold is_code_page; by rewrite (ev_code _ _ E)).
    split; [intros p; rewrite Hc; apply Hp|]. split; [done|]. exists m0. split; [done|]. split; [done|]. intros x Hxr.
    destruct (Hx x Hxr) as [Hx'|Hd]; [|right; by apply (ev_dirty _ _ E)].
    destruct (decide (v_byte (view m') x = v_byte (view (mem v)) x)) as [Hsame|Hne]; [left; congruence|]. right.
    apply (ev_written _ _ E); [done|]. apply Hp. destruct Hw as (? & ? & ?). by apply page_in_range.
Qed.

Lemma covers_retag m m' : retag m m' -> table_covers m -> length (code_page m') = length (code_page m) -> table_covers m'.
Proof. intros (E & _) H Hl a. rewrite E. unfold in_table. rewrite Hl. apply H. Qed.

(** *** Self-modified code *)

Lemma clear_retag m p : retag m (clear_code_page m p).
Proof. by repeat split. Qed.
Lemma clear_code_page_code m p q : 0 <= q -> is_code_page (clear_code_page m p) q = negb (q =? p) && is_code_page m q.
Proof.
  intros Hq. unfold is_code_page, clear_code_page. cbn [code_page set_code_page]. destruct (Z.le_gt_cases 0 p) as [Hp|Hp]; [by apply bit_clear_get|].
  destruct (Z.eqb_spec q p); [lia|]. unfold bit_clear, word_bit, nthZ. destruct (Z.ltb_spec (Z.shiftr p 6) 0) as [|Hn]; [done|].
  rewrite Z.shiftr_div_pow2 in Hn by lia. Z.div_mod_to_equations. lia.
Qed.
Lemma tracked_retag m m' : tracked m -> retag m m' -> mem_tags_ok m' -> tracked m'.
Proof. intros [H1 H2 H3 _] (E1 & E2 & E3 & E4 & E5 & E6) Ht. split; [by rewrite E1, E3, E5|by rewrite E5|by rewrite E1|done]. Qed.
Lemma clear_tags_ok m p : mem_tags_ok m -> mem_tags_ok (clear_code_page m p).
Proof.
  intros [[A B C] H2 H3]. split; [|done|done]. split; [cbn [code_page set_code_page clear_code_page]; by rewrite bit_clear_length|done|].
  intros q Hq Hq2. rewrite clear_code_page_code in Hq2 by done. apply andb_true_iff in Hq2 as [_ ?]. by apply C.
Qed.

Lemma smc_page_coherent v p rest vs c m : coherent_in (p :: rest) v -> smc_page (cache v) (mem v) p = (vs, c, m) ->
  coherent_in rest (set_mem (set_cache v c) m) /\ retag (mem v) m /\ dirty m = dirty (mem v).
Proof.
  intros [H1 H2 H3] E. unfold smc_page, invalidate_overlapping in E. cbn zeta in E. injection E as Ev Ec <-. cbn [tg_clear memory_tags].
  destruct (drop_all_spec vs (cache v)) as (D1 & D2 & _). rewrite Ev in Ec.
  assert (Ecm : cmap c = cmap (foldl drop_unit (cache v) vs) /\ cspans c = cspans (foldl drop_unit (cache v) vs)) by (subst c; by destruct vs).
  destruct Ecm as [Em Es]. split; [|split; [apply clear_retag|done]]. split; cbn [mem set_mem cache set_cache].
  - apply (tracked_retag (mem v)); [done|apply clear_retag|]. apply clear_tags_ok, H1.
  - apply (covers_retag (mem v)); [apply clear_retag|done|]. cbn. apply bit_clear_length.
  - intros k ir. rewrite Em, Es, D1, D2. destruct (decide (k ∈ vs)) as [|Hv]; [done|]. intros Hk.
    destruct (H3 k ir Hk) as (Hs & Hw & Hp & Hg & m0 & Hm0 & Hl & Hx). split; [done|]. split; [done|].
    assert (Hpn : p ∉ code_page_range (guest_addr k) (guest_len ir)).
    { intros Hin. apply Hv. rewrite <- Ev. apply victims_spec. eexists. split; [exact Hs|]. cbn [existsb]. by rewrite (page_overlap p (guest_addr k, guest_len ir) Hw Hin). }
    split; [|split; [done|]].
    + intros q Hq. destruct Hw as (W1 & W2 & W3). rewrite clear_code_page_code by (by eapply code_page_range_nonneg).
      destruct (Z.eqb_spec q p) as [->|]; [done|]. by apply Hp.
    + exists m0. split; [done|]. split; [done|]. intros x Hxr. destruct (Hx x Hxr) as [Hx'|Hd]; [by left|]. right.
      apply elem_of_cons in Hd as [Hd|Hd]; [|done]. destruct Hpn. rewrite <- Hd. destruct Hw as (W1 & W2 & W3). by apply page_in_range.
Qed.

Lemma smc_pages_coherent pages v inv : coherent_in pages v ->
  coherent_in [] (smc_pages v pages inv).1 /\ retag (mem v) (mem (smc_pages v pages inv).1) /\ dirty (mem (smc_pages v pages inv).1) = dirty (mem v).
Proof.
  revert v inv. induction pages as [|p rest IH]; intros v inv Hv; cbn [smc_pages]; [done|].
  destruct (smc_page (cache v) (mem v) p) as [[vs c] m] eqn:E. destruct (smc_page_coherent v p rest vs c m Hv E) as (H1 & H2 & H3).
  destruct (IH _ (inv || dropped vs) H1) as (I1 & I2 & I3). split; [done|]. split; [by etransitivity|]. by rewrite I3.
Qed.

Lemma coherent_take v : coherent v -> let '(pages, m) := take_dirty_code (mem v) in
  coherent_in pages (set_mem v m) /\ retag (mem v) m /\ dirty m = [].
Proof.
  intros [H1 H2 H3]. destruct (@take_law Memory _ memory_tag_laws (mem v) (tr_tags _ H1)) as (T1 & T2 & T3 & _ & T5). cbn [tg_take tg_dirty tg_code memory_tags] in *.
  assert (Hr : retag (mem v) (take_dirty_code (mem v)).2 /\ code_page (take_dirty_code (mem v)).2 = code_page (mem v))
    by (unfold take_dirty_code; by destruct (negb _)).
  destruct (take_dirty_code (mem v)) as [pages m]. cbn [fst snd] in *. destruct Hr as [Hr Hc]. split; [|done]. split; cbn [mem set_mem cache].
  - by apply (tracked_retag (mem v)).
  - apply (covers_retag (mem v)); [done|done|by rewrite Hc].
  - intros k ir Hk. destruct (H3 k ir Hk) as (Hs & Hw & Hp & Hg & m0 & Hm0 & Hl & Hx). split; [done|]. split; [done|].
    split; [intros p; rewrite T5; apply Hp|]. split; [done|]. exists m0. split; [done|]. split; [done|]. intros x Hxr. rewrite (retag_view _ _ Hr), T3. by apply Hx.
Qed.

Lemma handle_smc_coherent v : coherent v ->
  coherent (handle_smc v) /\ retag (mem v) (mem (handle_smc v)) /\ dirty (mem (handle_smc v)) = [].
Proof.
  intros Hv. unfold handle_smc. pose proof (coherent_take v Hv) as Ht. destruct (take_dirty_code (mem v)) as [pages m]. destruct Ht as (H1 & H2 & H3).
  destruct (smc_pages_coherent pages (set_mem v m) false H1) as (I1 & I2 & I3). destruct (smc_pages _ _ _) as [v1 inv]. cbn [fst] in *.
  assert (Hd : dirty (mem v1) = []) by (rewrite I3; exact H3). assert (Hr : retag (mem v) (mem v1)) by (etransitivity; [exact H2|exact I2]).
  assert (Hc : coherent v1) by (unfold coherent; by rewrite Hd). destruct inv; [|done]. split; [|done]. destruct Hc. by split.
Qed.

(** *** Finding a block *)

Lemma mark_page_retag m p : retag m (mark_code_page m p).
Proof. unfold mark_code_page, widen_code_range. destruct (word_bit p), (nthZ _ _); [|done]. by destruct (widen_next _ _). Qed.
Lemma mark_code_retag m a n : retag m (mark_code m a n).
Proof.
  unfold mark_code. generalize (code_page_range a n) as l. intros l. revert m. induction l as [|p l IH]; intros m; cbn [foldl]; [done|].
  etransitivity; [apply (mark_page_retag m p)|apply IH].
Qed.

(** Everything the invariant looks at is as it was. *)
Definition same_units (v v' : VM) : Prop := mem v' = mem v /\ cmap (cache v') = cmap (cache v) /\ cspans (cache v') = cspans (cache v).
Lemma coherent_same v v' : coherent v -> same_units v v' -> coherent v'.
Proof. intros [H1 H2 H3] (E1 & E2 & E3). unfold coherent. rewrite E1. split; rewrite ?E1; [done|done|]. rewrite E2, E3. exact H3. Qed.

Lemma unit_fresh m k ir : unit_at [] m k ir -> fresh (mode k) m (guest_addr k) ir.
Proof.
  intros (_ & _ & _ & m0 & Hm0 & Hl & Hx). exists m0. split; [done|]. split; [done|]. intros x Hxr.
  destruct (Hx x Hxr) as [?|Hn]; [done|]. by apply elem_of_nil in Hn.
Qed.

Lemma coherent_put v c a mo ir m : coherent v -> tracked m -> table_covers m -> retag (mem v) m -> dirty m = dirty (mem v) ->
  (forall p, 0 <= p -> is_code_page (mem v) p = true -> is_code_page m p = true) ->
  cmap c = <[mkKey a mo := Interpreted ir]> (cmap (cache v)) -> cspans c = <[mkKey a mo := [(a, guest_len ir)]]> (cspans (cache v)) ->
  unit_at (dirty m) m (mkKey a mo) ir -> coherent (set_mem (set_cache v c) m).
Proof.
  intros [H1 H2 H3] Ht Hc Hr Hd Hp Em Es Hu. split; [done|done|]. cbn [mem cache set_mem set_cache]. intros k ir'. rewrite Em, Es.
  destruct (decide (k = mkKey a mo)) as [-> |Hne]; [rewrite !lookup_insert_eq; by intros [= <-]|]. rewrite !lookup_insert_ne by done.
  intros Hk. destruct (H3 k ir' Hk) as (Hs & Hw & Hpp & Hg & m0 & Hm0 & Hl & Hx). split; [done|]. split; [done|]. split; [|split; [done|]].
  - intros p Hin. destruct Hw as (W1 & W2 & W3). apply Hp; [by eapply code_page_range_nonneg|by apply Hpp].
  - exists m0. split; [done|]. split; [done|]. intros x Hxr. rewrite (retag_view _ _ Hr), Hd. by apply Hx.
Qed.

Lemma insert_coherent v a mo ir c m : coherent v -> mem_wf (mem v) -> 0 <= a -> lift_block (mem v) (fetch_flat a) mo = Some (Ok ir) ->
  insert_unit (cache v) (mem v) (mkKey a mo) (Interpreted ir) [(a, guest_len ir)] mark_all = (c, m) ->
  coherent (set_mem (set_cache v c) m) /\ retag (mem v) m /\ dirty m = dirty (mem v) /\ fresh mo m a ir.
Proof.
  intros Hv Hm Ha Hl [= <- <-]. pose proof (lift_block_ok (mem v) (fetch_flat a) mo Hm (fetch_ok_flat a Ha)) as Hok. rewrite Hl in Hok.
  destruct Hok as (Hb & Hg & _ & Htop & Hlen & _). cbn [pa ip fetch_flat] in *.
  pose proof (tr_span _ (co_tracked _ _ Hv)) as Hspan. assert (Hw : span_wf (a, guest_len ir)) by (unfold span_wf; cbn; lia).
  destruct (@mark_spans_law Memory _ memory_tag_laws [(a, guest_len ir)] (mem v) (tr_tags _ (co_tracked _ _ Hv))) as (T1 & T2 & T3 & T4 & T5); [by apply list.Forall_singleton|].
  change (@mark_spans Memory _ (mem v) [(a, guest_len ir)]) with (mark_code (mem v) a (guest_len ir)) in *. cbn [mark_all mark_spans foldl tg_mark memory_tags fst snd].
  cbn [tg_dirty tg_code tg_tracked tg_ok memory_tags memory_tag_laws] in *.
  set (m := mark_code (mem v) a (guest_len ir)) in *. assert (Hr : retag (mem v) m) by apply mark_code_retag.
  assert (Hlc : length (code_page m) = length (code_page (mem v))) by apply mark_code_same.
  assert (Hfr : fresh mo m a ir) by (exists (mem v); split; [done|]; split; [done|]; intros x _; by rewrite (retag_view _ _ Hr)).
  split; [|done]. apply (coherent_put v _ a mo ir m); try done.
  - apply (tracked_retag (mem v)); [apply Hv|done|exact T1].
  - apply (covers_retag (mem v)); [done|apply Hv|done].
  - split; [done|]. split; [|split; [done|]].
    + intros p Hp. cbn [guest_addr] in Hp. apply T5; [by eapply code_page_range_nonneg|by constructor|].
      destruct (range_page a (guest_len ir) p) as (x & Hx & ->); [lia..|done|]. apply (co_table _ _ Hv). lia.
    + destruct Hfr as (m0 & ? & ? & Hx). exists m0. split; [done|]. split; [done|]. intros x Hxr. left. by apply Hx.
Qed.

Lemma miss_coherent v a mo r v' : coherent v -> mem_wf (mem v) -> 0 <= a -> resolve_miss v (mkKey a mo) (fetch_flat a) mo = Some (r, v') ->
  coherent v' /\ retag (mem v) (mem v') /\ dirty (mem v') = dirty (mem v) /\
  match r with
  | Ok (Interpreted ir) => fresh mo (mem v') a ir
  | Ok (Compiled _) => False
  | Err e => mem v' = mem v /\ exists le, lift_block (mem v) (fetch_flat a) mo = Some (Err le) /\ e = lift_exit le
  end.
Proof.
  intros Hv Hm Ha E. unfold resolve_miss in E. cbn [region_caps interpreter_backend] in E.
  assert (E' : (r0 ← lift_block (mem v) (fetch_flat a) mo;
      match r0 with Ok ir => let '(b, v1) := finish_single v (mkKey a mo) (pa (fetch_flat a)) ir in Some (Ok b, v1) | Err e => Some (Err (lift_exit e), v) end) = Some (r, v'))
    by (by destruct (tier_up_background v)). clear E.
  destruct (lift_block (mem v) (fetch_flat a) mo) as [[ir|le]|] eqn:El; [| |done]; cbn [mbind option_bind] in E'.
  - unfold finish_single in E'. cbn [pa fetch_flat] in E'.
    assert (Hsel : (match tier_up_after v with Some _ => (Interpreted ir, v) | None => vm_materialize v ir end) = (Interpreted ir, v)).
    { destruct (tier_up_after v); [done|]. unfold vm_materialize. cbn [materialize interpreter_backend]. by destruct v. }
    rewrite Hsel in E'. destruct (insert_unit _ _ _ _ _ _) as [c m] eqn:Ei. injection E' as <- <-. by apply (insert_coherent v a mo ir c m).
  - injection E' as <- <-. split; [done|]. split; [done|]. split; [done|]. split; [done|]. by exists le.
Qed.

(** What a lookup ends with. *)
Definition found (v : VM) (a : Z) (mo : CpuMode) (r : Result CachedBlock Exit) (v' : VM) : Prop :=
  coherent v' /\ retag (mem v) (mem v') /\ dirty (mem v') = dirty (mem v) /\
  match r with
  | Ok (Interpreted ir) => fresh mo (mem v') a ir
  | Ok (Compiled _) => False
  | Err e => mem v' = mem v /\ exists le, lift_block (mem v) (fetch_flat a) mo = Some (Err le) /\ e = lift_exit le
  end.

Lemma found_hit v v' a mo ir : coherent v -> same_units v v' -> fresh mo (mem v) a ir -> found v a mo (Ok (Interpreted ir)) v'.
Proof.
  intros Hv Hs Hf. split; [by eapply coherent_same|]. destruct Hs as (E & _). rewrite E. by split.
Qed.

(** The background branch without a compiler: the block is to be upgraded at once, or is
    being upgraded already. *)
Lemma submit_same v k a mo ir count thr ep t v' : submit_tier_up v k a mo ir count thr ep = Some (t, v') ->
  same_units v v' /\ epoch (cache v') = epoch (cache v).
Proof.
  unfold submit_tier_up, region_candidate. cbn [region_caps interpreter_backend mbind option_bind andb].
  destruct (try_begin_tier_up (cache v) k) as [began c] eqn:Et. injection Et as _ <-. destruct began; cbn [negb mbind option_bind tier_up_async interpreter_backend]; by intros [= <- <-].
Qed.

Lemma upgrade_coherent v a mo ir : coherent v -> dirty (mem v) = [] -> cmap (cache v) !! mkKey a mo = Some (Interpreted ir) ->
  found v a mo (Ok (Interpreted ir)) (set_cache v (upgrade (cache v) (mkKey a mo) (Interpreted ir) (block_span ir) (epoch (cache v))).2).
Proof.
  intros Hv Hd Hk. destruct (co_units _ _ Hv _ _ Hk) as (Hs & Hu). rewrite Hd in Hu. pose proof (unit_fresh _ _ _ Hu) as Hf.
  destruct Hu as (Hw & Hp & Hg & Hm0). cbn [guest_addr] in Hg. unfold upgrade, upgrade_region, block_span. rewrite Z.eqb_refl. cbn [negb snd].
  apply found_hit; [done| |done]. split; [done|]. cbn [cache set_cache cmap cspans set_hotness set_units]. rewrite Hg. split; by apply insert_id.
Qed.

Lemma resolve_coherent n v a mo r v' : vm_ok v -> coherent v -> dirty (mem v) = [] -> 0 <= a ->
  resolve (S n) v (fetch_flat a) mo = Some (r, v') -> found v a mo r v'.
Proof.
  intros Hok Hv Hd Ha E. cbn [resolve] in E.
  assert (Ed : (if tier_up_background v then drain_tier_up v else v) = v) by (destruct (tier_up_background v); [|done]; by destruct v).
  rewrite Ed in E. clear Ed. cbn [pa fetch_flat] in E. destruct (get (cache v) (mkKey a mo)) as [fnd c1] eqn:Eg. injection Eg as Ef Ec1.
  assert (S1 : same_units v (set_cache v c1) /\ epoch c1 = epoch (cache v)) by (rewrite <- Ec1; by destruct (cmap (cache v) !! mkKey a mo)).
  destruct S1 as [S1 E1]. pose proof (coherent_same _ _ Hv S1) as Hv1. destruct fnd as [u|].
  2: { destruct (miss_coherent (set_cache v c1) a mo r v' Hv1 (vo_mem _ Hok) Ha E) as (H1 & H2 & H3 & H4). by split. }
  destruct u as [ir|e]; [|by destruct (vo_units _ Hok _ _ Ef)]. destruct (co_units _ _ Hv _ _ Ef) as (Hs & Hu). rewrite Hd in Hu. pose proof (unit_fresh _ _ _ Hu) as Hf.
  destruct (tier_up_after (set_cache v c1)) as [thr|]; [|injection E as <- <-; by apply found_hit].
  destruct (bump_hotness (cache (set_cache v c1)) (mkKey a mo)) as [count c2] eqn:Eb. injection Eb as _ Ec2.
  assert (S2 : same_units v (set_cache (set_cache v c1) c2) /\ epoch c2 = epoch (cache v)) by (rewrite <- Ec2; by destruct S1).
  change (epoch c2) with (epoch (cache (set_cache (set_cache v c1) c2))) in S2. set (v2 := set_cache (set_cache v c1) c2) in *. clearbody v2. destruct S2 as [S2 E2]. destruct (count <? thr); [injection E as <- <-; by apply found_hit|].
  destruct (if tier_up_background v2 then _ else _) as [[t v3]|] eqn:Et; [|done]. cbn [mbind option_bind] in E.
  assert (S3 : same_units v v3 /\ epoch (cache v3) = epoch (cache v)).
  { destruct (tier_up_background v2); [|by injection Et as <- <-]. destruct (submit_same _ _ _ _ _ _ _ _ _ _ Et) as [(T1 & T2 & T3) T4].
    destruct S2 as (U1 & U2 & U3). unfold same_units. rewrite T1, T2, T3. split; [done|congruence]. }
  destruct S3 as [S3 E3]. destruct t; [injection E as <- <-; by apply found_hit|].
  assert (Em : vm_materialize v3 ir = (Interpreted ir, v3)) by (by destruct v3). rewrite Em, <- E3 in E. clear Em.
  pose proof (upgrade_coherent v3 a mo ir (coherent_same _ _ Hv S3)) as Hup. destruct S3 as (U1 & U2 & U3). rewrite U1, U2 in Hup. specialize (Hup Hd Ef).
  unfold upgrade, upgrade_region in *. rewrite Z.eqb_refl in *. cbn [negb snd] in *. injection E as <- <-.
  unfold found in *. cbn [mem set_cache] in *. rewrite U1 in *. exact Hup.
Qed.
End Coherent.

(** ** Turns of the loop *)

Section Turns.
Context {IC : Iced} {IL : InsnLifter} {LL : LifterLaws} {LM : Libm} (mo : CpuMode) (Hmo : mo <> Real16).
Notation W := (World InterpreterBackend).

Record inv (w : W) : Prop := {
  inv_ok : world_ok w;
  inv_coherent : coherent (w_vm w);
  inv_mode : v_mode (w_vcpu w) = mo;
}.

Definition abs (w : W) : Abs :=
  mkAbs (cpu (w_vcpu w)) (mem (w_vm w)) (pending_irq (w_vcpu w)) (v_sti_shadow (w_vcpu w)).

Lemma post {A} P (x : D InterpreterBackend A) Q w a w' : dsafe P x Q -> P w -> x w = Some (a, w') -> Q a w'.
Proof. intros Hx Hw E. destruct (Hx w Hw) as (a1 & w1 & E1 & H1). rewrite E in E1. by injection E1 as <- <-. Qed.

Lemma flat_fetch a s : for_mode mo a s = fetch_flat a.
Proof. by destruct mo. Qed.

Lemma step_one_evolves c m r info c' m' : vcpu c -> mem_wf m -> tracked m -> step_one c m mo = Some (r, info, c', m') -> evolves m m'.
Proof.
  intros Hc Hm Ht. unfold step_one. pose proof (lift_one_ok m (for_mode mo (rip c) (cs c)) mo Hm (fetch_ok_for mo c (proj1 Hc))) as Hl.
  destruct (lift_one _ _ _) as [[ir|e]|]; [| |done]; cbn [mbind option_bind]; [|intros [= <- <- <- <-]; by apply evolves_refl].
  intros E. eapply block_evolves; [apply Hl|done|exact E].
Qed.

(** After the housekeeping of a turn. *)
Definition kept (w w1 : W) : Prop := inv w1 /\ cpu (w_vcpu w1) = cpu (w_vcpu w) /\ pending_irq (w_vcpu w1) = pending_irq (w_vcpu w) /\
  v_sti_shadow (w_vcpu w1) = v_sti_shadow (w_vcpu w) /\ retag (mem (w_vm w)) (mem (w_vm w1)) /\ dirty (mem (w_vm w1)) = [] /\ clean w1.

Lemma housekeeping w u w1 : inv w -> (on_vm handle_smc ;; sync_fast) w = Some (u, w1) -> kept w w1.
Proof.
  intros [Hw Hc Hm] E. unfold mbind, D_bind, on_vm in E. cbn [mbind option_bind] in E.
  destruct (handle_smc_coherent (w_vm w) Hc) as (C1 & C2 & C3). destruct (handle_smc_ok (w_vm w) (wo_vm _ Hw)) as [H1 H2].
  set (w0 := mkWorld (w_vcpu w) (handle_smc (w_vm w))) in *. assert (Hw0 : world_ok w0) by (by apply world_vm).
  pose proof (post _ _ _ _ _ _ sync_fast_ok (conj Hw0 H2) E) as [Hw1 Hcl].
  unfold sync_fast, vm_, vcpu_, mbind, D_bind, on_vcpu in E. cbn [mbind option_bind w0 w_vm w_vcpu] in E.
  destruct (negb _); injection E as _ <-; (split; [by split|done]).
Qed.

Lemma resume_refines k w x w' : inv w -> mmio_waits (cpu (w_vcpu w)) = true -> forall w0, kept w0 w -> resume_mmio k w = Some (x, w') ->
  exists r, astep mo (abs w0) r (abs w') /\ x = after k r /\ inv w'.
Proof.
  intros [Hw Hc Hm] Hwait w0 (_ & K1 & K2 & K3 & K4 & _) E. pose proof (post _ _ _ _ _ _ (resume_mmio_ok k) Hw E) as [Hw' _].
  unfold resume_mmio, single_step, interp, on_vcpu, vcpu_, mbind, D_bind in E. cbn [mbind option_bind] in E. rewrite Hm in E.
  destruct (step_one _ _ _) as [[[[r info] c] m]|] eqn:Es; [|done]. cbn [mbind option_bind w_vcpu w_vm] in E.
  assert (Hev : coherent (set_mem (w_vm w) m)) by (apply coherent_evolves; [done|]; eapply step_one_evolves; [apply Hw|apply Hw|apply Hc|exact Es]).
  exists r. rewrite K1 in Es, Hwait.
  pose proof (as_resume mo (abs w0) (mem (w_vm w)) r info c m) as Hst. unfold abs in *. cbn [a_cpu a_mem a_irq a_shadow] in Hst.
  destruct r as [|ex]; injection E as <- <-; (split; [|split; [done|by split]]);
    (cbn [w_vcpu w_vm set_sti add_retired set_cpu cpu pending_irq v_sti_shadow mem set_mem]; rewrite K2; by apply Hst).
Qed.

Lemma irq_refines k vec w x w' : inv w -> mmio_waits (cpu (w_vcpu w)) = false -> pending_irq (w_vcpu w) = Some vec -> deliverable (w_vcpu w) = true ->
  forall w0, kept w0 w -> take_irq vec k w = Some (x, w') -> exists r, astep mo (abs w0) r (abs w') /\ x = after k r /\ inv w'.
Proof.
  intros [Hw Hc Hm] Hwait Hirq Hdel w0 (_ & K1 & K2 & K3 & K4 & _) E. pose proof (post _ _ _ _ _ _ (take_irq_ok vec k) Hw E) as [Hw' _].
  unfold take_irq, deliver, on_vcpu, vcpu_, mbind, D_bind in E. cbn [mbind option_bind w_vcpu w_vm set_pending_irq cpu] in E.
  destruct (deliver_interrupt _ _ _ _) as [[r s]|] eqn:Es; [|done]. cbn [mbind option_bind w_vcpu w_vm] in E.
  assert (Hev : coherent (set_mem (w_vm w) (m_mem s))).
  { apply coherent_evolves; [done|]. pose proof (deliver_evo (rip (cpu (w_vcpu w))) vec (rip (cpu (w_vcpu w))) (mkMach (cpu (w_vcpu w)) (mem (w_vm w)) []) (co_tracked _ _ Hc)) as H. by rewrite Es in H. }
  assert (Hdue : irq_due (abs w0)).
  { unfold deliverable in Hdel. rewrite K1, K3 in Hdel. apply andb_true_iff in Hdel as [Hdel Hsh]. apply andb_true_iff in Hdel as [Hdel Hp].
    apply andb_true_iff in Hdel as [Hi _]. unfold irq_due, abs. cbn. split; [congruence|]. split; [done|]. split; [by destruct (pending_port_in _)|]. by destruct (v_sti_shadow _). }
  exists r. rewrite K1 in Es, Hwait.
  pose proof (as_irq mo (abs w0) (mem (w_vm w)) vec r s) as Hst. unfold abs in *. cbn [a_cpu a_mem a_irq a_shadow] in Hst.
  destruct r as [|ex]; injection E as <- <-; (split; [|split; [done|by split]]);
    (cbn [w_vcpu w_vm set_sti set_pending_irq set_cpu cpu pending_irq v_sti_shadow mem set_mem]; rewrite ?K3; apply Hst; congruence || done).
Qed.

Lemma find_refines w r w' : inv w -> dirty (mem (w_vm w)) = [] -> clean w -> find_block w = Some (r, w') ->
  inv w' /\ w_vcpu w' = w_vcpu w /\ found (w_vm w) (rip (cpu (w_vcpu w))) mo r (w_vm w').
Proof.
  intros [Hw Hc Hm] Hd Hcl E. pose proof (post _ _ _ _ _ _ find_block_ok (conj Hw Hcl) E) as (Hw' & _).
  unfold find_block, vcpu_, opt, mbind, D_bind in E. cbn [mbind option_bind] in E.
  destruct (fast_get_ok w (rip (cpu (w_vcpu w))) Hw) as (h & Eh & Hh). rewrite Eh in E. cbn [mbind option_bind] in E.
  destruct h as [e|]; [by destruct (Hh e eq_refl)|]. rewrite Hm, flat_fetch in E.
  destruct (resolve_at (fetch_flat (rip (cpu (w_vcpu w)))) w) as [[r1 w1]|] eqn:Er; [|done]. cbn [mbind option_bind] in E.
  unfold resolve_at in Er. rewrite Hm in Er. destruct (resolve 2 _ _ _) as [[r2 v2]|] eqn:Er2; [|done]. cbn [mbind option_bind] in Er. injection Er as <- <-.
  destruct (wf_rip _ (proj1 (wo_cpu _ Hw))) as [H0 _].
  pose proof (resolve_coherent 1 _ _ _ _ _ (wo_vm _ Hw) Hc Hd H0 Er2) as Hf. pose proof Hf as (F1 & F2 & F3 & F4).
  destruct r2 as [[ir|e]|e]; [|done|]; injection E as <- <-; (split; [by split|done]).
Qed.

Lemma block_refines k ir w x w' : inv w -> block_wf ir -> mmio_waits (cpu (w_vcpu w)) = false -> run_interpreted ir k w = Some (x, w') ->
  forall w0, cpu (w_vcpu w) = cpu (w_vcpu w0) -> pending_irq (w_vcpu w) = pending_irq (w_vcpu w0) -> retag (mem (w_vm w0)) (mem (w_vm w)) ->
  ~ irq_due (abs w0) -> fresh mo (mem (w_vm w)) (rip (cpu (w_vcpu w))) ir ->
  exists r, astep mo (abs w0) r (abs w') /\ x = after k r /\ inv w'.
Proof.
  intros [Hw Hc Hm] Hir Hwait E w0 K1 K2 K4 Hdue Hf. pose proof (post _ _ _ _ _ _ (run_interpreted_ok ir k Hir) Hw E) as [Hw' _].
  unfold run_interpreted, interp, redeliver, on_vcpu, vcpu_, mbind, D_bind in E. cbn [mbind option_bind w_vcpu w_vm] in E.
  destruct (interpret_block _ _ _) as [[[[r info] c] m]|] eqn:Es; [|done]. cbn [mbind option_bind w_vcpu w_vm set_sti add_retired set_cpu v_mode] in E.
  assert (Hev : coherent (set_mem (w_vm w) m)) by (apply coherent_evolves; [done|]; eapply block_evolves; [apply Hir|apply Hc|exact Es]).
  exists r. rewrite K1 in Es, Hwait, Hf. pose proof (as_block mo (abs w0) (mem (w_vm w)) ir r info c m Hwait Hdue K4 Hf Es) as Hst.
  assert (Ex : x = after k r /\ w' = mkWorld (set_sti (add_retired (set_cpu (w_vcpu w) c) (retired info) (retired info)) (sti_shadow info)) (set_mem (w_vm w) m)).
  { rewrite Hm in E. destruct r as [|ex]; [by injection E as <- <-|]. destruct ex; try (by injection E as <- <-). destruct mo; try done; by injection E as <- <-. }
  destruct Ex as [-> ->]. split; [|split; [done|by split]]. unfold abs at 2.
  cbn [w_vcpu w_vm set_sti add_retired set_cpu cpu pending_irq v_sti_shadow mem set_mem]. rewrite K2. exact Hst.
Qed.

Lemma turn_refines hops budget k ctx w x ctx' w' : inv w -> turn hops budget k ctx w = Some ((x, ctx'), w') ->
  (spent budget k = true /\ x = Out BudgetExhausted /\ w' = w) \/
  (spent budget k = false /\ exists r, astep mo (abs w) r (abs w') /\ x = after k r /\ inv w').
Proof.
  intros Hi E. unfold turn in E. destruct (spent budget k); [left; by injection E as <- <- <-|]. right. split; [done|].
  unfold mbind at 1, D_bind at 1 in E. destruct (on_vm handle_smc w) as [[[] wa]|] eqn:Ea; [|done]. cbn [mbind option_bind] in E.
  unfold mbind at 1, D_bind at 1 in E. destruct (sync_fast wa) as [[[] w1]|] eqn:E1; [|done]. cbn [mbind option_bind] in E.
  assert (K : kept w w1) by (apply (housekeeping w tt); [done|]; unfold mbind, D_bind; rewrite Ea; exact E1). clear Ea E1 wa.
  unfold mbind at 1, D_bind at 1, vcpu_ at 1 in E. cbn [mbind option_bind] in E. pose proof K as (Hi1 & K1 & K2 & K3 & K4 & K5 & K6).
  assert (Hone : forall y : D InterpreterBackend Next, (y ≫= fun x => mret (x, ctx)) w1 = Some ((x, ctx'), w') -> y w1 = Some (x, w')).
  { intros y. unfold mbind, D_bind. destruct (y w1) as [[x1 w2]|]; [|done]. by intros [= <- _ <-]. }
  destruct (mmio_waits (cpu (w_vcpu w1))) eqn:Hwait; [by apply (resume_refines k w1 x w' Hi1 Hwait w K), Hone|].
  assert (Hdisp : ~ irq_due (abs w) -> dispatch hops budget k ctx w1 = Some ((x, ctx'), w') -> exists r, astep mo (abs w) r (abs w') /\ x = after k r /\ inv w').
  { clear E. intros Hdue E. unfold dispatch in E. unfold mbind at 1, D_bind at 1 in E. destruct (find_block w1) as [[r w2]|] eqn:Ef; [|done]. cbn [mbind option_bind] in E.
    destruct (find_refines w1 r w2 Hi1 K5 K6 Ef) as (Hi2 & Ev & Hf). pose proof (post _ _ _ _ _ _ find_block_ok (conj (inv_ok _ Hi1) K6) Ef) as (_ & _ & Hfo).
    destruct Hf as (F1 & F2 & F3 & F4). assert (Hr2 : retag (mem (w_vm w)) (mem (w_vm w2))) by (by etransitivity).
    destruct r as [[ir|e]|e]; [|done|].
    - unfold mbind, D_bind in E. destruct (run_interpreted ir k w2) as [[x1 w3]|] eqn:Er; [|done]. injection E as <- <- <-.
      rewrite <- Ev in *. eapply (block_refines k ir w2); eauto.
    - injection E as <- <- <-. destruct F4 as [Em (le & El & ->)]. exists (SExit (lift_exit le)). split; [|done].
      unfold abs at 2. rewrite Ev, Em, K1, K2, K3. rewrite K1 in El, Hwait. by apply (as_unliftable mo (abs w) (mem (w_vm w1)) le). }
  destruct (pending_irq (w_vcpu w1)) as [vec|] eqn:Ep.
  - destruct (deliverable (w_vcpu w1)) eqn:Edel; [by apply (irq_refines k vec w1 x w' Hi1 Hwait Ep Edel w K), Hone|]. apply Hdisp; [|done].
    intros (_ & D1 & D2 & D3). cbn in D1, D2, D3. unfold deliverable in Edel. rewrite Hwait, K1, K3, D1, D2, D3 in Edel. done.
  - apply Hdisp; [|done]. intros (D0 & _). cbn in D0. congruence.
Qed.

(** How a run ends after [j] steps, [k] of the budget already spent. *)
Definition ended (budget : option Z) (k : Z) (j : nat) (s : Abs) (e : Exit) (s' : Abs) : Prop :=
  match budget with
  | Some b => (e = BudgetExhausted /\ k + Z.of_nat j = b /\ s' = s) \/ (k + Z.of_nat j < b /\ astep mo s (SExit e) s')
  | None => astep mo s (SExit e) s'
  end.

Lemma run_loop_refines n hops budget k ctx w e w' : inv w -> (forall b, budget = Some b -> 0 <= k <= b /\ b < 2 ^ 64) ->
  run_loop n hops budget k ctx w = Some (e, w') ->
  inv w' /\ exists j s, asteps mo j (abs w) s /\ ended budget k j s e (abs w').
Proof.
  revert k ctx w. induction n as [|n IH]; intros k ctx w Hi Hb E; [done|]. cbn [run_loop] in E. unfold mbind at 1, D_bind at 1 in E.
  destruct (turn hops budget k ctx w) as [[[x ctx'] w1]|] eqn:Et; [|done]. cbn [mbind option_bind] in E.
  destruct (turn_refines _ _ _ _ _ _ _ _ Hi Et) as [(Hs & -> & ->)|(Hs & r & Hst & -> & Hi1)].
  - injection E as <- <-. split; [done|]. exists 0%nat, (abs w). split; [constructor|]. destruct budget as [b|]; [|done]. left.
    cbn [spent] in Hs. destruct (Hb b eq_refl). split; [done|]. split; [lia|done].
  - destruct r as [|ex]; cbn [after] in E.
    + assert (Hb' : forall b, budget = Some b -> wrapping_add 64 k 1 = k + 1 /\ 0 <= k + 1 <= b /\ b < 2 ^ 64).
      { intros b ->. destruct (Hb b eq_refl). cbn [spent] in Hs. unfold wrapping_add, wrap. rewrite Z.mod_small by lia. lia. }
      destruct (fun H => IH (wrapping_add 64 k 1) ctx' w1 Hi1 H E) as (Hi' & j & s & Hj & He); [intros b Eb; destruct (Hb' b Eb) as (-> & ? & ?); lia|].
      split; [done|]. exists (S j), s. split; [by econstructor|]. unfold ended in *. destruct budget as [b|]; [|done].
      destruct (Hb' b eq_refl) as (Hw & _). rewrite Hw in He. destruct He as [(? & ? & ?)|(? & ?)]; [left|right]; (split; [|try split]); (done || lia).
    + injection E as <- <-. split; [done|]. exists 0%nat, (abs w). split; [constructor|]. destruct budget as [b|]; [|done]. right. split; [|done].
      cbn [spent] in Hs. lia.
Qed.

Lemma run_refines_abs n budget w e w' : inv w -> (forall b, budget = Some b -> 0 <= b < 2 ^ 64) -> run n budget w = Some (e, w') ->
  inv w' /\ exists j s, asteps mo j (abs w) s /\ ended budget 0 j s e (abs w').
Proof.
  intros Hi Hb E. unfold run, run_inner in E. unfold mbind at 1, D_bind at 1 in E.
  destruct ((v ← vm_; ctx ← opt (for_memory (mem v)); run_loop n n budget 0 ctx) w) as [[e1 w1]|] eqn:E1; [|done]. cbn [mbind option_bind] in E.
  unfold mbind, D_bind, vm_, opt in E1. cbn [mbind option_bind] in E1. destruct (for_memory (mem (w_vm w))) as [ctx|]; [|done]. cbn [mbind option_bind] in E1.
  destruct (fun H => run_loop_refines n n budget 0 ctx w e1 w1 Hi H E1) as (Hi1 & Hst); [intros b Eb; specialize (Hb b Eb); lia|].
  unfold mbind, D_bind, vcpu_, on_vm, on_vcpu in E. cbn [mbind option_bind w_vcpu w_vm] in E. injection E as <- <-. split; [|done].
  destruct Hi1 as [A1 A2 A3]. split; [|by apply (coherent_same (w_vm w1)); [done|]; unfold same_units, add_chained; cbn; destruct (negb _)|done].
  apply (world_vcpu (mkWorld (w_vcpu w1) (set_cache (w_vm w1) (add_chained (cache (w_vm w1)) (v_chained (w_vcpu w1)))))); [|apply A1|done].
  apply world_vm; [done|]. apply step_cache; [apply A1|]. unfold add_chained. by destruct (negb _).
Qed.
End Turns.

(** ** Theorem *)

Lemma ex_program_tracked l : tracked (ex_program l).
Proof.
  pose proof ex_mem_wf as [H1 H2 H3 H4 H5 H6]. pose proof ex_mem_tags as [[T1 T2 T3] T4 T5].
  split; [exact H5|apply H1|by vm_compute|]. split; [by split|exact T4|exact T5].
Qed.
Lemma ex_world_inv mo l cs_ ip_ : Forall (in_width 8) l -> in_width 16 cs_ -> in_width 64 ip_ -> inv mo (ex_world mo l cs_ ip_).
Proof.
  intros Hl Hc Hi. split; [by apply ex_world_ok| |by destruct mo]. split; [apply ex_program_tracked| |].
  - intros a Ha. change (model_span (model (mem (w_vm (ex_world mo l cs_ ip_))))) with 16384 in Ha.
    change (code_page (mem (w_vm (ex_world mo l cs_ ip_)))) with [0]. unfold in_table, page_of, CODE_PAGE_BITS. rewrite Z.shiftr_div_pow2 by lia.
    change (2 ^ 12) with 4096. cbn [length]. Z.div_mod_to_equations. lia.
  - intros k ir. cbn. by rewrite lookup_empty.
Qed.

(** C5: refinement: with the interpreter's backend, one virtual CPU, in the flat modes and
    over any lowering that keeps [LifterLaws], a [run] that returns is a run of the machine
    without a cache ([astep]): some number of steps that go on, each of them a retry of a
    device access, the delivery of a due interrupt, or a block translated from the bytes
    now under RIP (self-modified, remapped in the tables or long hot, a stale translation
    is never executed), and then an exit of that machine; or, with a budget, exactly as
    many steps as the budget.  The invariant holds again, so runs can follow one another
    (that they return is [guest_program_runs]). *)
Theorem run_refines `{LL : LifterLaws} `{Libm} (mo : CpuMode) (n : nat) (budget : option Z) (w : World InterpreterBackend) (e : Exit)
    (w' : World InterpreterBackend) :
  mo <> Real16 -> inv mo w -> (forall b, budget = Some b -> 0 <= b < 2 ^ 64) -> run n budget w = Some (e, w') ->
  inv mo w' /\ exists j s, asteps mo j (abs w) s /\ ended mo budget 0 j s e (abs w').
Proof. intros Hmo. by apply run_refines_abs. Qed.

Definition ex_end_of (x : option (Exit * World InterpreterBackend)) (w : World InterpreterBackend) : Exit * World InterpreterBackend :=
  default (ESyscall, w) x.
Definition ex_spun : Exit * World InterpreterBackend :=
  let w := ex_world Long64 ex_spin 0 0x100 in ex_end_of (run (H2 := no_libm) 8 (Some 7) w) w.

Lemma run_refines_witness : ex_spun.1 = BudgetExhausted /\ inv Long64 ex_spun.2 /\
  exists j s, @asteps _ _ no_libm Long64 j (abs (ex_world Long64 ex_spin 0 0x100)) s /\
    @ended _ _ no_libm Long64 (Some 7) 0 j s ex_spun.1 (abs ex_spun.2).
Proof.
  split; [vm_compute; reflexivity|].
  apply (run_refines (H0 := no_libm) Long64 8 (Some 7) (ex_world Long64 ex_spin 0 0x100) ex_spun.1 ex_spun.2).
  - done.
  - apply ex_world_inv; [apply ex_spin_bytes|unfold in_width; lia..].
  - intros b [= <-]. lia.
  - vm_compute. reflexivity.
Defined.

