(* ===== verification/Dispatch.v ===== *)
(** * Further theorems on runs

    What an embedder may rely on of [Vcpu::run], and where it may not: an interrupt stays
    queued until it is delivered, unless its delivery faults; real-mode code reached through
    two segments is translated once; an exception of a resumed real-mode instruction is not
    delivered; forming a region ends. *)

From S2P Require Import Prelude Features State Ir Alu Memory PageTrack Interp IntegerSpec Control HostFloat F80 F80Trans X87 X87Arm VecRange VecSafe Block Frame Walk Lift Cache LiftSpec Vm Evolve Toy Raise VmSpec RunSpec Refine.

(** ** Interrupts *)

Section Irq.
Context {B : Type} `{Backend B} `{InsnLifter} `{Libm}.

(** [x] leaves the queue alone. *)
Definition queues {A} (x : D B A) : Prop := forall w a w', x w = Some (a, w') -> pending_irq (w_vcpu w') = pending_irq (w_vcpu w).

Lemma q_ret {A} (a : A) : queues (mret a).
Proof. by intros w b w' [= <- <-]. Qed.
Lemma q_bind {A C} (x : D B A) (k : A -> D B C) : queues x -> (forall a, queues (k a)) -> queues (x ≫= k).
Proof.
  intros Hx Hk w c w'. unfold mbind, D_bind. destruct (x w) as [[a w1]|] eqn:E; [|done]. cbn [mbind option_bind]. intros E2.
  rewrite (Hk a w1 c w' E2). by apply (Hx w a w1).
Qed.
Lemma q_vcpu : queues vcpu_.
Proof. by intros w b w' [= <- <-]. Qed.
Lemma q_vm : queues vm_.
Proof. by intros w b w' [= <- <-]. Qed.
Lemma q_on_vm f : queues (on_vm f).
Proof. by intros w b w' [= <- <-]. Qed.
Lemma q_on_vcpu f : (forall v, pending_irq (f v) = pending_irq v) -> queues (on_vcpu f).
Proof. intros Hf w b w' [= <- <-]. apply Hf. Qed.
Lemma q_opt {A} (o : option A) : queues (opt o).
Proof. intros w b w'. unfold opt. destruct o; [|done]. by intros [= <- <-]. Qed.
Lemma q_interp f : queues (interp f).
Proof. intros w b w'. unfold interp. destruct (f _ _) as [[[[r i] c] m]|]; [|done]. by intros [= <- <-]. Qed.
Lemma q_deliver ca vec ip : queues (deliver ca vec ip).
Proof. intros w b w'. unfold deliver. destruct (deliver_interrupt _ _ _ _) as [[r s]|]; [|done]. by intros [= <- <-]. Qed.
Lemma q_resolve at_ : queues (resolve_at at_).
Proof. intros w b w'. unfold resolve_at. destruct (resolve _ _ _ _) as [[r v]|]; [|done]. by intros [= <- <-]. Qed.
Lemma q_put rip e : queues (put_fast rip e).
Proof. intros w b w'. unfold put_fast, fast_put. generalize (fast_index rip) as i. intros i. destruct (_ !! _); [|done]. by intros [= <- <-]. Qed.
Lemma q_publish s sl v : queues (publish_slot s sl v).
Proof. intros w b w'. unfold publish_slot. destruct (publish_if_current _ _ _ _). by intros [= <- <-]. Qed.
Lemma q_call e ctx q : queues (call e ctx q).
Proof. intros w b w'. unfold call. destruct (call_block _ _ _ _ _ _ _) as [o|]; [|done]. cbn [mbind option_bind]. destruct (_ <? _); [done|]. by intros [= <- <-]. Qed.

Ltac queue :=
  cbn beta zeta;
  lazymatch goal with
  | |- queues (mbind _ _) => apply q_bind; [queue|intros ?; queue]
  | |- queues (if ?c then _ else _) => destruct c; queue
  | |- queues (match ?x with _ => _ end) => destruct x; queue
  | |- queues (on_vcpu _) => apply q_on_vcpu; done
  | |- _ => first [apply q_ret|apply q_vcpu|apply q_vm|apply q_on_vm|apply q_opt|apply q_interp|apply q_deliver|apply q_resolve|apply q_put
                  |apply q_publish|apply q_call]
  end.

Lemma q_after_call code ctx : queues (after_call code ctx).
Proof. unfold after_call, hop_link, hop_ibtc, ibtc_entry, defer_step, single_step. queue. Qed.
Lemma q_chain n budget e k ctx : queues (chain n budget e k ctx).
Proof.
  revert e k ctx. induction n as [|n IH]; intros e k ctx; cbn [chain]; [queue|]. apply q_bind; [queue|intros v]. destruct (has_dirty_code _); [queue|].
  apply q_bind; [queue|intros q]. apply q_bind; [queue|intros [[code c] ch]]. cbn zeta. apply q_bind; [apply q_after_call|intros h]. destruct h; [|queue..].
  destruct (spent _ _); [queue|apply IH].
Qed.
Lemma q_dispatch n budget k ctx : queues (dispatch n budget k ctx).
Proof.
  unfold dispatch, find_block, run_interpreted, redeliver. apply q_bind; [queue|intros r]. destruct r as [[ir|e]|e]; [queue|apply q_chain|queue].
Qed.
Lemma q_resume k : queues (resume_mmio k).
Proof. unfold resume_mmio, single_step. queue. Qed.
Lemma q_sync : queues sync_fast.
Proof. unfold sync_fast. queue. Qed.
End Irq.

(** The turn from [w] to [w'] is the delivery of [vec] and nothing else: the delivery
    routine on the current CPU and memory, the RIP saved and reported on a fault being the
    current one; the vector is off the queue, also when the delivery faulted. *)
Definition delivers {B} `{Backend B} (vec k : Z) (w : World B) (x : Next) (w' : World B) : Prop :=
  exists r s, deliver_interrupt (rip (cpu (w_vcpu w))) vec (rip (cpu (w_vcpu w))) (mkMach (cpu (w_vcpu w)) (mem (handle_smc (w_vm w))) []) = Some (r, s) /\
    x = after k r /\ cpu (w_vcpu w') = m_cpu s /\ mem (w_vm w') = m_mem s /\ pending_irq (w_vcpu w') = None.

(** Interrupts are enabled, no device answer is outstanding, and the STI shadow is over. *)
Definition irq_ready {B} `{Backend B} (w : World B) : Prop :=
  if_ (flags (cpu (w_vcpu w))) = true /\ mmio_waits (cpu (w_vcpu w)) = false /\
  pending_port_in (cpu (w_vcpu w)) = None /\ v_sti_shadow (w_vcpu w) = false.

Lemma deliverable_ready {B} `{Backend B} (w : World B) : mmio_waits (cpu (w_vcpu w)) = false ->
  deliverable (w_vcpu w) = true <-> irq_ready w.
Proof.
  intros Hw. unfold deliverable, irq_ready. rewrite Hw. destruct (if_ _), (pending_port_in _), (v_sti_shadow _); cbn; naive_solver.
Qed.

(** C18: an injected interrupt is delivered exactly when it may be.  A turn of the loop with
    a vector queued and budget left is the delivery of that vector when interrupts are
    enabled, no device answer is outstanding and the STI shadow is over, and leaves the
    vector queued otherwise, whatever it runs and on any backend.  (A delivery whose frame
    cannot be pushed leaves the loop with the memory exit, and its vector is lost.) *)
Theorem irq_delivered_when_ready {B} `{Backend B} `{InsnLifter} `{Libm} (hops : nat) (budget : option Z) (k : Z) (ctx : MemCtx)
    (w : World B) (x : Next) (ctx' : MemCtx) (w' : World B) (vec : Z) :
  turn hops budget k ctx w = Some ((x, ctx'), w') -> pending_irq (w_vcpu w) = Some vec -> spent budget k = false ->
  (irq_ready w -> delivers vec k w x w') /\ (~ irq_ready w -> pending_irq (w_vcpu w') = Some vec).
Proof.
  intros E Hp Hb. unfold turn in E. rewrite Hb in E.
  unfold mbind at 1, D_bind at 1, on_vm at 1 in E. cbn [mbind option_bind] in E. set (w0 := mkWorld (w_vcpu w) (handle_smc (w_vm w))) in *.
  unfold mbind at 1, D_bind at 1 in E. destruct (sync_fast w0) as [[[] w1]|] eqn:E1; [|done]. cbn [mbind option_bind] in E.
  assert (Hs : cpu (w_vcpu w1) = cpu (w_vcpu w) /\ v_sti_shadow (w_vcpu w1) = v_sti_shadow (w_vcpu w) /\ pending_irq (w_vcpu w1) = Some vec /\ w_vm w1 = handle_smc (w_vm w)).
  { unfold sync_fast, vm_, vcpu_, on_vcpu, mbind, D_bind in E1. cbn [mbind option_bind] in E1. destruct (negb _); by injection E1 as <-. }
  destruct Hs as (S1 & S2 & S3 & S4). unfold mbind at 1, D_bind at 1, vcpu_ at 1 in E. cbn [mbind option_bind] in E. rewrite S3 in E.
  assert (Hready : irq_ready w1 <-> irq_ready w) by (unfold irq_ready; by rewrite S1, S2).
  assert (Hq : forall y : D B Next, queues y -> (y ≫= fun x => mret (x, ctx)) w1 = Some ((x, ctx'), w') -> pending_irq (w_vcpu w') = Some vec).
  { intros y Hy Ey. rewrite <- S3. by apply (q_bind y (fun x => mret (x, ctx)) Hy (fun x => q_ret (x, ctx)) w1 _ w' Ey). }
  destruct (mmio_waits (cpu (w_vcpu w1))) eqn:Hwait.
  { split; [intros (_ & Hr & _); rewrite <- S1, Hwait in Hr; discriminate|intros _; by eapply Hq; [apply q_resume|]]. }
  destruct (deliverable (w_vcpu w1)) eqn:Hd.
  - split; [intros _|intros Hr; destruct Hr; by apply Hready, deliverable_ready].
    unfold take_irq, deliver, on_vcpu, vcpu_, mbind, D_bind in E. cbn [mbind option_bind w_vcpu w_vm set_pending_irq cpu] in E. rewrite S1, S4 in E.
    destruct (deliver_interrupt _ _ _ _) as [[r s]|] eqn:Es; [|done]. cbn [mbind option_bind w_vcpu w_vm] in E. exists r, s. split; [done|].
    destruct r as [|ex]; by injection E as <- _ <-.
  - split; [intros Hr; apply Hready, deliverable_ready in Hr; [congruence|done]|intros _].
    rewrite <- S3. by apply (q_dispatch hops budget k ctx w1 _ w' E).
Qed.

(** A real-mode machine with an interrupt queued and interrupts enabled, its stack at [sp]. *)
Definition ex_queued (sp : Z) : World InterpreterBackend :=
  let w := ex_world Real16 ex_spin 0 0x100 in
  let c := set_flags (put_gpr (cpu (w_vcpu w)) RSP sp) (set_if_ (flags (cpu (w_vcpu w))) true) in
  mkWorld (inject_irq (set_cpu (w_vcpu w) c) 8) (w_vm w).
Definition ex_ctx : MemCtx := mkCtx 0 0 0 0 0 0 0 0 0 0.

Lemma irq_delivered_when_ready_witness : exists x ctx' w',
  turn (H2 := no_libm) 1 None 0 ex_ctx (ex_queued 0x800) = Some ((x, ctx'), w') /\ delivers 8 0 (ex_queued 0x800) x w'.
Proof.
  destruct (turn (H2 := no_libm) 1 None 0 ex_ctx (ex_queued 0x800)) as [[[x ctx'] w']|] eqn:E; [|vm_compute in E; discriminate E].
  exists x, ctx', w'. split; [reflexivity|].
  apply (irq_delivered_when_ready (H2 := no_libm) 1 None 0 ex_ctx (ex_queued 0x800) x ctx' w' 8 E); [reflexivity|reflexivity|].
  repeat split.
Defined.

Definition ex_lost : World InterpreterBackend :=
  match turn (H2 := no_libm) 1 None 0 ex_ctx (ex_queued 0x1F00) with Some (_, w) => w | None => ex_queued 0x1F00 end.

(** The queue loses a vector whose delivery faults: with the stack pointer on an unmapped
    page the turn ends with the memory exit the embedder is to repair and retry, RIP and CS
    still on the interrupted instruction, but the vector is gone: the retry runs on
    without the interrupt. *)
Theorem irq_lost_on_fault : exists w',
  turn (H2 := no_libm) 1 None 0 ex_ctx (ex_queued 0x1F00) = Some ((Out (UnmappedMemory 0x1EFE Write), ex_ctx), w') /\
  pending_irq (w_vcpu (ex_queued 0x1F00)) = Some 8 /\ pending_irq (w_vcpu w') = None /\
  rip (cpu (w_vcpu w')) = 0x100 /\ cs (cpu (w_vcpu w')) = 0.
Proof. exists ex_lost. split; [vm_compute; reflexivity|]. split; [vm_compute; reflexivity|]. split; [vm_compute; reflexivity|]. split; vm_compute; reflexivity. Qed.

(** ** Real mode *)

(** A cold lookup without tiering caches what it lifted. *)
Lemma cold_resolve `{InsnLifter} n (v : Vm InterpreterBackend) at_ mo ir v1 :
  tier_up_after v = None -> cmap (cache v) !! mkKey (pa at_) mo = None -> resolve (S n) v at_ mo = Some (Ok (Interpreted ir), v1) ->
  lift_block (mem v) at_ mo = Some (Ok ir) /\ cmap (cache v1) !! mkKey (pa at_) mo = Some (Interpreted ir) /\ tier_up_after v1 = None.
Proof.
  intros Ht Hk E. cbn [resolve] in E. assert (Ed : (if tier_up_background v then drain_tier_up v else v) = v) by (destruct (tier_up_background v); [|done]; by destruct v).
  rewrite Ed in E. clear Ed. unfold get in E. rewrite Hk in E. unfold resolve_miss in E. cbn [region_caps interpreter_backend mem set_cache tier_up_background] in E.
  assert (E' : (r ← lift_block (mem v) at_ mo; match r with
      | Ok ir => let '(b, v') := finish_single (set_cache v (set_hits (cache v) (hits (cache v)) (wrap 64 (misses (cache v) + 1)))) (mkKey (pa at_) mo) (pa at_) ir in Some (Ok b, v')
      | Err e => Some (Err (lift_exit e), set_cache v (set_hits (cache v) (hits (cache v)) (wrap 64 (misses (cache v) + 1)))) end) = Some (Ok (Interpreted ir), v1))
    by (by destruct (tier_up_background v)).
  destruct (lift_block (mem v) at_ mo) as [[ir'|e]|]; [| |done]; cbn [mbind option_bind] in E'; [|done].
  unfold finish_single in E'. cbn [tier_up_after set_cache] in E'. rewrite Ht in E'. unfold vm_materialize in E'. cbn [materialize interpreter_backend] in E'.
  injection E' as <- <-. split; [done|]. split; [|done]. cbn. apply lookup_insert_eq.
Qed.

(** Two ways to name one physical address: the same bytes, another offset. *)
Definition aliases (at1 at2 : FetchAddr) : Prop := pa at1 = pa at2 /\ ip at1 <> ip at2.

(** C40: real-mode code reached through two segments is translated once, without tiering and
    over any lowering that keeps [LifterLaws]: the cache is keyed by the physical address and
    the mode alone, so a lookup at a second [CS:IP] of the same address returns
    the block lifted for the first, whose instruction addresses, branch targets and
    fall-through are offsets in the other segment; a translation made there would have
    started at the second IP. *)
Theorem real16_alias_shares_block `{LL : LifterLaws} (v v1 : Vm InterpreterBackend) (at1 at2 : FetchAddr) (ir ir2 : IrBlock) :
  vm_ok v -> fetch_ok at1 -> fetch_ok at2 -> aliases at1 at2 ->
  tier_up_after v = None -> cmap (cache v) !! mkKey (pa at1) Real16 = None ->
  resolve 1 v at1 Real16 = Some (Ok (Interpreted ir), v1) -> lift_block (mem v) at2 Real16 = Some (Ok ir2) ->
  exists v2, resolve 1 v1 at2 Real16 = Some (Ok (Interpreted ir), v2) /\ guest_start ir = ip at1 /\ guest_start ir2 = ip at2 /\ ir <> ir2.
Proof.
  intros Hv Hf1 Hf2 [Hpa Hip] Ht Hk E El2. destruct (cold_resolve 0 v at1 Real16 ir v1 Ht Hk E) as (El & Hk1 & Ht1).
  pose proof (lift_block_ok (mem v) at1 Real16 (vo_mem _ Hv) Hf1) as H1. rewrite El in H1. destruct H1 as (_ & G1 & _).
  pose proof (lift_block_ok (mem v) at2 Real16 (vo_mem _ Hv) Hf2) as H2. rewrite El2 in H2. destruct H2 as (_ & G2 & _).
  cbn [resolve]. assert (Ed : (if tier_up_background v1 then drain_tier_up v1 else v1) = v1) by (destruct (tier_up_background v1); [|done]; by destruct v1).
  rewrite Ed. rewrite <- Hpa. unfold get. rewrite Hk1. cbn [tier_up_after set_cache]. rewrite Ht1.
  eexists. split; [done|]. split; [done|]. split; [done|]. intros ->. congruence.
Qed.

(** [nop; hlt], through 0010:0000 and through 0000:0100: the second run stops at RIP 2. *)
Definition ex_halt : list Z := [0x90; 0xF4].
Definition ex_first : Vm InterpreterBackend := (ex_end_of (run (H2 := no_libm) 2 None (ex_world Real16 ex_halt 0x10 0)) (ex_world Real16 ex_halt 0x10 0)).2.(w_vm).
Definition ex_rip_after (vm : Vm InterpreterBackend) : option (Exit * Z) :=
  match run (H2 := no_libm) 2 None (mkWorld (at_cs_ip (new_vcpu vm) 0 0x100) vm) with
  | Some (e, w) => Some (e, rip (cpu (w_vcpu w)))
  | None => None
  end.

Lemma real16_alias_shares_block_witness :
  (exists v2, resolve 1 ex_first (fetch_real16 0 0x100) Real16 = Some (Ok (Interpreted (mkBlock 0 [InsnStart 0; InsnStart 1; Hlt] 0 2 2)), v2)) /\
  ex_rip_after ex_first = Some (EHlt, 2) /\ ex_rip_after (ex_vm Real16 ex_halt) = Some (EHlt, 0x102).
Proof.
  split; [|split; vm_compute; reflexivity].
  destruct (real16_alias_shares_block (ex_vm Real16 ex_halt) ex_first (fetch_real16 0x10 0) (fetch_real16 0 0x100)
    (mkBlock 0 [InsnStart 0; InsnStart 1; Hlt] 0 2 2) (mkBlock 0x100 [InsnStart 0x100; InsnStart 0x101; Hlt] 0 2 2)) as (v2 & E & _).
  - apply (ex_world_ok Real16 ex_halt 0 0); [repeat constructor; unfold in_width; lia|unfold in_width; lia..].
  - unfold fetch_ok. cbn. lia.
  - unfold fetch_ok. cbn. lia.
  - split; [reflexivity|discriminate].
  - reflexivity.
  - vm_compute. reflexivity.
  - vm_compute. reflexivity.
  - vm_compute. reflexivity.
  - exists v2. exact E.
Defined.

(** A real-mode exception raised by an instruction the loop resumes after a device access
    (a division by the value just read) is handed to the embedder as it is, while the same
    instruction single-stepped, or met in a block, vectors through the guest's table. *)
Theorem resume_exception_escapes {B} `{Backend B} `{InsnLifter} `{Libm} (w : World B) (k a vec : Z) (info : RetireInfo) (c : CpuState) (m : Memory) :
  v_mode (w_vcpu w) = Real16 -> step_one (cpu (w_vcpu w)) (mem (w_vm w)) Real16 = Some (SExit (EException a vec), info, c, m) ->
  (exists w', resume_mmio k w = Some (Out (EException a vec), w') /\ cpu (w_vcpu w') = c) /\
  forall r w', step_instruction w = Some (r, w') ->
    exists s, deliver_interrupt a vec a (mkMach c m []) = Some (r, s) /\ cpu (w_vcpu w') = m_cpu s /\ mem (w_vm w') = m_mem s.
Proof.
  intros Hm E. unfold resume_mmio, step_instruction, single_step, interp, vcpu_, on_vcpu, mbind, D_bind. cbn [mbind option_bind]. rewrite Hm, E.
  cbn [mbind option_bind w_vcpu w_vm set_sti add_retired set_cpu cpu]. split; [by eexists|]. intros r w'.
  unfold redeliver, vcpu_, mbind, D_bind. cbn [mbind option_bind w_vcpu v_mode set_sti add_retired set_cpu]. rewrite Hm. unfold deliver. cbn [w_vcpu w_vm cpu mem set_mem set_sti add_retired set_cpu].
  destruct (deliver_interrupt a vec a (mkMach c m [])) as [[r1 s]|]; [|done]. cbn [mbind option_bind]. intros [= <- <-]. by exists s.
Qed.

(** [div byte [0x2000]], the device having answered 0. *)
Definition ex_divide : World InterpreterBackend :=
  let w := ex_world Real16 [0xF6; 0x36; 0x00; 0x20] 0 0x100 in
  mkWorld (set_cpu (w_vcpu w) (set_pending_mmio (cpu (w_vcpu w)) (Some 0))) (w_vm w).
Definition ex_divided : StepResult * RetireInfo * CpuState * Memory :=
  default (Continue, no_retire, default_cpu, ex_mem) (step_one (H2 := no_libm) (cpu (w_vcpu ex_divide)) (mem (w_vm ex_divide)) Real16).

Lemma resume_exception_escapes_witness : exists w',
  resume_mmio (H2 := no_libm) 0 ex_divide = Some (Out (EException 0x100 0), w') /\ cpu (w_vcpu w') = ex_divided.1.2.
Proof.
  apply (resume_exception_escapes (H2 := no_libm) ex_divide 0 0x100 0 ex_divided.1.1.2 ex_divided.1.2 ex_divided.2).
  - reflexivity.
  - vm_compute. reflexivity.
Defined.

(** ** Regions *)

(** A region the caps allow, entered at [a]: the entry's block first and no address twice. *)
Definition region_of `{InsnLifter} (m : Memory) (caps : RegionCaps) (mo : CpuMode) (a : Z) (r : IrRegion) : Prop :=
  head (guest_start <$> blocks r) = Some a /\ NoDup (guest_start <$> blocks r) /\ Z.of_nat (length (blocks r)) <= Z.max 1 (max_blocks caps) /\
  Forall (fun b => block_wf b /\ 0 < guest_len b /\ guest_start b + guest_len b <= model_span (model m) /\
            lift_block m (fetch_flat (guest_start b)) mo = Some (Ok b)) (blocks r).

(** C17: forming a region ends, within the caps, over any lowering that keeps [LifterLaws] and
    for an instruction cap that leaves a block room in its [u32] ([caps_ok]): the walk over
    static successors, which may loop, returns at most [max_blocks] blocks (or one, when that
    is zero), the entry's first and no address twice, each of them well formed, inside the
    guest space and exactly what lifting its address gives; or it reports the entry's lift
    error.  It never panics. *)
Theorem region_formation_ends `{LL : LifterLaws} (m : Memory) (caps : RegionCaps) (mo : CpuMode) (a : Z) :
  mem_wf m -> caps_ok caps -> 0 <= a ->
  match lift_region m a caps mo with
  | Some (Ok r) => region_of m caps mo a r
  | Some (Err e) => lift_block m (fetch_flat a) mo = Some (Err e)
  | None => False
  end.
Proof.
  intros Hm Hc Ha. pose proof (lift_region_ok m Hm caps Hc mo a Ha) as Hr. destruct (lift_region m a caps mo) as [[r|e]|] eqn:E; [| |done].
  - destruct Hr as (_ & H1 & H2 & H3 & H4 & H5 & H6). split; [done|]. split; [done|]. split; [done|].
    rewrite !list.Forall_forall in *. intros b Hb. destruct (H2 b Hb). split; [by apply H1|]. split; [done|]. split; [done|by apply H5].
  - unfold lift_region in E. destruct (lift_block m (fetch_flat a) mo) as [[b|e']|]; [| |done]; cbn [mbind option_bind] in E; [|by injection E as <-].
    destruct (dfs _ _ _ _ _ _); [|done]. cbn [mbind option_bind] in E. by destruct (remove_all _ _).
Qed.

(** Two blocks that jump to one another. *)
Definition ex_two : list Z := [0x90; 0xEB; 0x01; 0xF4; 0xEB; 0xFA].

Lemma region_formation_ends_witness :
  match lift_region (ex_program ex_two) 0x100 (mkCaps 16 512) Long64 with
  | Some (Ok r) => guest_start <$> blocks r = [0x100; 0x104] /\ has_loop r = true /\ NoDup (guest_start <$> blocks r)
  | _ => False
  end.
Proof.
  assert (Hp : mem_wf (ex_program ex_two)) by (apply ex_program_wf; repeat constructor; unfold in_width; lia).
  pose proof (region_formation_ends (ex_program ex_two) (mkCaps 16 512) Long64 0x100 Hp ltac:(unfold caps_ok, BLOCK_FETCH_WINDOW; cbn; lia) ltac:(lia)) as H.
  assert (E : (fun r : IrRegion => (guest_start <$> blocks r, has_loop r)) <$> match lift_region (ex_program ex_two) 0x100 (mkCaps 16 512) Long64 with Some (Ok r) => Some r | _ => None end
    = Some ([0x100; 0x104], true)) by (vm_compute; reflexivity).
  destruct (lift_region (ex_program ex_two) 0x100 (mkCaps 16 512) Long64) as [[r|e]|]; [|discriminate E|discriminate E].
  destruct H as (_ & Hn & _). injection E as E1 E2. split; [exact E1|]. split; [exact E2|exact Hn].
Defined.

(** The stand-alone helper does not know the port deferral: a compiled block that ends on an
    [in] or [out] panics there. *)
Lemma run_compiled_port_panics {B} `{Backend B} `{InsnLifter} `{Libm} (b : B) (entry : Z) (c : CpuState) (m : Memory) (mo : CpuMode) (ctx : MemCtx) (o : CallOut) :
  for_memory m = Some ctx -> call_block b entry c ctx new_ret_stack 0 m = Some o -> co_code o = RET_PORTIO_DEFER -> run_compiled b entry c m mo = None.
Proof. intros E1 E2 E3. unfold run_compiled. rewrite E1. cbn [mbind option_bind]. rewrite E2. cbn [mbind option_bind]. by rewrite E3. Qed.
