(* ===== verification/Cover.v ===== *)
(** * The instructions a run fetches

    Which instructions the dispatcher may decode along a run: those of the block at each
    address it looks up, and, for a backend that forms regions, those of the blocks direct
    branches lead to from there.  Two lifters that agree on these instructions run the same. *)

From S2P Require Import Prelude Features State Ir Alu Memory PageTrack Interp IntegerSpec Control HostFloat F80 F80Trans X87 X87Arm VecSafe Block Walk Lift Cache LiftSpec Vm.

(** ** Fetched instructions *)

Section Fetch.
Context `{InsnLifter} (ok : Instruction -> bool).

(** Every instruction the decode loop of [lift_block] lowers is [ok]. *)
Fixpoint loop_covered (fuel : nat) (mode : CpuMode) (code : list Z) (start pos : Z) (ops : list IrOp) (tg : nat) : bool :=
  match fuel with
  | O => true
  | S fuel =>
      if Z.of_nat (length code) <=? pos then true
      else
        let '(insn, _) := decode (mode_bits mode) (decoder_options mode) (wrapping_add 64 start pos) (drop (Z.to_nat pos) code) in
        if is_invalid insn then true
        else if wraps_16 mode && (MAX_INSN_LEN_286 <? insn_len insn) then true
        else
          ok insn &&
          match lift_insn insn mode (ops ++ [InsnStart (insn_ip insn)]) tg with
          | Some (Ok (false, ops, tg)) => loop_covered fuel mode code start (pos + insn_len insn) ops tg
          | _ => true
          end
  end.

Definition block_covered (mem : Memory) (at_ : FetchAddr) (mode : CpuMode) : bool :=
  match code_slice mem (pa at_) BLOCK_FETCH_WINDOW with
  | Some (Ok code) => loop_covered (S (length code)) mode code (ip at_) 0 [] O
  | _ => true
  end.

(** The first instruction alone. *)
Definition one_covered (mem : Memory) (at_ : FetchAddr) (mode : CpuMode) : bool :=
  match code_slice mem (pa at_) BLOCK_FETCH_WINDOW with
  | Some (Ok code) => ok (decode (mode_bits mode) (decoder_options mode) (ip at_) code).1
  | _ => true
  end.

(** The block at [a] and those at most [depth] direct branches away. *)
Fixpoint flow_covered (depth : nat) (mem : Memory) (mode : CpuMode) (a : Z) : bool :=
  block_covered mem (fetch_flat a) mode &&
  match depth with
  | O => true
  | S depth =>
      match lift_block mem (fetch_flat a) mode with
      | Some (Ok b) => forallb (flow_covered depth mem mode) (static_succs b)
      | _ => true
      end
  end.
End Fetch.

(** ** Along a run *)

Section Covered.
Context {B : Type} `{Backend B} `{InsnLifter} `{Libm} (ok : Instruction -> bool).

(** What a lookup at [at_] may lift. *)
Definition lookup_covered (v : Vm B) (at_ : FetchAddr) (mo : CpuMode) : bool :=
  let v := if tier_up_background v then drain_tier_up v else v in
  block_covered ok (mem v) at_ mo &&
  match region_caps (backend v) with
  | Some caps => flow_covered ok (S (Z.to_nat (max_blocks caps))) (mem v) mo (pa at_)
  | None => true
  end.

Definition here (v : Vcpu) : FetchAddr := for_mode (v_mode v) (rip (cpu v)) (cs (cpu v)).

(** What [step_one] lifts. *)
Definition step_covered (w : World B) : bool := one_covered ok (mem (w_vm w)) (here (w_vcpu w)) (v_mode (w_vcpu w)).

(** What the dispatcher lifts after compiled code returned [code]. *)
Definition hop_covered (code : Z) (w : World B) : bool :=
  if (code =? RET_LINK) || (code =? RET_IBTC_MISS) then lookup_covered (w_vm w) (fetch_flat (rip (cpu (w_vcpu w)))) (v_mode (w_vcpu w))
  else if (code =? RET_MMIO_DEFER) || (code =? RET_PORTIO_DEFER) then step_covered w
  else true.

Fixpoint chain_covered (n : nat) (budget : option Z) (entry blocks_run : Z) (ctx : MemCtx) (w : World B) : bool :=
  match n with
  | O => true
  | S n =>
      if has_dirty_code (mem (w_vm w)) then true
      else
        match match budget with None => Some U64_MAX | Some b => if b <? blocks_run then None else Some (b - blocks_run) end with
        | None => true
        | Some quantum =>
            match call entry ctx quantum w with
            | Some ((code, ctx, charged), w) =>
                let blocks_run := wrapping_add 64 blocks_run charged in
                hop_covered code w &&
                match after_call code ctx w with
                | Some (Go e, w) => if spent budget blocks_run then true else chain_covered n budget e blocks_run ctx w
                | _ => true
                end
            | None => true
            end
        end
  end.

Definition dispatch_covered (n : nat) (budget : option Z) (blocks_run : Z) (ctx : MemCtx) (w : World B) : bool :=
  lookup_covered (w_vm w) (here (w_vcpu w)) (v_mode (w_vcpu w)) &&
  match find_block w with
  | Some (Ok (Compiled e), w) => chain_covered n budget e blocks_run ctx w
  | _ => true
  end.

Definition turn_covered (n : nat) (budget : option Z) (blocks_run : Z) (ctx : MemCtx) (w : World B) : bool :=
  if spent budget blocks_run then true
  else
    match (on_vm handle_smc;; sync_fast) w with
    | Some (_, w) =>
        let v := w_vcpu w in
        if mmio_waits (cpu v) then step_covered w
        else
          match pending_irq v with
          | Some vector => if deliverable v then true else dispatch_covered n budget blocks_run ctx w
          | None => dispatch_covered n budget blocks_run ctx w
          end
    | None => true
    end.

Fixpoint loop_run_covered (n : nat) (hops : nat) (budget : option Z) (blocks_run : Z) (ctx : MemCtx) (w : World B) : bool :=
  match n with
  | O => true
  | S n =>
      turn_covered hops budget blocks_run ctx w &&
      match turn hops budget blocks_run ctx w with
      | Some ((Again k, ctx), w) => loop_run_covered n hops budget k ctx w
      | _ => true
      end
  end.

(** Every instruction [run n budget] may lower from [w] is [ok]. *)
Definition run_covered (n : nat) (budget : option Z) (w : World B) : bool :=
  match for_memory (mem (w_vm w)) with
  | Some ctx => loop_run_covered n n budget 0 ctx w
  | None => true
  end.
End Covered.

(** ** Two lifters *)

Section Agree.
Context {IC : Iced} (R S : @InsnLifter IC) (ok : Instruction -> bool).
Context (Hsame : forall insn mode ops tg, ok insn = true -> @lift_insn IC S insn mode ops tg = @lift_insn IC R insn mode ops tg).

Lemma loop_agree fuel mode code start pos st : @loop_covered IC R ok fuel mode code start pos (l_ops st) (l_tg st) = true ->
  @lift_loop IC S fuel mode code start pos st = @lift_loop IC R fuel mode code start pos st.
Proof.
  revert pos st. induction fuel as [|fuel IH]; intros pos st; cbn [loop_covered lift_loop]; [done|].
  destruct (_ <=? pos); [done|]. destruct (decode _ _ _ _) as [insn err]. destruct (is_invalid insn); [done|]. destruct (wraps_16 mode && _); [done|].
  intros [Hok Hl]%andb_prop. rewrite Hsame by done. destruct (@lift_insn IC R insn _ _ _) as [[[[t ops] tg]|e]|]; [|done..]. cbn zeta.
  destruct t; [done|]. by apply IH.
Qed.

Lemma block_agree mem at_ mode : @block_covered IC R ok mem at_ mode = true -> @lift_block IC S mem at_ mode = @lift_block IC R mem at_ mode.
Proof.
  unfold block_covered, lift_block. destruct (code_slice _ _ _) as [[code|]|]; [|done..]. intros Hc. cbn [mbind option_bind].
  by rewrite (loop_agree _ _ _ _ _ (mkLift [] 0 0 0)).
Qed.

Lemma one_agree mem at_ mode : @one_covered IC ok mem at_ mode = true -> @lift_one IC S mem at_ mode = @lift_one IC R mem at_ mode.
Proof.
  unfold one_covered, lift_one. destruct (code_slice _ _ _) as [[code|]|]; [|done..]. cbn [mbind option_bind]. destruct (_ <=? 0); [done|].
  destruct (decode _ _ _ _) as [insn err]. cbn [fst]. intros Hok. by rewrite Hsame.
Qed.

(** *** Regions *)

Section Region.
Context (mem : Memory) (caps : RegionCaps) (mode : CpuMode).

Definition known (d : Dfs) : Prop := map_Forall (fun a b => @lift_block IC R mem (fetch_flat a) mode = Some (Ok b)) (d_blocks d).

Lemma edges_agree (vS vR : Z -> Dfs -> option Dfs) (P : Z -> bool) succs d :
  (forall s d, P s = true -> known d -> vS s d = vR s d) -> (forall s d d', known d -> vR s d = Some d' -> known d') ->
  (forall s, P s = true -> @block_covered IC R ok mem (fetch_flat s) mode = true) -> forallb P succs = true -> known d ->
  @dfs_edges IC S mem caps mode vS succs d = @dfs_edges IC R mem caps mode vR succs d /\
  (forall d', @dfs_edges IC R mem caps mode vR succs d = Some d' -> known d').
Proof.
  intros Hv Hk Hc. revert d. induction succs as [|s succs IH]; intros d; cbn [dfs_edges forallb]; [intros _ Hd; split; [done|by intros d' [= <-]]|].
  intros [Hs Hsuccs]%andb_prop Hd. destruct (d_blocks d !! s); [by apply IH|]. destruct (_ || _); [by apply IH|].
  rewrite (block_agree mem (fetch_flat s) mode) by auto. destruct (@lift_block IC R _ _ _) as [[b|e]|] eqn:Eb; cbn [mbind option_bind]; [|by apply IH|done].
  destruct (checked_add _ _ _) as [ic|]; cbn [mbind option_bind]; [|done].
  assert (Hd1 : known (mkDfs (<[s := b]> (d_blocks d)) (d_post d) ic)) by (by apply map_Forall_insert_2).
  rewrite Hv by done. destruct (vR s _) as [d1|] eqn:E1; cbn [mbind option_bind]; [|done]. apply IH; [done|by eapply Hk].
Qed.

Lemma known_edges (v : Z -> Dfs -> option Dfs) succs d d' : (forall s d d', known d -> v s d = Some d' -> known d') -> known d ->
  @dfs_edges IC R mem caps mode v succs d = Some d' -> known d'.
Proof.
  intros Hk. revert d. induction succs as [|s succs IH]; intros d Hd; cbn [dfs_edges]; [by intros [= <-]|].
  destruct (d_blocks d !! s); [by apply IH|]. destruct (_ || _); [by apply IH|].
  destruct (@lift_block IC R _ _ _) as [[b|e]|] eqn:Eb; cbn [mbind option_bind]; [|by apply IH|done].
  destruct (checked_add _ _ _) as [ic|]; cbn [mbind option_bind]; [|done]. destruct (v s _) as [d1|] eqn:E1; cbn [mbind option_bind]; [|done].
  apply IH. eapply Hk; [|exact E1]. by apply map_Forall_insert_2.
Qed.
Lemma known_dfs fuel a d d' : known d -> @dfs IC R fuel mem caps mode a d = Some d' -> known d'.
Proof.
  revert a d d'. induction fuel as [|fuel IH]; intros a d d' Hd; cbn [dfs]; [done|]. destruct (d_blocks d !! a); cbn [mbind option_bind]; [|done].
  destruct (@dfs_edges IC R _ _ _ _ _ _) as [d1|] eqn:E; cbn [mbind option_bind]; [|done]. intros [= <-]. exact (known_edges _ _ _ _ IH Hd E).
Qed.

Lemma dfs_agree fuel a d : @flow_covered IC R ok fuel mem mode a = true -> known d ->
  @dfs IC S fuel mem caps mode a d = @dfs IC R fuel mem caps mode a d.
Proof.
  revert a d. induction fuel as [|fuel IH]; intros a d; cbn [dfs flow_covered]; [done|]. intros [_ Hf]%andb_prop Hd.
  destruct (d_blocks d !! a) as [b|] eqn:Ea; cbn [mbind option_bind]; [|done]. rewrite (Hd a b Ea) in Hf.
  destruct (edges_agree (@dfs IC S fuel mem caps mode) (@dfs IC R fuel mem caps mode) (@flow_covered IC R ok fuel mem mode) (static_succs b) d) as [E _]; [exact IH| | |exact Hf|exact Hd|].
  - intros s d1 d2. apply known_dfs.
  - intros s. destruct fuel; cbn [flow_covered]; by intros [? _]%andb_prop.
  - by rewrite E.
Qed.

Lemma region_agree a : @flow_covered IC R ok (Datatypes.S (Z.to_nat (max_blocks caps))) mem mode a = true ->
  @lift_region IC S mem a caps mode = @lift_region IC R mem a caps mode.
Proof.
  intros Hf. unfold lift_region. assert (Hb : @block_covered IC R ok mem (fetch_flat a) mode = true) by (by apply andb_prop in Hf as [? _]).
  rewrite (block_agree _ _ _ Hb). destruct (@lift_block IC R _ _ _) as [[b|e]|] eqn:Eb; cbn [mbind option_bind]; [|done..].
  by rewrite dfs_agree by (done || by apply map_Forall_singleton).
Qed.
End Region.
End Agree.

(** *** The dispatcher *)

Section AgreeRun.
Context {B : Type} {BE : Backend B} {IC : Iced} (R S : @InsnLifter IC) {LM : Libm} (ok : Instruction -> bool).
Context (Hsame : forall insn mode ops tg, ok insn = true -> @lift_insn IC S insn mode ops tg = @lift_insn IC R insn mode ops tg).
Local Notation at_lookup := (@lookup_covered B BE IC R ok).

Lemma miss_agree v key at_ mo : @block_covered IC R ok (mem v) at_ mo = true ->
  (forall caps, region_caps (backend v) = Some caps -> @flow_covered IC R ok (Datatypes.S (Z.to_nat (max_blocks caps))) (mem v) mo (pa at_) = true) ->
  @resolve_miss B BE IC S v key at_ mo = @resolve_miss B BE IC R v key at_ mo.
Proof.
  intros Hb Hf. unfold resolve_miss. rewrite (block_agree R S ok Hsame _ _ _ Hb). destruct (tier_up_background v); [done|].
  destruct (region_caps (backend v)) as [caps|]; [|done]. by rewrite (region_agree R S ok Hsame) by auto.
Qed.

Lemma submit_agree v key pc mo ir count thr ep :
  (forall caps, region_caps (backend v) = Some caps -> @flow_covered IC R ok (Datatypes.S (Z.to_nat (max_blocks caps))) (mem v) mo pc = true) ->
  @submit_tier_up B BE IC S v key pc mo ir count thr ep = @submit_tier_up B BE IC R v key pc mo ir count thr ep.
Proof.
  intros Hf. unfold submit_tier_up, region_candidate. destruct (region_caps (backend v)) as [caps|] eqn:Ec; [|cbn [mbind option_bind andb]; reflexivity].
  assert (Hr : @lift_region IC S (mem v) pc caps mo = @lift_region IC R (mem v) pc caps mo) by (apply (region_agree R S ok Hsame); by apply Hf).
  destruct (region_decision (cache v) key) as [c|]; cbn [mbind option_bind].
  - destruct (c && _); [done|]. destruct (try_begin_tier_up _ _) as [[] c']; cbn [negb]; [|done]. destruct c; [|done].
    cbn [set_cache backend mem]. rewrite Ec. cbn [mbind option_bind]. by rewrite Hr.
  - rewrite Hr. destruct (@lift_region IC R _ _ _ _) as [r|] eqn:Er; cbn [mbind option_bind]; [|done]. destruct (_ && _); [done|].
    destruct (try_begin_tier_up _ _) as [[] c']; cbn [negb]; [|done]. destruct (is_loop r) eqn:El; cbn [set_cache backend mem]; [|done].
    rewrite Ec. cbn [mbind option_bind]. by rewrite Hr, Er.
Qed.

(** Nothing between the snapshot of the epoch and the upgrade moves it. *)
Lemma submit_epoch L v key pc mo ir count thr ep t v' : @submit_tier_up B BE IC L v key pc mo ir count thr ep = Some (t, v') -> epoch (cache v') = epoch (cache v).
Proof.
  unfold submit_tier_up. destruct (region_candidate v key pc mo) as [[cand v1]|] eqn:E1; [|done]. cbn [mbind option_bind].
  assert (Ev : epoch (cache v1) = epoch (cache v)).
  { unfold region_candidate in E1. destruct (region_caps _); [|by injection E1 as <- <-]. destruct (region_decision _ _); [by injection E1 as <- <-|].
    destruct (lift_region _ _ _ _); [|done]. by injection E1 as <- <-. }
  destruct (_ && _); [by intros [= <- <-]|]. destruct (try_begin_tier_up _ _) as [began c] eqn:Et.
  assert (Ec : epoch c = epoch (cache v1)) by (by injection Et as _ <-).
  destruct began; cbn [negb]; [|intros [= <- <-]; cbn; congruence]. destruct (if cand then _ else _) as [[u sp]|]; [|done]. cbn [mbind option_bind].
  destruct (tier_up_async _ _) as [[] be]; intros [= <- <-]; cbn; congruence.
Qed.

Lemma resolve_agree n v at_ mo : at_lookup v at_ mo = true ->
  @resolve B BE IC S (Datatypes.S n) v at_ mo = @resolve B BE IC R (Datatypes.S n) v at_ mo.
Proof.
  unfold lookup_covered. cbn [resolve]. set (v0 := if tier_up_background v then drain_tier_up v else v). intros [Hb Hf]%andb_prop.
  assert (Hf' : forall caps, region_caps (backend v0) = Some caps -> @flow_covered IC R ok (Datatypes.S (Z.to_nat (max_blocks caps))) (mem v0) mo (pa at_) = true)
    by (intros caps E; by rewrite E in Hf). clear Hf.
  destruct (get (cache v0) _) as [found c1] eqn:Eg. destruct found as [u|]; [|by apply miss_agree].
  assert (E1 : epoch c1 = epoch (cache v0)) by (injection Eg as _ <-; by case_match).
  destruct (tier_up_after _) as [thr|]; [|done]. destruct u as [ir|e]; [|done]. destruct (bump_hotness _ _) as [count c2] eqn:Eb.
  assert (E2 : epoch c2 = epoch (cache v0)) by (rewrite <- E1; by injection Eb as _ <-). destruct (count <? thr); [done|].
  set (v2 := set_cache (set_cache v0 c1) c2).
  rewrite (submit_agree v2) by exact Hf'. set (o := if tier_up_background v2 then _ else _).
  assert (Ho : forall t v3, o = Some (t, v3) -> epoch (cache v3) = epoch (cache v0)).
  { intros t v3. unfold o. destruct (tier_up_background v2); [|by intros [= <- <-]]. intros E%submit_epoch. by rewrite E. }
  destruct o as [[t v3]|]; [|done]. specialize (Ho t v3 eq_refl). cbn [mbind option_bind]. destruct t; [done|].
  unfold vm_materialize. destruct (materialize _ _ _ _ _) as [cb be]. unfold upgrade, upgrade_region. cbn [cache set_backend]. by rewrite Ho, Z.eqb_refl.
Qed.

(** *** Steps of the world *)

Lemma deq_bind {A C} (x y : D B A) (k k' : A -> D B C) w : x w = y w -> (forall a w', y w = Some (a, w') -> k a w' = k' a w') -> (x ≫= k) w = (y ≫= k') w.
Proof. intros E Hk. unfold mbind, D_bind. rewrite E. destruct (y w) as [[a w']|]; [|done]. cbn [mbind option_bind]. by apply Hk. Qed.

Lemma opt_run {A} (o : option A) (w : World B) a w' : opt o w = Some (a, w') -> o = Some a /\ w' = w.
Proof. unfold opt. destruct o; [|done]. by intros [= -> ->]. Qed.

Lemma resolve_at_agree at_ w : at_lookup (w_vm w) at_ (v_mode (w_vcpu w)) = true -> @resolve_at B BE IC S at_ w = @resolve_at B BE IC R at_ w.
Proof. intros Hc. unfold resolve_at. by rewrite (resolve_agree 1). Qed.

Lemma single_step_agree w : @step_covered B IC ok w = true -> @single_step B IC S LM w = @single_step B IC R LM w.
Proof.
  intros Hc. unfold single_step, mbind, D_bind, vcpu_. cbn [mbind option_bind]. unfold interp, step_one.
  by rewrite (one_agree R S ok Hsame).
Qed.

Lemma defer_agree w : @step_covered B IC ok w = true -> @defer_step B IC S LM w = @defer_step B IC R LM w.
Proof. intros Hc. unfold defer_step. apply deq_bind; [by apply single_step_agree|done]. Qed.
Lemma resume_agree k w : @step_covered B IC ok w = true -> @resume_mmio B IC S LM k w = @resume_mmio B IC R LM k w.
Proof. intros Hc. unfold resume_mmio. apply deq_bind; [by apply single_step_agree|done]. Qed.

Lemma find_agree w : at_lookup (w_vm w) (here (w_vcpu w)) (v_mode (w_vcpu w)) = true -> @find_block B BE IC S w = @find_block B BE IC R w.
Proof.
  intros Hc. unfold find_block. apply deq_bind; [done|]. intros v w' [= <- <-]. apply deq_bind; [done|]. intros hit w1 [_ ->]%opt_run.
  destruct hit; [done|]. apply deq_bind; [by apply resolve_at_agree|done].
Qed.

Lemma link_agree ctx w : at_lookup (w_vm w) (fetch_flat (rip (cpu (w_vcpu w)))) (v_mode (w_vcpu w)) = true ->
  @hop_link B BE IC S ctx w = @hop_link B BE IC R ctx w.
Proof.
  intros Hc. unfold hop_link. apply deq_bind; [done|]. intros v w' [= <- <-]. apply deq_bind; [done|]. intros c w' [= <- <-]. cbn zeta.
  apply deq_bind; [by apply resolve_at_agree|done].
Qed.
Lemma ibtc_agree ctx w : at_lookup (w_vm w) (fetch_flat (rip (cpu (w_vcpu w)))) (v_mode (w_vcpu w)) = true ->
  @hop_ibtc B BE IC S ctx w = @hop_ibtc B BE IC R ctx w.
Proof.
  intros Hc. unfold hop_ibtc. apply deq_bind; [done|]. intros v w' [= <- <-]. cbn zeta. apply deq_bind; [|done].
  unfold ibtc_entry. apply deq_bind; [done|]. intros c w' [= <- <-]. apply deq_bind; [done|]. intros hit w1 [_ ->]%opt_run.
  destruct hit; [done|]. apply deq_bind; [by apply resolve_at_agree|done].
Qed.

Lemma after_call_agree code ctx w : @hop_covered B BE IC R ok code w = true -> @after_call B BE IC S LM code ctx w = @after_call B BE IC R LM code ctx w.
Proof.
  unfold hop_covered, after_call. intros Hc. destruct (code =? RET_CONTINUE); [done|]. destruct (code =? RET_CHAIN); [done|].
  destruct (code =? RET_LINK); [by apply link_agree|]. destruct (code =? RET_IBTC_MISS); [by apply ibtc_agree|]. cbn [orb] in Hc.
  destruct (code =? RET_SYSCALL); [done|]. destruct (code =? RET_HLT); [done|]. destruct (code =? RET_UNMAPPED); [done|].
  destruct (code =? RET_MMIO_DEFER); [by apply defer_agree|]. destruct (code =? RET_PORTIO_DEFER); [by apply defer_agree|done].
Qed.

Lemma chain_agree n budget e k ctx w : @chain_covered B BE IC R LM ok n budget e k ctx w = true ->
  @chain B BE IC S LM n budget e k ctx w = @chain B BE IC R LM n budget e k ctx w.
Proof.
  revert e k ctx w. induction n as [|n IH]; intros e k ctx w; cbn [chain_covered chain]; [done|]. intros Hc.
  apply deq_bind; [done|]. intros v w' [= <- <-]. destruct (has_dirty_code _); [done|]. apply deq_bind; [done|]. intros q w1 [Eq ->]%opt_run.
  rewrite Eq in Hc. apply deq_bind; [done|]. intros [[code ctx1] charged] w1 E1. rewrite E1 in Hc. cbn zeta in *. apply andb_prop in Hc as [Hh Hc].
  apply deq_bind; [by apply after_call_agree|]. intros h w2 E2. rewrite E2 in Hc. destruct h as [e'| |]; [|done..].
  destruct (spent _ _); [done|]. by apply IH.
Qed.

Lemma dispatch_agree n budget k ctx w : @dispatch_covered B BE IC R LM ok n budget k ctx w = true ->
  @dispatch B BE IC S LM n budget k ctx w = @dispatch B BE IC R LM n budget k ctx w.
Proof.
  unfold dispatch_covered, dispatch. intros [Hl Hc]%andb_prop. apply deq_bind; [by apply find_agree|]. intros r w1 E1. rewrite E1 in Hc.
  destruct r as [[ir|e]|e]; [done|by apply chain_agree|done].
Qed.

Lemma turn_agree n budget k ctx w : @turn_covered B BE IC R LM ok n budget k ctx w = true ->
  @turn B BE IC S LM n budget k ctx w = @turn B BE IC R LM n budget k ctx w.
Proof.
  unfold turn_covered, turn. destruct (spent _ _); [done|]. intros Hc. apply deq_bind; [done|]. intros [] w1 E1. apply deq_bind; [done|]. intros [] w2 E2.
  assert (Ew : ((on_vm handle_smc;; sync_fast) : D B unit) w = Some (tt, w2)).
  { unfold mbind, D_bind. rewrite E1. cbn [mbind option_bind]. exact E2. }
  rewrite Ew in Hc. apply deq_bind; [done|]. intros v w' [= <- <-]. cbn zeta in Hc. destruct (mmio_waits _); [apply deq_bind; [by apply resume_agree|done]|].
  destruct (pending_irq _); [|by apply dispatch_agree]. destruct (deliverable _); [done|by apply dispatch_agree].
Qed.

Lemma run_loop_agree n hops budget k ctx w : @loop_run_covered B BE IC R LM ok n hops budget k ctx w = true ->
  @run_loop B BE IC S LM n hops budget k ctx w = @run_loop B BE IC R LM n hops budget k ctx w.
Proof.
  revert k ctx w. induction n as [|n IH]; intros k ctx w; cbn [loop_run_covered run_loop]; [done|]. intros [Ht Hc]%andb_prop.
  apply deq_bind; [by apply turn_agree|]. intros [x ctx1] w1 E1. rewrite E1 in Hc. destruct x; [by apply IH|done].
Qed.

(** Lifters that agree on what a run fetches run the same. *)
Lemma run_agree n budget w : @run_covered B BE IC R LM ok n budget w = true -> @run B BE IC S LM n budget w = @run B BE IC R LM n budget w.
Proof.
  unfold run_covered, run. intros Hc. apply deq_bind; [|done]. unfold run_inner. apply deq_bind; [done|]. intros v w' [= <- <-].
  apply deq_bind; [done|]. intros ctx w1 E1. apply opt_run in E1 as [E1 ->].
  rewrite E1 in Hc. by apply run_loop_agree.
Qed.
End AgreeRun.
