(* ===== verification/Insn.v ===== *)
(** * Decoded instructions and the lowering monad (x86jit-core/src/lift/mod.rs)

    What the lowering of one instruction reads of a decoded instruction, and the layer
    under the per-mnemonic lowerings: every operand becomes a value, every memory operand
    an address, before an op is emitted.

    The instruction is iced-x86's: the class [InsnView] holds its accessors.  Its
    enumerations have the names the sources use, and one constructor for the rest.  A
    [Register] is its discriminant. *)

From S2P Require Import Prelude State Ir Block Lift.

(** ** iced-x86's enumerations *)

Module Mnemonic.
#[local] Unset Elimination Schemes.
Inductive t : Type :=
  | Nop | Endbr64 | Endbr32 | Pause | Wait | Rdsspd | Rdsspq | Prefetchnta | Prefetcht0 | Prefetcht1 | Prefetcht2
  | Prefetchw | Prefetchwt1 | Mov | Movnti | Lea | Add | Adc | Sub | Sbb | And | Or | Xor | Cmp | Test | Shl | Sal
  | Shr | Sar | Rol | Ror | Rcl | Rcr | Shld | Shrd | Inc | Dec | Neg | Not | Mul | Imul | Div | Idiv | Bswap | Movbe
  | Andn | Blsi | Blsr | Blsmsk | Bextr | Bzhi | Shlx | Shrx | Sarx | Rorx | Pdep | Pext | Mulx | Xchg | Xadd
  | Cmpxchg | Cpuid | Xgetbv | Rdtsc | Fld | Fst | Fstp | Fild | Fistp | Fisttp | Fadd | Faddp | Fsub | Fsubp | Fsubr
  | Fsubrp | Fmul | Fmulp | Fdiv | Fdivp | Fdivr | Fdivrp | Fld1 | Fldz | Fabs | Fchs | Fxch | Fucomi | Fucomip
  | Fcomi | Fcomip | Fldcw | Fnstcw | Fnstsw | Fprem | Fsin | Fcos | Fptan | Fpatan | F2xm1 | Fyl2x | Fyl2xp1
  | Fsincos | Fninit | Finit | Fnclex | Fclex | Fnstenv | Fstenv | Fldenv | Fiadd | Fimul | Fisub | Fisubr | Fidiv
  | Fidivr | Ficom | Ficomp | Bsf | Bsr | Tzcnt | Lzcnt | Popcnt | Crc32 | Stmxcsr | Vstmxcsr | Ldmxcsr | Vldmxcsr
  | Fxsave | Fxsave64 | Fxrstor | Fxrstor64 | Mfence | Lfence | Sfence | Bt | Bts | Btr | Btc | Std | Cld | Movsb
  | Movsw | Movsq | Stosb | Stosw | Stosd | Stosq | Lodsb | Lodsw | Lodsd | Lodsq | Scasb | Scasw | Scasd | Scasq
  | Cmpsb | Cmpsw | Cmpsq | Movsd | Cmpsd | Movdqa | Movdqu | Lddqu | Movaps | Movups | Movapd | Movupd | Movntdq
  | Movntps | Movntpd | Movntdqa | Movq | Movd | Movlhps | Movhlps | Vmovlhps | Vmovhlps | Movhps | Movhpd | Movlps
  | Movlpd | Vmovhps | Vmovhpd | Vmovlps | Vmovlpd | Pxor | Xorps | Xorpd | Pand | Andps | Andpd | Por | Orps | Orpd
  | Pandn | Andnps | Andnpd | Paddb | Paddw | Paddd | Paddq | Psubb | Psubw | Psubd | Psubq | Pcmpeqb | Pcmpeqw
  | Pcmpeqd | Pcmpgtb | Pcmpgtw | Pcmpgtd | Pcmpgtq | Pcmpeqq | Pminub | Pmaxub | Pminsw | Pmaxsw | Paddsb | Paddsw
  | Paddusb | Paddusw | Psubsb | Psubsw | Psubusb | Psubusw | Pavgb | Pavgw | Psllw | Pslld | Psllq | Psrlw | Psrld
  | Psrlq | Psraw | Psrad | Psrldq | Pslldq | Vpsrldq | Vpslldq | Pshufd | Vpshufd | Movsldup | Movshdup | Movddup
  | Vmovsldup | Vmovshdup | Vmovddup | Pshuflw | Pshufhw | Vpshuflw | Vpshufhw | Shufps | Shufpd | Vshufps | Vshufpd
  | Vpermilps | Vpermilpd | Pshufb | Palignr | Aesenc | Aesdec | Aesenclast | Aesdeclast | Vaesenc | Vaesdec
  | Vaesenclast | Vaesdeclast | Aesimc | Vaesimc | Aeskeygenassist | Vaeskeygenassist | Pclmulqdq | Vpclmulqdq
  | Movq2dq | Movdq2q | Emms | Femms | Sha256rnds2 | Sha256msg1 | Sha256msg2 | Sha1rnds4 | Sha1nexte | Sha1msg1
  | Sha1msg2 | Gf2p8mulb | Gf2p8affineqb | Gf2p8affineinvqb | Vgf2p8mulb | Vgf2p8affineqb | Vgf2p8affineinvqb
  | Psignb | Psignw | Psignd | Vpsignb | Vpsignw | Vpsignd | Punpcklbw | Punpcklwd | Punpckldq | Punpcklqdq
  | Punpckhbw | Punpckhwd | Punpckhdq | Punpckhqdq | Unpcklps | Unpckhps | Unpcklpd | Unpckhpd | Vpunpcklbw
  | Vpunpcklwd | Vpunpckldq | Vpunpcklqdq | Vpunpckhbw | Vpunpckhwd | Vpunpckhdq | Vpunpckhqdq | Vunpcklps
  | Vunpckhps | Vunpcklpd | Vunpckhpd | Packuswb | Packsswb | Packssdw | Pmaddwd | Vpacksswb | Vpackuswb | Vpackssdw
  | Vpackusdw | Pinsrw | Pextrw | Vpextrw | Pextrb | Vpextrb | Pextrd | Vpextrd | Vextractps | Pextrq | Vpextrq
  | Pinsrb | Vpinsrb | Vpinsrw | Pinsrd | Vpinsrd | Pinsrq | Vpinsrq | Pmovmskb | Movmskps | Vmovmskps | Movmskpd
  | Vmovmskpd | Vmovdqa | Vmovdqu | Vmovaps | Vmovups | Vmovapd | Vmovupd | Vmovntdq | Vmovntps | Vmovntpd
  | Vmovntdqa | Vmovdqu8 | Vmovdqu16 | Vmovdqu32 | Vmovdqa32 | Vmovdqu64 | Vmovdqa64 | Vmovq | Vmovd | Vpxor | Vxorps
  | Vxorpd | Vpand | Vandps | Vandpd | Vpor | Vorps | Vorpd | Vpandn | Vandnps | Vandnpd | Vpxord | Vpxorq | Vpandd
  | Vpandq | Vpord | Vporq | Vpandnd | Vpandnq | Vpternlogd | Vpternlogq | Vpopcntd | Vpopcntq | Kunpckbw | Kunpckwd
  | Kunpckdq | Korb | Korw | Kord | Korq | Kandb | Kandw | Kandd | Kandq | Kandnb | Kandnw | Kandnd | Kandnq | Kxorb
  | Kxorw | Kxord | Kxorq | Kxnorb | Kxnorw | Kxnord | Kxnorq | Knotb | Knotw | Knotd | Knotq | Kshiftlb | Kshiftlw
  | Kshiftld | Kshiftlq | Kshiftrb | Kshiftrw | Kshiftrd | Kshiftrq | Vpermt2b | Vpermt2w | Vpermt2d | Vpermt2q
  | Vpermi2b | Vpermi2w | Vpermi2d | Vpermi2q | Pmovzxbw | Pmovzxbd | Pmovzxbq | Pmovzxwd | Pmovzxwq | Pmovzxdq
  | Pmovsxbw | Pmovsxbd | Pmovsxbq | Pmovsxwd | Pmovsxwq | Pmovsxdq | Vpmovzxbw | Vpmovzxbd | Vpmovzxbq | Vpmovzxwd
  | Vpmovzxwq | Vpmovzxdq | Vpmovsxbw | Vpmovsxbd | Vpmovsxbq | Vpmovsxwd | Vpmovsxwq | Vpmovsxdq | Vpmovqd | Vpmovqw
  | Vpmovqb | Vpmovdw | Vpmovdb | Vpmovwb | Pmullw | Vpmullw | Pmulhuw | Vpmulhuw | Pmulhw | Vpmulhw | Pmulld
  | Vpmulld | Pmuludq | Vpmuludq | Pmuldq | Vpmuldq | Pminsd | Pmaxsd | Pminud | Pmaxud | Blendvps | Blendvpd
  | Pblendvb | Vblendvps | Vblendvpd | Vpblendvb | Vmaskmovps | Vmaskmovpd | Blendps | Blendpd | Vblendps | Vblendpd
  | Pblendw | Vpblendw | Vpblendd | Roundps | Roundpd | Roundss | Roundsd | Vroundps | Vroundpd | Vroundss | Vroundsd
  | Vrndscaless | Vrndscalesd | Pcmpistri | Vpcmpistri | Pcmpestri | Vpcmpestri | Pcmpestri64 | Vpcmpestri64
  | Pcmpistrm | Vpcmpistrm | Pcmpestrm | Vpcmpestrm | Pcmpestrm64 | Vpcmpestrm64 | Insertps | Vinsertps | Dpps | Dppd
  | Vdppd | Vdpps | Phminposuw | Vphminposuw | Mpsadbw | Vmpsadbw | Vpaddb | Vpaddw | Vpaddd | Vpaddq | Vpsubb
  | Vpsubw | Vpsubd | Vpsubq | Vpcmpeqb | Vpcmpeqw | Vpcmpeqd | Vpcmpeqq | Vpcmpgtb | Vpcmpgtw | Vpcmpgtd | Vpcmpgtq
  | Vpminub | Vpmaxub | Vpminud | Vpmaxud | Vpminsd | Vpmaxsd | Vpaddsb | Vpaddsw | Vpaddusb | Vpaddusw | Vpsubsb
  | Vpsubsw | Vpsubusb | Vpsubusw | Vpavgb | Vpavgw | Vpmaxsb | Vpmaxsw | Vpmaxuw | Vpminsb | Vpminsw | Vpminuw
  | Pmulhrsw | Vpmulhrsw | Vpmaddwd | Vpmaddubsw | Pmaddubsw | Vpabsb | Vpabsw | Vpabsd | Vpabsq | Vplzcntd
  | Vplzcntq | Vprold | Vprolq | Vpconflictd | Vpconflictq | Vpblendmd | Vpblendmq | Vshuff32x4 | Vshuff64x2
  | Vpmultishiftqb | Vpmaxuq | Vpminuq | Vpmaxsq | Vpminsq | Vpmullq | Vptestmb | Vptestmw | Vptestmd | Vptestmq
  | Vptestnmb | Vptestnmw | Vptestnmd | Vptestnmq | Vpcmpb | Vpcmpw | Vpcmpd | Vpcmpq | Vpcmpub | Vpcmpuw | Vpcmpud
  | Vpcmpuq | Kortestb | Kortestw | Kortestd | Kortestq | Kmovb | Kmovw | Kmovd | Kmovq | Vpmovmskb | Vpshufb
  | Vzeroupper | Vzeroall | Vpbroadcastb | Vpbroadcastw | Vpbroadcastd | Vpbroadcastq | Vbroadcastss | Vbroadcastsd
  | Vbroadcastf32x2 | Vbroadcasti32x2 | Vbroadcastf32x4 | Vbroadcasti32x4 | Vbroadcastf64x2 | Vbroadcasti64x2
  | Vbroadcastf32x8 | Vbroadcasti32x8 | Vbroadcastf64x4 | Vbroadcasti64x4 | Vbroadcasti128 | Vbroadcastf128
  | Vinserti128 | Vinsertf128 | Vextracti128 | Vextractf128 | Vinserti32x4 | Vinsertf32x4 | Vinserti64x2
  | Vinsertf64x2 | Vinserti64x4 | Vinsertf64x4 | Vinserti32x8 | Vinsertf32x8 | Vextracti32x4 | Vextractf32x4
  | Vextracti64x2 | Vextractf64x2 | Vextracti64x4 | Vextractf64x4 | Vextracti32x8 | Vextractf32x8 | Valignd | Valignq
  | Vpsllw | Vpslld | Vpsllq | Vpsrlw | Vpsrld | Vpsrlq | Vpsraw | Vpsrad | Vpsraq | Vpsllvw | Vpsllvd | Vpsllvq
  | Vpsrlvw | Vpsrlvd | Vpsrlvq | Vpsravw | Vpsravd | Vpsravq | Vpermq | Vpermpd | Vpermd | Vpermps | Vperm2i128
  | Vperm2f128 | Ptest | Vptest | Vtestps | Vtestpd | Vpalignr | Movss | Vmovss | Vmovsd | Addss | Addsd | Addps
  | Addpd | Subss | Subsd | Subps | Subpd | Mulss | Mulsd | Mulps | Mulpd | Divss | Divsd | Divps | Divpd | Ucomiss
  | Comiss | Vucomiss | Vcomiss | Ucomisd | Comisd | Vucomisd | Vcomisd | Cmpss | Cmppd | Cmpps | Vcmpss | Vcmpsd
  | Vcmpps | Vcmppd | Cvtsi2ss | Cvtsi2sd | Vcvtsi2ss | Vcvtsi2sd | Vcvtusi2ss | Vcvtusi2sd | Cvttss2si | Vcvttss2si
  | Cvtss2si | Vcvtss2si | Cvttsd2si | Vcvttsd2si | Cvtsd2si | Vcvtsd2si | Vcvttss2usi | Vcvtss2usi | Vcvttsd2usi
  | Vcvtsd2usi | Cvtss2sd | Cvtsd2ss | Cvtdq2ps | Cvtps2dq | Cvttps2dq | Cvtdq2pd | Cvtps2pd | Cvtpd2ps | Cvtpd2dq
  | Cvttpd2dq | Vcvtdq2ps | Vcvtps2dq | Vcvttps2dq | Vcvtdq2pd | Vcvtps2pd | Vcvtpd2ps | Vcvtpd2dq | Vcvttpd2dq
  | Vcvtph2ps | Vcvtps2ph | Vcvtss2sd | Vcvtsd2ss | Minss | Minsd | Minps | Minpd | Maxss | Maxsd | Maxps | Maxpd
  | Vaddss | Vaddsd | Vaddps | Vaddpd | Vsubss | Vsubsd | Vsubps | Vsubpd | Vmulss | Vmulsd | Vmulps | Vmulpd
  | Vdivss | Vdivsd | Vdivps | Vdivpd | Vminss | Vminsd | Vminps | Vminpd | Vmaxss | Vmaxsd | Vmaxps | Vmaxpd
  | Haddps | Haddpd | Hsubps | Hsubpd | Addsubps | Addsubpd | Vhaddps | Vhaddpd | Vhsubps | Vhsubpd | Vaddsubps
  | Vaddsubpd | Phaddw | Phaddd | Phaddsw | Phsubw | Phsubd | Phsubsw | Vphaddw | Vphaddd | Vphaddsw | Vphsubw
  | Vphsubd | Vphsubsw | Psadbw | Vpsadbw | Sqrtss | Sqrtsd | Vsqrtss | Vsqrtsd | Vsqrtps | Vsqrtpd | Vrsqrtss
  | Vrcpss | Vrsqrtps | Vrcpps | Vfmadd132ss | Vfmadd132sd | Vfmadd132ps | Vfmadd132pd | Vfmadd213ss | Vfmadd213sd
  | Vfmadd213ps | Vfmadd213pd | Vfmadd231ss | Vfmadd231sd | Vfmadd231ps | Vfmadd231pd | Vfmsub132ss | Vfmsub132sd
  | Vfmsub132ps | Vfmsub132pd | Vfmsub213ss | Vfmsub213sd | Vfmsub213ps | Vfmsub213pd | Vfmsub231ss | Vfmsub231sd
  | Vfmsub231ps | Vfmsub231pd | Vfnmadd132ss | Vfnmadd132sd | Vfnmadd132ps | Vfnmadd132pd | Vfnmadd213ss
  | Vfnmadd213sd | Vfnmadd213ps | Vfnmadd213pd | Vfnmadd231ss | Vfnmadd231sd | Vfnmadd231ps | Vfnmadd231pd
  | Vfnmsub132ss | Vfnmsub132sd | Vfnmsub132ps | Vfnmsub132pd | Vfnmsub213ss | Vfnmsub213sd | Vfnmsub213ps
  | Vfnmsub213pd | Vfnmsub231ss | Vfnmsub231sd | Vfnmsub231ps | Vfnmsub231pd | Vfmaddsub132ps | Vfmaddsub132pd
  | Vfmaddsub213ps | Vfmaddsub213pd | Vfmaddsub231ps | Vfmaddsub231pd | Vfmsubadd132ps | Vfmsubadd132pd
  | Vfmsubadd213ps | Vfmsubadd213pd | Vfmsubadd231ps | Vfmsubadd231pd | Sqrtps | Sqrtpd | Movzx | Movsx | Movsxd
  | Cbw | Cwde | Cdqe | Cwd | Cdq | Cqo | Push | Pop | Jmp | Call | Retf | Ret | Leave | Syscall | Hlt | In | Out
  | Ud2 | Int3 | Int | Into | Bound | Int1 | Cli | Sti | Pushf | Popf | Iret | Clc | Stc | Cmc | Daa | Das | Aaa
  | Aas | Aam | Aad | Loop | Loope | Loopne | Jcxz | Salc | Xlatb | Lahf | Sahf | Pusha | Popa | Enter | Les | Lds
  | Jb | Setb | Cmovb | Jae | Setae | Cmovae | Jbe | Setbe | Cmovbe | Ja | Seta | Cmova | Jl | Setl | Cmovl | Jge
  | Setge | Cmovge | Jle | Setle | Cmovle | Jg | Setg | Cmovg | Js | Sets | Cmovs | Jns | Setns | Cmovns | Jo | Seto
  | Cmovo | Jno | Setno | Cmovno | Jp | Setp | Cmovp | Jnp | Setnp | Cmovnp | Je | Sete | Cmove | Jne | Setne
  | Cmovne
  | OtherMnemonic.
End Mnemonic.

Module OpKind.
Inductive t : Type :=
  | Register | Memory
  | NearBranch16 | NearBranch32 | NearBranch64 | FarBranch16 | FarBranch32
  | Immediate8 | Immediate8_2nd | Immediate16 | Immediate32 | Immediate64
  | Immediate8to16 | Immediate8to32 | Immediate8to64 | Immediate32to64
  | OtherKind.
#[global] Instance t_eq_dec : EqDecision t.
Proof. solve_decision. Defined.
End OpKind.

Module Code.
Inductive t : Type :=
  | Push_imm16 | Pushw_imm8 | Call_rel16 | Call_rm16 | Retnw | Retnw_imm16
  | Retfw | Retfw_imm16 | Retfd | Retfd_imm16 | Jmp_m1616 | Call_m1616 | Leavew
  | OtherCode.
#[global] Instance t_eq_dec : EqDecision t.
Proof. solve_decision. Defined.
End Code.

Inductive CodeSize : Type := CodeUnknown | Code16 | Code32 | Code64.
#[global] Instance CodeSize_eq_dec : EqDecision CodeSize.
Proof. solve_decision. Defined.

(** ** The accessors *)

Notation Register := Z (only parsing).

Class InsnView `{Iced} : Type := {
  mnemonic : Instruction -> Mnemonic.t;
  code : Instruction -> Code.t;
  code_size : Instruction -> CodeSize;
  op_count : Instruction -> Z;
  op_kind : Instruction -> Z -> OpKind.t;
  op_register : Instruction -> Z -> Register;
  immediate : Instruction -> Z -> Z;
  immediate8 : Instruction -> Z;
  immediate8_2nd : Instruction -> Z;
  immediate16 : Instruction -> Z;
  memory_base : Instruction -> Register;
  memory_index : Instruction -> Register;
  memory_index_scale : Instruction -> Z;
  memory_displacement64 : Instruction -> Z;
  memory_segment : Instruction -> Register;
  segment_prefix : Instruction -> Register;
  memory_size : Instruction -> Z;
  has_lock_prefix : Instruction -> bool;
  has_rep_prefix : Instruction -> bool;
  has_repe_prefix : Instruction -> bool;
  has_repne_prefix : Instruction -> bool;
  near_branch_target : Instruction -> Z;
  next_ip : Instruction -> Z;
  far_branch_selector : Instruction -> Z;
  far_branch16 : Instruction -> Z;
  op_mask : Instruction -> Register;
  zeroing_masking : Instruction -> bool;
  register_size : Register -> Z;
  is_gpr : Register -> bool;
  full_register : Register -> Register;
  is_xmm : Register -> bool;
  is_ymm : Register -> bool;
  is_zmm : Register -> bool;
  is_k : Register -> bool;
  is_mm : Register -> bool;
  NoRegister : Register;
  AH : Register; BH : Register; CH : Register; DH : Register;
  RAX : Register; RSP : Register; EIP : Register; RIP : Register;
  ES : Register; CS : Register; SS : Register; DS : Register; FS : Register; GS : Register;
  XMM0 : Register; YMM0 : Register; ZMM0 : Register; K0 : Register; MM0 : Register;
  ST0 : Register; ST7 : Register;
}.

(** ** The lowering monad

    The ops pushed so far and the temporary counter, in and out; an unsupported
    instruction drops both.  [None] is a panic: an assertion that fails, an [unreachable!]. *)

Definition L (A : Type) : Type := list IrOp -> nat -> option (Result (A * list IrOp * nat) LiftError).
#[global] Instance L_ret : MRet L := fun _ a ops tg => Some (Ok (a, ops, tg)).
#[global] Instance L_bind : MBind L := fun _ _ k x ops tg =>
  match x ops tg with Some (Ok (a, ops, tg)) => k a ops tg | Some (Err e) => Some (Err e) | None => None end.
#[global] Instance L_fmap : FMap L := fun _ _ f x => a ← x; mret (f a).

Definition fresh : L Temp := fun ops tg => let '(t, tg) := temp_fresh tg in Some (Ok (t, ops, tg)).
Definition push (op : IrOp) : L unit := fun ops tg => Some (Ok (tt, ops ++ [op], tg)).
Definition vpush (op : VecOp.VecOp) : L unit := push (Vector op).
Definition failL {A} (e : LiftError) : L A := fun _ _ => Some (Err e).
Definition panicL {A} : L A := fun _ _ => None.
(** [debug_assert!] *)
Definition assertL (b : bool) : L unit := if b then mret tt else panicL.

(** [tg.fresh()] for the result of one pushed op. *)
Definition alu_none (mk : Temp -> IrOp) : L Val := t ← fresh; push (mk t);; mret (TempV t).

(** ** Small helpers *)

Definition is_some {A} (o : option A) : bool := match o with Some _ => true | None => false end.
Definition is_none {A} (o : option A) : bool := negb (is_some o).
Definition or_else {A} (o p : option A) : option A := match o with Some a => Some a | None => p end.

Definition wraps_32 (m : CpuMode) : bool := match m with Compat32 => true | _ => false end.

Definition size_mask (size : Z) : Z := if 8 <=? size then 2 ^ 64 - 1 else 2 ^ (size * 8) - 1.

Definition is_immediate (kind : OpKind.t) : bool :=
  match kind with
  | OpKind.Immediate8 | OpKind.Immediate8_2nd | OpKind.Immediate16 | OpKind.Immediate32 | OpKind.Immediate64
  | OpKind.Immediate8to16 | OpKind.Immediate8to32 | OpKind.Immediate8to64 | OpKind.Immediate32to64 => true
  | _ => false
  end.

Definition stack_slot (mode : CpuMode) : Z := match mode with Long64 => 8 | Compat32 => 4 | Real16 => 2 end.
Definition sp_write_size (mode : CpuMode) : Z := stack_slot mode.

Inductive WriteTarget : Type :=
  | WTReg (reg : Reg) (size : Z)
  | WTMem (addr : Val) (size : Z)
  | WTHighByte (parent : Reg).

(** ** Operands *)

Section Operands.
Context `{InsnView}.
Implicit Types (insn : Instruction) (mode : CpuMode).

Definition unsupported_insn insn : LiftError := Unsupported (insn_ip insn) (replicate 15 0) (wrap 8 (insn_len insn)).
Definition unsupported {A} insn : L A := failL (unsupported_insn insn).
Definition or_unsupported {A} insn (o : option A) : L A :=
  match o with Some a => mret a | None => unsupported insn end.

Definition high_byte_parent (reg : Register) : option Reg :=
  if reg =? AH then Some Rax else if reg =? BH then Some Rbx
  else if reg =? CH then Some Rcx else if reg =? DH then Some Rdx else None.

Definition iced_gpr_index (reg : Register) : option Z :=
  if negb (is_gpr reg) then None else Some (full_register reg - RAX).

(** An index past 15 would be a panic; the encoding has sixteen registers. *)
Definition iced_to_reg (reg : Register) : option Reg :=
  if (reg =? AH) || (reg =? BH) || (reg =? CH) || (reg =? DH) then None
  else i ← iced_gpr_index reg; from_gpr_index (Z.to_nat i).

Definition iced_segment_reg (reg : Register) : option Reg :=
  if reg =? CS then Some Cs else if reg =? DS then Some Ds
  else if reg =? ES then Some Es else if reg =? SS then Some Ss else None.

Definition sreg_operand insn (idx : Z) : option Reg :=
  if decide (op_kind insn idx = OpKind.Register) then iced_segment_reg (op_register insn idx) else None.

Definition operand_size insn (op_idx : Z) : Z :=
  match op_kind insn op_idx with
  | OpKind.Register => wrap 8 (register_size (op_register insn op_idx))
  | OpKind.Memory => wrap 8 (memory_size insn)
  | _ => 0
  end.

Definition operation_size insn : Z :=
  let s := operand_size insn 0 in if negb (s =? 0) then s else operand_size insn 1.

Definition push_pop_size insn mode : Z :=
  let s := operand_size insn 0 in
  if negb (s =? 0) then s
  else match code insn with
       | Code.Push_imm16 | Code.Pushw_imm8 => 2
       | _ => stack_slot mode
       end.

Definition call_ret_slot insn mode : L Z :=
  match code insn with
  | Code.Call_rel16 | Code.Call_rm16 | Code.Retnw | Code.Retnw_imm16 => unsupported insn
  | _ => mret (stack_slot mode)
  end.

Definition scalar_mem_size insn (op_idx : Z) : L Z :=
  let size := operand_size insn op_idx in
  if (size =? 1) || (size =? 2) || (size =? 4) || (size =? 8) then mret size else unsupported insn.

Definition read_reg (reg : Reg) : L Val := t ← fresh; push (ReadReg t reg);; mret (TempV t).
Definition add_addr (a b : Val) : L Val := t ← fresh; push (Add t a b 8 FM_NONE);; mret (TempV t).

(** ** Addresses *)

Definition scaled_index insn (idx : Val) : L Val :=
  let scale := memory_index_scale insn in
  if scale <=? 1 then mret idx
  else t ← fresh; push (Shl t idx (Imm (trailing_zeros 32 scale)) 8 FM_NONE);; mret (TempV t).

Definition effective_address_no_segment insn : L Val :=
  let base := memory_base insn in
  let index := memory_index insn in
  let disp := memory_displacement64 insn in
  if base =? RIP then assertL (bool_decide (code_size insn <> Code32));; mret (Imm disp)
  else if base =? EIP then assertL (bool_decide (code_size insn <> Code32));; mret (Imm (Z.land disp 0xFFFFFFFF))
  else
    acc ← (if base =? NoRegister then mret None
           else reg ← or_unsupported insn (iced_to_reg base); v ← read_reg reg; mret (Some v));
    acc ← (if index =? NoRegister then mret acc
           else
             reg ← or_unsupported insn (iced_to_reg index);
             idx ← read_reg reg;
             scaled ← scaled_index insn idx;
             match acc with
             | None => mret (Some scaled)
             | Some a => v ← add_addr a scaled; mret (Some v)
             end);
    addr ← match acc with
           | None => mret (Imm disp)
           | Some a => if disp =? 0 then mret a else add_addr a (Imm disp)
           end;
    let addr_mask :=
      if (register_size base =? 2) || (register_size index =? 2) then Some 0xFFFF
      else if (register_size base =? 4) || (register_size index =? 4) then Some 0xFFFFFFFF
      else None in
    match addr_mask with
    | Some mask =>
        match addr with
        | Imm v => mret (Imm (Z.land v mask))
        | a => t ← fresh; push (And t a (Imm mask) 8 FM_NONE);; mret (TempV t)
        end
    | None => mret addr
    end.

Definition with_segment insn (addr : Val) : L Val :=
  if decide (code_size insn = Code16) then
    match iced_segment_reg (memory_segment insn) with
    | None => mret addr
    | Some seg =>
        let size := memory_size insn in
        (if (1 <=? size) && (size <=? 4)
         then push (SegLimitCheck addr (wrap 8 size) 13 (mask_pc (insn_ip insn) Real16))
         else mret tt);;
        sel ← read_reg seg;
        base ← alu_none (fun dst => Shl dst sel (Imm 4) 8 FM_NONE);
        add_addr addr base
    end
  else if segment_prefix insn =? FS then base ← read_reg FsBase; add_addr addr base
  else if segment_prefix insn =? GS then base ← read_reg GsBase; add_addr addr base
  else mret addr.

Definition effective_address insn : L Val :=
  addr ← effective_address_no_segment insn; with_segment insn addr.

Definition stack_addr (offset : Val) mode : L Val :=
  if negb (wraps_16 mode) then mret offset
  else
    ss ← read_reg Ss;
    base ← alu_none (fun dst => Shl dst ss (Imm 4) 8 FM_NONE);
    add_addr offset base.

Definition emit_sp_wrap (sp : Temp) mode : L unit :=
  match mode with
  | Compat32 => push (And sp (TempV sp) (Imm 0xFFFFFFFF) 8 FM_NONE)
  | Real16 => push (And sp (TempV sp) (Imm 0xFFFF) 8 FM_NONE)
  | Long64 => mret tt
  end.

(** ** Reading and writing an operand *)

Definition lower_read insn (op_idx : Z) : L Val :=
  let kind := op_kind insn op_idx in
  match kind with
  | OpKind.Register =>
      let r := op_register insn op_idx in
      match high_byte_parent r with
      | Some parent =>
          p ← read_reg parent;
          sh ← alu_none (fun dst => Shr dst p (Imm 8) 8 FM_NONE);
          alu_none (fun dst => And dst sh (Imm 0xff) 8 FM_NONE)
      | None => reg ← or_unsupported insn (iced_to_reg r); read_reg reg
      end
  | OpKind.Memory =>
      addr ← effective_address insn;
      size ← scalar_mem_size insn op_idx;
      t ← fresh;
      push (Load t addr size);;
      mret (TempV t)
  | _ => if is_immediate kind then mret (Imm (immediate insn op_idx)) else unsupported insn
  end.

Definition lower_write_target insn (op_idx : Z) : L WriteTarget :=
  match op_kind insn op_idx with
  | OpKind.Register =>
      let r := op_register insn op_idx in
      match high_byte_parent r with
      | Some parent => mret (WTHighByte parent)
      | None => reg ← or_unsupported insn (iced_to_reg r); mret (WTReg reg (operand_size insn op_idx))
      end
  | OpKind.Memory =>
      addr ← effective_address insn;
      size ← scalar_mem_size insn op_idx;
      mret (WTMem addr size)
  | _ => unsupported insn
  end.

Definition emit_write (target : WriteTarget) (value : Val) : L unit :=
  match target with
  | WTReg reg size => push (WriteReg reg value size)
  | WTMem addr size => push (Store addr value size OrderNone)
  | WTHighByte parent =>
      cur ← read_reg parent;
      clear ← alu_none (fun dst => And dst cur (Imm (unot 64 0xff00)) 8 FM_NONE);
      byte ← alu_none (fun dst => And dst value (Imm 0xff) 8 FM_NONE);
      shifted ← alu_none (fun dst => Shl dst byte (Imm 8) 8 FM_NONE);
      merged ← alu_none (fun dst => Or dst clear shifted 8 FM_NONE);
      push (WriteReg parent merged 8)
  end.

Definition branch_target insn mode : L Val :=
  match op_kind insn 0 with
  | OpKind.NearBranch16 | OpKind.NearBranch32 | OpKind.NearBranch64 =>
      mret (Imm (mask_pc (near_branch_target insn) mode))
  | _ =>
      target ← lower_read insn 0;
      let width_mask :=
        if operand_size insn 0 =? 2 then Some 0xFFFF
        else if wraps_32 mode then Some 0xFFFFFFFF else None in
      match width_mask with
      | Some m => masked ← fresh; push (And masked target (Imm m) 8 FM_NONE);; mret (TempV masked)
      | None => mret target
      end
  end.

(** ** Vector operands *)

Definition reg_class (pred : Register -> bool) (base : Register) insn (op_idx : Z) : option nat :=
  if decide (op_kind insn op_idx = OpKind.Register) then
    let r := op_register insn op_idx in if pred r then Some (Z.to_nat (wrap 8 (r - base))) else None
  else None.
Definition reg_xmm : Instruction -> Z -> option nat := reg_class is_xmm XMM0.
Definition reg_ymm : Instruction -> Z -> option nat := reg_class is_ymm YMM0.
Definition reg_zmm : Instruction -> Z -> option nat := reg_class is_zmm ZMM0.
Definition reg_kmask : Instruction -> Z -> option nat := reg_class is_k K0.
Definition reg_mmx : Instruction -> Z -> option nat := reg_class is_mm MM0.

Definition vec_operand insn (op_idx : Z) : option (nat * Z) :=
  match reg_zmm insn op_idx with
  | Some z => Some (z, 64)
  | None =>
      match reg_ymm insn op_idx with
      | Some y => Some (y, 32)
      | None => match reg_xmm insn op_idx with Some x => Some (x, 16) | None => None end
      end
  end.
Definition reg_vec insn (op_idx : Z) : option nat :=
  match reg_xmm insn op_idx with Some x => Some x | None => reg_ymm insn op_idx end.
Definition vec_operand_reg insn (op_idx : Z) : option nat := fst <$> vec_operand insn op_idx.
Definition evex_is_masked insn : bool := negb (op_mask insn =? NoRegister) || zeroing_masking insn.
Definition evex_writemask insn : option nat :=
  let r := op_mask insn in
  if (r =? NoRegister) || (r =? K0) then None else Some (Z.to_nat (wrap 8 (r - K0))).

(** [vec_src_dispatch!]: operand [idx] in a register, else in memory at an address computed
    once, else unsupported. *)
Definition vec_src_dispatch insn (ext : Instruction -> Z -> option nat) (idx : Z) (reg : nat -> L unit) (mem : Val -> L unit) : L unit :=
  match ext insn idx with
  | Some b => reg b
  | None =>
      if decide (op_kind insn idx = OpKind.Memory) then addr ← effective_address insn; mem addr
      else unsupported insn
  end.
End Operands.
