(* ===== verification/LiftInt.v ===== *)
(** * Lowering the integer instructions (x86jit-core/src/lift/integer.rs)

    One definition per lowering of lift/integer.rs, and the table of two-operand ops of
    lift/mod.rs. *)

From S2P Require Import Prelude State Ir Block Lift Insn.

(** ** Two-operand ops *)

Module BinOp.
Inductive t : Type := Add | Adc | Sub | Sbb | And | Or | Xor | Shl | Shr | Sar | Rol | Ror | Rcl | Rcr.
End BinOp.

Definition rmw_of_binop (op : BinOp.t) : option RmwOp :=
  match op with
  | BinOp.Add => Some RmwAdd
  | BinOp.Sub => Some RmwSub
  | BinOp.And => Some RmwAnd
  | BinOp.Or => Some RmwOr
  | BinOp.Xor => Some RmwXor
  | _ => None
  end.

Definition mk_binop (op : BinOp.t) (dst : Temp) (a b : Val) (size : Z) (set_flags : FlagMask) : IrOp :=
  match op with
  | BinOp.Add => Add dst a b size set_flags
  | BinOp.Adc => Adc dst a b size set_flags
  | BinOp.Sub => Sub dst a b size set_flags
  | BinOp.Sbb => Sbb dst a b size set_flags
  | BinOp.And => And dst a b size set_flags
  | BinOp.Or => Or dst a b size set_flags
  | BinOp.Xor => Xor dst a b size set_flags
  | BinOp.Shl => Shl dst a b size set_flags
  | BinOp.Shr => Shr dst a b size set_flags
  | BinOp.Sar => Sar dst a b size set_flags
  | BinOp.Rol => Rol dst a b size set_flags
  | BinOp.Ror => Ror dst a b size set_flags
  | BinOp.Rcl => Rcl dst a b size set_flags
  | BinOp.Rcr => Rcr dst a b size set_flags
  end.

Section LiftInt.
Context `{InsnView}.
Implicit Types (insn : Instruction).

Definition lift_binop insn (op : BinOp.t) (flags : FlagMask) (write_back : bool) : L unit :=
  let size := operation_size insn in
  if decide (op_kind insn 0 = OpKind.Memory) then
    addr ← effective_address insn;
    if write_back && has_lock_prefix insn then
      match rmw_of_binop op with
      | None => unsupported insn
      | Some rop =>
          b ← lower_read insn 1;
          old ← fresh;
          push (AtomicRmw old addr b size rop);;
          res ← fresh;
          push (mk_binop op res (TempV old) b size flags)
      end
    else
      t ← fresh;
      push (Load t addr size);;
      b ← lower_read insn 1;
      res ← fresh;
      push (mk_binop op res (TempV t) b size flags);;
      if write_back then push (Store addr (TempV res) size OrderNone) else mret tt
  else
    a ← lower_read insn 0;
    b ← lower_read insn 1;
    res ← fresh;
    push (mk_binop op res a b size flags);;
    if write_back then dst ← lower_write_target insn 0; emit_write dst (TempV res) else mret tt.

(** ** One operand *)

Definition lift_unary_op0 insn (rmw_op : RmwOp) (rmw_src : Val) (recompute_flags : bool) (emit : Temp -> Val -> Z -> L unit) : L unit :=
  let size := operand_size insn 0 in
  if decide (op_kind insn 0 = OpKind.Memory) then
    addr ← effective_address insn;
    if has_lock_prefix insn then
      old ← fresh;
      push (AtomicRmw old addr rmw_src size rmw_op);;
      if recompute_flags then res ← fresh; emit res (TempV old) size else mret tt
    else
      t ← fresh;
      push (Load t addr size);;
      res ← fresh;
      emit res (TempV t) size;;
      push (Store addr (TempV res) size OrderNone)
  else
    a ← lower_read insn 0;
    res ← fresh;
    emit res a size;;
    dst ← lower_write_target insn 0;
    emit_write dst (TempV res).

Definition lift_incdec insn (op : BinOp.t) : L unit :=
  let rmw := match op with BinOp.Add => RmwAdd | _ => RmwSub end in
  lift_unary_op0 insn rmw (Imm 1) true (fun res a size => push (mk_binop op res a (Imm 1) size FM_ALL_BUT_CF)).

Definition lift_neg insn : L unit :=
  lift_unary_op0 insn RmwRsub (Imm 0) true (fun res a size => push (Sub res (Imm 0) a size FM_ALL)).

Definition lift_not insn : L unit :=
  lift_unary_op0 insn RmwXor (Imm (2 ^ 64 - 1)) false
    (fun res a size => push (Xor res a (Imm (2 ^ 64 - 1)) size FM_NONE)).

Definition lift_double_shift insn (left_ : bool) : L unit :=
  let size := operand_size insn 0 in
  b ← lower_read insn 1;
  count ← lower_read insn 2;
  res ← fresh;
  if decide (op_kind insn 0 = OpKind.Memory) then
    addr ← effective_address insn;
    t ← fresh;
    push (Load t addr size);;
    push (DoubleShift res (TempV t) b count size left_ FM_SHIFT);;
    push (Store addr (TempV res) size OrderNone)
  else
    a ← lower_read insn 0;
    push (DoubleShift res a b count size left_ FM_SHIFT);;
    dst ← lower_write_target insn 0;
    emit_write dst (TempV res).

(** ** Multiplication and division *)

Definition lift_widening_mul insn (signed : bool) : L unit :=
  let size := operand_size insn 0 in
  if size =? 1 then
    a ← read_reg Rax;
    b ← lower_read insn 0;
    lo ← fresh;
    hi ← fresh;
    push (Mul lo hi a b 1 signed FM_CF_OF);;
    hi_sh ← alu_none (fun dst => Shl dst (TempV hi) (Imm 8) 2 FM_NONE);
    ax ← alu_none (fun dst => Or dst (TempV lo) hi_sh 2 FM_NONE);
    push (WriteReg Rax ax 2)
  else
    a ← read_reg Rax;
    b ← lower_read insn 0;
    lo ← fresh;
    hi ← fresh;
    push (Mul lo hi a b size signed FM_CF_OF);;
    push (WriteReg Rax (TempV lo) size);;
    push (WriteReg Rdx (TempV hi) size).

Definition lift_imul insn : L unit :=
  let n := op_count insn in
  if n =? 1 then lift_widening_mul insn true
  else if (n =? 2) || (n =? 3) then
    let size := operand_size insn 0 in
    '(a, b) ← (if n =? 2 then a ← lower_read insn 0; b ← lower_read insn 1; mret (a, b)
               else a ← lower_read insn 1; b ← lower_read insn 2; mret (a, b));
    lo ← fresh;
    hi ← fresh;
    push (Mul lo hi a b size true FM_CF_OF);;
    dst ← lower_write_target insn 0;
    emit_write dst (TempV lo)
  else unsupported insn.

Definition lift_div insn (signed : bool) : L unit :=
  let size := operand_size insn 0 in
  if size =? 1 then
    rax ← read_reg Rax;
    hi ← alu_none (fun dst => Shr dst rax (Imm 8) 8 FM_NONE);
    divisor ← lower_read insn 0;
    quot ← fresh;
    rem ← fresh;
    push (Div quot rem hi rax divisor 1 signed);;
    push (WriteReg Rax (TempV quot) 1);;
    emit_write (WTHighByte Rax) (TempV rem)
  else
    hi ← read_reg Rdx;
    lo ← read_reg Rax;
    divisor ← lower_read insn 0;
    quot ← fresh;
    rem ← fresh;
    push (Div quot rem hi lo divisor size signed);;
    push (WriteReg Rax (TempV quot) size);;
    push (WriteReg Rdx (TempV rem) size).

Definition lift_mulx insn : L unit :=
  let size := operand_size insn 0 in
  rdx ← read_reg Rdx;
  src ← lower_read insn 2;
  lo ← fresh;
  hi ← fresh;
  push (Mul lo hi rdx src size false FM_NONE);;
  dlo ← lower_write_target insn 1;
  emit_write dlo (TempV lo);;
  dhi ← lower_write_target insn 0;
  emit_write dhi (TempV hi).

(** ** Exchanges *)

Definition lift_xadd insn : L unit :=
  let size := operand_size insn 0 in
  src ← lower_read insn 1;
  if decide (op_kind insn 0 = OpKind.Memory) then
    addr ← effective_address insn;
    old ← fresh;
    push (AtomicRmw old addr src size RmwAdd);;
    res ← fresh;
    push (mk_binop BinOp.Add res (TempV old) src size FM_ALL);;
    dst1 ← lower_write_target insn 1;
    emit_write dst1 (TempV old)
  else
    dst_val ← lower_read insn 0;
    res ← fresh;
    push (mk_binop BinOp.Add res dst_val src size FM_ALL);;
    dst1 ← lower_write_target insn 1;
    emit_write dst1 dst_val;;
    dst0 ← lower_write_target insn 0;
    emit_write dst0 (TempV res).

Definition lift_cmpxchg insn : L unit :=
  if decide (op_kind insn 0 = OpKind.Memory) then
    let size := operand_size insn 0 in
    addr ← effective_address insn;
    src ← lower_read insn 1;
    acc ← read_reg Rax;
    exp ← fresh;
    push (And exp acc (Imm (size_mask size)) 8 FM_NONE);;
    old ← fresh;
    push (AtomicCas old addr (TempV exp) src size);;
    res ← fresh;
    push (Sub res (TempV exp) (TempV old) size FM_ALL);;
    push (WriteReg Rax (TempV old) size)
  else unsupported insn.

Definition lift_xchg insn : L unit :=
  let reg_idx :=
    if decide (op_kind insn 0 = OpKind.Memory) then Some 1
    else if decide (op_kind insn 1 = OpKind.Memory) then Some 0
    else None in
  match reg_idx with
  | Some reg_idx =>
      let size := operand_size insn reg_idx in
      addr ← effective_address insn;
      reg_val ← lower_read insn reg_idx;
      old ← fresh;
      push (AtomicRmw old addr reg_val size RmwXchg);;
      dst ← lower_write_target insn reg_idx;
      emit_write dst (TempV old)
  | None =>
      a_val ← lower_read insn 0;
      b_val ← lower_read insn 1;
      dst0 ← lower_write_target insn 0;
      dst1 ← lower_write_target insn 1;
      emit_write dst0 b_val;;
      emit_write dst1 a_val
  end.

(** ** Bits *)

Definition lift_bitscan insn (op : BitScanOp) : L unit :=
  let size := operand_size insn 0 in
  src ← lower_read insn 1;
  old ← lower_read insn 0;
  t ← fresh;
  push (BitScan t src old size op);;
  dst ← lower_write_target insn 0;
  emit_write dst (TempV t).

Definition emit_mem_bt (ea : Val) (esize : Z) (bit : Val) (op : BtOp) (locked : bool) : L unit :=
  let is_test := match op with BtTest => true | _ => false end in
  if locked && negb is_test then
    let width_bits := esize * 8 in
    assertL (1 <=? width_bits);;
    shift ← alu_none (fun t => And t bit (Imm (width_bits - 1)) esize FM_NONE);
    mask ← alu_none (fun t => Shl t (Imm 1) shift esize FM_NONE);
    '(rmw_op, src) ← match op with
                     | BtReset =>
                         inv ← alu_none (fun t => Xor t mask (Imm (size_mask esize)) esize FM_NONE);
                         mret (RmwAnd, inv)
                     | BtComplement => mret (RmwXor, mask)
                     | BtSet => mret (RmwOr, mask)
                     | BtTest => panicL
                     end;
    old ← fresh;
    push (AtomicRmw old ea src esize rmw_op);;
    cf ← fresh;
    push (Bt cf (TempV old) bit esize BtTest)
  else
    t ← fresh;
    push (Load t ea esize);;
    result ← fresh;
    push (Bt result (TempV t) bit esize op);;
    if negb is_test then push (Store ea (TempV result) esize OrderNone) else mret tt.

Definition lift_bt insn (op : BtOp) : L unit :=
  let size := operand_size insn 0 in
  bit ← lower_read insn 1;
  if decide (op_kind insn 0 = OpKind.Memory) then
    addr ← effective_address insn;
    '(ea, esize) ← (if decide (op_kind insn 1 = OpKind.Register) then
                      let idx_size := operand_size insn 1 in
                      sext ← fresh;
                      push (Sext sext bit idx_size);;
                      off ← fresh;
                      push (Sar off (TempV sext) (Imm 3) 8 FM_NONE);;
                      ea ← add_addr addr (TempV off);
                      mret (ea, 1)
                    else mret (addr, size));
    emit_mem_bt ea esize bit op (has_lock_prefix insn)
  else
    a ← lower_read insn 0;
    result ← fresh;
    push (Bt result a bit size op);;
    match op with
    | BtTest => mret tt
    | _ => dst ← lower_write_target insn 0; emit_write dst (TempV result)
    end.

Definition lift_bswap insn : L unit :=
  let size := operand_size insn 0 in
  a ← lower_read insn 0;
  t ← fresh;
  push (Bswap t a size);;
  dst ← lower_write_target insn 0;
  emit_write dst (TempV t).

Definition lift_bmi insn (op : BmiOp) : L unit :=
  let size := operand_size insn 0 in
  a ← lower_read insn 1;
  b ← (if 3 <=? op_count insn then lower_read insn 2 else mret (Imm 0));
  t ← fresh;
  push (Bmi t a b size op);;
  dst ← lower_write_target insn 0;
  emit_write dst (TempV t).

Definition lift_bmi_shift insn (mk : Temp -> Val -> Val -> Z -> FlagMask -> IrOp) : L unit :=
  let size := operand_size insn 0 in
  a ← lower_read insn 1;
  b ← lower_read insn 2;
  t ← fresh;
  push (mk t a b size FM_NONE);;
  dst ← lower_write_target insn 0;
  emit_write dst (TempV t).

Definition lift_movbe insn : L unit :=
  let size := operand_size insn 0 in
  addr ← effective_address insn;
  if decide (op_kind insn 1 = OpKind.Memory) then
    loaded ← fresh;
    push (Load loaded addr size);;
    swapped ← fresh;
    push (Bswap swapped (TempV loaded) size);;
    dst ← lower_write_target insn 0;
    emit_write dst (TempV swapped)
  else
    a ← lower_read insn 1;
    swapped ← fresh;
    push (Bswap swapped a size);;
    push (Store addr (TempV swapped) size OrderNone).

(** ** Extensions and conditions *)

Definition lift_movzx insn : L unit :=
  let src_size := operand_size insn 1 in
  v ← lower_read insn 1;
  z ← fresh;
  push (And z v (Imm (size_mask src_size)) 8 FM_NONE);;
  dst ← lower_write_target insn 0;
  emit_write dst (TempV z).

Definition lift_movsx insn : L unit :=
  let src_size := operand_size insn 1 in
  v ← lower_read insn 1;
  s ← fresh;
  push (Sext s v src_size);;
  dst ← lower_write_target insn 0;
  emit_write dst (TempV s).

Definition lift_cbw_family (from to : Z) : L unit :=
  rax ← read_reg Rax;
  s ← fresh;
  push (Sext s rax from);;
  push (WriteReg Rax (TempV s) to).

Definition lift_sign_into_dx (size : Z) : L unit :=
  rax ← read_reg Rax;
  s ← fresh;
  push (Sar s rax (Imm (size * 8 - 1)) size FM_NONE);;
  push (WriteReg Rdx (TempV s) size).

Definition lift_setcc insn (cond : Cond) : L unit :=
  c ← fresh;
  push (GetCond c cond);;
  dst ← lower_write_target insn 0;
  emit_write dst (TempV c).

Definition lift_cmovcc insn (cond : Cond) : L unit :=
  src ← lower_read insn 1;
  dst_val ← lower_read insn 0;
  c ← fresh;
  push (GetCond c cond);;
  m ← fresh;
  push (Sub m (Imm 0) (TempV c) 8 FM_NONE);;
  diff ← fresh;
  push (Xor diff dst_val src 8 FM_NONE);;
  sel ← fresh;
  push (And sel (TempV diff) (TempV m) 8 FM_NONE);;
  res ← fresh;
  push (Xor res dst_val (TempV sel) 8 FM_NONE);;
  dst ← lower_write_target insn 0;
  emit_write dst (TempV res).
End LiftInt.
