(* ===== verification/LiftCtl.v ===== *)
(** * Lowering control flow, the stack, strings and x87 (x86jit-core/src/lift/control.rs)

    One definition per lowering of lift/control.rs. *)

From S2P Require Import Prelude State Ir X87 Block Lift Insn.

Section LiftCtl.
Context `{InsnView}.
Implicit Types (insn : Instruction) (mode : CpuMode).

(** ** Ports and the stack *)

Definition lift_port_io insn (dir_out : bool) : L unit :=
  let '(acc_idx, port_idx) := if dir_out then (1, 0) else (0, 1) in
  let size := operand_size insn acc_idx in
  if negb ((size =? 1) || (size =? 2) || (size =? 4)) then unsupported insn
  else
    port ← match op_kind insn port_idx with
           | OpKind.Immediate8 => mret (Imm (Z.land (immediate insn port_idx) 0xffff))
           | OpKind.Register => dx ← read_reg Rdx; alu_none (fun dst => And dst dx (Imm 0xffff) 8 FM_NONE)
           | _ => unsupported insn
           end;
    value ← (if dir_out then read_reg Rax else mret (Imm 0));
    push (PortIo port value size dir_out).

Definition lift_push insn mode : L unit :=
  let size := push_pop_size insn mode in
  src ← match sreg_operand insn 0 with
        | Some seg => read_reg seg
        | None => lower_read insn 0
        end;
  rsp ← read_reg Rsp;
  new_rsp ← fresh;
  push (Sub new_rsp rsp (Imm size) 8 FM_NONE);;
  emit_sp_wrap new_rsp mode;;
  store_addr ← stack_addr (TempV new_rsp) mode;
  push (Store store_addr src size OrderNone);;
  push (WriteReg Rsp (TempV new_rsp) (sp_write_size mode)).

Definition lift_pop insn mode : L unit :=
  let size := push_pop_size insn mode in
  rsp ← read_reg Rsp;
  load_addr ← stack_addr rsp mode;
  val ← fresh;
  push (Load val load_addr size);;
  new_rsp ← fresh;
  push (Add new_rsp rsp (Imm size) 8 FM_NONE);;
  (if wraps_16 mode then emit_sp_wrap new_rsp mode else mret tt);;
  let rsp_writeback := WriteReg Rsp (TempV new_rsp) (sp_write_size mode) in
  dst ← match sreg_operand insn 0 with
        | Some seg => mret (WTReg seg 2)
        | None => lower_write_target insn 0
        end;
  match dst with
  | WTMem _ _ =>
      assertL (negb (memory_base insn =? RSP) && negb (memory_index insn =? RSP));;
      emit_write dst (TempV val);; push rsp_writeback
  | _ => push rsp_writeback;; emit_write dst (TempV val)
  end.

(** ** Calls, returns and far transfers in real mode *)

Definition is_far_branch insn : bool :=
  match op_kind insn 0 with OpKind.FarBranch16 | OpKind.FarBranch32 => true | _ => false end.
Definition is_far_flow insn : bool :=
  is_far_branch insn
  || match code insn with
     | Code.Retfw | Code.Retfw_imm16 | Code.Retfd | Code.Retfd_imm16 => true
     | _ => false
     end.
Definition is_far_jmp insn : bool := is_far_branch insn || bool_decide (code insn = Code.Jmp_m1616).
Definition is_far_call insn : bool := is_far_branch insn || bool_decide (code insn = Code.Call_m1616).

Definition lift_call_real16 insn : L unit :=
  if is_far_flow insn then unsupported insn
  else
    target ← branch_target insn Real16;
    let return_ip := mask_pc (next_ip insn) Real16 in
    sp ← read_reg Rsp;
    new_sp ← fresh;
    push (Sub new_sp sp (Imm 2) 8 FM_NONE);;
    emit_sp_wrap new_sp Real16;;
    store_addr ← stack_addr (TempV new_sp) Real16;
    push (Store store_addr (Imm return_ip) 2 OrderNone);;
    push (WriteReg Rsp (TempV new_sp) 2);;
    push (Jump target).

(** The immediate of [ret imm16], 0 without one. *)
Definition pop_extra_of insn : Z := if 0 <? op_count insn then immediate16 insn else 0.

Definition lift_ret_real16 insn : L unit :=
  if is_far_flow insn then unsupported insn
  else
    let pop_extra := pop_extra_of insn in
    sp ← read_reg Rsp;
    load_addr ← stack_addr sp Real16;
    ip ← fresh;
    push (Load ip load_addr 2);;
    new_sp ← fresh;
    push (Add new_sp sp (Imm (2 + pop_extra)) 8 FM_NONE);;
    emit_sp_wrap new_sp Real16;;
    push (WriteReg Rsp (TempV new_sp) 2);;
    push (Jump (TempV ip)).

Definition far_target insn : L (Val * Val) :=
  match op_kind insn 0 with
  | OpKind.FarBranch16 => mret (Imm (far_branch_selector insn), Imm (far_branch16 insn))
  | OpKind.Memory =>
      addr ← effective_address insn;
      ip_t ← fresh;
      push (Load ip_t addr 2);;
      cs_addr ← add_addr addr (Imm 2);
      cs_t ← fresh;
      push (Load cs_t cs_addr 2);;
      mret (TempV cs_t, TempV ip_t)
  | _ => unsupported insn
  end.

Definition lift_far_jmp_real16 insn : L unit :=
  '(cs, ip) ← far_target insn; push (FarJump cs ip).

Definition lift_far_call_real16 insn : L unit :=
  '(cs, ip) ← far_target insn;
  let ret_ip := wrap 16 (mask_pc (next_ip insn) Real16) in
  push (FarCall cs ip ret_ip).

Definition lift_retf_real16 insn : L unit := push (FarRet (pop_extra_of insn)).

Definition lift_loop_real16 insn (kind : LoopKind) : L unit :=
  push (LoopCx kind (mask_pc (near_branch_target insn) Real16) (mask_pc (next_ip insn) Real16)).

(** ** Strings *)

Definition seg_base_shl4 (seg : Reg) : L Val :=
  sel ← read_reg seg; alu_none (fun dst => Shl dst sel (Imm 4) 8 FM_NONE).

Definition lift_string insn (op : StrOp) (elem : Z) mode : L bool :=
  let f3 := has_rep_prefix insn || has_repe_prefix insn in
  let f2 := has_repne_prefix insn in
  let rep :=
    match op with
    | Scas | Cmps => if f2 then Repne else if f3 then Repe else RepNone
    | _ => if f3 then Rep else RepNone
    end in
  let idx_reg := memory_base insn in
  let addr_bits := if register_size idx_reg =? 2 then 16 else if register_size idx_reg =? 4 then 32 else 64 in
  let reads_ds_source := match op with Movs | Lods | Cmps => true | _ => false end in
  if wraps_16 mode then
    let rep := match op with Movs | Stos | Lods => if f2 then Rep else rep | _ => rep end in
    let src_seg := default Ds (iced_segment_reg (memory_segment insn)) in
    ds_base ← seg_base_shl4 src_seg;
    es_base ← seg_base_shl4 Es;
    push (RepStringReal op elem rep ds_base es_base);;
    mret false
  else
    seg_base ← (if reads_ds_source then
                  if segment_prefix insn =? FS then read_reg FsBase
                  else if segment_prefix insn =? GS then read_reg GsBase
                  else mret (Imm 0)
                else mret (Imm 0));
    push (RepString op elem rep addr_bits seg_base);;
    mret false.

(** ** x87 *)

(** The highest ST register among the first [n] operands. *)
Fixpoint st_operand insn (n : nat) : option Z :=
  match n with
  | O => None
  | S n =>
      let idx := st_operand insn n in
      let r := op_register insn (Z.of_nat n) in
      if (ST0 <=? r) && (r <=? ST7) then
        let k := wrap 8 (r - ST0) in
        Some (match idx with None => k | Some c => Z.max c k end)
      else idx
  end.
Definition st_index insn : Z := default 1 (st_operand insn (Z.to_nat (op_count insn))).
Definition dst_is_st0 insn : bool := op_register insn 0 =? ST0.

Definition has_memory_operand insn : bool :=
  existsb (fun i => bool_decide (op_kind insn i = OpKind.Memory)) (zseq 0 (Z.to_nat (op_count insn))).

(** The kind of an x87 instruction, from its mnemonic, whether it has a memory operand and
    how wide that is. *)
Definition x87_kind insn : option FpuKind :=
  let mem := has_memory_operand insn in
  let msz := memory_size insn in
  let arith (sti to_sti f32 f64 : FpuKind) : option FpuKind :=
    Some (if negb mem then if dst_is_st0 insn then sti else to_sti
          else if msz =? 4 then f32 else f64) in
  let by_int (i16 i32 i64 : FpuKind) : option FpuKind :=
    Some (if msz =? 2 then i16 else if msz =? 8 then i64 else i32) in
  let only_int (i16 i32 : FpuKind) : option FpuKind :=
    if msz =? 2 then Some i16 else if msz =? 4 then Some i32 else None in
  match mnemonic insn with
  | Mnemonic.Fld =>
      Some (if mem then if msz =? 4 then FldF32 else if msz =? 10 then FldF80 else FldF64 else FldSti)
  | Mnemonic.Fild => by_int FildI16 FildI32 FildI64
  | Mnemonic.Fst => Some (if negb mem then FstSti else if msz =? 4 then FstF32 else FstF64)
  | Mnemonic.Fstp =>
      Some (if negb mem then FstpSti else if msz =? 4 then FstpF32 else if msz =? 10 then FstpF80 else FstpF64)
  | Mnemonic.Fistp => by_int FistpI16 FistpI32 FistpI64
  | Mnemonic.Fisttp => by_int FisttpI16 FisttpI32 FisttpI64
  | Mnemonic.Fadd => arith FaddSti FaddToSti FaddMemF32 FaddMemF64
  | Mnemonic.Faddp => Some FaddP
  | Mnemonic.Fsub => arith FsubSti FsubToSti FsubMemF32 FsubMemF64
  | Mnemonic.Fsubp => Some FsubP
  | Mnemonic.Fsubr => arith FsubrSti FsubrToSti FsubrMemF32 FsubrMemF64
  | Mnemonic.Fsubrp => Some FsubrP
  | Mnemonic.Fmul => arith FmulSti FmulToSti FmulMemF32 FmulMemF64
  | Mnemonic.Fmulp => Some FmulP
  | Mnemonic.Fdiv => arith FdivSti FdivToSti FdivMemF32 FdivMemF64
  | Mnemonic.Fdivp => Some FdivP
  | Mnemonic.Fdivr => arith FdivrSti FdivrToSti FdivrMemF32 FdivrMemF64
  | Mnemonic.Fdivrp => Some FdivrP
  | Mnemonic.Ficom => only_int FicomI16 FicomI32
  | Mnemonic.Ficomp => only_int FicompI16 FicompI32
  | Mnemonic.Fiadd => only_int FiaddMemI16 FiaddMemI32
  | Mnemonic.Fimul => only_int FimulMemI16 FimulMemI32
  | Mnemonic.Fisub => only_int FisubMemI16 FisubMemI32
  | Mnemonic.Fisubr => only_int FisubrMemI16 FisubrMemI32
  | Mnemonic.Fidiv => only_int FidivMemI16 FidivMemI32
  | Mnemonic.Fidivr => only_int FidivrMemI16 FidivrMemI32
  | Mnemonic.Fld1 => Some Fld1
  | Mnemonic.Fldz => Some Fldz
  | Mnemonic.Fabs => Some Fabs
  | Mnemonic.Fchs => Some Fchs
  | Mnemonic.Fxch => Some Fxch
  | Mnemonic.Fucomi => Some Fucomi
  | Mnemonic.Fucomip => Some Fucomip
  | Mnemonic.Fcomi => Some Fcomi
  | Mnemonic.Fcomip => Some Fcomip
  | Mnemonic.Fldcw => Some Fldcw
  | Mnemonic.Fnstcw => Some Fnstcw
  | Mnemonic.Fnstsw => Some (if mem then FnstswMem else Fnstsw)
  | Mnemonic.Fnstenv | Mnemonic.Fstenv => if negb (msz =? 28) then None else Some Fnstenv
  | Mnemonic.Fldenv => if negb (msz =? 28) then None else Some Fldenv
  | Mnemonic.Fprem => Some Fprem
  | Mnemonic.Fsin => Some Fsin
  | Mnemonic.Fcos => Some Fcos
  | Mnemonic.Fptan => Some Fptan
  | Mnemonic.Fpatan => Some Fpatan
  | Mnemonic.F2xm1 => Some F2xm1
  | Mnemonic.Fyl2x => Some Fyl2x
  | Mnemonic.Fyl2xp1 => Some Fyl2xp1
  | Mnemonic.Fsincos => Some Fsincos
  | Mnemonic.Fninit | Mnemonic.Finit => Some Fninit
  | Mnemonic.Fnclex | Mnemonic.Fclex => Some Fnclex
  | _ => None
  end.

(** [fnstsw ax] carries no operand at all. *)
Definition lift_x87 insn : L unit :=
  kind ← or_unsupported insn (x87_kind insn);
  match kind with
  | Fnstsw => push (X87 Fnstsw (Imm 0) 0)
  | _ =>
      addr ← (if has_memory_operand insn then effective_address insn else mret (Imm 0));
      push (X87 kind addr (st_index insn))
  end.

(** ** Segment registers and the other real-mode forms *)

Definition lift_mov_sreg_real16 insn : L bool :=
  match sreg_operand insn 0 with
  | Some seg =>
      if decide (seg = Cs) then push (IntGate 6 (mask_pc (insn_ip insn) Real16));; mret true
      else src ← lower_read insn 1; push (WriteReg seg src 2);; mret false
  | None =>
      seg ← or_unsupported insn (sreg_operand insn 1);
      sel ← read_reg seg;
      dst ← lower_write_target insn 0;
      emit_write dst sel;;
      mret false
  end.

Definition lift_xlat_real16 insn : L unit :=
  let seg := default Ds (iced_segment_reg (memory_segment insn)) in
  sel ← read_reg seg;
  base ← alu_none (fun dst => Shl dst sel (Imm 4) 8 FM_NONE);
  bx ← read_reg Rbx;
  bx ← alu_none (fun dst => And dst bx (Imm 0xFFFF) 8 FM_NONE);
  ax ← read_reg Rax;
  al ← alu_none (fun dst => And dst ax (Imm 0xFF) 8 FM_NONE);
  sum ← alu_none (fun dst => Add dst bx al 8 FM_NONE);
  off ← alu_none (fun dst => And dst sum (Imm 0xFFFF) 8 FM_NONE);
  addr ← add_addr base off;
  v ← fresh;
  push (Load v addr 1);;
  push (WriteReg Rax (TempV v) 1).

Definition lift_bound_real16 insn : L unit :=
  if negb (operand_size insn 0 =? 2) then unsupported insn
  else
    reg ← or_unsupported insn (iced_to_reg (op_register insn 0));
    index ← read_reg reg;
    addr ← effective_address insn;
    lower ← fresh;
    push (Load lower addr 2);;
    upper_addr ← add_addr addr (Imm 2);
    upper ← fresh;
    push (Load upper upper_addr 2);;
    push (BoundGate index (TempV lower) (TempV upper) (mask_pc (insn_ip insn) Real16) (mask_pc (next_ip insn) Real16)).

Definition lift_load_far_ptr_real16 insn (seg : Reg) : L unit :=
  assertL (bool_decide (op_kind insn 1 = OpKind.Memory));;
  dst ← or_unsupported insn (iced_to_reg (op_register insn 0));
  addr ← effective_address insn;
  off ← fresh;
  push (Load off addr 2);;
  sel_addr ← add_addr addr (Imm 2);
  sel ← fresh;
  push (Load sel sel_addr 2);;
  push (WriteReg dst (TempV off) 2);;
  push (WriteReg seg (TempV sel) 2).

Definition lift_leave_real16 (_insn : Instruction) : L unit :=
  bp ← read_reg Rbp;
  bp16 ← alu_none (fun dst => And dst bp (Imm 0xFFFF) 8 FM_NONE);
  load_addr ← stack_addr bp16 Real16;
  val ← fresh;
  push (Load val load_addr 2);;
  new_sp ← alu_none (fun dst => Add dst bp16 (Imm 2) 8 FM_NONE);
  push (WriteReg Rsp new_sp 2);;
  push (WriteReg Rbp (TempV val) 2).
End LiftCtl.
