(* ===== verification/LiftVec.v ===== *)
(** * Lowering the vector instructions (x86jit-core/src/lift/vector.rs)

    One definition per lowering of lift/vector.rs.  [otherwise] is the rest of a function
    where several branches fall through to it. *)

From S2P Require Import Prelude State Ir VecOps VecOp Block Lift Insn.

(** [op as u8] *)
Definition GfniOp_as_u8 (op : GfniOp) : Z := match op with Mulb => 0 | AffineQb => 1 | AffineInvQb => 2 end.
#[global] Instance GfniOp_eq_dec : EqDecision GfniOp.
Proof. solve_decision. Defined.
#[global] Instance VpUnaryOp_eq_dec : EqDecision VpUnaryOp.
Proof. solve_decision. Defined.
#[global] Instance FPrec_eq_dec : EqDecision FPrec.
Proof. solve_decision. Defined.
#[global] Instance PackedCvtKind_eq_dec : EqDecision PackedCvtKind.
Proof. solve_decision. Defined.
#[global] Instance ShaOp_eq_dec : EqDecision ShaOp.
Proof. solve_decision. Defined.

Section LiftVec.
Context `{InsnView}.
Implicit Types (insn : Instruction).

Definition lift_vmov insn (size : Z) : L unit :=
  let x0 := reg_xmm insn 0 in
  let x1 := reg_xmm insn 1 in
  let k0 := op_kind insn 0 in
  let k1 := op_kind insn 1 in
  let otherwise :=
    match x1 with
    | Some s =>
        if bool_decide (k0 = OpKind.Memory) then
          addr ← effective_address insn;
          vpush (VStore addr s size)
        else if bool_decide (k0 = OpKind.Register) then
          t ← fresh;
          vpush (VToGpr t s size);;
          dst ← lower_write_target insn 0;
          emit_write dst (TempV t)
        else
          unsupported insn
    | _ => unsupported insn
    end in
  match x0 with
  | Some d =>
      if bool_decide (k1 = OpKind.Memory) then
        addr ← effective_address insn;
        vpush (VLoad d addr size)
      else
        match x1 with
        | Some s =>
            if bool_decide (size = 16) then vpush (VMov d s)
            else
              t ← fresh;
              vpush (VToGpr t s size);;
              vpush (VFromGpr d (TempV t) size)
        | _ =>
            if bool_decide (k1 = OpKind.Register) then
              g ← lower_read insn 1;
              vpush (VFromGpr d g size)
            else
              otherwise
        end
  | _ => otherwise
  end.

Definition lift_vmov_vex insn (size : Z) : L unit :=
  lift_vmov insn size;;
  match reg_xmm insn 0 with
  | Some d => vpush (VZeroUpper d)
  | _ => mret tt
  end.

Definition lift_broadcast insn (elem : Z) : L unit :=
  '(dst, width) ← (match reg_zmm insn 0 with
    | Some z => mret (z, 64)
    | _ =>
        match reg_ymm insn 0 with
        | Some y => mret (y, 32)
        | _ =>
            match reg_xmm insn 0 with
            | Some x => mret (x, 16)
            | _ => unsupported insn
            end
        end
    end : L _);
  if bool_decide (op_kind insn 1 = OpKind.Register) && negb (is_xmm (op_register insn 1)) then
    if evex_is_masked insn then unsupported insn
    else
      src ← lower_read insn 1;
      vpush (VBroadcastGpr dst src elem width)
  else if (bool_decide (width = 64) && negb (evex_is_masked insn)) && bool_decide (op_kind insn 1 = OpKind.Memory) then
    addr ← effective_address insn;
    t ← fresh;
    push (Load t addr elem);;
    vpush (VBroadcastGpr dst (TempV t) elem width)
  else
    let otherwise :=
      if bool_decide (width = 64) || evex_is_masked insn then unsupported insn
      else
        let w256 := bool_decide (width = 32) in
        match reg_xmm insn 1 with
        | Some src => vpush (VBroadcast dst src elem w256)
        | None =>
            if bool_decide (op_kind insn 1 = OpKind.Memory) then
              addr ← effective_address insn;
              vpush (VBroadcastM dst addr elem w256)
            else
              unsupported insn
        end in
    if bool_decide (width = 64) && negb (evex_is_masked insn) then
      match reg_xmm insn 1 with
      | Some src =>
          t ← fresh;
          vpush (VToGpr t src 8);;
          vpush (VBroadcastGpr dst (TempV t) elem width)
      | _ => otherwise
      end
    else
      otherwise.

Definition lift_broadcast_lane insn (chunk : Z) (elem : Z) : L unit :=
  '(dst, dst_width) ← or_unsupported insn (vec_operand insn 0);
  let writemask := evex_writemask insn in
  let zeroing := zeroing_masking insn in
  if bool_decide (op_kind insn 1 = OpKind.Memory) then
    addr ← effective_address insn;
    vpush (VBroadcastLaneM dst addr chunk elem dst_width writemask zeroing)
  else
    src ← or_unsupported insn (vec_operand_reg insn 1);
    vpush (VBroadcastLane dst src chunk elem dst_width writemask zeroing).

Definition lift_vpacked_shift_avx insn (lane : Z) (right_ : bool) (arith : bool) : L unit :=
  if negb (is_immediate (op_kind insn 2)) then
    '(dst, bytes) ← or_unsupported insn (vec_operand insn 0);
    '(a, _) ← or_unsupported insn (vec_operand insn 1);
    count ← or_unsupported insn (vec_operand_reg insn 2);
    vpush (VShiftReg dst a count lane right_ arith (default 0%nat (evex_writemask insn)) (zeroing_masking insn) bytes);;
    if bool_decide (bytes = 16) then vpush (VZeroUpper dst) else mret tt
  else
    let imm := wrap 8 (immediate insn 2) in
    let writemask := evex_writemask insn in
    '(dst, bytes) ← or_unsupported insn (vec_operand insn 0);
    let mem_src := bool_decide (op_kind insn 1 = OpKind.Memory) in
    let otherwise :=
      if ((64 <=? bytes) || is_some writemask) || zeroing_masking insn then
        a ← (if mem_src then
            mret dst
          else
            t6 ← or_unsupported insn (vec_operand insn 1);
            mret (fst t6) : L _);
        vpush (VMaskedShift dst a imm lane right_ arith (default 0%nat writemask) (zeroing_masking insn) bytes)
      else
        d ← or_unsupported insn (reg_vec insn 0);
        a ← (if mem_src then
            mret d
          else
            t4 ← or_unsupported insn (reg_vec insn 1);
            mret t4 : L _);
        if is_some (reg_ymm insn 0) then vpush (VPackedShift256 d a imm lane right_ arith)
        else
          vpush (VPackedShift d a imm lane right_ arith);;
          vpush (VZeroUpper d) in
    if mem_src then
      if is_some writemask || zeroing_masking insn then unsupported insn
      else
        addr ← effective_address insn;
        vpush (VLoadWide dst addr bytes);;
        otherwise
    else
      otherwise.

Definition lift_vshift_var insn (elem : Z) (right_ : bool) (arith : bool) : L unit :=
  '(dst, bytes) ← or_unsupported insn (vec_operand insn 0);
  '(a, _) ← or_unsupported insn (vec_operand insn 1);
  count ← or_unsupported insn (vec_operand_reg insn 2);
  vpush (VShiftVar dst a count elem right_ arith (default 0%nat (evex_writemask insn)) (zeroing_masking insn) bytes).

Definition lift_vgfni_wide insn (op : GfniOp) (dst : nat) (bytes : Z) : L unit :=
  '(a, _) ← or_unsupported insn (vec_operand insn 1);
  let imm := (if bool_decide (op = Mulb) then 0 else wrap 8 (immediate insn 3)) in
  let k := default 0%nat (evex_writemask insn) in
  let zeroing := zeroing_masking insn in
  let mode := GfniOp_as_u8 op in
  if bool_decide (op_kind insn 2 = OpKind.Memory) then
    addr ← effective_address insn;
    vpush (VGf2p8M dst a addr imm mode k zeroing bytes)
  else
    b ← or_unsupported insn (vec_operand_reg insn 2);
    vpush (VGf2p8 dst a b imm mode k zeroing bytes).

Definition lift_vlogic_vex insn (op : VLogicOp) : L unit :=
  d ← or_unsupported insn (reg_xmm insn 0);
  a ← or_unsupported insn (reg_xmm insn 1);
  vec_src_dispatch insn reg_xmm 2
    (fun b => vpush (VLogic d a b op))
    (fun addr => (if negb (bool_decide (d = a)) then
         vpush (VMov d a)
       else
         mret tt);;
      vpush (VLogicM d addr op));;
  vpush (VZeroUpper d).

Definition lift_vlogic_avx insn (op : VLogicOp) : L unit :=
  match reg_ymm insn 0 with
  | None => lift_vlogic_vex insn op
  | Some d =>
      a ← or_unsupported insn (reg_ymm insn 1);
      vec_src_dispatch insn reg_ymm 2
        (fun b => vpush (VLogic256 d a b op))
        (fun addr => vpush (VLogic256M d a addr op))
  end.

Definition lift_vpacked_bin_vex insn (lane : Z) (op : PackedBinOp) : L unit :=
  d ← or_unsupported insn (reg_xmm insn 0);
  a ← or_unsupported insn (reg_xmm insn 1);
  vec_src_dispatch insn reg_xmm 2
    (fun b => vpush (VPackedBin d a b lane op))
    (fun addr => (if negb (bool_decide (d = a)) then
         vpush (VMov d a)
       else
         mret tt);;
      vpush (VPackedBinM d addr lane op));;
  vpush (VZeroUpper d).

Definition lift_vpacked_bin_avx insn (lane : Z) (op : PackedBinOp) : L unit :=
  match evex_writemask insn with
  | Some k =>
      '(dst, bytes) ← or_unsupported insn (vec_operand insn 0);
      '(a, _) ← or_unsupported insn (vec_operand insn 1);
      '(b, _) ← or_unsupported insn (vec_operand insn 2);
      vpush (VMaskedPacked dst a b op k lane (zeroing_masking insn) bytes)
  | _ =>
      match reg_zmm insn 0 with
      | Some d =>
          if evex_is_masked insn then unsupported insn
          else
            a ← or_unsupported insn (reg_zmm insn 1);
            vec_src_dispatch insn reg_zmm 2
              (fun b => vpush (VPackedWide d a b lane op 64))
              (fun addr => vpush (VPackedWideM d a addr lane op 64))
      | _ =>
          match reg_ymm insn 0 with
          | None => lift_vpacked_bin_vex insn lane op
          | Some d =>
              a ← or_unsupported insn (reg_ymm insn 1);
              vec_src_dispatch insn reg_ymm 2
                (fun b => vpush (VPackedBin256 d a b lane op))
                (fun addr => vpush (VPackedBin256M d a addr lane op))
          end
      end
  end.

Definition lift_vmov_avx insn (elem : Z) : L unit :=
  if evex_is_masked insn then
    match evex_writemask insn with
    | None => unsupported insn
    | Some k =>
        match (vec_operand insn 0, vec_operand insn 1) with
        | (Some (dst, bytes), Some (src, _)) => vpush (VMaskMov dst src k elem (zeroing_masking insn) bytes)
        | (Some (dst, bytes), None) =>
            if bool_decide (op_kind insn 1 = OpKind.Memory) then
              addr ← effective_address insn;
              vpush (VMaskLoadMem dst addr k elem (zeroing_masking insn) bytes)
            else
              unsupported insn
        | (None, Some (src, bytes)) =>
            if bool_decide (op_kind insn 0 = OpKind.Memory) then
              addr ← effective_address insn;
              vpush (VMaskStoreMem src addr k elem bytes)
            else
              unsupported insn
        | _ => unsupported insn
        end
    end
  else
    let z0 := reg_zmm insn 0 in
    let z1 := reg_zmm insn 1 in
    if is_some z0 || is_some z1 then
      let k0 := op_kind insn 0 in
      let k1 := op_kind insn 1 in
      let otherwise :=
        match z1 with
        | Some s =>
            if bool_decide (k0 = OpKind.Memory) then
              addr ← effective_address insn;
              vpush (VStoreWide addr s 64)
            else
              unsupported insn
        | _ => unsupported insn
        end in
      match z0 with
      | Some d =>
          if bool_decide (k1 = OpKind.Memory) then
            addr ← effective_address insn;
            vpush (VLoadWide d addr 64)
          else
            match z1 with
            | Some s => vpush (VMovWide d s 64)
            | _ => otherwise
            end
      | _ => otherwise
      end
    else
      let y0 := reg_ymm insn 0 in
      let y1 := reg_ymm insn 1 in
      if is_none y0 && is_none y1 then lift_vmov_vex insn 16
      else
        let k0 := op_kind insn 0 in
        let k1 := op_kind insn 1 in
        let otherwise :=
          match y1 with
          | Some s =>
              if bool_decide (k0 = OpKind.Memory) then
                addr ← effective_address insn;
                vpush (VStoreWide addr s 32)
              else
                unsupported insn
          | _ => unsupported insn
          end in
        match y0 with
        | Some d =>
            if bool_decide (k1 = OpKind.Memory) then
              addr ← effective_address insn;
              vpush (VLoadWide d addr 32)
            else
              match y1 with
              | Some s => vpush (VMovWide d s 32)
              | _ => otherwise
              end
        | _ => otherwise
        end.

Definition lift_vlogic insn (op : VLogicOp) : L unit :=
  d ← or_unsupported insn (reg_xmm insn 0);
  vec_src_dispatch insn reg_xmm 1
    (fun b => vpush (VLogic d d b op))
    (fun addr => vpush (VLogicM d addr op)).

Definition lift_vpacked_bin insn (lane : Z) (op : PackedBinOp) : L unit :=
  d ← or_unsupported insn (reg_xmm insn 0);
  vec_src_dispatch insn reg_xmm 1
    (fun b => vpush (VPackedBin d d b lane op))
    (fun addr => vpush (VPackedBinM d addr lane op)).

Definition lift_evex_packed_bin_128 insn (lane : Z) (op : PackedBinOp) : L unit :=
  if (evex_is_masked insn || is_some (reg_ymm insn 0)) || is_some (reg_zmm insn 0) then unsupported insn
  else
    lift_vpacked_bin_vex insn lane op.

Definition lift_vextract_wide insn (extract_lanes : Z) : L unit :=
  if evex_is_masked insn then unsupported insn
  else
    '(src, src_bytes) ← or_unsupported insn (vec_operand insn 1);
    let slots := ((wrap 8 src_bytes) / 16) / extract_lanes in
    let idx := Z.land (wrap 8 (immediate insn 2)) (slots - 1) in
    if bool_decide (op_kind insn 0 = OpKind.Memory) then
      addr ← effective_address insn;
      vpush (VExtractLaneWideM src addr idx extract_lanes)
    else
      dst ← or_unsupported insn (vec_operand_reg insn 0);
      vpush (VExtractLaneWide dst src idx extract_lanes).

Definition lift_vinsert_wide insn (insert_lanes : Z) : L unit :=
  if evex_is_masked insn then unsupported insn
  else
    '(dst, bytes) ← or_unsupported insn (vec_operand insn 0);
    '(src, _) ← or_unsupported insn (vec_operand insn 1);
    '(ins, _) ← or_unsupported insn (vec_operand insn 2);
    let slots := ((wrap 8 bytes) / 16) / insert_lanes in
    let idx := Z.land (wrap 8 (immediate insn 3)) (slots - 1) in
    vpush (VInsertLaneWide dst src ins idx insert_lanes bytes).

Definition lift_valign insn (elem : Z) : L unit :=
  if evex_is_masked insn then unsupported insn
  else
    '(dst, bytes) ← or_unsupported insn (vec_operand insn 0);
    '(a, _) ← or_unsupported insn (vec_operand insn 1);
    '(b, _) ← or_unsupported insn (vec_operand insn 2);
    let shift := wrap 8 (immediate insn 3) in
    vpush (VAlign dst a b shift elem bytes).

Definition lift_blendv insn (lane : Z) : L unit :=
  dst ← or_unsupported insn (reg_xmm insn 0);
  vec_src_dispatch insn reg_xmm 1
    (fun src => vpush (VPBlendV dst src lane))
    (fun addr => vpush (VPBlendVM dst addr lane)).

Definition lift_vmaskmov insn (elem : Z) : L unit :=
  mask ← or_unsupported insn (reg_vec insn 1);
  if bool_decide (op_kind insn 0 = OpKind.Memory) then
    '(src, bytes) ← or_unsupported insn (vec_operand insn 2);
    addr ← effective_address insn;
    vpush (VVecMaskStoreMem src addr mask elem bytes)
  else
    '(dst, bytes) ← or_unsupported insn (vec_operand insn 0);
    addr ← effective_address insn;
    vpush (VVecMaskLoadMem dst addr mask elem bytes).

Definition lift_vblendv insn (lane : Z) : L unit :=
  '(dst, bytes) ← or_unsupported insn (vec_operand insn 0);
  a ← or_unsupported insn (vec_operand_reg insn 1);
  mask ← or_unsupported insn (vec_operand_reg insn 3);
  vec_src_dispatch insn vec_operand_reg 2
    (fun b => vpush (VPBlendVX dst a b mask lane bytes))
    (fun addr => vpush (VPBlendVXM dst a addr mask lane bytes)).

Definition lift_blendi insn (lane : Z) : L unit :=
  dst ← or_unsupported insn (reg_xmm insn 0);
  let imm := wrap 8 (immediate insn 2) in
  vec_src_dispatch insn reg_xmm 1
    (fun b => vpush (VBlendI dst dst b imm lane 16))
    (fun addr => vpush (VBlendIM dst dst addr imm lane 16)).

Definition lift_vblendi insn (lane : Z) : L unit :=
  '(dst, bytes) ← or_unsupported insn (vec_operand insn 0);
  a ← or_unsupported insn (vec_operand_reg insn 1);
  let imm := wrap 8 (immediate insn 3) in
  vec_src_dispatch insn vec_operand_reg 2
    (fun b => vpush (VBlendI dst a b imm lane bytes))
    (fun addr => vpush (VBlendIM dst a addr imm lane bytes));;
  if bool_decide (bytes = 16) then vpush (VZeroUpper dst) else mret tt.

Definition lift_round insn (prec : FPrec) (scalar : bool) : L unit :=
  dst ← or_unsupported insn (reg_xmm insn 0);
  let mode := wrap 8 (immediate insn 2) in
  vec_src_dispatch insn reg_xmm 1
    (fun src => vpush (VPRound dst dst src prec mode scalar 16))
    (fun addr => vpush (VPRoundM dst addr prec mode scalar 16)).

Definition lift_vround insn (prec : FPrec) : L unit :=
  let mode := wrap 8 (immediate insn 2) in
  match reg_ymm insn 0 with
  | Some dst =>
      vec_src_dispatch insn reg_ymm 1
        (fun src => vpush (VPRound dst dst src prec mode false 32))
        (fun addr => vpush (VPRoundM dst addr prec mode false 32))
  | _ =>
      dst ← or_unsupported insn (reg_xmm insn 0);
      vec_src_dispatch insn reg_xmm 1
        (fun src => vpush (VPRound dst dst src prec mode false 16))
        (fun addr => vpush (VPRoundM dst addr prec mode false 16));;
      vpush (VZeroUpper dst)
  end.

Definition lift_vround_scalar insn (prec : FPrec) : L unit :=
  dst ← or_unsupported insn (reg_xmm insn 0);
  a ← or_unsupported insn (reg_xmm insn 1);
  let mode := wrap 8 (immediate insn 3) in
  vec_src_dispatch insn reg_xmm 2
    (fun src => vpush (VPRound dst a src prec mode true 16))
    (fun addr => (if negb (bool_decide (dst = a)) then
         vpush (VMov dst a)
       else
         mret tt);;
      vpush (VPRoundM dst addr prec mode true 16));;
  vpush (VZeroUpper dst).

Definition lift_pcmpstr_idx insn (explicit : bool) : L unit :=
  a ← or_unsupported insn (reg_xmm insn 0);
  let imm := wrap 8 (immediate insn 2) in
  match reg_xmm insn 1 with
  | Some b => vpush (VPcmpStr a b imm explicit)
  | _ =>
      addr ← effective_address insn;
      vpush (VPcmpStrM a addr imm explicit)
  end.

Definition lift_pcmpstr_mask insn (explicit : bool) : L unit :=
  a ← or_unsupported insn (reg_xmm insn 0);
  let imm := wrap 8 (immediate insn 2) in
  match reg_xmm insn 1 with
  | Some b => vpush (VPcmpStrMask a b imm explicit)
  | _ =>
      addr ← effective_address insn;
      vpush (VPcmpStrMaskM a addr imm explicit)
  end.

Definition lift_insertps insn : L unit :=
  dst ← or_unsupported insn (reg_xmm insn 0);
  let imm := wrap 8 (immediate insn 2) in
  vec_src_dispatch insn reg_xmm 1
    (fun src => vpush (VInsertPs dst src imm))
    (fun addr => vpush (VInsertPsM dst addr imm)).

Definition lift_vinsertps insn : L unit :=
  dst ← or_unsupported insn (reg_xmm insn 0);
  a ← or_unsupported insn (reg_xmm insn 1);
  let imm := wrap 8 (immediate insn 3) in
  vec_src_dispatch insn reg_xmm 2
    (fun src => vpush (VInsertPs3 dst a src imm))
    (fun addr => vpush (VInsertPsM3 dst a addr imm));;
  vpush (VZeroUpper dst).

Definition lift_dpps insn : L unit :=
  dst ← or_unsupported insn (reg_xmm insn 0);
  let imm := wrap 8 (immediate insn 2) in
  vec_src_dispatch insn reg_xmm 1
    (fun b => vpush (VDpps dst dst b imm 16))
    (fun addr => vpush (VDppsM dst addr imm 16)).

Definition lift_dppd insn : L unit :=
  dst ← or_unsupported insn (reg_xmm insn 0);
  let imm := wrap 8 (immediate insn 2) in
  vec_src_dispatch insn reg_xmm 1
    (fun b => vpush (VDppd dst b imm))
    (fun addr => vpush (VDppdM dst addr imm)).

Definition lift_vdp insn (prec : FPrec) : L unit :=
  dst ← or_unsupported insn (reg_xmm insn 0);
  a ← or_unsupported insn (reg_xmm insn 1);
  let imm := wrap 8 (immediate insn 3) in
  vec_src_dispatch insn reg_xmm 2
    (fun b => vpush (VDp3 dst a b imm prec))
    (fun addr => vpush (VDp3M dst a addr imm prec));;
  vpush (VZeroUpper dst).

Definition lift_vdpps insn : L unit :=
  let imm := wrap 8 (immediate insn 3) in
  match reg_ymm insn 0 with
  | Some dst =>
      a ← or_unsupported insn (reg_ymm insn 1);
      vec_src_dispatch insn reg_ymm 2
        (fun b => vpush (VDpps dst a b imm 32))
        (fun addr => (if negb (bool_decide (dst = a)) then
             vpush (VMov256 dst a)
           else
             mret tt);;
          vpush (VDppsM dst addr imm 32))
  | _ =>
      dst ← or_unsupported insn (reg_xmm insn 0);
      a ← or_unsupported insn (reg_xmm insn 1);
      vec_src_dispatch insn reg_xmm 2
        (fun b => vpush (VDpps dst a b imm 16))
        (fun addr => (if negb (bool_decide (dst = a)) then
             vpush (VMov dst a)
           else
             mret tt);;
          vpush (VDppsM dst addr imm 16));;
      vpush (VZeroUpper dst)
  end.

Definition lift_vrndscale insn (prec : FPrec) : L unit :=
  if evex_is_masked insn then unsupported insn
  else
    let imm := wrap 8 (immediate insn 3) in
    if negb (bool_decide (Z.shiftr imm 4 = 0)) then unsupported insn
    else
      dst ← or_unsupported insn (reg_xmm insn 0);
      a ← or_unsupported insn (reg_xmm insn 1);
      let mode := Z.land imm 0x0f in
      vec_src_dispatch insn reg_xmm 2
        (fun src => vpush (VPRound dst a src prec mode true 16))
        (fun addr => (if negb (bool_decide (dst = a)) then
             vpush (VMov dst a)
           else
             mret tt);;
          vpush (VPRoundM dst addr prec mode true 16));;
      vpush (VZeroUpper dst).

Definition lift_pmovx insn (from : Z) (to : Z) (signed : bool) : L unit :=
  dst ← or_unsupported insn (reg_xmm insn 0);
  vec_src_dispatch insn reg_xmm 1
    (fun src => vpush (VPMovExtend dst src from to signed))
    (fun addr => vpush (VPMovExtendM dst addr from to signed)).

Definition lift_vpmovx insn (from : Z) (to : Z) (signed : bool) : L unit :=
  '(dst, dst_width) ← or_unsupported insn (vec_operand insn 0);
  if (16 <? dst_width) || evex_is_masked insn then
    src ← or_unsupported insn (vec_operand_reg insn 1);
    vpush (VPMovExtendWide dst src from to signed dst_width (evex_writemask insn) (zeroing_masking insn))
  else
    lift_pmovx insn from to signed;;
    vpush (VZeroUpper dst).

Definition lift_vpabs insn (elem : Z) : L unit :=
  '(dst, dst_width) ← or_unsupported insn (vec_operand insn 0);
  src ← or_unsupported insn (vec_operand_reg insn 1);
  vpush (VPAbs dst src elem dst_width (evex_writemask insn) (zeroing_masking insn)).

Definition lift_vp_unary_lane insn (op : VpUnaryOp) (elem : Z) : L unit :=
  '(dst, dst_width) ← or_unsupported insn (vec_operand insn 0);
  src ← or_unsupported insn (vec_operand_reg insn 1);
  let imm := (if bool_decide (op = Rol_) then wrap 8 (immediate insn 2) else 0) in
  vpush (VpUnaryLane dst src op imm elem dst_width (evex_writemask insn) (zeroing_masking insn)).

Definition lift_vp_blendm insn (elem : Z) : L unit :=
  '(dst, dst_width) ← or_unsupported insn (vec_operand insn 0);
  a ← or_unsupported insn (vec_operand_reg insn 1);
  b ← (match vec_operand_reg insn 2 with
    | Some b => mret b
    | None =>
        if bool_decide (op_kind insn 2 = OpKind.Memory) && negb (bool_decide (dst = a)) then
          addr ← effective_address insn;
          vpush (VLoadWide dst addr dst_width);;
          mret dst
        else
          unsupported insn
    end : L _);
  vpush (VpBlendm dst a b (default 0%nat (evex_writemask insn)) elem dst_width (zeroing_masking insn)).

Definition lift_vshuf_lane insn (elem : Z) : L unit :=
  '(dst, dst_width) ← or_unsupported insn (vec_operand insn 0);
  a ← or_unsupported insn (vec_operand_reg insn 1);
  b ← or_unsupported insn (vec_operand_reg insn 2);
  let imm := wrap 8 (immediate insn 3) in
  vpush (VShuffLane dst a b imm elem dst_width (evex_writemask insn) (zeroing_masking insn)).

Definition lift_vp_multishift insn : L unit :=
  '(dst, dst_width) ← or_unsupported insn (vec_operand insn 0);
  ctrl ← or_unsupported insn (vec_operand_reg insn 1);
  data ← or_unsupported insn (vec_operand_reg insn 2);
  vpush (VpMultishift dst ctrl data dst_width (evex_writemask insn) (zeroing_masking insn)).

Definition lift_vpopcnt insn (lane : Z) : L unit :=
  if evex_is_masked insn then unsupported insn
  else
    '(dst, bytes) ← or_unsupported insn (vec_operand insn 0);
    vec_src_dispatch insn vec_operand_reg 1
      (fun a => vpush (VPopcnt dst a lane bytes))
      (fun addr => vpush (VPopcntM dst addr lane bytes)).

Definition lift_vperm2 insn (elem : Z) (imode : bool) : L unit :=
  '(dst, bytes) ← or_unsupported insn (vec_operand insn 0);
  idx ← or_unsupported insn (vec_operand_reg insn 1);
  let writemask := evex_writemask insn in
  let zeroing := zeroing_masking insn in
  if bool_decide (op_kind insn 2 = OpKind.Memory) then
    addr ← effective_address insn;
    vpush (VPermT2M dst idx addr elem writemask zeroing bytes imode)
  else
    tbl ← or_unsupported insn (vec_operand_reg insn 2);
    vpush (VPermT2 dst idx tbl elem writemask zeroing bytes imode).

Definition lift_vpermt2 insn (elem : Z) : L unit :=
  lift_vperm2 insn elem false.

Definition lift_vpermi2 insn (elem : Z) : L unit :=
  lift_vperm2 insn elem true.

Definition lift_vpmov_narrow insn (from : Z) (to : Z) : L unit :=
  '(src, src_width) ← or_unsupported insn (vec_operand insn 1);
  if bool_decide (op_kind insn 0 = OpKind.Memory) then
    if evex_is_masked insn then unsupported insn
    else
      addr ← effective_address insn;
      vpush (VPmovNarrowMem src addr from to src_width)
  else
    dst ← or_unsupported insn (vec_operand_reg insn 0);
    vpush (VPmovNarrow dst src from to src_width (evex_writemask insn) (zeroing_masking insn)).

Definition lift_kunpck insn (half : Z) : L unit :=
  dst ← or_unsupported insn (reg_kmask insn 0);
  a ← or_unsupported insn (reg_kmask insn 1);
  b ← or_unsupported insn (reg_kmask insn 2);
  vpush (VKUnpack dst a b half).

Definition lift_kbinop insn (op : VKLogicOp) (width : Z) : L unit :=
  dst ← or_unsupported insn (reg_kmask insn 0);
  a ← or_unsupported insn (reg_kmask insn 1);
  b ← or_unsupported insn (reg_kmask insn 2);
  vpush (VKBinOp dst a b op width).

Definition lift_knot insn (width : Z) : L unit :=
  dst ← or_unsupported insn (reg_kmask insn 0);
  a ← or_unsupported insn (reg_kmask insn 1);
  vpush (VKNot dst a width).

Definition lift_kshift insn (width : Z) (left_ : bool) : L unit :=
  dst ← or_unsupported insn (reg_kmask insn 0);
  a ← or_unsupported insn (reg_kmask insn 1);
  let amount := wrap 8 (immediate insn 2) in
  vpush (VKShift dst a amount width left_).

Definition lift_evex_vlogic insn (op : VLogicOp) (elem : Z) : L unit :=
  '(dst, bytes) ← or_unsupported insn (vec_operand insn 0);
  '(a, _) ← or_unsupported insn (vec_operand insn 1);
  match evex_writemask insn with
  | Some k =>
      '(b, _) ← or_unsupported insn (vec_operand insn 2);
      vpush (VMaskedLogic dst a b op k elem (zeroing_masking insn) bytes)
  | _ =>
      vec_src_dispatch insn vec_operand_reg 2
        (fun b => vpush (VLogicWide dst a b op bytes))
        (fun addr => vpush (VLogicWideM dst a addr op bytes))
  end.

Definition lift_vpternlog insn : L unit :=
  if evex_is_masked insn then unsupported insn
  else
    '(dst, bytes) ← or_unsupported insn (vec_operand insn 0);
    '(b, _) ← or_unsupported insn (vec_operand insn 1);
    let imm := wrap 8 (immediate insn 3) in
    vec_src_dispatch insn vec_operand_reg 2
      (fun c => vpush (VPTernlog dst b c imm bytes))
      (fun addr => vpush (VPTernlogM dst b addr imm bytes)).

Definition lift_kmov insn (width : Z) : L unit :=
  match reg_kmask insn 0 with
  | Some k =>
      match reg_kmask insn 1 with
      | Some sk => vpush (VKMovKK k sk width)
      | _ =>
          src ← lower_read insn 1;
          vpush (VKFromGpr k src width)
      end
  | _ =>
      match reg_kmask insn 1 with
      | Some k =>
          t ← fresh;
          vpush (VKToGpr t k width);;
          dst ← lower_write_target insn 0;
          emit_write dst (TempV t)
      | _ => unsupported insn
      end
  end.

Definition lift_kortest insn (width : Z) : L unit :=
  a ← or_unsupported insn (reg_kmask insn 0);
  b ← or_unsupported insn (reg_kmask insn 1);
  vpush (VKOrTest a b width).

Definition lift_vptest insn (elem : Z) (neg : bool) : L unit :=
  k ← or_unsupported insn (reg_kmask insn 0);
  '(a, width) ← or_unsupported insn (vec_operand insn 1);
  let writemask := evex_writemask insn in
  vec_src_dispatch insn vec_operand_reg 2
    (fun b => vpush (VPTestToMask k a b elem width neg writemask))
    (fun addr => vpush (VPTestToMaskM k a addr elem width neg writemask)).

Definition lift_vpcmp insn (elem : Z) (signed : bool) : L unit :=
  k ← or_unsupported insn (reg_kmask insn 0);
  '(a, width) ← or_unsupported insn (vec_operand insn 1);
  let pred := wrap 8 (immediate insn 3) in
  let writemask := evex_writemask insn in
  vec_src_dispatch insn vec_operand_reg 2
    (fun b => vpush (VPCmpToMask k a b elem width pred signed writemask))
    (fun addr => vpush (VPCmpToMaskM k a addr elem width pred signed writemask)).

Definition lift_vpcmp_fixed_or_packed insn (elem : Z) (packed : PackedBinOp) (pred : Z) (signed : bool) : L unit :=
  match reg_kmask insn 0 with
  | None => lift_vpacked_bin_avx insn elem packed
  | Some k =>
      '(a, width) ← or_unsupported insn (vec_operand insn 1);
      let writemask := evex_writemask insn in
      vec_src_dispatch insn vec_operand_reg 2
        (fun b => vpush (VPCmpToMask k a b elem width pred signed writemask))
        (fun addr => vpush (VPCmpToMaskM k a addr elem width pred signed writemask))
  end.

Definition lift_vpacked_shift insn (lane : Z) (right_ : bool) (arith : bool) : L unit :=
  d ← or_unsupported insn (reg_xmm insn 0);
  if negb (is_immediate (op_kind insn 1)) then
    count ← or_unsupported insn (reg_xmm insn 1);
    vpush (VShiftReg d d count lane right_ arith 0 false 16)
  else
    let imm := wrap 8 (immediate insn 1) in
    vpush (VPackedShift d d imm lane right_ arith).

Definition lift_byteshift insn (right_ : bool) : L unit :=
  d ← or_unsupported insn (reg_xmm insn 0);
  let shift := wrap 8 (immediate insn 1) in
  vpush (VByteShift d d shift right_ 16).

Definition lift_byteshift_avx insn (right_ : bool) : L unit :=
  '(d, width) ← or_unsupported insn (vec_operand insn 0);
  a ← or_unsupported insn (vec_operand_reg insn 1);
  let shift := wrap 8 (immediate insn 2) in
  vpush (VByteShift d a shift right_ width);;
  if bool_decide (width = 16) then vpush (VZeroUpper d) else mret tt.

Definition lift_pshufd insn : L unit :=
  d ← or_unsupported insn (reg_xmm insn 0);
  let imm := wrap 8 (immediate insn 2) in
  a ← (match reg_xmm insn 1 with
    | Some a => mret a
    | None =>
        if bool_decide (op_kind insn 1 = OpKind.Memory) then
          addr ← effective_address insn;
          vpush (VLoad d addr 16);;
          mret d
        else
          unsupported insn
    end : L _);
  vpush (VShuffle32 d a imm 16).

Definition lift_vperm1 insn (elem : Z) : L unit :=
  '(dst, bytes) ← or_unsupported insn (vec_operand insn 0);
  idx ← or_unsupported insn (vec_operand_reg insn 1);
  let writemask := evex_writemask insn in
  let zeroing := zeroing_masking insn in
  if bool_decide (op_kind insn 2 = OpKind.Memory) then
    addr ← effective_address insn;
    vpush (VPerm1M dst idx addr elem bytes writemask zeroing)
  else
    src ← or_unsupported insn (vec_operand_reg insn 2);
    vpush (VPerm1 dst idx src elem bytes writemask zeroing).

Definition lift_vpblendw insn : L unit :=
  '(dst, bytes) ← or_unsupported insn (vec_operand insn 0);
  a ← or_unsupported insn (vec_operand_reg insn 1);
  let imm := wrap 8 (immediate insn 3) in
  b ← (match vec_operand_reg insn 2 with
    | Some b => mret b
    | None =>
        if bool_decide (op_kind insn 2 = OpKind.Memory) && negb (bool_decide (dst = a)) then
          addr ← effective_address insn;
          (if 16 <? bytes then vpush (VLoadWide dst addr bytes) else vpush (VLoad dst addr 16));;
          mret dst
        else
          unsupported insn
    end : L _);
  vpush (VBlendW dst a b imm bytes);;
  if bool_decide (bytes = 16) then vpush (VZeroUpper dst) else mret tt.

Definition lift_vpack insn (from_elem : Z) (signed : bool) : L unit :=
  '(dst, bytes) ← or_unsupported insn (vec_operand insn 0);
  a ← or_unsupported insn (vec_operand_reg insn 1);
  if bool_decide (bytes = 16) && bool_decide (op_kind insn 2 = OpKind.Memory) then
    addr ← effective_address insn;
    vpush (VPackWideM dst a addr from_elem signed);;
    vpush (VZeroUpper dst)
  else
    b ← or_unsupported insn (vec_operand_reg insn 2);
    vpush (VPackWide dst a b from_elem signed bytes);;
    if bool_decide (bytes = 16) then vpush (VZeroUpper dst) else mret tt.

Definition lift_vpblendd insn : L unit :=
  '(dst, bytes) ← or_unsupported insn (vec_operand insn 0);
  a ← or_unsupported insn (vec_operand_reg insn 1);
  b ← or_unsupported insn (vec_operand_reg insn 2);
  let imm := wrap 8 (immediate insn 3) in
  vpush (VBlendD dst a b imm bytes).

Definition lift_vpshufd insn : L unit :=
  '(dst, bytes) ← or_unsupported insn (vec_operand insn 0);
  if (16 <? bytes) || evex_is_masked insn then
    a ← or_unsupported insn (vec_operand_reg insn 1);
    let imm := wrap 8 (immediate insn 2) in
    vpush (VShuffle32Wide dst a imm bytes (evex_writemask insn) (zeroing_masking insn))
  else
    lift_pshufd insn;;
    vpush (VZeroUpper dst).

Definition lift_movdup insn (imm : Z) (ddup : bool) (bytes : Z) : L unit :=
  d ← or_unsupported insn (vec_operand_reg insn 0);
  a ← (match vec_operand_reg insn 1 with
    | Some a => mret a
    | None =>
        if bool_decide (op_kind insn 1 = OpKind.Memory) then
          addr ← effective_address insn;
          (if 16 <? bytes then vpush (VLoadWide d addr bytes)
           else
             let size := (if ddup then 8 else 16) in
             vpush (VLoad d addr size));;
          mret d
        else
          unsupported insn
    end : L _);
  vpush (VShuffle32 d a imm bytes).

Definition lift_vmovdup insn (imm : Z) (ddup : bool) : L unit :=
  '(d, bytes) ← or_unsupported insn (vec_operand insn 0);
  lift_movdup insn imm ddup bytes;;
  if bool_decide (bytes = 16) then vpush (VZeroUpper d) else mret tt.

Definition lift_shufps insn : L unit :=
  d ← or_unsupported insn (reg_xmm insn 0);
  let imm := wrap 8 (immediate insn 2) in
  let imm32 := (if match mnemonic insn with Mnemonic.Shufpd => true | _ => false end then let lo := (Z.land imm 1) * 2 in let hi := (Z.land (Z.shiftr imm 1) 1) * 2 in Z.lor (Z.lor (Z.lor lo (Z.shiftl (lo + 1) 2)) (Z.shiftl hi 4)) (Z.shiftl (hi + 1) 6) else imm) in
  vec_src_dispatch insn reg_xmm 1
    (fun b => vpush (VShufps d d b imm32))
    (fun addr => vpush (VShufpsM d d addr imm32)).

Definition lift_vshufps insn : L unit :=
  let imm := wrap 8 (immediate insn 3) in
  let is_pd := match mnemonic insn with Mnemonic.Vshufpd => true | _ => false end in
  let expand_pd := (fun sh => let lo := (Z.land (Z.shiftr imm sh) 1) * 2 in let hi := (Z.land (Z.shiftr imm (sh + 1)) 1) * 2 in Z.lor (Z.lor (Z.lor lo (Z.shiftl (lo + 1) 2)) (Z.shiftl hi 4)) (Z.shiftl (hi + 1) 6)) in
  match reg_ymm insn 0 with
  | Some d =>
      a ← or_unsupported insn (reg_ymm insn 1);
      let '(imm_lo, imm_hi) := (if is_pd then (expand_pd 0, expand_pd 2) else (imm, imm)) in
      vec_src_dispatch insn reg_ymm 2
        (fun b => vpush (VShufps256 d a b imm_lo imm_hi))
        (fun addr => vpush (VShufps256M d a addr imm_lo imm_hi))
  | _ =>
      d ← or_unsupported insn (reg_xmm insn 0);
      a ← or_unsupported insn (reg_xmm insn 1);
      let imm32 := (if is_pd then expand_pd 0 else imm) in
      vec_src_dispatch insn reg_xmm 2
        (fun b => vpush (VShufps d a b imm32))
        (fun addr => vpush (VShufpsM d a addr imm32));;
      vpush (VZeroUpper d)
  end.

Definition lift_vpermil_imm insn (is_pd : bool) : L unit :=
  if negb (bool_decide (op_count insn = 3)) || negb (bool_decide (op_kind insn 2 = OpKind.Immediate8)) then
    unsupported insn
  else
    '(d, bytes) ← or_unsupported insn (vec_operand insn 0);
    let imm := wrap 8 (immediate insn 2) in
    a ← (match vec_operand_reg insn 1 with
      | Some a => mret a
      | None =>
          if bool_decide (op_kind insn 1 = OpKind.Memory) then
            addr ← effective_address insn;
            (if 16 <? bytes then vpush (VLoadWide d addr bytes) else vpush (VLoad d addr 16));;
            mret d
          else
            unsupported insn
      end : L _);
    let pd_dsel := (fun bits => let s0 := (Z.land bits 1) * 2 in let s1 := (Z.land (Z.shiftr bits 1) 1) * 2 in Z.lor (Z.lor (Z.lor s0 (Z.shiftl (s0 + 1) 2)) (Z.shiftl s1 4)) (Z.shiftl (s1 + 1) 6)) in
    if is_pd && (16 <? bytes) then vpush (VShufps256 d a a (pd_dsel imm) (pd_dsel (Z.shiftr imm 2)))
    else
      let imm32 := (if is_pd then pd_dsel imm else imm) in
      vpush (VShuffle32 d a imm32 bytes);;
      if bool_decide (bytes = 16) then vpush (VZeroUpper d) else mret tt.

Definition lift_vpermil_var insn (elem : Z) : L unit :=
  '(dst, bytes) ← or_unsupported insn (vec_operand insn 0);
  src ← or_unsupported insn (vec_operand_reg insn 1);
  ctrl ← or_unsupported insn (vec_operand_reg insn 2);
  vpush (VPermilVar dst src ctrl elem bytes).

Definition lift_pshufw insn (high : bool) (vex : bool) : L unit :=
  '(d, bytes) ← or_unsupported insn (vec_operand insn 0);
  a ← or_unsupported insn (vec_operand_reg insn 1);
  let imm := wrap 8 (immediate insn 2) in
  vpush (VShuffle16 d a imm high bytes);;
  if vex && bool_decide (bytes = 16) then vpush (VZeroUpper d) else mret tt.

Definition lift_vunpack insn (lane : Z) (high : bool) : L unit :=
  d ← or_unsupported insn (reg_xmm insn 0);
  vec_src_dispatch insn reg_xmm 1
    (fun b => vpush (VUnpackLow d d b lane high))
    (fun addr => vpush (VUnpackLowM d d addr lane high)).

Definition lift_vunpack_avx insn (lane : Z) (high : bool) : L unit :=
  match reg_ymm insn 0 with
  | Some d =>
      a ← or_unsupported insn (reg_ymm insn 1);
      vec_src_dispatch insn reg_ymm 2
        (fun b => vpush (VUnpack256 d a b lane high))
        (fun addr => vpush (VUnpack256M d a addr lane high))
  | _ =>
      d ← or_unsupported insn (reg_xmm insn 0);
      a ← or_unsupported insn (reg_xmm insn 1);
      vec_src_dispatch insn reg_xmm 2
        (fun b => vpush (VUnpackLow d a b lane high))
        (fun addr => vpush (VUnpackLowM d a addr lane high));;
      vpush (VZeroUpper d)
  end.

Definition lift_aes insn (op : AesOp) : L unit :=
  d ← or_unsupported insn (reg_xmm insn 0);
  vec_src_dispatch insn reg_xmm 1
    (fun b => vpush (VAes d d b op))
    (fun addr => vpush (VAesM d d addr op)).

Definition lift_vaes insn (op : AesOp) : L unit :=
  d ← or_unsupported insn (reg_xmm insn 0);
  a ← or_unsupported insn (reg_xmm insn 1);
  vec_src_dispatch insn reg_xmm 2
    (fun b => vpush (VAes d a b op))
    (fun addr => vpush (VAesM d a addr op));;
  vpush (VZeroUpper d).

Definition lift_aes_imc insn (vex : bool) : L unit :=
  d ← or_unsupported insn (reg_xmm insn 0);
  vec_src_dispatch insn reg_xmm 1
    (fun src => vpush (VAesImc d src))
    (fun addr => vpush (VAesImcM d addr));;
  if vex then vpush (VZeroUpper d) else mret tt.

Definition lift_aes_keygen insn (vex : bool) : L unit :=
  d ← or_unsupported insn (reg_xmm insn 0);
  let imm := wrap 8 (immediate insn 2) in
  vec_src_dispatch insn reg_xmm 1
    (fun src => vpush (VAesKeygen d src imm))
    (fun addr => vpush (VAesKeygenM d addr imm));;
  if vex then vpush (VZeroUpper d) else mret tt.

Definition lift_pclmul insn : L unit :=
  d ← or_unsupported insn (reg_xmm insn 0);
  let imm := wrap 8 (immediate insn 2) in
  vec_src_dispatch insn reg_xmm 1
    (fun b => vpush (VPclmul d d b imm))
    (fun addr => vpush (VPclmulM d d addr imm)).

Definition lift_vpclmul insn : L unit :=
  d ← or_unsupported insn (reg_xmm insn 0);
  a ← or_unsupported insn (reg_xmm insn 1);
  let imm := wrap 8 (immediate insn 3) in
  vec_src_dispatch insn reg_xmm 2
    (fun b => vpush (VPclmul d a b imm))
    (fun addr => vpush (VPclmulM d a addr imm));;
  vpush (VZeroUpper d).

Definition lift_sha insn (op : ShaOp) : L unit :=
  d ← or_unsupported insn (reg_xmm insn 0);
  let imm := (if bool_decide (op = Sha1Rnds4) then wrap 8 (immediate insn 2) else 0) in
  vec_src_dispatch insn reg_xmm 1
    (fun b => vpush (VSha d d b imm op))
    (fun addr => vpush (VShaM d d addr imm op)).

Definition lift_gfni insn (op : GfniOp) : L unit :=
  d ← or_unsupported insn (reg_xmm insn 0);
  let imm := (if bool_decide (op = Mulb) then 0 else wrap 8 (immediate insn 2)) in
  vec_src_dispatch insn reg_xmm 1
    (fun b => vpush (VGfni d d b imm op))
    (fun addr => vpush (VGfniM d d addr imm op)).

Definition lift_vgfni insn (op : GfniOp) : L unit :=
  '(dst, bytes) ← or_unsupported insn (vec_operand insn 0);
  if ((16 <? bytes) || is_some (evex_writemask insn)) || zeroing_masking insn then lift_vgfni_wide insn op dst bytes
  else
    d ← or_unsupported insn (reg_xmm insn 0);
    a ← or_unsupported insn (reg_xmm insn 1);
    let imm := (if bool_decide (op = Mulb) then 0 else wrap 8 (immediate insn 3)) in
    vec_src_dispatch insn reg_xmm 2
      (fun b => vpush (VGfni d a b imm op))
      (fun addr => vpush (VGfniM d a addr imm op));;
    vpush (VZeroUpper d).

Definition lift_psign insn (lane : Z) : L unit :=
  d ← or_unsupported insn (reg_xmm insn 0);
  vec_src_dispatch insn reg_xmm 1
    (fun b => vpush (VPsign d d b lane 16))
    (fun addr => vpush (VPsignM d d addr lane 16)).

Definition lift_vpsign insn (lane : Z) : L unit :=
  match reg_ymm insn 0 with
  | Some d =>
      a ← or_unsupported insn (reg_ymm insn 1);
      vec_src_dispatch insn reg_ymm 2
        (fun b => vpush (VPsign d a b lane 32))
        (fun addr => vpush (VPsignM d a addr lane 32))
  | _ =>
      d ← or_unsupported insn (reg_xmm insn 0);
      a ← or_unsupported insn (reg_xmm insn 1);
      vec_src_dispatch insn reg_xmm 2
        (fun b => vpush (VPsign d a b lane 16))
        (fun addr => vpush (VPsignM d a addr lane 16));;
      vpush (VZeroUpper d)
  end.

Definition lift_packuswb insn : L unit :=
  d ← or_unsupported insn (reg_xmm insn 0);
  b ← or_unsupported insn (reg_xmm insn 1);
  vpush (VPackUsWB d d b).

Definition lift_pack_signed insn (from_elem : Z) : L unit :=
  d ← or_unsupported insn (reg_xmm insn 0);
  vec_src_dispatch insn reg_xmm 1
    (fun b => vpush (VPackWide d d b from_elem true 16))
    (fun addr => vpush (VPackWideM d d addr from_elem true)).

Definition lift_pmaddwd insn : L unit :=
  d ← or_unsupported insn (reg_xmm insn 0);
  b ← or_unsupported insn (reg_xmm insn 1);
  vpush (VPMAddWd d d b).

Definition lift_pmaddubsw insn : L unit :=
  d ← or_unsupported insn (reg_xmm insn 0);
  b ← or_unsupported insn (reg_xmm insn 1);
  vpush (VPMadd d d b true 16).

Definition lift_vpmadd insn (ubsw : bool) : L unit :=
  '(d, bytes) ← or_unsupported insn (vec_operand insn 0);
  if (32 <? bytes) || evex_is_masked insn then unsupported insn
  else
    a ← or_unsupported insn (reg_vec insn 1);
    vec_src_dispatch insn reg_vec 2
      (fun b => vpush (VPMadd d a b ubsw bytes))
      (fun addr => vpush (VPMaddM d a addr ubsw bytes));;
    if bool_decide (bytes = 16) then vpush (VZeroUpper d) else mret tt.

Definition lift_pinsrw insn : L unit :=
  d ← or_unsupported insn (reg_xmm insn 0);
  src ← lower_read insn 1;
  let index := wrap 8 (immediate insn 2) in
  vpush (VInsertW d src index).

Definition lift_pinsr insn (size : Z) : L unit :=
  d ← or_unsupported insn (reg_xmm insn 0);
  let vex := bool_decide (op_count insn = 4) in
  '(base, src_idx, imm_idx) ← (if vex then
      t3 ← or_unsupported insn (reg_xmm insn 1);
      mret (t3, 2, 3)
    else
      mret (d, 1, 2) : L _);
  src ← lower_read insn src_idx;
  let index := wrap 8 (immediate insn imm_idx) in
  vpush (VInsertLane d base src index size);;
  if vex then vpush (VZeroUpper d) else mret tt.

Definition lift_move_half insn (dst_high : bool) (src_high : bool) : L unit :=
  d ← or_unsupported insn (reg_xmm insn 0);
  s ← or_unsupported insn (reg_xmm insn 1);
  vpush (VMoveHalf d s dst_high src_high).

Definition lift_vmov_packed_half insn (high : bool) : L unit :=
  d ← or_unsupported insn (reg_xmm insn 0);
  op1 ← or_unsupported insn (reg_xmm insn 1);
  op2 ← or_unsupported insn (reg_xmm insn 2);
  let '(a, b) := (if high then (op2, op1) else (op1, op2)) in
  vpush (VUnpackLow d a b 8 high);;
  vpush (VZeroUpper d).

Definition lift_half_mem insn (high : bool) : L unit :=
  let otherwise :=
    match reg_xmm insn 1 with
    | Some s =>
        if bool_decide (op_kind insn 0 = OpKind.Memory) then
          addr ← effective_address insn;
          vpush (VStoreHalf addr s high)
        else
          unsupported insn
    | _ => unsupported insn
    end in
  match reg_xmm insn 0 with
  | Some d =>
      if bool_decide (op_kind insn 1 = OpKind.Memory) then
        addr ← effective_address insn;
        vpush (VLoadHalf d addr high)
      else
        otherwise
  | _ => otherwise
  end.

Definition lift_vhalf_mem insn (high : bool) : L unit :=
  if bool_decide (op_kind insn 0 = OpKind.Memory) then lift_half_mem insn high
  else
    d ← or_unsupported insn (reg_xmm insn 0);
    a ← or_unsupported insn (reg_xmm insn 1);
    if negb (bool_decide (op_kind insn 2 = OpKind.Memory)) then unsupported insn
    else
      addr ← effective_address insn;
      (if negb (bool_decide (d = a)) then vpush (VMov d a) else mret tt);;
      vpush (VLoadHalf d addr high);;
      vpush (VZeroUpper d).

Definition lift_pextrw insn : L unit :=
  src ← or_unsupported insn (reg_xmm insn 1);
  let index := wrap 8 (immediate insn 2) in
  t ← fresh;
  vpush (VExtractW t src index);;
  dst ← lower_write_target insn 0;
  emit_write dst (TempV t).

Definition lift_pextr insn (size : Z) : L unit :=
  src ← or_unsupported insn (reg_xmm insn 1);
  let index := wrap 8 (immediate insn 2) in
  t ← fresh;
  vpush (VExtractLane t src index size);;
  dst ← lower_write_target insn 0;
  emit_write dst (TempV t).

Definition read_scalar_float insn (op_idx : Z) (prec : FPrec) : L Val :=
  match reg_xmm insn op_idx with
  | Some x =>
      t ← fresh;
      vpush (VToGpr t x (prec_bytes prec));;
      mret (TempV t)
  | _ =>
      if bool_decide (op_kind insn op_idx = OpKind.Memory) then
        addr ← effective_address insn;
        t ← fresh;
        push (Load t addr (prec_bytes prec));;
        mret (TempV t)
      else
        unsupported insn
  end.

Definition lift_scalar_fmove insn (prec : FPrec) : L unit :=
  let size := prec_bytes prec in
  let otherwise :=
    match reg_xmm insn 1 with
    | Some s =>
        if bool_decide (op_kind insn 0 = OpKind.Memory) then
          addr ← effective_address insn;
          vpush (VStore addr s size)
        else
          unsupported insn
    | _ => unsupported insn
    end in
  match reg_xmm insn 0 with
  | Some d =>
      match reg_xmm insn 1 with
      | Some s => vpush (VFloatMov d d s prec)
      | _ =>
          if bool_decide (op_kind insn 1 = OpKind.Memory) then
            addr ← effective_address insn;
            vpush (VLoad d addr size)
          else
            otherwise
      end
  | _ => otherwise
  end.

Definition lift_vscalar_fmove insn (prec : FPrec) : L unit :=
  let size := prec_bytes prec in
  if evex_is_masked insn then
    unsupported insn
  else if bool_decide (op_kind insn 0 = OpKind.Memory) then
    s ← or_unsupported insn (reg_xmm insn 1);
    addr ← effective_address insn;
    vpush (VStore addr s size)
  else
    d ← or_unsupported insn (reg_xmm insn 0);
    if bool_decide (op_kind insn 1 = OpKind.Memory) then
      addr ← effective_address insn;
      vpush (VLoad d addr size);;
      vpush (VZeroUpper d)
    else
      a ← or_unsupported insn (reg_xmm insn 1);
      b ← or_unsupported insn (reg_xmm insn 2);
      vpush (VFloatMov d a b prec);;
      vpush (VZeroUpper d).

Definition lift_float_bin insn (op : FloatBinOp) (prec : FPrec) (scalar : bool) : L unit :=
  d ← or_unsupported insn (reg_xmm insn 0);
  vec_src_dispatch insn reg_xmm 1
    (fun b => vpush (VFloatBin d d b op prec scalar))
    (fun addr => vpush (VFloatBinM d addr op prec scalar)).

Definition lift_vfloat_bin insn (op : FloatBinOp) (prec : FPrec) (scalar : bool) : L unit :=
  let otherwise :=
    d ← or_unsupported insn (reg_xmm insn 0);
    a ← or_unsupported insn (reg_xmm insn 1);
    vec_src_dispatch insn reg_xmm 2
      (fun b => vpush (VFloatBin d a b op prec scalar))
      (fun addr => (if negb (bool_decide (d = a)) then
           vpush (VMov d a)
         else
           mret tt);;
        vpush (VFloatBinM d addr op prec scalar));;
    vpush (VZeroUpper d) in
  if negb scalar then
    match reg_ymm insn 0 with
    | Some d =>
        a ← or_unsupported insn (reg_ymm insn 1);
        vec_src_dispatch insn reg_ymm 2
          (fun b => vpush (VFloatBin256 d a b op prec))
          (fun addr => vpush (VFloatBin256M d a addr op prec))
    | _ => otherwise
    end
  else
    otherwise.

Definition lift_hfloat insn (op : HFloatOp) (prec : FPrec) : L unit :=
  d ← or_unsupported insn (reg_xmm insn 0);
  vec_src_dispatch insn reg_xmm 1
    (fun b => vpush (VHFloat d d b op prec 16))
    (fun addr => vpush (VHFloatM d d addr op prec 16)).

Definition lift_vhfloat insn (op : HFloatOp) (prec : FPrec) : L unit :=
  '(d, bytes) ← or_unsupported insn (vec_operand insn 0);
  a ← or_unsupported insn (reg_vec insn 1);
  vec_src_dispatch insn reg_vec 2
    (fun b => vpush (VHFloat d a b op prec bytes))
    (fun addr => vpush (VHFloatM d a addr op prec bytes));;
  if bool_decide (bytes = 16) then vpush (VZeroUpper d) else mret tt.

Definition lift_hint insn (op : HIntOp) : L unit :=
  d ← or_unsupported insn (reg_xmm insn 0);
  vec_src_dispatch insn reg_xmm 1
    (fun b => vpush (VHInt d d b op 16))
    (fun addr => vpush (VHIntM d d addr op 16)).

Definition lift_vhint insn (op : HIntOp) : L unit :=
  match reg_ymm insn 0 with
  | Some d =>
      a ← or_unsupported insn (reg_ymm insn 1);
      vec_src_dispatch insn reg_ymm 2
        (fun b => vpush (VHInt d a b op 32))
        (fun addr => vpush (VHIntM d a addr op 32))
  | _ =>
      d ← or_unsupported insn (reg_xmm insn 0);
      a ← or_unsupported insn (reg_xmm insn 1);
      vec_src_dispatch insn reg_xmm 2
        (fun b => vpush (VHInt d a b op 16))
        (fun addr => vpush (VHIntM d a addr op 16));;
      vpush (VZeroUpper d)
  end.

Definition lift_float_cmp insn (prec : FPrec) : L unit :=
  a ← read_scalar_float insn 0 prec;
  b ← read_scalar_float insn 1 prec;
  vpush (VFloatCmp a b prec).

Definition lift_float_cmp_mask insn (prec : FPrec) (scalar : bool) : L unit :=
  d ← or_unsupported insn (reg_xmm insn 0);
  let pred := wrap 8 (immediate insn 2) in
  vec_src_dispatch insn reg_xmm 1
    (fun b => vpush (VFloatCmpMask d d b prec scalar pred))
    (fun addr => vpush (VFloatCmpMaskM d addr prec scalar pred)).

Definition lift_vfloat_cmp_mask insn (prec : FPrec) (scalar : bool) : L unit :=
  let pred := wrap 8 (immediate insn 3) in
  let otherwise :=
    d ← or_unsupported insn (reg_xmm insn 0);
    a ← or_unsupported insn (reg_xmm insn 1);
    vec_src_dispatch insn reg_xmm 2
      (fun b => vpush (VFloatCmpMask d a b prec scalar pred))
      (fun addr => (if negb (bool_decide (d = a)) then
           vpush (VMov d a)
         else
           mret tt);;
        vpush (VFloatCmpMaskM d addr prec scalar pred));;
    vpush (VZeroUpper d) in
  if negb scalar then
    match reg_ymm insn 0 with
    | Some d =>
        a ← or_unsupported insn (reg_ymm insn 1);
        vec_src_dispatch insn reg_ymm 2
          (fun b => vpush (VFloatCmpMask256 d a b prec pred))
          (fun addr => vpush (VFloatCmpMask256M d a addr prec pred))
    | _ => otherwise
    end
  else
    otherwise.

Definition lift_cvt_from_int insn (prec : FPrec) : L unit :=
  d ← or_unsupported insn (reg_xmm insn 0);
  let int_size := operand_size insn 1 in
  src ← lower_read insn 1;
  vpush (VCvtFromInt d src int_size prec true).

Definition lift_vcvt_from_int insn (prec : FPrec) (signed : bool) : L unit :=
  d ← or_unsupported insn (reg_xmm insn 0);
  a ← or_unsupported insn (reg_xmm insn 1);
  let int_size := operand_size insn 2 in
  src ← lower_read insn 2;
  (if negb (bool_decide (d = a)) then vpush (VMov d a) else mret tt);;
  vpush (VCvtFromInt d src int_size prec signed);;
  vpush (VZeroUpper d).

Definition lift_cvt_to_int_signed insn (prec : FPrec) (trunc : bool) (signed : bool) : L unit :=
  let int_size := operand_size insn 0 in
  src ← read_scalar_float insn 1 prec;
  t ← fresh;
  vpush (VCvtToInt t src int_size prec trunc signed);;
  dst ← lower_write_target insn 0;
  emit_write dst (TempV t).

Definition lift_cvt_to_int insn (prec : FPrec) (trunc : bool) : L unit :=
  lift_cvt_to_int_signed insn prec trunc true.

Definition lift_float_unary insn (op : FloatUnOp) (prec : FPrec) (scalar : bool) : L unit :=
  d ← or_unsupported insn (reg_xmm insn 0);
  s ← or_unsupported insn (reg_xmm insn 1);
  vpush (VFloatUnary d d s op prec scalar).

Definition lift_fma insn (order : Z) (prec : FPrec) (scalar : bool) (neg_prod : bool) (neg_add : bool) (alt_sign : Z) : L unit :=
  '(dst, bytes) ← or_unsupported insn (vec_operand insn 0);
  op1 ← or_unsupported insn (vec_operand_reg insn 1);
  let mem := bool_decide (op_kind insn 2 = OpKind.Memory) in
  op2 ← (if mem then
      mret 0%nat
    else
      t4 ← or_unsupported insn (vec_operand_reg insn 2);
      mret t4 : L _);
  let writemask := evex_writemask insn in
  if scalar && is_some writemask then unsupported insn
  else
    let zeroing := zeroing_masking insn in
    let '(x, y, z, mem_role) := match order with | 132 => (dst, op2, op1, 1) | 213 => (op1, dst, op2, 2) | _ => (op1, op2, dst, 1) end in
    if mem then
      addr ← effective_address insn;
      vpush (VFmaM dst x y z addr mem_role prec scalar neg_prod neg_add bytes alt_sign writemask zeroing)
    else
      vpush (VFma dst x y z prec scalar neg_prod neg_add bytes alt_sign writemask zeroing).

Definition lift_vfloat_unary_scalar insn (op : FloatUnOp) (prec : FPrec) : L unit :=
  d ← or_unsupported insn (reg_xmm insn 0);
  a ← or_unsupported insn (reg_xmm insn 1);
  vec_src_dispatch insn reg_xmm 2
    (fun s => vpush (VFloatUnary d a s op prec true))
    (fun addr => vpush (VFloatUnaryM d a addr op prec true));;
  vpush (VZeroUpper d).

Definition lift_vfloat_unary_packed insn (op : FloatUnOp) (prec : FPrec) : L unit :=
  match reg_ymm insn 0 with
  | Some d =>
      vec_src_dispatch insn reg_ymm 1
        (fun s => vpush (VFloatUnary256 d s op prec))
        (fun addr => vpush (VFloatUnary256M d addr op prec))
  | _ =>
      d ← or_unsupported insn (reg_xmm insn 0);
      vec_src_dispatch insn reg_xmm 1
        (fun s => vpush (VFloatUnary d d s op prec false))
        (fun addr => vpush (VFloatUnaryM d d addr op prec false));;
      vpush (VZeroUpper d)
  end.

Definition lift_cvt_float insn (from : FPrec) (to : FPrec) : L unit :=
  d ← or_unsupported insn (reg_xmm insn 0);
  src ← read_scalar_float insn 1 from;
  vpush (VCvtFloat d src from to).

Definition lift_vcvt_scalar insn (from : FPrec) (to : FPrec) : L unit :=
  d ← or_unsupported insn (reg_xmm insn 0);
  a ← or_unsupported insn (reg_xmm insn 1);
  src ← read_scalar_float insn 2 from;
  (if negb (bool_decide (d = a)) then vpush (VMov d a) else mret tt);;
  vpush (VCvtFloat d src from to);;
  vpush (VZeroUpper d).

Definition lift_packed_cvt256 insn (kind : PackedCvtKind) : L unit :=
  let widening := match kind with Dq2Pd | Ps2Pd => true | _ => false end in
  d ← or_unsupported insn (or_else (reg_ymm insn 0) (reg_xmm insn 0));
  src ← (match or_else (reg_ymm insn 1) (reg_xmm insn 1) with
    | Some s => mret s
    | _ =>
        if bool_decide (op_kind insn 1 = OpKind.Memory) then
          addr ← effective_address insn;
          (if widening then vpush (VLoad d addr 16) else vpush (VLoadWide d addr 32));;
          mret d
        else
          unsupported insn
    end : L _);
  vpush (VPackedCvtWide256 d src kind).

Definition lift_packed_cvt insn (kind : PackedCvtKind) (vex : bool) : L unit :=
  let otherwise :=
    let width_changing := match kind with Dq2Pd | Ps2Pd | Pd2Ps | Pd2Dq | Tpd2Dq => true | _ => false end in
    if width_changing && (is_some (reg_ymm insn 0) || is_some (reg_ymm insn 1)) then lift_packed_cvt256 insn kind
    else
      d ← or_unsupported insn (reg_xmm insn 0);
      src ← (match reg_xmm insn 1 with
        | Some a => mret a
        | None =>
            if bool_decide (op_kind insn 1 = OpKind.Memory) then
              addr ← effective_address insn;
              vpush (VLoad d addr (mem_bytes kind));;
              mret d
            else
              unsupported insn
        end : L _);
      vpush (VPackedCvt d src kind);;
      if vex then vpush (VZeroUpper d) else mret tt in
  if vex && (match kind with Dq2Ps | Ps2Dq | Tps2Dq => true | _ => false end) then
    match reg_ymm insn 0 with
    | Some d =>
        match reg_ymm insn 1 with
        | Some s => vpush (VPackedCvt256 d s kind)
        | None =>
            if bool_decide (op_kind insn 1 = OpKind.Memory) then
              addr ← effective_address insn;
              vpush (VPackedCvt256M d addr kind)
            else
              unsupported insn
        end
    | _ => otherwise
    end
  else
    otherwise.

Definition lift_vcvtph2ps insn : L unit :=
  '(d, lanes, ymm) ← (match reg_ymm insn 0 with
    | Some y => mret (y, 8, true)
    | _ =>
        t2 ← or_unsupported insn (reg_xmm insn 0);
        mret (t2, 4, false)
    end : L _);
  src ← (match reg_xmm insn 1 with
    | Some s => mret s
    | _ =>
        if bool_decide (op_kind insn 1 = OpKind.Memory) then
          addr ← effective_address insn;
          let size := (if bool_decide (lanes = 8) then 16 else 8) in
          vpush (VLoad d addr size);;
          mret d
        else
          unsupported insn
    end : L _);
  vpush (VCvtPh2Ps d src lanes);;
  if negb ymm then vpush (VZeroUpper d) else mret tt.

Definition lift_vcvtps2ph insn : L unit :=
  '(src, lanes) ← (match reg_ymm insn 1 with
    | Some y => mret (y, 8)
    | _ =>
        t2 ← or_unsupported insn (reg_xmm insn 1);
        mret (t2, 4)
    end : L _);
  let imm := wrap 8 (immediate insn 2) in
  let rc := (if negb (bool_decide (Z.land imm 0x4 = 0)) then 0 else Z.land imm 0x3) in
  d ← or_unsupported insn (reg_xmm insn 0);
  vpush (VCvtPs2Ph d src lanes rc);;
  vpush (VZeroUpper d).

Definition lift_phminposuw insn (vex : bool) : L unit :=
  d ← or_unsupported insn (reg_xmm insn 0);
  src ← (match reg_xmm insn 1 with
    | Some s => mret s
    | _ =>
        if bool_decide (op_kind insn 1 = OpKind.Memory) then
          addr ← effective_address insn;
          vpush (VLoad d addr 16);;
          mret d
        else
          unsupported insn
    end : L _);
  vpush (VPhMinPosUw d src);;
  if vex then vpush (VZeroUpper d) else mret tt.

Definition lift_mpsadbw insn (vex : bool) : L unit :=
  if vex then
    let imm := wrap 8 (immediate insn 3) in
    match reg_ymm insn 0 with
    | Some d =>
        a ← or_unsupported insn (reg_ymm insn 1);
        b ← (match reg_ymm insn 2 with
          | Some b => mret b
          | None =>
              if bool_decide (op_kind insn 2 = OpKind.Memory) && negb (bool_decide (d = a)) then
                addr ← effective_address insn;
                vpush (VLoadWide d addr 32);;
                mret d
              else
                unsupported insn
          end : L _);
        vpush (VMpsadbw d a b imm 32)
    | _ =>
        d ← or_unsupported insn (reg_xmm insn 0);
        a ← or_unsupported insn (reg_xmm insn 1);
        b ← (match reg_xmm insn 2 with
          | Some b => mret b
          | None =>
              if bool_decide (op_kind insn 2 = OpKind.Memory) && negb (bool_decide (d = a)) then
                addr ← effective_address insn;
                vpush (VLoad d addr 16);;
                mret d
              else
                unsupported insn
          end : L _);
        vpush (VMpsadbw d a b imm 16);;
        vpush (VZeroUpper d)
    end
  else
    d ← or_unsupported insn (reg_xmm insn 0);
    let imm := wrap 8 (immediate insn 2) in
    b ← or_unsupported insn (reg_xmm insn 1);
    vpush (VMpsadbw d d b imm 16).

End LiftVec.
