(* ===== verification/LiftInsn.v ===== *)
(** * Lowering one instruction (x86jit-core/src/lift/mod.rs, [lift_insn])

    The dispatch on the mnemonic, in the order of the source and in pieces: each
    [lift_*_arms] is a run of consecutive arms, [None] when none of them takes the
    instruction. *)

From S2P Require Import Prelude State Ir X87 VecOps VecOp Block Lift Insn LiftInt LiftCtl LiftVec.

Definition jcc_cond (m : Mnemonic.t) : option Cond :=
  match m with
  | Mnemonic.Je => Some Eq
  | Mnemonic.Jne => Some Ne
  | Mnemonic.Jb => Some Below
  | Mnemonic.Jae => Some AboveEq
  | Mnemonic.Jbe => Some BelowEq
  | Mnemonic.Ja => Some Above
  | Mnemonic.Jl => Some Less
  | Mnemonic.Jge => Some GreaterEq
  | Mnemonic.Jle => Some LessEq
  | Mnemonic.Jg => Some Greater
  | Mnemonic.Js => Some Sign
  | Mnemonic.Jns => Some NoSign
  | Mnemonic.Jo => Some Overflow
  | Mnemonic.Jno => Some NoOverflow
  | Mnemonic.Jp => Some Parity
  | Mnemonic.Jnp => Some NoParity
  | _ => None
  end.
Definition setcc_cond (m : Mnemonic.t) : option Cond :=
  match m with
  | Mnemonic.Sete => Some Eq
  | Mnemonic.Setne => Some Ne
  | Mnemonic.Setb => Some Below
  | Mnemonic.Setae => Some AboveEq
  | Mnemonic.Setbe => Some BelowEq
  | Mnemonic.Seta => Some Above
  | Mnemonic.Setl => Some Less
  | Mnemonic.Setge => Some GreaterEq
  | Mnemonic.Setle => Some LessEq
  | Mnemonic.Setg => Some Greater
  | Mnemonic.Sets => Some Sign
  | Mnemonic.Setns => Some NoSign
  | Mnemonic.Seto => Some Overflow
  | Mnemonic.Setno => Some NoOverflow
  | Mnemonic.Setp => Some Parity
  | Mnemonic.Setnp => Some NoParity
  | _ => None
  end.
Definition cmovcc_cond (m : Mnemonic.t) : option Cond :=
  match m with
  | Mnemonic.Cmove => Some Eq
  | Mnemonic.Cmovne => Some Ne
  | Mnemonic.Cmovb => Some Below
  | Mnemonic.Cmovae => Some AboveEq
  | Mnemonic.Cmovbe => Some BelowEq
  | Mnemonic.Cmova => Some Above
  | Mnemonic.Cmovl => Some Less
  | Mnemonic.Cmovge => Some GreaterEq
  | Mnemonic.Cmovle => Some LessEq
  | Mnemonic.Cmovg => Some Greater
  | Mnemonic.Cmovs => Some Sign
  | Mnemonic.Cmovns => Some NoSign
  | Mnemonic.Cmovo => Some Overflow
  | Mnemonic.Cmovno => Some NoOverflow
  | Mnemonic.Cmovp => Some Parity
  | Mnemonic.Cmovnp => Some NoParity
  | _ => None
  end.

(** [.map(|_| false)] and [.map(|_| true)] *)
Definition more (x : L unit) : L bool := x;; mret false.
Definition ends (x : L unit) : L bool := x;; mret true.

Section LiftInsn.
Context `{InsnView}.
Implicit Types (insn : Instruction) (mode : CpuMode).

(** Moves, arithmetic, BMI, exchanges. *)
Definition lift_int_arms insn mode : option (L bool) :=
  match mnemonic insn with
  | Mnemonic.Nop | Mnemonic.Endbr64 | Mnemonic.Endbr32 | Mnemonic.Pause | Mnemonic.Wait | Mnemonic.Rdsspd
  | Mnemonic.Rdsspq | Mnemonic.Prefetchnta | Mnemonic.Prefetcht0 | Mnemonic.Prefetcht1 | Mnemonic.Prefetcht2
  | Mnemonic.Prefetchw | Mnemonic.Prefetchwt1 => Some (mret false)
  | Mnemonic.Mov =>
      if wraps_16 mode && (is_some (sreg_operand insn 0) || is_some (sreg_operand insn 1)) then Some (lift_mov_sreg_real16 insn)
      else Some (more (
        src ← lower_read insn 1;
        dst ← lower_write_target insn 0;
        emit_write dst src))
  | Mnemonic.Movnti => Some (more (
        src ← lower_read insn 1;
        dst ← lower_write_target insn 0;
        emit_write dst src))
  | Mnemonic.Lea => Some (more (
        addr ← effective_address_no_segment insn;
        dst ← lower_write_target insn 0;
        emit_write dst addr))
  | Mnemonic.Add => Some (more (lift_binop insn BinOp.Add FM_ALL true))
  | Mnemonic.Adc => Some (more (lift_binop insn BinOp.Adc FM_ALL true))
  | Mnemonic.Sub => Some (more (lift_binop insn BinOp.Sub FM_ALL true))
  | Mnemonic.Sbb => Some (more (lift_binop insn BinOp.Sbb FM_ALL true))
  | Mnemonic.And => Some (more (lift_binop insn BinOp.And FM_ALL true))
  | Mnemonic.Or => Some (more (lift_binop insn BinOp.Or FM_ALL true))
  | Mnemonic.Xor => Some (more (lift_binop insn BinOp.Xor FM_ALL true))
  | Mnemonic.Cmp => Some (more (lift_binop insn BinOp.Sub FM_ALL false))
  | Mnemonic.Test => Some (more (lift_binop insn BinOp.And FM_ALL false))
  | Mnemonic.Shl | Mnemonic.Sal => Some (more (lift_binop insn BinOp.Shl FM_SHIFT true))
  | Mnemonic.Shr => Some (more (lift_binop insn BinOp.Shr FM_SHIFT true))
  | Mnemonic.Sar => Some (more (lift_binop insn BinOp.Sar FM_SHIFT true))
  | Mnemonic.Rol => Some (more (lift_binop insn BinOp.Rol FM_CF_OF true))
  | Mnemonic.Ror => Some (more (lift_binop insn BinOp.Ror FM_CF_OF true))
  | Mnemonic.Rcl => Some (more (lift_binop insn BinOp.Rcl FM_CF_OF true))
  | Mnemonic.Rcr => Some (more (lift_binop insn BinOp.Rcr FM_CF_OF true))
  | Mnemonic.Shld => Some (more (lift_double_shift insn true))
  | Mnemonic.Shrd => Some (more (lift_double_shift insn false))
  | Mnemonic.Inc => Some (more (lift_incdec insn BinOp.Add))
  | Mnemonic.Dec => Some (more (lift_incdec insn BinOp.Sub))
  | Mnemonic.Neg => Some (more (lift_neg insn))
  | Mnemonic.Not => Some (more (lift_not insn))
  | Mnemonic.Mul => Some (more (lift_widening_mul insn false))
  | Mnemonic.Imul => Some (more (lift_imul insn))
  | Mnemonic.Div => Some (more (lift_div insn false))
  | Mnemonic.Idiv => Some (more (lift_div insn true))
  | Mnemonic.Bswap => Some (more (lift_bswap insn))
  | Mnemonic.Movbe => Some (more (lift_movbe insn))
  | Mnemonic.Andn => Some (more (lift_bmi insn Andn))
  | Mnemonic.Blsi => Some (more (lift_bmi insn Blsi))
  | Mnemonic.Blsr => Some (more (lift_bmi insn Blsr))
  | Mnemonic.Blsmsk => Some (more (lift_bmi insn Blsmsk))
  | Mnemonic.Bextr => Some (more (lift_bmi insn Bextr))
  | Mnemonic.Bzhi => Some (more (lift_bmi insn Bzhi))
  | Mnemonic.Shlx => Some (more (lift_bmi_shift insn (fun dst a b size set_flags => Shl dst a b size set_flags)))
  | Mnemonic.Shrx => Some (more (lift_bmi_shift insn (fun dst a b size set_flags => Shr dst a b size set_flags)))
  | Mnemonic.Sarx => Some (more (lift_bmi_shift insn (fun dst a b size set_flags => Sar dst a b size set_flags)))
  | Mnemonic.Rorx => Some (more (lift_bmi_shift insn (fun dst a b size set_flags => Ror dst a b size set_flags)))
  | Mnemonic.Pdep => Some (more (lift_bmi insn Pdep))
  | Mnemonic.Pext => Some (more (lift_bmi insn Pext))
  | Mnemonic.Mulx => Some (more (lift_mulx insn))
  | Mnemonic.Xchg => Some (more (lift_xchg insn))
  | Mnemonic.Xadd => Some (more (lift_xadd insn))
  | Mnemonic.Cmpxchg => Some (more (lift_cmpxchg insn))
  | Mnemonic.Cpuid => Some (more (push (Cpuid)))
  | Mnemonic.Xgetbv => Some (more (push (Xgetbv)))
  | _ => None
  end.

(** Time stamp, x87, bit scans, MXCSR, fences, strings. *)
Definition lift_sys_arms insn mode : option (L bool) :=
  match mnemonic insn with
  | Mnemonic.Rdtsc => Some (more (
        push (WriteReg Rax (Imm 0x12345678) 4);;
        push (WriteReg Rdx (Imm 0) 4)))
  | Mnemonic.Fld | Mnemonic.Fst | Mnemonic.Fstp | Mnemonic.Fild | Mnemonic.Fistp | Mnemonic.Fisttp
  | Mnemonic.Fadd | Mnemonic.Faddp | Mnemonic.Fsub | Mnemonic.Fsubp | Mnemonic.Fsubr | Mnemonic.Fsubrp
  | Mnemonic.Fmul | Mnemonic.Fmulp | Mnemonic.Fdiv | Mnemonic.Fdivp | Mnemonic.Fdivr | Mnemonic.Fdivrp
  | Mnemonic.Fld1 | Mnemonic.Fldz | Mnemonic.Fabs | Mnemonic.Fchs | Mnemonic.Fxch | Mnemonic.Fucomi
  | Mnemonic.Fucomip | Mnemonic.Fcomi | Mnemonic.Fcomip | Mnemonic.Fldcw | Mnemonic.Fnstcw | Mnemonic.Fnstsw
  | Mnemonic.Fprem | Mnemonic.Fsin | Mnemonic.Fcos | Mnemonic.Fptan | Mnemonic.Fpatan | Mnemonic.F2xm1
  | Mnemonic.Fyl2x | Mnemonic.Fyl2xp1 | Mnemonic.Fsincos | Mnemonic.Fninit | Mnemonic.Finit | Mnemonic.Fnclex
  | Mnemonic.Fclex | Mnemonic.Fnstenv | Mnemonic.Fstenv | Mnemonic.Fldenv | Mnemonic.Fiadd | Mnemonic.Fimul
  | Mnemonic.Fisub | Mnemonic.Fisubr | Mnemonic.Fidiv | Mnemonic.Fidivr | Mnemonic.Ficom | Mnemonic.Ficomp => Some (more (lift_x87 insn))
  | Mnemonic.Bsf => Some (more (lift_bitscan insn Bsf))
  | Mnemonic.Bsr => Some (more (lift_bitscan insn Bsr))
  | Mnemonic.Tzcnt => Some (more (lift_bitscan insn Tzcnt))
  | Mnemonic.Lzcnt => Some (more (lift_bitscan insn Lzcnt))
  | Mnemonic.Popcnt => Some (more (
        let size := operand_size insn 0 in
        src ← lower_read insn 1;
        t ← fresh;
        push (Popcnt t src size);;
        dst ← lower_write_target insn 0;
        emit_write dst (TempV t)))
  | Mnemonic.Crc32 => Some (more (
        crc ← lower_read insn 0;
        src ← lower_read insn 1;
        let bytes := operand_size insn 1 in
        t ← fresh;
        push (Crc32 t crc src bytes);;
        dst ← lower_write_target insn 0;
        emit_write dst (TempV t)))
  | Mnemonic.Stmxcsr | Mnemonic.Vstmxcsr => Some (more (
        addr ← effective_address insn;
        push (Store addr (Imm 0x1F80) 4 OrderNone)))
  | Mnemonic.Ldmxcsr | Mnemonic.Vldmxcsr => Some (mret false)
  | Mnemonic.Fxsave | Mnemonic.Fxsave64 => Some (more (
        addr ← effective_address insn;
        push (FxState addr false)))
  | Mnemonic.Fxrstor | Mnemonic.Fxrstor64 => Some (more (
        addr ← effective_address insn;
        push (FxState addr true)))
  | Mnemonic.Mfence | Mnemonic.Lfence | Mnemonic.Sfence => Some (mret false)
  | Mnemonic.Bt => Some (more (lift_bt insn BtTest))
  | Mnemonic.Bts => Some (more (lift_bt insn BtSet))
  | Mnemonic.Btr => Some (more (lift_bt insn BtReset))
  | Mnemonic.Btc => Some (more (lift_bt insn BtComplement))
  | Mnemonic.Std => Some (more (push (SetDf true)))
  | Mnemonic.Cld => Some (more (push (SetDf false)))
  | Mnemonic.Movsb => Some (lift_string insn Movs 1 mode)
  | Mnemonic.Movsw => Some (lift_string insn Movs 2 mode)
  | Mnemonic.Movsq => Some (lift_string insn Movs 8 mode)
  | Mnemonic.Stosb => Some (lift_string insn Stos 1 mode)
  | Mnemonic.Stosw => Some (lift_string insn Stos 2 mode)
  | Mnemonic.Stosd => Some (lift_string insn Stos 4 mode)
  | Mnemonic.Stosq => Some (lift_string insn Stos 8 mode)
  | Mnemonic.Lodsb => Some (lift_string insn Lods 1 mode)
  | Mnemonic.Lodsw => Some (lift_string insn Lods 2 mode)
  | Mnemonic.Lodsd => Some (lift_string insn Lods 4 mode)
  | Mnemonic.Lodsq => Some (lift_string insn Lods 8 mode)
  | Mnemonic.Scasb => Some (lift_string insn Scas 1 mode)
  | Mnemonic.Scasw => Some (lift_string insn Scas 2 mode)
  | Mnemonic.Scasd => Some (lift_string insn Scas 4 mode)
  | Mnemonic.Scasq => Some (lift_string insn Scas 8 mode)
  | Mnemonic.Cmpsb => Some (lift_string insn Cmps 1 mode)
  | Mnemonic.Cmpsw => Some (lift_string insn Cmps 2 mode)
  | Mnemonic.Cmpsq => Some (lift_string insn Cmps 8 mode)
  | Mnemonic.Movsd =>
      if is_none (reg_xmm insn 0) && is_none (reg_xmm insn 1) then Some (lift_string insn Movs 4 mode)
      else None
  | Mnemonic.Cmpsd =>
      if is_none (reg_xmm insn 0) && is_none (reg_xmm insn 1) then Some (lift_string insn Cmps 4 mode)
      else Some (more (lift_float_cmp_mask insn F64 true))
  | _ => None
  end.

(** SSE moves, logic, packed arithmetic and shuffles. *)
Definition lift_sse_arms insn mode : option (L bool) :=
  match mnemonic insn with
  | Mnemonic.Movdqa | Mnemonic.Movdqu | Mnemonic.Lddqu | Mnemonic.Movaps | Mnemonic.Movups | Mnemonic.Movapd
  | Mnemonic.Movupd | Mnemonic.Movntdq | Mnemonic.Movntps | Mnemonic.Movntpd | Mnemonic.Movntdqa => Some (more (lift_vmov insn 16))
  | Mnemonic.Movq => Some (more (lift_vmov insn 8))
  | Mnemonic.Movd => Some (more (lift_vmov insn 4))
  | Mnemonic.Movlhps => Some (more (lift_move_half insn true false))
  | Mnemonic.Movhlps => Some (more (lift_move_half insn false true))
  | Mnemonic.Vmovlhps => Some (more (lift_vmov_packed_half insn false))
  | Mnemonic.Vmovhlps => Some (more (lift_vmov_packed_half insn true))
  | Mnemonic.Movhps | Mnemonic.Movhpd => Some (more (lift_half_mem insn true))
  | Mnemonic.Movlps | Mnemonic.Movlpd => Some (more (lift_half_mem insn false))
  | Mnemonic.Vmovhps | Mnemonic.Vmovhpd => Some (more (lift_vhalf_mem insn true))
  | Mnemonic.Vmovlps | Mnemonic.Vmovlpd => Some (more (lift_vhalf_mem insn false))
  | Mnemonic.Pxor | Mnemonic.Xorps | Mnemonic.Xorpd => Some (more (lift_vlogic insn VXor))
  | Mnemonic.Pand | Mnemonic.Andps | Mnemonic.Andpd => Some (more (lift_vlogic insn VAnd))
  | Mnemonic.Por | Mnemonic.Orps | Mnemonic.Orpd => Some (more (lift_vlogic insn VOr))
  | Mnemonic.Pandn | Mnemonic.Andnps | Mnemonic.Andnpd => Some (more (lift_vlogic insn VAndn))
  | Mnemonic.Paddb => Some (more (lift_vpacked_bin insn 1 PAdd))
  | Mnemonic.Paddw => Some (more (lift_vpacked_bin insn 2 PAdd))
  | Mnemonic.Paddd => Some (more (lift_vpacked_bin insn 4 PAdd))
  | Mnemonic.Paddq => Some (more (lift_vpacked_bin insn 8 PAdd))
  | Mnemonic.Psubb => Some (more (lift_vpacked_bin insn 1 PSub))
  | Mnemonic.Psubw => Some (more (lift_vpacked_bin insn 2 PSub))
  | Mnemonic.Psubd => Some (more (lift_vpacked_bin insn 4 PSub))
  | Mnemonic.Psubq => Some (more (lift_vpacked_bin insn 8 PSub))
  | Mnemonic.Pcmpeqb => Some (more (lift_vpacked_bin insn 1 CmpEq))
  | Mnemonic.Pcmpeqw => Some (more (lift_vpacked_bin insn 2 CmpEq))
  | Mnemonic.Pcmpeqd => Some (more (lift_vpacked_bin insn 4 CmpEq))
  | Mnemonic.Pcmpgtb => Some (more (lift_vpacked_bin insn 1 CmpGt))
  | Mnemonic.Pcmpgtw => Some (more (lift_vpacked_bin insn 2 CmpGt))
  | Mnemonic.Pcmpgtd => Some (more (lift_vpacked_bin insn 4 CmpGt))
  | Mnemonic.Pcmpgtq => Some (more (lift_vpacked_bin insn 8 CmpGt))
  | Mnemonic.Pcmpeqq => Some (more (lift_vpacked_bin insn 8 CmpEq))
  | Mnemonic.Pminub => Some (more (lift_vpacked_bin insn 1 MinU))
  | Mnemonic.Pmaxub => Some (more (lift_vpacked_bin insn 1 MaxU))
  | Mnemonic.Pminsw => Some (more (lift_vpacked_bin insn 2 MinS))
  | Mnemonic.Pmaxsw => Some (more (lift_vpacked_bin insn 2 MaxS))
  | Mnemonic.Paddsb => Some (more (lift_vpacked_bin insn 1 AddSatS))
  | Mnemonic.Paddsw => Some (more (lift_vpacked_bin insn 2 AddSatS))
  | Mnemonic.Paddusb => Some (more (lift_vpacked_bin insn 1 AddSatU))
  | Mnemonic.Paddusw => Some (more (lift_vpacked_bin insn 2 AddSatU))
  | Mnemonic.Psubsb => Some (more (lift_vpacked_bin insn 1 SubSatS))
  | Mnemonic.Psubsw => Some (more (lift_vpacked_bin insn 2 SubSatS))
  | Mnemonic.Psubusb => Some (more (lift_vpacked_bin insn 1 SubSatU))
  | Mnemonic.Psubusw => Some (more (lift_vpacked_bin insn 2 SubSatU))
  | Mnemonic.Pavgb => Some (more (lift_vpacked_bin insn 1 AvgU))
  | Mnemonic.Pavgw => Some (more (lift_vpacked_bin insn 2 AvgU))
  | Mnemonic.Psllw => Some (more (lift_vpacked_shift insn 2 false false))
  | Mnemonic.Pslld => Some (more (lift_vpacked_shift insn 4 false false))
  | Mnemonic.Psllq => Some (more (lift_vpacked_shift insn 8 false false))
  | Mnemonic.Psrlw => Some (more (lift_vpacked_shift insn 2 true false))
  | Mnemonic.Psrld => Some (more (lift_vpacked_shift insn 4 true false))
  | Mnemonic.Psrlq => Some (more (lift_vpacked_shift insn 8 true false))
  | Mnemonic.Psraw => Some (more (lift_vpacked_shift insn 2 true true))
  | Mnemonic.Psrad => Some (more (lift_vpacked_shift insn 4 true true))
  | Mnemonic.Psrldq => Some (more (lift_byteshift insn true))
  | Mnemonic.Pslldq => Some (more (lift_byteshift insn false))
  | Mnemonic.Vpsrldq => Some (more (lift_byteshift_avx insn true))
  | Mnemonic.Vpslldq => Some (more (lift_byteshift_avx insn false))
  | Mnemonic.Pshufd => Some (more (lift_pshufd insn))
  | Mnemonic.Vpshufd => Some (more (lift_vpshufd insn))
  | Mnemonic.Movsldup => Some (more (lift_movdup insn 0xA0 false 16))
  | Mnemonic.Movshdup => Some (more (lift_movdup insn 0xF5 false 16))
  | Mnemonic.Movddup => Some (more (lift_movdup insn 0x44 true 16))
  | Mnemonic.Vmovsldup => Some (more (lift_vmovdup insn 0xA0 false))
  | Mnemonic.Vmovshdup => Some (more (lift_vmovdup insn 0xF5 false))
  | Mnemonic.Vmovddup => Some (more (lift_vmovdup insn 0x44 true))
  | Mnemonic.Pshuflw => Some (more (lift_pshufw insn false false))
  | Mnemonic.Pshufhw => Some (more (lift_pshufw insn true false))
  | Mnemonic.Vpshuflw => Some (more (lift_pshufw insn false true))
  | Mnemonic.Vpshufhw => Some (more (lift_pshufw insn true true))
  | Mnemonic.Shufps | Mnemonic.Shufpd => Some (more (lift_shufps insn))
  | Mnemonic.Vshufps | Mnemonic.Vshufpd => Some (more (lift_vshufps insn))
  | Mnemonic.Vpermilps =>
      if bool_decide (op_kind insn 2 = OpKind.Immediate8) then Some (more (lift_vpermil_imm insn false))
      else Some (more (lift_vpermil_var insn 4))
  | Mnemonic.Vpermilpd =>
      if bool_decide (op_kind insn 2 = OpKind.Immediate8) then Some (more (lift_vpermil_imm insn true))
      else Some (more (lift_vpermil_var insn 8))
  | Mnemonic.Pshufb => Some (more (
        d ← or_unsupported insn (reg_xmm insn 0);
        vec_src_dispatch insn reg_xmm 1
          (fun idx => vpush (VPshufb d d idx))
          (fun addr => vpush (VPshufbM d addr))))
  | Mnemonic.Palignr => Some (more (
        d ← or_unsupported insn (reg_xmm insn 0);
        let imm := wrap 8 (immediate insn 2) in
        vec_src_dispatch insn reg_xmm 1
          (fun src => vpush (VAlignr d d src imm))
          (fun addr => vpush (VAlignrM d addr imm))))
  | _ => None
  end.

(** AES, SHA, GFNI, interleaves, packs, insertions. *)
Definition lift_crypto_arms insn mode : option (L bool) :=
  match mnemonic insn with
  | Mnemonic.Aesenc => Some (more (lift_aes insn Enc))
  | Mnemonic.Aesdec => Some (more (lift_aes insn Dec))
  | Mnemonic.Aesenclast => Some (more (lift_aes insn EncLast))
  | Mnemonic.Aesdeclast => Some (more (lift_aes insn DecLast))
  | Mnemonic.Vaesenc => Some (more (lift_vaes insn Enc))
  | Mnemonic.Vaesdec => Some (more (lift_vaes insn Dec))
  | Mnemonic.Vaesenclast => Some (more (lift_vaes insn EncLast))
  | Mnemonic.Vaesdeclast => Some (more (lift_vaes insn DecLast))
  | Mnemonic.Aesimc => Some (more (lift_aes_imc insn false))
  | Mnemonic.Vaesimc => Some (more (lift_aes_imc insn true))
  | Mnemonic.Aeskeygenassist => Some (more (lift_aes_keygen insn false))
  | Mnemonic.Vaeskeygenassist => Some (more (lift_aes_keygen insn true))
  | Mnemonic.Pclmulqdq => Some (more (lift_pclmul insn))
  | Mnemonic.Vpclmulqdq => Some (more (lift_vpclmul insn))
  | Mnemonic.Movq2dq => Some (more (
        dst ← or_unsupported insn (reg_xmm insn 0);
        src_mm ← or_unsupported insn (reg_mmx insn 1);
        vpush (Movq2dq dst src_mm)))
  | Mnemonic.Movdq2q => Some (more (
        dst_mm ← or_unsupported insn (reg_mmx insn 0);
        src_xmm ← or_unsupported insn (reg_xmm insn 1);
        vpush (Movdq2q dst_mm src_xmm)))
  | Mnemonic.Emms | Mnemonic.Femms => Some (mret false)
  | Mnemonic.Sha256rnds2 => Some (more (lift_sha insn Sha256Rnds2))
  | Mnemonic.Sha256msg1 => Some (more (lift_sha insn Sha256Msg1))
  | Mnemonic.Sha256msg2 => Some (more (lift_sha insn Sha256Msg2))
  | Mnemonic.Sha1rnds4 => Some (more (lift_sha insn Sha1Rnds4))
  | Mnemonic.Sha1nexte => Some (more (lift_sha insn Sha1NextE))
  | Mnemonic.Sha1msg1 => Some (more (lift_sha insn Sha1Msg1))
  | Mnemonic.Sha1msg2 => Some (more (lift_sha insn Sha1Msg2))
  | Mnemonic.Gf2p8mulb => Some (more (lift_gfni insn Mulb))
  | Mnemonic.Gf2p8affineqb => Some (more (lift_gfni insn AffineQb))
  | Mnemonic.Gf2p8affineinvqb => Some (more (lift_gfni insn AffineInvQb))
  | Mnemonic.Vgf2p8mulb => Some (more (lift_vgfni insn Mulb))
  | Mnemonic.Vgf2p8affineqb => Some (more (lift_vgfni insn AffineQb))
  | Mnemonic.Vgf2p8affineinvqb => Some (more (lift_vgfni insn AffineInvQb))
  | Mnemonic.Psignb => Some (more (lift_psign insn 1))
  | Mnemonic.Psignw => Some (more (lift_psign insn 2))
  | Mnemonic.Psignd => Some (more (lift_psign insn 4))
  | Mnemonic.Vpsignb => Some (more (lift_vpsign insn 1))
  | Mnemonic.Vpsignw => Some (more (lift_vpsign insn 2))
  | Mnemonic.Vpsignd => Some (more (lift_vpsign insn 4))
  | Mnemonic.Punpcklbw => Some (more (lift_vunpack insn 1 false))
  | Mnemonic.Punpcklwd => Some (more (lift_vunpack insn 2 false))
  | Mnemonic.Punpckldq => Some (more (lift_vunpack insn 4 false))
  | Mnemonic.Punpcklqdq => Some (more (lift_vunpack insn 8 false))
  | Mnemonic.Punpckhbw => Some (more (lift_vunpack insn 1 true))
  | Mnemonic.Punpckhwd => Some (more (lift_vunpack insn 2 true))
  | Mnemonic.Punpckhdq => Some (more (lift_vunpack insn 4 true))
  | Mnemonic.Punpckhqdq => Some (more (lift_vunpack insn 8 true))
  | Mnemonic.Unpcklps => Some (more (lift_vunpack insn 4 false))
  | Mnemonic.Unpckhps => Some (more (lift_vunpack insn 4 true))
  | Mnemonic.Unpcklpd => Some (more (lift_vunpack insn 8 false))
  | Mnemonic.Unpckhpd => Some (more (lift_vunpack insn 8 true))
  | Mnemonic.Vpunpcklbw => Some (more (lift_vunpack_avx insn 1 false))
  | Mnemonic.Vpunpcklwd => Some (more (lift_vunpack_avx insn 2 false))
  | Mnemonic.Vpunpckldq => Some (more (lift_vunpack_avx insn 4 false))
  | Mnemonic.Vpunpcklqdq => Some (more (lift_vunpack_avx insn 8 false))
  | Mnemonic.Vpunpckhbw => Some (more (lift_vunpack_avx insn 1 true))
  | Mnemonic.Vpunpckhwd => Some (more (lift_vunpack_avx insn 2 true))
  | Mnemonic.Vpunpckhdq => Some (more (lift_vunpack_avx insn 4 true))
  | Mnemonic.Vpunpckhqdq => Some (more (lift_vunpack_avx insn 8 true))
  | Mnemonic.Vunpcklps => Some (more (lift_vunpack_avx insn 4 false))
  | Mnemonic.Vunpckhps => Some (more (lift_vunpack_avx insn 4 true))
  | Mnemonic.Vunpcklpd => Some (more (lift_vunpack_avx insn 8 false))
  | Mnemonic.Vunpckhpd => Some (more (lift_vunpack_avx insn 8 true))
  | Mnemonic.Packuswb => Some (more (lift_packuswb insn))
  | Mnemonic.Packsswb => Some (more (lift_pack_signed insn 2))
  | Mnemonic.Packssdw => Some (more (lift_pack_signed insn 4))
  | Mnemonic.Pmaddwd => Some (more (lift_pmaddwd insn))
  | Mnemonic.Vpacksswb => Some (more (lift_vpack insn 2 true))
  | Mnemonic.Vpackuswb => Some (more (lift_vpack insn 2 false))
  | Mnemonic.Vpackssdw => Some (more (lift_vpack insn 4 true))
  | Mnemonic.Vpackusdw => Some (more (lift_vpack insn 4 false))
  | Mnemonic.Pinsrw => Some (more (lift_pinsrw insn))
  | Mnemonic.Pextrw | Mnemonic.Vpextrw => Some (more (lift_pextrw insn))
  | Mnemonic.Pextrb | Mnemonic.Vpextrb => Some (more (lift_pextr insn 1))
  | Mnemonic.Pextrd | Mnemonic.Vpextrd | Mnemonic.Vextractps => Some (more (lift_pextr insn 4))
  | Mnemonic.Pextrq | Mnemonic.Vpextrq => Some (more (lift_pextr insn 8))
  | Mnemonic.Pinsrb | Mnemonic.Vpinsrb => Some (more (lift_pinsr insn 1))
  | Mnemonic.Vpinsrw => Some (more (lift_pinsr insn 2))
  | Mnemonic.Pinsrd | Mnemonic.Vpinsrd => Some (more (lift_pinsr insn 4))
  | Mnemonic.Pinsrq | Mnemonic.Vpinsrq => Some (more (lift_pinsr insn 8))
  | Mnemonic.Pmovmskb => Some (more (
        src ← or_unsupported insn (reg_xmm insn 1);
        t ← fresh;
        vpush (VMoveMaskB t src);;
        dst ← lower_write_target insn 0;
        emit_write dst (TempV t)))
  | Mnemonic.Movmskps | Mnemonic.Vmovmskps | Mnemonic.Movmskpd | Mnemonic.Vmovmskpd => Some (more (
        let elem := (if match mnemonic insn with Mnemonic.Movmskpd | Mnemonic.Vmovmskpd => true | _ => false end then 8 else 4) in
        '(src, bytes) ← (match reg_ymm insn 1 with
          | Some y =>
              mret (y, 32)
          | _ =>
              t2 ← or_unsupported insn (reg_xmm insn 1);
              mret (t2, 16)
          end : L _);
        t ← fresh;
        vpush (VMoveMaskFp t src elem bytes);;
        dst ← lower_write_target insn 0;
        emit_write dst (TempV t)))
  | _ => None
  end.

(** AVX moves and logic, mask registers, table permutes, widening. *)
Definition lift_avx_arms insn mode : option (L bool) :=
  match mnemonic insn with
  | Mnemonic.Vmovdqa | Mnemonic.Vmovdqu | Mnemonic.Vmovaps | Mnemonic.Vmovups | Mnemonic.Vmovapd
  | Mnemonic.Vmovupd | Mnemonic.Vmovntdq | Mnemonic.Vmovntps | Mnemonic.Vmovntpd | Mnemonic.Vmovntdqa => Some (more (lift_vmov_avx insn 4))
  | Mnemonic.Vmovdqu8 => Some (more (lift_vmov_avx insn 1))
  | Mnemonic.Vmovdqu16 => Some (more (lift_vmov_avx insn 2))
  | Mnemonic.Vmovdqu32 | Mnemonic.Vmovdqa32 => Some (more (lift_vmov_avx insn 4))
  | Mnemonic.Vmovdqu64 | Mnemonic.Vmovdqa64 => Some (more (lift_vmov_avx insn 8))
  | Mnemonic.Vmovq => Some (more (lift_vmov_vex insn 8))
  | Mnemonic.Vmovd => Some (more (lift_vmov_vex insn 4))
  | Mnemonic.Vpxor | Mnemonic.Vxorps | Mnemonic.Vxorpd => Some (more (lift_vlogic_avx insn VXor))
  | Mnemonic.Vpand | Mnemonic.Vandps | Mnemonic.Vandpd => Some (more (lift_vlogic_avx insn VAnd))
  | Mnemonic.Vpor | Mnemonic.Vorps | Mnemonic.Vorpd => Some (more (lift_vlogic_avx insn VOr))
  | Mnemonic.Vpandn | Mnemonic.Vandnps | Mnemonic.Vandnpd => Some (more (lift_vlogic_avx insn VAndn))
  | Mnemonic.Vpxord => Some (more (lift_evex_vlogic insn VXor 4))
  | Mnemonic.Vpxorq => Some (more (lift_evex_vlogic insn VXor 8))
  | Mnemonic.Vpandd => Some (more (lift_evex_vlogic insn VAnd 4))
  | Mnemonic.Vpandq => Some (more (lift_evex_vlogic insn VAnd 8))
  | Mnemonic.Vpord => Some (more (lift_evex_vlogic insn VOr 4))
  | Mnemonic.Vporq => Some (more (lift_evex_vlogic insn VOr 8))
  | Mnemonic.Vpandnd => Some (more (lift_evex_vlogic insn VAndn 4))
  | Mnemonic.Vpandnq => Some (more (lift_evex_vlogic insn VAndn 8))
  | Mnemonic.Vpternlogd | Mnemonic.Vpternlogq => Some (more (lift_vpternlog insn))
  | Mnemonic.Vpopcntd => Some (more (lift_vpopcnt insn 4))
  | Mnemonic.Vpopcntq => Some (more (lift_vpopcnt insn 8))
  | Mnemonic.Kunpckbw => Some (more (lift_kunpck insn 8))
  | Mnemonic.Kunpckwd => Some (more (lift_kunpck insn 16))
  | Mnemonic.Kunpckdq => Some (more (lift_kunpck insn 32))
  | Mnemonic.Korb => Some (more (lift_kbinop insn KOr 8))
  | Mnemonic.Korw => Some (more (lift_kbinop insn KOr 16))
  | Mnemonic.Kord => Some (more (lift_kbinop insn KOr 32))
  | Mnemonic.Korq => Some (more (lift_kbinop insn KOr 64))
  | Mnemonic.Kandb => Some (more (lift_kbinop insn KAnd 8))
  | Mnemonic.Kandw => Some (more (lift_kbinop insn KAnd 16))
  | Mnemonic.Kandd => Some (more (lift_kbinop insn KAnd 32))
  | Mnemonic.Kandq => Some (more (lift_kbinop insn KAnd 64))
  | Mnemonic.Kandnb => Some (more (lift_kbinop insn KAndn 8))
  | Mnemonic.Kandnw => Some (more (lift_kbinop insn KAndn 16))
  | Mnemonic.Kandnd => Some (more (lift_kbinop insn KAndn 32))
  | Mnemonic.Kandnq => Some (more (lift_kbinop insn KAndn 64))
  | Mnemonic.Kxorb => Some (more (lift_kbinop insn KXor 8))
  | Mnemonic.Kxorw => Some (more (lift_kbinop insn KXor 16))
  | Mnemonic.Kxord => Some (more (lift_kbinop insn KXor 32))
  | Mnemonic.Kxorq => Some (more (lift_kbinop insn KXor 64))
  | Mnemonic.Kxnorb => Some (more (lift_kbinop insn KXnor 8))
  | Mnemonic.Kxnorw => Some (more (lift_kbinop insn KXnor 16))
  | Mnemonic.Kxnord => Some (more (lift_kbinop insn KXnor 32))
  | Mnemonic.Kxnorq => Some (more (lift_kbinop insn KXnor 64))
  | Mnemonic.Knotb => Some (more (lift_knot insn 8))
  | Mnemonic.Knotw => Some (more (lift_knot insn 16))
  | Mnemonic.Knotd => Some (more (lift_knot insn 32))
  | Mnemonic.Knotq => Some (more (lift_knot insn 64))
  | Mnemonic.Kshiftlb => Some (more (lift_kshift insn 8 true))
  | Mnemonic.Kshiftlw => Some (more (lift_kshift insn 16 true))
  | Mnemonic.Kshiftld => Some (more (lift_kshift insn 32 true))
  | Mnemonic.Kshiftlq => Some (more (lift_kshift insn 64 true))
  | Mnemonic.Kshiftrb => Some (more (lift_kshift insn 8 false))
  | Mnemonic.Kshiftrw => Some (more (lift_kshift insn 16 false))
  | Mnemonic.Kshiftrd => Some (more (lift_kshift insn 32 false))
  | Mnemonic.Kshiftrq => Some (more (lift_kshift insn 64 false))
  | Mnemonic.Vpermt2b => Some (more (lift_vpermt2 insn 1))
  | Mnemonic.Vpermt2w => Some (more (lift_vpermt2 insn 2))
  | Mnemonic.Vpermt2d => Some (more (lift_vpermt2 insn 4))
  | Mnemonic.Vpermt2q => Some (more (lift_vpermt2 insn 8))
  | Mnemonic.Vpermi2b => Some (more (lift_vpermi2 insn 1))
  | Mnemonic.Vpermi2w => Some (more (lift_vpermi2 insn 2))
  | Mnemonic.Vpermi2d => Some (more (lift_vpermi2 insn 4))
  | Mnemonic.Vpermi2q => Some (more (lift_vpermi2 insn 8))
  | Mnemonic.Pmovzxbw => Some (more (lift_pmovx insn 1 2 false))
  | Mnemonic.Pmovzxbd => Some (more (lift_pmovx insn 1 4 false))
  | Mnemonic.Pmovzxbq => Some (more (lift_pmovx insn 1 8 false))
  | Mnemonic.Pmovzxwd => Some (more (lift_pmovx insn 2 4 false))
  | Mnemonic.Pmovzxwq => Some (more (lift_pmovx insn 2 8 false))
  | Mnemonic.Pmovzxdq => Some (more (lift_pmovx insn 4 8 false))
  | Mnemonic.Pmovsxbw => Some (more (lift_pmovx insn 1 2 true))
  | Mnemonic.Pmovsxbd => Some (more (lift_pmovx insn 1 4 true))
  | Mnemonic.Pmovsxbq => Some (more (lift_pmovx insn 1 8 true))
  | Mnemonic.Pmovsxwd => Some (more (lift_pmovx insn 2 4 true))
  | Mnemonic.Pmovsxwq => Some (more (lift_pmovx insn 2 8 true))
  | Mnemonic.Pmovsxdq => Some (more (lift_pmovx insn 4 8 true))
  | Mnemonic.Vpmovzxbw => Some (more (lift_vpmovx insn 1 2 false))
  | Mnemonic.Vpmovzxbd => Some (more (lift_vpmovx insn 1 4 false))
  | Mnemonic.Vpmovzxbq => Some (more (lift_vpmovx insn 1 8 false))
  | Mnemonic.Vpmovzxwd => Some (more (lift_vpmovx insn 2 4 false))
  | Mnemonic.Vpmovzxwq => Some (more (lift_vpmovx insn 2 8 false))
  | Mnemonic.Vpmovzxdq => Some (more (lift_vpmovx insn 4 8 false))
  | Mnemonic.Vpmovsxbw => Some (more (lift_vpmovx insn 1 2 true))
  | Mnemonic.Vpmovsxbd => Some (more (lift_vpmovx insn 1 4 true))
  | Mnemonic.Vpmovsxbq => Some (more (lift_vpmovx insn 1 8 true))
  | Mnemonic.Vpmovsxwd => Some (more (lift_vpmovx insn 2 4 true))
  | Mnemonic.Vpmovsxwq => Some (more (lift_vpmovx insn 2 8 true))
  | Mnemonic.Vpmovsxdq => Some (more (lift_vpmovx insn 4 8 true))
  | Mnemonic.Vpmovqd => Some (more (lift_vpmov_narrow insn 8 4))
  | Mnemonic.Vpmovqw => Some (more (lift_vpmov_narrow insn 8 2))
  | Mnemonic.Vpmovqb => Some (more (lift_vpmov_narrow insn 8 1))
  | Mnemonic.Vpmovdw => Some (more (lift_vpmov_narrow insn 4 2))
  | Mnemonic.Vpmovdb => Some (more (lift_vpmov_narrow insn 4 1))
  | Mnemonic.Vpmovwb => Some (more (lift_vpmov_narrow insn 2 1))
  | Mnemonic.Pmullw => Some (more (lift_vpacked_bin insn 2 MulLo16))
  | _ => None
  end.

(** Packed multiplication, blends, rounding, string compares. *)
Definition lift_packed_arms insn mode : option (L bool) :=
  match mnemonic insn with
  | Mnemonic.Vpmullw => Some (more (lift_vpacked_bin_avx insn 2 MulLo16))
  | Mnemonic.Pmulhuw => Some (more (lift_vpacked_bin insn 2 MulHiU16))
  | Mnemonic.Vpmulhuw => Some (more (lift_vpacked_bin_avx insn 2 MulHiU16))
  | Mnemonic.Pmulhw => Some (more (lift_vpacked_bin insn 2 MulHiS16))
  | Mnemonic.Vpmulhw => Some (more (lift_vpacked_bin_avx insn 2 MulHiS16))
  | Mnemonic.Pmulld => Some (more (lift_vpacked_bin insn 4 MulLo32))
  | Mnemonic.Vpmulld => Some (more (lift_vpacked_bin_avx insn 4 MulLo32))
  | Mnemonic.Pmuludq => Some (more (lift_vpacked_bin insn 8 MulU32))
  | Mnemonic.Vpmuludq => Some (more (lift_vpacked_bin_avx insn 8 MulU32))
  | Mnemonic.Pmuldq => Some (more (lift_vpacked_bin insn 8 MulS32))
  | Mnemonic.Vpmuldq => Some (more (lift_vpacked_bin_avx insn 8 MulS32))
  | Mnemonic.Pminsd => Some (more (lift_vpacked_bin insn 4 MinS))
  | Mnemonic.Pmaxsd => Some (more (lift_vpacked_bin insn 4 MaxS))
  | Mnemonic.Pminud => Some (more (lift_vpacked_bin insn 4 MinU))
  | Mnemonic.Pmaxud => Some (more (lift_vpacked_bin insn 4 MaxU))
  | Mnemonic.Blendvps => Some (more (lift_blendv insn 4))
  | Mnemonic.Blendvpd => Some (more (lift_blendv insn 8))
  | Mnemonic.Pblendvb => Some (more (lift_blendv insn 1))
  | Mnemonic.Vblendvps => Some (more (lift_vblendv insn 4))
  | Mnemonic.Vblendvpd => Some (more (lift_vblendv insn 8))
  | Mnemonic.Vpblendvb => Some (more (lift_vblendv insn 1))
  | Mnemonic.Vmaskmovps => Some (more (lift_vmaskmov insn 4))
  | Mnemonic.Vmaskmovpd => Some (more (lift_vmaskmov insn 8))
  | Mnemonic.Blendps => Some (more (lift_blendi insn 4))
  | Mnemonic.Blendpd => Some (more (lift_blendi insn 8))
  | Mnemonic.Vblendps => Some (more (lift_vblendi insn 4))
  | Mnemonic.Vblendpd => Some (more (lift_vblendi insn 8))
  | Mnemonic.Pblendw => Some (more (
        dst ← or_unsupported insn (reg_xmm insn 0);
        b ← or_unsupported insn (reg_xmm insn 1);
        let imm := wrap 8 (immediate insn 2) in
        vpush (VBlendW dst dst b imm 16)))
  | Mnemonic.Vpblendw => Some (more (lift_vpblendw insn))
  | Mnemonic.Vpblendd => Some (more (lift_vpblendd insn))
  | Mnemonic.Roundps => Some (more (lift_round insn F32 false))
  | Mnemonic.Roundpd => Some (more (lift_round insn F64 false))
  | Mnemonic.Roundss => Some (more (lift_round insn F32 true))
  | Mnemonic.Roundsd => Some (more (lift_round insn F64 true))
  | Mnemonic.Vroundps => Some (more (lift_vround insn F32))
  | Mnemonic.Vroundpd => Some (more (lift_vround insn F64))
  | Mnemonic.Vroundss => Some (more (lift_vround_scalar insn F32))
  | Mnemonic.Vroundsd => Some (more (lift_vround_scalar insn F64))
  | Mnemonic.Vrndscaless => Some (more (lift_vrndscale insn F32))
  | Mnemonic.Vrndscalesd => Some (more (lift_vrndscale insn F64))
  | Mnemonic.Pcmpistri | Mnemonic.Vpcmpistri => Some (more (lift_pcmpstr_idx insn false))
  | Mnemonic.Pcmpestri | Mnemonic.Vpcmpestri | Mnemonic.Pcmpestri64 | Mnemonic.Vpcmpestri64 => Some (more (lift_pcmpstr_idx insn true))
  | Mnemonic.Pcmpistrm | Mnemonic.Vpcmpistrm => Some (more (lift_pcmpstr_mask insn false))
  | Mnemonic.Pcmpestrm | Mnemonic.Vpcmpestrm | Mnemonic.Pcmpestrm64 | Mnemonic.Vpcmpestrm64 => Some (more (lift_pcmpstr_mask insn true))
  | Mnemonic.Insertps => Some (more (lift_insertps insn))
  | Mnemonic.Vinsertps => Some (more (lift_vinsertps insn))
  | Mnemonic.Dpps => Some (more (lift_dpps insn))
  | Mnemonic.Dppd => Some (more (lift_dppd insn))
  | Mnemonic.Vdppd => Some (more (lift_vdp insn F64))
  | Mnemonic.Vdpps => Some (more (lift_vdpps insn))
  | Mnemonic.Phminposuw => Some (more (lift_phminposuw insn false))
  | Mnemonic.Vphminposuw => Some (more (lift_phminposuw insn true))
  | Mnemonic.Mpsadbw => Some (more (lift_mpsadbw insn false))
  | Mnemonic.Vmpsadbw => Some (more (lift_mpsadbw insn true))
  | Mnemonic.Vpaddb => Some (more (lift_vpacked_bin_avx insn 1 PAdd))
  | Mnemonic.Vpaddw => Some (more (lift_vpacked_bin_avx insn 2 PAdd))
  | Mnemonic.Vpaddd => Some (more (lift_vpacked_bin_avx insn 4 PAdd))
  | Mnemonic.Vpaddq => Some (more (lift_vpacked_bin_avx insn 8 PAdd))
  | Mnemonic.Vpsubb => Some (more (lift_vpacked_bin_avx insn 1 PSub))
  | Mnemonic.Vpsubw => Some (more (lift_vpacked_bin_avx insn 2 PSub))
  | Mnemonic.Vpsubd => Some (more (lift_vpacked_bin_avx insn 4 PSub))
  | Mnemonic.Vpsubq => Some (more (lift_vpacked_bin_avx insn 8 PSub))
  | Mnemonic.Vpcmpeqb => Some (more (lift_vpcmp_fixed_or_packed insn 1 CmpEq 0 false))
  | Mnemonic.Vpcmpeqw => Some (more (lift_vpcmp_fixed_or_packed insn 2 CmpEq 0 false))
  | Mnemonic.Vpcmpeqd => Some (more (lift_vpcmp_fixed_or_packed insn 4 CmpEq 0 false))
  | Mnemonic.Vpcmpeqq => Some (more (lift_vpcmp_fixed_or_packed insn 8 CmpEq 0 false))
  | Mnemonic.Vpcmpgtb => Some (more (lift_vpcmp_fixed_or_packed insn 1 CmpGt 6 true))
  | Mnemonic.Vpcmpgtw => Some (more (lift_vpcmp_fixed_or_packed insn 2 CmpGt 6 true))
  | Mnemonic.Vpcmpgtd => Some (more (lift_vpcmp_fixed_or_packed insn 4 CmpGt 6 true))
  | Mnemonic.Vpcmpgtq => Some (more (lift_vpcmp_fixed_or_packed insn 8 CmpGt 6 true))
  | Mnemonic.Vpminub => Some (more (lift_vpacked_bin_avx insn 1 MinU))
  | Mnemonic.Vpmaxub => Some (more (lift_vpacked_bin_avx insn 1 MaxU))
  | Mnemonic.Vpminud => Some (more (lift_vpacked_bin_avx insn 4 MinU))
  | Mnemonic.Vpmaxud => Some (more (lift_vpacked_bin_avx insn 4 MaxU))
  | Mnemonic.Vpminsd => Some (more (lift_vpacked_bin_avx insn 4 MinS))
  | Mnemonic.Vpmaxsd => Some (more (lift_vpacked_bin_avx insn 4 MaxS))
  | _ => None
  end.

(** VEX and EVEX packed arithmetic, tests and compares. *)
Definition lift_packed_avx_arms insn mode : option (L bool) :=
  match mnemonic insn with
  | Mnemonic.Vpaddsb => Some (more (lift_vpacked_bin_avx insn 1 AddSatS))
  | Mnemonic.Vpaddsw => Some (more (lift_vpacked_bin_avx insn 2 AddSatS))
  | Mnemonic.Vpaddusb => Some (more (lift_vpacked_bin_avx insn 1 AddSatU))
  | Mnemonic.Vpaddusw => Some (more (lift_vpacked_bin_avx insn 2 AddSatU))
  | Mnemonic.Vpsubsb => Some (more (lift_vpacked_bin_avx insn 1 SubSatS))
  | Mnemonic.Vpsubsw => Some (more (lift_vpacked_bin_avx insn 2 SubSatS))
  | Mnemonic.Vpsubusb => Some (more (lift_vpacked_bin_avx insn 1 SubSatU))
  | Mnemonic.Vpsubusw => Some (more (lift_vpacked_bin_avx insn 2 SubSatU))
  | Mnemonic.Vpavgb => Some (more (lift_vpacked_bin_avx insn 1 AvgU))
  | Mnemonic.Vpavgw => Some (more (lift_vpacked_bin_avx insn 2 AvgU))
  | Mnemonic.Vpmaxsb => Some (more (lift_vpacked_bin_avx insn 1 MaxS))
  | Mnemonic.Vpmaxsw => Some (more (lift_vpacked_bin_avx insn 2 MaxS))
  | Mnemonic.Vpmaxuw => Some (more (lift_vpacked_bin_avx insn 2 MaxU))
  | Mnemonic.Vpminsb => Some (more (lift_vpacked_bin_avx insn 1 MinS))
  | Mnemonic.Vpminsw => Some (more (lift_vpacked_bin_avx insn 2 MinS))
  | Mnemonic.Vpminuw => Some (more (lift_vpacked_bin_avx insn 2 MinU))
  | Mnemonic.Pmulhrsw => Some (more (lift_vpacked_bin insn 2 MulHiRoundedS16))
  | Mnemonic.Vpmulhrsw => Some (more (lift_vpacked_bin_avx insn 2 MulHiRoundedS16))
  | Mnemonic.Vpmaddwd => Some (more (lift_vpmadd insn false))
  | Mnemonic.Vpmaddubsw => Some (more (lift_vpmadd insn true))
  | Mnemonic.Pmaddubsw => Some (more (lift_pmaddubsw insn))
  | Mnemonic.Vpabsb => Some (more (lift_vpabs insn 1))
  | Mnemonic.Vpabsw => Some (more (lift_vpabs insn 2))
  | Mnemonic.Vpabsd => Some (more (lift_vpabs insn 4))
  | Mnemonic.Vpabsq => Some (more (lift_vpabs insn 8))
  | Mnemonic.Vplzcntd => Some (more (lift_vp_unary_lane insn Lzcnt_ 4))
  | Mnemonic.Vplzcntq => Some (more (lift_vp_unary_lane insn Lzcnt_ 8))
  | Mnemonic.Vprold => Some (more (lift_vp_unary_lane insn Rol_ 4))
  | Mnemonic.Vprolq => Some (more (lift_vp_unary_lane insn Rol_ 8))
  | Mnemonic.Vpconflictd => Some (more (lift_vp_unary_lane insn Conflict 4))
  | Mnemonic.Vpconflictq => Some (more (lift_vp_unary_lane insn Conflict 8))
  | Mnemonic.Vpblendmd => Some (more (lift_vp_blendm insn 4))
  | Mnemonic.Vpblendmq => Some (more (lift_vp_blendm insn 8))
  | Mnemonic.Vshuff32x4 => Some (more (lift_vshuf_lane insn 4))
  | Mnemonic.Vshuff64x2 => Some (more (lift_vshuf_lane insn 8))
  | Mnemonic.Vpmultishiftqb => Some (more (lift_vp_multishift insn))
  | Mnemonic.Vpmaxuq => Some (more (lift_evex_packed_bin_128 insn 8 MaxU))
  | Mnemonic.Vpminuq => Some (more (lift_evex_packed_bin_128 insn 8 MinU))
  | Mnemonic.Vpmaxsq => Some (more (lift_evex_packed_bin_128 insn 8 MaxS))
  | Mnemonic.Vpminsq => Some (more (lift_evex_packed_bin_128 insn 8 MinS))
  | Mnemonic.Vpmullq => Some (more (lift_vpacked_bin_avx insn 8 MulLo64))
  | Mnemonic.Vptestmb => Some (more (lift_vptest insn 1 false))
  | Mnemonic.Vptestmw => Some (more (lift_vptest insn 2 false))
  | Mnemonic.Vptestmd => Some (more (lift_vptest insn 4 false))
  | Mnemonic.Vptestmq => Some (more (lift_vptest insn 8 false))
  | Mnemonic.Vptestnmb => Some (more (lift_vptest insn 1 true))
  | Mnemonic.Vptestnmw => Some (more (lift_vptest insn 2 true))
  | Mnemonic.Vptestnmd => Some (more (lift_vptest insn 4 true))
  | Mnemonic.Vptestnmq => Some (more (lift_vptest insn 8 true))
  | Mnemonic.Vpcmpb => Some (more (lift_vpcmp insn 1 true))
  | Mnemonic.Vpcmpw => Some (more (lift_vpcmp insn 2 true))
  | Mnemonic.Vpcmpd => Some (more (lift_vpcmp insn 4 true))
  | Mnemonic.Vpcmpq => Some (more (lift_vpcmp insn 8 true))
  | Mnemonic.Vpcmpub => Some (more (lift_vpcmp insn 1 false))
  | Mnemonic.Vpcmpuw => Some (more (lift_vpcmp insn 2 false))
  | Mnemonic.Vpcmpud => Some (more (lift_vpcmp insn 4 false))
  | Mnemonic.Vpcmpuq => Some (more (lift_vpcmp insn 8 false))
  | Mnemonic.Kortestb => Some (more (lift_kortest insn 8))
  | Mnemonic.Kortestw => Some (more (lift_kortest insn 16))
  | Mnemonic.Kortestd => Some (more (lift_kortest insn 32))
  | Mnemonic.Kortestq => Some (more (lift_kortest insn 64))
  | Mnemonic.Kmovb => Some (more (lift_kmov insn 8))
  | Mnemonic.Kmovw => Some (more (lift_kmov insn 16))
  | Mnemonic.Kmovd => Some (more (lift_kmov insn 32))
  | Mnemonic.Kmovq => Some (more (lift_kmov insn 64))
  | _ => None
  end.

(** Byte shuffles, broadcasts, lanes, VEX shifts. *)
Definition lift_wide_arms insn mode : option (L bool) :=
  match mnemonic insn with
  | Mnemonic.Vpmovmskb => Some (more (
        t ← fresh;
        (match reg_ymm insn 1 with
         | Some src =>
             vpush (VMoveMaskB256 t src)
         | _ =>
             src ← or_unsupported insn (reg_xmm insn 1);
             vpush (VMoveMaskB t src)
         end);;
        dst ← lower_write_target insn 0;
        emit_write dst (TempV t)))
  | Mnemonic.Vpshufb => Some (if is_some (reg_zmm insn 0) || evex_is_masked insn then
          '(d, bytes) ← or_unsupported insn (vec_operand insn 0);
          a ← or_unsupported insn (vec_operand_reg insn 1);
          idx ← or_unsupported insn (vec_operand_reg insn 2);
          vpush (VPshufbWide d a idx bytes (evex_writemask insn) (zeroing_masking insn));;
          mret false
        else
          match reg_ymm insn 0 with
          | Some d =>
              a ← or_unsupported insn (reg_ymm insn 1);
              vec_src_dispatch insn reg_ymm 2
                (fun idx => vpush (VPshufb256 d a idx))
                (fun addr => vpush (VPshufb256M d a addr));;
              mret false
          | _ =>
              d ← or_unsupported insn (reg_xmm insn 0);
              a ← or_unsupported insn (reg_xmm insn 1);
              vec_src_dispatch insn reg_xmm 2
                (fun idx => vpush (VPshufb d a idx))
                (fun addr => (if negb (bool_decide (d = a)) then
                     vpush (VMov d a)
                   else
                     mret tt);;
                  vpush (VPshufbM d addr));;
              vpush (VZeroUpper d);;
              mret false
          end)
  | Mnemonic.Vzeroupper | Mnemonic.Vzeroall => Some (more (vpush (VZeroUpperAll (match mnemonic insn with Mnemonic.Vzeroall => true | _ => false end))))
  | Mnemonic.Vpbroadcastb => Some (more (lift_broadcast insn 1))
  | Mnemonic.Vpbroadcastw => Some (more (lift_broadcast insn 2))
  | Mnemonic.Vpbroadcastd => Some (more (lift_broadcast insn 4))
  | Mnemonic.Vpbroadcastq => Some (more (lift_broadcast insn 8))
  | Mnemonic.Vbroadcastss => Some (more (lift_broadcast insn 4))
  | Mnemonic.Vbroadcastsd => Some (more (lift_broadcast insn 8))
  | Mnemonic.Vbroadcastf32x2 | Mnemonic.Vbroadcasti32x2 => Some (more (lift_broadcast_lane insn 8 4))
  | Mnemonic.Vbroadcastf32x4 | Mnemonic.Vbroadcasti32x4 => Some (more (lift_broadcast_lane insn 16 4))
  | Mnemonic.Vbroadcastf64x2 | Mnemonic.Vbroadcasti64x2 => Some (more (lift_broadcast_lane insn 16 8))
  | Mnemonic.Vbroadcastf32x8 | Mnemonic.Vbroadcasti32x8 => Some (more (lift_broadcast_lane insn 32 4))
  | Mnemonic.Vbroadcastf64x4 | Mnemonic.Vbroadcasti64x4 => Some (more (lift_broadcast_lane insn 32 8))
  | Mnemonic.Vbroadcasti128 | Mnemonic.Vbroadcastf128 => Some (more (lift_broadcast_lane insn 16 16))
  | Mnemonic.Vinserti128 | Mnemonic.Vinsertf128 => Some (dst ← or_unsupported insn (reg_ymm insn 0);
        src ← or_unsupported insn (reg_ymm insn 1);
        let hi := negb (bool_decide (Z.land (immediate insn 3) 1 = 0)) in
        if bool_decide (op_kind insn 2 = OpKind.Memory) then
          addr ← effective_address insn;
          vpush (VInsert128M dst src addr hi);;
          mret false
        else
          ins ← or_unsupported insn (reg_xmm insn 2);
          vpush (VInsert128 dst src ins hi);;
          mret false)
  | Mnemonic.Vextracti128 | Mnemonic.Vextractf128 => Some (if bool_decide (op_kind insn 0 = OpKind.Memory) then
          lift_vextract_wide insn 1;; mret false
        else
          dst ← or_unsupported insn (reg_xmm insn 0);
          src ← or_unsupported insn (reg_ymm insn 1);
          let hi := negb (bool_decide (Z.land (immediate insn 2) 1 = 0)) in
          vpush (VExtract128 dst src hi);;
          mret false)
  | Mnemonic.Vinserti32x4 | Mnemonic.Vinsertf32x4 | Mnemonic.Vinserti64x2 | Mnemonic.Vinsertf64x2 => Some (more (lift_vinsert_wide insn 1))
  | Mnemonic.Vinserti64x4 | Mnemonic.Vinsertf64x4 | Mnemonic.Vinserti32x8 | Mnemonic.Vinsertf32x8 => Some (more (lift_vinsert_wide insn 2))
  | Mnemonic.Vextracti32x4 | Mnemonic.Vextractf32x4 | Mnemonic.Vextracti64x2 | Mnemonic.Vextractf64x2 => Some (more (lift_vextract_wide insn 1))
  | Mnemonic.Vextracti64x4 | Mnemonic.Vextractf64x4 | Mnemonic.Vextracti32x8 | Mnemonic.Vextractf32x8 => Some (more (lift_vextract_wide insn 2))
  | Mnemonic.Valignd => Some (more (lift_valign insn 4))
  | Mnemonic.Valignq => Some (more (lift_valign insn 8))
  | Mnemonic.Vpsllw => Some (more (lift_vpacked_shift_avx insn 2 false false))
  | _ => None
  end.

(** Variable shifts, permutes, tests. *)
Definition lift_perm_arms insn mode : option (L bool) :=
  match mnemonic insn with
  | Mnemonic.Vpslld => Some (more (lift_vpacked_shift_avx insn 4 false false))
  | Mnemonic.Vpsllq => Some (more (lift_vpacked_shift_avx insn 8 false false))
  | Mnemonic.Vpsrlw => Some (more (lift_vpacked_shift_avx insn 2 true false))
  | Mnemonic.Vpsrld => Some (more (lift_vpacked_shift_avx insn 4 true false))
  | Mnemonic.Vpsrlq => Some (more (lift_vpacked_shift_avx insn 8 true false))
  | Mnemonic.Vpsraw => Some (more (lift_vpacked_shift_avx insn 2 true true))
  | Mnemonic.Vpsrad => Some (more (lift_vpacked_shift_avx insn 4 true true))
  | Mnemonic.Vpsraq => Some (more (lift_vpacked_shift_avx insn 8 true true))
  | Mnemonic.Vpsllvw => Some (more (lift_vshift_var insn 2 false false))
  | Mnemonic.Vpsllvd => Some (more (lift_vshift_var insn 4 false false))
  | Mnemonic.Vpsllvq => Some (more (lift_vshift_var insn 8 false false))
  | Mnemonic.Vpsrlvw => Some (more (lift_vshift_var insn 2 true false))
  | Mnemonic.Vpsrlvd => Some (more (lift_vshift_var insn 4 true false))
  | Mnemonic.Vpsrlvq => Some (more (lift_vshift_var insn 8 true false))
  | Mnemonic.Vpsravw => Some (more (lift_vshift_var insn 2 true true))
  | Mnemonic.Vpsravd => Some (more (lift_vshift_var insn 4 true true))
  | Mnemonic.Vpsravq => Some (more (lift_vshift_var insn 8 true true))
  | Mnemonic.Vpermq =>
      if bool_decide (op_kind insn 2 = OpKind.Immediate8) then Some (dst ← or_unsupported insn (reg_ymm insn 0);
        let imm := immediate8 insn in
        src ← (match reg_ymm insn 1 with
          | Some s =>
              mret s
          | None =>
              if bool_decide (op_kind insn 1 = OpKind.Memory) then
                addr ← effective_address insn;
                vpush (VLoadWide dst addr 32);;
                mret dst
              else
                unsupported insn
          end : L _);
        vpush (VPermq dst src imm);;
        mret false)
      else Some (more (lift_vperm1 insn 8))
  | Mnemonic.Vpermpd =>
      if bool_decide (op_kind insn 2 = OpKind.Immediate8) then Some (dst ← or_unsupported insn (reg_ymm insn 0);
        let imm := immediate8 insn in
        src ← (match reg_ymm insn 1 with
          | Some s =>
              mret s
          | None =>
              if bool_decide (op_kind insn 1 = OpKind.Memory) then
                addr ← effective_address insn;
                vpush (VLoadWide dst addr 32);;
                mret dst
              else
                unsupported insn
          end : L _);
        vpush (VPermq dst src imm);;
        mret false)
      else None
  | Mnemonic.Vpermd | Mnemonic.Vpermps => Some (if is_some (reg_zmm insn 0) || evex_is_masked insn then
          lift_vperm1 insn 4;; mret false
        else
          dst ← or_unsupported insn (reg_ymm insn 0);
          ctrl ← or_unsupported insn (reg_ymm insn 1);
          src ← or_unsupported insn (reg_ymm insn 2);
          vpush (VPermd dst ctrl src);;
          mret false)
  | Mnemonic.Vperm2i128 | Mnemonic.Vperm2f128 => Some (more (
        dst ← or_unsupported insn (reg_ymm insn 0);
        a ← or_unsupported insn (reg_ymm insn 1);
        b ← or_unsupported insn (reg_ymm insn 2);
        let imm := wrap 8 (immediate insn 3) in
        vpush (VPerm2i128 dst a b imm)))
  | Mnemonic.Ptest | Mnemonic.Vptest => Some (match reg_ymm insn 0 with
        | Some a =>
            b ← or_unsupported insn (reg_ymm insn 1);
            vpush (VPtest a b true);;
            mret false
        | _ =>
            a ← or_unsupported insn (reg_xmm insn 0);
            b ← or_unsupported insn (reg_xmm insn 1);
            vpush (VPtest a b false);;
            mret false
        end)
  | Mnemonic.Vtestps | Mnemonic.Vtestpd => Some (more (
        let elem := (if match mnemonic insn with Mnemonic.Vtestpd => true | _ => false end then 8 else 4) in
        '(a, bytes) ← (match reg_ymm insn 0 with
          | Some y =>
              mret (y, 32)
          | _ =>
              t2 ← or_unsupported insn (reg_xmm insn 0);
              mret (t2, 16)
          end : L _);
        b ← (if bool_decide (bytes = 32) then
            t4 ← or_unsupported insn (reg_ymm insn 1);
            mret t4
          else
            t5 ← or_unsupported insn (reg_xmm insn 1);
            mret t5 : L _);
        vpush (VTestFp a b elem bytes)))
  | Mnemonic.Vpalignr => Some (let imm := wrap 8 (immediate insn 3) in
        match reg_ymm insn 0 with
        | Some dst =>
            a ← or_unsupported insn (reg_ymm insn 1);
            b ← or_unsupported insn (reg_ymm insn 2);
            vpush (VPalignr256 dst a b imm);;
            mret false
        | _ =>
            d ← or_unsupported insn (reg_xmm insn 0);
            a ← or_unsupported insn (reg_xmm insn 1);
            b ← or_unsupported insn (reg_xmm insn 2);
            vpush (VAlignr d a b imm);;
            vpush (VZeroUpper d);;
            mret false
        end)
  | _ => None
  end.

(** Scalar and packed floating point. *)
Definition lift_float_arms insn mode : option (L bool) :=
  match mnemonic insn with
  | Mnemonic.Movss => Some (more (lift_scalar_fmove insn F32))
  | Mnemonic.Movsd => Some (more (lift_scalar_fmove insn F64))
  | Mnemonic.Vmovss => Some (more (lift_vscalar_fmove insn F32))
  | Mnemonic.Vmovsd => Some (more (lift_vscalar_fmove insn F64))
  | Mnemonic.Addss => Some (more (lift_float_bin insn FAdd F32 true))
  | Mnemonic.Addsd => Some (more (lift_float_bin insn FAdd F64 true))
  | Mnemonic.Addps => Some (more (lift_float_bin insn FAdd F32 false))
  | Mnemonic.Addpd => Some (more (lift_float_bin insn FAdd F64 false))
  | Mnemonic.Subss => Some (more (lift_float_bin insn FSub F32 true))
  | Mnemonic.Subsd => Some (more (lift_float_bin insn FSub F64 true))
  | Mnemonic.Subps => Some (more (lift_float_bin insn FSub F32 false))
  | Mnemonic.Subpd => Some (more (lift_float_bin insn FSub F64 false))
  | Mnemonic.Mulss => Some (more (lift_float_bin insn FMul F32 true))
  | Mnemonic.Mulsd => Some (more (lift_float_bin insn FMul F64 true))
  | Mnemonic.Mulps => Some (more (lift_float_bin insn FMul F32 false))
  | Mnemonic.Mulpd => Some (more (lift_float_bin insn FMul F64 false))
  | Mnemonic.Divss => Some (more (lift_float_bin insn FDiv F32 true))
  | Mnemonic.Divsd => Some (more (lift_float_bin insn FDiv F64 true))
  | Mnemonic.Divps => Some (more (lift_float_bin insn FDiv F32 false))
  | Mnemonic.Divpd => Some (more (lift_float_bin insn FDiv F64 false))
  | Mnemonic.Ucomiss | Mnemonic.Comiss | Mnemonic.Vucomiss | Mnemonic.Vcomiss => Some (more (lift_float_cmp insn F32))
  | Mnemonic.Ucomisd | Mnemonic.Comisd | Mnemonic.Vucomisd | Mnemonic.Vcomisd => Some (more (lift_float_cmp insn F64))
  | Mnemonic.Cmpss => Some (more (lift_float_cmp_mask insn F32 true))
  | Mnemonic.Cmppd => Some (more (lift_float_cmp_mask insn F64 false))
  | Mnemonic.Cmpps => Some (more (lift_float_cmp_mask insn F32 false))
  | Mnemonic.Vcmpss => Some (more (lift_vfloat_cmp_mask insn F32 true))
  | Mnemonic.Vcmpsd => Some (more (lift_vfloat_cmp_mask insn F64 true))
  | Mnemonic.Vcmpps => Some (more (lift_vfloat_cmp_mask insn F32 false))
  | Mnemonic.Vcmppd => Some (more (lift_vfloat_cmp_mask insn F64 false))
  | Mnemonic.Cvtsi2ss => Some (more (lift_cvt_from_int insn F32))
  | Mnemonic.Cvtsi2sd => Some (more (lift_cvt_from_int insn F64))
  | Mnemonic.Vcvtsi2ss => Some (more (lift_vcvt_from_int insn F32 true))
  | Mnemonic.Vcvtsi2sd => Some (more (lift_vcvt_from_int insn F64 true))
  | Mnemonic.Vcvtusi2ss => Some (more (lift_vcvt_from_int insn F32 false))
  | Mnemonic.Vcvtusi2sd => Some (more (lift_vcvt_from_int insn F64 false))
  | Mnemonic.Cvttss2si | Mnemonic.Vcvttss2si => Some (more (lift_cvt_to_int insn F32 true))
  | Mnemonic.Cvtss2si | Mnemonic.Vcvtss2si => Some (more (lift_cvt_to_int insn F32 false))
  | Mnemonic.Cvttsd2si | Mnemonic.Vcvttsd2si => Some (more (lift_cvt_to_int insn F64 true))
  | Mnemonic.Cvtsd2si | Mnemonic.Vcvtsd2si => Some (more (lift_cvt_to_int insn F64 false))
  | Mnemonic.Vcvttss2usi => Some (more (lift_cvt_to_int_signed insn F32 true false))
  | Mnemonic.Vcvtss2usi => Some (more (lift_cvt_to_int_signed insn F32 false false))
  | Mnemonic.Vcvttsd2usi => Some (more (lift_cvt_to_int_signed insn F64 true false))
  | Mnemonic.Vcvtsd2usi => Some (more (lift_cvt_to_int_signed insn F64 false false))
  | Mnemonic.Cvtss2sd => Some (more (lift_cvt_float insn F32 F64))
  | Mnemonic.Cvtsd2ss => Some (more (lift_cvt_float insn F64 F32))
  | Mnemonic.Cvtdq2ps => Some (more (lift_packed_cvt insn Dq2Ps false))
  | Mnemonic.Cvtps2dq => Some (more (lift_packed_cvt insn Ps2Dq false))
  | Mnemonic.Cvttps2dq => Some (more (lift_packed_cvt insn Tps2Dq false))
  | Mnemonic.Cvtdq2pd => Some (more (lift_packed_cvt insn Dq2Pd false))
  | Mnemonic.Cvtps2pd => Some (more (lift_packed_cvt insn Ps2Pd false))
  | Mnemonic.Cvtpd2ps => Some (more (lift_packed_cvt insn Pd2Ps false))
  | Mnemonic.Cvtpd2dq => Some (more (lift_packed_cvt insn Pd2Dq false))
  | Mnemonic.Cvttpd2dq => Some (more (lift_packed_cvt insn Tpd2Dq false))
  | Mnemonic.Vcvtdq2ps => Some (more (lift_packed_cvt insn Dq2Ps true))
  | Mnemonic.Vcvtps2dq => Some (more (lift_packed_cvt insn Ps2Dq true))
  | Mnemonic.Vcvttps2dq => Some (more (lift_packed_cvt insn Tps2Dq true))
  | Mnemonic.Vcvtdq2pd => Some (more (lift_packed_cvt insn Dq2Pd true))
  | Mnemonic.Vcvtps2pd => Some (more (lift_packed_cvt insn Ps2Pd true))
  | Mnemonic.Vcvtpd2ps => Some (more (lift_packed_cvt insn Pd2Ps true))
  | Mnemonic.Vcvtpd2dq => Some (more (lift_packed_cvt insn Pd2Dq true))
  | Mnemonic.Vcvttpd2dq => Some (more (lift_packed_cvt insn Tpd2Dq true))
  | Mnemonic.Vcvtph2ps => Some (more (lift_vcvtph2ps insn))
  | Mnemonic.Vcvtps2ph => Some (more (lift_vcvtps2ph insn))
  | Mnemonic.Vcvtss2sd => Some (more (lift_vcvt_scalar insn F32 F64))
  | Mnemonic.Vcvtsd2ss => Some (more (lift_vcvt_scalar insn F64 F32))
  | Mnemonic.Minss => Some (more (lift_float_bin insn FMin F32 true))
  | Mnemonic.Minsd => Some (more (lift_float_bin insn FMin F64 true))
  | Mnemonic.Minps => Some (more (lift_float_bin insn FMin F32 false))
  | Mnemonic.Minpd => Some (more (lift_float_bin insn FMin F64 false))
  | Mnemonic.Maxss => Some (more (lift_float_bin insn FMax F32 true))
  | Mnemonic.Maxsd => Some (more (lift_float_bin insn FMax F64 true))
  | Mnemonic.Maxps => Some (more (lift_float_bin insn FMax F32 false))
  | Mnemonic.Maxpd => Some (more (lift_float_bin insn FMax F64 false))
  | Mnemonic.Vaddss => Some (more (lift_vfloat_bin insn FAdd F32 true))
  | Mnemonic.Vaddsd => Some (more (lift_vfloat_bin insn FAdd F64 true))
  | Mnemonic.Vaddps => Some (more (lift_vfloat_bin insn FAdd F32 false))
  | Mnemonic.Vaddpd => Some (more (lift_vfloat_bin insn FAdd F64 false))
  | Mnemonic.Vsubss => Some (more (lift_vfloat_bin insn FSub F32 true))
  | Mnemonic.Vsubsd => Some (more (lift_vfloat_bin insn FSub F64 true))
  | Mnemonic.Vsubps => Some (more (lift_vfloat_bin insn FSub F32 false))
  | Mnemonic.Vsubpd => Some (more (lift_vfloat_bin insn FSub F64 false))
  | Mnemonic.Vmulss => Some (more (lift_vfloat_bin insn FMul F32 true))
  | Mnemonic.Vmulsd => Some (more (lift_vfloat_bin insn FMul F64 true))
  | Mnemonic.Vmulps => Some (more (lift_vfloat_bin insn FMul F32 false))
  | Mnemonic.Vmulpd => Some (more (lift_vfloat_bin insn FMul F64 false))
  | Mnemonic.Vdivss => Some (more (lift_vfloat_bin insn FDiv F32 true))
  | Mnemonic.Vdivsd => Some (more (lift_vfloat_bin insn FDiv F64 true))
  | Mnemonic.Vdivps => Some (more (lift_vfloat_bin insn FDiv F32 false))
  | Mnemonic.Vdivpd => Some (more (lift_vfloat_bin insn FDiv F64 false))
  | Mnemonic.Vminss => Some (more (lift_vfloat_bin insn FMin F32 true))
  | Mnemonic.Vminsd => Some (more (lift_vfloat_bin insn FMin F64 true))
  | Mnemonic.Vminps => Some (more (lift_vfloat_bin insn FMin F32 false))
  | Mnemonic.Vminpd => Some (more (lift_vfloat_bin insn FMin F64 false))
  | Mnemonic.Vmaxss => Some (more (lift_vfloat_bin insn FMax F32 true))
  | Mnemonic.Vmaxsd => Some (more (lift_vfloat_bin insn FMax F64 true))
  | Mnemonic.Vmaxps => Some (more (lift_vfloat_bin insn FMax F32 false))
  | Mnemonic.Vmaxpd => Some (more (lift_vfloat_bin insn FMax F64 false))
  | Mnemonic.Haddps => Some (more (lift_hfloat insn HAdd F32))
  | Mnemonic.Haddpd => Some (more (lift_hfloat insn HAdd F64))
  | Mnemonic.Hsubps => Some (more (lift_hfloat insn HSub F32))
  | Mnemonic.Hsubpd => Some (more (lift_hfloat insn HSub F64))
  | Mnemonic.Addsubps => Some (more (lift_hfloat insn AddSub F32))
  | Mnemonic.Addsubpd => Some (more (lift_hfloat insn AddSub F64))
  | Mnemonic.Vhaddps => Some (more (lift_vhfloat insn HAdd F32))
  | Mnemonic.Vhaddpd => Some (more (lift_vhfloat insn HAdd F64))
  | Mnemonic.Vhsubps => Some (more (lift_vhfloat insn HSub F32))
  | Mnemonic.Vhsubpd => Some (more (lift_vhfloat insn HSub F64))
  | Mnemonic.Vaddsubps => Some (more (lift_vhfloat insn AddSub F32))
  | Mnemonic.Vaddsubpd => Some (more (lift_vhfloat insn AddSub F64))
  | _ => None
  end.

(** Horizontal and unary floating point, fused multiply-add. *)
Definition lift_hfloat_arms insn mode : option (L bool) :=
  match mnemonic insn with
  | Mnemonic.Phaddw => Some (more (lift_hint insn AddW))
  | Mnemonic.Phaddd => Some (more (lift_hint insn AddD))
  | Mnemonic.Phaddsw => Some (more (lift_hint insn AddSw))
  | Mnemonic.Phsubw => Some (more (lift_hint insn SubW))
  | Mnemonic.Phsubd => Some (more (lift_hint insn SubD))
  | Mnemonic.Phsubsw => Some (more (lift_hint insn SubSw))
  | Mnemonic.Vphaddw => Some (more (lift_vhint insn AddW))
  | Mnemonic.Vphaddd => Some (more (lift_vhint insn AddD))
  | Mnemonic.Vphaddsw => Some (more (lift_vhint insn AddSw))
  | Mnemonic.Vphsubw => Some (more (lift_vhint insn SubW))
  | Mnemonic.Vphsubd => Some (more (lift_vhint insn SubD))
  | Mnemonic.Vphsubsw => Some (more (lift_vhint insn SubSw))
  | Mnemonic.Psadbw => Some (more (lift_hint insn Sad))
  | Mnemonic.Vpsadbw => Some (more (lift_vhint insn Sad))
  | Mnemonic.Sqrtss => Some (more (lift_float_unary insn Sqrt F32 true))
  | Mnemonic.Sqrtsd => Some (more (lift_float_unary insn Sqrt F64 true))
  | Mnemonic.Vsqrtss => Some (more (lift_vfloat_unary_scalar insn Sqrt F32))
  | Mnemonic.Vsqrtsd => Some (more (lift_vfloat_unary_scalar insn Sqrt F64))
  | Mnemonic.Vsqrtps => Some (more (lift_vfloat_unary_packed insn Sqrt F32))
  | Mnemonic.Vsqrtpd => Some (more (lift_vfloat_unary_packed insn Sqrt F64))
  | Mnemonic.Vrsqrtss => Some (more (lift_vfloat_unary_scalar insn Rsqrt F32))
  | Mnemonic.Vrcpss => Some (more (lift_vfloat_unary_scalar insn Rcp F32))
  | Mnemonic.Vrsqrtps => Some (more (lift_vfloat_unary_packed insn Rsqrt F32))
  | Mnemonic.Vrcpps => Some (more (lift_vfloat_unary_packed insn Rcp F32))
  | Mnemonic.Vfmadd132ss => Some (more (lift_fma insn 132 F32 true false false 0))
  | Mnemonic.Vfmadd132sd => Some (more (lift_fma insn 132 F64 true false false 0))
  | Mnemonic.Vfmadd132ps => Some (more (lift_fma insn 132 F32 false false false 0))
  | Mnemonic.Vfmadd132pd => Some (more (lift_fma insn 132 F64 false false false 0))
  | Mnemonic.Vfmadd213ss => Some (more (lift_fma insn 213 F32 true false false 0))
  | Mnemonic.Vfmadd213sd => Some (more (lift_fma insn 213 F64 true false false 0))
  | Mnemonic.Vfmadd213ps => Some (more (lift_fma insn 213 F32 false false false 0))
  | Mnemonic.Vfmadd213pd => Some (more (lift_fma insn 213 F64 false false false 0))
  | Mnemonic.Vfmadd231ss => Some (more (lift_fma insn 231 F32 true false false 0))
  | Mnemonic.Vfmadd231sd => Some (more (lift_fma insn 231 F64 true false false 0))
  | Mnemonic.Vfmadd231ps => Some (more (lift_fma insn 231 F32 false false false 0))
  | Mnemonic.Vfmadd231pd => Some (more (lift_fma insn 231 F64 false false false 0))
  | Mnemonic.Vfmsub132ss => Some (more (lift_fma insn 132 F32 true false true 0))
  | Mnemonic.Vfmsub132sd => Some (more (lift_fma insn 132 F64 true false true 0))
  | Mnemonic.Vfmsub132ps => Some (more (lift_fma insn 132 F32 false false true 0))
  | Mnemonic.Vfmsub132pd => Some (more (lift_fma insn 132 F64 false false true 0))
  | Mnemonic.Vfmsub213ss => Some (more (lift_fma insn 213 F32 true false true 0))
  | Mnemonic.Vfmsub213sd => Some (more (lift_fma insn 213 F64 true false true 0))
  | Mnemonic.Vfmsub213ps => Some (more (lift_fma insn 213 F32 false false true 0))
  | Mnemonic.Vfmsub213pd => Some (more (lift_fma insn 213 F64 false false true 0))
  | Mnemonic.Vfmsub231ss => Some (more (lift_fma insn 231 F32 true false true 0))
  | Mnemonic.Vfmsub231sd => Some (more (lift_fma insn 231 F64 true false true 0))
  | Mnemonic.Vfmsub231ps => Some (more (lift_fma insn 231 F32 false false true 0))
  | Mnemonic.Vfmsub231pd => Some (more (lift_fma insn 231 F64 false false true 0))
  | Mnemonic.Vfnmadd132ss => Some (more (lift_fma insn 132 F32 true true false 0))
  | Mnemonic.Vfnmadd132sd => Some (more (lift_fma insn 132 F64 true true false 0))
  | _ => None
  end.

(** Fused multiply-add, continued. *)
Definition lift_fma_arms insn mode : option (L bool) :=
  match mnemonic insn with
  | Mnemonic.Vfnmadd132ps => Some (more (lift_fma insn 132 F32 false true false 0))
  | Mnemonic.Vfnmadd132pd => Some (more (lift_fma insn 132 F64 false true false 0))
  | Mnemonic.Vfnmadd213ss => Some (more (lift_fma insn 213 F32 true true false 0))
  | Mnemonic.Vfnmadd213sd => Some (more (lift_fma insn 213 F64 true true false 0))
  | Mnemonic.Vfnmadd213ps => Some (more (lift_fma insn 213 F32 false true false 0))
  | Mnemonic.Vfnmadd213pd => Some (more (lift_fma insn 213 F64 false true false 0))
  | Mnemonic.Vfnmadd231ss => Some (more (lift_fma insn 231 F32 true true false 0))
  | Mnemonic.Vfnmadd231sd => Some (more (lift_fma insn 231 F64 true true false 0))
  | Mnemonic.Vfnmadd231ps => Some (more (lift_fma insn 231 F32 false true false 0))
  | Mnemonic.Vfnmadd231pd => Some (more (lift_fma insn 231 F64 false true false 0))
  | Mnemonic.Vfnmsub132ss => Some (more (lift_fma insn 132 F32 true true true 0))
  | Mnemonic.Vfnmsub132sd => Some (more (lift_fma insn 132 F64 true true true 0))
  | Mnemonic.Vfnmsub132ps => Some (more (lift_fma insn 132 F32 false true true 0))
  | Mnemonic.Vfnmsub132pd => Some (more (lift_fma insn 132 F64 false true true 0))
  | Mnemonic.Vfnmsub213ss => Some (more (lift_fma insn 213 F32 true true true 0))
  | Mnemonic.Vfnmsub213sd => Some (more (lift_fma insn 213 F64 true true true 0))
  | Mnemonic.Vfnmsub213ps => Some (more (lift_fma insn 213 F32 false true true 0))
  | Mnemonic.Vfnmsub213pd => Some (more (lift_fma insn 213 F64 false true true 0))
  | Mnemonic.Vfnmsub231ss => Some (more (lift_fma insn 231 F32 true true true 0))
  | Mnemonic.Vfnmsub231sd => Some (more (lift_fma insn 231 F64 true true true 0))
  | Mnemonic.Vfnmsub231ps => Some (more (lift_fma insn 231 F32 false true true 0))
  | Mnemonic.Vfnmsub231pd => Some (more (lift_fma insn 231 F64 false true true 0))
  | Mnemonic.Vfmaddsub132ps => Some (more (lift_fma insn 132 F32 false false false 1))
  | Mnemonic.Vfmaddsub132pd => Some (more (lift_fma insn 132 F64 false false false 1))
  | Mnemonic.Vfmaddsub213ps => Some (more (lift_fma insn 213 F32 false false false 1))
  | Mnemonic.Vfmaddsub213pd => Some (more (lift_fma insn 213 F64 false false false 1))
  | Mnemonic.Vfmaddsub231ps => Some (more (lift_fma insn 231 F32 false false false 1))
  | Mnemonic.Vfmaddsub231pd => Some (more (lift_fma insn 231 F64 false false false 1))
  | Mnemonic.Vfmsubadd132ps => Some (more (lift_fma insn 132 F32 false false false 2))
  | Mnemonic.Vfmsubadd132pd => Some (more (lift_fma insn 132 F64 false false false 2))
  | Mnemonic.Vfmsubadd213ps => Some (more (lift_fma insn 213 F32 false false false 2))
  | Mnemonic.Vfmsubadd213pd => Some (more (lift_fma insn 213 F64 false false false 2))
  | Mnemonic.Vfmsubadd231ps => Some (more (lift_fma insn 231 F32 false false false 2))
  | Mnemonic.Vfmsubadd231pd => Some (more (lift_fma insn 231 F64 false false false 2))
  | Mnemonic.Sqrtps => Some (more (lift_float_unary insn Sqrt F32 false))
  | Mnemonic.Sqrtpd => Some (more (lift_float_unary insn Sqrt F64 false))
  | _ => None
  end.

(** Extensions, the stack, jumps, calls, ports. *)
Definition lift_flow_arms insn mode : option (L bool) :=
  match mnemonic insn with
  | Mnemonic.Movzx => Some (more (lift_movzx insn))
  | Mnemonic.Movsx | Mnemonic.Movsxd => Some (more (lift_movsx insn))
  | Mnemonic.Cbw => Some (more (lift_cbw_family 1 2))
  | Mnemonic.Cwde => Some (more (lift_cbw_family 2 4))
  | Mnemonic.Cdqe => Some (more (lift_cbw_family 4 8))
  | Mnemonic.Cwd => Some (more (lift_sign_into_dx 2))
  | Mnemonic.Cdq => Some (more (lift_sign_into_dx 4))
  | Mnemonic.Cqo => Some (more (lift_sign_into_dx 8))
  | Mnemonic.Push => Some (more (lift_push insn mode))
  | Mnemonic.Pop => Some (more (lift_pop insn mode))
  | Mnemonic.Jmp =>
      if wraps_16 mode && is_far_jmp insn then Some (ends (lift_far_jmp_real16 insn))
      else Some (ends (
        target ← branch_target insn mode;
        push (Jump target)))
  | Mnemonic.Call =>
      if wraps_16 mode && is_far_call insn then Some (ends (lift_far_call_real16 insn))
      else if wraps_16 mode then Some (ends (lift_call_real16 insn))
      else Some (ends (
        slot ← call_ret_slot insn mode;
        target ← branch_target insn mode;
        push (Call target (mask_pc (next_ip insn) mode) slot (wraps_32 mode))))
  | Mnemonic.Retf =>
      if wraps_16 mode then Some (ends (lift_retf_real16 insn))
      else None
  | Mnemonic.Ret =>
      if wraps_16 mode then Some (ends (lift_ret_real16 insn))
      else Some (ends (
        slot ← call_ret_slot insn mode;
        let pop_extra := (if 0 <? op_count insn then immediate16 insn else 0) in
        push (Ret slot pop_extra (wraps_32 mode))))
  | Mnemonic.Leave =>
      if wraps_16 mode then Some (more (lift_leave_real16 insn))
      else Some (more (
        let stk := (if bool_decide (code insn = Code.Leavew) then 2 else stack_slot mode) in
        rbp ← read_reg Rbp;
        val ← fresh;
        push (Load val rbp stk);;
        new_rsp ← fresh;
        push (Add new_rsp rbp (Imm stk) 8 FM_NONE);;
        push (WriteReg Rbp (TempV val) stk);;
        push (WriteReg Rsp (TempV new_rsp) (sp_write_size mode))))
  | Mnemonic.Syscall => Some (ends (push (Syscall true)))
  | Mnemonic.Hlt => Some (ends (push (Hlt)))
  | Mnemonic.In => Some (ends (lift_port_io insn false))
  | Mnemonic.Out => Some (ends (lift_port_io insn true))
  | _ => None
  end.

(** Traps and interrupts. *)
Definition lift_trap_arms insn mode : option (L bool) :=
  match mnemonic insn with
  | Mnemonic.Ud2 =>
      if wraps_16 mode then Some (ends (push (IntGate 6 (mask_pc (insn_ip insn) mode))))
      else Some (ends (push (Trap 6 0)))
  | Mnemonic.Int3 =>
      if wraps_16 mode then Some (ends (push (IntGate 3 (mask_pc (next_ip insn) mode))))
      else Some (ends (push (Trap 3 (wrap 8 (insn_len insn)))))
  | Mnemonic.Int =>
      if wraps_16 mode then Some (ends (push (IntGate (immediate8 insn) (mask_pc (next_ip insn) mode))))
      else Some (ends (
        if bool_decide (immediate8 insn = 0x80) then
          push (Syscall false)
        else
          push (Trap (immediate8 insn) (wrap 8 (insn_len insn)))))
  | Mnemonic.Into =>
      if wraps_16 mode then Some (ends (push (IntoGate (mask_pc (next_ip insn) mode))))
      else None
  | Mnemonic.Bound =>
      if wraps_16 mode then Some (ends (lift_bound_real16 insn))
      else None
  | Mnemonic.Int1 => Some (ends (push (Trap 1 (wrap 8 (insn_len insn)))))
  | Mnemonic.Cli =>
      if wraps_16 mode then Some (more (push (SetIf false)))
      else None
  | Mnemonic.Sti =>
      if wraps_16 mode then Some (more (push (SetIf true)))
      else None
  | Mnemonic.Pushf =>
      if wraps_16 mode then Some (more (push (PushfReal)))
      else None
  | Mnemonic.Popf =>
      if wraps_16 mode then Some (more (push (PopfReal)))
      else None
  | Mnemonic.Iret =>
      if wraps_16 mode then Some (ends (push (IretReal)))
      else None
  | Mnemonic.Clc =>
      if wraps_16 mode then Some (more (push (SetCf (Some false))))
      else None
  | _ => None
  end.

(** Real-mode flags, adjusts, loops and frames. *)
Definition lift_real16_arms insn mode : option (L bool) :=
  match mnemonic insn with
  | Mnemonic.Stc =>
      if wraps_16 mode then Some (more (push (SetCf (Some true))))
      else None
  | Mnemonic.Cmc =>
      if wraps_16 mode then Some (more (push (SetCf None)))
      else None
  | Mnemonic.Daa =>
      if wraps_16 mode then Some (more (push (Bcd Daa)))
      else None
  | Mnemonic.Das =>
      if wraps_16 mode then Some (more (push (Bcd Das)))
      else None
  | Mnemonic.Aaa =>
      if wraps_16 mode then Some (more (push (Bcd Aaa)))
      else None
  | Mnemonic.Aas =>
      if wraps_16 mode then Some (more (push (Bcd Aas)))
      else None
  | Mnemonic.Aam =>
      if wraps_16 mode then Some (more (push (Bcd (Aam (immediate8 insn)))))
      else None
  | Mnemonic.Aad =>
      if wraps_16 mode then Some (more (push (Bcd (Aad (immediate8 insn)))))
      else None
  | Mnemonic.Loop =>
      if wraps_16 mode then Some (ends (lift_loop_real16 insn Loop))
      else None
  | Mnemonic.Loope =>
      if wraps_16 mode then Some (ends (lift_loop_real16 insn Loope))
      else None
  | Mnemonic.Loopne =>
      if wraps_16 mode then Some (ends (lift_loop_real16 insn Loopne))
      else None
  | Mnemonic.Jcxz =>
      if wraps_16 mode then Some (ends (lift_loop_real16 insn Jcxz))
      else None
  | Mnemonic.Salc =>
      if wraps_16 mode then Some (more (
        cf ← fresh;
        push (GetCond cf Below);;
        al ← alu_none (fun dst => Sub dst (Imm 0) (TempV cf) 1 FM_NONE);
        push (WriteReg Rax al 1)))
      else None
  | Mnemonic.Xlatb =>
      if wraps_16 mode then Some (more (lift_xlat_real16 insn))
      else None
  | Mnemonic.Lahf => Some (more (push (Lahf)))
  | Mnemonic.Sahf => Some (more (push (Sahf)))
  | Mnemonic.Pusha =>
      if wraps_16 mode then Some (more (push (PushaReal)))
      else None
  | Mnemonic.Popa =>
      if wraps_16 mode then Some (more (push (PopaReal)))
      else None
  | Mnemonic.Enter =>
      if wraps_16 mode then Some (more (push (EnterReal (immediate16 insn) (immediate8_2nd insn))))
      else None
  | Mnemonic.Les =>
      if wraps_16 mode then Some (more (lift_load_far_ptr_real16 insn Es))
      else None
  | Mnemonic.Lds =>
      if wraps_16 mode then Some (more (lift_load_far_ptr_real16 insn Ds))
      else None
  | _ => None
  end.

(** The conditional families, and what is left. *)
Definition lift_cond insn mode : L bool :=
  match jcc_cond (mnemonic insn) with
  | Some cond =>
      ends (push (Branch cond (mask_pc (near_branch_target insn) mode) (mask_pc (next_ip insn) mode)))
  | None =>
      match setcc_cond (mnemonic insn) with
      | Some cond => more (lift_setcc insn cond)
      | None =>
          match cmovcc_cond (mnemonic insn) with
          | Some cond => more (lift_cmovcc insn cond)
          | None => unsupported insn
          end
      end
  end.

Definition insn_arms : list (Instruction -> CpuMode -> option (L bool)) :=
  [lift_int_arms; lift_sys_arms; lift_sse_arms; lift_crypto_arms; lift_avx_arms; lift_packed_arms;
   lift_packed_avx_arms; lift_wide_arms; lift_perm_arms; lift_float_arms; lift_hfloat_arms; lift_fma_arms;
   lift_flow_arms; lift_trap_arms; lift_real16_arms].

Fixpoint first_arm (arms : list (Instruction -> CpuMode -> option (L bool))) insn mode : L bool :=
  match arms with
  | [] => lift_cond insn mode
  | arm :: rest => match arm insn mode with Some x => x | None => first_arm rest insn mode end
  end.

(** The whole of [lift_insn]. *)
Definition lower_insn insn mode : L bool := first_arm insn_arms insn mode.
End LiftInsn.

(** The lowering the block lifter uses. *)
#[export] Instance insn_lifter `{InsnView} : InsnLifter := { lift_insn := lower_insn }.
