(* ===== verification/InsnSpec.v ===== *)
(** * What the lowering relies on and what it emits

    The class [IcedLaws] states what is used of the decoder: operand shapes and ranges of
    the instruction set.  Against it every lowering emits ops with temporaries it has
    allocated and operands within their machine types, and rejects an instruction only as
    unsupported at its own address. *)

From S2P Require Import Prelude Features State Ir Alu Memory PageTrack Interp IntegerSpec StringOps Control X87 X87Arm VecOps VecAtomic VecOp VecTotal Block Frame Walk Lift LiftSpec Insn LiftInt LiftCtl LiftVec LiftInsn.

(** ** Families of mnemonics *)

(** Integer instructions whose operand 0 is a general register or a scalar in memory. *)
Definition sized0 (m : Mnemonic.t) : bool :=
  match m with
  | Mnemonic.Add | Mnemonic.Adc | Mnemonic.Sub | Mnemonic.Sbb | Mnemonic.And | Mnemonic.Or | Mnemonic.Xor | Mnemonic.Cmp
  | Mnemonic.Test | Mnemonic.Shl | Mnemonic.Sal | Mnemonic.Shr | Mnemonic.Sar | Mnemonic.Rol | Mnemonic.Ror | Mnemonic.Rcl
  | Mnemonic.Rcr | Mnemonic.Shld | Mnemonic.Shrd | Mnemonic.Inc | Mnemonic.Dec | Mnemonic.Neg | Mnemonic.Not | Mnemonic.Mul
  | Mnemonic.Imul | Mnemonic.Div | Mnemonic.Idiv | Mnemonic.Movbe | Mnemonic.Andn | Mnemonic.Blsi | Mnemonic.Blsr
  | Mnemonic.Blsmsk | Mnemonic.Bextr | Mnemonic.Bzhi | Mnemonic.Shlx | Mnemonic.Shrx | Mnemonic.Sarx | Mnemonic.Rorx
  | Mnemonic.Pdep | Mnemonic.Pext | Mnemonic.Mulx | Mnemonic.Xchg | Mnemonic.Xadd | Mnemonic.Cmpxchg | Mnemonic.Bsf
  | Mnemonic.Bsr | Mnemonic.Tzcnt | Mnemonic.Lzcnt | Mnemonic.Popcnt | Mnemonic.Bt | Mnemonic.Bts | Mnemonic.Btr | Mnemonic.Btc
  | Mnemonic.Cvttss2si | Mnemonic.Vcvttss2si | Mnemonic.Cvtss2si | Mnemonic.Vcvtss2si | Mnemonic.Cvttsd2si
  | Mnemonic.Vcvttsd2si | Mnemonic.Cvtsd2si | Mnemonic.Vcvtsd2si | Mnemonic.Vcvttss2usi | Mnemonic.Vcvtss2usi
  | Mnemonic.Vcvttsd2usi | Mnemonic.Vcvtsd2usi => true
  | _ => false
  end.
(** The same of operand 1, and of operand 2. *)
Definition sized1 (m : Mnemonic.t) : bool :=
  match m with Mnemonic.Movsx | Mnemonic.Movsxd | Mnemonic.Crc32 | Mnemonic.Xchg | Mnemonic.Cvtsi2ss | Mnemonic.Cvtsi2sd => true | _ => false end.
Definition sized2 (m : Mnemonic.t) : bool :=
  match m with Mnemonic.Vcvtsi2ss | Mnemonic.Vcvtsi2sd | Mnemonic.Vcvtusi2ss | Mnemonic.Vcvtusi2sd => true | _ => false end.
Definition stack_move (m : Mnemonic.t) : bool := match m with Mnemonic.Push | Mnemonic.Pop => true | _ => false end.
(** Whole-register vector moves, SSE and AVX. *)
Definition sse_move (m : Mnemonic.t) : bool :=
  match m with
  | Mnemonic.Movdqa | Mnemonic.Movdqu | Mnemonic.Lddqu | Mnemonic.Movaps | Mnemonic.Movups | Mnemonic.Movapd | Mnemonic.Movupd
  | Mnemonic.Movntdq | Mnemonic.Movntps | Mnemonic.Movntpd | Mnemonic.Movntdqa => true
  | _ => false
  end.
Definition avx_move (m : Mnemonic.t) : bool :=
  match m with
  | Mnemonic.Vmovdqa | Mnemonic.Vmovdqu | Mnemonic.Vmovaps | Mnemonic.Vmovups | Mnemonic.Vmovapd | Mnemonic.Vmovupd
  | Mnemonic.Vmovntdq | Mnemonic.Vmovntps | Mnemonic.Vmovntpd | Mnemonic.Vmovntdqa | Mnemonic.Vmovdqu8 | Mnemonic.Vmovdqu16
  | Mnemonic.Vmovdqu32 | Mnemonic.Vmovdqa32 | Mnemonic.Vmovdqu64 | Mnemonic.Vmovdqa64 => true
  | _ => false
  end.
(** No 512-bit form. *)
Definition no_zmm (m : Mnemonic.t) : bool :=
  match m with Mnemonic.Vblendps | Mnemonic.Vblendpd | Mnemonic.Vpblendd => true | _ => false end.
(** Two lanes at a time: the wide operand is not an XMM register. *)
Definition two_insert (m : Mnemonic.t) : bool :=
  match m with Mnemonic.Vinserti64x4 | Mnemonic.Vinsertf64x4 | Mnemonic.Vinserti32x8 | Mnemonic.Vinsertf32x8 => true | _ => false end.
Definition two_extract (m : Mnemonic.t) : bool :=
  match m with Mnemonic.Vextracti64x4 | Mnemonic.Vextractf64x4 | Mnemonic.Vextracti32x8 | Mnemonic.Vextractf32x8 => true | _ => false end.

Definition bit_test (m : Mnemonic.t) : bool :=
  match m with Mnemonic.Bt | Mnemonic.Bts | Mnemonic.Btr | Mnemonic.Btc => true | _ => false end.
Definition far_load (m : Mnemonic.t) : bool := match m with Mnemonic.Les | Mnemonic.Lds => true | _ => false end.

(** VEX only: no opmask. *)
Definition vex_broadcast (m : Mnemonic.t) : bool :=
  match m with Mnemonic.Vbroadcasti128 | Mnemonic.Vbroadcastf128 => true | _ => false end.

(** ** The decoder *)

Definition index_in (r base : Register) (n : Z) : Prop := 0 <= r - base < n.

Class IcedLaws `{V : InsnView} : Prop := {
  iced_decode bits opt ip code insn err : code <> [] -> decode bits opt ip code = (insn, err) ->
    insn_ip insn = ip /\ 1 <= insn_len insn <= Z.of_nat (length code);
  iced_len insn : 0 <= insn_len insn <= 15;
  iced_next_ip insn : in_width 64 (next_ip insn);
  iced_target insn : in_width 64 (near_branch_target insn);
  iced_far insn : in_width 16 (far_branch_selector insn) /\ in_width 16 (far_branch16 insn);
  iced_imm insn i : in_width 64 (immediate insn i);
  iced_imm8 insn : in_width 8 (immediate8 insn);
  iced_imm16 insn : in_width 16 (immediate16 insn);
  iced_disp insn : in_width 64 (memory_displacement64 insn);
  iced_scale insn : valid_elem (memory_index_scale insn);
  iced_gpr r : is_gpr r = true -> index_in (full_register r) RAX 16 /\ valid_elem (register_size r);
  iced_xmm r : is_xmm r = true -> index_in r XMM0 32;
  iced_ymm r : is_ymm r = true -> index_in r YMM0 32;
  iced_zmm r : is_zmm r = true -> index_in r ZMM0 32;
  iced_k r : is_k r = true -> index_in r K0 8;
  iced_mm r : is_mm r = true -> index_in r MM0 8;
  iced_mask insn : op_mask insn = NoRegister \/ index_in (op_mask insn) K0 8;
  iced_sized0 insn : sized0 (mnemonic insn) = true -> valid_elem (operand_size insn 0);
  iced_sized1 insn : sized1 (mnemonic insn) = true -> valid_elem (operand_size insn 1);
  iced_sized2 insn : sized2 (mnemonic insn) = true -> valid_elem (operand_size insn 2);
  iced_bit_reg insn : bit_test (mnemonic insn) = true -> op_kind insn 1 = OpKind.Register -> valid_elem (operand_size insn 1);
  iced_far_load insn : far_load (mnemonic insn) = true -> op_kind insn 1 = OpKind.Memory;
  iced_ip_relative insn : memory_base insn = RIP \/ memory_base insn = EIP -> code_size insn <> Code32;
  iced_stack insn : stack_move (mnemonic insn) = true -> operand_size insn 0 = 0 \/ valid_elem (operand_size insn 0);
  iced_sse_move insn i : sse_move (mnemonic insn) = true -> i = 0 \/ i = 1 -> op_kind insn i = OpKind.Register -> reg_xmm insn i <> None;
  iced_avx_move insn i : avx_move (mnemonic insn) = true -> i = 0 \/ i = 1 -> op_kind insn i = OpKind.Register -> vec_operand insn i <> None;
  iced_no_zmm insn : no_zmm (mnemonic insn) = true -> reg_zmm insn 0 = None;
  iced_two_insert insn : two_insert (mnemonic insn) = true -> reg_xmm insn 0 = None;
  iced_vex_broadcast insn : vex_broadcast (mnemonic insn) = true -> op_mask insn = NoRegister;
  iced_two_extract insn : two_extract (mnemonic insn) = true -> reg_xmm insn 1 = None;
}.

(** ** Emission

    From a counter of at least [n], [x] does not panic, appends well-formed ops and its value
    satisfies [Q] at the new counter; if it fails, it names [insn]. *)

Section Emits.
Context `{IcedLaws} (insn : Instruction).

Definition op_emit (n : nat) (op : IrOp) : Prop :=
  op_wf n op /\ match op with InsnStart _ => False | Trap _ advance => advance <= 15 | _ => True end.

Definition emits {A} (n : nat) (x : L A) (Q : A -> nat -> Prop) : Prop :=
  forall ops tg, (n <= tg)%nat ->
    match x ops tg with
    | Some (Ok (a, ops', tg')) => (tg <= tg')%nat /\ (exists new, ops' = ops ++ new /\ Forall (op_emit tg') new) /\ Q a tg'
    | Some (Err e) => e = unsupported_insn insn
    | None => False
    end.

Definition anyv {A} (_ : A) (_ : nat) : Prop := True.

Lemma op_emit_mono n n' op : (n <= n')%nat -> op_emit n op -> op_emit n' op.
Proof. intros Hn [Hw Hs]. split; [by eapply op_wf_mono|done]. Qed.

Lemma emits_ret {A} n (a : A) (Q : A -> nat -> Prop) : (forall m, (n <= m)%nat -> Q a m) -> emits n (mret a) Q.
Proof. intros HQ ops tg Hn. split; [done|]. split; [exists []; rewrite app_nil_r; by split|by apply HQ]. Qed.

Lemma emits_bind {A B} n (x : L A) (k : A -> L B) P Q :
  emits n x P -> (forall a m, (n <= m)%nat -> P a m -> emits m (k a) Q) -> emits n (x ≫= k) Q.
Proof.
  intros Hx Hk ops tg Hn. specialize (Hx ops tg Hn). unfold mbind, L_bind. destruct (x ops tg) as [[[[a ops1] tg1]|e]|]; [|done..].
  destruct Hx as (H1 & (new1 & -> & Hw1) & HP). pose proof (Hk a tg1 (Nat.le_trans _ _ _ Hn H1) HP (ops ++ new1) tg1 (Nat.le_refl _)) as Hk'. clear Hk. rename Hk' into Hk.
  destruct (k a (ops ++ new1) tg1) as [[[[b ops2] tg2]|e]|]; [|done..]. destruct Hk as (H2 & (new2 & -> & Hw2) & HQ).
  split; [lia|]. split; [|done]. exists (new1 ++ new2). rewrite app_assoc. split; [done|]. apply Forall_app. split; [|done].
  eapply list.Forall_impl; [exact Hw1|]. intros op. by apply op_emit_mono.
Qed.

Lemma emits_assoc {A B C} n (x : L A) (f : A -> L B) (k : B -> L C) Q :
  emits n (x ≫= (fun a => f a ≫= k)) Q -> emits n ((x ≫= f) ≫= k) Q.
Proof.
  intros Hx ops tg Hn. specialize (Hx ops tg Hn). unfold mbind, L_bind in *. by destruct (x ops tg) as [[[[a ops1] tg1]|e]|].
Qed.

Lemma emits_weaken {A} n (x : L A) (P Q : A -> nat -> Prop) : emits n x P -> (forall a k, P a k -> Q a k) -> emits n x Q.
Proof.
  intros Hx HQ ops tg Hm. specialize (Hx ops tg Hm). destruct (x ops tg) as [[[[a ops1] tg1]|e]|]; [|done..].
  destruct Hx as (? & ? & ?). auto.
Qed.

Lemma emits_fresh n : emits n fresh (fun t m => (t < m)%nat).
Proof. intros ops tg Hn. cbn. split; [lia|]. split; [exists []; rewrite app_nil_r; by split|lia]. Qed.

Lemma emits_push n op : op_emit n op -> emits n (push op) anyv.
Proof. intros Hop ops tg Hn. cbn. split; [done|]. split; [|done]. exists [op]. split; [done|]. apply list.Forall_singleton. by eapply op_emit_mono. Qed.

Lemma emits_vpush n op : vop_wf n op -> emits n (vpush op) anyv.
Proof. intros Hop. apply emits_push. by split. Qed.

Lemma emits_fail {A} n (Q : A -> nat -> Prop) : emits n (unsupported insn) Q.
Proof. by intros ops tg Hn. Qed.

Lemma emits_assert n b : b = true -> emits n (assertL b) anyv.
Proof. intros ->. by apply emits_ret. Qed.

Lemma emits_opt {A} n (o : option A) (Q : A -> nat -> Prop) :
  (forall a, o = Some a -> forall m, (n <= m)%nat -> Q a m) -> emits n (or_unsupported insn o) Q.
Proof. intros HQ. destruct o; [by apply emits_ret, HQ|apply emits_fail]. Qed.

Lemma emits_alu n mk : (forall t m, (n <= m)%nat -> (t < m)%nat -> op_emit m (mk t)) -> emits n (alu_none mk) (fun v m => val_ok m v).
Proof.
  intros Hmk. eapply emits_bind; [apply emits_fresh|]. intros t m Hm Ht. eapply emits_bind; [by apply emits_push, Hmk|].
  intros _ k Hk _. apply emits_ret. intros k' Hk'. cbn in *. lia.
Qed.
End Emits.

(** ** Registers *)

Section Registers.
Context `{IcedLaws}.

Lemma reg_class_lt pred base insn i r n : (forall r, pred r = true -> index_in r base n) -> n <= 256 ->
  reg_class pred base insn i = Some r -> (Z.of_nat r < n).
Proof.
  intros Hp Hn. unfold reg_class. case_decide; [|done]. destruct (pred _) eqn:E; [|done]. intros [= <-].
  destruct (Hp _ E) as [Hr1 Hr2]. unfold wrap. rewrite Z.mod_small by lia. lia.
Qed.
Lemma reg_xmm_lt insn i r : reg_xmm insn i = Some r -> (r < 32)%nat.
Proof. intros E%(reg_class_lt _ _ _ _ _ 32 iced_xmm); lia. Qed.
Lemma reg_ymm_lt insn i r : reg_ymm insn i = Some r -> (r < 32)%nat.
Proof. intros E%(reg_class_lt _ _ _ _ _ 32 iced_ymm); lia. Qed.
Lemma reg_zmm_lt insn i r : reg_zmm insn i = Some r -> (r < 32)%nat.
Proof. intros E%(reg_class_lt _ _ _ _ _ 32 iced_zmm); lia. Qed.
Lemma reg_kmask_lt insn i r : reg_kmask insn i = Some r -> (r < 8)%nat.
Proof. intros E%(reg_class_lt _ _ _ _ _ 8 iced_k); lia. Qed.
Lemma reg_mmx_lt insn i r : reg_mmx insn i = Some r -> (r < 8)%nat.
Proof. intros E%(reg_class_lt _ _ _ _ _ 8 iced_mm); lia. Qed.

Lemma vec_operand_ok insn i r b : vec_operand insn i = Some (r, b) -> (r < 32)%nat /\ valid_vec b.
Proof.
  unfold vec_operand, valid_vec. destruct (reg_zmm insn i) eqn:Ez; [intros [= <- <-]; apply reg_zmm_lt in Ez; lia|].
  destruct (reg_ymm insn i) eqn:Ey; [intros [= <- <-]; apply reg_ymm_lt in Ey; lia|].
  destruct (reg_xmm insn i) eqn:Ex; [|done]. intros [= <- <-]. apply reg_xmm_lt in Ex. lia.
Qed.
Lemma vec_operand_half insn i r b : reg_zmm insn i = None -> vec_operand insn i = Some (r, b) -> half_vec b.
Proof. unfold vec_operand, half_vec. intros ->. destruct (reg_ymm insn i); [intros [= <- <-]; tauto|]. destruct (reg_xmm insn i); [|done]. intros [= <- <-]. tauto. Qed.
Lemma vec_operand_reg_lt insn i r : vec_operand_reg insn i = Some r -> (r < 32)%nat.
Proof. unfold vec_operand_reg. destruct (vec_operand insn i) as [[r' b]|] eqn:E; [|done]. intros [= <-]. by apply vec_operand_ok in E as []. Qed.
Lemma reg_vec_lt insn i r : reg_vec insn i = Some r -> (r < 32)%nat.
Proof. unfold reg_vec. destruct (reg_xmm insn i) eqn:Ex; [intros [= <-]; by eapply reg_xmm_lt|apply reg_ymm_lt]. Qed.
Lemma or_else_lt insn i j r : or_else (reg_ymm insn i) (reg_xmm insn j) = Some r -> (r < 32)%nat.
Proof. unfold or_else. destruct (reg_ymm insn i) eqn:Ey; [intros [= <-]; by eapply reg_ymm_lt|apply reg_xmm_lt]. Qed.

Lemma writemask_lt insn k : evex_writemask insn = Some k -> (k < 8)%nat.
Proof.
  unfold evex_writemask. destruct (_ =? NoRegister) eqn:E1; [done|]. destruct (_ =? K0) eqn:E2; [done|]. intros [= <-].
  destruct (iced_mask insn) as [E|[Hr1 Hr2]]; [lia|]. unfold wrap. rewrite Z.mod_small by lia. lia.
Qed.
Lemma writemask_none insn : op_mask insn = NoRegister -> evex_writemask insn = None.
Proof. intros E. unfold evex_writemask. by rewrite E, Z.eqb_refl. Qed.
Lemma writemask_wm insn : VecAtomic.wm_ok (evex_writemask insn).
Proof. unfold wm_ok. destruct (evex_writemask insn) eqn:E; [by eapply writemask_lt|done]. Qed.
Lemma writemask_default insn : (default 0 (evex_writemask insn) < 8)%nat.
Proof. destruct (evex_writemask insn) eqn:E; cbn; [by eapply writemask_lt|lia]. Qed.

Lemma iced_to_reg_size insn i r : op_kind insn i = OpKind.Register -> iced_to_reg (op_register insn i) = Some r -> valid_elem (operand_size insn i).
Proof.
  intros Hk. unfold iced_to_reg, operand_size. rewrite Hk. destruct (_ || _); [done|]. unfold iced_gpr_index.
  destruct (is_gpr _) eqn:E; [|done]. intros _. destruct (iced_gpr _ E) as [_ Hs]. unfold valid_elem, wrap in *.
  destruct Hs as [-> |[-> |[-> | ->]]]; vm_compute; tauto.
Qed.
End Registers.

Lemma wrap_width w x : 0 <= w -> in_width w (wrap w x).
Proof. apply wrap_range. Qed.
Lemma imm_small n w x : 0 <= w <= 64 -> in_width w x -> val_ok n (Imm x).
Proof. intros Hw [H1 H2]. split; [done|]. eapply Z.lt_le_trans; [exact H2|]. apply Z.pow_le_mono_r; lia. Qed.

Lemma land_width n a m : in_width n m -> 0 <= a -> 0 <= n -> in_width n (Z.land a m).
Proof.
  intros [H1 H2] Ha Hn. assert (H0 : 0 <= Z.land a m) by (apply Z.land_nonneg; by left). split; [done|].
  destruct (Z.eq_dec (Z.land a m) 0) as [-> |Hne]; [by apply pow2_pos|]. destruct (Z.eq_dec m 0) as [-> |]; [by rewrite Z.land_0_r in Hne|].
  apply Z.log2_lt_pow2; [lia|]. eapply Z.le_lt_trans; [by apply Z.log2_land|]. eapply Z.le_lt_trans; [apply Z.le_min_r|]. apply Z.log2_lt_pow2; lia.
Qed.

Lemma mask_pc_width a mode : in_width 64 a -> in_width 64 (mask_pc a mode).
Proof. intros [H1 H2]. destruct mode; cbn [mask_pc]; [done|..]; by apply land_width. Qed.
Lemma land_1 x : Z.land x 1 = 0 \/ Z.land x 1 = 1.
Proof.
  pose proof (Z.land_ones x 1 ltac:(lia)) as E. change (Z.ones 1) with 1 in E. change (2 ^ 1) with 2 in E. rewrite E.
  pose proof (Z.mod_pos_bound x 2). lia.
Qed.
Lemma wrap_nonneg w x : 0 <= w -> 0 <= wrap w x.
Proof. intros Hw. by destruct (wrap_range w x Hw). Qed.
Lemma prec_elem p : valid_elem (prec_bytes p).
Proof. destruct p; vm_compute; tauto. Qed.
Lemma prec_vec_size p : vec_size (prec_bytes p).
Proof. destruct p; vm_compute; tauto. Qed.

(** ** Automation *)

(** What the operand accessors in the context say of the registers they return. *)
Ltac reg_fact r E bound lem :=
  lazymatch goal with
  | _ : (r < bound)%nat |- _ => fail
  | _ => let H := fresh "Hreg" in pose proof lem as H; lazymatch type of H with _ /\ _ => destruct H | _ => idtac end
  end.
Ltac reg_facts :=
  repeat match goal with
  | E : reg_xmm _ _ = Some ?r |- _ => reg_fact r E 32%nat uconstr:(reg_xmm_lt _ _ r E)
  | E : reg_ymm _ _ = Some ?r |- _ => reg_fact r E 32%nat uconstr:(reg_ymm_lt _ _ r E)
  | E : reg_zmm _ _ = Some ?r |- _ => reg_fact r E 32%nat uconstr:(reg_zmm_lt _ _ r E)
  | E : reg_vec _ _ = Some ?r |- _ => reg_fact r E 32%nat uconstr:(reg_vec_lt _ _ r E)
  | E : vec_operand_reg _ _ = Some ?r |- _ => reg_fact r E 32%nat uconstr:(vec_operand_reg_lt _ _ r E)
  | E : vec_operand _ _ = Some (?r, ?b) |- _ => reg_fact r E 32%nat uconstr:(vec_operand_ok _ _ r b E)
  | E : or_else (reg_ymm _ _) (reg_xmm _ _) = Some ?r |- _ => reg_fact r E 32%nat uconstr:(or_else_lt _ _ _ r E)
  | E : reg_kmask _ _ = Some ?r |- _ => reg_fact r E 8%nat uconstr:(reg_kmask_lt _ _ r E)
  | E : reg_mmx _ _ = Some ?r |- _ => reg_fact r E 8%nat uconstr:(reg_mmx_lt _ _ r E)
  | E : evex_writemask _ = Some ?r |- _ => reg_fact r E 8%nat uconstr:(writemask_lt _ r E)
  end.

(** A lane selector put together from single bits of an immediate. *)
Ltac sel_width :=
  repeat match goal with |- context [Z.land ?x 1] => destruct (land_1 x) as [-> | ->] end; vm_compute; split; congruence.
Ltac vec_size_kind := try match goal with |- context [mem_bytes ?k] => destruct k end; vm_compute; tauto.

Ltac wf_atom :=
  lazymatch goal with
  | |- True => exact I
  | |- anyv _ _ => exact I
  | |- val_ok _ (TempV _) => cbn [val_ok] in *; lia
  | |- val_ok _ (Imm (if ?b then _ else _)) => destruct b; wf_atom
  | |- val_ok _ (Imm (stack_slot ?mode)) => destruct mode; cbn; unfold in_width; lia
  | |- val_ok _ (Imm _) => first [eassumption | cbn [val_ok]; unfold in_width; lia | eapply imm_small; [|first [eassumption|apply wrap_width; lia]]; lia]
  | |- val_ok _ _ => first [assumption | eapply val_ok_mono; [|eassumption]; lia]
  | |- valid_elem (prec_bytes _) => apply prec_elem
  | |- valid_elem (if ?b then _ else _) => destruct b; wf_atom
  | |- valid_elem (stack_slot ?mode) => destruct mode; unfold valid_elem; cbn; lia
  | |- valid_elem (sp_write_size ?mode) => destruct mode; unfold valid_elem; cbn; lia
  | |- valid_elem _ => first [assumption | unfold valid_elem; lia]
  | |- valid_vec _ => first [assumption | unfold valid_vec; lia]
  | |- VecAtomic.wm_ok (evex_writemask _) => apply writemask_wm
  | |- VecAtomic.wm_ok None => exact I
  | |- (default _ _ < _)%nat => apply writemask_default
  | |- vec_size (prec_bytes _) => apply prec_vec_size
  | |- vec_size (mem_bytes _) => vec_size_kind
  | |- vec_size (if ?b then _ else _) => destruct b; wf_atom
  | |- vec_size _ => first [assumption | unfold vec_size; lia]
  | |- changes_width _ => first [assumption | exact I]
  | |- small_elem _ => first [assumption | unfold small_elem; lia]
  | |- pack_from _ => first [assumption | unfold pack_from; lia]
  | |- un_ok _ _ => first [assumption | by left | by right]
  | |- chunk_elem _ _ => first [assumption | right; split; [reflexivity|assumption] | left; wf_atom]
  | |- half_vec _ => first [assumption | unfold half_vec; lia]
  | |- in_width 64 (mask_pc (next_ip _) _) => apply mask_pc_width, iced_next_ip
  | |- in_width 64 (mask_pc (near_branch_target _) _) => apply mask_pc_width, iced_target
  | |- in_width _ (wrap _ _) => apply wrap_width; lia
  | |- in_width _ (if ?b then _ else _) => destruct b; wf_atom
  | |- in_width _ (GfniOp_as_u8 ?op) => destruct op; unfold in_width; cbn; lia
  | |- in_width _ (Z.land (wrap _ _) _) => apply land_width; [unfold in_width; lia|apply wrap_nonneg; lia|lia]
  | |- in_width _ (Z.lor _ _) => sel_width
  | |- in_width _ _ => first [assumption | unfold in_width; lia]
  | |- _ \/ _ => first [assumption | lia | right; split; [reflexivity|assumption]]
  | |- operand_size _ _ <= _ => unfold valid_elem in *; lia
  | |- _ => first [assumption | lia]
  end.
Ltac wf := cbv beta in *; reg_facts; cbn [op_wf vop_wf regs kregs foldr]; repeat match goal with |- _ /\ _ => split end; wf_atom.

Create HintDb lift.

(** The postcondition of a branching head, by the type of its value. *)
Ltac post_of A :=
  lazymatch A with
  | unit => constr:(fun (_ : unit) (_ : nat) => True)
  | Val => constr:(fun (v : Val) (m : nat) => val_ok m v)
  | nat => constr:(fun (r : nat) (_ : nat) => (r < 32)%nat)
  | option Val => constr:(fun (v : option Val) (m : nat) => match v with Some v => val_ok m v | None => True end)
  end.

Ltac split_match x :=
  lazymatch x with
  | match ?y with _ => _ end => split_match y
  | _ => first [is_var x; destruct x | destruct x eqn:?]
  end.

Ltac split_pairs := repeat match goal with p : (_ * _)%type |- _ => destruct p end; cbn [fst snd] in *.

(** One lowering, op by op; [fin] closes what is asked of a value. *)
Ltac emit :=
  cbv zeta beta iota; cbn [fst snd];
  lazymatch goal with
  | |- emits _ _ (mbind _ ?x) _ =>
      lazymatch x with
      | fresh => eapply emits_bind; [apply emits_fresh | emit_next]
      | mret ?v => eapply (emits_bind _ _ _ _ (fun a _ => a = v)); [by apply emits_ret | intros ? ? ? ->; emit]
      | or_unsupported _ ?o => eapply (emits_bind _ _ _ _ (fun a _ => o = Some a)); [apply emits_opt; by intros | emit_next]
      | push _ => eapply emits_bind; [first [solve [auto 1 with lift nocore] | apply emits_push; split; [wf|first [exact I | assumption | cbn; lia]]] | emit_next]
      | vpush _ => eapply emits_bind; [apply emits_vpush; wf | emit_next]
      | alu_none _ => eapply emits_bind; [apply emits_alu; intros ? ? ? ?; split; [wf|exact I] | emit_next]
      | match _ with _ => _ end =>
          let A := lazymatch type of x with L ?A => A | ?T => lazymatch eval cbv delta [L] in T with _ => fail end end in
          lazymatch A with
          | (_ * _)%type => lazymatch x with match ?y with _ => _ end => split_match y; emit end
          | _ => let P := post_of A in eapply (emits_bind _ _ _ _ P); [emit | emit_next]
          end
      | mbind _ _ => apply emits_assoc; emit
      | unsupported _ => eapply (emits_bind _ _ _ _ (fun _ _ => False)); [apply emits_fail | by intros ? ? ? []]
      | _ => eapply emits_bind; [solve [auto 1 with lift nocore] | emit_next]
      end
  | |- emits _ _ (mret _) _ => apply emits_ret; intros; reg_facts; cbv beta iota; try wf
  | |- emits _ _ (push _) _ => eapply emits_weaken; [first [solve [auto 1 with lift nocore] | apply emits_push; split; [wf|first [exact I | assumption | cbn; lia]]] | done]
  | |- emits _ _ (vpush _) _ => eapply emits_weaken; [apply emits_vpush; wf | done]
  | |- emits _ _ (alu_none _) _ => eapply emits_weaken; [apply emits_alu; intros ? ? ? ?; split; [wf|exact I] | done]
  | |- emits _ _ (unsupported _) _ => apply emits_fail
  | |- emits _ _ (match ?x with _ => _ end) _ => split_match x; emit
  | |- emits _ _ _ _ => eapply emits_weaken; [solve [auto 1 with lift nocore] | done]
  end
with emit_next := intros ? ? ? ?; cbv beta in *; split_pairs; emit.

(** ** Operands *)

Section Operands.
Context `{IcedLaws} (insn : Instruction).
Local Notation emitsi := (emits insn).

Lemma emits_read_reg n r : emitsi n (read_reg r) (fun v m => val_ok m v).
Proof. unfold read_reg. emit. Qed.
Lemma emits_add_addr n a b : val_ok n a -> val_ok n b -> emitsi n (add_addr a b) (fun v m => val_ok m v).
Proof. intros. unfold add_addr. emit. Qed.
Lemma emits_mem_size n i : emitsi n (scalar_mem_size insn i) (fun s _ => valid_elem s).
Proof.
  unfold scalar_mem_size. destruct (_ || _) eqn:E; [|apply emits_fail]. apply emits_ret. intros _ _.
  unfold valid_elem. rewrite !orb_true_iff, !Z.eqb_eq in E. tauto.
Qed.
End Operands.
#[export] Hint Extern 1 (emits _ _ (read_reg _) _) => apply emits_read_reg : lift.
#[export] Hint Extern 1 (emits _ _ (scalar_mem_size _ _) _) => apply emits_mem_size : lift.
#[export] Hint Extern 2 (emits _ _ (add_addr _ _) _) => apply emits_add_addr; wf : lift.

Section Addresses.
Context `{IcedLaws} (insn : Instruction).
Local Notation emitsi := (emits insn).

Lemma emits_scaled n idx : val_ok n idx -> emitsi n (scaled_index insn idx) (fun v m => val_ok m v).
Proof.
  intros Hidx. unfold scaled_index. destruct (iced_scale insn) as [-> |[-> |[-> | ->]]]; cbn [Z.leb Z.compare Pos.compare Pos.compare_cont];
    [apply emits_ret; intros; by eapply val_ok_mono|cbn [trailing_zeros pos_trailing_zeros Z.add Pos.add]; emit..].
Qed.

Lemma emits_masked n addr mask : val_ok n addr -> in_width 64 mask ->
  emitsi n (match addr with Imm v => mret (Imm (Z.land v mask)) | a => t ← fresh; push (And t a (Imm mask) 8 FM_NONE);; mret (TempV t) end)
    (fun v m => val_ok m v).
Proof. intros Ha Hm. destruct addr; [emit|]. apply emits_ret. intros. cbn. apply land_width; [done|apply Ha|done]. Qed.

#[local] Hint Extern 2 (emits _ _ (scaled_index _ _) _) => apply emits_scaled; wf : lift.

Lemma emits_ea_no_segment n : emitsi n (effective_address_no_segment insn) (fun v m => val_ok m v).
Proof.
  pose proof (iced_disp insn) as Hd. unfold effective_address_no_segment.
  destruct (Z.eqb_spec (memory_base insn) RIP) as [Hr|_]; [|destruct (Z.eqb_spec (memory_base insn) EIP) as [Hr|_]].
  { eapply emits_bind; [apply emits_assert, bool_decide_eq_true_2, iced_ip_relative; by left|]. intros _ m Hm _. by apply emits_ret. }
  { eapply emits_bind; [apply emits_assert, bool_decide_eq_true_2, iced_ip_relative; by right|]. intros _ m Hm _.
    apply emits_ret. intros. cbn. apply land_width; [done|apply Hd|done]. }
  cbv zeta. eapply (emits_bind _ _ _ _ (fun v m => match v with Some v => val_ok m v | None => True end)).
  { destruct (_ =? NoRegister); [by apply emits_ret|]. emit. }
  intros acc m1 Hm1 Hacc. eapply (emits_bind _ _ _ _ (fun v m => match v with Some v => val_ok m v | None => True end)).
  { destruct (_ =? NoRegister); [apply emits_ret; intros; destruct acc; [by eapply val_ok_mono|done]|]. destruct acc; emit. }
  intros acc' m2 Hm2 Hacc'. eapply (emits_bind _ _ _ _ (fun v m => val_ok m v)).
  { destruct acc' as [a|]; [|by apply emits_ret]. destruct (_ =? 0); [apply emits_ret; intros; by eapply val_ok_mono|]. emit. }
  intros addr m3 Hm3 Haddr. destruct (_ || _); [by apply emits_masked|]. destruct (_ || _); [by apply emits_masked|].
  apply emits_ret. intros. by eapply val_ok_mono.
Qed.

Lemma emits_with_segment n addr : val_ok n addr -> emitsi n (with_segment insn addr) (fun v m => val_ok m v).
Proof. intros Ha. unfold with_segment. emit. all: by eapply val_ok_mono. Qed.

Lemma emits_ea n : emitsi n (effective_address insn) (fun v m => val_ok m v).
Proof. unfold effective_address. eapply emits_bind; [apply emits_ea_no_segment|]. intros v m Hm Hv. by apply emits_with_segment. Qed.

Lemma emits_stack_addr n o mode : val_ok n o -> emitsi n (stack_addr o mode) (fun v m => val_ok m v).
Proof. intros Ho. unfold stack_addr. emit. Qed.
Lemma emits_sp_wrap n sp mode : (sp < n)%nat -> emitsi n (emit_sp_wrap sp mode) anyv.
Proof. intros Hs. unfold emit_sp_wrap. emit. Qed.
End Addresses.
#[export] Hint Extern 1 (emits _ _ (effective_address_no_segment _) _) => apply emits_ea_no_segment : lift.
#[export] Hint Extern 1 (emits _ _ (effective_address _) _) => apply emits_ea : lift.
#[export] Hint Extern 2 (emits _ _ (stack_addr _ _) _) => apply emits_stack_addr; wf : lift.
#[export] Hint Extern 2 (emits _ _ (emit_sp_wrap _ _) _) => apply emits_sp_wrap; wf : lift.

(** ** Reading and writing an operand *)

Definition target_ok (n : nat) (w : WriteTarget) : Prop :=
  match w with WTReg _ size => valid_elem size | WTMem addr size => val_ok n addr /\ valid_elem size | WTHighByte _ => True end.

Section ReadWrite.
Context `{IcedLaws} (insn : Instruction).
Local Notation emitsi := (emits insn).

Lemma emits_lower_read n i : emitsi n (lower_read insn i) (fun v m => val_ok m v).
Proof. pose proof (iced_imm insn i) as Hi. unfold lower_read. emit. all: by intros. Qed.

#[local] Hint Extern 1 (emits _ _ (lower_read _ _) _) => apply emits_lower_read : lift.

Lemma emits_write_target n i : emitsi n (lower_write_target insn i) (fun w m => target_ok m w).
Proof.
  unfold lower_write_target. destruct (op_kind insn i) eqn:Ek; try apply emits_fail.
  - destruct (high_byte_parent _); [by apply emits_ret|]. eapply (emits_bind _ _ _ _ (fun r _ => iced_to_reg (op_register insn i) = Some r)); [apply emits_opt; by intros|].
    intros r m Hm Hr. apply emits_ret. intros. cbn. by eapply iced_to_reg_size.
  - eapply emits_bind; [apply emits_ea|]. intros a m Hm Ha. eapply emits_bind; [apply emits_mem_size|]. intros s m' Hm' Hs.
    apply emits_ret. intros. split; [eapply val_ok_mono; [|exact Ha]; lia|done].
Qed.

Lemma emits_emit_write n w v : target_ok n w -> val_ok n v -> emitsi n (emit_write w v) anyv.
Proof. intros Hw Hv. destruct w as [r s|a s|p]; unfold emit_write; cbn in Hw; [emit| |emit]. destruct Hw. emit. Qed.

Lemma emits_branch_target n mode : emitsi n (branch_target insn mode) (fun v m => val_ok m v).
Proof.
  pose proof (mask_pc_width _ mode (iced_target insn)) as Ht. unfold branch_target.
  emit.
Qed.
Lemma emits_call_ret_slot n mode : emitsi n (call_ret_slot insn mode) (fun s _ => valid_elem s).
Proof. unfold call_ret_slot. destruct (code insn); try apply emits_fail; apply emits_ret; intros; destruct mode; cbn; unfold valid_elem; lia. Qed.
End ReadWrite.
#[export] Hint Extern 1 (emits _ _ (lower_read _ _) _) => apply emits_lower_read : lift.
#[export] Hint Extern 1 (emits _ _ (lower_write_target _ _) _) => apply emits_write_target : lift.
#[export] Hint Extern 1 (emits _ _ (branch_target _ _) _) => apply emits_branch_target : lift.
#[export] Hint Extern 1 (emits _ _ (call_ret_slot _ _) _) => apply emits_call_ret_slot : lift.
Lemma target_ok_mono n n' w : (n <= n')%nat -> target_ok n w -> target_ok n' w.
Proof. destruct w; cbn; try done. intros Hn []. split; [by eapply val_ok_mono|done]. Qed.
#[export] Hint Extern 2 (emits _ _ (emit_write _ _) _) =>
  apply emits_emit_write; [first [assumption|eapply target_ok_mono; [|eassumption]; lia|cbn; wf]|wf] : lift.
