(* ===== verification/LowerInt.v ===== *)
(** * The integer, stack, string and x87 lowerings emit well-formed ops *)

From S2P Require Import Prelude Features State Ir Alu Memory PageTrack Interp IntegerSpec StringOps Control X87 X87Arm VecOps VecAtomic VecOp VecTotal Block Frame Walk Lift LiftSpec Insn LiftInt LiftCtl LiftVec LiftInsn InsnSpec.

Section LowerInt.
Context `{IcedLaws} (insn : Instruction).
Local Notation emitsu n x := (emits insn n x anyv).

Lemma op_emit_binop op n dst a b size fm : (dst < n)%nat -> val_ok n a -> val_ok n b -> valid_elem size -> op_emit n (mk_binop op dst a b size fm).
Proof. by destruct op. Qed.
#[local] Hint Extern 1 (emits _ _ (push (mk_binop _ _ _ _ _ _)) _) => apply emits_push, op_emit_binop; wf : lift.

Lemma size_mask_width s : 0 <= s -> in_width 64 (size_mask s).
Proof.
  intros Hs. unfold size_mask. destruct (Z.leb_spec 8 s); [done|].
  assert (2 ^ (s * 8) <= 2 ^ 56) by (apply Z.pow_le_mono_r; lia). pose proof (pow2_pos (s * 8) ltac:(lia)). unfold in_width. lia.
Qed.
Lemma operand_size_pos i : 0 <= operand_size insn i.
Proof. unfold operand_size. destruct (op_kind insn i); try done; by apply wrap_width. Qed.
#[local] Hint Extern 1 (val_ok _ (Imm (size_mask _))) => apply size_mask_width, operand_size_pos : lift.

Lemma emits_binop n op fm wb : valid_elem (operand_size insn 0) -> emitsu n (lift_binop insn op fm wb).
Proof.
  intros Hs. assert (Ho : operation_size insn = operand_size insn 0).
  { unfold operation_size. destruct (Z.eqb_spec (operand_size insn 0) 0) as [E|]; [|done]. unfold valid_elem in Hs. lia. }
  unfold lift_binop. rewrite Ho. emit.
Qed.

(** An emitter passed as an argument. *)
#[local] Hint Extern 1 (emits _ _ (_ _ _ _) _) => match goal with He : forall _ _ _ _, _ -> _ |- _ => apply He; wf end : lift.

Lemma emits_unary n rmw src rf (e : Temp -> Val -> Z -> L unit) : valid_elem (operand_size insn 0) -> val_ok n src ->
  (forall m t v s, (t < m)%nat -> val_ok m v -> valid_elem s -> emitsu m (e t v s)) -> emitsu n (lift_unary_op0 insn rmw src rf e).
Proof.
  intros Hs Hsrc He.
  unfold lift_unary_op0. emit.
Qed.
Lemma emits_incdec n op : valid_elem (operand_size insn 0) -> emitsu n (lift_incdec insn op).
Proof. intros. unfold lift_incdec. apply emits_unary; [done|done|]. intros. by apply emits_push, op_emit_binop. Qed.
Lemma emits_neg n : valid_elem (operand_size insn 0) -> emitsu n (lift_neg insn).
Proof. intros. unfold lift_neg. apply emits_unary; [done|done|]. intros. emit. Qed.
Lemma emits_not n : valid_elem (operand_size insn 0) -> emitsu n (lift_not insn).
Proof. intros. unfold lift_not. apply emits_unary; [done|done|]. intros. emit. Qed.
Lemma emits_double_shift n l : valid_elem (operand_size insn 0) -> emitsu n (lift_double_shift insn l).
Proof. intros. unfold lift_double_shift. emit. Qed.
Lemma emits_widening_mul n s : valid_elem (operand_size insn 0) -> emitsu n (lift_widening_mul insn s).
Proof. intros. unfold lift_widening_mul. emit. Qed.
Lemma emits_imul n : valid_elem (operand_size insn 0) -> emitsu n (lift_imul insn).
Proof.
  intros. unfold lift_imul. cbv zeta. destruct (_ =? 1); [by apply emits_widening_mul|]. destruct (_ || _); [|apply emits_fail].
  eapply (emits_bind _ _ _ _ (fun '(a, b) m => val_ok m a /\ val_ok m b)).
  { destruct (_ =? 2); emit. }
  intros [a b] m Hm []. emit.
Qed.
Lemma emits_div n s : valid_elem (operand_size insn 0) -> emitsu n (lift_div insn s).
Proof. intros. unfold lift_div. emit. Qed.
Lemma emits_mulx n : valid_elem (operand_size insn 0) -> emitsu n (lift_mulx insn).
Proof. intros. unfold lift_mulx. emit. Qed.
Lemma emits_xadd n : valid_elem (operand_size insn 0) -> emitsu n (lift_xadd insn).
Proof. intros. unfold lift_xadd. cbn [mk_binop]. emit. Qed.
Lemma emits_cmpxchg n : valid_elem (operand_size insn 0) -> emitsu n (lift_cmpxchg insn).
Proof. intros. pose proof (size_mask_width _ (operand_size_pos 0)). unfold lift_cmpxchg. emit. Qed.
Lemma emits_xchg n : valid_elem (operand_size insn 0) -> valid_elem (operand_size insn 1) -> emitsu n (lift_xchg insn).
Proof. intros. unfold lift_xchg. emit. Qed.
Lemma emits_bitscan n op : valid_elem (operand_size insn 0) -> emitsu n (lift_bitscan insn op).
Proof. intros. unfold lift_bitscan. emit. Qed.
Lemma emits_mem_bt n ea es bit op locked : val_ok n ea -> val_ok n bit -> valid_elem es -> emitsu n (emit_mem_bt ea es bit op locked).
Proof.
  intros Hea Hbit Hes. assert (Hw : in_width 64 (es * 8 - 1)) by (unfold valid_elem in Hes; unfold in_width; lia).
  assert (Hm : in_width 64 (size_mask es)) by (apply size_mask_width; unfold valid_elem in Hes; lia).
  unfold emit_mem_bt. cbv zeta. destruct (locked && _) eqn:El; [|emit].
  eapply emits_bind; [apply emits_assert, Z.leb_le; unfold valid_elem in Hes; lia|]. intros _ m0 Hm0 _.
  eapply emits_bind; [apply emits_alu; intros; split; [wf|exact I]|]. intros sh m1 Hm1 Hsh.
  eapply emits_bind; [apply emits_alu; intros; split; [wf|exact I]|]. intros mask m2 Hm2 Hmask.
  eapply (emits_bind _ _ _ _ (fun '(_, v) m => val_ok m v)).
  { destruct op; [by rewrite andb_false_r in El|emit..]. }
  intros [rop src] m3 Hm3 Hsrc. emit.
Qed.
Lemma emits_bt n op : valid_elem (operand_size insn 0) -> (op_kind insn 1 = OpKind.Register -> valid_elem (operand_size insn 1)) -> emitsu n (lift_bt insn op).
Proof.
  intros Hs Hs1. unfold lift_bt. cbv zeta. eapply emits_bind; [apply emits_lower_read|]. intros bit m1 Hm1 Hbit.
  case_decide; [|emit]. eapply emits_bind; [apply emits_ea|]. intros addr m2 Hm2 Haddr.
  eapply (emits_bind _ _ _ _ (fun '(ea, es) m => val_ok m ea /\ valid_elem es)).
  { case_decide as Hr; [|apply emits_ret; intros; split; [by eapply val_ok_mono|done]].
    specialize (Hs1 Hr). unfold valid_elem in Hs1. emit. }
  intros [ea es] m3 Hm3 []. apply emits_mem_bt; [done|eapply val_ok_mono; [|exact Hbit]; lia|done].
Qed.
Lemma emits_bswap n : emitsu n (lift_bswap insn).
Proof. unfold lift_bswap. emit. Qed.
Lemma emits_bmi n op : valid_elem (operand_size insn 0) -> emitsu n (lift_bmi insn op).
Proof. intros. unfold lift_bmi. emit. Qed.
Lemma emits_bmi_shift n mk : valid_elem (operand_size insn 0) ->
  (forall m t a b s f, (t < m)%nat -> val_ok m a -> val_ok m b -> valid_elem s -> op_emit m (mk t a b s f)) -> emitsu n (lift_bmi_shift insn mk).
Proof.
  intros Hs Hmk. unfold lift_bmi_shift. cbv zeta. eapply emits_bind; [apply emits_lower_read|]. intros a m1 Hm1 Ha.
  eapply emits_bind; [apply emits_lower_read|]. intros b m2 Hm2 Hb. eapply emits_bind; [apply emits_fresh|]. intros t m3 Hm3 Ht.
  eapply emits_bind; [apply emits_push, Hmk; wf|]. intros _ m4 Hm4 _. emit.
Qed.
Lemma emits_movbe n : valid_elem (operand_size insn 0) -> emitsu n (lift_movbe insn).
Proof. intros. unfold lift_movbe. emit. Qed.
Lemma emits_movzx n : emitsu n (lift_movzx insn).
Proof. pose proof (size_mask_width _ (operand_size_pos 1)). unfold lift_movzx. emit. Qed.
Lemma emits_movsx n : valid_elem (operand_size insn 1) -> emitsu n (lift_movsx insn).
Proof. intros Hs. unfold valid_elem in Hs. unfold lift_movsx. emit. Qed.
Lemma emits_cbw n from to : 1 <= from -> valid_elem to -> emitsu n (lift_cbw_family from to).
Proof. intros. unfold lift_cbw_family. emit. Qed.
Lemma emits_sign_into_dx n size : valid_elem size -> emitsu n (lift_sign_into_dx size).
Proof.
  intros Hs. assert (in_width 64 (size * 8 - 1)) by (unfold in_width, valid_elem in *; lia). unfold lift_sign_into_dx. emit.
Qed.
Lemma emits_setcc n cond : emitsu n (lift_setcc insn cond).
Proof. unfold lift_setcc. emit. Qed.
Lemma emits_cmovcc n cond : emitsu n (lift_cmovcc insn cond).
Proof. unfold lift_cmovcc. emit. Qed.

(** ** Control flow and the stack *)

Lemma emits_port n i : emits insn n
  match op_kind insn i with
  | OpKind.Immediate8 => mret (Imm (Z.land (immediate insn i) 0xffff))
  | OpKind.Register => dx ← read_reg Rdx; alu_none (fun dst => And dst dx (Imm 0xffff) 8 FM_NONE)
  | _ => unsupported insn
  end (fun v m => val_ok m v).
Proof. destruct (op_kind insn i); try apply emits_fail; [emit|]. apply emits_ret. intros. cbn. apply land_width; [done|apply iced_imm|done]. Qed.
Lemma emits_port_io n out : emitsu n (lift_port_io insn out).
Proof.
  unfold lift_port_io. destruct out; cbv zeta beta iota; (destruct (negb _); [apply emits_fail|]);
    (eapply emits_bind; [apply emits_port|]; intros port m Hm Hp); emit.
Qed.

Lemma push_pop_size_ok mode : operand_size insn 0 = 0 \/ valid_elem (operand_size insn 0) -> valid_elem (push_pop_size insn mode).
Proof.
  unfold push_pop_size, valid_elem. intros Hs. destruct (Z.eqb_spec (operand_size insn 0) 0); cbn; [|lia].
  destruct (code insn); destruct mode; cbn; lia.
Qed.
Lemma sp_write_ok mode : valid_elem (sp_write_size mode).
Proof. destruct mode; unfold valid_elem; cbn; lia. Qed.

Lemma emits_lift_push n mode : operand_size insn 0 = 0 \/ valid_elem (operand_size insn 0) -> emitsu n (lift_push insn mode).
Proof.
  intros Hs%(push_pop_size_ok mode). pose proof (sp_write_ok mode).
  assert (val_ok n (Imm (push_pop_size insn mode))) by (unfold valid_elem in *; cbn; unfold in_width; lia).
  unfold lift_push. generalize dependent (push_pop_size insn mode). intros s Hs Hv. emit.
Qed.
(** A popped memory operand is not addressed by the stack pointer. *)
Definition pop_ok : Prop := op_kind insn 0 = OpKind.Memory -> memory_base insn <> RSP /\ memory_index insn <> RSP.

Lemma emits_target_kind n i : emits insn n (lower_write_target insn i)
  (fun w m => target_ok m w /\ match w with WTMem _ _ => op_kind insn i = OpKind.Memory | _ => True end).
Proof.
  intros ops tg Hn. pose proof (emits_write_target insn n i ops tg Hn) as He. destruct (lower_write_target insn i ops tg) as [[[[w ops'] tg']|e]|] eqn:E; [|done..].
  destruct He as (H1 & H2 & H3). split; [done|]. split; [done|]. split; [done|]. destruct w; try done.
  unfold lower_write_target in E. destruct (op_kind insn i); try done.
  destruct (high_byte_parent _); [done|]. destruct (iced_to_reg _); done.
Qed.

Lemma emits_lift_pop n mode : operand_size insn 0 = 0 \/ valid_elem (operand_size insn 0) -> pop_ok -> emitsu n (lift_pop insn mode).
Proof.
  intros Hs%(push_pop_size_ok mode) Hpop. pose proof (sp_write_ok mode).
  assert (val_ok n (Imm (push_pop_size insn mode))) by (unfold valid_elem in *; cbn; unfold in_width; lia).
  unfold lift_pop. generalize dependent (push_pop_size insn mode). intros s Hs Hv. cbv zeta.
  eapply emits_bind; [apply emits_read_reg|]. intros rsp m1 Hm1 Hrsp. eapply emits_bind; [apply emits_stack_addr; wf|]. intros la m2 Hm2 Hla.
  eapply emits_bind; [apply emits_fresh|]. intros v m3 Hm3 Hvt. eapply emits_bind; [apply emits_push; split; [wf|exact I]|]. intros _ m4 Hm4 _.
  eapply emits_bind; [apply emits_fresh|]. intros nr m5 Hm5 Hnr. eapply emits_bind; [apply emits_push; split; [wf|exact I]|]. intros _ m6 Hm6 _.
  eapply (emits_bind _ _ _ _ anyv); [emit|]. intros _ m7 Hm7 _.
  eapply (emits_bind _ _ _ _ (fun w m => target_ok m w /\ match w with WTMem _ _ => op_kind insn 0 = OpKind.Memory | _ => True end)).
  { destruct (sreg_operand insn 0); [apply emits_ret; intros; cbn; unfold valid_elem; lia|apply emits_target_kind]. }
  intros w m8 Hm8 [Hw Hk]. destruct w as [| |]; [emit| |emit]. destruct (Hpop Hk) as [Hb Hi].
  eapply emits_bind; [apply emits_assert; by rewrite (proj2 (Z.eqb_neq _ _) Hb), (proj2 (Z.eqb_neq _ _) Hi)|]. intros _ m9 Hm9 _. emit.
Qed.

Lemma next_ip_ok mode : in_width 64 (mask_pc (next_ip insn) mode).
Proof. apply mask_pc_width, iced_next_ip. Qed.
Lemma imm16_ok n : val_ok n (Imm (2 + pop_extra_of insn)).
Proof. unfold pop_extra_of. pose proof (iced_imm16 insn) as []. destruct (0 <? _); cbn; unfold in_width; lia. Qed.

Lemma emits_call_real16 n : emitsu n (lift_call_real16 insn).
Proof. pose proof (next_ip_ok Real16). unfold lift_call_real16. generalize dependent (mask_pc (next_ip insn) Real16). intros. emit. Qed.
Lemma emits_ret_real16 n : emitsu n (lift_ret_real16 insn).
Proof. pose proof (imm16_ok n). unfold lift_ret_real16. cbv zeta. generalize dependent (2 + pop_extra_of insn). intros. emit. Qed.
Lemma emits_far_target n : emits insn n (far_target insn) (fun '(c, i) m => val_ok m c /\ val_ok m i).
Proof.
  destruct (iced_far insn) as [F1 F2]. unfold far_target. destruct (op_kind insn 0); try apply emits_fail; [emit|].
  apply emits_ret. intros. split; eapply imm_small; [|exact F1| |exact F2]; lia.
Qed.
Lemma emits_far_jmp n : emitsu n (lift_far_jmp_real16 insn).
Proof. unfold lift_far_jmp_real16. eapply emits_bind; [apply emits_far_target|]. intros [c i] m Hm []. emit. Qed.
Lemma emits_far_call n : emitsu n (lift_far_call_real16 insn).
Proof. unfold lift_far_call_real16. eapply emits_bind; [apply emits_far_target|]. intros [c i] m Hm []. emit. Qed.
Lemma emits_retf n : emitsu n (lift_retf_real16 insn).
Proof. unfold lift_retf_real16. emit. Qed.
Lemma emits_loop n kind : emitsu n (lift_loop_real16 insn kind).
Proof.
  pose proof (next_ip_ok Real16). pose proof (mask_pc_width _ Real16 (iced_target insn)). unfold lift_loop_real16.
  generalize dependent (mask_pc (next_ip insn) Real16). generalize dependent (mask_pc (near_branch_target insn) Real16). intros. emit.
Qed.
Lemma emits_seg_base n seg : emits insn n (seg_base_shl4 seg) (fun v m => val_ok m v).
Proof. unfold seg_base_shl4. emit. Qed.
#[local] Hint Extern 1 (emits _ _ (seg_base_shl4 _) _) => apply emits_seg_base : lift.
Lemma emits_string n op elem mode : valid_elem elem -> emits insn n (lift_string insn op elem mode) anyv.
Proof.
  intros He. unfold lift_string. cbv zeta. destruct (wraps_16 mode); [emit|].
  eapply (emits_bind _ _ _ _ (fun v m => val_ok m v)); [emit|]. intros. emit.
Qed.

Lemma emits_x87_addr n : emits insn n (if has_memory_operand insn then effective_address insn else mret (Imm 0)) (fun v m => val_ok m v).
Proof. emit. Qed.
Lemma emits_x87 n : emitsu n (lift_x87 insn).
Proof.
  unfold lift_x87. eapply (emits_bind _ _ _ _ anyv); [by apply emits_opt|]. intros k m Hm _.
  assert (Hgen : forall k, emitsu m (addr ← (if has_memory_operand insn then effective_address insn else mret (Imm 0)); push (X87 k addr (st_index insn)))).
  { intros k'. eapply emits_bind; [apply emits_x87_addr|]. intros. emit. }
  destruct k; try apply Hgen. emit.
Qed.

Lemma emits_mov_sreg n : emits insn n (lift_mov_sreg_real16 insn) anyv.
Proof. unfold lift_mov_sreg_real16. emit. Qed.
Lemma emits_xlat n : emitsu n (lift_xlat_real16 insn).
Proof. unfold lift_xlat_real16. emit. Qed.
Lemma emits_bound n : emitsu n (lift_bound_real16 insn).
Proof. pose proof (next_ip_ok Real16). unfold lift_bound_real16. generalize dependent (mask_pc (next_ip insn) Real16). intros. emit. Qed.
Lemma emits_load_far_ptr n seg : op_kind insn 1 = OpKind.Memory -> emitsu n (lift_load_far_ptr_real16 insn seg).
Proof.
  intros Hk. unfold lift_load_far_ptr_real16. eapply emits_bind; [by apply emits_assert, bool_decide_eq_true_2|]. intros _ m Hm _. emit.
Qed.
Lemma emits_leave_real16 n : emitsu n (lift_leave_real16 insn).
Proof. unfold lift_leave_real16. emit. Qed.
End LowerInt.

#[export] Hint Extern 1 (emits _ _ (lift_binop _ _ _ _) _) => apply emits_binop; wf : lift.
#[export] Hint Extern 1 (emits _ _ (lift_incdec _ _) _) => apply emits_incdec; wf : lift.
#[export] Hint Extern 1 (emits _ _ (lift_neg _) _) => apply emits_neg; wf : lift.
#[export] Hint Extern 1 (emits _ _ (lift_not _) _) => apply emits_not; wf : lift.
#[export] Hint Extern 1 (emits _ _ (lift_double_shift _ _) _) => apply emits_double_shift; wf : lift.
#[export] Hint Extern 1 (emits _ _ (lift_widening_mul _ _) _) => apply emits_widening_mul; wf : lift.
#[export] Hint Extern 1 (emits _ _ (lift_imul _) _) => apply emits_imul; wf : lift.
#[export] Hint Extern 1 (emits _ _ (lift_div _ _) _) => apply emits_div; wf : lift.
#[export] Hint Extern 1 (emits _ _ (lift_mulx _) _) => apply emits_mulx; wf : lift.
#[export] Hint Extern 1 (emits _ _ (lift_xadd _) _) => apply emits_xadd; wf : lift.
#[export] Hint Extern 1 (emits _ _ (lift_cmpxchg _) _) => apply emits_cmpxchg; wf : lift.
#[export] Hint Extern 1 (emits _ _ (lift_xchg _) _) => apply emits_xchg; wf : lift.
#[export] Hint Extern 1 (emits _ _ (lift_bitscan _ _) _) => apply emits_bitscan; wf : lift.
#[export] Hint Extern 1 (emits _ _ (lift_bt _ _) _) => apply emits_bt; wf : lift.
#[export] Hint Extern 1 (emits _ _ (lift_bswap _) _) => apply emits_bswap; wf : lift.
#[export] Hint Extern 1 (emits _ _ (lift_bmi _ _) _) => apply emits_bmi; wf : lift.
#[export] Hint Extern 1 (emits _ _ (lift_movbe _) _) => apply emits_movbe; wf : lift.
#[export] Hint Extern 1 (emits _ _ (lift_movzx _) _) => apply emits_movzx; wf : lift.
#[export] Hint Extern 1 (emits _ _ (lift_movsx _) _) => apply emits_movsx; wf : lift.
#[export] Hint Extern 1 (emits _ _ (lift_cbw_family _ _) _) => apply emits_cbw; wf : lift.
#[export] Hint Extern 1 (emits _ _ (lift_sign_into_dx _) _) => apply emits_sign_into_dx; wf : lift.
#[export] Hint Extern 1 (emits _ _ (lift_setcc _ _) _) => apply emits_setcc; wf : lift.
#[export] Hint Extern 1 (emits _ _ (lift_cmovcc _ _) _) => apply emits_cmovcc; wf : lift.
#[export] Hint Extern 1 (emits _ _ (lift_port_io _ _) _) => apply emits_port_io; wf : lift.
#[export] Hint Extern 1 (emits _ _ (lift_push _ _) _) => apply emits_lift_push; wf : lift.
#[export] Hint Extern 1 (emits _ _ (lift_pop _ _) _) => apply emits_lift_pop; wf : lift.
#[export] Hint Extern 1 (emits _ _ (lift_call_real16 _) _) => apply emits_call_real16; wf : lift.
#[export] Hint Extern 1 (emits _ _ (lift_ret_real16 _) _) => apply emits_ret_real16; wf : lift.
#[export] Hint Extern 1 (emits _ _ (lift_far_jmp_real16 _) _) => apply emits_far_jmp; wf : lift.
#[export] Hint Extern 1 (emits _ _ (lift_far_call_real16 _) _) => apply emits_far_call; wf : lift.
#[export] Hint Extern 1 (emits _ _ (lift_retf_real16 _) _) => apply emits_retf; wf : lift.
#[export] Hint Extern 1 (emits _ _ (lift_loop_real16 _ _) _) => apply emits_loop; wf : lift.
#[export] Hint Extern 1 (emits _ _ (lift_string _ _ _ _) _) => apply emits_string; wf : lift.
#[export] Hint Extern 1 (emits _ _ (lift_x87 _) _) => apply emits_x87; wf : lift.
#[export] Hint Extern 1 (emits _ _ (lift_mov_sreg_real16 _) _) => apply emits_mov_sreg; wf : lift.
#[export] Hint Extern 1 (emits _ _ (lift_xlat_real16 _) _) => apply emits_xlat; wf : lift.
#[export] Hint Extern 1 (emits _ _ (lift_bound_real16 _) _) => apply emits_bound; wf : lift.
#[export] Hint Extern 1 (emits _ _ (lift_load_far_ptr_real16 _ _) _) => apply emits_load_far_ptr; wf : lift.
#[export] Hint Extern 1 (emits _ _ (lift_leave_real16 _) _) => apply emits_leave_real16; wf : lift.
#[export] Hint Extern 1 (emits _ _ (lift_bmi_shift _ _) _) => apply emits_bmi_shift; [wf|intros; split; [wf|exact I]] : lift.
