(* ===== verification/LowerVec.v ===== *)
(** * The vector lowerings emit well-formed ops

    One lemma per lowering of lift/vector.rs, in its order; the hypotheses are the operand
    sizes and selectors the dispatch passes. *)

From S2P Require Import Prelude Features State Ir Alu Memory PageTrack Interp IntegerSpec StringOps Control X87 X87Arm VecOps VecAtomic VecOp VecTotal Block Frame Walk Lift LiftSpec Insn LiftInt LiftCtl LiftVec LiftInsn InsnSpec.

Section LowerVec.
Context `{IcedLaws} (insn : Instruction).

Lemma emits_vec_src n ext idx (reg : nat -> L unit) (mem : Val -> L unit) :
  (forall b m, (n <= m)%nat -> ext insn idx = Some b -> emits insn m (reg b) anyv) ->
  (forall a m, (n <= m)%nat -> val_ok m a -> emits insn m (mem a) anyv) -> emits insn n (vec_src_dispatch insn ext idx reg mem) anyv.
Proof.
  intros Hr Hm. unfold vec_src_dispatch. destruct (ext insn idx) eqn:E; [by apply Hr|]. case_decide; [|apply emits_fail].
  eapply emits_bind; [apply emits_ea|]. intros. by apply Hm.
Qed.
#[local] Hint Extern 1 (emits _ _ (vec_src_dispatch _ _ _ _ _) _) => apply emits_vec_src; intros; emit : lift.

(** A move of 16 bytes to or from a register names a vector register. *)
Lemma emits_lift_vmov n (size : Z) :
  vec_size size -> (size = 16 -> forall i, i = 0 \/ i = 1 -> op_kind insn i = OpKind.Register -> reg_xmm insn i <> None) -> emits insn n (lift_vmov insn size) anyv.
Proof.
  intros Hs H16. destruct (decide (size = 16)) as [->|Hne].
  - specialize (H16 eq_refl). unfold lift_vmov. cbv zeta. rewrite (bool_decide_true (16 = 16)) by done.
    destruct (reg_xmm insn 0) eqn:E0, (reg_xmm insn 1) eqn:E1; repeat case_bool_decide; first [by destruct (H16 0); [left|..] | by destruct (H16 1); [right|..] | emit].
  - assert (valid_elem size) by (unfold vec_size, valid_elem in *; lia). unfold lift_vmov. emit.
Qed.
#[local] Hint Extern 1 (emits _ _ (lift_vmov _ _) _) => apply emits_lift_vmov; [wf|first [assumption|lia]] : lift.
Lemma emits_lift_vmov_vex n (size : Z) :
  vec_size size -> (size = 16 -> forall i, i = 0 \/ i = 1 -> op_kind insn i = OpKind.Register -> reg_xmm insn i <> None) -> emits insn n (lift_vmov_vex insn size) anyv.
Proof. intros. unfold lift_vmov_vex. emit. Qed.
#[local] Hint Extern 1 (emits _ _ (lift_vmov_vex _ _) _) => apply emits_lift_vmov_vex; [wf|first [assumption|lia]] : lift.
Lemma emits_lift_broadcast n (elem : Z) : valid_elem elem -> emits insn n (lift_broadcast insn elem) anyv.
Proof. intros. unfold lift_broadcast. emit. Qed.
Lemma emits_lift_broadcast_lane n (chunk : Z) (elem : Z) : 1 <= chunk <= 32 -> chunk_elem elem (evex_writemask insn) -> emits insn n (lift_broadcast_lane insn chunk elem) anyv.
Proof. intros. unfold lift_broadcast_lane. emit. Qed.
Lemma emits_lift_vpacked_shift_avx n (lane : Z) (right_ : bool) (arith : bool) : valid_elem lane -> emits insn n (lift_vpacked_shift_avx insn lane right_ arith) anyv.
Proof. intros. unfold lift_vpacked_shift_avx. emit. Qed.
Lemma emits_lift_vshift_var n (elem : Z) (right_ : bool) (arith : bool) : valid_elem elem -> emits insn n (lift_vshift_var insn elem right_ arith) anyv.
Proof. intros. unfold lift_vshift_var. emit. Qed.
Lemma emits_lift_vgfni_wide n (op : GfniOp) (dst : nat) (bytes : Z) : (dst < 32)%nat -> valid_vec bytes -> emits insn n (lift_vgfni_wide insn op dst bytes) anyv.
Proof. intros. unfold lift_vgfni_wide. emit. Qed.
#[local] Hint Extern 1 (emits _ _ (lift_vgfni_wide _ _ _ _) _) => apply emits_lift_vgfni_wide; wf : lift.
Lemma emits_lift_vlogic_vex n (op : VLogicOp) : emits insn n (lift_vlogic_vex insn op) anyv.
Proof. intros. unfold lift_vlogic_vex. emit. Qed.
#[local] Hint Extern 1 (emits _ _ (lift_vlogic_vex _ _) _) => apply emits_lift_vlogic_vex; wf : lift.
Lemma emits_lift_vlogic_avx n (op : VLogicOp) : emits insn n (lift_vlogic_avx insn op) anyv.
Proof. intros. unfold lift_vlogic_avx. emit. Qed.
Lemma emits_lift_vpacked_bin_vex n (lane : Z) (op : PackedBinOp) : valid_elem lane -> emits insn n (lift_vpacked_bin_vex insn lane op) anyv.
Proof. intros. unfold lift_vpacked_bin_vex. emit. Qed.
#[local] Hint Extern 1 (emits _ _ (lift_vpacked_bin_vex _ _ _) _) => apply emits_lift_vpacked_bin_vex; wf : lift.
Lemma emits_lift_vpacked_bin_avx n (lane : Z) (op : PackedBinOp) : valid_elem lane -> emits insn n (lift_vpacked_bin_avx insn lane op) anyv.
Proof. intros. unfold lift_vpacked_bin_avx. emit. Qed.
#[local] Hint Extern 1 (emits _ _ (lift_vpacked_bin_avx _ _ _) _) => apply emits_lift_vpacked_bin_avx; wf : lift.
Lemma emits_lift_vmov_avx n (elem : Z) :
  valid_elem elem -> (forall i, i = 0 \/ i = 1 -> op_kind insn i = OpKind.Register -> vec_operand insn i <> None) -> emits insn n (lift_vmov_avx insn elem) anyv.
Proof.
  intros He Hop. unfold lift_vmov_avx. destruct (evex_is_masked insn); [emit|]. cbv zeta.
  destruct (is_some (reg_zmm insn 0) || is_some (reg_zmm insn 1)) eqn:Ez; [emit|].
  destruct (is_none (reg_ymm insn 0) && is_none (reg_ymm insn 1)) eqn:Ey; [|emit].
  apply emits_lift_vmov_vex; [by right; right|]. intros _ i Hi Hk Hx. apply (Hop i Hi Hk). unfold vec_operand. rewrite Hx.
  destruct Hi as [-> | ->]; destruct (reg_zmm insn 0), (reg_zmm insn 1), (reg_ymm insn 0), (reg_ymm insn 1); done.
Qed.
Lemma emits_lift_vlogic n (op : VLogicOp) : emits insn n (lift_vlogic insn op) anyv.
Proof. intros. unfold lift_vlogic. emit. Qed.
Lemma emits_lift_vpacked_bin n (lane : Z) (op : PackedBinOp) : valid_elem lane -> emits insn n (lift_vpacked_bin insn lane op) anyv.
Proof. intros. unfold lift_vpacked_bin. emit. Qed.
Lemma emits_lift_evex_packed_bin_128 n (lane : Z) (op : PackedBinOp) : valid_elem lane -> emits insn n (lift_evex_packed_bin_128 insn lane op) anyv.
Proof. intros. unfold lift_evex_packed_bin_128. emit. Qed.
(** The lane picked fits the register. *)
Lemma lane_fits w lanes bytes : valid_vec bytes -> lanes = 1 \/ (lanes = 2 /\ bytes <> 16) -> 0 <= w ->
  lanes_fit (Z.land w (wrap 8 bytes / 16 / lanes - 1)) lanes.
Proof.
  intros Hb Hl Hw. unfold lanes_fit.
  assert (exists k, 0 <= k <= 2 /\ wrap 8 bytes / 16 / lanes - 1 = Z.ones k /\ 2 ^ k * lanes <= 4) as (k & Hk & -> & Hkl).
  { unfold valid_vec in Hb. destruct Hl as [->|[-> Hne]]; destruct Hb as [->|[->| ->]]; try done;
      [exists 0|exists 1|exists 2|exists 0|exists 1]; vm_compute; repeat split; congruence. }
  rewrite Z.land_ones by lia. pose proof (Z.mod_pos_bound w (2 ^ k) ltac:(lia)). nia.
Qed.
Lemma vec_operand_wide i r b : reg_xmm insn i = None -> vec_operand insn i = Some (r, b) -> b <> 16.
Proof. unfold vec_operand. intros ->. destruct (reg_zmm insn i), (reg_ymm insn i); naive_solver lia. Qed.
Lemma emits_lift_vextract_wide n (extract_lanes : Z) :
  extract_lanes = 1 \/ (extract_lanes = 2 /\ reg_xmm insn 1 = None) -> emits insn n (lift_vextract_wide insn extract_lanes) anyv.
Proof.
  intros Hl. unfold lift_vextract_wide. destruct (evex_is_masked insn); [apply emits_fail|].
  eapply (emits_bind _ _ _ _ (fun a _ => vec_operand insn 1 = Some a)); [apply emits_opt; by intros|]. intros [src bytes] m Hm E. cbv zeta.
  assert (Hfit : lanes_fit (Z.land (wrap 8 (immediate insn 2)) (wrap 8 bytes / 16 / extract_lanes - 1)) extract_lanes).
  { apply lane_fits; [by destruct (vec_operand_ok _ _ _ _ E)|destruct Hl as [|[-> Hn]]; [by left|right; split; [done|by eapply vec_operand_wide]]|by apply wrap_nonneg]. }
  emit.
Qed.
Lemma emits_lift_vinsert_wide n (insert_lanes : Z) :
  insert_lanes = 1 \/ (insert_lanes = 2 /\ reg_xmm insn 0 = None) -> emits insn n (lift_vinsert_wide insn insert_lanes) anyv.
Proof.
  intros Hl. unfold lift_vinsert_wide. destruct (evex_is_masked insn); [apply emits_fail|].
  eapply (emits_bind _ _ _ _ (fun a _ => vec_operand insn 0 = Some a)); [apply emits_opt; by intros|]. intros [src bytes] m Hm E. cbv zeta.
  assert (Hfit : lanes_fit (Z.land (wrap 8 (immediate insn 3)) (wrap 8 bytes / 16 / insert_lanes - 1)) insert_lanes).
  { apply lane_fits; [by destruct (vec_operand_ok _ _ _ _ E)|destruct Hl as [|[-> Hn]]; [by left|right; split; [done|by eapply vec_operand_wide]]|by apply wrap_nonneg]. }
  emit.
Qed.
Lemma emits_lift_valign n (elem : Z) : valid_elem elem ->
  (forall r b, vec_operand insn 0 = Some (r, b) -> valign_fits (wrap 8 (immediate insn 3)) elem b) -> emits insn n (lift_valign insn elem) anyv.
Proof.
  intros He Hf. unfold lift_valign. destruct (evex_is_masked insn); [apply emits_fail|].
  eapply (emits_bind _ _ _ _ (fun a _ => vec_operand insn 0 = Some a)); [apply emits_opt; by intros|]. intros [dst bytes] m Hm E.
  specialize (Hf _ _ E). emit.
Qed.
Lemma emits_lift_blendv n (lane : Z) : valid_elem lane -> emits insn n (lift_blendv insn lane) anyv.
Proof. intros. unfold lift_blendv. emit. Qed.
Lemma emits_lift_vmaskmov n (elem : Z) : valid_elem elem -> emits insn n (lift_vmaskmov insn elem) anyv.
Proof. intros. unfold lift_vmaskmov. emit. Qed.
Lemma emits_lift_vblendv n (lane : Z) : valid_elem lane -> emits insn n (lift_vblendv insn lane) anyv.
Proof. intros. unfold lift_vblendv. emit. Qed.
Lemma emits_lift_blendi n (lane : Z) : valid_elem lane -> emits insn n (lift_blendi insn lane) anyv.
Proof. intros. unfold lift_blendi. emit. Qed.
Lemma emits_lift_vblendi n (lane : Z) : valid_elem lane -> reg_zmm insn 0 = None -> emits insn n (lift_vblendi insn lane) anyv.
Proof.
  intros He Hz. unfold lift_vblendi.
  eapply (emits_bind _ _ _ _ (fun a _ => vec_operand insn 0 = Some a)); [apply emits_opt; by intros|]. intros [dst bytes] m Hm E.
  pose proof (vec_operand_half _ _ _ _ Hz E) as Hf. emit.
Qed.
Lemma emits_lift_round n (prec : FPrec) (scalar : bool) : emits insn n (lift_round insn prec scalar) anyv.
Proof. intros. unfold lift_round. emit. Qed.
Lemma emits_lift_vround n (prec : FPrec) : emits insn n (lift_vround insn prec) anyv.
Proof. intros. unfold lift_vround. emit. Qed.
Lemma emits_lift_vround_scalar n (prec : FPrec) : emits insn n (lift_vround_scalar insn prec) anyv.
Proof. intros. unfold lift_vround_scalar. emit. Qed.
Lemma emits_lift_pcmpstr_idx n (explicit : bool) : emits insn n (lift_pcmpstr_idx insn explicit) anyv.
Proof. intros. unfold lift_pcmpstr_idx. emit. Qed.
Lemma emits_lift_pcmpstr_mask n (explicit : bool) : emits insn n (lift_pcmpstr_mask insn explicit) anyv.
Proof. intros. unfold lift_pcmpstr_mask. emit. Qed.
Lemma emits_lift_insertps n : emits insn n (lift_insertps insn) anyv.
Proof. intros. unfold lift_insertps. emit. Qed.
Lemma emits_lift_vinsertps n : emits insn n (lift_vinsertps insn) anyv.
Proof. intros. unfold lift_vinsertps. emit. Qed.
Lemma emits_lift_dpps n : emits insn n (lift_dpps insn) anyv.
Proof. intros. unfold lift_dpps. emit. Qed.
Lemma emits_lift_dppd n : emits insn n (lift_dppd insn) anyv.
Proof. intros. unfold lift_dppd. emit. Qed.
Lemma emits_lift_vdp n (prec : FPrec) : emits insn n (lift_vdp insn prec) anyv.
Proof. intros. unfold lift_vdp. emit. Qed.
Lemma emits_lift_vdpps n : emits insn n (lift_vdpps insn) anyv.
Proof. intros. unfold lift_vdpps. emit. Qed.
Lemma emits_lift_vrndscale n (prec : FPrec) : emits insn n (lift_vrndscale insn prec) anyv.
Proof. intros. unfold lift_vrndscale. emit. Qed.
Lemma emits_lift_pmovx n (from : Z) (to : Z) (signed : bool) : valid_elem from -> valid_elem to -> from < to -> emits insn n (lift_pmovx insn from to signed) anyv.
Proof. intros. unfold lift_pmovx. emit. Qed.
#[local] Hint Extern 1 (emits _ _ (lift_pmovx _ _ _ _) _) => apply emits_lift_pmovx; wf : lift.
Lemma emits_lift_vpmovx n (from : Z) (to : Z) (signed : bool) : valid_elem from -> valid_elem to -> from < to -> emits insn n (lift_vpmovx insn from to signed) anyv.
Proof. intros. unfold lift_vpmovx. emit. Qed.
Lemma emits_lift_vpabs n (elem : Z) : valid_elem elem -> emits insn n (lift_vpabs insn elem) anyv.
Proof. intros. unfold lift_vpabs. emit. Qed.
Lemma emits_lift_vp_unary_lane n (op : VpUnaryOp) (elem : Z) : valid_elem elem -> emits insn n (lift_vp_unary_lane insn op elem) anyv.
Proof. intros. unfold lift_vp_unary_lane. emit. Qed.
Lemma emits_lift_vp_blendm n (elem : Z) : valid_elem elem -> emits insn n (lift_vp_blendm insn elem) anyv.
Proof. intros. unfold lift_vp_blendm. emit. Qed.
Lemma emits_lift_vshuf_lane n (elem : Z) : valid_elem elem -> emits insn n (lift_vshuf_lane insn elem) anyv.
Proof. intros. unfold lift_vshuf_lane. emit. Qed.
Lemma emits_lift_vp_multishift n : emits insn n (lift_vp_multishift insn) anyv.
Proof. intros. unfold lift_vp_multishift. emit. Qed.
Lemma emits_lift_vpopcnt n (lane : Z) : valid_elem lane -> emits insn n (lift_vpopcnt insn lane) anyv.
Proof. intros. unfold lift_vpopcnt. emit. Qed.
Lemma emits_lift_vperm2 n (elem : Z) (imode : bool) : valid_elem elem -> emits insn n (lift_vperm2 insn elem imode) anyv.
Proof. intros. unfold lift_vperm2. emit. Qed.
#[local] Hint Extern 1 (emits _ _ (lift_vperm2 _ _ _) _) => apply emits_lift_vperm2; wf : lift.
Lemma emits_lift_vpermt2 n (elem : Z) : valid_elem elem -> emits insn n (lift_vpermt2 insn elem) anyv.
Proof. intros. unfold lift_vpermt2. emit. Qed.
Lemma emits_lift_vpermi2 n (elem : Z) : valid_elem elem -> emits insn n (lift_vpermi2 insn elem) anyv.
Proof. intros. unfold lift_vpermi2. emit. Qed.
Lemma emits_lift_vpmov_narrow n (from : Z) (to : Z) : valid_elem from -> valid_elem to -> emits insn n (lift_vpmov_narrow insn from to) anyv.
Proof. intros. unfold lift_vpmov_narrow. emit. Qed.
Lemma emits_lift_kunpck n (half : Z) : 0 <= half <= 32 -> emits insn n (lift_kunpck insn half) anyv.
Proof. intros. unfold lift_kunpck. emit. Qed.
Lemma emits_lift_kbinop n (op : VKLogicOp) (width : Z) : in_width 8 width -> emits insn n (lift_kbinop insn op width) anyv.
Proof. intros. unfold lift_kbinop. emit. Qed.
Lemma emits_lift_knot n (width : Z) : in_width 8 width -> emits insn n (lift_knot insn width) anyv.
Proof. intros. unfold lift_knot. emit. Qed.
Lemma emits_lift_kshift n (width : Z) (left_ : bool) : in_width 8 width -> emits insn n (lift_kshift insn width left_) anyv.
Proof. intros. unfold lift_kshift. emit. Qed.
Lemma emits_lift_evex_vlogic n (op : VLogicOp) (elem : Z) : valid_elem elem -> emits insn n (lift_evex_vlogic insn op elem) anyv.
Proof. intros. unfold lift_evex_vlogic. emit. Qed.
Lemma emits_lift_vpternlog n : emits insn n (lift_vpternlog insn) anyv.
Proof. intros. unfold lift_vpternlog. emit. Qed.
Lemma emits_lift_kmov n (width : Z) : in_width 8 width -> emits insn n (lift_kmov insn width) anyv.
Proof. intros. unfold lift_kmov. emit. Qed.
Lemma emits_lift_kortest n (width : Z) : in_width 8 width -> emits insn n (lift_kortest insn width) anyv.
Proof. intros. unfold lift_kortest. emit. Qed.
Lemma emits_lift_vptest n (elem : Z) (neg : bool) : valid_elem elem -> emits insn n (lift_vptest insn elem neg) anyv.
Proof. intros. unfold lift_vptest. emit. Qed.
Lemma emits_lift_vpcmp n (elem : Z) (signed : bool) : valid_elem elem -> emits insn n (lift_vpcmp insn elem signed) anyv.
Proof. intros. unfold lift_vpcmp. emit. Qed.
Lemma emits_lift_vpcmp_fixed_or_packed n (elem : Z) (packed : PackedBinOp) (pred : Z) (signed : bool) : valid_elem elem -> in_width 8 pred -> emits insn n (lift_vpcmp_fixed_or_packed insn elem packed pred signed) anyv.
Proof. intros. unfold lift_vpcmp_fixed_or_packed. emit. Qed.
Lemma emits_lift_vpacked_shift n (lane : Z) (right_ : bool) (arith : bool) : valid_elem lane -> emits insn n (lift_vpacked_shift insn lane right_ arith) anyv.
Proof. intros. unfold lift_vpacked_shift. emit. Qed.
Lemma emits_lift_byteshift n (right_ : bool) : emits insn n (lift_byteshift insn right_) anyv.
Proof. intros. unfold lift_byteshift. emit. Qed.
Lemma emits_lift_byteshift_avx n (right_ : bool) : emits insn n (lift_byteshift_avx insn right_) anyv.
Proof. intros. unfold lift_byteshift_avx. emit. Qed.
Lemma emits_lift_pshufd n : emits insn n (lift_pshufd insn) anyv.
Proof. intros. unfold lift_pshufd. emit. Qed.
#[local] Hint Extern 1 (emits _ _ (lift_pshufd _) _) => apply emits_lift_pshufd; wf : lift.
Lemma emits_lift_vperm1 n (elem : Z) : valid_elem elem -> emits insn n (lift_vperm1 insn elem) anyv.
Proof. intros. unfold lift_vperm1. emit. Qed.
Lemma emits_lift_vpblendw n : emits insn n (lift_vpblendw insn) anyv.
Proof. intros. unfold lift_vpblendw. emit. Qed.
Lemma emits_lift_vpack n (from_elem : Z) (signed : bool) : pack_from from_elem -> emits insn n (lift_vpack insn from_elem signed) anyv.
Proof. intros. unfold lift_vpack. emit. Qed.
Lemma emits_lift_vpblendd n : reg_zmm insn 0 = None -> emits insn n (lift_vpblendd insn) anyv.
Proof.
  intros Hz. unfold lift_vpblendd.
  eapply (emits_bind _ _ _ _ (fun a _ => vec_operand insn 0 = Some a)); [apply emits_opt; by intros|]. intros [dst bytes] m Hm E.
  pose proof (vec_operand_half _ _ _ _ Hz E) as Hf. emit.
Qed.
Lemma emits_lift_vpshufd n : emits insn n (lift_vpshufd insn) anyv.
Proof. intros. unfold lift_vpshufd. emit. Qed.
Lemma emits_lift_movdup n (imm : Z) (ddup : bool) (bytes : Z) : in_width 8 imm -> valid_vec bytes -> emits insn n (lift_movdup insn imm ddup bytes) anyv.
Proof. intros. unfold lift_movdup. emit. Qed.
#[local] Hint Extern 1 (emits _ _ (lift_movdup _ _ _ _) _) => apply emits_lift_movdup; wf : lift.
Lemma emits_lift_vmovdup n (imm : Z) (ddup : bool) : in_width 8 imm -> emits insn n (lift_vmovdup insn imm ddup) anyv.
Proof. intros. unfold lift_vmovdup. emit. Qed.
Lemma emits_lift_shufps n : emits insn n (lift_shufps insn) anyv.
Proof. intros. unfold lift_shufps. emit. Qed.
Lemma emits_lift_vshufps n : emits insn n (lift_vshufps insn) anyv.
Proof. intros. unfold lift_vshufps. emit. Qed.
Lemma emits_lift_vpermil_imm n (is_pd : bool) : emits insn n (lift_vpermil_imm insn is_pd) anyv.
Proof. intros. unfold lift_vpermil_imm. emit. Qed.
Lemma emits_lift_vpermil_var n (elem : Z) : valid_elem elem -> emits insn n (lift_vpermil_var insn elem) anyv.
Proof. intros. unfold lift_vpermil_var. emit. Qed.
Lemma emits_lift_pshufw n (high : bool) (vex : bool) : emits insn n (lift_pshufw insn high vex) anyv.
Proof. intros. unfold lift_pshufw. emit. Qed.
Lemma emits_lift_vunpack n (lane : Z) (high : bool) : valid_elem lane -> emits insn n (lift_vunpack insn lane high) anyv.
Proof. intros. unfold lift_vunpack. emit. Qed.
Lemma emits_lift_vunpack_avx n (lane : Z) (high : bool) : valid_elem lane -> emits insn n (lift_vunpack_avx insn lane high) anyv.
Proof. intros. unfold lift_vunpack_avx. emit. Qed.
Lemma emits_lift_aes n (op : AesOp) : emits insn n (lift_aes insn op) anyv.
Proof. intros. unfold lift_aes. emit. Qed.
Lemma emits_lift_vaes n (op : AesOp) : emits insn n (lift_vaes insn op) anyv.
Proof. intros. unfold lift_vaes. emit. Qed.
Lemma emits_lift_aes_imc n (vex : bool) : emits insn n (lift_aes_imc insn vex) anyv.
Proof. intros. unfold lift_aes_imc. emit. Qed.
Lemma emits_lift_aes_keygen n (vex : bool) : emits insn n (lift_aes_keygen insn vex) anyv.
Proof. intros. unfold lift_aes_keygen. emit. Qed.
Lemma emits_lift_pclmul n : emits insn n (lift_pclmul insn) anyv.
Proof. intros. unfold lift_pclmul. emit. Qed.
Lemma emits_lift_vpclmul n : emits insn n (lift_vpclmul insn) anyv.
Proof. intros. unfold lift_vpclmul. emit. Qed.
Lemma emits_lift_sha n (op : ShaOp) : emits insn n (lift_sha insn op) anyv.
Proof. intros. unfold lift_sha. emit. Qed.
Lemma emits_lift_gfni n (op : GfniOp) : emits insn n (lift_gfni insn op) anyv.
Proof. intros. unfold lift_gfni. emit. Qed.
Lemma emits_lift_vgfni n (op : GfniOp) : emits insn n (lift_vgfni insn op) anyv.
Proof. intros. unfold lift_vgfni. emit. Qed.
Lemma emits_lift_psign n (lane : Z) : small_elem lane -> emits insn n (lift_psign insn lane) anyv.
Proof. intros. unfold lift_psign. emit. Qed.
Lemma emits_lift_vpsign n (lane : Z) : small_elem lane -> emits insn n (lift_vpsign insn lane) anyv.
Proof. intros. unfold lift_vpsign. emit. Qed.
Lemma emits_lift_packuswb n : emits insn n (lift_packuswb insn) anyv.
Proof. intros. unfold lift_packuswb. emit. Qed.
Lemma emits_lift_pack_signed n (from_elem : Z) : pack_from from_elem -> emits insn n (lift_pack_signed insn from_elem) anyv.
Proof. intros. unfold lift_pack_signed. emit. Qed.
Lemma emits_lift_pmaddwd n : emits insn n (lift_pmaddwd insn) anyv.
Proof. intros. unfold lift_pmaddwd. emit. Qed.
Lemma emits_lift_pmaddubsw n : emits insn n (lift_pmaddubsw insn) anyv.
Proof. intros. unfold lift_pmaddubsw. emit. Qed.
Lemma emits_lift_vpmadd n (ubsw : bool) : emits insn n (lift_vpmadd insn ubsw) anyv.
Proof. intros. unfold lift_vpmadd. emit. Qed.
Lemma emits_lift_pinsrw n : emits insn n (lift_pinsrw insn) anyv.
Proof. intros. unfold lift_pinsrw. emit. Qed.
Lemma emits_lift_pinsr n (size : Z) : valid_elem size -> emits insn n (lift_pinsr insn size) anyv.
Proof. intros. unfold lift_pinsr. emit. Qed.
Lemma emits_lift_move_half n (dst_high : bool) (src_high : bool) : emits insn n (lift_move_half insn dst_high src_high) anyv.
Proof. intros. unfold lift_move_half. emit. Qed.
Lemma emits_lift_vmov_packed_half n (high : bool) : emits insn n (lift_vmov_packed_half insn high) anyv.
Proof. intros. unfold lift_vmov_packed_half. emit. Qed.
Lemma emits_lift_half_mem n (high : bool) : emits insn n (lift_half_mem insn high) anyv.
Proof. intros. unfold lift_half_mem. emit. Qed.
#[local] Hint Extern 1 (emits _ _ (lift_half_mem _ _) _) => apply emits_lift_half_mem; wf : lift.
Lemma emits_lift_vhalf_mem n (high : bool) : emits insn n (lift_vhalf_mem insn high) anyv.
Proof. intros. unfold lift_vhalf_mem. emit. Qed.
Lemma emits_lift_pextrw n : emits insn n (lift_pextrw insn) anyv.
Proof. intros. unfold lift_pextrw. emit. Qed.
Lemma emits_lift_pextr n (size : Z) : valid_elem size -> emits insn n (lift_pextr insn size) anyv.
Proof. intros. unfold lift_pextr. emit. Qed.
Lemma emits_read_scalar_float n (op_idx : Z) (prec : FPrec) : emits insn n (read_scalar_float insn op_idx prec) (fun v m => val_ok m v).
Proof. intros. unfold read_scalar_float. emit. Qed.
#[local] Hint Extern 1 (emits _ _ (read_scalar_float _ _ _) _) => apply emits_read_scalar_float; wf : lift.
Lemma emits_lift_scalar_fmove n (prec : FPrec) : emits insn n (lift_scalar_fmove insn prec) anyv.
Proof. intros. unfold lift_scalar_fmove. emit. Qed.
Lemma emits_lift_vscalar_fmove n (prec : FPrec) : emits insn n (lift_vscalar_fmove insn prec) anyv.
Proof. intros. unfold lift_vscalar_fmove. emit. Qed.
Lemma emits_lift_float_bin n (op : FloatBinOp) (prec : FPrec) (scalar : bool) : emits insn n (lift_float_bin insn op prec scalar) anyv.
Proof. intros. unfold lift_float_bin. emit. Qed.
Lemma emits_lift_vfloat_bin n (op : FloatBinOp) (prec : FPrec) (scalar : bool) : emits insn n (lift_vfloat_bin insn op prec scalar) anyv.
Proof. intros. unfold lift_vfloat_bin. emit. Qed.
Lemma emits_lift_hfloat n (op : HFloatOp) (prec : FPrec) : emits insn n (lift_hfloat insn op prec) anyv.
Proof. intros. unfold lift_hfloat. emit. Qed.
Lemma emits_lift_vhfloat n (op : HFloatOp) (prec : FPrec) : reg_vec insn 2 <> None \/ reg_ymm insn 0 = None /\ reg_zmm insn 0 = None ->
  emits insn n (lift_vhfloat insn op prec) anyv.
Proof.
  intros Hz. unfold lift_vhfloat.
  eapply (emits_bind _ _ _ _ (fun a _ => vec_operand insn 0 = Some a)); [apply emits_opt; by intros|]. intros [dst bytes] m Hm E.
  destruct Hz as [Hz|[Hy Hz]].
  - destruct (reg_vec insn 2) eqn:Er; [|done]. unfold vec_src_dispatch. rewrite Er. emit.
  - assert (bytes = 16). { revert E. unfold vec_operand. rewrite Hy, Hz. destruct (reg_xmm insn 0); naive_solver. }
   emit.
Qed.
Lemma emits_lift_hint n (op : HIntOp) : emits insn n (lift_hint insn op) anyv.
Proof. intros. unfold lift_hint. emit. Qed.
Lemma emits_lift_vhint n (op : HIntOp) : emits insn n (lift_vhint insn op) anyv.
Proof. intros. unfold lift_vhint. emit. Qed.
Lemma emits_lift_float_cmp n (prec : FPrec) : emits insn n (lift_float_cmp insn prec) anyv.
Proof. intros. unfold lift_float_cmp. emit. Qed.
Lemma emits_lift_float_cmp_mask n (prec : FPrec) (scalar : bool) : emits insn n (lift_float_cmp_mask insn prec scalar) anyv.
Proof. intros. unfold lift_float_cmp_mask. emit. Qed.
Lemma emits_lift_vfloat_cmp_mask n (prec : FPrec) (scalar : bool) : emits insn n (lift_vfloat_cmp_mask insn prec scalar) anyv.
Proof. intros. unfold lift_vfloat_cmp_mask. emit. Qed.
Lemma emits_lift_cvt_from_int n (prec : FPrec) : valid_elem (operand_size insn 1) -> emits insn n (lift_cvt_from_int insn prec) anyv.
Proof. intros. unfold lift_cvt_from_int. emit. Qed.
Lemma emits_lift_vcvt_from_int n (prec : FPrec) (signed : bool) : valid_elem (operand_size insn 2) -> emits insn n (lift_vcvt_from_int insn prec signed) anyv.
Proof. intros. unfold lift_vcvt_from_int. emit. Qed.
Lemma emits_lift_cvt_to_int_signed n (prec : FPrec) (trunc : bool) (signed : bool) : valid_elem (operand_size insn 0) -> emits insn n (lift_cvt_to_int_signed insn prec trunc signed) anyv.
Proof. intros. unfold lift_cvt_to_int_signed. emit. Qed.
#[local] Hint Extern 1 (emits _ _ (lift_cvt_to_int_signed _ _ _ _) _) => apply emits_lift_cvt_to_int_signed; wf : lift.
Lemma emits_lift_cvt_to_int n (prec : FPrec) (trunc : bool) : valid_elem (operand_size insn 0) -> emits insn n (lift_cvt_to_int insn prec trunc) anyv.
Proof. intros. unfold lift_cvt_to_int. emit. Qed.
Lemma emits_lift_float_unary n (op : FloatUnOp) (prec : FPrec) (scalar : bool) : un_ok op prec -> emits insn n (lift_float_unary insn op prec scalar) anyv.
Proof. intros. unfold lift_float_unary. emit. Qed.
Lemma emits_lift_fma n (order : Z) (prec : FPrec) (scalar : bool) (neg_prod : bool) (neg_add : bool) (alt_sign : Z) : in_width 8 alt_sign -> emits insn n (lift_fma insn order prec scalar neg_prod neg_add alt_sign) anyv.
Proof. intros. unfold lift_fma. emit. Qed.
Lemma emits_lift_vfloat_unary_scalar n (op : FloatUnOp) (prec : FPrec) : un_ok op prec -> emits insn n (lift_vfloat_unary_scalar insn op prec) anyv.
Proof. intros. unfold lift_vfloat_unary_scalar. emit. Qed.
Lemma emits_lift_vfloat_unary_packed n (op : FloatUnOp) (prec : FPrec) : un_ok op prec -> emits insn n (lift_vfloat_unary_packed insn op prec) anyv.
Proof. intros. unfold lift_vfloat_unary_packed. emit. Qed.
Lemma emits_lift_cvt_float n (from : FPrec) (to : FPrec) : emits insn n (lift_cvt_float insn from to) anyv.
Proof. intros. unfold lift_cvt_float. emit. Qed.
Lemma emits_lift_vcvt_scalar n (from : FPrec) (to : FPrec) : emits insn n (lift_vcvt_scalar insn from to) anyv.
Proof. intros. unfold lift_vcvt_scalar. emit. Qed.
Lemma emits_lift_packed_cvt256 n (kind : PackedCvtKind) : changes_width kind -> emits insn n (lift_packed_cvt256 insn kind) anyv.
Proof. intros. unfold lift_packed_cvt256. emit. Qed.
#[local] Hint Extern 1 (emits _ _ (lift_packed_cvt256 _ _) _) => apply emits_lift_packed_cvt256; wf : lift.
Lemma emits_lift_packed_cvt n (kind : PackedCvtKind) (vex : bool) : emits insn n (lift_packed_cvt insn kind vex) anyv.
Proof. unfold lift_packed_cvt. cbv zeta. destruct kind; rewrite ?andb_false_l; emit. Qed.
Lemma emits_lift_vcvtph2ps n : emits insn n (lift_vcvtph2ps insn) anyv.
Proof. intros. unfold lift_vcvtph2ps. emit. Qed.
Lemma emits_lift_vcvtps2ph n : emits insn n (lift_vcvtps2ph insn) anyv.
Proof. intros. unfold lift_vcvtps2ph. emit. Qed.
Lemma emits_lift_phminposuw n (vex : bool) : emits insn n (lift_phminposuw insn vex) anyv.
Proof. intros. unfold lift_phminposuw. emit. Qed.
Lemma emits_lift_mpsadbw n (vex : bool) : emits insn n (lift_mpsadbw insn vex) anyv.
Proof. intros. unfold lift_mpsadbw. emit. Qed.
End LowerVec.

#[export] Hint Extern 1 (emits _ _ (vec_src_dispatch _ _ _ _ _) _) => apply emits_vec_src; intros; emit : lift.
#[export] Hint Extern 1 (emits _ _ (lift_vmov _ _) _) => apply emits_lift_vmov; [wf|first [assumption|lia|intros _; assumption]] : lift.
#[export] Hint Extern 1 (emits _ _ (lift_vmov_vex _ _) _) => apply emits_lift_vmov_vex; [wf|first [assumption|lia|intros _; assumption]] : lift.
#[export] Hint Extern 1 (emits _ _ (lift_broadcast _ _) _) => apply emits_lift_broadcast; wf : lift.
#[export] Hint Extern 1 (emits _ _ (lift_broadcast_lane _ _ _) _) => apply emits_lift_broadcast_lane; wf : lift.
#[export] Hint Extern 1 (emits _ _ (lift_vpacked_shift_avx _ _ _ _) _) => apply emits_lift_vpacked_shift_avx; wf : lift.
#[export] Hint Extern 1 (emits _ _ (lift_vshift_var _ _ _ _) _) => apply emits_lift_vshift_var; wf : lift.
#[export] Hint Extern 1 (emits _ _ (lift_vgfni_wide _ _ _ _) _) => apply emits_lift_vgfni_wide; wf : lift.
#[export] Hint Extern 1 (emits _ _ (lift_vlogic_vex _ _) _) => apply emits_lift_vlogic_vex; wf : lift.
#[export] Hint Extern 1 (emits _ _ (lift_vlogic_avx _ _) _) => apply emits_lift_vlogic_avx; wf : lift.
#[export] Hint Extern 1 (emits _ _ (lift_vpacked_bin_vex _ _ _) _) => apply emits_lift_vpacked_bin_vex; wf : lift.
#[export] Hint Extern 1 (emits _ _ (lift_vpacked_bin_avx _ _ _) _) => apply emits_lift_vpacked_bin_avx; wf : lift.
#[export] Hint Extern 1 (emits _ _ (lift_vmov_avx _ _) _) => apply emits_lift_vmov_avx; wf : lift.
#[export] Hint Extern 1 (emits _ _ (lift_vlogic _ _) _) => apply emits_lift_vlogic; wf : lift.
#[export] Hint Extern 1 (emits _ _ (lift_vpacked_bin _ _ _) _) => apply emits_lift_vpacked_bin; wf : lift.
#[export] Hint Extern 1 (emits _ _ (lift_evex_packed_bin_128 _ _ _) _) => apply emits_lift_evex_packed_bin_128; wf : lift.
#[export] Hint Extern 1 (emits _ _ (lift_vextract_wide _ _) _) => apply emits_lift_vextract_wide; wf : lift.
#[export] Hint Extern 1 (emits _ _ (lift_vinsert_wide _ _) _) => apply emits_lift_vinsert_wide; wf : lift.
#[export] Hint Extern 1 (emits _ _ (lift_valign _ _) _) => apply emits_lift_valign; wf : lift.
#[export] Hint Extern 1 (emits _ _ (lift_blendv _ _) _) => apply emits_lift_blendv; wf : lift.
#[export] Hint Extern 1 (emits _ _ (lift_vmaskmov _ _) _) => apply emits_lift_vmaskmov; wf : lift.
#[export] Hint Extern 1 (emits _ _ (lift_vblendv _ _) _) => apply emits_lift_vblendv; wf : lift.
#[export] Hint Extern 1 (emits _ _ (lift_blendi _ _) _) => apply emits_lift_blendi; wf : lift.
#[export] Hint Extern 1 (emits _ _ (lift_vblendi _ _) _) => apply emits_lift_vblendi; wf : lift.
#[export] Hint Extern 1 (emits _ _ (lift_round _ _ _) _) => apply emits_lift_round; wf : lift.
#[export] Hint Extern 1 (emits _ _ (lift_vround _ _) _) => apply emits_lift_vround; wf : lift.
#[export] Hint Extern 1 (emits _ _ (lift_vround_scalar _ _) _) => apply emits_lift_vround_scalar; wf : lift.
#[export] Hint Extern 1 (emits _ _ (lift_pcmpstr_idx _ _) _) => apply emits_lift_pcmpstr_idx; wf : lift.
#[export] Hint Extern 1 (emits _ _ (lift_pcmpstr_mask _ _) _) => apply emits_lift_pcmpstr_mask; wf : lift.
#[export] Hint Extern 1 (emits _ _ (lift_insertps _) _) => apply emits_lift_insertps; wf : lift.
#[export] Hint Extern 1 (emits _ _ (lift_vinsertps _) _) => apply emits_lift_vinsertps; wf : lift.
#[export] Hint Extern 1 (emits _ _ (lift_dpps _) _) => apply emits_lift_dpps; wf : lift.
#[export] Hint Extern 1 (emits _ _ (lift_dppd _) _) => apply emits_lift_dppd; wf : lift.
#[export] Hint Extern 1 (emits _ _ (lift_vdp _ _) _) => apply emits_lift_vdp; wf : lift.
#[export] Hint Extern 1 (emits _ _ (lift_vdpps _) _) => apply emits_lift_vdpps; wf : lift.
#[export] Hint Extern 1 (emits _ _ (lift_vrndscale _ _) _) => apply emits_lift_vrndscale; wf : lift.
#[export] Hint Extern 1 (emits _ _ (lift_pmovx _ _ _ _) _) => apply emits_lift_pmovx; wf : lift.
#[export] Hint Extern 1 (emits _ _ (lift_vpmovx _ _ _ _) _) => apply emits_lift_vpmovx; wf : lift.
#[export] Hint Extern 1 (emits _ _ (lift_vpabs _ _) _) => apply emits_lift_vpabs; wf : lift.
#[export] Hint Extern 1 (emits _ _ (lift_vp_unary_lane _ _ _) _) => apply emits_lift_vp_unary_lane; wf : lift.
#[export] Hint Extern 1 (emits _ _ (lift_vp_blendm _ _) _) => apply emits_lift_vp_blendm; wf : lift.
#[export] Hint Extern 1 (emits _ _ (lift_vshuf_lane _ _) _) => apply emits_lift_vshuf_lane; wf : lift.
#[export] Hint Extern 1 (emits _ _ (lift_vp_multishift _) _) => apply emits_lift_vp_multishift; wf : lift.
#[export] Hint Extern 1 (emits _ _ (lift_vpopcnt _ _) _) => apply emits_lift_vpopcnt; wf : lift.
#[export] Hint Extern 1 (emits _ _ (lift_vperm2 _ _ _) _) => apply emits_lift_vperm2; wf : lift.
#[export] Hint Extern 1 (emits _ _ (lift_vpermt2 _ _) _) => apply emits_lift_vpermt2; wf : lift.
#[export] Hint Extern 1 (emits _ _ (lift_vpermi2 _ _) _) => apply emits_lift_vpermi2; wf : lift.
#[export] Hint Extern 1 (emits _ _ (lift_vpmov_narrow _ _ _) _) => apply emits_lift_vpmov_narrow; wf : lift.
#[export] Hint Extern 1 (emits _ _ (lift_kunpck _ _) _) => apply emits_lift_kunpck; wf : lift.
#[export] Hint Extern 1 (emits _ _ (lift_kbinop _ _ _) _) => apply emits_lift_kbinop; wf : lift.
#[export] Hint Extern 1 (emits _ _ (lift_knot _ _) _) => apply emits_lift_knot; wf : lift.
#[export] Hint Extern 1 (emits _ _ (lift_kshift _ _ _) _) => apply emits_lift_kshift; wf : lift.
#[export] Hint Extern 1 (emits _ _ (lift_evex_vlogic _ _ _) _) => apply emits_lift_evex_vlogic; wf : lift.
#[export] Hint Extern 1 (emits _ _ (lift_vpternlog _) _) => apply emits_lift_vpternlog; wf : lift.
#[export] Hint Extern 1 (emits _ _ (lift_kmov _ _) _) => apply emits_lift_kmov; wf : lift.
#[export] Hint Extern 1 (emits _ _ (lift_kortest _ _) _) => apply emits_lift_kortest; wf : lift.
#[export] Hint Extern 1 (emits _ _ (lift_vptest _ _ _) _) => apply emits_lift_vptest; wf : lift.
#[export] Hint Extern 1 (emits _ _ (lift_vpcmp _ _ _) _) => apply emits_lift_vpcmp; wf : lift.
#[export] Hint Extern 1 (emits _ _ (lift_vpcmp_fixed_or_packed _ _ _ _ _) _) => apply emits_lift_vpcmp_fixed_or_packed; wf : lift.
#[export] Hint Extern 1 (emits _ _ (lift_vpacked_shift _ _ _ _) _) => apply emits_lift_vpacked_shift; wf : lift.
#[export] Hint Extern 1 (emits _ _ (lift_byteshift _ _) _) => apply emits_lift_byteshift; wf : lift.
#[export] Hint Extern 1 (emits _ _ (lift_byteshift_avx _ _) _) => apply emits_lift_byteshift_avx; wf : lift.
#[export] Hint Extern 1 (emits _ _ (lift_pshufd _) _) => apply emits_lift_pshufd; wf : lift.
#[export] Hint Extern 1 (emits _ _ (lift_vperm1 _ _) _) => apply emits_lift_vperm1; wf : lift.
#[export] Hint Extern 1 (emits _ _ (lift_vpblendw _) _) => apply emits_lift_vpblendw; wf : lift.
#[export] Hint Extern 1 (emits _ _ (lift_vpack _ _ _) _) => apply emits_lift_vpack; wf : lift.
#[export] Hint Extern 1 (emits _ _ (lift_vpblendd _) _) => apply emits_lift_vpblendd; wf : lift.
#[export] Hint Extern 1 (emits _ _ (lift_vpshufd _) _) => apply emits_lift_vpshufd; wf : lift.
#[export] Hint Extern 1 (emits _ _ (lift_movdup _ _ _ _) _) => apply emits_lift_movdup; wf : lift.
#[export] Hint Extern 1 (emits _ _ (lift_vmovdup _ _ _) _) => apply emits_lift_vmovdup; wf : lift.
#[export] Hint Extern 1 (emits _ _ (lift_shufps _) _) => apply emits_lift_shufps; wf : lift.
#[export] Hint Extern 1 (emits _ _ (lift_vshufps _) _) => apply emits_lift_vshufps; wf : lift.
#[export] Hint Extern 1 (emits _ _ (lift_vpermil_imm _ _) _) => apply emits_lift_vpermil_imm; wf : lift.
#[export] Hint Extern 1 (emits _ _ (lift_vpermil_var _ _) _) => apply emits_lift_vpermil_var; wf : lift.
#[export] Hint Extern 1 (emits _ _ (lift_pshufw _ _ _) _) => apply emits_lift_pshufw; wf : lift.
#[export] Hint Extern 1 (emits _ _ (lift_vunpack _ _ _) _) => apply emits_lift_vunpack; wf : lift.
#[export] Hint Extern 1 (emits _ _ (lift_vunpack_avx _ _ _) _) => apply emits_lift_vunpack_avx; wf : lift.
#[export] Hint Extern 1 (emits _ _ (lift_aes _ _) _) => apply emits_lift_aes; wf : lift.
#[export] Hint Extern 1 (emits _ _ (lift_vaes _ _) _) => apply emits_lift_vaes; wf : lift.
#[export] Hint Extern 1 (emits _ _ (lift_aes_imc _ _) _) => apply emits_lift_aes_imc; wf : lift.
#[export] Hint Extern 1 (emits _ _ (lift_aes_keygen _ _) _) => apply emits_lift_aes_keygen; wf : lift.
#[export] Hint Extern 1 (emits _ _ (lift_pclmul _) _) => apply emits_lift_pclmul; wf : lift.
#[export] Hint Extern 1 (emits _ _ (lift_vpclmul _) _) => apply emits_lift_vpclmul; wf : lift.
#[export] Hint Extern 1 (emits _ _ (lift_sha _ _) _) => apply emits_lift_sha; wf : lift.
#[export] Hint Extern 1 (emits _ _ (lift_gfni _ _) _) => apply emits_lift_gfni; wf : lift.
#[export] Hint Extern 1 (emits _ _ (lift_vgfni _ _) _) => apply emits_lift_vgfni; wf : lift.
#[export] Hint Extern 1 (emits _ _ (lift_psign _ _) _) => apply emits_lift_psign; wf : lift.
#[export] Hint Extern 1 (emits _ _ (lift_vpsign _ _) _) => apply emits_lift_vpsign; wf : lift.
#[export] Hint Extern 1 (emits _ _ (lift_packuswb _) _) => apply emits_lift_packuswb; wf : lift.
#[export] Hint Extern 1 (emits _ _ (lift_pack_signed _ _) _) => apply emits_lift_pack_signed; wf : lift.
#[export] Hint Extern 1 (emits _ _ (lift_pmaddwd _) _) => apply emits_lift_pmaddwd; wf : lift.
#[export] Hint Extern 1 (emits _ _ (lift_pmaddubsw _) _) => apply emits_lift_pmaddubsw; wf : lift.
#[export] Hint Extern 1 (emits _ _ (lift_vpmadd _ _) _) => apply emits_lift_vpmadd; wf : lift.
#[export] Hint Extern 1 (emits _ _ (lift_pinsrw _) _) => apply emits_lift_pinsrw; wf : lift.
#[export] Hint Extern 1 (emits _ _ (lift_pinsr _ _) _) => apply emits_lift_pinsr; wf : lift.
#[export] Hint Extern 1 (emits _ _ (lift_move_half _ _ _) _) => apply emits_lift_move_half; wf : lift.
#[export] Hint Extern 1 (emits _ _ (lift_vmov_packed_half _ _) _) => apply emits_lift_vmov_packed_half; wf : lift.
#[export] Hint Extern 1 (emits _ _ (lift_half_mem _ _) _) => apply emits_lift_half_mem; wf : lift.
#[export] Hint Extern 1 (emits _ _ (lift_vhalf_mem _ _) _) => apply emits_lift_vhalf_mem; wf : lift.
#[export] Hint Extern 1 (emits _ _ (lift_pextrw _) _) => apply emits_lift_pextrw; wf : lift.
#[export] Hint Extern 1 (emits _ _ (lift_pextr _ _) _) => apply emits_lift_pextr; wf : lift.
#[export] Hint Extern 1 (emits _ _ (read_scalar_float _ _ _) _) => apply emits_read_scalar_float; wf : lift.
#[export] Hint Extern 1 (emits _ _ (lift_scalar_fmove _ _) _) => apply emits_lift_scalar_fmove; wf : lift.
#[export] Hint Extern 1 (emits _ _ (lift_vscalar_fmove _ _) _) => apply emits_lift_vscalar_fmove; wf : lift.
#[export] Hint Extern 1 (emits _ _ (lift_float_bin _ _ _ _) _) => apply emits_lift_float_bin; wf : lift.
#[export] Hint Extern 1 (emits _ _ (lift_vfloat_bin _ _ _ _) _) => apply emits_lift_vfloat_bin; wf : lift.
#[export] Hint Extern 1 (emits _ _ (lift_hfloat _ _ _) _) => apply emits_lift_hfloat; wf : lift.
#[export] Hint Extern 1 (emits _ _ (lift_vhfloat _ _ _) _) => apply emits_lift_vhfloat; wf : lift.
#[export] Hint Extern 1 (emits _ _ (lift_hint _ _) _) => apply emits_lift_hint; wf : lift.
#[export] Hint Extern 1 (emits _ _ (lift_vhint _ _) _) => apply emits_lift_vhint; wf : lift.
#[export] Hint Extern 1 (emits _ _ (lift_float_cmp _ _) _) => apply emits_lift_float_cmp; wf : lift.
#[export] Hint Extern 1 (emits _ _ (lift_float_cmp_mask _ _ _) _) => apply emits_lift_float_cmp_mask; wf : lift.
#[export] Hint Extern 1 (emits _ _ (lift_vfloat_cmp_mask _ _ _) _) => apply emits_lift_vfloat_cmp_mask; wf : lift.
#[export] Hint Extern 1 (emits _ _ (lift_cvt_from_int _ _) _) => apply emits_lift_cvt_from_int; wf : lift.
#[export] Hint Extern 1 (emits _ _ (lift_vcvt_from_int _ _ _) _) => apply emits_lift_vcvt_from_int; wf : lift.
#[export] Hint Extern 1 (emits _ _ (lift_cvt_to_int_signed _ _ _ _) _) => apply emits_lift_cvt_to_int_signed; wf : lift.
#[export] Hint Extern 1 (emits _ _ (lift_cvt_to_int _ _ _) _) => apply emits_lift_cvt_to_int; wf : lift.
#[export] Hint Extern 1 (emits _ _ (lift_float_unary _ _ _ _) _) => apply emits_lift_float_unary; wf : lift.
#[export] Hint Extern 1 (emits _ _ (lift_fma _ _ _ _ _ _ _) _) => apply emits_lift_fma; wf : lift.
#[export] Hint Extern 1 (emits _ _ (lift_vfloat_unary_scalar _ _ _) _) => apply emits_lift_vfloat_unary_scalar; wf : lift.
#[export] Hint Extern 1 (emits _ _ (lift_vfloat_unary_packed _ _ _) _) => apply emits_lift_vfloat_unary_packed; wf : lift.
#[export] Hint Extern 1 (emits _ _ (lift_cvt_float _ _ _) _) => apply emits_lift_cvt_float; wf : lift.
#[export] Hint Extern 1 (emits _ _ (lift_vcvt_scalar _ _ _) _) => apply emits_lift_vcvt_scalar; wf : lift.
#[export] Hint Extern 1 (emits _ _ (lift_packed_cvt256 _ _) _) => apply emits_lift_packed_cvt256; wf : lift.
#[export] Hint Extern 1 (emits _ _ (lift_packed_cvt _ _ _) _) => apply emits_lift_packed_cvt; wf : lift.
#[export] Hint Extern 1 (emits _ _ (lift_vcvtph2ps _) _) => apply emits_lift_vcvtph2ps; wf : lift.
#[export] Hint Extern 1 (emits _ _ (lift_vcvtps2ph _) _) => apply emits_lift_vcvtps2ph; wf : lift.
#[export] Hint Extern 1 (emits _ _ (lift_phminposuw _ _) _) => apply emits_lift_phminposuw; wf : lift.
#[export] Hint Extern 1 (emits _ _ (lift_mpsadbw _ _) _) => apply emits_lift_mpsadbw; wf : lift.
