(* ===== verification/LowerSpec.v ===== *)
(** * The lowering of one instruction keeps its promise to the block lifter *)

From S2P Require Import Prelude Features State Ir Alu Memory PageTrack Interp IntegerSpec StringOps Control X87 X87Arm VecOps VecAtomic VecOp VecTotal Block Frame Walk Lift LiftSpec Insn LiftInt LiftCtl LiftVec LiftInsn InsnSpec LowerInt LowerVec.

Section LowerSpec.
Context `{IcedLaws}.
Implicit Types (insn : Instruction).

(** Two operand forms are lowered to ops the interpreter panics on: [valign] with a shift
    past its buffer, and a 32-byte horizontal float op with its second source in memory.  On a
    third, [pop] to memory addressed by the stack pointer, the lowering itself asserts. *)
Definition covered insn : Prop :=
  match mnemonic insn with
  | Mnemonic.Valignd => forall r b, vec_operand insn 0 = Some (r, b) -> valign_fits (wrap 8 (immediate insn 3)) 4 b
  | Mnemonic.Valignq => forall r b, vec_operand insn 0 = Some (r, b) -> valign_fits (wrap 8 (immediate insn 3)) 8 b
  | Mnemonic.Vhaddps | Mnemonic.Vhaddpd | Mnemonic.Vhsubps | Mnemonic.Vhsubpd | Mnemonic.Vaddsubps | Mnemonic.Vaddsubpd =>
      reg_vec insn 2 <> None \/ reg_ymm insn 0 = None /\ reg_zmm insn 0 = None
  | Mnemonic.Pop => pop_ok insn
  | _ => True
  end.

Definition arm_ok insn (o : option (L bool)) : Prop := match o with Some x => forall n, emits insn n x anyv | None => True end.

Lemma emits_more insn n (x : L unit) : emits insn n x anyv -> emits insn n (more x) anyv.
Proof. intros Hx. unfold more. eapply emits_bind; [exact Hx|]. intros. by apply emits_ret. Qed.
Lemma emits_ends insn n (x : L unit) : emits insn n x anyv -> emits insn n (ends x) anyv.
Proof. intros Hx. unfold ends. eapply emits_bind; [exact Hx|]. intros. by apply emits_ret. Qed.

Lemma trap_advance insn : 0 <= wrap 8 (insn_len insn) /\ wrap 8 (insn_len insn) <= 15.
Proof. pose proof (iced_len insn). unfold wrap. rewrite Z.mod_small by lia. lia. Qed.

(** What the decoder guarantees of the mnemonic at hand. *)
Ltac use_law family insn Em k :=
  lazymatch type of Em with
  | _ = ?m =>
      let b := eval cbv in (family m) in
      lazymatch b with
      | true => let F := fresh "Hfam" in assert (F : family (mnemonic insn) = true) by (by rewrite Em); k F
      | false => idtac
      end
  end.
Ltac use_laws insn Em :=
  use_law sized0 insn Em ltac:(fun F => pose proof (iced_sized0 insn F));
  use_law sized1 insn Em ltac:(fun F => pose proof (iced_sized1 insn F));
  use_law sized2 insn Em ltac:(fun F => pose proof (iced_sized2 insn F));
  use_law bit_test insn Em ltac:(fun F => pose proof (iced_bit_reg insn F));
  use_law far_load insn Em ltac:(fun F => pose proof (iced_far_load insn F));
  use_law stack_move insn Em ltac:(fun F => pose proof (iced_stack insn F));
  use_law sse_move insn Em ltac:(fun F => pose proof (fun i => iced_sse_move insn i F));
  use_law avx_move insn Em ltac:(fun F => pose proof (fun i => iced_avx_move insn i F));
  use_law no_zmm insn Em ltac:(fun F => pose proof (iced_no_zmm insn F));
  use_law vex_broadcast insn Em ltac:(fun F => pose proof (writemask_none _ (iced_vex_broadcast insn F)));
  use_law two_insert insn Em ltac:(fun F => pose proof (iced_two_insert insn F));
  use_law two_extract insn Em ltac:(fun F => pose proof (iced_two_extract insn F)).
Ltac arm insn Em :=
  pose proof (iced_imm8 insn); destruct (trap_advance insn);   repeat match goal with |- arm_ok _ (if ?b then _ else _) => destruct b eqn:? end; try exact I;
  intros ?; use_laws insn Em;
  repeat match goal with
  | |- emits _ _ (more _) _ => apply emits_more
  | |- emits _ _ (ends _) _ => apply emits_ends
  end; emit.
Ltac arms insn :=
  destruct (mnemonic insn) eqn:?; try exact I;
  match goal with Em : mnemonic insn = _ |- _ => arm insn Em end.

Section Arms.
Variables (insn : Instruction) (mode : CpuMode).

Lemma int_arms_ok : arm_ok insn (lift_int_arms insn mode).
Proof. unfold lift_int_arms. arms insn. Qed.
Lemma sys_arms_ok : arm_ok insn (lift_sys_arms insn mode).
Proof. unfold lift_sys_arms. arms insn. Qed.
Lemma sse_arms_ok : arm_ok insn (lift_sse_arms insn mode).
Proof. unfold lift_sse_arms. arms insn. Qed.
Lemma crypto_arms_ok : arm_ok insn (lift_crypto_arms insn mode).
Proof. unfold lift_crypto_arms. arms insn. Qed.
Lemma avx_arms_ok : arm_ok insn (lift_avx_arms insn mode).
Proof. unfold lift_avx_arms. arms insn. Qed.
Lemma packed_arms_ok : arm_ok insn (lift_packed_arms insn mode).
Proof. unfold lift_packed_arms. arms insn. Qed.
Lemma packed_avx_arms_ok : arm_ok insn (lift_packed_avx_arms insn mode).
Proof. unfold lift_packed_avx_arms. arms insn. Qed.
Lemma wide_arms_ok : covered insn -> arm_ok insn (lift_wide_arms insn mode).
Proof. unfold lift_wide_arms, covered. intros Hcov. arms insn. Qed.
Lemma perm_arms_ok : arm_ok insn (lift_perm_arms insn mode).
Proof. unfold lift_perm_arms. arms insn. Qed.
Lemma float_arms_ok : covered insn -> arm_ok insn (lift_float_arms insn mode).
Proof. unfold lift_float_arms, covered. intros Hcov. arms insn. Qed.
Lemma hfloat_arms_ok : arm_ok insn (lift_hfloat_arms insn mode).
Proof. unfold lift_hfloat_arms. arms insn. Qed.
Lemma fma_arms_ok : arm_ok insn (lift_fma_arms insn mode).
Proof. unfold lift_fma_arms. arms insn. Qed.
Lemma flow_arms_ok : covered insn -> arm_ok insn (lift_flow_arms insn mode).
Proof. unfold lift_flow_arms, covered. intros Hcov. arms insn. Qed.
Lemma trap_arms_ok : arm_ok insn (lift_trap_arms insn mode).
Proof. unfold lift_trap_arms. arms insn. Qed.
Lemma real16_arms_ok : arm_ok insn (lift_real16_arms insn mode).
Proof. unfold lift_real16_arms. arms insn. Qed.
End Arms.

Lemma cond_ok insn mode n : emits insn n (lift_cond insn mode) anyv.
Proof.
  unfold lift_cond. destruct (jcc_cond _); [apply emits_ends; emit|]. destruct (setcc_cond _); [apply emits_more; emit|].
  destruct (cmovcc_cond _); [apply emits_more; emit|apply emits_fail].
Qed.

Lemma first_arm_ok insn mode n l : Forall (fun arm => arm_ok insn (arm insn mode)) l -> emits insn n (first_arm l insn mode) anyv.
Proof.
  induction 1 as [|arm l Harm Hl IH]; cbn [first_arm]; [apply cond_ok|]. unfold arm_ok in Harm.
  destruct (arm insn mode); [apply Harm|exact IH].
Qed.

Lemma lower_insn_emits insn mode n : covered insn -> emits insn n (lower_insn insn mode) anyv.
Proof.
  intros Hc. apply first_arm_ok. unfold insn_arms. repeat (apply list.Forall_cons; split); try by apply list.Forall_nil.
  - apply int_arms_ok.
  - apply sys_arms_ok.
  - apply sse_arms_ok.
  - apply crypto_arms_ok.
  - apply avx_arms_ok.
  - apply packed_arms_ok.
  - apply packed_avx_arms_ok.
  - by apply wide_arms_ok.
  - apply perm_arms_ok.
  - by apply float_arms_ok.
  - apply hfloat_arms_ok.
  - apply fma_arms_ok.
  - by apply flow_arms_ok.
  - apply trap_arms_ok.
  - apply real16_arms_ok.
Qed.

(** The ops of one instruction save no address past it. *)
Lemma emitted_ok n a l : a + 15 < 2 ^ 64 -> Forall (op_emit n) l -> ops_ok n a l.
Proof.
  intros Ha Hl. split; [eapply list.Forall_impl; [exact Hl|]; by intros op []|].
  induction Hl as [|op l [_ Hop] Hl IH]; [done|]. destruct op; cbn [traps_fit]; try done. split; [lia|done].
Qed.
End LowerSpec.

#[global] Instance covered_dec `{InsnView} insn : Decision (covered insn).
Proof.
  assert (Hv : forall s e b, Decision (valign_fits s e b)) by (intros; unfold valign_fits; apply _).
  unfold covered, pop_ok. destruct (mnemonic insn); try apply _.
  - destruct (vec_operand insn 0) as [[r b]|]; [|by left]. destruct (decide (valign_fits (wrap 8 (immediate insn 3)) 4 b)) as [Hf|Hf].
    + left. by intros ? ? [= <- <-].
    + right. intros Hx. by apply Hf, (Hx r).
  - destruct (vec_operand insn 0) as [[r b]|]; [|by left]. destruct (decide (valign_fits (wrap 8 (immediate insn 3)) 8 b)) as [Hf|Hf].
    + left. by intros ? ? [= <- <-].
    + right. intros Hx. by apply Hf, (Hx r).
Defined.

(** ** The promise *)

(** The lowering with the uncovered forms refused: where a run fetches none of them it is
    the lowering itself ([Cover.run_agree]). *)
Definition covered_lifter `{InsnView} : InsnLifter := {|
  lift_insn insn mode ops tg :=
    if decide (covered insn) then lower_insn insn mode ops tg else Some (Err (unsupported_insn insn))
|}.

(** What [LiftSpec] asks of a lowering, from the decoder's laws. *)
Lemma covered_laws `{IcedLaws} : LifterLaws (L := covered_lifter).
Proof.
  assert (Hrefuse : forall insn, unsupported_insn insn = Unsupported (insn_ip insn) (replicate 15 0) (insn_len insn)).
  { intros insn. unfold unsupported_insn, wrap. pose proof (iced_len insn). by rewrite Z.mod_small by lia. }
  assert (He : forall insn mode ops tg, covered insn -> match lower_insn insn mode ops tg with
    | Some (Ok (_, ops', tg')) => (tg <= tg')%nat /\ exists new, ops' = ops ++ new /\ Forall (op_emit tg') new
    | Some (Err e) => e = unsupported_insn insn
    | None => False
    end).
  { intros insn mode ops tg Hc. pose proof (lower_insn_emits insn mode tg Hc ops tg (Nat.le_refl _)) as He.
    destruct (lower_insn insn mode ops tg) as [[[[t ops'] tg']|e]|]; [|done..]. by destruct He as (? & ? & _). }
  split.
  - intros bits opt ip code insn err Hne Hd. destruct (iced_decode _ _ _ _ _ _ Hne Hd) as (Hip & Hlen).
    split; [done|]. split; [done|]. intros _. apply iced_len.
  - intros insn mode ops tg. cbn [lift_insn covered_lifter]. case_decide as Hc; [|done]. intros El. specialize (He insn mode ops tg Hc). by rewrite El in He.
  - intros insn mode ops tg t ops' tg' Hip Htop. cbn [lift_insn covered_lifter]. case_decide as Hc; [|done]. intros El.
    specialize (He insn mode ops tg Hc). rewrite El in He. destruct He as (Htg & new & -> & Hnew). split; [done|]. exists new. split; [done|]. by apply emitted_ok.
  - intros insn mode ops tg e. cbn [lift_insn covered_lifter]. case_decide as Hc; intros El.
    + specialize (He insn mode ops tg Hc). rewrite El in He. subst e. right. rewrite Hrefuse. by eexists.
    + injection El as <-. right. rewrite Hrefuse. by eexists.
Qed.
