(* ===== verification/Sample.v ===== *)
(** * A decoder of real encodings for the examples

    Thirteen 64-bit instructions, with the operands iced-x86 reports for them and its register
    numbering; every other byte is an invalid instruction.  It stands in for iced-x86 where
    an example needs a program that goes through the lowering. *)

From S2P Require Import Prelude Features State Ir Alu Memory PageTrack Interp IntegerSpec StringOps Control X87 X87Arm VecOps VecAtomic VecOp VecTotal Block Frame Walk Lift LiftSpec Insn LiftInt LiftCtl LiftVec LiftInsn InsnSpec LowerSpec.

Inductive SampleOp : Type :=
  | SNop                  (* 90 *)
  | SHlt                  (* f4 *)
  | SJmp (rel : Z)        (* eb rel8 *)
  | SAdd                  (* 48 01 d8: add rax, rbx *)
  | SLoad                 (* 48 8b 44 8b 08: mov rax, [rbx + rcx*4 + 8] *)
  | SCmove                (* 48 0f 44 c3: cmove rax, rbx *)
  | SPush                 (* 50: push rax *)
  | SPop                  (* 5b: pop rbx *)
  | SPopMem               (* 8f 44 24 08: pop [rsp + 8] *)
  | SPxor                 (* 66 0f ef c1: pxor xmm0, xmm1 *)
  | SCmpxchg              (* 0f b1 0b: cmpxchg [rbx], ecx *)
  | SAdcMem               (* 48 11 03: adc [rbx], rax *)
  | SVandps               (* 62 f1 74 09 54 c2: vandps xmm0{k1}, xmm1, xmm2 *)
  | SInvalid.
Record SampleInsn : Type := mkSample { s_ip : Z; s_op : SampleOp }.

Definition sample_len (o : SampleOp) : Z :=
  match o with
  | SNop | SHlt | SPush | SPop | SInvalid => 1
  | SJmp _ => 2
  | SAdd | SCmpxchg | SAdcMem => 3
  | SCmove | SPxor | SPopMem => 4
  | SLoad => 5
  | SVandps => 6
  end.

Definition sample_op (code : list Z) : SampleOp :=
  match code with
  | 0x90 :: _ => SNop
  | 0xF4 :: _ => SHlt
  | 0xEB :: rel :: _ => SJmp rel
  | 0x48 :: 0x01 :: 0xD8 :: _ => SAdd
  | 0x48 :: 0x8B :: 0x44 :: 0x8B :: 0x08 :: _ => SLoad
  | 0x48 :: 0x0F :: 0x44 :: 0xC3 :: _ => SCmove
  | 0x50 :: _ => SPush
  | 0x5B :: _ => SPop
  | 0x8F :: 0x44 :: 0x24 :: 0x08 :: _ => SPopMem
  | 0x66 :: 0x0F :: 0xEF :: 0xC1 :: _ => SPxor
  | 0x0F :: 0xB1 :: 0x0B :: _ => SCmpxchg
  | 0x48 :: 0x11 :: 0x03 :: _ => SAdcMem
  | 0x62 :: 0xF1 :: 0x74 :: 0x09 :: 0x54 :: 0xC2 :: _ => SVandps
  | _ => SInvalid
  end.
Definition sample_decode (_ _ ip : Z) (code : list Z) : SampleInsn * DecoderError :=
  let o := sample_op code in (mkSample ip o, match o with SInvalid => InvalidInstruction | _ => DecNone end).

#[export] Instance sample_iced : Iced := {
  Instruction := SampleInsn;
  insn_ip := s_ip;
  insn_len i := sample_len (s_op i);
  is_invalid i := match s_op i with SInvalid => true | _ => false end;
  opt_none := 0;
  opt_no_invalid_check := 1;
  decode := sample_decode;
}.

(** The register numbers: rax 53, rcx 54, rbx 56, ecx 38, rsp 57, xmm0 77, xmm1 78, xmm2 79, ss 73, ds 74, k1 174. *)
Definition sample_reg (o : SampleOp) (i : Z) : Z :=
  match o, i with
  | SAdd, 0 | SLoad, 0 | SCmove, 0 | SPush, 0 => 53
  | SAdd, 1 | SCmove, 1 | SPop, 0 => 56
  | SPxor, 0 => 77
  | SPxor, 1 => 78
  | SCmpxchg, 1 => 38
  | SAdcMem, 1 => 53
  | SVandps, 0 => 77
  | SVandps, 1 => 78
  | SVandps, 2 => 79
  | _, _ => 0
  end.
Definition sample_kind (o : SampleOp) (i : Z) : OpKind.t :=
  match o, i with
  | SLoad, 1 | SCmpxchg, 0 | SAdcMem, 0 | SPopMem, 0 => OpKind.Memory
  | SJmp _, 0 => OpKind.NearBranch64
  | _, _ => OpKind.Register
  end.
(** Bytes 1 to 20, words 21 to 36, doublewords 37 to 52, quadwords 53 to 68. *)
Definition gpr_class (r : Z) : bool := (1 <=? r) && (r <=? 68).
Definition gpr_size (r : Z) : Z := if r <=? 20 then 1 else if r <=? 36 then 2 else if r <=? 52 then 4 else 8.
Definition gpr_full (r : Z) : Z :=
  if r <=? 4 then r + 52 else if r <=? 20 then r + 48 else if r <=? 36 then r + 32 else if r <=? 52 then r + 16 else r.

#[export] Instance sample_view : InsnView := {
  mnemonic i :=
    match s_op i with
    | SNop => Mnemonic.Nop | SHlt => Mnemonic.Hlt | SJmp _ => Mnemonic.Jmp | SAdd => Mnemonic.Add | SLoad => Mnemonic.Mov
    | SCmove => Mnemonic.Cmove | SPush => Mnemonic.Push | SPop | SPopMem => Mnemonic.Pop | SPxor => Mnemonic.Pxor
    | SCmpxchg => Mnemonic.Cmpxchg | SAdcMem => Mnemonic.Adc | SVandps => Mnemonic.Vandps | SInvalid => Mnemonic.OtherMnemonic
    end;
  code _ := Code.OtherCode;
  code_size _ := Code64;
  op_count i := match s_op i with SNop | SHlt | SInvalid => 0 | SJmp _ | SPush | SPop | SPopMem => 1 | SVandps => 3 | _ => 2 end;
  op_kind i := sample_kind (s_op i);
  op_register i := sample_reg (s_op i);
  immediate _ _ := 0;
  immediate8 _ := 0;
  immediate8_2nd _ := 0;
  immediate16 _ := 0;
  memory_base i := match s_op i with SLoad | SCmpxchg | SAdcMem => 56 | SPopMem => 57 | _ => 0 end;
  memory_index i := match s_op i with SLoad => 54 | _ => 0 end;
  memory_index_scale i := match s_op i with SLoad => 4 | _ => 1 end;
  memory_displacement64 i := match s_op i with SLoad | SPopMem => 8 | _ => 0 end;
  memory_segment i := match s_op i with SLoad | SCmpxchg | SAdcMem => 74 | SPopMem => 73 | _ => 0 end;
  segment_prefix _ := 0;
  memory_size i := match s_op i with SLoad | SAdcMem | SPopMem => 8 | SCmpxchg => 4 | _ => 0 end;
  has_lock_prefix _ := false;
  has_rep_prefix _ := false;
  has_repe_prefix _ := false;
  has_repne_prefix _ := false;
  near_branch_target i := match s_op i with SJmp rel => wrap 64 (s_ip i + 2 + sign_extend (wrap 8 rel) 1) | _ => 0 end;
  next_ip i := wrap 64 (s_ip i + sample_len (s_op i));
  far_branch_selector _ := 0;
  far_branch16 _ := 0;
  op_mask i := match s_op i with SVandps => 174 | _ => 0 end;
  zeroing_masking _ := false;
  register_size := gpr_size;
  is_gpr := gpr_class;
  full_register := gpr_full;
  is_xmm r := (77 <=? r) && (r <=? 108);
  is_ymm r := (109 <=? r) && (r <=? 140);
  is_zmm r := (141 <=? r) && (r <=? 172);
  is_k r := (173 <=? r) && (r <=? 180);
  is_mm r := (225 <=? r) && (r <=? 232);
  NoRegister := 0;
  AH := 5; CH := 6; DH := 7; BH := 8;
  RAX := 53; RSP := 57; EIP := 69; RIP := 70;
  ES := 71; CS := 72; SS := 73; DS := 74; FS := 75; GS := 76;
  XMM0 := 77; YMM0 := 109; ZMM0 := 141; K0 := 173; ST0 := 217; ST7 := 224; MM0 := 225;
}.

(** ** The decoder's laws *)

Lemma sample_op_len code : code <> [] -> 1 <= sample_len (sample_op code) <= Z.of_nat (length code).
Proof. intros Hne. unfold sample_op. repeat case_match; cbn [sample_len length]; try done; lia. Qed.
Lemma class_index r lo hi n : (lo <=? r) && (r <=? hi) = true -> hi - lo < n -> index_in r lo n.
Proof. unfold index_in. lia. Qed.
Lemma gpr_laws r : gpr_class r = true -> index_in (gpr_full r) 53 16 /\ valid_elem (gpr_size r).
Proof.
  unfold gpr_class, gpr_full, gpr_size, index_in, valid_elem. intros.
  destruct (Z.leb_spec r 4), (Z.leb_spec r 20), (Z.leb_spec r 36), (Z.leb_spec r 52); lia.
Qed.

#[export] Instance sample_laws : IcedLaws.
Proof.
  split.
  - intros bits opt ip code insn err Hne Hd. replace insn with (decode bits opt ip code).1 by (by rewrite Hd).
    pose proof (sample_op_len code Hne) as Hlen. cbn [decode sample_iced insn_ip insn_len]. unfold sample_decode. cbv zeta. cbn [fst s_op s_ip].
    by split.
  - intros [ip []]; vm_compute; split; congruence.
  - intros i. by apply wrap_width.
  - intros [ip o]. cbn [near_branch_target sample_view s_op s_ip].
    destruct o; lazymatch goal with |- in_width _ (wrap _ _) => by apply wrap_width | _ => done end.
  - split; vm_compute; split; congruence.
  - vm_compute; split; congruence.
  - vm_compute; split; congruence.
  - vm_compute; split; congruence.
  - intros [ip []]; vm_compute; split; congruence.
  - intros [ip []]; vm_compute; tauto.
  - apply gpr_laws.
  - intros r Hr. by apply (class_index r 77 108).
  - intros r Hr. by apply (class_index r 109 140).
  - intros r Hr. by apply (class_index r 141 172).
  - intros r Hr. by apply (class_index r 173 180).
  - intros r Hr. by apply (class_index r 225 232).
  - intros [ip []]; try (by left). right. split; vm_compute; congruence.
  - intros [ip []]; try discriminate; intros _; vm_compute; tauto.
  - intros [ip []]; discriminate.
  - intros [ip []]; discriminate.
  - intros [ip []]; discriminate.
  - intros [ip []]; discriminate.
  - intros [ip []] _; discriminate.
  - intros [ip []]; try discriminate; intros _; vm_compute; tauto.
  - intros [ip []] i; discriminate.
  - intros [ip []] i; discriminate.
  - intros [ip []]; discriminate.
  - intros [ip []]; discriminate.
  - intros [ip []]; discriminate.
  - intros [ip []]; discriminate.
Qed.
