(* ===== verification/Whole.v ===== *)
(** * From guest bytes to an exit

    The run loop over the lowering itself: with a decoder that keeps [IcedLaws] in place of
    iced-x86, decoding, lowering, caching and interpreting compose without a panic, for every
    program that does not fetch one of the forms [covered] excludes. *)

From S2P Require Import Prelude Features State Ir Alu Memory PageTrack Interp IntegerSpec Control HostFloat F80 F80Trans X87 X87Arm VecSafe Block Walk Lift Cache LiftSpec Vm Toy Raise VmSpec RunSpec Cover Insn LiftInsn InsnSpec LowerSpec Sample.

(** A loop of real encodings: [mov rax, \[rbx + rcx*4 + 8\]; add rax, rbx; cmove rax, rbx;
    push rax; pop rbx; pxor xmm0, xmm1; jmp -20]. *)
Definition ex_loop : list Z :=
  [0x48; 0x8B; 0x44; 0x8B; 0x08; 0x48; 0x01; 0xD8; 0x48; 0x0F; 0x44; 0xC3; 0x50; 0x5B; 0x66; 0x0F; 0xEF; 0xC1; 0xEB; 0xEC].
Lemma ex_loop_bytes : Forall (in_width 8) ex_loop.
Proof. repeat constructor; unfold in_width; lia. Qed.

Definition is_covered `{InsnView} (insn : Instruction) : bool := bool_decide (covered insn).

(** C1: a guest program runs to an exit.  With the lowering of every
    instruction as the lifter has it, assertions and arithmetic checked, any decoder that
    keeps [IcedLaws], any backend that keeps [BackendLaws] and a memory whose watch bits cover
    it: if none of the instructions
    this run fetches (those of the blocks it looks up, and of the regions formed there) is
    one of the three forms [covered] excludes ([valign] by more than its buffer, a 32-byte
    horizontal float op with its second source in memory, [pop] to memory addressed by the
    stack pointer: the code panics or may panic on them), a run with a budget of [b] blocks returns
    within [b + 1] turns, no operation from the fetch to the interpreter panics, and the
    virtual CPU and the machine stay well formed. *)
Theorem guest_program_runs {B} `{BL : BackendLaws B} `{IcedLaws} `{Libm} (w : World B) (b : Z) (n : nat) :
  run_covered (H1 := insn_lifter) is_covered n (Some b) w = true ->
  world_ok w -> watch_bits_cover_size (mem (w_vm w)) = true -> 0 <= b < 2 ^ 64 -> b < Z.of_nat n ->
  exists e w', run (H1 := insn_lifter) n (Some b) w = Some (e, w') /\ world_ok w'.
Proof.
  intros Hcov Hw Hc Hb Hn. pose proof covered_laws as LL. rewrite <- (run_agree insn_lifter covered_lifter is_covered) by
    first [exact Hcov|intros insn mode ops tg Hi%bool_decide_eq_true; cbn [lift_insn covered_lifter]; by rewrite decide_True].
  by apply (run_ok (IL := covered_lifter) b Hb n Hn w).
Qed.

(** The decoder knows an excluded form ([pop \[rsp + 8\]]); the program has none. *)
Lemma guest_program_runs_witness : exists e w',
  run (H1 := insn_lifter) (H2 := no_libm) 8 (Some 7) (ex_world Long64 ex_loop 0 0x100) = Some (e, w') /\ world_ok w'.
Proof.
  apply (guest_program_runs (H2 := no_libm) (ex_world Long64 ex_loop 0 0x100) 7 8).
  - vm_compute. reflexivity.
  - apply ex_world_ok; [apply ex_loop_bytes|unfold in_width; lia..].
  - vm_compute. reflexivity.
  - lia.
  - lia.
Defined.

(** The third form: a program that pops to memory addressed by the stack pointer, a valid
    instruction, fails the lowering's assertion, and the run with it. *)
Theorem pop_rsp_asserts : run_covered (H1 := insn_lifter) (H2 := no_libm) is_covered 2 (Some 1) (ex_world Long64 [0x8F; 0x44; 0x24; 0x08; 0xF4] 0 0x100) = false /\
  run (H1 := insn_lifter) (H2 := no_libm) 2 (Some 1) (ex_world Long64 [0x8F; 0x44; 0x24; 0x08; 0xF4] 0 0x100) = None.
Proof. split; vm_compute; reflexivity. Qed.
