(* ===== verification/LowerSem.v ===== *)
(** * What the lowered ops compute

    The ops a lowering appends, run on the machine: a logic of triples over the lowering
    monad, and with it the value of an effective address and of an operand, and what the
    two-operand arithmetic, the conditional moves and [push] do to the machine. *)

From S2P Require Import Prelude Features State Ir Alu Memory PageTrack Interp IntegerSpec StringOps Control HostFloat F80 F80Trans X87 X87Arm VecOps VecOp Block Frame Walk Lift Elide Insn LiftInt LiftCtl LiftVec LiftInsn InsnSpec.

(** ** Running a list of ops *)

Section Triples.
Context `{LM : Libm} (ir : IrBlock) (cur : Z).

Fixpoint run_ops (l : list IrOp) (s : mach) : option (option StepResult * mach) :=
  match l with
  | [] => Some (None, s)
  | op :: l =>
      match exec_op ir cur op s with
      | Some (None, s') => run_ops l s'
      | Some (Some r, s') => Some (Some r, s')
      | None => None
      end
  end.

Lemma run_ops_app l l' s : run_ops (l ++ l') s =
  match run_ops l s with Some (None, s') => run_ops l' s' | r => r end.
Proof.
  revert s. induction l as [|op l IH]; intros s; [done|]. cbn [run_ops app].
  destruct (exec_op ir cur op s) as [[[r|] s']|]; [done|apply IH|done].
Qed.

(** The ops of one instruction within the walk of its block. *)
Definition plain_op (op : IrOp) : bool := match op with InsnStart _ | SetIf _ => false | _ => true end.
Lemma walk_ops_run l rest w s : forallb plain_op l = true -> w_cur w = cur ->
  walk_ops ir (l ++ rest) w s =
  match run_ops l s with
  | Some (None, s') => walk_ops ir rest w s'
  | Some (Some r, s') => Some (r, w, s')
  | None => None
  end.
Proof.
  intros Hl Hw. revert s Hl. induction l as [|op l IH]; intros s Hl; [done|]. cbn [forallb] in Hl. apply andb_prop in Hl as [Hop Hl].
  cbn [app walk_ops run_ops]. rewrite Hw. assert (Hn : walk_note op w = w) by (by destruct op).
  unfold mbind, option_bind. destruct (exec_op ir cur op s) as [[[r|] s']|]; rewrite ?Hn; [done|by apply IH|done].
Qed.

(** From a machine that satisfies [P] at the current counter and has room for the
    temporaries, the ops [x] appends either go on to a machine satisfying [Q] or leave the
    block with a result and a machine satisfying [E]. *)
Definition triple {A} (P : nat -> mach -> Prop) (x : L A) (Q : A -> nat -> mach -> Prop) (E : StepResult -> mach -> Prop) : Prop :=
  forall ops tg,
    match x ops tg with
    | None | Some (Err _) => True
    | Some (Ok (a, ops', tg')) =>
        (tg <= tg')%nat /\ exists new, ops' = ops ++ new /\
        forall s, P tg s -> (tg' <= length (m_temps s))%nat ->
          exists r s', run_ops new s = Some (r, s') /\ length (m_temps s') = length (m_temps s) /\
            match r with None => Q a tg' s' | Some r => E r s' end
    end.

Lemma triple_ret {A} (a : A) (P : nat -> mach -> Prop) (Q : A -> nat -> mach -> Prop) E :
  (forall tg s, P tg s -> Q a tg s) -> triple P (mret a) Q E.
Proof. intros HQ ops tg. split; [done|]. exists []. rewrite app_nil_r. split; [done|]. intros s Hs _. exists None, s. auto. Qed.

Lemma triple_bind {A B} (x : L A) (k : A -> L B) P R Q E :
  triple P x R E -> (forall a, triple (R a) (k a) Q E) -> triple P (x ≫= k) Q E.
Proof.
  intros Hx Hk ops tg. specialize (Hx ops tg). unfold mbind, L_bind. destruct (x ops tg) as [[[[a ops1] tg1]|e]|]; [|done..].
  destruct Hx as (H1 & new1 & -> & Hx). specialize (Hk a (ops ++ new1) tg1).
  destruct (k a (ops ++ new1) tg1) as [[[[b ops2] tg2]|e]|]; [|done..]. destruct Hk as (H2 & new2 & -> & Hk).
  split; [lia|]. exists (new1 ++ new2). rewrite app_assoc. split; [done|]. intros s Hs Hl.
  destruct (Hx s Hs ltac:(lia)) as (r & s1 & E1 & L1 & HR). rewrite run_ops_app, E1. destruct r as [r|].
  - exists (Some r), s1. auto.
  - destruct (Hk s1 HR ltac:(lia)) as (r2 & s2 & E2 & L2 & HQ). exists r2, s2. split; [done|]. split; [congruence|done].
Qed.

Lemma triple_conseq {A} (x : L A) (P P' : nat -> mach -> Prop) (Q Q' : A -> nat -> mach -> Prop) (E E' : StepResult -> mach -> Prop) :
  triple P x Q E -> (forall tg s, P' tg s -> P tg s) -> (forall a tg s, Q a tg s -> Q' a tg s) -> (forall r s, E r s -> E' r s) -> triple P' x Q' E'.
Proof.
  intros Hx HP HQ HE ops tg. specialize (Hx ops tg). destruct (x ops tg) as [[[[a ops1] tg1]|e]|]; [|done..].
  destruct Hx as (H1 & new1 & -> & Hx). split; [done|]. exists new1. split; [done|]. intros s Hs Hl.
  destruct (Hx s (HP _ _ Hs) Hl) as (r & s1 & E1 & L1 & HR). exists r, s1. split; [done|]. split; [done|]. destruct r; auto.
Qed.

Lemma triple_fail {A} `{Iced} insn P (Q : A -> nat -> mach -> Prop) E : triple P (unsupported insn) Q E.
Proof. by intros ops tg. Qed.

Lemma triple_opt {A} `{Iced} insn (o : option A) P (Q : A -> nat -> mach -> Prop) E :
  (forall a, o = Some a -> forall tg s, P tg s -> Q a tg s) -> triple P (or_unsupported insn o) Q E.
Proof. intros HQ. destruct o; [apply triple_ret; eauto|apply triple_fail]. Qed.

Lemma triple_push op P (Q : unit -> nat -> mach -> Prop) E :
  (forall tg s, P tg s -> (tg <= length (m_temps s))%nat -> exists r s', exec_op ir cur op s = Some (r, s') /\ length (m_temps s') = length (m_temps s) /\
     match r with None => Q tt tg s' | Some r => E r s' end) -> triple P (push op) Q E.
Proof.
  intros Hop ops tg. split; [done|]. exists [op]. split; [done|]. intros s Hs Hl.
  destruct (Hop tg s Hs Hl) as (r & s' & E1 & L1 & HQ). cbn [run_ops]. rewrite E1. destruct r as [r|].
  - exists (Some r), s'. auto.
  - exists None, s'. auto.
Qed.

Lemma triple_ret_bind {A B} (a : A) (k : A -> L B) P Q E : triple P (k a) Q E -> triple P (mret a ≫= k) Q E.
Proof. done. Qed.
Lemma triple_assoc {A B C} (x : L A) (f : A -> L B) (k : B -> L C) P Q E :
  triple P (x ≫= (fun a => f a ≫= k)) Q E -> triple P ((x ≫= f) ≫= k) Q E.
Proof.
  intros Hx ops tg. specialize (Hx ops tg). unfold mbind, L_bind in *. by destruct (x ops tg) as [[[[a ops1] tg1]|e]|].
Qed.
Lemma triple_fail_bind {A B} `{Iced} insn (k : A -> L B) P Q E : triple P (unsupported insn ≫= k) Q E.
Proof. by intros ops tg. Qed.

(** An assertion that fails panics: nothing is appended. *)
Lemma triple_assert {B} b (k : unit -> L B) P Q E : triple P (k tt) Q E -> triple P (assertL b ≫= k) Q E.
Proof. intros Hk. destruct b; [exact Hk|by intros ops tg]. Qed.

Lemma triple_fresh_push {B} (mk : Temp -> IrOp) (k : Temp -> L B) P (R : Temp -> nat -> mach -> Prop) Q E :
  (forall t s, P t s -> (t < length (m_temps s))%nat -> exists r s', exec_op ir cur (mk t) s = Some (r, s') /\
     length (m_temps s') = length (m_temps s) /\ match r with None => R t (S t) s' | Some r => E r s' end) ->
  (forall t, triple (R t) (k t) Q E) -> triple P (t ← fresh; push (mk t);; k t) Q E.
Proof.
  intros Hop Hk ops tg. specialize (Hk tg (ops ++ [mk tg]) (S tg)). change ((t ← fresh; push (mk t);; k t) ops tg) with (k tg (ops ++ [mk tg]) (S tg)). destruct (k tg (ops ++ [mk tg]) (S tg)) as [[[[b ops2] tg2]|e]|]; [|done..].
  destruct Hk as (H2 & new2 & -> & Hk). split; [lia|]. exists (mk tg :: new2). rewrite <- app_assoc. split; [done|]. intros s Hs Hl.
  destruct (Hop tg s Hs ltac:(lia)) as (r & s1 & E1 & L1 & HR). cbn [run_ops]. rewrite E1. destruct r as [r|]; [exists (Some r), s1; auto|].
  destruct (Hk s1 HR ltac:(lia)) as (r2 & s2 & E2 & L2 & HQ). exists r2, s2. split; [done|]. split; [congruence|done].
Qed.

(** *** What is appended where it cannot be reached *)

Definition grows {A} (x : L A) : Prop :=
  forall ops tg, match x ops tg with Some (Ok (_, ops', tg')) => (tg <= tg')%nat /\ exists new, ops' = ops ++ new | _ => True end.
Lemma grows_ret {A} (a : A) : grows (mret a).
Proof. intros ops tg. split; [done|]. exists []. by rewrite app_nil_r. Qed.
Lemma grows_bind {A B} (x : L A) (k : A -> L B) : grows x -> (forall a, grows (k a)) -> grows (x ≫= k).
Proof.
  intros Hx Hk ops tg. specialize (Hx ops tg). unfold mbind, L_bind. destruct (x ops tg) as [[[[a ops1] tg1]|e]|]; [|done..].
  destruct Hx as (H1 & new1 & ->). specialize (Hk a (ops ++ new1) tg1). destruct (k a (ops ++ new1) tg1) as [[[[b ops2] tg2]|e]|]; [|done..].
  destruct Hk as (H2 & new2 & ->). split; [lia|]. exists (new1 ++ new2). by rewrite app_assoc.
Qed.
Lemma grows_fresh : grows fresh.
Proof. intros ops tg. cbn. split; [lia|]. exists []. by rewrite app_nil_r. Qed.
Lemma grows_push op : grows (push op).
Proof. intros ops tg. split; [done|]. by exists [op]. Qed.
Lemma grows_assert b : grows (assertL b).
Proof. destruct b; [apply grows_ret|by intros ops tg]. Qed.
Lemma grows_fail {A} `{Iced} insn : grows (unsupported (A := A) insn).
Proof. by intros ops tg. Qed.
Lemma triple_false {A} (x : L A) Q E : grows x -> triple (fun _ _ => False) x Q E.
Proof.
  intros Hx ops tg. specialize (Hx ops tg). destruct (x ops tg) as [[[[a ops1] tg1]|e]|]; [|done..]. destruct Hx as (H1 & new1 & ->).
  split; [done|]. exists new1. by split.
Qed.

(** ** Known values

    The CPU and the memory, and the values of the operands computed so far. *)

Definition knows (env : list (Val * Z)) (v : Val) (z : Z) : Prop := v = Imm z \/ (v, z) ∈ env.
Lemma knows_cons env p v z : knows env v z -> knows (p :: env) v z.
Proof. intros [-> |Hv]; [by left|right; by apply list_elem_of_further]. Qed.
Definition val_in (tg : nat) (v : Val) : Prop := match v with TempV t => (t < tg)%nat | Imm _ => True end.
Record at_ (c : CpuState) (m : Memory) (env : list (Val * Z)) (tg : nat) (s : mach) : Prop := {
  at_cpu : m_cpu s = c;
  at_mem : m_mem s = m;
  at_env : Forall (fun '(v, z) => val_in tg v /\ val_of s v = Some z) env;
}.

Lemma at_knows c m env tg s v z : at_ c m env tg s -> knows env v z -> val_of s v = Some z /\ val_in tg v.
Proof. intros [_ _ He] [-> |Hv]; [done|]. rewrite list.Forall_forall in He. by destruct (He _ Hv). Qed.
Lemma at_reads c m env tg s v z : at_ c m env tg s -> knows env v z -> read_val v s = Some (z, s).
Proof. intros Hs Hv. by apply read_val_run, (at_knows _ _ _ _ _ _ _ Hs). Qed.
Lemma at_more c m env tg tg' s : (tg <= tg')%nat -> at_ c m env tg s -> at_ c m env tg' s.
Proof.
  intros Ht [H1 H2 H3]. split; [done..|]. eapply list.Forall_impl; [exact H3|]. intros [[t|i] z] [Hv Hz]; [|done]. cbn in *. split; [lia|done].
Qed.
Lemma at_drop c m env env' tg s : env' ⊆ env -> at_ c m env tg s -> at_ c m env' tg s.
Proof. intros Hsub [H1 H2 H3]. split; [done..|]. rewrite list.Forall_forall in *. intros p Hp. by apply H3, Hsub. Qed.
(** Assigning the newest temporary. *)
Lemma at_temp c m env t s z : at_ c m env t s -> (t < length (m_temps s))%nat -> at_ c m ((TempV t, z) :: env) (S t) (with_temp s t z).
Proof.
  intros [H1 H2 H3] Ht. split; [done..|]. constructor.
  - split; [cbn; lia|]. cbn. by apply list_lookup_insert_eq.
  - eapply list.Forall_impl; [exact H3|]. intros [[t'|i] z'] [Hv Hz]; [|done]. cbn in *. split; [lia|].
    rewrite list_lookup_insert_ne by lia. done.
Qed.

(** An op that only assigns a fresh temporary. *)
Lemma triple_temp (mk : Temp -> IrOp) c m env z E :
  (forall t s, at_ c m env t s -> (t < length (m_temps s))%nat -> exec_op ir cur (mk t) s = Some (None, with_temp s t z)) ->
  triple (at_ c m env) (alu_none mk) (fun v => at_ c m ((v, z) :: env)) E.
Proof.
  intros Hop ops tg. cbn. split; [lia|]. exists [mk tg]. split; [done|]. intros s Hs Hl. cbn [run_ops].
  rewrite Hop by (done || lia). eexists None, _. split; [done|]. split; [cbn; apply length_insert|]. apply at_temp; [done|lia].
Qed.

(** ** The ops of integer code *)

Lemma with_flags_same s f : f = flags (m_cpu s) -> with_flags s f = s.
Proof. intros ->. by destruct s as [[] ? ?]. Qed.

Definition alu_of (op : BinOp.t) (c : CpuState) (x y size : Z) : option AluResult :=
  match op with
  | BinOp.Add => Some (alu_add x y 0 size)
  | BinOp.Adc => Some (alu_add x y (b2z (cf (flags c))) size)
  | BinOp.Sub => Some (alu_sub x y 0 size)
  | BinOp.Sbb => Some (alu_sub x y (b2z (cf (flags c))) size)
  | BinOp.And => Some (alu_logic (Z.land x y) size)
  | BinOp.Or => Some (alu_logic (Z.lor x y) size)
  | BinOp.Xor => Some (alu_logic (Z.lxor x y) size)
  | _ => None
  end.

Lemma exec_alu op s dst a b x y size fm r : alu_of op (m_cpu s) x y size = Some r ->
  read_val a s = Some (x, s) -> read_val b s = Some (y, s) -> (dst < length (m_temps s))%nat ->
  exec_op ir cur (mk_binop op dst a b size fm) s =
    Some (None, with_flags (with_temp s dst (r_res r)) (apply_flags (flags (m_cpu s)) fm r)).
Proof.
  intros Hr Ha Hb Hd. destruct op; try discriminate Hr; injection Hr as <-; cbn [mk_binop exec_op];
    unfold exec_add, exec_adc, exec_sub, exec_sbb, exec_and, exec_or, exec_xor, get_cpu, mbind, M_bind; rewrite Ha, Hb, set_temp_run by done; done.
Qed.

(** A flagless op on full registers, by its result. *)
Lemma exec_alu_none op s dst a b x y r : alu_of op (m_cpu s) x y 8 = Some r ->
  read_val a s = Some (x, s) -> read_val b s = Some (y, s) -> (dst < length (m_temps s))%nat ->
  exec_op ir cur (mk_binop op dst a b 8 FM_NONE) s = Some (None, with_temp s dst (r_res r)).
Proof. intros. erewrite exec_alu by done. by rewrite with_flags_same. Qed.

Lemma add_8 x y : r_res (alu_add x y 0 8) = wrap 64 (x + y).
Proof.
  unfold alu_add. cbn [r_res]. rewrite !land_mask by (unfold valid_elem; lia). change (bits_of 8) with 64. rewrite Z.add_0_r. unfold wrap.
  rewrite (Z.mod_small _ (2 ^ 128)).
  - by rewrite Z.mod_mod, <- Zplus_mod by lia.
  - pose proof (Z.mod_pos_bound x (2 ^ 64)). pose proof (Z.mod_pos_bound y (2 ^ 64)). lia.
Qed.
Lemma logic_8 z : in_width 64 z -> r_res (alu_logic z 8) = z.
Proof. intros Hz. unfold alu_logic. cbn [r_res]. rewrite land_mask by (unfold valid_elem; lia). change (bits_of 8) with 64. by apply wrap_small. Qed.
Lemma sub_8 x y : r_res (alu_sub x y 0 8) = wrap 64 (x - y).
Proof.
  unfold alu_sub, wrapping_sub. cbn [r_res]. rewrite !land_mask by (unfold valid_elem; lia). change (bits_of 8) with 64. rewrite Z.sub_0_r. unfold wrap.
  rewrite (Z.mod_mod _ (2 ^ 128)), Z.mod_mod by lia.
  rewrite <- (Znumtheory.Zmod_div_mod (2 ^ 64) (2 ^ 128)) by (lia || by exists (2 ^ 64)). by rewrite <- Zminus_mod.
Qed.
Lemma shl_8 x k : 0 <= k < 64 -> Z.land (wrapping_shl 64 (Z.land x (mask 8)) (Z.land k (shift_mask 8))) (mask 8) = wrap 64 (x * 2 ^ k).
Proof.
  intros Hk. rewrite !land_mask by (unfold valid_elem; lia). change (bits_of 8) with 64. rewrite shift_count.
  change (2 ^ count_bits 8) with 64. rewrite (Z.mod_small k) by lia. rewrite wrap_wrapping_shl by lia. unfold wrap. by rewrite Zmult_mod_idemp_l.
Qed.

Section Rules.
Context (c : CpuState) (m : Memory) (E : StepResult -> mach -> Prop).

Lemma tr_read_reg env r : triple (at_ c m env) (read_reg r) (fun v => at_ c m ((v, Interp.read_reg c r) :: env)) E.
Proof.
  apply (triple_temp (fun t => ReadReg t r)). intros t s Hs Ht. cbn [exec_op]. unfold exec_read_reg, get_cpu, mbind, M_bind.
  rewrite set_temp_run by done. by rewrite (at_cpu _ _ _ _ _ Hs).
Qed.
(** A flagless add, subtract or logic op. *)
Lemma tr_alu op env a b x y r : alu_of op c x y 8 = Some r -> knows env a x -> knows env b y ->
  triple (at_ c m env) (alu_none (fun t => mk_binop op t a b 8 FM_NONE)) (fun v => at_ c m ((v, r_res r) :: env)) E.
Proof.
  intros Hr Ha Hb. apply triple_temp. intros t s Hs Ht.
  apply (exec_alu_none _ _ _ _ _ x y); [by rewrite (at_cpu _ _ _ _ _ Hs)|by eapply at_reads|by eapply at_reads|done].
Qed.
Lemma tr_add env a b x y : knows env a x -> knows env b y ->
  triple (at_ c m env) (add_addr a b) (fun v => at_ c m ((v, wrap 64 (x + y)) :: env)) E.
Proof. intros Ha Hb. rewrite <- add_8. by apply (tr_alu BinOp.Add env a b x y). Qed.
Lemma tr_and env a b x y : knows env a x -> knows env b y -> in_width 64 (Z.land x y) ->
  triple (at_ c m env) (alu_none (fun t => And t a b 8 FM_NONE)) (fun v => at_ c m ((v, Z.land x y) :: env)) E.
Proof. intros Ha Hb Hz. rewrite <- (logic_8 (Z.land x y)) by done. by apply (tr_alu BinOp.And env a b x y). Qed.
Lemma tr_shl env a x k : knows env a x -> 0 <= k < 64 ->
  triple (at_ c m env) (alu_none (fun t => Shl t a (Imm k) 8 FM_NONE)) (fun v => at_ c m ((v, wrap 64 (x * 2 ^ k)) :: env)) E.
Proof.
  intros Ha Hk. apply triple_temp. intros t s Hs Ht. cbn [exec_op]. unfold exec_shl, mbind, M_bind.
  rewrite (at_reads _ _ _ _ _ _ _ Hs Ha). cbn [read_val]. rewrite shl_8 by done. by rewrite set_temp_run.
Qed.
Lemma tr_shr env a x k : knows env a x -> in_width 64 x -> 0 <= k < 64 ->
  triple (at_ c m env) (alu_none (fun t => Shr t a (Imm k) 8 FM_NONE)) (fun v => at_ c m ((v, Z.shiftr x k) :: env)) E.
Proof.
  intros Ha Hx Hk. apply triple_temp. intros t s Hs Ht. cbn [exec_op]. unfold exec_shr, mbind, M_bind.
  rewrite (at_reads _ _ _ _ _ _ _ Hs Ha). cbn [read_val]. rewrite land_mask by (unfold valid_elem; lia). change (bits_of 8) with 64.
  rewrite shift_count. change (2 ^ count_bits 8) with 64. rewrite (Z.mod_small k), wrap_small by done.
  unfold wrapping_shr. rewrite Z.mod_small by done. by rewrite set_temp_run.
Qed.
Lemma tr_or env a b x y : knows env a x -> knows env b y -> in_width 64 (Z.lor x y) ->
  triple (at_ c m env) (alu_none (fun t => Or t a b 8 FM_NONE)) (fun v => at_ c m ((v, Z.lor x y) :: env)) E.
Proof. intros Ha Hb Hz. rewrite <- (logic_8 (Z.lor x y)) by done. by apply (tr_alu BinOp.Or env a b x y). Qed.
Lemma tr_xor env a b x y : knows env a x -> knows env b y -> in_width 64 (Z.lxor x y) ->
  triple (at_ c m env) (alu_none (fun t => Xor t a b 8 FM_NONE)) (fun v => at_ c m ((v, Z.lxor x y) :: env)) E.
Proof. intros Ha Hb Hz. rewrite <- (logic_8 (Z.lxor x y)) by done. by apply (tr_alu BinOp.Xor env a b x y). Qed.
Lemma tr_sub env a b x y : knows env a x -> knows env b y ->
  triple (at_ c m env) (alu_none (fun t => Sub t a b 8 FM_NONE)) (fun v => at_ c m ((v, wrap 64 (x - y)) :: env)) E.
Proof. intros Ha Hb. rewrite <- sub_8. by apply (tr_alu BinOp.Sub env a b x y). Qed.
Lemma tr_cond env cond : triple (at_ c m env) (alu_none (fun t => GetCond t cond)) (fun v => at_ c m ((v, b2z (eval_cond cond (flags c))) :: env)) E.
Proof.
  apply triple_temp. intros t s Hs Ht. cbn [exec_op]. unfold exec_get_cond, get_cpu, mbind, M_bind.
  rewrite set_temp_run by done. by rewrite (at_cpu _ _ _ _ _ Hs).
Qed.
(** A temporary named by the op that assigns it. *)
Lemma tr_named {B} (mk : Temp -> IrOp) (k : Temp -> L B) P R Q :
  triple P (alu_none mk) R E -> (forall t, triple (R (TempV t)) (k t) Q E) -> triple P (t ← fresh; push (mk t);; k t) Q E.
Proof.
  intros Hmk Hk. intros ops tg. specialize (Hmk ops tg). specialize (Hk tg (ops ++ [mk tg]) (S tg)).
  change ((t ← fresh; push (mk t);; k t) ops tg) with (k tg (ops ++ [mk tg]) (S tg)).
  change (alu_none mk ops tg) with (Some (Ok (E := LiftError) (TempV tg, ops ++ [mk tg], S tg))) in Hmk. destruct Hmk as (_ & new & Hnew & Hmk).
  apply app_inv_head in Hnew as <-. destruct (k tg (ops ++ [mk tg]) (S tg)) as [[[[b ops2] tg2]|e]|]; [|done..].
  destruct Hk as (H2 & new2 & -> & Hk). split; [lia|]. exists ([mk tg] ++ new2). rewrite app_assoc. split; [done|]. intros s Hs Hl.
  destruct (Hmk s Hs ltac:(lia)) as (r & s1 & E1 & L1 & HR). rewrite run_ops_app, E1. destruct r as [r|]; [exists (Some r), s1; auto|].
  destruct (Hk s1 HR ltac:(lia)) as (r2 & s2 & E2 & L2 & HQ). exists r2, s2. split; [done|]. split; [congruence|done].
Qed.
(** An arithmetic op with its flags. *)
Lemma tr_binop {B} op env a b x y size fm r (k : Temp -> L B) Q : alu_of op c x y size = Some r -> knows env a x -> knows env b y ->
  (forall t, triple (at_ (set_flags c (apply_flags (flags c) fm r)) m ((TempV t, r_res r) :: env)) (k t) Q E) ->
  triple (at_ c m env) (t ← fresh; push (mk_binop op t a b size fm);; k t) Q E.
Proof.
  intros Hr Ha Hb Hk. eapply triple_fresh_push; [|exact Hk]. intros t s Hs Ht. eexists None, _. split.
  - apply (exec_alu op s t a b x y size fm r); [by rewrite (at_cpu _ _ _ _ _ Hs)|by eapply at_reads|by eapply at_reads|done].
  - split; [apply length_insert|]. pose proof (at_temp c m env t s (r_res r) Hs Ht) as [? ? ?]. split; [|done|done].
    cbn. by rewrite (at_cpu _ _ _ _ _ Hs).
Qed.
Lemma tr_write_reg env g v z size c' : knows env v z -> write_reg c g z size = Some c' ->
  triple (at_ c m env) (push (WriteReg g v size)) (fun _ => at_ c' m env) E.
Proof.
  intros Hv Hw. apply triple_push. intros tg s Hs _. cbn [exec_op]. unfold exec_write_reg, try_cpu, mbind, M_bind.
  rewrite (at_reads _ _ _ _ _ _ _ Hs Hv), (at_cpu _ _ _ _ _ Hs), Hw. eexists None, _. split; [done|]. split; [done|]. by destruct Hs.
Qed.
Lemma tr_store env m' addr a v z size o res : knows env addr a -> knows env v z -> write m a z size = Some (res, m') ->
  pending_mmio_write c = false ->
  (forall t s, res = Err t -> m_cpu s = set_rip c cur -> m_mem s = m' -> E (SExit (trap_exit t a size Write z)) s) ->
  triple (at_ c m env) (push (Store addr v size o)) (fun _ => match res with Ok _ => at_ c m' env | Err _ => fun _ _ => False end) E.
Proof.
  intros Ha Hv Hw Hp HE. apply triple_push. intros tg s Hs _. cbn [exec_op]. unfold exec_store, on_mem, get_cpu, mbind, M_bind.
  rewrite (at_reads _ _ _ _ _ _ _ Hs Ha), (at_reads _ _ _ _ _ _ _ Hs Hv), (at_mem _ _ _ _ _ Hs), Hw. destruct res as [u|t].
  - eexists None, _. split; [done|]. split; [done|]. by destruct Hs.
  - cbn [m_cpu]. rewrite (at_cpu _ _ _ _ _ Hs), Hp. eexists (Some _), _. split; [by destruct t|]. split; [done|]. by apply HE.
Qed.
End Rules.

Lemma at_result c m env env' tg s v z : at_ c m env' tg s -> knows env' v z -> env ⊆ env' -> at_ c m ((v, z) :: env) tg s.
Proof.
  intros Hs Hv Hsub. destruct (at_knows _ _ _ _ _ _ _ Hs Hv). destruct (at_drop _ _ _ _ _ _ Hsub Hs) as [? ? ?]. split; [done..|].
  by constructor.
Qed.
End Triples.

(** ** Automation *)

(** One step of a lowering whose heads are known; [rule] is the rule for the next one. *)
Ltac tr_norm :=
  cbv zeta;
  repeat (cbv beta; lazymatch goal with
          | |- triple _ _ _ (mbind _ (unsupported _)) _ _ => apply triple_fail_bind
          | |- triple _ _ _ (unsupported _) _ _ => apply triple_fail
          | |- triple _ _ _ (mbind _ (mbind _ _)) _ _ => apply triple_assoc
          | |- triple _ _ _ (mbind _ (mret _)) _ _ => apply triple_ret_bind
          | |- triple _ _ _ (mbind _ (assertL _)) _ _ => apply triple_assert
          | |- triple _ _ _ (mbind _ (or_unsupported _ ?o)) _ _ => destruct o eqn:?; cbn [or_unsupported]
          end).
Ltac tr_step rule := tr_norm; eapply triple_bind; [eapply rule | intros ?; cbv beta; tr_norm].
Ltac sub_env := repeat apply list_subseteq_cons; done.
Ltac known := first [eassumption | by left | right; by apply list_elem_of_here | apply knows_cons; known].

(** ** Effective addresses *)

Section Address.
Context `{LM : Libm} (ir : IrBlock) (cur : Z) `{IcedLaws} (insn : Instruction) (c : CpuState) (Hc : cpu_wf c) (m : Memory) (E : StepResult -> mach -> Prop).
Local Notation trip := (triple ir cur).

(** The address the instruction names, from the registers of [c]. *)
Definition reg_value (r : Register) : Z :=
  if r =? NoRegister then 0 else match iced_to_reg r with Some g => Interp.read_reg c g | None => 0 end.
Definition addr_bits : Z :=
  let sz r := register_size r in
  if (sz (memory_base insn) =? 2) || (sz (memory_index insn) =? 2) then 16
  else if (sz (memory_base insn) =? 4) || (sz (memory_index insn) =? 4) then 32 else 64.
Definition ea_sum : Z :=
  reg_value (memory_base insn) + reg_value (memory_index insn) * memory_index_scale insn + memory_displacement64 insn.
Definition ea_offset : Z :=
  if memory_base insn =? Insn.RIP then memory_displacement64 insn
  else if memory_base insn =? EIP then wrap 32 (memory_displacement64 insn)
  else wrap addr_bits ea_sum.
Definition segment_base : Z :=
  if segment_prefix insn =? FS then fs_base c else if segment_prefix insn =? GS then gs_base c else 0.
Definition ea_linear : Z := wrap 64 (ea_offset + segment_base).

Lemma tr_scaled env idx x : knows env idx x -> in_width 64 x ->
  trip (at_ c m env) (scaled_index insn idx) (fun v => at_ c m ((v, wrap 64 (x * memory_index_scale insn)) :: env)) E.
Proof.
  intros Hk Hx. unfold scaled_index. pose proof (iced_scale insn) as Hs. cbv zeta. destruct (Z.leb_spec (memory_index_scale insn) 1).
  - apply triple_ret. intros tg s Hat. replace (memory_index_scale insn) with 1 by (unfold valid_elem in Hs; lia).
    rewrite Z.mul_1_r, wrap_small by done. by eapply at_result.
  - assert (Hk2 : 0 <= trailing_zeros 32 (memory_index_scale insn) < 64 /\ 2 ^ trailing_zeros 32 (memory_index_scale insn) = memory_index_scale insn).
    { by destruct Hs as [-> |[-> |[-> | ->]]]. }
    destruct Hk2 as [Hk2 Hpow]. pose proof (tr_shl ir cur c m E env idx x _ Hk Hk2) as T. rewrite Hpow in T. exact T.
Qed.

Lemma reg_value_range r : in_width 64 (reg_value r).
Proof. unfold reg_value. destruct (_ =? _); [done|]. destruct (iced_to_reg r); [by apply read_reg_range|done]. Qed.

Lemma at_weaken {B} env env' v z (k : L B) Q : knows env' v z -> env ⊆ env' -> trip (at_ c m ((v, z) :: env)) k Q E -> trip (at_ c m env') k Q E.
Proof. intros Hv Hsub Hk. eapply triple_conseq; [exact Hk| |done..]. intros tg s Hs. by eapply at_result. Qed.

Lemma tr_disp {B} env env' acc x (k : Val -> L B) Q : knows env' acc (wrap 64 x) -> env ⊆ env' ->
  (forall addr, trip (at_ c m ((addr, wrap 64 (x + memory_displacement64 insn)) :: env)) (k addr) Q E) ->
  trip (at_ c m env')
    (addr ← (if memory_displacement64 insn =? 0 then mret acc else add_addr acc (Imm (memory_displacement64 insn))); k addr) Q E.
Proof.
  intros Ha Hsub Hk. destruct (Z.eqb_spec (memory_displacement64 insn) 0) as [Hd|Hd].
  - apply triple_ret_bind. eapply at_weaken; [|exact Hsub|apply Hk]. by rewrite Hd, Z.add_0_r.
  - eapply triple_bind; [apply (tr_add ir cur c m E _ _ _ _ (memory_displacement64 insn) Ha); by left|].
    intros v. cbv beta. rewrite wrap_add_l by lia. eapply at_weaken; [|by apply list_subseteq_cons|apply Hk]. known.
Qed.

(** Base, scaled index and displacement. *)
Lemma tr_ea_sum {B} env (k : Val -> L B) Q :
  (forall addr, trip (at_ c m ((addr, wrap 64 ea_sum) :: env)) (k addr) Q E) ->
  trip (at_ c m env)
    (acc ← (if memory_base insn =? NoRegister then mret None
            else reg ← or_unsupported insn (iced_to_reg (memory_base insn)); v ← read_reg reg; mret (Some v));
     acc ← (if memory_index insn =? NoRegister then mret acc
            else
              reg ← or_unsupported insn (iced_to_reg (memory_index insn));
              idx ← read_reg reg;
              scaled ← scaled_index insn idx;
              match acc with None => mret (Some scaled) | Some a => v ← add_addr a scaled; mret (Some v) end);
     addr ← match acc with
            | None => mret (Imm (memory_displacement64 insn))
            | Some a => if memory_displacement64 insn =? 0 then mret a else add_addr a (Imm (memory_displacement64 insn))
            end;
     k addr) Q E.
Proof.
  intros Hk. pose proof (reg_value_range (memory_base insn)) as Hb. pose proof (reg_value_range (memory_index insn)) as Hi.
  unfold ea_sum in Hk. unfold reg_value in *.
  destruct (memory_base insn =? NoRegister) eqn:Eb; [|tr_step tr_read_reg].
  all: destruct (memory_index insn =? NoRegister) eqn:Ei; tr_norm.
  - rewrite Z.mul_0_l, !Z.add_0_l in Hk. eapply at_weaken; [|done|apply Hk]. left. by rewrite wrap_small by apply iced_disp.
  - rewrite Z.add_0_l in Hk. tr_step tr_read_reg. tr_step tr_scaled; [known|done|]. eapply tr_disp; [known| |exact Hk]. sub_env.
  - rewrite Z.mul_0_l, Z.add_0_r in Hk. eapply tr_disp; [|sub_env|exact Hk]. rewrite wrap_small by done. known.
  - tr_step tr_read_reg. tr_step tr_scaled; [known|done|]. tr_step tr_add; [known|known|]. rewrite wrap_add_r by lia.
    eapply tr_disp; [known| |exact Hk]. sub_env.
Qed.

(** Cut to the address size. *)
Lemma tr_masked env addr z w : 0 <= w <= 64 -> in_width 64 z ->
  trip (at_ c m ((addr, z) :: env))
    (match addr with Imm v => mret (Imm (Z.land v (Z.ones w))) | a => t ← fresh; push (And t a (Imm (Z.ones w)) 8 FM_NONE);; mret (TempV t) end)
    (fun v => at_ c m ((v, wrap w z) :: env)) E.
Proof.
  intros Hw Hz. assert (Hland : Z.land z (Z.ones w) = wrap w z) by (apply wrap_ones; lia). destruct addr as [t|v].
  - assert (Hr : in_width 64 (Z.land z (Z.ones w))).
    { rewrite Hland. destruct (wrap_range w z ltac:(lia)) as [H1 H2]. split; [done|]. eapply Z.lt_le_trans; [exact H2|]. apply Z.pow_le_mono_r; lia. }
    eapply triple_conseq; [apply (tr_and ir cur c m E ((TempV t, z) :: env) (TempV t) (Imm (Z.ones w)) z (Z.ones w)); [known|known|done]|done| |done].
    intros v tg s Hs. rewrite Hland in Hs. eapply at_result; [exact Hs|known|]. sub_env.
  - apply triple_ret. intros tg s Hs. pose proof (at_env _ _ _ _ _ Hs) as He. apply list.Forall_cons in He as [[_ Hv] _]. injection Hv as ->.
    eapply at_result; [exact Hs| |sub_env]. left. by rewrite Hland.
Qed.

Lemma tr_ea_no_segment env : trip (at_ c m env) (effective_address_no_segment insn) (fun v => at_ c m ((v, ea_offset) :: env)) E.
Proof.
  unfold effective_address_no_segment, ea_offset. cbv zeta. destruct (_ =? Insn.RIP); [|destruct (_ =? EIP)].
  - apply triple_assert, triple_ret. intros tg s Hs. eapply at_result; [exact Hs|by left|done].
  - apply triple_assert, triple_ret. intros tg s Hs. eapply at_result; [exact Hs| |done]. left. by rewrite <- wrap_ones.
  - apply tr_ea_sum. intros addr. unfold addr_bits. cbv zeta. pose proof (wrap_range 64 ea_sum ltac:(lia)) as Hr.
    destruct (_ || _); [|destruct (_ || _)].
    + rewrite <- (wrap_wrap_le 16 64) by lia. by apply (tr_masked _ _ _ 16).
    + rewrite <- (wrap_wrap_le 32 64) by lia. by apply (tr_masked _ _ _ 32).
    + by apply triple_ret.
Qed.

Lemma ea_offset_range : in_width 64 ea_offset.
Proof.
  unfold ea_offset. pose proof (iced_disp insn). destruct (_ =? Insn.RIP); [done|]. destruct (_ =? EIP).
  - destruct (wrap_range 32 (memory_displacement64 insn)); [lia|]. unfold in_width. lia.
  - unfold addr_bits. cbv zeta. destruct (_ || _); [|destruct (_ || _)];
      match goal with |- in_width _ (wrap ?w ?x) => destruct (wrap_range w x); [lia|]; unfold in_width; lia end.
Qed.

(** Outside 16-bit code: no segment limit to check. *)
Lemma tr_ea env : code_size insn <> Code16 -> trip (at_ c m env) (effective_address insn) (fun v => at_ c m ((v, ea_linear) :: env)) E.
Proof.
  intros H16. unfold effective_address. eapply triple_bind; [apply tr_ea_no_segment|]. intros addr. cbv beta.
  pose proof ea_offset_range as Hr. unfold with_segment, ea_linear, segment_base. rewrite decide_False by done.
  assert (Hseg : forall base : Reg, trip (at_ c m ((addr, ea_offset) :: env)) (b ← read_reg base; add_addr addr b)
            (fun v => at_ c m ((v, wrap 64 (ea_offset + Interp.read_reg c base)) :: env)) E).
  { intros base. eapply triple_bind; [apply tr_read_reg|]. intros b. cbv beta.
    eapply triple_conseq; [apply (tr_add ir cur c m E ((b, Interp.read_reg c base) :: (addr, ea_offset) :: env) addr b ea_offset (Interp.read_reg c base)); known|intros tg s Hs; exact Hs| |done].
    intros v tg s Hs. eapply at_result; [exact Hs|known|sub_env]. }
  destruct (_ =? FS); [exact (Hseg FsBase)|]. destruct (_ =? GS); [exact (Hseg GsBase)|].
  apply triple_ret. intros tg s Hs. rewrite Z.add_0_r, (wrap_small 64 ea_offset Hr). exact Hs.
Qed.
End Address.
