(* ===== verification/LowerAlu.v ===== *)
(** * What lowered instructions do

    Operands read and written, and against them the whole of the two-operand arithmetic,
    the conditional moves and [push]: the ops each is lowered to, run on the machine,
    change it as the instruction does, and a fault leaves it as it was. *)

From S2P Require Import Prelude Features State Ir Alu Memory PageTrack Interp IntegerSpec StringOps Control HostFloat F80 F80Trans X87 X87Arm VecOps VecAtomic VecOp Block Frame Walk Lift Elide Insn LiftInt LiftCtl LiftVec LiftInsn InsnSpec LowerInt LowerSem.

(** ** Structure *)

Ltac grow :=
  repeat (cbv zeta beta; lazymatch goal with
          | |- grows (mret _) => apply grows_ret
          | |- grows (unsupported _) => apply grows_fail
          | |- grows (assertL _) => apply grows_assert
          | |- grows (push _) => apply grows_push
          | |- grows fresh => apply grows_fresh
          | |- grows (mbind _ _) => apply grows_bind; [|intros ?]
          | |- grows (match ?x with _ => _ end) => destruct x
          | |- grows _ => solve [auto 1 with grow]
          end).
Create HintDb grow.

Section Grows.
Context `{InsnView} (insn : Instruction).
Lemma grows_opt {A} (o : option A) : grows (or_unsupported insn o).
Proof. destruct o; [apply grows_ret|apply grows_fail]. Qed.
#[local] Hint Resolve @grows_opt : grow.
Lemma grows_read_reg r : grows (read_reg r).
Proof. unfold read_reg. grow. Qed.
Lemma grows_alu mk : grows (alu_none mk).
Proof. unfold alu_none. grow. Qed.
Lemma grows_add a b : grows (add_addr a b).
Proof. unfold add_addr. grow. Qed.
#[local] Hint Resolve @grows_read_reg @grows_alu @grows_add : grow.
Lemma grows_scaled i : grows (scaled_index insn i).
Proof. unfold scaled_index. grow. Qed.
#[local] Hint Resolve @grows_scaled : grow.
Lemma grows_ea_no_segment : grows (effective_address_no_segment insn).
Proof. unfold effective_address_no_segment. grow. Qed.
Lemma grows_with_segment a : grows (with_segment insn a).
Proof. unfold with_segment. grow. Qed.
#[local] Hint Resolve @grows_ea_no_segment @grows_with_segment : grow.
Lemma grows_ea : grows (effective_address insn).
Proof. unfold effective_address. grow. Qed.
#[local] Hint Resolve @grows_ea : grow.
Lemma grows_mem_size i : grows (scalar_mem_size insn i).
Proof. unfold scalar_mem_size. grow. Qed.
#[local] Hint Resolve @grows_mem_size : grow.
Lemma grows_lower_read i : grows (lower_read insn i).
Proof. unfold lower_read. grow. Qed.
Lemma grows_write_target i : grows (lower_write_target insn i).
Proof. unfold lower_write_target. grow. Qed.
Lemma grows_emit_write w v : grows (emit_write w v).
Proof. unfold emit_write. grow. Qed.
Lemma grows_stack_addr o mode : grows (stack_addr o mode).
Proof. unfold stack_addr. grow. Qed.
Lemma grows_sp_wrap sp mode : grows (emit_sp_wrap sp mode).
Proof. unfold emit_sp_wrap. grow. Qed.
End Grows.
#[export] Hint Resolve grows_opt grows_read_reg grows_alu grows_add grows_ea grows_mem_size grows_lower_read grows_write_target
  grows_emit_write grows_stack_addr grows_sp_wrap : grow.

(** ** Operands *)

Section Operands.
Context `{LM : Libm} (ir : IrBlock) (cur : Z) `{IcedLaws} (insn : Instruction) (c : CpuState).
Hypothesis (Hc : cpu_wf c) (Hpend : pending_mmio c = None) (H16 : code_size insn <> Code16).
Local Notation trip := (triple ir cur).

(** The value of operand [i], or the exit its load ends in. *)
Definition operand_value (m : Memory) (i : Z) : option (Result Z Exit * Memory) :=
  match op_kind insn i with
  | OpKind.Register =>
      match high_byte_parent (op_register insn i) with
      | Some p => Some (Ok (Z.land (Z.shiftr (Interp.read_reg c p) 8) 0xff), m)
      | None => g ← iced_to_reg (op_register insn i); Some (Ok (Interp.read_reg c g), m)
      end
  | OpKind.Memory =>
      let a := ea_linear insn c in
      let size := operand_size insn i in
      '(r, m) ← read m a size;
      Some (match r with Ok v => Ok v | Err t => Err (trap_exit t a size Read 0) end, m)
  | _ => Some (Ok (immediate insn i), m)
  end.

Lemma tr_load {B} m m' env addr a size res (k : Temp -> L B) Q (E : StepResult -> mach -> Prop) :
  read m a size = Some (res, m') -> knows env addr a ->
  (forall t s, res = Err t -> m_cpu s = set_rip c cur -> m_mem s = m' -> E (SExit (trap_exit t a size Read 0)) s) ->
  (forall t v, res = Ok v -> trip (at_ c m' ((TempV t, v) :: env)) (k t) Q E) -> (forall t, grows (k t)) ->
  trip (at_ c m env) (t ← fresh; push (Load t addr size);; k t) Q E.
Proof.
  intros Hr Ha HE Hk Hg.
  apply (triple_fresh_push ir cur _ k _ (fun t => match res with Ok v => at_ c m' ((TempV t, v) :: env) | Err _ => fun _ _ => False end)).
  - intros t s Hs Ht. cbn [exec_op]. unfold exec_load, get_cpu, on_mem, mbind, M_bind. rewrite (at_reads _ _ _ _ _ _ _ Hs Ha).
    pose proof Hs as [Hcpu Hmem Henv]. rewrite Hcpu, Hpend, Hmem, Hr. destruct res as [v|x].
    + set (s1 := mkMach (m_cpu s) m' (m_temps s)). rewrite (set_temp_run s1) by done. eexists None, _. split; [done|]. split; [apply length_insert|].
      apply (at_temp c m' env t s1); [|done]. split; [done..|]. eapply list.Forall_impl; [exact Henv|]. by intros [[]].
    + eexists (Some _), _. split; [done|]. split; [done|]. apply HE; [done|cbn; congruence|done].
  - intros t. destruct res as [v|x]; [by apply Hk|]. by apply triple_false.
Qed.

Lemma tr_lower_read {B} m m' env i res (k : Val -> L B) Q (E : StepResult -> mach -> Prop) :
  operand_value m i = Some (res, m') ->
  (forall x s, res = Err x -> m_cpu s = set_rip c cur -> m_mem s = m' -> E (SExit x) s) ->
  (forall v z, res = Ok z -> trip (at_ c m' ((v, z) :: env)) (k v) Q E) -> (forall v, grows (k v)) ->
  trip (at_ c m env) (lower_read insn i ≫= k) Q E.
Proof.
  intros Hv HE Hk Hg. unfold lower_read. unfold operand_value in Hv. destruct (op_kind insn i) eqn:Ek; cbn [is_immediate]; tr_norm.
  all: try (injection Hv as <- <-; eapply at_weaken; [| |by apply Hk]; [by left|done]).
  - destruct (high_byte_parent (op_register insn i)) as [p|].
    + injection Hv as <- <-. pose proof (read_reg_range c p Hc) as Hp. tr_step tr_read_reg. tr_step tr_shr; [known|done|lia|].
      tr_step tr_and; [known|known| |].
      { apply land_width; [done|apply Z.shiftr_nonneg, Hp|done]. }
      eapply at_weaken; [| |by apply Hk]; [known|sub_env].
    + destruct (iced_to_reg (op_register insn i)); [|discriminate]. injection Hv as <- <-. cbn [or_unsupported]. tr_step tr_read_reg. by apply Hk.
  - destruct (read m _ _) as [[r m1]|] eqn:Er; [|discriminate]. injection Hv as <- <-.
    eapply triple_bind; [by apply tr_ea|]. intros addr. cbv beta. unfold scalar_mem_size. destruct (_ || _); tr_norm.
    eapply (tr_load m m1 _ addr _ _ r (fun t => k (TempV t))); [exact Er|known| | |by intros].
    + intros t s -> Hcpu Hmem. by apply HE.
    + intros t v ->. eapply at_weaken; [| |by apply Hk]; [known|sub_env].
Qed.

(** The same, with the value found out on the way. *)
Lemma tr_operand {B} m env i (k : Val -> L B) Q (E : StepResult -> mach -> Prop) : mem_wf m -> (forall v, grows (k v)) ->
  (forall x m' s, operand_value m i = Some (Err x, m') -> m_cpu s = set_rip c cur -> m_mem s = m' -> E (SExit x) s) ->
  (forall v z m', operand_value m i = Some (Ok z, m') -> in_width 64 z -> mem_wf m' -> trip (at_ c m' ((v, z) :: env)) (k v) Q E) ->
  trip (at_ c m env) (lower_read insn i ≫= k) Q E.
Proof.
  intros Hm Hg HE Hk.
  assert (Hsome : forall res m', operand_value m i = Some (res, m') -> res_ok (in_width 64) res -> mem_wf m' ->
            trip (at_ c m env) (lower_read insn i ≫= k) Q E).
  { intros res m' Hv Hr Hm'. eapply tr_lower_read; [exact Hv| | |done].
    - intros x s ->. by apply HE.
    - intros v z ->. by apply Hk. }
  destruct (operand_value m i) as [[res m']|] eqn:Hv.
  - unfold operand_value in Hv. destruct (op_kind insn i) eqn:Ek.
    2: { destruct (decide (valid_elem (operand_size insn i))) as [Hs|Hs].
         - destruct (read_ok m (ea_linear insn c) (operand_size insn i) Hs Hm) as (r & m1 & Er & Hm1 & Hr). rewrite Er in Hv. injection Hv as <- <-.
           eapply Hsome; [done|by destruct r|done].
         - unfold lower_read. rewrite Ek. cbv zeta. tr_norm. eapply triple_bind; [by apply tr_ea|]. intros addr. cbv beta. unfold scalar_mem_size.
           destruct (_ || _) eqn:Es; [|tr_norm]. destruct Hs. unfold valid_elem. rewrite !orb_true_iff, !Z.eqb_eq in Es. tauto. }
    1: destruct (high_byte_parent _) as [p|]; [|destruct (iced_to_reg _) as [g|]; [|discriminate]].
    all: injection Hv as <- <-; eapply Hsome; [done| |done].
    all: try apply iced_imm.
    + apply land_width; [done|apply Z.shiftr_nonneg, (read_reg_range c p Hc)|done].
    + by apply read_reg_range.
  - unfold operand_value in Hv. unfold lower_read. destruct (op_kind insn i) eqn:Ek; try discriminate Hv.
    + destruct (high_byte_parent _); [discriminate|]. destruct (iced_to_reg _); [discriminate|]. cbn [or_unsupported]. tr_norm.
    + tr_norm. eapply triple_bind; [by apply tr_ea|]. intros addr. cbv beta. unfold scalar_mem_size.
      destruct (_ || _) eqn:Es; [|tr_norm]. rewrite !orb_true_iff, !Z.eqb_eq in Es.
      destruct (read_ok m (ea_linear insn c) (operand_size insn i) ltac:(unfold valid_elem; tauto) Hm) as (r & m1 & Er & _). by rewrite Er in Hv.
Qed.
End Operands.

(** ** Two-operand arithmetic *)

(** [add], [adc], [sub], [sbb], [and], [or], [xor], [cmp] and [test]: the ALU op and
    whether the result is written. *)
Definition alu_form (m : Mnemonic.t) : option (BinOp.t * bool) :=
  match m with
  | Mnemonic.Add => Some (BinOp.Add, true)
  | Mnemonic.Adc => Some (BinOp.Adc, true)
  | Mnemonic.Sub => Some (BinOp.Sub, true)
  | Mnemonic.Sbb => Some (BinOp.Sbb, true)
  | Mnemonic.And => Some (BinOp.And, true)
  | Mnemonic.Or => Some (BinOp.Or, true)
  | Mnemonic.Xor => Some (BinOp.Xor, true)
  | Mnemonic.Cmp => Some (BinOp.Sub, false)
  | Mnemonic.Test => Some (BinOp.And, false)
  | _ => None
  end.

Section Alu.
Context `{LM : Libm} (ir : IrBlock) (cur : Z) `{IcedLaws} (insn : Instruction) (c : CpuState).
Local Notation trip := (triple ir cur).

(** The machine with [z] in operand 0, whose registers are those of [c1]. *)
Definition write_operand (c1 : CpuState) (m : Memory) (z : Z) : option (option StepResult * CpuState * Memory) :=
  let size := operand_size insn 0 in
  match op_kind insn 0 with
  | OpKind.Memory =>
      let a := ea_linear insn c in
      '(r, m) ← write m a z size;
      match r with
      | Ok _ => Some (None, c1, m)
      | Err t => Some (Some (SExit (trap_exit t a size Write z)), set_rip c1 cur, m)
      end
  | _ =>
      c2 ← match high_byte_parent (op_register insn 0) with
           | Some p =>
               write_reg c1 p (Z.lor (Z.land (Interp.read_reg c1 p) (unot 64 0xff00)) (wrap 64 (Z.land z 0xff * 2 ^ 8))) 8
           | None => g ← iced_to_reg (op_register insn 0); write_reg c1 g z size
           end;
      Some (None, c2, m)
  end.

(** Operand 0, operand 1, the ALU with its flags, operand 0. *)
Definition alu_spec (op : BinOp.t) (write_back : bool) (m : Memory) : option (option StepResult * CpuState * Memory) :=
  '(ra, m) ← operand_value insn c m 0;
  match ra with
  | Err x => Some (Some (SExit x), set_rip c cur, m)
  | Ok a =>
      '(rb, m) ← operand_value insn c m 1;
      match rb with
      | Err x => Some (Some (SExit x), set_rip c cur, m)
      | Ok b =>
          r ← alu_of op c a b (operand_size insn 0);
          let c1 := set_flags c (apply_flags (flags c) FM_ALL r) in
          if write_back then write_operand c1 m (r_res r) else Some (None, c1, m)
      end
  end.

Lemma tr_write_operand c1 m env v z E : cpu_wf c1 -> in_width 64 z -> knows env v z -> op_kind insn 0 <> OpKind.Memory ->
  trip (at_ c1 m env) (dst ← lower_write_target insn 0; emit_write dst v)
    (fun _ _ s => write_operand c1 m z = Some (None, m_cpu s, m_mem s)) E.
Proof.
  intros Hc1 Hz Hv Hk. unfold lower_write_target, write_operand. destruct (op_kind insn 0) eqn:Ek; try done; tr_norm. cbv zeta.
  assert (Hput : forall env g v z size, valid_elem size -> in_width 64 z -> knows env v z -> trip (at_ c1 m env) (push (WriteReg g v size))
            (fun _ _ s => write_reg c1 g z size = Some (m_cpu s) /\ m_mem s = m) E).
  { clear - Hc1. intros env g v z size Hs Hz Hv. destruct (write_reg_ok c1 g z size Hc1 Hs Hz) as (c2 & E2 & _).
    eapply triple_conseq; [by apply (tr_write_reg ir cur c1 m E env g v z size c2)|done| |done]. intros u tg s [Hcpu Hmem _]. by rewrite Hcpu. }
  destruct (high_byte_parent (op_register insn 0)) as [p|] eqn:Eh.
  - tr_norm. cbn [emit_write]. pose proof (read_reg_range c1 p Hc1) as Hp.
    assert (Hcl : in_width 64 (Z.land (Interp.read_reg c1 p) (unot 64 0xff00))) by (apply land_width; [done|apply Hp|done]).
    assert (Hby : in_width 64 (Z.land z 0xff)) by (apply land_width; [done|apply Hz|done]).
    assert (Hor : in_width 64 (Z.lor (Z.land (Interp.read_reg c1 p) (unot 64 0xff00)) (wrap 64 (Z.land z 0xff * 2 ^ 8)))).
    { apply in_width_lor; [lia|done|]. by apply wrap_range. }
    tr_step tr_read_reg. tr_step tr_and; [known|known|done|]. tr_step tr_and; [known|known|done|]. tr_step tr_shl; [known|lia|].
    tr_step tr_or; [known|known|done|].
    eapply triple_conseq; [eapply Hput; [|exact Hor|known]; unfold valid_elem; lia|done| |done]. intros u tg s [-> ->]. done.
  - destruct (iced_to_reg _) as [g|] eqn:Eg; cbn [or_unsupported]; tr_norm. cbn [emit_write].
    eapply triple_conseq; [eapply Hput; [by eapply iced_to_reg_size|exact Hz|known]|done| |done]. intros u tg s [E1 ->]. cbn. by rewrite E1.
Qed.

Definition has_alu (op : BinOp.t) : bool :=
  match op with
  | BinOp.Add | BinOp.Adc | BinOp.Sub | BinOp.Sbb | BinOp.And | BinOp.Or | BinOp.Xor => true
  | _ => false
  end.
Lemma alu_total op c1 x y size : has_alu op = true -> valid_elem size -> exists r, alu_of op c1 x y size = Some r /\ in_width 64 (r_res r).
Proof.
  intros Ho Hs. destruct op; try discriminate Ho; eexists; (split; [reflexivity|]);
    first [by apply alu_add_range|by apply alu_sub_range|by apply alu_logic_range].
Qed.

Hypothesis (Hc : cpu_wf c) (Hpend : pending_mmio c = None) (Hpw : pending_mmio_write c = false) (H16 : code_size insn <> Code16).
Hypothesis (Hlock : has_lock_prefix insn = false) (Hsize : valid_elem (operand_size insn 0)).

(** How the run of an instruction ends: as [spec] says. *)
Definition ends_as (spec : option (option StepResult * CpuState * Memory)) (r : option StepResult) (s : mach) : Prop :=
  spec = Some (r, m_cpu s, m_mem s).

Lemma tr_lift_binop op wb m : has_alu op = true -> mem_wf m ->
  trip (at_ c m []) (lift_binop insn op FM_ALL wb) (fun _ _ => ends_as (alu_spec op wb m) None) (fun r => ends_as (alu_spec op wb m) (Some r)).
Proof.
  intros Hop Hm. unfold lift_binop. rewrite Hlock, andb_false_r.
  assert (Ho : operation_size insn = operand_size insn 0).
  { unfold operation_size. destruct (Z.eqb_spec (operand_size insn 0) 0) as [E0|]; [|done]. unfold valid_elem in Hsize. lia. }
  rewrite Ho. cbv zeta. unfold ends_as, alu_spec. case_decide as Ek.
  - eapply triple_bind; [by apply tr_ea|]. intros addr. cbv beta.
    assert (Hv : operand_value insn c m 0 = '(r, m) ← read m (ea_linear insn c) (operand_size insn 0);
              Some (match r with Ok v => Ok v | Err t => Err (trap_exit t (ea_linear insn c) (operand_size insn 0) Read 0) end, m)).
    { unfold operand_value. by rewrite Ek. }
    destruct (read_ok m (ea_linear insn c) (operand_size insn 0) Hsize Hm) as (ra & m1 & Er & Hm1 & _). rewrite Er in Hv.
    cbn [mbind option_bind] in Hv. rewrite Hv. clear Hv. cbn [mbind option_bind].
    eapply tr_load; [done|exact Er|known| | |intros; grow].
    { intros t s -> -> ->. done. }
    intros t a ->. eapply tr_operand; [done..|exact Hm1|intros; grow| |].
    { intros x m2 s -> -> ->. done. }
    intros vb b m2 -> Hb Hm2. cbn [mbind option_bind]. destruct (alu_total op c a b _ Hop Hsize) as (r & Hr & Hrr). rewrite Hr.
    eapply tr_binop; [exact Hr|known|known|]. intros res. cbn [mbind option_bind]. destruct wb.
    + unfold write_operand. rewrite Ek. cbv zeta.
      destruct (write_ok m2 (ea_linear insn c) (r_res r) (operand_size insn 0) Hsize Hm2) as (rw & m3 & Ew & _). rewrite Ew. cbn [mbind option_bind].
      eapply triple_conseq; [|intros tg s Hs; exact Hs| |intros x s Hx; exact Hx]; [eapply tr_store; [known|known|exact Ew|done|]|].
      * intros x s -> -> ->. done.
      * intros u tg s. destruct rw; [|done]. by intros [-> -> _].
    + apply triple_ret. by intros tg s [-> -> _].
  - eapply tr_operand; [done..|exact Hm|intros; grow| |].
    { intros x m1 s -> -> ->. done. }
    intros va a m1 -> Ha Hm1. cbn [mbind option_bind]. eapply tr_operand; [done..|exact Hm1|intros; grow| |].
    { intros x m2 s -> -> ->. done. }
    intros vb b m2 -> Hb Hm2. cbn [mbind option_bind]. destruct (alu_total op c a b _ Hop Hsize) as (r & Hr & Hrr). rewrite Hr.
    eapply tr_binop; [exact Hr|known|known|]. intros res. cbn [mbind option_bind]. destruct wb.
    + apply tr_write_operand; [|done|known|done]. auto with safe.
    + apply triple_ret. by intros tg s [-> -> _].
Qed.

(** ** Conditional moves *)

(** Both operands are read; the one the condition selects is written. *)
Definition cmov_spec (cond : Cond) (m : Memory) : option (option StepResult * CpuState * Memory) :=
  '(rs, m) ← operand_value insn c m 1;
  match rs with
  | Err x => Some (Some (SExit x), set_rip c cur, m)
  | Ok src =>
      '(rd, m) ← operand_value insn c m 0;
      match rd with
      | Err x => Some (Some (SExit x), set_rip c cur, m)
      | Ok dst => write_operand c m (if eval_cond cond (flags c) then src else dst)
      end
  end.

(** [dst ^ ((dst ^ src) & -cond)] *)
Lemma select_value (b : bool) d s : in_width 64 d -> in_width 64 s ->
  Z.lxor d (Z.land (Z.lxor d s) (wrap 64 (0 - b2z b))) = if b then s else d.
Proof.
  intros Hd Hs. destruct b; [|change (wrap 64 (0 - b2z false)) with 0; by rewrite Z.land_0_r, Z.lxor_0_r].
  change (wrap 64 (0 - b2z true)) with (Z.ones 64). rewrite wrap_ones, wrap_small by (lia || by apply in_width_lxor).
  by rewrite <- Z.lxor_assoc, Z.lxor_nilpotent, Z.lxor_0_l.
Qed.

Lemma tr_lift_cmovcc cond m : mem_wf m -> op_kind insn 0 <> OpKind.Memory ->
  trip (at_ c m []) (lift_cmovcc insn cond) (fun _ _ => ends_as (cmov_spec cond m) None) (fun r => ends_as (cmov_spec cond m) (Some r)).
Proof.
  intros Hm Hk. unfold lift_cmovcc, ends_as, cmov_spec. eapply tr_operand; [done..|exact Hm|intros; grow| |].
  { intros x m1 s -> -> ->. done. }
  intros vs src m1 -> Hsrc Hm1. cbn [mbind option_bind]. eapply tr_operand; [done..|exact Hm1|intros; grow| |].
  { intros x m2 s -> -> ->. done. }
  intros vd dst m2 -> Hdst Hm2. cbn [mbind option_bind].
  eapply tr_named; [apply tr_cond|]. intros tc. cbv beta. eapply tr_named; [apply tr_sub; known|]. intros tm. cbv beta.
  eapply tr_named; [apply tr_xor; [known|known|]|]. { by apply in_width_lxor. }
  intros td. cbv beta. eapply tr_named; [apply tr_and; [known|known|]|]. { apply in_width_land; [lia|by apply in_width_lxor|by apply wrap_nonneg]. }
  intros ts. cbv beta. eapply tr_named; [apply tr_xor; [known|known|]|]. { rewrite select_value by done. by destruct (eval_cond _ _). }
  intros tr. cbv beta. rewrite select_value by done. apply tr_write_operand; [done|by destruct (eval_cond _ _)|known|done].
Qed.

(** ** The stack *)

(** 64-bit [push]: the operand, then the store below the stack pointer; RSP moves only when
    the store is done. *)
Definition push_spec (m : Memory) : option (option StepResult * CpuState * Memory) :=
  let size := push_pop_size insn Long64 in
  '(rv, m) ← operand_value insn c m 0;
  match rv with
  | Err x => Some (Some (SExit x), set_rip c cur, m)
  | Ok v =>
      let sp := wrap 64 (Interp.read_reg c Rsp - size) in
      '(rw, m) ← write m sp v size;
      match rw with
      | Err t => Some (Some (SExit (trap_exit t sp size Write v)), set_rip c cur, m)
      | Ok _ => c1 ← write_reg c Rsp sp 8; Some (None, c1, m)
      end
  end.
(** 64-bit [pop] to a register: the load, RSP, then the register. *)
Definition pop_spec (m : Memory) : option (option StepResult * CpuState * Memory) :=
  let size := push_pop_size insn Long64 in
  let sp := Interp.read_reg c Rsp in
  '(rv, m) ← read m sp size;
  match rv with
  | Err t => Some (Some (SExit (trap_exit t sp size Read 0)), set_rip c cur, m)
  | Ok v => c1 ← write_reg c Rsp (wrap 64 (sp + size)) 8; write_operand c1 m v
  end.

Lemma tr_lift_push m : mem_wf m -> sreg_operand insn 0 = None ->
  trip (at_ c m []) (lift_push insn Long64) (fun _ _ => ends_as (push_spec m) None) (fun r => ends_as (push_spec m) (Some r)).
Proof.
  intros Hm Hseg. unfold lift_push, ends_as, push_spec. rewrite Hseg. cbv zeta.
  pose proof (push_pop_size_ok insn Long64 (or_intror Hsize)) as Hps. set (size := push_pop_size insn Long64) in *.
  eapply tr_operand; [done..|exact Hm|intros; grow| |].
  { intros x m1 s -> -> ->. done. }
  intros v z m1 -> Hz Hm1. cbn [mbind option_bind]. tr_step tr_read_reg. eapply tr_named; [apply tr_sub; known|]. intros tsp. cbv beta.
  cbn [emit_sp_wrap stack_addr wraps_16 negb]. tr_norm.
  destruct (write_ok m1 (wrap 64 (Interp.read_reg c Rsp - size)) z size Hps Hm1) as (rw & m2 & Ew & _). rewrite Ew. cbn [mbind option_bind].
  destruct (write_reg_ok c Rsp (wrap 64 (Interp.read_reg c Rsp - size)) 8 Hc ltac:(unfold valid_elem; lia) (wrap_range 64 _ ltac:(lia))) as (c1 & Ec & _).
  rewrite Ec. cbn [mbind option_bind].
  eapply triple_bind; [eapply tr_store; [known|known|exact Ew|done|]|].
  { intros x s -> -> ->. done. }
  intros []. destruct rw as [u|x]; [|apply triple_false; grow].
  eapply triple_conseq; [|intros tg s Hs; exact Hs| |intros x s Hx; exact Hx]; [eapply tr_write_reg; [known|exact Ec]|].
  by intros u' tg s [-> -> _].
Qed.

(** The target of a register operand needs no ops. *)
Lemma target_static : op_kind insn 0 = OpKind.Register ->
  (exists w, lower_write_target insn 0 = mret w /\ match w with WTMem _ _ => False | _ => True end) \/ lower_write_target insn 0 = unsupported insn.
Proof.
  intros Hk. unfold lower_write_target. rewrite Hk. cbv zeta. destruct (high_byte_parent _); [left; by eexists|].
  destruct (iced_to_reg _); [left; by eexists|by right].
Qed.

Lemma tr_lift_pop m : mem_wf m -> sreg_operand insn 0 = None -> op_kind insn 0 = OpKind.Register ->
  trip (at_ c m []) (lift_pop insn Long64) (fun _ _ => ends_as (pop_spec m) None) (fun r => ends_as (pop_spec m) (Some r)).
Proof.
  intros Hm Hseg Hk. unfold lift_pop, ends_as, pop_spec. rewrite Hseg. cbv zeta.
  pose proof (push_pop_size_ok insn Long64 (or_intror Hsize)) as Hps. set (size := push_pop_size insn Long64) in *.
  cbn [stack_addr wraps_16 negb]. tr_step tr_read_reg.
  destruct (read_ok m (Interp.read_reg c Rsp) size Hps Hm) as (rr & m1 & Er & Hm1 & Hrr). rewrite Er. cbn [mbind option_bind].
  eapply tr_load; [done|exact Er|known| | |intros; grow].
  { intros x s -> -> ->. done. }
  intros t v ->. eapply tr_named; [apply tr_add; known|]. intros tn. cbv beta. cbn [res_ok] in Hrr.
  destruct (write_reg_ok c Rsp (wrap 64 (Interp.read_reg c Rsp + size)) 8 Hc ltac:(unfold valid_elem; lia) (wrap_range 64 _ ltac:(lia))) as (c1 & Ec & Hc1).
  rewrite Ec. cbn [mbind option_bind]. tr_norm.
  destruct target_static as [(w & Hw & Hnm)|Hw]; [exact Hk| |rewrite Hw; tr_norm].
  rewrite Hw. tr_norm.
  assert (Hrun : forall env, knows env (TempV t) v -> trip (at_ c1 m1 env) (emit_write w (TempV t))
            (fun _ _ s => write_operand c1 m1 v = Some (None, m_cpu s, m_mem s)) (fun r s => write_operand c1 m1 v = Some (Some r, m_cpu s, m_mem s))).
  { intros env Hv. pose proof (tr_write_operand c1 m1 env (TempV t) v (fun r s => write_operand c1 m1 v = Some (Some r, m_cpu s, m_mem s)) Hc1 Hrr Hv
      ltac:(by rewrite Hk)) as T'. rewrite Hw in T'. exact T'. }
  assert (Hgo : forall env, knows env (TempV t) v -> knows env (TempV tn) (wrap 64 (Interp.read_reg c Rsp + size)) ->
            trip (at_ c m1 env) (push (WriteReg Rsp (TempV tn) 8);; emit_write w (TempV t))
            (fun _ _ s => write_operand c1 m1 v = Some (None, m_cpu s, m_mem s)) (fun r s => write_operand c1 m1 v = Some (Some r, m_cpu s, m_mem s))).
  { intros env Hv Hn. eapply triple_bind; [by apply (tr_write_reg ir cur c m1 _ env Rsp _ _ _ _ Hn Ec)|]. intros []. by apply Hrun. }
  destruct w; [|done|]; apply Hgo; known.
Qed.
End Alu.
