(* ===== verification/LowerExact.v ===== *)
(** * Lowered instructions are exact

    The theorems on single instructions: the address an operand names, the two-operand
    arithmetic, the conditional moves, and [push] followed by [pop]. *)

From S2P Require Import Prelude Features State Ir Alu Memory PageTrack Interp IntegerSpec StringOps Control HostFloat F80 F80Trans X87 X87Arm VecOps VecAtomic VecOp Block Frame Walk Lift Elide Insn LiftInt LiftCtl LiftVec LiftInsn InsnSpec LowerInt LowerSem LowerAlu LowerSpec Sample.

(** ** From triples to runs *)

Section Runs.
Context `{LM : Libm} (ir : IrBlock) (cur : Z).

Lemma triple_run {A} (x : L A) P Q E ops tg a ops' tg' s : triple ir cur P x Q E -> x ops tg = Some (Ok (a, ops', tg')) ->
  P tg s -> (tg' <= length (m_temps s))%nat ->
  exists new r s', ops' = ops ++ new /\ run_ops ir cur new s = Some (r, s') /\ length (m_temps s') = length (m_temps s) /\
    match r with None => Q a tg' s' | Some r => E r s' end.
Proof.
  intros Ht Hx Hs Hl. specialize (Ht ops tg). rewrite Hx in Ht. destruct Ht as (_ & new & -> & Ht).
  destruct (Ht s Hs Hl) as (r & s' & ?). by exists new, r, s'.
Qed.

Lemma at_start s tg : at_ (m_cpu s) (m_mem s) [] tg s.
Proof. by split. Qed.

(** An instruction that does not end the block. *)
Lemma more_run (x : L unit) spec ops tg t ops' tg' s :
  triple ir cur (at_ (m_cpu s) (m_mem s) []) x (fun _ _ => ends_as spec None) (fun r => ends_as spec (Some r)) ->
  more x ops tg = Some (Ok (t, ops', tg')) -> (tg' <= length (m_temps s))%nat ->
  t = false /\ exists new r s', ops' = ops ++ new /\ run_ops ir cur new s = Some (r, s') /\ length (m_temps s') = length (m_temps s) /\
    spec = Some (r, m_cpu s', m_mem s').
Proof.
  intros Ht Hx Hl. unfold more, mbind, L_bind in Hx. destruct (x ops tg) as [[[[u ops1] tg1]|e]|] eqn:Ex; [|discriminate..].
  injection Hx as <- <- <-. split; [done|]. destruct (triple_run _ _ _ _ _ _ _ _ _ _ Ht Ex (at_start s tg) Hl) as (new & r & s' & -> & Hr & Hlen & HQ).
  exists new, r, s'. split; [done|]. split; [done|]. split; [done|]. by destruct r.
Qed.
End Runs.

(** ** Dispatch *)

Section FirstArm.
Context `{InsnView}.
Lemma first_arm_skip arm l insn mode : arm insn mode = None -> first_arm (arm :: l) insn mode = first_arm l insn mode.
Proof. cbn [first_arm]. by intros ->. Qed.
Lemma first_arm_take arm l insn mode x : arm insn mode = Some x -> first_arm (arm :: l) insn mode = x.
Proof. cbn [first_arm]. by intros ->. Qed.
End FirstArm.
Ltac skip_arm Em :=
  rewrite first_arm_skip by (cbv delta [lift_int_arms lift_sys_arms lift_sse_arms lift_crypto_arms lift_avx_arms lift_packed_arms
    lift_packed_avx_arms lift_wide_arms lift_perm_arms lift_float_arms lift_hfloat_arms lift_fma_arms lift_flow_arms lift_trap_arms
    lift_real16_arms] beta; rewrite Em; reflexivity).


Section Forms.
Context `{InsnView}.
Lemma lower_alu insn mode op wb : alu_form (mnemonic insn) = Some (op, wb) -> lower_insn insn mode = more (lift_binop insn op FM_ALL wb).
Proof.
  unfold lower_insn, insn_arms. cbn [first_arm]. unfold lift_int_arms, alu_form.
  destruct (mnemonic insn); try discriminate; by intros [= <- <-].
Qed.

Lemma lower_cmov insn mode cond : cmovcc_cond (mnemonic insn) = Some cond -> lower_insn insn mode = more (lift_cmovcc insn cond).
Proof.
  intros Hc. unfold lower_insn, insn_arms.
  assert (Hj : jcc_cond (mnemonic insn) = None /\ setcc_cond (mnemonic insn) = None).
  { revert Hc. by destruct (mnemonic insn). }
  transitivity (first_arm [] insn mode); [|cbn [first_arm]; unfold lift_cond; by rewrite (proj1 Hj), (proj2 Hj), Hc].
  clear Hj. destruct (mnemonic insn) eqn:Em; try discriminate Hc; do 15 skip_arm Em; reflexivity.
Qed.
Lemma lower_push insn mode : mnemonic insn = Mnemonic.Push -> lower_insn insn mode = more (lift_push insn mode).
Proof. intros Em. unfold lower_insn, insn_arms. do 12 skip_arm Em. apply first_arm_take. unfold lift_flow_arms. by rewrite Em. Qed.
Lemma lower_pop insn mode : mnemonic insn = Mnemonic.Pop -> lower_insn insn mode = more (lift_pop insn mode).
Proof. intros Em. unfold lower_insn, insn_arms. do 12 skip_arm Em. apply first_arm_take. unfold lift_flow_arms. by rewrite Em. Qed.
End Forms.

(** ** The stack *)

Lemma put_put_gpr c i x y : put_gpr (put_gpr c i x) i y = put_gpr c i y.
Proof. unfold put_gpr. destruct c. cbn. by rewrite list_insert_insert_eq. Qed.
Lemma put_get_gpr c i : length (gpr c) = 16%nat -> (i < 16)%nat -> put_gpr c i (get_gpr c i) = c.
Proof.
  intros Hl Hi. unfold put_gpr, get_gpr. destruct (lookup_lt_is_Some_2 (gpr c) i ltac:(lia)) as [x Hx].
  rewrite (nth_lookup_Some _ _ 0 _ Hx), (list_insert_id _ _ _ Hx). by destruct c.
Qed.

(** The slot written by a push is what the next pop reads. *)
Lemma pushed_slot m a v : mem_wf m -> in_width 64 v -> v_kind (view m) a 8 = Some Ram ->
  exists m1 m2, write m a v 8 = Some (Ok tt, m1) /\ mem_wf m1 /\ read m1 a 8 = Some (Ok v, m2).
Proof.
  intros Hm Hv Hk. assert (H8 : valid_elem 8) by (unfold valid_elem; lia).
  destruct (write_refines m a v 8 Hm H8) as (m1 & Ew & Hm1 & Hs1). unfold g_write in Ew, Hs1. rewrite Hk in Ew, Hs1. cbn [fst snd] in Ew, Hs1.
  destruct (read_refines m1 a 8 Hm1 H8) as (m2 & Er & _). exists m1, m2. split; [done|]. split; [done|]. rewrite Er. f_equal. f_equal.
  rewrite Hs1. unfold g_read. cbn [v_put v_store v_kind]. rewrite Hk. rewrite v_le_put_same. f_equal. by apply wrap_small.
Qed.

Section StackForms.
Context `{IcedLaws} (insn : Instruction) (cur : Z) (r : Reg) (c : CpuState) (m : Memory).
Hypothesis (Hk : op_kind insn 0 = OpKind.Register) (Hs : operand_size insn 0 = 8) (Hh : high_byte_parent (op_register insn 0) = None).
Hypothesis (Hr : iced_to_reg (op_register insn 0) = Some r).

Lemma push_reg_spec m1 : let sp := wrap 64 (Interp.read_reg c Rsp - 8) in
  write m sp (Interp.read_reg c r) 8 = Some (Ok tt, m1) -> push_spec cur insn c m = Some (None, put_gpr c 4 sp, m1).
Proof.
  intros sp Hw. unfold push_spec, push_pop_size, operand_value. rewrite Hk, Hh, Hr, Hs. cbn [Z.eqb negb mbind option_bind].
  fold sp. by rewrite Hw.
Qed.
Lemma pop_reg_spec m1 v c1 : read m (Interp.read_reg c Rsp) 8 = Some (Ok v, m1) ->
  write_reg (put_gpr c 4 (wrap 64 (Interp.read_reg c Rsp + 8))) r v 8 = Some c1 -> pop_spec cur insn c m = Some (None, c1, m1).
Proof.
  intros Hrd Hw. unfold pop_spec, push_pop_size, write_operand. rewrite Hk, Hh, Hr, Hs. cbn [Z.eqb negb]. rewrite Hrd.
  cbn [mbind option_bind]. change (write_reg c Rsp (wrap 64 (Interp.read_reg c Rsp + 8)) 8) with (Some (put_gpr c 4 (wrap 64 (Interp.read_reg c Rsp + 8)))).
  cbn [mbind option_bind]. by rewrite Hw.
Qed.
End StackForms.

(** ** Theorems *)

(** No half-done device access. *)
Record quiet_mach (s : mach) : Prop := {
  q_cpu : cpu_wf (m_cpu s);
  q_mem : mem_wf (m_mem s);
  q_read : pending_mmio (m_cpu s) = None;
  q_write : pending_mmio_write (m_cpu s) = false;
}.

(** C14: the ops of an effective address compute the address the instruction names and
    nothing else: outside 16-bit code they run without leaving the block, leave the CPU and
    the memory as they are, and the operand they return holds base plus scaled index plus
    displacement, reduced to the address size, plus the FS or GS base. *)
Theorem effective_address_exact `{LM : Libm} (ir : IrBlock) (cur : Z) `{IcedLaws} (insn : Instruction) (s : mach) (ops : list IrOp)
    (tg : nat) (v : Val) (ops' : list IrOp) (tg' : nat) :
  cpu_wf (m_cpu s) -> code_size insn <> Code16 -> effective_address insn ops tg = Some (Ok (v, ops', tg')) -> (tg' <= length (m_temps s))%nat ->
  exists new s', ops' = ops ++ new /\ run_ops ir cur new s = Some (None, s') /\ m_cpu s' = m_cpu s /\ m_mem s' = m_mem s /\
    val_of s' v = Some (ea_linear insn (m_cpu s)).
Proof.
  intros Hc H16 Hx Hl.
  pose proof (tr_ea ir cur insn (m_cpu s) Hc (m_mem s) (fun _ _ => False) [] H16) as Ht.
  destruct (triple_run ir cur _ _ _ _ _ _ _ _ _ s Ht Hx (at_start s tg) Hl) as (new & [r|] & s' & -> & Hr & _ & HQ); [done|].
  exists new, s'. split; [done|]. split; [done|]. destruct HQ as [Hcpu Hmem He]. split; [done|]. split; [done|].
  by apply list.Forall_cons in He as [[_ Hv] _].
Qed.

(** C2: the two-operand arithmetic is exact.  Outside 16-bit code, without a [lock] prefix
    and with no device access half done, an [add], [adc], [sub], [sbb], [and], [or], [xor], [cmp] or [test] that is
    lowered runs as the instruction does: operand 0 and operand 1 are read (a register, a
    high byte, an immediate or memory), the flags and the result are those of the ALU on
    them, and the result goes to operand 0 at its width; a load that faults leaves the
    block with the machine unchanged but for RIP, which is on the instruction. *)
Theorem alu_instruction_exact `{LM : Libm} (ir : IrBlock) (cur : Z) `{IcedLaws} (insn : Instruction) (mode : CpuMode) (op : BinOp.t)
    (wb : bool) (s : mach) (ops : list IrOp) (tg : nat) (t : bool) (ops' : list IrOp) (tg' : nat) :
  alu_form (mnemonic insn) = Some (op, wb) -> code_size insn <> Code16 -> has_lock_prefix insn = false -> quiet_mach s ->
  lower_insn insn mode ops tg = Some (Ok (t, ops', tg')) -> (tg' <= length (m_temps s))%nat ->
  t = false /\ exists new r s', ops' = ops ++ new /\ run_ops ir cur new s = Some (r, s') /\
    alu_spec cur insn (m_cpu s) op wb (m_mem s) = Some (r, m_cpu s', m_mem s').
Proof.
  intros Hf H16 Hlock [Hc Hm Hr Hw] Hx Hl. rewrite (lower_alu insn mode op wb Hf) in Hx.
  assert (Hs : sized0 (mnemonic insn) = true /\ has_alu op = true) by (by destruct (mnemonic insn); try discriminate Hf; injection Hf as <- <-).
  destruct Hs as [Hs Ho].
  pose proof (tr_lift_binop ir cur insn (m_cpu s) Hc Hr Hw H16 Hlock (iced_sized0 insn Hs) op wb (m_mem s) Ho Hm) as Ht.
  destruct (more_run ir cur _ _ _ _ _ _ _ s Ht Hx Hl) as [-> (new & r & s' & -> & Hrun & _ & Hspec)]. split; [done|]. by exists new, r, s'.
Qed.

(** C16: a conditional move is exact.  Outside 16-bit code and with no device access half
    done, both operands are read, so that a memory source faults whatever the condition, and
    the source or the old value is written at the operand's width; the condition of each
    mnemonic is the lifter's table. *)
Theorem conditional_move_exact `{LM : Libm} (ir : IrBlock) (cur : Z) `{IcedLaws} (insn : Instruction) (mode : CpuMode) (cond : Cond)
    (s : mach) (ops : list IrOp) (tg : nat) (t : bool) (ops' : list IrOp) (tg' : nat) :
  cmovcc_cond (mnemonic insn) = Some cond -> code_size insn <> Code16 -> op_kind insn 0 <> OpKind.Memory -> quiet_mach s ->
  lower_insn insn mode ops tg = Some (Ok (t, ops', tg')) -> (tg' <= length (m_temps s))%nat ->
  t = false /\ exists new r s', ops' = ops ++ new /\ run_ops ir cur new s = Some (r, s') /\
    cmov_spec cur insn (m_cpu s) cond (m_mem s) = Some (r, m_cpu s', m_mem s').
Proof.
  intros Hf H16 Hk [Hc Hm Hr Hw] Hx Hl. rewrite (lower_cmov insn mode cond Hf) in Hx.
  pose proof (tr_lift_cmovcc ir cur insn (m_cpu s) Hc Hr H16 cond (m_mem s) Hm Hk) as Ht.
  destruct (more_run ir cur _ _ _ _ _ _ _ s Ht Hx Hl) as [-> (new & r & s' & -> & Hrun & _ & Hspec)]. split; [done|]. by exists new, r, s'.
Qed.

(** C15: the stack round trip.  In 64-bit code the ops of [push h] followed by the ops of
    [pop g], for general registers and a slot in RAM, neither fault
    nor panic, and leave the CPU with [g] holding what [h] held (RSP too, when it is [g])
    and everything else, RSP and the flags included, as it was. *)
Theorem stack_round_trip `{LM : Libm} (ir : IrBlock) (cur cur2 : Z) `{IcedLaws} (ipush ipop : Instruction) (h g : Reg) (s : mach)
    (ops ops1 ops2 : list IrOp) (tg tg1 tg2 : nat) (t1 t2 : bool) :
  mnemonic ipush = Mnemonic.Push -> mnemonic ipop = Mnemonic.Pop ->
  Forall (fun i => code_size i <> Code16 /\ op_kind i 0 = OpKind.Register /\ operand_size i 0 = 8 /\ sreg_operand i 0 = None /\
            high_byte_parent (op_register i 0) = None) [ipush; ipop] ->
  iced_to_reg (op_register ipush 0) = Some h -> iced_to_reg (op_register ipop 0) = Some g -> quiet_mach s ->
  v_kind (view (m_mem s)) (wrap 64 (Interp.read_reg (m_cpu s) Rsp - 8)) 8 = Some Ram ->
  lower_insn ipush Long64 ops tg = Some (Ok (t1, ops1, tg1)) -> lower_insn ipop Long64 ops1 tg1 = Some (Ok (t2, ops2, tg2)) ->
  (tg1 <= length (m_temps s))%nat -> (tg2 <= length (m_temps s))%nat ->
  exists new1 new2 s1 s2, ops2 = ops ++ new1 ++ new2 /\ run_ops ir cur new1 s = Some (None, s1) /\
    run_ops ir cur2 new2 s1 = Some (None, s2) /\ write_reg (m_cpu s) g (Interp.read_reg (m_cpu s) h) 8 = Some (m_cpu s2).
Proof.
  intros Em1 Em2 Hf Hh Hg [Hc Hm Hpr Hpw] Hram Hx1 Hx2 Hl1 Hl2.
  apply list.Forall_cons in Hf as [(Hp16 & Hpk & Hps & Hpseg & Hph) Hf]. apply list.Forall_cons in Hf as [(Hq16 & Hqk & Hqs & Hqseg & Hqh) _].
  rewrite (lower_push ipush Long64 Em1) in Hx1. rewrite (lower_pop ipop Long64 Em2) in Hx2.
  set (c := m_cpu s) in *. set (rsp := Interp.read_reg c Rsp) in *. set (v := Interp.read_reg c h) in *.
  assert (Hrsp : in_width 64 rsp) by (by apply read_reg_range). assert (Hv : in_width 64 v) by (by apply read_reg_range).
  assert (Hsp : in_width 64 (wrap 64 (rsp - 8))) by (by apply wrap_range). assert (H8 : valid_elem 8) by (unfold valid_elem; lia).
  destruct (pushed_slot (m_mem s) _ v Hm Hv Hram) as (m1 & m2 & Ew & Hm1 & Er).
  pose proof (push_reg_spec ipush cur h c (m_mem s) Hpk Hps Hph Hh m1 Ew) as Hpush.
  destruct (more_run ir cur _ _ _ _ _ _ _ s (tr_lift_push ir cur ipush c Hc Hpr Hpw Hp16 ltac:(by rewrite Hps) (m_mem s) Hm Hpseg) Hx1 Hl1)
    as [-> (new1 & r1 & s1 & -> & Hrun1 & Hlen1 & Hspec1)].
  rewrite Hpush in Hspec1. injection Hspec1 as <- Hc1 Hms1.
  set (c1 := put_gpr c 4 (wrap 64 (rsp - 8))) in *.
  assert (Hwf1 : cpu_wf c1) by (by apply gprs_insert_wf).
  assert (Hsp1 : Interp.read_reg c1 Rsp = wrap 64 (rsp - 8)).
  { change (get_gpr c1 4 = wrap 64 (rsp - 8)). unfold c1. rewrite get_put_gpr by (apply Hc || lia). done. }
  assert (Hback : put_gpr c1 4 (wrap 64 (Interp.read_reg c1 Rsp + 8)) = c).
  { rewrite Hsp1, wrap_add_l by lia. replace (rsp - 8 + 8) with rsp by lia. rewrite wrap_small by done. unfold c1. rewrite put_put_gpr.
    apply put_get_gpr; [apply Hc|lia]. }
  destruct (write_reg_ok c g v 8 Hc H8 Hv) as (c2 & Ec2 & _).
  assert (Hpop : pop_spec cur2 ipop c1 m1 = Some (None, c2, m2)).
  { apply (pop_reg_spec ipop cur2 g c1 m1 Hqk Hqs Hqh Hg m2 v c2); [by rewrite Hsp1|by rewrite Hback]. }
  assert (Ht : triple ir cur2 (at_ (m_cpu s1) (m_mem s1) []) (lift_pop ipop Long64) (fun _ _ => ends_as (pop_spec cur2 ipop c1 m1) None)
                 (fun r => ends_as (pop_spec cur2 ipop c1 m1) (Some r))).
  { rewrite <- Hc1, <- Hms1. apply tr_lift_pop; [done..|by rewrite Hqs|done|done|done]. }
  destruct (more_run ir cur2 _ _ _ _ _ _ _ s1 Ht Hx2 ltac:(by rewrite Hlen1)) as [-> (new2 & r2 & s2 & -> & Hrun2 & _ & Hspec2)].
  rewrite Hpop in Hspec2. injection Hspec2 as <- Hc2 _.
  exists new1, new2, s1, s2. rewrite app_assoc, <- Hc2. done.
Qed.

(** ** Examples *)

(** RAX 5, RBX 7, RSP 0x1000, on the example memory. *)
Definition ex_cpu : CpuState := put_gpr (put_gpr (put_gpr default_cpu 0 5) 3 7) 4 0x1000.
Definition ex_at : mach := mkMach ex_cpu ex_mem (replicate 8 0).
Definition ex_ir : IrBlock := mkBlock 0x100 [] 8 0 0.
Lemma ex_at_quiet : quiet_mach ex_at.
Proof. split; [|apply ex_mem_wf|done|done]. repeat (apply gprs_insert_wf; [|unfold in_width; lia]). apply default_cpu_wf. Qed.

Lemma effective_address_exact_witness : ea_linear (mkSample 0x100 SLoad) ex_cpu = 15 /\
  exists new s', [ReadReg 0 Rbx; ReadReg 1 Rcx; Shl 2 (TempV 1) (Imm 2) 8 0; Add 3 (TempV 0) (TempV 2) 8 0; Add 4 (TempV 3) (Imm 8) 8 0] = [] ++ new /\
    run_ops (LM := no_libm) ex_ir 0x100 new ex_at = Some (None, s') /\ m_cpu s' = ex_cpu /\ m_mem s' = ex_mem /\
    val_of s' (TempV 4) = Some (ea_linear (mkSample 0x100 SLoad) ex_cpu).
Proof.
  split; [vm_compute; reflexivity|].
  apply (effective_address_exact (LM := no_libm) (V := sample_view) ex_ir 0x100 (mkSample 0x100 SLoad) ex_at [] 0 (TempV 4) _ 5).
  - apply ex_at_quiet.
  - discriminate.
  - vm_compute. reflexivity.
  - cbn. lia.
Defined.

Lemma alu_instruction_exact_witness : false = false /\
  exists new r s', [ReadReg 0 Rax; ReadReg 1 Rbx; Add 2 (TempV 0) (TempV 1) 8 FM_ALL; WriteReg Rax (TempV 2) 8] = [] ++ new /\
    run_ops (LM := no_libm) ex_ir 0x100 new ex_at = Some (r, s') /\
    alu_spec 0x100 (mkSample 0x100 SAdd) ex_cpu BinOp.Add true ex_mem = Some (r, m_cpu s', m_mem s').
Proof.
  apply (alu_instruction_exact (LM := no_libm) (V := sample_view) ex_ir 0x100 (mkSample 0x100 SAdd) Long64 BinOp.Add true ex_at [] 0 false _ 3).
  - reflexivity.
  - discriminate.
  - reflexivity.
  - apply ex_at_quiet.
  - vm_compute. reflexivity.
  - cbn. lia.
Defined.

Lemma conditional_move_exact_witness : false = false /\
  exists new r s', [ReadReg 0 Rbx; ReadReg 1 Rax; GetCond 2 Eq; Sub 3 (Imm 0) (TempV 2) 8 0; Xor 4 (TempV 1) (TempV 0) 8 0;
      And 5 (TempV 4) (TempV 3) 8 0; Xor 6 (TempV 1) (TempV 5) 8 0; WriteReg Rax (TempV 6) 8] = [] ++ new /\
    run_ops (LM := no_libm) ex_ir 0x100 new ex_at = Some (r, s') /\
    cmov_spec 0x100 (mkSample 0x100 SCmove) ex_cpu Eq ex_mem = Some (r, m_cpu s', m_mem s').
Proof.
  apply (conditional_move_exact (LM := no_libm) (V := sample_view) ex_ir 0x100 (mkSample 0x100 SCmove) Long64 Eq ex_at [] 0 false _ 7).
  - reflexivity.
  - discriminate.
  - discriminate.
  - apply ex_at_quiet.
  - vm_compute. reflexivity.
  - cbn. lia.
Defined.

Lemma stack_round_trip_witness : exists new1 new2 s1 s2,
  [ReadReg 0 Rax; ReadReg 1 Rsp; Sub 2 (TempV 1) (Imm 8) 8 0; Store (TempV 2) (TempV 0) 8 OrderNone; WriteReg Rsp (TempV 2) 8;
   ReadReg 3 Rsp; Load 4 (TempV 3) 8; Add 5 (TempV 3) (Imm 8) 8 0; WriteReg Rsp (TempV 5) 8; WriteReg Rbx (TempV 4) 8] = [] ++ new1 ++ new2 /\
  run_ops (LM := no_libm) ex_ir 0x100 new1 ex_at = Some (None, s1) /\ run_ops (LM := no_libm) ex_ir 0x101 new2 s1 = Some (None, s2) /\
  write_reg ex_cpu Rbx (Interp.read_reg ex_cpu Rax) 8 = Some (m_cpu s2).
Proof.
  apply (stack_round_trip (LM := no_libm) (V := sample_view) ex_ir 0x100 0x101 (mkSample 0x100 SPush) (mkSample 0x101 SPop) Rax Rbx ex_at []
    [ReadReg 0 Rax; ReadReg 1 Rsp; Sub 2 (TempV 1) (Imm 8) 8 0; Store (TempV 2) (TempV 0) 8 OrderNone; WriteReg Rsp (TempV 2) 8] _ 0 3 6 false false).
  - reflexivity.
  - reflexivity.
  - repeat constructor; discriminate.
  - reflexivity.
  - reflexivity.
  - apply ex_at_quiet.
  - vm_compute. reflexivity.
  - vm_compute. reflexivity.
  - vm_compute. reflexivity.
  - cbn. lia.
  - cbn. lia.
Defined.
