(* ===== verification/LowerGap.v ===== *)
(** * Where the lowering departs from the instruction

    Four forms whose ops do something else than the instruction they stand for. *)

From S2P Require Import Prelude Features State Ir Alu Memory PageTrack Interp IntegerSpec StringOps Control HostFloat F80 F80Trans X87 X87Arm VecOps VecAtomic VecOp Block Frame Walk Lift Elide Insn LiftInt LiftCtl LiftVec LiftInsn InsnSpec LowerInt LowerSem LowerAlu LowerSpec Sample LowerExact.

(** ** Write masks *)

Section Masks.
Context `{InsnView}.

(** The EVEX forms of [vandps] share their mnemonic with the VEX forms, and their lowering
    never looks at the opmask. *)
Lemma vandps_ops insn mode ops tg d a b : mnemonic insn = Mnemonic.Vandps -> reg_ymm insn 0 = None ->
  reg_xmm insn 0 = Some d -> reg_xmm insn 1 = Some a -> reg_xmm insn 2 = Some b ->
  lower_insn insn mode ops tg = Some (Ok (false, ops ++ [Vector (VLogic d a b VAnd); Vector (VZeroUpper d)], tg)).
Proof.
  intros Em Hy Hd Ha Hb. unfold lower_insn, insn_arms. do 4 skip_arm Em.
  rewrite (first_arm_take _ _ _ _ (more (lift_vlogic_avx insn VAnd))) by (unfold lift_avx_arms; by rewrite Em).
  unfold lift_vlogic_avx. rewrite Hy. unfold lift_vlogic_vex. rewrite Hd, Ha. unfold vec_src_dispatch. rewrite Hb.
  unfold more, vpush, mbind, L_bind, mret, L_ret, push. cbn. by rewrite <- app_assoc.
Qed.
End Masks.

(** ** Runs of the sample instructions *)

Definition ops_of (o : SampleOp) : list IrOp :=
  match lower_insn (mkSample 0x100 o) Long64 [] 0%nat with Some (Ok (_, l, _)) => l | _ => [] end.
Definition pass (o : SampleOp) (s : mach) : option (option StepResult * mach) := run_ops (LM := no_libm) ex_ir 0x100 (ops_of o) s.

(** RAX is [rax], RBX points to [at_]. *)
Definition ex_regs (rax at_ : Z) : mach := mkMach (put_gpr (put_gpr default_cpu 0 rax) 3 at_) ex_mem (replicate 8 0).

(** The exits of a run that the embedder resumes with the answers [l]: a device read is
    answered with a value, a device write is acknowledged. *)
Fixpoint serve (o : SampleOp) (l : list Z) (s : mach) : option (list Exit * mach) :=
  '(r, s) ← pass o s;
  match r, l with
  | None, _ => Some ([], s)
  | Some (SExit x), v :: l =>
      let c := match x with MmioWrite _ _ _ => complete_mmio_write (m_cpu s) | _ => complete_mmio_read (m_cpu s) v end in
      '(xs, s) ← serve o l (mkMach c (m_mem s) (m_temps s)); Some (x :: xs, s)
  | Some _, _ => None
  end.

(** ** Theorems *)

(** A write mask is dropped: [vandps xmm{k}, xmm, xmm] is lowered to the unmasked and
    and the clearing of the upper lanes whatever its mask, where the masked lanes of the
    destination are to be kept or zeroed. *)
Theorem evex_mask_dropped `{InsnView} (insn : Instruction) (mode : CpuMode) (ops : list IrOp) (tg d a b k : nat) :
  mnemonic insn = Mnemonic.Vandps -> reg_ymm insn 0 = None -> reg_xmm insn 0 = Some d -> reg_xmm insn 1 = Some a ->
  reg_xmm insn 2 = Some b -> evex_writemask insn = Some k ->
  lower_insn insn mode ops tg = Some (Ok (false, ops ++ [Vector (VLogic d a b VAnd); Vector (VZeroUpper d)], tg)).
Proof. intros Em Hy Hd Ha Hb _. by apply vandps_ops. Qed.

Lemma evex_mask_dropped_witness : lower_insn (mkSample 0x100 SVandps) Long64 [] 0%nat =
  Some (Ok (false, [Vector (VLogic 0 1 2 VAnd); Vector (VZeroUpper 0)], 0%nat)).
Proof. apply (evex_mask_dropped (H0 := sample_view) (mkSample 0x100 SVandps) Long64 [] 0 0 1 2 1); vm_compute; reflexivity. Defined.

(** A device read-modify-write with carry is not restartable.  [adc \[rbx\], rax] on a
    device, with RAX 1, carry clear and the device reading as all ones, asks for the read,
    writes 0, and then asks for the read again: the flags were already those of the first
    sum, so the second sum takes the new carry, and the instruction ends with ZF clear though
    the value the device received is 0. *)
Theorem adc_device_flags_wrong :
  exists s, serve SAdcMem [2 ^ 64 - 1; 0; 2 ^ 64 - 1] (ex_regs 1 8192) =
      Some ([MmioRead 8192 8; MmioWrite 8192 8 0; MmioRead 8192 8], s) /\
    r_zf (alu_add (2 ^ 64 - 1) 1 0 8) = true /\ zf (flags (m_cpu s)) = false.
Proof. eexists. split; [vm_compute; reflexivity|]. split; vm_compute; reflexivity. Qed.

(** A successful 32-bit compare and exchange clears the upper half of RAX: the
    accumulator is written on success too, at 32 bits. *)
Theorem cmpxchg_success_clears_rax :
  exists s, pass SCmpxchg (ex_regs (2 ^ 32) 0x10) = Some (None, s) /\ zf (flags (m_cpu s)) = true /\
    Interp.read_reg (m_cpu s) Rax = 0.
Proof. eexists. split; [vm_compute; reflexivity|]. split; vm_compute; reflexivity. Qed.
